(* ===== verification/_CoqProject ===== *)
-Q . S2P
Prelude.v
OMap.v
Text.v
Version.v
VersionText.v
Digest.v
Tag.v
Cascade.v
PackageRef.v
Platform.v
Registry.v
Client.v
Push.v
Publish.v
CascadeGraph.v
CascadeFacts.v
CascadeRepair.v
Samples.v
CascadeIO.v
CascadeSpec.v
Reliable.v
PublishSpec.v
CheckSpec.v
SampleRegistry.v
UpgradeTarget.v
Prune.v
PruneSpec.v
PruneConverge.v
SamplePrune.v
Store.v
Gc.v
GcSpec.v
Clean.v
CleanSpec.v
SampleStore.v
Closure.v
ClosureSpec.v
ClosureWalkSpec.v
TextSearch.v
Metadata.v
RootMerge.v
RootMergeSpec.v
Template.v
TemplateSpec.v
EnvVars.v
EnvVarsSpec.v
PublishGate.v
Compose.v
GateSpec.v
ComposeSpec.v
SampleEnv.v
Reconcile.v
ReconcileSpec.v
RcBlock.v
RcBlockSpec.v
SetupRun.v
SetupSpec.v
SampleShell.v
Trust.v
TrustSpec.v
Config.v
ConfigLoad.v
ConfigSpec.v
ConfigRules.v
SampleConfig.v
Ssrf.v
IndexStore.v
LocalIndex.v
IndexChain.v
ChainSpec.v
IndexSelect.v
IndexDiskSpec.v
IndexUpdateSpec.v
SampleIndex.v
ProjectConfig.v
ProjectLock.v
LockSpec.v
ToolSet.v
ProjectMutation.v
SampleProject.v
