(* ===== verification/Prelude.v ===== *)
(** * A verification library for ocx, the OCI-backed package manager

    ocx publishes packages as OCI artifacts.  A package lives in one repository of
    an OCI registry; every published version has a tag, and so has every rolling
    alias of it ([3.28.1] rolls into [3.28], [3] and [latest]; [debug-3.28.1] into
    [debug-3.28], [debug-3] and [debug]).  A tag serves an image index with one
    entry per platform.  On the user's side it keeps the packages in a content-addressed
    store, resolves their dependencies and composes environments out of them.  The
    library models the part of the program that keeps those tags right, from the texts
    it parses to the registry writes it makes, the store and its garbage collection, the
    local index and the chain of sources behind it, the project file with its lock, the way
    from a package's metadata to the environment of a child process and to the user's
    shell, and the layered configuration with the trust policies and locks it carries.

    ** The parts and where they are modelled

    - Versions ([crates/ocx_package/src/version.rs], [version/build_meta.rs]):
      [Version.v] has the nested record, the parent chain, [impl Ord] branch by
      branch and [with_build]; [VersionText.v] has the regular expression as a
      scanner, [Version::parse], [Display] and [variant_names].
    - Digests and tags ([crates/ocx_oci/src/digest.rs], [tag.rs],
      [crates/ocx_package/src/tag.rs]): [Digest.v] and [Tag.v], the classification
      of a tag and the reserved namespaces.
    - References ([crates/ocx_oci/src/package_ref.rs], [oci_identifier.rs]):
      [PackageRef.v], every parser with its errors, and printing.
    - Platforms ([crates/ocx_oci/src/platform.rs] and its submodules): [Platform.v],
      the text form with escapes, the OCI object, compatibility, selection.
    - Registry documents and the transport ([manifest.rs], [manifest_builder.rs],
      [media_type.rs], [client/transport.rs]): [Registry.v].  The transport is the
      class [Transport] over a world type; JSON and hashing are the class [Codec].
    - The registry client ([client.rs], [client/mirror_map.rs], [layer_ref.rs],
      [layer_layout.rs]): [Client.v] has the reads, probes and listing, [Push.v] the
      index merge, the package push and the keep tag.
    - The cascade ([crates/ocx_package/src/cascade.rs], [publisher.rs], [info.rs], and
      the cascade branch of [crates/ocx_cli/src/command/package_push.rs]):
      [Cascade.v] has the algebra (targets, blockers, chain), [Publish.v] the
      platform-aware resolution and the pushes.
    - Check and repair ([cascade/graph.rs], [cascade/gather.rs], [cascade/apply.rs]):
      [CascadeGraph.v] has all of the I/O-free core, [CascadeIO.v] the gathering, the
      preflight and the guarded writes.
    - Pruning ([crates/ocx_package/src/prune.rs], with the root record of
      [crates/ocx_index/src/wire.rs] and the pointer guard of [ocx_index.rs]):
      [Prune.v] has the argument parsers, the location of the repository, the
      selection, the safeguard and the confirmed deletes.
    - Upgrades ([upgrade_target.rs], [concrete_version.rs]): [UpgradeTarget.v].
    - The object store ([crates/ocx_store/src/file_structure.rs] and its modules,
      [crates/ocx_util/src/fs/dir_walker.rs]): [Store.v] has the content-addressed
      paths, the directory walker and the listings of the four tiers, over an operating
      system ([Os]) that is a parameter.
    - Garbage collection and cleaning ([crates/ocx_package_manager/src/tasks/
      garbage_collection.rs], [garbage_collection/reachability_graph.rs], [clean.rs],
      [purge.rs], and the project ledger of [crates/ocx_project/src/registry.rs]):
      [Gc.v] has the reachability graph, its searches and the attribution to lock
      files, [Clean.v] the roots of the projects, the deletions, the sweeps, [clean]
      and the purges, over a disk ([Disk]) that changes as they remove things.
    - Dependencies ([crates/ocx_package/src/metadata/visibility.rs],
      [metadata/dependency.rs], [resolved_package.rs], and the closure walk of
      [crates/ocx_package_manager/src/tasks/common.rs]): [Closure.v] has the two axes of
      visibility, the declarations, the recorded closure, and the concurrent gathering of a
      closure with the fold over it.
    - Package metadata and its templates ([metadata/env/*.rs], [metadata/entrypoint.rs],
      [metadata/bundle.rs], [install_info.rs], [metadata/template.rs] and its modules):
      [Metadata.v] has the data, [Template.v] the scanner of [${...}] tokens, the usage
      gate, the scope of [self.env] tokens and the resolver.
    - The publish gate ([metadata/validation.rs], [metadata/integrations.rs]):
      [PublishGate.v], every check in the order of the code.
    - Environment values ([crates/ocx_util/src/list.rs], [path.rs],
      [crates/ocx_config/src/env.rs], [metadata/env/apply.rs], [env/resolver.rs],
      [env/conflict.rs]): [EnvVars.v] has the path and list values, the child
      environment, the entries applied to it, the settling of separators, the envelope
      forwarded to a child ocx and the resolution of a declared variable.
    - The composed environment ([crates/ocx_package_manager/src/composer.rs]):
      [Compose.v] has [compose] and [compose_companion] with their gates, the loads that
      run concurrently and what roots and dependencies emit.
    - The shell hook ([crates/ocx_shell/src/shell/reconcile.rs], [reconcile/ledger.rs],
      [reconcile/plan.rs], [crates/ocx_package_manager/src/activation.rs] and the emission of
      [crates/ocx_cli/src/command/self_group/activate.rs]): [Reconcile.v] has the plan of one
      prompt, the ledger it carries in a variable, the captured priors and the revert.
    - Setup ([crates/ocx_setup/src/rc_block.rs], [lib.rs], [profiles.rs],
      [session_path.rs], [session_path/linux.rs]): [RcBlock.v] has the fenced block of a
      profile and its state machine, [SetupRun.v] the profile phase, the detection of the
      profiles and the session PATH of Linux, [SetupSpec.v] the version argument.
    - Trust ([crates/ocx_trust/src/lib.rs], [key_ref.rs], and the matching of
      [crates/ocx_sign/src/verify/identity.rs]): [Trust.v] has policies, scopes, key
      references, locks, resolution, compilation and the matching of a signature.  Regular
      expressions, keys and the reads of a key are the class [TrustLib].
    - Configuration ([crates/ocx_config/src/lib.rs], [registry.rs], [mirror.rs],
      [patch.rs], [managed.rs], [update.rs], [shell.rs], [records.rs], [refresh.rs],
      [insecure.rs]): [Config.v] has the document, its merge and what is resolved from it;
      [ConfigLoad.v] ([loader.rs]) has the reading of the tiers, the system locks, the
      guards of the managed payload and the search for the project file, over a host
      ([ConfigHost]: the TOML library, the file system, the environment) that is a
      parameter.
    - The index ([crates/ocx_index/src/store.rs], [local_index.rs], [chained_index.rs],
      [lib.rs], [index_impl.rs], [wire.rs], [regenerate.rs], and the blob tier of the store):
      [IndexStore.v] has the collection on disk with its verified objects, catalogs and
      transactions, [RootMerge.v] the merge of a fetched root document into the local one,
      [LocalIndex.v] the local index and its refresh, [IndexChain.v] the chain of sources
      with its modes and the routing to a physical location, [IndexSelect.v] the choice of a
      candidate for a host.  A source is a record of its operations.
    - The SSRF guard ([crates/ocx_oci/src/ssrf.rs]): [Ssrf.v], the address classes, the
      trusted hosts and the two routes a dial is judged on.
    - Projects ([crates/ocx_project/src/config.rs], [env.rs], [hash.rs], [mutate.rs],
      [lock.rs], [resolve.rs], [compose.rs], [document.rs], [mutation.rs],
      [project_lock.rs], and two functions of
      [crates/ocx_cli/src/app/project_context.rs]): [ProjectConfig.v] has the project file,
      its reading, hash and in-memory edits, [ProjectLock.v] the lock, its text, its binding
      to the file and the three resolutions that make one, [ToolSet.v] the tools of a run,
      [ProjectMutation.v] the edit of the document, the guard over both files and the
      commit.  The index a resolution asks is a record of two reads, which the chain
      provides ([chain_index]); TOML, the clock and the disk are classes.
    - [Prelude.v], [OMap.v], [Text.v] and [TextSearch.v] are the shared base: results and the
      world-passing [io] monad with [let!], lawful orders, [BTreeSet] and [BTreeMap]
      as sorted lists, and strings as lists of bytes.

    Operations keep their names and are composed as the code composes them.  Errors
    are values: [result E A], and [io W E A = W -> result E A * W], so a failed call
    still shows the world it left.  Panics the code could reach are values too
    ([RangePanic], a [None] of [decompose]), and are proved unreachable.

    ** What the theorems show

    - Texts: versions print and parse back ([version_display_roundtrip]), and so do references, platforms,
      digests, tags and version arguments ([platform_text_roundtrip], [digest_roundtrip],
      [tag_string_roundtrip], [version_spec_roundtrip]); the scanner accepts exactly the
      regular expression ([version_regex_language]); a pointer read from a remote index
      cannot carry more than a location ([repository_pointer_exact]); the two
      reservedness tests agree ([tag_reserved_agree]).  [version_parse_minor_overflow]
      shows what [Version::parse] does with a minor number outside [u32].
    - Order: [Ord for Version] is lawful and a subtree of versions is one range of it
      ([version_order_lawful], [version_subtree_is_a_range]), which is what makes the range scans of
      [decompose] exact ([cascade_exact]).
    - Platforms: compatibility is a preorder and selection returns exactly the best
      offers ([compatibility_preorder], [select_best_exact]); the OCI object loses nothing
      ([native_platform_roundtrip]).
    - Check and repair: the fold expects the greatest leaf's entry
      ([fold_expected_greatest]), a clean report means exactly a correct package
      ([check_clean_exact]), applying a repair, requests failing or not, leaves every alias it wrote
      without a missing, stale or duplicate slot and loses only dead orphans ([repair_converges] of [CheckSpec.v]), never
      publishes a dead pointer ([verdict_safe]) and never overwrites what it did not plan from
      ([write_alias_guarded]).
      [repair_orphan_keeps_first] shows what it does with an orphan slot claimed twice.
    - Publishing: [CascadeSpec.v] states the abstract promise (a column of entries per
      platform, every alias carrying the greatest version's entry) and proves that a
      push preserves it; [Reliable.v] has the two interfaces of a registry that stores what
      it is told, [Faulty] (any request may fail) and [Reliable] (manifest requests and
      authentication succeed, blob requests may fail), and what the client's operations do
      against them; [PublishSpec.v] proves that on a reliable registry [push_with_cascade],
      [push_cascade] and [publish] refine the promise over histories of pushes
      ([rolling_tags_exact]), and that on a faulty one a push that stops part way has written
      a prefix of its list, the most specific tags first ([push_leaves_no_gap]); the tags of a package never collide; and
      [CheckSpec.v] closes the circle: after such a history, of versions that are not aliases
      of one another, the check, which recomputes everything from the leaves, finds nothing
      ([published_package_checks_clean]).
      [paginate_complete] shows that listing ends and misses no tag.
    - Pruning: [PruneSpec.v] runs a prune over a transport that records its requests
      and shows, for any registry, which DELETEs it can send ([prune_deletes_permitted]), that its report
      is true ([prune_report_true]) and what of a pre-release it selects and spares
      ([family_selection_exact]); [PruneConverge.v] shows that against a registry that
      deletes as specified a permitted prune ends with exactly the selected tags gone
      ([prune_converges]).
    - Upgrades: the upgrade target follows its policy ([upgrade_target_policy]), and the
      candidates for the version a rolling tag names are exactly the releases that roll
      into it, newest first ([concrete_version_exact]).
    - The store: a listing ends and finds exactly the objects of its tier
      ([store_listing_exact]).  [GcSpec.v] says what holds an object, as a relation between the links, locks
      and manifests on disk, and shows that the graph the collector builds is that
      relation; [CleanSpec.v] that [clean] therefore deletes exactly what nothing holds
      ([gc_exact]) and a purge exactly what its packages led to ([purge_exact]), that an
      unreadable lock or ledger keeps every object, whatever legacy and dead ledger entries
      the run drops first ([clean_fails_closed]), that a dry run tells the truth ([dry_run_exact])
      and that the sweep loses no live project's consent ([sweep_safe]).
    - Dependencies: [ClosureSpec.v] shows that a recorded closure is the transitive
      closure in dependency order, with the visibility its paths give
      ([closure_exact]);
      [ClosureWalkSpec.v] that the concurrent walk computes the same
      for every order in which its fetches finish ([walk_closure_exact]).
    - Templates: [TemplateSpec.v] shows that a template escaped and printed is scanned to
      its own pieces, that a scan loses no byte ([scan_reassembles]), and what a
      template written down resolves to, when, and within which bound
      ([resolve_printed_exact]).
    - Environment values: [EnvVarsSpec.v] shows that applying entries twice is applying
      them once, what the replacement loop of a list value computes
      ([append_unique_reference]), that separators are settled one per variable
      ([reconcile_agrees]), and that a forwarded envelope is read back
      ([forwarded_roundtrip]) and cannot set a reserved variable ([forwarded_gate]).
    - Composition: [GateSpec.v] ties the publish gate to the composer: what passed the
      gate never fails on a token at a consumer ([publish_gate_sound]).  [ComposeSpec.v] shows that a
      composition leaks no variable off its surface ([compose_no_leak]), admits exactly its surface
      closure ([compose_admits_exactly]), does not depend on the order its loads finish in
      ([compose_schedule_free]), and is refused exactly for a repository at two digests
      ([digest_conflicts_exact]).
    - Shell hook: [ReconcileSpec.v] shows that a plan touches nothing but what is desired
      or recorded ([plan_touches_own]), that over any session of prompts and assignments of the user in which
      a constant is declared once and in one scope, every
      constant is given back ([session_gives_back]), and that the recorded ledger is read back
      ([carrier_roundtrip]).  The Examples of [SampleShell.v] show the three places
      where the hook does not give a value back.
    - Setup: [RcBlockSpec.v] reads a profile as the user's lines and the fences between
      them and shows what a run writes and that the next one writes nothing ([apply_settles]), and
      that a removal keeps exactly the user's lines; [SetupSpec.v] carries it to the
      whole profile phase ([setup_phase_dry]) and the session PATH
      ([session_path_settles]).
    - Trust: [TrustSpec.v] states which policies decide a target ([Governs], [Trusts]) and
      shows that the resolution implements it ([trust_resolve_governs]), that a pin of the system tier decides
      alone ([system_pin_governs_alone]), when a policy compiles, and that a certificate or a key signature is
      accepted exactly when a signer of a deciding policy names it
      ([certificate_accepted_exact], [key_signature_accepted_exact]); a key's path is anchored once ([anchor_settles]).
    - Configuration: [ConfigSpec.v] shows that what the system file locks stands after a
      whole load ([system_locks_hold]), what a managed payload can and cannot change ([managed_payload_bounded]) and what consent
      the tiers add up to ([consent_tiers_exact]); [ConfigRules.v] that a consent pattern names one
      organisation, that a mirrored host is never reached directly, where plain
      HTTP is allowed ([insecure_hosts_exact]), that a locked managed source cannot be
      redirected ([locked_source_stands]) and which project file is found
      ([project_walk_nearest]).
    - The index: [ChainSpec.v] shows, for any sources, that a digest named by a reference, or by a row of
      the local index whose object is not corrupt, is never
      answered by another ([named_digest_never_moves]), that an offline chain runs no
      operation of a source ([offline_asks_no_source]) and that a source that owns a
      registry has the last word on it ([owner_has_last_word]); [IndexSelect.v] that a
      selection follows the pinned manifest ([selection_follows_the_pin]); [IndexDiskSpec.v]
      which files a lookup may change ([lookups_keep_the_index]); [RootMergeSpec.v] what a
      merge keeps and takes ([merge_root_exact]); [IndexUpdateSpec.v] that an update in any
      order of its fetches loses no object the root still pins
      ([update_loses_no_pinned_object]).
    - The SSRF guard: what it admits reaches no local address, plain or in one of the three
      IPv6 forms the code unwraps ([guard_admits_no_local_target]).
    - Projects: an edit changes the binding it names and what follows it
      ([project_edit_exact]).  [LockSpec.v] shows that over any history of edits, updates
      and reconciliations that turn no binding into a reference the lock stays faithful to the file ([locks_stay_faithful]), that
      no pin moves that was not asked to ([touched_keeps_other_pins],
      [reconcile_moves_only_changed]), that a host takes from a lock what it would take from
      the index ([lock_read_agrees]) and that a lock is read back ([lock_text_roundtrip]).
      [ToolSet.v] shows which tools a run gets ([tool_set_exact]), [ProjectMutation.v] that
      a commit writes both files, or fails and leaves each whole, as it was or, when a
      directory sync or the restoring of the lock failed, with its new text
      ([commit_leaves_files_whole]), and that the edit of
      the file leaves the other lines alone ([document_edit_minimal]).  The Examples of
      [SampleProject.v] show a reconciliation that locks one binding twice and a commit that
      splits the pair.

    [Samples.v], [SampleRegistry.v], [SamplePrune.v], [SampleStore.v], [SampleEnv.v],
    [SampleShell.v], [SampleConfig.v], [SampleIndex.v] and [SampleProject.v] instantiate every
    parameter (an OCI library, an order on platform objects, a codec, an in-memory
    registry, disks, a host with configuration files, index sources, a clock) and run the
    properties with hypotheses on concrete packages.

    ** Bounds and fuel

    [paginate] loops until a short page; its fuel counts pages, and more fuel than
    tags is enough ([paginate_complete]); [publish] and [prune] hand their fuel to it.  [walk] uses one
    unit of fuel per directory level, six for the three tiers of fixed depth and, for the
    shims, two more than their directories are deep ([store_listing_exact]); the collector's searches take
    one step per start and per edge, which [worklist_total] shows to be enough.  The
    closure walk needs one join per identity it meets and a visit depth above the rank of
    the root ([walk_closure_exact]).  The replacement loop of a list value removes at
    least a byte each time, so its fuel is the length of the text
    ([append_unique_reference]); the scanner and the
    resolver recurse on the text and the segments.  The concurrent loads of a composition are
    joined once each, in the order a schedule picks ([compose_schedule_free]).  [ancestors] follows [parent] with
    the version's depth, at most four.  [dec_digits] prints with ten digits of fuel, enough
    for any [u32].
    The scans of a profile and the walk to a project file recurse on the lines and on the
    directories above the start.
    The resolution of a lock joins its tasks in the order a schedule picks, with one unit of
    fuel per task, and retries a fetch as often as its options say; an index refresh joins
    its fetches the same way.
    Numbers are kept as [N] with the bound checks of [u32::from_str] and
    [i64::try_from] written out.

    ** What is not modelled

    The HTTP transport, JSON and hash functions are parameters.  Logging, progress
    bars and the texts of some reasons are left out.  Reads the code runs concurrently
    are run in order, and so are the layer uploads.  Two processes racing on one tag
    are outside the publishing theorems, whose steps are whole pushes; the repair's
    guard against such races is [write_alias_guarded].  The histories exclude publishing a version that
    is a rolling alias of another one.  The operating system is a parameter; the parsed
    lock files, the patch roots and the temp store's locks enter cleaning as parameters,
    and the fetch of one node enters the closure walk as one.  A deletion that races an
    installation is outside the cleaning theorems, as the code says of itself.  JSON texts,
    the metadata files of a stored object, the existence of a path and the edit distance
    behind a hint enter templates and composition as parameters, and the environment is
    that of a Unix host.  The TOML and regular expression libraries, keys and certificates
    are parameters of the configuration and of trust; the texts of some reasons are left
    out.  The wait for a file lock belongs to the disk of its component.  The index sources
    themselves (the HTTP transport of an index, the OCI registry as a source, the caching of
    documents), the listing of repositories, resolution and installation of packages into the
    store, consent, the toolchain home, the shells' own scripts, the signing pipelines, announcements, the
    script host, the console and the command line are not modelled. *)

From stdpp Require Import base decidable list option numbers strings.
From Stdlib Require Import Lia.

#[export] Set Default Goal Selector "!".
#[global] Arguments String.append : simpl nomatch.
#[export] Set Warnings "-clear-no-such-hyp".

(** ** Notations, in a scope of their own *)

Declare Scope ocx_scope.
Delimit Scope ocx_scope with ocx.

(** The error paths of the code: Rust's [Result<T, E>]. *)
Inductive result (E A : Type) : Type :=
| Ok (a : A)
| Err (e : E).

Arguments Ok {E A} a.
Arguments Err {E A} e.

Definition result_bind {E A B : Type} (r : result E A) (k : A -> result E B) : result E B :=
  match r with
  | Ok a => k a
  | Err e => Err e
  end.

Notation "'let?' x := r 'in' k" := (result_bind r (fun x => k))
  (at level 10, x name, r at level 100, k at level 200) : ocx_scope.

Definition is_ok {E A : Type} (r : result E A) : bool :=
  match r with Ok _ => true | Err _ => false end.

Definition result_map_err {E F A : Type} (f : E -> F) (r : result E A) : result F A :=
  match r with Ok a => Ok a | Err e => Err (f e) end.

(** ** Effects

    An async call of the code: it reads and writes the world [W] (the registry,
    the file system) and returns a [Result].  A failed call keeps the changes it
    had made. *)

Definition io (W E A : Type) : Type := W -> result E A * W.

Definition io_ret {W E A : Type} (a : A) : io W E A := fun w => (Ok a, w).
Definition io_fail {W E A : Type} (e : E) : io W E A := fun w => (Err e, w).
Definition io_of {W E A : Type} (r : result E A) : io W E A := fun w => (r, w).
Definition io_bind {W E A B : Type} (m : io W E A) (k : A -> io W E B) : io W E B :=
  fun w => match m w with
           | (Ok a, w') => k a w'
           | (Err e, w') => (Err e, w')
           end.
(** [match call.await]: the outcome itself, as a value. *)
Definition io_try {W E F A : Type} (m : io W E A) : io W F (result E A) :=
  fun w => let '(r, w') := m w in (Ok r, w').
Definition io_map_err {W E F A : Type} (f : E -> F) (m : io W E A) : io W F A :=
  fun w => let '(r, w') := m w in (result_map_err f r, w').

Notation "'let!' x := m 'in' k" := (io_bind m (fun x => k))
  (at level 10, x name, m at level 100, k at level 200) : ocx_scope.

(** A loop over a list whose body runs in the world, stopping at the first error. *)
Fixpoint io_foldl {W E A B : Type} (f : B -> A -> io W E B) (acc : B) (l : list A) : io W E B :=
  match l with
  | [] => io_ret acc
  | a :: l' => io_bind (f acc a) (fun acc' => io_foldl f acc' l')
  end.

(** ** Orders

    [std::cmp::Ord]: a comparison function whose laws are those the standard
    library documents (total, antisymmetric, transitive, [Equal] iff equal). *)

Class TotalOrd (A : Type) := {
  ord_cmp : A -> A -> comparison;
  ord_cmp_eq : forall x y, ord_cmp x y = Eq <-> x = y;
  ord_cmp_opp : forall x y, ord_cmp y x = CompOpp (ord_cmp x y);
  ord_cmp_trans : forall x y z, ord_cmp x y = Lt -> ord_cmp y z = Lt -> ord_cmp x z = Lt;
}.

#[global] Arguments ord_cmp {A _} x y : simpl never.

Notation "x <o y" := (ord_cmp x y = Lt) (at level 70) : ocx_scope.
Local Open Scope ocx_scope.

(** [Ordering::then] / the early-return chains of a hand-written [cmp]. *)
Definition cmp_then (c d : comparison) : comparison :=
  match c with Eq => d | _ => c end.

(** [Option]'s derived order: [None] first. *)
Definition option_cmp {A : Type} (f : A -> A -> comparison) (x y : option A) : comparison :=
  match x, y with
  | None, None => Eq
  | None, Some _ => Lt
  | Some _, None => Gt
  | Some a, Some b => f a b
  end.

(** The order with [None] last. *)
Definition option_cmp_last {A : Type} (f : A -> A -> comparison) (x y : option A) : comparison :=
  match x, y with
  | None, None => Eq
  | None, Some _ => Gt
  | Some _, None => Lt
  | Some a, Some b => f a b
  end.

Definition pair_cmp {A B : Type} (f : A -> A -> comparison) (g : B -> B -> comparison)
    (x y : A * B) : comparison :=
  cmp_then (f x.1 y.1) (g x.2 y.2).

(** The laws as a predicate on a comparison function, so that combinators can
    be shown lawful before they become instances. *)
Record lawful {A : Type} (f : A -> A -> comparison) : Prop := {
  lawful_eq : forall x y, f x y = Eq <-> x = y;
  lawful_opp : forall x y, f y x = CompOpp (f x y);
  lawful_trans : forall x y z, f x y = Lt -> f y z = Lt -> f x z = Lt;
}.

Definition ord_of_lawful {A : Type} (f : A -> A -> comparison) (H : lawful f) : TotalOrd A := {|
  ord_cmp := f;
  ord_cmp_eq := lawful_eq f H;
  ord_cmp_opp := lawful_opp f H;
  ord_cmp_trans := lawful_trans f H;
|}.

Lemma ord_lawful {A : Type} `{TotalOrd A} : lawful (@ord_cmp A _).
Proof. split; [apply ord_cmp_eq | apply ord_cmp_opp | apply ord_cmp_trans]. Qed.

Lemma lawful_refl {A : Type} (f : A -> A -> comparison) (H : lawful f) x : f x x = Eq.
Proof. by apply (lawful_eq f H). Qed.

Lemma lawful_gt {A : Type} (f : A -> A -> comparison) (H : lawful f) x y :
  f x y = Gt <-> f y x = Lt.
Proof. rewrite (lawful_opp f H x y). destruct (f x y); naive_solver. Qed.

(** Case analysis on every comparison in sight. *)
Ltac cmp_cases :=
  repeat match goal with
  | H : context [match ?c with Eq => _ | Lt => _ | Gt => _ end] |- _ => destruct c eqn:?; simplify_eq/=
  | |- context [match ?c with Eq => _ | Lt => _ | Gt => _ end] => destruct c eqn:?; simplify_eq/=
  end.

Lemma lawful_option {A : Type} (f : A -> A -> comparison) : lawful f -> lawful (option_cmp f).
Proof.
  intros H; split.
  - intros [x|] [y|]; simpl; try naive_solver. rewrite (lawful_eq f H). naive_solver.
  - intros [x|] [y|]; simpl; try done. apply (lawful_opp f H).
  - intros [x|] [y|] [z|]; simpl; try done. apply (lawful_trans f H).
Qed.

Lemma lawful_option_last {A : Type} (f : A -> A -> comparison) : lawful f -> lawful (option_cmp_last f).
Proof.
  intros H; split.
  - intros [x|] [y|]; simpl; try naive_solver. rewrite (lawful_eq f H). naive_solver.
  - intros [x|] [y|]; simpl; try done. apply (lawful_opp f H).
  - intros [x|] [y|] [z|]; simpl; try done. apply (lawful_trans f H).
Qed.

Lemma lawful_pair {A B : Type} (f : A -> A -> comparison) (g : B -> B -> comparison) :
  lawful f -> lawful g -> lawful (pair_cmp f g).
Proof.
  intros Hf Hg; unfold pair_cmp, cmp_then; split.
  - intros [a b] [a' b']; simpl. destruct (f a a') eqn:E.
    + apply (lawful_eq f Hf) in E as ->. rewrite (lawful_eq g Hg). naive_solver.
    + split; [done | intros [= -> ->]]. by rewrite (lawful_refl f Hf) in E.
    + split; [done | intros [= -> ->]]. by rewrite (lawful_refl f Hf) in E.
  - intros [a b] [a' b']; simpl. rewrite (lawful_opp f Hf a a'), (lawful_opp g Hg b b').
    by destruct (f a a').
  - intros [a b] [a' b'] [a'' b'']; simpl.
    destruct (f a a') eqn:E1; [apply (lawful_eq f Hf) in E1 as -> | | done].
    + destruct (f a' a'') eqn:E2; [|done|done]. intros; eapply (lawful_trans g Hg); eauto.
    + intros _. destruct (f a' a'') eqn:E2; [| |done].
      * apply (lawful_eq f Hf) in E2 as ->. by rewrite E1.
      * intros _. by rewrite (lawful_trans f Hf _ _ _ E1 E2).
Qed.

(** Lexicographic order on lists. *)
Fixpoint list_cmp {A : Type} (f : A -> A -> comparison) (x y : list A) : comparison :=
  match x, y with
  | [], [] => Eq
  | [], _ :: _ => Lt
  | _ :: _, [] => Gt
  | a :: x', b :: y' => cmp_then (f a b) (list_cmp f x' y')
  end.

Lemma lawful_list {A : Type} (f : A -> A -> comparison) : lawful f -> lawful (list_cmp f).
Proof.
  intros H; split.
  - induction x as [|a x IH]; intros [|b y]; simpl; try done. unfold cmp_then. destruct (f a b) eqn:E.
    + apply (lawful_eq f H) in E as ->. rewrite IH. naive_solver.
    + split; [done|]. intros [= -> ->]. by rewrite (lawful_refl f H) in E.
    + split; [done|]. intros [= -> ->]. by rewrite (lawful_refl f H) in E.
  - induction x as [|a x IH]; intros [|b y]; simpl; try done. unfold cmp_then.
    rewrite (lawful_opp f H a b), IH. by destruct (f a b).
  - induction x as [|a x IH]; intros [|b y] [|c z]; simpl; try done. unfold cmp_then.
    destruct (f a b) eqn:E1; [apply (lawful_eq f H) in E1 as -> | | done].
    + destruct (f b c) eqn:E2; [|done|done]. apply IH.
    + intros _. destruct (f b c) eqn:E2; [| |done].
      * apply (lawful_eq f H) in E2 as ->. by rewrite E1.
      * intros _. by rewrite (lawful_trans f H _ _ _ E1 E2).
Qed.

(** An order pulled back along an injection (a struct compared field by field). *)
Lemma lawful_inj {A B : Type} (h : A -> B) (f : B -> B -> comparison) :
  (forall x y, h x = h y -> x = y) -> lawful f -> lawful (fun x y => f (h x) (h y)).
Proof.
  intros Hi H; split; intros.
  - rewrite (lawful_eq f H). naive_solver.
  - apply (lawful_opp f H).
  - by eapply (lawful_trans f H).
Qed.

Lemma lawful_ext {A : Type} (f g : A -> A -> comparison) :
  (forall x y, g x y = f x y) -> lawful f -> lawful g.
Proof.
  intros E H; split; intros; rewrite ?E in *.
  - apply (lawful_eq f H).
  - apply (lawful_opp f H).
  - by eapply (lawful_trans f H).
Qed.

Lemma lawful_N : lawful N.compare.
Proof.
  split.
  - apply N.compare_eq_iff.
  - intros; apply N.compare_antisym.
  - intros x y z; rewrite !N.compare_lt_iff; lia.
Qed.

Lemma ascii_compare_trans a b c :
  Ascii.compare a b = Lt -> Ascii.compare b c = Lt -> Ascii.compare a c = Lt.
Proof. unfold Ascii.compare. rewrite !N.compare_lt_iff. lia. Qed.

Lemma string_compare_refl s : String.compare s s = Eq.
Proof.
  induction s as [|a s IH]; simpl; [done|].
  unfold Ascii.compare. by rewrite N.compare_refl.
Qed.

Lemma lawful_string : lawful String.compare.
Proof.
  split.
  - intros x y; split; [apply String.compare_eq_iff | intros ->; apply string_compare_refl].
  - intros; apply String.compare_antisym.
  - induction x as [|a x IH]; intros [|b y] [|c z]; simpl; try done.
    destruct (Ascii.compare a b) eqn:E1; [apply Ascii.compare_eq_iff in E1 as -> | | done].
    + destruct (Ascii.compare b c) eqn:E2; [|done|done]. apply IH.
    + intros _. destruct (Ascii.compare b c) eqn:E2; [| |done].
      * apply Ascii.compare_eq_iff in E2 as ->. by rewrite E1.
      * intros _. by rewrite (ascii_compare_trans _ _ _ E1 E2).
Qed.

#[export] Instance N_ord : TotalOrd N := ord_of_lawful _ lawful_N.
#[export] Instance pair_ord {A B : Type} `{TotalOrd A} `{TotalOrd B} : TotalOrd (A * B) :=
  ord_of_lawful (pair_cmp ord_cmp ord_cmp) (lawful_pair _ _ ord_lawful ord_lawful).
#[export] Instance string_ord : TotalOrd string := ord_of_lawful _ lawful_string.

Lemma ord_refl {A : Type} `{TotalOrd A} (x : A) : ord_cmp x x = Eq.
Proof. by apply ord_cmp_eq. Qed.

Lemma ord_irrefl {A : Type} `{TotalOrd A} (x : A) : ~ x <o x.
Proof. rewrite ord_refl. done. Qed.

Lemma ord_gt {A : Type} `{TotalOrd A} (x y : A) : ord_cmp x y = Gt <-> y <o x.
Proof. apply (lawful_gt _ ord_lawful). Qed.

Lemma ord_asym {A : Type} `{TotalOrd A} (x y : A) : x <o y -> ~ y <o x.
Proof. intros H1 H2. apply (ord_irrefl x). by eapply ord_cmp_trans. Qed.

Lemma ord_ne {A : Type} `{TotalOrd A} (x y : A) : x <o y -> x <> y.
Proof. intros H1 ->. by apply (ord_irrefl y). Qed.

Lemma ord_total {A : Type} `{TotalOrd A} (x y : A) : x <o y \/ x = y \/ y <o x.
Proof.
  destruct (ord_cmp x y) eqn:E.
  - right; left. by apply ord_cmp_eq.
  - by left.
  - right; right. by apply ord_gt.
Qed.

(** Equality tests of the code on ordered data. *)
Definition ord_eqb {A : Type} `{TotalOrd A} (x y : A) : bool :=
  match ord_cmp x y with Eq => true | _ => false end.

Lemma ord_eqb_eq {A : Type} `{TotalOrd A} (x y : A) : ord_eqb x y = true <-> x = y.
Proof. unfold ord_eqb. rewrite <- ord_cmp_eq. destruct (ord_cmp x y); naive_solver. Qed.

Lemma ord_eqb_refl {A : Type} `{TotalOrd A} (x : A) : ord_eqb x x = true.
Proof. by apply ord_eqb_eq. Qed.

Lemma ord_eqb_neq {A : Type} `{TotalOrd A} (x y : A) : ord_eqb x y = false <-> x <> y.
Proof. rewrite <- ord_eqb_eq. destruct (ord_eqb x y); naive_solver. Qed.

Definition ord_ltb {A : Type} `{TotalOrd A} (x y : A) : bool :=
  match ord_cmp x y with Lt => true | _ => false end.

Lemma ord_ltb_lt {A : Type} `{TotalOrd A} (x y : A) : ord_ltb x y = true <-> x <o y.
Proof. unfold ord_ltb. destruct (ord_cmp x y); naive_solver. Qed.

#[export] Instance ord_eq_dec {A : Type} `{TotalOrd A} : EqDecision A | 100.
Proof.
  intros x y. destruct (ord_cmp x y) eqn:E.
  - left. by apply ord_cmp_eq.
  - right. by apply ord_ne.
  - right. apply ord_gt in E. intros ->. by apply (ord_irrefl y).
Defined.

(** ** Lists *)

Lemma last_In {A : Type} (l : list A) (d : A) : l <> [] -> In (List.last l d) l.
Proof.
  induction l as [|x l IH]; [done|]. intros _. destruct l as [|y l]; [by left|].
  right. by apply IH.
Qed.

Lemma existsb_false_In {A : Type} (f : A -> bool) (l : list A) x : existsb f l = false -> In x l -> f x = false.
Proof.
  intros H Hx. destruct (f x) eqn:E; [|done]. rewrite <- H. symmetry. apply existsb_exists. eauto.
Qed.

Lemma filter_nil_all {A : Type} (f : A -> bool) (l : list A) : (forall x, In x l -> f x = false) -> List.filter f l = [].
Proof.
  induction l as [|x l IH]; simpl; intros H; [done|]. rewrite (H x (or_introl eq_refl)). apply IH. auto.
Qed.

(** ** Hints shared by the components *)

Create HintDb ocx.
Create Rewrite HintDb ocx.
#[export] Hint Resolve ord_refl ord_eqb_refl : ocx.
#[export] Hint Rewrite @ord_eqb_eq @ord_eqb_neq @ord_ltb_lt @andb_true_iff @orb_true_iff
  @negb_true_iff @negb_false_iff @forallb_forall @existsb_exists : ocx.

(** Turn boolean facts of the code into propositions. *)
Ltac to_prop := autorewrite with ocx in *; simplify_eq/=.
