(* ===== verification/OMap.v ===== *)
(** * Ordered maps and sets

    The [BTreeMap] and [BTreeSet] of the Rust standard library, as strictly
    ascending association lists over a [TotalOrd] key.  Iteration order is part
    of what the code relies on (a fold over ascending versions whose last write
    wins), so the model keeps it: a map is the list of its entries in iteration
    order, and well-formedness is strict ascent. *)

From stdpp Require Import base decidable list option numbers strings.
From Stdlib Require Import Lia Sorting.
From S2P Require Import Prelude.
Local Open Scope ocx_scope.

(** ** [BTreeSet<K>] *)

Section OSet.
Context {K : Type} `{TotalOrd K}.
Implicit Types (k : K) (s : list K).

(** [BTreeSet::insert]. *)
Fixpoint os_insert k s : list K :=
  match s with
  | [] => [k]
  | k' :: s' =>
      match ord_cmp k k' with
      | Lt => k :: s
      | Eq => s
      | Gt => k' :: os_insert k s'
      end
  end.

(** [BTreeSet::contains]. *)
Definition os_mem k s : bool := existsb (ord_eqb k) s.

(** [iter.collect::<BTreeSet<_>>()]. *)
Definition os_of_list (l : list K) : list K := foldl (fun s k => os_insert k s) [] l.

(** [BTreeSet::extend]. *)
Definition os_extend s (l : list K) : list K := foldl (fun s k => os_insert k s) s l.

(** [BTreeSet::range] with [(Excluded(lo), Excluded(hi))]: panics ([None]) when
    the start is after the end, or equal to it with both ends excluded. *)
Definition os_range_excl (lo hi : K) s : option (list K) :=
  match ord_cmp lo hi with
  | Lt => Some (List.filter (fun x => ord_ltb lo x && ord_ltb x hi) s)
  | _ => None
  end.

(** [BTreeSet::range] with [(Excluded(lo), Unbounded)]: never panics. *)
Definition os_range_above (lo : K) s : list K := List.filter (fun x => ord_ltb lo x) s.

Definition os_wf s : Prop := StronglySorted (fun x y => x <o y) s.

Lemma os_mem_In k s : os_mem k s = true <-> In k s.
Proof.
  unfold os_mem. rewrite existsb_exists. split.
  - intros (x & Hx & E). to_prop. done.
  - intros Hx. exists k. eauto with ocx.
Qed.

Lemma os_insert_In k x s : In x (os_insert k s) <-> x = k \/ In x s.
Proof.
  induction s as [|k' s IH]; simpl; [naive_solver|].
  destruct (ord_cmp k k') eqn:E; simpl.
  - apply ord_cmp_eq in E as ->. naive_solver.
  - naive_solver.
  - rewrite IH. naive_solver.
Qed.

Lemma os_insert_wf k s : os_wf s -> os_wf (os_insert k s).
Proof.
  induction 1 as [|k' s Hs IH Hall]; simpl.
  - repeat constructor.
  - destruct (ord_cmp k k') eqn:E.
    + by constructor.
    + constructor; [by constructor|]. constructor; [done|].
      rewrite List.Forall_forall in Hall |- *. intros x Hx. by eapply ord_cmp_trans, Hall.
    + constructor; [done|]. rewrite List.Forall_forall in Hall |- *.
      intros x [-> | Hx]%os_insert_In; [by apply ord_gt | by apply Hall].
Qed.

Lemma os_extend_In x l : forall s, In x (os_extend s l) <-> In x s \/ In x l.
Proof.
  induction l as [|a l IH]; simpl; intros s; [naive_solver|].
  rewrite IH, os_insert_In. naive_solver.
Qed.

Lemma os_extend_wf l : forall s, os_wf s -> os_wf (os_extend s l).
Proof. induction l as [|a l IH]; simpl; auto using os_insert_wf. Qed.

Lemma os_of_list_In x l : In x (os_of_list l) <-> In x l.
Proof. unfold os_of_list. rewrite (os_extend_In x l []). naive_solver. Qed.

Lemma os_of_list_wf l : os_wf (os_of_list l).
Proof. apply (os_extend_wf l []). constructor. Qed.

Lemma os_wf_NoDup s : os_wf s -> List.NoDup s.
Proof.
  intros Hs. induction Hs as [|x s Hs IH Hx]; constructor; [|done].
  rewrite List.Forall_forall in Hx. intros Hin%Hx. by apply ord_irrefl in Hin.
Qed.

(** Two well-formed sets with the same members are the same list. *)
Lemma os_ext s t : os_wf s -> os_wf t -> (forall x, In x s <-> In x t) -> s = t.
Proof.
  intros Hs. revert t. induction Hs as [|a s Hs IH Ha]; intros t Ht Hst.
  - destruct t as [|b t]; [done|]. destruct (proj2 (Hst b)). by left.
  - destruct Ht as [|b t Ht Hb]; [by destruct (proj1 (Hst a) (or_introl eq_refl))|].
    rewrite List.Forall_forall in Ha, Hb.
    assert (a = b) as ->.
    { destruct (proj1 (Hst a) (or_introl eq_refl)) as [->|Hat]; [done|].
      destruct (proj2 (Hst b) (or_introl eq_refl)) as [->|Hbs]; [done|].
      exfalso. by apply (ord_asym a b); [apply Ha | apply Hb]. }
    f_equal. apply IH; [done|]. intros x; split; intros Hx.
    + destruct (proj1 (Hst x) (or_intror Hx)) as [->|]; [|done].
      by apply Ha, ord_irrefl in Hx.
    + destruct (proj2 (Hst x) (or_intror Hx)) as [->|]; [|done].
      by apply Hb, ord_irrefl in Hx.
Qed.

Lemma os_filter_wf (p : K -> bool) s : os_wf s -> os_wf (List.filter p s).
Proof.
  induction 1 as [|a s Hs IH Ha]; simpl; [constructor|].
  destruct (p a); [|done]. constructor; [done|].
  rewrite List.Forall_forall in Ha |- *. intros x [Hx _]%filter_In. by apply Ha.
Qed.

Lemma os_range_excl_Some lo hi s : lo <o hi -> is_Some (os_range_excl lo hi s).
Proof. unfold os_range_excl. intros ->. eauto. Qed.

Lemma os_range_excl_In lo hi s l x :
  os_range_excl lo hi s = Some l -> (In x l <-> In x s /\ lo <o x /\ x <o hi).
Proof.
  unfold os_range_excl. destruct (ord_cmp lo hi); intros; simplify_eq.
  rewrite filter_In. to_prop. naive_solver.
Qed.

Lemma os_range_above_In lo s x : In x (os_range_above lo s) <-> In x s /\ lo <o x.
Proof. unfold os_range_above. rewrite filter_In. to_prop. done. Qed.

(** The last element is the greatest one: what [iter().max()] or a last write
    over an ascending iteration selects. *)
Lemma os_wf_app s t : os_wf (s ++ t) -> os_wf s /\ os_wf t /\ (forall x y, In x s -> In y t -> x <o y).
Proof.
  unfold os_wf. induction s as [|a s IH]; simpl; intros Hs.
  - split_and!; [constructor | done | naive_solver].
  - apply StronglySorted_inv in Hs as [Hs Ha]. destruct (IH Hs) as (H1 & H2 & H3).
    rewrite List.Forall_forall in Ha. split_and!; [|done|].
    + constructor; [done|]. rewrite List.Forall_forall. intros x Hx. apply Ha, in_or_app. by left.
    + intros x y [->|Hx] Hy; [apply Ha, in_or_app; by right | by apply H3].
Qed.
End OSet.

(** ** [BTreeMap<K, V>] *)

Section OMap.
Context {K V : Type} `{TotalOrd K}.
Implicit Types (k : K) (v : V) (m : list (K * V)).

(** [BTreeMap::get]. *)
Fixpoint om_get k m : option V :=
  match m with
  | [] => None
  | (k', v) :: m' => if ord_eqb k k' then Some v else om_get k m'
  end.

(** [BTreeMap::insert]; the previous value is [om_get k m]. *)
Fixpoint om_insert k v m : list (K * V) :=
  match m with
  | [] => [(k, v)]
  | (k', v') :: m' =>
      match ord_cmp k k' with
      | Lt => (k, v) :: m
      | Eq => (k, v) :: m'
      | Gt => (k', v') :: om_insert k v m'
      end
  end.

(** [BTreeMap::entry(k).or_insert(v)]. *)
Definition om_or_insert k v m : list (K * V) :=
  match om_get k m with
  | Some _ => m
  | None => om_insert k v m
  end.

(** [BTreeMap::remove]; keeps the other entries. *)
Definition om_remove k m : list (K * V) := List.filter (fun e => negb (ord_eqb k e.1)) m.

(** [BTreeMap::keys], [BTreeMap::values]. *)
Definition om_keys m : list K := map fst m.
Definition om_values m : list V := map snd m.

Definition om_wf m : Prop := os_wf (om_keys m).

Lemma om_get_insert k v m k' :
  om_get k' (om_insert k v m) = if ord_eqb k' k then Some v else om_get k' m.
Proof.
  induction m as [|[k1 v1] m IH]; simpl; [done|].
  destruct (ord_cmp k k1) eqn:E; simpl.
  - apply ord_cmp_eq in E as ->. by destruct (ord_eqb k' k1).
  - done.
  - rewrite IH. destruct (ord_eqb k' k1) eqn:E1; [|done].
    destruct (ord_eqb k' k) eqn:E2; [|done]. to_prop. by rewrite ord_refl in E.
Qed.

Lemma om_get_insert_eq k v m : om_get k (om_insert k v m) = Some v.
Proof. by rewrite om_get_insert, ord_eqb_refl. Qed.

Lemma om_get_insert_ne k v m k' : k' <> k -> om_get k' (om_insert k v m) = om_get k' m.
Proof. intros E%ord_eqb_neq. by rewrite om_get_insert, E. Qed.

Lemma om_keys_insert k v m : om_keys (om_insert k v m) = os_insert k (om_keys m).
Proof.
  induction m as [|[k1 v1] m IH]; simpl; [done|].
  destruct (ord_cmp k k1) eqn:E; simpl; [|done|by rewrite IH].
  apply ord_cmp_eq in E as ->. done.
Qed.

Lemma om_insert_wf k v m : om_wf m -> om_wf (om_insert k v m).
Proof. unfold om_wf. rewrite om_keys_insert. apply os_insert_wf. Qed.

Lemma om_or_insert_wf k v m : om_wf m -> om_wf (om_or_insert k v m).
Proof. unfold om_or_insert. destruct (om_get k m); auto using om_insert_wf. Qed.

Lemma om_get_In k v m : om_wf m -> (om_get k m = Some v <-> In (k, v) m).
Proof.
  unfold om_wf, os_wf. induction m as [|[k1 v1] m IH]; simpl; intros Hm; [naive_solver|].
  apply StronglySorted_inv in Hm as [Hm Ha]. rewrite List.Forall_forall in Ha.
  destruct (ord_eqb k k1) eqn:E; to_prop.
  - split; [naive_solver|]. intros [?|Hin]; simplify_eq; [done|].
    apply (in_map fst) in Hin. by apply Ha, ord_irrefl in Hin.
  - rewrite IH by done. naive_solver.
Qed.

Lemma om_get_In_fst k m : is_Some (om_get k m) <-> In k (om_keys m).
Proof.
  induction m as [|[k1 v1] m IH]; simpl; [split; [by intros [? ?] | done]|].
  destruct (ord_eqb k k1) eqn:E; to_prop; [naive_solver|].
  rewrite IH. naive_solver.
Qed.

Lemma om_get_None k m : om_get k m = None <-> ~ In k (om_keys m).
Proof. rewrite <- om_get_In_fst, eq_None_not_Some. done. Qed.

Lemma om_get_In_1 k v m : om_get k m = Some v -> In (k, v) m.
Proof.
  induction m as [|[k1 v1] m IH]; simpl; [done|].
  destruct (ord_eqb k k1) eqn:E; to_prop; naive_solver.
Qed.

(** Two well-formed maps with the same lookups are the same list. *)
Lemma om_ext m1 m2 : om_wf m1 -> om_wf m2 -> (forall k, om_get k m1 = om_get k m2) -> m1 = m2.
Proof.
  intros H1 H2 E. assert (om_keys m1 = om_keys m2) as Hk.
  { apply os_ext; [done|done|]. intros x. by rewrite <- !om_get_In_fst, E. }
  revert m2 H2 E Hk. induction m1 as [|[k v] m1 IH]; intros [|[k2 v2] m2] H2 E Hk; try done.
  simpl in Hk. injection Hk as -> Hk. pose proof (E k2) as E2. simpl in E2.
  rewrite ord_eqb_refl in E2. injection E2 as ->. f_equal.
  unfold om_wf, os_wf in H1, H2. simpl in H1, H2.
  apply StronglySorted_inv in H1 as [H1 Ha1], H2 as [H2 Ha2].
  apply IH; [done|done| |done]. intros k. pose proof (E k) as Ek. simpl in Ek.
  destruct (ord_eqb k k2) eqn:Ekk; to_prop; [|done].
  rewrite List.Forall_forall in Ha1, Ha2.
  rewrite (proj2 (om_get_None k2 m1)), (proj2 (om_get_None k2 m2)); [done| |].
  - intros Hin%Ha2. by apply ord_irrefl in Hin.
  - intros Hin%Ha1. by apply ord_irrefl in Hin.
Qed.

Lemma om_get_remove k k' m : om_get k' (om_remove k m) = if ord_eqb k' k then None else om_get k' m.
Proof.
  unfold om_remove. induction m as [|[k1 v1] m IH]; simpl; [by destruct (ord_eqb k' k)|].
  destruct (ord_eqb k k1) eqn:E; simpl; to_prop.
  - rewrite IH. by destruct (ord_eqb k' k1) eqn:E1.
  - rewrite IH. destruct (ord_eqb k' k1) eqn:E1; to_prop; [|done].
    destruct (ord_eqb k1 k) eqn:E2; to_prop; done.
Qed.

Lemma om_remove_wf k m : om_wf m -> om_wf (om_remove k m).
Proof.
  unfold om_wf, om_remove, om_keys. intros Hm.
  replace (map fst (List.filter (fun e => negb (ord_eqb k e.1)) m))
    with (List.filter (fun x => negb (ord_eqb k x)) (map fst m)).
  - by apply os_filter_wf.
  - induction m as [|[k1 v1] m IH]; simpl; [done|]. unfold os_wf in Hm. simpl in Hm.
    apply StronglySorted_inv in Hm as [Hm _]. destruct (ord_eqb k k1); simpl; by rewrite IH.
Qed.
End OMap.

Lemma om_get_map {K V V' : Type} `{TotalOrd K} (f : V -> V') (m : list (K * V)) k :
  om_get k (map (fun e => (e.1, f e.2)) m) = f <$> om_get k m.
Proof. induction m as [|[k' v] m IH]; simpl; [done|]. by destruct (ord_eqb k k'). Qed.

(** ** [slice::sort_by] (stable) and [Vec::dedup] *)

Section Sort.
Context {A : Type} (cmp : A -> A -> comparison).

Fixpoint sort_insert (x : A) (l : list A) : list A :=
  match l with
  | [] => [x]
  | y :: l' => match cmp x y with Gt => y :: sort_insert x l' | _ => x :: l end
  end.
Definition sort_by (l : list A) : list A := foldr sort_insert [] l.

Lemma sort_insert_perm x l : Permutation (sort_insert x l) (x :: l).
Proof.
  induction l as [|y l IH]; simpl; [done|]. destruct (cmp x y); [done|done|].
  rewrite IH. apply Permutation_swap.
Qed.

Lemma sort_by_perm l : Permutation (sort_by l) l.
Proof. induction l as [|x l IH]; simpl; [done|]. rewrite sort_insert_perm. by apply Permutation_skip. Qed.

Lemma sort_by_In x l : In x (sort_by l) <-> In x l.
Proof. split; apply Permutation_in; [|symmetry]; apply sort_by_perm. Qed.
End Sort.

Section Dedup.
Context {K : Type} `{TotalOrd K}.

(** [slice::sort]. *)
Definition ord_sort (l : list K) : list K := sort_by ord_cmp l.

(** [Vec::dedup]: one of each run of equal neighbours. *)
Fixpoint ord_dedup (l : list K) : list K :=
  match l with
  | [] => []
  | x :: l' =>
      match ord_dedup l' with
      | [] => [x]
      | y :: r => if ord_eqb x y then y :: r else x :: y :: r
      end
  end.

Definition le_sorted (l : list K) : Prop := StronglySorted (fun x y => ~ y <o x) l.

Lemma sort_insert_sorted x l : le_sorted l -> le_sorted (sort_insert ord_cmp x l).
Proof.
  intros Hl. induction Hl as [|y l Hl IH Hy]; simpl; [repeat constructor|].
  destruct (ord_cmp x y) eqn:E.
  - apply ord_cmp_eq in E as ->. constructor; [by constructor|]. constructor; [apply ord_irrefl|done].
  - constructor; [by constructor|]. constructor; [by apply ord_asym|].
    rewrite List.Forall_forall in Hy |- *. intros z Hz Hzx. apply (Hy z Hz). by eapply ord_cmp_trans.
  - apply ord_gt in E. constructor; [done|]. rewrite List.Forall_forall in Hy |- *. intros z Hz.
    apply (Permutation_in _ (sort_insert_perm ord_cmp x l)) in Hz as [<-|Hz]; [by apply ord_asym|by apply Hy].
Qed.

Lemma ord_sort_sorted l : le_sorted (ord_sort l).
Proof. induction l as [|x l IH]; simpl; [constructor|by apply sort_insert_sorted]. Qed.

Lemma ord_dedup_In x l : In x (ord_dedup l) <-> In x l.
Proof.
  induction l as [|y l IH]; simpl; [done|]. destruct (ord_dedup l) as [|z r] eqn:E; simpl in *.
  - rewrite <- IH. tauto.
  - destruct (ord_eqb y z) eqn:Eq; to_prop; simpl in *; rewrite <- IH; naive_solver.
Qed.

Lemma ord_dedup_wf l : le_sorted l -> os_wf (ord_dedup l).
Proof.
  intros Hl. induction Hl as [|x l Hl IH Hx]; simpl; [constructor|].
  destruct (ord_dedup l) as [|y r] eqn:E; [repeat constructor|].
  destruct (ord_eqb x y) eqn:Eq; [done|]. to_prop. constructor; [done|].
  assert (x <o y) as Hxy.
  { rewrite List.Forall_forall in Hx. assert (In y l) as Hy by (apply ord_dedup_In; rewrite E; by left).
    specialize (Hx y Hy). destruct (ord_total x y) as [?|[?|?]]; done. }
  constructor; [done|]. apply StronglySorted_inv in IH as [_ Hr]. rewrite List.Forall_forall in Hr |- *.
  intros z Hz. eapply ord_cmp_trans; [exact Hxy|by apply Hr].
Qed.

(** Sorting and deduplicating is collecting into a set. *)
Lemma dedup_sort_set l : ord_dedup (ord_sort l) = os_of_list l.
Proof.
  apply os_ext; [apply ord_dedup_wf, ord_sort_sorted|apply os_of_list_wf|]. intros x.
  rewrite ord_dedup_In, os_of_list_In. apply sort_by_In.
Qed.
End Dedup.

(** ** Descending lists, and [Iterator::max] *)

Section Descending.
Context {K : Type} `{TotalOrd K}.

(** [sort_by(|left, right| right.cmp(left))]. *)
Definition ord_sort_desc (l : list K) : list K := sort_by (fun left_ right_ => ord_cmp right_ left_) l.

Lemma lawful_rev : lawful (fun x y : K => ord_cmp y x).
Proof.
  split; [|intros; apply ord_cmp_opp|intros x y z Hxy Hyz; exact (ord_cmp_trans _ _ _ Hyz Hxy)].
  intros x y. rewrite ord_cmp_eq. split; by intros ->.
Qed.
Definition rev_ord : TotalOrd K := ord_of_lawful _ lawful_rev.

Lemma ord_dedup_rev l : @ord_dedup K rev_ord l = ord_dedup l.
Proof.
  induction l as [|x l IH]; simpl; [done|].
  rewrite !IH. clear IH. destruct (@ord_dedup K H l) as [|y r]; [done|].
  assert (@ord_eqb K rev_ord x y = ord_eqb x y) as ->; [|done].
  apply eq_true_iff_eq. by rewrite (@ord_eqb_eq K rev_ord), (@ord_eqb_eq K H).
Qed.

Lemma dedup_sort_desc l : StronglySorted (fun x y => y <o x) (ord_dedup (ord_sort_desc l)).
Proof. rewrite <- ord_dedup_rev. apply (@ord_dedup_wf K rev_ord), (@ord_sort_sorted K rev_ord). Qed.

Lemma dedup_sort_desc_In x l : In x (ord_dedup (ord_sort_desc l)) <-> In x l.
Proof. rewrite ord_dedup_In. apply sort_by_In. Qed.

(** [Iterator::max]: the last of the greatest. *)
Definition iter_max (l : list K) : option K :=
  foldl (fun acc x => match acc with None => Some x | Some y => if ord_ltb x y then Some y else Some x end) None l.

Lemma iter_max_snoc l x : iter_max (l ++ [x]) =
  match iter_max l with None => Some x | Some y => if ord_ltb x y then Some y else Some x end.
Proof. unfold iter_max. by rewrite foldl_app. Qed.

Lemma iter_max_Some l m : iter_max l = Some m <-> In m l /\ forall x, In x l -> ~ m <o x.
Proof.
  revert m. induction l as [|x l IH] using rev_ind; intros m; [split; [done|by intros [[] _]]|].
  rewrite iter_max_snoc. setoid_rewrite in_app_iff. destruct (iter_max l) as [y|] eqn:Ey.
  - destruct (proj1 (IH y) eq_refl) as [Hy Hmax]. destruct (ord_ltb x y) eqn:Exy.
    + apply ord_ltb_lt in Exy. split.
      * intros [= <-]. split; [by left|]. intros z [Hz|[<-|[]]]; [by apply Hmax|by apply ord_asym].
      * intros [[Hm|[<-|[]]] Hall]; [|by destruct (Hall y (or_introl Hy))]. f_equal.
        pose proof (proj2 (IH m) (conj Hm (fun z Hz => Hall z (or_introl Hz)))) as Hm'. congruence.
    + assert (~ x <o y) as Hxy by (rewrite <- ord_ltb_lt; congruence). split.
      * intros [= <-]. split; [by right; left|]. intros z [Hz|[<-|[]]]; [|apply ord_irrefl].
        intros Hxz. destruct (ord_total x y) as [?|[->|Hyx]]; [done|by apply (Hmax z)|].
        apply (Hmax z Hz). by eapply ord_cmp_trans.
      * intros [[Hm|[<-|[]]] Hall]; [|done]. f_equal.
        pose proof (proj2 (IH m) (conj Hm (fun z Hz => Hall z (or_introl Hz)))) as Hm'. injection Hm' as <-.
        destruct (ord_total x y) as [?|[?|Hyx]]; [done|done|]. by destruct (Hall x (or_intror (or_introl eq_refl))).
  - assert (l = []) as ->.
    { destruct l as [|z l] using rev_ind; [done|]. rewrite iter_max_snoc in Ey. destruct (iter_max l) as [u|]; [|done].
      by destruct (ord_ltb z u). }
    simpl. split; [intros [= <-]; split; [by right; left|]; intros z [[]|[<-|[]]]; apply ord_irrefl|].
    intros [[[]|[<-|[]]] _]. done.
Qed.

Lemma iter_max_None l : iter_max l = None <-> l = [].
Proof.
  split; [|by intros ->]. destruct l as [|x l] using rev_ind; [done|]. rewrite iter_max_snoc.
  destruct (iter_max l) as [y|]; [by destruct (ord_ltb x y)|done].
Qed.
End Descending.

#[export] Hint Resolve os_insert_wf os_of_list_wf os_filter_wf om_insert_wf om_or_insert_wf
  om_remove_wf om_get_insert_eq : ocx.
