(* ===== verification/Text.v ===== *)
(** * Text: the character classes, scanners and decimal numerals

    Rust strings are UTF-8 byte sequences; a [string] here is that byte
    sequence, and every class the code tests is ASCII, so a byte of a multi-byte
    character is in none of them.  Byte-wise lexicographic order is
    [String.compare], as for Rust's [str]. *)

From stdpp Require Import base decidable list option numbers strings.
From Stdlib Require Import Lia Ascii.
From S2P Require Import Prelude.
Local Open Scope ocx_scope.
Local Open Scope string_scope.

(** ** ASCII classes *)

Definition in_range (lo hi c : ascii) : bool :=
  (N_of_ascii lo <=? N_of_ascii c)%N && (N_of_ascii c <=? N_of_ascii hi)%N.

Definition is_digit (c : ascii) : bool := in_range "0" "9" c.
Definition is_lower (c : ascii) : bool := in_range "a" "z" c.
Definition is_upper (c : ascii) : bool := in_range "A" "Z" c.
Definition is_alnum (c : ascii) : bool := is_digit c || is_lower c || is_upper c.
(** [char::is_ascii_hexdigit]. *)
Definition is_hexdigit (c : ascii) : bool := is_digit c || in_range "a" "f" c || in_range "A" "F" c.

(** [char::to_ascii_lowercase] and its string form. *)
Definition to_lower (c : ascii) : ascii :=
  if is_upper c then ascii_of_N (N_of_ascii c + 32) else c.
Fixpoint lowercase (s : string) : string :=
  match s with
  | EmptyString => EmptyString
  | String c s' => String (to_lower c) (lowercase s')
  end.

(** ** Scanning *)

Fixpoint str_forall (p : ascii -> bool) (s : string) : bool :=
  match s with
  | EmptyString => true
  | String c s' => p c && str_forall p s'
  end.

(** The longest prefix in a class, and the rest. *)
Fixpoint span (p : ascii -> bool) (s : string) : string * string :=
  match s with
  | EmptyString => (EmptyString, EmptyString)
  | String c s' =>
      if p c then let '(a, b) := span p s' in (String c a, b) else (EmptyString, s)
  end.

(** [str::strip_prefix]. *)
Fixpoint strip_prefix (pre s : string) : option string :=
  match pre, s with
  | EmptyString, _ => Some s
  | String c pre', String d s' => if Ascii.eqb c d then strip_prefix pre' s' else None
  | String _ _, EmptyString => None
  end.

(** [str::strip_suffix]: the split whose tail is the suffix. *)
Fixpoint strip_suffix (suf s : string) : option string :=
  if String.eqb s suf then Some EmptyString
  else match s with
       | EmptyString => None
       | String c s' => String c <$> strip_suffix suf s'
       end.

Definition starts_with (pre s : string) : bool := bool_decide (is_Some (strip_prefix pre s)).

Fixpoint str_mem (c : ascii) (s : string) : bool :=
  match s with
  | EmptyString => false
  | String d s' => Ascii.eqb c d || str_mem c s'
  end.

(** The string does not begin with a character of the class. *)
Definition head_not (p : ascii -> bool) (s : string) : bool :=
  match s with
  | EmptyString => true
  | String c _ => negb (p c)
  end.

Lemma str_app_nil_r s : s +:+ "" = s.
Proof. induction s as [|c s IH]; simpl; [done|by rewrite IH]. Qed.

Lemma str_app_assoc a b c : (a +:+ b) +:+ c = a +:+ (b +:+ c).
Proof. induction a as [|x a IH]; simpl; [done|by rewrite IH]. Qed.

Lemma str_length_app a b : String.length (a +:+ b) = String.length a + String.length b.
Proof. induction a as [|x a IH]; simpl; [done|by rewrite IH]. Qed.

Lemma str_forall_app p a b : str_forall p (a +:+ b) = str_forall p a && str_forall p b.
Proof. induction a as [|x a IH]; simpl; [done|]. by rewrite IH, andb_assoc. Qed.

Lemma str_forall_impl (p q : ascii -> bool) s :
  (forall c, p c = true -> q c = true) -> str_forall p s = true -> str_forall q s = true.
Proof.
  intros Hpq. induction s as [|c s IH]; simpl; [done|]. rewrite !andb_true_iff. naive_solver.
Qed.

Lemma span_eq p s : let '(a, b) := span p s in s = a +:+ b /\ str_forall p a = true /\ head_not p b = true.
Proof.
  induction s as [|c s IH]; simpl; [done|].
  destruct (p c) eqn:E; [|simpl; by rewrite E].
  destruct (span p s) as [a b]. destruct IH as (-> & Ha & Hb). simpl. by rewrite E.
Qed.

Lemma span_app p a b : str_forall p a = true -> head_not p b = true -> span p (a +:+ b) = (a, b).
Proof.
  induction a as [|c a IH]; simpl.
  - destruct b as [|c b]; simpl; [done|]. intros _ Hc. apply negb_true_iff in Hc. by rewrite Hc.
  - rewrite andb_true_iff. intros [-> Ha] Hb. by rewrite IH.
Qed.

Lemma strip_prefix_Some pre s r : strip_prefix pre s = Some r <-> s = pre +:+ r.
Proof.
  revert s. induction pre as [|c pre IH]; intros [|d s]; simpl; try naive_solver.
  destruct (Ascii.eqb_spec c d) as [->|Hne]; [rewrite IH; naive_solver | naive_solver].
Qed.

Lemma strip_suffix_Some suf s r : strip_suffix suf s = Some r -> s = r +:+ suf.
Proof.
  revert r. induction s as [|c s IH]; intros r; cbn [strip_suffix].
  - destruct (String.eqb_spec "" suf) as [<-|]; [by intros [= <-] | done].
  - destruct (String.eqb_spec (String c s) suf) as [<-|]; [by intros [= <-]|].
    destruct (strip_suffix suf s) as [r'|] eqn:E; simpl; [|done].
    intros [= <-]. by rewrite (IH r').
Qed.

(** ** Unsigned 32-bit numerals *)

Definition u32_max : N := 4294967295.

Definition digit_val (c : ascii) : N := (N_of_ascii c - 48)%N.
Definition digit_char (n : N) : ascii := ascii_of_N (48 + n).

(** The value of a digit string, most significant digit first. *)
Fixpoint digits_value (acc : N) (s : string) : N :=
  match s with
  | EmptyString => acc
  | String c s' => digits_value (acc * 10 + digit_val c) s'
  end.

(** [str::parse::<u32>]: an optional [+], at least one digit, digits only, and
    a value that fits; anything else is an error. *)
Definition u32_parse (s : string) : option N :=
  let body := match s with String "+" rest => rest | _ => s end in
  match body with
  | EmptyString => None
  | String _ _ =>
      if str_forall is_digit body then
        let n := digits_value 0 body in
        if (n <=? u32_max)%N then Some n else None
      else None
  end.

(** [u32::to_string]: ten digits are enough for any [u32]. *)
Fixpoint dec_digits (fuel : nat) (n : N) : string :=
  match fuel with
  | O => EmptyString
  | S fuel' =>
      if (n <? 10)%N then String (digit_char n) EmptyString
      else dec_digits fuel' (n / 10) +:+ String (digit_char (n mod 10)) EmptyString
  end.

Definition u32_to_string (n : N) : string := dec_digits 10 n.

Lemma digit_char_val n : (n < 10)%N -> digit_val (digit_char n) = n /\ is_digit (digit_char n) = true.
Proof.
  intros Hn. unfold digit_val, digit_char, is_digit, in_range.
  rewrite N_ascii_embedding by lia. change (N_of_ascii "0") with 48%N. change (N_of_ascii "9") with 57%N.
  rewrite andb_true_iff, !N.leb_le. lia.
Qed.

Lemma digits_value_app acc a b : digits_value acc (a +:+ b) = digits_value (digits_value acc a) b.
Proof. revert acc. induction a as [|c a IH]; simpl; auto. Qed.

Lemma dec_digits_spec fuel n :
  (n < 10 ^ N.of_nat fuel)%N -> (0 < fuel)%nat ->
  digits_value 0 (dec_digits fuel n) = n /\ str_forall is_digit (dec_digits fuel n) = true.
Proof.
  revert n. induction fuel as [|fuel IH]; intros n Hn Hf; [lia|]. simpl.
  destruct (N.ltb_spec n 10) as [Hlt|Hge].
  - destruct (digit_char_val n Hlt) as [Hv Hd]. simpl. rewrite Hv, Hd. split; [lia|done].
  - assert (n mod 10 < 10)%N as Hm by (apply N.mod_lt; lia).
    assert (n / 10 < 10 ^ N.of_nat fuel)%N as Hdiv.
    { apply N.Div0.div_lt_upper_bound. rewrite Nat2N.inj_succ, N.pow_succ_r' in Hn. lia. }
    destruct fuel as [|fuel]; [simpl in Hdiv; pose proof (N.div_str_pos n 10); lia|].
    destruct (IH _ Hdiv ltac:(lia)) as [IHv IHd]. destruct (digit_char_val _ Hm) as [Hv Hd].
    rewrite digits_value_app, str_forall_app, IHv, IHd. simpl. rewrite Hv, Hd. split; [|done].
    pose proof (N.div_mod n 10). lia.
Qed.

(** A numeral of the version grammar: [0|[1-9][0-9]*]. *)
Definition is_numeral (s : string) : bool :=
  match s with
  | EmptyString => false
  | String c s' => if Ascii.eqb c "0" then String.eqb s' "" else is_digit c && str_forall is_digit s'
  end.

Lemma is_numeral_digits s : is_numeral s = true -> str_forall is_digit s = true /\ s <> "".
Proof.
  destruct s as [|c s]; simpl; [done|]. destruct (Ascii.eqb_spec c "0") as [->|].
  - destruct (String.eqb_spec s "") as [->|]; done.
  - done.
Qed.

Lemma dec_digits_head fuel n :
  (n < 10 ^ N.of_nat fuel)%N -> (0 < n)%N ->
  exists c s, dec_digits fuel n = String c s /\ c <> "0"%char.
Proof.
  revert n. induction fuel as [|fuel IH]; intros n Hn Hpos; [simpl in Hn; lia|]. simpl.
  destruct (N.ltb_spec n 10) as [Hlt|Hge].
  - exists (digit_char n), "". split; [done|]. intros E. apply (f_equal digit_val) in E.
    rewrite (proj1 (digit_char_val n Hlt)) in E. change (digit_val "0") with 0%N in E. lia.
  - assert (0 < n / 10)%N as Hp by (apply N.div_str_pos; lia).
    assert (n / 10 < 10 ^ N.of_nat fuel)%N as Hdiv.
    { apply N.Div0.div_lt_upper_bound. rewrite Nat2N.inj_succ, N.pow_succ_r' in Hn. lia. }
    destruct (IH _ Hdiv Hp) as (c & s & -> & Hc). simpl. eauto.
Qed.

Lemma u32_lt_pow n : (n <= u32_max)%N -> (n < 10 ^ N.of_nat 10)%N.
Proof. unfold u32_max. change (10 ^ N.of_nat 10)%N with 10000000000%N. lia. Qed.

Lemma u32_to_string_numeral n : (n <= u32_max)%N -> is_numeral (u32_to_string n) = true.
Proof.
  intros Hn%u32_lt_pow. destruct (N.eq_dec n 0%N) as [->|Hz]; [done|]. unfold u32_to_string.
  destruct (dec_digits_spec 10 n Hn ltac:(lia)) as [_ Hd].
  destruct (dec_digits_head 10 n Hn ltac:(lia)) as (c & s & E & Hc).
  rewrite E in *. simpl in *. by destruct (Ascii.eqb_spec c "0").
Qed.

Lemma u32_parse_to_string n : (n <= u32_max)%N -> u32_parse (u32_to_string n) = Some n.
Proof.
  intros Hle. pose proof (u32_lt_pow n Hle) as Hn.
  destruct (dec_digits_spec 10 n Hn ltac:(lia)) as [Hv Hd].
  unfold u32_to_string, u32_parse in *.
  destruct (dec_digits 10 n) as [|c s] eqn:E.
  - pose proof (is_numeral_digits (u32_to_string n) (u32_to_string_numeral n Hle)) as [_ Hne].
    unfold u32_to_string in Hne. congruence.
  - assert (c <> "+"%char) as Hc by (intros ->; done).
    replace (match c with "+"%char => s | _ => String c s end) with (String c s)
      by (repeat (case_match; try done)).
    rewrite Hd, Hv. by rewrite (proj2 (N.leb_le _ _) Hle).
Qed.


(** ** Numerals are canonical

    Printing what a numeral without leading zeros evaluates to gives the numeral
    back. *)

Lemma str_snoc s : s <> "" -> exists s' c, s = s' +:+ String c "".
Proof.
  induction s as [|c s IH]; [done|]. intros _. destruct s as [|d s].
  - by exists "", c.
  - destruct IH as (s' & e & E); [done|]. exists (String c s'), e. simpl. by rewrite E.
Qed.

Lemma digit_val_lt c : is_digit c = true -> (digit_val c < 10)%N /\ digit_char (digit_val c) = c.
Proof.
  unfold is_digit, in_range, digit_val, digit_char. rewrite andb_true_iff, !N.leb_le.
  change (N_of_ascii "0") with 48%N. change (N_of_ascii "9") with 57%N. intros [H1 H2].
  split; [lia|]. replace (48 + (N_of_ascii c - 48))%N with (N_of_ascii c) by lia. apply ascii_N_embedding.
Qed.

(** A nonzero numeral: digits, the first one not [0]. *)
Definition is_pos_numeral (s : string) : bool :=
  match s with
  | EmptyString => false
  | String c s' => negb (Ascii.eqb c "0") && is_digit c && str_forall is_digit s'
  end.

Lemma digits_value_lower s acc :
  str_forall is_digit s = true ->
  (acc * 10 ^ N.of_nat (String.length s) <= digits_value acc s)%N.
Proof.
  revert acc. induction s as [|c s IH]; intros acc; simpl; [lia|].
  rewrite andb_true_iff. intros [_ Hs]. specialize (IH (acc * 10 + digit_val c)%N Hs).
  rewrite Nat2N.inj_succ, N.pow_succ_r'. nia.
Qed.

Lemma pos_numeral_lower s : is_pos_numeral s = true ->
  (10 ^ N.of_nat (pred (String.length s)) <= digits_value 0 s)%N.
Proof.
  destruct s as [|c s]; simpl; [done|]. rewrite !andb_true_iff, negb_true_iff.
  intros [[Hc0 Hc] Hs]. pose proof (digits_value_lower s (digit_val c) Hs) as Hl.
  destruct (digit_val_lt c Hc) as [_ Hcv]. assert (digit_val c <> 0)%N.
  { intros E. rewrite E in Hcv. subst c. done. }
  etransitivity; [|exact Hl]. rewrite <- (N.mul_1_l (10 ^ _)) at 1. apply N.mul_le_mono_r. lia.
Qed.

Lemma dec_digits_value fuel : forall s,
  (String.length s <= fuel)%nat -> is_pos_numeral s = true ->
  dec_digits fuel (digits_value 0 s) = s.
Proof.
  induction fuel as [|fuel IH]; intros s Hlen Hs; [destruct s; simpl in *; [done|lia]|].
  destruct (str_snoc s) as (s' & c & ->); [by destruct s|].
  rewrite digits_value_app. cbn [digits_value dec_digits].
  destruct s' as [|d s'].
  - cbn in Hs. rewrite andb_true_r, andb_true_iff in Hs. destruct Hs as [_ Hc].
    destruct (digit_val_lt c Hc) as [Hlt E]. cbn [digits_value].
    rewrite (proj2 (N.ltb_lt _ _)) by lia. by replace (0 * 10 + digit_val c)%N with (digit_val c) by lia; rewrite E.
  - assert (is_pos_numeral (String d s') = true /\ is_digit c = true) as [Hs' Hc].
    { cbn [is_pos_numeral String.append] in Hs |- *. rewrite str_forall_app in Hs. cbn [str_forall] in Hs.
      rewrite andb_true_r, !andb_true_iff in Hs. rewrite !andb_true_iff. tauto. }
    destruct (digit_val_lt c Hc) as [Hlt E].
    assert (1 <= digits_value 0 (String d s'))%N.
    { pose proof (pos_numeral_lower _ Hs'). pose proof (N.pow_nonzero 10 (N.of_nat (pred (String.length (String d s'))))).
      lia. }
    set (n := digits_value 0 (String d s')) in *.
    rewrite (proj2 (N.ltb_ge _ _)) by lia.
    replace (n * 10 + digit_val c)%N with (digit_val c + n * 10)%N by lia.
    rewrite N.div_add, N.div_small, N.add_0_l by lia.
    rewrite N.Div0.mod_add, N.mod_small, E by lia.
    unfold n. rewrite IH; [done| |done]. rewrite str_length_app in Hlen. simpl in Hlen |- *. lia.
Qed.

Lemma is_numeral_cases s : is_numeral s = true -> s = "0" \/ is_pos_numeral s = true.
Proof.
  destruct s as [|c s]; simpl; [done|]. destruct (Ascii.eqb_spec c "0") as [->|].
  - destruct (String.eqb_spec s "") as [->|]; [by left|done].
  - by right.
Qed.

Lemma u32_parse_numeral s : is_numeral s = true ->
  u32_parse s = if (digits_value 0 s <=? u32_max)%N then Some (digits_value 0 s) else None.
Proof.
  intros Hs. destruct (is_numeral_digits s Hs) as [Hd Hne]. unfold u32_parse.
  destruct s as [|c s]; [done|]. assert (c <> "+"%char) as Hc by (intros ->; done).
  replace (match c with "+"%char => s | _ => String c s end) with (String c s)
    by (repeat (case_match; try done)). by rewrite Hd.
Qed.

Lemma u32_to_string_parse s n : is_numeral s = true -> u32_parse s = Some n ->
  u32_to_string n = s /\ (n <= u32_max)%N.
Proof.
  intros Hs. rewrite (u32_parse_numeral s Hs).
  destruct (N.leb_spec (digits_value 0 s) u32_max) as [Hle|]; [|done]. intros [= <-]. split; [|done].
  destruct (is_numeral_cases s Hs) as [->|Hp]; [done|]. apply dec_digits_value; [|done].
  pose proof (pos_numeral_lower s Hp) as Hl. destruct (Nat.le_gt_cases (String.length s) 10) as [|Hgt]; [done|].
  exfalso. pose proof (N.pow_le_mono_r 10 (N.of_nat 10) (N.of_nat (pred (String.length s))) ltac:(lia) ltac:(lia)) as Hm.
  apply u32_lt_pow in Hle. lia.
Qed.

(** ** Splitting at a character *)

(** [str::split_once]: at the first occurrence. *)
Fixpoint split_once (c : ascii) (s : string) : option (string * string) :=
  match s with
  | EmptyString => None
  | String d s' =>
      if Ascii.eqb d c then Some (EmptyString, s')
      else match split_once c s' with Some (a, b) => Some (String d a, b) | None => None end
  end.

(** [str::rsplit_once]: at the last occurrence. *)
Fixpoint rsplit_once (c : ascii) (s : string) : option (string * string) :=
  match s with
  | EmptyString => None
  | String d s' =>
      match rsplit_once c s' with
      | Some (a, b) => Some (String d a, b)
      | None => if Ascii.eqb d c then Some (EmptyString, s') else None
      end
  end.

(** [str::split]: every piece between two occurrences, never empty as a list. *)
Fixpoint split_char (c : ascii) (s : string) : list string :=
  match s with
  | EmptyString => [EmptyString]
  | String d s' =>
      if Ascii.eqb d c then EmptyString :: split_char c s'
      else match split_char c s' with
           | [] => [String d EmptyString]
           | piece :: rest => String d piece :: rest
           end
  end.

(** [str::replace] of one character by another. *)
Fixpoint replace_char (c d : ascii) (s : string) : string :=
  match s with
  | EmptyString => EmptyString
  | String e s' => String (if Ascii.eqb e c then d else e) (replace_char c d s')
  end.

(** [[String]::join]. *)
Fixpoint str_join (sep : string) (l : list string) : string :=
  match l with
  | [] => EmptyString
  | [s] => s
  | s :: l' => s +:+ sep +:+ str_join sep l'
  end.

Lemma str_mem_app c a b : str_mem c (a +:+ b) = str_mem c a || str_mem c b.
Proof. induction a as [|x a IH]; simpl; [done|]. by rewrite IH, orb_assoc. Qed.

Lemma str_mem_forall c p s : str_forall p s = true -> p c = false -> str_mem c s = false.
Proof.
  induction s as [|d s IH]; simpl; [done|]. rewrite andb_true_iff. intros [Hd Hs] Hc.
  rewrite (IH Hs Hc). destruct (Ascii.eqb_spec c d) as [->|]; [congruence|done].
Qed.

Lemma split_once_app c a b : str_mem c a = false -> split_once c (a +:+ String c b) = Some (a, b).
Proof.
  induction a as [|d a IH]; simpl; [by rewrite Ascii.eqb_refl|]. rewrite orb_false_iff. intros [Hd Ha].
  rewrite Ascii.eqb_sym in Hd. by rewrite Hd, IH.
Qed.

Lemma split_once_Some c s a b : split_once c s = Some (a, b) -> s = a +:+ String c b /\ str_mem c a = false.
Proof.
  revert a b. induction s as [|d s IH]; intros a b; simpl; [done|].
  destruct (Ascii.eqb_spec d c) as [->|Hne]; [by intros [= <- <-]|].
  destruct (split_once c s) as [[a' b']|] eqn:E; [|done]. intros [= <- <-].
  destruct (IH _ _ eq_refl) as [-> Ha]. simpl. split; [done|]. rewrite Ha, orb_false_r.
  by apply Ascii.eqb_neq.
Qed.

Lemma split_once_None c s : split_once c s = None <-> str_mem c s = false.
Proof.
  induction s as [|d s IH]; simpl; [done|]. rewrite orb_false_iff, (Ascii.eqb_sym c d).
  destruct (Ascii.eqb d c); [naive_solver|]. rewrite <- IH. destruct (split_once c s) as [[]|]; naive_solver.
Qed.

Lemma rsplit_once_None c s : rsplit_once c s = None <-> str_mem c s = false.
Proof.
  induction s as [|d s IH]; simpl; [done|]. rewrite orb_false_iff, (Ascii.eqb_sym c d), <- IH.
  destruct (rsplit_once c s) as [[]|]; [naive_solver|]. destruct (Ascii.eqb d c); naive_solver.
Qed.

Lemma rsplit_once_app c a b : str_mem c b = false -> rsplit_once c (a +:+ String c b) = Some (a, b).
Proof.
  intros Hb. induction a as [|d a IH]; simpl; [|by rewrite IH].
  rewrite (proj2 (rsplit_once_None c b) Hb). by rewrite Ascii.eqb_refl.
Qed.

Lemma rsplit_once_Some c s a b : rsplit_once c s = Some (a, b) -> s = a +:+ String c b /\ str_mem c b = false.
Proof.
  revert a b. induction s as [|d s IH]; intros a b; simpl; [done|].
  destruct (rsplit_once c s) as [[a' b']|] eqn:E.
  - intros [= <- <-]. by destruct (IH _ _ eq_refl) as [-> Hb].
  - destruct (Ascii.eqb_spec d c) as [->|]; [|done]. intros [= <- <-]. split; [done|]. by apply rsplit_once_None.
Qed.

Lemma split_char_single c s : str_mem c s = false -> split_char c s = [s].
Proof.
  induction s as [|d s IH]; simpl; [done|]. rewrite orb_false_iff, (Ascii.eqb_sym c d). intros [-> Hs].
  by rewrite IH.
Qed.

Lemma split_char_ne c s : split_char c s <> [].
Proof. destruct s as [|d s]; simpl; [done|]. destruct (Ascii.eqb d c); [done|]. by destruct (split_char c s). Qed.

Lemma split_char_app c a b : str_mem c a = false -> split_char c (a +:+ String c b) = a :: split_char c b.
Proof.
  induction a as [|d a IH]; simpl; [by rewrite Ascii.eqb_refl|]. rewrite orb_false_iff, (Ascii.eqb_sym c d).
  intros [-> Ha]. by rewrite IH.
Qed.

(** No piece holds the separator, and joining the pieces gives the text back. *)
Lemma split_char_pieces c s piece : In piece (split_char c s) -> str_mem c piece = false.
Proof.
  revert piece. induction s as [|d s IH]; simpl; intros piece; [by intros [<-|[]]|].
  destruct (Ascii.eqb_spec d c) as [->|Hne]; [intros [<-|H]; [done|by apply IH]|].
  pose proof (split_char_ne c s) as Hs. destruct (split_char c s) as [|p ps]; [done|].
  intros [<-|H]; [|apply IH; by right]. simpl. rewrite (IH p (or_introl eq_refl)), orb_false_r.
  by apply Ascii.eqb_neq.
Qed.

Lemma split_char_join c l : l <> [] -> (forall s, In s l -> str_mem c s = false) ->
  split_char c (str_join (String c "") l) = l.
Proof.
  induction l as [|s l IH]; [done|]. intros _ H. destruct l as [|s' l].
  - simpl. apply split_char_single, H. by left.
  - change (str_join (String c "") (s :: s' :: l)) with (s +:+ String c (str_join (String c "") (s' :: l))).
    rewrite split_char_app by (apply H; by left). f_equal. apply IH; [done|]. intros x Hx. apply H. by right.
Qed.

Lemma join_split_char c s : str_join (String c "") (split_char c s) = s.
Proof.
  induction s as [|d s IH]; simpl; [done|]. pose proof (split_char_ne c s) as Hs.
  destruct (Ascii.eqb_spec d c) as [->|Hne].
  - destruct (split_char c s) as [|p ps]; [done|]. by rewrite <- IH.
  - destruct (split_char c s) as [|p ps]; [done|]. rewrite <- IH. by destruct ps.
Qed.

Lemma replace_char_id c d s : str_mem c s = false -> replace_char c d s = s.
Proof.
  induction s as [|e s IH]; simpl; [done|]. rewrite orb_false_iff, (Ascii.eqb_sym c e). intros [-> Hs].
  by rewrite IH.
Qed.

Lemma replace_char_mem c d s : c <> d -> str_mem c (replace_char c d s) = false.
Proof.
  intros Hne. induction s as [|e s IH]; simpl; [done|]. rewrite IH, orb_false_r.
  destruct (Ascii.eqb_spec e c) as [->|]; apply Ascii.eqb_neq; congruence.
Qed.

Lemma replace_char_mem_other c d e s : e <> d -> str_mem e s = false -> str_mem e (replace_char c d s) = false.
Proof.
  intros Hne. induction s as [|f s IH]; simpl; [done|]. rewrite !orb_false_iff. intros [Hf Hs]. split; [|by apply IH].
  destruct (Ascii.eqb f c); [by apply Ascii.eqb_neq|done].
Qed.

Lemma str_mem_split c s piece d : In piece (split_char c s) -> str_mem d piece = true -> str_mem d s = true.
Proof.
  revert piece. induction s as [|e s IH]; simpl; intros piece; [by intros [<-|[]]|].
  destruct (Ascii.eqb_spec e c) as [->|Hne]; [intros [<-|H] Hd; [done|]; rewrite (IH _ H Hd); apply orb_true_r|].
  pose proof (split_char_ne c s) as Hs. destruct (split_char c s) as [|p ps]; [done|].
  intros [<-|H] Hd; simpl in *.
  - apply orb_true_iff in Hd as [->|Hd]; [done|]. rewrite (IH p (or_introl eq_refl) Hd). apply orb_true_r.
  - rewrite (IH piece (or_intror H) Hd). apply orb_true_r.
Qed.
