(* ===== verification/Version.v ===== *)
(** * Package versions

    [crates/ocx_package/src/version.rs]: the [Version] struct, its constructors
    and accessors, [parent], [with_build], the variant operations and the total
    order every other part of the package crate sorts by.  Parsing and printing
    are in [VersionText.v]. *)

From stdpp Require Import base decidable list option numbers strings.
From Stdlib Require Import Lia.
From S2P Require Import Prelude OMap Text.
Local Open Scope ocx_scope.

(** ** Data *)

(** [type PatchRest = (Option<String>, Option<String>)]: (build, prerelease). *)
Definition PatchRest : Type := (option string * option string)%type.
(** [type MinorRest = Option<(u32, PatchRest)>]. *)
Definition MinorRest : Type := option (N * PatchRest)%type.

(** [struct Version]: the variant ([None] is the default variant), the major
    number and the nested rest, so that no part exists without its parent. *)
Record Version : Type := mkVersion {
  v_variant : option string;
  v_major : N;
  v_rest : option (N * MinorRest);
}.

Definition new_major (major : N) : Version := mkVersion None major None.
Definition new_minor (major minor : N) : Version := mkVersion None major (Some (minor, None)).
Definition new_patch (major minor patch : N) : Version :=
  mkVersion None major (Some (minor, Some (patch, (None, None)))).
Definition new_build (major minor patch : N) (build : string) : Version :=
  mkVersion None major (Some (minor, Some (patch, (Some build, None)))).
Definition new_prerelease (major minor patch : N) (prerelease : string) : Version :=
  mkVersion None major (Some (minor, Some (patch, (None, Some prerelease)))).
Definition new_prerelease_with_build (major minor patch : N) (prerelease build : string) : Version :=
  mkVersion None major (Some (minor, Some (patch, (Some build, Some prerelease)))).

(** ** Accessors *)

Definition v_minor (v : Version) : option N :=
  match v_rest v with Some (minor, _) => Some minor | None => None end.
Definition has_minor (v : Version) : bool :=
  match v_rest v with Some (_, _) => true | None => false end.
Definition v_patch (v : Version) : option N :=
  match v_rest v with Some (_, Some (patch, _)) => Some patch | _ => None end.
Definition has_patch (v : Version) : bool :=
  match v_rest v with Some (_, Some (_, _)) => true | _ => false end.
Definition v_build (v : Version) : option string :=
  match v_rest v with Some (_, Some (_, (Some build, _))) => Some build | _ => None end.
Definition has_build (v : Version) : bool :=
  match v_rest v with Some (_, Some (_, (Some _, _))) => true | _ => false end.
Definition v_prerelease (v : Version) : option string :=
  match v_rest v with Some (_, Some (_, (_, Some prerelease))) => Some prerelease | _ => None end.
Definition has_prerelease (v : Version) : bool :=
  match v_rest v with Some (_, Some (_, (_, Some _))) => true | _ => false end.
Definition is_rolling (v : Version) : bool :=
  negb (match v_rest v with Some (_, Some (_, (Some _, _))) => true | _ => false end).
Definition has_variant (v : Version) : bool := bool_decide (is_Some (v_variant v)).
Definition with_variant (v : Version) (variant : string) : Version :=
  mkVersion (Some variant) (v_major v) (v_rest v).
Definition without_variant (v : Version) : Version := mkVersion None (v_major v) (v_rest v).

(** [Version::parent]: the parent with the variant kept, [None] for a bare major. *)
Definition parent (v : Version) : option Version :=
  match v_rest v with
  | Some (minor, patch) =>
      match patch with
      | Some (patch, (build, prerelease)) =>
          if bool_decide (is_Some build) then
            Some (mkVersion (v_variant v) (v_major v) (Some (minor, Some (patch, (None, prerelease)))))
          else if bool_decide (is_Some prerelease) then
            Some (mkVersion (v_variant v) (v_major v) (Some (minor, Some (patch, (None, None)))))
          else
            Some (mkVersion (v_variant v) (v_major v) (Some (minor, None)))
      | None => Some (mkVersion (v_variant v) (v_major v) None)
      end
  | None => None
  end.

(** ** The order *)

(** [impl Ord for Version]: branch by branch, as written. *)
Definition version_cmp (lhs rhs : Version) : comparison :=
  let variant_cmp :=
    match v_variant lhs, v_variant rhs with
    | None, None => Eq
    | None, Some _ => Gt
    | Some _, None => Lt
    | Some a, Some b => String.compare a b
    end in
  match variant_cmp with
  | Eq =>
      match N.compare (v_major lhs) (v_major rhs) with
      | Eq =>
          match v_rest lhs with
          | None => match v_rest rhs with Some _ => Gt | None => Eq end
          | Some (lhs_minor, lhs_rest) =>
              match v_rest rhs with
              | None => Lt
              | Some (rhs_minor, rhs_rest) =>
                  match N.compare lhs_minor rhs_minor with
                  | Eq =>
                      match lhs_rest with
                      | None => match v_patch rhs with Some _ => Gt | None => Eq end
                      | Some (lhs_patch, (lhs_build, lhs_prerelease)) =>
                          match rhs_rest with
                          | None => Lt
                          | Some (rhs_patch, (rhs_build, rhs_prerelease)) =>
                              match N.compare lhs_patch rhs_patch with
                              | Eq =>
                                  let prerelease_cmp :=
                                    match lhs_prerelease, rhs_prerelease with
                                    | Some l, Some r => String.compare l r
                                    | Some _, None => Lt
                                    | None, Some _ => Gt
                                    | None, None => Eq
                                    end in
                                  match prerelease_cmp with
                                  | Eq =>
                                      match lhs_build, rhs_build with
                                      | Some l, Some r => String.compare l r
                                      | Some _, None => Lt
                                      | None, Some _ => Gt
                                      | None, None => Eq
                                      end
                                  | ordering => ordering
                                  end
                              | ordering => ordering
                              end
                          end
                      end
                  | ordering => ordering
                  end
              end
          end
      | ordering => ordering
      end
  | ordering => ordering
  end.

(** The same order as a composition of lexicographic combinators: variant
    first, then each level with its absence last. *)
Definition version_key (v : Version) :
    option string * (N * option (N * option (N * (option string * option string)))) :=
  (v_variant v,
   (v_major v,
    match v_rest v with
    | None => None
    | Some (minor, None) => Some (minor, None)
    | Some (minor, Some (patch, (build, prerelease))) => Some (minor, Some (patch, (prerelease, build)))
    end)).

Definition version_key_cmp :=
  pair_cmp (option_cmp_last String.compare)
    (pair_cmp N.compare
      (option_cmp_last (pair_cmp N.compare
        (option_cmp_last (pair_cmp N.compare
          (pair_cmp (option_cmp_last String.compare) (option_cmp_last String.compare))))))).

Lemma version_cmp_key v w : version_cmp v w = version_key_cmp (version_key v) (version_key w).
Proof.
  destruct v as [vv vm [[vmi [[vp [vb vpr]]|]]|]], w as [wv wm [[wmi [[wp [wb wpr]]|]]|]];
    unfold version_cmp, version_key_cmp, pair_cmp, cmp_then, option_cmp_last, v_patch; simpl;
    repeat case_match; congruence.
Qed.

Lemma version_key_inj v w : version_key v = version_key w -> v = w.
Proof.
  destruct v as [vv vm [[vmi [[vp [vb vpr]]|]]|]], w as [wv wm [[wmi [[wp [wb wpr]]|]]|]];
    unfold version_key; simpl; congruence.
Qed.

Lemma version_cmp_lawful : lawful version_cmp.
Proof.
  eapply lawful_ext; [apply version_cmp_key|].
  apply (lawful_inj version_key version_key_cmp version_key_inj).
  repeat first [apply lawful_pair | apply lawful_option_last | apply lawful_N | apply lawful_string].
Qed.

#[export] Instance version_ord : TotalOrd Version := ord_of_lawful version_cmp version_cmp_lawful.

(** ** The version trie *)

(** How many [parent] steps lead to the bare major. *)
Definition version_depth (v : Version) : nat :=
  match v_rest v with
  | None => 0
  | Some (_, None) => 1
  | Some (_, Some (_, (build, prerelease))) =>
      2 + (if prerelease is Some _ then 1 else 0) + (if build is Some _ then 1 else 0)
  end.

(** [std::iter::successors(first, Version::parent)], cut at [fuel] elements. *)
Fixpoint successors (fuel : nat) (first : option Version) : list Version :=
  match fuel, first with
  | S fuel', Some v => v :: successors fuel' (parent v)
  | _, _ => []
  end.

(** [std::iter::successors(version.parent(), Version::parent).collect()]: the
    depth is the exact number of steps, see [ancestors_unfold]. *)
Definition ancestors (v : Version) : list Version := successors (version_depth v) (parent v).

Lemma parent_depth v p : parent v = Some p -> version_depth v = S (version_depth p).
Proof.
  destruct v as [vv vm [[vmi [[vp [[vb|] [vpr|]]]|]]|]]; unfold parent; simpl; intros; simplify_eq; done.
Qed.

Lemma parent_None_depth v : parent v = None <-> version_depth v = 0.
Proof.
  destruct v as [vv vm [[vmi [[vp [[vb|] [vpr|]]]|]]|]]; unfold parent; simpl; naive_solver.
Qed.

Lemma successors_depth v : successors (version_depth v) (parent v) =
  match parent v with None => [] | Some p => p :: successors (version_depth p) (parent p) end.
Proof.
  destruct (parent v) as [p|] eqn:E; [by rewrite (parent_depth _ _ E)|].
  by apply parent_None_depth in E as ->.
Qed.

(** The iterator's own recursion: [successors] stops only where [parent] is [None]. *)
Lemma ancestors_unfold v :
  ancestors v = match parent v with None => [] | Some p => p :: ancestors p end.
Proof. apply successors_depth. Qed.

(** Membership in the ancestor chain as a test on the fields: [a] is a proper
    truncation of [v]. *)
Definition below (a v : Version) : bool :=
  bool_decide (v_variant a = v_variant v) && bool_decide (v_major a = v_major v) &&
  match v_rest a with
  | None => has_minor v
  | Some (minor, None) => bool_decide (v_minor v = Some minor) && has_patch v
  | Some (minor, Some (patch, (None, prerelease))) =>
      bool_decide (v_minor v = Some minor) && bool_decide (v_patch v = Some patch) &&
      match prerelease with
      | None => has_build v || has_prerelease v
      | Some p => bool_decide (v_prerelease v = Some p) && has_build v
      end
  | Some (_, Some (_, (Some _, _))) => false
  end.

(** Unfold the accessors, so that a version in constructor form computes. *)
Ltac version_unfold :=
  unfold v_minor, has_minor, v_patch, has_patch, v_build, has_build, v_prerelease, has_prerelease,
    is_rolling in *.

Ltac version_cases v :=
  destruct v as [?variant ?major [[?minor [[?patch [[?build|] [?prerelease|]]]|]]|]].

Lemma below_ancestors a v : In a (ancestors v) <-> below a v = true.
Proof.
  unfold below. version_cases v; unfold ancestors, parent; simpl; split.
  all: try (intros Hin; repeat (destruct Hin as [<-|Hin]; [simpl; by rewrite !bool_decide_true|]); done).
  all: rewrite !andb_true_iff, !bool_decide_eq_true; intros [[E1 E2] E3];
    version_cases a; version_unfold; simpl in *; simplify_eq/=;
    repeat (case_bool_decide; simplify_eq/=); try done; eauto 10.
Qed.

(** The part of the order the code's range scans depend on: every ancestor is
    above the version, and what lies between a version and one of its ancestors
    is below that ancestor too. *)
Lemma version_lt_key v w : v <o w <-> version_key_cmp (version_key v) (version_key w) = Lt.
Proof. change (version_cmp v w = Lt <-> version_key_cmp (version_key v) (version_key w) = Lt).
  by rewrite version_cmp_key. Qed.

Lemma parent_lt v p : parent v = Some p -> v <o p.
Proof.
  rewrite version_lt_key. version_cases v; unfold parent; simpl; intros; simplify_eq;
    unfold version_key_cmp, pair_cmp, cmp_then, option_cmp_last; simpl;
    destruct variant; simpl; by repeat (rewrite ?N.compare_refl, ?string_compare_refl; simpl).
Qed.

Lemma ancestors_lt a v : In a (ancestors v) -> v <o a.
Proof.
  remember (version_depth v) as n eqn:En. revert v En.
  induction n as [|n IH]; intros v En; rewrite ancestors_unfold.
  - by rewrite (proj2 (parent_None_depth v)).
  - destruct (parent v) as [p|] eqn:Ep; [|done]. pose proof (parent_lt _ _ Ep) as Hlt.
    intros [<-|Hin]; [done|]. eapply ord_cmp_trans; [exact Hlt|].
    apply IH; [|done]. apply parent_depth in Ep. lia.
Qed.

Lemma below_lt a v : below a v = true -> v <o a.
Proof. intros H%below_ancestors. by apply ancestors_lt. Qed.

(** The comparison of two versions, peeled to the first field that differs. *)
Lemma version_cmp_peel v w : version_cmp v w =
  cmp_then (option_cmp_last String.compare (v_variant v) (v_variant w))
    (cmp_then (N.compare (v_major v) (v_major w))
      (option_cmp_last (pair_cmp N.compare (option_cmp_last (pair_cmp N.compare
        (pair_cmp (option_cmp_last String.compare) (option_cmp_last String.compare)))))
        (version_key v).2.2 (version_key w).2.2)).
Proof. by rewrite version_cmp_key. Qed.

Lemma cmp_then_Lt c d : cmp_then c d = Lt <-> c = Lt \/ c = Eq /\ d = Lt.
Proof. destruct c; simpl; naive_solver. Qed.

(** [a < x < b] with [a] and [b] equal in the leading field pins it in [x]. *)
Lemma lawful_sandwich {A : Type} (f : A -> A -> comparison) (H : lawful f) a x :
  f a x <> Gt -> f x a <> Gt -> x = a.
Proof.
  intros H1 H2. rewrite (lawful_opp f H a x) in H2.
  destruct (f a x) eqn:E; [|done|done]. symmetry. by apply (lawful_eq f H).
Qed.

Lemma cmp_then_lead {A : Type} (f : A -> A -> comparison) (H : lawful f) a x c d :
  cmp_then (f a x) c = Lt -> cmp_then (f x a) d = Lt -> x = a /\ c = Lt /\ d = Lt.
Proof.
  intros H1 H2. assert (x = a) as ->.
  { apply (lawful_sandwich f H); intros E.
    - by rewrite E in H1.
    - by rewrite E in H2. }
  by rewrite (lawful_refl f H) in H1, H2.
Qed.

Lemma below_convex a v x : below a v = true -> v <o x -> x <o a -> below a x = true.
Proof.
  intros Hb H1 H2. change (version_cmp v x = Lt) in H1. change (version_cmp x a = Lt) in H2.
  unfold below in *. rewrite !andb_true_iff, !bool_decide_eq_true in *.
  destruct Hb as [[Ev Em] Hb]. rewrite version_cmp_peel in H1, H2. rewrite <- Ev in H1.
  apply (cmp_then_lead _ (lawful_option_last _ lawful_string)) with (1 := H1) in H2 as (E & H1' & H2').
  rewrite <- Em in H1'. apply (cmp_then_lead _ lawful_N) with (1 := H1') in H2' as (E' & H1'' & H2'').
  clear H1 H1'. split; [done|]. clear E E' Ev Em.
  version_cases a; version_unfold; simpl in *; try done.
  all: version_cases v; simpl in *; try done; version_cases x; simpl in *; try done.
  all: unfold pair_cmp in *; simpl in *; rewrite ?andb_true_iff, ?bool_decide_eq_true in *; destruct_and?;
    simplify_eq/=.
  all: repeat match goal with
    | Ha : cmp_then (N.compare ?n ?m) _ = Lt, Hb : cmp_then (N.compare ?m ?n) _ = Lt |- _ =>
        apply (cmp_then_lead _ lawful_N) with (1 := Ha) in Hb as (-> & ? & ?); clear Ha; simpl in *
    | Ha : cmp_then (String.compare ?n ?m) _ = Lt, Hb : cmp_then (String.compare ?m ?n) _ = Lt |- _ =>
        apply (cmp_then_lead _ lawful_string) with (1 := Ha) in Hb as (-> & ? & ?); clear Ha; simpl in *
    end; try done; rewrite ?bool_decide_true by done; try done.
Qed.

(** Induction along [parent]. *)
Lemma parent_ind (Q : Version -> Prop) :
  (forall v, (forall p, parent v = Some p -> Q p) -> Q v) -> forall v, Q v.
Proof.
  intros Hstep v. remember (version_depth v) as n eqn:En. revert v En.
  induction n as [n IH] using lt_wf_ind; intros v ->.
  apply Hstep. intros p Hp. apply (IH (version_depth p)); [|done]. rewrite (parent_depth _ _ Hp). lia.
Qed.

Lemma ancestors_trans a b v : In a (ancestors b) -> In b (ancestors v) -> In a (ancestors v).
Proof.
  intros Ha. induction v as [v IH] using parent_ind. rewrite (ancestors_unfold v).
  destruct (parent v) as [p|]; [|done]. intros [->|Hb]; [by right|]. right. by eapply IH.
Qed.

Lemma below_trans a b v : below a b = true -> below b v = true -> below a v = true.
Proof. rewrite <- !below_ancestors. apply ancestors_trans. Qed.

Lemma below_irrefl a : below a a = false.
Proof. destruct (below a a) eqn:E; [|done]. apply below_lt in E. by apply ord_irrefl in E. Qed.

Lemma ancestors_wf v : os_wf (ancestors v).
Proof.
  induction v as [v IH] using parent_ind. rewrite ancestors_unfold.
  destruct (parent v) as [p|] eqn:E; [|constructor]. constructor; [by apply IH|].
  apply List.Forall_forall. intros a. apply ancestors_lt.
Qed.

(** Two ancestors of one version are comparable in the trie. *)
Lemma below_linear a b v : below a v = true -> below b v = true -> a <o b -> below b a = true.
Proof. intros Ha Hb Hab. apply (below_convex b v a); [done|by apply below_lt|done]. Qed.

Lemma below_no_build a v : below a v = true -> has_build a = false.
Proof. unfold below. version_cases a; simpl; try done; by rewrite andb_false_r. Qed.

Lemma below_variant a v : below a v = true -> v_variant a = v_variant v.
Proof. unfold below. rewrite !andb_true_iff, bool_decide_eq_true. naive_solver. Qed.

Lemma below_prerelease a v : below a v = true -> has_prerelease a = true -> has_prerelease v = true.
Proof.
  unfold below. version_cases a; version_cases v; version_unfold; simpl; rewrite ?andb_true_iff, ?bool_decide_eq_true;
    naive_solver.
Qed.

(** What lies strictly between two consecutive links of a chain is not in it. *)
Lemma parent_gap v p x : parent v = Some p -> v <o x -> x <o p -> below x v = false.
Proof.
  intros Hp H1 H2. destruct (below x v) eqn:E; [|done]. apply below_ancestors in E.
  rewrite ancestors_unfold, Hp in E. destruct E as [->|Hin%ancestors_lt].
  - by apply ord_irrefl in H2.
  - by apply (ord_asym x p) in H2.
Qed.

(** ** Build metadata *)

(** [build_meta::BuildMetaError]: the payload is the rendered version, kept as
    the version itself. *)
Inductive BuildMetaError : Type :=
| NoPatch (v : Version)
| AlreadyPresent (v : Version).

(** [Version::with_build]. *)
Definition with_build (v : Version) (build : string) : result BuildMetaError Version :=
  if negb (has_patch v) then Err (NoPatch v)
  else if has_build v then Err (AlreadyPresent v)
  else match v_rest v with
       | Some (minor, Some (patch, (_, prerelease))) =>
           Ok (mkVersion (v_variant v) (v_major v) (Some (minor, Some (patch, (Some build, prerelease)))))
       | _ => Err (NoPatch v)
       end.

(** ** Properties *)

(** C39: [Ord for Version] is a lawful total order: [Equal] exactly on equal
    versions, antisymmetric and transitive.  The package crate keys [BTreeSet]s
    and [BTreeMap]s by it, which is sound only for such an order. *)
Theorem version_order_lawful :
  (forall v w, version_cmp v w = Eq <-> v = w) /\
  (forall v w, version_cmp w v = CompOpp (version_cmp v w)) /\
  (forall u v w, version_cmp u v = Lt -> version_cmp v w = Lt -> version_cmp u w = Lt).
Proof. destruct version_cmp_lawful as [H1 H2 H3]. split_and!; [exact H1|exact H2|exact H3]. Qed.

(** The parent chain and the order agree.  Each ancestor of a version sorts
    above it, the chain is strictly ascending and ends in a version with no
    parent, and the versions strictly between a version and one of its ancestors
    are themselves below that ancestor: a subtree is one contiguous range of the
    order, which is what the cascade's [BTreeSet::range] scans rely on. *)
Theorem version_subtree_is_a_range (v a : Version) (Ha : In a (ancestors v)) :
  version_cmp v a = Lt /\ os_wf (ancestors v) /\
  (forall w, last (ancestors v) = Some w -> parent w = None) /\
  (forall x, version_cmp v x = Lt -> version_cmp x a = Lt -> In a (ancestors x)).
Proof.
  split_and!; [by apply ancestors_lt | apply ancestors_wf | |].
  - clear a Ha. induction v as [v IH] using parent_ind. rewrite ancestors_unfold. intros w.
    destruct (parent v) as [p|] eqn:E; [|done]. destruct (ancestors p) as [|b l] eqn:El.
    + intros [= <-]. rewrite ancestors_unfold in El. by destruct (parent p).
    + intros Hw. apply (IH p); [done|]. by rewrite El.
  - intros x H1 H2. apply below_ancestors. apply below_ancestors in Ha. by apply (below_convex a v x).
Qed.

Lemma version_subtree_is_a_range_witness :
  version_cmp (new_build 1 7 3 "b1") (new_minor 1 7) = Lt /\
  In (new_minor 1 7) (ancestors (new_patch 1 7 4)).
Proof.
  destruct (version_subtree_is_a_range (new_build 1 7 3 "b1") (new_minor 1 7)
    ltac:(vm_compute; auto)) as (H1 & _ & _ & H2).
  split; [exact H1 | apply (H2 (new_patch 1 7 4)); reflexivity].
Defined.

(** [with_build] succeeds exactly on versions with an [X.Y.Z] core and no
    build, and then the result carries the build, keeps every other field, and
    has the original version as its parent; otherwise the error says which of the
    two conditions failed. *)
Theorem with_build_spec (v : Version) (build : string) :
  match with_build v build with
  | Ok w =>
      has_patch v = true /\ has_build v = false /\ v_build w = Some build /\
      parent w = Some v /\ v_prerelease w = v_prerelease v /\ v_variant w = v_variant v
  | Err (NoPatch w) => w = v /\ has_patch v = false
  | Err (AlreadyPresent w) => w = v /\ has_patch v = true /\ has_build v = true
  end.
Proof. version_cases v; cbn; split_and?; done. Qed.
