(* ===== verification/VersionText.v ===== *)
(** * Version text: parsing and printing

    [Version::parse] with its regular expression, [Display for Version],
    [TryFrom<&str>] and [variant_names] of
    [crates/ocx_package/src/version.rs]. *)

From stdpp Require Import base decidable list option numbers strings.
From Stdlib Require Import Lia Ascii.
From S2P Require Import Prelude OMap Text Version.
Local Open Scope ocx_scope.
Local Open Scope string_scope.

(** ** The regular expression

    Anchored: an optional variant [V] and a dash, then [N], then optionally [.N],
    then optionally [.N], and after the third number an optional dash and
    identifier and an optional [_] or [+] and identifier; [V] is a lower-case
    letter and lower-case letters, digits and dots, [N] is [0] or a digit string
    that starts with [1-9], an identifier is one or more of [0-9a-zA-Z].  A match
    is its capture groups 2, 3, 5, 7, 9 and 11. *)

Record Captures : Type := mkCaptures {
  cap_variant : option string;
  cap_major : string;
  cap_minor : option string;
  cap_patch : option string;
  cap_prerelease : option string;
  cap_build : option string;
}.

Definition is_variant_char (c : ascii) : bool := is_lower c || is_digit c || Ascii.eqb c ".".

(** Group 2: a lower-case letter, then lower-case letters, digits and dots. *)
Definition is_variant (s : string) : bool :=
  match s with
  | EmptyString => false
  | String c s' => is_lower c && str_forall is_variant_char s'
  end.

(** Groups 9 and 11: one or more of [0-9a-zA-Z]. *)
Definition is_ident (s : string) : bool := negb (String.eqb s "") && str_forall is_alnum s.

(** [N] at the head of the input, and the rest. *)
Definition scan_numeral (s : string) : option (string * string) :=
  match s with
  | EmptyString => None
  | String c s' =>
      if Ascii.eqb c "0" then Some ("0", s')
      else if is_digit c then Some (span is_digit s) else None
  end.

(** The optional variant prefix: the class excludes the dash, and a version number
    starts with a digit, so the first character decides. *)
Definition scan_variant (s : string) : option (option string * string) :=
  match s with
  | EmptyString => Some (None, s)
  | String c _ =>
      if is_lower c then
        let '(v, rest) := span is_variant_char s in
        match rest with
        | String "-" rest' => Some (Some v, rest')
        | _ => None
        end
      else Some (None, s)
  end.

(** A separator of the class and an identifier, optional. *)
Definition scan_ident (sep : ascii -> bool) (s : string) : option (option string * string) :=
  match s with
  | EmptyString => Some (None, s)
  | String c rest =>
      if sep c then
        let '(i, rest') := span is_alnum rest in
        if String.eqb i "" then None else Some (Some i, rest')
      else Some (None, s)
  end.

Definition is_dash (c : ascii) : bool := Ascii.eqb c "-".
Definition is_build_sep (c : ascii) : bool := Ascii.eqb c "_" || Ascii.eqb c "+".

(** [VERSION_REGEX.captures(value)]. *)
Definition version_captures (s : string) : option Captures :=
  '(variant, s) ← scan_variant s;
  '(major, s) ← scan_numeral s;
  match s with
  | EmptyString => Some (mkCaptures variant major None None None None)
  | String "." s =>
      '(minor, s) ← scan_numeral s;
      match s with
      | EmptyString => Some (mkCaptures variant major (Some minor) None None None)
      | String "." s =>
          '(patch, s) ← scan_numeral s;
          '(prerelease, s) ← scan_ident is_dash s;
          '(build, s) ← scan_ident is_build_sep s;
          match s with
          | EmptyString => Some (mkCaptures variant major (Some minor) (Some patch) prerelease build)
          | _ => None
          end
      | _ => None
      end
  | _ => None
  end.

(** [Version::parse].  A minor or patch number outside [u32] ends the parse
    there: the version comes back without that part. *)
Definition version_parse (value : string) : option Version :=
  captures ← version_captures value;
  let variant := cap_variant captures in
  (* "latest" is reserved and not a valid variant *)
  if bool_decide (variant = Some "latest") then None else
  major ← u32_parse (cap_major captures);
  match cap_minor captures with
  | None | Some "" => Some (mkVersion variant major None)
  | Some minor =>
      match u32_parse minor with
      | None => Some (mkVersion variant major None)
      | Some minor =>
          match cap_patch captures with
          | None | Some "" => Some (mkVersion variant major (Some (minor, None)))
          | Some patch =>
              match u32_parse patch with
              | None => Some (mkVersion variant major (Some (minor, None)))
              | Some patch =>
                  Some (mkVersion variant major
                    (Some (minor, Some (patch, (cap_build captures, cap_prerelease captures)))))
              end
          end
      end
  end.

(** [TryFrom<&str> for Version]. *)
Definition version_try_from (value : string) : result string Version :=
  match version_parse value with
  | Some version => Ok version
  | None => Err value
  end.

(** [Display for Version]. *)
Definition version_display (v : Version) : string :=
  let prefix := match v_variant v with Some variant => variant +:+ "-" | None => "" end in
  let version := u32_to_string (v_major v) in
  let version :=
    match v_rest v with
    | Some (minor, rest) =>
        let version := version +:+ "." +:+ u32_to_string minor in
        match rest with
        | Some (patch, rest) =>
            let version := version +:+ "." +:+ u32_to_string patch in
            let version := match rest with (_, Some prerelease) => version +:+ "-" +:+ prerelease | _ => version end in
            match rest with (Some build, _) => version +:+ "_" +:+ build | _ => version end
        | None => version
        end
    | None => version
    end in
  prefix +:+ version.

(** [variant_names]: the distinct variant names across the tags, sorted. *)
Definition variant_names (tags : list string) : list string :=
  os_of_list (omap v_variant (omap version_parse tags)).

Example parse_variant : version_parse "pgo.lto-3.12.5_b1" =
  Some (with_variant (new_build 3 12 5 "b1") "pgo.lto").
Proof. reflexivity. Qed.
Example parse_bare_variant : version_parse "debug" = None /\ version_parse "latest-1" = None.
Proof. split; reflexivity. Qed.
Example parse_leading_zero : version_parse "01" = None /\ version_parse "1.2.03" = None.
Proof. split; reflexivity. Qed.

(** ** The language of the regular expression

    The capture groups a match may have, and the text a match with those groups
    spells (the build separator is [_] or [+]). *)

Definition opt_ok (p : string -> bool) (o : option string) : bool :=
  match o with None => true | Some s => p s end.

Definition captures_wf (c : Captures) : bool :=
  opt_ok is_variant (cap_variant c) && is_numeral (cap_major c) &&
  opt_ok is_numeral (cap_minor c) && opt_ok is_numeral (cap_patch c) &&
  opt_ok is_ident (cap_prerelease c) && opt_ok is_ident (cap_build c) &&
  match cap_minor c, cap_patch c with
  | None, None => bool_decide (cap_prerelease c = None) && bool_decide (cap_build c = None)
  | None, Some _ => false
  | Some _, None => bool_decide (cap_prerelease c = None) && bool_decide (cap_build c = None)
  | Some _, Some _ => true
  end.

Definition opt_text (before : string) (o : option string) (after : string) : string :=
  match o with None => "" | Some s => before +:+ s +:+ after end.

Definition regex_text (sep : string) (c : Captures) : string :=
  opt_text "" (cap_variant c) "-" +:+ cap_major c +:+
  opt_text "." (cap_minor c)
    (opt_text "." (cap_patch c)
      (opt_text "-" (cap_prerelease c) "" +:+ opt_text sep (cap_build c) "")).

Lemma class_disjoint (c : ascii) : is_digit c = true -> is_lower c = false.
Proof.
  unfold is_digit, is_lower, in_range. rewrite andb_true_iff, !N.leb_le.
  change (N_of_ascii "9") with 57%N. change (N_of_ascii "a") with 97%N. intros [_ H].
  apply andb_false_iff. left. apply N.leb_gt. lia.
Qed.

Lemma scan_numeral_app n r : is_numeral n = true -> head_not is_digit r = true ->
  scan_numeral (n +:+ r) = Some (n, r).
Proof.
  destruct n as [|c n]; [done|]. intros Hn Hr. simpl in Hn |- *.
  destruct (Ascii.eqb_spec c "0") as [->|].
  - destruct (String.eqb_spec n "") as [->|]; done.
  - apply andb_true_iff in Hn as [Hc Hn]. rewrite Hc. by rewrite (span_app is_digit n r).
Qed.

Lemma scan_numeral_inv s n r : scan_numeral s = Some (n, r) -> s = n +:+ r /\ is_numeral n = true.
Proof.
  destruct s as [|c s]; simpl; [done|]. destruct (Ascii.eqb_spec c "0") as [->|Hc0].
  - by intros [= <- <-].
  - destruct (is_digit c) eqn:Hc; [|done]. pose proof (span_eq is_digit s) as Hs.
    destruct (span is_digit s) as [a b]. destruct Hs as (-> & Ha & _). intros [= <- <-].
    rewrite <- Ascii.eqb_neq in Hc0. simpl. by rewrite Hc0, Hc, Ha.
Qed.

Lemma scan_variant_app v r : is_variant v = true -> scan_variant (v +:+ "-" +:+ r) = Some (Some v, r).
Proof.
  destruct v as [|c v]; [done|]. intros [Hc Hv]%andb_true_iff.
  change (String c v +:+ "-" +:+ r) with (String c (v +:+ String "-" r)).
  unfold scan_variant. rewrite Hc.
  change (String c (v +:+ String "-" r)) with (String c v +:+ String "-" r).
  rewrite span_app; [done| |done]. simpl. unfold is_variant_char at 1. by rewrite Hc.
Qed.

Lemma scan_variant_none n r : is_numeral n = true -> scan_variant (n +:+ r) = Some (None, n +:+ r).
Proof.
  intros [Hd Hne]%is_numeral_digits. destruct n as [|c n]; [done|]. simpl in *.
  apply andb_true_iff in Hd as [Hc _]. by rewrite (class_disjoint c Hc).
Qed.

Lemma scan_variant_inv s o r : scan_variant s = Some (o, r) ->
  s = opt_text "" o "-" +:+ r /\ opt_ok is_variant o = true.
Proof.
  destruct s as [|c s]; simpl; [by intros [= <- <-]|]. destruct (is_lower c) eqn:Hc; [|by intros [= <- <-]].
  unfold is_variant_char at 1. rewrite Hc. simpl. pose proof (span_eq is_variant_char s) as Hs.
  destruct (span is_variant_char s) as [a b]. destruct Hs as (-> & Ha & _).
  destruct b as [|d b]; [done|]. destruct (Ascii.eqb_spec d "-") as [->|Hd].
  - intros [= <- <-]. simpl. rewrite Hc, Ha. split; [|done]. by rewrite str_app_assoc.
  - repeat (case_match; try done).
Qed.

Lemma scan_ident_app (sep : ascii -> bool) c i r : sep c = true -> is_ident i = true ->
  head_not is_alnum r = true -> scan_ident sep (String c (i +:+ r)) = Some (Some i, r).
Proof.
  intros Hc [Hne Hi]%andb_true_iff Hr. simpl. rewrite Hc, span_app by done.
  apply negb_true_iff in Hne. by rewrite Hne.
Qed.

Lemma scan_ident_none (sep : ascii -> bool) r : head_not sep r = true -> scan_ident sep r = Some (None, r).
Proof. destruct r as [|c r]; simpl; [done|]. intros Hc%negb_true_iff. by rewrite Hc. Qed.

Lemma scan_ident_inv (sep : ascii -> bool) s o r : scan_ident sep s = Some (o, r) ->
  opt_ok is_ident o = true /\
  match o with None => s = r | Some i => exists c, sep c = true /\ s = String c "" +:+ i +:+ r end.
Proof.
  destruct s as [|c s]; simpl; [by intros [= <- <-]|]. destruct (sep c) eqn:Hc; [|by intros [= <- <-]].
  pose proof (span_eq is_alnum s) as Hs. destruct (span is_alnum s) as [a b]. destruct Hs as (-> & Ha & _).
  destruct (String.eqb_spec a "") as [->|Hne]; [done|]. intros [= <- <-]. unfold is_ident.
  simpl. rewrite Ha, andb_true_r, negb_true_iff. split; [by apply String.eqb_neq|eauto].
Qed.

Lemma build_sep_cases c : is_build_sep c = true -> c = "_"%char \/ c = "+"%char.
Proof. unfold is_build_sep. rewrite orb_true_iff. intros [E|E]; apply Ascii.eqb_eq in E; auto. Qed.

(** Every match spells its captures. *)
Lemma version_captures_sound s c : version_captures s = Some c ->
  captures_wf c = true /\ (s = regex_text "_" c \/ s = regex_text "+" c).
Proof.
  unfold version_captures. intros H.
  destruct (scan_variant s) as [[variant s1]|] eqn:E1; [|done]. apply scan_variant_inv in E1 as [-> W1]. simpl in H.
  destruct (scan_numeral s1) as [[major s2]|] eqn:E2; [|done]. apply scan_numeral_inv in E2 as [-> W2]. simpl in H.
  unfold captures_wf, regex_text.
  destruct s2 as [|d2 s2]; [simplify_eq; simpl; rewrite W1, W2; auto|].
  destruct (Ascii.eqb_spec d2 ".") as [->|]; [|repeat (case_match; try done)].
  destruct (scan_numeral s2) as [[minor s3]|] eqn:E3; [|done]. apply scan_numeral_inv in E3 as [-> W3]. simpl in H.
  destruct s3 as [|d3 s3]; [simplify_eq; simpl; rewrite W1, W2, W3; auto|].
  destruct (Ascii.eqb_spec d3 ".") as [->|]; [|repeat (case_match; try done)].
  destruct (scan_numeral s3) as [[patch s4]|] eqn:E4; [|done]. apply scan_numeral_inv in E4 as [-> W4]. simpl in H.
  destruct (scan_ident is_dash s4) as [[pre s5]|] eqn:E5; [|done]. apply scan_ident_inv in E5 as [W5 S5]. simpl in H.
  destruct (scan_ident is_build_sep s5) as [[bld s6]|] eqn:E6; [|done]. apply scan_ident_inv in E6 as [W6 S6].
  simpl in H. destruct s6 as [|]; [|done]. simplify_eq. simpl. rewrite W1, W2, W3, W4, W5, W6. split; [done|].
  destruct bld as [b|].
  - destruct S6 as (c6 & Hc6%build_sep_cases & ->). destruct pre as [p|].
    + destruct S5 as (c5 & Hc5%Ascii.eqb_eq & ->). subst c5. destruct Hc6 as [->| ->]; simpl; rewrite ?str_app_nil_r; auto.
    + subst s4. destruct Hc6 as [->| ->]; simpl; rewrite ?str_app_nil_r; auto.
  - subst s5. destruct pre as [p|].
    + destruct S5 as (c5 & Hc5%Ascii.eqb_eq & ->). subst c5. simpl. rewrite !str_app_nil_r. auto.
    + subst s4. simpl. auto.
Qed.

Lemma opt_text_head (p : ascii -> bool) before o after :
  before <> "" -> head_not p before = true -> head_not p (opt_text before o after) = true.
Proof. destruct o, before; simpl; done. Qed.

(** Every text of the language matches, with the captures it was spelled from. *)
Lemma version_captures_complete sep c : captures_wf c = true -> sep = "_" \/ sep = "+" ->
  version_captures (regex_text sep c) = Some c.
Proof.
  destruct c as [variant major minor patch pre bld]. unfold captures_wf, version_captures. simpl.
  rewrite !andb_true_iff. intros [[[[[[W1 W2] W3] W4] W5] W6] W7] Hsep. unfold regex_text; cbn [cap_variant
    cap_major cap_minor cap_patch cap_prerelease cap_build].
  set (tail := major +:+ _).
  assert (scan_variant (opt_text "" variant "-" +:+ tail) = Some (variant, tail)) as ->.
  { destruct variant as [v|]; simpl in *; [rewrite str_app_assoc; by apply scan_variant_app|].
    by apply scan_variant_none. }
  simpl. unfold tail; clear tail.
  rewrite scan_numeral_app; [|done|by apply opt_text_head]. simpl.
  destruct minor as [mi|]; [|by destruct patch; simpl in *; destruct_and?; repeat case_bool_decide; simplify_eq/=].
  simpl in *. rewrite scan_numeral_app; [|done|by apply opt_text_head]. simpl.
  destruct patch as [pa|]; [|by simpl in *; destruct_and?; repeat case_bool_decide; simplify_eq/=].
  simpl in *.
  assert (head_not is_digit (opt_text "-" pre "" +:+ opt_text sep bld "") = true) as Hd.
  { destruct pre; [done|]. simpl. destruct Hsep as [->| ->]; by apply opt_text_head. }
  rewrite scan_numeral_app by done. simpl.
  assert (scan_ident is_dash (opt_text "-" pre "" +:+ opt_text sep bld "") = Some (pre, opt_text sep bld "")) as ->.
  { destruct pre as [p|]; simpl.
    - rewrite str_app_nil_r. change ("-" +:+ p) with (String "-" p). simpl.
      apply (scan_ident_app is_dash "-" p); [done|done|]. destruct Hsep as [->| ->]; by apply opt_text_head.
    - apply scan_ident_none. destruct Hsep as [->| ->]; by apply opt_text_head. }
  simpl.
  assert (scan_ident is_build_sep (opt_text sep bld "") = Some (bld, "")) as ->.
  { destruct bld as [b|]; [|done]. simpl in *. destruct Hsep as [->| ->].
    - by apply (scan_ident_app is_build_sep "_" b "").
    - by apply (scan_ident_app is_build_sep "+" b ""). }
  done.
Qed.

(** ** Well-formed versions: what [parse] can return *)

Definition version_wf (v : Version) : bool :=
  match v_variant v with None => true | Some s => is_variant s && negb (String.eqb s "latest") end &&
  (v_major v <=? u32_max)%N &&
  match v_rest v with
  | None => true
  | Some (minor, rest) =>
      (minor <=? u32_max)%N &&
      match rest with
      | None => true
      | Some (patch, (build, prerelease)) =>
          (patch <=? u32_max)%N && opt_ok is_ident build && opt_ok is_ident prerelease
      end
  end.

(** The captures a version is printed from. *)
Definition captures_of (v : Version) : Captures :=
  mkCaptures (v_variant v) (u32_to_string (v_major v)) (u32_to_string <$> v_minor v)
    (u32_to_string <$> v_patch v) (v_prerelease v) (v_build v).

Lemma display_regex v : version_display v = regex_text "_" (captures_of v).
Proof.
  version_cases v; unfold version_display, regex_text, captures_of; version_unfold; simpl;
    destruct variant; simpl; rewrite ?str_app_nil_r, ?str_app_assoc; simpl; try done;
    rewrite ?str_app_assoc; simpl; rewrite ?str_app_assoc; simpl; rewrite ?str_app_nil_r; done.
Qed.

Lemma captures_of_wf v : version_wf v = true -> captures_wf (captures_of v) = true.
Proof.
  unfold version_wf, captures_wf, captures_of; version_cases v; version_unfold; simpl.
  all: rewrite ?andb_true_r, ?andb_true_iff, ?N.leb_le; intros; destruct_and?; split_and?;
    repeat first [done | by apply u32_to_string_numeral | by destruct variant; simpl in *; destruct_and? ].
  all: try (destruct variant; simpl in *; [|done]; by destruct (is_variant s)).
Qed.

Lemma numeral_not_empty s : is_numeral s = true -> s <> "".
Proof. by intros [_ H]%is_numeral_digits. Qed.

(** [parse] on a match, with the empty-group cases the grammar rules out gone. *)
Lemma version_parse_captures s c : version_captures s = Some c -> captures_wf c = true ->
  version_parse s =
    (if bool_decide (cap_variant c = Some "latest") then None else
     major ← u32_parse (cap_major c);
     Some (mkVersion (cap_variant c) major
       (minor ← cap_minor c; minor ← u32_parse minor;
        Some (minor, patch ← cap_patch c; patch ← u32_parse patch;
                     Some (patch, (cap_build c, cap_prerelease c)))))).
Proof.
  intros E W. unfold version_parse. rewrite E. simpl.
  destruct c as [variant major minor patch pre bld]; simpl in *.
  unfold captures_wf in W; simpl in W. rewrite !andb_true_iff in W. destruct_and? W.
  destruct (bool_decide (variant = Some "latest")); [done|]. destruct (u32_parse major) as [n|]; simpl; [|done].
  destruct minor as [[|ch mi]|]; simpl in *; try done.
  destruct (u32_parse (String ch mi)); simpl; [|done].
  destruct patch as [[|ch' pa]|]; simpl in *; try done.
  by destruct (u32_parse (String ch' pa)).
Qed.

Lemma parse_wf s v : version_parse s = Some v -> version_wf v = true.
Proof.
  intros H. destruct (version_captures s) as [c|] eqn:E; [|by unfold version_parse in H; rewrite E in H].
  destruct (version_captures_sound s c E) as [W _]. rewrite (version_parse_captures s c E W) in H.
  case_bool_decide as Hl; [done|]. destruct c as [variant major minor patch pre bld]; simpl in *.
  unfold captures_wf in W; simpl in W. rewrite !andb_true_iff in W. destruct W as [[[[[[W1 W2] W3] W4] W5] W6] _].
  destruct (u32_parse major) as [n|] eqn:En; [|done]. apply u32_to_string_parse in En as [_ En]; [|done].
  simpl in H. simplify_eq. unfold version_wf; simpl. rewrite (proj2 (N.leb_le _ _) En).
  assert (match variant with None => true | Some s => is_variant s && negb (String.eqb s "latest") end = true) as ->.
  { destruct variant as [x|]; [|done]. simpl in W1. rewrite W1. simpl. apply negb_true_iff, String.eqb_neq. naive_solver. }
  simpl. destruct minor as [mi|]; simpl in *; [|done].
  destruct (u32_parse mi) as [m|] eqn:Em; simpl; [|done]. apply u32_to_string_parse in Em as [_ Em]; [|done].
  rewrite (proj2 (N.leb_le _ _) Em). simpl. destruct patch as [pa|]; simpl in *; [|done].
  destruct (u32_parse pa) as [p|] eqn:Ep; simpl; [|done]. apply u32_to_string_parse in Ep as [_ Ep]; [|done].
  by rewrite (proj2 (N.leb_le _ _) Ep), W5, W6.
Qed.

Lemma parse_display v : version_wf v = true -> version_parse (version_display v) = Some v.
Proof.
  intros W. pose proof (captures_of_wf v W) as Wc. pose proof (display_regex v) as Hd.
  pose proof (version_captures_complete "_" (captures_of v) Wc (or_introl eq_refl)) as E.
  rewrite <- Hd in E. rewrite (version_parse_captures _ _ E Wc).
  unfold version_wf in W. rewrite !andb_true_iff, N.leb_le in W. destruct W as [[W1 W2] W3].
  rewrite bool_decide_eq_false_2.
  - version_cases v; version_unfold; simpl in *; rewrite ?andb_true_iff, ?N.leb_le in *; destruct_and?;
      rewrite !u32_parse_to_string by done; done.
  - simpl. intros El. rewrite El in W1. done.
Qed.

Lemma display_inj v w : version_wf v = true -> version_wf w = true ->
  version_display v = version_display w -> v = w.
Proof.
  intros Hv Hw E. apply (f_equal version_parse) in E. rewrite !parse_display in E by done. by simplify_eq.
Qed.

(** ** Properties *)

(** The scanner accepts exactly the language of [VERSION_REGEX].  A text
    matches with captures [c] iff [c] is a well-formed set of groups and the text
    spells it with [_] or [+] before the build; in particular a text has at most
    one match, so the greedy regular expression has no ambiguity to resolve. *)
Theorem version_regex_language (s : string) (c : Captures) :
  version_captures s = Some c <->
  captures_wf c = true /\ (s = regex_text "_" c \/ s = regex_text "+" c).
Proof.
  split; [apply version_captures_sound|]. intros [W [->| ->]]; apply version_captures_complete; auto.
Qed.

(** C40: printing then parsing is the identity on well-formed versions (variant
    of the grammar and not [latest], numbers in [u32], identifiers in the
    alphabet), [parse] returns only such versions, and so printing is injective
    on what [parse] returns: two versions never share a tag. *)
Theorem version_display_roundtrip (v : Version) (W : version_wf v = true) :
  version_parse (version_display v) = Some v /\
  (forall s w, version_parse s = Some w -> version_wf w = true) /\
  (forall s w, version_parse s = Some w -> version_display w = version_display v -> w = v).
Proof.
  split_and!; [by apply parse_display | apply parse_wf |].
  intros s w Hw E. apply parse_wf in Hw. by apply display_inj.
Qed.

Lemma version_display_roundtrip_witness :
  version_wf (with_variant (new_prerelease_with_build 3 12 5 "rc1" "b1") "pgo.lto") = true /\
  version_parse "pgo.lto-3.12.5-rc1_b1" =
    Some (with_variant (new_prerelease_with_build 3 12 5 "rc1" "b1") "pgo.lto").
Proof.
  split; [reflexivity|].
  exact (proj1 (version_display_roundtrip
    (with_variant (new_prerelease_with_build 3 12 5 "rc1" "b1") "pgo.lto") eq_refl)).
Defined.

(** when every number of a matching text fits [u32], parsing keeps all of it:
    the version prints back as the text, up to the build separator, which the OCI
    tag grammar forces to [_]. *)
Theorem version_parse_faithful (s : string) (v : Version) (c : Captures)
    (Hp : version_parse s = Some v) (Hc : version_captures s = Some c)
    (Hminor : forall m, cap_minor c = Some m -> is_Some (u32_parse m))
    (Hpatch : forall p, cap_patch c = Some p -> is_Some (u32_parse p)) :
  version_display v = regex_text "_" c /\ (s = version_display v \/ s = regex_text "+" c).
Proof.
  destruct (version_captures_sound s c Hc) as [W Hs]. rewrite (version_parse_captures s c Hc W) in Hp.
  case_bool_decide as Hl; [done|]. rewrite display_regex.
  enough (captures_of v = c) as -> by (split; [done|destruct Hs; auto]).
  destruct c as [variant major minor patch pre bld]; simpl in *.
  unfold captures_wf in W; simpl in W. rewrite !andb_true_iff in W. destruct W as [[[[[[W1 W2] W3] W4] W5] W6] W7].
  destruct (u32_parse major) as [n|] eqn:En; [|done]. apply u32_to_string_parse in En as [En _]; [|done].
  simpl in Hp. simplify_eq. unfold captures_of; version_unfold; simpl. destruct minor as [mi|]; simpl in *.
  - destruct (Hminor mi eq_refl) as [m Em]. rewrite Em. apply u32_to_string_parse in Em as [Em _]; [|done].
    simpl. rewrite Em. destruct patch as [pa|]; simpl in *.
    + destruct (Hpatch pa eq_refl) as [p Ep]. rewrite Ep. apply u32_to_string_parse in Ep as [Ep _]; [|done].
      simpl. rewrite Ep. by destruct bld, pre.
    + apply andb_true_iff in W7 as [W8 W9]. apply bool_decide_eq_true in W8, W9. by subst.
  - destruct patch; [done|]. apply andb_true_iff in W7 as [W8 W9]. apply bool_decide_eq_true in W8, W9. by subst.
Qed.

Lemma version_parse_faithful_witness :
  version_display (new_build 1 7 3 "b1") = "1.7.3_b1".
Proof.
  exact (proj1 (version_parse_faithful "1.7.3+b1" (new_build 1 7 3 "b1")
    (mkCaptures None "1" (Some "7") (Some "3") None (Some "b1")) eq_refl eq_refl
    ltac:(intros m [= <-]; vm_compute; eauto) ltac:(intros p [= <-]; vm_compute; eauto))).
Defined.

(** a minor number outside [u32] is dropped, not refused.  Whatever follows
    it, the text parses to the bare major version, so a tag such as
    [1.4294967296] is read as the rolling tag [1], whose printed form it is not:
    distinct tags of one repository collapse onto one version. *)
Theorem version_parse_minor_overflow (s : string) (c : Captures) (minor : string) (n : N)
    (Hc : version_captures s = Some c) (Hv : cap_variant c = None)
    (Hmajor : u32_parse (cap_major c) = Some n)
    (Hminor : cap_minor c = Some minor) (Hover : u32_parse minor = None) :
  version_parse s = Some (new_major n) /\ version_display (new_major n) <> s.
Proof.
  destruct (version_captures_sound s c Hc) as [W Hs]. split.
  - rewrite (version_parse_captures s c Hc W), Hv, Hmajor, Hminor. simpl. by rewrite Hover.
  - intros E. apply u32_to_string_parse in Hmajor as [_ Hn];
      [|unfold captures_wf in W; rewrite !andb_true_iff in W; tauto].
    assert (version_wf (new_major n) = true) as Wn.
    { unfold version_wf. simpl. by rewrite (proj2 (N.leb_le _ _) Hn). }
    pose proof (version_captures_complete "_" _ (captures_of_wf _ Wn) (or_introl eq_refl)) as E2.
    rewrite <- display_regex, E, Hc in E2. injection E2 as ->. done.
Qed.

Lemma version_parse_minor_overflow_witness :
  version_parse "1.4294967296.5_b2" = Some (new_major 1).
Proof.
  exact (proj1 (version_parse_minor_overflow "1.4294967296.5_b2"
    (mkCaptures None "1" (Some "4294967296") (Some "5") None (Some "b2")) "4294967296" 1
    eq_refl eq_refl eq_refl eq_refl eq_refl)).
Defined.
