(* ===== verification/Digest.v ===== *)
(** * Content digests

    [crates/ocx_oci/src/digest.rs]: the supported algorithms and the [Digest]
    type with its text form.  The hash functions themselves are those of the
    [sha2] crate and do not appear: only the shape of what they return does. *)

From stdpp Require Import base decidable list option numbers strings.
From Stdlib Require Import Lia Ascii.
From S2P Require Import Prelude Text.
Local Open Scope ocx_scope.
Local Open Scope string_scope.

(** ** Algorithms *)

Inductive Algorithm : Type := Sha256 | Sha384 | Sha512.

(** [Algorithm::ALL], in parse order. *)
Definition algorithm_all : list Algorithm := [Sha256; Sha384; Sha512].

(** [Algorithm::prefix]. *)
Definition algorithm_prefix (a : Algorithm) : string :=
  match a with Sha256 => "sha256" | Sha384 => "sha384" | Sha512 => "sha512" end.

(** [Algorithm::hex_len]. *)
Definition algorithm_hex_len (a : Algorithm) : nat :=
  match a with Sha256 => 64 | Sha384 => 96 | Sha512 => 128 end.

#[export] Instance Algorithm_eq_dec : EqDecision Algorithm.
Proof. solve_decision. Defined.

(** ** Digests *)

(** [enum Digest], one constructor per algorithm. *)
Inductive Digest : Type :=
| DSha256 (hex : string)
| DSha384 (hex : string)
| DSha512 (hex : string).

(** [Digest::algorithm], [Digest::hex], [Digest::parts]. *)
Definition digest_algorithm (d : Digest) : Algorithm :=
  match d with DSha256 _ => Sha256 | DSha384 _ => Sha384 | DSha512 _ => Sha512 end.
Definition digest_hex (d : Digest) : string :=
  match d with DSha256 hex | DSha384 hex | DSha512 hex => hex end.
Definition digest_parts (d : Digest) : string * string :=
  (algorithm_prefix (digest_algorithm d), digest_hex d).

Definition digest_of (a : Algorithm) (hex : string) : Digest :=
  match a with Sha256 => DSha256 hex | Sha384 => DSha384 hex | Sha512 => DSha512 hex end.

Inductive DigestError : Type := DigestInvalid (value : string).

(** [Display for Digest]. *)
Definition digest_display (d : Digest) : string :=
  let '(algorithm, hex) := digest_parts d in algorithm +:+ ":" +:+ hex.

(** The loop of [TryFrom<&str> for Digest]: the first algorithm whose prefix and
    colon match decides; nothing after it is tried. *)
Fixpoint digest_try_algorithms (algorithms : list Algorithm) (value : string) : result DigestError Digest :=
  match algorithms with
  | [] => Err (DigestInvalid value)
  | algorithm :: rest =>
      match strip_prefix (algorithm_prefix algorithm) value ≫= strip_prefix ":" with
      | Some hex =>
          if negb (Nat.eqb (String.length hex) (algorithm_hex_len algorithm)) || negb (str_forall is_hexdigit hex)
          then Err (DigestInvalid value)
          else Ok (digest_of algorithm (lowercase hex))
      | None => digest_try_algorithms rest value
      end
  end.

(** [TryFrom<&str> for Digest]: the hex is folded to lower case. *)
Definition digest_try_from (value : string) : result DigestError Digest :=
  digest_try_algorithms algorithm_all value.

(** What a parsed digest satisfies: right length, lower-case hex digits only. *)
Definition digest_wf (d : Digest) : bool :=
  Nat.eqb (String.length (digest_hex d)) (algorithm_hex_len (digest_algorithm d)) &&
  str_forall is_hexdigit (digest_hex d) && String.eqb (lowercase (digest_hex d)) (digest_hex d).

(** ** Lemmas *)

Lemma lowercase_length s : String.length (lowercase s) = String.length s.
Proof. induction s as [|c s IH]; simpl; [done|by rewrite IH]. Qed.

Lemma to_lower_idem c : to_lower (to_lower c) = to_lower c.
Proof. destruct c as [[] [] [] [] [] [] [] []]; vm_compute; reflexivity. Qed.

Lemma lowercase_idem s : lowercase (lowercase s) = lowercase s.
Proof. induction s as [|c s IH]; simpl; [done|by rewrite IH, to_lower_idem]. Qed.

Lemma to_lower_hexdigit c : is_hexdigit c = true -> is_hexdigit (to_lower c) = true.
Proof. destruct c as [[] [] [] [] [] [] [] []]; vm_compute; auto. Qed.

Lemma lowercase_hexdigit s : str_forall is_hexdigit s = true -> str_forall is_hexdigit (lowercase s) = true.
Proof.
  induction s as [|c s IH]; simpl; [done|]. rewrite !andb_true_iff. intros [Hc Hs].
  auto using to_lower_hexdigit.
Qed.

Lemma strip_prefix_app pre s : strip_prefix pre (pre +:+ s) = Some s.
Proof. by apply strip_prefix_Some. Qed.

(** The three prefixes are told apart, so the loop reaches the algorithm the
    text names. *)
Lemma digest_try_from_text a hex :
  digest_try_from (algorithm_prefix a +:+ ":" +:+ hex) =
  if Nat.eqb (String.length hex) (algorithm_hex_len a) && str_forall is_hexdigit hex
  then Ok (digest_of a (lowercase hex))
  else Err (DigestInvalid (algorithm_prefix a +:+ ":" +:+ hex)).
Proof.
  unfold digest_try_from, algorithm_all. destruct a; cbn [digest_try_algorithms];
    cbn [algorithm_prefix strip_prefix String.append Ascii.eqb Bool.eqb mbind option_bind algorithm_hex_len];
    destruct (Nat.eqb _ _), (str_forall is_hexdigit hex); done.
Qed.

Lemma digest_try_from_inv s d : digest_try_from s = Ok d ->
  exists a hex, s = algorithm_prefix a +:+ ":" +:+ hex /\
    Nat.eqb (String.length hex) (algorithm_hex_len a) = true /\ str_forall is_hexdigit hex = true /\
    d = digest_of a (lowercase hex).
Proof.
  unfold digest_try_from. induction algorithm_all as [|a l IH]; cbn [digest_try_algorithms]; [done|].
  destruct (strip_prefix (algorithm_prefix a) s) as [r|] eqn:E1; cbn [mbind option_bind]; [|exact IH].
  destruct (strip_prefix ":" r) as [hex|] eqn:E2; [|exact IH].
  apply strip_prefix_Some in E1, E2. subst.
  destruct (Nat.eqb _ _) eqn:E3, (str_forall is_hexdigit hex) eqn:E4; simpl; try done.
  intros [= <-]. by exists a, hex.
Qed.

Lemma digest_of_parts d : digest_of (digest_algorithm d) (digest_hex d) = d.
Proof. by destruct d. Qed.

Lemma digest_of_hex a h : digest_algorithm (digest_of a h) = a /\ digest_hex (digest_of a h) = h.
Proof. by destruct a. Qed.

(** A well-formed digest parses back from its text. *)
Lemma digest_parse_display (d : Digest) : digest_wf d = true -> digest_try_from (digest_display d) = Ok d.
Proof.
  intros W. unfold digest_display, digest_parts. rewrite digest_try_from_text.
  unfold digest_wf in W. rewrite !andb_true_iff in W. destruct W as [[W1 W2] W3].
  rewrite W1, W2. simpl. apply String.eqb_eq in W3. by rewrite W3, digest_of_parts.
Qed.

Lemma digest_try_from_wf s d : digest_try_from s = Ok d -> digest_wf d = true.
Proof.
  intros (a & hex & -> & H1 & H2 & ->)%digest_try_from_inv. unfold digest_wf.
  destruct (digest_of_hex a (lowercase hex)) as [-> ->].
  by rewrite lowercase_length, H1, lowercase_hexdigit, lowercase_idem, String.eqb_refl.
Qed.

(** ** Properties *)

(** a digest prints and parses back to itself, and parsing an accepted text
    gives a well-formed digest that prints as the text with its hex in lower case;
    two texts of one digest that differ only in hex case parse to equal digests. *)
Theorem digest_roundtrip (d : Digest) (W : digest_wf d = true) :
  digest_try_from (digest_display d) = Ok d /\
  (forall s e, digest_try_from s = Ok e ->
     digest_wf e = true /\
     exists a hex, s = algorithm_prefix a +:+ ":" +:+ hex /\
                   digest_display e = algorithm_prefix a +:+ ":" +:+ lowercase hex).
Proof.
  split; [by apply digest_parse_display|]. intros s e He. split; [by eapply digest_try_from_wf|].
  apply digest_try_from_inv in He as (a & hex & -> & H1 & H2 & ->). exists a, hex.
  unfold digest_display, digest_parts. by destruct (digest_of_hex a (lowercase hex)) as [-> ->].
Qed.

Lemma digest_roundtrip_witness :
  let hex := "e3b0c44298fc1c149afbf4c8996fb92427ae41e4649b934ca495991b7852b855" in
  digest_wf (DSha256 hex) = true /\ digest_try_from ("sha256:" +:+ hex) = Ok (DSha256 hex).
Proof.
  intros hex. split; [reflexivity|].
  exact (proj1 (digest_roundtrip (DSha256 hex) ltac:(vm_compute; reflexivity))).
Defined.
