(* ===== verification/Tag.v ===== *)
(** * Tags

    [crates/ocx_oci/src/tag.rs] (the tags a registry holds that are not package
    versions) and [crates/ocx_package/src/tag.rs] (the classification of a tag
    string that the package crate works with). *)

From stdpp Require Import base decidable list option numbers strings.
From Stdlib Require Import Lia Ascii.
From S2P Require Import Prelude OMap Text Version VersionText Digest.
Local Open Scope ocx_scope.
Local Open Scope string_scope.

(** ** The OCI side *)

Definition RESERVED_INTERNAL_PREFIX : string := "__ocx".
Definition DESCRIPTION_TAG : string := "__ocx.desc".
Definition PATCH_TAG : string := "__ocx.patch".
Definition KEEP_TAG_PREFIX : string := "__ocx.keep.".

Inductive InternalTag : Type :=
| Description
| Patch
| Keep (algorithm : Algorithm) (hex : string)
| Unknown (tag : string).

(** [value.strip_prefix(prefix)?.strip_prefix(separator)?]. *)
Definition strip_algorithm (a : Algorithm) (sep : ascii) (value : string) : option string :=
  strip_prefix (algorithm_prefix a) value ≫= strip_prefix (String sep "").

(** [parse_keep]: [find_map] over every algorithm. *)
Fixpoint parse_keep_with (algorithms : list Algorithm) (value : string) (sep : ascii) : option (Algorithm * string) :=
  match algorithms with
  | [] => None
  | a :: rest =>
      match strip_algorithm a sep value with
      | Some hex =>
          if Nat.eqb (String.length hex) (algorithm_hex_len a) && str_forall is_hexdigit hex
          then Some (a, hex)
          else parse_keep_with rest value sep
      | None => parse_keep_with rest value sep
      end
  end.
Definition parse_keep (value : string) (sep : ascii) : option (Algorithm * string) :=
  parse_keep_with algorithm_all value sep.

(** [InternalTag::from_tag]. *)
Definition internal_from_tag (value : string) : InternalTag :=
  if String.eqb value DESCRIPTION_TAG then Description
  else if String.eqb value PATCH_TAG then Patch
  else match strip_prefix KEEP_TAG_PREFIX value ≫= (fun body => parse_keep body "-") with
       | None => Unknown value
       | Some (algorithm, hex) => Keep algorithm hex
       end.

(** [Display for InternalTag]. *)
Definition internal_display (t : InternalTag) : string :=
  match t with
  | Description => DESCRIPTION_TAG
  | Patch => PATCH_TAG
  | Keep algorithm hex => KEEP_TAG_PREFIX +:+ algorithm_prefix algorithm +:+ "-" +:+ hex
  | Unknown tag => tag
  end.

(** [tag.get(..n)]: [None] when the string is shorter; a cut inside a multi-byte
    character leaves a non-ASCII byte, which no comparison below accepts. *)
Fixpoint str_take (n : nat) (s : string) : option string :=
  match n, s with
  | O, _ => Some ""
  | S n', String c s' => String c <$> str_take n' s'
  | S _, EmptyString => None
  end.

(** [is_internal_namespace]: the prefix, compared ignoring ASCII case. *)
Definition is_internal_namespace (tag : string) : bool :=
  match str_take (String.length RESERVED_INTERNAL_PREFIX) tag with
  | Some prefix => String.eqb (lowercase prefix) (lowercase RESERVED_INTERNAL_PREFIX)
  | None => false
  end.

Definition REFERRER_FALLBACK_ENCODED_LEN : nat := 64.
Definition SIG_SIDECAR_SUFFIX : string := ".sig".
Definition ATT_SIDECAR_SUFFIX : string := ".att".
Definition SBOM_SIDECAR_SUFFIX : string := ".sbom".

Definition opt_or_else {A : Type} (o p : option A) : option A :=
  match o with Some _ => o | None => p end.

(** [is_referrer_fallback_tag]. *)
Definition is_referrer_fallback_tag (value : string) : bool :=
  let base :=
    match opt_or_else (strip_suffix SIG_SIDECAR_SUFFIX value)
            (opt_or_else (strip_suffix ATT_SIDECAR_SUFFIX value) (strip_suffix SBOM_SIDECAR_SUFFIX value)) with
    | Some base => base
    | None => value
    end in
  existsb (fun a =>
    match strip_algorithm a "-" base with
    | Some hex =>
        (Nat.eqb (String.length hex) REFERRER_FALLBACK_ENCODED_LEN ||
         Nat.eqb (String.length hex) (algorithm_hex_len a)) &&
        str_forall is_hexdigit hex
    | None => false
    end) algorithm_all.

(** [is_reserved_tag]. *)
Definition is_reserved_tag (tag : string) : bool :=
  is_internal_namespace tag || bool_decide (is_Some (parse_keep tag ".")) || is_referrer_fallback_tag tag.

(** [referrer_fallback_tag]: [chars().take(64)], on the ASCII hex of a digest. *)
Fixpoint str_truncate (n : nat) (s : string) : string :=
  match n, s with
  | S n', String c s' => String c (str_truncate n' s')
  | _, _ => ""
  end.
Definition referrer_fallback_tag (d : Digest) : string :=
  let '(algorithm, hex) := digest_parts d in
  algorithm +:+ "-" +:+ str_truncate REFERRER_FALLBACK_ENCODED_LEN hex.

(** [sidecar_tag]. *)
Definition sidecar_tag (subject : Digest) (suffix : string) : string :=
  referrer_fallback_tag subject +:+ suffix.

(** ** The package side *)

(** [enum Tag], tried in declaration order. *)
Inductive Tag : Type :=
| TagLatest
| TagInternal (t : InternalTag)
| TagVersion (v : Version)
| TagLegacyKeep (algorithm : Algorithm) (hex : string)
| TagOther (value : string).

Definition LATEST_STR : string := "latest".

(** [From<String> for Tag]. *)
Definition tag_from (value : string) : Tag :=
  if String.eqb value LATEST_STR then TagLatest
  else if is_internal_namespace value then TagInternal (internal_from_tag value)
  else match version_parse value with
       | Some version => TagVersion version
       | None =>
           match parse_keep value "." with
           | Some (algorithm, hex) => TagLegacyKeep algorithm hex
           | None => TagOther value
           end
       end.

(** [From<Tag> for String] (and [Display for Tag]). *)
Definition tag_into_string (t : Tag) : string :=
  match t with
  | TagLatest => LATEST_STR
  | TagInternal internal => internal_display internal
  | TagVersion version => version_display version
  | TagLegacyKeep algorithm hex => algorithm_prefix algorithm +:+ "." +:+ hex
  | TagOther other => other
  end.

(** [Tag::is_reserved]. *)
Definition tag_is_reserved (t : Tag) : bool :=
  match t with
  | TagInternal _ | TagLegacyKeep _ _ => true
  | TagOther value => is_referrer_fallback_tag value
  | TagLatest | TagVersion _ => false
  end.

(** [Tag::is_reserved_str]. *)
Definition is_reserved_str (tag : string) : bool := is_reserved_tag tag.

(** ** Lemmas *)

Lemma strip_algorithm_Some a sep s h :
  strip_algorithm a sep s = Some h <-> s = algorithm_prefix a +:+ String sep h.
Proof.
  unfold strip_algorithm. split.
  - destruct (strip_prefix (algorithm_prefix a) s) as [r|] eqn:E; [|done].
    cbn [mbind option_bind]. intros E2%strip_prefix_Some. apply strip_prefix_Some in E. by subst.
  - intros ->. rewrite strip_prefix_app. cbn [mbind option_bind]. by apply strip_prefix_Some.
Qed.

Lemma parse_keep_Some s sep a h : parse_keep s sep = Some (a, h) ->
  s = algorithm_prefix a +:+ String sep h /\ String.length h = algorithm_hex_len a /\ str_forall is_hexdigit h = true.
Proof.
  unfold parse_keep. induction algorithm_all as [|b l IH]; cbn [parse_keep_with]; [done|].
  destruct (strip_algorithm b sep s) as [hex|] eqn:E; [|exact IH].
  destruct (Nat.eqb_spec (String.length hex) (algorithm_hex_len b)); simpl; [|exact IH].
  destruct (str_forall is_hexdigit hex) eqn:Eh; [|exact IH].
  intros [= <- <-]. apply strip_algorithm_Some in E. done.
Qed.

(** What [version_captures] says about the head of a matching text. *)
Lemma version_captures_head s c : version_captures s = Some c ->
  is_numeral (cap_major c) = true /\
  exists tail, scan_variant s = Some (cap_variant c, cap_major c +:+ tail) /\
               (tail = "" \/ exists t, tail = String "." t).
Proof.
  unfold version_captures. intros H.
  destruct (scan_variant s) as [[variant s1]|] eqn:E1; [|done]. simpl in H.
  destruct (scan_numeral s1) as [[major s2]|] eqn:E2; [|done]. apply scan_numeral_inv in E2 as [-> W2]. simpl in H.
  destruct s2 as [|d2 s2]; [simplify_eq; simpl; split; eauto|].
  destruct (Ascii.eqb_spec d2 ".") as [->|]; [|repeat (case_match; try done)].
  assert (cap_variant c = variant /\ cap_major c = major) as [-> ->]; [|split; [done|eauto]].
  destruct (scan_numeral s2) as [[minor s3]|]; [|done]. simpl in H.
  destruct s3 as [|d3 s3]; [by simplify_eq|].
  destruct (Ascii.eqb_spec d3 ".") as [->|]; [|repeat (case_match; try done)].
  destruct (scan_numeral s3) as [[patch s4]|]; [|done]. simpl in H.
  destruct (scan_ident is_dash s4) as [[pre s5]|]; [|done]. simpl in H.
  destruct (scan_ident is_build_sep s5) as [[bld s6]|]; [|done]. simpl in H. destruct s6; by simplify_eq.
Qed.

Lemma class_impl (p q : ascii -> bool) :
  (forall c, implb (p c) (q c) = true) -> forall s, str_forall p s = true -> str_forall q s = true.
Proof. intros H s. apply str_forall_impl. intros c. specialize (H c). by destruct (p c), (q c). Qed.

Definition not_dash (c : ascii) : bool := negb (Ascii.eqb c "-").
Definition not_dot (c : ascii) : bool := negb (Ascii.eqb c ".").

Lemma hexdigit_plain s : str_forall is_hexdigit s = true ->
  str_forall not_dash s = true /\ str_forall not_dot s = true.
Proof.
  intros H; split; (eapply class_impl; [|exact H]); intros [[] [] [] [] [] [] [] []]; reflexivity.
Qed.

Lemma numeral_not_dot s : is_numeral s = true -> str_forall not_dot s = true.
Proof.
  intros [H _]%is_numeral_digits. eapply class_impl; [|exact H]. intros [[] [] [] [] [] [] [] []]; reflexivity.
Qed.

Lemma algorithm_prefix_variant a : is_variant (algorithm_prefix a) = true.
Proof. by destruct a. Qed.

(** A text that starts with an algorithm prefix and matches the version grammar
    has its letters in the variant. *)
Lemma version_captures_prefixed a r c : version_captures (algorithm_prefix a +:+ r) = Some c ->
  is_Some (cap_variant c).
Proof.
  intros (W & tail & E & _)%version_captures_head. apply scan_variant_inv in E as [E _].
  destruct (cap_variant c) as [x|]; [eauto|]. simpl in E.
  destruct (cap_major c) as [|d m]; [done|]. apply is_numeral_digits in W as [W _]. simpl in W, E.
  apply andb_true_iff in W as [W _]. destruct a; injection E as <- _; done.
Qed.

Lemma version_parse_Some_captures s v : version_parse s = Some v -> is_Some (version_captures s).
Proof. unfold version_parse. destruct (version_captures s); [eauto|done]. Qed.

(** A legacy keep tag never matches the version grammar: it starts with a letter
    and holds no dash. *)
Lemma version_not_keep s v : version_parse s = Some v -> parse_keep s "." = None.
Proof.
  intros [c Ec]%version_parse_Some_captures. destruct (parse_keep s ".") as [[a h]|] eqn:E; [|done]. exfalso.
  apply parse_keep_Some in E as (-> & _ & [Hh _]%hexdigit_plain).
  destruct (version_captures_prefixed _ _ _ Ec) as [x Hx].
  apply version_captures_head in Ec as (_ & tail & E & _).
  apply scan_variant_inv in E as [E _]. rewrite Hx in E.
  assert (str_forall not_dash (algorithm_prefix a +:+ String "." h) = true) as Hn.
  { rewrite str_forall_app. simpl. rewrite Hh. by destruct a. }
  rewrite E, !str_forall_app in Hn. simpl in Hn. rewrite !str_forall_app in Hn. simpl in Hn.
  by rewrite andb_false_r in Hn.
Qed.

(** A numeral of 64 digits or more is no [u32]. *)
Lemma long_numeral_overflows s : is_numeral s = true -> (64 <= String.length s)%nat -> u32_parse s = None.
Proof.
  intros W Hl. rewrite (u32_parse_numeral s W).
  destruct (is_numeral_cases s W) as [->|Wp]; [simpl in Hl; lia|].
  pose proof (pos_numeral_lower s Wp) as Hv.
  pose proof (N.pow_le_mono_r 10 (N.of_nat 11) (N.of_nat (pred (String.length s))) ltac:(lia) ltac:(lia)) as Hm.
  destruct (N.leb_spec (digits_value 0 s) u32_max) as [Hle|]; [|done].
  apply u32_lt_pow in Hle. change (10 ^ N.of_nat 11)%N with 100000000000%N in Hm.
  change (10 ^ N.of_nat 10)%N with 10000000000%N in Hle. lia.
Qed.

(** [<algorithm>-<hex>] with a sidecar suffix never parses as a version: the hex
    would have to be the major number, and that many digits overflow [u32]. *)
Lemma version_not_fallback a hex suf :
  str_forall is_hexdigit hex = true -> (64 <= String.length hex)%nat ->
  (suf = "" \/ exists t, suf = String "." t) ->
  version_parse (algorithm_prefix a +:+ String "-" (hex +:+ suf)) = None.
Proof.
  intros [_ Hh]%hexdigit_plain Hl Hsuf.
  destruct (version_captures (algorithm_prefix a +:+ String "-" (hex +:+ suf))) as [c|] eqn:Ec;
    [|by unfold version_parse; rewrite Ec].
  pose proof (version_captures_sound _ _ Ec) as [Wc _]. rewrite (version_parse_captures _ _ Ec Wc).
  apply version_captures_head in Ec as (W & tail & E & Htail).
  pose proof (scan_variant_app (algorithm_prefix a) (hex +:+ suf) (algorithm_prefix_variant a)) as E0.
  change ("-" +:+ hex +:+ suf) with (String "-" (hex +:+ suf)) in E0. rewrite E0 in E. injection E as _ E.
  assert (forall t, (t = "" \/ exists t', t = String "." t') -> head_not not_dot t = true) as Hhead.
  { intros t [->|[t' ->]]; done. }
  pose proof (span_app not_dot hex suf Hh (Hhead _ Hsuf)) as E1. rewrite E in E1.
  rewrite (span_app not_dot _ tail (numeral_not_dot _ W) (Hhead _ Htail)) in E1. injection E1 as E1 _.
  rewrite E1 in *. rewrite (long_numeral_overflows hex W Hl). by case_bool_decide.
Qed.

(** The shape of a referrers fallback tag. *)
Lemma referrer_fallback_shape s : is_referrer_fallback_tag s = true ->
  exists a hex suf, s = algorithm_prefix a +:+ String "-" (hex +:+ suf) /\
    str_forall is_hexdigit hex = true /\ (64 <= String.length hex)%nat /\
    (suf = "" \/ exists t, suf = String "." t).
Proof.
  unfold is_referrer_fallback_tag. set (base := match _ with Some b => b | None => s end).
  assert (exists suf, s = base +:+ suf /\ (suf = "" \/ exists t, suf = String "." t)) as (suf & Es & Hsuf).
  { unfold base. destruct (strip_suffix SIG_SIDECAR_SUFFIX s) as [b|] eqn:E1; simpl.
    { apply strip_suffix_Some in E1. eauto. }
    destruct (strip_suffix ATT_SIDECAR_SUFFIX s) as [b|] eqn:E2; simpl.
    { apply strip_suffix_Some in E2. eauto. }
    destruct (strip_suffix SBOM_SIDECAR_SUFFIX s) as [b|] eqn:E3; simpl.
    { apply strip_suffix_Some in E3. eauto. }
    exists "". rewrite str_app_nil_r. eauto. }
  rewrite existsb_exists. intros (a & _ & Ha). destruct (strip_algorithm a "-" base) as [hex|] eqn:E; [|done].
  apply strip_algorithm_Some in E. apply andb_true_iff in Ha as [Hlen Hhex].
  exists a, hex, suf. split_and!; [|done| |done].
  - rewrite Es, E, str_app_assoc. done.
  - apply orb_true_iff in Hlen as [Hlen|Hlen]; apply Nat.eqb_eq in Hlen; rewrite Hlen;
      [done|destruct a; simpl; lia].
Qed.

(** ** Properties *)

(** the two reservedness tests agree on every string: classifying a tag and
    asking [Tag::is_reserved] gives what [Tag::is_reserved_str] answers without
    parsing.  No string the version grammar accepts is a keep tag or a referrers
    fallback tag, because 64 decimal digits never fit the major number. *)
Theorem tag_reserved_agree (s : string) : tag_is_reserved (tag_from s) = is_reserved_str s.
Proof.
  unfold tag_from, is_reserved_str, is_reserved_tag.
  destruct (String.eqb_spec s LATEST_STR) as [->|Hl]; [reflexivity|].
  destruct (is_internal_namespace s); [done|]. simpl.
  destruct (version_parse s) as [v|] eqn:Ev.
  - rewrite (version_not_keep s v Ev). rewrite bool_decide_eq_false_2 by (by intros [? ?]). simpl.
    destruct (is_referrer_fallback_tag s) eqn:E; [|done].
    apply referrer_fallback_shape in E as (a & hex & suf & -> & H1 & H2 & H3).
    by rewrite (version_not_fallback a hex suf H1 H2 H3) in Ev.
  - destruct (parse_keep s ".") as [[a h]|] eqn:Ek; simpl; [done|].
    by destruct (is_referrer_fallback_tag s).
Qed.

(** a tag string survives classification: [String::from(Tag::from(s)) = s],
    unless it is a version, whose printed form it then is only up to what
    [Version::parse] normalises. *)
Theorem tag_string_roundtrip (s : string) :
  tag_into_string (tag_from s) = s \/
  exists v, version_parse s = Some v /\ tag_into_string (tag_from s) = version_display v.
Proof.
  unfold tag_from. destruct (String.eqb_spec s LATEST_STR) as [->|Hl]; [by left|].
  destruct (is_internal_namespace s).
  - left. simpl. unfold internal_from_tag.
    destruct (String.eqb_spec s DESCRIPTION_TAG) as [->|]; [done|].
    destruct (String.eqb_spec s PATCH_TAG) as [->|]; [done|].
    destruct (strip_prefix KEEP_TAG_PREFIX s) as [body|] eqn:E; cbn [mbind option_bind]; [|done].
    destruct (parse_keep body "-") as [[a h]|] eqn:Ek; [|done].
    apply strip_prefix_Some in E. apply parse_keep_Some in Ek as (-> & _). by subst.
  - destruct (version_parse s) as [v|] eqn:Ev; [right; eauto|]. left.
    destruct (parse_keep s ".") as [[a h]|] eqn:Ek; [|done].
    apply parse_keep_Some in Ek as (-> & _). done.
Qed.
