(* ===== verification/Cascade.v ===== *)
(** * Cascade algebra

    [crates/ocx_package/src/cascade.rs], first half: which rolling tags a version
    cascades into ([decompose_targets]), which other versions stand in the way at
    each level ([decompose]) and the platform-blind chain ([cascade]). *)

From stdpp Require Import base decidable list option numbers strings.
From Stdlib Require Import Lia Sorting.
From S2P Require Import Prelude OMap Text Version.
Local Open Scope ocx_scope.

(** ** Data *)

(** [struct CascadeLevel]. *)
Record CascadeLevel : Type := mkLevel {
  cl_target : Version;
  cl_blockers : list Version;
}.

(** [struct CascadeDecomposition]. *)
Record CascadeDecomposition : Type := mkDecomposition {
  cd_levels : list CascadeLevel;
  cd_latest_eligible : bool;
  cd_latest_blockers : list Version;
}.

(** [struct CascadeTargets]. *)
Record CascadeTargets : Type := mkTargets {
  ct_targets : list Version;
  ct_latest_eligible : bool;
}.

(** ** Operations *)

(** [decompose_targets].  The [expect] on the parent of a version with a build is
    the empty list here; [parent_of_build] shows it cannot be taken. *)
Definition decompose_targets (version : Version) : CascadeTargets :=
  if has_prerelease version && negb (has_build version) then mkTargets [] false
  else if has_prerelease version then
    mkTargets (match parent version with Some p => [p] | None => [] end) false
  else mkTargets (ancestors version) true.

(** [Iterator::take_while]. *)
Fixpoint take_while {A : Type} (p : A -> bool) (l : list A) : list A :=
  match l with
  | [] => []
  | x :: l' => if p x then x :: take_while p l' else []
  end.

(** The prerelease branch's predicate: a build of the same pre-release. *)
Definition same_prerelease_build (version v : Version) : bool :=
  bool_decide (v_variant v = v_variant version) && bool_decide (v_major v = v_major version) &&
  bool_decide (v_minor v = v_minor version) && bool_decide (v_patch v = v_patch version) &&
  bool_decide (v_prerelease v = v_prerelease version) && has_build v.

(** The loop over the targets: each level's blockers are the stable versions
    strictly between the previous link and the target.  [None] is the panic of
    [BTreeSet::range] on an empty range.  Returns the levels and the last link. *)
Fixpoint decompose_levels (current : Version) (targets : list Version) (others : list Version) :
    option (list CascadeLevel * Version) :=
  match targets with
  | [] => Some ([], current)
  | target :: rest =>
      between ← os_range_excl current target others;
      '(levels, top) ← decompose_levels target rest others;
      Some (mkLevel target (List.filter (fun v => negb (has_prerelease v)) between) :: levels, top)
  end.

(** [decompose]. *)
Definition decompose (version : Version) (others : list Version) : option CascadeDecomposition :=
  let '(mkTargets targets latest_eligible) := decompose_targets version in
  if has_prerelease version then
    let blockers := take_while (same_prerelease_build version) (os_range_above version others) in
    Some (mkDecomposition (map (fun target => mkLevel target blockers) targets) latest_eligible [])
  else
    '(levels, current) ← decompose_levels version targets others;
    let latest_blockers :=
      List.filter (fun v => negb (has_prerelease v))
        (take_while (fun v => bool_decide (v_variant v = v_variant version)) (os_range_above current others)) in
    Some (mkDecomposition levels latest_eligible latest_blockers).

(** The loop of [cascade]: stop at the first level with a blocker. *)
Fixpoint cascade_levels (versions : list Version) (levels : list CascadeLevel) : list Version * bool :=
  match levels with
  | [] => (versions, true)
  | level :: rest =>
      match cl_blockers level with
      | [] => cascade_levels (versions ++ [cl_target level]) rest
      | _ :: _ => (versions, false)
      end
  end.

(** [cascade]: the chain and whether the version becomes [latest]. *)
Definition cascade (version : Version) (others : list Version) : option (list Version * bool) :=
  decomposition ← decompose version (os_of_list others);
  let '(versions, complete) := cascade_levels [version] (cd_levels decomposition) in
  if complete then
    Some (versions, cd_latest_eligible decomposition &&
                    match cd_latest_blockers decomposition with [] => true | _ => false end)
  else Some (versions, false).

Example cascade_full_chain :
  cascade (new_build 1 7 3 "20260216") [] =
  Some ([new_build 1 7 3 "20260216"; new_patch 1 7 3; new_minor 1 7; new_major 1], true).
Proof. reflexivity. Qed.
Example cascade_blocked_at_patch :
  cascade (new_build 1 7 3 "20260216") [new_patch 1 7 4] =
  Some ([new_build 1 7 3 "20260216"; new_patch 1 7 3], false).
Proof. reflexivity. Qed.
Example cascade_prerelease_does_not_block :
  cascade (new_patch 1 7 3) [new_prerelease 1 8 0 "rc1"] =
  Some ([new_patch 1 7 3; new_minor 1 7; new_major 1], true).
Proof. reflexivity. Qed.

(** ** Lemmas *)

Lemma parent_of_build v : has_build v = true -> is_Some (parent v).
Proof. version_cases v; unfold parent; simpl; try done; eauto. Qed.

(** The cascade targets, without the pre-release case split: a target is an
    ancestor, and for a pre-release build only its own pre-release. *)
Lemma decompose_targets_In v a : In a (ct_targets (decompose_targets v)) ->
  below a v = true /\ has_prerelease a = has_prerelease v.
Proof.
  unfold decompose_targets. destruct (has_prerelease v) eqn:Ep; simpl.
  - destruct (has_build v) eqn:Eb; simpl; [|done].
    destruct (parent v) as [p|] eqn:E; [|done]. intros [<-|[]]. split.
    + apply below_ancestors. rewrite ancestors_unfold, E. by left.
    + revert E Eb Ep. version_cases v; version_unfold; unfold parent; simpl; intros; simplify_eq; done.
  - intros Ha%below_ancestors. split; [done|]. destruct (has_prerelease a) eqn:E; [|done].
    by rewrite (below_prerelease a v Ha E) in Ep.
Qed.

Lemma decompose_targets_stable v a : has_prerelease v = false ->
  (In a (ct_targets (decompose_targets v)) <-> below a v = true).
Proof. intros Ep. unfold decompose_targets. rewrite Ep. simpl. apply below_ancestors. Qed.

Lemma take_while_sorted {A : Type} (R : A -> A -> Prop) (p : A -> bool) (l : list A) :
  StronglySorted R l -> (forall x y, In x l -> In y l -> R x y -> p y = true -> p x = true) ->
  take_while p l = List.filter p l.
Proof.
  intros Hl Hp. induction Hl as [|x l Hl IH Hx]; simpl; [done|].
  destruct (p x) eqn:E; [rewrite IH; [done|]; intros; eapply Hp; eauto using in_cons|].
  symmetry. destruct (List.filter p l) as [|y l'] eqn:Ey; [done|].
  assert (In y (List.filter p l)) as [Hy1 Hy2]%filter_In by (rewrite Ey; by left).
  rewrite List.Forall_forall in Hx. by rewrite (Hp x y (or_introl eq_refl) (or_intror Hy1) (Hx y Hy1) Hy2) in E.
Qed.

(** The last link of a version's chain: the bare major. *)
Definition chain_top (v : Version) : Version := List.last (ancestors v) v.

Lemma chain_top_ge v : v = chain_top v \/ v <o chain_top v.
Proof.
  unfold chain_top. destruct (ancestors v) as [|q l] eqn:Ea; [by left|]. right.
  apply ancestors_lt. rewrite Ea. by apply last_In.
Qed.

(** On a chain of parents every range is non-empty, so no range scan panics. *)
Lemma decompose_levels_total v others :
  exists levels, decompose_levels v (ancestors v) others = Some (levels, chain_top v) /\
                 map cl_target levels = ancestors v.
Proof.
  induction v as [v IH] using parent_ind. unfold chain_top. rewrite ancestors_unfold.
  destruct (parent v) as [p|] eqn:E; simpl; [|by exists []].
  pose proof (parent_lt v p E) as Hlt.
  destruct (os_range_excl_Some v p others Hlt) as [between Hb]. rewrite Hb. simpl.
  destruct (IH p eq_refl) as (levels & -> & Hm). simpl. eexists (_ :: levels). split.
  - unfold chain_top. rewrite (ancestors_unfold p). destruct (parent p) as [q|]; simpl; [|done]. do 3 f_equal.
    destruct (ancestors q) as [|a l]; [done|]. clear. revert a. induction l as [|b l IH]; intros a; [done|].
    change (List.last (a :: b :: l) p) with (List.last (b :: l) p).
    change (List.last (a :: b :: l) v) with (List.last (b :: l) v). apply IH.
  - simpl. by rewrite Hm.
Qed.

(** ** How far a cascade reaches

    [carries] says which blockers count: all of them for [cascade], those that
    ship the pushed platform for [resolve_cascade_tags]. *)

Fixpoint reach (carries : Version -> bool) (levels : list CascadeLevel) : list Version * bool :=
  match levels with
  | [] => ([], true)
  | level :: rest =>
      if existsb carries (cl_blockers level) then ([], false)
      else let '(targets, complete) := reach carries rest in (cl_target level :: targets, complete)
  end.

(** [x] stands between [v] and something above it: a stable version above [v]
    that is not one of [v]'s own ancestors. *)
Definition in_the_way (carries : Version -> bool) (v x : Version) : Prop :=
  carries x = true /\ has_prerelease x = false /\ v <o x /\ below x v = false.

Lemma existsb_filter_false {A : Type} (f g : A -> bool) l :
  existsb f (List.filter g l) = false <-> forall x, In x l -> g x = true -> f x = false.
Proof.
  rewrite <- not_true_iff_false, existsb_exists. setoid_rewrite filter_In. split.
  - intros H x Hx Hg. destruct (f x) eqn:E; [|done]. destruct H. eauto.
  - intros H (x & [Hx Hg] & Hf). by rewrite (H x Hx Hg) in Hf.
Qed.

Lemma below_parent v p a : parent v = Some p -> (below a v = true <-> a = p \/ below a p = true).
Proof.
  intros E. rewrite <- !below_ancestors, (ancestors_unfold v), E. simpl. naive_solver.
Qed.

Lemma parent_below v p : parent v = Some p -> below p v = true.
Proof. intros E. apply (below_parent v p p E). by left. Qed.

Section Reach.
Context (carries : Version -> bool) (others : list Version).

(** One link: is anything that counts strictly between [v] and its parent? *)
Lemma level_blocked v p between :
  parent v = Some p -> os_range_excl v p others = Some between ->
  existsb carries (List.filter (fun x => negb (has_prerelease x)) between) = false <->
  (forall x, In x others -> in_the_way carries v x -> ~ x <o p).
Proof.
  intros Hpar Hb. rewrite existsb_filter_false. split.
  - intros H x Hx (Hc & Hp & Hv & _) Hxp. specialize (H x). rewrite Hp in H.
    rewrite H in Hc; [done| |done]. by apply (os_range_excl_In _ _ _ _ x Hb).
  - intros H x Hx Hp. apply (os_range_excl_In _ _ _ _ x Hb) in Hx as (Hx & Hv & Hxp).
    destruct (carries x) eqn:Hc; [|done]. exfalso. apply (H x Hx); [|done].
    split_and!; [done|by apply negb_true_iff|done|by eapply parent_gap].
Qed.

Lemma level_blocker v p between :
  parent v = Some p -> os_range_excl v p others = Some between ->
  existsb carries (List.filter (fun x => negb (has_prerelease x)) between) = true ->
  exists x, In x others /\ in_the_way carries v x /\ x <o p.
Proof.
  intros Hpar Hb (x & [Hx Hp]%filter_In & Hc)%existsb_exists.
  apply (os_range_excl_In _ _ _ _ x Hb) in Hx as (Hx & Hv & Hxp).
  exists x. split_and!; [done| |done]. split_and!; [done|by apply negb_true_iff|done|by eapply parent_gap].
Qed.

(** What is in the way of the parent is in the way of the child. *)
Lemma in_the_way_parent v p x : parent v = Some p -> p <o x ->
  (in_the_way carries p x <-> in_the_way carries v x).
Proof.
  intros E Hx. unfold in_the_way. pose proof (parent_lt v p E) as Hvp.
  assert (v <o x) by (by eapply ord_cmp_trans).
  assert (below x p = below x v) as ->; [|tauto].
  apply eq_true_iff_eq. rewrite (below_parent v p x E). split; [by right|].
  intros [->|?]; [by apply ord_irrefl in Hx | done].
Qed.

(** The levels of a chain reach exactly the ancestors with nothing in the way
    below them. *)
Lemma reach_spec v : forall levels top,
  decompose_levels v (ancestors v) others = Some (levels, top) ->
  (forall a, In a (reach carries levels).1 <->
     below a v = true /\ forall x, In x others -> in_the_way carries v x -> ~ x <o a) /\
  ((reach carries levels).2 = true <-> forall x, In x others -> in_the_way carries v x -> ~ x <o top).
Proof.
  induction v as [v IH] using parent_ind. intros levels top. rewrite ancestors_unfold.
  destruct (parent v) as [p|] eqn:E; simpl.
  2:{ intros [= <- <-]. simpl. split.
      - intros a. split; [done|]. intros [Ha _]. apply below_ancestors in Ha.
        by rewrite ancestors_unfold, E in Ha.
      - split; [|done]. intros _ x _ (_ & _ & Hx & _). by apply ord_asym. }
  pose proof (parent_lt v p E) as Hvp.
  destruct (os_range_excl v p others) as [between|] eqn:Hb; simpl; [|done].
  destruct (decompose_levels p (ancestors p) others) as [[levels' top']|] eqn:Hl; simpl; [|done].
  intros [= <- <-]. destruct (IH p eq_refl _ _ Hl) as [IH1 IH2]. simpl.
  pose proof (level_blocked v p between E Hb) as Hblk.
  pose proof (decompose_levels_total p others) as (l0 & Hl0 & _). rewrite Hl in Hl0. injection Hl0 as <- ->.
  pose proof (chain_top_ge p) as Htop.
  destruct (existsb _ _) eqn:Ex; simpl.
  - (* blocked at the parent *)
    destruct (level_blocker v p between E Hb Ex) as (x & Hx & Hw & Hxp).
    split.
    + intros a. split; [done|]. intros [Ha H]. apply (H x Hx Hw). apply (below_parent v p a E) in Ha as [->|Ha]; [done|].
      eapply ord_cmp_trans; [exact Hxp|by apply below_lt].
    + split; [done|]. intros H. exfalso. apply (H x Hx Hw).
      destruct Htop as [<-|Ht]; [done|]. by eapply ord_cmp_trans.
  - pose proof (proj1 Hblk eq_refl) as Hfree.
    assert (forall x b, In x others -> in_the_way carries v x -> x <o b -> p <o x) as Habove.
    { intros x b Hx Hw _. destruct (ord_total x p) as [Hlt|[->|Hgt]]; [|exfalso|done].
      - by destruct (Hfree x Hx Hw).
      - destruct Hw as (_ & _ & _ & Hw). by rewrite (parent_below v p E) in Hw. }
    destruct (reach carries levels') as [ts complete]; simpl in *. split.
    + intros a. split.
      * intros [<-|Ha]; [split; [by apply parent_below|done]|]. apply IH1 in Ha as [Ha H]. split.
        { apply (below_parent v p a E). by right. }
        intros x Hx Hw Hxa. pose proof (Habove x a Hx Hw Hxa) as Hpx.
        apply (H x Hx); [|done]. by apply (in_the_way_parent v p x E Hpx).
      * intros [Ha H]. apply (below_parent v p a E) in Ha as [->|Ha]; [by left|]. right. apply IH1. split; [done|].
        intros x Hx Hw. apply H; [done|]. apply (in_the_way_parent v p x E); [by destruct Hw as (_ & _ & ? & _)|done].
    + rewrite IH2. split.
      * intros H x Hx Hw Hxt. pose proof (Habove x _ Hx Hw Hxt) as Hpx.
        apply (H x Hx); [|done]. by apply (in_the_way_parent v p x E Hpx).
      * intros H x Hx Hw. apply H; [done|]. apply (in_the_way_parent v p x E); [by destruct Hw as (_ & _ & ? & _)|done].
Qed.
End Reach.

(** The targets a decomposition reaches and whether it reaches the track root. *)
Definition reach_all (carries : Version -> bool) (d : CascadeDecomposition) : list Version * bool :=
  let '(targets, complete) := reach carries (cd_levels d) in
  (targets, complete && cd_latest_eligible d && negb (existsb carries (cd_latest_blockers d))).

Lemma decompose_total v others : is_Some (decompose v others).
Proof.
  unfold decompose. destruct (decompose_targets v) as [targets eligible] eqn:Et.
  destruct (has_prerelease v) eqn:Ep; [eauto|].
  unfold decompose_targets in Et. rewrite Ep in Et. simpl in Et. simplify_eq.
  destruct (decompose_levels_total v others) as (levels & -> & _). simpl. eauto.
Qed.

Lemma below_top v a : below a v = true -> a = chain_top v \/ a <o chain_top v.
Proof.
  intros Ha%below_ancestors. unfold chain_top.
  assert (ancestors v <> []) as Hne by (intros E; by rewrite E in Ha).
  rewrite (app_removelast_last v Hne) in Ha. apply in_app_or in Ha as [Ha|[->|[]]]; [|by left]. right.
  pose proof (ancestors_wf v) as Hw. rewrite (app_removelast_last v Hne) in Hw.
  apply os_wf_app in Hw as (_ & _ & Hw). apply Hw; [done|by left].
Qed.

Lemma chain_top_below v : v = chain_top v \/ below (chain_top v) v = true.
Proof.
  unfold chain_top. destruct (ancestors v) as [|q l] eqn:E; [by left|]. right.
  apply below_ancestors. rewrite E. by apply last_In.
Qed.

Lemma version_lt_variant v w : v <o w ->
  option_cmp_last String.compare (v_variant v) (v_variant w) <> Gt.
Proof.
  change (version_cmp v w = Lt -> option_cmp_last String.compare (v_variant v) (v_variant w) <> Gt).
  rewrite version_cmp_peel. intros H E. by rewrite E in H.
Qed.

(** The versions above [top] with its variant come first among those above it. *)
Lemma variant_prefix top x y : top <o x -> x <o y -> v_variant y = v_variant top -> v_variant x = v_variant top.
Proof.
  intros H1%version_lt_variant H2%version_lt_variant E. rewrite E in H2.
  by apply (lawful_sandwich _ (lawful_option_last _ lawful_string)).
Qed.

Lemma latest_blockers_spec top variant others x : os_wf others -> v_variant top = variant ->
  In x (List.filter (fun v => negb (has_prerelease v))
         (take_while (fun v => bool_decide (v_variant v = variant)) (os_range_above top others))) <->
  In x others /\ top <o x /\ v_variant x = variant /\ has_prerelease x = false.
Proof.
  intros Hw <-. rewrite (take_while_sorted (fun x y => x <o y)).
  - rewrite !filter_In, os_range_above_In, negb_true_iff, bool_decide_eq_true. tauto.
  - by apply os_filter_wf.
  - intros y z [_ Hy]%os_range_above_In _ Hyz. rewrite !bool_decide_eq_true. by apply variant_prefix.
Qed.

(** A build of the same pre-release is what lies below that pre-release. *)
Lemma same_prerelease_below v p x : has_prerelease v = true -> has_build v = true -> parent v = Some p ->
  same_prerelease_build v x = below p x.
Proof.
  unfold same_prerelease_build, below, parent. version_cases v; version_unfold; simpl; try done.
  intros _ _ [= <-]. simpl. apply eq_true_iff_eq. rewrite !andb_true_iff, !bool_decide_eq_true.
  split; intros; destruct_and?; split_and?; done.
Qed.

(** The prerelease branch's blockers: the later builds of the same pre-release. *)
Lemma prerelease_blockers_spec v p others x : os_wf others ->
  has_prerelease v = true -> has_build v = true -> parent v = Some p ->
  In x (take_while (same_prerelease_build v) (os_range_above v others)) <->
  In x others /\ v <o x /\ below p x = true.
Proof.
  intros Hw Hpre Hb Hp. rewrite (take_while_sorted (fun x y => x <o y)).
  - rewrite filter_In, os_range_above_In, (same_prerelease_below v p x Hpre Hb Hp). tauto.
  - by apply os_filter_wf.
  - intros y z [_ Hy]%os_range_above_In _ Hyz. rewrite !(same_prerelease_below v p _ Hpre Hb Hp). intros Hz.
    apply (below_convex p v y); [by apply parent_below|done|].
    eapply ord_cmp_trans; [exact Hyz|by apply below_lt].
Qed.

(** ** The decomposition as a whole *)

Lemma reach_all_stable carries v others d :
  os_wf others -> has_prerelease v = false -> decompose v others = Some d ->
  (forall a, In a (reach_all carries d).1 <->
     below a v = true /\ forall x, In x others -> in_the_way carries v x -> ~ x <o a) /\
  ((reach_all carries d).2 = true <->
     forall x, In x others -> in_the_way carries v x -> v_variant x <> v_variant v).
Proof.
  intros Hw Hp. unfold decompose, decompose_targets. rewrite Hp. simpl.
  destruct (decompose_levels_total v others) as (levels & Hl & _). rewrite Hl. simpl. intros [= <-].
  unfold reach_all. simpl. destruct (reach_spec carries others v levels _ Hl) as [H1 H2].
  destruct (reach carries levels) as [ts complete]; simpl in *. split; [done|].
  rewrite andb_true_r, andb_true_iff, negb_true_iff, H2.
  assert (v_variant (chain_top v) = v_variant v) as Ev.
  { destruct (chain_top_below v) as [<-|Hb]; [done|by apply below_variant]. }
  rewrite <- not_true_iff_false, existsb_exists.
  setoid_rewrite (latest_blockers_spec (chain_top v) (v_variant v) others _ Hw Ev). split.
  - intros [Hlow Hhigh] x Hx Hway E. destruct (ord_total x (chain_top v)) as [Hlt|[->|Hgt]].
    + by apply (Hlow x Hx Hway).
    + destruct Hway as (_ & _ & Hvx & Hbx). destruct (chain_top_below v) as [Et|Hb]; [|by rewrite Hb in Hbx].
      rewrite <- Et in Hvx. by apply ord_irrefl in Hvx.
    + apply Hhigh. exists x. destruct Hway as (? & ? & _). done.
  - intros H. split.
    + intros x Hx Hway Hlt. apply (H x Hx Hway). destruct Hway as (_ & _ & Hvx & _).
      destruct (chain_top_below v) as [Et|Hb].
      { exfalso. rewrite <- Et in Hlt. by apply (ord_asym v x). }
      rewrite <- Ev. symmetry. apply below_variant. by apply (below_convex _ v).
    + intros (x & (Hx & Hgt & E & Hpx) & Hc). apply (H x Hx); [|done]. split_and!; [done|done| |].
      * destruct (chain_top_ge v) as [Et|Ht]; [by rewrite Et|by eapply ord_cmp_trans].
      * destruct (below x v) eqn:Hb; [|done]. exfalso. apply below_top in Hb as [->|Hlt].
        { by apply ord_irrefl in Hgt. }
        by apply (ord_asym x (chain_top v)).
Qed.

Lemma reach_all_prerelease carries v others d :
  os_wf others -> has_prerelease v = true -> decompose v others = Some d ->
  (forall a, In a (reach_all carries d).1 <->
     has_build v = true /\ parent v = Some a /\
     forall x, In x others -> carries x = true -> v <o x -> below a x = false) /\
  (reach_all carries d).2 = false.
Proof.
  intros Hw Hp. unfold decompose, decompose_targets. rewrite Hp. simpl.
  destruct (has_build v) eqn:Hb; simpl; intros [= <-]; unfold reach_all; simpl; [|naive_solver].
  destruct (parent_of_build v Hb) as [p Epar]. rewrite Epar. simpl.
  destruct (existsb carries (take_while (same_prerelease_build v) (os_range_above v others))) eqn:Ex; simpl.
  - split; [|done]. intros a. split; [done|]. intros (_ & [= <-] & H).
    apply existsb_exists in Ex as (x & Hx & Hc). apply (prerelease_blockers_spec v p others x Hw Hp Hb Epar) in Hx as (Hx & Hvx & Hbx).
    by rewrite (H x Hx Hc Hvx) in Hbx.
  - split; [|done]. intros a. split; [|naive_solver]. intros [<-|[]]. split_and!; [done|done|].
    intros x Hx Hc Hvx. destruct (below p x) eqn:Hbx; [|done].
    rewrite <- Ex. symmetry. apply existsb_exists. exists x. split; [|done]. by apply (prerelease_blockers_spec v p others x Hw Hp Hb Epar).
Qed.

(** [cascade] stops at the first level with any blocker: [reach] with every
    blocker counted. *)
Lemma cascade_levels_reach levels : forall versions,
  cascade_levels versions levels =
  (versions ++ (reach (fun _ => true) levels).1, (reach (fun _ => true) levels).2).
Proof.
  induction levels as [|[target blockers] levels IH]; intros versions; simpl.
  - by rewrite app_nil_r.
  - destruct blockers as [|b bs]; simpl; [|by rewrite app_nil_r].
    rewrite IH. destruct (reach _ levels) as [ts c]; simpl. by rewrite <- app_assoc.
Qed.

Lemma reach_prefix carries levels : exists rest, map cl_target levels = (reach carries levels).1 ++ rest.
Proof.
  induction levels as [|level levels [rest IH]]; simpl; [by exists []|].
  destruct (existsb _ _); simpl; [by eexists|]. exists rest.
  destruct (reach carries levels) as [ts c]; simpl in *. by rewrite IH.
Qed.

Lemma decompose_level_targets v others d : decompose v others = Some d ->
  map cl_target (cd_levels d) = ct_targets (decompose_targets v).
Proof.
  unfold decompose. destruct (decompose_targets v) as [targets eligible] eqn:Et.
  destruct (has_prerelease v) eqn:Ep.
  - intros [= <-]. simpl. rewrite map_map. simpl. apply map_id.
  - unfold decompose_targets in Et. rewrite Ep in Et. simpl in Et. simplify_eq.
    destruct (decompose_levels_total v others) as (levels & -> & Hm). simpl. intros [= <-]. done.
Qed.

(** Every blocker is one of the other versions. *)
Lemma decompose_levels_blockers others targets : forall current levels top,
  decompose_levels current targets others = Some (levels, top) ->
  forall l x, In l levels -> In x (cl_blockers l) -> In x others.
Proof.
  induction targets as [|t targets IH]; intros current levels top; simpl; [by intros [= <- <-]|].
  destruct (os_range_excl current t others) as [between|] eqn:Eb; simpl; [|done].
  destruct (decompose_levels t targets others) as [[ls top']|] eqn:El; simpl; [|done].
  intros [= <- <-] l x [<-|Hl] Hx; [|by eapply IH].
  simpl in Hx. apply filter_In in Hx as [Hx _]. by apply (os_range_excl_In _ _ _ _ x Eb) in Hx as [? _].
Qed.

Lemma take_while_In {A : Type} (p : A -> bool) l x : In x (take_while p l) -> In x l.
Proof. induction l as [|y l IH]; simpl; [done|]. destruct (p y); [|done]. intros [->|?]; auto. Qed.

Lemma decompose_blockers v others d : decompose v others = Some d ->
  (forall l x, In l (cd_levels d) -> In x (cl_blockers l) -> In x others) /\
  (forall x, In x (cd_latest_blockers d) -> In x others).
Proof.
  unfold decompose. destruct (decompose_targets v) as [targets eligible]. destruct (has_prerelease v).
  - intros [= <-]. simpl. split; [|done]. intros l x (t & <- & _)%in_map_iff Hx. simpl in Hx.
    apply take_while_In, os_range_above_In in Hx as [? _]. done.
  - destruct (decompose_levels v targets others) as [[levels top]|] eqn:El; simpl; [|done]. intros [= <-]. simpl. split.
    + by eapply decompose_levels_blockers.
    + intros x [Hx _]%filter_In. apply take_while_In, os_range_above_In in Hx as [? _]. done.
Qed.

(** ** The blocking rule *)

(** [a] is a rolling parent [v] may move: an ancestor, and for a pre-release one
    that still names the pre-release. *)
Definition cascades_into (v a : Version) : Prop :=
  In a (ancestors v) /\ (has_prerelease v = true -> has_prerelease a = true).

(** [x] keeps [v] from moving [a]: it is above [v] and, for a pre-release build,
    another build of the pre-release [a]; for a stable version, a stable version
    below [a] that is no rolling parent of [v]. *)
Definition blocks (v a x : Version) : Prop :=
  version_cmp v x = Lt /\
  if has_prerelease v then In a (ancestors x)
  else has_prerelease x = false /\ version_cmp x a = Lt /\ ~ In x (ancestors v).

Lemma cascades_into_prerelease v a : has_prerelease v = true ->
  cascades_into v a <-> has_build v = true /\ parent v = Some a.
Proof.
  unfold cascades_into, ancestors, parent. intros Hp. version_cases v; version_unfold; simpl in *; try done.
  all: split; [intros [Ha Hpa]; specialize (Hpa eq_refl); repeat (destruct Ha as [<-|Ha]; [done|]); done|].
  - intros [_ [= <-]]. split; [by left|done].
  - by intros [? _].
Qed.

Lemma chain_prerelease v others d a : os_wf others -> has_prerelease v = true -> decompose v others = Some d ->
  In a (reach (fun _ => true) (cd_levels d)).1 <->
  cascades_into v a /\ forall x, In x others -> ~ blocks v a x.
Proof.
  intros Hw Hp Hd. destruct (reach_all_prerelease (fun _ => true) v others d Hw Hp Hd) as [Hts _].
  unfold reach_all in Hts. destruct (reach _ _) as [ts c]; simpl in *. rewrite Hts, (cascades_into_prerelease v a Hp).
  unfold blocks. rewrite Hp. split.
  - intros (Hb & Ha & H). split; [done|]. intros x Hx [Hlt Hin%below_ancestors]. by rewrite (H x Hx eq_refl Hlt) in Hin.
  - intros [[Hb Ha] H]. split_and!; [done|done|]. intros x Hx _ Hlt. destruct (below a x) eqn:E; [|done].
    destruct (H x Hx). split; [done|by apply below_ancestors].
Qed.

Lemma chain_stable v others d a : os_wf others -> has_prerelease v = false -> decompose v others = Some d ->
  In a (reach (fun _ => true) (cd_levels d)).1 <->
  cascades_into v a /\ forall x, In x others -> ~ blocks v a x.
Proof.
  intros Hw Hp Hd. destruct (reach_all_stable (fun _ => true) v others d Hw Hp Hd) as [Hts _].
  unfold reach_all in Hts. destruct (reach _ _) as [ts c]; simpl in *. rewrite Hts. unfold cascades_into, blocks, in_the_way.
  rewrite Hp, below_ancestors. setoid_rewrite below_ancestors. setoid_rewrite not_true_iff_false. naive_solver.
Qed.

(** ** Properties *)

(** C5: [cascade] never panics in [BTreeSet::range], and its chain is exact.
    The chain is the version followed by a prefix of its targets; a rolling parent
    is in it iff the version cascades into it and no other version blocks it: for a
    pre-release build a later build of the same pre-release, for a stable version a
    stable one between it and that parent that is no rolling parent itself.  The
    version becomes [latest] iff it is stable and no stable version of its variant
    is above it other than its own rolling parents; a pre-release never does. *)
Theorem cascade_exact (v : Version) (others : list Version) :
  exists versions latest, cascade v others = Some (versions, latest) /\
    (exists rest, v :: ct_targets (decompose_targets v) = versions ++ rest) /\
    (forall a, In a versions <->
       a = v \/ cascades_into v a /\ forall x, In x others -> ~ blocks v a x) /\
    (latest = true <->
       has_prerelease v = false /\
       forall x, In x others -> has_prerelease x = false -> v_variant x = v_variant v ->
         version_cmp v x = Lt -> In x (ancestors v)).
Proof.
  unfold cascade. destruct (decompose_total v (os_of_list others)) as [d Hd]. rewrite Hd. simpl.
  rewrite cascade_levels_reach. pose proof (reach_prefix (fun _ => true) (cd_levels d)) as [rest Hrest].
  rewrite (decompose_level_targets v _ d Hd) in Hrest.
  set (latest := (reach_all (fun _ => true) d).2).
  exists (v :: (reach (fun _ => true) (cd_levels d)).1), latest.
  assert (forall x, In x (os_of_list others) <-> In x others) as Hin by (intros; apply os_of_list_In).
  split_and!.
  - unfold latest, reach_all. destruct (reach _ _) as [ts []]; simpl; [|done].
    by destruct (cd_latest_blockers d).
  - exists rest. simpl. by rewrite Hrest.
  - intros a. setoid_rewrite <- Hin. cbn [In]. destruct (has_prerelease v) eqn:Hp.
    + rewrite (chain_prerelease v _ d a (os_of_list_wf others) Hp Hd). naive_solver.
    + rewrite (chain_stable v _ d a (os_of_list_wf others) Hp Hd). naive_solver.
  - destruct (has_prerelease v) eqn:Hp.
    + destruct (reach_all_prerelease (fun _ => true) v _ d (os_of_list_wf others) Hp Hd) as [_ Hl].
      unfold latest. rewrite Hl. naive_solver.
    + destruct (reach_all_stable (fun _ => true) v _ d (os_of_list_wf others) Hp Hd) as [_ Hl].
      unfold latest. rewrite Hl. setoid_rewrite Hin. unfold in_the_way. setoid_rewrite below_ancestors. split.
      * intros H. split; [done|]. intros x Hx Hpx E Hvx. destruct (below x v) eqn:Eb; [done|]. exfalso. by apply (H x).
      * intros [_ H] x Hx (_ & Hpx & Hvx & Hni) E. by rewrite (H x Hx Hpx E Hvx) in Hni.
Qed.

Lemma cascade_exact_witness :
  let v := new_prerelease_with_build 1 2 3 "rc1" "b1" in
  cascade v [new_prerelease_with_build 1 2 3 "rc1" "b2"; new_patch 1 2 4] = Some ([v], false) /\
  exists versions latest, cascade v [new_patch 1 2 4] = Some (versions, latest) /\ In (new_prerelease 1 2 3 "rc1") versions.
Proof.
  intros v. split; [vm_compute; reflexivity|].
  destruct (cascade_exact v [new_patch 1 2 4]) as (versions & latest & Hc & _ & Hchain & _).
  exists versions, latest. split; [exact Hc|]. apply Hchain. right. split.
  - split; [vm_compute; by left|]. intros _. vm_compute. reflexivity.
  - intros x [<-|[]] [_ Hb]. vm_compute in Hb. repeat (destruct Hb as [Hb|Hb]; [discriminate|]). exact Hb.
Defined.
