(* ===== verification/PackageRef.v ===== *)
(** * Package identifiers

    [crates/ocx_oci/src/package_ref.rs] ([PackageRef], the name a user, lock or
    metadata spells) and [crates/ocx_oci/src/oci_identifier.rs] ([OciIdentifier],
    the physical location a request dials, a newtype over it). *)

From stdpp Require Import base decidable list option numbers strings.
From Stdlib Require Import Lia Ascii.
From S2P Require Import Prelude Text Digest.
Local Open Scope ocx_scope.
Local Open Scope string_scope.

(** ** Data *)

(** [enum IdentifierErrorKind] and [struct IdentifierError]. *)
Inductive IdentifierErrorKind : Type :=
| Empty | UppercaseRepository | RepositoryTooLong | DigestInvalidFormat | InvalidFormat
| MissingRegistry | DirectoryTraversal | DockerHubDefault.
Record IdentifierError : Type := mkIdentifierError {
  ie_input : string;
  ie_kind : IdentifierErrorKind;
}.

(** [struct PackageRef]. *)
Record PackageRef : Type := mkPackageRef {
  pr_registry : string;
  pr_repository : string;
  pr_tag : option string;
  pr_digest : option Digest;
}.

#[export] Instance Algorithm_eq_dec : EqDecision Algorithm.
Proof. solve_decision. Defined.
#[export] Instance Digest_eq_dec : EqDecision Digest.
Proof. solve_decision. Defined.
#[export] Instance PackageRef_eq_dec : EqDecision PackageRef.
Proof. solve_decision. Defined.

Definition OCX_SH_REGISTRY : string := "ocx.sh".
Definition DEFAULT_REGISTRY : string := OCX_SH_REGISTRY.
Definition MAX_REPOSITORY_LENGTH : nat := 255.

(** ** Construction and access *)

Definition new_registry (repository registry : string) : PackageRef := mkPackageRef registry repository None None.

(** [normalize_tag]: OCI tags forbid [+]. *)
Definition normalize_tag (tag : string) : string := replace_char "+" "_" tag.

Definition clone_with_tag (r : PackageRef) (tag : string) : PackageRef :=
  mkPackageRef (pr_registry r) (pr_repository r) (Some (normalize_tag tag)) None.
Definition clone_with_digest (r : PackageRef) (digest : Digest) : PackageRef :=
  mkPackageRef (pr_registry r) (pr_repository r) (pr_tag r) (Some digest).
Definition without_digest (r : PackageRef) : PackageRef :=
  mkPackageRef (pr_registry r) (pr_repository r) (pr_tag r) None.
Definition without_tag (r : PackageRef) : PackageRef :=
  mkPackageRef (pr_registry r) (pr_repository r) None (pr_digest r).
Definition without_specifiers (r : PackageRef) : PackageRef :=
  mkPackageRef (pr_registry r) (pr_repository r) None None.
Definition tag_or_latest (r : PackageRef) : string := default "latest" (pr_tag r).

(** [PackageRef::is_located_at], on the location's own reference. *)
Definition is_located_at (r location : PackageRef) : bool :=
  String.eqb (pr_registry r) (pr_registry location) && String.eqb (pr_repository r) (pr_repository location).

(** [PackageRef::first_path_segment] and [PackageRef::name]. *)
Definition first_path_segment (r : PackageRef) : string :=
  default (pr_repository r) (head (split_char "/" (pr_repository r))).
Definition ref_name (r : PackageRef) : string :=
  default (pr_repository r) (last (split_char "/" (pr_repository r))).

(** [Display for PackageRef]. *)
Definition ref_display (r : PackageRef) : string :=
  pr_registry r +:+ "/" +:+ pr_repository r +:+
  match pr_tag r with Some tag => ":" +:+ tag | None => "" end +:+
  match pr_digest r with Some digest => "@" +:+ digest_display digest | None => "" end.

(** ** The parser *)

(** The text before the first [c], the whole of it when there is none. *)
Definition before (c : ascii) (s : string) : string :=
  match split_once c s with Some (a, _) => a | None => s end.

Definition dot_segment (s : string) : bool := String.eqb s "." || String.eqb s "..".

(** [validate_segments]: no [.] or [..] path segment, an optional port or tag aside. *)
Definition validate_segments (input : string) : result IdentifierError unit :=
  if existsb (fun segment => dot_segment (before ":" segment)) (split_char "/" (before "@" input))
  then Err (mkIdentifierError input DirectoryTraversal)
  else Ok tt.

(** [segment_is_host]. *)
Definition segment_is_host (segment : string) : bool :=
  str_mem "." segment || str_mem ":" segment || String.eqb segment "localhost".

(** [has_explicit_registry]. *)
Definition has_explicit_registry (input : string) : bool :=
  match split_once "/" (before "@" input) with
  | None => false
  | Some (first, _) => segment_is_host first
  end.

(** [is_repository_segment_byte]. *)
Definition is_repository_segment_byte (c : ascii) : bool :=
  is_lower c || is_digit c || Ascii.eqb c "." || Ascii.eqb c "_" || Ascii.eqb c "-".

(** [repository_error_kind]: the one statement of the repository grammar. *)
Definition repository_error_kind (repository : string) : option IdentifierErrorKind :=
  if negb (str_forall (fun c => negb (is_upper c)) repository) then Some UppercaseRepository
  else if (MAX_REPOSITORY_LENGTH <? String.length repository)%nat then Some RepositoryTooLong
  else if existsb dot_segment (split_char "/" repository) then Some DirectoryTraversal
  else if existsb (fun segment => String.eqb segment "" || negb (str_forall is_repository_segment_byte segment))
                  (split_char "/" repository) then Some InvalidFormat
  else None.

(** [PackageRef::validate_repository]. *)
Definition validate_repository (repository : string) : result IdentifierError unit :=
  match repository_error_kind repository with
  | Some kind => Err (mkIdentifierError repository kind)
  | None => Ok tt
  end.

(** [parse_digest]. *)
Definition parse_digest (input digest_str : string) : result IdentifierError Digest :=
  match digest_try_from digest_str with
  | Ok d => Ok d
  | Err _ => Err (mkIdentifierError input DigestInvalidFormat)
  end.

(** [split_tag]: the first [:] of the last path segment. *)
Definition split_tag (name : string) : string * option string :=
  match rsplit_once "/" name with
  | Some (path, last_segment) =>
      match split_once ":" last_segment with
      | Some (a, tag) => (path +:+ "/" +:+ a, Some (normalize_tag tag))
      | None => (name, None)
      end
  | None =>
      match split_once ":" name with
      | Some (a, tag) => (a, Some (normalize_tag tag))
      | None => (name, None)
      end
  end.

(** [prepend_domain]. *)
Definition prepend_domain (name domain : string) : string :=
  match split_once "/" name with
  | None => domain +:+ "/" +:+ name
  | Some (first, _) =>
      if negb (str_mem "." first || str_mem ":" first) && negb (String.eqb first "localhost")
      then domain +:+ "/" +:+ name
      else name
  end.

(** The first step of [parse_internal]: the digest after the first [@]. *)
Definition split_digest (input : string) : result IdentifierError (string * option Digest) :=
  match split_once "@" input with
  | Some (name, digest_str) => let? d := parse_digest input digest_str in Ok (name, Some d)
  | None => Ok (input, None)
  end.

(** [parse_internal]; [FromStr] is it at [DEFAULT_REGISTRY]. *)
Definition parse_internal (input default_registry : string) : result IdentifierError PackageRef :=
  if String.eqb input "" then Err (mkIdentifierError "" Empty)
  else
    let? name_digest := split_digest input in
    let '(name_part, digest) := name_digest in
    let '(name_without_tag, tag) := split_tag name_part in
    match split_once "/" (prepend_domain name_without_tag default_registry) with
    | None => Err (mkIdentifierError input InvalidFormat)
    | Some (registry, repository) =>
        match repository_error_kind repository with
        | Some kind => Err (mkIdentifierError input kind)
        | None => Ok (mkPackageRef registry repository tag digest)
        end
    end.
Definition ref_from_str (value : string) : result IdentifierError PackageRef := parse_internal value DEFAULT_REGISTRY.

(** [PackageRef::parse]: the registry must be spelled. *)
Definition ref_parse (input : string) : result IdentifierError PackageRef :=
  let? _ := validate_segments input in
  if negb (has_explicit_registry input) then Err (mkIdentifierError input MissingRegistry)
  else parse_internal input DEFAULT_REGISTRY.

(** [PackageRef::parse_with_default_registry]. *)
Definition parse_with_default_registry (s default_registry : string) : result IdentifierError PackageRef :=
  let? _ := validate_segments s in parse_internal s default_registry.

(** ** Physical locations *)

(** [struct OciIdentifier(PackageRef)]. *)
Definition OciIdentifier : Type := PackageRef.

(** [OciIdentifier::parse_repository_pointer]. *)
Definition parse_repository_pointer (value : string) : result IdentifierError OciIdentifier :=
  let malformed := Err (mkIdentifierError value InvalidFormat) in
  match strip_prefix "oci://" value with
  | None => malformed
  | Some rest =>
      match split_once "/" rest with
      | None => malformed
      | Some (host, path) =>
          if String.eqb host "" || String.eqb path "" then malformed
          else match parse_with_default_registry rest host with
               | Err _ => malformed
               | Ok parsed =>
                   if negb (String.eqb (pr_registry parsed) host) || negb (String.eqb (pr_repository parsed) path) ||
                      bool_decide (is_Some (pr_tag parsed)) || bool_decide (is_Some (pr_digest parsed))
                   then malformed
                   else Ok parsed
               end
      end
  end.

(** [OciIdentifier::at_version_of]. *)
Definition at_version_of (location : OciIdentifier) (logical : PackageRef) : OciIdentifier :=
  let location := without_specifiers location in
  let location := match pr_tag logical with Some tag => clone_with_tag location tag | None => location end in
  match pr_digest logical with Some digest => clone_with_digest location digest | None => location end.

Example parse_port : ref_parse "localhost:5000/cmake:3.28" =
  Ok (mkPackageRef "localhost:5000" "cmake" (Some "3.28") None).
Proof. reflexivity. Qed.
Example parse_default : parse_with_default_registry "cmake:1.0+build" "ocx.sh" =
  Ok (mkPackageRef "ocx.sh" "cmake" (Some "1.0_build") None).
Proof. reflexivity. Qed.
Example parse_traversal : ref_parse "ocx.sh/../cmake" = Err (mkIdentifierError "ocx.sh/../cmake" DirectoryTraversal).
Proof. reflexivity. Qed.

(** ** Well-formed references *)

(** What every parsed reference satisfies: an explicit host without separators,
    a legal repository path, a tag and a digest that cannot be re-read as
    something else. *)
Definition ref_wf (r : PackageRef) : bool :=
  segment_is_host (pr_registry r) && negb (str_mem "/" (pr_registry r)) && negb (str_mem "@" (pr_registry r)) &&
  negb (dot_segment (before ":" (pr_registry r))) &&
  bool_decide (repository_error_kind (pr_repository r) = None) &&
  match pr_tag r with
  | Some tag => negb (str_mem "/" tag) && negb (str_mem "@" tag) && negb (str_mem "+" tag)
  | None => true
  end &&
  match pr_digest r with Some digest => digest_wf digest | None => true end.

Lemma str_forall_split (p : ascii -> bool) c s :
  (forall piece, In piece (split_char c s) -> str_forall p piece = true) ->
  str_forall (fun d => p d || Ascii.eqb d c) s = true.
Proof.
  induction s as [|d s IH]; simpl; [done|]. pose proof (split_char_ne c s) as Hs.
  destruct (Ascii.eqb_spec d c) as [->|Hne]; intros H.
  - rewrite orb_true_r. simpl. apply IH. intros. apply H. by right.
  - destruct (split_char c s) as [|x xs]; [done|]. pose proof (H _ (or_introl eq_refl)) as Hx. simpl in Hx.
    apply andb_true_iff in Hx as [-> Hx]. simpl. apply IH. intros piece [<-|Hp]; [done|]. apply H. by right.
Qed.

(** A legal repository: bounded, and every segment a non-empty run of safe bytes
    other than [.] and [..]. *)
Lemma repository_ok repository : repository_error_kind repository = None <->
  (String.length repository <= MAX_REPOSITORY_LENGTH)%nat /\
  forall segment, In segment (split_char "/" repository) ->
    segment <> "" /\ segment <> "." /\ segment <> ".." /\ str_forall is_repository_segment_byte segment = true.
Proof.
  unfold repository_error_kind. split.
  - destruct (negb _); [done|]. destruct (Nat.ltb_spec MAX_REPOSITORY_LENGTH (String.length repository)); [done|].
    case_match eqn:E1; [done|]. case_match eqn:E2; [done|]. intros _.
    split; [done|]. intros segment Hs.
    pose proof (existsb_false_In _ _ _ E1 Hs) as Ed. pose proof (existsb_false_In _ _ _ E2 Hs) as Eb. simpl in Eb.
    unfold dot_segment in Ed. rewrite !orb_false_iff, !String.eqb_neq in *.
    rewrite negb_false_iff in Eb. tauto.
  - intros [Hlen H].
    assert (str_forall (fun d => is_repository_segment_byte d || Ascii.eqb d "/") repository = true) as Hall.
    { apply str_forall_split. intros. by apply H. }
    apply (str_forall_impl _ (fun c => negb (is_upper c))) in Hall;
      [|intros c; destruct c as [[] [] [] [] [] [] [] []]; vm_compute; auto].
    rewrite Hall. simpl.
    destruct (Nat.ltb_spec MAX_REPOSITORY_LENGTH (String.length repository)); [lia|].
    case_match eqn:E1.
    { apply existsb_exists in E1 as (x & Hx & Hd). destruct (H x Hx) as (_ & H1 & H2 & _).
      unfold dot_segment in Hd. by rewrite orb_true_iff, !String.eqb_eq in Hd; destruct Hd. }
    case_match eqn:E2; [|done].
    apply existsb_exists in E2 as (x & Hx & Hd). destruct (H x Hx) as (Hne & _ & _ & Hall2).
    rewrite orb_true_iff, String.eqb_eq, Hall2 in Hd. by destruct Hd.
Qed.

Lemma repository_no_char c repository : repository_error_kind repository = None ->
  is_repository_segment_byte c = false -> c <> "/"%char -> str_mem c repository = false.
Proof.
  intros [_ H]%repository_ok Hc Hs. eapply str_mem_forall.
  - apply (str_forall_split is_repository_segment_byte "/"). intros. by apply H.
  - simpl. rewrite Hc. by apply Ascii.eqb_neq.
Qed.

Lemma before_app c a b : str_mem c a = false -> before c (a +:+ String c b) = a.
Proof. intros H. unfold before. by rewrite split_once_app. Qed.

Lemma before_id c s : str_mem c s = false -> before c s = s.
Proof. intros H%split_once_None. unfold before. by rewrite H. Qed.

Lemma before_mem c d s : str_mem d s = false -> str_mem d (before c s) = false.
Proof.
  unfold before. destruct (split_once c s) as [[a b]|] eqn:E; [|done].
  apply split_once_Some in E as [-> _]. rewrite str_mem_app, orb_false_iff. tauto.
Qed.

(** The name part of a displayed reference, without its digest. *)
Definition name_text (r : PackageRef) : string :=
  pr_registry r +:+ "/" +:+ pr_repository r +:+ match pr_tag r with Some tag => ":" +:+ tag | None => "" end.

Lemma ref_display_name r : ref_display r =
  name_text r +:+ match pr_digest r with Some digest => "@" +:+ digest_display digest | None => "" end.
Proof. unfold ref_display, name_text. by rewrite !str_app_assoc. Qed.

Section Wf.
Context (r : PackageRef) (W : ref_wf r = true).

Lemma ref_wf_parts :
  segment_is_host (pr_registry r) = true /\ str_mem "/" (pr_registry r) = false /\
  str_mem "@" (pr_registry r) = false /\ dot_segment (before ":" (pr_registry r)) = false /\
  repository_error_kind (pr_repository r) = None /\
  (forall tag, pr_tag r = Some tag -> str_mem "/" tag = false /\ str_mem "@" tag = false /\ str_mem "+" tag = false) /\
  (forall d, pr_digest r = Some d -> digest_wf d = true).
Proof.
  unfold ref_wf in W. rewrite !andb_true_iff, !negb_true_iff, bool_decide_eq_true in W.
  destruct W as [[[[[[H1 H2] H3] H4] H5] H6] H7]. split_and!; try done.
  - intros tag E. rewrite E in H6. rewrite !andb_true_iff, !negb_true_iff in H6. tauto.
  - intros d E. by rewrite E in H7.
Qed.

Lemma name_text_no_at : str_mem "@" (name_text r) = false.
Proof.
  destruct ref_wf_parts as (_ & _ & H3 & _ & H5 & H6 & _). unfold name_text.
  rewrite !str_mem_app, H3, (repository_no_char "@" _ H5 eq_refl) by done. simpl.
  destruct (pr_tag r) as [tag|]; [|done]. simpl. by apply H6.
Qed.

Lemma split_tag_name : split_tag (name_text r) = (pr_registry r +:+ "/" +:+ pr_repository r, pr_tag r).
Proof.
  destruct ref_wf_parts as (_ & _ & _ & _ & H5 & H6 & _).
  pose proof (repository_no_char ":" _ H5 eq_refl ltac:(done)) as Hcolon.
  set (tail := match pr_tag r with Some tag => ":" +:+ tag | None => "" end).
  assert (str_mem "/" tail = false) as Htail.
  { unfold tail. destruct (pr_tag r) as [tag|]; [|done]. simpl. by apply H6. }
  assert (exists path segment, pr_registry r +:+ "/" +:+ pr_repository r = path +:+ "/" +:+ segment /\
            str_mem "/" segment = false /\ str_mem ":" segment = false) as (path & segment & E & Hs & Hc).
  { destruct (rsplit_once "/" (pr_repository r)) as [[p l]|] eqn:Er.
    - apply rsplit_once_Some in Er as [Er Hl]. exists (pr_registry r +:+ "/" +:+ p), l.
      rewrite Er, str_mem_app in Hcolon. simpl in Hcolon. rewrite orb_false_iff in Hcolon.
      rewrite Er, !str_app_assoc. tauto.
    - apply rsplit_once_None in Er. by exists (pr_registry r), (pr_repository r). }
  unfold name_text. fold tail.
  replace (pr_registry r +:+ "/" +:+ pr_repository r +:+ tail) with (path +:+ String "/" (segment +:+ tail)).
  2:{ change (String "/" (segment +:+ tail)) with ("/" +:+ segment +:+ tail).
      rewrite <- (str_app_assoc "/"), <- (str_app_assoc path), <- E. by rewrite !str_app_assoc. }
  unfold split_tag. rewrite rsplit_once_app by (rewrite str_mem_app; by rewrite Hs, Htail).
  rewrite E. unfold tail. destruct (pr_tag r) as [tag|] eqn:Et.
  - change (":" +:+ tag) with (String ":" tag). rewrite split_once_app by done.
    unfold normalize_tag. rewrite replace_char_id by (by apply H6). done.
  - rewrite str_app_nil_r. by rewrite (proj2 (split_once_None ":" segment) Hc).
Qed.

Lemma parse_internal_display d : parse_internal (ref_display r) d = Ok r.
Proof.
  destruct ref_wf_parts as (H1 & H2 & _ & _ & H5 & _ & H7). unfold parse_internal.
  assert (String.eqb (ref_display r) "" = false) as ->.
  { apply String.eqb_neq. intros E%(f_equal String.length). unfold ref_display in E.
    rewrite !str_length_app in E. simpl in E. lia. }
  assert (forall t, split_once "/" (prepend_domain (pr_registry r +:+ "/" +:+ t) d) = Some (pr_registry r, t)) as Hdom.
  { intros t. unfold prepend_domain. change ("/" +:+ t) with (String "/" t). rewrite split_once_app by done.
    replace (negb (str_mem "." (pr_registry r) || str_mem ":" (pr_registry r)) &&
             negb (String.eqb (pr_registry r) "localhost")) with false; [by rewrite split_once_app|].
    revert H1. unfold segment_is_host. destruct (str_mem "." _), (str_mem ":" _), (String.eqb _ _); done. }
  unfold split_digest. rewrite ref_display_name. destruct (pr_digest r) as [digest|] eqn:Ed.
  - change ("@" +:+ digest_display digest) with (String "@" (digest_display digest)).
    rewrite split_once_app by apply name_text_no_at. unfold parse_digest.
    rewrite (digest_parse_display digest (H7 digest eq_refl)). cbn [result_bind].
    rewrite split_tag_name, Hdom, H5. rewrite <- Ed. by destruct r.
  - rewrite str_app_nil_r, (proj2 (split_once_None "@" _) name_text_no_at). cbn [result_bind].
    rewrite split_tag_name, Hdom, H5. rewrite <- Ed. by destruct r.
Qed.

End Wf.

(** A default registry the code is configured with. *)
Definition host_wf (d : string) : bool :=
  segment_is_host d && negb (str_mem "/" d) && negb (str_mem "@" d) && negb (dot_segment (before ":" d)).

Lemma split_tag_first name n tag : split_tag name = (n, tag) ->
  (forall first rest, split_once "/" n = Some (first, rest) -> exists rest', split_once "/" name = Some (first, rest')) /\
  (forall t, tag = Some t -> str_mem "@" name = false ->
     str_mem "/" t = false /\ str_mem "@" t = false /\ str_mem "+" t = false).
Proof.
  assert (forall t, str_mem "/" t = false -> str_mem "@" t = false ->
    str_mem "/" (normalize_tag t) = false /\ str_mem "@" (normalize_tag t) = false /\ str_mem "+" (normalize_tag t) = false) as Hn.
  { intros t H1 H2. unfold normalize_tag.
    split_and!; [by apply replace_char_mem_other|by apply replace_char_mem_other|by apply replace_char_mem]. }
  unfold split_tag. destruct (rsplit_once "/" name) as [[path l]|] eqn:Er.
  - apply rsplit_once_Some in Er as [-> Hl]. destruct (split_once ":" l) as [[a t]|] eqn:Ec.
    + apply split_once_Some in Ec as [-> Ha]. intros [= <- <-]. split.
      * intros first rest [E Hf]%split_once_Some.
        destruct (split_once "/" path) as [[p1 p2]|] eqn:Ep.
        -- apply split_once_Some in Ep as [-> Hp]. rewrite !str_app_assoc in E |- *. cbn [String.append] in E |- *.
           assert (split_once "/" (p1 +:+ String "/" (p2 +:+ "/" +:+ a)) = Some (p1, p2 +:+ "/" +:+ a)) as E1 by (by apply split_once_app).
           assert (split_once "/" (first +:+ String "/" rest) = Some (first, rest)) as E2 by (by apply split_once_app).
           cbn [String.append] in E1. rewrite <- E, E1 in E2. injection E2 as -> <-. eexists. by apply split_once_app.
        -- apply split_once_None in Ep.
           assert (split_once "/" (path +:+ String "/" a) = Some (path, a)) as E1 by (by apply split_once_app).
           assert (split_once "/" (first +:+ String "/" rest) = Some (first, rest)) as E2 by (by apply split_once_app).
           change ("/" +:+ a) with (String "/" a) in E. rewrite E, E2 in E1. injection E1 as -> _. eexists. by apply split_once_app.
      * intros ? [= <-] Hat. rewrite str_mem_app in Hat. simpl in Hat. rewrite str_mem_app in Hat. simpl in Hat.
        rewrite !orb_false_iff in Hat. rewrite str_mem_app in Hl. simpl in Hl. rewrite orb_false_iff in Hl.
        apply Hn; tauto.
    + intros [= <- <-]. split; [eauto|done].
  - apply rsplit_once_None in Er. destruct (split_once ":" name) as [[a t]|] eqn:Ec.
    + apply split_once_Some in Ec as [-> Ha]. rewrite str_mem_app in Er. simpl in Er. rewrite orb_false_iff in Er.
      intros [= <- <-]. split.
      * intros first rest E. by rewrite (proj2 (split_once_None "/" a) (proj1 Er)) in E.
      * intros ? [= <-] Hat. rewrite str_mem_app in Hat. simpl in Hat. rewrite orb_false_iff in Hat. apply Hn; tauto.
    + intros [= <- <-]. split; [eauto|done].
Qed.

Lemma split_char_first c s a b : split_once c s = Some (a, b) -> In a (split_char c s).
Proof. intros [-> Ha]%split_once_Some. rewrite split_char_app by done. by left. Qed.

Lemma split_digest_Ok s name digest : split_digest s = Ok (name, digest) ->
  before "@" s = name /\ str_mem "@" name = false /\ (forall e, digest = Some e -> digest_wf e = true) /\
  (digest = None -> name = s).
Proof.
  unfold split_digest, before. destruct (split_once "@" s) as [[n ds]|] eqn:E.
  - apply split_once_Some in E as [_ Hn]. unfold parse_digest.
    destruct (digest_try_from ds) as [e|e] eqn:Ed; simpl; [|done]. intros [= <- <-].
    split_and!; [done|done| |done]. intros ? [= <-]. by eapply digest_try_from_wf.
  - apply split_once_None in E. by intros [= <- <-].
Qed.

Lemma parse_wf_lemma s d r : host_wf d = true -> parse_with_default_registry s d = Ok r -> ref_wf r = true.
Proof.
  unfold host_wf. rewrite !andb_true_iff, !negb_true_iff. intros [[[D1 D2] D3] D4].
  unfold parse_with_default_registry, validate_segments.
  destruct (existsb _ _) eqn:Hv; cbn [result_bind]; [done|].
  unfold parse_internal. destruct (String.eqb s ""); [done|].
  destruct (split_digest s) as [[name digest]|] eqn:Esd; [|done].
  apply split_digest_Ok in Esd as (En & Hat & Hdig & _).
  cbn [result_bind]. rewrite En in Hv. destruct (split_tag name) as [n tag] eqn:Es.
  destruct (split_tag_first name n tag Es) as [Hfirst Htag].
  destruct (split_once "/" (prepend_domain n d)) as [[registry repository]|] eqn:Ep; [|done].
  destruct (repository_error_kind repository) eqn:Ek; [done|]. intros [= <-].
  assert (segment_is_host registry = true /\ str_mem "/" registry = false /\ str_mem "@" registry = false /\
          dot_segment (before ":" registry) = false) as (R1 & R2 & R3 & R4).
  { assert (split_once "/" (d +:+ String "/" n) = Some (d, n)) as Ed by (by apply split_once_app).
    revert Ep. unfold prepend_domain. change ("/" +:+ n) with (String "/" n).
    destruct (split_once "/" n) as [[first rest]|] eqn:Ef; [|rewrite Ed; by intros [= <- <-]].
    destruct (negb _ && negb _) eqn:Eh; [rewrite Ed; by intros [= <- <-]|]. rewrite Ef. intros [= <- <-].
    destruct (Hfirst first rest eq_refl) as [rest' Ef'].
    split_and!.
    - revert Eh. unfold segment_is_host. destruct (str_mem "." first), (str_mem ":" first), (String.eqb first _); done.
    - by apply split_once_Some in Ef as [_ ?].
    - apply split_once_Some in Ef' as [-> _]. rewrite str_mem_app, orb_false_iff in Hat. tauto.
    - by apply (existsb_false_In _ _ first Hv), (split_char_first _ _ _ rest'). }
  unfold ref_wf. cbn [pr_registry pr_repository pr_tag pr_digest]. rewrite R1, R2, R3, R4, Ek. simpl.
  destruct tag as [t|]; [destruct (Htag t eq_refl Hat) as (-> & -> & ->)|]; simpl;
    (destruct digest as [e|]; [by apply Hdig|done]).
Qed.

(** A tail without the separator only extends the last piece. *)
Lemma split_char_tail c s t : str_mem c t = false ->
  exists init l, split_char c s = (init ++ [l])%list /\ split_char c (s +:+ t) = (init ++ [l +:+ t])%list.
Proof.
  intros Ht. induction s as [|d s (init & l & E1 & E2)]; simpl.
  - exists [], "". by rewrite split_char_single.
  - rewrite E1, E2. destruct (Ascii.eqb d c); [by exists ("" :: init), l|].
    destruct init as [|p ps]; simpl; [by exists [], (String d l)|by exists (String d p :: ps), l].
Qed.

Section WfText.
Context (r : PackageRef) (W : ref_wf r = true).

Lemma before_at_display : before "@" (ref_display r) = name_text r.
Proof.
  rewrite ref_display_name. pose proof (name_text_no_at r W) as Hat. destruct (pr_digest r) as [d|].
  - by apply before_app.
  - rewrite str_app_nil_r. by apply before_id.
Qed.

Lemma split_once_name : exists rest, split_once "/" (name_text r) = Some (pr_registry r, rest).
Proof. destruct (ref_wf_parts r W) as (_ & H2 & _). eexists. unfold name_text. by apply split_once_app. Qed.

Lemma validate_segments_display : validate_segments (ref_display r) = Ok tt.
Proof.
  unfold validate_segments. rewrite before_at_display.
  destruct (ref_wf_parts r W) as (_ & H2 & _ & H4 & H5 & H6 & _).
  pose proof (proj2 (proj1 (repository_ok _) H5)) as Hseg.
  assert (forall p, In p (split_char "/" (pr_repository r)) -> dot_segment p = false) as Hdot.
  { intros p Hp. destruct (Hseg p Hp) as (_ & ? & ? & _). unfold dot_segment. rewrite orb_false_iff, !String.eqb_neq. done. }
  assert (forall p, In p (split_char "/" (pr_repository r)) -> str_mem ":" p = false) as Hcol.
  { intros p Hp. destruct (Hseg p Hp) as (_ & _ & _ & Hb). by eapply str_mem_forall. }
  destruct (existsb _ _) eqn:E; [|done]. exfalso. apply existsb_exists in E as (p & Hp & Hd).
  unfold name_text in Hp. change ("/" +:+ ?s) with (String "/" s) in Hp. cbn [String.append] in Hp.
  rewrite split_char_app in Hp by done. destruct Hp as [<-|Hp]; [by rewrite H4 in Hd|].
  destruct (pr_tag r) as [tag|].
  - destruct (split_char_tail "/" (pr_repository r) (String ":" tag)) as (init & l & E1 & E2).
    { simpl. by apply H6. }
    rewrite E2 in Hp. rewrite E1 in Hdot, Hcol. apply in_app_or in Hp as [Hp|[<-|[]]].
    + rewrite before_id in Hd by (apply Hcol, in_or_app; by left). rewrite Hdot in Hd; [done|]. apply in_or_app. by left.
    + assert (In l (init ++ [l])%list) as Hl by (apply in_or_app; right; by left).
      rewrite before_app in Hd by (by apply Hcol). by rewrite (Hdot l Hl) in Hd.
  - rewrite str_app_nil_r in Hp. rewrite before_id in Hd by (by apply Hcol). by rewrite Hdot in Hd.
Qed.

Lemma explicit_registry_display : has_explicit_registry (ref_display r) = true.
Proof.
  unfold has_explicit_registry. rewrite before_at_display. destruct split_once_name as [rest ->].
  by destruct (ref_wf_parts r W).
Qed.

Lemma ref_parse_display d : ref_parse (ref_display r) = Ok r /\ parse_with_default_registry (ref_display r) d = Ok r.
Proof.
  unfold ref_parse, parse_with_default_registry. rewrite validate_segments_display, explicit_registry_display.
  cbn [result_bind negb]. split; by apply parse_internal_display.
Qed.
End WfText.

(** A pointer that parses back to its own host and path names an explicit host. *)
Lemma pointer_host_wf rest host path l :
  split_once "/" rest = Some (host, path) -> parse_with_default_registry rest host = Ok l ->
  pr_registry l = host -> pr_repository l = path -> pr_tag l = None -> pr_digest l = None -> host_wf host = true.
Proof.
  intros Es Eq E1 E2 E3 E4. pose proof Es as [Erest Hslash]%split_once_Some.
  revert Eq. unfold parse_with_default_registry, validate_segments.
  destruct (existsb _ _) eqn:Hv; cbn [result_bind]; [done|]. unfold parse_internal.
  destruct (String.eqb rest ""); [done|]. destruct (split_digest rest) as [[name digest]|] eqn:Esd; [|done].
  apply split_digest_Ok in Esd as (En & Hat & _ & Hnone). cbn [result_bind].
  destruct (split_tag name) as [n tag] eqn:Et. case_match eqn:Epd; [|done]. destruct p as [registry repository].
  case_match eqn:Ek; [done|]. intros [= <-]. simpl in *. subst registry repository tag digest. specialize (Hnone eq_refl).
  rewrite En, Hnone in Hv. rewrite Hnone, Erest in Hat, Et. rewrite Erest in Hv.
  assert (n = host +:+ String "/" path) as ->.
  { revert Et. unfold split_tag. destruct (rsplit_once _ _) as [[p q]|]; destruct (split_once ":" _) as [[? ?]|]; by intros [=]. }
  unfold host_wf. rewrite Hslash. rewrite str_mem_app, orb_false_iff in Hat. destruct Hat as [-> _].
  rewrite (existsb_false_In _ _ host Hv) by (eapply split_char_first, split_once_app; done). simpl.
  rewrite !andb_true_r. destruct (segment_is_host host) eqn:Eh; [done|]. exfalso.
  revert Epd. unfold prepend_domain. rewrite split_once_app by done.
  unfold segment_is_host in Eh. rewrite orb_false_iff in Eh. destruct Eh as [-> ->]. cbn [negb andb].
  change ("/" +:+ ?s) with (String "/" s). rewrite split_once_app by done. intros [= E].
  apply (f_equal String.length) in E. rewrite str_length_app in E. simpl in E. lia.
Qed.

(** ** Properties *)

(** A well-formed reference prints to a text that every entry point parses
    back to it, whatever the default registry; and what a parser accepts is
    well formed: an explicit host, a tag and digest that re-read as themselves,
    and a repository of at most 255 bytes whose segments are non-empty runs of
    lower-case letters, digits, [.], [_] and [-], never [.] or [..]. *)
Theorem package_ref_roundtrip (r : PackageRef) (d : string) (W : ref_wf r = true) (D : host_wf d = true) :
  ref_parse (ref_display r) = Ok r /\ parse_with_default_registry (ref_display r) d = Ok r /\
  (forall s q, parse_with_default_registry s d = Ok q ->
     ref_wf q = true /\ (String.length (pr_repository q) <= MAX_REPOSITORY_LENGTH)%nat /\
     forall segment, In segment (split_char "/" (pr_repository q)) ->
       segment <> "" /\ segment <> "." /\ segment <> ".." /\ str_forall is_repository_segment_byte segment = true).
Proof.
  destruct (ref_parse_display r W d) as [H1 H2]. split_and!; [done|done|]. intros s q Hq.
  pose proof (parse_wf_lemma s d q D Hq) as Wq. split; [done|]. apply repository_ok. by apply ref_wf_parts.
Qed.

Lemma package_ref_roundtrip_witness :
  ref_parse "ghcr.io/ocx-contrib/cmake:3.28" = Ok (mkPackageRef "ghcr.io" "ocx-contrib/cmake" (Some "3.28") None).
Proof.
  exact (proj1 (package_ref_roundtrip (mkPackageRef "ghcr.io" "ocx-contrib/cmake" (Some "3.28") None) "ocx.sh"
                  ltac:(vm_compute; reflexivity) ltac:(vm_compute; reflexivity))).
Defined.

(** an index root's repository pointer is read strictly: it is accepted iff
    it is exactly [oci://] followed by the text of a well-formed location without
    tag or digest, so a remote pointer cannot smuggle in a tag, a digest, a path
    traversal or a default registry. *)
Theorem repository_pointer_exact (value : string) (l : OciIdentifier) :
  parse_repository_pointer value = Ok l <->
  value = "oci://" +:+ ref_display l /\ pr_tag l = None /\ pr_digest l = None /\ ref_wf l = true.
Proof.
  unfold parse_repository_pointer. split.
  - destruct (strip_prefix "oci://" value) as [rest|] eqn:Ep; [|done]. apply strip_prefix_Some in Ep as ->.
    destruct (split_once "/" rest) as [[host path]|] eqn:Es; [|done].
    destruct (String.eqb host "" || String.eqb path "") eqn:Ee; [done|].
    destruct (parse_with_default_registry rest host) as [q|] eqn:Eq; [|done].
    case_match eqn:Eb; [done|]. intros E. injection E as ->.
    rewrite !orb_false_iff, !negb_false_iff, !String.eqb_eq, !bool_decide_eq_false in Eb.
    destruct Eb as [[[E1 E2] E3] E4]. apply eq_None_not_Some in E3. apply eq_None_not_Some in E4.
    pose proof Es as [Erest Hslash]%split_once_Some.
    pose proof (pointer_host_wf rest host path l Es Eq E1 E2 E3 E4) as Hh.
    split_and!; [|done|done|by eapply parse_wf_lemma]. rewrite Erest. f_equal. unfold ref_display.
    by rewrite E1, E2, E3, E4, !str_app_nil_r.
  - intros (-> & E3 & E4 & W). rewrite strip_prefix_app.
    destruct (ref_wf_parts l W) as (H1 & H2 & _ & _ & H5 & _).
    assert (ref_display l = pr_registry l +:+ String "/" (pr_repository l)) as Ed.
    { unfold ref_display. by rewrite E3, E4, !str_app_nil_r. }
    rewrite Ed at 1. rewrite split_once_app by done.
    assert (String.eqb (pr_registry l) "" = false) as ->.
    { apply String.eqb_neq. intros E. by rewrite E in H1. }
    assert (String.eqb (pr_repository l) "" = false) as ->.
    { apply String.eqb_neq. intros E. by rewrite E in H5. }
    cbn [orb]. rewrite (proj2 (ref_parse_display l W _)), !String.eqb_refl, E3, E4. done.
Qed.
