(* ===== verification/Platform.v ===== *)
(** * Platforms

    [crates/ocx_oci/src/platform.rs] with [platform/architecture.rs],
    [platform/operating_system.rs] and [platform/error.rs]: the platform a
    package targets, its canonical text, its conversion to and from the OCI
    platform object, host compatibility and the selection of the best offer. *)

From stdpp Require Import base decidable list option numbers strings.
From Stdlib Require Import Lia Ascii.
From S2P Require Import Prelude OMap Text.
Local Open Scope ocx_scope.
Local Open Scope string_scope.

(** ** Operating systems and architectures *)

Inductive Architecture : Type := Amd64 | Arm64 | Wasm.
Inductive OperatingSystem : Type := Darwin | Linux | Windows | Wasip1 | Wasip2.

#[export] Instance Architecture_eq_dec : EqDecision Architecture.
Proof. solve_decision. Defined.
#[export] Instance OperatingSystem_eq_dec : EqDecision OperatingSystem.
Proof. solve_decision. Defined.

(** [enum PlatformErrorKind] and [struct PlatformError]. *)
Inductive PlatformErrorKind : Type :=
| PlatformInvalidFormat
| UnsupportedOs (os : string)
| UnsupportedArch (arch : string)
| UnsupportedPair (os : OperatingSystem) (arch : Architecture)
| Unsupported (text : string).
Record PlatformError : Type := mkPlatformError { pe_input : string; pe_kind : PlatformErrorKind }.

(** [Display] and [FromStr] of the two enums. *)
Definition arch_display (a : Architecture) : string :=
  match a with Amd64 => "amd64" | Arm64 => "arm64" | Wasm => "wasm" end.
Definition os_display (o : OperatingSystem) : string :=
  match o with
  | Linux => "linux" | Darwin => "darwin" | Windows => "windows" | Wasip1 => "wasip1" | Wasip2 => "wasip2"
  end.
Definition arch_from_str (s : string) : result PlatformErrorKind Architecture :=
  if String.eqb s "amd64" then Ok Amd64
  else if String.eqb s "arm64" then Ok Arm64
  else if String.eqb s "wasm" then Ok Wasm
  else Err (UnsupportedArch s).
Definition os_from_str (s : string) : result PlatformErrorKind OperatingSystem :=
  if String.eqb s "linux" then Ok Linux
  else if String.eqb s "darwin" then Ok Darwin
  else if String.eqb s "windows" then Ok Windows
  else if String.eqb s "wasip1" then Ok Wasip1
  else if String.eqb s "wasip2" then Ok Wasip2
  else Err (UnsupportedOs s).

(** [SUPPORTED_PAIRS] and [validate_pair]. *)
Definition SUPPORTED_PAIRS : list (OperatingSystem * Architecture) :=
  [(Linux, Amd64); (Linux, Arm64); (Darwin, Amd64); (Darwin, Arm64);
   (Windows, Amd64); (Windows, Arm64); (Wasip1, Wasm); (Wasip2, Wasm)].
Definition supported_pair (os : OperatingSystem) (arch : Architecture) : bool :=
  existsb (fun p => bool_decide (p = (os, arch))) SUPPORTED_PAIRS.
Definition validate_pair (os : OperatingSystem) (arch : Architecture) : result PlatformErrorKind unit :=
  if supported_pair os arch then Ok tt else Err (UnsupportedPair os arch).

(** ** The platform *)

Definition ANY_STR : string := "any".

(** [enum Platform]. *)
Inductive Platform : Type :=
| PlatAny
| Specific (os : OperatingSystem) (arch : Architecture) (variant : option string) (os_features : list string).

#[export] Instance Platform_eq_dec : EqDecision Platform.
Proof. solve_decision. Defined.

Definition is_any (p : Platform) : bool := match p with PlatAny => true | Specific _ _ _ _ => false end.
Definition plat_os_features (p : Platform) : list string :=
  match p with PlatAny => [] | Specific _ _ _ os_features => os_features end.

(** [normalize_os_features]: [sort] and [dedup]. *)
Definition normalize_os_features (os_features : list string) : list string :=
  if (length os_features <=? 1)%nat then os_features else ord_dedup (ord_sort os_features).

(** [segments] and [ascii_segments]. *)
Definition segments (p : Platform) : list string :=
  match p with
  | PlatAny => [ANY_STR]
  | Specific os arch variant _ =>
      ([os_display os; arch_display arch] ++ match variant with Some v => [v] | None => [] end)%list
  end.
Definition ascii_segments (p : Platform) : list string := map lowercase (segments p).

(** [same_os_arch], [host_can_run_on]. *)
Definition same_os_arch (p q : Platform) : bool :=
  match p, q with
  | PlatAny, PlatAny => true
  | Specific o a _ _, Specific o' a' _ _ => bool_decide (o = o') && bool_decide (a = a')
  | _, _ => false
  end.
Definition host_can_run_on (platform host : option Platform) : bool :=
  match platform with
  | None => true
  | Some p => if is_any p then true else match host with None => true | Some h => same_os_arch h p end
  end.

(** [feature_namespace], [with_os_feature]. *)
Definition feature_namespace (feature : string) : option string := fst <$> split_once "." feature.
Definition with_os_feature (p : Platform) (feature : string) : Platform :=
  match p with
  | PlatAny => PlatAny
  | Specific os arch variant os_features =>
      let namespace := feature_namespace feature in
      Specific os arch variant
        (List.filter (fun tag => bool_decide (namespace = None) ||
                                 negb (bool_decide (feature_namespace tag = namespace))) os_features ++ [feature])%list
  end.

(** ** Compatibility and selection *)

(** [is_compatible]: whether [offered] satisfies [required]. *)
Definition is_compatible (required offered : Platform) : bool :=
  if is_any offered then true
  else match required, offered with
       | Specific required_os required_arch required_variant required_os_features,
         Specific offered_os offered_arch offered_variant offered_os_features =>
           if negb (bool_decide (required_os = offered_os)) || negb (bool_decide (required_arch = offered_arch)) then false
           else if bool_decide (is_Some offered_variant) && negb (bool_decide (offered_variant = required_variant)) then false
           else forallb (fun feature => bool_decide (feature ∈ required_os_features)) offered_os_features
       | _, _ => false
       end.

(** [compatibility_score]: a lexicographic triple. *)
Definition compatibility_score (offered : Platform) : bool * nat * nat :=
  match offered with
  | PlatAny => (false, 0, 0)
  | Specific _ _ variant os_features =>
      (true, (if bool_decide (is_Some variant) then 1 else 0), length os_features)
  end.
Definition score_cmp : bool * nat * nat -> bool * nat * nat -> comparison :=
  pair_cmp (pair_cmp Bool.compare Nat.compare) Nat.compare.

(** [enum Selection]. *)
Inductive Selection (T : Type) : Type :=
| Found (item : T)
| Ambiguous (items : list T)
| SelectNone.
Arguments Found {T} item.
Arguments Ambiguous {T} items.
Arguments SelectNone {T}.

(** One iteration of the loop of [select_best]. *)
Definition select_step {T : Type} (required : Platform)
    (acc : option (bool * nat * nat) * list T) (candidate : T * Platform) : option (bool * nat * nat) * list T :=
  let '(best_score, best) := acc in
  let '(item, offered) := candidate in
  if negb (is_compatible required offered) then acc
  else
    let score := compatibility_score offered in
    match best_score with
    | Some current =>
        match score_cmp score current with
        | Lt => acc
        | Eq => (best_score, (best ++ [item])%list)
        | Gt => (Some score, [item])
        end
    | None => (Some score, [item])
    end.

(** [select_best]. *)
Definition select_best {T : Type} (required : Platform) (candidates : list (T * Platform)) : Selection T :=
  match (foldl (select_step required) (None, []) candidates).2 with
  | [] => SelectNone
  | [item] => Found item
  | items => Ambiguous items
  end.

(** ** The canonical grammar *)

(** [escape_platform_component]. *)
Definition escape_char (c : ascii) : string :=
  if Ascii.eqb c "%" then "%25"
  else if Ascii.eqb c "/" then "%2F"
  else if Ascii.eqb c "+" then "%2B"
  else if Ascii.eqb c "," then "%2C"
  else String c "".
Fixpoint escape_platform_component (value : string) : string :=
  match value with
  | EmptyString => ""
  | String c rest => escape_char c +:+ escape_platform_component rest
  end.

(** [unescape_platform_component]. *)
Definition unescape_pair (c1 c2 : ascii) : option ascii :=
  if negb (Ascii.eqb c1 "2") then None
  else if Ascii.eqb c2 "5" then Some "%"%char
  else if Ascii.eqb c2 "F" then Some "/"%char
  else if Ascii.eqb c2 "B" then Some "+"%char
  else if Ascii.eqb c2 "C" then Some ","%char
  else None.
Fixpoint unescape_platform_component (value : string) : option string :=
  match value with
  | EmptyString => Some ""
  | String c rest =>
      if Ascii.eqb c "%" then
        match rest with
        | String c1 (String c2 rest') =>
            decoded ← unescape_pair c1 c2;
            String decoded <$> unescape_platform_component rest'
        | _ => None
        end
      else String c <$> unescape_platform_component rest
  end.

(** [split_feature_list]: [collect] into an [Option] stops at the first [None]. *)
Definition split_feature_list (segment : string) : option (list string) :=
  if String.eqb segment "" then None
  else mapM (fun token => if String.eqb token "" then None else unescape_platform_component token)
            (split_char "," segment).

(** [Display for Platform]. *)
Definition platform_display (p : Platform) : string :=
  match p with
  | PlatAny => ANY_STR
  | Specific os arch variant os_features =>
      os_display os +:+ "/" +:+ arch_display arch +:+
      match variant with Some v => "/" +:+ escape_platform_component v | None => "" end +:+
      match normalize_os_features os_features with
      | [] => ""
      | normalized => "+" +:+ str_join "," (map escape_platform_component normalized)
      end
  end.

(** [FromStr for Platform], in the code's three steps: the feature list after
    the first [+], the pieces of the core, the parsed components. *)
Definition invalid_platform {A : Type} (value : string) : result PlatformError A :=
  Err (mkPlatformError value PlatformInvalidFormat).
Definition with_input {A : Type} (value : string) (r : result PlatformErrorKind A) : result PlatformError A :=
  match r with Ok a => Ok a | Err kind => Err (mkPlatformError value kind) end.

Definition split_features (value : string) : result PlatformError (string * list string) :=
  match split_once "+" value with
  | Some (head, feature_list) =>
      match split_feature_list feature_list with
      | Some features => Ok (head, features)
      | None => invalid_platform value
      end
  | None => Ok (value, [])
  end.

Definition parse_variant (value : string) (part : option string) : result PlatformError (option string) :=
  match part with
  | Some segment =>
      match unescape_platform_component segment with
      | None => invalid_platform value
      | Some variant => if String.eqb variant "" then invalid_platform value else Ok (Some variant)
      end
  | None => Ok None
  end.

Definition platform_from_parts (value part0 part1 : string) (part2 : option string) (os_features : list string) :
    result PlatformError Platform :=
  let? os := with_input value (os_from_str part0) in
  let? arch := with_input value (arch_from_str part1) in
  let? _ := with_input value (validate_pair os arch) in
  let? variant := parse_variant value part2 in
  Ok (Specific os arch variant (normalize_os_features os_features)).

Definition platform_from_str (value : string) : result PlatformError Platform :=
  if String.eqb value ANY_STR then Ok PlatAny
  else
    let? head_features := split_features value in
    let '(core, os_features) := head_features in
    match split_char "/" core with
    | [part0; part1] => platform_from_parts value part0 part1 None os_features
    | [part0; part1; part2] => platform_from_parts value part0 part1 (Some part2) os_features
    | _ => invalid_platform value
    end.

Example platform_text : platform_from_str "linux/arm64/v8+libc.musl,libc.glibc" =
  Ok (Specific Linux Arm64 (Some "v8") ["libc.glibc"; "libc.musl"]).
Proof. reflexivity. Qed.
Example platform_bad_pair : platform_from_str "linux/wasm" =
  Err (mkPlatformError "linux/wasm" (UnsupportedPair Linux Wasm)).
Proof. reflexivity. Qed.

(** ** The OCI platform object

    [native::Platform] and its [Os] and [Arch] come from the OCI client library:
    the fields and the variants the code names are spelled here, the library's
    further variants are the parameter types, known by their text alone. *)

Class OciSpec := {
  other_os : Type;
  other_arch : Type;
  other_os_text : other_os -> string;
  other_arch_text : other_arch -> string;
}.

Section Native.
Context `{U : OciSpec}.

Inductive NativeOs : Type :=
| Os_Linux | Os_Darwin | Os_Windows | Os_Other (name : string) | Os_Rest (o : other_os).
Inductive NativeArch : Type :=
| Arch_Amd64 | Arch_ARM64 | Arch_Wasm | Arch_Other (name : string) | Arch_Rest (a : other_arch).
Record NativePlatform : Type := mkNative {
  np_os : NativeOs;
  np_architecture : NativeArch;
  np_variant : option string;
  np_features : option (list string);
  np_os_version : option string;
  np_os_features : option (list string);
}.

(** [Display] of the library's enums: the OCI spelling. *)
Definition native_os_text (o : NativeOs) : string :=
  match o with
  | Os_Linux => "linux" | Os_Darwin => "darwin" | Os_Windows => "windows"
  | Os_Other name => name | Os_Rest o => other_os_text o
  end.
Definition native_arch_text (a : NativeArch) : string :=
  match a with
  | Arch_Amd64 => "amd64" | Arch_ARM64 => "arm64" | Arch_Wasm => "wasm"
  | Arch_Other name => name | Arch_Rest a => other_arch_text a
  end.

(** [From<OperatingSystem> for native::Os] and back. *)
Definition native_os_from (o : OperatingSystem) : NativeOs :=
  match o with
  | Linux => Os_Linux | Darwin => Os_Darwin | Windows => Os_Windows
  | Wasip1 => Os_Other "wasip1" | Wasip2 => Os_Other "wasip2"
  end.
Definition os_try_from (o : NativeOs) : result PlatformErrorKind OperatingSystem :=
  match o with
  | Os_Linux => Ok Linux
  | Os_Darwin => Ok Darwin
  | Os_Windows => Ok Windows
  | Os_Other name =>
      if String.eqb name "wasip1" then Ok Wasip1
      else if String.eqb name "wasip2" then Ok Wasip2
      else Err (UnsupportedOs name)
  | Os_Rest _ => Err (UnsupportedOs (native_os_text o))
  end.

(** [From<Architecture> for native::Arch] and back. *)
Definition native_arch_from (a : Architecture) : NativeArch :=
  match a with Amd64 => Arch_Amd64 | Arm64 => Arch_ARM64 | Wasm => Arch_Wasm end.
Definition arch_try_from (a : NativeArch) : result PlatformErrorKind Architecture :=
  match a with
  | Arch_Amd64 => Ok Amd64
  | Arch_ARM64 => Ok Arm64
  | Arch_Wasm => Ok Wasm
  | Arch_Other _ | Arch_Rest _ => Err (UnsupportedArch (native_arch_text a))
  end.

(** [From<&Platform> for native::Platform]. *)
Definition native_from (p : Platform) : NativePlatform :=
  match p with
  | PlatAny => mkNative (Os_Other ANY_STR) (Arch_Other ANY_STR) None None None None
  | Specific os arch variant os_features =>
      let normalized := normalize_os_features os_features in
      mkNative (native_os_from os) (native_arch_from arch) variant None None
        (match normalized with [] => None | _ :: _ => Some normalized end)
  end.

(** [TryFrom<native::Platform> for Platform]; [text] is the library's [Display]. *)
Definition platform_try_from (text : NativePlatform -> string) (p : NativePlatform) : result PlatformError Platform :=
  let input := text p in
  let specific :=
    let? os := with_input input (os_try_from (np_os p)) in
    let? arch := with_input input (arch_try_from (np_architecture p)) in
    let? _ := with_input input (validate_pair os arch) in
    Ok (Specific os arch (np_variant p) (normalize_os_features (default [] (np_os_features p)))) in
  match np_os p, np_architecture p with
  | Os_Other os, Arch_Other arch =>
      if String.eqb os ANY_STR && String.eqb arch ANY_STR && bool_decide (np_variant p = None) then Ok PlatAny
      else Err (mkPlatformError input (Unsupported input))
  | _, _ => specific
  end.

(** [render_native_platform]: the canonical grammar over any platform object. *)
Definition render_native_platform (p : NativePlatform) : string :=
  native_os_text (np_os p) +:+ "/" +:+ native_arch_text (np_architecture p) +:+
  match np_variant p with
  | Some v => if String.eqb v "" then "" else "/" +:+ escape_platform_component v
  | None => ""
  end +:+
  match normalize_os_features (default [] (np_os_features p)) with
  | [] => ""
  | os_features => "+" +:+ str_join "," (map escape_platform_component os_features)
  end.
End Native.

(** ** Normal forms *)

Lemma normalize_set l : normalize_os_features l = os_of_list l.
Proof.
  unfold normalize_os_features. destruct l as [|x [|y l]]; [done|done|]. apply dedup_sort_set.
Qed.

Lemma normalize_In x l : In x (normalize_os_features l) <-> In x l.
Proof. rewrite normalize_set. apply os_of_list_In. Qed.

Lemma normalize_id l : os_wf l -> normalize_os_features l = l.
Proof. intros Hl. rewrite normalize_set. apply os_ext; [apply os_of_list_wf|done|]. intros. apply os_of_list_In. Qed.

Lemma normalize_idem l : normalize_os_features (normalize_os_features l) = normalize_os_features l.
Proof. apply normalize_id. rewrite normalize_set. apply os_of_list_wf. Qed.

(** The platform with its feature list in normal form. *)
Definition plat_norm (p : Platform) : Platform :=
  match p with
  | PlatAny => PlatAny
  | Specific os arch variant os_features => Specific os arch variant (normalize_os_features os_features)
  end.

(** What a parsed platform satisfies. *)
Definition platform_wf (p : Platform) : bool :=
  match p with
  | PlatAny => true
  | Specific os arch variant os_features =>
      supported_pair os arch && negb (bool_decide (variant = Some "")) &&
      bool_decide (normalize_os_features os_features = os_features) &&
      forallb (fun f => negb (String.eqb f "")) os_features
  end.

(** ** Escaping *)

Lemma unescape_escape_app s t : unescape_platform_component (escape_platform_component s +:+ t) =
  (fun u => s +:+ u) <$> unescape_platform_component t.
Proof.
  induction s as [|c s IH]; cbn [escape_platform_component].
  - simpl. by destruct (unescape_platform_component t).
  - rewrite str_app_assoc. unfold escape_char.
    destruct (Ascii.eqb_spec c "%") as [->|Hc]; [|destruct (Ascii.eqb_spec c "/") as [->|_];
      [|destruct (Ascii.eqb_spec c "+") as [->|_]; [|destruct (Ascii.eqb_spec c ",") as [->|_]]]];
      cbn [String.append unescape_platform_component]; try (rewrite (proj2 (Ascii.eqb_neq c "%") Hc));
      cbn; rewrite IH; by destruct (unescape_platform_component t).
Qed.

Lemma unescape_escape s : unescape_platform_component (escape_platform_component s) = Some s.
Proof.
  pose proof (unescape_escape_app s "") as H. rewrite str_app_nil_r in H. rewrite H. simpl. by rewrite str_app_nil_r.
Qed.

Lemma escape_inj s t : escape_platform_component s = escape_platform_component t -> s = t.
Proof. intros E%(f_equal unescape_platform_component). rewrite !unescape_escape in E. by injection E. Qed.

Lemma escape_no_sep d s : d = "/"%char \/ d = "+"%char \/ d = ","%char -> str_mem d (escape_platform_component s) = false.
Proof.
  intros Hd. induction s as [|c s IH]; cbn [escape_platform_component]; [done|]. rewrite str_mem_app, IH, orb_false_r.
  unfold escape_char.
  repeat (match goal with |- context [Ascii.eqb c ?d] => destruct (Ascii.eqb_spec c d) as [->|?] end);
    destruct Hd as [->|[->| ->]]; try reflexivity; cbn [str_mem]; rewrite orb_false_r; apply Ascii.eqb_neq; congruence.
Qed.

Lemma escape_empty s : escape_platform_component s = "" -> s = "".
Proof. intros E. by apply escape_inj. Qed.

Lemma unescape_nonempty s t : unescape_platform_component s = Some t -> s <> "" -> t <> "".
Proof.
  destruct s as [|c s]; [done|]. simpl. intros E _ ->. destruct (Ascii.eqb c "%").
  - destruct s as [|c1 [|c2 s]]; [done|done|]. destruct (unescape_pair c1 c2); simpl in E; [|done].
    by destruct (unescape_platform_component s).
  - by destruct (unescape_platform_component s).
Qed.

(** ** Reading the canonical text back *)

(** The text of the core and of the feature list. *)
Definition core_text (os : OperatingSystem) (arch : Architecture) (variant : option string) : string :=
  os_display os +:+ "/" +:+ arch_display arch +:+
  match variant with Some v => "/" +:+ escape_platform_component v | None => "" end.
Definition features_text (features : list string) : string := str_join "," (map escape_platform_component features).

Lemma platform_display_core os arch variant l :
  platform_display (Specific os arch variant l) =
  core_text os arch variant +:+
  match normalize_os_features l with [] => "" | normalized => "+" +:+ features_text normalized end.
Proof. unfold platform_display, core_text. by rewrite !str_app_assoc. Qed.

Lemma core_text_split os arch variant :
  str_mem "+" (core_text os arch variant) = false /\
  split_char "/" (core_text os arch variant) =
    ([os_display os; arch_display arch] ++ match variant with Some v => [escape_platform_component v] | None => [] end)%list.
Proof.
  assert (str_mem "/" (os_display os) = false) by (by destruct os).
  assert (str_mem "/" (arch_display arch) = false) by (by destruct arch).
  assert (str_mem "+" (os_display os) = false) by (by destruct os).
  assert (str_mem "+" (arch_display arch) = false) by (by destruct arch).
  unfold core_text. destruct variant as [v|]; (split; [rewrite !str_mem_app|]).
  - assert (str_mem "+" (escape_platform_component v) = false) as E by (apply escape_no_sep; auto).
    simpl. rewrite E. by repeat match goal with H : str_mem "+" _ = false |- _ => rewrite H; clear H end.
  - change ("/" +:+ arch_display arch +:+ "/" +:+ escape_platform_component v)
      with (String "/" (arch_display arch +:+ String "/" (escape_platform_component v))).
    rewrite split_char_app by done. rewrite split_char_app by done.
    by rewrite split_char_single by (apply escape_no_sep; auto).
  - simpl. by repeat match goal with H : str_mem "+" _ = false |- _ => rewrite H; clear H end.
  - rewrite str_app_nil_r. change ("/" +:+ arch_display arch) with (String "/" (arch_display arch)).
    rewrite split_char_app by done. by rewrite split_char_single.
Qed.

Lemma display_split_once os arch variant l :
  split_once "+" (platform_display (Specific os arch variant l)) =
  match normalize_os_features l with [] => None | n => Some (core_text os arch variant, features_text n) end.
Proof.
  rewrite platform_display_core. destruct (core_text_split os arch variant) as [Hplus _].
  destruct (normalize_os_features l) as [|f n].
  - rewrite str_app_nil_r. by apply split_once_None.
  - change ("+" +:+ ?s) with (String "+" s). by apply split_once_app.
Qed.

Lemma features_text_split n : n <> [] -> split_char "," (features_text n) = map escape_platform_component n.
Proof.
  intros Hn. apply split_char_join; [by destruct n|]. intros s (f & <- & _)%in_map_iff. apply escape_no_sep. auto.
Qed.

Lemma display_not_any os arch variant l : platform_display (Specific os arch variant l) <> ANY_STR.
Proof.
  rewrite platform_display_core. intros E%(f_equal (str_mem "/")). revert E. unfold core_text.
  rewrite !str_mem_app. simpl. by rewrite orb_true_r.
Qed.

Lemma os_from_display o : os_from_str (os_display o) = Ok o.
Proof. by destruct o. Qed.
Lemma arch_from_display a : arch_from_str (arch_display a) = Ok a.
Proof. by destruct a. Qed.

Lemma split_feature_list_text n : n <> [] -> forallb (fun f => negb (String.eqb f "")) n = true ->
  split_feature_list (features_text n) = Some n.
Proof.
  intros Hn Hne. unfold split_feature_list. rewrite features_text_split by done.
  destruct (String.eqb_spec (features_text n) "") as [E|_].
  { exfalso. apply (f_equal (split_char ",")) in E. rewrite features_text_split in E by done. simpl in E.
    destruct n as [|f [|g n]]; [done| |done]. injection E as E%escape_empty. by subst. }
  clear Hn. apply mapM_Some. induction n as [|f n IH]; simpl in *; [constructor|].
  apply andb_true_iff in Hne as [Hf Hne]. constructor; [|by apply IH].
  destruct (String.eqb_spec (escape_platform_component f) "") as [E%escape_empty|_]; [by subst|]. apply unescape_escape.
Qed.

Lemma platform_from_display p : platform_wf p = true -> platform_from_str (platform_display p) = Ok p.
Proof.
  destruct p as [|os arch variant l]; [done|]. simpl platform_wf. rewrite !andb_true_iff, negb_true_iff.
  rewrite bool_decide_eq_true, bool_decide_eq_false. intros [[[Hpair Hvar] Hnorm] Hne].
  unfold platform_from_str. destruct (String.eqb_spec (platform_display (Specific os arch variant l)) ANY_STR) as [E|_].
  { by apply display_not_any in E. }
  assert (split_features (platform_display (Specific os arch variant l)) = Ok (core_text os arch variant, l)) as ->.
  { unfold split_features. rewrite display_split_once, Hnorm. destruct l as [|f l].
    - rewrite platform_display_core, Hnorm. by rewrite str_app_nil_r.
    - by rewrite split_feature_list_text. }
  cbn [result_bind]. rewrite (proj2 (core_text_split os arch variant)).
  destruct variant as [v|]; cbn [app]; unfold platform_from_parts;
    rewrite os_from_display, arch_from_display; cbn [with_input result_bind]; unfold validate_pair;
    rewrite Hpair; cbn [with_input result_bind parse_variant]; rewrite ?unescape_escape, ?Hnorm; [|done].
  destruct (String.eqb_spec v "") as [->|_]; done.
Qed.

Lemma platform_from_str_wf s p : platform_from_str s = Ok p -> platform_wf p = true.
Proof.
  unfold platform_from_str. destruct (String.eqb s ANY_STR); [by intros [= <-]|].
  destruct (split_features s) as [[core l]|] eqn:Es; cbn [result_bind]; [|done].
  assert (forallb (fun f => negb (String.eqb f "")) l = true) as Hl.
  { revert Es. unfold split_features. destruct (split_once "+" s) as [[h t]|]; [|by intros [= _ <-]].
    unfold split_feature_list. destruct (String.eqb t ""); [done|]. case_match eqn:Em; [|done]. intros [= _ <-].
    apply mapM_Some in Em. clear -Em. induction Em as [|x y xs ys Hx Hxs IH]; simpl; [done|]. rewrite IH, andb_true_r.
    destruct (String.eqb_spec x "") as [|Hne]; [done|]. apply unescape_nonempty in Hx; [|done].
    by destruct (String.eqb_spec y ""). }
  assert (forall p0 p1 p2, platform_from_parts s p0 p1 p2 l = Ok p -> platform_wf p = true) as Hparts.
  { intros p0 p1 p2. unfold platform_from_parts.
    destruct (os_from_str p0) as [os|]; cbn [with_input result_bind]; [|done].
    destruct (arch_from_str p1) as [arch|]; cbn [with_input result_bind]; [|done].
    unfold validate_pair. destruct (supported_pair os arch) eqn:Hp; cbn [with_input result_bind]; [|done].
    destruct (parse_variant s p2) as [variant|] eqn:Ev; cbn [result_bind]; [|done]. intros [= <-]. simpl.
    rewrite Hp. apply andb_true_iff. split; [apply andb_true_iff; split|].
    - simpl. rewrite negb_true_iff, bool_decide_eq_false. intros ->. revert Ev. unfold parse_variant.
      destruct p2 as [q|]; [|done]. destruct (unescape_platform_component q) as [v|]; [|done].
      destruct (String.eqb_spec v ""); [done|]. by intros [= ->].
    - apply bool_decide_eq_true, normalize_idem.
    - apply forallb_forall. intros f Hf. rewrite forallb_forall in Hl. by apply Hl, normalize_In. }
  unfold invalid_platform. destruct (split_char "/" core) as [|p0 [|p1 [|p2 [|]]]]; try done; apply Hparts.
Qed.

Lemma map_escape_inj l m : map escape_platform_component l = map escape_platform_component m -> l = m.
Proof.
  revert m. induction l as [|x l IH]; intros [|y m]; simpl; try done. intros [= E1%escape_inj E2%IH]. by subst.
Qed.

Lemma platform_display_inj p q : platform_display p = platform_display q -> plat_norm p = plat_norm q.
Proof.
  destruct p as [|os arch v l], q as [|os' arch' v' l']; [done| | |].
  - intros E. by apply eq_sym, display_not_any in E.
  - intros E. by apply display_not_any in E.
  - intros E. pose proof (f_equal (split_once "+") E) as Es. rewrite !display_split_once in Es.
    rewrite !platform_display_core in E. simpl.
    destruct (core_text_split os arch v) as [_ Hc], (core_text_split os' arch' v') as [_ Hc'].
    assert (core_text os arch v = core_text os' arch' v' /\ normalize_os_features l = normalize_os_features l') as [Ec En].
    { destruct (normalize_os_features l) as [|f n], (normalize_os_features l') as [|f' n']; try done.
      - by rewrite !str_app_nil_r in E.
      - injection Es as E1 E2. split; [done|]. apply map_escape_inj.
        rewrite <- !features_text_split by done. by rewrite E2. }
    rewrite En. apply (f_equal (split_char "/")) in Ec. rewrite Hc, Hc' in Ec.
    assert (os_display os = os_display os' /\ arch_display arch = arch_display arch') as [E1 E2].
    { destruct v, v'; simpl in Ec; by injection Ec. }
    assert (os = os') as -> by (by destruct os, os'). assert (arch = arch') as -> by (by destruct arch, arch').
    f_equal. destruct v as [v|], v' as [v'|]; simpl in Ec; try done. injection Ec as Ev. by apply escape_inj in Ev as ->.
Qed.

(** ** Compatibility *)

Lemma is_compatible_spec required offered : is_compatible required offered = true <->
  offered = PlatAny \/
  exists os arch rv rf ov ofs, required = Specific os arch rv rf /\ offered = Specific os arch ov ofs /\
    (ov = None \/ ov = rv) /\ incl ofs rf.
Proof.
  unfold is_compatible, incl. destruct offered as [|os' arch' ov ofs]; simpl; [naive_solver|].
  destruct required as [|os arch rv rf]; simpl; [split; [done|naive_solver]|].
  assert (forallb (fun f => bool_decide (f ∈ rf)) ofs = true <-> forall f, In f ofs -> In f rf) as Hf.
  { rewrite forallb_forall. setoid_rewrite bool_decide_eq_true. setoid_rewrite list_elem_of_In. done. }
  destruct (decide (os = os')) as [<-|Ho]; [rewrite bool_decide_eq_true_2 by done|rewrite bool_decide_eq_false_2 by done]; simpl;
    [|naive_solver].
  destruct (decide (arch = arch')) as [<-|Ha]; [rewrite bool_decide_eq_true_2 by done|rewrite bool_decide_eq_false_2 by done]; simpl;
    [|naive_solver].
  destruct ov as [v|]; simpl.
  - destruct (decide (Some v = rv)) as [<-|Hv]; [rewrite bool_decide_eq_true_2 by done|rewrite bool_decide_eq_false_2 by done]; simpl;
      [|naive_solver].
    rewrite Hf. split; [|naive_solver]. intros. right. do 6 eexists. split_and!; [done|done|by right|done].
  - rewrite Hf. split; [|naive_solver]. intros. right. do 6 eexists. split_and!; [done|done|by left|done].
Qed.

Lemma score_cmp_lawful : lawful score_cmp.
Proof.
  apply lawful_pair; [apply lawful_pair|].
  - split; [intros [] []; naive_solver|intros [] []; done|intros [] [] []; done].
  - split; [apply Nat.compare_eq_iff|intros; apply Nat.compare_antisym|intros ???; rewrite !Nat.compare_lt_iff; lia].
  - split; [apply Nat.compare_eq_iff|intros; apply Nat.compare_antisym|intros ???; rewrite !Nat.compare_lt_iff; lia].
Qed.

Lemma is_compatible_score p q : platform_wf q = true -> is_compatible p q = true ->
  score_cmp (compatibility_score q) (compatibility_score p) <> Gt.
Proof.
  intros W [->|(os & arch & rv & rf & ov & ofs & -> & -> & Hv & Hf)]%is_compatible_spec; [by destruct p as [|? ? [] []]|].
  simpl in W. rewrite !andb_true_iff, bool_decide_eq_true in W. destruct W as [[_ Hn] _].
  assert (length ofs <= length rf)%nat as Hlen.
  { apply NoDup_incl_length; [|done]. rewrite <- Hn, normalize_set. apply os_wf_NoDup, os_of_list_wf. }
  unfold score_cmp, pair_cmp, cmp_then, compatibility_score. simpl.
  destruct ov as [v|], rv as [w|]; simpl; try (by destruct Hv); rewrite ?Nat.compare_gt_iff; try lia; done.
Qed.

(** ** Selection *)

Section Select.
Context {T : Type} (required : Platform).

(** The offers nothing compatible outranks, in candidate order. *)
Definition top_offer (candidates : list (T * Platform)) (c : T * Platform) : bool :=
  is_compatible required c.2 &&
  forallb (fun c' => negb (is_compatible required c'.2) ||
                     match score_cmp (compatibility_score c'.2) (compatibility_score c.2) with Gt => false | _ => true end)
          candidates.

(** What the loop holds after the candidates [seen]: the best score and its items. *)
Definition select_inv (seen : list (T * Platform)) (acc : option (bool * nat * nat) * list T) : Prop :=
  match acc.1 with
  | None => acc.2 = [] /\ forall c, In c seen -> is_compatible required c.2 = false
  | Some best =>
      acc.2 = map fst (List.filter (fun c => is_compatible required c.2 &&
                         match score_cmp (compatibility_score c.2) best with Eq => true | _ => false end) seen) /\
      (exists c, In c seen /\ is_compatible required c.2 = true /\ compatibility_score c.2 = best) /\
      forall c, In c seen -> is_compatible required c.2 = true -> score_cmp (compatibility_score c.2) best <> Gt
  end.

Lemma score_refl a : score_cmp a a = Eq.
Proof. apply (lawful_refl _ score_cmp_lawful). Qed.

Lemma select_step_inv seen acc c : select_inv seen acc -> select_inv (seen ++ [c]) (select_step required acc c).
Proof.
  destruct acc as [best items], c as [item offered]. unfold select_step.
  destruct (is_compatible required offered) eqn:Ec; simpl negb; cbv iota.
  - destruct best as [best|]; unfold select_inv; simpl.
    + intros (-> & (c & Hc & Hcc & Hs) & Hmax). pose proof (lawful_gt _ score_cmp_lawful) as Hgt.
      destruct (score_cmp (compatibility_score offered) best) eqn:Es; simpl; rewrite List.filter_app, map_app; simpl; rewrite Ec; simpl.
      * apply (lawful_eq _ score_cmp_lawful) in Es. subst best. rewrite Es, score_refl. split_and!; [done| |].
        { exists c. rewrite in_app_iff. naive_solver. }
        intros c'. rewrite in_app_iff. intros [H|[<-|[]]] Hc'; [by apply Hmax|]. simpl. by rewrite Es, score_refl.
      * rewrite Es. simpl. rewrite app_nil_r. split_and!; [done| |].
        { exists c. rewrite in_app_iff. naive_solver. }
        intros c'. rewrite in_app_iff. intros [H|[<-|[]]] Hc'; [by apply Hmax|]. simpl. by rewrite Es.
      * rewrite score_refl. simpl. assert (List.filter (fun c0 : T * Platform => is_compatible required c0.2 &&
            match score_cmp (compatibility_score c0.2) (compatibility_score offered) with Eq => true | _ => false end) seen = []) as ->.
        { apply filter_nil_all. intros c' Hc'. destruct (is_compatible required c'.2) eqn:Ec'; [simpl|done].
          case_match eqn:E; [|done|done]. apply (lawful_eq _ score_cmp_lawful) in E. rewrite <- E in Es.
          by destruct (Hmax c' Hc' Ec'). }
        split_and!; [done| |].
        { exists (item, offered). rewrite in_app_iff. simpl. naive_solver. }
        intros c'. rewrite in_app_iff. intros [H|[<-|[]]] Hc' E; [|by rewrite score_refl in E].
        apply (Hmax c' H Hc'). apply Hgt in E, Es. apply Hgt. by eapply (lawful_trans _ score_cmp_lawful).
    + intros (-> & Hnone). rewrite List.filter_app, map_app. simpl. rewrite Ec, score_refl. simpl.
      rewrite filter_nil_all by (intros c' Hc'; by rewrite (Hnone c' Hc')). split_and!; [done| |].
      { exists (item, offered). rewrite in_app_iff. simpl. naive_solver. }
      intros c'. rewrite in_app_iff. intros [H|[<-|[]]] Hc'; [by rewrite (Hnone c' H) in Hc'|]. simpl. by rewrite score_refl.
  - unfold select_inv. simpl. destruct best as [best|]; simpl.
    + intros (-> & (c & Hc & Hcc & Hs) & Hmax). rewrite List.filter_app. simpl. rewrite Ec. simpl. rewrite app_nil_r.
      split_and!; [done| |].
      { exists c. rewrite in_app_iff. naive_solver. }
      intros c'. rewrite in_app_iff. intros [H|[<-|[]]] Hc'; [by apply Hmax|]. simpl in Hc'. congruence.
    + intros (-> & Hnone). split; [done|]. intros c'. rewrite in_app_iff. intros [H|[<-|[]]]; [by apply Hnone|done].
Qed.

Lemma select_fold_inv candidates : forall seen acc, select_inv seen acc ->
  select_inv (seen ++ candidates) (foldl (select_step required) acc candidates).
Proof.
  induction candidates as [|c candidates IH]; intros seen acc H; simpl; [by rewrite app_nil_r|].
  replace (seen ++ c :: candidates)%list with ((seen ++ [c]) ++ candidates)%list by (by rewrite <- app_assoc).
  by apply IH, select_step_inv.
Qed.

Lemma select_items candidates :
  (foldl (select_step required) (None, []) candidates).2 = map fst (List.filter (top_offer candidates) candidates).
Proof.
  assert (select_inv [] (None, [])) as H0 by done.
  apply (select_fold_inv candidates) in H0. simpl in H0.
  destruct (foldl _ _ _) as [[best|] items]; unfold select_inv in H0; simpl in *.
  - destruct H0 as (-> & (c & Hc & Hcc & Hs) & Hmax). f_equal. apply List.filter_ext_in. intros c' Hc'. unfold top_offer.
    destruct (is_compatible required c'.2) eqn:Ec'; [simpl|done]. pose proof (Hmax c' Hc' Ec') as Hle.
    pose proof (lawful_gt _ score_cmp_lawful) as Hgt.
    destruct (score_cmp (compatibility_score c'.2) best) eqn:E; [| |done]; symmetry.
    + apply (lawful_eq _ score_cmp_lawful) in E. rewrite E. apply forallb_forall. intros d Hd.
      destruct (is_compatible required d.2) eqn:Ed; [simpl|done]. specialize (Hmax d Hd Ed). by case_match.
    + rewrite <- not_true_iff_false, forallb_forall. intros H. specialize (H c Hc). rewrite Hcc, Hs in H. simpl in H.
      rewrite (proj2 (Hgt best (compatibility_score c'.2)) E) in H. done.
  - destruct H0 as (-> & Hnone). rewrite filter_nil_all; [done|]. intros c Hc. unfold top_offer. by rewrite Hnone.
Qed.
End Select.

(** ** Properties *)

(** The canonical platform text round-trips: a well-formed platform prints to
    a text that parses back to it, parsing accepts well-formed platforms only
    (supported pair, non-empty variant, sorted duplicate-free non-empty features),
    and printing is injective on every platform up to the order and repetition
    of its features. *)
Theorem platform_text_roundtrip (p : Platform) (W : platform_wf p = true) :
  platform_from_str (platform_display p) = Ok p /\
  (forall s q, platform_from_str s = Ok q -> platform_wf q = true) /\
  (forall q r, platform_display q = platform_display r -> plat_norm q = plat_norm r).
Proof.
  split_and!; [by apply platform_from_display|apply platform_from_str_wf|apply platform_display_inj].
Qed.

Lemma platform_text_roundtrip_witness :
  platform_from_str "linux/arm64/v8%2F2+libc.glibc" = Ok (Specific Linux Arm64 (Some "v8/2") ["libc.glibc"]).
Proof.
  exact (proj1 (platform_text_roundtrip (Specific Linux Arm64 (Some "v8/2") ["libc.glibc"]) ltac:(vm_compute; reflexivity))).
Defined.

Lemma native_from_known `{U : OciSpec} (p : Platform) : native_os_text (np_os (native_from p)) <> "unknown".
Proof. by destruct p as [|[] arch v l]. Qed.

(** the conversion to the OCI platform object loses nothing but feature order
    and repetition: two platforms convert to the same object iff their normal
    forms are equal (so replacing an index entry by comparing objects finds the
    earlier entry), a supported platform converts back to its normal form, and
    the object of a platform is never the [unknown/unknown] placeholder. *)
Theorem native_platform_roundtrip `{U : OciSpec} (text : NativePlatform -> string) (p q : Platform) :
  (native_from p = native_from q <-> plat_norm p = plat_norm q) /\
  (match p with PlatAny => True | Specific os arch _ _ => supported_pair os arch = true end ->
   platform_try_from text (native_from p) = Ok (plat_norm p)) /\
  native_os_text (np_os (native_from p)) <> "unknown".
Proof.
  split_and!.
  - destruct p as [|os arch v l], q as [|os' arch' v' l']; simpl; [done|by destruct os'|by destruct os|].
    destruct (normalize_os_features l) as [|f n], (normalize_os_features l') as [|f' n'];
      (split; [intros [= ? ? ?]; simplify_eq; destruct os, os', arch, arch'; simplify_eq/=; done|naive_solver]).
  - destruct p as [|os arch v l]; [done|]. intros Hp. simpl.
    assert (normalize_os_features (default [] (match normalize_os_features l with [] => None | _ :: _ => Some (normalize_os_features l) end))
            = normalize_os_features l) as En.
    { pose proof (normalize_idem l) as Hi. destruct (normalize_os_features l); [done|exact Hi]. }
    unfold platform_try_from. simpl. unfold validate_pair. rewrite En.
    destruct os, arch; simplify_eq/=; try done; rewrite Hp; done.
  - apply native_from_known.
Qed.

(** compatibility is a preorder, an [any] offer satisfies every requirement
    and an [any] requirement only an [any] offer; and among well-formed offers the
    score is monotone, so a more demanding offer never ranks below one it
    satisfies. *)
Theorem compatibility_preorder (p q r : Platform) :
  is_compatible p p = true /\
  (is_compatible p q = true -> is_compatible q r = true -> is_compatible p r = true) /\
  (is_compatible p PlatAny = true) /\ (is_compatible PlatAny q = true -> q = PlatAny) /\
  (platform_wf q = true -> is_compatible p q = true ->
   score_cmp (compatibility_score q) (compatibility_score p) <> Gt).
Proof.
  split_and!.
  - apply is_compatible_spec. destruct p as [|os arch v l]; [by left|]. right. do 6 eexists.
    split_and!; [done|done|by right|apply incl_refl].
  - rewrite !is_compatible_spec. intros Hpq [->|Hqr]; [by left|]. right.
    destruct Hqr as (os & arch & rv & rf & ov & ofs & -> & -> & Hv & Hf).
    destruct Hpq as [?|(os' & arch' & rv' & rf' & ov' & ofs' & -> & [= <- <- <- <-] & Hv' & Hf')]; [done|].
    do 6 eexists. split_and!; [done|done|destruct Hv as [->|<-]; [by left|naive_solver]|by eapply incl_tran].
  - done.
  - intros [?|(? & ? & ? & ? & ? & ? & ? & _)]%is_compatible_spec; done.
  - apply is_compatible_score.
Qed.

(** [select_best] is exactly "the compatible offers that no compatible offer
    outranks, in order": none of them is [SelectNone], one is [Found], more are
    [Ambiguous]. *)
Theorem select_best_exact {T : Type} (required : Platform) (candidates : list (T * Platform)) :
  select_best required candidates =
  match map fst (List.filter (top_offer required candidates) candidates) with
  | [] => SelectNone
  | [item] => Found item
  | items => Ambiguous items
  end.
Proof. unfold select_best. by rewrite select_items. Qed.
