(* ===== verification/Registry.v ===== *)
(** * Registry documents and the transport interface

    The OCI documents the client exchanges with a registry
    ([crates/ocx_oci/src/manifest.rs], [oci_identifier.rs], [media_type.rs],
    [manifest_builder.rs]) and what the client asks of a transport
    ([crates/ocx_oci/src/client/transport.rs]).  The document types come from the
    OCI client library; the fields are those the code reads and writes. *)

From stdpp Require Import base decidable list option numbers strings.
From Stdlib Require Import Lia ZArith Ascii.
From S2P Require Import Prelude OMap Text Digest PackageRef Platform.
Local Open Scope ocx_scope.
Local Open Scope string_scope.

(** ** Constants *)

Definition INDEX_SCHEMA_VERSION : N := 2.
Definition MEDIA_TYPE_OCI_IMAGE_INDEX : string := "application/vnd.oci.image.index.v1+json".
Definition MEDIA_TYPE_OCI_IMAGE_MANIFEST : string := "application/vnd.oci.image.manifest.v1+json".
Definition MEDIA_TYPE_PACKAGE_V1 : string := "application/vnd.sh.ocx.package.v1".
Definition MEDIA_TYPE_PACKAGE_METADATA_V1 : string := "application/vnd.sh.ocx.package.v1+json".
Definition MEDIA_TYPE_TAR_GZ : string := "application/vnd.oci.image.layer.v1.tar+gzip".
Definition MEDIA_TYPE_TAR_XZ : string := "application/vnd.oci.image.layer.v1.tar+xz".
Definition MEDIA_TYPE_TAR_ZSTD : string := "application/vnd.oci.image.layer.v1.tar+zstd".
Definition ACCEPTED_MANIFEST_MEDIA_TYPES : list string := [MEDIA_TYPE_OCI_IMAGE_MANIFEST; MEDIA_TYPE_OCI_IMAGE_INDEX].
Definition MAX_OCI_TAG_LEN : nat := 128.
Definition I64_MAX : Z := 9223372036854775807.

(** [i64::try_from] of a length. *)
Definition i64_try_from (n : N) : option Z := if (Z.of_N n <=? I64_MAX)%Z then Some (Z.of_N n) else None.

(** ** References *)

(** [native::Reference]: what a request addresses. *)
Record Reference : Type := mkReference {
  rf_registry : string;
  rf_repository : string;
  rf_tag : option string;
  rf_digest : option string;
}.
#[export] Instance Reference_eq_dec : EqDecision Reference.
Proof. solve_decision. Defined.

(** [OciIdentifier::canonical_reference]. *)
Definition canonical_reference (id : OciIdentifier) : Reference :=
  match pr_tag id, pr_digest id with
  | Some tag, Some digest => mkReference (pr_registry id) (pr_repository id) (Some tag) (Some (digest_display digest))
  | Some tag, None => mkReference (pr_registry id) (pr_repository id) (Some tag) None
  | None, Some digest => mkReference (pr_registry id) (pr_repository id) None (Some (digest_display digest))
  | None, None => mkReference (pr_registry id) (pr_repository id) (Some "latest") None
  end.

(** [is_valid_oci_tag]: the tag grammar of the distribution specification. *)
Definition is_valid_oci_tag (tag : string) : bool :=
  match tag with
  | EmptyString => false
  | String first rest =>
      (is_alnum first || Ascii.eqb first "_") && (String.length tag <=? MAX_OCI_TAG_LEN)%nat &&
      str_forall (fun next => is_alnum next || Ascii.eqb next "." || Ascii.eqb next "_" || Ascii.eqb next "-") rest
  end.

(** ** Documents *)

Definition Annotations : Type := list (string * string).

Section Documents.
Context `{U : OciSpec}.

Record Descriptor : Type := mkDescriptor {
  de_media_type : string;
  de_digest : string;
  de_size : Z;
  de_urls : option (list string);
  de_artifact_type : option string;
  de_annotations : option Annotations;
}.

Record ImageManifest : Type := mkImageManifest {
  im_media_type : option string;
  im_artifact_type : option string;
  im_config : Descriptor;
  im_layers : list Descriptor;
  im_annotations : option Annotations;
}.

Record ImageIndexEntry : Type := mkEntry {
  en_media_type : string;
  en_digest : string;
  en_size : Z;
  en_platform : option NativePlatform;
  en_artifact_type : option string;
  en_annotations : option Annotations;
}.

Record ImageIndex : Type := mkIndex {
  ix_schema_version : N;
  ix_media_type : option string;
  ix_artifact_type : option string;
  ix_manifests : list ImageIndexEntry;
  ix_annotations : option Annotations;
}.

Inductive Manifest : Type :=
| MImage (m : ImageManifest)
| MIndex (i : ImageIndex).

(** [InvalidImageIndex]: which invariant the document violates. *)
Inductive InvalidImageIndex : Type :=
| BadSchemaVersion (v : N)
| EmptyMediaType (position : nat)
| EmptyDigest (position : nat)
| NegativeSize (position : nat) (size : Z).

(** The loop of [validate_image_index] over the entries. *)
Fixpoint validate_entries (position : nat) (entries : list ImageIndexEntry) : result InvalidImageIndex unit :=
  match entries with
  | [] => Ok tt
  | entry :: rest =>
      if String.eqb (en_media_type entry) "" then Err (EmptyMediaType position)
      else if String.eqb (en_digest entry) "" then Err (EmptyDigest position)
      else if (en_size entry <? 0)%Z then Err (NegativeSize position (en_size entry))
      else validate_entries (S position) rest
  end.

(** [validate_image_index]. *)
Definition validate_image_index (index : ImageIndex) : result InvalidImageIndex unit :=
  if negb (ix_schema_version index =? INDEX_SCHEMA_VERSION)%N then Err (BadSchemaVersion (ix_schema_version index))
  else validate_entries 0 (ix_manifests index).

(** [Platform::candidate_from_descriptor], [from_image_index], [from_manifest]. *)
Definition candidate_from_descriptor (text : NativePlatform -> string) (entry : ImageIndexEntry) : option Platform :=
  declared ← en_platform entry;
  match platform_try_from text declared with Ok p => Some p | Err _ => None end.
Definition from_image_index (text : NativePlatform -> string) (index : ImageIndex) : list Platform :=
  omap (candidate_from_descriptor text) (ix_manifests index).
Definition from_manifest (text : NativePlatform -> string) (manifest : Manifest) : list Platform :=
  match manifest with
  | MImage _ => [PlatAny]
  | MIndex index => from_image_index text index
  end.

Context `{!TotalOrd NativePlatform}.

(** [has_platform]: exact membership, not host compatibility. *)
Definition entry_has (target : NativePlatform) (entry : ImageIndexEntry) : bool :=
  match en_platform entry with Some p => ord_eqb p target | None => false end.
Definition has_platform (manifest : Manifest) (platform : Platform) : bool :=
  match manifest with
  | MImage _ => false
  | MIndex index => existsb (entry_has (native_from platform)) (ix_manifests index)
  end.

(** [platform_manifest_entry] and [platform_manifest_digest]. *)
Definition platform_manifest_entry (manifest : Manifest) (platform : Platform) : option ImageIndexEntry :=
  match manifest with
  | MImage _ => None
  | MIndex index => List.find (entry_has (native_from platform)) (ix_manifests index)
  end.
Definition platform_manifest_digest (manifest : Manifest) (platform : Platform) : option Digest :=
  entry ← platform_manifest_entry manifest platform;
  match digest_try_from (en_digest entry) with Ok d => Some d | Err _ => None end.

(** ** Errors *)

(** [enum ClientError]: the variants the client raises or tells apart.  The
    boxed library errors carry nothing the code inspects, and the rendered reason
    of an [InvalidManifest] is kept in a short form without its numbers. *)
Inductive ClientError : Type :=
| Authentication
| DigestMismatch (expected actual : string)
| InvalidManifest (reason : string)
| NotAManifest
| CE_InvalidImageIndex (e : InvalidImageIndex)
| UnexpectedManifestType
| ManifestNotFound (what : string)
| RepositoryNotFound (what : string)
| BlobNotFound (what : string)
| RegistryError
| RegistryTransient
| UnsafeDestination
| UnfollowedRedirect
| ShortBlobRead (expected actual : N)
| IoFailed (path : string)
| Serialization
| CE_Digest (e : DigestError)
| Internal
| Mirrored (origin mirror : string) (physical : Reference) (source : ClientError)
| DeleteUnsupported (registry : string)
| DeleteNeedsTag (identifier : string)
| InvalidTag (identifier : string).

(** ** The JSON codec and the hash, of the libraries the code calls *)

Class Codec := {
  Bytes : Type;
  bytes_len : Bytes -> N;
  index_to_vec : ImageIndex -> option Bytes;
  image_to_vec : ImageManifest -> option Bytes;
  manifest_from_slice : Bytes -> option Manifest;
  hash : Algorithm -> Bytes -> Digest;
}.

(** What the code relies on: an index reads back as itself, and a hash is a
    well-formed digest of its algorithm. *)
Class CodecLaws `{!Codec} := {
  index_to_vec_total : forall i, is_Some (index_to_vec i);
  index_from_slice : forall i b, index_to_vec i = Some b -> manifest_from_slice b = Some (MIndex i);
  hash_wf : forall a b, digest_wf (hash a b) = true;
  hash_algorithm : forall a b, digest_algorithm (hash a b) = a;
}.
End Documents.

(** ** The transport *)

Inductive RegistryOperation : Type := OpPull | OpPush | OpDelete.
Inductive DeleteOutcome : Type := Deleted | AlreadyAbsent.
Inductive NotFoundCode : Type := ManifestUnknown | NameUnknown | Unspecified.
Inductive ManifestPresence : Type := Present (digest : Digest) | Absent (code : NotFoundCode).
Inductive MountOutcome : Type := MountMounted | MountUploadRequired.

(** [trait OciTransport], and the one local effect of a push, reading an archive. *)
Class Transport `{U : OciSpec} `{!Codec} (W : Type) := {
  ensure_auth : Reference -> RegistryOperation -> io W ClientError unit;
  transport_list_tags : Reference -> nat -> option string -> io W ClientError (list string);
  fetch_manifest_digest : Reference -> io W ClientError string;
  pull_manifest_raw : Reference -> list string -> io W ClientError (Bytes * string);
  push_manifest_raw : Reference -> Bytes -> string -> io W ClientError string;
  push_blob : Reference -> Bytes -> Digest -> io W ClientError unit;
  head_blob : Reference -> Digest -> io W ClientError N;
  mount_blob : Reference -> string -> Digest -> io W ClientError MountOutcome;
  delete_manifest : Reference -> io W ClientError DeleteOutcome;
  probe_manifest : Reference -> io W ClientError ManifestPresence;
  read_file : string -> io W ClientError Bytes;
}.

(** ** The wire format of an index

    [crates/ocx_index/src/wire.rs]: the documents of an [index.ocx.sh]-style tree, which the
    hosted site and every local copy share, and the version gate every versioned document
    passes. *)

Definition SUPPORTED_FORMAT_VERSION : N := 1.

(** [gate_format_version]; the error carries the version it refused. *)
Definition gate_format_version (version : N) : result N unit :=
  if negb (version =? SUPPORTED_FORMAT_VERSION)%N then Err version else Ok tt.

(** [struct IndexFormatConfig], [assumed_v1]. *)
Record IndexFormatConfig : Type := mkFormatConfig { fc_format_version : N; fc_name_segments : option positive }.
Definition assumed_v1 : IndexFormatConfig := mkFormatConfig SUPPORTED_FORMAT_VERSION None.

(** [struct YankMarker], [struct RootTag], [struct IndexRoot]; a [BTreeMap] is a sorted list. *)
Record YankMarker : Type := mkYankMarker { ym_reason : string; ym_at : string }.
Record RootTag : Type := mkRootTag { rt_content : Digest; rt_yanked : option YankMarker; rt_ephemeral : bool }.
Record IndexRoot : Type := mkIndexRoot {
  ir_repository : string;
  ir_tags : list (string * RootTag);
  ir_status : option string;
  ir_deprecated_message : option string;
  ir_superseded_by : option string;
}.

(** [CatalogIndex], [struct CatalogDocument], [CatalogDocument::new], [into_packages]. *)
Definition CatalogIndex : Type := list (string * string).
Record CatalogDocument : Type := mkCatalog { cd_format_version : N; cd_packages : CatalogIndex }.
Definition catalog_document_new (packages : CatalogIndex) : CatalogDocument := mkCatalog SUPPORTED_FORMAT_VERSION packages.
Definition into_packages (document : CatalogDocument) : result N CatalogIndex :=
  let? _ := gate_format_version (cd_format_version document) in Ok (cd_packages document).

(** What OCX writes it reads back. *)
Lemma into_packages_new packages : into_packages (catalog_document_new packages) = Ok packages.
Proof. done. Qed.
