(* ===== verification/Client.v ===== *)
(** * The registry client

    [crates/ocx_oci/src/client.rs]: the read-path mirror rewrite, the canonical
    reads, the platform-aware index merge, the package push and the keep tag; and
    [client/mirror_map.rs], [manifest_builder.rs], [layer_ref.rs] and
    [layer_layout.rs] as far as a push uses them.  Progress bars and logging are
    left out; the layers of a push, which the code pushes at most four at a time,
    are pushed in order. *)

From stdpp Require Import base decidable list option numbers strings.
From Stdlib Require Import Lia ZArith Ascii.
From S2P Require Import Prelude OMap Text Digest Tag PackageRef Platform Registry.
Local Open Scope ocx_scope.
Local Open Scope string_scope.

(** ** Mirrors *)

(** [struct ParsedMirror], [struct MirrorMap]. *)
Record ParsedMirror : Type := mkMirror { mi_protocol : string; mi_host : string; mi_path_prefix : string }.
Definition MirrorMap : Type := list (string * ParsedMirror).

(** [MirrorMap::rewrite_repository]. *)
Definition rewrite_repository (mirrors : MirrorMap) (registry repository : string) : option (string * string) :=
  mirror ← om_get registry mirrors;
  Some (mi_host mirror,
        if String.eqb (mi_path_prefix mirror) "" then repository
        else if String.eqb repository "" then mi_path_prefix mirror
        else mi_path_prefix mirror +:+ "/" +:+ repository).

(** [struct Client]: the configuration the operations read. *)
Record Client : Type := mkClient { c_mirrors : MirrorMap; c_tag_chunk_size : nat }.

(** [Client::transport_reference]: the read-path rewrite. *)
Definition transport_reference (c : Client) (id : OciIdentifier) : Reference :=
  match rewrite_repository (c_mirrors c) (pr_registry id) (pr_repository id) with
  | None => canonical_reference id
  | Some (host, repository) =>
      match pr_tag id, pr_digest id with
      | Some tag, Some digest => mkReference host repository (Some tag) (Some (digest_display digest))
      | Some tag, None => mkReference host repository (Some tag) None
      | None, Some digest => mkReference host repository None (Some (digest_display digest))
      | None, None => mkReference host repository (Some "latest") None
      end
  end.

(** [enum ReadAddressing], [Client::read_reference], [Client::transport_write_reference]. *)
Inductive ReadAddressing : Type := MirroredRead | CanonicalRead.
Definition read_reference (c : Client) (id : OciIdentifier) (addressing : ReadAddressing) : Reference :=
  match addressing with
  | MirroredRead => transport_reference c id
  | CanonicalRead => canonical_reference id
  end.
Definition transport_write_reference (id : OciIdentifier) : Reference := canonical_reference id.

(** ** Layers *)

(** [struct LayerLayoutSpec] and [to_annotations]; the prefix is its wire text. *)
Record LayerLayoutSpec : Type := mkLayout { ll_strip : option N; ll_prefix : option string }.
Definition LAYER_STRIP_COMPONENTS : string := "sh.ocx.layer.strip-components".
Definition LAYER_PREFIX : string := "sh.ocx.layer.prefix".
Definition to_annotations (layout : LayerLayoutSpec) : option Annotations :=
  match ll_strip layout, ll_prefix layout with
  | None, None => None
  | strip, prefix =>
      let m := match strip with Some n => om_insert LAYER_STRIP_COMPONENTS (u32_to_string n) [] | None => [] end in
      Some (match prefix with Some p => om_insert LAYER_PREFIX p m | None => m end)
  end.

(** [enum ArchiveMediaType], [enum LayerRef]. *)
Inductive ArchiveMediaType : Type := TarGz | TarXz | TarZstd.
Definition as_media_type (t : ArchiveMediaType) : string :=
  match t with TarGz => MEDIA_TYPE_TAR_GZ | TarXz => MEDIA_TYPE_TAR_XZ | TarZstd => MEDIA_TYPE_TAR_ZSTD end.
Inductive LayerRef : Type :=
| LayerFile (path : string) (layout : LayerLayoutSpec) (mount_from : option string)
| LayerDigest (digest : Digest) (media_type : ArchiveMediaType) (layout : LayerLayoutSpec) (mount_from : option string).

(** [media_type_from_filename], [media_type_from_path]. *)
Definition ends_with (suf s : string) : bool := bool_decide (is_Some (strip_suffix suf s)).
Definition media_type_from_filename (file_name : string) : option string :=
  if ends_with ".tar.gz" file_name || ends_with ".tgz" file_name then Some MEDIA_TYPE_TAR_GZ
  else if ends_with ".tar.xz" file_name || ends_with ".txz" file_name then Some MEDIA_TYPE_TAR_XZ
  else if ends_with ".tar.zst" file_name || ends_with ".tzst" file_name || ends_with ".tar.zstd" file_name
  then Some MEDIA_TYPE_TAR_ZSTD
  else None.
(** [Path::file_name]: the last component, unless it is [..]. *)
Definition file_name (path : string) : option string :=
  name ← last (List.filter (fun s => negb (String.eqb s "" || String.eqb s ".")) (split_char "/" path));
  if String.eqb name ".." then None else Some name.
Definition media_type_from_path (path : string) : option string := file_name path ≫= media_type_from_filename.

(** [enum LayerPushOutcome], [struct LayerCounts]. *)
Inductive LayerPushOutcome : Type := Uploaded | Mounted | Verified.
Record LayerCounts : Type := mkCounts { lc_mounted : nat; lc_uploaded : nat; lc_verified : nat }.
Definition no_counts : LayerCounts := mkCounts 0 0 0.
Definition counts_record (c : LayerCounts) (outcome : LayerPushOutcome) : LayerCounts :=
  match outcome with
  | Mounted => mkCounts (S (lc_mounted c)) (lc_uploaded c) (lc_verified c)
  | Uploaded => mkCounts (lc_mounted c) (S (lc_uploaded c)) (lc_verified c)
  | Verified => mkCounts (lc_mounted c) (lc_uploaded c) (S (lc_verified c))
  end.
Definition counts_add (a b : LayerCounts) : LayerCounts :=
  mkCounts (lc_mounted a + lc_mounted b) (lc_uploaded a + lc_uploaded b) (lc_verified a + lc_verified b).

Section Client.
Context `{U : OciSpec} `{!TotalOrd NativePlatform} `{!Codec} {W : Type} `{!Transport W}.
Local Abbreviation M := (io W ClientError).

(** [Client::via_mirror]: a not-found answer is never wrapped. *)
Definition via_mirror (c : Client) (logical : OciIdentifier) (physical : Reference) (e : ClientError) : ClientError :=
  match e with
  | RegistryError | RegistryTransient | UnsafeDestination | UnfollowedRedirect | Authentication | NotAManifest
  | UnexpectedManifestType | DigestMismatch _ _ | ShortBlobRead _ _ | InvalidManifest _ | CE_InvalidImageIndex _
  | Serialization =>
      match om_get (pr_registry logical) (c_mirrors c) with
      | Some mirror =>
          if String.eqb (mi_host mirror) (rf_registry physical)
          then Mirrored (pr_registry logical) (mi_host mirror) physical e
          else e
      | None => e
      end
  | _ => e
  end.

(** [parse_registry_manifest]: the one place a manifest is decoded. *)
Definition parse_registry_manifest (bytes : Bytes) : result ClientError Manifest :=
  match manifest_from_slice bytes with
  | None => Err Serialization
  | Some (MIndex index) =>
      match validate_image_index index with
      | Ok _ => Ok (MIndex index)
      | Err e => Err (CE_InvalidImageIndex e)
      end
  | Some manifest => Ok manifest
  end.

(** [verify_raw_bytes_digest]. *)
Definition verify_raw_bytes_digest (raw_bytes : Bytes) (claimed : Digest) : result ClientError unit :=
  let recomputed := hash (digest_algorithm claimed) raw_bytes in
  if bool_decide (recomputed = claimed) then Ok tt
  else Err (DigestMismatch (digest_display claimed) (digest_display recomputed)).

(** [fetch_manifest_addressed] with its inner [fetch_manifest_raw]; [fetch_manifest]
    is its canonical form. *)
Definition fetch_manifest_raw (image : Reference) : M (Manifest * string) :=
  let! data_digest := pull_manifest_raw image ACCEPTED_MANIFEST_MEDIA_TYPES in
  let! manifest := io_of (parse_registry_manifest data_digest.1) in
  io_ret (manifest, data_digest.2).
Definition fetch_manifest_addressed (c : Client) (id : OciIdentifier) (addressing : ReadAddressing) : M (Digest * Manifest) :=
  let ref_ := read_reference c id addressing in
  let! _ := io_map_err (via_mirror c id ref_) (ensure_auth ref_ OpPull) in
  let! manifest_digest := io_map_err (via_mirror c id ref_) (fetch_manifest_raw ref_) in
  let! digest := io_of (result_map_err CE_Digest (digest_try_from manifest_digest.2)) in
  io_ret (digest, manifest_digest.1).
Definition fetch_manifest (c : Client) (id : OciIdentifier) : M (Digest * Manifest) :=
  fetch_manifest_addressed c id CanonicalRead.

(** [fetch_manifest_raw_bytes_capped]; the public forms fix the cap. *)
Definition MAX_INDEX_DOCUMENT_BYTES : N := 33554432.
Definition fetch_manifest_raw_bytes_capped (c : Client) (id : OciIdentifier) (max_bytes : N) (addressing : ReadAddressing) :
    M (option (Bytes * Digest * Manifest)) :=
  if bool_decide (is_Some (pr_tag id)) && negb (is_valid_oci_tag (default "" (pr_tag id)))
  then io_fail (InvalidTag (ref_display id))
  else
    let image := read_reference c id addressing in
    let! _ := io_map_err (via_mirror c id image) (ensure_auth image OpPull) in
    let! pulled := io_try (pull_manifest_raw image ACCEPTED_MANIFEST_MEDIA_TYPES) in
    match pulled with
    | Err (ManifestNotFound _) => io_ret None
    | Err e => io_fail (via_mirror c id image e)
    | Ok (raw_bytes, digest_str) =>
        if (max_bytes <? bytes_len raw_bytes)%N then io_fail (InvalidManifest "manifest body exceeds the cap")
        else
          let! manifest := io_of (result_map_err (via_mirror c id image) (parse_registry_manifest raw_bytes)) in
          let! digest := io_of (result_map_err (fun _ => InvalidManifest "invalid digest") (digest_try_from digest_str)) in
          if bool_decide (is_Some (pr_digest id)) && negb (bool_decide (pr_digest id = Some digest))
          then io_fail (via_mirror c id image
                 (DigestMismatch (match pr_digest id with Some d => digest_display d | None => "" end) (digest_display digest)))
          else
            let! _ := io_of (result_map_err (via_mirror c id image) (verify_raw_bytes_digest raw_bytes digest)) in
            io_ret (Some (raw_bytes, digest, manifest))
    end.
Definition fetch_manifest_raw_bytes_addressed (c : Client) (id : OciIdentifier) (addressing : ReadAddressing) :=
  fetch_manifest_raw_bytes_capped c id MAX_INDEX_DOCUMENT_BYTES addressing.

(** [probe_manifest_digest_addressed]. *)
Definition probe_manifest_digest_addressed (c : Client) (id : OciIdentifier) (addressing : ReadAddressing) : M (option Digest) :=
  let image := read_reference c id addressing in
  let! _ := io_map_err (via_mirror c id image) (ensure_auth image OpPull) in
  let! fetched := io_try (fetch_manifest_digest image) in
  match fetched with
  | Ok digest_str =>
      match digest_try_from digest_str with
      | Ok digest => io_ret (Some digest)
      | Err _ => io_fail (InvalidManifest "digest from registry HEAD is malformed")
      end
  | Err (ManifestNotFound _) => io_ret None
  | Err e => io_fail (via_mirror c id image e)
  end.

(** [paginate]: pages until one is shorter than the chunk.  [None] when the fuel
    runs out with every page full. *)
Fixpoint paginate (fuel : nat) (chunk_size : nat) (fetch : nat -> option string -> M (list string)) (items : list string) :
    M (option (list string)) :=
  match fuel with
  | O => io_ret None
  | S fuel' =>
      let! page := fetch chunk_size (match items with [] => Some "" | _ :: _ => last items end) in
      let items' := (items ++ page)%list in
      if (length page <? chunk_size)%nat then io_ret (Some items') else paginate fuel' chunk_size fetch items'
  end.

(** [list_tags_addressed] and [list_tags_or_empty_addressed]. *)
Definition list_tags_addressed (fuel : nat) (c : Client) (id : OciIdentifier) (addressing : ReadAddressing) :
    M (option (list string)) :=
  let image := read_reference c id addressing in
  let! _ := ensure_auth image OpPull in
  paginate fuel (c_tag_chunk_size c) (fun n last => transport_list_tags image n last) [].
Definition list_tags_or_empty_addressed (fuel : nat) (c : Client) (id : OciIdentifier) (addressing : ReadAddressing) :
    M (option (list string)) :=
  let! listed := io_try (list_tags_addressed fuel c id addressing) in
  match listed with
  | Err (RepositoryNotFound _) => io_ret (Some [])
  | other => io_of other
  end.

(** [Client::delete_tag], [Client::probe_manifest_canonical]. *)
Definition delete_tag (id : OciIdentifier) : M DeleteOutcome :=
  if bool_decide (pr_tag id = None) || bool_decide (is_Some (pr_digest id)) then io_fail (DeleteNeedsTag (ref_display id))
  else if negb (is_valid_oci_tag (default "" (pr_tag id))) then io_fail (InvalidTag (ref_display id))
  else
    let image := transport_write_reference id in
    let! _ := ensure_auth image OpDelete in
    delete_manifest image.
Definition probe_manifest_canonical (c : Client) (id : OciIdentifier) : M ManifestPresence :=
  if bool_decide (is_Some (pr_tag id)) && negb (is_valid_oci_tag (default "" (pr_tag id)))
  then io_fail (InvalidTag (ref_display id))
  else
    let image := read_reference c id CanonicalRead in
    let! _ := ensure_auth image OpPull in
    probe_manifest image.
End Client.

(** ** Listing a repository's tags

    [paginate] of [crates/ocx_oci/src/client.rs]: against a registry that answers
    as the distribution specification says (at most [n] tags in lexical order,
    after the given one) the loop ends, and has then read every tag once. *)

(** One page of a listing: at most [n] tags after the cursor. *)
Definition page (tags : list string) (n : nat) (after : option string) : list string :=
  firstn n (match after with Some cursor => os_range_above cursor tags | None => tags end).

(** The cursor [paginate] sends. *)
Definition cursor (items : list string) : option string := match items with [] => Some "" | _ :: _ => last items end.

Lemma range_above_all lo (l : list string) : (forall x, In x l -> lo <o x) -> os_range_above lo l = l.
Proof.
  intros Hl. unfold os_range_above. induction l as [|x l IH]; simpl; [done|].
  rewrite (proj2 (ord_ltb_lt lo x) (Hl x (or_introl eq_refl))). f_equal. apply IH. auto using in_cons.
Qed.

Lemma page_resume items rest n : os_wf (items ++ rest)%list -> ~ In "" (items ++ rest)%list ->
  page (items ++ rest)%list n (cursor items) = firstn n rest.
Proof.
  intros Hw He. unfold page, cursor. destruct items as [|x items] using rev_ind.
  - f_equal. apply range_above_all. intros t Ht. destruct t as [|c t]; [by destruct He|done].
  - clear IHitems. assert (match (items ++ [x])%list with [] => Some "" | _ :: _ => last (items ++ [x])%list end = Some x) as ->.
    { rewrite last_snoc. by destruct (items ++ [x])%list eqn:E; [destruct items|]. }
    f_equal. apply os_wf_app in Hw as (Hi & Hr & Hlt). unfold os_range_above. rewrite List.filter_app.
    rewrite filter_nil_all.
    + apply (range_above_all x). intros y Hy. apply Hlt; [apply in_app_iff; right; by left|done].
    + intros y [Hy|[<-|[]]]%in_app_iff.
      * apply os_wf_app in Hi as (_ & _ & Hi). pose proof (Hi y x Hy (or_introl eq_refl)) as Hyx.
        destruct (ord_ltb x y) eqn:E; [|done]. apply ord_ltb_lt in E. by apply (ord_asym x y) in E.
      * destruct (ord_ltb x x) eqn:E; [|done]. apply ord_ltb_lt in E. by apply ord_irrefl in E.
Qed.

Lemma paginate_resume {W : Type} (tags : list string) (n : nat)
    (fetch : nat -> option string -> io W ClientError (list string)) (w : W) :
  os_wf tags -> ~ In "" tags -> (0 < n)%nat -> (forall after, fetch n after w = (Ok (page tags n after), w)) ->
  forall fuel items rest, tags = (items ++ rest)%list -> (length rest < fuel)%nat ->
  paginate fuel n fetch items w = (Ok (Some tags), w).
Proof.
  intros Hw He Hn Hf. induction fuel as [|fuel IH]; intros items rest Ht Hlen; [lia|]. cbn [paginate].
  assert (page tags n (cursor items) = firstn n rest) as Hp by (rewrite Ht in *; by apply page_resume).
  unfold io_bind. fold (cursor items). rewrite Hf, Hp.
  destruct (Nat.ltb_spec (length (firstn n rest)) n) as [Hl|Hl]; rewrite length_firstn in Hl.
  - rewrite firstn_all2 by lia. by rewrite <- Ht.
  - apply (IH _ (skipn n rest)); [by rewrite <- app_assoc, firstn_skipn|]. rewrite length_skipn. lia.
Qed.

(** ** Properties *)

(** listing tags terminates and is complete.  Against a registry that answers
    each page with the at most [n] tags after the cursor, in lexical order,
    [paginate] ends after at most one page more than it has tags and returns every
    tag, in order, once, however the tags fall on the pages. *)
Theorem paginate_complete {W : Type} (tags : list string) (n fuel : nat)
    (fetch : nat -> option string -> io W ClientError (list string)) (w : W)
    (Hsorted : os_wf tags) (Hnonempty : ~ In "" tags) (Hn : (0 < n)%nat) (Hfuel : (length tags < fuel)%nat)
    (Hfetch : forall after, fetch n after w = (Ok (page tags n after), w)) :
  paginate fuel n fetch [] w = (Ok (Some tags), w).
Proof. by apply (paginate_resume tags n fetch w Hsorted Hnonempty Hn Hfetch fuel [] tags). Qed.

Lemma paginate_complete_witness :
  paginate 5 2 (fun n after (w : unit) => (Ok (page ["1"; "1.2"; "1.2.3"; "latest"] n after), w)) [] tt =
  (Ok (Some ["1"; "1.2"; "1.2.3"; "latest"]), tt).
Proof.
  apply (paginate_complete ["1"; "1.2"; "1.2.3"; "latest"] 2 5).
  - repeat constructor.
  - simpl. intuition discriminate.
  - lia.
  - simpl. lia.
  - done.
Defined.
