(* ===== verification/Push.v ===== *)
(** * Pushing a package

    [crates/ocx_oci/src/client.rs] from [merge_platform_into_index] on, and
    [crates/ocx_oci/src/manifest_builder.rs]: the image manifest a push writes,
    the index merge that files it under a tag for one platform, the whole-index
    push of a repair, and the keep tag. *)

From stdpp Require Import base decidable list option numbers strings.
From Stdlib Require Import Lia ZArith Ascii.
From S2P Require Import Prelude OMap Text Digest Tag PackageRef Platform Registry Client.
Local Open Scope ocx_scope.
Local Open Scope string_scope.

Section Push.
Context `{U : OciSpec} `{!TotalOrd NativePlatform} `{!Codec}.

(** ** The manifest builder *)

(** [struct ManifestBuilder] with its config blob, [struct ManifestArtifacts]. *)
Record ManifestBuilder : Type := mkBuilder {
  mb_artifact_type : option string;
  mb_config : option (string * Bytes);
  mb_layers : list Descriptor;
  mb_annotations : option Annotations;
}.
Record ManifestArtifacts : Type := mkArtifacts {
  ma_manifest : ImageManifest;
  ma_manifest_bytes : Bytes;
  ma_manifest_digest : Digest;
  ma_config_bytes : Bytes;
  ma_config_digest : Digest;
}.

Definition builder_new : ManifestBuilder := mkBuilder None None [] None.
Definition builder_artifact_type (b : ManifestBuilder) (t : string) : ManifestBuilder :=
  mkBuilder (Some t) (mb_config b) (mb_layers b) (mb_annotations b).
Definition builder_config_bytes (b : ManifestBuilder) (media_type : string) (bytes : Bytes) : ManifestBuilder :=
  mkBuilder (mb_artifact_type b) (Some (media_type, bytes)) (mb_layers b) (mb_annotations b).
Definition builder_layers (b : ManifestBuilder) (descriptors : list Descriptor) : ManifestBuilder :=
  mkBuilder (mb_artifact_type b) (mb_config b) (mb_layers b ++ descriptors)%list (mb_annotations b).

(** [ManifestBuilder::build]. *)
Definition build (b : ManifestBuilder) : result ClientError ManifestArtifacts :=
  match mb_config b with
  | None => Err (InvalidManifest "config blob is required")
  | Some (config_media_type, config_bytes) =>
      if existsb (fun d => de_size d <? 0)%Z (mb_layers b)
      then Err (InvalidManifest "blob size is invalid (must be non-negative)")
      else
        let config_digest := hash Sha256 config_bytes in
        match i64_try_from (bytes_len config_bytes) with
        | None => Err (InvalidManifest "config blob size exceeds i64::MAX")
        | Some config_size =>
            let manifest := mkImageManifest (Some MEDIA_TYPE_OCI_IMAGE_MANIFEST) (mb_artifact_type b)
                              (mkDescriptor config_media_type (digest_display config_digest) config_size None None None)
                              (mb_layers b) (mb_annotations b) in
            match image_to_vec manifest with
            | None => Err Serialization
            | Some manifest_bytes =>
                Ok (mkArtifacts manifest manifest_bytes (hash Sha256 manifest_bytes) config_bytes config_digest)
            end
        end
  end.

(** ** The index merge *)

(** The index started from when the tag does not exist. *)
Definition fresh_index : ImageIndex :=
  mkIndex INDEX_SCHEMA_VERSION (Some MEDIA_TYPE_OCI_IMAGE_INDEX) None [] None.

(** The index started from when the tag resolves to a bare image manifest. *)
Definition wrapped_index (digest_str : string) (blob_size : Z) : ImageIndex :=
  mkIndex INDEX_SCHEMA_VERSION (Some MEDIA_TYPE_OCI_IMAGE_INDEX) None
    [mkEntry MEDIA_TYPE_OCI_IMAGE_MANIFEST digest_str blob_size None None None] None.

(** What a pull of the tag gives the merge to start from. *)
Definition starting_index (pulled : result ClientError (Bytes * string)) : result ClientError ImageIndex :=
  match pulled with
  | Ok (blob, digest_str) =>
      let? existing := parse_registry_manifest blob in
      match existing with
      | MImage _ =>
          match i64_try_from (bytes_len blob) with
          | None => Err (InvalidManifest "existing manifest blob size exceeds i64::MAX")
          | Some blob_size => Ok (wrapped_index digest_str blob_size)
          end
      | MIndex index => Ok index
      end
  | Err (ManifestNotFound _) => Ok fresh_index
  | Err e => Err e
  end.

(** [entry.platform != platform], for the platform being pushed. *)
Definition other_platform (target : NativePlatform) (entry : ImageIndexEntry) : bool := negb (entry_has target entry).

(** The entry a merge files. *)
Definition pushed_entry (target : NativePlatform) (manifest_sha256 : string) (manifest_size : Z) : ImageIndexEntry :=
  mkEntry MEDIA_TYPE_OCI_IMAGE_MANIFEST manifest_sha256 manifest_size (Some target) None None.

(** The mutation of the index: fill an absent artifact type, replace the
    platform's entry, extend the annotations. *)
Definition merged_index (index : ImageIndex) (target : NativePlatform) (manifest_sha256 : string) (manifest_size : Z)
    (annotations : Annotations) : ImageIndex :=
  mkIndex (ix_schema_version index) (ix_media_type index)
    (Some (default MEDIA_TYPE_PACKAGE_V1 (ix_artifact_type index)))
    (List.filter (other_platform target) (ix_manifests index) ++ [pushed_entry target manifest_sha256 manifest_size])%list
    (match annotations with
     | [] => ix_annotations index
     | _ :: _ => Some (foldl (fun m e => om_insert e.1 e.2 m) (default [] (ix_annotations index)) annotations)
     end).

Context {W : Type} `{!Transport W}.
Local Abbreviation M := (io W ClientError).

(** The tail of [merge_platform_into_index] and all of [push_index]: serialize,
    hash, push. *)
Definition put_index (ref_ : Reference) (index : ImageIndex) : M Digest :=
  match index_to_vec index with
  | None => io_fail Serialization
  | Some index_data =>
      let index_digest := hash Sha256 index_data in
      let! _ := push_manifest_raw ref_ index_data MEDIA_TYPE_OCI_IMAGE_INDEX in
      io_ret index_digest
  end.

(** [Client::merge_platform_into_index]. *)
Definition merge_platform_into_index (source_identifier : OciIdentifier) (target_tag : string) (platform : Platform)
    (manifest_sha256 : string) (manifest_size : Z) (annotations : Annotations) : M (Digest * ImageIndex) :=
  let target_identifier := clone_with_tag source_identifier target_tag in
  let ref_ := canonical_reference target_identifier in
  let! _ := ensure_auth ref_ OpPush in
  let! pulled := io_try (pull_manifest_raw ref_ [MEDIA_TYPE_OCI_IMAGE_MANIFEST; MEDIA_TYPE_OCI_IMAGE_INDEX]) in
  let! index := io_of (starting_index pulled) in
  let index' := merged_index index (native_from platform) manifest_sha256 manifest_size annotations in
  let! index_digest := put_index ref_ index' in
  io_ret (index_digest, index').

(** [Client::push_index]. *)
Definition push_index (identifier : OciIdentifier) (index : ImageIndex) : M Digest :=
  let ref_ := canonical_reference identifier in
  let! _ := ensure_auth ref_ OpPush in
  put_index ref_ index.

(** ** The package push *)

(** [Client::try_mount_layer]: any miss or error is [false]. *)
Definition try_mount_layer (image : Reference) (mount_from : option string) (digest : Digest) : M bool :=
  match mount_from with
  | None => io_ret false
  | Some source_repository =>
      let! mounted := io_try (mount_blob image source_repository digest) in
      io_ret (match mounted with Ok MountMounted => true | _ => false end)
  end.

(** One layer of [push_multi_layer_manifest]. *)
Definition push_layer (image : Reference) (layer : LayerRef) : M (Descriptor * LayerPushOutcome) :=
  match layer with
  | LayerFile path layout mount_from =>
      match media_type_from_path path with
      | None => io_fail (InvalidManifest ("unsupported archive: " +:+ path))
      | Some package_media_type =>
          let! package_data := read_file path in
          let digest := hash Sha256 package_data in
          let! mounted := try_mount_layer image mount_from digest in
          let! outcome :=
            (if mounted : bool then io_ret Mounted
             else let! _ := push_blob image package_data digest in io_ret Uploaded) in
          match i64_try_from (bytes_len package_data) with
          | None => io_fail (InvalidManifest "blob size exceeds i64::MAX")
          | Some size =>
              io_ret (mkDescriptor package_media_type (digest_display digest) size None None (to_annotations layout), outcome)
          end
      end
  | LayerDigest digest media_type layout mount_from =>
      let! mounted := try_mount_layer image mount_from digest in
      let! size := head_blob image digest in
      match i64_try_from size with
      | None => io_fail (InvalidManifest "blob size exceeds i64::MAX")
      | Some size =>
          io_ret (mkDescriptor (as_media_type media_type) (digest_display digest) size None None (to_annotations layout),
                  if mounted : bool then Mounted else Verified)
      end
  end.

(** The layers in the caller's order. *)
Definition push_layers (image : Reference) (layers : list LayerRef) : M (list (Descriptor * LayerPushOutcome)) :=
  io_foldl (fun acc layer => let! pushed := push_layer image layer in io_ret (acc ++ [pushed])%list) [] layers.

(** [Reference::clone_with_digest]. *)
Definition reference_with_digest (image : Reference) (digest : string) : Reference :=
  mkReference (rf_registry image) (rf_repository image) None (Some digest).

(** [Client::push_multi_layer_manifest]. *)
Definition push_multi_layer_manifest (identifier : OciIdentifier) (layers : list LayerRef) (manifest : ManifestBuilder) :
    M (ImageManifest * Bytes * string * LayerCounts) :=
  let image := canonical_reference identifier in
  let! _ := ensure_auth image OpPush in
  let! layer_results := push_layers image layers in
  let layer_counts := foldl counts_record no_counts (map snd layer_results) in
  let! parts := io_of (build (builder_layers manifest (map fst layer_results))) in
  let! _ := push_blob image (ma_config_bytes parts) (ma_config_digest parts) in
  let manifest_sha256 := digest_display (ma_manifest_digest parts) in
  let! _ := push_manifest_raw (reference_with_digest image manifest_sha256) (ma_manifest_bytes parts)
              MEDIA_TYPE_OCI_IMAGE_MANIFEST in
  io_ret (ma_manifest parts, ma_manifest_bytes parts, manifest_sha256, layer_counts).

(** [Client::push_manifest_and_merge_tags]. *)
Definition push_manifest_and_merge_tags (identifier : OciIdentifier) (platform : Platform) (layers : list LayerRef)
    (extra_tags : list string) (annotations : Annotations) (manifest : ManifestBuilder) :
    M (Digest * ImageIndex * LayerCounts) :=
  let! _ := ensure_auth (canonical_reference identifier) OpPush in
  let! pushed := push_multi_layer_manifest identifier layers manifest in
  let '(_, manifest_data, manifest_sha256, layer_counts) := pushed in
  match i64_try_from (bytes_len manifest_data) with
  | None => io_fail (InvalidManifest "manifest size exceeds i64::MAX")
  | Some manifest_size =>
      let merge tag := merge_platform_into_index identifier tag platform manifest_sha256 manifest_size annotations in
      let! primary := merge (tag_or_latest identifier) in
      let! _ := io_foldl (fun _ tag => let! _ := merge tag in io_ret tt) tt extra_tags in
      io_ret (primary.1, primary.2, layer_counts)
  end.

(** [Client::push_keep_tag]. *)
Definition keep_tag_text (digest : Digest) : string :=
  KEEP_TAG_PREFIX +:+ algorithm_prefix (digest_algorithm digest) +:+ "-" +:+ digest_hex digest.
Definition push_keep_tag (source_identifier : OciIdentifier) (merged_manifest : Manifest) (platform : Platform) :
    M (option string) :=
  match platform_manifest_digest merged_manifest platform with
  | None => io_ret None
  | Some manifest_digest =>
      let tag := keep_tag_text manifest_digest in
      if (MAX_OCI_TAG_LEN <? String.length tag)%nat then io_ret None
      else
        let! _ := ensure_auth (canonical_reference source_identifier) OpPush in
        let digest_ref := canonical_reference (clone_with_digest (without_tag source_identifier) manifest_digest) in
        let! pulled := pull_manifest_raw digest_ref [MEDIA_TYPE_OCI_IMAGE_MANIFEST] in
        let tag_ref := canonical_reference (clone_with_tag source_identifier tag) in
        let! _ := push_manifest_raw tag_ref pulled.1 MEDIA_TYPE_OCI_IMAGE_MANIFEST in
        io_ret (Some tag)
  end.
End Push.
