(* ===== verification/Publish.v ===== *)
(** * Publishing with cascade

    [crates/ocx_package/src/cascade.rs], second half (which rolling tags a push
    moves, counting only the blockers that carry the pushed platform, and the
    push itself), and [crates/ocx_package/src/publisher.rs] with
    [crates/ocx_package/src/info.rs] (a push of one package over its platforms). *)

From stdpp Require Import base decidable list option numbers strings.
From Stdlib Require Import Lia ZArith Ascii.
From S2P Require Import Prelude OMap Text Version VersionText Digest Tag Cascade PackageRef Platform Registry Client Push.
Local Open Scope ocx_scope.
Local Open Scope string_scope.

(** [enum PackageError], the variants a push raises.  [RangePanic] is the panic of
    [BTreeSet::range] inside [decompose]. *)
Section Errors.
Context `{U : OciSpec}.
Inductive PackageError : Type :=
| PE_Client (e : ClientError)
| VersionInvalid (tag : string)
| PE_BuildMeta (e : BuildMetaError)
| EmptyPushSet
| RangePanic.
End Errors.

Section Publish.
Context `{U : OciSpec} `{!TotalOrd NativePlatform} `{!Codec} {W : Type} `{!Transport W}.
Local Abbreviation M := (io W PackageError).

(** The [?] that turns a client error into a package error. *)
Definition lift {A : Type} (m : io W ClientError A) : M A := io_map_err PE_Client m.

(** [has_blocking_platform]: whether any blocker carries [platform]. *)
Fixpoint has_blocking_platform (client : Client) (identifier : OciIdentifier) (blockers : list Version) (platform : Platform) :
    M bool :=
  match blockers with
  | [] => io_ret false
  | blocker :: rest =>
      let! fetched := lift (fetch_manifest client (clone_with_tag identifier (version_display blocker))) in
      if has_platform fetched.2 platform then io_ret true
      else has_blocking_platform client identifier rest platform
  end.

(** The loop of [resolve_cascade_tags] over the levels: the tags, and whether it
    ran to the end. *)
Fixpoint resolve_levels (client : Client) (identifier : OciIdentifier) (platform : Platform)
    (levels : list CascadeLevel) (tags : list string) : M (list string * bool) :=
  match levels with
  | [] => io_ret (tags, true)
  | level :: rest =>
      let! blocked := io_try (has_blocking_platform client identifier (cl_blockers level) platform) in
      match blocked with
      | Ok true => io_ret (tags, false)
      | Ok false => resolve_levels client identifier platform rest (tags ++ [version_display (cl_target level)])%list
      | Err _ => io_ret (tags, false)
      end
  end.

(** [resolve_cascade_tags]: the cascade tags without the primary one, and whether
    the version becomes [latest]. *)
Definition resolve_cascade_tags (client : Client) (identifier : OciIdentifier) (version : Version)
    (other_versions : list Version) (platform : Platform) : M (list string * bool) :=
  match decompose version other_versions with
  | None => io_fail RangePanic
  | Some decomposition =>
      let! resolved := resolve_levels client identifier platform (cd_levels decomposition) [] in
      let '(tags, complete) := resolved in
      if negb complete then io_ret (tags, false)
      else
        let! is_latest :=
          (if cd_latest_eligible decomposition then
             let! blocked := io_try (has_blocking_platform client identifier (cd_latest_blockers decomposition) platform) in
             io_ret (match blocked with Ok blocked => negb blocked | Err _ => false end)
           else io_ret false) in
        let tags := if is_latest : bool then (tags ++ [default "latest" (v_variant version)])%list else tags in
        io_ret (tags, is_latest)
  end.

(** [struct Info] and [Info::manifest_builder]; the metadata is its JSON bytes, or
    [None] when it does not serialize. *)
Record Info : Type := mkInfo { in_metadata : option Bytes; in_platform : Platform }.
Definition manifest_builder (info : Info) : result ClientError ManifestBuilder :=
  match in_metadata info with
  | None => Err Serialization
  | Some bytes =>
      Ok (builder_config_bytes (builder_artifact_type builder_new MEDIA_TYPE_PACKAGE_V1) MEDIA_TYPE_PACKAGE_METADATA_V1 bytes)
  end.

(** [struct CascadePushOutcome]. *)
Record CascadePushOutcome : Type := mkPushOutcome {
  co_index_digest : Digest;
  co_cascade_tags : list string;
  co_keep_tag : option string;
  co_platform_digest : option Digest;
  co_aliases : list string;
  co_layer_counts : LayerCounts;
}.

(** The loop that merges the platform's entry into each tag. *)
Definition merge_tags (identifier : OciIdentifier) (tags : list string) (platform : Platform) (digest : string) (size : Z)
    (annotations : Annotations) : io W ClientError unit :=
  io_foldl (fun _ tag =>
    let! _ := merge_platform_into_index identifier tag platform digest size annotations in io_ret tt) tt tags.

(** [write_default_variant_aliases]. *)
Definition write_default_variant_aliases (client : Client) (identifier : OciIdentifier) (platform : Platform)
    (merged : Manifest) (version : Version) (default_ : bool) (other_versions : option (list Version))
    (annotations : Annotations) : M (list string) :=
  if negb default_ then io_ret []
  else if bool_decide (v_variant version = None) then io_ret []
  else match platform_manifest_entry merged platform with
       | None => io_ret []
       | Some entry =>
           let bare := without_variant version in
           let! tags :=
             match other_versions with
             | Some others =>
                 let! resolved := resolve_cascade_tags client identifier bare others platform in
                 io_ret (version_display bare :: resolved.1)
             | None => io_ret [version_display bare]
             end in
           let! _ := lift (merge_tags identifier tags platform (en_digest entry) (en_size entry) annotations) in
           io_ret tags
       end.

(** [push_with_cascade]. *)
Definition push_with_cascade (client : Client) (target : OciIdentifier) (package_info : Info) (layers : list LayerRef)
    (other_versions : list Version) (version : Version) (keep_tag default_ : bool) (annotations : Annotations) :
    M CascadePushOutcome :=
  let platform := in_platform package_info in
  let! resolved := resolve_cascade_tags client target version other_versions platform in
  let cascade_tags := resolved.1 in
  let! builder := lift (io_of (manifest_builder package_info)) in
  let! pushed := lift (push_manifest_and_merge_tags target platform layers cascade_tags annotations builder) in
  let '(manifest_digest, index, layer_counts) := pushed in
  let merged := MIndex index in
  let platform_digest := platform_manifest_digest merged platform in
  let! aliases := write_default_variant_aliases client target platform merged version default_ (Some other_versions) annotations in
  let! keep_tag_written := (if keep_tag then lift (push_keep_tag target merged platform) else io_ret None) in
  io_ret (mkPushOutcome manifest_digest cascade_tags keep_tag_written platform_digest aliases layer_counts).

(** ** The publisher *)

(** [apply_build_meta]. *)
Definition apply_build_meta (target : OciIdentifier) (build_meta : option string) : result PackageError OciIdentifier :=
  match build_meta with
  | None => Ok target
  | Some build =>
      let tag := tag_or_latest target in
      match version_parse tag with
      | None => Err (VersionInvalid tag)
      | Some version =>
          match with_build version build with
          | Err e => Err (PE_BuildMeta e)
          | Ok v => Ok (clone_with_tag target (version_display v))
          end
      end
  end.

(** [struct PushOutcome]. *)
Record PushOutcome : Type := mkOutcome {
  po_primary_tag : string;
  po_manifest_digest : Digest;
  po_cascade_tags : list string;
  po_keep_tags : list string;
  po_platform_digests : list (Platform * Digest);
  po_aliases_written : list string;
  po_layer_counts : LayerCounts;
}.

(** [if !list.contains(&tag) { list.push(tag) }]. *)
Definition push_new (l : list string) (tag : string) : list string :=
  if bool_decide (tag ∈ l) then l else (l ++ [tag])%list.

(** What the loop over the platforms carries. *)
Record PushState : Type := mkPushState {
  ps_manifest_digest : option Digest;
  ps_cascade_tags : list string;
  ps_keep_tags : list string;
  ps_platform_digests : list (Platform * Digest);
  ps_aliases_written : list string;
  ps_layer_counts : LayerCounts;
}.
Definition push_start : PushState := mkPushState None [] [] [] [] no_counts.
Definition push_finish (identifier : OciIdentifier) (s : PushState) : M PushOutcome :=
  match ps_manifest_digest s with
  | None => io_fail EmptyPushSet
  | Some digest =>
      io_ret (mkOutcome (tag_or_latest identifier) digest (ps_cascade_tags s) (ps_keep_tags s) (ps_platform_digests s)
                (ps_aliases_written s) (ps_layer_counts s))
  end.

(** [Publisher::push_package]. *)
Definition push_package (target : OciIdentifier) (info : Info) (layers : list LayerRef) (annotations : Annotations) :
    M (Digest * Manifest * LayerCounts) :=
  let! builder := lift (io_of (manifest_builder info)) in
  let! pushed := lift (push_manifest_and_merge_tags target (in_platform info) layers [] annotations builder) in
  let '(index_digest, index, layer_counts) := pushed in
  io_ret (index_digest, MIndex index, layer_counts).

(** One platform of [Publisher::push]. *)
Definition push_one (client : Client) (identifier : OciIdentifier) (layers : list LayerRef) (keep_tag default_ : bool)
    (annotations : Annotations) (s : PushState) (info : Info) : M PushState :=
  let platform := in_platform info in
  let! pushed := push_package identifier info layers annotations in
  let '(digest, manifest, counts) := pushed in
  let platform_digests :=
    match platform_manifest_digest manifest platform with
    | Some d => (ps_platform_digests s ++ [(platform, d)])%list
    | None => ps_platform_digests s
    end in
  let! aliases :=
    match version_parse (tag_or_latest identifier) with
    | Some version => write_default_variant_aliases client identifier platform manifest version default_ None annotations
    | None => io_ret []
    end in
  let! kept := (if keep_tag then lift (push_keep_tag identifier manifest platform) else io_ret None) in
  io_ret (mkPushState (Some digest) (ps_cascade_tags s)
            (match kept with Some tag => push_new (ps_keep_tags s) tag | None => ps_keep_tags s end)
            platform_digests (foldl push_new (ps_aliases_written s) aliases) (counts_add (ps_layer_counts s) counts)).

(** [Publisher::push]. *)
Definition push (client : Client) (target : OciIdentifier) (infos : list Info) (layers : list LayerRef)
    (build_meta : option string) (keep_tag default_ : bool) (annotations : Annotations) : M PushOutcome :=
  let! identifier := io_of (apply_build_meta target build_meta) in
  let! s := io_foldl (push_one client identifier layers keep_tag default_ annotations) push_start infos in
  push_finish identifier s.

(** One platform of [Publisher::push_cascade]. *)
Definition push_cascade_one (client : Client) (identifier : OciIdentifier) (layers : list LayerRef)
    (existing_versions : list Version) (version : Version) (keep_tag default_ : bool) (annotations : Annotations)
    (s : PushState) (info : Info) : M PushState :=
  let! outcome := push_with_cascade client identifier info layers existing_versions version keep_tag default_ annotations in
  io_ret (mkPushState (Some (co_index_digest outcome))
            (foldl push_new (ps_cascade_tags s) (co_cascade_tags outcome))
            (match co_keep_tag outcome with Some tag => push_new (ps_keep_tags s) tag | None => ps_keep_tags s end)
            (match co_platform_digest outcome with
             | Some d => (ps_platform_digests s ++ [(in_platform info, d)])%list
             | None => ps_platform_digests s
             end)
            (foldl push_new (ps_aliases_written s) (co_aliases outcome))
            (counts_add (ps_layer_counts s) (co_layer_counts outcome))).

(** [Publisher::push_cascade]. *)
Definition push_cascade (client : Client) (target : OciIdentifier) (infos : list Info) (layers : list LayerRef)
    (existing_versions : list Version) (build_meta : option string) (keep_tag default_ : bool) (annotations : Annotations) :
    M PushOutcome :=
  let! identifier := io_of (apply_build_meta target build_meta) in
  match version_parse (tag_or_latest identifier) with
  | None => io_fail (VersionInvalid (tag_or_latest identifier))
  | Some version =>
      let! s := io_foldl (push_cascade_one client identifier layers existing_versions version keep_tag default_ annotations)
                  push_start infos in
      push_finish identifier s
  end.

(** [Publisher::parse_versions]. *)
Definition parse_versions (tags : list string) : list Version := os_of_list (omap version_parse tags).

(** The cascade branch of [ocx package push]: list the tags, then push over them.
    [None] when the listing fuel runs out. *)
Definition publish (fuel : nat) (client : Client) (target : OciIdentifier) (infos : list Info) (layers : list LayerRef)
    (build_meta : option string) (keep_tag default_ : bool) (annotations : Annotations) : M (option PushOutcome) :=
  let! existing_tags := lift (list_tags_or_empty_addressed fuel client target CanonicalRead) in
  match existing_tags with
  | None => io_ret None
  | Some existing_tags =>
      let! outcome := push_cascade client target infos layers (parse_versions existing_tags) build_meta keep_tag default_
                        annotations in
      io_ret (Some outcome)
  end.
End Publish.
