(* ===== verification/CascadeGraph.v ===== *)
(** * The tag graph: check and plan

    [crates/ocx_package/src/cascade/graph.rs], the I/O-free core of
    [ocx package cascade check|repair]: what each rolling tag should carry, how it
    differs from what the registry holds, and the index writes that repair it. *)

From stdpp Require Import base decidable list option numbers strings.
From Stdlib Require Import Lia ZArith Ascii.
From S2P Require Import Prelude OMap Text Version VersionText Digest Tag Cascade PackageRef Platform Registry.
Local Open Scope ocx_scope.
Local Open Scope string_scope.

(** ** Alias tags *)

(** [enum AliasTag], ordered by the derived [Ord]: roots first. *)
Inductive AliasTag : Type :=
| Root (variant : option string)
| AVersion (v : Version).

Definition alias_cmp (x y : AliasTag) : comparison :=
  match x, y with
  | Root a, Root b => option_cmp String.compare a b
  | Root _, AVersion _ => Lt
  | AVersion _, Root _ => Gt
  | AVersion v, AVersion w => version_cmp v w
  end.

Lemma alias_cmp_lawful : lawful alias_cmp.
Proof.
  pose proof (lawful_option _ lawful_string) as Hs. pose proof (@ord_lawful Version _) as Hv. split.
  - intros [a|v] [b|w]; simpl; try naive_solver.
    + rewrite (lawful_eq _ Hs). naive_solver.
    + rewrite (lawful_eq _ Hv). naive_solver.
  - intros [a|v] [b|w]; simpl; try done; [apply (lawful_opp _ Hs)|apply (lawful_opp _ Hv)].
  - intros [a|v] [b|w] [c|z]; simpl; try done; [apply (lawful_trans _ Hs)|apply (lawful_trans _ Hv)].
Qed.
#[export] Instance alias_ord : TotalOrd AliasTag := ord_of_lawful alias_cmp alias_cmp_lawful.

(** [AliasTag::parse], [AliasTag::track], [Display for AliasTag]. *)
Definition alias_parse (tag : string) (variants : list string) : option AliasTag :=
  match tag_from tag with
  | TagLatest => Some (Root None)
  | TagVersion version => Some (AVersion version)
  | TagOther name => if existsb (String.eqb name) variants then Some (Root (Some name)) else None
  | _ => None
  end.
Definition alias_track (a : AliasTag) : option string :=
  match a with Root variant => variant | AVersion version => v_variant version end.
Definition alias_display (a : AliasTag) : string :=
  match a with
  | Root None => "latest"
  | Root (Some variant) => variant
  | AVersion version => version_display version
  end.

(** [alias_chain]: every rolling tag that should carry a version's content. *)
Definition alias_chain (version : Version) : list AliasTag :=
  let targets := decompose_targets version in
  (map AVersion (ct_targets targets) ++
   if ct_latest_eligible targets then [Root (v_variant version)] else [])%list.

(** [alias_universe], [leaves]. *)
Definition alias_universe (versions : list Version) : list AliasTag := os_of_list (flat_map alias_chain versions).
Definition leaves (versions : list Version) : list Version :=
  let universe := alias_universe versions in
  List.filter (fun version => negb (os_mem (AVersion version) universe)) versions.

(** ** Scopes *)

(** [is_below], [path_to_root]. *)
Definition is_below (alias : AliasTag) (ancestor : Version) : bool :=
  match alias with
  | Root _ => false
  | AVersion version => existsb (ord_eqb ancestor) (ancestors version)
  end.
Definition path_to_root (version : Version) (universe : list AliasTag) : list AliasTag :=
  os_of_list (List.filter (fun alias => os_mem alias universe)
                (map AVersion (ancestors version) ++ [Root (v_variant version)])%list).

(** [enum ScopeError], [scope_request], [scope_filter]. *)
Inductive ScopeError : Type :=
| NotAVersionTag (tag : string)
| DigestReference
| UnknownTag (tag : string).
Definition scope_request (identifier : PackageRef) : result ScopeError (option AliasTag) :=
  match pr_digest identifier with
  | Some _ => Err DigestReference
  | None =>
      match pr_tag identifier with
      | None => Ok None
      | Some tag =>
          match tag_from tag with
          | TagLatest => Ok (Some (Root None))
          | TagVersion version => Ok (Some (AVersion version))
          | _ => Err (NotAVersionTag tag)
          end
      end
  end.

Definition scope_one (versions : list Version) (universe : list AliasTag) (request : option AliasTag)
    (scope : list AliasTag) : result ScopeError (list AliasTag) :=
  match request with
  | None => Ok (os_extend scope universe)
  | Some (Root variant) =>
      Ok (os_extend scope (List.filter (fun alias => bool_decide (alias_track alias = variant)) universe))
  | Some (AVersion version) =>
      let requested := AVersion version in
      if os_mem requested universe then
        let scope := os_insert requested scope in
        let scope := os_extend scope (List.filter (fun alias => is_below alias version) universe) in
        Ok (os_extend scope (path_to_root version universe))
      else if negb (os_mem version versions) then Err (UnknownTag (version_display version))
      else Ok (os_extend scope (path_to_root version universe))
  end.
Fixpoint scope_requests (versions : list Version) (universe : list AliasTag) (requests : list (option AliasTag))
    (scope : list AliasTag) : result ScopeError (list AliasTag) :=
  match requests with
  | [] => Ok scope
  | request :: rest => let? scope' := scope_one versions universe request scope in scope_requests versions universe rest scope'
  end.
Definition scope_filter (versions : list Version) (requests : list (option AliasTag)) : result ScopeError (list AliasTag) :=
  scope_requests versions (alias_universe versions) requests [].

(** ** Observations and reports *)

Section Graph.
Context `{U : OciSpec} `{!TotalOrd NativePlatform}.

(** [struct ObservedTag], [struct TagGraphObservation]; an index root is the
    digest it commits per tag. *)
Record ObservedTag : Type := mkObserved { ob_digest : Digest; ob_size : Z; ob_manifest : Manifest }.
Record TagGraphObservation : Type := mkObservation {
  ob_identifier : OciIdentifier;
  ob_logical : option PackageRef;
  ob_tags : list (AliasTag * ObservedTag);
  ob_ignored_tags : list string;
  ob_index_root : option (list (string * Digest));
}.

(** [TagGraphObservation::versions], [TagGraphObservation::index]. *)
Definition observed_versions (observation : TagGraphObservation) : list Version :=
  os_of_list (omap (fun tag => match tag with AVersion version => Some version | Root _ => None end)
                (om_keys (ob_tags observation))).
Definition observed_index (observation : TagGraphObservation) (tag : AliasTag) : option ImageIndex :=
  observed ← om_get tag (ob_tags observation);
  match ob_manifest observed with MIndex index => Some index | MImage _ => None end.

(** [struct ExpectedSlot], [type ExpectedGraph]. *)
Record ExpectedSlot : Type := mkExpected { ex_entry : ImageIndexEntry; ex_source : Version }.
Definition ExpectedGraph : Type := list (AliasTag * list (NativePlatform * ExpectedSlot)).

(** [enum SlotStatus] in its derived order, [struct SlotRow]. *)
Inductive SlotStatus : Type := SlotOk | Missing | Stale | Orphan | Duplicate.
#[export] Instance SlotStatus_eq_dec : EqDecision SlotStatus.
Proof. solve_decision. Defined.
Definition status_rank (s : SlotStatus) : N :=
  match s with SlotOk => 0 | Missing => 1 | Stale => 2 | Orphan => 3 | Duplicate => 4 end.
Record SlotRow : Type := mkRow {
  sr_tag : AliasTag;
  sr_platform : NativePlatform;
  sr_status : SlotStatus;
  sr_observed : option string;
  sr_expected : option string;
  sr_source : option Version;
  sr_observed_source : option Version;
}.

(** [enum AliasState], [enum IndexFinding], [enum Unrepairable]. *)
Inductive AliasState : Type := StPresent | StAbsent | NotAnIndex (digest : Digest).
#[export] Instance AliasState_eq_dec : EqDecision AliasState.
Proof. solve_decision. Defined.
Inductive IndexFinding : Type :=
| IndexStale (tag : AliasTag) (committed live : Digest)
| NotCommitted (tag : AliasTag).
Inductive Unrepairable : Type :=
| ChildManifestMissing (tag : AliasTag) (digest : Digest)
| ChildDigestUnaddressable (tag : AliasTag) (digest : string)
| WouldEmptyIndex (tag : AliasTag).

(** [struct CascadeReport], [CascadeReport::has_findings]. *)
Record CascadeReport : Type := mkReport {
  re_identifier : OciIdentifier;
  re_logical : option PackageRef;
  re_aliases : list (AliasTag * AliasState);
  re_rows : list SlotRow;
  re_index_findings : list IndexFinding;
  re_ignored_tags : list string;
  re_unrepairable : list Unrepairable;
}.
Definition has_findings (report : CascadeReport) : bool :=
  existsb (fun row => negb (bool_decide (sr_status row = SlotOk))) (re_rows report) ||
  existsb (fun state => negb (bool_decide (state = StPresent))) (om_values (re_aliases report)) ||
  negb (match re_index_findings report with [] => true | _ => false end).

(** [struct PlannedWrite]. *)
Record PlannedWrite : Type := mkWrite {
  pw_tag : AliasTag;
  pw_index : ImageIndex;
  pw_observed_digest : option Digest;
  pw_referenced_digests : list string;
  pw_reasons : list SlotRow;
}.

(** ** Slots *)

(** [platform_slot]: no slot for an entry without a platform or for the
    [unknown/unknown] attestation placeholder. *)
Definition platform_slot (entry : ImageIndexEntry) : option NativePlatform :=
  platform ← en_platform entry;
  if String.eqb (native_os_text (np_os platform)) "unknown" &&
     String.eqb (native_arch_text (np_architecture platform)) "unknown"
  then None else Some platform.

(** [same_descriptor]. *)
Definition same_descriptor (left_ right_ : ImageIndexEntry) : bool :=
  String.eqb (en_digest left_) (en_digest right_) && (en_size left_ =? en_size right_)%Z &&
  String.eqb (en_media_type left_) (en_media_type right_) &&
  bool_decide (en_artifact_type left_ = en_artifact_type right_) &&
  bool_decide (en_annotations left_ = en_annotations right_) &&
  bool_decide (en_platform left_ = en_platform right_).

(** [observed_slots]: the slot map, and the entries a later one shadows. *)
Definition slots_step (acc : list (NativePlatform * ImageIndexEntry) * list (NativePlatform * ImageIndexEntry))
    (entry : ImageIndexEntry) :=
  match platform_slot entry with
  | None => acc
  | Some platform =>
      (om_insert platform entry acc.1,
       match om_get platform acc.1 with
       | Some previous => (acc.2 ++ [(platform, previous)])%list
       | None => acc.2
       end)
  end.
Definition observed_slots (observation : TagGraphObservation) (alias : AliasTag) :
    list (NativePlatform * ImageIndexEntry) * list (NativePlatform * ImageIndexEntry) :=
  match observed_index observation alias with
  | None => ([], [])
  | Some index => foldl slots_step ([], []) (ix_manifests index)
  end.

(** [leaf_provenance]: the greatest leaf whose index lists the digest. *)
Definition leaf_provenance (observation : TagGraphObservation) : list ((NativePlatform * string) * Version) :=
  foldl (fun provenance leaf =>
    match observed_index observation (AVersion leaf) with
    | None => provenance
    | Some index =>
        foldl (fun provenance entry =>
          match platform_slot entry with
          | None => provenance
          | Some platform => om_insert (platform, en_digest entry) leaf provenance
          end) provenance (ix_manifests index)
    end) [] (leaves (observed_versions observation)).

(** [fold_expected]: per alias and platform, the entry of the greatest version
    that cascades there and ships it. *)
Definition expect_entry (leaf : Version) (chain : list AliasTag) (expected : ExpectedGraph) (entry : ImageIndexEntry) :
    ExpectedGraph :=
  match platform_slot entry with
  | None => expected
  | Some platform =>
      foldl (fun expected alias =>
        om_insert alias (om_insert platform (mkExpected entry leaf) (default [] (om_get alias expected))) expected)
        expected chain
  end.
Definition expect_leaf (observation : TagGraphObservation) (expected : ExpectedGraph) (leaf : Version) : ExpectedGraph :=
  match observed_index observation (AVersion leaf) with
  | None => expected
  | Some index =>
      match alias_chain leaf with
      | [] => expected
      | chain => foldl (expect_entry leaf chain) expected (ix_manifests index)
      end
  end.
Definition fold_expected (observation : TagGraphObservation) : ExpectedGraph :=
  foldl (expect_leaf observation) [] (leaves (observed_versions observation)).

(** ** The plan for one alias *)

(** [needs_write]. *)
Definition needs_write (state : AliasState) (rows : list SlotRow) : bool :=
  negb (bool_decide (state = StPresent)) ||
  existsb (fun row => match sr_status row with Missing | Stale | Duplicate => true | _ => false end) rows.

(** [planned_entries]: the whole [manifests] list the alias should carry. *)
Definition planned_entries (alias : AliasTag) (observation : TagGraphObservation) (expected : ExpectedGraph) :
    list ImageIndexEntry :=
  let slots := map (fun e => (e.1, ex_entry e.2)) (default [] (om_get alias expected)) in
  let '(slots, unplatformed) :=
    match om_get alias (ob_tags observation) with
    | None => (slots, [])
    | Some tag =>
        match ob_manifest tag with
        | MIndex index =>
            foldl (fun acc entry =>
              match platform_slot entry with
              | Some platform => (om_or_insert platform entry acc.1, acc.2)
              | None => (acc.1, (acc.2 ++ [entry])%list)
              end) (slots, []) (ix_manifests index)
        | MImage _ =>
            (slots, [mkEntry MEDIA_TYPE_OCI_IMAGE_MANIFEST (digest_display (ob_digest tag)) (ob_size tag) None None None])
        end
    end in
  (om_values slots ++ unplatformed)%list.

(** ** The diff *)

(** The verdict for one platform of an alias. *)
Definition slot_row (provenance : list ((NativePlatform * string) * Version)) (alias : AliasTag)
    (wanted : list (NativePlatform * ExpectedSlot)) (held : list (NativePlatform * ImageIndexEntry)) (platform : NativePlatform) :
    option SlotRow :=
  let want := om_get platform wanted in
  let have := om_get platform held in
  let row status :=
    Some (mkRow alias platform status (en_digest <$> have) ((fun slot => en_digest (ex_entry slot)) <$> want)
            (ex_source <$> want) (have ≫= fun entry => om_get (platform, en_digest entry) provenance)) in
  match want, have with
  | Some want, Some have => if same_descriptor (ex_entry want) have then row SlotOk else row Stale
  | Some _, None => row Missing
  | None, Some _ => row Orphan
  | None, None => None
  end.

(** The row of a shadowed entry. *)
Definition shadowed_row (provenance : list ((NativePlatform * string) * Version)) (alias : AliasTag)
    (wanted : list (NativePlatform * ExpectedSlot)) (shadowed : NativePlatform * ImageIndexEntry) : SlotRow :=
  let '(platform, entry) := shadowed in
  mkRow alias platform Duplicate (Some (en_digest entry))
    ((fun slot => en_digest (ex_entry slot)) <$> om_get platform wanted) (ex_source <$> om_get platform wanted)
    (om_get (platform, en_digest entry) provenance).

(** The key the rows of an alias are sorted by. *)
Definition row_cmp (left_ right_ : SlotRow) : comparison :=
  cmp_then (ord_cmp (sr_platform left_) (sr_platform right_))
    (cmp_then (N.compare (status_rank (sr_status left_)) (status_rank (sr_status right_)))
       (option_cmp String.compare (sr_observed left_) (sr_observed right_))).

(** What the registry holds at the alias as a whole. *)
Definition alias_state (observation : TagGraphObservation) (alias : AliasTag) : AliasState :=
  match om_get alias (ob_tags observation) with
  | None => StAbsent
  | Some tag => match ob_manifest tag with MIndex _ => StPresent | MImage _ => NotAnIndex (ob_digest tag) end
  end.

(** The rows of one alias. *)
Definition alias_rows (observation : TagGraphObservation) (expected : ExpectedGraph) (alias : AliasTag) : list SlotRow :=
  let provenance := leaf_provenance observation in
  let wanted := default [] (om_get alias expected) in
  let '(held, shadowed) := observed_slots observation alias in
  let platforms := os_of_list (om_keys wanted ++ om_keys held)%list in
  sort_by row_cmp (omap (slot_row provenance alias wanted held) platforms ++
                   map (shadowed_row provenance alias wanted) shadowed)%list.

(** [index_findings]. *)
Definition index_findings (observation : TagGraphObservation) (scope : list AliasTag) : list IndexFinding :=
  match ob_index_root observation with
  | None => []
  | Some root =>
      omap (fun alias =>
        tag ← om_get alias (ob_tags observation);
        match om_get (alias_display alias) root with
        | None => Some (NotCommitted alias)
        | Some committed =>
            if negb (bool_decide (committed = ob_digest tag)) then Some (IndexStale alias committed (ob_digest tag)) else None
        end) scope
  end.

(** One alias of the loop of [diff]. *)
Definition diff_alias (observation : TagGraphObservation) (expected : ExpectedGraph)
    (acc : list (AliasTag * AliasState) * list SlotRow * list Unrepairable) (alias : AliasTag) :=
  let '(aliases, rows, unrepairable) := acc in
  let state := alias_state observation alias in
  let arows := alias_rows observation expected alias in
  (om_insert alias state aliases, (rows ++ arows)%list,
   if needs_write state arows && match planned_entries alias observation expected with [] => true | _ => false end
   then (unrepairable ++ [WouldEmptyIndex alias])%list else unrepairable).

(** [diff]. *)
Definition diff (observation : TagGraphObservation) (expected : ExpectedGraph) (scope : list AliasTag) : CascadeReport :=
  let '(aliases, rows, unrepairable) := foldl (diff_alias observation expected) ([], [], []) scope in
  mkReport (ob_identifier observation) (ob_logical observation) aliases rows (index_findings observation scope)
    (ob_ignored_tags observation) unrepairable.

(** ** The repair plan *)

(** The index a repair writes at an alias. *)
Definition planned_index (alias : AliasTag) (observation : TagGraphObservation) (manifests : list ImageIndexEntry) : ImageIndex :=
  let index := observed_index observation alias in
  mkIndex INDEX_SCHEMA_VERSION
    (match index with Some index => ix_media_type index | None => Some MEDIA_TYPE_OCI_IMAGE_INDEX end)
    (Some (default MEDIA_TYPE_PACKAGE_V1 (index ≫= ix_artifact_type)))
    manifests (index ≫= ix_annotations).

(** [plan_repairs]. *)
Definition plan_repairs (report : CascadeReport) (observation : TagGraphObservation) (expected : ExpectedGraph) :
    list PlannedWrite :=
  omap (fun entry : AliasTag * AliasState =>
    let '(alias, state) := entry in
    let reasons := List.filter (fun row => negb (bool_decide (sr_status row = SlotOk)) && ord_eqb (sr_tag row) alias)
                     (re_rows report) in
    if negb (needs_write state reasons) then None
    else match planned_entries alias observation expected with
         | [] => None
         | manifests =>
             Some (mkWrite alias (planned_index alias observation manifests)
                     (ob_digest <$> om_get alias (ob_tags observation))
                     (os_of_list (map en_digest manifests)) reasons)
         end) (re_aliases report).
End Graph.
