(* ===== verification/CascadeFacts.v ===== *)
(** * What check computes

    Lemmas and properties of [CascadeGraph]: the fold's expectation is the entry
    of the greatest leaf that cascades into the alias, and the diff reports
    nothing exactly when every alias carries what the fold expects. *)

From stdpp Require Import base decidable list option numbers strings.
From Stdlib Require Import Lia ZArith Sorting.
From S2P Require Import Prelude OMap Text Version VersionText Digest Tag Cascade PackageRef Platform Registry CascadeGraph.
Local Open Scope ocx_scope.

Section Facts.
Context `{U : OciSpec} `{!TotalOrd NativePlatform}.
Implicit Types (o : TagGraphObservation) (a : AliasTag) (P : NativePlatform).

(** ** Slots of one index *)

(** The entry an index serves for a platform: the last one claiming the slot. *)
Definition index_slot (entries : list ImageIndexEntry) P : option ImageIndexEntry :=
  last (List.filter (fun e => bool_decide (platform_slot e = Some P)) entries).

Lemma last_app_or {A : Type} (l k : list A) : last (l ++ k) = match last k with Some x => Some x | None => last l end.
Proof.
  destruct k as [|y k] using rev_ind; [by rewrite app_nil_r|]. rewrite app_assoc, !last_snoc. done.
Qed.

Lemma index_slot_app l k P :
  index_slot (l ++ k) P = match index_slot k P with Some e => Some e | None => index_slot l P end.
Proof. unfold index_slot. by rewrite List.filter_app, last_app_or. Qed.

Lemma index_slot_cons e l P :
  index_slot (e :: l) P =
  match index_slot l P with Some e' => Some e' | None => if bool_decide (platform_slot e = Some P) then Some e else None end.
Proof. rewrite (index_slot_app [e] l). unfold index_slot at 2 3. simpl. by case_bool_decide. Qed.

Lemma index_slot_Some l P e : index_slot l P = Some e -> In e l /\ platform_slot e = Some P.
Proof.
  unfold index_slot. intros Hl. assert (In e (List.filter (fun e => bool_decide (platform_slot e = Some P)) l)) as Hi.
  { apply list_elem_of_In. by apply last_Some_elem_of. }
  apply filter_In in Hi as [? ?%bool_decide_eq_true]. done.
Qed.

Lemma slots_fold l : forall acc P,
  om_get P (foldl slots_step acc l).1 = match index_slot l P with Some e => Some e | None => om_get P acc.1 end.
Proof.
  induction l as [|e l IH]; intros acc P; simpl; [done|]. rewrite IH, index_slot_cons.
  destruct (index_slot l P); [done|]. unfold slots_step. destruct (platform_slot e) as [Q|]; simpl.
  - rewrite om_get_insert. case_bool_decide as E.
    + injection E as ->. by rewrite ord_eqb_refl.
    + destruct (ord_eqb P Q) eqn:Eq; to_prop; done.
  - done.
Qed.

Lemma slots_fold_wf l : forall acc, om_wf acc.1 -> om_wf (foldl slots_step acc l).1.
Proof.
  induction l as [|e l IH]; intros acc H; simpl; [done|]. apply IH. unfold slots_step.
  destruct (platform_slot e); simpl; [by apply om_insert_wf|done].
Qed.

(** The slots an alias holds. *)
Definition held_slot o a P : option ImageIndexEntry :=
  index ← observed_index o a; index_slot (ix_manifests index) P.

Lemma observed_slots_get o a P : om_get P (observed_slots o a).1 = held_slot o a P.
Proof.
  unfold observed_slots, held_slot. destruct (observed_index o a) as [ix|]; simpl; [|done].
  rewrite slots_fold. by destruct (index_slot _ _).
Qed.

(** ** The fold *)

(** What the fold expects at an alias for a platform. *)
Definition expected_slot (expected : ExpectedGraph) a P : option ExpectedSlot :=
  om_get P (default [] (om_get a expected)).

(** What one leaf offers an alias for a platform. *)
Definition leaf_offer o a P (leaf : Version) : option ExpectedSlot :=
  if os_mem a (alias_chain leaf)
  then (fun e => mkExpected e leaf) <$> held_slot o (AVersion leaf) P
  else None.

Lemma expected_insert a b P Q x (expected : ExpectedGraph) :
  expected_slot (om_insert b (om_insert Q x (default [] (om_get b expected))) expected) a P =
  if ord_eqb a b && ord_eqb P Q then Some x else expected_slot expected a P.
Proof.
  unfold expected_slot. rewrite om_get_insert. destruct (ord_eqb a b) eqn:Ea; simpl; [|done]. to_prop.
  rewrite om_get_insert. by destruct (ord_eqb P Q).
Qed.

Lemma expect_chain_fold chain x Q : forall (expected : ExpectedGraph) a P,
  expected_slot (foldl (fun expected alias =>
    om_insert alias (om_insert Q x (default [] (om_get alias expected))) expected) expected chain) a P =
  if os_mem a chain && ord_eqb P Q then Some x else expected_slot expected a P.
Proof.
  induction chain as [|b chain IH]; intros expected a P; simpl; [done|]. rewrite IH, expected_insert. unfold os_mem.
  destruct (ord_eqb P Q); rewrite ?andb_false_r, ?andb_true_r; [|done]. simpl.
  destruct (ord_eqb a b); simpl; [|done]. by destruct (existsb _ chain).
Qed.

Lemma expect_entries_fold leaf chain entries : forall (expected : ExpectedGraph) a P,
  expected_slot (foldl (expect_entry leaf chain) expected entries) a P =
  if os_mem a chain then
    match index_slot entries P with Some e => Some (mkExpected e leaf) | None => expected_slot expected a P end
  else expected_slot expected a P.
Proof.
  induction entries as [|e entries IH]; intros expected a P; simpl; [by destruct (os_mem a chain)|].
  rewrite IH, index_slot_cons. unfold expect_entry. destruct (platform_slot e) as [Q|].
  - rewrite expect_chain_fold. destruct (os_mem a chain); simpl; [|done]. destruct (index_slot entries P); [done|].
    destruct (ord_eqb P Q) eqn:Eq; to_prop.
    + by rewrite bool_decide_eq_true_2.
    + rewrite bool_decide_eq_false_2 by (intros [=]; congruence). done.
  - destruct (os_mem a chain); [|done]. by destruct (index_slot _ _).
Qed.

Lemma expect_leaf_slot o expected leaf a P :
  expected_slot (expect_leaf o expected leaf) a P =
  match leaf_offer o a P leaf with Some x => Some x | None => expected_slot expected a P end.
Proof.
  unfold expect_leaf, leaf_offer, held_slot. destruct (observed_index o (AVersion leaf)) as [ix|]; simpl.
  - destruct (alias_chain leaf) as [|b chain] eqn:Ec; [done|].
    rewrite expect_entries_fold. destruct (os_mem a (b :: chain)); [|done]. by destruct (index_slot _ _).
  - by destruct (os_mem a (alias_chain leaf)).
Qed.

Lemma expected_fold o ls : forall expected a P,
  expected_slot (foldl (expect_leaf o) expected ls) a P =
  match last (omap (leaf_offer o a P) ls) with Some x => Some x | None => expected_slot expected a P end.
Proof.
  induction ls as [|l ls IH]; intros expected a P; simpl; [done|]. rewrite IH, expect_leaf_slot.
  destruct (leaf_offer o a P l) as [x|]; [|done].
  rewrite last_cons. by destruct (last _).
Qed.

Lemma fold_expected_slot o a P :
  expected_slot (fold_expected o) a P = last (omap (leaf_offer o a P) (leaves (observed_versions o))).
Proof. unfold fold_expected. rewrite expected_fold. by destruct (last _). Qed.

(** ** The greatest leaf *)

Lemma omap_cons_eq {A B : Type} (f : A -> option B) x l :
  omap f (x :: l) = match f x with Some y => y :: omap f l | None => omap f l end.
Proof. done. Qed.

Lemma last_omap_some {K V : Type} (f : K -> option V) (ls : list K) :
  is_Some (last (omap f ls)) <-> exists l, In l ls /\ is_Some (f l).
Proof.
  induction ls as [|l ls IH]; [split; [by intros []|naive_solver]|]. rewrite omap_cons_eq. simpl In.
  destruct (f l) as [y|] eqn:Ef.
  - rewrite last_cons. split; [intros _; exists l; rewrite Ef; split; [by left|eauto]|].
    intros _. destruct (last _); eauto.
  - rewrite IH. split; [intros (x & ? & ?); exists x; split; [by right|done]|].
    intros (x & [<-|Hx] & Hs); [rewrite Ef in Hs; by destruct Hs|by exists x].
Qed.

Lemma last_omap_greatest {K V : Type} `{TotalOrd K} (f : K -> option V) (ls : list K) x : os_wf ls ->
  last (omap f ls) = Some x <->
  exists l, In l ls /\ f l = Some x /\ forall l', In l' ls -> l <o l' -> f l' = None.
Proof.
  intros Hw. induction Hw as [|l ls Hw IH Hl]; [naive_solver|]. rewrite List.Forall_forall in Hl.
  rewrite omap_cons_eq. simpl In.
  destruct (f l) as [y|] eqn:Ef.
  - rewrite last_cons. destruct (last (omap f ls)) as [z|] eqn:Ez.
    + split.
      * intros E. apply (proj1 IH) in E as (l0 & Hl0 & Hf & Hmax). exists l0. split_and!; [by right|done|].
        intros l' [<-|Hl'] Hlt; [|by apply Hmax]. exfalso. by apply (ord_asym l l0); [apply Hl|].
      * intros (l0 & [<-|Hl0] & Hf & Hmax).
        -- exfalso. destruct (proj1 (last_omap_some f ls) (ex_intro _ z Ez)) as (l1 & Hl1 & Hs).
           rewrite (Hmax l1 (or_intror Hl1) (Hl l1 Hl1)) in Hs. by destruct Hs.
        -- apply IH. exists l0. split_and!; [done|done|]. intros l' Hl'. apply Hmax. by right.
    + assert (forall l', In l' ls -> f l' = None) as Hnone.
      { intros l' Hl'. destruct (f l') eqn:E; [|done]. exfalso.
        destruct (proj2 (last_omap_some f ls)) as [? Hz]; [eauto|]. by rewrite Ez in Hz. }
      split.
      * intros [= <-]. exists l. split_and!; [by left|done|]. intros l' [<-|Hl'] Hlt; [by apply ord_irrefl in Hlt|by apply Hnone].
      * intros (l0 & [<-|Hl0] & Hf & _); [congruence|]. by rewrite Hnone in Hf.
  - rewrite IH. split.
    + intros (l0 & Hl0 & Hf & Hmax). exists l0. split_and!; [by right|done|]. intros l' [<-|Hl'] Hlt; [done|by apply Hmax].
    + intros (l0 & [<-|Hl0] & Hf & Hmax); [congruence|]. exists l0. split_and!; [done|done|]. intros l' Hl'. apply Hmax. by right.
Qed.

Lemma leaves_wf versions : os_wf versions -> os_wf (leaves versions).
Proof. apply os_filter_wf. Qed.

Lemma leaf_offer_Some o a P leaf e s : leaf_offer o a P leaf = Some (mkExpected e s) <->
  s = leaf /\ In a (alias_chain leaf) /\ held_slot o (AVersion leaf) P = Some e.
Proof.
  unfold leaf_offer. rewrite <- os_mem_In. destruct (os_mem a (alias_chain leaf)); [|naive_solver].
  rewrite fmap_Some. naive_solver.
Qed.

Lemma leaf_offer_None o a P leaf : leaf_offer o a P leaf = None <->
  (In a (alias_chain leaf) -> held_slot o (AVersion leaf) P = None).
Proof.
  unfold leaf_offer. rewrite <- os_mem_In. destruct (os_mem a (alias_chain leaf)); [|naive_solver].
  rewrite fmap_None. naive_solver.
Qed.

Lemma expected_slot_Some o a P e s : expected_slot (fold_expected o) a P = Some (mkExpected e s) <->
  In s (leaves (observed_versions o)) /\ In a (alias_chain s) /\ held_slot o (AVersion s) P = Some e /\
  forall s', In s' (leaves (observed_versions o)) -> s <o s' -> In a (alias_chain s') -> held_slot o (AVersion s') P = None.
Proof.
  assert (os_wf (leaves (observed_versions o))) as Hw by (apply leaves_wf, os_of_list_wf).
  rewrite fold_expected_slot, (last_omap_greatest _ _ _ Hw). split.
  - intros (l & Hl & (-> & Ha & Hh)%leaf_offer_Some & Hmax). split_and!; [done|done|done|].
    intros s' Hs' Hlt. by apply leaf_offer_None, Hmax.
  - intros (Hs & Ha & Hh & Hmax). exists s. split_and!; [done|by apply leaf_offer_Some|].
    intros s' Hs' Hlt. apply leaf_offer_None. by apply Hmax.
Qed.

(** ** Duplicates *)

Lemma slots_fold_shadowed l : forall acc,
  (foldl slots_step acc l).2 = [] <->
  acc.2 = [] /\ List.NoDup (omap platform_slot l) /\ forall P, In P (omap platform_slot l) -> om_get P acc.1 = None.
Proof.
  induction l as [|e l IH]; intros acc; simpl.
  - split; [|tauto]. intros. split_and!; [done|constructor|done].
  - rewrite IH. unfold slots_step. destruct (platform_slot e) as [Q|] eqn:E; simpl; [|done].
    setoid_rewrite om_get_insert. split.
    + intros (H1 & H2 & H3).
      assert (om_get Q acc.1 = None) as HQ by (destruct (om_get Q acc.1); [by destruct acc.2|done]).
      rewrite HQ in H1. split_and!; [done| |].
      * constructor; [|done]. intros HQ'%H3. by rewrite ord_eqb_refl in HQ'.
      * intros P [<-|HP]; [done|]. specialize (H3 P HP). by destruct (ord_eqb P Q).
    + intros (H1 & H2 & H3). apply NoDup_cons_iff in H2 as [H2 H4]. rewrite (H3 Q (or_introl eq_refl)).
      split_and!; [done|done|]. intros P HP. destruct (ord_eqb P Q) eqn:EP; to_prop; [done|]. apply H3. by right.
Qed.

(** The platform slots of an alias's index are claimed once each. *)
Definition no_duplicates o a : Prop :=
  forall index, observed_index o a = Some index -> List.NoDup (omap platform_slot (ix_manifests index)).

Lemma observed_slots_shadowed o a : (observed_slots o a).2 = [] <-> no_duplicates o a.
Proof.
  unfold observed_slots, no_duplicates. destruct (observed_index o a) as [ix|]; [|naive_solver].
  rewrite slots_fold_shadowed. simpl. naive_solver.
Qed.

(** ** The rows *)

Lemma same_descriptor_eq e e' : same_descriptor e e' = true <-> e = e'.
Proof.
  unfold same_descriptor. rewrite !andb_true_iff, !String.eqb_eq, Z.eqb_eq, !bool_decide_eq_true.
  destruct e, e'; simpl. naive_solver.
Qed.

Lemma slot_row_status o a (wanted : list (NativePlatform * ExpectedSlot)) held P row prov :
  slot_row prov a wanted held P = Some row ->
  sr_tag row = a /\ sr_platform row = P /\
  (sr_status row = SlotOk <-> exists w h, om_get P wanted = Some w /\ om_get P held = Some h /\ ex_entry w = h).
Proof.
  unfold slot_row. destruct (om_get P wanted) as [w|], (om_get P held) as [h|]; simpl; try done.
  - destruct (same_descriptor (ex_entry w) h) eqn:E; intros [= <-]; simpl.
    + apply same_descriptor_eq in E. naive_solver.
    + split_and!; [done|done|]. split; [done|]. intros (w' & h' & [= <-] & [= <-] & E').
      apply same_descriptor_eq in E'. congruence.
  - intros [= <-]; simpl. naive_solver.
  - intros [= <-]; simpl. naive_solver.
Qed.

(** The rows of an alias are all [Ok] iff every slot carries what is wanted and
    nothing is shadowed. *)
Lemma alias_rows_ok o expected a :
  (forall row, In row (alias_rows o expected a) -> sr_status row = SlotOk) <->
  no_duplicates o a /\ forall P, held_slot o a P = ex_entry <$> expected_slot expected a P.
Proof.
  unfold alias_rows. rewrite <- observed_slots_shadowed. setoid_rewrite <- observed_slots_get.
  unfold expected_slot. set (wanted := default [] (om_get a expected)).
  destruct (observed_slots o a) as [held shadowed]; simpl. setoid_rewrite sort_by_In. setoid_rewrite in_app_iff. split.
  - intros H. split.
    + destruct shadowed as [|sh shadowed]; [done|].
      specialize (H (shadowed_row (leaf_provenance o) a wanted sh)). destruct sh as [Q e].
      by discriminate H; right; left.
    + intros P. destruct (om_get P wanted) as [w|] eqn:Ew, (om_get P held) as [h|] eqn:Eh; simpl; [| | |done].
      all: assert (In P (os_of_list (om_keys wanted ++ om_keys held))) as HP
        by (apply os_of_list_In, in_app_iff; rewrite <- !om_get_In_fst, Ew, Eh; eauto).
      all: assert (exists row, slot_row (leaf_provenance o) a wanted held P = Some row) as [row Hrow]
        by (unfold slot_row; rewrite Ew, Eh; try destruct (same_descriptor _ _); eauto).
      all: destruct (slot_row_status o a wanted held P row _ Hrow) as (_ & _ & Hst).
      all: rewrite Ew, Eh in Hst; destruct (proj1 Hst) as (? & ? & ? & ? & ?); simplify_eq; try done.
      all: apply H; left; apply list_elem_of_In, list_elem_of_omap; exists P; split; [by apply list_elem_of_In|done].
  - intros [-> H] row [Hrow|[]]. apply list_elem_of_In, list_elem_of_omap in Hrow as (P & _ & Hrow).
    apply (slot_row_status o a wanted held P row _ Hrow). specialize (H P).
    unfold slot_row in Hrow. destruct (om_get P wanted) as [w|], (om_get P held) as [h|]; simplify_eq/=. by exists w, (ex_entry w).
Qed.

(** ** The diff *)

Lemma diff_fold o expected scope : forall acc,
  let result := foldl (diff_alias o expected) acc scope in
  result.1.2 = acc.1.2 ++ flat_map (alias_rows o expected) scope /\
  (om_wf acc.1.1 -> om_wf result.1.1) /\
  (forall a, om_get a result.1.1 = if os_mem a scope then Some (alias_state o a) else om_get a acc.1.1).
Proof.
  induction scope as [|b scope IH]; intros [[aliases rows] unrep]; [simpl; by rewrite app_nil_r|].
  cbn [foldl flat_map]. destruct (IH (diff_alias o expected (aliases, rows, unrep) b)) as (H1 & H2 & H3). split_and!.
  - rewrite H1. simpl. by rewrite <- app_assoc.
  - intros. apply H2. by apply om_insert_wf.
  - intros a. rewrite H3. unfold diff_alias. simpl. rewrite om_get_insert. unfold os_mem. simpl.
    destruct (ord_eqb a b) eqn:E; simpl; [|done]. to_prop. by destruct (existsb _ scope).
Qed.

Lemma om_values_In {K V : Type} `{TotalOrd K} (m : list (K * V)) v : om_wf m ->
  (In v (om_values m) <-> exists k, om_get k m = Some v).
Proof.
  intros Hw. unfold om_values. rewrite in_map_iff. split.
  - intros ([k v'] & <- & Hin). exists k. by apply om_get_In.
  - intros (k & Hk%om_get_In); [|done]. by exists (k, v).
Qed.

Lemma diff_parts o expected scope :
  let report := diff o expected scope in
  re_rows report = flat_map (alias_rows o expected) scope /\ om_wf (re_aliases report) /\
  (forall a, om_get a (re_aliases report) = if os_mem a scope then Some (alias_state o a) else None) /\
  re_index_findings report = index_findings o scope.
Proof.
  unfold diff. pose proof (diff_fold o expected scope ([], [], [])) as H. simpl in H.
  destruct (foldl (diff_alias o expected) ([], [], []) scope) as [[aliases rows] unrep]. simpl in *.
  destruct H as (H1 & H2 & H3). split_and!; [done|apply H2; constructor|done|done].
Qed.

Lemma alias_state_present o a : alias_state o a = StPresent <-> is_Some (observed_index o a).
Proof.
  unfold alias_state, observed_index. destruct (om_get a (ob_tags o)) as [tag|]; simpl; [|split; [done|by intros []]].
  destruct (ob_manifest tag); [split; [done|by intros []]|]. split; [eauto|done].
Qed.

Lemma existsb_false_forall {A : Type} (f : A -> bool) l : existsb f l = false <-> forall x, In x l -> f x = false.
Proof.
  split; [intros H x Hx; by apply (existsb_false_In f l x H)|]. intros H. apply not_true_is_false.
  intros (x & Hx & Hf)%existsb_exists. by rewrite H in Hf.
Qed.

(** What a clean report says of each alias. *)
Definition alias_clean o a : Prop :=
  is_Some (observed_index o a) /\ no_duplicates o a /\
  forall P, held_slot o a P = ex_entry <$> expected_slot (fold_expected o) a P.

Lemma diff_clean o scope : has_findings (diff o (fold_expected o) scope) = false <->
  index_findings o scope = [] /\ forall a, In a scope -> alias_clean o a.
Proof.
  unfold has_findings. destruct (diff_parts o (fold_expected o) scope) as (Hrows & Hwf & Hget & Hidx).
  rewrite Hrows, Hidx, !orb_false_iff, !existsb_false_forall, negb_false_iff. split.
  - intros [[H1 H2] H3]. split; [by destruct (index_findings o scope)|]. intros a Ha. split.
    + apply alias_state_present. specialize (H2 (alias_state o a)). rewrite negb_false_iff, bool_decide_eq_true in H2.
      apply H2. apply om_values_In; [done|]. exists a. rewrite Hget. by rewrite (proj2 (os_mem_In a scope) Ha).
    + apply alias_rows_ok. intros row Hr. specialize (H1 row). rewrite negb_false_iff, bool_decide_eq_true in H1. apply H1.
      apply in_flat_map. eauto.
  - intros [-> H]. split_and!; [| |done].
    + intros row (a & Ha & Hr)%in_flat_map. rewrite negb_false_iff, bool_decide_eq_true.
      destruct (H a Ha) as (_ & Hc). by apply (proj2 (alias_rows_ok o _ a)) in Hr.
    + intros st (a & Hst)%om_values_In; [|done]. rewrite Hget in Hst.
      destruct (os_mem a scope) eqn:Em; [|done]. apply os_mem_In in Em. injection Hst as <-.
      rewrite negb_false_iff, bool_decide_eq_true. apply alias_state_present. by apply H.
Qed.

End Facts.

(** ** Properties *)

(** [fold_expected] is a maximum: the slot it expects at an alias for a
    platform is the entry of the greatest leaf version that cascades into the
    alias and whose index serves the platform, and it expects nothing when there
    is no such leaf. *)
Theorem fold_expected_greatest `{U : OciSpec} `{!TotalOrd NativePlatform}
    (o : TagGraphObservation) (a : AliasTag) (P : NativePlatform) (e : ImageIndexEntry) (s : Version) :
  (expected_slot (fold_expected o) a P = Some (mkExpected e s) <->
   In s (leaves (observed_versions o)) /\ In a (alias_chain s) /\ held_slot o (AVersion s) P = Some e /\
   forall s', In s' (leaves (observed_versions o)) -> version_cmp s s' = Lt -> In a (alias_chain s') ->
     held_slot o (AVersion s') P = None) /\
  (expected_slot (fold_expected o) a P = None <->
   forall s', In s' (leaves (observed_versions o)) -> In a (alias_chain s') -> held_slot o (AVersion s') P = None).
Proof.
  split; [apply expected_slot_Some|]. rewrite fold_expected_slot, eq_None_not_Some, last_omap_some. split.
  - intros H s' Hs'. apply leaf_offer_None, eq_None_not_Some. eauto.
  - intros H (l & Hl & Hs). apply eq_None_not_Some in Hs; [done|]. by apply leaf_offer_None, H.
Qed.

(** [check] reports nothing exactly when, for every alias of the scope, the
    registry serves an index there, each platform slot is claimed once, and every
    slot carries, descriptor for descriptor, what the fold expects and nothing
    else; and no index finding stands. *)
Theorem check_clean_exact `{U : OciSpec} `{!TotalOrd NativePlatform} (o : TagGraphObservation) (scope : list AliasTag) :
  has_findings (diff o (fold_expected o) scope) = false <->
  index_findings o scope = [] /\
  forall a, In a scope ->
    exists index, observed_index o a = Some index /\ List.NoDup (omap platform_slot (ix_manifests index)) /\
      forall P, held_slot o a P = ex_entry <$> expected_slot (fold_expected o) a P.
Proof.
  rewrite diff_clean. unfold alias_clean, no_duplicates. split; intros [H1 H2]; (split; [done|]); intros a Ha.
  - destruct (H2 a Ha) as ([ix Hix] & Hd & Hs). eauto.
  - destruct (H2 a Ha) as (ix & Hix & Hd & Hs). split_and!; [eauto| |done]. intros ix' Hix'. congruence.
Qed.
