(* ===== verification/CascadeRepair.v ===== *)
(** * What repair plans

    Properties of [planned_entries] and [plan_repairs] ([CascadeGraph]): a planned
    index leaves no missing, stale or duplicate slot and keeps what the alias
    carried; an alias of the scope without a planned write needs none.  What
    applying the plan does is in [CheckSpec]. *)

From stdpp Require Import base decidable list option numbers strings.
From Stdlib Require Import Lia ZArith Sorting.
From S2P Require Import Prelude OMap Text Version VersionText Digest Tag Cascade PackageRef Platform Registry CascadeGraph CascadeFacts.
Local Open Scope ocx_scope.

(** ** The universe is closed under chains *)

Lemma alias_chain_In v a : In a (alias_chain v) <->
  (exists b, a = AVersion b /\ In b (ct_targets (decompose_targets v))) \/
  (a = Root (v_variant v) /\ has_prerelease v = false).
Proof.
  unfold alias_chain. rewrite in_app_iff, in_map_iff.
  assert (ct_latest_eligible (decompose_targets v) = negb (has_prerelease v)) as ->.
  { unfold decompose_targets. by destruct (has_prerelease v), (has_build v). }
  destruct (has_prerelease v); simpl; naive_solver.
Qed.

Lemma targets_trans s b c : In b (ct_targets (decompose_targets s)) -> In c (ct_targets (decompose_targets b)) ->
  In c (ct_targets (decompose_targets s)).
Proof.
  intros Hb Hc. pose proof (decompose_targets_In s b Hb) as [Hbs Hpb]. pose proof (decompose_targets_In b c Hc) as [Hcb Hpc].
  destruct (has_prerelease s) eqn:Ep.
  - exfalso. revert Hc. unfold decompose_targets. rewrite Hpb. simpl.
    rewrite (below_no_build b s Hbs). simpl. done.
  - apply decompose_targets_stable; [done|]. by eapply below_trans.
Qed.

Lemma chain_closed s b a : In (AVersion b) (alias_chain s) -> In a (alias_chain b) -> In a (alias_chain s).
Proof.
  rewrite !alias_chain_In. intros [(b' & [= <-] & Hb)|[? _]]; [|done].
  pose proof (decompose_targets_In s b Hb) as [Hbs Hp].
  intros [(c & -> & Hc)|[-> Hpb]]; [left; exists c; split; [done|by eapply targets_trans]|].
  right. rewrite Hpb in Hp. by rewrite (below_variant b s Hbs).
Qed.

Lemma alias_universe_In versions a : In a (alias_universe versions) <-> exists v, In v versions /\ In a (alias_chain v).
Proof. unfold alias_universe. rewrite os_of_list_In, in_flat_map. done. Qed.

(** Adding alias versions changes neither the universe nor the leaves. *)
Lemma universe_extend versions versions' :
  (forall v, In v versions -> In v versions') ->
  (forall v, In v versions' -> In v versions \/ In (AVersion v) (alias_universe versions)) ->
  (forall a, In a (alias_universe versions') <-> In a (alias_universe versions)).
Proof.
  intros H1 H2 a. rewrite !alias_universe_In. split; [|naive_solver].
  intros (v & Hv & Ha). destruct (H2 v Hv) as [?|Hu]; [by exists v|].
  apply alias_universe_In in Hu as (s & Hs & Hsv). exists s. split; [done|by eapply chain_closed].
Qed.

Lemma leaves_extend versions versions' : os_wf versions -> os_wf versions' ->
  (forall v, In v versions -> In v versions') ->
  (forall v, In v versions' -> In v versions \/ In (AVersion v) (alias_universe versions)) ->
  leaves versions' = leaves versions.
Proof.
  intros W W' H1 H2. pose proof (universe_extend _ _ H1 H2) as Hu.
  apply os_ext; [by apply leaves_wf|by apply leaves_wf|]. intros v. unfold leaves. rewrite !filter_In, !negb_true_iff.
  assert (os_mem (AVersion v) (alias_universe versions') = os_mem (AVersion v) (alias_universe versions)) as ->.
  { apply eq_true_iff_eq. by rewrite !os_mem_In. }
  rewrite <- not_true_iff_false, os_mem_In. split; [|naive_solver].
  intros [Hv Hn]. destruct (H2 v Hv); [done|done].
Qed.

Section Repair.
Context `{U : OciSpec} `{!TotalOrd NativePlatform}.
Implicit Types (o : TagGraphObservation) (a : AliasTag) (P : NativePlatform).

(** ** Maps whose entries sit under their own platform *)

Definition slot_map (m : list (NativePlatform * ImageIndexEntry)) : Prop :=
  om_wf m /\ forall P e, om_get P m = Some e -> platform_slot e = Some P.

Lemma slot_map_values m : slot_map m ->
  omap platform_slot (om_values m) = om_keys m /\ forall P, index_slot (om_values m) P = om_get P m.
Proof.
  intros [Hw Hs]. assert (forall P e, In (P, e) m -> platform_slot e = Some P) as Hin.
  { intros P e He. apply Hs. by apply om_get_In. }
  clear Hs. induction m as [|[Q e] m IH]; [done|]. unfold om_wf, os_wf in Hw. simpl in Hw.
  apply StronglySorted_inv in Hw as [Hw HQ]. destruct IH as [IH1 IH2]; [done|intros; apply Hin; by right|].
  pose proof (Hin Q e (or_introl eq_refl)) as He. split.
  - change (om_values ((Q, e) :: m)) with (e :: om_values m). rewrite omap_cons_eq, He, IH1. done.
  - intros P. change (om_values ((Q, e) :: m)) with (e :: om_values m). rewrite index_slot_cons, IH2, He. simpl.
    destruct (ord_eqb P Q) eqn:E; to_prop.
    + rewrite (proj2 (om_get_None Q m)); [by rewrite bool_decide_eq_true_2|].
      intros H. rewrite List.Forall_forall in HQ. by apply HQ, ord_irrefl in H.
    + rewrite bool_decide_eq_false_2 by congruence. by destruct (om_get P m).
Qed.

Lemma index_slot_none (l : list ImageIndexEntry) P : (forall e, In e l -> platform_slot e = None) -> index_slot l P = None.
Proof.
  intros H. unfold index_slot. rewrite filter_nil_all; [done|]. intros e He. rewrite (H e He). by apply bool_decide_eq_false_2.
Qed.

Lemma omap_none {A B : Type} (f : A -> option B) l : (forall x, In x l -> f x = None) -> omap f l = [].
Proof. induction l as [|x l IH]; intros H; [done|]. rewrite omap_cons_eq, (H x (or_introl eq_refl)). apply IH. auto using in_cons. Qed.

(** The first entry claiming a slot: what a repair keeps of an orphan. *)
Definition first_slot (entries : list ImageIndexEntry) P : option ImageIndexEntry :=
  List.find (fun e => bool_decide (platform_slot e = Some P)) entries.

(** The loop of [planned_entries] over the served index. *)
Definition plan_step (acc : list (NativePlatform * ImageIndexEntry) * list ImageIndexEntry) (entry : ImageIndexEntry) :=
  match platform_slot entry with
  | Some platform => (om_or_insert platform entry acc.1, acc.2)
  | None => (acc.1, acc.2 ++ [entry])
  end.

Lemma om_get_or_insert {K V : Type} `{TotalOrd K} k k' (v : V) m :
  om_get k' (om_or_insert k v m) = match om_get k' m with Some x => Some x | None => if ord_eqb k' k then Some v else None end.
Proof.
  unfold om_or_insert. destruct (om_get k m) as [x|] eqn:E.
  - destruct (om_get k' m) eqn:E'; [done|]. destruct (ord_eqb k' k) eqn:Ek; [|done]. apply ord_eqb_eq in Ek as ->. congruence.
  - rewrite om_get_insert. destruct (ord_eqb k' k) eqn:Ek; [apply ord_eqb_eq in Ek as ->; by rewrite E|]. by destruct (om_get k' m).
Qed.

#[local] Arguments first_slot : simpl never.
#[local] Arguments platform_slot : simpl never.

Lemma first_slot_cons e l P :
  first_slot (e :: l) P = if bool_decide (platform_slot e = Some P) then Some e else first_slot l P.
Proof. done. Qed.

Lemma plan_fold entries : forall acc,
  slot_map acc.1 -> (forall e, In e acc.2 -> platform_slot e = None) ->
  let r := foldl plan_step acc entries in
  slot_map r.1 /\ (forall e, In e r.2 -> platform_slot e = None) /\
  (forall P, om_get P r.1 = match om_get P acc.1 with Some e => Some e | None => first_slot entries P end) /\
  (forall e, In e r.2 <-> In e acc.2 \/ In e entries /\ platform_slot e = None).
Proof.
  induction entries as [|e entries IH]; intros acc Hm Hu; simpl.
  - split_and!; [done|done|intros P; by destruct (om_get P acc.1)|naive_solver].
  - set (acc' := plan_step acc e). assert (acc' = plan_step acc e) as Eacc by done. clearbody acc'.
    unfold plan_step in Eacc. destruct (platform_slot e) as [Q|] eqn:E.
    + subst acc'. destruct (IH (om_or_insert Q e acc.1, acc.2)) as (H1 & H2 & H3 & H4); [|done|].
      { split; [apply om_or_insert_wf, Hm|]. simpl. intros P x. rewrite om_get_or_insert.
        destruct (om_get P acc.1) as [y|] eqn:Ey; [intros [= <-]; by apply Hm|].
        destruct (ord_eqb P Q) eqn:EP; to_prop; naive_solver. }
      split_and!; [done|done| |].
      * intros P. rewrite H3. simpl. rewrite om_get_or_insert. rewrite first_slot_cons, E.
        destruct (om_get P acc.1); [done|]. destruct (ord_eqb P Q) eqn:EP; to_prop.
        { by rewrite bool_decide_eq_true_2. }
        by rewrite bool_decide_eq_false_2 by congruence.
      * intros x. rewrite H4. simpl. naive_solver.
    + subst acc'. destruct (IH (acc.1, acc.2 ++ [e])) as (H1 & H2 & H3 & H4); [done| |].
      { simpl. intros x. rewrite in_app_iff. intros [?|[<-|[]]]; auto. }
      split_and!; [done|done| |].
      * intros P. rewrite H3. simpl. rewrite first_slot_cons, E. by rewrite bool_decide_eq_false_2.
      * intros x. rewrite H4. simpl. rewrite in_app_iff. simpl. naive_solver.
Qed.

(** ** The expected slots of an alias, as a map *)

Definition inner_wf (expected : ExpectedGraph) : Prop := forall a, om_wf (default [] (om_get a expected)).

Lemma inner_wf_insert a P x (expected : ExpectedGraph) : inner_wf expected ->
  inner_wf (om_insert a (om_insert P x (default [] (om_get a expected))) expected).
Proof.
  intros H b. rewrite om_get_insert. destruct (ord_eqb b a); [|apply H]. simpl. apply om_insert_wf, H.
Qed.

Lemma foldl_preserves {A B : Type} (Q : B -> Prop) (f : B -> A -> B) (l : list A) b :
  Q b -> (forall b x, Q b -> Q (f b x)) -> Q (foldl f b l).
Proof. intros Hb Hf. revert b Hb. induction l as [|x l IH]; intros b Hb; simpl; auto. Qed.

Lemma fold_expected_inner o : inner_wf (fold_expected o).
Proof.
  unfold fold_expected. apply foldl_preserves; [intros a; constructor|]. intros expected leaf H. unfold expect_leaf.
  destruct (observed_index o (AVersion leaf)) as [ix|]; [|done]. destruct (alias_chain leaf) as [|b chain]; [done|].
  apply foldl_preserves; [done|]. intros expected' e H'. unfold expect_entry. destruct (platform_slot e); [|done].
  apply foldl_preserves; [done|]. intros. by apply inner_wf_insert.
Qed.

Lemma expected_slot_platform o a P x : expected_slot (fold_expected o) a P = Some x -> platform_slot (ex_entry x) = Some P.
Proof.
  rewrite fold_expected_slot. intros (l & _ & Hl)%last_Some_elem_of%list_elem_of_omap.
  destruct x as [e s]. apply leaf_offer_Some in Hl as (_ & _ & Hh). unfold held_slot in Hh.
  destruct (observed_index o (AVersion l)); simpl in Hh; [|done]. by apply index_slot_Some in Hh as [_ ?].
Qed.

Lemma wanted_slot_map o a :
  slot_map (map (fun e => (e.1, ex_entry e.2)) (default [] (om_get a (fold_expected o)))).
Proof.
  split.
  - unfold om_wf, om_keys. rewrite map_map. simpl. apply (fold_expected_inner o a).
  - intros P e. rewrite om_get_map, fmap_Some. intros (x & Hx & ->). by eapply expected_slot_platform.
Qed.

(** ** What the plan writes *)

Lemma planned_spec o a :
  let planned := planned_entries a o (fold_expected o) in
  List.NoDup (omap platform_slot planned) /\
  (forall P, index_slot planned P =
     match expected_slot (fold_expected o) a P with
     | Some x => Some (ex_entry x)
     | None => index ← observed_index o a; first_slot (ix_manifests index) P
     end) /\
  (forall index e, observed_index o a = Some index -> In e (ix_manifests index) -> platform_slot e = None -> In e planned).
Proof.
  simpl. unfold planned_entries, observed_index, expected_slot. fold plan_step.
  set (slots := map _ _). assert (slot_map slots) as Hslots by apply wanted_slot_map.
  assert (forall P, om_get P slots = ex_entry <$> om_get P (default [] (om_get a (fold_expected o)))) as Hget
    by (intros; apply om_get_map).
  assert (exists m u, match om_get a (ob_tags o) with
    | None => (slots, [])
    | Some tag => match ob_manifest tag with
        | MIndex index => foldl plan_step (slots, []) (ix_manifests index)
        | MImage _ => (slots, [mkEntry MEDIA_TYPE_OCI_IMAGE_MANIFEST (digest_display (ob_digest tag)) (ob_size tag) None None None])
        end
    end = (m, u) /\ slot_map m /\ (forall e, In e u -> platform_slot e = None) /\
    (forall P, om_get P m = match om_get P slots with Some e => Some e
       | None => index ← (observed ← om_get a (ob_tags o);
                 match ob_manifest observed with MIndex index => Some index | MImage _ => None end);
                 first_slot (ix_manifests index) P end) /\
    (forall index e, (observed ← om_get a (ob_tags o);
                 match ob_manifest observed with MIndex index => Some index | MImage _ => None end) = Some index ->
       In e (ix_manifests index) -> platform_slot e = None -> In e u)) as (m & u & -> & Hm & Hu & Hg & Hk).
  { destruct (om_get a (ob_tags o)) as [tag|]; simpl.
    - destruct (ob_manifest tag) as [im|ix]; simpl.
      + eexists _, _. split_and!; [done|done|by intros e [<-|[]]|intros P; by destruct (om_get P slots)|done].
      + destruct (plan_fold (ix_manifests ix) (slots, []) Hslots ltac:(done)) as (H1 & H2 & H3 & H4).
        destruct (foldl plan_step (slots, []) (ix_manifests ix)) as [m u]; simpl in *.
        exists m, u. split_and!; [done|done|done|done|]. intros index e [= <-] He Hs. apply H4. auto.
    - eexists _, _. split_and!; [done|done|done|intros P; by destruct (om_get P slots)|done]. }
  destruct (slot_map_values m Hm) as [Hkeys Hvals]. split_and!.
  - rewrite omap_app, Hkeys, (omap_none platform_slot u Hu), app_nil_r. apply os_wf_NoDup, Hm.
  - intros P. rewrite index_slot_app, (index_slot_none u P Hu), Hvals, Hg, Hget.
    by destruct (om_get P (default [] _)).
  - intros index e Hi He Hs. apply in_or_app. right. by eapply Hk.
Qed.

(** ** Quiet aliases: nothing a write would fix *)

Definition quiet_status (s : SlotStatus) : bool := match s with SlotOk | Orphan => true | _ => false end.

Definition alias_quiet o (expected : ExpectedGraph) a : Prop :=
  no_duplicates o a /\ forall P x, expected_slot expected a P = Some x -> held_slot o a P = Some (ex_entry x).

Lemma slot_row_quiet (a : AliasTag) wanted held P row prov : slot_row prov a wanted held P = Some row ->
  sr_tag row = a /\
  (quiet_status (sr_status row) = true <->
   forall w, om_get P wanted = Some w -> om_get P held = Some (ex_entry w)).
Proof.
  unfold slot_row. destruct (om_get P wanted) as [w|], (om_get P held) as [h|]; simpl; try done.
  - destruct (same_descriptor (ex_entry w) h) eqn:E; intros [= <-]; simpl; (split; [done|]).
    + apply same_descriptor_eq in E. naive_solver.
    + split; [done|]. intros H. specialize (H w eq_refl). injection H as ->.
      by rewrite (proj2 (same_descriptor_eq _ _) eq_refl) in E.
  - intros [= <-]; simpl. split; [done|]. split; [done|]. intros H. by specialize (H w eq_refl).
  - intros [= <-]; simpl. naive_solver.
Qed.

Lemma alias_rows_tag o expected a row : In row (alias_rows o expected a) -> sr_tag row = a.
Proof.
  unfold alias_rows. destruct (observed_slots o a) as [held shadowed]. rewrite sort_by_In, in_app_iff.
  intros [(P & _ & Hr)%list_elem_of_In%list_elem_of_omap|(sh & <- & _)%in_map_iff].
  - by apply slot_row_quiet in Hr as [? _].
  - by destruct sh.
Qed.

Lemma alias_rows_quiet o expected a :
  (forall row, In row (alias_rows o expected a) -> quiet_status (sr_status row) = true) <-> alias_quiet o expected a.
Proof.
  unfold alias_rows, alias_quiet. rewrite <- observed_slots_shadowed. setoid_rewrite <- observed_slots_get.
  unfold expected_slot. set (wanted := default [] (om_get a expected)).
  destruct (observed_slots o a) as [held shadowed]; simpl. setoid_rewrite sort_by_In. setoid_rewrite in_app_iff. split.
  - intros H. split.
    + destruct shadowed as [|sh shadowed]; [done|].
      specialize (H (shadowed_row (leaf_provenance o) a wanted sh)). destruct sh as [Q e].
      by discriminate H; right; left.
    + intros P w Ew. assert (exists row, slot_row (leaf_provenance o) a wanted held P = Some row) as [row Hrow].
      { unfold slot_row. rewrite Ew. destruct (om_get P held); [destruct (same_descriptor _ _)|]; eauto. }
      apply (slot_row_quiet a wanted held P row _ Hrow); [|done]. apply H. left.
      apply list_elem_of_In, list_elem_of_omap. exists P. split; [|done].
      apply list_elem_of_In, os_of_list_In, in_app_iff. rewrite <- !om_get_In_fst, Ew. eauto.
  - intros [-> H] row [Hrow|[]]. apply list_elem_of_In, list_elem_of_omap in Hrow as (P & _ & Hrow).
    by apply (slot_row_quiet a wanted held P row _ Hrow), H.
Qed.

(** ** The plan of a scope *)

Definition repair_plan o (scope : list AliasTag) : list PlannedWrite :=
  plan_repairs (diff o (fold_expected o) scope) o (fold_expected o).

(** The index a write puts at its tag. *)
Definition repaired_index o a : ImageIndex := planned_index a o (planned_entries a o (fold_expected o)).

Lemma repair_plan_In o scope w : In w (repair_plan o scope) ->
  In (pw_tag w) scope /\ pw_index w = repaired_index o (pw_tag w) /\
  forall row, In row (pw_reasons w) -> In row (alias_rows o (fold_expected o) (pw_tag w)).
Proof.
  unfold repair_plan, plan_repairs. destruct (diff_parts o (fold_expected o) scope) as (Hrows & Hwf & Hget & _).
  intros ([a st] & Hin & Hw)%list_elem_of_In%list_elem_of_omap.
  apply list_elem_of_In, (om_get_In a st _ Hwf) in Hin. rewrite Hget in Hin.
  destruct (os_mem a scope) eqn:Em; [|done]. apply os_mem_In in Em.
  destruct (needs_write st _); [|done]. simpl in Hw. unfold repaired_index.
  destruct (planned_entries a o (fold_expected o)) as [|e es] eqn:Ep; [done|]. injection Hw as <-. simpl. rewrite Ep.
  split_and!; [done|done|]. intros row [Hr Ht]%filter_In. rewrite Hrows in Hr. apply in_flat_map in Hr as (b & _ & Hr).
  apply andb_true_iff in Ht as [_ Ht]. apply ord_eqb_eq in Ht as <-. by rewrite (alias_rows_tag _ _ _ _ Hr).
Qed.

(** Each alias is planned once. *)
Lemma repair_plan_NoDup o scope : List.NoDup (map pw_tag (repair_plan o scope)).
Proof.
  unfold repair_plan, plan_repairs. destruct (diff_parts o (fold_expected o) scope) as (_ & Hwf & _).
  apply os_wf_NoDup in Hwf. generalize (re_rows (diff o (fold_expected o) scope)). intros rows.
  induction (re_aliases (diff o (fold_expected o) scope)) as [|[a st] l IH]; [constructor|].
  cbn [om_keys map fst] in Hwf. inversion Hwf as [|x l' Hn Hd]; subst x l'. specialize (IH Hd).
  rewrite omap_cons_eq. match goal with |- context [match ?x with Some _ => _ | None => _ end] => destruct x as [w|] eqn:Ew end;
    [|done].
  cbn [map]. constructor; [|done]. destruct (negb _); [done|].
  destruct (planned_entries a o (fold_expected o)); [done|]. injection Ew as <-. cbn [pw_tag].
  intros (w & Ht & ([b st'] & Hb & Hw)%list_elem_of_In%list_elem_of_omap)%in_map_iff. apply Hn.
  destruct (negb _); [done|]. destruct (planned_entries b o _); [done|]. injection Hw as <-. cbn [pw_tag] in Ht. subst b.
  apply in_map_iff. exists (a, st'). by rewrite <- list_elem_of_In.
Qed.

(** An orphan row: nothing expects the slot, and the row names what is held. *)
Lemma orphan_row o expected a row : In row (alias_rows o expected a) -> sr_status row = Orphan ->
  expected_slot expected a (sr_platform row) = None /\
  exists h, held_slot o a (sr_platform row) = Some h /\ sr_observed row = Some (en_digest h).
Proof.
  unfold alias_rows. setoid_rewrite <- observed_slots_get. unfold expected_slot.
  destruct (observed_slots o a) as [held shadowed]. rewrite sort_by_In, in_app_iff. cbn [fst].
  intros [(P & _ & Hr)%list_elem_of_In%list_elem_of_omap|(sh & <- & _)%in_map_iff]; [|by destruct sh].
  unfold slot_row in Hr. destruct (om_get P (default [] (om_get a expected))) as [x|] eqn:Ex, (om_get P held) as [h|] eqn:Eh;
    [destruct (same_descriptor _ _)|..]; try done; injection Hr as <-; try done; intros _; simpl. rewrite Ex, Eh. eauto.
Qed.

Lemma repair_plan_has o scope a : In a scope -> planned_entries a o (fold_expected o) <> [] ->
  (exists w, In w (repair_plan o scope) /\ pw_tag w = a) \/
  (alias_state o a = StPresent /\ alias_quiet o (fold_expected o) a).
Proof.
  intros Ha Hne. unfold repair_plan, plan_repairs.
  destruct (diff_parts o (fold_expected o) scope) as (Hrows & Hwf & Hget & _).
  specialize (Hget a). rewrite (proj2 (os_mem_In a scope) Ha) in Hget.
  set (reasons := List.filter (fun row => negb (bool_decide (sr_status row = SlotOk)) && ord_eqb (sr_tag row) a)
                    (re_rows (diff o (fold_expected o) scope))).
  destruct (needs_write (alias_state o a) reasons) eqn:En.
  - left. destruct (planned_entries a o (fold_expected o)) as [|e es] eqn:Ep; [done|].
    eexists. split; [|shelve]. apply list_elem_of_In, list_elem_of_omap. exists (a, alias_state o a).
    split; [by apply list_elem_of_In, om_get_In|]. fold reasons. rewrite En, Ep. simpl. reflexivity.
    Unshelve. done.
  - right. unfold needs_write in En. rewrite orb_false_iff, negb_false_iff, bool_decide_eq_true in En.
    destruct En as [Est Eq]. split; [done|]. apply alias_rows_quiet. intros row Hr.
    destruct (quiet_status (sr_status row)) eqn:Eqs; [done|]. exfalso.
    assert (In row reasons) as Hin.
    { unfold reasons. rewrite Hrows. apply filter_In. split; [apply in_flat_map; eauto|].
      rewrite (alias_rows_tag _ _ _ _ Hr), ord_eqb_refl, andb_true_r, negb_true_iff, bool_decide_eq_false.
      intros E. by rewrite E in Eqs. }
    apply (existsb_false_In _ _ row Eq) in Hin. by destruct (sr_status row).
Qed.

Lemma observed_versions_In o v : In v (observed_versions o) <-> is_Some (om_get (AVersion v) (ob_tags o)).
Proof.
  unfold observed_versions. rewrite os_of_list_In, om_get_In_fst, <- list_elem_of_In, list_elem_of_omap. split.
  - intros ([variant|w] & Hin & [= <-]). by apply list_elem_of_In.
  - intros Hin. exists (AVersion v). split; [by apply list_elem_of_In|done].
Qed.

Lemma omap_ext_In {A B : Type} (f g : A -> option B) l : (forall x, In x l -> f x = g x) -> omap f l = omap g l.
Proof.
  induction l as [|x l IH]; intros H; [done|]. rewrite !omap_cons_eq, (H x (or_introl eq_refl)), IH; [done|]. auto using in_cons.
Qed.

(** The planned index holds every platform the alias held. *)
Lemma planned_keeps o a P h : held_slot o a P = Some h ->
  match expected_slot (fold_expected o) a P with
  | Some x => index_slot (ix_manifests (repaired_index o a)) P = Some (ex_entry x)
  | None => exists e, index_slot (ix_manifests (repaired_index o a)) P = Some e
  end.
Proof.
  destruct (planned_spec o a) as (_ & Hslot & _). unfold repaired_index, planned_index. simpl. rewrite Hslot.
  destruct (expected_slot _ _ _); [done|]. unfold held_slot. destruct (observed_index o a) as [index|]; [|done]. simpl.
  intros [He Hs]%index_slot_Some. unfold first_slot.
  destruct (List.find _ _) eqn:Ef; [eauto|]. exfalso.
  pose proof (find_none _ _ Ef h He) as Hn. simpl in Hn. by rewrite bool_decide_eq_true_2 in Hn.
Qed.
End Repair.

(** ** Properties *)

(** What a repair does to an orphan slot that is claimed more than once: the
    planned index keeps the first entry served for the platform, while the slot
    the alias held, and the one [check] reports as winning, is the last one. *)
Theorem repair_orphan_keeps_first `{U : OciSpec} `{!TotalOrd NativePlatform} (o : TagGraphObservation)
    (scope : list AliasTag) (index : ImageIndex) (P : NativePlatform) (w : PlannedWrite)
    (Hw : In w (repair_plan o scope)) (Hindex : observed_index o (pw_tag w) = Some index)
    (Horphan : expected_slot (fold_expected o) (pw_tag w) P = None) :
  index_slot (ix_manifests (pw_index w)) P = first_slot (ix_manifests index) P /\
  held_slot o (pw_tag w) P = index_slot (ix_manifests index) P.
Proof.
  unfold held_slot. rewrite Hindex. split; [|done]. destruct (planned_spec o (pw_tag w)) as (_ & Hslot & _).
  destruct (repair_plan_In o scope w Hw) as (_ & -> & _). simpl. by rewrite Hslot, Horphan, Hindex.
Qed.
