(* ===== verification/Samples.v ===== *)
(** * Sample instances

    A concrete OCI library (further operating systems and architectures are known
    by their text), an order on its platform objects, a codec and an in-memory
    registry: the instances at which the properties with parameters are shown to
    be about something. *)

From stdpp Require Import base decidable list option numbers strings.
From Stdlib Require Import Lia ZArith.
From S2P Require Import Prelude OMap Text Version Digest PackageRef Platform Registry CascadeGraph CascadeFacts CascadeRepair.
Local Open Scope ocx_scope.
Local Open Scope string_scope.

#[export] Instance sample_spec : OciSpec := {|
  other_os := string;
  other_arch := string;
  other_os_text := fun s => s;
  other_arch_text := fun s => s;
|}.

(** ** An order on the platform objects: field by field *)

Definition os_key (o : NativeOs) : N * string :=
  match o with
  | Os_Linux => (0%N, "") | Os_Darwin => (1%N, "") | Os_Windows => (2%N, "") | Os_Other s => (3%N, s) | Os_Rest s => (4%N, s)
  end.
Definition arch_key (a : NativeArch) : N * string :=
  match a with
  | Arch_Amd64 => (0%N, "") | Arch_ARM64 => (1%N, "") | Arch_Wasm => (2%N, "") | Arch_Other s => (3%N, s) | Arch_Rest s => (4%N, s)
  end.
Definition native_key (p : NativePlatform) :=
  ((os_key (np_os p), arch_key (np_architecture p)),
   ((np_variant p, np_features p), (np_os_version p, np_os_features p))).
Definition native_cmp (p q : NativePlatform) : comparison :=
  let text := pair_cmp N.compare String.compare in
  let strings := option_cmp (list_cmp String.compare) in
  pair_cmp (pair_cmp text text)
    (pair_cmp (pair_cmp (option_cmp String.compare) strings) (pair_cmp (option_cmp String.compare) strings))
    (native_key p) (native_key q).

Lemma native_key_inj p q : native_key p = native_key q -> p = q.
Proof.
  destruct p as [o a v f ov of_], q as [o' a' v' f' ov' of_']. unfold native_key. simpl. intros [= Ho Ha -> -> -> ->].
  f_equal; [by destruct o, o'; simplify_eq/=|by destruct a, a'; simplify_eq/=].
Qed.

Lemma native_cmp_lawful : lawful native_cmp.
Proof.
  unfold native_cmp. apply (lawful_inj native_key); [apply native_key_inj|].
  repeat first [apply lawful_pair | apply lawful_option | apply lawful_list | apply lawful_N | apply lawful_string].
Qed.
#[export] Instance sample_native_ord : TotalOrd NativePlatform := ord_of_lawful native_cmp native_cmp_lawful.

(** ** A package to repair

    One leaf, [3.28.1], carries linux/amd64; the alias [3.28] carries a stale
    entry for it and two entries for an orphan platform, the alias [3] and
    [latest] do not exist. *)

Definition sample_entry (digest : string) (p : Platform) : ImageIndexEntry :=
  mkEntry MEDIA_TYPE_OCI_IMAGE_MANIFEST digest 100 (Some (native_from p)) None None.
Definition sample_index (entries : list ImageIndexEntry) : ImageIndex :=
  mkIndex INDEX_SCHEMA_VERSION (Some MEDIA_TYPE_OCI_IMAGE_INDEX) None entries None.
Definition sample_digest : Digest := DSha256 "e3b0c44298fc1c149afbf4c8996fb92427ae41e4649b934ca495991b7852b855".
Definition sample_stored (i : ImageIndex) : ObservedTag := mkObserved sample_digest 100 (MIndex i).
Definition linux_amd64 : Platform := Specific Linux Amd64 None [].
Definition darwin_arm64 : Platform := Specific Darwin Arm64 None [].

Definition sample_observation : TagGraphObservation :=
  mkObservation (new_registry "cmake" "ocx.sh") None
    (om_insert (AVersion (new_patch 3 28 1)) (sample_stored (sample_index [sample_entry "sha256:new" linux_amd64]))
      (om_insert (AVersion (new_minor 3 28))
         (sample_stored (sample_index [sample_entry "sha256:old" linux_amd64; sample_entry "sha256:first" darwin_arm64;
                                       sample_entry "sha256:last" darwin_arm64])) []))
    [] None.
Definition sample_scope : list AliasTag := [Root None; AVersion (new_minor 3 28); AVersion (new_major 3)].

Definition sample_alias_index : ImageIndex :=
  sample_index [sample_entry "sha256:old" linux_amd64; sample_entry "sha256:first" darwin_arm64;
                sample_entry "sha256:last" darwin_arm64].
Definition sample_write : PlannedWrite :=
  List.nth 1 (repair_plan sample_observation sample_scope) (mkWrite (Root None) sample_alias_index None [] []).

Lemma repair_orphan_keeps_first_witness :
  index_slot (ix_manifests (pw_index sample_write)) (native_from darwin_arm64) = Some (sample_entry "sha256:first" darwin_arm64) /\
  held_slot sample_observation (AVersion (new_minor 3 28)) (native_from darwin_arm64) =
    Some (sample_entry "sha256:last" darwin_arm64).
Proof.
  split; [|vm_compute; reflexivity].
  assert (In sample_write (repair_plan sample_observation sample_scope)) as Hw.
  { apply nth_In. vm_compute. lia. }
  assert (observed_index sample_observation (pw_tag sample_write) = Some sample_alias_index) as Hi
    by (vm_compute; reflexivity).
  assert (expected_slot (fold_expected sample_observation) (pw_tag sample_write) (native_from darwin_arm64) = None) as He
    by (vm_compute; reflexivity).
  exact (proj1 (repair_orphan_keeps_first sample_observation sample_scope sample_alias_index (native_from darwin_arm64)
                  sample_write Hw Hi He)).
Defined.
