(* ===== verification/CascadeIO.v ===== *)
(** * Reading the tag graph and applying a repair

    [crates/ocx_package/src/cascade/gather.rs] (one package's tag graph as an
    observation) and [crates/ocx_package/src/cascade/apply.rs] (the preflight and
    the guarded index writes of a repair).  The fetches and probes the code runs
    concurrently only read; they are run in order. *)

From stdpp Require Import base decidable list option numbers strings.
From Stdlib Require Import Lia ZArith.
From S2P Require Import Prelude OMap Text Version VersionText Digest Tag Cascade PackageRef Platform Registry Client.
From S2P Require Import Push Publish CascadeGraph.
Local Open Scope ocx_scope.
Local Open Scope string_scope.

(** ** Gather *)

(** [classify]: the graph nodes of a listing, and the ignored tags, sorted. *)
Definition classify_step (variants : list string) (acc : list (string * AliasTag) * list string) (tag : string) :=
  match alias_parse tag variants with
  | Some alias => ((acc.1 ++ [(tag, alias)])%list, acc.2)
  | None => (acc.1, (acc.2 ++ [tag])%list)
  end.
Definition classify (listed : list string) : list (string * AliasTag) * list string :=
  let variants := variant_names listed in
  let '(nodes, ignored) := foldl (classify_step variants) ([], []) listed in
  (nodes, ord_sort ignored).

Section CascadeIO.
Context `{U : OciSpec} `{!TotalOrd NativePlatform} `{!Codec} {W : Type} `{!Transport W}.
Local Abbreviation M := (io W PackageError).

(** One fetch of [gather]: a listed tag that is then not served is an error. *)
Definition observe_tag (client : Client) (location : OciIdentifier) (tag : string) : M ObservedTag :=
  let reference := clone_with_tag location tag in
  let! fetched := lift (fetch_manifest_raw_bytes_addressed client reference CanonicalRead) in
  match fetched with
  | Some (bytes, digest, manifest) => io_ret (mkObserved digest (Z.of_N (bytes_len bytes)) manifest)
  | None => io_fail (PE_Client (ManifestNotFound (ref_display reference +:+ ", which the tag listing had just named")))
  end.

(** [gather]; [index_root] reads the live index root.  [None] when the listing
    fuel runs out. *)
Definition gather (fuel : nat) (client : Client) (location : OciIdentifier) (package : PackageRef)
    (index_root : M (option (list (string * Digest)))) : M (option TagGraphObservation) :=
  let! listed := lift (list_tags_addressed fuel client location CanonicalRead) in
  match listed with
  | None => io_ret None
  | Some listed =>
      let '(nodes, ignored_tags) := classify listed in
      let! tags := io_foldl (fun tags node =>
                     let! observed := observe_tag client location node.1 in
                     io_ret (om_insert node.2 observed tags)) [] nodes in
      let! root := index_root in
      io_ret (Some (mkObservation location (if is_located_at package location then None else Some package)
                      tags ignored_tags root))
  end.

(** ** Apply *)

(** [enum Preflight], [enum ChildState], [enum WriteOutcome], [struct RepairOutcome].
    A failed write keeps the error its message renders. *)
Inductive Preflight : Type :=
| PfWrite (dropped : list string)
| PfRefuse (reason : Unrepairable).
Inductive ChildState : Type :=
| ChildPresent
| ChildMissing (digest : Digest)
| ChildUnaddressable.
Inductive WriteOutcome : Type :=
| Written (digest : Digest) (verified : bool) (dropped : list string)
| Refused (reason : Unrepairable)
| Raced (expected live : option Digest)
| WriteFailed (e : ClientError).
Record RepairOutcome : Type := mkRepairOutcome { ro_tag : AliasTag; ro_outcome : WriteOutcome }.

(** [backs_orphans_only]. *)
Definition backs_orphans_only (write : PlannedWrite) (digest : string) : bool :=
  forallb (fun entry =>
    match en_platform entry with
    | Some platform =>
        existsb (fun row => bool_decide (sr_status row = Orphan) && ord_eqb (sr_platform row) platform &&
                            bool_decide (sr_observed row = Some digest)) (pw_reasons write)
    | None => false
    end)
    (List.filter (fun entry => String.eqb (en_digest entry) digest) (ix_manifests (pw_index write))).

(** The loop of [verdict] over the missing children. *)
Fixpoint verdict_missing (write : PlannedWrite) (missing : list (string * Digest)) (dropped : list string) :
    result Unrepairable (list string) :=
  match missing with
  | [] => Ok dropped
  | (digest, parsed) :: rest =>
      if negb (backs_orphans_only write digest) then Err (ChildManifestMissing (pw_tag write) parsed)
      else verdict_missing write rest (os_insert digest dropped)
  end.

(** [verdict]. *)
Definition verdict (write : PlannedWrite) (missing : list (string * Digest)) (unaddressable : list string) : Preflight :=
  match unaddressable with
  | digest :: _ => PfRefuse (ChildDigestUnaddressable (pw_tag write) digest)
  | [] =>
      match verdict_missing write missing [] with
      | Err reason => PfRefuse reason
      | Ok dropped =>
          if match dropped with [] => false | _ :: _ => true end &&
             forallb (fun entry => os_mem (en_digest entry) dropped) (ix_manifests (pw_index write))
          then PfRefuse (WouldEmptyIndex (pw_tag write))
          else PfWrite dropped
      end
  end.

(** One probe of [preflight]. *)
Definition probe_child (client : Client) (identifier : OciIdentifier) (digest : string) : M ChildState :=
  match digest_try_from digest with
  | Err _ => io_ret ChildUnaddressable
  | Ok parsed =>
      let child := clone_with_digest (without_tag identifier) parsed in
      let! probed := lift (probe_manifest_digest_addressed client child CanonicalRead) in
      io_ret (match probed with Some _ => ChildPresent | None => ChildMissing parsed end)
  end.

(** The probes of one write, as its missing and unaddressable digests. *)
Definition probe_step (client : Client) (identifier : OciIdentifier)
    (acc : list (string * Digest) * list string) (digest : string) : M (list (string * Digest) * list string) :=
  let! state := probe_child client identifier digest in
  io_ret (match state with
          | ChildPresent => acc
          | ChildMissing parsed => (om_insert digest parsed acc.1, acc.2)
          | ChildUnaddressable => (acc.1, os_insert digest acc.2)
          end).
Definition preflight_one (client : Client) (identifier : OciIdentifier) (write : PlannedWrite) : M Preflight :=
  let! probed := io_foldl (probe_step client identifier) ([], []) (pw_referenced_digests write) in
  io_ret (verdict write probed.1 probed.2).

(** [preflight]: every verdict is known before anything is written. *)
Definition preflight (client : Client) (identifier : OciIdentifier) (writes : list PlannedWrite) :
    M (list (PlannedWrite * Preflight)) :=
  io_foldl (fun acc write =>
    let! v := preflight_one client identifier write in io_ret (acc ++ [(write, v)])%list) [] writes.

(** [verify_write]: a mismatch or a failed read is [false], never an error. *)
Definition verify_write (client : Client) (target : OciIdentifier) (written : Digest) : M bool :=
  let! probed := io_try (probe_manifest_digest_addressed client target CanonicalRead) in
  io_ret (match probed with Ok (Some observed) => bool_decide (observed = written) | _ => false end).

(** The index a verdict lets through: the plan minus the dropped digests. *)
Definition verdict_index (write : PlannedWrite) (dropped : list string) : ImageIndex :=
  match dropped with
  | [] => pw_index write
  | _ :: _ =>
      let index := pw_index write in
      mkIndex (ix_schema_version index) (ix_media_type index) (ix_artifact_type index)
        (List.filter (fun entry => negb (os_mem (en_digest entry) dropped)) (ix_manifests index)) (ix_annotations index)
  end.

(** [write_alias]: re-read first, write only over what the plan observed. *)
Definition write_alias (client : Client) (identifier : OciIdentifier) (write : PlannedWrite) (v : Preflight) : M WriteOutcome :=
  match v with
  | PfRefuse refusal => io_ret (Refused refusal)
  | PfWrite dropped =>
      let index := verdict_index write dropped in
      let target := clone_with_tag identifier (alias_display (pw_tag write)) in
      let! probed := io_try (probe_manifest_digest_addressed client target CanonicalRead) in
      match probed with
      | Err e => io_ret (WriteFailed e)
      | Ok live =>
          if negb (bool_decide (live = pw_observed_digest write)) then io_ret (Raced (pw_observed_digest write) live)
          else
            let! pushed := io_try (Push.push_index target index) in
            match pushed with
            | Err e => io_ret (WriteFailed e)
            | Ok digest =>
                let! verified := verify_write client target digest in
                io_ret (Written digest verified dropped)
            end
      end
  end.

(** [apply]: push authentication, then all verdicts, then the writes; outcomes in
    tag order. *)
Definition outcome_cmp (left_ right_ : RepairOutcome) : comparison := ord_cmp (ro_tag left_) (ro_tag right_).
Definition apply_repairs (client : Client) (identifier : OciIdentifier) (writes : list PlannedWrite) :
    M (list RepairOutcome) :=
  match writes with
  | [] => io_ret []
  | _ :: _ =>
      let! _ := lift (ensure_auth (canonical_reference identifier) OpPush) in
      let! planned := preflight client identifier writes in
      let! outcomes := io_foldl (fun acc planned_write =>
                         let! outcome := write_alias client identifier planned_write.1 planned_write.2 in
                         io_ret (acc ++ [mkRepairOutcome (pw_tag planned_write.1) outcome])%list) [] planned in
      io_ret (sort_by outcome_cmp outcomes)
  end.

(** ** Lemmas *)

Lemma verdict_missing_Ok write missing : forall dropped dropped',
  verdict_missing write missing dropped = Ok dropped' ->
  (forall d, In d dropped' <-> In d dropped \/ In d (om_keys missing)) /\
  (forall d, In d (om_keys missing) -> backs_orphans_only write d = true).
Proof.
  induction missing as [|[d parsed] missing IH]; intros dropped dropped'; simpl; [intros [= <-]; naive_solver|].
  destruct (backs_orphans_only write d) eqn:E; simpl; [|done]. intros Hr. destruct (IH _ _ Hr) as [H1 H2]. split.
  - intros x. rewrite H1, os_insert_In. naive_solver.
  - intros x [<-|Hx]; auto.
Qed.

Lemma verdict_index_In write dropped e :
  In e (ix_manifests (verdict_index write dropped)) <->
  In e (ix_manifests (pw_index write)) /\ ~ In (en_digest e) dropped.
Proof.
  unfold verdict_index. destruct dropped as [|d dropped]; [simpl; tauto|].
  cbn [ix_manifests]. rewrite filter_In, negb_true_iff, <- not_true_iff_false, os_mem_In. done.
Qed.

Lemma backs_orphans_only_spec write d e : backs_orphans_only write d = true ->
  In e (ix_manifests (pw_index write)) -> en_digest e = d ->
  exists P row, en_platform e = Some P /\ In row (pw_reasons write) /\
    sr_status row = Orphan /\ sr_platform row = P /\ sr_observed row = Some d.
Proof.
  unfold backs_orphans_only. rewrite forallb_forall. intros Hall He Hd.
  specialize (Hall e). rewrite filter_In, String.eqb_eq in Hall. specialize (Hall (conj He Hd)).
  destruct (en_platform e) as [P|]; [|done]. apply existsb_exists in Hall as (row & Hr & Hb).
  rewrite !andb_true_iff, !bool_decide_eq_true, ord_eqb_eq in Hb. destruct Hb as [[? ?] ?]. by exists P, row.
Qed.
End CascadeIO.

(** ** Properties *)

(** A repair never publishes a dead pointer and never drops a live or an
    expected one.  When the preflight lets a write through, every referenced
    digest was addressable; the index written lists exactly the planned entries
    whose child is still there; an entry left out is one the report listed as an
    orphan at that platform with that digest; and a planned index that had
    entries still has some. *)
Theorem verdict_safe `{U : OciSpec} `{!TotalOrd NativePlatform} (write : PlannedWrite) (missing : list (string * Digest))
    (unaddressable dropped : list string) (Hv : verdict write missing unaddressable = PfWrite dropped) :
  unaddressable = [] /\
  (forall e, In e (ix_manifests (verdict_index write dropped)) <->
     In e (ix_manifests (pw_index write)) /\ ~ In (en_digest e) (om_keys missing)) /\
  (forall e, In e (ix_manifests (pw_index write)) -> ~ In e (ix_manifests (verdict_index write dropped)) ->
     exists P row, en_platform e = Some P /\ In row (pw_reasons write) /\
       sr_status row = Orphan /\ sr_platform row = P /\ sr_observed row = Some (en_digest e)) /\
  (ix_manifests (pw_index write) <> [] -> ix_manifests (verdict_index write dropped) <> []).
Proof.
  unfold verdict in Hv. destruct unaddressable; [|done].
  destruct (verdict_missing write missing []) as [dropped'|] eqn:Em; [|done].
  destruct (verdict_missing_Ok write missing _ _ Em) as [Hin Horph].
  assert (forall d, In d dropped' <-> In d (om_keys missing)) as Hin' by (intros; rewrite Hin; simpl; tauto).
  destruct (_ && forallb _ _) eqn:Ef; [done|]. injection Hv as ->. split_and!; [done| | |].
  - intros e. by rewrite verdict_index_In, Hin'.
  - intros e He Hn. eapply (backs_orphans_only_spec write (en_digest e) e); [|done|done]. apply Horph, Hin'.
    rewrite verdict_index_In in Hn. destruct (os_mem (en_digest e) dropped) eqn:Eo; [by apply os_mem_In|].
    exfalso. apply Hn. split; [done|]. by rewrite <- os_mem_In, Eo.
  - intros Hne Hnil. destruct (ix_manifests (pw_index write)) as [|e0 es] eqn:Ei; [done|].
    assert (forallb (fun entry => os_mem (en_digest entry) dropped) (e0 :: es) = true) as Hall.
    { apply forallb_forall. intros e He. destruct (os_mem (en_digest e) dropped) eqn:Eo; [done|]. exfalso.
      assert (In e (ix_manifests (verdict_index write dropped))) as Hv.
      { apply verdict_index_In. rewrite Ei. split; [done|]. by rewrite <- os_mem_In, Eo. }
      by rewrite Hnil in Hv. }
    rewrite Hall, andb_true_r in Ef. destruct dropped; [|done].
    assert (In e0 (ix_manifests (verdict_index write []))) as Hv.
    { apply verdict_index_In. rewrite Ei. split; [by left|done]. }
    by rewrite Hnil in Hv.
Qed.

(** A repair never overwrites what it did not plan from.  An alias is pushed
    only when the read just before it returned the digest the plan observed; a
    refused, raced or unreadable alias is not pushed at all: the state is then
    the one that read left. *)
Theorem write_alias_guarded `{U : OciSpec} `{!TotalOrd NativePlatform} `{!Codec} {W : Type} `{!Transport W}
    (client : Client) (identifier : OciIdentifier) (write : PlannedWrite) (v : Preflight) (w w' : W)
    (outcome : WriteOutcome) (Hrun : write_alias client identifier write v w = (Ok outcome, w')) :
  let target := clone_with_tag identifier (alias_display (pw_tag write)) in
  let probe := probe_manifest_digest_addressed client target CanonicalRead w in
  match outcome with
  | Written digest verified dropped =>
      v = PfWrite dropped /\ probe.1 = Ok (pw_observed_digest write) /\
      exists w2, push_index target (verdict_index write dropped) probe.2 = (Ok digest, w2)
  | Refused reason => v = PfRefuse reason /\ w' = w
  | Raced expected live => expected = pw_observed_digest write /\ live <> expected /\ probe = (Ok live, w')
  | WriteFailed e =>
      probe = (Err e, w') \/
      exists dropped, v = PfWrite dropped /\ probe.1 = Ok (pw_observed_digest write) /\
        push_index target (verdict_index write dropped) probe.2 = (Err e, w')
  end.
Proof.
  revert Hrun. unfold write_alias, io_bind, io_try, io_ret.
  destruct v as [dropped|reason]; [|intros [= <- <-]; done].
  destruct (probe_manifest_digest_addressed _ _ _ w) as [[live|e] w1] eqn:Ep; simpl; [|intros [= <- <-]; by left].
  case_bool_decide as El; simpl; [|intros [= <- <-]; done]. subst live.
  destruct (push_index _ _ w1) as [[digest|e] w2] eqn:Eq; simpl.
  - destruct (verify_write _ _ _ w2) as [[verified|e] w3] eqn:Ev; simpl; [|done]. intros [= <- <-]. eauto.
  - intros [= <- <-]. right. eauto.
Qed.
