(* ===== verification/CascadeSpec.v ===== *)
(** * The cascade as a specification

    What the publishing side promises, apart from how it talks to a registry: the
    tags of a package for one platform are a column of entries, indexed by alias.
    A column is cascaded when every rolling tag carries the entry of the greatest
    published version that cascades into it.  A push that files its entry under
    the version and the aliases [decompose] lets it reach keeps the column
    cascaded, whatever the order of the pushes. *)

From stdpp Require Import base decidable list option numbers strings.
From Stdlib Require Import Lia Ascii.
From S2P Require Import Prelude OMap Text Version Cascade CascadeGraph CascadeFacts CascadeRepair VersionText Digest Tag.
Local Open Scope ocx_scope.
Local Open Scope string_scope.

(** The aliases a push files its entry under, besides its own tag. *)
Definition reached (carries : Version -> bool) (v : Version) (d : CascadeDecomposition) : list AliasTag :=
  map AVersion (reach_all carries d).1 ++ if (reach_all carries d).2 then [Root (v_variant v)] else [].

Lemma reached_In carries v d a : In a (reached carries v d) <->
  (exists b, a = AVersion b /\ In b (reach_all carries d).1) \/ (a = Root (v_variant v) /\ (reach_all carries d).2 = true).
Proof.
  unfold reached. rewrite in_app_iff, in_map_iff. destruct (reach_all carries d) as [ts []]; simpl; naive_solver.
Qed.

Lemma parent_pre_chain v p : has_prerelease v = true -> has_build v = true -> parent v = Some p ->
  alias_chain v = [AVersion p].
Proof. intros Hp Hb E. unfold alias_chain, decompose_targets. rewrite Hp, Hb, E. done. Qed.

(** A build below a pre-release cascades into that pre-release only. *)
Lemma below_pre_chain p x : has_prerelease p = true -> below p x = true ->
  has_build x = true /\ alias_chain x = [AVersion p].
Proof.
  unfold below. version_cases p; version_cases x; version_unfold; simpl; try done; intros _;
    rewrite ?andb_true_iff, ?bool_decide_eq_true, ?andb_false_r; naive_solver.
Qed.

Lemma alias_chain_stable v b : has_prerelease v = false -> (In (AVersion b) (alias_chain v) <-> below b v = true).
Proof.
  intros Hp. rewrite alias_chain_In, <- (decompose_targets_stable v b Hp). naive_solver.
Qed.

Lemma alias_chain_below v b : In (AVersion b) (alias_chain v) -> below b v = true /\ has_prerelease b = has_prerelease v.
Proof. rewrite alias_chain_In. intros [(b' & [= <-] & Hb)|[? _]]; [by apply decompose_targets_In|done]. Qed.

Lemma alias_chain_root v t : In (Root t) (alias_chain v) <-> t = v_variant v /\ has_prerelease v = false.
Proof. rewrite alias_chain_In. naive_solver. Qed.

Lemma In_or_not {A : Type} `{TotalOrd A} (x : A) l : In x l \/ ~ In x l.
Proof. rewrite <- os_mem_In. destruct (os_mem x l); auto. Qed.

(** ** Columns *)

Section Column.
Context {E : Type}.
Implicit Types (S : list Version) (column : AliasTag -> option E) (v s : Version) (a : AliasTag).

(** [s] is the greatest published version that cascades into [a] and has an entry. *)
Definition leads S column a s (e : E) : Prop :=
  In s S /\ In a (alias_chain s) /\ column (AVersion s) = Some e /\
  forall s', In s' S -> s <o s' -> In a (alias_chain s') -> column (AVersion s') = None.

(** Published versions are no aliases of one another. *)
Definition antichain S : Prop := forall s s', In s S -> In s' S -> ~ In (AVersion s) (alias_chain s').

Definition cascaded S column : Prop :=
  forall a e, (forall s, In s S -> a <> AVersion s) -> (column a = Some e <-> exists s, leads S column a s e).

(** A version that is no alias of a published one, and has none as an alias. *)
Definition fresh S v : Prop :=
  forall s, In s S -> ~ In (AVersion v) (alias_chain s) /\ ~ In (AVersion s) (alias_chain v).

Definition carried column (x : Version) : bool := match column (AVersion x) with Some _ => true | None => false end.

(** A push files its entry under its own tag and the reached aliases. *)
Definition column_push column v (aliases : list AliasTag) (e : E) : AliasTag -> option E :=
  fun a => if os_mem a (AVersion v :: aliases) then Some e else column a.

Section Push.
Context S column (others : list Version) (v : Version) (d : CascadeDecomposition).
Hypotheses (Hcas : cascaded S column) (Hv : fresh S v) (Hw : os_wf others)
  
  (Hothers : forall s, In s S -> v <o s -> v_variant s = v_variant v -> is_Some (column (AVersion s)) -> In s others) (Hd : decompose v others = Some d).
Let carries := carried column.

Lemma carried_true x : carries x = true <-> is_Some (column (AVersion x)).
Proof. unfold carries, carried. destruct (column (AVersion x)); split; eauto; try done; by intros []. Qed.

(** What carries the platform is published, or leads back to a published version. *)
Lemma carried_source x : carries x = true ->
  exists s, In s S /\ is_Some (column (AVersion s)) /\ (s = x \/ In (AVersion x) (alias_chain s)).
Proof.
  intros [e He]%carried_true. destruct (In_or_not x S) as [Hx|Hx]; [exists x; eauto|].
  assert (forall s, In s S -> AVersion x <> AVersion s) as Hna by (intros s Hs [= ->]; done).
  destruct (proj1 (Hcas (AVersion x) e Hna) He) as (s & Hs & Hc & Hcs & _).
  exists s. eauto.
Qed.

(** A published version above [v] is never one of [v]'s own ancestors. *)
Lemma published_not_below s : In s S -> has_prerelease v = false -> below s v = false.
Proof.
  intros Hs Hp. destruct (below s v) eqn:Eb; [|done]. destruct (Hv s Hs) as [_ Hn]. by destruct Hn; apply alias_chain_stable.
Qed.

(** Something in the way comes from a published version in the way, in the same subtree. *)
Lemma way_source x : has_prerelease v = false -> in_the_way carries v x ->
  exists s, In s S /\ is_Some (column (AVersion s)) /\ v <o s /\ has_prerelease s = false /\ (s = x \/ below x s = true).
Proof.
  intros Hp (Hc & Hpx & Hvx & Hbx). destruct (carried_source x Hc) as (s & Hs & Hcs & [->|Hx]); [exists x; eauto 10|].
  apply alias_chain_below in Hx as [Hxs Hps]. exists s. split_and!; [done|done| |congruence|by right].
  destruct (ord_total v s) as [?|[<-|Hsv]]; [done| |]; exfalso.
  - congruence.
  - by rewrite (below_convex x s v Hxs Hsv Hvx) in Hbx.
Qed.

Lemma reached_exact a : In a (alias_chain v) ->
  In a (reached carries v d) <->
  forall s, In s S -> v <o s -> In a (alias_chain s) -> column (AVersion s) = None.
Proof.
  intros Ha. rewrite reached_In. destruct (has_prerelease v) eqn:Hp.
  - destruct (reach_all_prerelease carries v others d Hw Hp Hd) as [H1 H2]. rewrite H2.
    apply alias_chain_In in Ha as [(p & -> & Hin)|[_ ?]]; [|congruence].
    destruct (decompose_targets_In v p Hin) as [Hpv Hpp]. rewrite Hp in Hpp.
    destruct (below_pre_chain p v Hpp Hpv) as [Hb _].
    assert (parent v = Some p) as Epar.
    { revert Hin. unfold decompose_targets. rewrite Hp, Hb. simpl. destruct (parent v); simpl; [|done]. by intros [->|[]]. }
    transitivity (In p (reach_all carries d).1); [naive_solver|]. rewrite H1. split.
    + intros (_ & _ & Hfree) s Hs Hvs [Hps _]%alias_chain_below. apply eq_None_not_Some. intros Hcs.
      rewrite (Hfree s) in Hps; [done| |by apply carried_true|done]. apply Hothers; [done|done| |done].
      by rewrite <- (below_variant p s Hps), (below_variant p v Hpv).
    + intros Hfree. split_and!; [done|done|]. intros x Hx Hc Hvx. destruct (below p x) eqn:Epx; [|done]. exfalso.
      destruct (below_pre_chain p x Hpp Epx) as [Hbx Hcx].
      destruct (carried_source x Hc) as (s & Hs & Hcs & [->|Hxs]).
      * rewrite (Hfree x Hs Hvx) in Hcs by (rewrite Hcx; by left). by destruct Hcs.
      * apply alias_chain_below in Hxs as [Hxs _]. by rewrite (below_no_build x s Hxs) in Hbx.
  - destruct (reach_all_stable carries v others d Hw Hp Hd) as [H1 H2]. rewrite H2.
    apply alias_chain_In in Ha as [(b & -> & Hin)|[-> _]].
    + apply (decompose_targets_stable v b Hp) in Hin.
      transitivity (In b (reach_all carries d).1); [naive_solver|]. rewrite H1. split.
      * intros [_ Hfree] s Hs Hvs Hbs. apply eq_None_not_Some. intros Hcs.
        apply alias_chain_below in Hbs as Hbs'. destruct Hbs' as [Hb Hpb].
        destruct (alias_chain_below v b) as [_ Hpv]; [by apply alias_chain_stable|].
        apply (Hfree s); [| |by apply below_lt].
        { apply Hothers; [done|done| |done]. by rewrite <- (below_variant b s Hb), (below_variant b v Hin). }
        split_and!; [by apply carried_true|congruence|done|by apply published_not_below].
      * intros Hfree. split; [done|]. intros x Hx Hway Hxb.
        destruct (way_source x Hp Hway) as (s & Hs & Hcs & Hvs & Hps & Hxs). destruct Hway as (_ & _ & Hvx & _).
        rewrite (Hfree s Hs Hvs) in Hcs; [by destruct Hcs|]. apply alias_chain_stable; [done|].
        pose proof (below_convex b v x Hin Hvx Hxb) as Hbx. destruct Hxs as [->|Hxs]; [done|by eapply below_trans].
    + transitivity ((reach_all carries d).2 = true); [naive_solver|]. rewrite H2. split.
      * intros Hfree s Hs Hvs [Es Hps]%alias_chain_root. apply eq_None_not_Some. intros Hcs.
        apply (Hfree s); [by apply Hothers| |done].
        split_and!; [by apply carried_true|done|done|by apply published_not_below].
      * intros Hfree x Hx Hway Ex. destruct (way_source x Hp Hway) as (s & Hs & Hcs & Hvs & Hps & Hxs).
        rewrite (Hfree s Hs Hvs) in Hcs; [by destruct Hcs|]. apply alias_chain_root. split; [|done].
        rewrite <- Ex. destruct Hxs as [->|Hxs]; [done|by apply below_variant].
Qed.

Lemma reached_chain a : In a (reached carries v d) -> In a (alias_chain v).
Proof.
  rewrite reached_In. destruct (has_prerelease v) eqn:Hp.
  - destruct (reach_all_prerelease carries v others d Hw Hp Hd) as [H1 ->].
    intros [(b & -> & (Hb & Ep & _)%H1)|[_ ?]]; [|done]. rewrite (parent_pre_chain v b Hp Hb Ep). by left.
  - destruct (reach_all_stable carries v others d Hw Hp Hd) as [H1 _].
    intros [(b & -> & [Hb _]%H1)|[-> _]]; [by apply alias_chain_stable|by apply alias_chain_root].
Qed.

Lemma column_push_leaf aliases e s : (forall a, In a aliases -> In a (alias_chain v)) -> s = v \/ In s S ->
  column_push column v aliases e (AVersion s) = if bool_decide (s = v) then Some e else column (AVersion s).
Proof.
  intros Hal Hs. unfold column_push. case_bool_decide as Es.
  - subst. by rewrite (proj2 (os_mem_In (AVersion v) (AVersion v :: aliases)) (in_eq _ _)).
  - destruct (os_mem _ _) eqn:Em; [|done]. apply os_mem_In in Em as [?|Hi%Hal]; [congruence|].
    destruct Hs as [->|Hs]; [done|]. by destruct (Hv s Hs).
Qed.

(** The push keeps the column cascaded. *)
Lemma column_push_cascaded e : cascaded (v :: S) (column_push column v (reached carries v d) e).
Proof.
  set (aliases := reached carries v d). set (column' := column_push column v aliases e).
  assert (forall s, In s (v :: S) -> column' (AVersion s) = if bool_decide (s = v) then Some e else column (AVersion s)) as Hleaf.
  { intros s Hs. apply column_push_leaf; [by apply reached_chain|naive_solver]. }
  intros a x Hna. assert (forall s, In s S -> a <> AVersion s) as Hna' by (intros; apply Hna; by right).
  destruct (In_or_not a aliases) as [Ha|Ha].
  - (* reached: v leads *)
    assert (column' a = Some e) as ->.
    { unfold column', column_push. by rewrite (proj2 (os_mem_In a (AVersion v :: aliases)) (in_cons _ _ _ Ha)). }
    pose proof (reached_chain a Ha) as Hc. pose proof (proj1 (reached_exact a Hc) Ha) as Hfree. split.
    + intros [= <-]. exists v. split_and!; [by left|done|rewrite Hleaf by (by left); by rewrite bool_decide_eq_true_2|].
      intros s' [<-|Hs'] Hlt Hcs; [by apply ord_irrefl in Hlt|]. rewrite Hleaf by (by right).
      rewrite bool_decide_eq_false_2 by (intros ->; by apply ord_irrefl in Hlt). by apply Hfree.
    + intros (s & Hs & Hcs & Hx & Hmax). rewrite Hleaf in Hx by done. case_bool_decide as Es; [done|].
      exfalso. destruct Hs as [?|Hs]; [done|]. destruct (ord_total s v) as [Hlt|[?|Hgt]]; [|done|].
      * pose proof (Hmax v (or_introl eq_refl) Hlt Hc) as Hn. rewrite Hleaf in Hn by (by left). by rewrite bool_decide_eq_true_2 in Hn.
      * by rewrite (Hfree s Hs Hgt Hcs) in Hx.
  - (* not reached *)
    assert (column' a = column a) as ->.
    { unfold column', column_push. destruct (os_mem _ _) eqn:Em; [|done].
      apply os_mem_In in Em as [<-|?]; [|done]. by destruct (Hna v (or_introl eq_refl)). }
    rewrite (Hcas a x Hna'). split; intros (s & Hs & Hcs & Hx & Hmax); exists s.
    + assert (s <> v) as Hne.
      { intros ->. apply Ha, reached_exact; [done|]. intros s' Hs' Hlt Hc'. by apply Hmax. }
      split_and!; [by right|done|rewrite Hleaf by (by right); by rewrite bool_decide_eq_false_2|].
      intros s' [<-|Hs'] Hlt Hc'.
      * exfalso. apply Ha, reached_exact; [done|]. intros s' Hs' Hlt' Hc''.
        apply Hmax; [done|by eapply ord_cmp_trans|done].
      * rewrite Hleaf by (by right). case_bool_decide as Es; [|by apply Hmax]. subst s'.
        exfalso. apply Ha, reached_exact; [done|]. intros s' Hs'' Hlt' Hc''.
        apply Hmax; [done|by eapply ord_cmp_trans|done].
    + rewrite Hleaf in Hx by done. case_bool_decide as Es.
      * exfalso. subst s. apply Ha, reached_exact; [done|]. intros s' Hs' Hlt Hc'.
        pose proof (Hmax s' (or_intror Hs') Hlt Hc') as Hn. rewrite Hleaf in Hn by (by right).
        by rewrite bool_decide_eq_false_2 in Hn by (intros ->; by apply ord_irrefl in Hlt).
      * destruct Hs as [?|Hs]; [done|]. split_and!; [done|done|done|]. intros s' Hs' Hlt Hc'.
        pose proof (Hmax s' (or_intror Hs') Hlt Hc') as Hn. rewrite Hleaf in Hn by (by right). by case_bool_decide.
Qed.
End Push.

(** Publishing a further platform of a version changes nothing in the other columns. *)
Lemma cascaded_publish S column v : cascaded S column -> fresh S v -> cascaded (v :: S) column.
Proof.
  intros Hcas Hv. destruct (In_or_not v S) as [Hin|Hin].
  - intros a e Hna. rewrite (Hcas a e) by (intros; apply Hna; by right).
    split; intros (s & Hs & Hcs & Hx & Hmax); exists s; unfold leads in *; simpl in *; naive_solver.
  - assert (column (AVersion v) = None) as Hnone.
    { destruct (column (AVersion v)) as [e|] eqn:Ec; [|done]. exfalso.
      apply Hcas in Ec as (s & Hs & Hc & _); [by destruct (Hv s Hs)|]. intros s Hs [= ->]. done. }
    intros a e Hna. rewrite (Hcas a e) by (intros; apply Hna; by right).
    split; intros (s & Hs & Hcs & Hx & Hmax); exists s.
    + split_and!; [by right|done|done|]. intros s' [<-|Hs']; [done|by apply Hmax].
    + destruct Hs as [<-|Hs]; [congruence|]. split_and!; [done|done|done|]. intros s' Hs'. apply Hmax. by right.
Qed.

(** Some published version leads wherever one with an entry cascades. *)
Lemma leads_exists S column a s : In s S -> In a (alias_chain s) -> is_Some (column (AVersion s)) ->
  exists s' e, leads S column a s' e.
Proof.
  intros Hs Ha Hc. set (f := fun s => if os_mem a (alias_chain s) then column (AVersion s) else None).
  assert (forall s, is_Some (f s) <-> In a (alias_chain s) /\ is_Some (column (AVersion s))) as Hf.
  { intros x. unfold f. rewrite <- os_mem_In. destruct (os_mem a (alias_chain x)); [naive_solver|]. split; [by intros []|naive_solver]. }
  destruct (proj2 (last_omap_some f (os_of_list S))) as [e He]; [exists s; rewrite os_of_list_In; by split; [|apply Hf]|].
  apply last_omap_greatest in He as (s' & Hs' & Hfs & Hmax); [|apply os_of_list_wf].
  apply (proj1 (os_of_list_In s' S)) in Hs'. exists s', e. destruct (proj1 (Hf s') (ex_intro _ e Hfs)) as [Ha' _].
  split; [exact Hs'|]. split; [exact Ha'|]. split.
  - unfold f in Hfs. by rewrite (proj2 (os_mem_In a (alias_chain s')) Ha') in Hfs.
  - intros x Hx Hlt Hax. apply eq_None_not_Some. intros Hsome. destruct (proj2 (Hf x) (conj Hax Hsome)) as [y Hy].
    rewrite (Hmax x) in Hy; [done|by apply os_of_list_In|done].
Qed.

Lemma antichain_publish S v : antichain S -> fresh S v -> antichain (v :: S).
Proof.
  intros Hanti Hv s s' [<-|Hs] [<-|Hs'].
  - intros [Hb _]%alias_chain_below. by rewrite below_irrefl in Hb.
  - by apply Hv.
  - by apply Hv.
  - by apply Hanti.
Qed.
End Column.

(** ** The tags of aliases

    The text of an alias determines it: the tags a package's versions and rolling
    aliases are published under never collide, and a listed tag is classified
    back as the alias it was written for ([AliasTag::parse] and [Display] of
    [crates/ocx_package/src/cascade/graph.rs]). *)

(** A variant name the version grammar accepts. *)
Definition variant_ok (name : string) : bool := is_variant name && negb (String.eqb name "latest").

(** An alias whose text the grammar accepts. *)
Definition alias_wf (a : AliasTag) : bool :=
  match a with
  | Root None => true
  | Root (Some name) => variant_ok name
  | AVersion v => version_wf v
  end.

(** ** Well-formedness along chains *)

Lemma parent_wf v p : parent v = Some p -> version_wf v = true -> version_wf p = true.
Proof.
  unfold parent, version_wf. version_cases v; simpl; intros; simplify_eq/=; rewrite ?andb_true_iff in *; destruct_and?; split_and?;
    try done.
Qed.

Lemma ancestors_version_wf v a : version_wf v = true -> In a (ancestors v) -> version_wf a = true.
Proof.
  revert a. induction v as [v IH] using parent_ind. intros a Hv. rewrite ancestors_unfold.
  destruct (parent v) as [p|] eqn:Ep; [|done]. pose proof (parent_wf v p Ep Hv) as Hp. intros [<-|Ha]; [done|]. by eapply IH.
Qed.

Lemma chain_alias_wf v a : version_wf v = true -> In a (alias_chain v) -> alias_wf a = true.
Proof.
  intros Hv Ha. destruct a as [t|b].
  - apply alias_chain_root in Ha as [-> _]. unfold version_wf in Hv. rewrite !andb_true_iff in Hv. destruct Hv as [[Hv _] _].
    simpl. by destruct (v_variant v).
  - apply alias_chain_below in Ha as [Hb _]. apply below_ancestors in Hb. by eapply ancestors_version_wf.
Qed.

(** ** A variant name is no version *)

Lemma version_parse_variant s : is_variant s = true -> version_parse s = None.
Proof.
  intros Hs. unfold version_parse, version_captures, scan_variant. destruct s as [|c s]; [done|].
  unfold is_variant in Hs. apply andb_true_iff in Hs as [Hc Hs]. rewrite Hc.
  assert (span is_variant_char (String c s) = (String c s, "")) as ->; [|done].
  rewrite <- (str_app_nil_r (String c s)) at 1. apply span_app; [|done]. simpl. rewrite Hs.
  unfold is_variant_char. by rewrite Hc.
Qed.

(** ** What the texts start with and hold *)

Definition starts_plain (s : string) : bool := match s with EmptyString => false | String c _ => is_lower c || is_digit c end.

Lemma internal_head s : starts_plain s = true -> is_internal_namespace s = false.
Proof.
  destruct s as [|c s]; [done|]. intros Hc. unfold is_internal_namespace.
  change (str_take (String.length RESERVED_INTERNAL_PREFIX) (String c s)) with (String c <$> str_take 4 s).
  destruct (str_take 4 s) as [r|]; [|done]. cbn [fmap option_fmap option_map lowercase].
  change (lowercase RESERVED_INTERNAL_PREFIX) with "__ocx". simpl starts_plain in Hc.
  assert (Ascii.eqb (to_lower c) "_"%char = false) as Hn; [|simpl; by rewrite Hn].
  revert Hc. destruct c as [[] [] [] [] [] [] [] []]; vm_compute; congruence.
Qed.

Lemma numeral_starts s r : is_numeral s = true -> starts_plain (s +:+ r) = true.
Proof.
  intros [Hd Hn]%is_numeral_digits. destruct s as [|c s]; [done|]. simpl in *. apply andb_true_iff in Hd as [-> _].
  by rewrite orb_true_r.
Qed.

Lemma display_starts v : version_wf v = true -> starts_plain (version_display v) = true.
Proof.
  intros Hv. pose proof (captures_of_wf v Hv) as Hc. rewrite display_regex. unfold regex_text.
  unfold captures_wf in Hc. rewrite !andb_true_iff in Hc. destruct Hc as [[[[[[Hva Hma] _] _] _] _] _].
  destruct (cap_variant (captures_of v)) as [n|]; [|exact (numeral_starts _ _ Hma)].
  simpl. destruct n as [|c n]; [done|]. simpl in *. apply andb_true_iff in Hva as [-> _]. done.
Qed.

Lemma opt_text_mem c before o after (p : string -> bool) : opt_ok p o = true -> (forall s, p s = true -> str_mem c s = false) ->
  str_mem c before = false -> str_mem c after = false -> str_mem c (opt_text before o after) = false.
Proof. destruct o as [s|]; simpl; [|done]. intros Hp Hi Hb Ha. by rewrite !str_mem_app, Hb, Ha, (Hi s Hp). Qed.

Lemma variant_no_plus s : is_variant s = true -> str_mem "+"%char s = false.
Proof.
  destruct s as [|c s]; [done|]. unfold is_variant. rewrite andb_true_iff. intros [Hc Hs].
  change (str_mem "+"%char (String c s)) with (Ascii.eqb "+"%char c || str_mem "+"%char s).
  rewrite (str_mem_forall "+"%char is_variant_char s Hs eq_refl), orb_false_r.
  destruct (Ascii.eqb_spec "+"%char c) as [<-|]; [by vm_compute in Hc|done].
Qed.
Lemma numeral_no_plus s : is_numeral s = true -> str_mem "+"%char s = false.
Proof. intros [Hs _]%is_numeral_digits. by eapply str_mem_forall. Qed.
Lemma ident_no_plus s : is_ident s = true -> str_mem "+"%char s = false.
Proof. unfold is_ident. rewrite andb_true_iff. intros [_ Hs]. by eapply str_mem_forall. Qed.

Lemma display_no_plus v : version_wf v = true -> str_mem "+"%char (version_display v) = false.
Proof.
  intros Hv. pose proof (captures_of_wf v Hv) as Hc. rewrite display_regex. unfold regex_text.
  unfold captures_wf in Hc. rewrite !andb_true_iff in Hc. destruct Hc as [[[[[[Hva Hma] Hmi] Hpa] Hpr] Hbu] _].
  rewrite !str_mem_app, (opt_text_mem _ _ _ _ _ Hva variant_no_plus), (numeral_no_plus _ Hma) by done. simpl.
  apply (opt_text_mem _ _ _ _ _ Hmi numeral_no_plus); [done|]. apply (opt_text_mem _ _ _ _ _ Hpa numeral_no_plus); [done|].
  rewrite str_mem_app. rewrite (opt_text_mem _ _ _ _ _ Hpr ident_no_plus), (opt_text_mem _ _ _ _ _ Hbu ident_no_plus) by done. done.
Qed.

Lemma alias_display_plain a : alias_wf a = true -> str_mem "+"%char (alias_display a) = false.
Proof.
  destruct a as [[n|]|v]; simpl; [|done|by apply display_no_plus]. unfold variant_ok. rewrite andb_true_iff.
  intros [Hn _]. by apply variant_no_plus.
Qed.

Lemma alias_starts a : alias_wf a = true -> starts_plain (alias_display a) = true.
Proof.
  intros Ha. destruct a as [[n|]|v]; simpl; [|done|by apply display_starts].
  simpl in Ha. unfold variant_ok in Ha. apply andb_true_iff in Ha as [Ha _]. destruct n as [|c n]; [done|].
  unfold is_variant in Ha. apply andb_true_iff in Ha as [Ha _]. simpl. by rewrite Ha.
Qed.

Lemma alias_not_internal a : alias_wf a = true -> is_internal_namespace (alias_display a) = false.
Proof. intros Ha. by apply internal_head, alias_starts. Qed.

Lemma alias_display_ne a : alias_wf a = true -> alias_display a <> "".
Proof. intros Ha%alias_starts E. by rewrite E in Ha. Qed.

(** ** Injectivity and classification *)

Lemma alias_version_parse a : alias_wf a = true ->
  version_parse (alias_display a) = match a with AVersion v => Some v | Root _ => None end.
Proof.
  destruct a as [[n|]|v]; simpl; [|done|by apply parse_display]. unfold variant_ok. rewrite andb_true_iff.
  intros [Hn _]. by apply version_parse_variant.
Qed.

Lemma alias_display_inj a b : alias_wf a = true -> alias_wf b = true -> alias_display a = alias_display b -> a = b.
Proof.
  intros Ha Hb E. pose proof (alias_version_parse a Ha) as Pa. pose proof (alias_version_parse b Hb) as Pb.
  rewrite E, Pb in Pa. destruct a as [ra|v], b as [rb|v']; simplify_eq; try done.
  destruct ra as [n|], rb as [m|]; simpl in *; unfold variant_ok in *; rewrite ?andb_true_iff, ?negb_true_iff, ?String.eqb_neq in *;
    naive_solver.
Qed.

Lemma tag_from_version v : version_wf v = true -> tag_from (version_display v) = TagVersion v.
Proof.
  intros Hv. unfold tag_from. rewrite (internal_head _ (display_starts v Hv)), (parse_display v Hv).
  destruct (String.eqb_spec (version_display v) LATEST_STR) as [E|]; [|done].
  pose proof (parse_display v Hv) as Hp. by rewrite E in Hp.
Qed.
