(* ===== verification/Reliable.v ===== *)
(** * Pushing to a registry

    What the client's operations do against a registry that stores what it is
    told, in two strengths.  [Faulty]: any request may fail, a failed PUT may or
    may not have stored its manifest, but what is served under a tag is what was
    last stored there.  [Reliable]: besides, authentication, manifest reads and
    manifest writes succeed; blob uploads, mounts and archive reads may still
    fail. *)

From stdpp Require Import base decidable list option numbers strings.
From Stdlib Require Import Lia ZArith Ascii.
From S2P Require Import Prelude OMap Text Version VersionText Digest Tag Cascade PackageRef Platform Registry Client.
From S2P Require Import Push Publish CascadeGraph CascadeFacts CascadeRepair CascadeSpec.
Local Open Scope ocx_scope.
Local Open Scope string_scope.

#[local] Create HintDb quiet.

(** ** The registry's promise *)

(** What a registry serves under its tags.  Only a manifest PUT changes it, and
    only under its own reference; a failed one leaves the old manifest or the new
    one.  A read that succeeds, or reports an unknown manifest, tells the truth. *)
Class Faulty `{U : OciSpec} `{!Codec} (W : Type) `{!Transport W} := {
  served : W -> Reference -> option Bytes;
  faulty_auth : forall r op w r', rf_digest r' = None -> served (ensure_auth r op w).2 r' = served w r';
  faulty_pull : forall r types w r', rf_digest r' = None -> served (pull_manifest_raw r types w).2 r' = served w r';
  faulty_pulled : forall r types w, rf_digest r = None ->
    match (pull_manifest_raw r types w).1 with
    | Ok (b, _) => served w r = Some b
    | Err (ManifestNotFound _) => served w r = None
    | Err _ => True
    end;
  faulty_push : forall r b media_type w r', rf_digest r' = None -> r' <> r ->
    served (push_manifest_raw r b media_type w).2 r' = served w r';
  faulty_pushed : forall r b media_type w, rf_digest r = None ->
    let run := push_manifest_raw r b media_type w in
    served run.2 r = Some b \/ is_ok run.1 = false /\ served run.2 r = served w r;
  faulty_push_blob : forall r b d w r', rf_digest r' = None -> served (push_blob r b d w).2 r' = served w r';
  faulty_head_blob : forall r d w r', rf_digest r' = None -> served (head_blob r d w).2 r' = served w r';
  faulty_mount_blob : forall r src d w r', rf_digest r' = None -> served (mount_blob r src d w).2 r' = served w r';
  faulty_read_file : forall path w r', rf_digest r' = None -> served (read_file path w).2 r' = served w r';
}.

(** Authentication and HEAD requests store nothing, and a HEAD that reports an
    unknown manifest tells the truth. *)
Class Probing `{U : OciSpec} `{!Codec} (W : Type) `{!Transport W} `{!Faulty W} := {
  probing_auth : forall r op w r', served (ensure_auth r op w).2 r' = served w r';
  probing_head : forall r w r', served (fetch_manifest_digest r w).2 r' = served w r';
  probing_absent : forall r w,
    match (fetch_manifest_digest r w).1 with Err (ManifestNotFound _) => served w r = None | _ => True end;
}.

Class Reliable `{U : OciSpec} `{!Codec} (W : Type) `{!Transport W} := {
  reliable_faulty :: Faulty W;
  listing : W -> string -> string -> list string;
  reliable_auth : forall r op w, ensure_auth r op w = (Ok tt, w);
  reliable_pull : forall r types w,
    match served w r with
    | Some b => pull_manifest_raw r types w = (Ok (b, digest_display (hash Sha256 b)), w)
    | None => exists what, pull_manifest_raw r types w = (Err (ManifestNotFound what), w)
    end;
  reliable_push : forall r b media_type w, exists d w',
    push_manifest_raw r b media_type w = (Ok d, w') /\
    forall r', rf_digest r' = None -> served w' r' = if bool_decide (r' = r) then Some b else served w r';
  reliable_listing : forall w registry repository t,
    In t (listing w registry repository) <-> t <> "" /\ is_Some (served w (mkReference registry repository (Some t) None));
  reliable_sorted : forall w registry repository, os_wf (listing w registry repository);
  (** an empty repository may be an unknown one *)
  reliable_list : forall r n after w, let tags := listing w (rf_registry r) (rf_repository r) in
    transport_list_tags r n after w = (Ok (page tags n after), w) \/
    (tags = [] /\ exists what, transport_list_tags r n after w = (Err (RepositoryNotFound what), w));
}.

Lemma digest_display_ne (d : Digest) : digest_display d <> "".
Proof. by destruct d. Qed.

Section Faulty.
Context `{U : OciSpec} `{!TotalOrd NativePlatform} `{!Codec} `{!CodecLaws} {W : Type} `{!Transport W} `{!Faulty W}.
Implicit Types (w : W) (id : OciIdentifier) (t : string).

(** ** Tags of one repository *)

Definition tag_ref id t : Reference := mkReference (pr_registry id) (pr_repository id) (Some t) None.

(** A tag of the package: outside the reserved namespace, and without [+], so that
    the client sends it as it is. *)
Definition plain t : Prop := str_mem "+"%char t = false /\ is_internal_namespace t = false.

Lemma canonical_tag_ref id t : plain t -> canonical_reference (clone_with_tag id t) = tag_ref id t.
Proof. intros [Hp _]. unfold canonical_reference, clone_with_tag, normalize_tag. simpl. by rewrite replace_char_id. Qed.

(** The index a package tag serves. *)
Definition tag_index w id t : option ImageIndex :=
  if is_internal_namespace t then None
  else match served w (tag_ref id t) ≫= manifest_from_slice with Some (MIndex index) => Some index | _ => None end.

(** Every package tag of the repository serves a valid index, or nothing. *)
Definition repo_ok w id : Prop := forall t, is_internal_namespace t = false ->
  served w (tag_ref id t) = None \/
  exists b index, served w (tag_ref id t) = Some b /\ manifest_from_slice b = Some (MIndex index) /\
    validate_image_index index = Ok tt.

Lemma repo_ok_index w id t index : repo_ok w id -> tag_index w id t = Some index ->
  is_internal_namespace t = false /\
  exists b, served w (tag_ref id t) = Some b /\ manifest_from_slice b = Some (MIndex index) /\
    validate_image_index index = Ok tt.
Proof.
  intros Hok. unfold tag_index. destruct (is_internal_namespace t) eqn:Ei; [done|].
  destruct (Hok t Ei) as [->|(b & ix & -> & Hb & Hv)]; simpl; [done|].
  rewrite Hb. intros [= <-]. eauto.
Qed.

Lemma tag_index_served w id t : repo_ok w id ->
  (is_Some (tag_index w id t) <-> is_internal_namespace t = false /\ is_Some (served w (tag_ref id t))).
Proof.
  intros Hok. unfold tag_index. destruct (is_internal_namespace t) eqn:Ei; [split; [by intros []|by intros [? _]]|].
  destruct (Hok t Ei) as [->|(b & ix & -> & Hb & Hv)]; simpl; [split; [by intros []|by intros [_ []]]|].
  rewrite Hb. split; eauto.
Qed.

(** Two worlds that serve the same package tags. *)
Definition package_tag (r : Reference) : Prop :=
  rf_digest r = None /\ match rf_tag r with Some t => is_internal_namespace t = false | None => True end.
Definition same_tags w w' : Prop := forall r, package_tag r -> served w' r = served w r.

Lemma same_tags_refl w : same_tags w w.
Proof. done. Qed.
Lemma same_tags_trans w1 w2 w3 : same_tags w1 w2 -> same_tags w2 w3 -> same_tags w1 w3.
Proof. intros H1 H2 r Hr. by rewrite H2, H1. Qed.

Lemma same_tags_index w w' id t : same_tags w w' -> tag_index w' id t = tag_index w id t.
Proof. intros Hs. unfold tag_index. destruct (is_internal_namespace t) eqn:Ei; [done|]. by rewrite Hs. Qed.

Lemma same_tags_ok w w' id : same_tags w w' -> repo_ok w id -> repo_ok w' id.
Proof. intros Hs Hok t Ht. rewrite Hs by done. by apply Hok. Qed.

(** The slot a tag serves for a platform. *)
Definition tag_slot w id (P : NativePlatform) t : option ImageIndexEntry :=
  index ← tag_index w id t; index_slot (ix_manifests index) P.

(** ** What never moves a tag *)

Definition quiet {E A : Type} (m : io W E A) : Prop := forall w, same_tags w (m w).2.

Lemma quiet_bind {E A B : Type} (m : io W E A) (k : A -> io W E B) : quiet m -> (forall a, quiet (k a)) -> quiet (io_bind m k).
Proof.
  intros Hm Hk w. unfold io_bind. specialize (Hm w). destruct (m w) as [[a|e] w1]; simpl in *; [|done].
  eapply same_tags_trans; [exact Hm|apply Hk].
Qed.
Lemma quiet_ret {E A : Type} (a : A) : quiet (E := E) (io_ret a).
Proof. intros w. apply same_tags_refl. Qed.
Lemma quiet_fail {E A : Type} (e : E) : quiet (A := A) (io_fail e).
Proof. intros w. apply same_tags_refl. Qed.
Lemma quiet_of {E A : Type} (r : result E A) : quiet (io_of r).
Proof. intros w. apply same_tags_refl. Qed.
Lemma quiet_try {E F A : Type} (m : io W E A) : quiet m -> quiet (io_try (F := F) m).
Proof. intros Hm w. unfold io_try. specialize (Hm w). by destruct (m w). Qed.
Lemma quiet_map_err {E F A : Type} (f : E -> F) (m : io W E A) : quiet m -> quiet (io_map_err f m).
Proof. intros Hm w. unfold io_map_err. specialize (Hm w). by destruct (m w). Qed.
Lemma quiet_foldl {E A B : Type} (f : B -> A -> io W E B) l : (forall b a, quiet (f b a)) -> forall acc, quiet (io_foldl f acc l).
Proof.
  intros Hf. induction l as [|a l IH]; intros acc; simpl; [apply quiet_ret|]. apply quiet_bind; [apply Hf|done].
Qed.
Lemma quiet_auth r op : quiet (ensure_auth r op).
Proof. intros w r' [Hr _]. by apply faulty_auth. Qed.
Lemma quiet_push_blob r b d : quiet (push_blob r b d).
Proof. intros w r' [Hr _]. by apply faulty_push_blob. Qed.
Lemma quiet_head_blob r d : quiet (head_blob r d).
Proof. intros w r' [Hr _]. by apply faulty_head_blob. Qed.
Lemma quiet_mount_blob r src d : quiet (mount_blob r src d).
Proof. intros w r' [Hr _]. by apply faulty_mount_blob. Qed.
Lemma quiet_read_file path : quiet (read_file path).
Proof. intros w r' [Hr _]. by apply faulty_read_file. Qed.
(** A manifest pushed by its digest moves no tag. *)
Lemma quiet_push_digest r b media_type d : quiet (push_manifest_raw (reference_with_digest r d) b media_type).
Proof.
  intros w r' [Hr _]. apply faulty_push; [done|]. by intros ->.
Qed.

#[local] Hint Resolve quiet_bind quiet_ret quiet_fail quiet_of quiet_try quiet_map_err quiet_foldl quiet_auth quiet_push_blob
  quiet_head_blob quiet_mount_blob quiet_read_file quiet_push_digest : quiet.
Ltac quiet_step := first [progress eauto 2 with quiet nocore | apply quiet_bind; [|intros] | apply quiet_foldl; intros | case_match].

Lemma quiet_mount_layer r src d : quiet (try_mount_layer r src d).
Proof. unfold try_mount_layer. destruct src; repeat quiet_step. Qed.
Lemma quiet_push_layer r layer : quiet (push_layer r layer).
Proof.
  unfold push_layer. repeat first [apply quiet_mount_layer | quiet_step].
Qed.
Lemma quiet_push_multi id layers builder : quiet (push_multi_layer_manifest id layers builder).
Proof. unfold push_multi_layer_manifest, push_layers. repeat first [apply quiet_push_layer | quiet_step]. Qed.

(** A manifest pushed under a reserved tag moves no package tag. *)
Lemma quiet_push_internal id t b media_type : is_internal_namespace t = true ->
  quiet (push_manifest_raw (tag_ref id t) b media_type).
Proof.
  intros Ht w r' [Hr Hr']. apply faulty_push; [done|]. intros ->. simpl in Hr'. congruence.
Qed.

Lemma quiet_pull r types : quiet (pull_manifest_raw r types).
Proof. intros w r' [Hr _]. by apply faulty_pull. Qed.

Lemma quiet_keep_tag id merged p : quiet (push_keep_tag id merged p).
Proof.
  unfold push_keep_tag. destruct (platform_manifest_digest merged p) as [d|]; [|apply quiet_ret].
  destruct (_ <? _)%nat; [apply quiet_ret|]. apply quiet_bind; [apply quiet_auth|]. intros _.
  apply quiet_bind; [apply quiet_pull|]. intros pulled. apply quiet_bind; [|intros; apply quiet_ret].
  assert (canonical_reference (clone_with_tag id (keep_tag_text d)) = tag_ref id (normalize_tag (keep_tag_text d))) as -> by done.
  apply quiet_push_internal. by destruct d.
Qed.

(** The reads of a cascade move nothing. *)
Lemma quiet_fetch client id : quiet (fetch_manifest client id).
Proof.
  unfold fetch_manifest, fetch_manifest_addressed, fetch_manifest_raw.
  apply quiet_bind; [apply quiet_map_err, quiet_auth|intros _]. apply quiet_bind; [apply quiet_map_err|intros x].
  - apply quiet_bind; [apply quiet_pull|intros x]. apply quiet_bind; [apply quiet_of|intros; apply quiet_ret].
  - apply quiet_bind; [apply quiet_of|intros; apply quiet_ret].
Qed.
Lemma quiet_blocking client id blockers p : quiet (has_blocking_platform client id blockers p).
Proof.
  induction blockers as [|b blockers IH]; cbn [has_blocking_platform]; [apply quiet_ret|].
  apply quiet_bind; [apply quiet_map_err, quiet_fetch|]. intros fetched. case_match; [apply quiet_ret|done].
Qed.
Lemma quiet_resolve_levels client id p levels : forall tags, quiet (resolve_levels client id p levels tags).
Proof.
  induction levels as [|l levels IH]; intros tags; cbn [resolve_levels]; [apply quiet_ret|].
  apply quiet_bind; [apply quiet_try, quiet_blocking|]. intros blocked. repeat case_match; try apply quiet_ret. apply IH.
Qed.
Lemma quiet_resolve client id v others p : quiet (resolve_cascade_tags client id v others p).
Proof.
  unfold resolve_cascade_tags. case_match; [|apply quiet_fail]. apply quiet_bind; [apply quiet_resolve_levels|].
  intros [tags complete]. case_match; [apply quiet_ret|]. apply quiet_bind; [|intros; apply quiet_ret].
  case_match; [|apply quiet_ret]. apply quiet_bind; [apply quiet_try, quiet_blocking|]. intros; apply quiet_ret.
Qed.
End Faulty.

Section Reliable.
Context `{U : OciSpec} `{!TotalOrd NativePlatform} `{!Codec} `{!CodecLaws} {W : Type} `{!Transport W} `{!Reliable W}.
Implicit Types (w : W) (id : OciIdentifier) (t : string).

(** The tags listed for a repository. *)
Definition tags_of w id : list string := listing w (pr_registry id) (pr_repository id).

(** ** Valid indexes *)

Lemma validate_entries_Ok entries : forall position,
  validate_entries position entries = Ok tt <->
  forall e, In e entries -> en_media_type e <> "" /\ en_digest e <> "" /\ (0 <= en_size e)%Z.
Proof.
  induction entries as [|e entries IH]; intros position; simpl; [naive_solver|].
  destruct (String.eqb_spec (en_media_type e) "") as [E1|E1]; [split; [done|]; intros Hall; by destruct (Hall e (or_introl eq_refl))|].
  destruct (String.eqb_spec (en_digest e) "") as [E2|E2]; [split; [done|]; intros Hall; destruct (Hall e (or_introl eq_refl)); tauto|].
  destruct (Z.ltb_spec (en_size e) 0) as [E3|E3]; [split; [done|]; intros Hall; destruct (Hall e (or_introl eq_refl)); lia|].
  rewrite IH. split; [intros Hall x [<-|Hx]; auto|]. intros Hall x Hx. apply Hall. by right.
Qed.

Lemma validate_merged index target digest size annotations :
  validate_image_index index = Ok tt -> digest <> "" -> (0 <= size)%Z ->
  validate_image_index (merged_index index target digest size annotations) = Ok tt.
Proof.
  unfold validate_image_index. simpl. destruct (negb _); [done|]. rewrite !validate_entries_Ok. intros Hi Hd Hs e.
  rewrite in_app_iff, filter_In. intros [[He _]|[<-|[]]]; [by apply Hi|done].
Qed.

Lemma parse_valid b index : manifest_from_slice b = Some (MIndex index) -> validate_image_index index = Ok tt ->
  parse_registry_manifest b = Ok (MIndex index).
Proof. intros Hb Hv. unfold parse_registry_manifest. by rewrite Hb, Hv. Qed.

(** ** The merge *)

Definition after_merge w id t target digest size annotations : ImageIndex :=
  merged_index (default fresh_index (tag_index w id t)) target digest size annotations.

Lemma merge_reliable w id t platform digest size annotations :
  repo_ok w id -> plain t -> digest <> "" -> (0 <= size)%Z ->
  let index' := after_merge w id t (native_from platform) digest size annotations in
  exists d w', merge_platform_into_index id t platform digest size annotations w = (Ok (d, index'), w') /\
    repo_ok w' id /\
    (forall t', tag_index w' id t' = if bool_decide (t' = t) then Some index' else tag_index w id t').
Proof.
  intros Hok Hp Hd Hs. simpl. set (index' := after_merge _ _ _ _ _ _ _). pose proof (proj2 Hp) as Hn.
  unfold merge_platform_into_index. rewrite (canonical_tag_ref id t Hp). unfold io_bind, io_try, io_of, io_ret.
  rewrite reliable_auth. pose proof (reliable_pull (tag_ref id t) [MEDIA_TYPE_OCI_IMAGE_MANIFEST; MEDIA_TYPE_OCI_IMAGE_INDEX] w) as Hpull.
  assert (exists pulled, pull_manifest_raw (tag_ref id t) [MEDIA_TYPE_OCI_IMAGE_MANIFEST; MEDIA_TYPE_OCI_IMAGE_INDEX] w = (pulled, w) /\
    starting_index pulled = Ok (default fresh_index (tag_index w id t)) /\
    validate_image_index (default fresh_index (tag_index w id t)) = Ok tt) as (pulled & -> & -> & Hv).
  { unfold tag_index. rewrite Hn. destruct (Hok t Hn) as [E|(b & ix & E & Hb & Hv)]; rewrite E in *; simpl.
    - destruct Hpull as [what ->]. eauto.
    - rewrite Hpull, Hb. eexists. split; [done|]. simpl. by rewrite (parse_valid b ix Hb Hv). }
  unfold put_index. destruct (index_to_vec_total index') as [data Hdata]. unfold index', after_merge in Hdata. rewrite Hdata.
  unfold io_bind, io_ret.
  destruct (reliable_push (tag_ref id t) data MEDIA_TYPE_OCI_IMAGE_INDEX w) as (d & w' & -> & Hserved).
  pose proof (index_from_slice _ _ Hdata) as Hslice.
  assert (forall t', (tag_ref id t' = tag_ref id t) <-> t' = t) as Hinj.
  { intros t'. unfold tag_ref. split; [by intros [=]|by intros ->]. }
  eexists _, w'. split; [done|]. split.
  - intros t' Ht'. rewrite Hserved by done. case_bool_decide as E.
    + right. eexists _, _. split_and!; [done|exact Hslice|]. by apply validate_merged.
    + by apply Hok.
  - intros t'. unfold tag_index at 1. rewrite Hserved by done.
    assert (bool_decide (tag_ref id t' = tag_ref id t) = bool_decide (t' = t)) as -> by (apply bool_decide_ext, Hinj).
    case_bool_decide as Et; [|done]. subst t'. rewrite Hn. simpl. by rewrite Hslice.
Qed.

(** ** Reads *)

Lemma alias_plain a : alias_wf a = true -> plain (alias_display a).
Proof. intros Ha. split; [by apply alias_display_plain|by apply alias_not_internal]. Qed.
Lemma version_plain v : version_wf v = true -> plain (version_display v).
Proof. apply (alias_plain (AVersion v)). Qed.

Lemma fetch_reliable client w id t index : repo_ok w id -> plain t -> tag_index w id t = Some index ->
  exists d, fetch_manifest client (clone_with_tag id t) w = (Ok (d, MIndex index), w).
Proof.
  intros Hok Hp Hi. destruct (repo_ok_index w id t index Hok Hi) as (_ & b & Hs & Hb & Hv).
  unfold fetch_manifest, fetch_manifest_addressed, fetch_manifest_raw, read_reference.
  rewrite (canonical_tag_ref id t Hp). unfold io_bind, io_map_err, io_of, io_ret.
  rewrite reliable_auth. simpl. pose proof (reliable_pull (tag_ref id t) ACCEPTED_MANIFEST_MEDIA_TYPES w) as Hpull.
  rewrite Hs in Hpull. rewrite Hpull. simpl. rewrite (parse_valid b index Hb Hv). simpl.
  rewrite (digest_parse_display _ (hash_wf Sha256 b)). simpl. eauto.
Qed.

Lemma list_tags_reliable fuel client w id : (0 < c_tag_chunk_size client)%nat -> (length (tags_of w id) < fuel)%nat ->
  list_tags_addressed fuel client id CanonicalRead w = (Ok (Some (tags_of w id)), w) \/
  (tags_of w id = [] /\ exists what, list_tags_addressed fuel client id CanonicalRead w = (Err (RepositoryNotFound what), w)).
Proof.
  intros Hn Hfuel. unfold list_tags_addressed, read_reference, io_bind at 1 2. rewrite reliable_auth.
  set (r := canonical_reference id). pose proof (reliable_sorted w (pr_registry id) (pr_repository id)) as Hs.
  assert (~ In "" (tags_of w id)) as He by (intros [? _]%reliable_listing; done).
  assert (listing w (rf_registry r) (rf_repository r) = tags_of w id) as Hl.
  { unfold r, canonical_reference. by destruct (pr_tag id), (pr_digest id). }
  pose proof (fun after => reliable_list r (c_tag_chunk_size client) after w) as Hlist. rewrite Hl in Hlist. cbv zeta in Hlist.
  destruct (tags_of w id) as [|t ts] eqn:Et.
  - destruct fuel as [|fuel]; [simpl in Hfuel; lia|]. cbn [paginate]. unfold io_bind.
    destruct (Hlist (Some "")) as [->|[_ [what ->]]]; [left|right; eauto].
    assert (page [] (c_tag_chunk_size client) (Some "") = []) as -> by (unfold page; simpl; by rewrite firstn_nil).
    simpl. by destruct (c_tag_chunk_size client); [lia|].
  - left. apply (paginate_resume (t :: ts) (c_tag_chunk_size client)) with (rest := t :: ts); try done.
    + rewrite <- Et. exact Hs.
    + intros after. by destruct (Hlist after) as [?|[? _]].
Qed.

Lemma list_or_empty_reliable fuel client w id : (0 < c_tag_chunk_size client)%nat -> (length (tags_of w id) < fuel)%nat ->
  list_tags_or_empty_addressed fuel client id CanonicalRead w = (Ok (Some (tags_of w id)), w).
Proof.
  intros Hn Hfuel. unfold list_tags_or_empty_addressed, io_bind, io_try.
  destruct (list_tags_reliable fuel client w id Hn Hfuel) as [->|[-> [what ->]]]; done.
Qed.

(** One platform's column of the repository. *)
Definition column w id (P : NativePlatform) (a : AliasTag) : option ImageIndexEntry :=
  if alias_wf a then tag_slot w id P (alias_display a) else None.

Lemma slot_native p e : platform_slot e = Some (native_from p) <-> en_platform e = Some (native_from p).
Proof.
  unfold platform_slot. destruct (en_platform e) as [q|]; simpl; [|done]. split.
  - by destruct (_ && _); [|intros [= ->]].
  - intros [= ->]. destruct (String.eqb_spec (native_os_text (np_os (native_from p))) "unknown") as [Eu|_]; [|done].
    by apply native_from_known in Eu.
Qed.

Lemma has_platform_slot index p :
  has_platform (MIndex index) p = bool_decide (is_Some (index_slot (ix_manifests index) (native_from p))).
Proof.
  apply eq_true_iff_eq. rewrite bool_decide_eq_true. simpl. rewrite existsb_exists. unfold entry_has. split.
  - intros (e & He & Hp). destruct (en_platform e) as [q|] eqn:Eq; [|done]. apply ord_eqb_eq in Hp as ->.
    destruct (index_slot (ix_manifests index) (native_from p)) eqn:Es; [eauto|]. exfalso. unfold index_slot in Es.
    apply last_None in Es. assert (In e []) as []. rewrite <- Es. apply filter_In. split; [done|].
    by apply bool_decide_eq_true, slot_native.
  - intros [e [He Hs]%index_slot_Some]. exists e. split; [done|]. apply slot_native in Hs. rewrite Hs. apply ord_eqb_refl.
Qed.

Section Resolve.
Context (client : Client) (w : W) (id : OciIdentifier) (p : Platform).
Hypothesis (Hok : repo_ok w id).
Let carries := carried (column w id (native_from p)).

Definition present (x : Version) : Prop := version_wf x = true /\ is_Some (tag_index w id (version_display x)).

Lemma blocking_reliable blockers : Forall present blockers ->
  has_blocking_platform client id blockers p w = (Ok (existsb carries blockers), w).
Proof.
  induction 1 as [|x blockers [Hx [index Hi]] _ IH]; [done|]. pose proof (version_plain x Hx) as Hp.
  cbn [has_blocking_platform]. unfold lift, io_bind at 1, io_map_err.
  destruct (fetch_reliable client w id _ index Hok Hp Hi) as [d ->]. cbn [result_map_err snd existsb]. rewrite has_platform_slot.
  assert (carries x = bool_decide (is_Some (index_slot (ix_manifests index) (native_from p)))) as ->.
  { unfold carries, carried, column, tag_slot. simpl. rewrite Hx, Hi. simpl. by destruct (index_slot _ _). }
  case_bool_decide; [done|]. by rewrite IH.
Qed.

Lemma resolve_levels_reliable levels : (forall l, In l levels -> Forall present (cl_blockers l)) -> forall tags,
  resolve_levels client id p levels tags w =
  (Ok ((tags ++ map version_display (reach carries levels).1)%list, (reach carries levels).2), w).
Proof.
  induction levels as [|l levels IH]; intros Hl tags; simpl; [by rewrite app_nil_r|].
  unfold io_bind, io_try. rewrite blocking_reliable by (apply Hl; by left).
  destruct (existsb carries (cl_blockers l)); simpl; [by rewrite app_nil_r|].
  rewrite IH by (intros; apply Hl; by right). destruct (reach carries levels) as [ts c]. simpl. by rewrite <- app_assoc.
Qed.

Lemma reached_display v d : map alias_display (reached carries v d) =
  (map version_display (reach_all carries d).1 ++
   if (reach_all carries d).2 then [default "latest" (v_variant v)] else [])%list.
Proof.
  unfold reached. rewrite map_app, map_map. f_equal. destruct (reach_all carries d).2; [|done]. simpl. by destruct (v_variant v).
Qed.

Lemma resolve_reliable v others d : Forall present others -> decompose v others = Some d ->
  exists is_latest, resolve_cascade_tags client id v others p w = (Ok (map alias_display (reached carries v d), is_latest), w).
Proof.
  intros Hpres Hd. destruct (decompose_blockers v others d Hd) as [Hlev Hlat].
  assert (forall l, (forall x, In x l -> In x others) -> Forall present l) as Hsub.
  { intros l Hl. rewrite List.Forall_forall in *. auto. }
  unfold resolve_cascade_tags. rewrite Hd. unfold io_bind at 1.
  rewrite resolve_levels_reliable by (intros l Hl; apply Hsub; eauto). rewrite reached_display. unfold reach_all.
  destruct (reach carries (cd_levels d)) as [ts []]; simpl; [|rewrite app_nil_r; by eexists].
  destruct (cd_latest_eligible d); unfold io_bind, io_try, io_ret; simpl; [|rewrite app_nil_r; by eexists].
  rewrite blocking_reliable by (by apply Hsub). simpl.
  destruct (existsb carries (cd_latest_blockers d)); simpl; [rewrite app_nil_r|]; by eexists.
Qed.
End Resolve.
End Reliable.
