(* ===== verification/PublishSpec.v ===== *)
(** * Publishing keeps the package consistent

    The two sides of the system agree.  Publishing ([push_with_cascade], which
    decides from the live tags which aliases to move) keeps every platform's
    column cascaded; checking ([gather], [fold_expected], [diff], which recompute
    from the leaves what every alias should carry) then finds nothing.  Proved for
    any sequence of pushes, in any order, against a reliable registry.  Against a
    faulty one, where a push may stop anywhere, what is proved is which tags it can
    have written. *)

From stdpp Require Import base decidable list option numbers strings.
From Stdlib Require Import Lia ZArith Ascii.
From S2P Require Import Prelude OMap Text Version VersionText Digest Tag Cascade PackageRef Platform Registry Client.
From S2P Require Import Push Publish CascadeGraph CascadeFacts CascadeRepair CascadeIO CascadeSpec Reliable.
Local Open Scope ocx_scope.
Local Open Scope string_scope.

Section PublishSpec.
Context `{U : OciSpec} `{!TotalOrd NativePlatform} `{!Codec} `{!CodecLaws} {W : Type} `{!Transport W} `{!Reliable W}.
Implicit Types (w : W) (id : OciIdentifier) (t : string) (P : NativePlatform).

(** ** Filing an entry under tags *)

(** A tag's index claims each platform once. *)
Definition single w id t : Prop :=
  forall index, tag_index w id t = Some index -> List.NoDup (omap platform_slot (ix_manifests index)).

(** From [w] to [w'] the entry [e] was filed for platform [P] under [tags], and nothing else changed. *)
Record filed id P (e : ImageIndexEntry) (tags : list string) w w' : Prop := {
  filed_ok : repo_ok w' id;
  filed_slot : forall t Q, tag_slot w' id Q t = if os_mem t tags && ord_eqb Q P then Some e else tag_slot w id Q t;
  filed_present : forall t, is_Some (tag_index w' id t) <-> In t tags \/ is_Some (tag_index w id t);
  filed_single : forall t, single w id t -> single w' id t;
}.

Lemma filed_nil id P e w w' : repo_ok w id -> same_tags w w' -> filed id P e [] w w'.
Proof.
  intros Hok Hs. split.
  - by eapply same_tags_ok.
  - intros t Q. simpl. unfold tag_slot. by rewrite (same_tags_index w w').
  - intros t. rewrite (same_tags_index w w') by done. simpl. tauto.
  - intros t. unfold single. by rewrite (same_tags_index w w').
Qed.

Lemma filed_app id P e tags1 tags2 w1 w2 w3 :
  filed id P e tags1 w1 w2 -> filed id P e tags2 w2 w3 -> filed id P e (tags1 ++ tags2)%list w1 w3.
Proof.
  intros [O1 S1 P1 D1] [O2 S2 P2 D2]. split.
  - done.
  - intros t Q. rewrite S2, S1. unfold os_mem. rewrite existsb_app.
    by destruct (existsb (ord_eqb t) tags1), (existsb (ord_eqb t) tags2), (ord_eqb Q P).
  - intros t. rewrite P2, P1, in_app_iff. tauto.
  - auto.
Qed.

Lemma pushed_slot p digest size Q :
  index_slot [pushed_entry (native_from p) digest size] Q =
  if ord_eqb Q (native_from p) then Some (pushed_entry (native_from p) digest size) else None.
Proof.
  set (e := pushed_entry (native_from p) digest size). rewrite index_slot_cons.
  assert (platform_slot e = Some (native_from p)) as -> by (by apply slot_native).
  change (index_slot [] Q) with (@None ImageIndexEntry). destruct (ord_eqb Q (native_from p)) eqn:Eq; to_prop.
  - by rewrite bool_decide_eq_true_2.
  - by rewrite bool_decide_eq_false_2 by congruence.
Qed.

Lemma other_platform_slot target e : other_platform target e = false -> forall Q, platform_slot e = Some Q -> Q = target.
Proof.
  unfold other_platform, entry_has, platform_slot. rewrite negb_false_iff.
  destruct (en_platform e) as [q|]; simpl; [|done]. intros ->%ord_eqb_eq Q. destruct (_ && _); [done|]. by intros [= ->].
Qed.

Lemma other_entries_slot target entries Q : Q <> target ->
  index_slot (List.filter (other_platform target) entries) Q = index_slot entries Q.
Proof.
  intros Hne. induction entries as [|e entries IH]; [done|]. rewrite index_slot_cons, <- IH. cbn [List.filter].
  destruct (other_platform target e) eqn:Eo; [by rewrite index_slot_cons|].
  rewrite bool_decide_eq_false_2; [by destruct (index_slot _ Q)|].
  intros Hs. by rewrite (other_platform_slot target e Eo Q Hs) in Hne.
Qed.

Lemma merged_slot index p digest size annotations Q :
  index_slot (ix_manifests (merged_index index (native_from p) digest size annotations)) Q =
  if ord_eqb Q (native_from p) then Some (pushed_entry (native_from p) digest size)
  else index_slot (ix_manifests index) Q.
Proof.
  cbn [merged_index ix_manifests]. rewrite index_slot_app, pushed_slot. destruct (ord_eqb Q (native_from p)) eqn:Eq; [done|].
  to_prop. by apply other_entries_slot.
Qed.

Lemma merged_single index p digest size annotations :
  List.NoDup (omap platform_slot (ix_manifests index)) ->
  List.NoDup (omap platform_slot (ix_manifests (merged_index index (native_from p) digest size annotations))).
Proof.
  cbn [merged_index ix_manifests]. rewrite omap_app. intros Hd.
  assert (omap platform_slot [pushed_entry (native_from p) digest size] = [native_from p]) as ->.
  { rewrite omap_cons_eq. by rewrite (proj2 (slot_native p (pushed_entry (native_from p) digest size)) eq_refl). }
  apply List.NoDup_app; [|repeat constructor; by intros []|].
  - induction (ix_manifests index) as [|e es IH]; [constructor|]. rewrite omap_cons_eq in Hd. cbn [List.filter].
    destruct (platform_slot e) as [Q|] eqn:Es.
    + apply NoDup_cons_iff in Hd as [Hn Hd]. destruct (other_platform _ e); [|by apply IH].
      rewrite omap_cons_eq, Es. constructor; [|by apply IH]. intros Hi. apply Hn.
      apply list_elem_of_In, list_elem_of_omap in Hi as (x & [Hx _]%list_elem_of_In%filter_In & Hxs).
      apply list_elem_of_In, list_elem_of_omap. exists x. by rewrite list_elem_of_In.
    + destruct (other_platform _ e); [rewrite omap_cons_eq, Es|]; by apply IH.
  - intros Q Hi [<-|[]]. apply list_elem_of_In, list_elem_of_omap in Hi as (x & [_ Hx]%list_elem_of_In%filter_In & Hxs).
    apply slot_native in Hxs. unfold other_platform, entry_has in Hx. by rewrite Hxs, ord_eqb_refl in Hx.
Qed.

Lemma merged_entry index p digest size annotations :
  platform_manifest_entry (MIndex (merged_index index (native_from p) digest size annotations)) p =
  Some (pushed_entry (native_from p) digest size).
Proof.
  unfold platform_manifest_entry. cbn [merged_index ix_manifests]. induction (ix_manifests index) as [|e es IH]; simpl.
  - unfold entry_has. simpl. by rewrite ord_eqb_refl.
  - destruct (other_platform (native_from p) e) eqn:Eo; [|exact IH]. simpl.
    unfold other_platform in Eo. apply negb_true_iff in Eo. by rewrite Eo.
Qed.

Lemma merge_filed w id t p digest size annotations : repo_ok w id -> plain t -> digest <> "" -> (0 <= size)%Z ->
  exists r w', merge_platform_into_index id t p digest size annotations w = (Ok r, w') /\
    platform_manifest_entry (MIndex r.2) p = Some (pushed_entry (native_from p) digest size) /\
    tag_index w' id t = Some r.2 /\
    filed id (native_from p) (pushed_entry (native_from p) digest size) [t] w w'.
Proof.
  intros Hok Hp Hd Hs. destruct (merge_reliable w id t p digest size annotations Hok Hp Hd Hs) as (d & w' & Hm & Hok' & Hix).
  eexists _, w'. split; [exact Hm|]. split; [apply merged_entry|]. split; [by rewrite Hix, bool_decide_eq_true_2|]. split.
  - done.
  - intros t' Q. unfold tag_slot. rewrite Hix. unfold os_mem. simpl. rewrite orb_false_r.
    destruct (ord_eqb t' t) eqn:Et; to_prop.
    + rewrite bool_decide_eq_true_2 by done. cbn [mbind option_bind]. unfold after_merge. rewrite merged_slot.
      destruct (ord_eqb Q _); [done|].
      by destruct (tag_index w id t).
    + by rewrite bool_decide_eq_false_2.
  - intros t'. rewrite Hix. simpl. case_bool_decide as Et; [naive_solver|]. naive_solver.
  - intros t' Hone. unfold single. rewrite Hix. case_bool_decide as Et; [|done]. subst t'. intros index [= <-].
    unfold after_merge. apply merged_single. destruct (tag_index w id t) as [ix|] eqn:Ei; simpl; [by apply Hone|constructor].
Qed.

Lemma merge_tags_filed id p digest size annotations tags : digest <> "" -> (0 <= size)%Z -> Forall plain tags -> forall w,
  repo_ok w id ->
  exists w', merge_tags id tags p digest size annotations w = (Ok tt, w') /\
    filed id (native_from p) (pushed_entry (native_from p) digest size) tags w w'.
Proof.
  intros Hd Hs Hpl. unfold merge_tags. induction Hpl as [|t tags Hp _ IH]; intros w Hok; cbn [io_foldl].
  - exists w. split; [done|]. by apply filed_nil.
  - unfold io_bind at 1 2. destruct (merge_filed w id t p digest size annotations Hok Hp Hd Hs) as (r & w1 & -> & _ & _ & Hf).
    cbn [io_ret]. destruct (IH w1 (filed_ok _ _ _ _ _ _ Hf)) as (w' & Hm & Hf'). exists w'. split; [exact Hm|].
    change (t :: tags) with ([t] ++ tags)%list. by eapply filed_app.
Qed.

(** ** One push *)

Lemma push_multi_digest id layers builder w r w' :
  push_multi_layer_manifest id layers builder w = (Ok r, w') -> r.1.2 <> "".
Proof.
  unfold push_multi_layer_manifest, io_bind, io_of, io_ret.
  destruct (ensure_auth _ _ _) as [[?|?] w1]; [|done]. destruct (push_layers _ _ _) as [[lr|?] w2]; [|done].
  destruct (build _) as [parts|?]; [|done]. destruct (push_blob _ _ _ _) as [[?|?] w3]; [|done].
  destruct (push_manifest_raw _ _ _ _) as [[?|?] w4]; [|done]. intros [= <- <-]. simpl. apply digest_display_ne.
Qed.

Lemma i64_try_from_nonneg n z : i64_try_from n = Some z -> (0 <= z)%Z.
Proof. unfold i64_try_from. case_match; [|done]. intros [= <-]. lia. Qed.

Lemma clone_tag_twice id t t' : clone_with_tag (clone_with_tag id t) t' = clone_with_tag id t'.
Proof. done. Qed.

Lemma push_merge_filed id t p layers extra annotations builder w :
  repo_ok w id -> plain t -> Forall plain extra ->
  match push_manifest_and_merge_tags (clone_with_tag id t) p layers extra annotations builder w with
  | (Err _, w') => same_tags w w'
  | (Ok (_, index, _), w') => exists digest size, digest <> "" /\ (0 <= size)%Z /\
      platform_manifest_entry (MIndex index) p = Some (pushed_entry (native_from p) digest size) /\
      filed id (native_from p) (pushed_entry (native_from p) digest size) (t :: extra) w w'
  end.
Proof.
  intros Hok Hp Hpl. unfold push_manifest_and_merge_tags, io_bind at 1. rewrite reliable_auth. unfold io_bind at 1.
  pose proof (quiet_push_multi (clone_with_tag id t) layers builder w) as Hq.
  destruct (push_multi_layer_manifest _ _ _ w) as [[[[[m data] digest] counts]|e] w1] eqn:Em; simpl in Hq; [|done].
  pose proof (push_multi_digest _ _ _ _ _ _ Em) as Hd. simpl in Hd.
  pose proof (same_tags_ok w w1 id Hq Hok) as Hok1.
  destruct (i64_try_from (bytes_len data)) as [size|] eqn:Es; [|done]. apply i64_try_from_nonneg in Es.
  unfold io_bind at 1. assert (tag_or_latest (clone_with_tag id t) = t) as ->.
  { unfold tag_or_latest, clone_with_tag, normalize_tag. simpl. by rewrite replace_char_id by apply Hp. }
  change (merge_platform_into_index (clone_with_tag id t)) with (merge_platform_into_index id).
  destruct (merge_filed w1 id t p digest size annotations Hok1 Hp Hd Es) as (r & w2 & -> & He & _ & Hf).
  unfold io_bind at 1.
  destruct (merge_tags_filed id p digest size annotations extra Hd Es Hpl w2 (filed_ok _ _ _ _ _ _ Hf)) as (w3 & Hm & Hf').
  unfold merge_tags in Hm. rewrite Hm. cbn [io_ret]. destruct r as [rd index]. exists digest, size.
  split_and!; [done|done|exact He|]. change (t :: extra) with ([] ++ [t] ++ extra)%list.
  eapply filed_app; [by apply filed_nil|]. by eapply filed_app.
Qed.

(** ** The invariant *)

(** A version whose tags stay clear of the reserved ones. *)
Definition publishable (v : Version) : Prop :=
  version_wf v = true /\ match v_variant v with Some name => tag_from name = TagOther name | None => True end.

(** A tag of a package that publishes the versions [S]. *)
Definition node (S : list Version) (a : AliasTag) : Prop := exists s, In s S /\ In a (AVersion s :: alias_chain s).

(** The repository holds the versions [S], and every rolling tag carries for each
    platform the entry of the greatest version that cascades into it. *)
Record consistent w id (S : list Version) : Prop := {
  con_ok : repo_ok w id;
  con_single : forall t, single w id t;
  con_antichain : antichain S;
  con_publishable : forall s, In s S -> publishable s;
  con_cascaded : forall P, cascaded S (column w id P);
  con_tags : forall t, is_Some (tag_index w id t) -> exists a, node S a /\ t = alias_display a;
  con_published : forall s, In s S -> exists P, is_Some (column w id P (AVersion s));
}.

Lemma node_wf S a : (forall s, In s S -> publishable s) -> node S a -> alias_wf a = true.
Proof. intros Hp (s & Hs & [<-|Ha]); destruct (Hp s Hs) as [Hw _]; [done|by eapply chain_alias_wf]. Qed.

#[local] Instance cascaded_proper S : Proper (pointwise_relation AliasTag eq ==> iff) (cascaded (E := ImageIndexEntry) S).
Proof.
  intros c c' Hc. unfold cascaded, leads. split; intros Hcas a e Hna.
  - rewrite <- (Hc a), (Hcas a e Hna). by setoid_rewrite Hc.
  - rewrite (Hc a), (Hcas a e Hna). by setoid_rewrite Hc.
Qed.

Lemma column_same w w' id P a : same_tags w w' -> column w' id P a = column w id P a.
Proof. intros Hs. unfold column, tag_slot. by rewrite (same_tags_index w w'). Qed.

Lemma consistent_same w w' id S : same_tags w w' -> consistent w id S -> consistent w' id S.
Proof.
  intros Hs [C1 C2 C3 C4 C5 C6 C7]. split; try done.
  - by eapply same_tags_ok.
  - intros t. unfold single. rewrite (same_tags_index w w') by done. apply C2.
  - intros P. rewrite (cascaded_proper S _ _ (fun a => column_same w w' id P a Hs)). apply C5.
  - intros t. rewrite (same_tags_index w w') by done. apply C6.
  - intros s Hin. destruct (C7 s Hin) as [P HP]. exists P. by rewrite (column_same w w').
Qed.


(** ** One step of publishing *)

Lemma column_filed id P e v aliases w w' Q a : version_wf v = true -> (forall b, In b aliases -> In b (alias_chain v)) ->
  filed id P e (map alias_display (AVersion v :: aliases)) w w' ->
  column w' id Q a = if ord_eqb Q P then column_push (column w id Q) v aliases e a else column w id Q a.
Proof.
  intros Hv Hal Hf. unfold column, column_push. rewrite (filed_slot _ _ _ _ _ _ Hf).
  assert (forall b, In b (AVersion v :: aliases) -> alias_wf b = true) as Hwf.
  { intros b [<-|Hb]; [done|]. by eapply chain_alias_wf, Hal. }
  destruct (alias_wf a) eqn:Ea.
  - assert (os_mem (alias_display a) (map alias_display (AVersion v :: aliases)) = os_mem a (AVersion v :: aliases)) as ->.
    { apply eq_true_iff_eq. rewrite !os_mem_In, in_map_iff. split; [|intros Hin; by exists a].
      intros (b & Eb & Hb). by rewrite <- (alias_display_inj b a (Hwf b Hb) Ea Eb). }
    by destruct (os_mem a _), (ord_eqb Q P).
  - destruct (os_mem a (AVersion v :: aliases)) eqn:Em; [|by destruct (ord_eqb Q P)].
    apply os_mem_In, Hwf in Em. congruence.
Qed.

Lemma present_filed id P e tags w w' x : filed id P e tags w w' -> present w id x -> present w' id x.
Proof. intros Hf [Hx Hi]. split; [done|]. apply (filed_present _ _ _ _ _ _ Hf). by right. Qed.

Lemma present_same id w w' x : same_tags w w' -> present w id x -> present w' id x.
Proof. intros Hs [Hx Hi]. split; [done|]. by rewrite (same_tags_index w w'). Qed.

Section Step.
Context (id : OciIdentifier) (S others : list Version) (v : Version) (w : W).
Hypotheses (C : consistent w id S) (Hpub : publishable v) (Hfresh : fresh S v) (Hw : os_wf others)
  (Hcover : forall s, In s S -> v <o s -> v_variant s = v_variant v -> In s others).

Lemma consistent_filed P e d w' : decompose v others = Some d ->
  filed id P e (map alias_display (AVersion v :: reached (carried (column w id P)) v d)) w w' ->
  consistent w' id (v :: S).
Proof.
  intros Hd Hf. set (aliases := reached (carried (column w id P)) v d) in *. destruct Hpub as [Hv Hvar].
  assert (forall b, In b aliases -> In b (alias_chain v)) as Hal.
  { intros b Hb. eapply reached_chain; [exact Hw|exact Hd|exact Hb]. }
  pose proof (fun Q a => column_filed id P e v aliases w w' Q a Hv Hal Hf) as Hcol. split.
  - by eapply filed_ok.
  - intros t. eapply filed_single; [exact Hf|]. apply (con_single _ _ _ C).
  - apply antichain_publish; [apply (con_antichain _ _ _ C)|done].
  - intros s [<-|Hs]; [done|]. by apply (con_publishable _ _ _ C).
  - intros Q. rewrite (cascaded_proper _ _ _ (Hcol Q)). destruct (ord_eqb Q P) eqn:EQ; to_prop.
    + change (cascaded (v :: S) (column_push (column w id P) v aliases e)).
      eapply column_push_cascaded; [apply (con_cascaded _ _ _ C)|exact Hfresh|exact Hw| |exact Hd].
      intros s Hs Hlt Hva _. by apply Hcover.
    + apply cascaded_publish; [apply (con_cascaded _ _ _ C)|exact Hfresh].
  - intros t [(a & <- & Ha)%in_map_iff|Ht]%(filed_present _ _ _ _ _ _ Hf).
    + exists a. split; [|done]. exists v. split; [by left|]. destruct Ha as [<-|Ha]; [by left|right; by apply Hal].
    + destruct (con_tags _ _ _ C t Ht) as (a & (s & Hs & Ha) & ->). exists a. split; [|done]. exists s. split; [by right|done].
  - intros s [<-|Hs].
    + exists P. rewrite Hcol, ord_eqb_refl. unfold column_push.
      rewrite (proj2 (os_mem_In (AVersion v) (AVersion v :: aliases)) (in_eq _ _)). eauto.
    + destruct (con_published _ _ _ C s Hs) as [Q HQ]. exists Q. rewrite Hcol. unfold column_push.
      destruct (ord_eqb Q P), (os_mem (AVersion s) (AVersion v :: aliases)); eauto.
Qed.

Lemma reached_plain P d : decompose v others = Some d ->
  Forall plain (map alias_display (AVersion v :: reached (carried (column w id P)) v d)).
Proof.
  intros Hd. apply List.Forall_forall. intros t (a & <- & Ha)%in_map_iff. apply alias_plain.
  destruct Ha as [<-|Ha]; [apply Hpub|]. apply (chain_alias_wf v); [apply Hpub|].
  eapply reached_chain; [exact Hw|exact Hd|exact Ha].
Qed.
End Step.

(** ** The default-variant aliases *)

Lemma without_variant_wf v : version_wf v = true -> version_wf (without_variant v) = true.
Proof. unfold version_wf, without_variant. simpl. rewrite !andb_true_iff. intros [[_ Hm] Hr]. done. Qed.

Lemma bare_publishable v : publishable v -> publishable (without_variant v).
Proof. intros [Hv _]. split; [by apply without_variant_wf|done]. Qed.

(** Chains stay within a variant. *)
Lemma chain_variant v b : In (AVersion b) (alias_chain v) -> v_variant b = v_variant v.
Proof. intros [Hb _]%alias_chain_below. by apply below_variant. Qed.

Lemma fresh_other_variant S v u : v_variant u <> v_variant v -> fresh S v -> fresh (u :: S) v.
Proof.
  intros Hne Hf s [<-|Hs]; [|by apply Hf]. split; intros Hc%chain_variant; congruence.
Qed.

Lemma fresh_self S v : fresh S v -> fresh (v :: S) v.
Proof.
  intros Hf s [<-|Hs]; [|by apply Hf]. split; intros [Hb _]%alias_chain_below; by rewrite below_irrefl in Hb.
Qed.

(** The published versions after pushing [v], at most with its default-variant twin. *)
Definition grown (default_ : bool) v (S S' : list Version) : Prop :=
  (forall s, In s S -> In s S') /\
  (forall s, In s S' -> In s S \/ s = v \/ default_ = true /\ s = without_variant v).

(** What a push of [v] may be started with: the version, and with [--default] its
    twin without the variant, is no alias of a published one. *)
Definition admissible (S : list Version) v (default_ : bool) : Prop :=
  publishable v /\ fresh S v /\ (default_ = true -> fresh S (without_variant v)).

(** [others] was read off the tags before the push began. *)
Definition covers w id (S others : list Version) v : Prop :=
  os_wf others /\ Forall (present w id) others /\
  forall s, In s S -> s <> v -> s <> without_variant v -> In s others.

Lemma without_variant_none v : v_variant v = None -> without_variant v = v.
Proof. destruct v as [[]]; by intros. Qed.

Lemma default_aliases_filed client id w S v others p merged digest size default_ annotations :
  consistent w id (v :: S) -> admissible S v default_ -> covers w id S others v ->
  platform_manifest_entry merged p = Some (pushed_entry (native_from p) digest size) -> digest <> "" -> (0 <= size)%Z ->
  exists aliases w' S', write_default_variant_aliases client (clone_with_tag id (version_display v)) p merged v default_
                          (Some others) annotations w = (Ok aliases, w') /\
    grown default_ v (v :: S) S' /\ consistent w' id S' /\ Forall (present w' id) others.
Proof.
  intros C (Hpub & Hfr & Hbare) (Hw & Hpres & Hcov) He Hd Hs. unfold write_default_variant_aliases.
  assert (grown default_ v (v :: S) (v :: S)) as Hg by (split; auto).
  destruct default_; simpl; [|exists [], w, (v :: S); done].
  case_bool_decide as Hvar; [exists [], w, (v :: S); done|]. rewrite He.
  set (bare := without_variant v). destruct (decompose_total bare others) as [d Hdec].
  unfold io_bind at 1 2.
  destruct (resolve_reliable client w (clone_with_tag id (version_display v)) p (con_ok _ _ _ C) bare others d Hpres Hdec) as [l ->].
  change (column w (clone_with_tag id (version_display v))) with (column w id). cbn [io_ret fst].
  set (aliases := reached (carried (column w id (native_from p))) bare d).
  assert (fresh (v :: S) bare) as Hfb by (apply fresh_other_variant; [simpl; congruence|by apply Hbare]).
  unfold io_bind, lift, io_map_err.
  change (version_display bare :: map alias_display aliases) with (map alias_display (AVersion bare :: aliases)).
  destruct (merge_tags_filed id p digest size annotations (map alias_display (AVersion bare :: aliases)) Hd Hs) with (w := w)
    as (w' & Hm & Hf); [by apply (reached_plain id others bare w (bare_publishable v Hpub) Hw)|apply (con_ok _ _ _ C)|].
  cbn [en_digest en_size pushed_entry].
  change (merge_tags (clone_with_tag id (version_display v))) with (merge_tags id). rewrite Hm. cbn [result_map_err].
  eexists _, w', (bare :: v :: S). split; [done|]. split_and!.
  - split; [intros s Hin; by right|]. intros s [<-|?]; auto.
  - eapply (consistent_filed id (v :: S) others bare w); [exact C|by apply bare_publishable|exact Hfb|exact Hw| |exact Hdec|exact Hf].
    intros s Hin Hlt Hva. assert (s <> bare) by (intros ->; by apply ord_irrefl in Hlt).
    destruct Hin as [<-|Hin]; [by simpl in Hva|]. apply Hcov; [done| |done]. intros ->. by simpl in Hva.
  - eapply List.Forall_impl; [|exact Hpres]. intros x. by apply (present_filed id _ _ _ w w' x Hf).
Qed.

(** ** The whole push of one platform *)

Section Stage.
Context (client : Client) (id : OciIdentifier) (w : W) (v : Version) (others : list Version) (d : CascadeDecomposition) (info : Info).
Hypotheses (Hok : repo_ok w id) (Hpub : publishable v) (Hw : os_wf others) (Hpres : Forall (present w id) others)
  (Hd : decompose v others = Some d).
Let p := in_platform info.
Let aliases := reached (carried (column w id (native_from p))) v d.

(** What follows the filing: the default-variant aliases, the keep tag, the report. *)
Definition push_tail (keep_tag default_ : bool) annotations (pushed : Digest * ImageIndex * LayerCounts) :
    io W PackageError CascadePushOutcome :=
  let target := clone_with_tag id (version_display v) in
  let '(manifest_digest, index, layer_counts) := pushed in
  let merged := MIndex index in
  let! written := write_default_variant_aliases client target p merged v default_ (Some others) annotations in
  let! kept := (if keep_tag : bool then lift (push_keep_tag target merged p) else io_ret None) in
  io_ret (mkPushOutcome manifest_digest (map alias_display aliases) kept (platform_manifest_digest merged p) written layer_counts).

(** A push fails without moving a tag, or files one entry under the version and the
    reached aliases and goes on. *)
Lemma push_stage layers keep_tag default_ annotations :
  let run := push_with_cascade client (clone_with_tag id (version_display v)) info layers others v keep_tag default_ annotations w in
  (exists e w', run = (Err e, w') /\ same_tags w w') \/
  (exists md index counts digest size w', run = push_tail keep_tag default_ annotations (md, index, counts) w' /\
     digest <> "" /\ (0 <= size)%Z /\
     platform_manifest_entry (MIndex index) p = Some (pushed_entry (native_from p) digest size) /\
     filed id (native_from p) (pushed_entry (native_from p) digest size) (map alias_display (AVersion v :: aliases)) w w').
Proof.
  intros run. pose proof (eq_refl run) as Hrun. unfold run at 1 in Hrun. clearbody run. symmetry in Hrun.
  unfold push_with_cascade in Hrun. unfold io_bind at 1 in Hrun. fold p in Hrun.
  destruct (resolve_reliable client w (clone_with_tag id (version_display v)) p Hok v others d Hpres Hd) as [is_latest Hres].
  rewrite Hres in Hrun. change (column w (clone_with_tag id (version_display v))) with (column w id) in Hrun.
  cbn [fst] in Hrun. fold aliases in Hrun.
  unfold lift at 1, io_bind at 1, io_map_err at 1, io_of at 1 in Hrun.
  destruct (manifest_builder info) as [builder|e]; cbn [result_map_err] in Hrun; [|left; by eexists _, _].
  unfold lift at 1, io_bind at 1, io_map_err at 1 in Hrun.
  pose proof (reached_plain id others v w Hpub Hw (native_from p) d Hd) as Hpl. fold aliases in Hpl.
  inversion Hpl as [|t ts Ht Hts Et]; subst t ts.
  pose proof (push_merge_filed id (version_display v) p layers (map alias_display aliases) annotations builder w Hok Ht Hts) as Hpush.
  destruct (push_manifest_and_merge_tags _ _ _ _ _ _ w) as [[[[md index] counts]|e] w1]; cbn [result_map_err] in Hrun;
    [|left; by eexists _, _].
  right. destruct Hpush as (digest & size & ? & ? & ? & ?). by exists md, index, counts, digest, size, w1.
Qed.
End Stage.

(** A push ended with the package consistent, and what it started from still listed. *)
Definition settles {E A : Type} id (default_ : bool) (S others : list Version) v (run : result E A * W) : Prop :=
  exists S', grown default_ v S S' /\ consistent run.2 id S' /\ Forall (present run.2 id) others /\
    (is_ok run.1 = true -> In v S').

Lemma settles_tail client id w S v others d info keep_tag default_ annotations md index counts digest size w1 :
  let p := in_platform info in
  consistent w id S -> admissible S v default_ -> covers w id S others v -> decompose v others = Some d ->
  digest <> "" -> (0 <= size)%Z ->
  platform_manifest_entry (MIndex index) p = Some (pushed_entry (native_from p) digest size) ->
  filed id (native_from p) (pushed_entry (native_from p) digest size)
    (map alias_display (AVersion v :: reached (carried (column w id (native_from p))) v d)) w w1 ->
  settles id default_ S others v (push_tail client id w v others d info keep_tag default_ annotations (md, index, counts) w1).
Proof.
  intros p C Hadm (Hw & Hpres & Hin) Hd Hdig Hsize He Hf. pose proof Hadm as (Hpub & Hfr & _).
  assert (consistent w1 id (v :: S)) as C1.
  { eapply (consistent_filed id S others v w); [exact C|exact Hpub|exact Hfr|exact Hw| |exact Hd|exact Hf].
    intros s Hs Hlt Hva. apply Hin; [done| |]; intros ->; [by apply ord_irrefl in Hlt|].
    rewrite (without_variant_none v) in Hlt by done. by apply ord_irrefl in Hlt. }
  assert (Forall (present w1 id) others) as Hpres1.
  { eapply List.Forall_impl; [|exact Hpres]. intros x. by apply (present_filed id _ _ _ w w1 x Hf). }
  destruct (default_aliases_filed client id w1 S v others p (MIndex index) digest size default_ annotations C1 Hadm)
    as (al & w2 & S2 & Hal & [G1 G2] & C2 & Hpres2); [done|done|done|done|].
  assert (grown default_ v S S2) as HgS.
  { split; [intros; apply G1; by right|]. intros s Hs. destruct (G2 s Hs) as [[<-|?]|?]; auto. }
  assert (In v S2) as Hv2 by (apply G1; by left).
  unfold push_tail. fold p. unfold io_bind at 1. rewrite Hal. destruct keep_tag; [|by exists S2].
  unfold io_bind, lift, io_map_err. pose proof (quiet_keep_tag (clone_with_tag id (version_display v)) (MIndex index) p w2) as Hq.
  destruct (push_keep_tag _ _ _ w2) as [[k|e] w3]; cbn [result_map_err io_ret fst snd] in *.
  all: exists S2; split_and!; [done|by eapply consistent_same| |done].
  all: eapply List.Forall_impl; [|exact Hpres2]; intros x; by apply present_same.
Qed.

Lemma push_with_cascade_consistent client id w S v others info layers keep_tag default_ annotations :
  consistent w id S -> admissible S v default_ -> covers w id S others v ->
  settles id default_ S others v
    (push_with_cascade client (clone_with_tag id (version_display v)) info layers others v keep_tag default_ annotations w).
Proof.
  intros C Hadm Hcov. pose proof Hadm as (Hpub & _). pose proof Hcov as (Hw & Hpres & _).
  destruct (decompose_total v others) as [d Hd].
  destruct (push_stage client id w v others d info (con_ok _ _ _ C) Hpub Hw Hpres Hd layers keep_tag default_ annotations)
    as [(e & w' & -> & Hs)|(md & index & counts & digest & size & w' & -> & Hdig & Hsize & He & Hf)].
  - exists S. split_and!; [split; auto|by eapply consistent_same| |by intros].
    eapply List.Forall_impl; [|exact Hpres]. intros x. by apply present_same.
  - by eapply settles_tail.
Qed.

(** ** All platforms of a push *)

Lemma grown_trans default_ v S1 S2 S3 : grown default_ v S1 S2 -> grown default_ v S2 S3 -> grown default_ v S1 S3.
Proof.
  intros [A1 B1] [A2 B2]. split; [auto|]. intros s Hs. destruct (B2 s Hs) as [H2|?]; [apply B1 in H2|]; tauto.
Qed.

Lemma fresh_grown default_ S S' v u : (u = v \/ u = without_variant v) -> grown default_ v S S' -> fresh S u -> fresh S' u.
Proof.
  intros Hu [_ G] Hf s Hs. destruct (G s Hs) as [HS|[->|[_ ->]]]; [by apply Hf| |].
  - destruct Hu as [->| ->].
    + by apply (fresh_self S v Hf); left.
    + destruct (v_variant v) eqn:Ev; [|rewrite (without_variant_none v Ev) in *; by apply (fresh_self S v Hf); left].
      apply (fresh_other_variant S (without_variant v) v); [simpl; congruence|done|by left].
  - destruct Hu as [->| ->]; [|by apply (fresh_self S _ Hf); left].
    destruct (v_variant v) eqn:Ev; [|rewrite (without_variant_none v Ev) in *; by apply (fresh_self S v Hf); left].
    apply (fresh_other_variant S v (without_variant v)); [simpl; congruence|done|by left].
Qed.

Lemma admissible_grown S S' v default_ : grown default_ v S S' -> admissible S v default_ -> admissible S' v default_.
Proof.
  intros G (Hp & Hf & Hb). split_and!; [done| |].
  - eapply fresh_grown; [by left|done|done].
  - intros Hd. eapply fresh_grown; [by right|done|by apply Hb].
Qed.

(** The same without the listing, for a push of the platforms [infos]. *)
Definition settled {E A B : Type} id (default_ : bool) (S : list Version) v (infos : list B) (run : result E A * W) : Prop :=
  exists S', grown default_ v S S' /\ consistent run.2 id S' /\ (is_ok run.1 = true -> infos <> [] -> In v S').

Lemma settled_bind {E A A' B : Type} id default_ S v (infos : list B) (m : io W E A) (k : A -> io W E A') w :
  settled id default_ S v infos (m w) -> (forall a w1, same_tags w1 (k a w1).2) -> settled id default_ S v infos (io_bind m k w).
Proof.
  intros (S' & G & C & V) Hk. unfold io_bind. destruct (m w) as [[a|e] w1]; [|by exists S'].
  exists S'. split_and!; [done|by eapply consistent_same|]. intros _. by apply V.
Qed.

Lemma push_cascade_fold client id v others layers keep_tag default_ annotations infos : forall w S s,
  consistent w id S -> admissible S v default_ -> covers w id S others v ->
  settled id default_ S v infos
    (io_foldl (push_cascade_one client (clone_with_tag id (version_display v)) layers others v keep_tag default_ annotations)
       s infos w).
Proof.
  induction infos as [|info infos IH]; intros w S s C Hadm Hcov; cbn [io_foldl].
  - exists S. split_and!; [split; auto|done|done].
  - unfold io_bind at 1, push_cascade_one at 1. unfold io_bind at 1.
    destruct (push_with_cascade_consistent client id w S v others info layers keep_tag default_ annotations C Hadm Hcov)
      as (S1 & G1 & C1 & P1 & V1).
    destruct (push_with_cascade _ _ _ _ _ _ _ _ _ w) as [[o|e] w1]; cbn [fst snd is_ok io_ret] in *.
    + destruct Hcov as (Hw & _ & Hin). edestruct (IH w1 S1) as (S2 & G2 & C2 & V2); [done|by eapply admissible_grown| |].
      { split_and!; [done|done|]. intros x Hx Hn1 Hn2. destruct G1 as [_ G1]. destruct (G1 x Hx) as [?|[?|[_ ?]]]; auto; done. }
      exists S2. split_and!; [by eapply grown_trans|exact C2|]. intros _ _. by apply G2, V1.
    + exists S1. split_and!; [done|done|]. by intros.
Qed.

Lemma push_cascade_consistent client id target infos layers existing build_meta keep_tag default_ annotations w S v :
  apply_build_meta target build_meta = Ok (clone_with_tag id (version_display v)) ->
  consistent w id S -> admissible S v default_ -> covers w id S existing v ->
  settled id default_ S v infos (push_cascade client target infos layers existing build_meta keep_tag default_ annotations w).
Proof.
  intros Hb C Hadm Hcov. pose proof Hadm as ((Hv & _) & _). unfold push_cascade. rewrite Hb. unfold io_bind at 1, io_of at 1.
  assert (tag_or_latest (clone_with_tag id (version_display v)) = version_display v) as ->.
  { unfold tag_or_latest, clone_with_tag, normalize_tag. simpl. by rewrite replace_char_id by apply (version_plain v Hv). }
  rewrite (parse_display v Hv). apply settled_bind; [by apply push_cascade_fold|].
  intros s w1. unfold push_finish. destruct (ps_manifest_digest s); apply same_tags_refl.
Qed.

(** ** Publishing from the live listing *)

Lemma version_not_internal t v : version_parse t = Some v -> is_internal_namespace t = false.
Proof.
  intros [c Ec]%version_parse_Some_captures. apply internal_head.
  apply version_captures_sound in Ec as [Hw Ht]. unfold captures_wf in Hw. rewrite !andb_true_iff in Hw.
  destruct Hw as [[[[[[Hva Hma] _] _] _] _] _]. unfold regex_text in Ht.
  destruct (cap_variant c) as [n|]; [|destruct Ht as [->| ->]; exact (numeral_starts _ _ Hma)].
  destruct n as [|ch n]; [done|]. simpl in Hva. apply andb_true_iff in Hva as [Hc _].
  destruct Ht as [->| ->]; simpl; by rewrite Hc.
Qed.

Lemma published_present w id S s : consistent w id S -> In s S -> is_Some (tag_index w id (version_display s)).
Proof.
  intros C Hs. destruct (con_publishable _ _ _ C s Hs) as [Hw _]. destruct (con_published _ _ _ C s Hs) as [P [e He]].
  unfold column, tag_slot in He. simpl in He. rewrite Hw in He. by destruct (tag_index w id (version_display s)).
Qed.

Lemma published_listed w id S s : consistent w id S -> In s S -> In (version_display s) (tags_of w id).
Proof.
  intros C Hs. apply reliable_listing. split; [apply (alias_display_ne (AVersion s)), (con_publishable _ _ _ C s Hs)|].
  by eapply (tag_index_served w id _ (con_ok _ _ _ C)), published_present.
Qed.

(** The versions a push reads off the listing are the present ones. *)
Lemma listed_covers w id S v : consistent w id S -> covers w id S (parse_versions (tags_of w id)) v.
Proof.
  intros C. unfold parse_versions. split_and!.
  - apply os_of_list_wf.
  - apply List.Forall_forall. intros x (t & Ht & Hx)%os_of_list_In%list_elem_of_In%list_elem_of_omap.
    apply list_elem_of_In, reliable_listing in Ht as [_ Ht].
    assert (is_Some (tag_index w id t)) as Hi.
    { apply (tag_index_served w id t (con_ok _ _ _ C)). split; [by eapply version_not_internal|done]. }
    destruct (con_tags _ _ _ C t Hi) as (a & Ha & ->). pose proof (node_wf S a (con_publishable _ _ _ C) Ha) as Hw.
    rewrite (alias_version_parse a Hw) in Hx. destruct a as [r|y]; [done|]. injection Hx as ->. done.
  - intros x Hx _ _. destruct (con_publishable _ _ _ C x Hx) as [Hw _].
    apply os_of_list_In, list_elem_of_In, list_elem_of_omap. exists (version_display x).
    split; [|by apply parse_display]. apply list_elem_of_In. by eapply published_listed.
Qed.

Lemma publish_consistent fuel client id target infos layers build_meta keep_tag default_ annotations w S v :
  (0 < c_tag_chunk_size client)%nat -> (length (tags_of w id) < fuel)%nat -> tags_of w target = tags_of w id ->
  apply_build_meta target build_meta = Ok (clone_with_tag id (version_display v)) ->
  consistent w id S -> admissible S v default_ ->
  settled id default_ S v infos (publish fuel client target infos layers build_meta keep_tag default_ annotations w).
Proof.
  intros Hn Hfuel Ht Hb C Hadm. unfold publish, lift. unfold io_bind at 1, io_map_err.
  rewrite list_or_empty_reliable by (rewrite ?Ht; done). rewrite Ht. cbn [result_map_err].
  apply settled_bind; [|intros; apply same_tags_refl]. eapply push_cascade_consistent; [exact Hb|exact C|exact Hadm|].
  by apply listed_covers.
Qed.

(** ** Histories *)

(** The worlds a package's publishers can bring about, with the versions they asked
    to publish: from a repository without package tags, by pushes that may fail
    half way, and by anything else that moves no package tag. *)
Inductive history (id : OciIdentifier) : list Version -> W -> Prop :=
| history_start w :
    (forall t, is_internal_namespace t = false -> served w (tag_ref id t) = None) -> history id [] w
| history_publish R w fuel client target infos layers build_meta keep_tag default_ annotations v :
    history id R w -> admissible R v default_ ->
    (0 < c_tag_chunk_size client)%nat -> (length (tags_of w id) < fuel)%nat -> tags_of w target = tags_of w id ->
    apply_build_meta target build_meta = Ok (clone_with_tag id (version_display v)) ->
    history id (v :: (if default_ then [without_variant v] else []) ++ R)%list
      (publish fuel client target infos layers build_meta keep_tag default_ annotations w).2
| history_other R w w' : history id R w -> same_tags w w' -> history id R w'.

Lemma fresh_subset S R v : (forall s, In s S -> In s R) -> fresh R v -> fresh S v.
Proof. intros Hsub Hf s Hs. by apply Hf, Hsub. Qed.

Lemma consistent_start id w : (forall t, is_internal_namespace t = false -> served w (tag_ref id t) = None) -> consistent w id [].
Proof.
  intros Hw. assert (forall t, tag_index w id t = None) as Hi.
  { intros t. unfold tag_index. destruct (is_internal_namespace t) eqn:E; [done|]. by rewrite Hw. }
  split.
  - intros t Ht. left. by apply Hw.
  - intros t index. by rewrite Hi.
  - by intros s s' [].
  - by intros s [].
  - intros P a e _. unfold column, tag_slot. rewrite (Hi (alias_display a)). simpl. split; [by destruct (alias_wf a)|]. by intros (s & [] & _).
  - intros t [index Ht]. by rewrite Hi in Ht.
  - by intros s [].
Qed.

Lemma history_consistent id R w : history id R w -> exists S, (forall s, In s S -> In s R) /\ consistent w id S.
Proof.
  induction 1 as [w Hw|R w fuel client target infos layers build_meta keep_tag default_ annotations v _ (S & Hsub & C) Hadm Hn Hf Ht Hb
                 |R w w' _ (S & Hsub & C) Hs].
  - exists []. split; [done|]. by apply consistent_start.
  - destruct Hadm as (Hp & Hfr & Hd).
    assert (admissible S v default_) as Hadm.
    { split_and!; [done|by eapply fresh_subset|]. intros E. eapply fresh_subset; [done|by apply Hd]. }
    destruct (publish_consistent fuel client id target infos layers build_meta keep_tag default_ annotations w S v Hn Hf Ht Hb C Hadm)
      as (S' & [G1 G2] & C' & _).
    exists S'. split; [|exact C']. intros s Hs. destruct (G2 s Hs) as [HS|[->|[-> ->]]].
    + right. apply in_app_iff. right. by apply Hsub.
    + by left.
    + right. by left.
  - exists S. split; [done|]. by eapply consistent_same.
Qed.

End PublishSpec.

(** ** A push that may stop anywhere *)

(** The tags a cascade resolves, whatever the reads answer: a run of the alias
    chain from its most specific end. *)
Section Resolved.
Context `{U : OciSpec} `{!TotalOrd NativePlatform} `{!Codec} {W : Type} `{!Transport W}.

Lemma prefix_map_inv {A B : Type} (f : A -> B) l k : l `prefix_of` map f k -> exists k', k' `prefix_of` k /\ l = map f k'.
Proof.
  intros [rest Hl]. exists (firstn (length l) k). split; [exists (skipn (length l) k); by rewrite firstn_skipn|].
  by rewrite <- firstn_map, Hl, firstn_app, Nat.sub_diag, firstn_all, app_nil_r.
Qed.

Lemma resolve_levels_prefix client id p levels : forall tags (w : W) r w',
  resolve_levels client id p levels tags w = (Ok r, w') ->
  exists reached, reached `prefix_of` map cl_target levels /\ r.1 = (tags ++ map version_display reached)%list /\
    (r.2 = true -> reached = map cl_target levels).
Proof.
  induction levels as [|l levels IH]; intros tags w r w'; cbn [resolve_levels].
  - intros [= <- <-]. exists []. by rewrite app_nil_r.
  - unfold io_bind at 1, io_try.
    assert (forall w1, (Ok (E := PackageError) (tags, false), w1) = (Ok r, w') -> exists reached, reached `prefix_of` map cl_target (l :: levels) /\
      r.1 = (tags ++ map version_display reached)%list /\ (r.2 = true -> reached = map cl_target (l :: levels))) as Hstop.
    { intros w1 [= <- <-]. exists []. rewrite app_nil_r. split_and!; [apply prefix_nil|done|done]. }
    destruct (has_blocking_platform _ _ _ _ w) as [[[]|e] w1]; [apply Hstop| |apply Hstop].
    intros (reached & Hp & Hr & Hc)%IH. exists (cl_target l :: reached). rewrite <- app_assoc in Hr.
    split_and!; [by apply prefix_cons|done|]. intros E. simpl. by rewrite (Hc E).
Qed.

Lemma resolve_prefix client id v others p (w : W) r w' :
  resolve_cascade_tags client id v others p w = (Ok r, w') ->
  exists aliases, aliases `prefix_of` alias_chain v /\ r.1 = map alias_display aliases.
Proof.
  unfold resolve_cascade_tags. destruct (decompose v others) as [d|] eqn:Hd; [|done]. unfold io_bind at 1.
  destruct (resolve_levels _ _ _ _ _ w) as [[[tags complete]|e] w1] eqn:Hl; [|done].
  destruct (resolve_levels_prefix client id p _ _ w _ w1 Hl) as (reached & Hp & Hr & Hc). simpl in Hr, Hc.
  rewrite (decompose_level_targets v others d Hd) in Hp, Hc.
  assert (map AVersion reached `prefix_of` alias_chain v) as Hpre.
  { destruct Hp as [rest E]. unfold alias_chain. rewrite E. eexists. by rewrite map_app, <- app_assoc. }
  assert (tags = map alias_display (map AVersion reached)) as -> by (by rewrite map_map).
  destruct complete; simpl; [|intros [= <- _]; eauto]. rewrite (Hc eq_refl) in *. unfold io_bind.
  assert (cd_latest_eligible d = ct_latest_eligible (decompose_targets v)) as ->.
  { revert Hd. unfold decompose. destruct (decompose_targets v). destruct (has_prerelease v); [by intros [= <-]|].
    destruct (decompose_levels _ _ _) as [[levels top]|]; [|done]. by intros [= <-]. }
  destruct (ct_latest_eligible (decompose_targets v)) eqn:El; [|intros [= <- _]; eauto]. unfold io_try, io_ret.
  destruct (has_blocking_platform _ _ _ _ w1) as [[[]|e] w2]; simpl; intros [= <- _]; eauto.
  exists (alias_chain v). split; [done|]. unfold alias_chain. rewrite El, map_app. simpl. by destruct (v_variant v).
Qed.
End Resolved.

Section FaultyPush.
Context `{U : OciSpec} `{!TotalOrd NativePlatform} `{!Codec} `{!CodecLaws} {W : Type} `{!Transport W} `{!Faulty W}.
Implicit Types (w : W) (id : OciIdentifier) (t : string) (P : NativePlatform).

(** From [w] to [w'] the entry [e] was filed for platform [P] under [tags], and no
    other package tag of any repository changed. *)
Record moved id P (e : ImageIndexEntry) (tags : list string) w w' : Prop := {
  moved_slot : forall t Q, tag_slot w' id Q t = if os_mem t tags && ord_eqb Q P then Some e else tag_slot w id Q t;
  moved_other : forall r, package_tag r -> (forall t, In t tags -> r <> tag_ref id t) -> served w' r = served w r;
}.

Lemma moved_nil id P e w w' : same_tags w w' -> moved id P e [] w w'.
Proof.
  intros Hs. split; [|intros r Hr _; by apply Hs]. intros t Q. simpl. unfold tag_slot. by rewrite (same_tags_index w w').
Qed.

Lemma moved_app id P e tags1 tags2 w1 w2 w3 :
  moved id P e tags1 w1 w2 -> moved id P e tags2 w2 w3 -> moved id P e (tags1 ++ tags2)%list w1 w3.
Proof.
  intros [S1 O1] [S2 O2]. split.
  - intros t Q. rewrite S2, S1. unfold os_mem. rewrite existsb_app.
    by destruct (existsb (ord_eqb t) tags1), (existsb (ord_eqb t) tags2), (ord_eqb Q P).
  - intros r Hr Hn. rewrite O2, O1; [done|done| |done|]; intros t Ht; apply Hn, in_app_iff; auto.
Qed.

(** A run writes [tags] in order, and stops after some of them if it fails. *)
Definition lands {E A : Type} id P e (tags : list string) w (run : result E A * W) : Prop :=
  exists written, written `prefix_of` tags /\ moved id P e written w run.2 /\ (is_ok run.1 = true -> written = tags).

Lemma lands_quiet {E A : Type} id P e (m : io W E A) w : quiet m -> lands id P e [] w (m w).
Proof. intros Hm. exists []. split_and!; [done|by apply moved_nil|done]. Qed.

Lemma lands_fail {E A : Type} id P e tags (run : result E A * W) w : same_tags w run.2 -> is_ok run.1 = false ->
  lands id P e tags w run.
Proof. intros Hs Hf. exists []. split_and!; [apply prefix_nil|by apply moved_nil|by rewrite Hf]. Qed.

Lemma lands_bind {E A B : Type} id P e tags1 tags2 (m : io W E A) (k : A -> io W E B) w :
  lands id P e tags1 w (m w) -> (forall a w1, m w = (Ok a, w1) -> lands id P e tags2 w1 (k a w1)) ->
  lands id P e (tags1 ++ tags2)%list w (io_bind m k w).
Proof.
  intros (d1 & Hp1 & Hm1 & Hc1) Hk. unfold io_bind. destruct (m w) as [[a|err] w1]; cbn [fst snd is_ok] in *.
  - destruct (Hk a w1 eq_refl) as (d2 & Hp2 & Hm2 & Hc2). rewrite (Hc1 eq_refl) in *. exists (tags1 ++ d2)%list.
    split_and!; [by apply prefix_app|by eapply moved_app|]. intros E2. by rewrite Hc2.
  - exists d1. split_and!; [by apply prefix_app_r|done|done].
Qed.

Lemma lands_map_err {E F A : Type} id P e tags (f : E -> F) (m : io W E A) w :
  lands id P e tags w (m w) -> lands id P e tags w (io_map_err f m w).
Proof. intros (d & Hp & Hm & Hc). exists d. unfold io_map_err. by destruct (m w) as [[]]. Qed.

(** The merge into one tag. *)
Lemma put_lands w id t p digest size annotations index : plain t ->
  (forall Q, index_slot (ix_manifests index) Q = tag_slot w id Q t) ->
  lands id (native_from p) (pushed_entry (native_from p) digest size) [t] w
    (put_index (tag_ref id t) (merged_index index (native_from p) digest size annotations) w).
Proof.
  intros Hp Hstart. unfold put_index. set (index' := merged_index _ _ _ _ _).
  destruct (index_to_vec_total index') as [data Hdata]. rewrite Hdata. unfold io_bind, io_ret.
  pose proof (faulty_push (tag_ref id t) data MEDIA_TYPE_OCI_IMAGE_INDEX w) as Hother.
  pose proof (faulty_pushed (tag_ref id t) data MEDIA_TYPE_OCI_IMAGE_INDEX w eq_refl) as Hpushed. cbv zeta in Hpushed.
  destruct (push_manifest_raw _ _ _ w) as [r w']. cbn [fst snd] in *.
  assert (served w' (tag_ref id t) = Some data ->
          moved id (native_from p) (pushed_entry (native_from p) digest size) [t] w w') as Hmoved.
  { intros Hs. split.
    - intros t' Q. unfold os_mem. simpl. rewrite orb_false_r. destruct (ord_eqb t' t) eqn:Et; to_prop.
      + unfold tag_slot at 1, tag_index. rewrite (proj2 Hp), Hs. simpl. rewrite (index_from_slice _ _ Hdata). simpl.
        change (index_slot (ix_manifests index') Q =
                if ord_eqb Q (native_from p) then Some (pushed_entry (native_from p) digest size) else tag_slot w id Q t).
        unfold index'. by rewrite merged_slot, Hstart.
      + unfold tag_slot, tag_index. rewrite Hother; [done|done|]. intros [= ->]. done.
    - intros r' [Hr _] Hn. apply Hother; [done|]. apply Hn. by left. }
  destruct Hpushed as [Hs|[Hf Hs]].
  - exists [t]. split_and!; [done| |done]. by destruct r; apply Hmoved.
  - apply lands_fail; [|by destruct r]. intros r' [Hr _]. destruct (decide (r' = tag_ref id t)) as [->|Hne]; destruct r; auto; done.
Qed.

Lemma merge_lands w id t p digest size annotations : plain t ->
  let run := merge_platform_into_index id t p digest size annotations w in
  lands id (native_from p) (pushed_entry (native_from p) digest size) [t] w run /\
  forall r, run.1 = Ok r -> platform_manifest_entry (MIndex r.2) p = Some (pushed_entry (native_from p) digest size).
Proof.
  intros Hp. unfold merge_platform_into_index. rewrite (canonical_tag_ref id t Hp). split.
  - change [t] with ([] ++ ([] ++ [t]))%list. apply lands_bind; [apply lands_quiet, quiet_auth|]. intros [] w1 Ha.
    apply lands_bind; [apply lands_quiet, quiet_try, quiet_pull|]. intros pulled w2 Hpull.
    destruct (starting_index pulled) as [index|err] eqn:Es; [|by apply lands_fail]. unfold io_bind at 1, io_of.
    rewrite <- (app_nil_r [t]). apply lands_bind; [|intros d w3 _; apply lands_quiet, quiet_ret].
    apply put_lands; [done|]. intros Q.
    assert (tag_slot w2 id Q t = tag_slot w1 id Q t) as ->.
    { unfold tag_slot. rewrite (same_tags_index w1 w2); [done|].
      pose proof (quiet_pull (tag_ref id t) [MEDIA_TYPE_OCI_IMAGE_MANIFEST; MEDIA_TYPE_OCI_IMAGE_INDEX] w1) as Hq.
      unfold io_try in Hpull. destruct (pull_manifest_raw _ _ w1). by injection Hpull as <- <-. }
    pose proof (faulty_pulled (tag_ref id t) [MEDIA_TYPE_OCI_IMAGE_MANIFEST; MEDIA_TYPE_OCI_IMAGE_INDEX] w1 eq_refl) as Ht.
    unfold io_try in Hpull. destruct (pull_manifest_raw _ _ w1) as [pulled' w2']. injection Hpull as -> ->. simpl in Ht.
    unfold tag_slot, tag_index. rewrite (proj2 Hp). destruct pulled as [[b ds]|[]]; simpl in Es; try done.
    2:{ injection Es as <-. by rewrite Ht. }
    rewrite Ht. simpl. unfold parse_registry_manifest in Es.
    destruct (manifest_from_slice b) as [[m|ix]|]; simpl in Es; [| |done].
    + destruct (i64_try_from _); [|done]. by injection Es as <-.
    + destruct (validate_image_index ix); [|done]. by injection Es as <-.
  - intros r. unfold io_bind, io_try, io_of, io_ret. repeat case_match; try done. intros [= <-]. apply merged_entry.
Qed.

Lemma merge_tags_lands id p digest size annotations tags : Forall plain tags -> forall w,
  lands id (native_from p) (pushed_entry (native_from p) digest size) tags w (merge_tags id tags p digest size annotations w).
Proof.
  unfold merge_tags. induction 1 as [|t tags Hp _ IH]; intros w; cbn [io_foldl]; [apply lands_quiet, quiet_ret|].
  change (t :: tags) with ([t] ++ tags)%list. apply lands_bind; [|intros [] w1 _; apply IH].
  rewrite <- (app_nil_r [t]). apply lands_bind; [by apply merge_lands|intros r w1 _; apply lands_quiet, quiet_ret].
Qed.

(** A run files one entry for [p] under [tags], and its index shows the entry. *)
Definition files id p (tags : list string) w (run : result ClientError (Digest * ImageIndex * LayerCounts) * W) : Prop :=
  exists digest size, lands id (native_from p) (pushed_entry (native_from p) digest size) tags w run /\
    forall r, run.1 = Ok r -> platform_manifest_entry (MIndex r.1.2) p = Some (pushed_entry (native_from p) digest size).

Lemma files_fail id p tags w w' err : same_tags w w' -> files id p tags w (Err err, w').
Proof. intros Hs. exists "", 0%Z. split; [by apply lands_fail|done]. Qed.

(** The push of the manifest, the version's tag and the cascade tags. *)
Lemma push_files id t p layers extra annotations builder w : plain t -> Forall plain extra ->
  files id p (t :: extra) w (push_manifest_and_merge_tags (clone_with_tag id t) p layers extra annotations builder w).
Proof.
  intros Hp Hpl. unfold push_manifest_and_merge_tags. pose proof (quiet_auth (canonical_reference (clone_with_tag id t)) OpPush w) as Hqa.
  unfold io_bind at 1. destruct (ensure_auth _ _ w) as [[[]|err] w1]; [|by apply files_fail]. cbn [snd] in Hqa.
  pose proof (quiet_push_multi (clone_with_tag id t) layers builder w1) as Hqm. unfold io_bind at 1.
  destruct (push_multi_layer_manifest _ _ _ w1) as [[[[[m data] digest] counts]|err] w2]; cbn [snd] in Hqm;
    [|by eapply files_fail, same_tags_trans].
  pose proof (same_tags_trans _ _ _ Hqa Hqm) as Hq.
  destruct (i64_try_from (bytes_len data)) as [size|]; [|by apply files_fail]. exists digest, size.
  set (e := pushed_entry (native_from p) digest size). set (run := io_bind _ _ w2).
  assert (tag_or_latest (clone_with_tag id t) = t) as Ht.
  { unfold tag_or_latest, clone_with_tag, normalize_tag. simpl. by rewrite replace_char_id by apply Hp. }
  assert (lands id (native_from p) e (t :: extra) w2 run) as Hl.
  { unfold run. rewrite Ht. change (t :: extra) with ([t] ++ extra)%list.
    apply lands_bind; [exact (proj1 (merge_lands w2 id t p digest size annotations Hp))|].
    intros r w3 _. rewrite <- (app_nil_r extra) at 1. apply lands_bind; [exact (merge_tags_lands id p digest size annotations extra Hpl w3)|].
    intros [] w4 _. apply lands_quiet, quiet_ret. }
  split.
  - destruct Hl as (d & Hpre & Hm & Hc). exists d. split_and!; [done| |done]. change d with ([] ++ d)%list.
    eapply moved_app; [by apply moved_nil|done].
  - subst run. rewrite Ht. unfold io_bind. intros r Hr.
    pose proof (proj2 (merge_lands w2 id t p digest size annotations Hp)) as Hentry. cbv zeta in Hentry.
    change (merge_platform_into_index (clone_with_tag id t)) with (merge_platform_into_index id) in Hr.
    destruct (merge_platform_into_index id t _ _ _ _ w2) as [[[d0 index]|] w3]; [|done].
    specialize (Hentry (d0, index) eq_refl).
    destruct (io_foldl _ _ _ w3) as [[]]; [|done]. injection Hr as <-. exact Hentry.
Qed.

(** The aliases of a version and, with [--default], of its twin without the variant. *)
Definition twin_aliases (default_ : bool) (v : Version) (twins : list AliasTag) : Prop :=
  exists rest, twins = AVersion (without_variant v) :: rest /\ rest `prefix_of` alias_chain (without_variant v) /\
    default_ = true /\ v_variant v <> None.

Lemma alias_list_plain v aliases : version_wf v = true -> aliases `prefix_of` alias_chain v ->
  Forall plain (map alias_display (AVersion v :: aliases)).
Proof.
  intros Hv [rest Hr]. apply List.Forall_forall. intros t (a & <- & Ha)%in_map_iff. apply alias_plain.
  destruct Ha as [<-|Ha]; [done|]. apply (chain_alias_wf v); [done|]. rewrite Hr. apply in_app_iff. by left.
Qed.

Definition files_twins id P e default_ v w (run : result PackageError (list string) * W) : Prop :=
  exists twins, (twins = [] \/ twin_aliases default_ v twins) /\ lands id P e (map alias_display twins) w run /\
    forall r, run.1 = Ok r -> r = map alias_display twins /\ (default_ = true -> v_variant v <> None -> twins <> []).

Lemma default_files client id w v others p merged digest size default_ annotations :
  let e := pushed_entry (native_from p) digest size in
  version_wf v = true -> platform_manifest_entry merged p = Some e ->
  files_twins id (native_from p) e default_ v w
    (write_default_variant_aliases client (clone_with_tag id (version_display v)) p merged v default_ (Some others) annotations w).
Proof.
  intros e Hv He. unfold write_default_variant_aliases.
  destruct default_; simpl; [|exists []; split_and!; [by left|apply lands_quiet, quiet_ret|by intros r [= <-]]].
  case_bool_decide as Hvar; [exists []; split_and!; [by left|apply lands_quiet, quiet_ret|by intros r [= <-]]|].
  rewrite He. set (bare := without_variant v). pose proof (quiet_resolve client (clone_with_tag id (version_display v)) bare others p w) as Hq.
  unfold io_bind at 1 2. destruct (resolve_cascade_tags _ _ _ _ _ w) as [[r|err] w1] eqn:Hres; cbn [snd] in Hq.
  2:{ exists []. split_and!; [by left|by apply lands_fail|done]. }
  destruct (resolve_prefix _ _ _ _ _ _ _ _ Hres) as (aliases & Hpre & Hr). cbn [io_ret]. rewrite Hr.
  change (version_display bare :: map alias_display aliases) with (map alias_display (AVersion bare :: aliases)).
  exists (AVersion bare :: aliases). split_and!.
  - right. by exists aliases.
  - set (tags := map alias_display (AVersion bare :: aliases)).
    assert (lands id (native_from p) e tags w1 (io_bind (lift (merge_tags (clone_with_tag id (version_display v)) tags p
              (en_digest e) (en_size e) annotations)) (fun _ => io_ret tags) w1)) as (d & Hp1 & Hm & Hc).
    { rewrite <- (app_nil_r tags) at 1. apply lands_bind; [|intros [] w2 _; apply lands_quiet, quiet_ret].
      apply lands_map_err. apply (merge_tags_lands id p digest size). by apply alias_list_plain; [apply without_variant_wf|]. }
    exists d. split_and!; [done| |done]. change d with ([] ++ d)%list. eapply moved_app; [by apply moved_nil|done].
  - intros r0. unfold io_bind. destruct (lift _ w1) as [[[]|]]; [|done]. intros [= <-]. done.
Qed.

(** The whole push: the version and its aliases, then the twins. *)
Definition cascade_lands id P default_ v w (run : result PackageError CascadePushOutcome * W) : Prop :=
  exists e aliases twins, en_platform e = Some P /\
    aliases `prefix_of` alias_chain v /\ (twins = [] \/ twin_aliases default_ v twins) /\
    lands id P e (map alias_display (AVersion v :: aliases ++ twins)) w run /\
    (forall o, run.1 = Ok o -> co_cascade_tags o = map alias_display aliases /\ co_aliases o = map alias_display twins /\
       (default_ = true -> v_variant v <> None -> twins <> [])).

Lemma cascade_lands_fail id P default_ v w w' aliases err :
  aliases `prefix_of` alias_chain v -> same_tags w w' -> cascade_lands id P default_ v w (Err err, w').
Proof.
  intros Hal Hs. exists (pushed_entry P "" 0), aliases, []. split_and!; [done|done|by left|by apply lands_fail|done].
Qed.

Lemma cascade_lands_start id P default_ v w w1 run :
  same_tags w w1 -> cascade_lands id P default_ v w1 run -> cascade_lands id P default_ v w run.
Proof.
  intros Hs (e & aliases & twins & He & Hal & Htw & (d & Hd & Hm & Hc) & Hrep). exists e, aliases, twins.
  split_and!; [done|done|done| |done]. exists d. split_and!; [done| |done]. change d with ([] ++ d)%list.
  eapply moved_app; [by apply moved_nil|done].
Qed.

(** What follows the cascade tags. *)
Lemma cascade_lands_tail client id v others info aliases keep_tag default_ annotations md index counts digest size w w2 :
  let p := in_platform info in
  let e := pushed_entry (native_from p) digest size in
  let target := clone_with_tag id (version_display v) in
  version_wf v = true -> aliases `prefix_of` alias_chain v ->
  platform_manifest_entry (MIndex index) p = Some e ->
  moved id (native_from p) e (map alias_display (AVersion v :: aliases)) w w2 ->
  cascade_lands id (native_from p) default_ v w
    ((let! written := write_default_variant_aliases client target p (MIndex index) v default_ (Some others) annotations in
      let! kept := (if keep_tag : bool then lift (push_keep_tag target (MIndex index) p) else io_ret None) in
      io_ret (mkPushOutcome md (map alias_display aliases) kept (platform_manifest_digest (MIndex index) p) written counts)) w2).
Proof.
  intros p e target Hv Hal Hentry Hm1.
  destruct (default_files client id w2 v others p (MIndex index) digest size default_ annotations Hv Hentry)
    as (twins & Htw & Hl & Hrep). fold target in Hl, Hrep.
  exists e, aliases, twins. split_and!; [done|done|done| |].
  - destruct (lands_bind id (native_from p) e (map alias_display twins) [] _ (fun written =>
      let! kept := (if keep_tag : bool then lift (push_keep_tag target (MIndex index) p) else io_ret None) in
      io_ret (mkPushOutcome md (map alias_display aliases) kept (platform_manifest_digest (MIndex index) p) written counts)) w2 Hl)
      as (d & Hd & Hm & Hc).
    { intros written w3 _. apply lands_quiet, quiet_bind; [|intros; apply quiet_ret].
      destruct keep_tag; [apply quiet_map_err, quiet_keep_tag|apply quiet_ret]. }
    rewrite app_nil_r in Hd, Hc. exists (map alias_display (AVersion v :: aliases) ++ d)%list.
    change (AVersion v :: aliases ++ twins) with ((AVersion v :: aliases) ++ twins)%list. rewrite map_app.
    split_and!; [by apply prefix_app|by eapply moved_app|]. intros Hok. by rewrite (Hc Hok).
  - intros o. unfold io_bind at 1. destruct (write_default_variant_aliases _ _ _ _ _ _ _ _ w2) as [[written|err] w3]; [|done].
    destruct (Hrep written eq_refl) as [-> Hne]. unfold io_bind.
    destruct (if keep_tag then _ else _) as [[k|] w4]; [|done]. by intros [= <-].
Qed.

Lemma push_with_cascade_lands client id others v info layers keep_tag default_ annotations w : version_wf v = true ->
  cascade_lands id (native_from (in_platform info)) default_ v w
    (push_with_cascade client (clone_with_tag id (version_display v)) info layers others v keep_tag default_ annotations w).
Proof.
  intros Hv. set (target := clone_with_tag id (version_display v)). set (p := in_platform info).
  unfold push_with_cascade, io_bind at 1. fold p. pose proof (quiet_resolve client target v others p w) as Hq.
  destruct (resolve_cascade_tags client target v others p w) as [[r|err] w1] eqn:Hres; cbn [snd] in Hq.
  2:{ apply (cascade_lands_fail _ _ _ _ _ _ []); [apply prefix_nil|done]. }
  destruct (resolve_prefix _ _ _ _ _ _ _ _ Hres) as (aliases & Hal & ->). apply (cascade_lands_start _ _ _ _ _ w1 _ Hq).
  unfold io_bind at 1, lift at 1, io_map_err at 1, io_of at 1.
  destruct (manifest_builder info) as [builder|err]; cbn [result_map_err]; [|by eapply cascade_lands_fail].
  pose proof (alias_list_plain v aliases Hv Hal) as Hpl. inversion Hpl as [|t ts Hpv Hpa]; subst t ts. clear Hpl.
  destruct (push_files id (version_display v) p layers (map alias_display aliases) annotations builder w1 Hpv Hpa)
    as (digest & size & (d1 & Hp1 & Hm1 & Hc1) & Hentry).
  unfold io_bind at 1, lift at 1, io_map_err at 1. fold target in Hm1, Hc1, Hentry.
  destruct (push_manifest_and_merge_tags target p layers _ annotations builder w1) as [[[[md index] counts]|err] w2];
    cbn [result_map_err fst snd is_ok] in *.
  - specialize (Hc1 eq_refl). subst d1.
    exact (cascade_lands_tail client id v others info aliases keep_tag default_ annotations md index counts digest size w1 w2
             Hv Hal (Hentry _ eq_refl) Hm1).
  - exists (pushed_entry (native_from p) digest size), aliases, []. split_and!; [done|done|by left| |done].
    exists d1. split_and!; [by rewrite app_nil_r|done|done].
Qed.
End FaultyPush.

(** ** Properties *)

(** C3: a push that stops half way leaves no gap.  Against a registry on which any
    request may fail, and a failed manifest PUT may or may not have been stored,
    a push of a version under any list of other versions writes, in this order:
    the version's own tag, a run of its alias chain from the most specific end,
    and with [--default] the twin without the variant and a run of the twin's
    chain.  It may stop anywhere, so the tags written are a prefix of that plan;
    each carries one and the same entry for the pushed platform and for every
    other platform what it carried before, and every other package tag of every
    repository serves what it served.  A push that reports success wrote the whole
    plan, and reports exactly it. *)
Theorem push_leaves_no_gap `{U : OciSpec} `{!TotalOrd NativePlatform} `{!Codec} `{!CodecLaws} {W : Type}
    `{!Transport W} `{!Faulty W} (client : Client) (id : OciIdentifier) (others : list Version) (v : Version)
    (info : Info) (layers : list LayerRef) (keep_tag default_ : bool) (annotations : Annotations) (w : W)
    (Hv : version_wf v = true) :
  let P := native_from (in_platform info) in
  let run := push_with_cascade client (clone_with_tag id (version_display v)) info layers others v keep_tag default_
               annotations w in
  exists e aliases twins written, en_platform e = Some P /\
    aliases `prefix_of` alias_chain v /\ (twins = [] \/ twin_aliases default_ v twins) /\
    written `prefix_of` AVersion v :: aliases ++ twins /\
    (forall a Q, In a written ->
       tag_slot run.2 id Q (alias_display a) = if ord_eqb Q P then Some e else tag_slot w id Q (alias_display a)) /\
    (forall r, package_tag r -> (forall a, In a written -> r <> tag_ref id (alias_display a)) -> served run.2 r = served w r) /\
    (forall o, run.1 = Ok o -> written = AVersion v :: aliases ++ twins /\
       co_cascade_tags o = map alias_display aliases /\ co_aliases o = map alias_display twins /\
       (default_ = true -> v_variant v <> None -> twins <> [])).
Proof.
  intros P run. destruct (push_with_cascade_lands client id others v info layers keep_tag default_ annotations w Hv)
    as (e & aliases & twins & He & Hal & Htw & (tags & Hpre & [Hslot Hother] & Hc) & Hrep).
  change (push_with_cascade _ _ _ _ _ _ _ _ _ _) with run in Hslot, Hother, Hc, Hrep.
  destruct (prefix_map_inv alias_display tags _ Hpre) as (written & Hw & ->).
  exists e, aliases, twins, written. split_and!; [done|done|done|done| | |].
  - intros a Q Ha. rewrite Hslot. by rewrite (proj2 (os_mem_In _ _) (in_map alias_display _ _ Ha)).
  - intros r Hr Hn. apply Hother; [done|]. intros t (a & <- & Ha)%in_map_iff. by apply Hn.
  - intros o Ho. split; [|by apply Hrep]. rewrite Ho in Hc. specialize (Hc eq_refl).
    apply (f_equal length) in Hc. rewrite !length_map in Hc. destruct Hw as [rest Hrest].
    rewrite Hrest, length_app in Hc. destruct rest; [by rewrite app_nil_r in Hrest|simpl in Hc; lia].
Qed.

