(* ===== verification/CheckSpec.v ===== *)
(** * Checking and repairing a package

    [gather] against a reliable registry reads exactly the package's tags; on a
    package every push has kept consistent, [fold_expected] then expects what
    every alias already carries, and [diff] reports nothing.  Against a faulty
    registry, [apply_repairs] on the plan for what a check found leaves every alias
    it wrote clean, and drops only entries whose manifest is gone. *)

From stdpp Require Import base decidable list option numbers strings.
From Stdlib Require Import Lia ZArith Ascii.
From S2P Require Import Prelude OMap Text Version VersionText Digest Tag Cascade PackageRef Platform Registry Client.
From S2P Require Import Push Publish CascadeGraph CascadeFacts CascadeRepair CascadeIO CascadeSpec Reliable PublishSpec.
Local Open Scope ocx_scope.
Local Open Scope string_scope.

Section CheckSpec.
Context `{U : OciSpec} `{!TotalOrd NativePlatform} `{!Codec} `{!CodecLaws} {W : Type} `{!Transport W} `{!Reliable W}.
Implicit Types (w : W) (id : OciIdentifier) (t : string) (P : NativePlatform).

(** ** Classification *)

Definition classify_nodes (variants : list string) (listed : list string) : list (string * AliasTag) :=
  omap (fun tag => pair tag <$> alias_parse tag variants) listed.

Lemma classify_fold variants listed : forall acc,
  (foldl (classify_step variants) acc listed).1 = (acc.1 ++ classify_nodes variants listed)%list.
Proof.
  induction listed as [|t listed IH]; intros acc; [by rewrite app_nil_r|]. cbn [foldl]. rewrite IH. unfold classify_nodes.
  rewrite omap_cons_eq. unfold classify_step. destruct (alias_parse t variants); simpl; [by rewrite <- app_assoc|done].
Qed.

Lemma classify_spec listed : exists ignored, classify listed = (classify_nodes (variant_names listed) listed, ignored).
Proof.
  unfold classify. pose proof (classify_fold (variant_names listed) listed ([], [])) as Hf.
  destruct (foldl _ _ listed) as [nodes ignored]. simpl in Hf. subst nodes. eauto.
Qed.

(** A package's own tags are classified back as the aliases they were written for. *)
Lemma alias_parse_node w id S a : consistent w id S -> node S a ->
  alias_parse (alias_display a) (variant_names (tags_of w id)) = Some a.
Proof.
  intros C (s & Hs & Ha). destruct (con_publishable _ _ _ C s Hs) as [Hw Hvar].
  destruct Ha as [<-|Ha]; [unfold alias_parse; simpl; by rewrite (tag_from_version s Hw)|].
  pose proof (chain_alias_wf s a Hw Ha) as Hwa. destruct a as [[n|]|b]; [|done|unfold alias_parse; simpl; by rewrite (tag_from_version b)].
  apply alias_chain_root in Ha as [En _]. rewrite <- En in Hvar. unfold alias_parse. simpl. rewrite Hvar.
  assert (existsb (String.eqb n) (variant_names (tags_of w id)) = true) as ->; [|done].
  apply existsb_exists. exists n. split; [|apply String.eqb_refl]. unfold variant_names.
  apply os_of_list_In, list_elem_of_In, list_elem_of_omap. exists s. split; [|done].
  apply list_elem_of_omap. exists (version_display s). split; [|by apply parse_display].
  apply list_elem_of_In. by eapply published_listed.
Qed.

Lemma alias_parse_not_internal t variants a : alias_parse t variants = Some a -> is_internal_namespace t = false.
Proof.
  unfold alias_parse, tag_from. destruct (String.eqb_spec t LATEST_STR) as [->|_]; [done|]. by destruct (is_internal_namespace t).
Qed.

(** ** Gathering *)

(** What a client insists on before it accepts a tag's manifest: a tag of the
    distribution grammar, a document within the size cap. *)
Definition readable w id : Prop := forall t b, served w (tag_ref id t) = Some b -> is_internal_namespace t = false ->
  is_valid_oci_tag t = true /\ (bytes_len b <= MAX_INDEX_DOCUMENT_BYTES)%N.

Lemma observe_reliable client w id t index : repo_ok w id -> readable w id -> plain t -> tag_index w id t = Some index ->
  exists digest size, observe_tag client id t w = (Ok (mkObserved digest size (MIndex index)), w).
Proof.
  intros Hok Hread Hp Hi. destruct (repo_ok_index w id t index Hok Hi) as (Hn & b & Hs & Hb & Hv).
  destruct (Hread t b Hs Hn) as [Hvalid Hsize].
  unfold observe_tag, lift, io_bind at 1, io_map_err at 1, fetch_manifest_raw_bytes_addressed, fetch_manifest_raw_bytes_capped.
  assert (pr_tag (clone_with_tag id t) = Some t) as ->.
  { unfold clone_with_tag, normalize_tag. simpl. by rewrite replace_char_id by apply Hp. }
  change (default "" (Some t)) with t. change (pr_digest (clone_with_tag id t)) with (@None Digest).
  rewrite Hvalid, andb_false_r. unfold read_reference. rewrite (canonical_tag_ref id t Hp).
  unfold io_bind, io_map_err, io_try, io_of, io_ret. rewrite reliable_auth. cbn [result_map_err].
  pose proof (reliable_pull (tag_ref id t) ACCEPTED_MANIFEST_MEDIA_TYPES w) as Hpull. rewrite Hs in Hpull. rewrite Hpull.
  destruct (N.ltb_spec MAX_INDEX_DOCUMENT_BYTES (bytes_len b)) as [Hlt|_]; [lia|].
  rewrite (parse_valid b index Hb Hv). cbn [result_map_err]. rewrite (digest_parse_display _ (hash_wf Sha256 b)). cbn [result_map_err].
  rewrite bool_decide_eq_false_2 by (by intros []). cbn [andb].
  unfold verify_raw_bytes_digest. rewrite hash_algorithm, bool_decide_eq_true_2 by done. simpl. eauto.
Qed.

(** The map [gather] builds out of the nodes. *)
Lemma gather_fold client w id nodes : repo_ok w id -> readable w id ->
  (forall t a, In (t, a) nodes -> plain t /\ is_Some (tag_index w id t) /\ t = alias_display a) -> forall acc,
  exists tags, io_foldl (fun tags node => let! observed := observe_tag client id node.1 in io_ret (om_insert node.2 observed tags))
                 acc nodes w = (Ok tags, w) /\
    forall a, (In (alias_display a, a) nodes ->
                 ob_manifest <$> om_get a tags = MIndex <$> tag_index w id (alias_display a)) /\
              (~ In (alias_display a, a) nodes -> om_get a tags = om_get a acc).
Proof.
  intros Hok Hread. induction nodes as [|[t a] nodes IH]; intros Hn acc; cbn [io_foldl].
  - exists acc. split; [done|]. intros a. by split.
  - destruct (Hn t a (or_introl eq_refl)) as (Hp & [index Hi] & ->).
    destruct (observe_reliable client w id _ index Hok Hread Hp Hi) as (digest & size & Ho).
    unfold io_bind at 1 2. cbn [fst snd]. rewrite Ho. cbn [io_ret].
    edestruct IH as (tags & -> & Htags); [intros; apply Hn; by right|]. exists tags. split; [done|]. intros b.
    destruct (Htags b) as [H1 H2]. destruct (In_or_not b (map snd nodes)) as [Hb|Hb].
    + assert (In (alias_display b, b) nodes) as Hin.
      { apply in_map_iff in Hb as ([t' b'] & <- & Hin). simpl. destruct (Hn t' b' (or_intror Hin)) as (_ & _ & <-). done. }
      split; [intros _; by apply H1|]. intros Hni. destruct Hni. by right.
    + assert (~ In (alias_display b, b) nodes) as Hni.
      { intros Hin. apply Hb, in_map_iff. by exists (alias_display b, b). }
      rewrite (H2 Hni). split.
      * intros [[= _ ->]|?]; [|done]. rewrite om_get_insert_eq. simpl. by rewrite Hi.
      * intros Hn'. rewrite om_get_insert_ne; [done|]. intros ->. by destruct Hn'; left.
Qed.

(** An observation that shows a package as it is. *)
Definition faithful w id S (o : TagGraphObservation) : Prop :=
  (forall a, node S a -> observed_index o a = tag_index w id (alias_display a)) /\
  (forall a, is_Some (om_get a (ob_tags o)) <-> node S a).

Lemma node_present w id S a : consistent w id S -> node S a -> is_Some (tag_index w id (alias_display a)).
Proof.
  intros C Ha. pose proof (node_wf S a (con_publishable _ _ _ C) Ha) as Hw. destruct Ha as (s & Hs & [<-|Ha]).
  - by eapply published_present.
  - destruct (con_published _ _ _ C s Hs) as [P HP]. destruct (leads_exists S (column w id P) a s Hs Ha HP) as (s' & e & Hl).
    assert (column w id P a = Some e) as He.
    { apply (con_cascaded _ _ _ C); [|eauto]. intros u Hu ->. by apply (con_antichain _ _ _ C u s Hu Hs). }
    unfold column, tag_slot in He. rewrite Hw in He. by destruct (tag_index w id (alias_display a)).
Qed.

Lemma gather_faithful fuel client w id package S : consistent w id S -> readable w id -> S <> [] ->
  (0 < c_tag_chunk_size client)%nat -> (length (tags_of w id) < fuel)%nat ->
  exists o, gather fuel client id package (io_ret None) w = (Ok (Some o), w) /\ faithful w id S o /\ ob_index_root o = None.
Proof.
  intros C Hread Hne Hn Hfuel. pose proof (con_ok _ _ _ C) as Hok.
  unfold gather, lift. unfold io_bind at 1, io_map_err.
  destruct (list_tags_reliable fuel client w id Hn Hfuel) as [->|[He _]].
  2:{ exfalso. destruct S as [|s S]; [done|]. pose proof (published_listed w id (s :: S) s C (or_introl eq_refl)) as Hl.
      by rewrite He in Hl. }
  cbn [result_map_err]. destruct (classify_spec (tags_of w id)) as [ignored ->].
  set (nodes := classify_nodes (variant_names (tags_of w id)) (tags_of w id)).
  assert (forall t a, In (t, a) nodes <-> t = alias_display a /\ node S a) as Hnodes.
  { intros t a. unfold nodes, classify_nodes. rewrite <- list_elem_of_In, list_elem_of_omap. split.
    - intros (t' & Ht & Hp). apply fmap_Some in Hp as (a' & Hp & [= -> ->]).
      assert (is_Some (tag_index w id t')) as Hi.
      { apply (tag_index_served w id t' Hok). split; [by eapply alias_parse_not_internal|].
        by apply reliable_listing, list_elem_of_In. }
      destruct (con_tags _ _ _ C t' Hi) as (b & Hb & ->). rewrite (alias_parse_node w id S b C Hb) in Hp. by simplify_eq.
    - intros [-> Ha]. exists (alias_display a). split; [|by rewrite (alias_parse_node w id S a C Ha)].
      apply list_elem_of_In, reliable_listing.
      split; [by apply alias_display_ne, (node_wf S a (con_publishable _ _ _ C))|by eapply (tag_index_served w id _ Hok), node_present]. }
  unfold io_bind at 1.
  destruct (gather_fold client w id nodes Hok Hread) with (acc := @nil (AliasTag * ObservedTag)) as (tags & -> & Htags).
  { intros t a [-> Ha]%Hnodes. split_and!; [by apply alias_plain, (node_wf S a (con_publishable _ _ _ C))|by eapply node_present|done]. }
  unfold io_bind, io_ret. eexists. split; [done|]. split; [|done]. split; simpl.
  - intros a Ha. destruct (Htags a) as [H1 _]. specialize (H1 (proj2 (Hnodes _ a) (conj eq_refl Ha))).
    unfold observed_index. simpl. destruct (node_present w id S a C Ha) as [index Hi]. rewrite Hi in *. simpl in H1.
    destruct (om_get a tags) as [ob|]; simpl in *; [|done]. by injection H1 as ->.
  - intros a. destruct (Htags a) as [H1 H2]. destruct (In_or_not (a : AliasTag) (map snd nodes)) as [Hin|Hin].
    + apply in_map_iff in Hin as ([t b] & <- & [-> Hb]%Hnodes). simpl in *. split; [done|]. intros _.
      specialize (H1 (proj2 (Hnodes _ b) (conj eq_refl Hb))). destruct (node_present w id S b C Hb) as [index Hi]. rewrite Hi in H1.
      destruct (om_get b tags); [eauto|done].
    + assert (~ In (alias_display a, a) nodes) as Hni by (intros ?; apply Hin, in_map_iff; by exists (alias_display a, a)).
      rewrite (H2 Hni). simpl. split; [by intros []|]. intros Ha. by destruct Hni; apply Hnodes.
Qed.

(** ** The check *)

Section Clean.
Context (w : W) (id : OciIdentifier) (S : list Version) (o : TagGraphObservation).
Hypotheses (C : consistent w id S) (Hf : faithful w id S o).

Lemma faithful_versions v : In v (observed_versions o) <-> node S (AVersion v).
Proof. rewrite observed_versions_In. apply Hf. Qed.

Lemma faithful_universe a : In a (alias_universe (observed_versions o)) <-> exists s, In s S /\ In a (alias_chain s).
Proof.
  rewrite alias_universe_In. setoid_rewrite faithful_versions. split.
  - intros (v & (s & Hs & [[= <-]|Hv]) & Ha); [by exists s|]. exists s. split; [done|by eapply chain_closed].
  - intros (s & Hs & Ha). exists s. split; [|done]. exists s. split; [done|by left].
Qed.

Lemma faithful_leaves v : In v (leaves (observed_versions o)) <-> In v S.
Proof.
  unfold leaves. rewrite filter_In, negb_true_iff, <- not_true_iff_false, os_mem_In, faithful_versions, faithful_universe. split.
  - intros [(s & Hs & [[= <-]|Hv]) Hn]; [done|]. destruct Hn. by exists s.
  - intros Hv. split; [exists v; split; [done|by left]|]. intros (s & Hs & Hc). by apply (con_antichain _ _ _ C v s Hv Hs).
Qed.

Lemma faithful_slot a P : node S a -> held_slot o a P = column w id P a.
Proof.
  intros Ha. pose proof (node_wf S a (con_publishable _ _ _ C) Ha) as Hw. unfold held_slot, column, tag_slot.
  by rewrite (proj1 Hf a Ha), Hw.
Qed.

Lemma faithful_clean scope : ob_index_root o = None -> (forall a, In a scope -> In a (alias_universe (observed_versions o))) ->
  has_findings (diff o (fold_expected o) scope) = false.
Proof.
  intros Hroot Hscope. apply diff_clean. split; [unfold index_findings; by rewrite Hroot|].
  intros a (s & Hs & Ha)%Hscope%faithful_universe. assert (node S a) as Hn by (exists s; split; [done|by right]).
  assert (forall s', In s' S -> node S (AVersion s')) as Hleaf by (intros s' Hs'; exists s'; split; [done|by left]).
  split_and!.
  - rewrite (proj1 Hf a Hn). by eapply node_present.
  - intros index. rewrite (proj1 Hf a Hn). apply (con_single _ _ _ C).
  - intros P. apply option_eq. intros e. rewrite (faithful_slot a P Hn), fmap_Some.
    rewrite (con_cascaded _ _ _ C P a e) by (intros u Hu ->; by apply (con_antichain _ _ _ C u s Hu Hs)). split.
    + intros (u & Hu & Hau & Hcol & Hmax). exists (mkExpected e u). split; [|done]. apply expected_slot_Some.
      rewrite faithful_leaves, faithful_slot by auto. split_and!; [done|done|done|].
      intros s' Hs'%faithful_leaves Hlt Has'. rewrite faithful_slot by auto. by apply Hmax.
    + intros ([e' u] & (Hu%faithful_leaves & Hau & Hh & Hmax)%expected_slot_Some & ->). exists u. simpl in *.
      rewrite faithful_slot in Hh by auto. split_and!; [done|done|done|].
      intros s' Hs' Hlt Has'. rewrite <- faithful_slot by auto. apply Hmax; [by apply faithful_leaves|done|done].
Qed.
End Clean.
End CheckSpec.

(** ** Applying a repair *)

Section Repaired.
Context `{U : OciSpec} `{!TotalOrd NativePlatform} `{!Codec} `{!CodecLaws} {W : Type} `{!Transport W} `{!Faulty W} `{!Probing W}.
Implicit Types (w : W) (id : OciIdentifier) (P : NativePlatform).

(** What an observation is about: the versions, and the rolling tags they cascade into. *)
Definition graph_node (o : TagGraphObservation) (a : AliasTag) : Prop :=
  match a with AVersion _ => alias_wf a = true | Root _ => In a (alias_universe (observed_versions o)) end.

(** [o] shows what the registry serves. *)
Record shows w id (o : TagGraphObservation) : Prop := {
  shows_wf : forall v, In v (observed_versions o) -> version_wf v = true;
  shows_node : forall a, graph_node o a ->
    ob_manifest <$> om_get a (ob_tags o) = served w (tag_ref id (alias_display a)) ≫= manifest_from_slice;
}.

Definition child_ref id (d : Digest) : Reference := canonical_reference (clone_with_digest (without_tag id) d).

(** *** Nothing but the index PUTs stores anything *)

Definition still {E A : Type} (m : io W E A) : Prop := forall w r, served (m w).2 r = served w r.

Lemma still_bind {E A B : Type} (m : io W E A) (k : A -> io W E B) : still m -> (forall a, still (k a)) -> still (io_bind m k).
Proof. intros Hm Hk w r. unfold io_bind. specialize (Hm w r). destruct (m w) as [[a|e] w1]; simpl in *; [by rewrite Hk|done]. Qed.
Lemma still_ret {E A : Type} (a : A) : still (E := E) (io_ret a).
Proof. done. Qed.
Lemma still_map_err {E F A : Type} (f : E -> F) (m : io W E A) : still m -> still (io_map_err f m).
Proof. intros Hm w r. unfold io_map_err. specialize (Hm w r). by destruct (m w). Qed.
Lemma still_try {E F A : Type} (m : io W E A) : still m -> still (io_try (F := F) m).
Proof. intros Hm w r. unfold io_try. specialize (Hm w r). by destruct (m w). Qed.
Lemma still_foldl {E A B : Type} (f : B -> A -> io W E B) l : (forall b a, still (f b a)) -> forall acc, still (io_foldl f acc l).
Proof. intros Hf. induction l as [|a l IH]; intros acc; simpl; [apply still_ret|]. by apply still_bind. Qed.

Lemma still_probe client id addressing : still (probe_manifest_digest_addressed client id addressing).
Proof.
  apply still_bind; [apply still_map_err; intros w r; apply probing_auth|intros _].
  apply still_bind; [apply still_try; intros w r; apply probing_head|]. intros fetched. repeat case_match; done.
Qed.
Lemma still_probe_child client id digest : still (probe_child client id digest).
Proof.
  unfold probe_child. destruct (digest_try_from digest); [|done]. apply still_bind; [apply still_map_err, still_probe|done].
Qed.
Lemma still_preflight_one client id write : still (preflight_one client id write).
Proof.
  apply still_bind; [|intros; apply still_ret]. apply still_foldl. intros acc digest.
  apply still_bind; [apply still_probe_child|intros; apply still_ret].
Qed.

(** *** What the preflight knows *)

(** The child [digest] of an index is not in the registry. *)
Definition gone w id (digest : string) : Prop :=
  exists d, digest_try_from digest = Ok d /\ served w (child_ref id d) = None.

Lemma probe_gone client id w w' digest d : probe_child client id digest w = (Ok (ChildMissing d), w') -> gone w id digest.
Proof.
  unfold probe_child. destruct (digest_try_from digest) as [parsed|] eqn:Ed; [|done].
  unfold io_bind at 1, lift, io_map_err at 1. unfold probe_manifest_digest_addressed, read_reference. fold (child_ref id parsed).
  unfold io_bind, io_map_err, io_try. pose proof (probing_auth (child_ref id parsed) OpPull w (child_ref id parsed)) as Ha.
  destruct (ensure_auth _ _ w) as [[[]|] w1]; simpl in *; [|done].
  pose proof (probing_absent (child_ref id parsed) w1) as Hh.
  destruct (fetch_manifest_digest _ w1) as [[text|err] w2]; simpl in *; [by destruct (digest_try_from text)|].
  destruct err; simpl; try done. intros _. exists parsed. split; [done|]. by rewrite <- Ha.
Qed.

(** A verdict taken on children found missing in [w]. *)
Definition verdict_in w id (write : PlannedWrite) (v : Preflight) : Prop :=
  exists missing unaddressable, v = verdict write missing unaddressable /\ forall d, In d (om_keys missing) -> gone w id d.

Lemma preflight_one_verdict client id write w v w' :
  preflight_one client id write w = (Ok v, w') -> verdict_in w id write v.
Proof.
  unfold preflight_one, io_bind at 1.
  assert (forall digests acc w1 acc' w2, (forall r, served w1 r = served w r) -> (forall d, In d (om_keys acc.1) -> gone w id d) ->
    io_foldl (probe_step client id) acc digests w1 = (Ok acc', w2) -> forall d, In d (om_keys acc'.1) -> gone w id d) as Hfold.
  { induction digests as [|digest digests IH]; intros acc w1 acc' w2 Hw Hacc; cbn [io_foldl]; [by intros [= <- _]|].
    unfold io_bind at 1, probe_step at 1, io_bind at 1. pose proof (still_probe_child client id digest w1) as Hs.
    destruct (probe_child client id digest w1) as [[state|] w1'] eqn:Hp; cbn [io_ret snd] in *; [|done].
    apply IH; [intros r; by rewrite Hs|]. destruct state; [done| |done]. cbn [fst]. intros d Hd.
    apply om_get_In_fst in Hd as [x Hd]. rewrite om_get_insert in Hd. destruct (ord_eqb d digest) eqn:Ed.
    - apply ord_eqb_eq in Ed as ->. destruct (probe_gone _ _ _ _ _ _ Hp) as (parsed & Hd1 & Hd2). exists parsed. by rewrite <- Hw.
    - apply Hacc, om_get_In_fst. eauto. }
  destruct (io_foldl _ _ _ w) as [[probed|] w1] eqn:Hf; [|done]. intros [= <- _]. exists probed.1, probed.2. split; [done|].
  by eapply (Hfold _ ([], []) w probed w1).
Qed.

Lemma still_preflight client id writes : still (preflight client id writes).
Proof.
  apply still_foldl. intros acc write. apply still_bind; [apply still_preflight_one|intros; apply still_ret].
Qed.

Lemma preflight_verdicts client id writes w planned w1 : preflight client id writes w = (Ok planned, w1) ->
  map fst planned = writes /\ forall pw v, In (pw, v) planned -> verdict_in w id pw v.
Proof.
  unfold preflight. enough (forall acc wi, (forall r, served wi r = served w r) -> (forall pw v, In (pw, v) acc -> verdict_in w id pw v) ->
    io_foldl (fun acc write => let! v := preflight_one client id write in io_ret (acc ++ [(write, v)])%list) acc writes wi = (Ok planned, w1) ->
    map fst planned = (map fst acc ++ writes)%list /\ forall pw v, In (pw, v) planned -> verdict_in w id pw v) as Hall.
  { by apply Hall. }
  induction writes as [|write writes IH]; intros acc wi Hw Hacc; cbn [io_foldl]; [intros [= <- _]; by rewrite app_nil_r|].
  unfold io_bind at 1 2. pose proof (still_preflight_one client id write wi) as Hs.
  destruct (preflight_one client id write wi) as [[v|] w2] eqn:Hp; cbn [io_ret snd] in *; [|done].
  intros [Hm Hv]%IH; [|intros r; by rewrite Hs|].
  - split; [|done]. by rewrite Hm, map_app, <- app_assoc.
  - intros pw v'. rewrite in_app_iff. intros [?|[[= <- <-]|[]]]; [auto|].
    destruct (preflight_one_verdict _ _ _ _ _ _ Hp) as (missing & bad & -> & Hgone). exists missing, bad. split; [done|].
    intros d Hd. destruct (Hgone d Hd) as (parsed & Hd1 & Hd2). exists parsed. by rewrite <- Hw.
Qed.

(** *** The writes *)

Definition serves w (r : Reference) (index : ImageIndex) : Prop :=
  exists data, served w r = Some data /\ manifest_from_slice data = Some (MIndex index).
Definition write_ref id (write : PlannedWrite) : Reference := tag_ref id (alias_display (pw_tag write)).

(** What became of one planned write. *)
Definition write_settles id (planned : PlannedWrite * Preflight) (outcome : WriteOutcome) w w' : Prop :=
  let r := write_ref id planned.1 in
  match outcome with
  | Written _ _ dropped => planned.2 = PfWrite dropped /\ serves w' r (verdict_index planned.1 dropped)
  | Refused _ | Raced _ _ => served w' r = served w r
  | WriteFailed _ => served w' r = served w r \/
      exists dropped, planned.2 = PfWrite dropped /\ serves w' r (verdict_index planned.1 dropped)
  end.

(** A PUT of [index] at [r] stored it, or failed and stored nothing; nothing else moved. *)
Definition put_stores (r : Reference) (index : ImageIndex) w (run : result ClientError Digest * W) : Prop :=
  (forall r', rf_digest r' = None -> r' <> r -> served run.2 r' = served w r') /\
  (serves run.2 r index \/ is_ok run.1 = false /\ served run.2 r = served w r).

Lemma push_index_stores id a index w : plain (alias_display a) ->
  put_stores (tag_ref id (alias_display a)) index w (push_index (clone_with_tag id (alias_display a)) index w).
Proof.
  intros Hp. unfold push_index, put_index. rewrite (canonical_tag_ref id _ Hp). set (r := tag_ref id (alias_display a)).
  unfold io_bind at 1. pose proof (probing_auth r OpPush w) as Ha. destruct (ensure_auth r OpPush w) as [[[]|] w1]; simpl in Ha.
  2:{ split; [by intros; apply Ha|]. right. split; [done|apply Ha]. }
  destruct (index_to_vec_total index) as [data Hdata]. rewrite Hdata. unfold io_bind, io_ret.
  pose proof (faulty_push r data MEDIA_TYPE_OCI_IMAGE_INDEX w1) as Hother.
  pose proof (faulty_pushed r data MEDIA_TYPE_OCI_IMAGE_INDEX w1 eq_refl) as Hpushed. cbv zeta in Hpushed.
  destruct (push_manifest_raw _ _ _ w1) as [res w2]. cbn [fst snd] in *. rewrite Ha in Hpushed.
  assert (forall r', rf_digest r' = None -> r' <> r -> served w2 r' = served w r') as Hother'.
  { intros r' Hr Hn. by rewrite Hother, Ha. }
  destruct Hpushed as [Hs|[Hf Hs]]; destruct res; simpl; (split; [exact Hother'|]); try done.
  - left. exists data. split; [done|by apply index_from_slice].
  - left. exists data. split; [done|by apply index_from_slice].
  - by right.
Qed.

Lemma write_alias_settles client id write v w : plain (alias_display (pw_tag write)) ->
  exists outcome w', write_alias client id write v w = (Ok outcome, w') /\
    write_settles id (write, v) outcome w w' /\
    forall r, rf_digest r = None -> r <> write_ref id write -> served w' r = served w r.
Proof.
  intros Hp. unfold write_alias. destruct v as [dropped|reason]; [|by eexists _, _].
  unfold io_bind at 1, io_try at 1. set (target := clone_with_tag id (alias_display (pw_tag write))).
  pose proof (still_probe client target CanonicalRead w) as Hs.
  destruct (probe_manifest_digest_addressed _ _ _ w) as [[live|err] w1]; simpl in Hs.
  2:{ eexists _, _. split; [done|]. split; [left; apply Hs|]. intros; apply Hs. }
  destruct (negb _).
  { eexists _, _. split; [done|]. split; [apply Hs|]. intros; apply Hs. }
  destruct (push_index_stores id (pw_tag write) (verdict_index write dropped) w1 Hp) as [Hother Hres].
  unfold io_bind at 1, io_try. fold target in Hother, Hres. fold (write_ref id write) in Hother, Hres. rewrite Hs in Hres.
  assert (forall w2, (forall r', rf_digest r' = None -> r' <> write_ref id write -> served w2 r' = served w1 r') ->
    forall r, rf_digest r = None -> r <> write_ref id write -> served w2 r = served w r) as Hframe.
  { intros w2 H2 r Hr Hn. by rewrite H2, Hs. }
  destruct (push_index target _ w1) as [[digest|err] w2]; simpl in *.
  - pose proof (still_probe client target CanonicalRead w2) as Hs2. unfold verify_write, io_bind, io_try, io_ret.
    destruct (probe_manifest_digest_addressed _ _ _ w2) as [res w3]. simpl in Hs2. eexists _, _. split; [done|]. split.
    + destruct Hres as [(data & Hd & Hm)|[? _]]; [|done]. split; [done|]. exists data. by rewrite Hs2.
    + intros r Hr Hn. rewrite Hs2. by apply Hframe.
  - eexists _, _. split; [done|]. split; [|by apply Hframe].
    destruct Hres as [?|[_ ?]]; [right; by exists dropped|by left].
Qed.

Lemma write_settles_frame id planned outcome w w1 w2 w3 :
  served w1 (write_ref id planned.1) = served w (write_ref id planned.1) ->
  served w3 (write_ref id planned.1) = served w2 (write_ref id planned.1) ->
  write_settles id planned outcome w1 w2 -> write_settles id planned outcome w w3.
Proof.
  unfold write_settles, serves. intros H1 H3. destruct outcome; rewrite ?H3, <- ?H1; done.
Qed.

Lemma write_ref_inj id p q : alias_wf (pw_tag p) = true -> alias_wf (pw_tag q) = true -> write_ref id p = write_ref id q ->
  pw_tag p = pw_tag q.
Proof. intros Hp Hq [= E]. by apply alias_display_inj. Qed.

(** All writes of a plan with distinct tags. *)
Lemma writes_settle client id planned : forall acc w,
  List.NoDup (map (fun p => pw_tag p.1) planned) -> (forall p, In p planned -> alias_wf (pw_tag p.1) = true) ->
  exists outcomes w',
    io_foldl (fun acc p => let! outcome := write_alias client id p.1 p.2 in io_ret (acc ++ [mkRepairOutcome (pw_tag p.1) outcome])%list)
      acc planned w = (Ok (acc ++ outcomes)%list, w') /\
    Forall2 (fun p out => ro_tag out = pw_tag p.1 /\ write_settles id p (ro_outcome out) w w') planned outcomes /\
    forall r, rf_digest r = None -> (forall p, In p planned -> r <> write_ref id p.1) -> served w' r = served w r.
Proof.
  induction planned as [|p planned IH]; intros acc w Hd Hwf; cbn [io_foldl].
  { exists [], w. rewrite app_nil_r. split_and!; [done|constructor|done]. }
  cbn [map] in Hd. apply NoDup_cons_iff in Hd as [Hn Hd]. pose proof (Hwf p (or_introl eq_refl)) as Hp.
  destruct (write_alias_settles client id p.1 p.2 w (alias_plain _ Hp)) as (outcome & w1 & Hrun & Hset & Hframe).
  unfold io_bind at 1 2. rewrite Hrun. cbn [io_ret].
  destruct (IH (acc ++ [mkRepairOutcome (pw_tag p.1) outcome])%list w1 Hd) as (outcomes & w' & Hfold & Hall & Hframe');
    [intros q Hq; apply Hwf; by right|].
  assert (forall q, In q planned -> write_ref id q.1 <> write_ref id p.1) as Hne.
  { intros q Hq E. apply Hn, in_map_iff. exists q. split; [|done]. eapply write_ref_inj; [apply Hwf; by right|done|done]. }
  exists (mkRepairOutcome (pw_tag p.1) outcome :: outcomes), w'. split_and!.
  - rewrite Hfold. by rewrite <- app_assoc.
  - constructor.
    + split; [done|]. eapply (write_settles_frame id p _ w w); [done| |by destruct p].
      apply Hframe'; [done|]. intros q Hq E. by apply (Hne q Hq).
    + apply Forall2_same_length_lookup_2; [by eapply Forall2_length|]. intros i q out Hq Hout.
      pose proof (Forall2_lookup_lr _ _ _ _ _ _ Hall Hq Hout) as [Ht Hs]. split; [done|].
      eapply (write_settles_frame id q _ w w1); [|done|exact Hs].
      apply Hframe; [done|]. apply Hne, list_elem_of_In. by eapply list_elem_of_lookup_2.
  - intros r Hr Hall'. rewrite Hframe' by (try done; intros q Hq; apply Hall'; by right).
    apply Hframe; [done|]. apply Hall'. by left.
Qed.

(** *** The graph before and after *)

Definition shown_manifest (o : TagGraphObservation) (a : AliasTag) : option Manifest := ob_manifest <$> om_get a (ob_tags o).

Lemma shown_index o a :
  observed_index o a = shown_manifest o a ≫= fun m => match m with MIndex index => Some index | MImage _ => None end.
Proof. unfold observed_index, shown_manifest. by destruct (om_get a (ob_tags o)) as [[? ? []]|]. Qed.

Lemma shown_version o v : In v (observed_versions o) <-> is_Some (shown_manifest o (AVersion v)).
Proof. rewrite observed_versions_In. unfold shown_manifest. by rewrite fmap_is_Some. Qed.

(** What filtering entries leaves of the slots. *)
Lemma index_slot_filter (f : ImageIndexEntry -> bool) entries P e :
  index_slot entries P = Some e -> f e = true -> index_slot (List.filter f entries) P = Some e.
Proof.
  intros Hs Hf. induction entries as [|x entries IH]; [done|]. rewrite index_slot_cons in Hs. cbn [List.filter].
  destruct (index_slot entries P) as [y|] eqn:Ey.
  - destruct (f x); [rewrite index_slot_cons|]; by rewrite IH.
  - case_bool_decide as Ex; [|done]. injection Hs as ->. rewrite Hf, index_slot_cons.
    assert (index_slot (List.filter f entries) P = None) as ->; [|by rewrite bool_decide_eq_true_2].
    destruct (index_slot (List.filter f entries) P) as [z|] eqn:Ez; [|done]. exfalso.
    apply index_slot_Some in Ez as [[Hz _]%filter_In Hz']. unfold index_slot in Ey. apply last_None in Ey.
    assert (In z []) as []. rewrite <- Ey. apply filter_In. by rewrite bool_decide_eq_true.
Qed.

Lemma slots_filter_NoDup (f : ImageIndexEntry -> bool) entries : List.NoDup (omap platform_slot entries) ->
  List.NoDup (omap platform_slot (List.filter f entries)).
Proof.
  induction entries as [|e entries IH]; [done|]. rewrite omap_cons_eq. cbn [List.filter]. intros Hd.
  assert (List.NoDup (omap platform_slot (List.filter f entries))) as Hd'.
  { apply IH. destruct (platform_slot e); [by inversion Hd|done]. }
  destruct (f e); [|done]. rewrite omap_cons_eq. destruct (platform_slot e) as [Q|] eqn:Es; [|done].
  constructor; [|done]. inversion Hd as [|x l Hn _]; subst. intros Hi. apply Hn.
  apply list_elem_of_In, list_elem_of_omap in Hi as (x & [Hx _]%list_elem_of_In%filter_In & Hxs).
  apply list_elem_of_In, list_elem_of_omap. exists x. by rewrite list_elem_of_In.
Qed.

Lemma verdict_index_entries write dropped :
  ix_manifests (verdict_index write dropped) =
  List.filter (fun e => negb (os_mem (en_digest e) dropped)) (ix_manifests (pw_index write)).
Proof.
  unfold verdict_index. destruct dropped as [|d dropped]; [|done]. symmetry. simpl. induction (ix_manifests _); simpl; congruence.
Qed.

Section Observed.
Context (w w' : W) (id : OciIdentifier) (o o' : TagGraphObservation) (scope : list AliasTag)
  (planned : list (PlannedWrite * Preflight)).
Hypotheses (Hscope : forall a, In a scope -> In a (alias_universe (observed_versions o)))
  (Hbefore : shows w id o) (Hafter : shows w' id o')
  (Hplan : forall p, In p planned -> In p.1 (repair_plan o scope) /\ verdict_in w id p.1 p.2)
  (Hmoved : forall r, rf_digest r = None -> served w' r = served w r \/
     exists p dropped, In p planned /\ p.2 = PfWrite dropped /\ r = write_ref id p.1 /\ serves w' r (verdict_index p.1 dropped)).

Lemma node_alias_wf a : graph_node o a -> alias_wf a = true.
Proof.
  destruct a as [r|v]; [|done]. intros (s & Hs & Ha)%alias_universe_In.
  exact (chain_alias_wf s _ (shows_wf _ _ _ Hbefore s Hs) Ha).
Qed.
Lemma scope_node a : In a scope -> graph_node o a.
Proof.
  intros Ha%Hscope. destruct a as [r|v]; [done|]. apply alias_universe_In in Ha as (s & Hs & Ha).
  exact (chain_alias_wf s _ (shows_wf _ _ _ Hbefore s Hs) Ha).
Qed.
Lemma planned_scope p : In p planned -> In (pw_tag p.1) scope.
Proof. intros [Hp _]%Hplan. by apply repair_plan_In in Hp as [? _]. Qed.

Lemma node_moved a : graph_node o a -> graph_node o' a -> shown_manifest o' a = shown_manifest o a \/
  exists p dropped, In p planned /\ p.2 = PfWrite dropped /\ pw_tag p.1 = a /\
    shown_manifest o' a = Some (MIndex (verdict_index p.1 dropped)).
Proof.
  intros Ho Ho'. pose proof (shows_node _ _ _ Hbefore a Ho) as E. pose proof (shows_node _ _ _ Hafter a Ho') as E'.
  fold (shown_manifest o a) in E. fold (shown_manifest o' a) in E'. rewrite E, E'.
  destruct (Hmoved (tag_ref id (alias_display a)) eq_refl) as [->|(p & dropped & Hp & Hv & Hr & data & -> & Hd)]; [by left|].
  right. exists p, dropped. split_and!; [done|done| |done]. injection Hr as Hr. symmetry.
  apply alias_display_inj; [by apply node_alias_wf|by apply node_alias_wf, scope_node, planned_scope|done].
Qed.

Lemma version_node v : version_wf v = true -> graph_node o (AVersion v) /\ graph_node o' (AVersion v).
Proof. done. Qed.

Lemma versions_grow v : In v (observed_versions o) -> In v (observed_versions o').
Proof.
  intros Hv. destruct (version_node v (shows_wf _ _ _ Hbefore v Hv)) as [Ho Ho']. rewrite shown_version in *.
  destruct (node_moved _ Ho Ho') as [->|(? & ? & _ & _ & _ & ->)]; [done|eauto].
Qed.
Lemma versions_new v : In v (observed_versions o') ->
  In v (observed_versions o) \/ In (AVersion v) (alias_universe (observed_versions o)).
Proof.
  intros Hv. destruct (version_node v (shows_wf _ _ _ Hafter v Hv)) as [Ho Ho']. rewrite shown_version in *.
  destruct (node_moved _ Ho Ho') as [<-|(p & ? & Hp & _ & <- & _)]; [by left|]. right. by apply Hscope, planned_scope.
Qed.

Lemma node_after a : graph_node o a -> graph_node o' a.
Proof. destruct a; [|done]. simpl. by rewrite (universe_extend _ _ versions_grow versions_new). Qed.

Lemma leaves_after : leaves (observed_versions o') = leaves (observed_versions o).
Proof. apply leaves_extend; [apply os_of_list_wf|apply os_of_list_wf|apply versions_grow|apply versions_new]. Qed.

(** A leaf is in nobody's chain, so no plan names it. *)
Lemma leaf_after leaf P : In leaf (leaves (observed_versions o)) ->
  held_slot o' (AVersion leaf) P = held_slot o (AVersion leaf) P.
Proof.
  intros [Hv Hl%negb_true_iff]%filter_In. unfold held_slot. rewrite !shown_index.
  destruct (version_node leaf (shows_wf _ _ _ Hbefore leaf Hv)) as [Ho Ho'].
  destruct (node_moved _ Ho Ho') as [->|(p & ? & Hp & _ & Ht & _)]; [done|].
  apply planned_scope, Hscope in Hp. rewrite Ht in Hp. by rewrite (proj2 (os_mem_In _ _) Hp) in Hl.
Qed.

Lemma expected_after a P : expected_slot (fold_expected o') a P = expected_slot (fold_expected o) a P.
Proof.
  rewrite !fold_expected_slot, leaves_after. f_equal. apply omap_ext_In. intros leaf Hl.
  unfold leaf_offer. by rewrite (leaf_after leaf P Hl).
Qed.

(** An entry the preflight drops is an orphan, under the digest the alias holds for
    the platform, and its manifest is gone. *)
Lemma dropped_orphan p dropped e : In p planned -> p.2 = PfWrite dropped ->
  In e (ix_manifests (pw_index p.1)) -> In (en_digest e) dropped ->
  exists P h, en_platform e = Some P /\ expected_slot (fold_expected o) (pw_tag p.1) P = None /\
    held_slot o (pw_tag p.1) P = Some h /\ en_digest h = en_digest e /\ gone w id (en_digest e).
Proof.
  intros Hp Hv He Hd. destruct (Hplan p Hp) as [Hw (missing & bad & Hverdict & Hgone)]. rewrite Hv in Hverdict. symmetry in Hverdict.
  destruct (verdict_safe p.1 missing bad dropped Hverdict) as (_ & Hin & Horphan & _).
  assert (~ In e (ix_manifests (verdict_index p.1 dropped))) as Hne by (rewrite verdict_index_In; tauto).
  destruct (Horphan e He Hne) as (P & row & HP & Hrow & Hst & <- & Hobs).
  destruct (repair_plan_In o scope p.1 Hw) as (_ & _ & Hreasons).
  destruct (orphan_row _ _ _ _ (Hreasons row Hrow) Hst) as (Hexp & h & Hh & Hobs'). rewrite Hobs in Hobs'. injection Hobs' as Hdig.
  exists (sr_platform row), h. split_and!; [done|done|done|done|]. apply Hgone.
  destruct (In_or_not (en_digest e) (om_keys missing)) as [?|Hn]; [done|]. exfalso. by apply Hne, Hin.
Qed.

Lemma platform_slot_platform e P : platform_slot e = Some P -> en_platform e = Some P.
Proof. unfold platform_slot. destruct (en_platform e) as [q|]; simpl; [|done]. destruct (_ && _); [done|]. by intros [= ->]. Qed.
Lemma platform_slot_known e h P : platform_slot h = Some P -> en_platform e = Some P -> platform_slot e = Some P.
Proof. intros Hh He. pose proof (platform_slot_platform h P Hh) as Eh. unfold platform_slot in *. rewrite Eh in Hh. by rewrite He. Qed.

(** What a write that was stored did to its alias. *)
Definition repaired a : Prop :=
  alias_state o' a = StPresent /\
  (forall row, In row (alias_rows o' (fold_expected o') a) -> sr_status row = SlotOk \/ sr_status row = Orphan) /\
  (forall P h, held_slot o a P = Some h -> is_Some (held_slot o' a P) \/
     expected_slot (fold_expected o) a P = None /\ gone w id (en_digest h)) /\
  (forall index e, observed_index o a = Some index -> In e (ix_manifests index) -> platform_slot e = None ->
     exists index', observed_index o' a = Some index' /\ In e (ix_manifests index')).

Lemma written_quiet p dropped : In p planned -> p.2 = PfWrite dropped ->
  shown_manifest o' (pw_tag p.1) = Some (MIndex (verdict_index p.1 dropped)) ->
  alias_quiet o' (fold_expected o') (pw_tag p.1).
Proof.
  intros Hp Hv Hshown. set (a := pw_tag p.1) in *. destruct (planned_spec o a) as (Hnd & Hslot & _).
  destruct (repair_plan_In o scope p.1 (proj1 (Hplan p Hp))) as (_ & Hindex & _). fold a in Hindex.
  assert (ix_manifests (pw_index p.1) = planned_entries a o (fold_expected o)) as Hent by (by rewrite Hindex).
  unfold alias_quiet, no_duplicates, held_slot. rewrite shown_index, Hshown. simpl. split.
  - intros index [= <-]. rewrite verdict_index_entries. apply slots_filter_NoDup. by rewrite Hent.
  - intros P x. rewrite expected_after. intros Hx. rewrite verdict_index_entries. specialize (Hslot P). rewrite Hx in Hslot.
    apply index_slot_filter; [by rewrite Hent|]. apply negb_true_iff, not_true_iff_false. intros Hd%os_mem_In.
    apply index_slot_Some in Hslot as [He Hs]. destruct (dropped_orphan p dropped (ex_entry x) Hp Hv) as (Q & h & HQ & Hexp & _);
      [by rewrite Hent|done|]. apply platform_slot_platform in Hs. fold a in Hexp. congruence.
Qed.

Lemma written_repaired p dropped : In p planned -> p.2 = PfWrite dropped ->
  shown_manifest o' (pw_tag p.1) = Some (MIndex (verdict_index p.1 dropped)) -> repaired (pw_tag p.1).
Proof.
  intros Hp Hv Hshown. pose proof (written_quiet p dropped Hp Hv Hshown) as Hq. set (a := pw_tag p.1) in *.
  destruct (repair_plan_In o scope p.1 (proj1 (Hplan p Hp))) as (_ & Hindex & _). fold a in Hindex.
  assert (forall e, In e (ix_manifests (pw_index p.1)) -> ~ In (en_digest e) dropped ->
            In e (ix_manifests (verdict_index p.1 dropped))) as Hkept by (intros; by apply verdict_index_In).
  split_and!.
  - rewrite alias_state_present, shown_index, Hshown. simpl. eauto.
  - intros row Hr. pose proof (proj2 (alias_rows_quiet _ _ _) Hq row Hr) as Hs. destruct (sr_status row); try done; auto.
  - intros P h Hh. pose proof (planned_keeps o a P h Hh) as Hkeep. unfold held_slot at 1. rewrite shown_index, Hshown. simpl.
    assert (exists e, index_slot (ix_manifests (pw_index p.1)) P = Some e) as [e He].
    { rewrite Hindex. destruct (expected_slot _ _ _); [eauto|done]. }
    destruct (In_or_not (en_digest e) dropped) as [Hd|Hn].
    + right. apply index_slot_Some in He as [He Hs]. destruct (dropped_orphan p dropped e Hp Hv He Hd) as (Q & h' & HQ & Hexp & Hh' & Hdig & Hgone).
      apply platform_slot_platform in Hs. assert (Q = P) as -> by congruence. fold a in Hexp, Hh'. assert (h' = h) as -> by congruence.
      split; [done|]. by rewrite Hdig.
    + left. exists e. rewrite verdict_index_entries. apply index_slot_filter; [done|]. apply negb_true_iff, not_true_iff_false.
      by intros Hd%os_mem_In.
  - intros index e Hi He Hs. rewrite shown_index, Hshown. eexists. split; [done|]. destruct (planned_spec o a) as (_ & _ & Hkeep).
    assert (In e (ix_manifests (pw_index p.1))) as Hin by (rewrite Hindex; by eapply Hkeep). apply Hkept; [done|]. intros Hd.
    destruct (dropped_orphan p dropped e Hp Hv Hin Hd) as (Q & h & HQ & _ & Hh & _). unfold held_slot in Hh.
    destruct (observed_index o (pw_tag p.1)) as [ix|]; [|done]. apply index_slot_Some in Hh as [_ Hh].
    by rewrite (platform_slot_known e h Q Hh HQ) in Hs.
Qed.

(** The manifest shown afterwards at a planned tag. *)
Lemma planned_shown p : In p planned ->
  shown_manifest o' (pw_tag p.1) = served w' (write_ref id p.1) ≫= manifest_from_slice /\
  shown_manifest o (pw_tag p.1) = served w (write_ref id p.1) ≫= manifest_from_slice.
Proof.
  intros Hp%planned_scope%scope_node. split; [apply (shows_node _ _ _ Hafter); by apply node_after|by apply (shows_node _ _ _ Hbefore)].
Qed.

Lemma settled_alias p outcome : In p planned -> write_settles id p outcome w w' ->
  match outcome with
  | Written _ _ _ => repaired (pw_tag p.1)
  | Refused _ | Raced _ _ => shown_manifest o' (pw_tag p.1) = shown_manifest o (pw_tag p.1)
  | WriteFailed _ => shown_manifest o' (pw_tag p.1) = shown_manifest o (pw_tag p.1) \/ repaired (pw_tag p.1)
  end.
Proof.
  intros Hp. destruct (planned_shown p Hp) as [E' E].
  assert (served w' (write_ref id p.1) = served w (write_ref id p.1) ->
          shown_manifest o' (pw_tag p.1) = shown_manifest o (pw_tag p.1)) as Hsame by (intros Hs; by rewrite E', E, Hs).
  assert (forall dropped, p.2 = PfWrite dropped -> serves w' (write_ref id p.1) (verdict_index p.1 dropped) ->
          repaired (pw_tag p.1)) as Hrep.
  { intros dropped Hv (data & Hd & Hm). apply (written_repaired p dropped Hp Hv). by rewrite E', Hd. }
  destruct outcome; simpl; auto.
  - intros [Hv Hs]. by eapply Hrep.
  - intros [?|(dropped & ? & ?)]; [left; auto|right; by eapply Hrep].
Qed.

Lemma unplanned_alias a : In a scope -> (forall pw, In pw (repair_plan o scope) -> pw_tag pw <> a) ->
  shown_manifest o' a = shown_manifest o a /\
  (planned_entries a o (fold_expected o) <> [] -> alias_state o' a = StPresent /\
     forall row, In row (alias_rows o' (fold_expected o') a) -> sr_status row = SlotOk \/ sr_status row = Orphan).
Proof.
  intros Ha Hno. pose proof (scope_node a Ha) as Hn.
  assert (shown_manifest o' a = shown_manifest o a) as Hs.
  { destruct (node_moved a Hn (node_after a Hn)) as [?|(p & ? & Hp & _ & <- & _)]; [done|].
    by destruct (Hno p.1 (proj1 (Hplan p Hp))). }
  split; [done|]. intros Hne. destruct (repair_plan_has o scope a Ha Hne) as [(pw & Hpw & Ht)|[Hst [Hd Hq]]]; [by destruct (Hno pw Hpw)|].
  assert (observed_index o' a = observed_index o a) as Hi by (by rewrite !shown_index, Hs).
  rewrite alias_state_present, Hi. split; [by apply alias_state_present|].
  assert (alias_quiet o' (fold_expected o') a) as Hq'.
  { unfold alias_quiet, no_duplicates, held_slot. rewrite Hi. split; [exact Hd|]. intros P x. rewrite expected_after. apply Hq. }
  intros row Hr. pose proof (proj2 (alias_rows_quiet _ _ _) Hq' row Hr) as Hrow. destruct (sr_status row); try done; auto.
Qed.
End Observed.

(** *** The whole run *)

(** A repair run stops before any write, or settles every planned write and
    reports each; nothing else moves. *)
Definition applied id (writes : list PlannedWrite) w (run : result PackageError (list RepairOutcome) * W) : Prop :=
  match run.1 with
  | Err _ => forall r, served run.2 r = served w r
  | Ok outcomes => exists planned,
      map fst planned = writes /\ (forall pw v, In (pw, v) planned -> verdict_in w id pw v) /\
      (forall out, In out outcomes -> exists p, In p planned /\ ro_tag out = pw_tag p.1 /\
         write_settles id p (ro_outcome out) w run.2) /\
      (forall p, In p planned -> exists out, In out outcomes /\ ro_tag out = pw_tag p.1 /\
         write_settles id p (ro_outcome out) w run.2) /\
      (forall r, rf_digest r = None -> (forall p, In p planned -> r <> write_ref id p.1) -> served run.2 r = served w r)
  end.

Lemma gone_same w w1 id d : (forall r, served w1 r = served w r) -> gone w1 id d -> gone w id d.
Proof. intros Hs (parsed & Hp & Hg). exists parsed. by rewrite <- Hs. Qed.

Lemma apply_repairs_settles client id writes w : List.NoDup (map pw_tag writes) ->
  (forall pw, In pw writes -> alias_wf (pw_tag pw) = true) -> applied id writes w (apply_repairs client id writes w).
Proof.
  intros Hd Hwf. unfold apply_repairs. destruct writes as [|pw0 writes0] eqn:Ew.
  { exists []. split_and!; done. }
  rewrite <- Ew in *. clear Ew pw0 writes0. unfold io_bind at 1, lift, io_map_err.
  pose proof (probing_auth (canonical_reference id) OpPush w) as Ha.
  destruct (ensure_auth _ _ w) as [[[]|err] w1]; cbn [result_map_err snd] in *; [|done].
  unfold io_bind at 1. pose proof (still_preflight client id writes w1) as Hs.
  destruct (preflight client id writes w1) as [[planned|err] w2] eqn:Hpre; cbn [snd] in Hs.
  2:{ intros r. cbn [snd]. by rewrite Hs. }
  destruct (preflight_verdicts client id writes w1 planned w2 Hpre) as [Hfst Hver].
  assert (forall r, served w2 r = served w r) as Hsame by (intros r; by rewrite Hs).
  destruct (writes_settle client id planned [] w2) as (outcomes & w' & Hrun & Hall & Hframe).
  { rewrite <- Hfst, map_map in Hd. exact Hd. }
  { intros p Hp. apply Hwf. rewrite <- Hfst. by apply in_map. }
  unfold io_bind at 1. rewrite Hrun. cbn [io_ret app]. exists planned. cbn [snd].
  assert (forall p out, ro_tag out = pw_tag p.1 /\ write_settles id p (ro_outcome out) w2 w' ->
            ro_tag out = pw_tag p.1 /\ write_settles id p (ro_outcome out) w w') as Hback.
  { intros p out [Ht Hset]. split; [done|]. eapply (write_settles_frame id p _ w w2); [by rewrite Hsame|done|done]. }
  split_and!; [done| | | |].
  - intros pw v Hp. destruct (Hver pw v Hp) as (missing & bad & -> & Hg). exists missing, bad. split; [done|].
    intros d Hdg. by apply (gone_same w w1), Hg.
  - intros out Hout%sort_by_In. apply list_elem_of_In, list_elem_of_lookup in Hout as [i Hi].
    destruct (Forall2_lookup_r _ _ _ _ _ Hall Hi) as (p & Hp & Hset). exists p. split; [|by apply Hback].
    apply list_elem_of_In. by eapply list_elem_of_lookup_2.
  - intros p Hp. apply list_elem_of_In, list_elem_of_lookup in Hp as [i Hi].
    destruct (Forall2_lookup_l _ _ _ _ _ Hall Hi) as (out & Hout & Hset). exists out. split; [|by apply Hback].
    apply sort_by_In, list_elem_of_In. by eapply list_elem_of_lookup_2.
  - intros r Hr Hn. by rewrite Hframe.
Qed.

Lemma In_ref_dec id r (planned : list (PlannedWrite * Preflight)) :
  (exists p, In p planned /\ r = write_ref id p.1) \/ (forall p, In p planned -> r <> write_ref id p.1).
Proof.
  induction planned as [|q planned IH]; [by right|]. destruct (decide (r = write_ref id q.1)) as [->|Hn].
  { left. exists q. split; [by left|done]. }
  destruct IH as [(p & Hp & ->)|IH]; [left; exists p; split; [by right|done]|]. right. intros p [<-|Hp]; auto.
Qed.

(** Under a settled write, what the tag then serves. *)
Lemma settles_moved id p outcome w w' : write_settles id p outcome w w' ->
  served w' (write_ref id p.1) = served w (write_ref id p.1) \/
  exists dropped, p.2 = PfWrite dropped /\ serves w' (write_ref id p.1) (verdict_index p.1 dropped).
Proof. destruct outcome; simpl; [|by left|by left|done]. intros [? ?]. right. eauto. Qed.

Lemma applied_moved id writes w run : applied id writes w run -> exists planned,
  (forall p, In p planned -> In p.1 writes /\ verdict_in w id p.1 p.2) /\
  (forall r, rf_digest r = None -> served run.2 r = served w r \/
     exists p dropped, In p planned /\ p.2 = PfWrite dropped /\ r = write_ref id p.1 /\ serves run.2 r (verdict_index p.1 dropped)) /\
  forall outcomes, run.1 = Ok outcomes ->
    (forall out, In out outcomes -> exists p, In p planned /\ ro_tag out = pw_tag p.1 /\
       write_settles id p (ro_outcome out) w run.2) /\
    (forall pw, In pw writes -> exists out, In out outcomes /\ ro_tag out = pw_tag pw).
Proof.
  unfold applied. destruct run as [[outcomes|err] w']; cbn [fst snd].
  2:{ intros Hs. exists []. split_and!; [done|by left|done]. }
  intros (planned & Hfst & Hver & Hout & Hin & Hframe). exists planned. split_and!.
  - intros [pw v] Hp. split; [|by apply Hver]. rewrite <- Hfst. exact (in_map fst _ _ Hp).
  - intros r Hr. destruct (In_ref_dec id r planned) as [(p & Hp & ->)|Hn]; [|left; by apply Hframe].
    destruct (Hin p Hp) as (out & _ & _ & Hset). destruct (settles_moved _ _ _ _ _ Hset) as [?|(dropped & ? & ?)]; [by left|].
    right. by exists p, dropped.
  - intros ? [= <-]. split; [done|]. intros pw Hpw. rewrite <- Hfst in Hpw. apply in_map_iff in Hpw as (p & <- & Hp).
    destruct (Hin p Hp) as (out & ? & ? & _). by exists out.
Qed.
End Repaired.

(** ** Properties *)

(** C4: a repair converges.  Take an observation that shows what the registry
    serves and a scope of its graph, and run [apply] on the plan for that scope,
    against a registry on which any request may fail and a failed PUT may have been
    stored.  A run that ends in an error has stored nothing.  Otherwise, in whatever
    the registry serves afterwards: an alias reported as written is an index whose
    slots are all [Ok] or [Orphan], it has every platform it had unless nothing
    expects the platform and the registry has no manifest under its digest, and
    every entry without a platform; a refused or raced alias is as it was; a failed
    one is as it was or repaired; an alias of the scope that is not reported is as
    it was, and is [Ok] or [Orphan] throughout unless its planned index is empty.
    What the fold expects, and every tag outside the scope, is unchanged. *)
Theorem repair_converges `{U : OciSpec} `{!TotalOrd NativePlatform} `{!Codec} `{!CodecLaws} {W : Type}
    `{!Transport W} `{!Faulty W} `{!Probing W} (client : Client) (id : OciIdentifier) (o : TagGraphObservation)
    (scope : list AliasTag) (w : W)
    (Hscope : forall a, In a scope -> In a (alias_universe (observed_versions o))) (Hbefore : shows w id o) :
  let run := apply_repairs client id (repair_plan o scope) w in
  forall o', shows run.2 id o' ->
  (forall a P, expected_slot (fold_expected o') a P = expected_slot (fold_expected o) a P) /\
  (forall r, rf_digest r = None -> (forall a, In a scope -> r <> tag_ref id (alias_display a)) -> served run.2 r = served w r) /\
  match run.1 with
  | Err _ => forall r, served run.2 r = served w r
  | Ok outcomes => forall a, In a scope ->
      (forall out, In out outcomes -> ro_tag out = a ->
         match ro_outcome out with
         | Written _ _ _ => repaired w id o o' a
         | Refused _ | Raced _ _ => shown_manifest o' a = shown_manifest o a
         | WriteFailed _ => shown_manifest o' a = shown_manifest o a \/ repaired w id o o' a
         end) /\
      ((forall out, In out outcomes -> ro_tag out <> a) ->
         shown_manifest o' a = shown_manifest o a /\
         (planned_entries a o (fold_expected o) <> [] ->
            alias_state o' a = StPresent /\
            forall row, In row (alias_rows o' (fold_expected o') a) -> sr_status row = SlotOk \/ sr_status row = Orphan))
  end.
Proof.
  intros run o' Hafter.
  assert (applied id (repair_plan o scope) w run) as Happ.
  { apply apply_repairs_settles; [apply repair_plan_NoDup|]. intros pw [Hpw _]%repair_plan_In.
    by apply (node_alias_wf w id o Hbefore), (scope_node w id o scope Hscope Hbefore). }
  destruct (applied_moved id _ w run Happ) as (planned & Hplan & Hmoved & Hreport).
  pose proof (expected_after w run.2 id o o' scope planned Hscope Hbefore Hafter Hplan Hmoved) as Hexp.
  split_and!; [done| |].
  - intros r Hr Hn. destruct (Hmoved r Hr) as [?|(p & dropped & Hp & _ & -> & _)]; [done|]. exfalso.
    exact (Hn _ (planned_scope w id o scope planned Hplan p Hp) eq_refl).
  - destruct run.1 as [outcomes|err] eqn:Hres; [|unfold applied in Happ; by rewrite Hres in Happ].
    destruct (Hreport outcomes eq_refl) as [Hout Hall]. intros a Ha. split.
    + intros out Hin <-. destruct (Hout out Hin) as (p & Hp & Ht & Hset). rewrite Ht.
      exact (settled_alias w run.2 id o o' scope planned Hscope Hbefore Hafter Hplan Hmoved p (ro_outcome out) Hp Hset).
    + intros Hno. apply (unplanned_alias w run.2 id o o' scope planned Hscope Hbefore Hafter Hplan Hmoved a Ha).
      intros pw Hpw E. destruct (Hall pw Hpw) as (out & Hin & Ht). apply (Hno out Hin). congruence.
Qed.

(** C1: publishing and checking agree, on a registry whose authentication, manifest
    reads and manifest writes succeed; blob uploads, mounts, archive reads and the
    building of a manifest may fail, and a push with them.  Take any history of a
    package: cascade pushes of versions none of which is a rolling alias of another,
    over any variants and platforms in any order, with or without keep tags and
    default-variant aliases, from an empty repository.  If anything was published and
    the tags are readable, gathering the tag graph then succeeds, and the check of any
    scope of the graph has no finding: every rolling tag exists, claims each
    platform once, and carries for it exactly the entry of the greatest version
    that cascades there. *)
Theorem published_package_checks_clean `{U : OciSpec} `{!TotalOrd NativePlatform} `{!Codec} `{!CodecLaws} {W : Type}
    `{!Transport W} `{!Reliable W} (fuel : nat) (client : Client) (id : OciIdentifier) (package : PackageRef)
    (requested : list Version) (w : W)
    (Hhistory : history id requested w) (Hread : readable w id)
    (Hsome : exists t, is_internal_namespace t = false /\ is_Some (served w (tag_ref id t)))
    (Hchunk : (0 < c_tag_chunk_size client)%nat) (Hfuel : (length (tags_of w id) < fuel)%nat) :
  exists o, gather fuel client id package (io_ret None) w = (Ok (Some o), w) /\
    forall scope, (forall a, In a scope -> In a (alias_universe (observed_versions o))) ->
      has_findings (diff o (fold_expected o) scope) = false.
Proof.
  destruct (history_consistent id requested w Hhistory) as (S & _ & C).
  assert (S <> []) as Hne.
  { intros ->. destruct Hsome as (t & Hn & Hs).
    destruct (con_tags _ _ _ C t) as (a & (s & [] & _) & _). by apply (tag_index_served w id t (con_ok _ _ _ C)). }
  destruct (gather_faithful fuel client w id package S C Hread Hne Hchunk Hfuel) as (o & Hg & Hf & Hroot).
  exists o. split; [exact Hg|]. intros scope. by apply (faithful_clean w id S o C Hf).
Qed.

