(* ===== verification/SampleRegistry.v ===== *)
(** * A sample registry

    An in-memory registry behind the transport interface: a list of what each
    reference serves, the last write first.  Documents are their own
    serialization, and a digest counts the entries of the document.  It is the
    instance at which the properties about pushes and repairs are shown to be
    about something. *)

From stdpp Require Import base decidable list option numbers strings.
From Stdlib Require Import Lia ZArith Ascii.
From S2P Require Import Prelude OMap Text Version VersionText Digest Tag Cascade PackageRef Platform Registry Client.
From S2P Require Import Push Publish CascadeGraph CascadeFacts CascadeRepair Samples CascadeIO CascadeSpec Reliable PublishSpec.
From S2P Require Import CheckSpec.
Local Open Scope ocx_scope.
Local Open Scope string_scope.

(** ** Codec *)

Inductive SampleBytes : Type :=
| DocBytes (m : Manifest)
| TextBytes (s : string).
#[export] Instance SampleBytes_inhabited : Inhabited SampleBytes := populate (TextBytes "").

Definition sample_hex (n : nat) : string :=
  "000000000000000000000000000000000000000000000000000000000000000" +:+
  match (n mod 4)%nat with 0%nat => "a" | 1%nat => "b" | 2%nat => "c" | _ => "d" end.
Definition sample_weight (b : SampleBytes) : nat :=
  match b with
  | DocBytes (MIndex i) => length (ix_manifests i)
  | DocBytes (MImage _) => 3
  | TextBytes s => String.length s
  end.
Definition sample_hash (a : Algorithm) (b : SampleBytes) : Digest :=
  let hex := sample_hex (sample_weight b) in
  match a with
  | Sha256 => DSha256 hex
  | Sha384 => DSha384 (hex +:+ String.substring 0 32 hex)
  | Sha512 => DSha512 (hex +:+ hex)
  end.

#[export] Instance sample_codec : Codec := {|
  Bytes := SampleBytes;
  bytes_len := fun b => N.of_nat (sample_weight b);
  index_to_vec := fun i => Some (DocBytes (MIndex i));
  image_to_vec := fun m => Some (DocBytes (MImage m));
  manifest_from_slice := fun b => match b with DocBytes m => Some m | TextBytes _ => None end;
  hash := sample_hash;
|}.

#[export] Instance sample_codec_laws : CodecLaws.
Proof.
  split.
  - intros i. by eexists.
  - intros i b. simpl. by intros [= <-].
  - intros a b. simpl. unfold sample_hash, sample_hex. destruct ((sample_weight b mod 4)%nat) as [|[|[|?]]]; by destruct a.
  - intros a b. by destruct a.
Qed.

(** ** Transport *)

Definition SampleWorld : Type := list (Reference * SampleBytes).

Fixpoint sample_served (w : SampleWorld) (r : Reference) : option SampleBytes :=
  match w with
  | [] => None
  | (r', b) :: rest => if bool_decide (r = r') then Some b else sample_served rest r
  end.
Definition sample_tag (registry repository : string) (r : Reference) : option string :=
  if bool_decide (r = mkReference registry repository (rf_tag r) None)
  then match rf_tag r with Some EmptyString => None | tag => tag end else None.
Definition sample_listing (w : SampleWorld) (registry repository : string) : list string :=
  os_of_list (omap (fun e => sample_tag registry repository e.1) w).

Definition sample_read {A : Type} (r : Reference) (f : SampleBytes -> A) : io SampleWorld ClientError A := fun w =>
  match sample_served w r with
  | Some b => (Ok (f b), w)
  | None => (Err (ManifestNotFound (rf_repository r)), w)
  end.
Definition sample_digest_text (b : SampleBytes) : string := digest_display (sample_hash Sha256 b).

#[export] Instance sample_transport : Transport SampleWorld := {|
  ensure_auth := fun _ _ w => (Ok tt, w);
  transport_list_tags := fun r n after w =>
    (Ok (page (sample_listing w (rf_registry r) (rf_repository r)) n after), w);
  fetch_manifest_digest := fun r => sample_read r sample_digest_text;
  pull_manifest_raw := fun r _ => sample_read r (fun b => (b, sample_digest_text b));
  push_manifest_raw := fun r b _ w => (Ok (sample_digest_text b), (r, b) :: w);
  push_blob := fun _ _ _ w => (Ok tt, w);
  head_blob := fun _ _ w => (Ok 1%N, w);
  mount_blob := fun _ _ _ w => (Ok MountUploadRequired, w);
  delete_manifest := fun r w => (Ok (match sample_served w r with Some _ => Deleted | None => AlreadyAbsent end),
                                 List.filter (fun e => negb (bool_decide (e.1 = r))) w);
  probe_manifest := fun r w => (Ok (match sample_served w r with Some b => Present (sample_hash Sha256 b) | None => Absent ManifestUnknown end), w);
  read_file := fun path w => (Ok (TextBytes path), w);
|}.

Lemma sample_tag_Some registry repository r t : sample_tag registry repository r = Some t <->
  r = mkReference registry repository (Some t) None /\ t <> "".
Proof.
  unfold sample_tag. case_bool_decide as Er.
  - rewrite Er. simpl. destruct (rf_tag r) as [[|c s]|]; split; try done; [by intros [[= <-] ?]|by intros [= <-]|by intros [[= <-] _]|by intros [? _]].
  - split; [done|]. intros [-> _]. by destruct Er.
Qed.

Lemma sample_served_Some w r : is_Some (sample_served w r) <-> In r (map fst w).
Proof.
  induction w as [|[r' b] w IH]; simpl; [split; [by intros []|done]|]. case_bool_decide as Er; [subst; split; eauto|].
  rewrite IH. split; [auto|]. intros [->|?]; [done|done].
Qed.

Lemma sample_read_same {A : Type} r (f : SampleBytes -> A) w : (sample_read r f w).2 = w.
Proof. unfold sample_read. by destruct (sample_served w r). Qed.

#[export] Instance sample_faulty : Faulty SampleWorld.
Proof.
  refine {| served := sample_served |}; try done.
  - intros r types w r' _. simpl. by rewrite sample_read_same.
  - intros r types w _. simpl. unfold sample_read. by destruct (sample_served w r) eqn:E.
  - intros r b media_type w r' _ Hn. simpl. by rewrite bool_decide_eq_false_2.
  - intros r b media_type w _. left. simpl. by rewrite bool_decide_eq_true_2.
Defined.
#[export] Instance sample_probing : Probing SampleWorld.
Proof.
  split; [done| |].
  - intros r w r'. simpl. by rewrite sample_read_same.
  - intros r w. simpl. unfold sample_read. by destruct (sample_served w r) eqn:E.
Qed.

#[export] Instance sample_reliable : Reliable SampleWorld.
Proof.
  refine {| reliable_faulty := sample_faulty; listing := sample_listing |}.
  - done.
  - intros r types w. simpl. unfold sample_read. destruct (sample_served w r); [done|eauto].
  - intros r b media_type w. eexists _, _. split; [done|]. intros r' _. done.
  - intros w registry repository t. unfold sample_listing. rewrite os_of_list_In, sample_served_Some, <- list_elem_of_In, list_elem_of_omap.
    rewrite in_map_iff. split.
    + intros ([r b] & Hin & Ht). apply sample_tag_Some in Ht as [Hr Hne]. split; [done|]. exists (r, b). by rewrite <- list_elem_of_In.
    + intros [Hne ([r b] & Hr & Hin)]. exists (r, b). split; [by apply list_elem_of_In|]. by apply sample_tag_Some.
  - intros w registry repository. apply os_of_list_wf.
  - intros r n after w. by left.
Defined.

(** ** A guarded repair *)

Definition sample_id : OciIdentifier := new_registry "cmake" "ocx.sh".
Definition sample_client : Client := mkClient [] 100.

(** The alias [3.28] carries a stale linux/amd64 entry and an orphan whose child is gone. *)
Definition sample_stale : ImageIndex := sample_index [sample_entry "sha256:old" linux_amd64; sample_entry "sha256:gone" darwin_arm64].
Definition sample_graph : TagGraphObservation :=
  mkObservation sample_id None
    (om_insert (AVersion (new_patch 3 28 1)) (sample_stored (sample_index [sample_entry "sha256:new" linux_amd64]))
      (om_insert (AVersion (new_minor 3 28))
         (mkObserved (sample_hash Sha256 (DocBytes (MIndex sample_stale))) 100 (MIndex sample_stale)) []))
    [] None.
Definition sample_repair : PlannedWrite :=
  List.nth 0 (repair_plan sample_graph [AVersion (new_minor 3 28)]) (mkWrite (Root None) sample_stale None [] []).

Lemma verdict_safe_witness :
  verdict sample_repair [("sha256:gone", sample_digest)] [] = PfWrite ["sha256:gone"] /\
  ix_manifests (verdict_index sample_repair ["sha256:gone"]) <> [].
Proof.
  assert (verdict sample_repair [("sha256:gone", sample_digest)] [] = PfWrite ["sha256:gone"]) as Hv
    by (vm_compute; reflexivity).
  split; [exact Hv|]. apply (proj2 (proj2 (proj2 (verdict_safe _ _ _ _ Hv)))). vm_compute. discriminate.
Defined.

Definition sample_world : SampleWorld :=
  [(mkReference "ocx.sh" "cmake" (Some "3.28") None, DocBytes (MIndex sample_stale))].
Definition sample_run := write_alias sample_client sample_id sample_repair (PfWrite ["sha256:gone"]) sample_world.
Definition sample_run_world : SampleWorld := sample_run.2.
Definition sample_written : Digest := sample_hash Sha256 (TextBytes "x").

Lemma write_alias_guarded_witness :
  sample_run = (Ok (Written sample_written true ["sha256:gone"]), sample_run_world) /\
  (probe_manifest_digest_addressed sample_client (clone_with_tag sample_id "3.28") CanonicalRead sample_world).1 =
    Ok (pw_observed_digest sample_repair).
Proof.
  assert (sample_run = (Ok (Written sample_written true ["sha256:gone"]), sample_run_world)) as Hr
    by (vm_compute; reflexivity).
  split; [exact Hr|].
  exact (proj1 (proj2 (write_alias_guarded sample_client sample_id sample_repair (PfWrite ["sha256:gone"]) sample_world
           sample_run_world (Written sample_written true ["sha256:gone"]) Hr))).
Defined.

(** ** A history of a package *)

Definition sample_info (p : Platform) : Info := mkInfo (Some (TextBytes "{}")) p.
Definition sample_layers : list LayerRef := [LayerFile "cmake.tar.gz" (mkLayout None None) None].
Definition sample_publish (v : Version) (p : Platform) (default_ : bool) (w : SampleWorld) :=
  publish 20 sample_client (clone_with_tag sample_id (version_display v)) [sample_info p] sample_layers None true default_ [] w.

Definition sample_v1 : Version := new_patch 3 28 1.
Definition sample_v2 : Version := new_patch 3 27 9.
Definition sample_v3 : Version := with_variant (new_patch 3 28 1) "debug".

Definition sample_w1 : SampleWorld := (sample_publish sample_v1 linux_amd64 false []).2.
Definition sample_w2 : SampleWorld := (sample_publish sample_v2 linux_amd64 false sample_w1).2.
Definition sample_w3 : SampleWorld := (sample_publish sample_v3 darwin_arm64 false sample_w2).2.

Example sample_history_tags :
  sample_listing sample_w3 "ocx.sh" "cmake" =
  ["3"; "3.27"; "3.27.9"; "3.28"; "3.28.1";
   "__ocx.keep.sha256-" +:+ sample_hex 3; "debug"; "debug-3"; "debug-3.28"; "debug-3.28.1"; "latest"].
Proof. vm_compute. reflexivity. Qed.

Lemma sample_step R w v p :
  history sample_id R w -> publishable v ->
  forallb (fun s => negb (os_mem (AVersion v) (alias_chain s)) && negb (os_mem (AVersion s) (alias_chain v))) R = true ->
  (length (tags_of w sample_id) <? 20)%nat = true ->
  apply_build_meta (clone_with_tag sample_id (version_display v)) None = Ok (clone_with_tag sample_id (version_display v)) ->
  history sample_id (v :: R) (sample_publish v p false w).2.
Proof.
  intros Hh Hp Hf Hl Hb. apply (history_publish sample_id R w 20 sample_client _ [sample_info p] sample_layers None true false [] v);
    [done| |simpl; lia|by apply Nat.ltb_lt|done|done].
  split_and!; [done| |done]. intros s Hs. rewrite forallb_forall in Hf. specialize (Hf s Hs).
  rewrite andb_true_iff, !negb_true_iff, <- !not_true_iff_false, !os_mem_In in Hf. done.
Qed.

Lemma sample_history : history sample_id [sample_v3; sample_v2; sample_v1] sample_w3.
Proof.
  apply sample_step; [apply sample_step; [apply sample_step; [by apply history_start|..]|..]|..];
    try (split; vm_compute; reflexivity); try (vm_compute; reflexivity).
  all: split; [vm_compute; reflexivity|done].
Qed.

Definition sample_readable (w : SampleWorld) : bool :=
  forallb (fun e => match rf_tag e.1 with Some t => is_internal_namespace t || is_valid_oci_tag t | None => true end &&
                    (bytes_len e.2 <=? MAX_INDEX_DOCUMENT_BYTES)%N) w.
Lemma sample_readable_ok w id : sample_readable w = true -> readable w id.
Proof.
  intros Hw t b Hs Hn. assert (In (tag_ref id t, b) w) as Hin.
  { revert Hs. simpl. induction w as [|[r b'] w IH]; simpl; [done|]. case_bool_decide as Er; [intros [= ->]; subst; by left|].
    simpl in Hw. apply andb_true_iff in Hw as [_ Hw]. auto. }
  unfold sample_readable in Hw. rewrite forallb_forall in Hw. specialize (Hw _ Hin). simpl in Hw.
  rewrite Hn, andb_true_iff, N.leb_le in Hw. done.
Qed.

Lemma published_package_checks_clean_witness :
  exists o, gather 20 sample_client sample_id sample_id (io_ret None) sample_w3 = (Ok (Some o), sample_w3) /\
    has_findings (diff o (fold_expected o) (alias_universe (observed_versions o))) = false.
Proof.
  destruct (published_package_checks_clean 20 sample_client sample_id sample_id [sample_v3; sample_v2; sample_v1] sample_w3)
    as (o & Hg & Hclean).
  - exact sample_history.
  - apply sample_readable_ok. vm_compute. reflexivity.
  - exists "latest". split; [reflexivity|]. eexists. vm_compute. reflexivity.
  - simpl. lia.
  - apply Nat.ltb_lt. vm_compute. reflexivity.
  - exists o. split; [exact Hg|]. apply Hclean. auto.
Defined.


(** ** A push that stops half way *)

(** The same registry with a budget of manifest PUTs; past it they fail. *)
Record FlakyWorld : Type := mkFlaky { fk_world : SampleWorld; fk_puts : nat }.
Definition flaky {E A : Type} (m : io SampleWorld E A) : io FlakyWorld E A := fun w =>
  let '(r, w') := m (fk_world w) in (r, mkFlaky w' (fk_puts w)).

#[export] Instance flaky_transport : Transport FlakyWorld := {|
  ensure_auth := fun r op => flaky (ensure_auth r op);
  transport_list_tags := fun r n after => flaky (transport_list_tags r n after);
  fetch_manifest_digest := fun r => flaky (fetch_manifest_digest r);
  pull_manifest_raw := fun r types => flaky (pull_manifest_raw r types);
  push_manifest_raw := fun r b media_type w =>
    match fk_puts w with
    | O => (Err RegistryError, w)
    | S puts => let '(d, w') := push_manifest_raw r b media_type (fk_world w) in (d, mkFlaky w' puts)
    end;
  push_blob := fun r b d => flaky (push_blob r b d);
  head_blob := fun r d => flaky (head_blob r d);
  mount_blob := fun r src d => flaky (mount_blob r src d);
  delete_manifest := fun r => flaky (delete_manifest r);
  probe_manifest := fun r => flaky (probe_manifest r);
  read_file := fun path => flaky (read_file path);
|}.

#[export] Instance flaky_faulty : Faulty FlakyWorld.
Proof.
  refine {| served := fun w => sample_served (fk_world w) |}; try done.
  - intros r types w r' _. simpl. unfold flaky, sample_read. by destruct (sample_served (fk_world w) r).
  - intros r types w _. simpl. unfold flaky, sample_read. by destruct (sample_served (fk_world w) r) eqn:E.
  - intros r b media_type [w [|puts]] r' _ Hn; simpl; [done|]. by rewrite bool_decide_eq_false_2.
  - intros r b media_type [w [|puts]] _; simpl; [by right|]. left. by rewrite bool_decide_eq_true_2.
Defined.

(** Three PUTs: the manifest, [3.28.1], [3.28]; the one for [3] fails. *)
Definition flaky_push := push_with_cascade sample_client (clone_with_tag sample_id (version_display sample_v1)) (sample_info linux_amd64)
  sample_layers [] sample_v1 true false [] (mkFlaky [] 3).

Lemma push_leaves_no_gap_witness :
  is_ok flaky_push.1 = false /\
  map (fun e => rf_tag e.1) (fk_world flaky_push.2) = [Some "3.28"; Some "3.28.1"; None] /\
  exists aliases twins written, aliases `prefix_of` alias_chain sample_v1 /\
    written `prefix_of` AVersion sample_v1 :: aliases ++ twins /\
    ~ In (AVersion (new_major 3)) written.
Proof.
  split; [vm_compute; reflexivity|]. split; [vm_compute; reflexivity|].
  destruct (push_leaves_no_gap sample_client sample_id [] sample_v1 (sample_info linux_amd64) sample_layers true false []
              (mkFlaky [] 3)) as (e & aliases & twins & written & _ & Hal & _ & Hw & Hslot & _);
    [vm_compute; reflexivity|].
  fold flaky_push in Hslot. exists aliases, twins, written. split; [exact Hal|]. split; [exact Hw|].
  intros Ha. specialize (Hslot _ (native_from linux_amd64) Ha). vm_compute in Hslot. discriminate.
Defined.

(** ** A repair *)

(** Whether an observation shows all versions of a sample registry, and its rolling tags. *)
Definition sample_sees (w : SampleWorld) (id : OciIdentifier) (o : TagGraphObservation) : Prop :=
  forallb version_wf (observed_versions o) = true /\
  map (fun e => served w (tag_ref id (alias_display e.1)) ≫= manifest_from_slice) (ob_tags o) =
    map (fun e => Some (ob_manifest e.2)) (ob_tags o) /\
  map (shown_manifest o) (alias_universe (observed_versions o)) =
    map (fun a => served w (tag_ref id (alias_display a)) ≫= manifest_from_slice) (alias_universe (observed_versions o)) /\
  forallb (fun e => match rf_tag e.1 ≫= version_parse with
                    | Some v => bool_decide (is_Some (om_get (AVersion v) (ob_tags o)))
                    | None => true
                    end) w = true.

Lemma sample_served_In w r b : sample_served w r = Some b -> In (r, b) w.
Proof.
  induction w as [|[r' b'] w IH]; simpl; [done|]. case_bool_decide as Er; [intros [= ->]; subst; by left|]. intros Hs. right. auto.
Qed.

Lemma sample_shows w id o : sample_sees w id o -> shows w id o.
Proof.
  intros (Hwf & Htags & Huni & Hw). rewrite forallb_forall in Hwf, Hw.
  pose proof (fun x => proj1 map_ext_in_iff Htags x) as Ht. pose proof (fun x => proj1 map_ext_in_iff Huni x) as Hu. split; [done|].
  intros [r|v] Hn; [by apply Hu|]. destruct (om_get (AVersion v) (ob_tags o)) as [ob|] eqn:Eo.
  - symmetry. apply (Ht (AVersion v, ob)). by apply om_get_In_1.
  - simpl. destruct (sample_served w (tag_ref id (version_display v))) as [b|] eqn:Es; [|done].
    apply sample_served_In, Hw in Es. simpl in Es. rewrite (parse_display v Hn), Eo in Es. discriminate.
Qed.

(** [3.28] names an older build and an orphan whose manifest is gone; [3] and
    [latest] are as the push left them. *)
Definition broken_index : ImageIndex :=
  sample_index [sample_entry ("sha256:" +:+ sample_hex 1) linux_amd64; sample_entry ("sha256:" +:+ sample_hex 2) darwin_arm64].
Definition broken_world : SampleWorld := (tag_ref sample_id "3.28", DocBytes (MIndex broken_index)) :: sample_w1.
Definition gathered (w : SampleWorld) : TagGraphObservation :=
  match (gather 20 sample_client sample_id sample_id (io_ret None) w).1 with
  | Ok (Some o) => o
  | _ => mkObservation sample_id None [] [] None
  end.
Definition broken_scope : list AliasTag := alias_universe (observed_versions (gathered broken_world)).
Definition broken_repair := apply_repairs sample_client sample_id (repair_plan (gathered broken_world) broken_scope) broken_world.
Definition written_digest : Digest := sample_hash Sha256 (TextBytes "x").

Lemma repair_converges_witness :
  broken_repair.1 = Ok [mkRepairOutcome (AVersion (new_minor 3 28)) (Written written_digest true ["sha256:" +:+ sample_hex 2])] /\
  alias_state (gathered broken_repair.2) (AVersion (new_minor 3 28)) = StPresent /\
  held_slot (gathered broken_repair.2) (AVersion (new_minor 3 28)) (native_from darwin_arm64) = None /\
  gone broken_world sample_id ("sha256:" +:+ sample_hex 2).
Proof.
  assert (broken_repair.1 =
    Ok [mkRepairOutcome (AVersion (new_minor 3 28)) (Written written_digest true ["sha256:" +:+ sample_hex 2])]) as Hrun
    by (vm_compute; reflexivity).
  split; [exact Hrun|].
  assert (forall a, In a broken_scope -> In a (alias_universe (observed_versions (gathered broken_world)))) as Hscope
    by (intros a Ha; exact Ha).
  assert (shows broken_world sample_id (gathered broken_world)) as Hbefore.
  { apply sample_shows. split; [vm_compute; reflexivity|]. split; [vm_compute; reflexivity|].
    split; [vm_compute; reflexivity|vm_compute; reflexivity]. }
  assert (shows broken_repair.2 sample_id (gathered broken_repair.2)) as Hafter.
  { apply sample_shows. split; [vm_compute; reflexivity|]. split; [vm_compute; reflexivity|].
    split; [vm_compute; reflexivity|vm_compute; reflexivity]. }
  destruct (repair_converges sample_client sample_id (gathered broken_world) broken_scope broken_world Hscope Hbefore
              (gathered broken_repair.2) Hafter) as (_ & _ & Hout).
  change (apply_repairs _ _ _ _).1 with broken_repair.1 in Hout. rewrite Hrun in Hout.
  assert (In (AVersion (new_minor 3 28)) broken_scope) as Hin by (apply os_mem_In; vm_compute; reflexivity).
  destruct (proj1 (Hout _ Hin) _ (or_introl eq_refl) eq_refl) as (Hst & _ & Hkeep & _).
  split; [exact Hst|]. split; [vm_compute; reflexivity|].
  destruct (Hkeep (native_from darwin_arm64) (sample_entry ("sha256:" +:+ sample_hex 2) darwin_arm64)) as [Hh|[_ Hg]];
    [vm_compute; reflexivity| |exact Hg]. exfalso. destruct Hh as [h Hh]. vm_compute in Hh. discriminate.
Defined.
