(* ===== verification/UpgradeTarget.v ===== *)
(** * Upgrades and concrete versions

    [crates/ocx_package/src/upgrade_target.rs] (the tag [ocx upgrade] moves a
    binding to) and [crates/ocx_package/src/concrete_version.rs] (the concrete
    version an advisory tag currently names). *)

From stdpp Require Import base decidable list option numbers strings.
From Stdlib Require Import Lia Sorting.
From S2P Require Import Prelude OMap Text Version VersionText Digest Tag Cascade PackageRef Platform CascadeGraph CascadeFacts.
From S2P Require Import CascadeRepair CascadeSpec.
Local Open Scope ocx_scope.
Local Open Scope string_scope.

(** ** Upgrade targets *)

(** [enum SkipReason]. *)
Inductive SkipReason : Type := DigestPinned | SkipLatest | NotAVersion | PrereleaseOrBuild | UpToDate.

(** [tracked_version]. *)
Definition tracked_version (binding : PackageRef) : result SkipReason Version :=
  if bool_decide (is_Some (pr_digest binding)) then Err DigestPinned
  else
    let tag := tag_or_latest binding in
    if String.eqb tag "latest" then Err SkipLatest
    else match version_parse tag with
         | None => Err NotAVersion
         | Some version => if has_prerelease version || has_build version then Err PrereleaseOrBuild else Ok version
         end.

(** [newest_on_track]: same variant, same precision, a plain release, newer, admitted. *)
Definition on_track (current : Version) (admits : Version -> bool) (candidate : Version) : bool :=
  bool_decide (v_variant candidate = v_variant current) &&
  Bool.eqb (has_minor candidate) (has_minor current) && Bool.eqb (has_patch candidate) (has_patch current) &&
  negb (has_prerelease candidate) && negb (has_build candidate) && ord_ltb current candidate && admits candidate.
Definition newest_on_track (current : Version) (tags : list string) (admits : Version -> bool) : option Version :=
  iter_max (List.filter (on_track current admits) (omap version_parse tags)).

(** [upgrade_target], [newest_beyond_major]. *)
Definition upgrade_target (current : Version) (tags : list string) (allow_major : bool) : option Version :=
  newest_on_track current tags (fun candidate => allow_major || (v_major candidate =? v_major current)%N).
Definition newest_beyond_major (current : Version) (tags : list string) : option Version :=
  newest_on_track current tags (fun candidate => v_major current <? v_major candidate)%N.

Example upgrade_minor :
  upgrade_target (new_minor 3 28) ["3"; "3.28"; "3.28.4"; "3.29"; "3.29.1"; "3.30"; "3.30.0"; "4"; "4.0"; "4.0.0"] false =
  Some (new_minor 3 30).
Proof. reflexivity. Qed.
Example upgrade_major :
  upgrade_target (new_major 3) ["3"; "4"; "5"; "5.1"; "6.0.0"] true = Some (new_major 5) /\
  upgrade_target (new_major 3) ["3"; "4"; "5"; "5.1"; "6.0.0"] false = None.
Proof. split; reflexivity. Qed.

(** ** Concrete versions *)

(** [candidate_versions]: the filter on the parsed tags. *)
Definition names_candidate (advisory : string) (version : Version) : bool :=
  let named := version_parse advisory in
  let latest_variant :=
    if String.eqb advisory "latest" then Some None
    else match named with None => Some (Some advisory) | Some _ => None end in
  match named, latest_variant with
  | Some named, _ => ord_eqb version named || existsb (ord_eqb named) (ct_targets (decompose_targets version))
  | None, Some variant => bool_decide (v_variant version = variant) && ct_latest_eligible (decompose_targets version)
  | None, None => false
  end.
Definition candidate_versions (advisory : string) (tags : list string) : list Version :=
  ord_dedup (ord_sort_desc
    (List.filter (names_candidate advisory)
      (List.filter (fun version => has_patch version && negb (has_prerelease version) && negb (has_build version))
        (omap version_parse tags)))).

Section Concrete.
Context {W E : Type}.

(** The read-only view of an index the probe goes through. *)
Record IndexView : Type := mkIndexView {
  iv_list_tags : PackageRef -> io W E (option (list string));
  iv_fetch_candidates : PackageRef -> io W E (option (list (PackageRef * Platform)));
}.

(** One candidate: every leaf is offered, under its platform text, with its digest. *)
Definition matches_every_leaf (leaves : list (string * Digest)) (manifests : list (PackageRef * Platform)) : bool :=
  forallb (fun leaf => existsb (fun offer => String.eqb (platform_display offer.2) leaf.1 &&
                                             bool_decide (pr_digest offer.1 = Some leaf.2)) manifests) leaves.
Fixpoint probe_candidates (index : IndexView) (advisory : PackageRef) (leaves : list (string * Digest))
    (candidates : list Version) : io W E (option Version) :=
  match candidates with
  | [] => io_ret None
  | candidate :: rest =>
      let! fetched := iv_fetch_candidates index (clone_with_tag advisory (version_display candidate)) in
      match fetched with
      | None => probe_candidates index advisory leaves rest
      | Some manifests =>
          if matches_every_leaf leaves manifests then io_ret (Some candidate)
          else probe_candidates index advisory leaves rest
      end
  end.

(** [resolve_concrete_version]. *)
Definition resolve_concrete_version (index : IndexView) (advisory : PackageRef) (leaves : list (string * Digest))
    (max_probes : nat) : io W E (option Version) :=
  match leaves with
  | [] => io_ret None
  | _ :: _ =>
      let! listed := iv_list_tags index advisory in
      match listed with
      | None => io_ret None
      | Some tags => probe_candidates index advisory leaves (firstn max_probes (candidate_versions (tag_or_latest advisory) tags))
      end
  end.
End Concrete.

(** ** Lemmas *)

Lemma on_track_spec current admits u : on_track current admits u = true <->
  v_variant u = v_variant current /\ has_minor u = has_minor current /\ has_patch u = has_patch current /\
  has_prerelease u = false /\ has_build u = false /\ current <o u /\ admits u = true.
Proof.
  unfold on_track. rewrite !andb_true_iff, bool_decide_eq_true, !negb_true_iff, ord_ltb_lt, !Bool.eqb_true_iff. tauto.
Qed.

Lemma newest_spec current tags admits t : newest_on_track current tags admits = Some t <->
  (In t (omap version_parse tags) /\ on_track current admits t = true) /\
  forall u, In u (omap version_parse tags) -> on_track current admits u = true -> ~ t <o u.
Proof. unfold newest_on_track. rewrite iter_max_Some. setoid_rewrite filter_In. naive_solver. Qed.

Lemma newest_none current tags admits : newest_on_track current tags admits = None <->
  forall u, In u (omap version_parse tags) -> on_track current admits u = false.
Proof.
  unfold newest_on_track. rewrite iter_max_None. split.
  - intros E u Hu. destruct (on_track current admits u) eqn:Eu; [|done].
    assert (In u []) as []. rewrite <- E. by apply filter_In.
  - intros H. apply filter_nil_all. intros u Hu. by apply H.
Qed.

(** Within a variant the major number decides first. *)
Lemma version_lt_major v w : v_variant v = v_variant w -> v <o w -> (v_major v <= v_major w)%N.
Proof.
  intros Hv. change (version_cmp v w = Lt -> (v_major v <= v_major w)%N). unfold version_cmp. rewrite Hv.
  assert (match v_variant w, v_variant w with
          | None, None => Eq | None, Some _ => Gt | Some _, None => Lt | Some a, Some b => String.compare a b end = Eq) as ->.
  { destruct (v_variant w); [apply (lawful_eq _ lawful_string); done|done]. }
  destruct (N.compare_spec (v_major v) (v_major w)); [lia|lia|done].
Qed.

Lemma version_major_lt v w : v_variant v = v_variant w -> (v_major v < v_major w)%N -> v <o w.
Proof.
  intros Hv Hm. destruct (ord_total v w) as [?|[->|Hgt]]; [done|lia|].
  apply version_lt_major in Hgt; [lia|done].
Qed.

(** The alias an advisory tag text stands for. *)
Definition advisory_alias (advisory : string) : AliasTag :=
  match version_parse advisory with
  | Some v => AVersion v
  | None => if String.eqb advisory "latest" then Root None else Root (Some advisory)
  end.

Lemma latest_eligible v : ct_latest_eligible (decompose_targets v) = negb (has_prerelease v).
Proof. unfold decompose_targets. by destruct (has_prerelease v), (has_build v). Qed.

Lemma names_candidate_spec advisory v :
  names_candidate advisory v = true <-> In (advisory_alias advisory) (AVersion v :: alias_chain v).
Proof.
  unfold names_candidate, advisory_alias. destruct (version_parse advisory) as [n|] eqn:En.
  - rewrite orb_true_iff, ord_eqb_eq. change (existsb (ord_eqb n)) with (os_mem n). rewrite os_mem_In. simpl.
    rewrite alias_chain_In. naive_solver.
  - destruct (String.eqb advisory "latest"); rewrite andb_true_iff, bool_decide_eq_true, latest_eligible, negb_true_iff; simpl;
      rewrite alias_chain_root; naive_solver.
Qed.

Lemma probe_candidates_skip {W E : Type} (index : IndexView (W := W) (E := E)) advisory leaves candidates w r w' :
  probe_candidates index advisory leaves candidates w = (Ok (Some r), w') ->
  exists before after, candidates = (before ++ r :: after)%list /\
    exists w1 w2 manifests, iv_fetch_candidates index (clone_with_tag advisory (version_display r)) w1 = (Ok (Some manifests), w2) /\
      matches_every_leaf leaves manifests = true /\ w' = w2.
Proof.
  revert w. induction candidates as [|c candidates IH]; intros w; simpl; [done|]. unfold io_bind.
  destruct (iv_fetch_candidates index _ w) as [[[manifests|]|e] w1] eqn:Ef; [| |done].
  - destruct (matches_every_leaf leaves manifests) eqn:Em.
    + intros [= <- <-]. exists [], candidates. split; [done|]. by exists w, w1, manifests.
    + intros (before & after & -> & Hr)%IH. by exists (c :: before), after.
  - intros (before & after & -> & Hr)%IH. by exists (c :: before), after.
Qed.

(** An index that answers from a fixed snapshot. *)
Definition snapshot_view {W E : Type} (lists : PackageRef -> option (list string))
    (offers : PackageRef -> option (list (PackageRef * Platform))) : IndexView (W := W) (E := E) :=
  mkIndexView (fun r => io_ret (lists r)) (fun r => io_ret (offers r)).

Lemma probe_candidates_snapshot {W E : Type} lists offers advisory leaves candidates (w : W) :
  probe_candidates (E := E) (snapshot_view lists offers) advisory leaves candidates w =
  (Ok (List.find (fun v => match offers (clone_with_tag advisory (version_display v)) with
                           | Some manifests => matches_every_leaf leaves manifests | None => false end) candidates), w).
Proof.
  induction candidates as [|c candidates IH]; [done|]. simpl. unfold io_bind, io_ret.
  destruct (offers _) as [manifests|]; [|done]. by destruct (matches_every_leaf leaves manifests).
Qed.

(** ** Properties *)

(** [ocx upgrade] moves a binding as its policy says.  The target keeps the
    binding's variant and precision, is a plain release listed among the tags and
    newer than the binding, and stays in its major unless crossing is allowed;
    upgrading again finds nothing; and allowing majors reaches exactly what
    [newest_beyond_major] reports when there is a newer major, and what the plain
    upgrade reaches when there is none. *)
Theorem upgrade_target_policy (current : Version) (tags : list string) :
  (forall allow_major t, upgrade_target current tags allow_major = Some t ->
     (exists tag, In tag tags /\ version_parse tag = Some t) /\
     v_variant t = v_variant current /\ has_minor t = has_minor current /\ has_patch t = has_patch current /\
     has_prerelease t = false /\ has_build t = false /\ version_cmp current t = Lt /\
     (allow_major = false -> v_major t = v_major current) /\
     upgrade_target t tags allow_major = None) /\
  upgrade_target current tags true =
    match newest_beyond_major current tags with Some t => Some t | None => upgrade_target current tags false end.
Proof.
  split.
  - intros allow_major t. unfold upgrade_target at 1. rewrite newest_spec. intros [[Hin Ht] Hmax].
    apply on_track_spec in Ht as (Hv & Hmi & Hpa & Hpr & Hbu & Hlt & Hadm). split_and!; try done.
    + apply list_elem_of_In, list_elem_of_omap in Hin as (tag & Htag & E). exists tag. by rewrite <- list_elem_of_In.
    + intros ->. by apply N.eqb_eq.
    + apply newest_none. intros u Hu. destruct (on_track t _ u) eqn:Eu; [|done]. exfalso.
      apply on_track_spec in Eu as (Hv' & Hmi' & Hpa' & Hpr' & Hbu' & Hlt' & Hadm').
      apply (Hmax u Hu); [|done]. apply on_track_spec. split_and!; try congruence; [by eapply ord_cmp_trans|].
      destruct allow_major; [done|]. simpl in *. apply N.eqb_eq in Hadm, Hadm'. apply N.eqb_eq. congruence.
  - destruct (newest_beyond_major current tags) as [t|] eqn:Eb.
    + apply newest_spec in Eb as [[Hin Ht] Hmax]. apply newest_spec.
      apply on_track_spec in Ht as (Hv & Hmi & Hpa & Hpr & Hbu & Hlt & Hadm). apply N.ltb_lt in Hadm. split.
      * split; [done|]. apply on_track_spec. done.
      * intros u Hu (Hv' & Hmi' & Hpa' & Hpr' & Hbu' & Hlt' & _)%on_track_spec Htu. apply (Hmax u Hu); [|done].
        apply on_track_spec. split_and!; try done. apply N.ltb_lt. apply version_lt_major in Htu; [lia|congruence].
    + unfold newest_beyond_major in Eb. rewrite newest_none in Eb. unfold upgrade_target, newest_on_track. f_equal. apply List.filter_ext_in.
      intros u Hu. specialize (Eb u Hu). apply eq_true_iff_eq. rewrite !on_track_spec. simpl.
      split; intros (Hv & Hmi & Hpa & Hpr & Hbu & Hlt & Ha); split_and!; try done.
      apply N.eqb_eq. apply not_true_iff_false in Eb. rewrite on_track_spec in Eb.
      pose proof (version_lt_major current u (eq_sym Hv) Hlt). destruct (N.eq_dec (v_major u) (v_major current)); [done|].
      exfalso. apply Eb. split_and!; try done. apply N.ltb_lt. lia.
Qed.

(** the candidates for an advisory tag are the releases that roll into it,
    newest first.  [candidate_versions] lists, in strictly descending order, exactly
    the listed [X.Y.Z] releases that are the advisory itself or have it as a rolling
    alias; what [resolve_concrete_version] answers is one of the first [max_probes]
    of them whose offers carry every leaf digest under its platform, whatever the
    index does between the reads; and over a fixed snapshot it always answers, with
    the newest such candidate. *)
Theorem concrete_version_exact {W E : Type} (index : IndexView (W := W) (E := E)) (advisory : PackageRef)
    (leaves : list (string * Digest)) (max_probes : nat) (w : W) :
  (forall text tags, StronglySorted (fun x y => version_cmp y x = Lt) (candidate_versions text tags) /\
     forall v, In v (candidate_versions text tags) <->
       (exists tag, In tag tags /\ version_parse tag = Some v) /\ has_patch v = true /\ has_prerelease v = false /\
       has_build v = false /\ In (advisory_alias text) (AVersion v :: alias_chain v)) /\
  (forall r w', resolve_concrete_version index advisory leaves max_probes w = (Ok (Some r), w') ->
     leaves <> [] /\
     exists tags w1, iv_list_tags index advisory w = (Ok (Some tags), w1) /\
       In r (firstn max_probes (candidate_versions (tag_or_latest advisory) tags)) /\
       exists w2 manifests, iv_fetch_candidates index (clone_with_tag advisory (version_display r)) w2 = (Ok (Some manifests), w') /\
         forall platform leaf, In (platform, leaf) leaves ->
           exists offer, In offer manifests /\ platform_display offer.2 = platform /\ pr_digest offer.1 = Some leaf) /\
  (forall lists offers, resolve_concrete_version (E := E) (snapshot_view lists offers) advisory leaves max_probes w =
     (Ok (if bool_decide (leaves = []) then None
          else tags ← lists advisory;
            List.find (fun v => match offers (clone_with_tag advisory (version_display v)) with
                                | Some manifests => matches_every_leaf leaves manifests | None => false end)
              (firstn max_probes (candidate_versions (tag_or_latest advisory) tags))), w)).
Proof.
  split_and!.
  - intros text tags. split; [exact (dedup_sort_desc (K := Version) _)|]. intros v. unfold candidate_versions.
    rewrite dedup_sort_desc_In, !filter_In, names_candidate_spec, !andb_true_iff, !negb_true_iff.
    rewrite <- list_elem_of_In, list_elem_of_omap. setoid_rewrite list_elem_of_In. tauto.
  - intros r w' Hr. unfold resolve_concrete_version in Hr. destruct leaves as [|l0 leaves]; [done|]. split; [done|].
    unfold io_bind in Hr. destruct (iv_list_tags index advisory w) as [[[tags|]|e] w1]; [|done|done].
    exists tags, w1. split; [done|]. apply probe_candidates_skip in Hr as (before & after & -> & w2 & w3 & manifests & Hf & Hm & ->).
    split; [apply in_app_iff; right; by left|]. exists w2, manifests. split; [done|]. intros platform leaf Hl.
    unfold matches_every_leaf in Hm. rewrite forallb_forall in Hm. specialize (Hm _ Hl).
    apply existsb_exists in Hm as (offer & Ho & Hoff). rewrite andb_true_iff, String.eqb_eq, bool_decide_eq_true in Hoff.
    exists offer. destruct Hoff. done.
  - intros lists offers. unfold resolve_concrete_version. destruct leaves as [|l0 leaves]; [done|].
    rewrite bool_decide_false by done. simpl. unfold io_bind, io_ret. destruct (lists advisory) as [tags|]; [|done].
    apply probe_candidates_snapshot.
Qed.
