(* ===== verification/Prune.v ===== *)
(** * Pruning tags

    [crates/ocx_package/src/prune.rs], the deletion behind [ocx package prune]:
    the argument parsers, locating the repository, selecting tags, the safeguard
    that judges each tag against the index, and the deletes with their
    confirmation.  The report a failed run still prints is state beside the
    world.  The message texts and the pause between confirmations are left out.
    The index is a parameter: its root read and its guard on the physical host. *)

From stdpp Require Import base decidable list option numbers strings.
From Stdlib Require Import Lia ZArith Ascii.
From S2P Require Import Prelude OMap Text Version VersionText Digest Tag PackageRef Platform Registry Client.
Local Open Scope ocx_scope.
Local Open Scope string_scope.

(** ** Data *)

Definition CONFIRM_TRIES : nat := 3.

(** [enum PruneSelection], [struct PruneRequest]. *)
Inductive PruneSelection : Type :=
| SelTags (tags : list string)
| SelPrerelease (prerelease : Version) (keep_builds : option N).
Record PruneRequest : Type := mkPruneRequest { rq_selection : PruneSelection; rq_force : bool; rq_dry_run : bool }.

(** [struct IndexedRoot], [struct PruneTarget]. *)
Record IndexedRoot : Type := mkIndexedRoot { xr_url : string; xr_root_sha256 : Digest; xr_root : IndexRoot }.
Record PruneTarget : Type := mkPruneTarget {
  tg_package : OciIdentifier;
  tg_repository : OciIdentifier;
  tg_index : option IndexedRoot;
}.

(** [enum PruneAction], [enum PruneReason], [enum Verdict]. *)
Inductive PruneAction : Type := PaDeleted | PaAbsent | PaWouldDelete | PaKept | PaRefused | PaNotAttempted.
Inductive PruneReason : Type := Newest | Rolling | Durable | PrNotInIndex.
Inductive Verdict : Type := VKeep (reason : PruneReason) | VDelete | VAbsent | VRefuse (reason : PruneReason).

#[export] Instance PruneAction_eq_dec : EqDecision PruneAction.
Proof. solve_decision. Defined.
#[export] Instance PruneReason_eq_dec : EqDecision PruneReason.
Proof. solve_decision. Defined.
#[export] Instance Verdict_eq_dec : EqDecision Verdict.
Proof. solve_decision. Defined.

(** [struct PruneTag], [struct PruneIndexReport], [struct PruneOutcome]. *)
Record PruneTag : Type := mkPruneTag {
  pt_tag : string;
  pt_digest : option Digest;
  pt_action : PruneAction;
  pt_reason : option PruneReason;
  pt_in_root : bool;
}.
#[export] Instance PruneTag_inhabited : Inhabited PruneTag := populate (mkPruneTag "" None PaNotAttempted None false).
Record PruneIndexReport : Type := mkPruneIndexReport { pi_url : string; pi_root_sha256 : Digest }.
Record PruneOutcome : Type := mkPruneOutcome {
  po_package : OciIdentifier;
  po_repository : OciIdentifier;
  po_selection : PruneSelection;
  po_force : bool;
  po_dry_run : bool;
  po_index : option PruneIndexReport;
  po_tags : list PruneTag;
  po_selected : bool;
}.
Definition set_tags (tags : list PruneTag) (o : PruneOutcome) : PruneOutcome :=
  mkPruneOutcome (po_package o) (po_repository o) (po_selection o) (po_force o) (po_dry_run o) (po_index o) tags (po_selected o).
Definition set_selected (o : PruneOutcome) : PruneOutcome :=
  mkPruneOutcome (po_package o) (po_repository o) (po_selection o) (po_force o) (po_dry_run o) (po_index o) (po_tags o) true.
Definition set_action (action : PruneAction) (row : PruneTag) : PruneTag :=
  mkPruneTag (pt_tag row) (pt_digest row) action (pt_reason row) (pt_in_root row).

(** [PruneOutcome::tags_file_entries]. *)
Definition tags_file_entries (o : PruneOutcome) : option (list string) :=
  if po_dry_run o || negb (po_selected o) then None
  else Some (map pt_tag (List.filter (fun row =>
         pt_in_root row && match pt_action row with PaDeleted | PaAbsent => true | _ => false end) (po_tags o))).

(** ** Arguments *)

(** [enum PruneError]; [IE] is the error of the index.  The reason texts of
    [InvalidTag] are constructors. *)
Inductive InvalidTagReason : Type := TagGrammar | KeepTag.
Inductive PruneError {IE : Type} : Type :=
| PE_NotAPrereleaseFamily (value : string)
| PE_DigestTag (value : string)
| PE_InvalidTag (value : string) (reason : InvalidTagReason)
| PE_PackageNotBare (package : string)
| PE_RootUnreadable (package url : string) (source : IE)
| PE_NotInIndex (package url : string)
| PE_RepositoryPointer (package : string) (source : IE)
| PE_NoIndex (package : string)
| PE_Refused (package url : string) (durable not_in_index : list string)
| PE_DeleteDenied (repository tag : string) (source : ClientError)
| PE_StillPresent (repository tag : string)
| PE_Registry (source : ClientError).
Arguments PruneError : clear implicits.

(** [parse_prerelease_family], [parse_tag]. *)
Definition parse_prerelease_family {IE : Type} (value : string) : result (PruneError IE) Version :=
  match version_parse value with
  | Some version => if has_prerelease version && negb (has_build version) then Ok version
                    else Err (PE_NotAPrereleaseFamily value)
  | None => Err (PE_NotAPrereleaseFamily value)
  end.
Definition parse_tag {IE : Type} (value : string) : result (PruneError IE) string :=
  if str_mem ":"%char value || str_mem "@"%char value then Err (PE_DigestTag value)
  else if negb (is_valid_oci_tag value) then Err (PE_InvalidTag value TagGrammar)
  else if String.prefix KEEP_TAG_PREFIX value then Err (PE_InvalidTag value KeepTag)
  else Ok value.

(** ** Selection *)

(** [select], explicit tags: [filter(|tag| seen.insert(tag))] keeps the first of each. *)
Fixpoint first_seen (seen tags : list string) : list string :=
  match tags with
  | [] => []
  | tag :: rest => if existsb (String.eqb tag) seen then first_seen seen rest else tag :: first_seen (tag :: seen) rest
  end.

(** [select], a family: the loop over the listing, then the order and what is kept. *)
Definition family_step (prerelease : Version) (acc : list (Version * string) * option string) (tag : string) :
    list (Version * string) * option string :=
  match version_parse tag with
  | None => acc
  | Some version =>
      if ord_eqb version prerelease then (acc.1, Some tag)
      else if has_build version && match parent version with Some p => ord_eqb p prerelease | None => false end
      then ((acc.1 ++ [(version, tag)])%list, acc.2)
      else acc
  end.
Definition build_cmp (left right : Version * string) : comparison := version_cmp left.1 right.1.
Definition family_selection (prerelease : Version) (keep_builds : option N) (listing : list string) :
    list (string * option PruneReason) :=
  let '(builds, rolling) := fold_left (family_step prerelease) listing ([], None) in
  let builds := sort_by build_cmp builds in
  let keep := match keep_builds with Some count => N.to_nat count | None => 0%nat end in
  let first_kept := (length builds - keep)%nat in
  (imap (fun position build => (build.2, if (first_kept <=? position)%nat then Some Newest else None)) builds ++
   match rolling with Some tag => [(tag, (fun _ => Rolling) <$> keep_builds)] | None => [] end)%list.

Section Prune.
Context `{U : OciSpec} `{!Codec} {W : Type} `{!Transport W} {IE : Type}.
Notation M := (io W (PruneError IE)).

(** ** Locating the repository *)

(** The index source, [OcxIndex], as far as [locate] uses it: its base URL, its
    uncached root read, the error of a bad pointer and the guard on a host. *)
Record IndexSource : Type := mkIndexSource {
  is_url : string;
  is_fetch_root : string -> io W IE (option (Digest * IndexRoot));
  is_malformed : IdentifierError -> IE;
  is_guard_destination : string -> io W IE unit;
}.

(** [OcxIndex::guard_repository_pointer]. *)
Definition guard_repository_pointer (source : IndexSource) (root : IndexRoot) : io W IE OciIdentifier :=
  let! physical := io_of (result_map_err (is_malformed source) (parse_repository_pointer (ir_repository root))) in
  let! _ := is_guard_destination source (pr_registry physical) in
  io_ret physical.

(** [locate]. *)
Definition locate (package : OciIdentifier) (index : option IndexSource) : M PruneTarget :=
  if bool_decide (is_Some (pr_tag package)) || bool_decide (is_Some (pr_digest package))
  then io_fail (PE_PackageNotBare (ref_display package))
  else match index with
       | None => io_ret (mkPruneTarget package package None)
       | Some source =>
           let url := is_url source in
           let! fetched := io_map_err (PE_RootUnreadable (ref_display package) url) (is_fetch_root source (pr_repository package)) in
           match fetched with
           | None => io_fail (PE_NotInIndex (ref_display package) url)
           | Some (root_sha256, root) =>
               let! repository := io_map_err (PE_RepositoryPointer (ref_display package)) (guard_repository_pointer source root) in
               io_ret (mkPruneTarget package (without_specifiers repository) (Some (mkIndexedRoot url root_sha256 root)))
           end
       end.

(** ** One run *)

Definition registry {A : Type} (m : io W ClientError A) : M A := io_map_err PE_Registry m.

(** [select].  [None] when the listing fuel runs out. *)
Definition select (fuel : nat) (client : Client) (target : PruneTarget) (selection : PruneSelection) :
    M (option (list (string * option PruneReason))) :=
  match selection with
  | SelTags tags => io_ret (Some (map (fun tag => (tag, None)) (first_seen [] tags)))
  | SelPrerelease prerelease keep_builds =>
      let! listing := registry (list_tags_or_empty_addressed fuel client (without_specifiers (tg_repository target)) CanonicalRead) in
      io_ret (family_selection prerelease keep_builds <$> listing)
  end.

(** [judge]. *)
Definition root_row (target : PruneTarget) (tag : string) : option RootTag :=
  indexed ← tg_index target; om_get tag (ir_tags (xr_root indexed)).
Definition judge (client : Client) (target : PruneTarget) (tag : string) (kept : option PruneReason) (force : bool) :
    M (Verdict * option Digest * bool) :=
  let row := root_row target tag in
  let in_root := bool_decide (is_Some row) in
  let root_digest := rt_content <$> row in
  match kept, row with
  | Some reason, _ => io_ret (VKeep reason, root_digest, in_root)
  | None, Some row =>
      let verdict := if rt_ephemeral row || force then VDelete else VRefuse Durable in
      io_ret (verdict, root_digest, true)
  | None, None =>
      let! presence := registry (probe_manifest_canonical client (clone_with_tag (tg_repository target) tag)) in
      match presence with
      | Present digest => io_ret (if force then VDelete else VRefuse PrNotInIndex, Some digest, false)
      | Absent _ => io_ret (VAbsent, None, false)
      end
  end.

(** [delete_and_confirm], and its confirmation loop. *)
Fixpoint confirm (client : Client) (reference : OciIdentifier) (deleted : DeleteOutcome) (tries : nat) :
    M (option PruneAction) :=
  match tries with
  | O => io_ret None
  | S tries' =>
      let! presence := registry (probe_manifest_canonical client reference) in
      match presence with
      | Absent _ => io_ret (Some (match deleted with Deleted => PaDeleted | AlreadyAbsent => PaAbsent end))
      | Present _ => confirm client reference deleted tries'
      end
  end.
Definition delete_and_confirm (client : Client) (repository : OciIdentifier) (tag : string) : M PruneAction :=
  let reference := clone_with_tag repository tag in
  let! deleted := io_try (delete_tag reference) in
  match deleted with
  | Err Authentication => io_fail (PE_DeleteDenied (ref_display repository) tag Authentication)
  | Err error => io_fail (PE_Registry error)
  | Ok deleted =>
      let! confirmed := confirm client reference deleted CONFIRM_TRIES in
      match confirmed with
      | Some action => io_ret action
      | None => io_fail (PE_StillPresent (ref_display repository) tag)
      end
  end.

(** The state of [run]: the world and the report. *)
Notation R := (io (W * PruneOutcome) (PruneError IE)).
Definition world {A : Type} (m : M A) : R A := fun s => let '(r, w) := m s.1 in (r, (w, s.2)).
Definition report {E : Type} (f : PruneOutcome -> PruneOutcome) : io (W * PruneOutcome) E unit := fun s => (Ok tt, (s.1, f s.2)).
Definition reported {E A : Type} (f : PruneOutcome -> A) : io (W * PruneOutcome) E A := fun s => (Ok (f s.2), s).

(** [run], the safeguard on one selected tag: its verdict, and its row. *)
Definition judged_row (dry_run : bool) (tag : string) (verdict : Verdict) (digest : option Digest) (in_root : bool) : PruneTag :=
  let '(action, reason) :=
    match verdict with
    | VKeep reason => (PaKept, Some reason)
    | VRefuse reason => (PaRefused, Some reason)
    | VAbsent => (PaAbsent, None)
    | VDelete => (if dry_run then PaWouldDelete else PaNotAttempted, None)
    end in
  mkPruneTag tag digest action reason in_root.
Definition judge_one (client : Client) (target : PruneTarget) (request : PruneRequest) (verdicts : list Verdict)
    (selected : string * option PruneReason) : R (list Verdict) :=
  let '(tag, kept) := selected in
  let! judged := world (judge client target tag kept (rq_force request)) in
  let '(verdict, digest, in_root) := judged in
  let! _ := report (fun o => set_tags (po_tags o ++ [judged_row (rq_dry_run request) tag verdict digest in_root]) o) in
  io_ret (verdicts ++ [verdict])%list.

(** [run], the tags refused for a reason, and the rows a refusal leaves. *)
Definition refused_for (reason : PruneReason) (rows : list PruneTag) : list string :=
  map pt_tag (List.filter (fun row => bool_decide (pt_action row = PaRefused) && bool_decide (pt_reason row = Some reason)) rows).
Definition refuse_row (row : PruneTag) : PruneTag :=
  match pt_action row with
  | PaWouldDelete | PaAbsent => set_action PaNotAttempted row
  | _ => row
  end.

(** [run], one position of the delete loop. *)
Definition delete_one (client : Client) (target : PruneTarget) (_ : unit) (at_ : nat * Verdict) : R unit :=
  let '(position, verdict) := at_ in
  if negb (bool_decide (verdict = VDelete)) then io_ret tt
  else
    let! row := reported (fun o => po_tags o !!! position) in
    let! action := world (delete_and_confirm client (tg_repository target) (pt_tag row)) in
    report (fun o => set_tags (<[position := set_action action row]> (po_tags o)) o).

(** [run].  [None] when the listing fuel runs out. *)
Definition run (fuel : nat) (client : Client) (target : PruneTarget) (request : PruneRequest) : R (option unit) :=
  if bool_decide (tg_index target = None) && negb (rq_force request)
  then io_fail (PE_NoIndex (ref_display (tg_package target)))
  else
    let! selected := world (select fuel client target (rq_selection request)) in
    match selected with
    | None => io_ret None
    | Some selected =>
        let! _ := report set_selected in
        let! verdicts := io_foldl (judge_one client target request) [] selected in
        let! rows := reported po_tags in
        let durable := refused_for Durable rows in
        let not_in_index := refused_for PrNotInIndex rows in
        if negb (bool_decide (durable = [])) || negb (bool_decide (not_in_index = []))
        then
          let! _ := report (fun o => set_tags (map refuse_row (po_tags o)) o) in
          io_fail (PE_Refused (ref_display (tg_package target)) (match tg_index target with Some indexed => xr_url indexed | None => "" end)
                     durable not_in_index)
        else if rq_dry_run request then io_ret (Some tt)
        else
          let! _ := io_foldl (delete_one client target) tt (imap pair verdicts) in
          io_ret (Some tt)
    end.

(** [struct PruneRun], [prune].  [None] when the listing fuel runs out. *)
Record PruneRun : Type := mkPruneRun { pn_outcome : PruneOutcome; pn_error : option (PruneError IE) }.
Definition initial_outcome (target : PruneTarget) (request : PruneRequest) : PruneOutcome :=
  mkPruneOutcome (tg_package target) (tg_repository target) (rq_selection request) (rq_force request) (rq_dry_run request)
    ((fun indexed => mkPruneIndexReport (xr_url indexed) (xr_root_sha256 indexed)) <$> tg_index target) [] false.
Definition prune (fuel : nat) (client : Client) (target : PruneTarget) (request : PruneRequest) (w : W) : option PruneRun * W :=
  match run fuel client target request (w, initial_outcome target request) with
  | (Ok (Some _), (w', outcome)) => (Some (mkPruneRun outcome None), w')
  | (Ok None, (w', _)) => (None, w')
  | (Err error, (w', outcome)) => (Some (mkPruneRun outcome (Some error)), w')
  end.
End Prune.
Arguments IndexSource : clear implicits.
