(* ===== verification/PruneSpec.v ===== *)
(** * What a prune may delete

    A transport that records every request it passes on, and what the record of
    a prune looks like against any registry whatsoever: which tags it sends a
    DELETE for and in which order, and that its report says what happened. *)

From stdpp Require Import base decidable list option numbers strings.
From Stdlib Require Import Lia ZArith Ascii Sorting Permutation.
From S2P Require Import Prelude OMap Text Version VersionText Digest Tag PackageRef Platform Registry Client Prune.
Local Open Scope ocx_scope.
Local Open Scope string_scope.

(** ** Triples over effects *)

Definition triple {S E A : Type} (P : S -> Prop) (m : io S E A) (Q : result E A -> S -> Prop) : Prop :=
  forall s, P s -> Q (m s).1 (m s).2.

Section Triples.
Context {S E : Type}.

Lemma triple_bind {A B : Type} (P : S -> Prop) (m : io S E A) (k : A -> io S E B) Q R :
  triple P m Q -> (forall a, triple (Q (Ok a)) (k a) R) -> (forall e s, Q (Err e) s -> R (Err e) s) -> triple P (io_bind m k) R.
Proof.
  intros Hm Hk He s Hs. specialize (Hm s Hs). unfold io_bind. destruct (m s) as [[a|e] s']; simpl in *; [by apply Hk|by apply He].
Qed.

Lemma triple_weaken {A : Type} (P P' : S -> Prop) (m : io S E A) (Q Q' : result E A -> S -> Prop) :
  triple P' m Q' -> (forall s, P s -> P' s) -> (forall r s, Q' r s -> Q r s) -> triple P m Q.
Proof. intros Hm HP HQ s Hs. by apply HQ, Hm, HP. Qed.

Lemma triple_ret {A : Type} (P : S -> Prop) (a : A) (Q : result E A -> S -> Prop) :
  (forall s, P s -> Q (Ok a) s) -> triple P (io_ret a) Q.
Proof. intros H s Hs. by apply H. Qed.

Lemma triple_pure {A : Type} (phi : Prop) (P : S -> Prop) (m : io S E A) Q : (phi -> triple P m Q) -> triple (fun s => P s /\ phi) m Q.
Proof. intros H s [Hs Hphi]. by apply H. Qed.

Lemma triple_fail {A : Type} (P : S -> Prop) (e : E) (Q : result E A -> S -> Prop) :
  (forall s, P s -> Q (Err e) s) -> triple P (io_fail e) Q.
Proof. intros H s Hs. by apply H. Qed.

(** A loop: the invariant speaks of the part of the list already done. *)
Lemma triple_foldl {A B : Type} (f : B -> A -> io S E B) (l : list A) (I : list A -> B -> S -> Prop) (X : E -> S -> Prop) :
  (forall before a after acc, l = (before ++ a :: after)%list ->
     triple (I before acc) (f acc a) (fun r s => match r with Ok acc' => I (before ++ [a])%list acc' s | Err e => X e s end)) ->
  forall acc, triple (I [] acc) (io_foldl f acc l) (fun r s => match r with Ok acc' => I l acc' s | Err e => X e s end).
Proof.
  intros Hf. assert (forall after before acc, l = (before ++ after)%list ->
    triple (I before acc) (io_foldl f acc after) (fun r s => match r with Ok acc' => I l acc' s | Err e => X e s end)) as Hgen.
  { induction after as [|a after IH]; intros before acc Hl; simpl.
    - rewrite app_nil_r in Hl. subst before. by apply triple_ret.
    - eapply triple_bind; [by eapply Hf| |done]. intros acc'. apply (IH (before ++ [a])%list). by rewrite <- app_assoc. }
  intros acc. by apply (Hgen l []).
Qed.
End Triples.

(** ** Recording *)

Inductive Event : Type :=
| SentDelete (r : Reference) (answer : result ClientError DeleteOutcome)
| SentProbe (r : Reference) (answer : result ClientError ManifestPresence)
| SentWrite (r : Reference).

Definition deletes (log : list Event) : list Reference :=
  omap (fun e => match e with SentDelete r _ => Some r | _ => None end) log.

(** Requests that only ask for one reference. *)
Definition probes_of (r : Reference) (evs : list Event) : Prop := Forall (fun e => exists answer, e = SentProbe r answer) evs.

(** The registry removed [r], as it answered: a DELETE, then probes, the last one absent. *)
Definition removed (r : Reference) (answer : DeleteOutcome) (log : list Event) : Prop :=
  exists before probes code after, probes_of r probes /\
    log = (before ++ SentDelete r (Ok answer) :: probes ++ SentProbe r (Ok (Absent code)) :: after)%list.
Definition seen_absent (r : Reference) (log : list Event) : Prop := exists code, In (SentProbe r (Ok (Absent code))) log.
Definition no_write (log : list Event) : Prop := forall r, ~ In (SentWrite r) log.

Lemma deletes_app a b : deletes (a ++ b) = (deletes a ++ deletes b)%list.
Proof. apply omap_app. Qed.
Lemma deletes_probes r evs : probes_of r evs -> deletes evs = [].
Proof. induction 1 as [|e evs [answer ->] _ IH]; [done|]. exact IH. Qed.
Lemma no_write_app a b : no_write (a ++ b) <-> no_write a /\ no_write b.
Proof. unfold no_write. setoid_rewrite in_app_iff. naive_solver. Qed.
Lemma no_write_probes r evs : probes_of r evs -> no_write evs.
Proof. unfold probes_of. rewrite List.Forall_forall. intros Hp r' Hr'. by destruct (Hp _ Hr'). Qed.
Lemma removed_app r answer log evs : removed r answer log -> removed r answer (log ++ evs).
Proof.
  intros (before & probes & code & after & Hp & ->). exists before, probes, code, (after ++ evs)%list. split; [done|].
  rewrite <- app_assoc. simpl. by rewrite <- app_assoc.
Qed.
Lemma seen_absent_app r log evs : seen_absent r log -> seen_absent r (log ++ evs).
Proof. intros [code Hc]. exists code. apply in_app_iff. by left. Qed.

Section Record.
Context `{U : OciSpec} `{!Codec} {W : Type} `{!Transport W} {IE : Type}.

Definition logged {A : Type} (ev : result ClientError A -> list Event) (m : io W ClientError A) : io (W * list Event) ClientError A :=
  fun s => let '(r, w) := m s.1 in (r, (w, (s.2 ++ ev r)%list)).

#[local] Instance recorded : Transport (W * list Event) := {|
  ensure_auth := fun r op => logged (fun _ => []) (ensure_auth r op);
  transport_list_tags := fun r n after => logged (fun _ => []) (transport_list_tags r n after);
  fetch_manifest_digest := fun r => logged (fun _ => []) (fetch_manifest_digest r);
  pull_manifest_raw := fun r types => logged (fun _ => []) (pull_manifest_raw r types);
  push_manifest_raw := fun r b media_type => logged (fun _ => [SentWrite r]) (push_manifest_raw r b media_type);
  push_blob := fun r b d => logged (fun _ => [SentWrite r]) (push_blob r b d);
  head_blob := fun r d => logged (fun _ => []) (head_blob r d);
  mount_blob := fun r src d => logged (fun _ => [SentWrite r]) (mount_blob r src d);
  delete_manifest := fun r => logged (fun answer => [SentDelete r answer]) (delete_manifest r);
  probe_manifest := fun r => logged (fun answer => [SentProbe r answer]) (probe_manifest r);
  read_file := fun path => logged (fun _ => []) (read_file path);
|}.

(** What a call adds to the record, with what it returns. *)
Definition emits {E A : Type} (m : io (W * list Event) E A) (Q : result E A -> list Event -> Prop) : Prop :=
  forall w log, exists w' evs, (m (w, log)).2 = (w', (log ++ evs)%list) /\ Q (m (w, log)).1 evs.

Lemma emits_ret {E A : Type} (a : A) (Q : result E A -> list Event -> Prop) : Q (Ok a) [] -> emits (io_ret a) Q.
Proof. intros HQ w log. exists w, []. by rewrite app_nil_r. Qed.
Lemma emits_fail {E A : Type} (e : E) (Q : result E A -> list Event -> Prop) : Q (Err e) [] -> emits (io_fail e) Q.
Proof. intros HQ w log. exists w, []. by rewrite app_nil_r. Qed.
Lemma emits_bind {E A B : Type} (m : io (W * list Event) E A) (k : A -> io (W * list Event) E B) P Q :
  emits m P -> (forall e evs, P (Err e) evs -> Q (Err e) evs) ->
  (forall a evs, P (Ok a) evs -> emits (k a) (fun r evs' => Q r (evs ++ evs')%list)) -> emits (io_bind m k) Q.
Proof.
  intros Hm He Hk w log. destruct (Hm w log) as (w1 & evs & E1 & H1). unfold io_bind.
  destruct (m (w, log)) as [[a|e] s1]; simpl in *; subst s1; [|eauto].
  destruct (Hk a evs H1 w1 (log ++ evs)%list) as (w2 & evs2 & E2 & H2).
  exists w2, (evs ++ evs2)%list. by rewrite E2, <- app_assoc.
Qed.
Lemma emits_weaken {E A : Type} (m : io (W * list Event) E A) (P Q : result E A -> list Event -> Prop) :
  emits m P -> (forall r evs, P r evs -> Q r evs) -> emits m Q.
Proof. intros Hm HPQ w log. destruct (Hm w log) as (w' & evs & E1 & H1). eauto. Qed.
Lemma emits_map_err {E F A : Type} (f : E -> F) (m : io (W * list Event) E A) (P : result E A -> list Event -> Prop) :
  emits m P -> emits (io_map_err f m) (fun r evs => exists r0, r = result_map_err f r0 /\ P r0 evs).
Proof. intros Hm w log. destruct (Hm w log) as (w' & evs & E1 & H1). unfold io_map_err. destruct (m (w, log)). simpl in *. eauto 7. Qed.
Lemma emits_try {E F A : Type} (m : io (W * list Event) E A) (P : result E A -> list Event -> Prop) :
  emits m P -> emits (io_try (F := F) m) (fun r evs => exists r0, r = Ok r0 /\ P r0 evs).
Proof. intros Hm w log. destruct (Hm w log) as (w' & evs & E1 & H1). unfold io_try. destruct (m (w, log)). simpl in *. eauto 7. Qed.
Lemma emits_logged {A : Type} (ev : result ClientError A -> list Event) (m : io W ClientError A) :
  emits (logged ev m) (fun r evs => evs = ev r).
Proof. intros w log. unfold logged. simpl. destruct (m w) as [r w']. simpl. eauto. Qed.
Lemma emits_of {E A : Type} (r : result E A) (Q : result E A -> list Event -> Prop) : Q r [] -> emits (io_of r) Q.
Proof. intros HQ w log. exists w, []. by rewrite app_nil_r. Qed.

(** ** The client's calls *)

Lemma emits_auth r op : emits (ensure_auth r op) (fun _ evs => evs = []).
Proof. apply (emits_logged (fun _ => [])). Qed.

Lemma emits_paginate image n fuel : forall items,
  emits (paginate fuel n (fun k last => transport_list_tags image k last) items) (fun _ evs => evs = []).
Proof.
  induction fuel as [|fuel IH]; intros items; [by apply emits_ret|]. cbn [paginate].
  eapply emits_bind; [apply (emits_logged (fun _ => []))|done|]. intros page evs ->. case_match; [by apply emits_ret|apply IH].
Qed.

Lemma emits_list fuel client id addressing :
  emits (list_tags_or_empty_addressed fuel client id addressing) (fun _ evs => evs = []).
Proof.
  unfold list_tags_or_empty_addressed. eapply emits_bind; [eapply emits_try with (P := fun _ evs => evs = [])| |].
  - eapply emits_bind; [apply emits_auth|done|]. intros _ evs ->. apply emits_paginate.
  - by intros e evs (r0 & ? & ->).
  - intros r evs (r0 & ? & ->). by repeat case_match; first [apply emits_ret | apply emits_of].
Qed.

Lemma emits_probe client id : let r := canonical_reference id in
  emits (probe_manifest_canonical client id) (fun answer evs =>
    (evs = [] /\ exists e, answer = Err e) \/ evs = [SentProbe r answer]).
Proof.
  intros r. unfold probe_manifest_canonical. case_match; [apply emits_fail; eauto|].
  eapply emits_bind; [apply emits_auth|intros e evs ->; eauto|]. intros _ evs ->. simpl.
  eapply emits_weaken; [apply (emits_logged (fun answer => [SentProbe _ answer]))|]. eauto.
Qed.

Lemma emits_delete id : let r := canonical_reference id in
  emits (delete_tag id) (fun answer evs => (evs = [] /\ exists e, answer = Err e) \/ evs = [SentDelete r answer]).
Proof.
  intros r. unfold delete_tag. case_match; [apply emits_fail; eauto|]. case_match; [apply emits_fail; eauto|].
  eapply emits_bind; [apply emits_auth|intros e evs ->; eauto|]. intros _ evs ->. simpl.
  eapply emits_weaken; [apply (emits_logged (fun answer => [SentDelete _ answer]))|]. eauto.
Qed.
Lemma emits_registry_probe client id : let r := canonical_reference id in
  emits (registry (IE := IE) (probe_manifest_canonical client id)) (fun answer evs =>
    match answer with Ok presence => evs = [SentProbe r (Ok presence)] | Err _ => probes_of r evs end).
Proof.
  intros r. eapply emits_weaken; [apply emits_map_err, emits_probe|]. intros answer evs (r0 & -> & [[-> [e ->]]| ->]).
  - constructor.
  - destruct r0; [done|]. repeat econstructor.
Qed.

(** ** One tag *)

Section Run.
Context (client : Client) (target : PruneTarget) (request : PruneRequest).

Definition reference_of (tag : string) : Reference := canonical_reference (clone_with_tag (tg_repository target) tag).

(** The safeguard's condition for deleting a tag that is not kept. *)
Definition permitted (tag : string) : Prop :=
  rq_force request = true \/ exists row, root_row target tag = Some row /\ rt_ephemeral row = true.

(** What a verdict says about its tag. *)
Definition justified (tag : string) (kept : option PruneReason) (verdict : Verdict) (log : list Event) : Prop :=
  match verdict with
  | VKeep reason => kept = Some reason
  | VDelete => kept = None /\ permitted tag
  | VAbsent => kept = None /\ root_row target tag = None /\ seen_absent (reference_of tag) log
  | VRefuse reason => kept = None /\ ~ permitted tag /\ (reason = Durable \/ reason = PrNotInIndex)
  end.

Lemma judge_emits tag kept :
  emits (judge (IE := IE) client target tag kept (rq_force request)) (fun r evs => probes_of (reference_of tag) evs /\
    match r with
    | Ok (verdict, _, in_root) => justified tag kept verdict evs /\ in_root = bool_decide (is_Some (root_row target tag))
    | Err _ => True
    end).
Proof.
  unfold judge. destruct kept as [reason|]; [apply emits_ret; split; [constructor|done]|].
  destruct (root_row target tag) as [row|] eqn:Er.
  - apply emits_ret. split; [constructor|]. split; [|done]. destruct (rt_ephemeral row) eqn:Ee; simpl; unfold permitted.
    + eauto.
    + destruct (rq_force request) eqn:Ef; simpl; [unfold permitted; eauto|]. split_and!; [done| |by left].
      intros [?|(row' & Hr & He)]; congruence.
  - eapply emits_bind; [apply emits_registry_probe|done|].
    + intros presence evs ->. fold (reference_of tag).
      assert (probes_of (reference_of tag) [SentProbe (reference_of tag) (Ok presence)]) as Hp by repeat econstructor.
      destruct presence as [digest|code]; apply emits_ret; (split; [done|]); (split; [|done]).
      * destruct (rq_force request) eqn:Ef; simpl; unfold permitted; [eauto|]. split_and!; [done| |by right].
        intros [?|(row' & Hr & He)]; congruence.
      * split_and!; [done|done|]. exists code. by left.
Qed.

Lemma confirm_emits id deleted tries : let r := canonical_reference id in
  emits (confirm (IE := IE) client id deleted tries) (fun res evs =>
    match res with
    | Ok (Some action) => action = (match deleted with Deleted => PaDeleted | AlreadyAbsent => PaAbsent end) /\
        exists probes code, probes_of r probes /\ evs = (probes ++ [SentProbe r (Ok (Absent code))])%list
    | _ => probes_of r evs
    end).
Proof.
  intros r. induction tries as [|tries IH]; [apply emits_ret; constructor|]. cbn [confirm].
  eapply emits_bind; [apply emits_registry_probe|done|].
  - intros presence evs ->. destruct presence as [digest|code].
    + eapply emits_weaken; [exact IH|]. intros [[action|]|e] evs.
      * intros (-> & probes & code & Hp & ->). split; [done|]. exists (SentProbe r (Ok (Present digest)) :: probes), code.
        split; [constructor; eauto|done].
      * intros Hp. simpl. constructor; eauto.
      * intros Hp. simpl. constructor; eauto.
    + apply emits_ret. split; [done|]. exists [], code. split; [constructor|done].
Qed.

(** A DELETE that was sent, and the probes after it. *)
Definition one_delete (tag : string) (action : option PruneAction) (evs : list Event) : Prop :=
  exists answer probes, evs = SentDelete (reference_of tag) answer :: probes /\ probes_of (reference_of tag) probes /\
    forall a, action = Some a -> (a = PaDeleted /\ removed (reference_of tag) Deleted evs) \/
                           (a = PaAbsent /\ removed (reference_of tag) AlreadyAbsent evs).

Lemma delete_and_confirm_emits tag :
  emits (delete_and_confirm (IE := IE) client (tg_repository target) tag) (fun res evs =>
    match res with
    | Ok action => one_delete tag (Some action) evs
    | Err _ => evs = [] \/ one_delete tag None evs
    end).
Proof.
  unfold delete_and_confirm. eapply emits_bind; [apply emits_try, emits_delete|by intros e evs (? & ? & _)|].
  intros answer evs (? & [= <-] & Hev). fold (reference_of tag) in Hev.
  assert (forall e, answer = Err e -> evs = [] \/ one_delete tag None (evs ++ [])) as Herr.
  { intros e ->. destruct Hev as [[-> _]| ->]; [by left|]. right. eexists _, []. split_and!; [done|constructor|done]. }
  destruct answer as [deleted|e].
  - destruct Hev as [[_ [e He]]| ->]; [done|]. eapply emits_bind; [apply confirm_emits| |].
    + intros e probes Hp. right. eexists _, probes. by split_and!.
    + intros [action|] probes; [intros (-> & before & code & Hb & ->)|intros Hp].
      * apply emits_ret. rewrite app_nil_r. eexists _, _. split_and!; [done| |].
        { apply Forall_app. split; [done|]. repeat econstructor. }
        intros a [= <-]. assert (forall o, removed (reference_of tag) o
          (SentDelete (reference_of tag) (Ok o) :: before ++ [SentProbe (reference_of tag) (Ok (Absent code))])) as Hr.
        { intros o. by exists [], before, code, []. }
        destruct deleted; [left|right]; split; auto.
      * apply emits_fail. rewrite app_nil_r. right. eexists _, probes. by split_and!.
  - destruct (Herr e eq_refl) as [->|Hone]; [|]; destruct e; apply emits_fail; rewrite ?app_nil_r in *; auto.
Qed.
(** ** The run *)

#[local] Notation State := ((W * list Event) * PruneOutcome)%type.
Implicit Types (st : State) (log : list Event).

Lemma triple_world {A : Type} (m : io (W * list Event) (PruneError IE) A) Q (P : State -> Prop) (R : result (PruneError IE) A -> State -> Prop) :
  emits m Q -> (forall w log o r w' evs, P ((w, log), o) -> Q r evs -> R r ((w', (log ++ evs)%list), o)) -> triple P (world m) R.
Proof.
  intros Hm HR [[w log] o] Hs. unfold world. simpl. destruct (Hm w log) as (w' & evs & E & HQ).
  destruct (m (w, log)) as [r s']. simpl in *. subst s'. eauto.
Qed.

Lemma triple_reported {A B : Type} (f : PruneOutcome -> A) (k : A -> io State (PruneError IE) B) (P : State -> Prop) (R : result (PruneError IE) B -> State -> Prop) :
  (forall a, triple (fun st => P st /\ f st.2 = a) (k a) R) -> triple P (io_bind (reported f) k) R.
Proof. intros Hk st Hs. by apply Hk. Qed.
Lemma triple_report {B : Type} (f : PruneOutcome -> PruneOutcome) (k : unit -> io State (PruneError IE) B) (P : State -> Prop) (R : result (PruneError IE) B -> State -> Prop) :
  triple (fun st => exists o, P (st.1, o) /\ st.2 = f o) (k tt) R -> triple P (io_bind (report f) k) R.
Proof. intros Hk [w o] Hs. apply (Hk (w, f o)). by exists o. Qed.

#[local] Notation Selected := (string * option PruneReason)%type.

(** The row of a tag after the safeguard, and after the run. *)
Definition judged log (sel : Selected) (v : Verdict) (row : PruneTag) : Prop :=
  justified sel.1 sel.2 v log /\
  exists digest, row = judged_row (rq_dry_run request) sel.1 v digest (bool_decide (is_Some (root_row target sel.1))).
Definition final log (sel : Selected) (v : Verdict) (row : PruneTag) : Prop :=
  justified sel.1 sel.2 v log /\ pt_tag row = sel.1 /\
  pt_in_root row = bool_decide (is_Some (root_row target sel.1)) /\
  match v with
  | VKeep reason => pt_action row = PaKept /\ pt_reason row = Some reason
  | VRefuse reason => pt_action row = PaRefused /\ pt_reason row = Some reason
  | VAbsent => pt_action row = PaAbsent \/ pt_action row = PaNotAttempted
  | VDelete =>
      (pt_action row = PaNotAttempted \/ (rq_dry_run request = true /\ pt_action row = PaWouldDelete)) \/
      (pt_action row = PaDeleted /\ removed (reference_of sel.1) Deleted log) \/
      (pt_action row = PaAbsent /\ removed (reference_of sel.1) AlreadyAbsent log)
  end.
Definition settled (row : PruneTag) : Prop :=
  pt_action row = PaKept \/ pt_action row = PaDeleted \/ pt_action row = PaAbsent.

Lemma justified_app tag kept v log evs : justified tag kept v log -> justified tag kept v (log ++ evs).
Proof. destruct v; simpl; try done. intros (? & ? & ?). split_and!; [done..|]. by apply seen_absent_app. Qed.
Lemma judged_app log evs sel v row : judged log sel v row -> judged (log ++ evs) sel v row.
Proof. intros [Hj Hr]. split; [by apply justified_app|done]. Qed.
Lemma final_app log evs sel v row : final log sel v row -> final (log ++ evs) sel v row.
Proof.
  intros (Hj & Ht & Hi & Hv). split_and!; [by apply justified_app|done|done|]. destruct v; try done.
  destruct Hv as [?|[[? Hr]|[? Hr]]]; [by left|right; left|right; right]; (split; [done|]); by apply removed_app.
Qed.
Lemma judged_final log sel v row : judged log sel v row -> final log sel v row.
Proof.
  intros [Hj [digest ->]]. split; [done|]. unfold judged_row. destruct v; simpl; split_and!; auto.
  destruct (rq_dry_run request); auto.
Qed.
Lemma refuse_final log sel v row : judged log sel v row -> final log sel v (refuse_row row).
Proof.
  intros Hj. apply judged_final in Hj as Hf. destruct Hj as [Hj [digest ->]]. unfold refuse_row, judged_row in *.
  destruct v; try done; split; try done; simpl in *; [destruct (rq_dry_run request)|]; simpl; auto.
Qed.

(** The tags a run judges deletable, in order. *)
Definition chosen (sel : list Selected) (verdicts : list Verdict) : list string :=
  omap (fun p => if bool_decide (p.2 = VDelete) then Some p.1.1 else None) (zip sel verdicts).

Lemma chosen_app sel1 sel2 v1 v2 : length sel1 = length v1 -> chosen (sel1 ++ sel2) (v1 ++ v2) = (chosen sel1 v1 ++ chosen sel2 v2)%list.
Proof. intros Hl. unfold chosen. by rewrite zip_with_app, omap_app. Qed.

(** ** The safeguard *)

Definition judging (sel : list Selected) (before : list Selected) (verdicts : list Verdict) st : Prop :=
  deletes st.1.2 = [] /\ no_write st.1.2 /\ po_dry_run st.2 = rq_dry_run request /\
  Forall3 (judged st.1.2) before verdicts (po_tags st.2) /\ exists after, sel = (before ++ after)%list.

Lemma judge_phase sel :
  triple (judging sel [] []) (io_foldl (judge_one (IE := IE) client target request) [] sel)
    (fun r st => match r with Ok verdicts => judging sel sel verdicts st | Err _ => exists before verdicts, judging sel before verdicts st end).
Proof.
  apply (triple_foldl _ sel (judging sel) (fun _ st => exists before verdicts, judging sel before verdicts st)).
  intros before [tag kept] after verdicts Hsel. unfold judge_one.
  assert (forall w w' log o evs, judging sel before verdicts ((w, log), o) -> probes_of (reference_of tag) evs ->
    judging sel before verdicts ((w', (log ++ evs)%list), o)) as Hkeep.
  { intros w w' log o evs (Hd & Hw & Hdr & Hf & Hs) Hp. split_and!; simpl; [|by apply no_write_app; eauto using no_write_probes|done| |done].
    - rewrite deletes_app, (deletes_probes _ _ Hp). simpl in Hd. by rewrite Hd.
    - eapply Forall3_impl; [exact Hf|]. intros. by apply judged_app. }
  eapply triple_bind; [eapply triple_world with (R := fun r st => judging sel before verdicts st /\
    match r with Ok (v, _, in_root) => justified tag kept v st.1.2 /\ in_root = bool_decide (is_Some (root_row target tag)) | Err _ => True end);
    [apply judge_emits|]| |].
  - intros w log o r w' evs HI [Hp Hr]. split; [by eapply Hkeep|]. destruct r as [[[v d] in_root]|]; [|done].
    destruct Hr as [Hj ->]. split; [|done]. simpl. destruct v; simpl in *; try done. destruct Hj as (? & ? & [code Hc]).
    split_and!; [done..|]. exists code. apply in_app_iff. by right.
  - intros [[v d] in_root]. intros st [HI [Hj ->]]. unfold report, io_bind, io_ret. simpl.
    destruct HI as (Hd & Hw & Hdr & Hf & Hs). split_and!; simpl; try done.
    + apply Forall3_app; [done|]. constructor; [|constructor]. split; [done|]. by exists d.
    + exists after. by rewrite <- app_assoc.
  - intros e st [HI _]. eauto.
Qed.
(** ** The deletes *)

Definition no_refusal (verdicts : list Verdict) : Prop := forall reason, ~ In (VRefuse reason) verdicts.

Lemma settled_judged log sel v row : judged log sel v row -> v <> VDelete -> (forall reason, v <> VRefuse reason) -> settled row.
Proof. intros [_ [digest ->]] Hd Hr. unfold settled, judged_row. destruct v; simpl; auto; [done|]. by destruct (Hr reason). Qed.

Lemma imap_pair_split {A : Type} (l : list A) before pos v after : imap pair l = (before ++ (pos, v) :: after)%list ->
  pos = length before /\ l !! length before = Some v.
Proof.
  intros E. assert (imap pair l !! length before = Some (pos, v)) as Hl by (rewrite E; by apply list_lookup_middle).
  rewrite list_lookup_imap in Hl. destruct (l !! length before); simpl in Hl; [|done]. by injection Hl as -> ->.
Qed.

Definition deleting (sel : list Selected) (verdicts : list Verdict) (before : list (nat * Verdict)) (_ : unit) st : Prop :=
  exists sel1 sel2 v1 v2 rows1 rows2, sel = (sel1 ++ sel2)%list /\ verdicts = (v1 ++ v2)%list /\
    po_tags st.2 = (rows1 ++ rows2)%list /\ length before = length v1 /\ Forall settled rows1 /\
    Forall3 (final st.1.2) sel1 v1 rows1 /\ Forall3 (judged st.1.2) sel2 v2 rows2 /\
    deletes st.1.2 = map reference_of (chosen sel1 v1) /\ no_write st.1.2 /\ po_dry_run st.2 = rq_dry_run request.

(** A run that stopped on a delete: the rows before it are final, and its DELETE may have gone out. *)
Definition stopped (sel : list Selected) (verdicts : list Verdict) st : Prop :=
  exists ts, deletes st.1.2 = map reference_of ts /\ sublist ts (chosen sel verdicts) /\
    Forall3 (final st.1.2) sel verdicts (po_tags st.2) /\ no_write st.1.2 /\ po_dry_run st.2 = rq_dry_run request.

Lemma one_delete_events tag action evs : one_delete tag action evs ->
  deletes evs = [reference_of tag] /\ no_write evs.
Proof.
  intros (answer & probes & -> & Hp & _). split; [simpl; by rewrite (deletes_probes _ _ Hp)|].
  change (no_write ([SentDelete (reference_of tag) answer] ++ probes)). apply no_write_app. split; [|by eapply no_write_probes].
  intros r [?|[]]. done.
Qed.

Lemma removed_later r o log evs : removed r o evs -> removed r o (log ++ evs).
Proof.
  intros (before & probes & code & after & Hp & ->). exists (log ++ before)%list, probes, code, after. by rewrite <- app_assoc.
Qed.

(** One position of the loop, with what is done before it. *)
Section Step.
Context (sel1 sel2 : list Selected) (tag : string) (kept : option PruneReason) (v1 v2 : list Verdict) (v : Verdict).
Context (rows1 rows2 : list PruneTag) (row : PruneTag) (before : list (nat * Verdict)) (x : nat * Verdict).
Context (w : W) (log : list Event) (o : PruneOutcome).
Hypotheses (Hrows : po_tags o = (rows1 ++ row :: rows2)%list) (Hlen : length before = length v1) (Hset : Forall settled rows1).
Hypotheses (Hf : Forall3 (final log) sel1 v1 rows1) (Hjr : judged log (tag, kept) v row) (Hj : Forall3 (judged log) sel2 v2 rows2).
Hypotheses (Hd : deletes log = map reference_of (chosen sel1 v1)) (Hw : no_write log) (Hdr : po_dry_run o = rq_dry_run request).

Lemma step_skip : v <> VDelete -> (forall reason, v <> VRefuse reason) ->
  deleting (sel1 ++ (tag, kept) :: sel2) (v1 ++ v :: v2) (before ++ [x]) tt ((w, log), o).
Proof.
  intros Hv Hnr. exists (sel1 ++ [(tag, kept)])%list, sel2, (v1 ++ [v])%list, v2, (rows1 ++ [row])%list, rows2.
  split_and!; rewrite <- ?app_assoc; try done.
  - rewrite !length_app. simpl. lia.
  - apply Forall_app. split; [done|]. constructor; [|constructor]. by eapply settled_judged.
  - apply Forall3_app; [done|]. constructor; [by apply judged_final|constructor].
  - rewrite chosen_app by (by eapply Forall3_length_lm). unfold chosen at 2. simpl. rewrite bool_decide_false by done. simpl. by rewrite app_nil_r.
Qed.

Lemma step_deleted action evs w' : v = VDelete -> one_delete tag (Some action) evs ->
  deleting (sel1 ++ (tag, kept) :: sel2) (v1 ++ v :: v2) (before ++ [x]) tt
    ((w', (log ++ evs)%list), set_tags (<[length before := set_action action row]> (po_tags o)) o).
Proof.
  intros -> Hev. pose proof (one_delete_events _ _ _ Hev) as [Hde Hwe].
  pose proof (Forall3_length_lm _ _ _ _ Hf) as Hl1. pose proof (Forall3_length_lr _ _ _ _ Hf) as Hl2.
  exists (sel1 ++ [(tag, kept)])%list, sel2, (v1 ++ [VDelete])%list, v2, (rows1 ++ [set_action action row])%list, rows2. simpl.
  destruct Hev as (answer & probes & _ & _ & Hact). specialize (Hact action eq_refl).
  assert (judged log (tag, kept) VDelete row) as [Hjust [d Hd']] by done. split_and!; try by rewrite <- app_assoc.
  - by rewrite Hrows, insert_app_r_alt, <- app_assoc, Hlen, <- Hl1, Hl2, Nat.sub_diag by lia.
  - rewrite !length_app. simpl. lia.
  - apply Forall_app. split; [done|]. constructor; [|constructor]. destruct Hact as [[-> _]|[-> _]]; unfold settled; simpl; auto.
  - apply Forall3_app; [eapply Forall3_impl; [exact Hf|intros; by apply final_app]|]. constructor; [|constructor]. subst row.
    split_and!; [by apply justified_app|done|done|]. right.
    destruct Hact as [[-> Hr]|[-> Hr]]; [left|right]; (split; [done|by apply removed_later]).
  - eapply Forall3_impl; [exact Hj|intros; by apply judged_app].
  - rewrite deletes_app, Hd, Hde, chosen_app, map_app by lia. done.
  - by apply no_write_app.
  - done.
Qed.

Lemma step_stopped evs w' : v = VDelete -> evs = [] \/ one_delete tag None evs ->
  stopped (sel1 ++ (tag, kept) :: sel2) (v1 ++ v :: v2) ((w', (log ++ evs)%list), o).
Proof.
  intros -> Hev.
  assert (exists extra, deletes evs = map reference_of extra /\ sublist extra [tag] /\ no_write evs) as (extra & Hde & Hsub & Hwe).
  { destruct Hev as [->|Hone]; [exists []; split_and!; [done|by apply sublist_nil_l|by intros r []]|].
    exists [tag]. apply one_delete_events in Hone as [-> ?]. by split_and!. }
  exists (chosen sel1 v1 ++ extra)%list. simpl. rewrite Hrows, chosen_app by (by eapply Forall3_length_lm). split_and!.
  - by rewrite deletes_app, Hd, Hde, map_app.
  - apply sublist_app; [done|]. etrans; [exact Hsub|]. apply (sublist_skip tag), sublist_nil_l.
  - apply Forall3_app; [eapply Forall3_impl; [exact Hf|intros; by apply final_app]|].
    constructor; [by apply judged_final, judged_app|]. eapply Forall3_impl; [exact Hj|]. intros. by apply judged_final, judged_app.
  - by apply no_write_app.
  - done.
Qed.
End Step.

Lemma delete_phase sel verdicts : no_refusal verdicts ->
  triple (deleting sel verdicts [] tt) (io_foldl (delete_one (IE := IE) client target) tt (imap pair verdicts))
    (fun r st => match r with Ok _ => deleting sel verdicts (imap pair verdicts) tt st | Err _ => stopped sel verdicts st end).
Proof.
  intros Hnr. eapply triple_weaken; [apply (triple_foldl _ _ (deleting sel verdicts) (fun _ st => stopped sel verdicts st))|done|by intros [[]|]].
  intros before [pos v] after [] (-> & Hv)%imap_pair_split [[w log] o].
  intros (sel1 & sel2 & v1 & v2 & rows1 & rows2 & -> & -> & Hrows & Hlen & Hset & Hf & Hj & Hd & Hw & Hdr). simpl in *.
  rewrite lookup_app_r, Hlen, Nat.sub_diag in Hv by lia. destruct v2 as [|v' v2]; simpl in Hv; [done|]. injection Hv as ->.
  destruct (Forall3_cons_inv_m _ _ _ _ _ Hj) as ([tag kept] & sel2' & row & rows2' & -> & -> & Hjr & Hj').
  pose proof (Forall3_length_lm _ _ _ _ Hf) as Hl1. pose proof (Forall3_length_lr _ _ _ _ Hf) as Hl2.
  unfold delete_one. destruct (bool_decide (v = VDelete)) eqn:Ev; simpl.
  - apply bool_decide_eq_true in Ev. unfold reported, io_bind, world, report. simpl.
    rewrite Hrows, list_lookup_total_middle by lia. assert (pt_tag row = tag) as Htag by (destruct Hjr as [_ [d ->]]; by destruct v).
    rewrite Htag. destruct (delete_and_confirm_emits tag w log) as (w' & evs & E & Hev).
    destruct (delete_and_confirm client (tg_repository target) tag (w, log)) as [[action|e] s']; simpl in *; subst s'; simpl.
    + by eapply step_deleted.
    + by eapply step_stopped.
  - apply bool_decide_eq_false in Ev. eapply step_skip; try done. intros reason ->.
    apply (Hnr reason), in_app_iff. right. by left.
Qed.

(** ** The whole run *)

(** The selections a request can lead to. *)
Definition selects (sel : list Selected) : Prop :=
  match rq_selection request with
  | SelTags tags => sel = map (fun tag => (tag, None)) (first_seen [] tags)
  | SelPrerelease prerelease keep_builds => exists listing, sel = family_selection prerelease keep_builds listing
  end.

Definition story (complete : bool) (sel : list Selected) st : Prop :=
  exists before after verdicts ts, sel = (before ++ after)%list /\ Forall3 (final st.1.2) before verdicts (po_tags st.2) /\
    no_write st.1.2 /\ po_dry_run st.2 = rq_dry_run request /\
    deletes st.1.2 = map reference_of ts /\ sublist ts (chosen before verdicts) /\
    (ts <> [] -> rq_dry_run request = false /\ no_refusal verdicts) /\
    (complete = true -> after = [] /\ no_refusal verdicts /\
       (rq_dry_run request = false -> ts = chosen before verdicts /\ Forall settled (po_tags st.2))).

Lemma refused_rows log sel verdicts rows : Forall3 (judged log) sel verdicts rows ->
  refused_for Durable rows = [] -> refused_for PrNotInIndex rows = [] -> no_refusal verdicts.
Proof.
  intros Hf Hd Hn reason (i & Hi)%list_elem_of_In%list_elem_of_lookup.
  destruct (Forall3_lookup_m _ _ _ _ _ _ Hf Hi) as (s & row & Hs & Hr & [Hj [digest ->]]).
  assert (forall reason', reason = reason' -> In s.1 (refused_for reason' rows)) as Hin.
  { intros ? <-. unfold refused_for. apply in_map_iff. eexists. split; [|apply filter_In; split; [eapply list_elem_of_In, list_elem_of_lookup_2, Hr|]]; [done|].
    unfold judged_row. simpl. by rewrite !bool_decide_true. }
  destruct Hj as (_ & _ & [E|E]); apply Hin in E; [by rewrite Hd in E|by rewrite Hn in E].
Qed.

Lemma story_quiet (sel before : list Selected) after verdicts st : sel = (before ++ after)%list ->
  Forall3 (final st.1.2) before verdicts (po_tags st.2) -> no_write st.1.2 -> po_dry_run st.2 = rq_dry_run request ->
  deletes st.1.2 = [] -> story false sel st.
Proof.
  intros Hs Hf Hw Hdr Hd. exists before, after, verdicts, []. split_and!; try done. apply sublist_nil_l.
Qed.

Lemma select_emits fuel : emits (select (IE := IE) fuel client target (rq_selection request))
  (fun r evs => evs = [] /\ match r with Ok (Some sel) => selects sel | _ => True end).
Proof.
  unfold select, selects. destruct (rq_selection request) as [tags|prerelease keep_builds]; [by apply emits_ret|].
  eapply emits_bind; [eapply emits_map_err, emits_list|by intros e evs (? & ? & ->)|]. intros listing evs (? & ? & ->).
  apply emits_ret. split; [done|]. destruct listing; simpl; eauto.
Qed.

Lemma selects_some : exists sel, selects sel.
Proof. unfold selects. destruct (rq_selection request); [by eexists|]. by eexists _, []. Qed.

Lemma after_judging sel verdicts :
  triple (judging sel sel verdicts)
    (let! rows := reported po_tags in
     let durable := refused_for Durable rows in
     let not_in_index := refused_for PrNotInIndex rows in
     if negb (bool_decide (durable = [])) || negb (bool_decide (not_in_index = []))
     then
       let! _ := report (fun o => set_tags (map refuse_row (po_tags o)) o) in
       io_fail (PE_Refused (IE := IE) (ref_display (tg_package target)) (match tg_index target with Some indexed => xr_url indexed | None => "" end)
                  durable not_in_index)
     else if rq_dry_run request then io_ret (Some tt)
     else
       let! _ := io_foldl (delete_one client target) tt (imap pair verdicts) in
       io_ret (Some tt))
    (fun r st => story (is_ok r) sel st).
Proof.
  apply triple_reported. intros rows. cbv zeta.
  destruct (bool_decide (refused_for Durable rows = [])) eqn:E1; [destruct (bool_decide (refused_for PrNotInIndex rows = [])) eqn:E2|]; cbn [negb orb].
  2-3: apply triple_report, triple_fail; intros [s o'] (o & [(Hd & Hw & Hdr & Hf & _) _] & E); simpl in *; subst o';
    apply (story_quiet _ sel [] verdicts); simpl; [by rewrite app_nil_r| |done..]; clear -Hf; induction Hf; simpl; constructor; auto using refuse_final.
  apply bool_decide_eq_true in E1, E2. destruct (rq_dry_run request) eqn:Edry; intros st [HI <-]; pose proof HI as (Hd & Hw & Hdr & Hf & _);
    pose proof (refused_rows _ _ _ _ Hf E1 E2) as Hnr.
  - exists sel, [], verdicts, []. simpl. split_and!; rewrite ?app_nil_r; try done.
    + eapply Forall3_impl; [exact Hf|intros; by apply judged_final].
    + apply sublist_nil_l.
    + intros _. split_and!; [done|done|congruence].
  - assert (deleting sel verdicts [] tt st) as H0.
    { exists [], sel, [], verdicts, [], (po_tags st.2). split_and!; try done; constructor. }
    pose proof (delete_phase sel verdicts Hnr st H0) as Hp. unfold io_bind. destruct (io_foldl _ tt _ st) as [[[]|e] st']; simpl in *.
    + destruct Hp as (sel1 & sel2 & v1 & v2 & rows1 & rows2 & -> & -> & Hrows & Hlen & Hset & Hf1 & Hf2 & Hdel & Hw' & Hdr').
      rewrite length_imap, length_app in Hlen. destruct v2; [|simpl in Hlen; lia]. inversion Hf2; subst. rewrite !app_nil_r in *.
      exists sel1, [], v1, (chosen sel1 v1). rewrite app_nil_r, Hrows. by split_and!.
    + destruct Hp as (ts & Hdel & Hsub & Hf' & Hw' & Hdr'). exists sel, [], verdicts, ts. rewrite app_nil_r. by split_and!.
Qed.

Lemma run_story fuel w :
  triple (fun st => st = ((w, []), initial_outcome target request)) (run (IE := IE) fuel client target request)
    (fun r st => match r with
                 | Ok None => True
                 | r => exists sel, selects sel /\ story (is_ok r) sel st
                 end).
Proof.
  unfold run. destruct selects_some as [sel0 Hsel0].
  assert (forall w' (o : PruneOutcome), po_tags o = [] -> po_dry_run o = rq_dry_run request ->
    exists sel, selects sel /\ story false sel ((w', []), o)) as Hearly.
  { intros w' o Ht Ho. exists sel0. split; [done|]. apply (story_quiet _ [] sel0 []); simpl; [done|rewrite Ht; constructor|by intros r []|done|done]. }
  destruct (bool_decide _ && _); [apply triple_fail; intros st ->; by apply Hearly|].
  eapply triple_bind; [eapply triple_world with (R := fun r st => (exists w', st = ((w', []), initial_outcome target request)) /\
    match r with Ok (Some sel) => selects sel | _ => True end); [apply select_emits|]| |].
  - intros ? log ? r w' evs [= -> -> ->] [-> Hr]. simpl. eauto.
  - intros [sel|]; [|by apply triple_ret]. apply triple_pure. intros Hsel. apply triple_report.
    eapply triple_bind; [eapply triple_weaken; [apply (judge_phase sel)| |]| |].
    + intros [s o'] (o & [w' [= -> ->]] & E). simpl in E. subst o'. split_and!; try done; [by intros r []|constructor|by exists sel].
    + exact (fun r st H => H).
    + intros verdicts. eapply triple_weaken; [apply after_judging|done|]. intros [[[]|]|e] st Hst; [eauto|done|eauto].
    + intros e st (before & verdicts & Hd & Hw & Hdr & Hf & [after Hs]). exists sel. split; [done|].
      apply (story_quiet _ before after verdicts); try done. eapply Forall3_impl; [exact Hf|intros; by apply judged_final].
  - intros e st [[w' ->] _]. by apply Hearly.
Qed.
End Run.
End Record.

(** ** Selections *)

(** The tags of a pre-release's builds, and its own. *)
Definition is_build_of (prerelease : Version) (tag : string) : bool :=
  match version_parse tag with
  | Some v => negb (ord_eqb v prerelease) && (has_build v && match parent v with Some p => ord_eqb p prerelease | None => false end)
  | None => false
  end.
Definition is_rolling_of (prerelease : Version) (tag : string) : bool :=
  match version_parse tag with Some v => ord_eqb v prerelease | None => false end.
Definition parsed (tag : string) : option (Version * string) := v ← version_parse tag; Some (v, tag).

(** Tags in the order of their versions. *)
Definition tag_le (a b : string) : Prop :=
  forall v w, version_parse a = Some v -> version_parse b = Some w -> ~ w <o v.

Lemma family_fold prerelease listing : forall acc,
  fold_left (family_step prerelease) listing acc =
  ((acc.1 ++ omap parsed (List.filter (is_build_of prerelease) listing))%list,
   match last (List.filter (is_rolling_of prerelease) listing) with Some t => Some t | None => acc.2 end).
Proof.
  induction listing as [|t listing IH]; intros [builds rolling]; simpl; [by rewrite app_nil_r|]. rewrite IH. clear IH.
  unfold family_step, is_build_of at 2, is_rolling_of at 2. destruct (version_parse t) as [v|] eqn:Ev; [|done].
  destruct (ord_eqb v prerelease); simpl.
  - f_equal. destruct (List.filter (is_rolling_of prerelease) listing) as [|a l]; [done|].
    rewrite (last_cons_cons t a l). destruct (last (a :: l)) eqn:El; [done|]. by apply last_None in El.
  - destruct (has_build v && _); simpl; [|done]. unfold parsed at 2. rewrite Ev. simpl. by rewrite <- app_assoc.
Qed.

Lemma sort_by_key {A K : Type} `{TotalOrd K} (cmp : A -> A -> comparison) (key : A -> K) l :
  (forall a b, cmp a b = ord_cmp (key a) (key b)) -> map key (sort_by cmp l) = ord_sort (map key l).
Proof.
  intros Hc. induction l as [|x l IH]; [done|]. unfold ord_sort in *. simpl. rewrite <- IH. clear IH.
  induction (sort_by cmp l) as [|y s IH]; simpl; [done|]. rewrite Hc. destruct (ord_cmp (key x) (key y)); simpl; congruence.
Qed.

Lemma sorted_tags (l : list (Version * string)) :
  (forall p, In p l -> version_parse p.2 = Some p.1) -> le_sorted (map fst l) -> StronglySorted tag_le (map snd l).
Proof.
  intros Hl Hs. induction l as [|[v t] l IH]; simpl in *; [constructor|]. apply StronglySorted_inv in Hs as [Hs Hv].
  constructor; [auto|]. rewrite List.Forall_forall in Hv |- *. intros t' ([v' t''] & <- & Hin)%in_map_iff v0 w0 H1 H2.
  pose proof (Hl (v, t) (or_introl eq_refl)) as H1'. pose proof (Hl _ (or_intror Hin)) as H2'. simplify_eq/=.
  apply Hv, in_map_iff. by eexists (_, _).
Qed.

Lemma parsed_tags l : (forall t, In t l -> is_Some (version_parse t)) -> map snd (omap parsed l) = l.
Proof.
  induction l as [|t l IH]; intros Hl; simpl; [done|]. unfold parsed at 1. destruct (Hl t (or_introl eq_refl)) as [v ->]. simpl.
  f_equal. apply IH. intros t' Ht'. apply Hl. by right.
Qed.

Lemma imap_split {A B : Type} (f : A -> B) (g : A -> B) n l :
  imap (fun i x => if (n <=? i)%nat then g x else f x) l = (map f (firstn n l) ++ map g (skipn n l))%list.
Proof.
  revert n. induction l as [|x l IH]; intros n; [by destruct n|]. destruct n as [|n]; simpl; f_equal.
  - transitivity (imap (fun i y => if (0 <=? i)%nat then g y else f y) l); [by apply imap_ext|by rewrite (IH 0%nat)].
  - rewrite <- IH. by apply imap_ext.
Qed.

Lemma family_selection_split prerelease keep_builds listing :
  exists older newer, let builds := (older ++ newer)%list in
    family_selection prerelease keep_builds listing =
      (map (fun t => (t, None)) older ++ map (fun t => (t, Some Newest)) newer ++
       match last (List.filter (is_rolling_of prerelease) listing) with
       | Some t => [(t, (fun _ => Rolling) <$> keep_builds)] | None => [] end)%list /\
    Permutation builds (List.filter (is_build_of prerelease) listing) /\ StronglySorted tag_le builds /\
    length newer = Nat.min (match keep_builds with Some n => N.to_nat n | None => 0%nat end) (length builds).
Proof.
  unfold family_selection. rewrite family_fold. simpl. set (bs := omap parsed _). set (sorted := sort_by build_cmp bs).
  set (keep := match keep_builds with Some n => N.to_nat n | None => 0%nat end).
  assert (forall p, In p bs -> version_parse p.2 = Some p.1) as Hbs.
  { intros [v t] (t' & _ & Ht)%list_elem_of_In%list_elem_of_omap. unfold parsed in Ht.
    destruct (version_parse t') eqn:E; simpl in Ht; [|done]. by injection Ht as -> ->. }
  assert (map snd bs = List.filter (is_build_of prerelease) listing) as Hmap.
  { apply parsed_tags. intros t [_ Ht]%filter_In. unfold is_build_of in Ht. destruct (version_parse t); [eauto|done]. }
  exists (map snd (firstn (length sorted - keep) sorted)), (map snd (skipn (length sorted - keep) sorted)).
  rewrite <- map_app, firstn_skipn. cbv zeta. split_and!.
  - rewrite !map_map, app_assoc. f_equal; [|by destruct (last _)].
    rewrite <- (imap_split (fun b => (b.2, None)) (fun b => (b.2, Some Newest))).
    apply imap_ext. intros i b _. by destruct (Nat.leb _ i).
  - rewrite <- Hmap. apply Permutation_map, sort_by_perm.
  - apply sorted_tags; [intros p Hp; apply Hbs; by apply sort_by_In in Hp|]. unfold sorted.
    rewrite (sort_by_key (K := Version) build_cmp fst); [apply ord_sort_sorted|done].
  - rewrite !length_map, length_skipn. lia.
Qed.

(** The tags a request can name. *)
Definition in_selection (selection : PruneSelection) (tag : string) : Prop :=
  match selection with
  | SelTags tags => In tag tags
  | SelPrerelease prerelease _ => is_build_of prerelease tag = true \/ is_rolling_of prerelease tag = true
  end.

Lemma first_seen_In seen tags tag : In tag (first_seen seen tags) -> In tag tags.
Proof.
  revert seen. induction tags as [|t tags IH]; intros seen; simpl; [done|]. case_match; simpl; [eauto|]. intros [?|?]; eauto.
Qed.

Lemma family_selection_In prerelease keep_builds listing tag kept :
  In (tag, kept) (family_selection prerelease keep_builds listing) ->
  is_build_of prerelease tag = true \/ is_rolling_of prerelease tag = true.
Proof.
  destruct (family_selection_split prerelease keep_builds listing) as (older & newer & -> & Hperm & _).
  assert (forall t, In t (older ++ newer) -> is_build_of prerelease t = true) as Hb.
  { intros t Ht. apply (Permutation_in _ Hperm) in Ht. apply filter_In in Ht. tauto. }
  rewrite !in_app_iff, !in_map_iff. intros [(t & [= <- <-] & Ht)|[(t & [= <- <-] & Ht)|Hr]].
  - left. apply Hb, in_app_iff. by left.
  - left. apply Hb, in_app_iff. by right.
  - right. destruct (last _) as [t|] eqn:El; [|done]. destruct Hr as [[= -> <-]|[]].
    apply last_Some_elem_of, list_elem_of_In, filter_In in El. tauto.
Qed.

Lemma selects_In request sel tag kept : selects request sel -> In (tag, kept) sel -> in_selection (rq_selection request) tag.
Proof.
  unfold selects, in_selection. destruct (rq_selection request) as [tags|prerelease keep_builds].
  - intros -> (t & [= <- <-] & Ht)%in_map_iff. by eapply first_seen_In.
  - intros [listing ->]. apply family_selection_In.
Qed.

(** A version is never a keep tag. *)
Lemma version_no_keep_prefix tag : is_Some (version_parse tag) -> String.prefix KEEP_TAG_PREFIX tag = false.
Proof.
  destruct tag as [|c tag]; [done|]. intros [v Hv]. apply not_true_iff_false. unfold KEEP_TAG_PREFIX. cbn [String.prefix].
  case_match; [|done]. subst c. done.
Qed.

Lemma chosen_rows `{U : OciSpec} target request log sel verdicts rows : Forall3 (final target request log) sel verdicts rows ->
  chosen sel verdicts `sublist_of` map pt_tag (List.filter (fun row =>
    negb (bool_decide (pt_action row = PaKept)) && negb (bool_decide (pt_action row = PaRefused))) rows).
Proof.
  induction 1 as [|s v row sel verdicts rows (_ & Ht & _ & Hv) _ IH]; [apply sublist_nil_l|].
  unfold chosen in *. simpl. case_bool_decide as Ed.
  - subst v. simpl. assert (pt_action row <> PaKept /\ pt_action row <> PaRefused) as [H1 H2].
    { destruct Hv as [[->|[_ ->]]|[[-> _]|[-> _]]]; done. }
    rewrite !bool_decide_false by done. simpl. rewrite Ht. by apply sublist_skip.
  - simpl. destruct (negb _ && _); [|done]. simpl. by apply sublist_cons.
Qed.

Lemma chosen_In `{U : OciSpec} target request log sel verdicts rows tag : Forall3 (final target request log) sel verdicts rows ->
  In tag (chosen sel verdicts) -> permitted target request tag /\ In (tag, None) sel.
Proof.
  induction 1 as [|[t kept] v row sel verdicts rows (Hj & _) _ IH]; [done|]. unfold chosen. simpl. case_bool_decide as Ed.
  - subst v. simpl in *. destruct Hj as [-> Hp]. intros [<-|Hin]; [auto|]. destruct (IH Hin). auto.
  - intros Hin. destruct (IH Hin). auto.
Qed.

(** ** Properties *)

Section Properties.
Context `{U : OciSpec} `{!Codec} {W : Type} `{!Transport W} {IE : Type}.
#[local] Existing Instance recorded.

Lemma prune_story fuel client target request (w w' : W) log (result : PruneRun (IE := IE)) :
  prune fuel client target request (w, []) = (Some result, (w', log)) ->
  exists sel, selects request sel /\
    story target request (match pn_error result with None => true | Some _ => false end) sel ((w', log), pn_outcome result).
Proof.
  intros Hp. unfold prune in Hp. pose proof (run_story (IE := IE) client target request fuel w _ eq_refl) as Hr.
  destruct (run _ _ _ _ _) as [[[[]|]|e] [s o]]; simpl in *; simplify_eq; simpl; done.
Qed.

(** C6: a prune deletes nothing the safeguard forbids, whatever the registry
    answers.  The DELETEs it sends are for tags of the package's repository, in the
    order of its report, none of them a row it reports as kept or refused; each
    names a tag of the selection that [--force] overrides or whose row in the index
    root is marked ephemeral; none goes out on a dry run or when any tag of the
    selection is refused; no keep tag is among them when the tags passed
    [parse_tag]; and no manifest or blob is ever written. *)
Theorem prune_deletes_permitted (fuel : nat) (client : Client) (target : PruneTarget) (request : PruneRequest) (w w' : W)
    (log : list Event) (result : PruneRun (IE := IE))
    (Hrun : prune fuel client target request (w, []) = (Some result, (w', log))) :
  no_write log /\
  exists tags, deletes log = map (reference_of target) tags /\
    tags `sublist_of` map pt_tag (List.filter (fun row =>
      negb (bool_decide (pt_action row = PaKept)) && negb (bool_decide (pt_action row = PaRefused))) (po_tags (pn_outcome result))) /\
    (forall tag, In tag tags -> rq_dry_run request = false /\ permitted target request tag /\
       in_selection (rq_selection request) tag) /\
    ((exists row, In row (po_tags (pn_outcome result)) /\ pt_action row = PaRefused) -> tags = []) /\
    (match rq_selection request with SelTags given => forall tag, In tag given -> parse_tag (IE := IE) tag = Ok tag | _ => True end ->
       forall tag, In tag tags -> String.prefix KEEP_TAG_PREFIX tag = false).
Proof.
  apply prune_story in Hrun as (sel & Hsel & before & after & verdicts & ts & -> & Hf & Hw & Hdr & Hd & Hsub & Hne & _).
  simpl in *. split; [done|]. exists ts.
  assert (forall tag, In tag ts -> permitted target request tag /\ in_selection (rq_selection request) tag) as Hperm.
  { intros tag Ht. assert (In tag (chosen before verdicts)) as Hc by (apply list_elem_of_In; eapply elem_of_sublist; [|done]; by apply list_elem_of_In).
    destruct (chosen_In _ _ _ _ _ _ _ Hf Hc) as [Hp Hb]. split; [done|]. eapply selects_In; [done|]. apply in_app_iff. eauto. }
  assert (forall tag, In tag ts -> ts <> []) as Hnil by (intros tag Ht ->; done). split_and!.
  - done.
  - etrans; [exact Hsub|]. by eapply chosen_rows.
  - intros tag Ht. destruct (Hperm tag Ht). destruct (Hne (Hnil tag Ht)). done.
  - intros (row & (i & Hi)%list_elem_of_In%list_elem_of_lookup & Ha). destruct (decide (ts = [])) as [|Hts]; [done|].
    destruct (Hne Hts) as [_ Hnr]. destruct (Forall3_lookup_r _ _ _ _ _ _ Hf Hi) as (s & v & Hs & Hv & (_ & _ & _ & Hcase)).
    exfalso. rewrite Ha in Hcase.
    destruct v as [reason| | |reason]; [intuition congruence|intuition congruence|intuition congruence|].
    apply (Hnr reason). by eapply list_elem_of_In, list_elem_of_lookup_2.
  - intros Hgiven tag Ht. destruct (Hperm tag Ht) as [_ Hin]. unfold in_selection in Hin. destruct (rq_selection request).
    + specialize (Hgiven tag Hin). unfold parse_tag in Hgiven. by destruct (String.prefix KEEP_TAG_PREFIX tag); repeat case_match.
    + apply version_no_keep_prefix. unfold is_build_of, is_rolling_of in Hin. destruct (version_parse tag); [eauto|]. by destruct Hin.
Qed.

(** a prune reports what happened, whatever the registry answers.  A row
    reported deleted had its DELETE accepted and a later probe of the tag answered
    absent; a row reported absent was answered absent; a run that ends without an
    error has settled every tag of its selection (kept, gone, or on a dry run only
    judged) in order; and every tag handed to the tags file is in the index root,
    had a DELETE sent for it, and was then answered absent. *)
Theorem prune_report_true (fuel : nat) (client : Client) (target : PruneTarget) (request : PruneRequest) (w w' : W)
    (log : list Event) (result : PruneRun (IE := IE))
    (Hrun : prune fuel client target request (w, []) = (Some result, (w', log))) :
  (forall row, In row (po_tags (pn_outcome result)) ->
     (pt_action row = PaDeleted -> removed (reference_of target (pt_tag row)) Deleted log) /\
     (pt_action row = PaAbsent -> seen_absent (reference_of target (pt_tag row)) log)) /\
  (pn_error result = None -> exists sel, selects request sel /\ map pt_tag (po_tags (pn_outcome result)) = map fst sel /\
     (rq_dry_run request = false -> Forall settled (po_tags (pn_outcome result)))) /\
  (forall entries tag, tags_file_entries (pn_outcome result) = Some entries -> In tag entries ->
     is_Some (root_row target tag) /\ exists answer, removed (reference_of target tag) answer log).
Proof.
  apply prune_story in Hrun as (sel & Hsel & before & after & verdicts & ts & -> & Hf & Hw & Hdr & Hd & Hsub & Hne & Hok).
  simpl in *.
  assert (forall r answer, removed r answer log -> seen_absent r log) as Hseen.
  { intros r answer (b & probes & code & a & _ & ->). exists code. apply in_app_iff. right. right. apply in_app_iff. right. by left. }
  assert (forall row, In row (po_tags (pn_outcome result)) -> exists s v, final target request log s v row) as Hrow.
  { intros row (i & Hi)%list_elem_of_In%list_elem_of_lookup. destruct (Forall3_lookup_r _ _ _ _ _ _ Hf Hi) as (s & v & _ & _ & ?). eauto. }
  split_and!.
  - intros row (s & v & (Hj & -> & _ & Hv))%Hrow. destruct v; simpl in Hj; split; intros Ha; rewrite Ha in Hv; intuition (try congruence); eauto.
  - intros He. rewrite He in Hok. destruct (Hok eq_refl) as (-> & _ & Hset). rewrite app_nil_r in Hsel. exists before.
    split_and!; [done| |intros Hdry; by apply Hset]. clear -Hf. induction Hf as [|s v row sel vs rows (_ & Ht & _) _ IH]; simpl; congruence.
  - intros entries tag He Hin. unfold tags_file_entries in He. destruct (_ || _); [done|]. injection He as <-.
    apply in_map_iff in Hin as (row & <- & [(s & v & (Hj & Ht & Hroot & Hv))%Hrow Hb]%filter_In). rewrite Ht.
    apply andb_true_iff in Hb as [Hir Hact]. rewrite Hroot in Hir. apply bool_decide_eq_true in Hir. split; [done|].
    destruct v as [reason| | |reason]; simpl in *.
    + destruct Hv as [Hv _]. by rewrite Hv in Hact.
    + destruct Hv as [[Hv|[_ Hv]]|[[Hv Hr]|[Hv Hr]]]; rewrite Hv in Hact; [done|done|eauto|eauto].
    + destruct Hj as (_ & Hj & _). rewrite Hj in Hir. by destruct Hir.
    + destruct Hv as [Hv _]. by rewrite Hv in Hact.
Qed.
End Properties.

(** Pruning a pre-release family spares exactly its newest builds.  Whatever
    the listing holds, the selection is the listed builds of that pre-release,
    oldest first, the newest [keep_builds] of them (all, when there are fewer)
    marked kept and no other, and then the rolling tag when it is listed, kept
    exactly when builds are kept; a build that is not kept is never newer than one
    that is; and nothing else is selected. *)
Theorem family_selection_exact (prerelease : Version) (keep_builds : option N) (listing : list string) :
  let selection := family_selection prerelease keep_builds listing in
  let builds := List.filter (is_build_of prerelease) listing in
  let keep := match keep_builds with Some count => N.to_nat count | None => 0%nat end in
  (exists older newer, selection =
      (map (fun t => (t, None)) older ++ map (fun t => (t, Some Newest)) newer ++
       match last (List.filter (is_rolling_of prerelease) listing) with
       | Some t => [(t, (fun _ => Rolling) <$> keep_builds)] | None => [] end)%list /\
     Permutation (older ++ newer) builds /\ StronglySorted tag_le (older ++ newer) /\
     length newer = Nat.min keep (length builds)) /\
  (forall t t', In (t, None) selection -> is_build_of prerelease t = true -> In (t', Some Newest) selection -> tag_le t t') /\
  (forall t kept, In (t, kept) selection -> In t listing).
Proof.
  cbv zeta. destruct (family_selection_split prerelease keep_builds listing) as (older & newer & -> & Hperm & Hsort & Hlen).
  assert (forall t kept, In (t, kept) match last (List.filter (is_rolling_of prerelease) listing) with
    | Some t => [(t, (fun _ => Rolling) <$> keep_builds)] | None => [] end ->
    (is_rolling_of prerelease t = true /\ In t listing) /\ kept <> Some Newest) as Hroll.
  { intros t kept Ht. destruct (last _) as [r|] eqn:El; [|done]. destruct Ht as [[= -> <-]|[]]. split; [|by destruct keep_builds].
    apply last_Some_elem_of, list_elem_of_In, filter_In in El. tauto. }
  split_and!.
  - exists older, newer. split_and!; [done..|]. by rewrite Hlen, (Permutation_length Hperm).
  - intros t t' Ht Hb Ht'. rewrite !in_app_iff, !in_map_iff in Ht, Ht'.
    destruct Ht' as [(? & ? & _)|[(u' & [= ->] & Hn)|Hr]]; [done| |by destruct (Hroll _ _ Hr)].
    destruct Ht as [(u & [= ->] & Ho)|[(? & ? & _)|Hr]]; [|done|].
    + clear -Hsort Ho Hn. induction older as [|a older IH]; [done|]. apply StronglySorted_inv in Hsort as [Hsort Ha]. destruct Ho as [->|Ho]; [|auto].
      rewrite List.Forall_forall in Ha. apply Ha, in_app_iff. by right.
    + destruct (Hroll _ _ Hr) as [[Hrt _] _]. unfold is_build_of, is_rolling_of in *. destruct (version_parse t); [|done]. by rewrite Hrt in Hb.
  - intros t kept Ht. rewrite !in_app_iff, !in_map_iff in Ht.
    assert (forall u, In u (older ++ newer) -> In u listing) as Hin.
    { intros u Hu. apply (Permutation_in _ Hperm), filter_In in Hu. tauto. }
    destruct Ht as [(u & [= -> _] & Hu)|[(u & [= -> _] & Hu)|Hr]].
    + apply Hin, in_app_iff. by left.
    + apply Hin, in_app_iff. by right.
    + by destruct (Hroll _ _ Hr) as [[_ ?] _].
Qed.
