(* ===== verification/PruneConverge.v ===== *)
(** * A prune reaches its goal

    Against a registry that deletes tags as the distribution specification says,
    a permitted prune runs to the end, and the tags it leaves are exactly those
    that were there and not selected for removal. *)

From stdpp Require Import base decidable list option numbers strings sets.
From Stdlib Require Import Lia ZArith Ascii Sorting Permutation.
From S2P Require Import Prelude OMap Text Version VersionText Digest Tag PackageRef Platform Registry Client Prune PruneSpec.
From S2P Require Import Reliable.
Local Open Scope ocx_scope.
Local Open Scope string_scope.

(** Deleting a tag and asking for a manifest, as the specification has them: the
    tag is gone, nothing else moves, and the answer says whether it was there. *)
Class Deletable `{U : OciSpec} `{!Codec} (W : Type) `{!Transport W} `{!Reliable W} := {
  deletable_delete : forall r w, rf_digest r = None -> exists w',
    delete_manifest r w = (Ok (match served w r with Some _ => Deleted | None => AlreadyAbsent end), w') /\
    forall r', rf_digest r' = None -> served w' r' = if bool_decide (r' = r) then None else served w r';
  deletable_probe : forall r w, exists code,
    probe_manifest r w = (Ok (match served w r with Some b => Present (hash Sha256 b) | None => Absent code end), w);
}.

Section Converge.
Context `{U : OciSpec} `{!TotalOrd NativePlatform} `{!Codec} `{!CodecLaws} {W : Type} `{!Transport W} `{!Reliable W} `{!Deletable W} {IE : Type}.
Context (client : Client) (target : PruneTarget) (request : PruneRequest).
Implicit Types (w : W) (t : string).
Notation repository := (tg_repository target).

(** What the run selects in a world, and what of it is to go. *)
Definition selection_at w : list (string * option PruneReason) :=
  match rq_selection request with
  | SelTags tags => map (fun tag => (tag, None)) (first_seen [] tags)
  | SelPrerelease prerelease keep_builds => family_selection prerelease keep_builds (tags_of w repository)
  end.
Definition unkept (sel : list (string * option PruneReason)) : list string :=
  omap (fun s => match s.2 with None => Some s.1 | Some _ => None end) sel.

Lemma valid_no_plus t : is_valid_oci_tag t = true -> str_mem "+"%char t = false.
Proof.
  destruct t as [|c t]; [done|]. unfold is_valid_oci_tag. rewrite !andb_true_iff. intros [[Hc _] Ht]. cbn [str_mem].
  rewrite (str_mem_forall _ _ _ Ht) by done. rewrite orb_false_r. destruct (Ascii.eqb_spec "+"%char c) as [<-|]; [|done].
  apply orb_true_iff in Hc as [Hc|Hc]; vm_compute in Hc; discriminate.
Qed.

Lemma reference_valid t : is_valid_oci_tag t = true -> reference_of target t = tag_ref repository t /\ normalize_tag t = t.
Proof.
  intros Ht. apply valid_no_plus in Ht. assert (normalize_tag t = t) as E by (unfold normalize_tag; by apply replace_char_id).
  split; [|done]. unfold reference_of, canonical_reference, clone_with_tag. simpl. by rewrite E.
Qed.
(** ** One tag *)

Lemma probe_reliable t w : is_valid_oci_tag t = true -> exists code,
  probe_manifest_canonical client (clone_with_tag repository t) w =
  (Ok (match served w (tag_ref repository t) with Some b => Present (hash Sha256 b) | None => Absent code end), w).
Proof.
  intros Ht. destruct (reference_valid t Ht) as [Hr Hn]. unfold probe_manifest_canonical. simpl. rewrite Hn, Ht. simpl.
  unfold io_bind. rewrite reliable_auth. unfold read_reference. fold (reference_of target t). rewrite Hr. apply deletable_probe.
Qed.

Lemma delete_reliable t w : is_valid_oci_tag t = true -> exists action w',
  delete_and_confirm (IE := IE) client repository t w = (Ok action, w') /\ (action = PaDeleted \/ action = PaAbsent) /\
  forall r, rf_digest r = None -> served w' r = if bool_decide (r = tag_ref repository t) then None else served w r.
Proof.
  intros Ht. destruct (reference_valid t Ht) as [Hr Hn].
  destruct (deletable_delete (tag_ref repository t) w eq_refl) as (w' & Hdel & Hserved).
  exists (match served w (tag_ref repository t) with Some _ => PaDeleted | None => PaAbsent end), w'.
  split_and!; [|destruct (served w (tag_ref repository t)); auto|done].
  assert (delete_tag (clone_with_tag repository t) w =
    (Ok (match served w (tag_ref repository t) with Some _ => Deleted | None => AlreadyAbsent end), w')) as Hdt.
  { unfold delete_tag. simpl. rewrite Hn, Ht. simpl. unfold io_bind. rewrite reliable_auth. unfold transport_write_reference.
    fold (reference_of target t). by rewrite Hr. }
  unfold delete_and_confirm, io_bind, io_try. rewrite Hdt. unfold CONFIRM_TRIES. cbn [confirm]. unfold registry, io_map_err, io_bind.
  destruct (probe_reliable t w' Ht) as [code ->]. rewrite Hserved, bool_decide_true by done.
  simpl. unfold io_ret. by destruct (served w (tag_ref repository t)).
Qed.

(** What the safeguard says of a permitted selection. *)
Definition ready w (s : string * option PruneReason) (v : Verdict) (row : PruneTag) : Prop :=
  pt_tag row = s.1 /\ pt_action row <> PaRefused /\
  match s.2 with
  | Some reason => v = VKeep reason /\ settled row
  | None => is_valid_oci_tag s.1 = true /\ (v = VDelete \/ (v = VAbsent /\ settled row /\ served w (tag_ref repository s.1) = None))
  end.

Ltac solve_ready :=
  eexists _, _, _; (split; [done|]); simpl; split_and!; first [done | by left | by right; split_and!; auto | auto].

Lemma judge_reliable w t kept : (kept = None -> is_valid_oci_tag t = true /\ permitted target request t) -> rq_dry_run request = false ->
  exists v d in_root, judge (IE := IE) client target t kept (rq_force request) w = (Ok (v, d, in_root), w) /\
    ready w (t, kept) v (judged_row (rq_dry_run request) t v d in_root).
Proof.
  intros Ht Hdry. unfold judge, ready, settled. rewrite Hdry. destruct kept as [reason|]; [solve_ready|].
  destruct (Ht eq_refl) as [Hv Hp]. destruct (root_row target t) as [row|] eqn:Er.
  - assert (rt_ephemeral row || rq_force request = true) as ->; [|solve_ready].
    apply orb_true_iff. destruct Hp as [?|(row' & Hr & ?)]; [by right|left; congruence].
  - assert (rq_force request = true) as ->.
    { destruct Hp as [?|(row' & Hr & ?)]; [done|congruence]. }
    unfold registry, io_map_err, io_bind. destruct (probe_reliable t w Hv) as [code ->].
    destruct (served w (tag_ref repository t)) eqn:Es; simpl; solve_ready.
Qed.
(** ** The run *)

Section Phases.
Context (w0 : W) (sel : list (string * option PruneReason)).
Notation State := (W * PruneOutcome)%type.

Definition readied (before : list (string * option PruneReason)) (verdicts : list Verdict) (st : State) : Prop :=
  st.1 = w0 /\ Forall3 (ready w0) before verdicts (po_tags st.2).

Lemma judge_all :
  (forall t, In (t, None) sel -> is_valid_oci_tag t = true /\ permitted target request t) -> rq_dry_run request = false ->
  triple (readied [] []) (io_foldl (judge_one (IE := IE) client target request) [] sel)
    (fun r st => match r with Ok verdicts => readied sel verdicts st | Err _ => False end).
Proof.
  intros Hsel Hdry. apply (triple_foldl _ sel readied (fun _ _ => False)). intros before [t kept] after verdicts Hs [w o] [Hw Hf]. simpl in Hw. subst w.
  assert (kept = None -> is_valid_oci_tag t = true /\ permitted target request t) as Hk.
  { intros ->. apply Hsel. rewrite Hs. apply in_app_iff. right. by left. }
  destruct (judge_reliable w0 t kept Hk Hdry) as (v & d & in_root & Hj & Hr). unfold judge_one, io_bind, world. simpl. rewrite Hj. simpl.
  split; [done|]. simpl. apply Forall3_app; [done|]. constructor; [done|constructor].
Qed.

Lemma ready_no_refusal before verdicts rows reason : Forall3 (ready w0) before verdicts rows -> refused_for reason rows = [].
Proof.
  intros Hf. unfold refused_for. induction Hf as [|s v row before verdicts rows (_ & Hr & _) _ IH]; simpl; [done|].
  by rewrite bool_decide_false.
Qed.

(** After the deletes of a part of the selection: those tags are gone, and no others. *)
Definition gone (ts : list string) (w : W) : Prop := forall r, rf_digest r = None ->
  served w r = if bool_decide (r ∈ map (tag_ref repository) ts) then None else served w0 r.

Lemma gone_snoc ts t w w' : gone ts w ->
  (forall r, rf_digest r = None -> served w' r = if bool_decide (r = tag_ref repository t) then None else served w r) ->
  gone (ts ++ [t]) w'.
Proof.
  intros Hg Hw r Hr. rewrite Hw, Hg by done. rewrite map_app. simpl. repeat case_bool_decide; set_solver.
Qed.

Definition removing (verdicts : list Verdict) (before : list (nat * Verdict)) (_ : unit) (st : State) : Prop :=
  exists sel1 sel2 v1 v2 rows1 rows2, sel = (sel1 ++ sel2)%list /\ verdicts = (v1 ++ v2)%list /\
    po_tags st.2 = (rows1 ++ rows2)%list /\ length before = length v1 /\ Forall settled rows1 /\
    map pt_tag rows1 = map fst sel1 /\ length sel1 = length v1 /\ Forall3 (ready w0) sel2 v2 rows2 /\ gone (chosen sel1 v1) st.1.

Lemma delete_all verdicts :
  triple (removing verdicts [] tt) (io_foldl (delete_one (IE := IE) client target) tt (imap pair verdicts))
    (fun r st => match r with Ok _ => removing verdicts (imap pair verdicts) tt st | Err _ => False end).
Proof.
  eapply triple_weaken; [apply (triple_foldl _ _ (removing verdicts) (fun _ _ => False))|done|by intros [[]|]].
  intros before [pos v] after [] (-> & Hv)%imap_pair_split [w o].
  intros (sel1 & sel2 & v1 & v2 & rows1 & rows2 & Es & -> & Hrows & Hlen & Hset & Htags & Hl1 & Hf & Hg). simpl in *.
  rewrite lookup_app_r, Hlen, Nat.sub_diag in Hv by lia. destruct v2 as [|v' v2]; simpl in Hv; [done|]. injection Hv as ->.
  destruct (Forall3_cons_inv_m _ _ _ _ _ Hf) as ([t kept] & sel2' & row & rows2' & -> & -> & (Ht & _ & Hr) & Hf'). simpl in *.
  assert (length rows1 = length v1) as Hl2 by (rewrite <- Hl1, <- (length_map fst), <- Htags; by rewrite length_map).
  assert (forall row' w' o', po_tags o' = (rows1 ++ row' :: rows2')%list -> settled row' -> pt_tag row' = t ->
    gone (chosen (sel1 ++ [(t, kept)]) (v1 ++ [v])) w' -> removing (v1 ++ v :: v2) (before ++ [(length before, v)]) tt (w', o')) as Hnext.
  { intros row' w' o' Ho' Hs' Ht' Hg'. exists (sel1 ++ [(t, kept)])%list, sel2', (v1 ++ [v])%list, v2, (rows1 ++ [row'])%list, rows2'.
    simpl. split_and!; rewrite <- ?app_assoc, ?length_app, ?map_app; simpl; try done; try lia.
    - apply Forall_app. split; [done|]. constructor; [done|constructor].
    - by rewrite Htags, Ht'. }
  unfold delete_one. destruct (bool_decide (v = VDelete)) eqn:Ev; simpl.
  - apply bool_decide_eq_true in Ev as ->. destruct kept as [reason|]; [by destruct Hr|]. destruct Hr as [Hvalid _].
    unfold reported, io_bind, world, report. simpl. rewrite Hrows, list_lookup_total_middle, Ht by lia.
    destruct (delete_reliable t w Hvalid) as (action & w' & -> & Hact & Hserved). simpl.
    apply (Hnext (set_action action row)); simpl.
    + by rewrite Hrows, insert_app_r_alt, Hlen, Hl2, Nat.sub_diag by lia.
    + unfold settled. simpl. tauto.
    + done.
    + rewrite chosen_app by done. by apply (gone_snoc _ _ w).
  - apply bool_decide_eq_false in Ev. apply (Hnext row); [done| |done|].
    + destruct kept as [reason|]; [tauto|]. destruct Hr as [_ [?|(_ & ? & _)]]; done.
    + rewrite chosen_app by done. unfold chosen at 2. simpl. rewrite bool_decide_false by done. simpl. by rewrite app_nil_r.
Qed.

(** Of a permitted selection, what is not sent a DELETE was not there. *)
Lemma gone_unkept verdicts rows w : Forall3 (ready w0) sel verdicts rows -> gone (chosen sel verdicts) w -> gone (unkept sel) w.
Proof.
  intros Hf Hg r Hr. rewrite (Hg r Hr).
  assert (forall t, t ∈ chosen sel verdicts -> t ∈ unkept sel) as H1.
  { clear -Hf. unfold chosen, unkept. induction Hf as [|[t kept] v row before vs rows (_ & _ & Hk) _ IH]; [done|]. intros t'. simpl.
    destruct kept as [reason|]; [destruct Hk as [-> _]; simpl; exact (IH t')|]. simpl. case_bool_decide; set_solver. }
  assert (forall t, t ∈ unkept sel -> t ∈ chosen sel verdicts \/ served w0 (tag_ref repository t) = None) as H2.
  { clear -Hf. unfold chosen, unkept. induction Hf as [|[t kept] v row before vs rows (_ & _ & Hk) _ IH]; [set_solver|]. intros t'. simpl in *.
    destruct kept as [reason|]; [destruct Hk as [-> _]; simpl; exact (IH t')|]. simpl.
    destruct Hk as [_ [->|(-> & _ & Hnone)]]; simpl; set_solver. }
  repeat case_bool_decide; try done.
  - exfalso. set_solver.
  - destruct (served w0 r) eqn:E; [|done]. exfalso. set_solver.
Qed.
End Phases.

(** ** Properties *)

(** C7: a permitted prune reaches its goal.  Against a registry that deletes tags
    as the specification says, when every tag selected and not kept is a valid tag
    that [--force] overrides or the index marks ephemeral, the run ends without an
    error, reports every selected tag in order as kept or gone, and afterwards the
    registry serves exactly what it served before less those tags. *)
Theorem prune_converges (fuel : nat) (w : W)
    (Hchunk : (0 < c_tag_chunk_size client)%nat) (Hfuel : (length (tags_of w repository) < fuel)%nat)
    (Hindex : is_Some (tg_index target) \/ rq_force request = true) (Hdry : rq_dry_run request = false)
    (Hsel : forall t, In (t, None) (selection_at w) -> is_valid_oci_tag t = true /\ permitted target request t) :
  exists outcome w', prune (IE := IE) fuel client target request w = (Some (mkPruneRun outcome None), w') /\
    map pt_tag (po_tags outcome) = map fst (selection_at w) /\ Forall settled (po_tags outcome) /\
    forall r, rf_digest r = None ->
      served w' r = if bool_decide (r ∈ map (tag_ref repository) (unkept (selection_at w))) then None else served w r.
Proof.
  assert (select (IE := IE) fuel client target (rq_selection request) w = (Ok (Some (selection_at w)), w)) as Hselect.
  { unfold select, selection_at. destruct (rq_selection request); [done|]. unfold io_bind, registry, io_map_err.
    change (tags_of w repository) with (tags_of w (without_specifiers repository)) in *.
    by rewrite (list_or_empty_reliable fuel client w _ Hchunk Hfuel). }
  unfold prune, run. assert (bool_decide (tg_index target = None) && negb (rq_force request) = false) as ->.
  { destruct Hindex as [[x Hx]| ->]; [|by rewrite andb_false_r]. rewrite Hx. by rewrite bool_decide_false. }
  unfold io_bind at 1, world at 1. simpl fst. rewrite Hselect. cbn [fst snd]. unfold io_bind at 1, report at 1. cbn [fst snd].
  set (st0 := (w, set_selected (initial_outcome target request))).
  assert (readied w [] [] st0) as Hst0 by (split; [done|constructor]).
  pose proof (judge_all w (selection_at w) Hsel Hdry st0 Hst0) as Hj. unfold io_bind at 1.
  destruct (io_foldl (judge_one client target request) [] (selection_at w) st0) as [[verdicts|e] st1]; simpl in Hj; [|done].
  destruct Hj as [Hw Hf]. unfold io_bind at 1, reported at 1. cbv beta iota.
  rewrite !(ready_no_refusal w _ _ _ _ Hf), Hdry. rewrite bool_decide_true by done. cbn [negb orb].
  assert (removing w (selection_at w) verdicts [] tt st1) as H1.
  { exists [], (selection_at w), [], verdicts, [], (po_tags st1.2). split_and!; try done. intros r _. simpl. by rewrite Hw. }
  pose proof (delete_all w (selection_at w) verdicts st1 H1) as Hd. unfold io_bind.
  destruct (io_foldl (delete_one client target) tt (imap pair verdicts) st1) as [[[]|e] [w' outcome]]; simpl in Hd; [|done].
  destruct Hd as (sel1 & sel2 & v1 & v2 & rows1 & rows2 & Es & -> & Hrows & Hlen & Hset & Htags & Hl1 & Hf2 & Hg).
  rewrite length_imap, length_app in Hlen. destruct v2; [|simpl in Hlen; lia]. destruct sel2, rows2; try (by inversion Hf2). rewrite !app_nil_r in *.
  simpl in *. exists outcome, w'. rewrite Hrows, Es. split_and!; [done|done|done|].
  intros r Hr. rewrite Es in Hf. exact (gone_unkept w sel1 v1 _ w' Hf Hg r Hr).
Qed.
End Converge.
