(* ===== verification/SamplePrune.v ===== *)
(** * A sample prune

    The prune properties at the sample registry: a pre-release with three builds,
    all marked ephemeral in the index, pruned down to the newest one. *)

From stdpp Require Import base decidable list option numbers strings.
From Stdlib Require Import Lia ZArith Ascii.
From S2P Require Import Prelude OMap Text Version VersionText Digest Tag PackageRef Platform Registry Client Prune PruneSpec.
From S2P Require Import Reliable Samples SampleRegistry PruneConverge.
Local Open Scope ocx_scope.
Local Open Scope string_scope.

#[export] Instance sample_deletable : Deletable SampleWorld.
Proof.
  split.
  - intros r w _. eexists. split; [reflexivity|]. intros r' _. simpl. induction w as [|[r1 b] w IH]; simpl; [by case_bool_decide|].
    destruct (bool_decide (r1 = r)) eqn:E1; simpl; rewrite IH.
    + apply bool_decide_eq_true in E1 as ->. by destruct (bool_decide (r' = r)).
    + apply bool_decide_eq_false in E1. simpl in *. destruct (bool_decide (r' = r)) eqn:E2; [|done].
      apply bool_decide_eq_true in E2 as ->. by rewrite bool_decide_false by congruence.
  - intros r w. eexists. simpl. done.
Qed.

Definition prune_tags : list string :=
  ["1.0.0-rc"; "1.0.0-rc_b1"; "1.0.0-rc_b2"; "1.0.0-rc_b3"; "2.0.0"; "2.0.0-rc_b1"].
Definition prune_world : SampleWorld :=
  map (fun t => (mkReference "ocx.sh" "cmake" (Some t) None, DocBytes (MIndex sample_stale))) prune_tags.
Definition prune_root : IndexRoot :=
  mkIndexRoot "oci://ocx.sh/cmake"
    (map (fun t => (t, mkRootTag (sample_hash Sha256 (DocBytes (MIndex sample_stale))) None (negb (String.eqb t "2.0.0")))) prune_tags)
    None None None.
Definition prune_target : PruneTarget :=
  mkPruneTarget sample_id sample_id (Some (mkIndexedRoot "https://index.ocx.sh" sample_written prune_root)).
Definition prune_request : PruneRequest :=
  mkPruneRequest (SelPrerelease (new_prerelease 1 0 0 "rc") (Some 1%N)) false false.

#[local] Existing Instance recorded.
Definition prune_trace : option (PruneRun (IE := unit)) * (SampleWorld * list Event) :=
  prune 20 sample_client prune_target prune_request (prune_world, []).
Definition prune_result : PruneRun (IE := unit) :=
  match prune_trace.1 with Some result => result | None => mkPruneRun (initial_outcome prune_target prune_request) None end.
Definition prune_log : list Event := prune_trace.2.2.

Lemma prune_deletes_permitted_witness :
  deletes prune_log = [reference_of prune_target "1.0.0-rc_b1"; reference_of prune_target "1.0.0-rc_b2"] /\ no_write prune_log.
Proof.
  assert (prune_trace = (Some prune_result, (prune_trace.2.1, prune_log))) as Hrun by (vm_compute; reflexivity).
  split; [vm_compute; reflexivity|]. exact (proj1 (prune_deletes_permitted _ _ _ _ _ _ _ _ Hrun)).
Defined.

Lemma prune_report_true_witness :
  map (fun row => (pt_tag row, pt_action row)) (po_tags (pn_outcome prune_result)) =
    [("1.0.0-rc_b1", PaDeleted); ("1.0.0-rc_b2", PaDeleted); ("1.0.0-rc_b3", PaKept); ("1.0.0-rc", PaKept)] /\
  tags_file_entries (pn_outcome prune_result) = Some ["1.0.0-rc_b1"; "1.0.0-rc_b2"] /\
  exists answer, removed (reference_of prune_target "1.0.0-rc_b1") answer prune_log.
Proof.
  assert (prune_trace = (Some prune_result, (prune_trace.2.1, prune_log))) as Hrun by (vm_compute; reflexivity).
  assert (tags_file_entries (pn_outcome prune_result) = Some ["1.0.0-rc_b1"; "1.0.0-rc_b2"]) as Hentries by (vm_compute; reflexivity).
  split; [vm_compute; reflexivity|]. split; [exact Hentries|].
  exact (proj2 (proj2 (proj2 (prune_report_true _ _ _ _ _ _ _ _ Hrun)) _ _ Hentries (or_introl eq_refl))).
Defined.

Lemma prune_converges_witness :
  exists outcome w', prune (IE := unit) 20 sample_client prune_target prune_request prune_world = (Some (mkPruneRun outcome None), w') /\
    map pt_tag (po_tags outcome) = ["1.0.0-rc_b1"; "1.0.0-rc_b2"; "1.0.0-rc_b3"; "1.0.0-rc"].
Proof.
  assert (forall t, In (t, None) (selection_at prune_target prune_request prune_world) ->
    is_valid_oci_tag t = true /\ permitted prune_target prune_request t) as Hsel.
  { intros t Ht. vm_compute in Ht. destruct Ht as [Ht|[Ht|[Ht|[Ht|[]]]]]; try discriminate Ht; injection Ht as <-;
      (split; [reflexivity|]); right; eexists; (split; [vm_compute; reflexivity|reflexivity]). }
  destruct (prune_converges (IE := unit) sample_client prune_target prune_request 20 prune_world)
    as (outcome & w' & Hrun & Htags & _); [simpl; lia|vm_compute; lia|left; by eexists|reflexivity|exact Hsel|].
  exists outcome, w'. split; [exact Hrun|]. rewrite Htags. vm_compute. reflexivity.
Defined.

(** A registry that accepts every DELETE and removes nothing. *)
#[local] Instance stubborn : Transport SampleWorld | 100 := {|
  ensure_auth := sample_transport.(ensure_auth);
  transport_list_tags := sample_transport.(transport_list_tags);
  fetch_manifest_digest := sample_transport.(fetch_manifest_digest);
  pull_manifest_raw := sample_transport.(pull_manifest_raw);
  push_manifest_raw := sample_transport.(push_manifest_raw);
  push_blob := sample_transport.(push_blob);
  head_blob := sample_transport.(head_blob);
  mount_blob := sample_transport.(mount_blob);
  delete_manifest := fun _ w => (Ok Deleted, w);
  probe_manifest := sample_transport.(probe_manifest);
  read_file := sample_transport.(read_file);
|}.

(** A row may be reported as not attempted although its DELETE was sent: the tag
    whose own delete could not be confirmed keeps the action it started with. *)
Example not_attempted_was_attempted :
  let '(result, (_, log)) := prune (Transport0 := recorded (Transport0 := stubborn)) (IE := unit) 20 sample_client prune_target
    prune_request (prune_world, []) in
  exists outcome error, result = Some (mkPruneRun outcome (Some error)) /\
    head (map (fun row => (pt_tag row, pt_action row)) (po_tags outcome)) = Some ("1.0.0-rc_b1", PaNotAttempted) /\
    In (SentDelete (reference_of prune_target "1.0.0-rc_b1") (Ok Deleted)) log.
Proof. vm_compute. do 2 eexists. split; [reflexivity|]. split; [reflexivity|]. by left. Qed.
