(* ===== verification/Store.v ===== *)
(** * The object store's layout

    [crates/ocx_store/src/file_structure.rs] and its modules: the content-addressed
    paths ([cas_path.rs]), the package, layer, blob and shim stores with their
    walks, and the directory walker they share
    ([crates/ocx_util/src/fs/dir_walker.rs]).

    A [Path] is the list of its components, which is what [std::path::Path]
    compares, orders and hashes by.  The file system is a parameter: a record of
    the calls the code makes of the operating system. *)

From stdpp Require Import base decidable list option numbers strings gmap.
From Stdlib Require Import Lia Ascii.
From S2P Require Import Prelude OMap Text Digest PackageRef.
Local Open Scope ocx_scope.
Local Open Scope string_scope.

(** ** Paths *)

Definition Path : Type := list string.

#[export] Instance path_ord : TotalOrd Path := ord_of_lawful (list_cmp String.compare) (lawful_list _ lawful_string).

(** [Path::join] with one relative component; [Path] drops empty and [.] components. *)
Definition join (p : Path) (component : string) : Path :=
  if String.eqb component "" || String.eqb component "." then p else (p ++ [component])%list.
Definition join_all (p : Path) (components : list string) : Path := fold_left join components p.

(** [Path::parent], [Path::starts_with]. *)
Definition path_parent (p : Path) : option Path :=
  match p with
  | [] => None
  | ["/"] => None
  | _ => Some (removelast p)
  end.
Fixpoint path_starts_with (base p : Path) : bool :=
  match base, p with
  | [], _ => true
  | b :: base', c :: p' => String.eqb b c && path_starts_with base' p'
  | _ :: _, [] => false
  end.

(** [to_relaxed_slug]: one underscore for every character outside the class; the
    continuation bytes of a multi-byte character belong to its first byte. *)
Definition is_continuation (c : ascii) : bool := (128 <=? N_of_ascii c)%N && (N_of_ascii c <? 192)%N.
Fixpoint to_relaxed_slug (s : string) : string :=
  match s with
  | EmptyString => EmptyString
  | String c s' =>
      if is_continuation c then to_relaxed_slug s'
      else if is_alnum c || Ascii.eqb c "." || Ascii.eqb c "_" || Ascii.eqb c "-" then String c (to_relaxed_slug s')
      else String "_" (to_relaxed_slug s')
  end.

(** [slugify], [repository_path]. *)
Definition slugify (value : string) : string := to_relaxed_slug value.
Definition repository_path (repository : string) : list string := split_char "/" repository.

(** ** Content addresses *)

Definition CAS_SHARD_PREFIX_LEN : nat := 2.
Definition CAS_SHARD_TOTAL_LEN : nat := 32.
Definition CAS_SHARD_SUFFIX_LEN : nat := CAS_SHARD_TOTAL_LEN - CAS_SHARD_PREFIX_LEN.
Definition CAS_SHARD_DEPTH : nat := 3.
Inductive CasTier : Type := TierPackage | TierLayer | TierBlob | TierShim.

(** [cas_shard_path]; the slices are in range for every digest the parser admits. *)
Definition cas_shard_path (digest : Digest) : list string :=
  let '(algorithm, hex) := digest_parts digest in
  [algorithm; String.substring 0 CAS_SHARD_PREFIX_LEN hex; String.substring CAS_SHARD_PREFIX_LEN CAS_SHARD_SUFFIX_LEN hex].

(** [cas_ref_name]. *)
Definition cas_ref_name (digest : Digest) : string :=
  let hex := digest_hex digest in
  let total := Nat.min CAS_SHARD_TOTAL_LEN (String.length hex) in
  algorithm_prefix (digest_algorithm digest) +:+ "_" +:+ String.substring 0 total hex.

(** [is_valid_cas_path]. *)
Definition is_valid_cas_path (dir : Path) : bool :=
  match firstn 3 (rev dir) with
  | [remaining; prefix; algorithm] =>
      existsb (fun a => String.eqb (algorithm_prefix a) algorithm) algorithm_all &&
      (String.length prefix =? CAS_SHARD_PREFIX_LEN)%nat && str_forall is_hexdigit prefix &&
      (String.length remaining =? CAS_SHARD_SUFFIX_LEN)%nat && str_forall is_hexdigit remaining
  | _ => false
  end.

(** [struct PinnedPackageRef]: a reference that has a digest, and [pin], [strip_advisory]. *)
Record PinnedPackageRef : Type := mkPinned {
  pp_registry : string;
  pp_repository : string;
  pp_tag : option string;
  pp_digest : Digest;
}.
#[export] Instance PinnedPackageRef_eq_dec : EqDecision PinnedPackageRef.
Proof. solve_decision. Defined.
Definition pin (identifier : PackageRef) (digest : Digest) : PinnedPackageRef :=
  mkPinned (pr_registry identifier) (pr_repository identifier) (pr_tag identifier) digest.
Definition strip_advisory (p : PinnedPackageRef) : PinnedPackageRef :=
  mkPinned (pp_registry p) (pp_repository p) None (pp_digest p).
Definition eq_content (p q : PinnedPackageRef) : bool :=
  String.eqb (pp_registry p) (pp_registry q) && String.eqb (pp_repository p) (pp_repository q) &&
  bool_decide (pp_digest p = pp_digest q).

(** ** The stores *)

(** [struct FileStructure]: one directory under the root for each store. *)
Record FileStructure : Type := mkFileStructure {
  fs_root : Path;
  fs_blobs : Path;
  fs_layers : Path;
  fs_packages : Path;
  fs_symlinks : Path;
  fs_state : Path;
  fs_temp : Path;
  fs_shim_bin : Path;
  fs_shims : Path;
  fs_toolchain : Path;
  fs_locks : Path;
}.
Definition with_root (root : Path) : FileStructure :=
  mkFileStructure root (join root "blobs") (join root "layers") (join root "packages") (join root "symlinks") (join root "state")
    (join root "temp") (join (join root ".bin") "ocx-shim") (join root "shims") (join root "toolchain") (join root "locks").

(** [PackageStore::path], [ShimStore::path], [BlobStore::path], [LayerStore::path]. *)
Definition package_path (fs : FileStructure) (identifier : PinnedPackageRef) : Path :=
  join_all (join (fs_packages fs) (slugify (pp_registry identifier))) (cas_shard_path (pp_digest identifier)).
Definition shim_path (fs : FileStructure) (identifier : PinnedPackageRef) : Path :=
  join_all (join_all (join (fs_shims fs) (slugify (pp_registry identifier))) (repository_path (pp_repository identifier)))
    (cas_shard_path (pp_digest identifier)).
Definition blob_path (fs : FileStructure) (registry : string) (digest : Digest) : Path :=
  join_all (join (fs_blobs fs) (slugify registry)) (cas_shard_path digest).
Definition layer_path (fs : FileStructure) (registry : string) (digest : Digest) : Path :=
  join_all (join (fs_layers fs) (slugify registry)) (cas_shard_path digest).

(** ** The operating system *)

(** A directory listing: each entry's name and whether it is a directory, and
    whether reading it failed after those. *)
Record DirListing : Type := mkListing { dl_entries : list (string * bool); dl_failed : bool }.

(** [std::io::ErrorKind], as far as the code tells its kinds apart. *)
Inductive OsError : Type := NotFound | OtherError.

Record Os (Bytes : Type) : Type := mkOs {
  os_exists : Path -> bool;
  os_is_dir : Path -> bool;
  os_is_file : Path -> bool;
  os_is_link : Path -> bool;
  os_try_exists : Path -> result OsError bool;
  os_symlink_is_dir : Path -> result OsError bool;
  os_same_dir : Path -> Path -> result OsError bool;
  os_read_dir : Path -> result OsError DirListing;
  os_read_link : Path -> result OsError Path;
  os_canonicalize : Path -> result OsError Path;
  os_read : Path -> result OsError Bytes;
  os_len : Path -> result OsError N;
  os_read_upto : Path -> N -> result OsError Bytes;
}.
Arguments mkOs {Bytes}.
Arguments os_exists {Bytes}.
Arguments os_is_dir {Bytes}.
Arguments os_is_file {Bytes}.
Arguments os_is_link {Bytes}.
Arguments os_try_exists {Bytes}.
Arguments os_symlink_is_dir {Bytes}.
Arguments os_same_dir {Bytes}.
Arguments os_read {Bytes}.
Arguments os_read_dir {Bytes}.
Arguments os_read_link {Bytes}.
Arguments os_canonicalize {Bytes}.
Arguments os_len {Bytes}.
Arguments os_read_upto {Bytes}.

(** ** The walker *)

(** [struct WalkDecision]; each directory yields at most itself here. *)
Record WalkDecision : Type := mkDecision { wd_leaf : bool; wd_descend : bool; wd_skip_names : list string }.
Definition walk_leaf : WalkDecision := mkDecision true false [].
Definition walk_skip : WalkDecision := mkDecision false false [].
Definition walk_descend_skip (names : list string) : WalkDecision := mkDecision false true names.

Inductive WalkError : Type := FileError (path : Path).

Section Walk.
Context {Bytes : Type} (os : Os Bytes).

(** [explore_dir]: the directory itself if it is a leaf, and the children to visit. *)
Definition explore_dir (classify : Path -> WalkDecision) (max_depth : option nat) (dir : Path) (depth : nat) :
    result WalkError (list Path * list (Path * nat)) :=
  let decision := classify dir in
  let items := if wd_leaf decision then [dir] else [] in
  if negb (wd_descend decision) then Ok (items, [])
  else if match max_depth with Some bound => (bound <=? depth)%nat | None => false end then Ok (items, [])
  else match os_read_dir os dir with
       | Err _ => Err (FileError dir)
       | Ok listing =>
           if dl_failed listing then Err (FileError dir)
           else Ok (items,
                    omap (fun entry : string * bool =>
                      if entry.2 && negb (existsb (String.eqb entry.1) (wd_skip_names decision))
                      then Some (join dir entry.1, S depth) else None) (dl_entries listing))
       end.

(** One level of [DirWalker::walk]: every queued directory is explored. *)
Fixpoint explore_all (classify : Path -> WalkDecision) (max_depth : option nat) (queue : list (Path * nat)) :
    result WalkError (list Path * list (Path * nat)) :=
  match queue with
  | [] => Ok ([], [])
  | (dir, depth) :: rest =>
      match explore_dir classify max_depth dir depth with
      | Err e => Err e
      | Ok (items, children) =>
          match explore_all classify max_depth rest with
          | Err e => Err e
          | Ok (items', children') => Ok ((items ++ items')%list, (children ++ children')%list)
          end
      end
  end.

(** [DirWalker::walk]: level after level, then sorted by path.  [None] when the
    fuel, one unit per level, runs out. *)
Fixpoint walk_levels (fuel : nat) (classify : Path -> WalkDecision) (max_depth : option nat) (queue : list (Path * nat))
    (results : list Path) : option (result WalkError (list Path)) :=
  match queue with
  | [] => Some (Ok (ord_sort results))
  | _ :: _ =>
      match fuel with
      | O => None
      | S fuel' =>
          match explore_all classify max_depth queue with
          | Err e => Some (Err e)
          | Ok (items, children) => walk_levels fuel' classify max_depth children (results ++ items)%list
          end
      end
  end.
Definition walk (fuel : nat) (root : Path) (classify : Path -> WalkDecision) (max_depth : option nat) :
    option (result WalkError (list Path)) :=
  walk_levels fuel classify max_depth [(root, 0%nat)] [].

(** [classify_package_dir], [classify_layer_dir], [classify_blob_dir], [classify_shim_dir]. *)
Definition classify_package_dir (dir : Path) : WalkDecision :=
  if os_is_dir os (join dir "content") then (if is_valid_cas_path dir then walk_leaf else walk_skip)
  else walk_descend_skip ["content"; "refs"].
Definition classify_layer_dir (dir : Path) : WalkDecision :=
  if os_is_dir os (join dir "content") then (if is_valid_cas_path dir then walk_leaf else walk_skip)
  else walk_descend_skip ["content"].
Definition classify_blob_dir (dir : Path) : WalkDecision :=
  if os_is_file os (join dir "data") then (if is_valid_cas_path dir then walk_leaf else walk_skip)
  else walk_descend_skip [].
Definition classify_shim_dir (dir : Path) : WalkDecision :=
  if negb (os_is_dir os (join dir "bin")) then walk_descend_skip []
  else if is_valid_cas_path dir then walk_leaf
  else walk_descend_skip [].

(** [list_all] of the four stores. *)
Definition MAX_WALK_DEPTH : nat := 1 + CAS_SHARD_DEPTH.
Definition list_store (fuel : nat) (root : Path) (classify : Path -> WalkDecision) (max_depth : option nat) :
    option (result WalkError (list Path)) :=
  if os_exists os root then walk fuel root classify max_depth else Some (Ok []).
Definition list_packages (fuel : nat) (fs : FileStructure) := list_store fuel (fs_packages fs) classify_package_dir (Some MAX_WALK_DEPTH).
Definition list_layers (fuel : nat) (fs : FileStructure) := list_store fuel (fs_layers fs) classify_layer_dir (Some MAX_WALK_DEPTH).
Definition list_blobs (fuel : nat) (fs : FileStructure) := list_store fuel (fs_blobs fs) classify_blob_dir (Some MAX_WALK_DEPTH).
Definition list_shims (fuel : nat) (fs : FileStructure) := list_store fuel (fs_shims fs) classify_shim_dir None.
End Walk.

(** ** What the store's walks find

    A walk ends, and lists in path order exactly the directories its classifier calls
    leaves, under the store's root and at a content address. *)

(** ** What the walker finds *)

Section WalkSpec.
Context {Bytes : Type} (os : Os Bytes) (classify : Path -> WalkDecision) (max_depth : option nat).

(** A step of the walk: a directory entry of a directory the walker descends into. *)
Definition walks_to (dir : Path) (depth : nat) (child : Path) : Prop :=
  wd_descend (classify dir) = true /\ match max_depth with Some bound => (depth < bound)%nat | None => True end /\
  exists listing name, os_read_dir os dir = Ok listing /\ In (name, true) (dl_entries listing) /\
    ~ In name (wd_skip_names (classify dir)) /\ child = join dir name.

Inductive finds : Path -> nat -> Path -> Prop :=
| finds_here dir depth : wd_leaf (classify dir) = true -> finds dir depth dir
| finds_below dir depth child p : walks_to dir depth child -> finds child (S depth) p -> finds dir depth p.

Lemma explore_dir_Ok dir depth items children : explore_dir os classify max_depth dir depth = Ok (items, children) ->
  (forall p, In p items <-> p = dir /\ wd_leaf (classify dir) = true) /\
  (forall c n, In (c, n) children <-> n = S depth /\ walks_to dir depth c).
Proof.
  unfold explore_dir, walks_to. intros E. split.
  - assert (items = if wd_leaf (classify dir) then [dir] else []) as ->.
    { by repeat case_match; simplify_eq. }
    intros p. destruct (wd_leaf (classify dir)); simpl; naive_solver.
  - destruct (wd_descend (classify dir)) eqn:Ed; simpl in E.
    2: { injection E as <- <-. intros c n. simpl. naive_solver. }
    destruct (match max_depth with Some bound => (bound <=? depth)%nat | None => false end) eqn:Em.
    { injection E as <- <-. intros c n. simpl. destruct max_depth as [b|]; [|done]. apply Nat.leb_le in Em.
      split; [done|]. intros (_ & _ & ? & _). lia. }
    destruct (os_read_dir os dir) as [listing|]; [|done]. destruct (dl_failed listing); [done|]. injection E as <- <-.
    intros c n. rewrite <- list_elem_of_In, list_elem_of_omap. split.
    + intros ([name d] & Hin & He). apply list_elem_of_In in Hin. simpl in He. destruct d; simpl in He; [|done].
      destruct (existsb (String.eqb name) (wd_skip_names (classify dir))) eqn:Es; [done|]. simpl in He. injection He as <- <-.
      split_and!; [done|done|destruct max_depth; [by apply Nat.leb_gt|done]|]. exists listing, name. split_and!; try done.
      intros Hs. apply not_true_iff_false in Es. apply Es, existsb_exists. exists name. by rewrite String.eqb_refl.
    + intros (-> & _ & _ & l & name & [= <-] & Hin & Hs & ->). exists (name, true). split; [by apply list_elem_of_In|]. simpl.
      destruct (existsb (String.eqb name) (wd_skip_names (classify dir))) eqn:Es; [|done]. exfalso.
      apply existsb_exists in Es as (s & Hin' & ->%String.eqb_eq). done.
Qed.

Lemma explore_all_Ok queue items children : explore_all os classify max_depth queue = Ok (items, children) ->
  (forall p, In p items <-> exists n, In (p, n) queue /\ wd_leaf (classify p) = true) /\
  (forall c n, In (c, n) children <-> exists d m, In (d, m) queue /\ n = S m /\ walks_to d m c).
Proof.
  revert items children. induction queue as [|[d m] queue IH]; intros items children; simpl.
  - intros [= <- <-]. simpl. naive_solver.
  - destruct (explore_dir os classify max_depth d m) as [[i1 c1]|] eqn:E1; [|done].
    destruct (explore_all os classify max_depth queue) as [[i2 c2]|]; [|done]. intros [= <- <-].
    apply explore_dir_Ok in E1 as [Hi Hc]. destruct (IH i2 c2 eq_refl) as [IHi IHc]. split.
    + intros p. rewrite in_app_iff, Hi, IHi. naive_solver.
    + intros c n. rewrite in_app_iff, Hc, IHc. naive_solver.
Qed.

Lemma walk_levels_Ok fuel : forall queue results l, walk_levels os fuel classify max_depth queue results = Some (Ok l) ->
  le_sorted l /\ forall p, In p l <-> In p results \/ exists d n, In (d, n) queue /\ finds d n p.
Proof.
  induction fuel as [|fuel IH]; intros [|[d n] queue] results l; cbn [walk_levels]; try done.
  1,2: intros [= <-]; split; [apply ord_sort_sorted|]; intros p; unfold ord_sort; rewrite sort_by_In; simpl; naive_solver.
  destruct (explore_all os classify max_depth ((d, n) :: queue)) as [[items children]|] eqn:E; [|done].
  apply explore_all_Ok in E as [Hi Hc]. intros Hw. destruct (IH _ _ _ Hw) as [Hs Hl]. split; [done|].
  intros p. rewrite Hl, in_app_iff, Hi. split.
  - intros [[?|(m & Hin & Hleaf)]|(c & m & Hin & Hf)]; [by left|right..].
    + exists p, m. split; [done|by constructor].
    + apply Hc in Hin as (d' & m' & Hin & -> & Hw'). exists d', m'. split; [done|]. by econstructor.
  - intros [?|(d' & m' & Hin & Hf)]; [by do 2 left|]. inversion Hf as [? ? Hleaf|? ? child ? Hstep Hrest]; subst.
    + left. right. eauto.
    + right. exists child, (S m'). split; [|done]. apply Hc. eauto.
Qed.

(** The directories the walk comes to, with their depth. *)
Inductive reaches (root : Path) : Path -> nat -> Prop :=
| reaches_root : reaches root root 0
| reaches_step dir depth child : reaches root dir depth -> walks_to dir depth child -> reaches root child (S depth).

(** A walk whose steps all start above [bound] needs no more than [bound] levels. *)
Lemma walk_levels_total root bound fuel : (forall d m c, reaches root d m -> walks_to d m c -> (m < bound)%nat) ->
  forall queue results depth, (forall d n, In (d, n) queue -> n = depth /\ reaches root d n) ->
  (depth <= bound + 1)%nat -> (bound + 2 <= fuel + depth)%nat ->
  is_Some (walk_levels os fuel classify max_depth queue results).
Proof.
  intros Hb. induction fuel as [|fuel IH]; intros [|[d n] queue] results depth Hq Hd Hf; simpl; [eauto|lia|eauto|].
  destruct (explore_all os classify max_depth ((d, n) :: queue)) as [[items children]|] eqn:E; simpl in E; rewrite E; [|eauto].
  apply (explore_all_Ok ((d, n) :: queue)) in E as [_ Hc].
  destruct children as [|[c m] children]; [destruct fuel; simpl; eauto|].
  assert (depth < bound)%nat as Hlt.
  { destruct (proj1 (Hc c m) (or_introl eq_refl)) as (d' & m' & Hin & _ & Hw). apply Hq in Hin as [-> Hr]. by apply (Hb d' depth c). }
  apply (IH _ _ (S depth)); [|lia|lia]. intros d' n' Hin. apply Hc in Hin as (d'' & m'' & Hin & -> & Hw).
  apply Hq in Hin as [-> Hr]. split; [done|]. by econstructor.
Qed.

Lemma walk_total root bound fuel : (forall d m c, reaches root d m -> walks_to d m c -> (m < bound)%nat) -> (bound + 2 <= fuel)%nat ->
  is_Some (walk os fuel root classify max_depth).
Proof.
  intros Hb Hf. unfold walk. apply (walk_levels_total root bound fuel Hb _ _ 0); [|lia|lia].
  intros d n [[= <- <-]|[]]. split; [done|constructor].
Qed.

Lemma join_under root p c : path_starts_with root p = true -> path_starts_with root (join p c) = true.
Proof.
  unfold join. case_match; [done|]. revert root. induction p as [|x p IH]; intros [|r root]; simpl; try done.
  intros [-> Hp]%andb_prop. simpl. by apply IH.
Qed.
Lemma starts_with_refl p : path_starts_with p p = true.
Proof. induction p as [|x p IH]; simpl; [done|]. by rewrite String.eqb_refl, IH. Qed.

Lemma finds_leaf root dir n p : path_starts_with root dir = true -> finds dir n p ->
  wd_leaf (classify p) = true /\ path_starts_with root p = true.
Proof.
  intros Hr Hf. induction Hf as [d n Hl|d n c p (_ & _ & listing & name & _ & _ & _ & ->) Hf IH]; [done|].
  apply IH. by apply join_under.
Qed.
End WalkSpec.

(** ** The four stores *)

Section Stores.
Context {Bytes : Type} (os : Os Bytes) (fs : FileStructure).

(** The root, the classifier, the depth bound and the listing of each tier. *)
Definition tier_root (t : CasTier) : Path :=
  match t with TierPackage => fs_packages fs | TierLayer => fs_layers fs | TierBlob => fs_blobs fs | TierShim => fs_shims fs end.
Definition tier_classify (t : CasTier) : Path -> WalkDecision :=
  match t with
  | TierPackage => classify_package_dir os
  | TierLayer => classify_layer_dir os
  | TierBlob => classify_blob_dir os
  | TierShim => classify_shim_dir os
  end.
Definition tier_depth (t : CasTier) : option nat := match t with TierShim => None | _ => Some MAX_WALK_DEPTH end.
Definition list_tier (fuel : nat) (t : CasTier) : option (result WalkError (list Path)) :=
  match t with
  | TierPackage => list_packages os fuel fs
  | TierLayer => list_layers os fuel fs
  | TierBlob => list_blobs os fuel fs
  | TierShim => list_shims os fuel fs
  end.

Lemma list_tier_walk fuel t : list_tier fuel t =
  if os_exists os (tier_root t) then walk os fuel (tier_root t) (tier_classify t) (tier_depth t) else Some (Ok []).
Proof. by destruct t. Qed.

Lemma tier_leaf_valid t dir : wd_leaf (tier_classify t dir) = true -> is_valid_cas_path dir = true.
Proof.
  destruct t; simpl; unfold classify_package_dir, classify_layer_dir, classify_blob_dir, classify_shim_dir;
    repeat case_match; simpl; done.
Qed.

(** Shims may lie deeper than a package, their repository's path being part of
    theirs: their walk is as deep as the directories are. *)
Definition shallow (depth : nat) : Prop := forall d m c, reaches os (tier_classify TierShim) None (fs_shims fs) d m ->
  walks_to os (tier_classify TierShim) None d m c -> (m < depth)%nat.

(** C11: a store's listing ends, and is exact: in path order, the directories its
    classifier calls leaves, all of them under the store's root and at a content
    address, so that nothing else of the disk is ever a candidate for removal. *)
Theorem store_listing_exact fuel depth : shallow depth -> (MAX_WALK_DEPTH + depth + 2 <= fuel)%nat -> forall t,
  exists r, list_tier fuel t = Some r /\
  forall l, r = Ok l -> le_sorted l /\
    (forall p, In p l <-> os_exists os (tier_root t) = true /\ finds os (tier_classify t) (tier_depth t) (tier_root t) 0 p) /\
    (forall p, In p l -> is_valid_cas_path p = true /\ path_starts_with (tier_root t) p = true).
Proof.
  intros Hs Hf t. rewrite list_tier_walk. destruct (os_exists os (tier_root t)).
  2: { eexists. split; [done|]. intros l [= <-]. split_and!; [constructor|naive_solver|done]. }
  destruct (walk_total os (tier_classify t) (tier_depth t) (tier_root t) (match t with TierShim => depth | _ => MAX_WALK_DEPTH end) fuel)
    as [r Hr]; [destruct t; try exact Hs; intros d m c _ (_ & Hd & _); exact Hd|destruct t; unfold MAX_WALK_DEPTH, CAS_SHARD_DEPTH in *; lia|].
  exists r. split; [done|]. intros l ->. apply walk_levels_Ok in Hr as [Hl Hx]. split; [done|].
  assert (forall p, In p l <-> finds os (tier_classify t) (tier_depth t) (tier_root t) 0 p) as Hin.
  { intros p. rewrite Hx. simpl. naive_solver. }
  split; [by intros p; rewrite Hin; naive_solver|]. intros p Hp%Hin.
  destruct (finds_leaf os (tier_classify t) (tier_depth t) (tier_root t) _ _ _ (starts_with_refl _) Hp) as [Hleaf ?].
  split; [by eapply tier_leaf_valid|done].
Qed.
End Stores.
