(* ===== verification/Gc.v ===== *)
(** * The garbage collector

    [crates/ocx_package_manager/src/tasks/garbage_collection.rs] and its
    [reachability_graph.rs]: the graph over the four store tiers, the breadth-first
    searches, the attribution of objects to the lock files that hold them, and the
    removal of what no root reaches.  Hash maps and sets are [gmap] and [gset];
    directories scanned concurrently are scanned in order. *)

From stdpp Require Import base decidable list option numbers strings gmap sets relations.
From Stdlib Require Import Lia Ascii.
From S2P Require Import Prelude OMap Text Digest PackageRef Platform Registry Store.
Local Open Scope ocx_scope.
Local Open Scope string_scope.

(** ** Searching *)

(** The queue loop of both searches: what was seen is not expanded again.  [None]
    when the fuel runs out. *)
Fixpoint worklist {A : Type} `{Countable A} (succ : A -> list A) (fuel : nat) (seen : gset A) (queue : list A) : option (gset A) :=
  match queue with
  | [] => Some seen
  | current :: rest =>
      match fuel with
      | O => None
      | S fuel' =>
          if decide (current ∈ seen) then worklist succ fuel' seen rest
          else worklist succ fuel' ({[current]} ∪ seen) (rest ++ succ current)%list
      end
  end.

(** [struct ReachabilityGraph]. *)
Record ReachabilityGraph : Type := mkGraph {
  g_roots : gset Path;
  g_edges : gmap Path (list Path);
  g_all_entries : gmap Path CasTier;
  g_roots_attribution : gmap Path (list Path);
}.

(** [struct ProjectRootDigests], [struct SitePatchRoots]. *)
Record ProjectRootDigests : Type := mkProjectRoots { prd_ocx_lock_path : Path; prd_digests : list PinnedPackageRef }.
Record SitePatchRoots : Type := mkPatchRoots {
  spr_companions : list PinnedPackageRef;
  spr_descriptors : list (string * Digest);
  spr_descriptor_pins : list (string * Digest);
}.

Definition neighbors (edges : gmap Path (list Path)) (p : Path) : list Path := default [] (edges !! p).

(** As many queue steps as there can be: the starts, and every edge once. *)
Definition edge_count (edges : gmap Path (list Path)) : nat := map_fold (fun _ targets n => (length targets + n)%nat) 0%nat edges.

Section Gc.
Context `{U : OciSpec} `{!Codec} (os : Os Bytes).

Definition canonicalize_or_keep (p : Path) : Path :=
  match os_canonicalize os p with Ok canonical => canonical | Err _ => p end.

(** [is_link], then [read_link]. *)
Definition link_target (p : Path) : option Path :=
  if os_is_link os p then match os_read_link os p with Ok target => Some target | Err _ => None end else None.

(** [ReachabilityGraph::bfs], [ReachabilityGraph::reachable]. *)
Definition bfs (g : ReachabilityGraph) (starts : list Path) : option (gset Path) :=
  worklist (neighbors (g_edges g)) (length starts + edge_count (g_edges g)) ∅ (map canonicalize_or_keep starts).
Definition reachable (g : ReachabilityGraph) : option (gset Path) := bfs g (elements (g_roots g)).

(** ** Scanning the file system *)

(** [read_refs]: the links of a refs directory, as entry directories inside the store. *)
Definition read_ref (store_root refs_dir : Path) (entry : string * bool) : option Path :=
  ref_target ← link_target (join refs_dir entry.1);
  entry_dir ← path_parent ref_target;
  let canon := canonicalize_or_keep entry_dir in
  if path_starts_with store_root canon then Some canon else None.
Definition read_refs (refs_dir store_root : Path) : list Path :=
  match os_read_dir os refs_dir with
  | Err _ => []
  | Ok listing => omap (read_ref store_root refs_dir) (dl_entries listing)
  end.

(** [has_live_refs]. *)
Definition has_live_refs (pkg_dir : Path) : bool :=
  let refs_dir := join (join pkg_dir "refs") "symlinks" in
  match os_read_dir os refs_dir with
  | Err _ => false
  | Ok listing =>
      existsb (fun entry : string * bool =>
        negb (String.prefix ".tmp-" entry.1) &&
        match link_target (join refs_dir entry.1) with Some target => os_exists os target | None => false end)
        (dl_entries listing)
  end.

(** The refs directories of a package and of a shim. *)
Definition refs_dir (dir : Path) (kind : string) : Path := join (join dir "refs") kind.

(** The edges of one package. *)
Definition package_edges (fs : FileStructure) (dir : Path) : list Path :=
  (read_refs (refs_dir dir "deps") (canonicalize_or_keep (fs_packages fs)) ++
   read_refs (refs_dir dir "layers") (canonicalize_or_keep (fs_layers fs)) ++
   read_refs (refs_dir dir "blobs") (canonicalize_or_keep (fs_blobs fs)))%list.
Definition shim_edges (fs : FileStructure) (dir : Path) : list Path :=
  read_refs (refs_dir dir "blobs") (canonicalize_or_keep (fs_blobs fs)).

(** [read_manifest_candidate_blob], [index_retention_pairs]. *)
Definition INDEX_MANIFEST_MAX_BYTES : N := 4 * 1024 * 1024.
Definition read_manifest_candidate_blob (path : Path) : option Bytes :=
  match os_len os path with
  | Err _ => None
  | Ok len =>
      if (INDEX_MANIFEST_MAX_BYTES <? len)%N then None
      else match os_read_upto os path (INDEX_MANIFEST_MAX_BYTES + 1) with
           | Err _ => None
           | Ok buf => if (INDEX_MANIFEST_MAX_BYTES <? bytes_len buf)%N then None else Some buf
           end
  end.
Definition index_retention_pairs (data_path blob_dir registry_root : Path) : list (Path * Path) :=
  match read_manifest_candidate_blob data_path ≫= manifest_from_slice with
  | Some (MIndex index) =>
      let index_dir := canonicalize_or_keep blob_dir in
      omap (fun entry =>
        match digest_try_from (en_digest entry) with
        | Ok child => Some (canonicalize_or_keep (join_all registry_root (cas_shard_path child)), index_dir)
        | Err _ => None
        end) (ix_manifests index)
  | _ => []
  end.

(** The pairs of one blob directory, three levels below its registry's. *)
Definition blob_pairs (blob : Path) : list (Path * Path) :=
  match (shard ← path_parent blob; algorithm ← path_parent shard; path_parent algorithm) with
  | None => []
  | Some registry_root => index_retention_pairs (join blob "data") blob registry_root
  end.

(** [add_index_retention_edges]. *)
Definition add_edge (edges : gmap Path (list Path)) (pair : Path * Path) : gmap Path (list Path) :=
  <[pair.1 := (neighbors edges pair.1 ++ [pair.2])%list]> edges.
Definition add_index_retention_edges (blob_dirs : list Path) (edges : gmap Path (list Path)) : gmap Path (list Path) :=
  fold_left add_edge (concat (map blob_pairs blob_dirs)) edges.

(** [extend_lock_pinned_roots]: one tier path, one pin, all projects. *)
Definition root_tier (entries : gmap Path CasTier) (lock : Path) (acc : gset Path * gmap Path (list Path)) (tier_path : Path) :
    gset Path * gmap Path (list Path) :=
  let canonical := canonicalize_or_keep tier_path in
  match entries !! canonical with
  | None => acc
  | Some _ => ({[canonical]} ∪ acc.1, <[canonical := (default [] (acc.2 !! canonical) ++ [lock])%list]> acc.2)
  end.
Definition pinned_tiers (fs : FileStructure) (project_roots : list ProjectRootDigests) : list (Path * Path) :=
  concat (map (fun project =>
    concat (map (fun pinned => [(prd_ocx_lock_path project, package_path fs pinned); (prd_ocx_lock_path project, shim_path fs pinned)])
      (prd_digests project))) project_roots).
Definition extend_lock_pinned_roots (fs : FileStructure) (project_roots : list ProjectRootDigests) (entries : gmap Path CasTier)
    (roots : gset Path) (attribution : gmap Path (list Path)) : gset Path * gmap Path (list Path) :=
  fold_left (fun acc at_ => root_tier entries at_.1 acc at_.2) (pinned_tiers fs project_roots) (roots, attribution).

(** ** Attribution *)

(** The interning of lock paths: the position in the pool, which grows at its end. *)
Fixpoint position (x : Path) (pool : list Path) : option nat :=
  match pool with
  | [] => None
  | y :: rest => if bool_decide (x = y) then Some 0%nat else S <$> position x rest
  end.
Definition intern (pool : list Path) (path : Path) : list Path * nat :=
  match position path pool with
  | Some id => (pool, id)
  | None => ((pool ++ [path])%list, length pool)
  end.
Definition seed_step (acc : list Path * list (Path * nat)) (seed : Path * Path) : list Path * list (Path * nat) :=
  let '(pool, id) := intern acc.1 seed.2 in (pool, (acc.2 ++ [(seed.1, id)])%list).
Definition attribution_seeds (attribution : gmap Path (list Path)) : list (Path * Path) :=
  concat (map (fun kv : Path * list Path => map (pair kv.1) kv.2) (map_to_list attribution)).

(** What each reached pair appends to the attribution, seeds left alone. *)
Definition attribute (seeds : list (Path * nat)) (pool : list Path) (attribution : gmap Path (list Path)) (reached : Path * nat) :
    gmap Path (list Path) :=
  if decide (reached.1 ∈ map fst seeds) then attribution
  else <[reached.1 := (default [] (attribution !! reached.1) ++ [pool !!! reached.2])%list]> attribution.
Definition propagate_attribution (edges : gmap Path (list Path)) (attribution : gmap Path (list Path)) :
    option (gmap Path (list Path)) :=
  let '(pool, seeds) := fold_left seed_step (attribution_seeds attribution) ([], []) in
  propagated ← worklist (fun at_ : Path * nat => map (fun n => (n, at_.2)) (neighbors edges at_.1))
                 (length seeds + length pool * edge_count edges) ∅ seeds;
  Some (fold_left (attribute seeds pool) (elements propagated) attribution).

(** ** Building *)

(** [ReachabilityGraph::build], from the listings of the four stores. *)
Definition scan_package (fs : FileStructure) (g : ReachabilityGraph) (dir : Path) : ReachabilityGraph :=
  let pkg_dir := canonicalize_or_keep dir in
  mkGraph (if has_live_refs pkg_dir then {[pkg_dir]} ∪ g_roots g else g_roots g)
    (<[pkg_dir := package_edges fs dir]> (g_edges g)) (<[pkg_dir := TierPackage]> (g_all_entries g)) (g_roots_attribution g).
Definition scan_entry (tier : CasTier) (g : ReachabilityGraph) (dir : Path) : ReachabilityGraph :=
  mkGraph (g_roots g) (g_edges g) (<[canonicalize_or_keep dir := tier]> (g_all_entries g)) (g_roots_attribution g).
Definition scan_shim (fs : FileStructure) (g : ReachabilityGraph) (dir : Path) : ReachabilityGraph :=
  mkGraph (g_roots g) (<[canonicalize_or_keep dir := shim_edges fs dir]> (g_edges g))
    (<[canonicalize_or_keep dir := TierShim]> (g_all_entries g)) (g_roots_attribution g).
Record StoreListing : Type := mkStoreListing { sl_packages : list Path; sl_layers : list Path; sl_blobs : list Path; sl_shims : list Path }.
Definition scan (fs : FileStructure) (l : StoreListing) : ReachabilityGraph :=
  let g := fold_left (scan_package fs) (sl_packages l) (mkGraph ∅ ∅ ∅ ∅) in
  let g := fold_left (scan_entry TierLayer) (sl_layers l) g in
  let g := fold_left (scan_entry TierBlob) (sl_blobs l) g in
  fold_left (scan_shim fs) (sl_shims l) g.
Definition build_listed (fs : FileStructure) (project_roots : list ProjectRootDigests) (l : StoreListing) : option ReachabilityGraph :=
  let g := scan fs l in
  let '(roots, attribution) := extend_lock_pinned_roots fs project_roots (g_all_entries g) (g_roots g) (g_roots_attribution g) in
  let edges := add_index_retention_edges (sl_blobs l) (g_edges g) in
  attribution' ← (if bool_decide (attribution = ∅) then Some attribution else propagate_attribution edges attribution);
  Some (mkGraph roots edges (g_all_entries g) attribution').

(** The four listings, the first failure ending the build; then the graph. *)
Definition graph_build (fuel : nat) (fs : FileStructure) (project_roots : list ProjectRootDigests) :
    option (result WalkError ReachabilityGraph) :=
  packages ← list_packages os fuel fs;
  layers ← list_layers os fuel fs;
  blobs ← list_blobs os fuel fs;
  shims ← list_shims os fuel fs;
  match packages, layers, blobs, shims with
  | Ok packages, Ok layers, Ok blobs, Ok shims => Ok <$> build_listed fs project_roots (mkStoreListing packages layers blobs shims)
  | Err e, _, _, _ | _, Err e, _, _ | _, _, Err e, _ | _, _, _, Err e => Some (Err e)
  end.

(** ** The collector *)

(** [GarbageCollector::build]: the patch roots, where the store has them. *)
Definition seed_root (g : ReachabilityGraph) (raw_path : Path) : ReachabilityGraph :=
  let canonical := canonicalize_or_keep raw_path in
  match g_all_entries g !! canonical with
  | None => g
  | Some _ => mkGraph ({[canonical]} ∪ g_roots g) (g_edges g) (g_all_entries g) (g_roots_attribution g)
  end.
Definition seed_patch_roots (fs : FileStructure) (patch_roots : SitePatchRoots) (g : ReachabilityGraph) : ReachabilityGraph :=
  let g := fold_left seed_root (map (package_path fs) (spr_companions patch_roots)) g in
  fold_left seed_root (map (fun d => blob_path fs d.1 d.2) (spr_descriptors patch_roots)) g.
Definition collector_build (fuel : nat) (fs : FileStructure) (project_roots : list ProjectRootDigests) (patch_roots : SitePatchRoots) :
    option (result WalkError ReachabilityGraph) :=
  built ← graph_build fuel fs project_roots;
  Some (match built with Ok g => Ok (seed_patch_roots fs patch_roots g) | Err e => Err e end).

(** [unreachable_objects], [orphaned_by_seeds]. *)
Definition unreachable_objects (g : ReachabilityGraph) : option (gset Path) :=
  kept ← reachable g; Some (filter (fun p => p ∉ kept) (dom (g_all_entries g))).
Definition orphaned_by_seeds (g : ReachabilityGraph) (seeds : list Path) : option (gset Path) :=
  with_seeds ← bfs g (elements (g_roots g) ++ seeds);
  without_seeds ← bfs g (List.filter (fun r => negb (bool_decide (r ∈ seeds))) (elements (g_roots g)));
  Some (filter (fun p => p ∈ dom (g_all_entries g)) (with_seeds ∖ without_seeds)).
End Gc.

