(* ===== verification/GcSpec.v ===== *)
(** * What the garbage collector keeps

    The searches compute reachability, and end; and the graph the collector builds
    is exactly the reference relation of the store: so what [ocx clean] removes is
    exactly what no install link, lock file or patch holds. *)

From stdpp Require Import base decidable list option numbers strings gmap sets relations.
From Stdlib Require Import Lia Ascii.
From S2P Require Import Prelude OMap Text Digest PackageRef Platform Registry Store Gc PruneSpec.
Local Open Scope ocx_scope.
Local Open Scope string_scope.

(** ** The queue loop *)

Section Worklist.
Context {A : Type} `{Countable A} (succ : A -> list A).

Definition leads (a b : A) : Prop := b ∈ succ a.

Lemma worklist_sound fuel : forall seen queue found, worklist succ fuel seen queue = Some found ->
  forall x, x ∈ found -> x ∈ seen \/ exists q, q ∈ queue /\ rtc leads q x.
Proof.
  induction fuel as [|fuel IH]; intros seen [|q queue] found; simpl; try done; [by intros [= ->]; auto..|].
  case_decide as Hq; intros Hw x Hx; destruct (IH _ _ _ Hw x Hx) as [Hs|(q' & Hq' & Hr)].
  - by left.
  - right. exists q'. set_solver.
  - apply elem_of_union in Hs as [->%elem_of_singleton|?]; [|by left]. right. exists q. split; [set_solver|reflexivity].
  - right. apply elem_of_app in Hq' as [?|Hsucc]; [exists q'; set_solver|].
    exists q. split; [set_solver|]. by eapply rtc_l.
Qed.

Lemma worklist_closed fuel : forall seen queue found, worklist succ fuel seen queue = Some found ->
  (forall a b, a ∈ seen -> leads a b -> b ∈ seen \/ b ∈ queue) ->
  (forall x, x ∈ seen \/ x ∈ queue -> x ∈ found) /\ (forall a b, a ∈ found -> leads a b -> b ∈ found).
Proof.
  induction fuel as [|fuel IH]; intros seen [|q queue] found; simpl; try done; [intros [= ->] Hc; set_solver..|].
  case_decide as Hq; intros Hw Hc.
  - destruct (IH _ _ _ Hw) as [H1 H2]; [|set_solver]. intros a b Ha Hab. destruct (Hc a b Ha Hab) as [?|Hb]; [by left|set_solver].
  - destruct (IH _ _ _ Hw) as [H1 H2].
    + intros a b Ha Hab. apply elem_of_union in Ha as [->%elem_of_singleton|Ha]; [right; set_solver|].
      destruct (Hc a b Ha Hab) as [?|Hb]; [left; set_solver|]. apply elem_of_cons in Hb as [->|?]; [left|right]; set_solver.
    + split; [set_solver|done].
Qed.

Lemma worklist_exact fuel queue found : worklist succ fuel ∅ queue = Some found ->
  forall x, x ∈ found <-> exists q, q ∈ queue /\ rtc leads q x.
Proof.
  intros Hw x. split.
  - intros Hx. destruct (worklist_sound _ _ _ _ Hw x Hx) as [?|?]; [set_solver|done].
  - destruct (worklist_closed _ _ _ _ Hw) as [H1 H2]; [set_solver|]. intros (q & Hq & Hr).
    assert (q ∈ found) as Hf by set_solver. clear Hq. induction Hr as [|a b c Hab _ IH]; [done|]. apply IH. by eapply H2.
Qed.

(** Steps left: the queue, and the successors of every node not yet seen. *)
Definition pending (nodes : list A) (seen : gset A) : nat :=
  sum_list_with (fun a => if decide (a ∈ seen) then 0%nat else length (succ a)) nodes.

Lemma pending_le nodes seen a : (pending nodes ({[a]} ∪ seen) <= pending nodes seen)%nat.
Proof.
  unfold pending. induction nodes as [|b nodes IH]; simpl; [lia|].
  destruct (decide (b ∈ {[a]} ∪ seen)), (decide (b ∈ seen)); try lia. set_solver.
Qed.

Lemma pending_seen nodes seen a : a ∉ seen -> a ∈ nodes ->
  (length (succ a) + pending nodes ({[a]} ∪ seen) <= pending nodes seen)%nat.
Proof.
  intros Ha. unfold pending. induction nodes as [|b nodes IH]; simpl; [set_solver|]. intros [->|Hb]%elem_of_cons.
  - rewrite (decide_False (P := b ∈ seen)), decide_True by set_solver. pose proof (pending_le nodes seen b) as Hle. unfold pending in Hle. lia.
  - specialize (IH Hb). destruct (decide (b ∈ {[a]} ∪ seen)), (decide (b ∈ seen)); try lia. set_solver.
Qed.

Lemma pending_empty nodes : pending nodes ∅ = sum_list_with (length ∘ succ) nodes.
Proof.
  unfold pending. induction nodes as [|a nodes IH]; simpl; [done|].
  destruct (decide (a ∈ (∅ : gset A))) as [Ha|_]; [by apply not_elem_of_empty in Ha|]. by rewrite IH.
Qed.

(** Only the nodes a search can meet count: those of a set closed under [succ]. *)
Lemma worklist_total (met : A -> Prop) nodes fuel :
  (forall a, met a -> succ a <> [] -> a ∈ nodes) -> (forall a b, met a -> leads a b -> met b) -> forall seen queue,
  (forall a, a ∈ queue -> met a) -> (length queue + pending nodes seen <= fuel)%nat -> is_Some (worklist succ fuel seen queue).
Proof.
  intros Hn Hm. induction fuel as [|fuel IH]; intros seen [|q queue] Hq Hf; simpl in *; [eauto|lia|eauto|].
  assert (met q) as Hmq by set_solver.
  case_decide as Hs; apply IH; [set_solver|lia| |].
  - intros a [Ha|Ha]%elem_of_app; [set_solver|by eapply Hm].
  - rewrite length_app. destruct (decide (succ q = [])) as [E|E].
    + pose proof (pending_le nodes seen q). rewrite E. simpl. lia.
    + pose proof (pending_seen nodes seen q Hs (Hn q Hmq E)). lia.
Qed.
End Worklist.

(** ** Reachability in a graph *)

Definition points_to (edges : gmap Path (list Path)) (a b : Path) : Prop := b ∈ neighbors edges a.

Definition keys (edges : gmap Path (list Path)) : list Path := map fst (map_to_list edges).

Lemma edge_count_sum edges : sum_list_with (length ∘ neighbors edges) (keys edges) = edge_count edges.
Proof.
  unfold edge_count, keys. rewrite map_fold_foldr.
  assert (forall l, (forall k v, (k, v) ∈ l -> edges !! k = Some v) -> sum_list_with (length ∘ neighbors edges) (map fst l) =
    foldr (uncurry (fun _ targets n => (length targets + n)%nat)) 0%nat l) as Hl.
  { induction l as [|[k v] l IH]; intros Hk; [done|]. cbn [map fst sum_list_with foldr uncurry compose].
    rewrite IH by (intros ? ? ?; apply Hk; by apply list_elem_of_further).
    unfold neighbors, compose. by rewrite (Hk k v) by apply list_elem_of_here. }
  apply Hl. intros k v. apply elem_of_map_to_list.
Qed.

Lemma neighbors_keys edges p : neighbors edges p <> [] -> p ∈ keys edges.
Proof.
  unfold neighbors. destruct (edges !! p) as [v|] eqn:E; simpl; [|done]. intros _. apply list_elem_of_fmap.
  exists (p, v). split; [done|]. by apply elem_of_map_to_list.
Qed.

(** ** Attribution *)

Lemma position_Some x pool id : position x pool = Some id -> pool !! id = Some x.
Proof.
  revert id. induction pool as [|y pool IH]; intros id; simpl; [done|]. case_bool_decide as E; [by intros [= <-]; subst|].
  destruct (position x pool) as [i|]; [|done]. intros [= <-]. by apply IH.
Qed.
Lemma position_None x pool : position x pool = None -> x ∉ pool.
Proof.
  induction pool as [|y pool IH]; simpl; [intros _; apply not_elem_of_nil|]. case_bool_decide as E; [done|].
  destruct (position x pool) as [i|]; [done|]. intros _. apply not_elem_of_cons. auto.
Qed.

(** Interning keeps the pool free of repetitions, and every seed's lock at its id. *)
Lemma intern_spec pool path pool' id : NoDup pool -> intern pool path = (pool', id) ->
  NoDup pool' /\ pool' !! id = Some path /\ forall i x, pool !! i = Some x -> pool' !! i = Some x.
Proof.
  unfold intern. intros Hd. destruct (position path pool) as [i|] eqn:E; intros [= <- <-].
  - split_and!; [done|by apply position_Some|done].
  - apply position_None in E. split_and!.
    + apply NoDup_app. split_and!; [done| |apply NoDup_singleton]. by intros x Hx ->%list_elem_of_singleton.
    + apply list_lookup_middle. done.
    + intros i x Hi. by apply lookup_app_l_Some.
Qed.

Lemma seed_steps_spec seeds : forall pool ids, NoDup pool -> forall pool' ids',
  fold_left seed_step seeds (pool, ids) = (pool', ids') ->
  NoDup pool' /\ (forall i x, pool !! i = Some x -> pool' !! i = Some x) /\
  exists new, ids' = (ids ++ new)%list /\ Forall2 (fun s i => i.1 = s.1 /\ pool' !! i.2 = Some s.2) seeds new.
Proof.
  induction seeds as [|[p lock] seeds IH]; intros pool ids Hd pool' ids'; simpl.
  - intros [= <- <-]. split_and!; [done|done|]. exists []. by rewrite app_nil_r.
  - unfold seed_step at 2. simpl. destruct (intern pool lock) as [pool1 id] eqn:Ei.
    destruct (intern_spec _ _ _ _ Hd Ei) as (Hd1 & Hid & Hk). intros Hf.
    destruct (IH _ _ Hd1 _ _ Hf) as (Hd' & Hk' & new & -> & HF). split_and!; [done|auto|].
    exists ((p, id) :: new). rewrite <- app_assoc. split; [done|]. constructor; simpl; auto.
Qed.

Lemma attribution_seeds_In attribution p lock :
  (p, lock) ∈ attribution_seeds attribution <-> lock ∈ default [] (attribution !! p).
Proof.
  unfold attribution_seeds. rewrite list_elem_of_In, in_concat. split.
  - intros (x & Hx & Hp). apply in_map_iff in Hx as ([k v] & <- & Hkv). apply list_elem_of_In, elem_of_map_to_list in Hkv.
    apply in_map_iff in Hp as (y & [= -> ->] & Hy). rewrite Hkv. by apply list_elem_of_In.
  - destruct (attribution !! p) as [v|] eqn:E; simpl; [|by rewrite elem_of_nil]. intros Hl. exists (map (pair p) v). split.
    + apply in_map_iff. exists (p, v). split; [done|]. by apply list_elem_of_In, elem_of_map_to_list.
    + apply in_map_iff. exists lock. split; [done|]. by apply list_elem_of_In.
Qed.

(** The search over pairs of a path and a lock id moves the path and keeps the id. *)
Section Propagate.
Context (edges : gmap Path (list Path)).
Definition pair_succ (at_ : Path * nat) : list (Path * nat) := map (fun n => (n, at_.2)) (neighbors edges at_.1).

Lemma pair_leads a b : leads pair_succ a b <-> points_to edges a.1 b.1 /\ b.2 = a.2.
Proof.
  unfold leads, pair_succ. rewrite list_elem_of_fmap. split.
  - by intros (n & -> & Hn).
  - destruct b as [n i]. simpl. intros [Hn ->]. by exists n.
Qed.
Lemma pair_rtc a b : rtc (leads pair_succ) a b <-> rtc (points_to edges) a.1 b.1 /\ b.2 = a.2.
Proof.
  split.
  - induction 1 as [|a c b Hac _ [IH E]]; [done|]. apply pair_leads in Hac as [H1 H2]. split; [by eapply rtc_l|congruence].
  - destruct a as [x i], b as [y j]. simpl. intros [Hr ->]. induction Hr as [|x z y Hxz _ IH]; [done|].
    eapply rtc_l; [|exact IH]. by apply pair_leads.
Qed.

Definition pair_nodes (ids : list nat) : list (Path * nat) := concat (map (fun i => map (fun k => (k, i)) (keys edges)) ids).

Lemma pair_nodes_sum ids : sum_list_with (length ∘ pair_succ) (pair_nodes ids) = (length ids * edge_count edges)%nat.
Proof.
  unfold pair_nodes. induction ids as [|i ids IH]; [done|]. cbn [map concat length]. rewrite sum_list_with_app, IH, <- edge_count_sum.
  change (S (length ids) * ?n)%nat with (n + length ids * n)%nat. f_equal. clear IH. unfold pair_succ.
  induction (keys edges) as [|k ks IH]; [done|]. simpl. by rewrite IH, length_map.
Qed.
Lemma pair_nodes_In ids p i : i ∈ ids -> neighbors edges p <> [] -> (p, i) ∈ pair_nodes ids.
Proof.
  intros Hi Hp%neighbors_keys. apply list_elem_of_In, in_concat. exists (map (fun k => (k, i)) (keys edges)). split.
  - apply in_map_iff. exists i. split; [done|]. by apply list_elem_of_In.
  - apply in_map_iff. exists p. split; [done|]. by apply list_elem_of_In.
Qed.

Lemma pair_search_total (seeds : list (Path * nat)) n : (forall p i, (p, i) ∈ seeds -> (i < n)%nat) ->
  exists found, worklist pair_succ (length seeds + n * edge_count edges) ∅ seeds = Some found /\
  forall p i, (p, i) ∈ found <-> exists root, (root, i) ∈ seeds /\ rtc (points_to edges) root p.
Proof.
  intros Hs. destruct (worklist_total pair_succ (fun a => (a.2 < n)%nat) (pair_nodes (seq 0 n))
    (length seeds + n * edge_count edges)) with (seen := (∅ : gset (Path * nat))) (queue := seeds) as [found Hf].
  - intros [p i] Hi Hne. apply pair_nodes_In; [apply elem_of_seq; simpl in *; lia|].
    unfold pair_succ in Hne. simpl in Hne. intros E. by rewrite E in Hne.
  - intros a b Ha [_ ->]%pair_leads. done.
  - intros [p i]. apply Hs.
  - rewrite pending_empty, pair_nodes_sum, length_seq. done.
  - exists found. split; [done|]. intros p i. rewrite (worklist_exact _ _ _ _ Hf). split.
    + intros ([root j] & Hq & Hr). apply pair_rtc in Hr as [Hr E]. simpl in *. subst. eauto.
    + intros (root & Hq & Hr). exists (root, i). split; [done|]. by apply pair_rtc.
Qed.
End Propagate.

(** What each path is attributed to, once every reached pair is appended. *)
Lemma attribute_all seeds pool found : forall attribution p,
  default [] (fold_left (attribute seeds pool) found attribution !! p) =
  (default [] (attribution !! p) ++
   (if decide (p ∈ map fst seeds) then [] else omap (fun r => if decide (r.1 = p) then Some (pool !!! r.2) else None) found))%list.
Proof.
  induction found as [|[q i] found IH]; intros attribution p; simpl; [by case_decide; rewrite app_nil_r|].
  rewrite IH. unfold attribute. simpl. destruct (decide (q ∈ map fst seeds)) as [Hq|Hq].
  - destruct (decide (p ∈ map fst seeds)) as [Hp|Hp]; [done|]. destruct (decide (q = p)) as [->|]; done.
  - destruct (decide (q = p)) as [->|Hne]; [|by rewrite lookup_insert_ne].
    rewrite lookup_insert_eq. simpl. destruct (decide (p ∈ map fst seeds)); [done|]. by rewrite <- app_assoc.
Qed.

Lemma reached_locks_NoDup (pool : list Path) (found : list (Path * nat)) p : NoDup pool -> NoDup found ->
  (forall q i, (q, i) ∈ found -> (i < length pool)%nat) ->
  NoDup (omap (fun r => if decide (r.1 = p) then Some (pool !!! r.2) else None) found).
Proof.
  intros Hp. induction found as [|[q i] found IH]; intros Hd Hi; simpl; [constructor|]. apply NoDup_cons in Hd as [Hnot Hd].
  assert (NoDup (omap (fun r => if decide (r.1 = p) then Some (pool !!! r.2) else None) found)) as IH'.
  { apply IH; [done|]. intros q' j Hj. apply (Hi q' j). by apply list_elem_of_further. }
  destruct (decide (q = p)) as [->|]; [|done]. apply NoDup_cons. split; [|done].
  intros Hin. apply list_elem_of_omap in Hin as ([q' j] & Hj & E). simpl in E. destruct (decide (q' = p)) as [->|]; [|done].
  injection E as E. assert (j < length pool)%nat as Hlj by (apply (Hi p); by apply list_elem_of_further).
  assert (i < length pool)%nat as Hli by (apply (Hi p); apply list_elem_of_here).
  apply list_lookup_lookup_total_lt in Hlj, Hli. rewrite E in Hlj. rewrite (NoDup_lookup _ _ _ _ Hp Hlj Hli) in Hj. done.
Qed.

(** The interned seeds are the attributed pairs. *)
Lemma seeds_interned attribution pool seeds :
  fold_left seed_step (attribution_seeds attribution) ([], []) = (pool, seeds) ->
  NoDup pool /\
  (forall p i, (p, i) ∈ seeds -> exists lock, pool !! i = Some lock /\ lock ∈ default [] (attribution !! p)) /\
  (forall p lock, lock ∈ default [] (attribution !! p) -> exists i, (p, i) ∈ seeds /\ pool !! i = Some lock).
Proof.
  intros Es. destruct (seed_steps_spec _ _ _ NoDup_nil_2 _ _ Es) as (Hpool & _ & new & -> & HF). simpl. split_and!; [done| |].
  - intros p i [k Hk]%list_elem_of_lookup. destruct (Forall2_lookup_r _ _ _ _ _ HF Hk) as ([q lock] & Hq & Hp & Hl).
    simpl in *. subst. exists lock. split; [done|]. apply attribution_seeds_In. by eapply list_elem_of_lookup_2.
  - intros p lock Hl. apply attribution_seeds_In, list_elem_of_lookup in Hl as [k Hk].
    destruct (Forall2_lookup_l _ _ _ _ _ HF Hk) as ([q i] & Hq & Hp & Hl). simpl in *. subst. exists i. split; [|done].
    by eapply list_elem_of_lookup_2.
Qed.

Lemma propagate_exact edges attribution : exists attribution', propagate_attribution edges attribution = Some attribution' /\
  forall p,
  if decide (default [] (attribution !! p) = []) then
    NoDup (default [] (attribution' !! p)) /\
    forall lock, lock ∈ default [] (attribution' !! p) <->
      exists root, lock ∈ default [] (attribution !! root) /\ rtc (points_to edges) root p
  else default [] (attribution' !! p) = default [] (attribution !! p).
Proof.
  unfold propagate_attribution. destruct (fold_left seed_step (attribution_seeds attribution) ([], [])) as [pool seeds] eqn:Es.
  destruct (seeds_interned _ _ _ Es) as (Hpool & Hseed & Hseed'). simpl.
  destruct (pair_search_total edges seeds (length pool)) as (found & Hf & Hx).
  { intros p i Hi. destruct (Hseed p i Hi) as (lock & Hl & _). by eapply lookup_lt_Some. }
  unfold pair_succ in Hf. rewrite Hf. simpl. eexists. split; [done|]. intros p. rewrite attribute_all.
  destruct (decide (default [] (attribution !! p) = [])) as [E|E].
  - rewrite E. simpl. destruct (decide (p ∈ map fst seeds)) as [Hp|_].
    { apply list_elem_of_fmap in Hp as ([q i] & -> & Hq). destruct (Hseed _ _ Hq) as (lock & _ & Hl). simpl in *.
      rewrite E in Hl. by apply elem_of_nil in Hl. }
    split.
    + apply reached_locks_NoDup; [done|apply NoDup_elements|]. intros q i Hi. apply elem_of_elements, Hx in Hi as (root & Hr & _).
      destruct (Hseed _ _ Hr) as (lock & Hl & _). by eapply lookup_lt_Some.
    + intros lock. rewrite list_elem_of_omap. split.
      * intros ([q i] & Hi & Hl). simpl in Hl. destruct (decide (q = p)) as [->|]; [|done]. injection Hl as <-.
        apply elem_of_elements, Hx in Hi as (root & Hr & Hrtc). destruct (Hseed _ _ Hr) as (lock & Hl & Hin).
        exists root. by rewrite (list_lookup_total_correct _ _ _ Hl).
      * intros (root & Hr & Hrtc). destruct (Hseed' _ _ Hr) as (i & Hi & Hl). exists (p, i). simpl. rewrite decide_True by done.
        rewrite (list_lookup_total_correct _ _ _ Hl). split; [|done]. apply elem_of_elements, Hx. eauto.
  - destruct (decide (p ∈ map fst seeds)) as [_|Hp]; [by rewrite app_nil_r|]. exfalso. apply Hp.
    destruct (default [] (attribution !! p)) as [|lock rest] eqn:Ed; [done|].
    destruct (Hseed' p lock) as (i & Hi & _); [rewrite Ed; apply list_elem_of_here|]. apply list_elem_of_fmap. by exists (p, i).
Qed.

Section Bfs.
Context `{U : OciSpec} `{!Codec} (os : Os Bytes).

Lemma bfs_exact g starts : exists found, bfs os g starts = Some found /\
  forall x, x ∈ found <-> exists s, s ∈ starts /\ rtc (points_to (g_edges g)) (canonicalize_or_keep os s) x.
Proof.
  unfold bfs. destruct (worklist_total (neighbors (g_edges g)) (fun _ => True) (keys (g_edges g))
    (length starts + edge_count (g_edges g)) (fun p _ => neighbors_keys _ p) (fun _ _ _ _ => I) ∅ (map (canonicalize_or_keep os) starts)) as [found Hf].
  { done. }
  { rewrite length_map, pending_empty, edge_count_sum. lia. }
  exists found. split; [done|]. intros x. rewrite (worklist_exact _ _ _ _ Hf). split.
  - intros (q & Hq & Hr). apply list_elem_of_fmap in Hq as (s & -> & Hs). eauto.
  - intros (s & Hs & Hr). eexists. split; [|exact Hr]. apply list_elem_of_fmap. eauto.
Qed.
End Bfs.

(** ** The graph is the reference relation of the store *)

(** What the operating system promises: the canonical form of a path is canonical. *)
Class OsLaws {Bytes : Type} (os : Os Bytes) : Prop := {
  os_canonical : forall p q, os_canonicalize os p = Ok q -> os_canonicalize os q = Ok q;
}.

Section Graph.
Context `{U : OciSpec} `{!Codec} (os : Os Bytes) (fs : FileStructure) (l : StoreListing).
Abbreviation canon := (canonicalize_or_keep os).

(** A directory of references holds a link to something inside an object of a store. *)
Definition ref_link (refs store_root p : Path) : Prop :=
  exists listing name d target entry_dir, os_read_dir os refs = Ok listing /\ (name, d) ∈ dl_entries listing /\
  os_is_link os (join refs name) = true /\ os_read_link os (join refs name) = Ok target /\ path_parent target = Some entry_dir /\
  p = canon entry_dir /\ path_starts_with store_root p = true.

(** A blob is an index of at most four mebibytes that lists a digest as an entry. *)
Definition index_lists (dir : Path) (child : Digest) : Prop :=
  exists len buf index entry, os_len os (join dir "data") = Ok len /\ (len <= INDEX_MANIFEST_MAX_BYTES)%N /\
  os_read_upto os (join dir "data") (INDEX_MANIFEST_MAX_BYTES + 1) = Ok buf /\ (bytes_len buf <= INDEX_MANIFEST_MAX_BYTES)%N /\
  manifest_from_slice buf = Some (MIndex index) /\ entry ∈ ix_manifests index /\ digest_try_from (en_digest entry) = Ok child.

(** One stored object refers to another: a package to its dependencies, layers and
    blobs, a shim to its blobs, and a blob to the indexes beside it that list it. *)
Inductive refers : Path -> Path -> Prop :=
| refers_dep dir p : dir ∈ sl_packages l -> ref_link (refs_dir dir "deps") (canon (fs_packages fs)) p -> refers (canon dir) p
| refers_layer dir p : dir ∈ sl_packages l -> ref_link (refs_dir dir "layers") (canon (fs_layers fs)) p -> refers (canon dir) p
| refers_blob dir p : dir ∈ sl_packages l -> ref_link (refs_dir dir "blobs") (canon (fs_blobs fs)) p -> refers (canon dir) p
| refers_shim dir p : dir ∈ sl_shims l -> ref_link (refs_dir dir "blobs") (canon (fs_blobs fs)) p -> refers (canon dir) p
| refers_index dir child shard algorithm registry_root : dir ∈ sl_blobs l ->
    path_parent dir = Some shard -> path_parent shard = Some algorithm -> path_parent algorithm = Some registry_root ->
    index_lists dir child -> refers (canon (join_all registry_root (cas_shard_path child))) (canon dir).

Lemma link_target_Some p target : link_target os p = Some target <-> os_is_link os p = true /\ os_read_link os p = Ok target.
Proof. unfold link_target. destruct (os_is_link os p), (os_read_link os p) as [t|e]; naive_solver. Qed.

Lemma read_refs_In refs root p : p ∈ read_refs os refs root <-> ref_link refs root p.
Proof.
  unfold read_refs, ref_link. destruct (os_read_dir os refs) as [listing|e].
  2: { rewrite elem_of_nil. split; [done|]. by intros (? & ? & ? & ? & ? & ? & _). }
  rewrite list_elem_of_omap. split.
  - intros ([name d] & Hin & E). unfold read_ref in E. simpl in E. destruct (link_target os (join refs name)) as [target|] eqn:Et; [|done].
    apply link_target_Some in Et as [? ?]. simpl in E. destruct (path_parent target) as [entry|] eqn:Ep; [|done]. simpl in E.
    destruct (path_starts_with root (canon entry)) eqn:Es; [|done]. injection E as <-. naive_solver.
  - intros (listing' & name & d & target & entry & [= <-] & Hin & Hl & Hr & Hp & -> & Hs). exists (name, d). split; [done|].
    unfold read_ref. simpl. rewrite (proj2 (link_target_Some (join refs name) target)) by done. simpl. rewrite Hp. simpl. by rewrite Hs.
Qed.

Lemma manifest_candidate_Some path buf : read_manifest_candidate_blob os path = Some buf <->
  exists len, os_len os path = Ok len /\ (len <= INDEX_MANIFEST_MAX_BYTES)%N /\
    os_read_upto os path (INDEX_MANIFEST_MAX_BYTES + 1) = Ok buf /\ (bytes_len buf <= INDEX_MANIFEST_MAX_BYTES)%N.
Proof.
  unfold read_manifest_candidate_blob. destruct (os_len os path) as [len|e]; [|naive_solver].
  destruct (INDEX_MANIFEST_MAX_BYTES <? len)%N eqn:E1; [apply N.ltb_lt in E1|apply N.ltb_ge in E1].
  { split; [done|]. intros (? & [= <-] & ? & _). lia. }
  destruct (os_read_upto os path (INDEX_MANIFEST_MAX_BYTES + 1)) as [buf'|e]; [|naive_solver].
  destruct (INDEX_MANIFEST_MAX_BYTES <? bytes_len buf')%N eqn:E2; [apply N.ltb_lt in E2|apply N.ltb_ge in E2]; [|naive_solver].
  split; [done|]. intros (? & _ & _ & [= <-] & ?). lia.
Qed.

Lemma blob_pairs_In dir a b : (a, b) ∈ blob_pairs os dir <-> exists child shard algorithm registry_root,
  path_parent dir = Some shard /\ path_parent shard = Some algorithm /\ path_parent algorithm = Some registry_root /\
  index_lists dir child /\ a = canon (join_all registry_root (cas_shard_path child)) /\ b = canon dir.
Proof.
  unfold blob_pairs, index_lists. destruct (path_parent dir) as [shard|]; simpl; [|rewrite elem_of_nil; naive_solver].
  destruct (path_parent shard) as [algorithm|] eqn:E1; simpl; [|rewrite elem_of_nil; naive_solver].
  destruct (path_parent algorithm) as [root|] eqn:E2; [|rewrite elem_of_nil; naive_solver]. unfold index_retention_pairs. split.
  - destruct (read_manifest_candidate_blob os (join dir "data")) as [buf|] eqn:Eb; simpl; [|by rewrite elem_of_nil].
    apply manifest_candidate_Some in Eb as (len & ? & ? & ? & ?).
    destruct (manifest_from_slice buf) as [[m|index]|] eqn:Em; try by rewrite elem_of_nil.
    intros (entry & Hin & E)%list_elem_of_omap. destruct (digest_try_from (en_digest entry)) as [child|] eqn:Ed; [|done]. injection E as <- <-.
    exists child, shard, algorithm, root. naive_solver.
  - intros (child & shard' & algorithm' & root' & [= <-] & E1' & E2' & (len & buf & index & entry & ? & ? & ? & ? & Hm & Hin & Hd) & -> & ->).
    rewrite E1 in E1'. injection E1' as <-. rewrite E2 in E2'. injection E2' as <-.
    rewrite (proj2 (manifest_candidate_Some (join dir "data") buf)) by eauto. simpl. rewrite Hm.
    apply list_elem_of_omap. exists entry. by rewrite Hd.
Qed.

(** An install link: not a staging one, and its target exists. *)
Definition install_link (dir : Path) : Prop :=
  exists listing name d target, os_read_dir os (refs_dir dir "symlinks") = Ok listing /\ (name, d) ∈ dl_entries listing /\
  String.prefix ".tmp-" name = false /\ os_is_link os (join (refs_dir dir "symlinks") name) = true /\
  os_read_link os (join (refs_dir dir "symlinks") name) = Ok target /\ os_exists os target = true.

Lemma has_live_refs_link dir : has_live_refs os dir = true <-> install_link dir.
Proof.
  unfold has_live_refs, install_link, refs_dir. destruct (os_read_dir os _) as [listing|e].
  2: { split; [done|]. by intros (? & ? & ? & ? & ? & _). }
  rewrite existsb_exists. split.
  - intros ([name d] & Hin & [Hp Ht]%andb_prop). simpl in *. apply negb_true_iff in Hp.
    destruct (link_target os _) as [target|] eqn:E; [|done]. apply link_target_Some in E as [? ?].
    exists listing, name, d, target. by rewrite list_elem_of_In.
  - intros (listing' & name & d & target & [= <-] & Hin & Hp & Hl & Hr & He). exists (name, d). split; [by apply list_elem_of_In|].
    simpl. by rewrite Hp, (proj2 (link_target_Some _ target)).
Qed.

(** The objects of the store, under their canonical paths. *)
Definition stored : list Path := (sl_packages l ++ sl_layers l ++ sl_blobs l ++ sl_shims l)%list.
Definition is_object (p : Path) : Prop := p ∈ map canon stored.

Lemma elem_of_dom_cons (k p : Path) (t : CasTier) (m : gmap Path CasTier) (dirs : list Path) :
  p ∈ dom (<[k := t]> m) \/ p ∈ dirs <-> p ∈ dom m \/ p ∈ k :: dirs.
Proof. rewrite dom_insert, elem_of_union, elem_of_singleton, elem_of_cons. tauto. Qed.

Lemma scan_packages_spec dirs : forall g,
  let g' := fold_left (scan_package os fs) dirs g in
  (forall p, p ∈ dom (g_all_entries g') <-> p ∈ dom (g_all_entries g) \/ p ∈ map canon dirs) /\
  (forall p, p ∈ g_roots g' <-> p ∈ g_roots g \/ (p ∈ map canon dirs /\ has_live_refs os p = true)) /\
  (forall p, p ∉ map canon dirs -> g_edges g' !! p = g_edges g !! p) /\
  (NoDup (map canon dirs) -> forall dir, dir ∈ dirs -> g_edges g' !! canon dir = Some (package_edges os fs dir)) /\
  g_roots_attribution g' = g_roots_attribution g.
Proof.
  induction dirs as [|dir dirs IH]; intros g; simpl; [split_and!; try done; intros ?; rewrite ?elem_of_nil; try tauto; intros; by rewrite elem_of_nil in *|].
  destruct (IH (scan_package os fs g dir)) as (He & Hr & Hn & Hd & Ha). split_and!.
  - intros p. rewrite He. apply elem_of_dom_cons.
  - intros p. rewrite Hr, elem_of_cons. cbn [scan_package g_roots]. destruct (has_live_refs os (canon dir)) eqn:El.
    + rewrite elem_of_union, elem_of_singleton. naive_solver.
    + split; [tauto|]. intros [?|[[->|?] Hl]]; [tauto| |tauto]. by rewrite El in Hl.
  - intros p [Hp1 Hp2]%not_elem_of_cons. rewrite Hn by done. simpl. by rewrite lookup_insert_ne.
  - intros [Hnot Hdup]%NoDup_cons d [->|Hin]%elem_of_cons; [|by apply Hd].
    rewrite Hn by done. simpl. apply lookup_insert_eq.
  - by rewrite Ha.
Qed.

Lemma scan_entries_spec tier dirs : forall g,
  let g' := fold_left (scan_entry os tier) dirs g in
  (forall p, p ∈ dom (g_all_entries g') <-> p ∈ dom (g_all_entries g) \/ p ∈ map canon dirs) /\
  g_roots g' = g_roots g /\ g_edges g' = g_edges g /\ g_roots_attribution g' = g_roots_attribution g.
Proof.
  induction dirs as [|dir dirs IH]; intros g; simpl; [split_and!; try done; intros ?; rewrite ?elem_of_nil; try tauto; intros; by rewrite elem_of_nil in *|].
  destruct (IH (scan_entry os tier g dir)) as (He & -> & -> & ->). split_and!; try done.
  intros p. rewrite He. apply elem_of_dom_cons.
Qed.

Lemma scan_shims_spec dirs : forall g,
  let g' := fold_left (scan_shim os fs) dirs g in
  (forall p, p ∈ dom (g_all_entries g') <-> p ∈ dom (g_all_entries g) \/ p ∈ map canon dirs) /\
  g_roots g' = g_roots g /\
  (forall p, p ∉ map canon dirs -> g_edges g' !! p = g_edges g !! p) /\
  (NoDup (map canon dirs) -> forall dir, dir ∈ dirs -> g_edges g' !! canon dir = Some (shim_edges os fs dir)) /\
  g_roots_attribution g' = g_roots_attribution g.
Proof.
  induction dirs as [|dir dirs IH]; intros g; simpl; [split_and!; try done; intros ?; rewrite ?elem_of_nil; try tauto; intros; by rewrite elem_of_nil in *|].
  destruct (IH (scan_shim os fs g dir)) as (He & Hr & Hn & Hd & Ha). split_and!.
  - intros p. rewrite He. apply elem_of_dom_cons.
  - by rewrite Hr.
  - intros p [Hp1 Hp2]%not_elem_of_cons. rewrite Hn by done. simpl. by rewrite lookup_insert_ne.
  - intros [Hnot Hdup]%NoDup_cons d [->|Hin]%elem_of_cons; [|by apply Hd].
    rewrite Hn by done. simpl. apply lookup_insert_eq.
  - by rewrite Ha.
Qed.

(** Distinct package and shim directories have distinct canonical paths. *)
Hypothesis (Hdistinct : NoDup (map canon (sl_packages l ++ sl_shims l))).

Lemma scan_spec :
  (forall p, p ∈ dom (g_all_entries (scan os fs l)) <-> is_object p) /\
  (forall p, p ∈ g_roots (scan os fs l) <-> p ∈ map canon (sl_packages l) /\ has_live_refs os p = true) /\
  (forall a b, points_to (g_edges (scan os fs l)) a b <->
     (exists dir, dir ∈ sl_packages l /\ a = canon dir /\ b ∈ package_edges os fs dir) \/
     (exists dir, dir ∈ sl_shims l /\ a = canon dir /\ b ∈ shim_edges os fs dir)) /\
  g_roots_attribution (scan os fs l) = ∅.
Proof.
  unfold scan. rewrite map_app in Hdistinct. apply NoDup_app in Hdistinct as (Hdp & Hdisj & Hds).
  set (g1 := fold_left (scan_package os fs) (sl_packages l) _). set (g2 := fold_left (scan_entry os TierLayer) _ g1).
  set (g3 := fold_left (scan_entry os TierBlob) _ g2).
  destruct (scan_packages_spec (sl_packages l) (mkGraph ∅ ∅ ∅ ∅)) as (He1 & Hr1 & Hn1 & Hd1 & Ha1). fold g1 in He1, Hr1, Hn1, Hd1, Ha1.
  destruct (scan_entries_spec TierLayer (sl_layers l) g1) as (He2 & Hr2 & Hd2 & Ha2). fold g2 in He2, Hr2, Hd2, Ha2.
  destruct (scan_entries_spec TierBlob (sl_blobs l) g2) as (He3 & Hr3 & Hd3 & Ha3). fold g3 in He3, Hr3, Hd3, Ha3.
  destruct (scan_shims_spec (sl_shims l) g3) as (He4 & Hr4 & Hn4 & Hd4 & Ha4). split_and!.
  - intros p. rewrite He4, He3, He2, He1. simpl. unfold is_object, stored. rewrite !map_app. set_solver.
  - intros p. rewrite Hr4, Hr3, Hr2, Hr1. simpl. set_solver.
  - intros a b. unfold points_to, neighbors. destruct (decide (a ∈ map canon (sl_shims l))) as [Hs|Hs].
    + apply list_elem_of_fmap in Hs as (dir & -> & Hdir). rewrite (Hd4 Hds dir Hdir). simpl. split; [eauto 7|].
      intros [(dir' & Hdir' & E & _)|(dir' & Hdir' & E & Hb)].
      * exfalso. apply (Hdisj (canon dir')); apply list_elem_of_fmap; eauto. 
      * pose proof (Hd4 Hds dir' Hdir') as E'. rewrite <- E, (Hd4 Hds dir Hdir) in E'. by injection E' as ->.
    + rewrite (Hn4 a Hs), Hd3, Hd2. destruct (decide (a ∈ map canon (sl_packages l))) as [Hp|Hp].
      * apply list_elem_of_fmap in Hp as (dir & -> & Hdir). rewrite (Hd1 Hdp dir Hdir). simpl. split; [eauto 7|].
        intros [(dir' & Hdir' & E & Hb)|(dir' & Hdir' & E & _)].
        -- pose proof (Hd1 Hdp dir' Hdir') as E'. rewrite <- E, (Hd1 Hdp dir Hdir) in E'. by injection E' as ->.
        -- exfalso. apply Hs. apply list_elem_of_fmap. eauto.
      * rewrite (Hn1 a Hp). simpl. rewrite lookup_empty. split; [simpl; set_solver|].
        intros [(dir & Hdir & -> & _)|(dir & Hdir & -> & _)]; exfalso; [apply Hp|apply Hs]; apply list_elem_of_fmap; eauto.
  - by rewrite Ha4, Ha3, Ha2, Ha1.
Qed.

(** ** Roots and retention edges *)

Lemma add_edges_points edges pairs a b :
  points_to (fold_left add_edge pairs edges) a b <-> points_to edges a b \/ (a, b) ∈ pairs.
Proof.
  revert edges. induction pairs as [|[x y] pairs IH]; intros edges; simpl; [rewrite elem_of_nil; tauto|].
  rewrite IH, elem_of_cons. unfold points_to, add_edge, neighbors at 1. simpl. destruct (decide (a = x)) as [->|Hne].
  - rewrite lookup_insert_eq. simpl. rewrite elem_of_app, list_elem_of_singleton. naive_solver.
  - rewrite lookup_insert_ne by done. unfold neighbors. naive_solver.
Qed.

Lemma retention_points edges a b :
  points_to (add_index_retention_edges os (sl_blobs l) edges) a b <->
  points_to edges a b \/ exists dir, dir ∈ sl_blobs l /\ (a, b) ∈ blob_pairs os dir.
Proof.
  unfold add_index_retention_edges. rewrite add_edges_points, list_elem_of_In, in_concat. apply or_iff_compat_l. split.
  - intros (x & Hx & Hp). apply in_map_iff in Hx as (dir & <- & Hdir). exists dir. split; by apply list_elem_of_In.
  - intros (dir & Hdir & Hp). apply list_elem_of_In in Hdir, Hp. exists (blob_pairs os dir). split; [by apply in_map|done].
Qed.

Lemma scan_retention_refers a b :
  points_to (add_index_retention_edges os (sl_blobs l) (g_edges (scan os fs l))) a b <-> refers a b.
Proof.
  destruct scan_spec as (_ & _ & Hp & _). rewrite retention_points, Hp. unfold package_edges, shim_edges. split.
  - intros [[(dir & ? & -> & Hin)|(dir & ? & -> & Hin)]|(dir & ? & Hin)].
    + rewrite !elem_of_app, !read_refs_In in Hin. destruct Hin as [?|[?|?]]; [by eapply refers_dep|by eapply refers_layer|by eapply refers_blob].
    + rewrite read_refs_In in Hin. by eapply refers_shim.
    + apply blob_pairs_In in Hin as (child & shard & algorithm & root & ? & ? & ? & ? & -> & ->). by eapply refers_index.
  - intros [dir p ? Hr|dir p ? Hr|dir p ? Hr|dir p ? Hr|dir child shard algorithm root ? ? ? ? Hi].
    1-3: left; left; exists dir; split_and!; [done|done|]; rewrite !elem_of_app, !read_refs_In; tauto.
    + left. right. exists dir. by rewrite read_refs_In.
    + right. exists dir. split; [done|]. apply blob_pairs_In. naive_solver.
Qed.

(** The entries a lock file pins, with the tier path of each. *)
Lemma root_tiers_spec entries tiers : forall acc,
  let acc' := fold_left (fun acc at_ => root_tier os entries at_.1 acc at_.2) tiers acc in
  (forall p, p ∈ acc'.1 <-> p ∈ acc.1 \/ (p ∈ dom entries /\ p ∈ map (canon ∘ snd) tiers)) /\
  (forall p, default [] (acc'.2 !! p) =
     (default [] (acc.2 !! p) ++ (if decide (p ∈ dom entries) then omap (fun at_ => if decide (canon at_.2 = p) then Some at_.1 else None) tiers else []))%list).
Proof.
  induction tiers as [|[lock tier] tiers IH]; intros acc; simpl.
  - split; intros p; [rewrite elem_of_nil; tauto|]. by case_decide; rewrite app_nil_r.
  - destruct (IH (root_tier os entries lock acc tier)) as [Hr Ha]. clear IH. split; intros p.
    + rewrite Hr, elem_of_cons. simpl. unfold root_tier. destruct (entries !! canon tier) eqn:E; simpl.
      * rewrite elem_of_union, elem_of_singleton. assert (canon tier ∈ dom entries) by (apply elem_of_dom; eauto). naive_solver.
      * assert (canon tier ∉ dom entries) by by apply not_elem_of_dom. naive_solver.
    + rewrite Ha. clear Hr Ha. unfold root_tier. destruct (entries !! canon tier) eqn:E; simpl.
      * destruct (decide (canon tier = p)) as [<-|Hne].
        -- rewrite lookup_insert_eq. simpl.
           destruct (decide (canon tier ∈ dom entries)) as [_|Hd]; [by rewrite <- app_assoc|]. apply not_elem_of_dom in Hd. congruence.
        -- by rewrite lookup_insert_ne.
      * destruct (decide (canon tier = p)) as [<-|Hne]; [|done].
        destruct (decide (canon tier ∈ dom entries)) as [[t Ht]%elem_of_dom|_]; [congruence|done].
Qed.

(** ** The built graph *)

Context (project_roots : list ProjectRootDigests).

(** A lock file pins a stored object: as a package, or as a shim. *)
Definition pins (lock p : Path) : Prop :=
  is_object p /\ exists project pinned, project ∈ project_roots /\ pinned ∈ prd_digests project /\
  lock = prd_ocx_lock_path project /\ (p = canon (package_path fs pinned) \/ p = canon (shim_path fs pinned)).

Lemma pinned_tiers_In lock tier : (lock, tier) ∈ pinned_tiers fs project_roots <->
  exists project pinned, project ∈ project_roots /\ pinned ∈ prd_digests project /\ lock = prd_ocx_lock_path project /\
  (tier = package_path fs pinned \/ tier = shim_path fs pinned).
Proof.
  unfold pinned_tiers. rewrite list_elem_of_In, in_concat. split.
  - intros (x & Hx & Hin). apply in_map_iff in Hx as (project & <- & Hproject). apply in_concat in Hin as (y & Hy & Hin).
    apply in_map_iff in Hy as (pinned & <- & Hpinned). exists project, pinned. rewrite !list_elem_of_In.
    destruct Hin as [[= <- <-]|[[= <- <-]|[]]]; auto.
  - intros (project & pinned & Hproject & Hpinned & -> & Ht). apply list_elem_of_In in Hproject, Hpinned. eexists.
    split; [apply in_map_iff; exists project; by split|]. apply in_concat. eexists.
    split; [apply in_map_iff; exists pinned; by split|]. destruct Ht as [->| ->]; [by left|by right; left].
Qed.

(** The locks pinning an object, in the order of the projects and of their pins. *)
Definition pinning_locks (p : Path) : list Path :=
  if decide (is_object p)
  then omap (fun at_ => if decide (canon at_.2 = p) then Some at_.1 else None) (pinned_tiers fs project_roots) else [].

Lemma pinning_locks_In lock p : lock ∈ pinning_locks p <-> pins lock p.
Proof.
  unfold pinning_locks, pins. destruct (decide (is_object p)) as [Ho|Ho]; [|rewrite elem_of_nil; tauto].
  rewrite list_elem_of_omap. split.
  - intros ([lock' tier] & Hin & E). simpl in E. destruct (decide (canon tier = p)) as [<-|]; [|done]. injection E as <-.
    apply pinned_tiers_In in Hin as (project & pinned & ? & ? & -> & Ht). split; [done|]. exists project, pinned. naive_solver.
  - intros (_ & project & pinned & Hproject & Hpinned & -> & Ht).
    assert (exists tier, p = canon tier /\ (tier = package_path fs pinned \/ tier = shim_path fs pinned)) as (tier & -> & Htier) by naive_solver.
    exists (prd_ocx_lock_path project, tier). split; [|simpl; by rewrite decide_True].
    apply pinned_tiers_In. by exists project, pinned.
Qed.

(** The locks a held object is attributed to: those that pin it or, if none does,
    those from whose pins it is reached, each once. *)
Definition attributes (attribution : gmap Path (list Path)) : Prop := forall p,
  ((exists lock, pins lock p) -> forall lock, lock ∈ default [] (attribution !! p) <-> pins lock p) /\
  (~ (exists lock, pins lock p) -> NoDup (default [] (attribution !! p)) /\
   forall lock, lock ∈ default [] (attribution !! p) <-> exists root, pins lock root /\ rtc refers root p).

Lemma points_rtc edges : (forall a b, points_to edges a b <-> refers a b) ->
  forall a b, rtc (points_to edges) a b <-> rtc refers a b.
Proof. intros Hpts a b. split; apply rtc_subrel; intros x y Hxy; by apply Hpts. Qed.

(** Propagating the pins along the edges attributes every object. *)
Lemma propagated_attributes (attribution attribution' : gmap Path (list Path)) :
  (forall p, default [] (attribution !! p) = pinning_locks p) ->
  (forall p, if decide (default [] (attribution !! p) = []) then
     NoDup (default [] (attribution' !! p)) /\
     forall lock, lock ∈ default [] (attribution' !! p) <-> exists root, lock ∈ default [] (attribution !! root) /\
       rtc (points_to (add_index_retention_edges os (sl_blobs l) (g_edges (scan os fs l)))) root p
   else default [] (attribution' !! p) = default [] (attribution !! p)) -> attributes attribution'.
Proof.
  intros Hpin Hx p. specialize (Hx p). rewrite Hpin in Hx. destruct (decide (pinning_locks p = [])) as [E|E].
  - split; [intros [lock Hl%pinning_locks_In]; rewrite E in Hl; by apply elem_of_nil in Hl|]. intros _.
    destruct Hx as [Hd Hx]. split; [done|]. intros lock. rewrite Hx.
    setoid_rewrite Hpin. setoid_rewrite pinning_locks_In. by setoid_rewrite (points_rtc _ scan_retention_refers).
  - split; [intros _ lock; by rewrite Hx, pinning_locks_In|]. intros Hnone. destruct (pinning_locks p) as [|lock rest] eqn:Ep; [done|].
    exfalso. apply Hnone. exists lock. apply pinning_locks_In. rewrite Ep. apply list_elem_of_here.
Qed.

Lemma build_listed_spec : exists g, build_listed os fs project_roots l = Some g /\
  (forall p, p ∈ dom (g_all_entries g) <-> is_object p) /\
  (forall p, p ∈ g_roots g <-> (p ∈ map canon (sl_packages l) /\ install_link p) \/ exists lock, pins lock p) /\
  (forall a b, points_to (g_edges g) a b <-> refers a b) /\ attributes (g_roots_attribution g).
Proof.
  destruct scan_spec as (He & Hr & _ & Ha). unfold build_listed.
  destruct (root_tiers_spec (g_all_entries (scan os fs l)) (pinned_tiers fs project_roots)
    (g_roots (scan os fs l), g_roots_attribution (scan os fs l))) as [Hroots Hattr].
  unfold extend_lock_pinned_roots. destruct (fold_left _ _ _) as [roots attribution]. simpl in Hroots, Hattr.
  assert (forall p, default [] (attribution !! p) = pinning_locks p) as Hpin.
  { intros p. rewrite Hattr, Ha, lookup_empty. unfold pinning_locks. simpl.
    destruct (decide (p ∈ _)) as [Hd|Hd], (decide (is_object p)) as [Ho|Ho]; try done; by apply He in Hd || by apply He in Ho. }
  destruct (propagate_exact (add_index_retention_edges os (sl_blobs l) (g_edges (scan os fs l))) attribution) as (attribution' & Hp & Hx).
  assert (exists attribution'', (if bool_decide (attribution = ∅) then Some attribution else
    propagate_attribution (add_index_retention_edges os (sl_blobs l) (g_edges (scan os fs l))) attribution) = Some attribution'' /\
    attributes attribution'') as (attribution'' & -> & Hattributes).
  { case_bool_decide as E.
    - exists attribution. split; [done|]. assert (forall lock p, ~ pins lock p) as Hnone.
      { intros lock p Hl%pinning_locks_In. rewrite <- Hpin, E, lookup_empty in Hl. by apply elem_of_nil in Hl. }
      intros p. rewrite E, lookup_empty. split; [intros [? ?]; naive_solver|]. intros _. split; [constructor|].
      intros lock. simpl. rewrite elem_of_nil. naive_solver.
    - exists attribution'. split; [done|]. by apply (propagated_attributes attribution). }
  eexists. split; [reflexivity|]. simpl. split_and!; [done| |apply scan_retention_refers|done].
  intros p. rewrite Hroots, Hr, He, has_live_refs_link. apply or_iff_compat_l. unfold pins. rewrite list_elem_of_fmap. split.
  - intros (Ho & [lock tier] & -> & Hin). simpl in *. exists lock. apply pinned_tiers_In in Hin as (project & pinned & ? & ? & -> & Ht).
    split; [done|]. exists project, pinned. naive_solver.
  - intros (lock & Ho & project & pinned & ? & ? & -> & Ht). split; [done|].
    assert (exists tier, p = canon tier /\ (tier = package_path fs pinned \/ tier = shim_path fs pinned)) as (tier & -> & Htier) by naive_solver.
    exists (prd_ocx_lock_path project, tier). split; [done|]. apply pinned_tiers_In. by exists project, pinned.
Qed.

(** ** What is held *)

Context (patch_roots : SitePatchRoots).

(** The roots: a package an install link points at, an object a lock file pins, a
    patch companion or descriptor in the store. *)
Inductive held : Path -> Prop :=
| held_install dir : dir ∈ sl_packages l -> install_link (canon dir) -> held (canon dir)
| held_lock lock p : pins lock p -> held p
| held_companion pinned : pinned ∈ spr_companions patch_roots ->
    is_object (canon (package_path fs pinned)) -> held (canon (package_path fs pinned))
| held_descriptor registry digest : (registry, digest) ∈ spr_descriptors patch_roots ->
    is_object (canon (blob_path fs registry digest)) -> held (canon (blob_path fs registry digest)).

(** An object is kept when some root leads to it. *)
Definition kept (p : Path) : Prop := exists root, held root /\ rtc refers root p.

Lemma seed_roots_spec paths : forall g, let g' := fold_left (seed_root os) paths g in
  g_edges g' = g_edges g /\ g_all_entries g' = g_all_entries g /\ g_roots_attribution g' = g_roots_attribution g /\
  forall p, p ∈ g_roots g' <-> p ∈ g_roots g \/ (p ∈ dom (g_all_entries g) /\ p ∈ map canon paths).
Proof.
  induction paths as [|path paths IH]; intros g; simpl; [split_and!; try done; intros p; rewrite elem_of_nil; tauto|].
  destruct (IH (seed_root os g path)) as (-> & -> & -> & Hr). clear IH. unfold seed_root in *.
  destruct (g_all_entries g !! canon path) eqn:E; simpl in *; split_and!; try done; intros p; rewrite Hr, elem_of_cons.
  - rewrite elem_of_union, elem_of_singleton. assert (canon path ∈ dom (g_all_entries g)) by (apply elem_of_dom; eauto). naive_solver.
  - assert (canon path ∉ dom (g_all_entries g)) by by apply not_elem_of_dom. naive_solver.
Qed.

Lemma collector_spec : exists g, build_listed os fs project_roots l = Some g /\
  let c := seed_patch_roots os fs patch_roots g in
  (forall p, p ∈ dom (g_all_entries c) <-> is_object p) /\ (forall p, p ∈ g_roots c <-> held p) /\
  (forall a b, points_to (g_edges c) a b <-> refers a b) /\ attributes (g_roots_attribution c).
Proof.
  destruct build_listed_spec as (g & Hb & He & Hr & Hp & Ha). exists g. split; [done|]. unfold seed_patch_roots.
  destruct (seed_roots_spec (map (package_path fs) (spr_companions patch_roots)) g) as (E1 & E2 & E3 & Hr1).
  set (g1 := fold_left _ (map (package_path fs) _) _) in *.
  destruct (seed_roots_spec (map (fun d => blob_path fs d.1 d.2) (spr_descriptors patch_roots)) g1) as (F1 & F2 & F3 & Hr2).
  simpl. rewrite F1, F2, F3, E1, E2, E3. split_and!; try done. intros p. rewrite Hr2, Hr1, E2, Hr, He, !map_map, !list_elem_of_fmap. split.
  - intros [[[[(dir & -> & Hdir) Hl]|(lock & Hl)]|(Ho & pinned & -> & Hin)]|(Ho & [r d] & -> & Hin)].
    + by apply held_install.
    + by eapply held_lock.
    + by apply held_companion.
    + by apply held_descriptor.
  - intros [dir Hdir Hl|lock q Hl|pinned Hin Ho|r d Hin Ho].
    + left. left. left. eauto.
    + left. left. right. eauto.
    + left. right. eauto.
    + right. split; [done|]. by exists (r, d).
Qed.
End Graph.
