(* ===== verification/Clean.v ===== *)
(** * Cleaning the store

    [crates/ocx_package_manager/src/tasks/clean.rs] and [purge.rs], with the project
    ledger they read ([crates/ocx_project/src/registry.rs]) and the removals of
    [garbage_collection.rs]: which roots a run trusts, what it deletes, and what it
    leaves alone when it cannot tell.

    The run changes the disk: [view] is what the operating system shows of it, and
    the removals are its state changes.  Directory names are taken to be text, and
    tasks spawned together run in order. *)

From stdpp Require Import base decidable list option numbers strings gmap sets.
From Stdlib Require Import Lia Ascii.
From S2P Require Import Prelude OMap Text Digest PackageRef Platform Registry Store Gc.
Local Open Scope ocx_scope.
Local Open Scope string_scope.

(** ** Data *)

(** [struct Repository], [pin_untagged]; [struct LockedTool]. *)
Record Repository : Type := mkRepository { rp_registry : string; rp_repository : string }.
Definition pin_untagged (r : Repository) (digest : Digest) : PinnedPackageRef :=
  mkPinned (rp_registry r) (rp_repository r) None digest.
Record LockedTool : Type := mkLockedTool {
  lt_name : string;
  lt_group : string;
  lt_repository : Repository;
  lt_declared : option string;
  lt_platforms : list (string * Digest);
}.

(** [struct LoadedLock], [enum LockLoad], [struct ProjectRoots], [enum CollectedRoots]. *)
Record LoadedLock : Type := mkLoadedLock { ll_lock_path : Path; ll_tools : list LockedTool; ll_patch_bases : list PackageRef }.
Inductive LockLoad : Type := Loaded (lock : LoadedLock) | Absent | Indeterminate.
Record ProjectRoots : Type := mkRoots { pro_digests : list ProjectRootDigests; pro_patch_bases : list PackageRef }.
Inductive CollectedRoots : Type := Roots (roots : ProjectRoots) | RetainAll.

(** [enum ProbeResult], [enum DirProbe], [enum SweepReason]. *)
Inductive ProbeResult : Type := ProbeLive (target : Path) | ProbeDead | ProbeUnknown.
Inductive DirProbe : Type := DirPresent | DirAbsent | DirIndeterminate.
Inductive SweepReason : Type := Departed | OcxHome.
#[export] Instance SweepReason_eq_dec : EqDecision SweepReason.
Proof. solve_decision. Defined.

(** [enum StaleEntry], [struct CleanedObject], [struct CleanResult]. *)
Inductive StaleEntry : Type := StaleLocked (dir : Path) | StaleOrphan (dir : Path).
Record CleanedObject : Type := mkCleaned { co_path : Path; co_held_by : list Path }.
Record CleanResult : Type := mkClean { cr_objects : list CleanedObject; cr_temp : list Path; cr_consent : list Path }.

(** [enum RootSet], [struct PurgeUnrooted], [struct UnrootedPaths]. *)
Inductive RootSet : Type := RootsDeterminate | RootsIndeterminate.
Record PurgeUnrooted : Type := mkPurged { pu_removed : list Path; pu_retained : list PinnedPackageRef; pu_root_set : RootSet }.
Record UnrootedPaths : Type := mkUnrooted { up_removed : list Path; up_held : list bool }.

(** [crate::Error] as far as these tasks raise it.  [FuelExhausted] is the walk's. *)
Inductive CleanError : Type :=
| InternalFile (path : Path) (cause : OsError)
| StoreWalk (error : WalkError)
| RegistryIo (path : Path) (cause : OsError)
| PatchRootsFailed
| TempFailed
| FuelExhausted.

(** [struct ConsentStamp]; the instant it was written as a number. *)
Record ConsentStamp : Type := mkStamp { cs_v : N; cs_project_dir : Path; cs_sources : list string; cs_stamped_at : Z }.

(** What a run needs of the project files, the patch tier and the temp store. *)
Class ProjectFiles (Bytes : Type) := {
  ProjectLock : Type;
  ProjectConfig : Type;
  lock_tools : ProjectLock -> list LockedTool;
  lock_from_path : Os Bytes -> Path -> result unit (option ProjectLock);
  read_lock_config : Os Bytes -> Path -> result unit (option ProjectConfig);
  lock_bases : ProjectLock -> option ProjectConfig -> list PackageRef;
  stamp_from_slice : Bytes -> option ConsentStamp;
}.

(** The state changes of a run. *)
Record Disk (W Bytes : Type) : Type := mkDisk {
  view : W -> Os Bytes;
  remove_dir_all : Path -> io W OsError unit;
  remove_file : Path -> io W OsError unit;
  remove_link : Path -> io W OsError unit;
  site_patch_roots : list PackageRef -> io W CleanError SitePatchRoots;
  stale_entries : io W CleanError (list StaleEntry);
}.
Arguments view {W Bytes}.
Arguments remove_dir_all {W Bytes}.
Arguments remove_file {W Bytes}.
Arguments remove_link {W Bytes}.
Arguments site_patch_roots {W Bytes}.
Arguments stale_entries {W Bytes}.

Section Clean.
Context `{U : OciSpec} `{!Codec} `{!ProjectFiles Bytes} {W : Type} (disk : Disk W Bytes) (fs : FileStructure) (fuel : nat).

(** A look at the disk. *)
Definition ask {A : Type} (f : Os Bytes -> A) : io W CleanError A := fun w => (Ok (f (view disk w)), w).

(** ** The project ledger *)

(** [probe_live_target], [unknown_root_or_escalate]. *)
Definition probe_live_target (os : Os Bytes) (entry_path : Path) : ProbeResult :=
  if negb (os_is_link os entry_path) then ProbeDead
  else match os_canonicalize os entry_path with
       | Err NotFound => ProbeDead
       | Err OtherError => ProbeUnknown
       | Ok target =>
           match os_try_exists os (join target "ocx.lock") with
           | Ok true => ProbeLive target
           | Ok false => ProbeDead
           | Err _ => ProbeUnknown
           end
       end.
Definition unknown_root_or_escalate (os : Os Bytes) (entry_path : Path) : result CleanError Path :=
  match os_read_link os entry_path with Ok root => Ok root | Err e => Err (RegistryIo entry_path e) end.

(** [ProjectRegistry::list_live], one entry; the second probe decides a prune. *)
Definition live_entry (prune : bool) (projects_dir : Path) (live : list (string * Path)) (file_name : string) :
    io W CleanError (list (string * Path)) :=
  if String.prefix ".tmp-" file_name then io_ret live
  else
    let entry_path := join projects_dir file_name in
    let keep_unknown :=
      let! answer := ask (fun os => unknown_root_or_escalate os entry_path) in
      let! root := io_of answer in
      io_ret (live ++ [(file_name, root)])%list in
    let! probe := ask (fun os => probe_live_target os entry_path) in
    match probe with
    | ProbeLive target => io_ret (live ++ [(file_name, target)])%list
    | ProbeUnknown => keep_unknown
    | ProbeDead =>
        let! again := ask (fun os => probe_live_target os entry_path) in
        match again with
        | ProbeLive target => io_ret (live ++ [(file_name, target)])%list
        | ProbeUnknown => keep_unknown
        | ProbeDead => if negb prune then io_ret live else let! _ := io_try (remove_link disk entry_path) in io_ret live
        end
    end.
Definition list_live (prune : bool) (projects_dir : Path) : io W CleanError (list Path) :=
  let! listing := ask (fun os => os_read_dir os projects_dir) in
  match listing with
  | Err NotFound => io_ret []
  | Err OtherError => io_fail (RegistryIo projects_dir OtherError)
  | Ok entries =>
      if dl_failed entries then io_fail (RegistryIo projects_dir OtherError)
      else
        let! live := io_foldl (live_entry prune projects_dir) [] (map fst (dl_entries entries)) in
        io_ret (map snd (sort_by (fun a b => String.compare a.1 b.1) live))
  end.
Definition live_projects (ocx_home : Path) : io W CleanError (list Path) := list_live true (join ocx_home "projects").

(** ** The roots of the projects *)

(** [leaf_present_in_any_tier], [collect_tool_roots]. *)
Definition leaf_present_in_any_tier (os : Os Bytes) (leaf : PinnedPackageRef) : bool :=
  os_exists os (package_path fs leaf) || os_exists os (shim_path fs leaf).
Definition collect_tool_roots (os : Os Bytes) (tool : LockedTool) : list PinnedPackageRef :=
  List.filter (leaf_present_in_any_tier os) (map (fun leaf => pin_untagged (lt_repository tool) leaf.2) (lt_platforms tool)).

(** The load of one lock, and of all: one that cannot be read decides the run. *)
Definition load_lock (os : Os Bytes) (lock_path : Path) : LockLoad :=
  match lock_from_path os lock_path with
  | Ok (Some lock) =>
      match read_lock_config os lock_path with
      | Ok config => Loaded (mkLoadedLock lock_path (lock_tools lock) (lock_bases lock config))
      | Err _ => Indeterminate
      end
  | Ok None => Absent
  | Err _ => Indeterminate
  end.
Fixpoint gather_locks (loads : list LockLoad) : option (list LoadedLock) :=
  match loads with
  | [] => Some []
  | Loaded lock :: rest => cons lock <$> gather_locks rest
  | Absent :: rest => gather_locks rest
  | Indeterminate :: _ => None
  end.

(** The digests of one lock, its tools by group and name. *)
Definition lock_digests (os : Os Bytes) (lock : LoadedLock) : list PinnedPackageRef :=
  concat (map snd (sort_by (fun a b => pair_cmp String.compare String.compare a.1 b.1)
    (map (fun tool => ((lt_group tool, lt_name tool), collect_tool_roots os tool)) (ll_tools lock)))).
Definition roots_of_locks (os : Os Bytes) (locks : list LoadedLock) : ProjectRoots :=
  mkRoots (sort_by (fun a b => ord_cmp (prd_ocx_lock_path a) (prd_ocx_lock_path b))
             (map (fun lock => mkProjectRoots (ll_lock_path lock) (lock_digests os lock)) locks))
          (concat (map ll_patch_bases locks)).

(** [collect_project_roots]: the legacy ledger dropped, then every lock loaded. *)
Definition drop_legacy (ocx_home : Path) : io W CleanError unit :=
  let legacy_json := join ocx_home "projects.json" in
  let legacy_lock := join ocx_home ".projects.lock" in
  let! legacy_present := ask (fun os => os_exists os legacy_json || os_exists os legacy_lock) in
  if legacy_present then
    let! _ := io_try (remove_file disk legacy_json) in
    let! _ := io_try (remove_file disk legacy_lock) in
    io_ret tt
  else io_ret tt.
Definition lock_entries (ocx_home : Path) (project_dirs : list Path) : list Path :=
  (map (fun dir => join dir "ocx.lock") project_dirs ++ [join ocx_home "ocx.lock"])%list.
Definition collect_project_roots (ocx_home : Path) : io W CleanError CollectedRoots :=
  let! _ := drop_legacy ocx_home in
  let! project_dirs := live_projects ocx_home in
  ask (fun os =>
    match gather_locks (map (load_lock os) (lock_entries ocx_home project_dirs)) with
    | Some locks => Roots (roots_of_locks os locks)
    | None => RetainAll
    end).

(** ** Removal *)

(** [GarbageCollector::delete_objects], its loop over the sorted targets. *)
Definition delete_target (dry_run : bool) (removed : list Path) (target : Path) : io W CleanError (list Path) :=
  if dry_run then io_ret (removed ++ [target])%list
  else
    let! answer := io_try (remove_dir_all disk target) in
    match answer with
    | Ok _ | Err NotFound => io_ret (removed ++ [target])%list
    | Err OtherError => io_fail (InternalFile target OtherError)
    end.
Definition delete_objects (targets : gset Path) (dry_run : bool) : io W CleanError (list Path) :=
  if bool_decide (targets = ∅) then io_ret []
  else io_foldl (delete_target dry_run) [] (ord_sort (elements targets)).

(** The collector over the disk as it is, and its searches. *)
Definition gc_build (project_roots : list ProjectRootDigests) (patch_roots : SitePatchRoots) : io W CleanError ReachabilityGraph :=
  let! built := ask (fun os => collector_build os fuel fs project_roots patch_roots) in
  io_of (match built with Some (Ok g) => Ok g | Some (Err e) => Err (StoreWalk e) | None => Err FuelExhausted end).
Definition searched (found : Os Bytes -> option (gset Path)) : io W CleanError (gset Path) :=
  let! answer := ask found in io_of (match answer with Some s => Ok s | None => Err FuelExhausted end).

(** [GarbageCollector::purge]. *)
Definition purge (g : ReachabilityGraph) (obj_dirs : list Path) : io W CleanError (list Path) :=
  let! targets := searched (fun os => orphaned_by_seeds os g obj_dirs) in delete_objects targets false.

(** [remove_stale_dir], [clean_temp]. *)
Definition remove_stale_dir (dir_path : Path) (dry_run : bool) : io W CleanError unit :=
  let! present := ask (fun os => os_exists os dir_path) in
  if negb dry_run && present then io_map_err (InternalFile dir_path) (remove_dir_all disk dir_path) else io_ret tt.
Definition stale_dir (entry : StaleEntry) : Path := match entry with StaleLocked dir | StaleOrphan dir => dir end.
Definition clean_temp (dry_run : bool) : io W CleanError (list Path) :=
  let! stale := stale_entries disk in
  io_foldl (fun removed entry =>
    let! _ := remove_stale_dir (stale_dir entry) dry_run in io_ret (removed ++ [stale_dir entry])%list) [] stale.

(** ** The sweep of consent stamps *)

Definition STAGING_PREFIX : string := ".tmp-".
Definition UNDERSTOOD_STAMP_VERSION : N := 1.

(** [StateStore]'s paths. *)
Definition project_state_root : Path := join (fs_state fs) "projects".
Definition project_state_dir (key : string) : Path := join project_state_root key.
Definition consent_stamp_file (key : string) : Path := join (project_state_dir key) "consent.json".

(** [probe_project_dir], [read_stamped_project_dir]. *)
Definition probe_project_dir (os : Os Bytes) (project_dir : Path) : DirProbe :=
  match os_symlink_is_dir os project_dir with
  | Ok _ => DirPresent
  | Err NotFound => DirAbsent
  | Err OtherError => DirIndeterminate
  end.
Definition read_stamped_project_dir (os : Os Bytes) (stamp_path : Path) : option Path :=
  match os_read os stamp_path with
  | Err _ => None
  | Ok bytes =>
      stamp ← stamp_from_slice bytes;
      if negb (cs_v stamp =? UNDERSTOOD_STAMP_VERSION)%N then None else Some (cs_project_dir stamp)
  end.

(** [sweep_consent_stamps]: one entry of the sweep root, as a candidate or not. *)
Definition ocx_home_of_state : Path := default (fs_state fs) (path_parent (fs_state fs)).
Definition sweep_candidate (os : Os Bytes) (key : string) : option (Path * Path * SweepReason) :=
  if String.prefix STAGING_PREFIX key then None
  else
    let state_dir := project_state_dir key in
    match os_symlink_is_dir os state_dir with
    | Ok true =>
        project_dir ← read_stamped_project_dir os (consent_stamp_file key);
        if match os_same_dir os project_dir ocx_home_of_state with Ok same => same | Err _ => false end
        then Some (state_dir, project_dir, OcxHome)
        else match probe_project_dir os project_dir with
             | DirAbsent => Some (state_dir, project_dir, Departed)
             | DirPresent | DirIndeterminate => None
             end
    | _ => None
    end.
Definition reason_cmp (a b : SweepReason) : comparison :=
  match a, b with Departed, OcxHome => Lt | OcxHome, Departed => Gt | _, _ => Eq end.
Definition candidate_cmp : Path * Path * SweepReason -> Path * Path * SweepReason -> comparison :=
  pair_cmp (pair_cmp ord_cmp ord_cmp) reason_cmp.

(** [remove_departed_stamps]: a departed project is probed again before its removal. *)
Definition remove_stamp (dry_run : bool) (swept : list Path) (candidate : Path * Path * SweepReason) : io W CleanError (list Path) :=
  let '(state_dir, project_dir, reason) := candidate in
  let remove :=
    let! _ := (if dry_run then io_ret tt else io_map_err (InternalFile state_dir) (remove_dir_all disk state_dir)) in
    io_ret (swept ++ [state_dir])%list in
  match reason with
  | OcxHome => remove
  | Departed =>
      let! probe := ask (fun os => probe_project_dir os project_dir) in
      match probe with
      | DirAbsent => remove
      | DirPresent | DirIndeterminate => io_ret swept
      end
  end.
Definition sweep_consent_stamps (dry_run : bool) : io W CleanError (list Path) :=
  let! candidates := ask (fun os =>
    match os_read_dir os project_state_root with
    | Err _ => []
    | Ok entries => sort_by candidate_cmp (omap (sweep_candidate os) (map fst (dl_entries entries)))
    end) in
  io_foldl (remove_stamp dry_run) [] candidates.

(** ** The runs *)

(** The collection of [PackageManager::clean]: the collector built, its targets deleted. *)
Definition collect_garbage (dry_run : bool) (project_roots : list ProjectRootDigests) (patch_roots : SitePatchRoots) :
    io W CleanError (list CleanedObject) :=
  let! garbage_collector := gc_build project_roots patch_roots in
  let! targets := searched (fun os => unreachable_objects os garbage_collector) in
  let! raw_objects := delete_objects targets dry_run in
  let removed := map (fun path => mkCleaned path []) raw_objects in
  io_ret (if dry_run
          then removed ++ map (fun held => mkCleaned held.1 held.2) (map_to_list (g_roots_attribution garbage_collector))
          else removed)%list.

(** [PackageManager::clean]. *)
Definition clean (dry_run force : bool) : io W CleanError CleanResult :=
  let! collected := (if force then io_ret (Roots (mkRoots [] [])) else collect_project_roots (fs_root fs)) in
  match collected with
  | RetainAll => let! temp := clean_temp dry_run in io_ret (mkClean [] temp [])
  | Roots project_roots =>
      let! patch_roots := site_patch_roots disk (pro_patch_bases project_roots) in
      let! objects := collect_garbage dry_run (pro_digests project_roots) patch_roots in
      let! temp := clean_temp dry_run in
      let! consent := sweep_consent_stamps dry_run in
      io_ret (mkClean objects temp consent)
  end.

(** [purge_unrooted_paths]: the paths no root reaches are the seeds of the purge. *)
Definition purge_with_roots (project_roots : list ProjectRootDigests) (patch_roots : SitePatchRoots) (paths : list Path) :
    io W CleanError UnrootedPaths :=
  let! gc := gc_build project_roots patch_roots in
  let! reached := searched (fun os => reachable os gc) in
  let! canonical_paths := ask (fun os => map (canonicalize_or_keep os) paths) in
  let held := map (fun p => bool_decide (p ∈ reached)) canonical_paths in
  let! removed := purge gc (List.filter (fun p => negb (bool_decide (p ∈ reached))) canonical_paths) in
  io_ret (mkUnrooted removed held).
Definition purge_unrooted_paths (paths : list Path) : io W CleanError (option UnrootedPaths) :=
  let! collected := collect_project_roots (fs_root fs) in
  match collected with
  | RetainAll => io_ret None
  | Roots project_roots =>
      let! patch_roots := site_patch_roots disk (pro_patch_bases project_roots) in
      let! purged := purge_with_roots (pro_digests project_roots) patch_roots paths in
      io_ret (Some purged)
  end.

(** [PackageManager::purge_unrooted]. *)
Definition purge_unrooted (identifiers : list PinnedPackageRef) : io W CleanError PurgeUnrooted :=
  let! outcome := purge_unrooted_paths (map (package_path fs) identifiers) in
  io_ret (match outcome with
          | None => mkPurged [] identifiers RootsIndeterminate
          | Some purged =>
              mkPurged (up_removed purged) (map fst (List.filter snd (zip identifiers (up_held purged)))) RootsDeterminate
          end).

(** [PackageManager::purge_unpinned], over the tools of the two locks. *)
Definition pinned (tools : list LockedTool) : list PinnedPackageRef :=
  concat (map (fun tool => map (fun leaf => pin_untagged (lt_repository tool) leaf.2) (lt_platforms tool)) tools).
Definition dropped_pins (os : Os Bytes) (previous next : list LockedTool) : list PinnedPackageRef :=
  let kept := map (package_path fs) (pinned next) in
  fold_left (fun dropped identifier =>
    let path := package_path fs identifier in
    if negb (bool_decide (path ∈ kept)) && negb (bool_decide (identifier ∈ dropped)) &&
       match os_try_exists os path with Ok present => present | Err _ => false end
    then (dropped ++ [identifier])%list else dropped) (pinned previous) [].
Definition purge_unpinned (previous next : list LockedTool) : io W CleanError PurgeUnrooted :=
  let! dropped := ask (fun os => dropped_pins os previous next) in purge_unrooted dropped.
End Clean.
