(* ===== verification/CleanSpec.v ===== *)
(** * What cleaning removes

    The collection deletes exactly the objects no root holds, in path order, and a
    purge exactly those of them its packages led to; a lock or a ledger that cannot
    be read keeps everything; and the sweep of consent stamps removes only what is
    departed at the moment of its removal. *)

From stdpp Require Import base decidable list option numbers strings gmap sets relations.
From Stdlib Require Import Lia Ascii.
From S2P Require Import Prelude OMap Text Digest PackageRef Platform Registry Store Gc GcSpec Clean.
Local Open Scope ocx_scope.
Local Open Scope string_scope.

Section CleanSpec.
Context `{U : OciSpec} `{!Codec} `{!ProjectFiles Bytes} {W : Type} (disk : Disk W Bytes) (fs : FileStructure) (fuel : nat).

(** The disk after removing directories one after the other. *)
Definition removing (paths : list Path) (w : W) : W := fold_left (fun w p => (remove_dir_all disk p w).2) paths w.

(** How a run over the targets ends: all removed, or stopped at the first that
    could be neither removed nor found missing. *)
Definition removal_outcome (targets : list Path) (w : W) (r : result CleanError (list Path)) (w' : W) : Prop :=
  match r with
  | Ok removed => removed = targets /\ w' = removing targets w
  | Err e => exists before p after, targets = (before ++ p :: after)%list /\ e = InternalFile p OtherError /\
      (remove_dir_all disk p (removing before w)).1 = Err OtherError /\ w' = removing (before ++ [p]) w
  end.

Lemma delete_loop targets : forall removed w,
  let '(r, w') := io_foldl (delete_target disk false) removed targets w in
  match r with
  | Ok l => l = (removed ++ targets)%list /\ w' = removing targets w
  | Err e => exists before p after, targets = (before ++ p :: after)%list /\ e = InternalFile p OtherError /\
      (remove_dir_all disk p (removing before w)).1 = Err OtherError /\ w' = removing (before ++ [p]) w
  end.
Proof.
  induction targets as [|t targets IH]; intros removed w; simpl; [by rewrite app_nil_r|].
  unfold io_bind, delete_target at 1, io_try. simpl. unfold io_bind. destruct (remove_dir_all disk t w) as [answer w1] eqn:Et.
  assert (answer <> Err OtherError -> let '(r, w') := io_foldl (delete_target disk false) (removed ++ [t])%list targets w1 in
    match r with
    | Ok l => l = (removed ++ t :: targets)%list /\ w' = removing targets w1
    | Err e => exists before p after, t :: targets = (before ++ p :: after)%list /\ e = InternalFile p OtherError /\
        (remove_dir_all disk p (removing before w)).1 = Err OtherError /\ w' = removing (before ++ [p]) w
    end) as Hgo.
  { intros _. specialize (IH (removed ++ [t])%list w1). destruct (io_foldl _ _ _ w1) as [[l|e] w']; [by rewrite <- app_assoc in IH|].
    destruct IH as (before & p & after & -> & -> & Hp & ->). exists (t :: before), p, after. simpl. by rewrite Et. }
  destruct answer as [u|[]]; [by apply Hgo..|]. exists [], t, targets. simpl. by rewrite Et.
Qed.

Lemma delete_loop_dry targets : forall removed w,
  io_foldl (delete_target disk true) removed targets w = (Ok (removed ++ targets)%list, w).
Proof.
  induction targets as [|t targets IH]; intros removed w; simpl; [by rewrite app_nil_r|].
  unfold io_bind. simpl. rewrite IH. by rewrite <- app_assoc.
Qed.

Definition in_order (targets : gset Path) : list Path := ord_sort (elements targets).

Lemma delete_objects_runs targets w :
  let '(r, w') := delete_objects disk targets false w in removal_outcome (in_order targets) w r w'.
Proof.
  unfold delete_objects, in_order. case_bool_decide as E; [by subst; rewrite elements_empty|].
  pose proof (delete_loop (ord_sort (elements targets)) [] w) as Hd. by destruct (io_foldl _ _ _ w) as [[l|e] w'].
Qed.
Lemma delete_objects_dry targets w : delete_objects disk targets true w = (Ok (in_order targets), w).
Proof.
  unfold delete_objects, in_order. case_bool_decide as E; [by subst; rewrite elements_empty|]. apply delete_loop_dry.
Qed.

Lemma in_order_spec targets : le_sorted (in_order targets) /\ NoDup (in_order targets) /\ forall p, p ∈ in_order targets <-> p ∈ targets.
Proof.
  unfold in_order. split_and!; [apply ord_sort_sorted| |].
  - unfold ord_sort. rewrite sort_by_perm. apply NoDup_elements.
  - intros p. rewrite !list_elem_of_In. unfold ord_sort. rewrite sort_by_In, <- list_elem_of_In. apply elem_of_elements.
Qed.

(** ** The collection *)

Section Collected.
Context (w : W) (l : StoreListing) (project_roots : list ProjectRootDigests) (patch_roots : SitePatchRoots).
Abbreviation os := (view disk w).
Context `{!OsLaws (view disk w)}.

(** The store could be listed, and its package and shim directories are distinct. *)
Record listed : Prop := {
  listed_packages : list_packages os fuel fs = Some (Ok (sl_packages l));
  listed_layers : list_layers os fuel fs = Some (Ok (sl_layers l));
  listed_blobs : list_blobs os fuel fs = Some (Ok (sl_blobs l));
  listed_shims : list_shims os fuel fs = Some (Ok (sl_shims l));
  listed_distinct : NoDup (map (canonicalize_or_keep os) (sl_packages l ++ sl_shims l));
}.
Hypothesis (Hlisted : listed).

Abbreviation object := (is_object os l).
Abbreviation kept := (kept os fs l project_roots patch_roots).

Lemma canon_canon p : canonicalize_or_keep os (canonicalize_or_keep os p) = canonicalize_or_keep os p.
Proof.
  unfold canonicalize_or_keep. destruct (os_canonicalize os p) as [q|e] eqn:E; [by rewrite (os_canonical _ _ E)|by rewrite E].
Qed.

Lemma object_canon p : object p -> canonicalize_or_keep os p = p.
Proof. intros (q & -> & _)%list_elem_of_fmap. apply canon_canon. Qed.

Lemma held_canon p : held os fs l project_roots patch_roots p -> canonicalize_or_keep os p = p.
Proof. intros [? ? ?|? ? [Ho _]|? ? ?|? ? ? ?]; [by rewrite canon_canon|by apply object_canon|by rewrite canon_canon..]. Qed.

Lemma collector_built : exists g, gc_build disk fs fuel project_roots patch_roots w = (Ok g, w) /\
  (forall p, p ∈ dom (g_all_entries g) <-> object p) /\
  (forall p, p ∈ g_roots g <-> held os fs l project_roots patch_roots p) /\
  (forall a b, points_to (g_edges g) a b <-> refers os fs l a b) /\
  attributes os fs l project_roots (g_roots_attribution g).
Proof.
  destruct Hlisted as [Hp Hl Hb Hs Hd].
  destruct (collector_spec os fs l Hd project_roots patch_roots) as (g & Hg & Hspec).
  exists (seed_patch_roots os fs patch_roots g). split; [|exact Hspec].
  unfold gc_build, ask, io_bind, collector_build, graph_build. rewrite Hp, Hl, Hb, Hs. simpl. destruct l. simpl in *. by rewrite Hg.
Qed.

Lemma bfs_from g (starts : list Path) :
  (forall a b, points_to (g_edges g) a b <-> refers os fs l a b) -> (forall s, s ∈ starts -> canonicalize_or_keep os s = s) ->
  exists found, bfs os g starts = Some found /\ forall x, x ∈ found <-> exists s, s ∈ starts /\ rtc (refers os fs l) s x.
Proof.
  intros He Hc. destruct (bfs_exact os g starts) as (found & -> & Hf). exists found. split; [done|]. intros x. rewrite Hf.
  split; intros (s & Hs & Hr); exists s; (split; [done|]); rewrite (Hc s Hs) in *; by apply (points_rtc os fs l (g_edges g)).
Qed.

Lemma reachable_kept g : (forall p, p ∈ g_roots g <-> held os fs l project_roots patch_roots p) ->
  (forall a b, points_to (g_edges g) a b <-> refers os fs l a b) ->
  exists found, reachable os g = Some found /\ forall x, x ∈ found <-> kept x.
Proof.
  intros Hr He. destruct (bfs_from g (elements (g_roots g)) He) as (found & Hf & Hx).
  { intros s Hs%elem_of_elements%Hr. by apply held_canon. }
  exists found. split; [done|]. intros x. rewrite Hx. unfold GcSpec.kept. setoid_rewrite elem_of_elements. by setoid_rewrite Hr.
Qed.

Lemma unreachable_exact g : (forall p, p ∈ dom (g_all_entries g) <-> object p) ->
  (forall p, p ∈ g_roots g <-> held os fs l project_roots patch_roots p) ->
  (forall a b, points_to (g_edges g) a b <-> refers os fs l a b) ->
  exists targets, unreachable_objects os g = Some targets /\ forall p, p ∈ targets <-> object p /\ ~ kept p.
Proof.
  intros Ho Hr He. destruct (reachable_kept g Hr He) as (found & Hf & Hx). unfold unreachable_objects. rewrite Hf. simpl.
  eexists. split; [done|]. intros p. rewrite elem_of_filter, Hx, Ho. tauto.
Qed.

(** C8: [ocx clean] deletes the garbage and nothing else: of the objects in the store
    it removes, in path order, exactly those that no install link, lock file or patch
    leads to, however long the chain of dependencies, layers, blobs and indexes; a
    removal that fails stops it there, with everything before removed and nothing after. *)
Theorem gc_exact : exists targets, le_sorted targets /\ NoDup targets /\ (forall p, p ∈ targets <-> object p /\ ~ kept p) /\
  let '(r, w') := collect_garbage disk fs fuel false project_roots patch_roots w in
  removal_outcome targets w (match r with Ok objects => Ok (map co_path objects) | Err e => Err e end) w'.
Proof.
  destruct collector_built as (g & Hg & Ho & Hr & He & Ha). destruct (unreachable_exact g Ho Hr He) as (targets & Ht & Hx).
  destruct (in_order_spec targets) as (Hs & Hd & Hin). exists (in_order targets). split_and!; [done|done| |].
  - intros p. by rewrite Hin.
  - unfold collect_garbage, io_bind, searched, ask, io_bind, io_of. rewrite Hg, Ht.
    pose proof (delete_objects_runs targets w) as Hrun. destruct (delete_objects disk targets false w) as [[removed|e] w']; simpl; [|done].
    by rewrite map_map, map_id.
Qed.

(** A dry run changes nothing and reports the truth: first what a run would
    remove, then every object the lock files hold, with the locks that pin it or, if
    none pins it, those from whose pins it is reached. *)
Theorem dry_run_exact : exists targets attribution,
  le_sorted targets /\ (forall p, p ∈ targets <-> object p /\ ~ kept p) /\ attributes os fs l project_roots attribution /\
  collect_garbage disk fs fuel true project_roots patch_roots w =
    (Ok (map (fun path => mkCleaned path []) targets ++ map (fun held => mkCleaned held.1 held.2) (map_to_list attribution))%list, w).
Proof.
  destruct collector_built as (g & Hg & Ho & Hr & He & Ha). destruct (unreachable_exact g Ho Hr He) as (targets & Ht & Hx).
  destruct (in_order_spec targets) as (Hs & Hd & Hin). exists (in_order targets), (g_roots_attribution g). split_and!; [done| |done|].
  - intros p. by rewrite Hin.
  - unfold collect_garbage, io_bind, searched, ask, io_bind, io_of. by rewrite Hg, Ht, delete_objects_dry.
Qed.

(** ** The purge *)

Lemma orphaned_exact g seeds : (forall p, p ∈ dom (g_all_entries g) <-> object p) ->
  (forall p, p ∈ g_roots g <-> held os fs l project_roots patch_roots p) ->
  (forall a b, points_to (g_edges g) a b <-> refers os fs l a b) ->
  (forall s, s ∈ seeds -> canonicalize_or_keep os s = s /\ ~ kept s) ->
  exists targets, orphaned_by_seeds os g seeds = Some targets /\
  forall p, p ∈ targets <-> object p /\ ~ kept p /\ exists s, s ∈ seeds /\ rtc (refers os fs l) s p.
Proof.
  intros Ho Hr He Hs. unfold orphaned_by_seeds.
  assert (List.filter (fun r => negb (bool_decide (r ∈ seeds))) (elements (g_roots g)) = elements (g_roots g)) as ->.
  { apply forallb_filter_id, forallb_forall. intros r Hin%list_elem_of_In%elem_of_elements%Hr.
    rewrite bool_decide_eq_false_2; [done|]. intros Hseed. apply (Hs r Hseed). by exists r. }
  destruct (bfs_from g (elements (g_roots g) ++ seeds)%list He) as (with_ & Hw & Hxw).
  { intros s [Hin%elem_of_elements%Hr|Hin]%elem_of_app; [by apply held_canon|by apply Hs]. }
  destruct (reachable_kept g Hr He) as (without & Hwo & Hxo). unfold reachable in Hwo. rewrite Hw, Hwo. simpl.
  eexists. split; [done|]. intros p. rewrite elem_of_filter, elem_of_difference, Hxw, Hxo, Ho.
  split; [|intros (? & ? & s & Hin & ?); split_and!; try done; exists s; rewrite elem_of_app; auto].
  intros (Hp & (s & [Hin%elem_of_elements%Hr|Hin]%elem_of_app & Hrtc) & Hk); [|eauto]. exfalso. apply Hk. by exists s.
Qed.

(** C9: A purge removes, in path order, of the stored objects the given packages lead
    to, exactly those no root holds, and a failed removal stops it there; a purge that
    succeeds reports a package as held exactly when a root leads to it. *)
Theorem purge_exact paths : exists targets held, le_sorted targets /\ NoDup targets /\
  (forall p, p ∈ targets <-> object p /\ ~ kept p /\ exists path, path ∈ paths /\ rtc (refers os fs l) (canonicalize_or_keep os path) p) /\
  Forall2 (fun path b => b = true <-> kept (canonicalize_or_keep os path)) paths held /\
  let '(r, w') := purge_with_roots disk fs fuel project_roots patch_roots paths w in
  removal_outcome targets w (match r with Ok purged => Ok (up_removed purged) | Err e => Err e end) w' /\
  match r with Ok purged => up_held purged = held | Err _ => True end.
Proof.
  destruct collector_built as (g & Hg & Ho & Hr & He & _). destruct (reachable_kept g Hr He) as (found & Hf & Hx).
  set (seeds := List.filter (fun p => negb (bool_decide (p ∈ found))) (map (canonicalize_or_keep os) paths)).
  assert (forall s, s ∈ seeds <-> (exists path, path ∈ paths /\ s = canonicalize_or_keep os path) /\ ~ kept s) as Hseed.
  { intros s. unfold seeds. rewrite list_elem_of_In, filter_In, <- list_elem_of_In, list_elem_of_fmap, negb_true_iff, bool_decide_eq_false, Hx.
    split; intros [(path & ? & ?) ?]; split; eauto. }
  destruct (orphaned_exact g seeds Ho Hr He) as (targets & Ht & Hxt).
  { intros s [(path & _ & ->) Hk]%Hseed. by rewrite canon_canon. }
  destruct (in_order_spec targets) as (Hs & Hd & Hin).
  exists (in_order targets), (map (fun p => bool_decide (p ∈ found)) (map (canonicalize_or_keep os) paths)). split_and!; [done|done| | |].
  - intros p. rewrite Hin, Hxt. split; intros (Hp & Hk & s & Hs' & Hrtc); split_and!; try done.
    + apply Hseed in Hs' as [(path & Hpath & ->) _]. eauto.
    + exists (canonicalize_or_keep os s). split; [|done]. apply Hseed. split; [eauto|]. intros (root & Hroot & Hrr).
      apply Hk. exists root. split; [done|]. by etrans.
  - rewrite map_map. apply Forall2_fmap_r, Forall_Forall2_diag, Forall_forall. intros path _. simpl.
    rewrite bool_decide_eq_true. apply Hx.
  - unfold purge_with_roots, purge, io_bind, searched, ask, io_bind, io_of. rewrite Hg, Hf. fold seeds. rewrite Ht.
    pose proof (delete_objects_runs targets w) as Hrun. by destruct (delete_objects disk targets false w) as [[removed|e] w'].
Qed.
End Collected.

(** ** Doubt *)

Lemma gather_locks_doubt loads : Indeterminate ∈ loads -> gather_locks loads = None.
Proof.
  induction loads as [|load loads IH]; [by rewrite elem_of_nil|]. intros [<-|Hin]%elem_of_cons; [done|].
  destruct load; simpl; [by rewrite IH|by apply IH|done].
Qed.

(** A lock, or the configuration beside it, that cannot be read. *)
Definition unreadable_lock (os : Os Bytes) (lock_path : Path) : Prop :=
  (exists e, lock_from_path os lock_path = Err e) \/
  exists lock e, lock_from_path os lock_path = Ok (Some lock) /\ read_lock_config os lock_path = Err e.

(** The ledger of the projects, and an entry of it that leads to no lock. *)
Definition ledger : Path := join (fs_root fs) "projects".
Definition dead_entry (os : Os Bytes) (entry : Path) : Prop :=
  os_is_link os entry = false \/ os_canonicalize os entry = Err NotFound \/
  exists dir, os_canonicalize os entry = Ok dir /\ os_try_exists os (join dir "ocx.lock") = Ok false.

(** What a run may remove before it knows the roots: the two files of the legacy
    ledger, and dead entries. *)
Definition housekeeping (w w' : W) : Prop :=
  (exists file, file ∈ [join (fs_root fs) "projects.json"; join (fs_root fs) ".projects.lock"] /\ w' = (remove_file disk file w).2) \/
  (exists name, dead_entry (view disk w) (join ledger name) /\ w' = (remove_link disk (join ledger name) w).2).

(** What a disk can show that leaves the roots unknown: a ledger that cannot be
    listed; a listed link whose project has a lock, or cannot be told to have none,
    and whose lock cannot be read; the lock of the home directory unreadable. *)
Inductive Doubt : Type := LedgerUnlisted | ProjectUnreadable (name : string) (dir : Path) | HomeUnreadable.
Definition doubtful (d : Doubt) (os : Os Bytes) : Prop :=
  match d with
  | LedgerUnlisted =>
      os_read_dir os ledger = Err OtherError \/ exists listing, os_read_dir os ledger = Ok listing /\ dl_failed listing = true
  | ProjectUnreadable name dir =>
      (exists listing, os_read_dir os ledger = Ok listing /\ In name (map fst (dl_entries listing))) /\
      String.prefix ".tmp-" name = false /\ os_is_link os (join ledger name) = true /\
      (os_canonicalize os (join ledger name) = Ok dir /\ os_try_exists os (join dir "ocx.lock") = Ok true \/
       (os_canonicalize os (join ledger name) = Err OtherError \/
        exists target e, os_canonicalize os (join ledger name) = Ok target /\ os_try_exists os (join target "ocx.lock") = Err e) /\
       os_read_link os (join ledger name) = Ok dir) /\
      unreadable_lock os (join dir "ocx.lock")
  | HomeUnreadable => unreadable_lock os (join (fs_root fs) "ocx.lock")
  end.

Lemma unreadable_indeterminate os p : unreadable_lock os p -> load_lock os p = Indeterminate.
Proof. unfold load_lock. intros [[e ->]|(lock & e & -> & ->)]; done. Qed.

Lemma probe_dead os entry : probe_live_target os entry = ProbeDead -> dead_entry os entry.
Proof.
  unfold probe_live_target, dead_entry. destruct (os_is_link os entry); simpl; [|by left].
  destruct (os_canonicalize os entry) as [dir|[]]; [|auto|done].
  destruct (os_try_exists os (join dir "ocx.lock")) as [[]|] eqn:E; try done. intros _. right. right. eauto.
Qed.

Lemma drop_legacy_keeps w : exists w1, drop_legacy disk (fs_root fs) w = (Ok tt, w1) /\ rtc housekeeping w w1.
Proof.
  unfold drop_legacy, io_bind, ask, io_try, io_ret. destruct (_ || _); [|by exists w].
  destruct (remove_file disk (join (fs_root fs) "projects.json") w) as [r1 w1] eqn:E1.
  destruct (remove_file disk (join (fs_root fs) ".projects.lock") w1) as [r2 w2] eqn:E2. exists w2. split; [done|].
  apply (rtc_l _ w w1); [left; eexists; split; [apply list_elem_of_here|by rewrite E1]|].
  apply rtc_once. left. eexists. split; [apply list_elem_of_further, list_elem_of_here|by rewrite E2].
Qed.

(** One entry of the ledger: what is found stays found, and only a dead one is removed. *)
Lemma live_entry_keeps live name w :
  let '(r, w') := live_entry disk true ledger live name w in
  rtc housekeeping w w' /\ forall live', r = Ok live' -> exists more, live' = (live ++ more)%list.
Proof.
  assert (forall live', Ok (E := CleanError) live = Ok live' -> exists more, live' = (live ++ more)%list) as Hnone.
  { intros live' [= <-]. exists []. by rewrite app_nil_r. }
  assert (forall x live', Ok (E := CleanError) (live ++ [x])%list = Ok live' -> exists more, live' = (live ++ more)%list) as Hone.
  { intros x live' [= <-]. eauto. }
  unfold live_entry. destruct (String.prefix ".tmp-" name); [done|]. unfold io_bind, ask, io_of, io_ret, io_try.
  destruct (probe_live_target (view disk w) (join ledger name)) eqn:Ep; cbn beta iota; rewrite ?Ep.
  - split; [done|apply Hone].
  - destruct (remove_link disk (join ledger name) w) as [r w1] eqn:Er. simpl. rewrite ?Er. simpl. split; [|done].
    apply rtc_once. right. exists name. split; [by apply probe_dead|by rewrite Er].
  - destruct (unknown_root_or_escalate _ _); [split; [done|apply Hone]|done].
Qed.

Lemma live_fold_keeps names : forall live w,
  let '(r, w') := io_foldl (live_entry disk true ledger) live names w in
  rtc housekeeping w w' /\ forall live', r = Ok live' -> exists more, live' = (live ++ more)%list.
Proof.
  induction names as [|name names IH]; intros live w; simpl.
  { split; [done|]. intros live' [= <-]. exists []. by rewrite app_nil_r. }
  unfold io_bind at 1. pose proof (live_entry_keeps live name w) as Hstep.
  destruct (live_entry disk true ledger live name w) as [[live1|e] w1]; [|by destruct Hstep].
  destruct Hstep as [Hw1 Hmore]. destruct (Hmore live1 eq_refl) as [more1 ->]. specialize (IH (live ++ more1)%list w1).
  destruct (io_foldl _ _ _ w1) as [r w']. destruct IH as [Hw' Hm]. split; [by etrans|].
  intros live' Hr. destruct (Hm live' Hr) as [more ->]. exists (more1 ++ more)%list. by rewrite app_assoc.
Qed.

(** A project that cannot be read is found by the listing, or stops it. *)
Lemma live_fold_finds name dir names : In name names -> forall live w w' live',
  (forall w1, rtc housekeeping w w1 -> doubtful (ProjectUnreadable name dir) (view disk w1)) ->
  io_foldl (live_entry disk true ledger) live names w = (Ok live', w') -> In dir (map snd live').
Proof.
  induction names as [|n names IH]; [done|]. intros Hin live w w' live' Hd. cbn [io_foldl]. unfold io_bind at 1.
  pose proof (live_entry_keeps live n w) as Hstep. destruct (live_entry disk true ledger live n w) as [[live1|e] w1] eqn:El; [|done].
  destruct Hstep as [Hw1 _]. destruct Hin as [->|Hin].
  - intros Hrun. pose proof (live_fold_keeps names live1 w1) as Hkeep. rewrite Hrun in Hkeep.
    destruct (proj2 Hkeep live' eq_refl) as [more ->]. clear Hkeep Hrun.
    destruct (Hd w) as (_ & Htmp & Hlink & Hwhere & _); [done|].
    unfold live_entry in El. rewrite Htmp in El. unfold io_bind, ask, io_of, io_ret, probe_live_target, unknown_root_or_escalate in El.
    rewrite Hlink in El. simpl in El. rewrite map_app, in_app_iff. left.
    assert (live1 = (live ++ [(name, dir)])%list) as ->; [|rewrite map_app, in_app_iff; right; by left].
    destruct Hwhere as [[Hc Ht]|[[Hc|(target & err & Hc & Ht)] Hl]]; rewrite Hc in El; rewrite ?Ht, ?Hl in El; by injection El as <- <-.
  - apply IH; [done|]. intros w2 Hw2. apply Hd. by etrans.
Qed.

(** A run that found no roots it can trust. *)
Definition retains w (run : result CleanError CollectedRoots * W) : Prop :=
  rtc housekeeping w run.2 /\ match run.1 with Ok RetainAll | Err _ => True | Ok (Roots _) => False end.

Lemma doubt_retains d w : (forall w1, rtc housekeeping w w1 -> doubtful d (view disk w1)) ->
  retains w (collect_project_roots disk fs (fs_root fs) w).
Proof.
  intros Hd. destruct (drop_legacy_keeps w) as (w0 & Hdrop & Hw0). unfold collect_project_roots, io_bind at 1. rewrite Hdrop.
  unfold io_bind at 1, live_projects, list_live. fold ledger. unfold io_bind at 1, ask at 1.
  pose proof (Hd w0 Hw0) as Hnow.
  destruct (os_read_dir (view disk w0) ledger) as [listing|[]] eqn:El.
  2:{ cbn [io_ret]. unfold ask. rewrite gather_locks_doubt; [done|].
      destruct d as [|name dir|]; [by destruct Hnow as [?|(? & ? & _)]; congruence|by destruct Hnow as [(? & ? & _) _]; congruence|].
      apply list_elem_of_fmap. exists (join (fs_root fs) "ocx.lock"). split; [symmetry; by apply unreadable_indeterminate|].
      apply list_elem_of_here. }
  2:{ done. }
  destruct (dl_failed listing) eqn:Ef; [done|]. unfold io_bind at 1. pose proof (live_fold_keeps (map fst (dl_entries listing)) [] w0) as Hkeep.
  destruct (io_foldl _ _ _ w0) as [[live|e] w1] eqn:Efold; destruct Hkeep as [Hw1 _]; [|split; [by etrans|done]].
  assert (rtc housekeeping w w1) as Hw by (by etrans). cbn [io_ret]. unfold ask.
  rewrite gather_locks_doubt; [done|]. pose proof (Hd w1 Hw) as Hend. apply list_elem_of_fmap. unfold lock_entries. destruct d as [|name dir|].
  - destruct Hnow as [?|(? & ? & ?)]; congruence.
  - exists (join dir "ocx.lock"). split; [symmetry; apply unreadable_indeterminate, Hend|]. apply elem_of_app. left.
    apply list_elem_of_fmap. exists dir. split; [done|]. destruct Hnow as [(l & Hl & Hin) _]. rewrite El in Hl. injection Hl as <-.
    assert (In dir (map snd live)) as (e & <- & He)%in_map_iff.
    { eapply (live_fold_finds name dir _ Hin [] w0 w1 live); [|exact Efold]. intros w2 Hw2. apply (Hd w2). by transitivity w0. }
    apply list_elem_of_In, in_map, sort_by_In, He.
  - exists (join (fs_root fs) "ocx.lock"). split; [symmetry; by apply unreadable_indeterminate|]. apply elem_of_app. right. apply list_elem_of_here.
Qed.

(** C10: what cannot be read is not taken for garbage.  Take a disk that, throughout
    the housekeeping of the run (the files of the legacy ledger and dead ledger
    entries removed), shows one of: a ledger that cannot be listed; a ledger link to a
    project, with a lock or with one that cannot be ruled out, whose lock or
    configuration cannot be read; the same for the lock of the home directory.  Then
    [ocx clean] removes no object and no consent stamp, and a purge keeps every
    package: after the housekeeping the run ends in an error, or it cleans the temp
    store only. *)
Theorem clean_fails_closed d w dry_run identifiers
    (Hdoubt : forall w1, rtc housekeeping w w1 -> doubtful d (view disk w1)) :
  exists w1, rtc housekeeping w w1 /\
    ((exists e, clean disk fs fuel dry_run false w = (Err e, w1)) \/
     clean disk fs fuel dry_run false w = (let! temp := clean_temp disk dry_run in io_ret (mkClean [] temp [])) w1) /\
    ((exists e, purge_unrooted disk fs fuel identifiers w = (Err e, w1)) \/
     purge_unrooted disk fs fuel identifiers w = (Ok (mkPurged [] identifiers RootsIndeterminate), w1)).
Proof.
  pose proof (doubt_retains d w Hdoubt) as [Hw1 Hrun]. unfold clean, purge_unrooted, purge_unrooted_paths, io_bind.
  destruct (collect_project_roots disk fs (fs_root fs) w) as [[[roots|]|e] w1]; [done| |]; exists w1; (split; [done|]).
  - split; by right.
  - split; left; by eexists.
Qed.

(** ** The sweep *)

(** One removal of the sweep: a candidate of the first look at the disk whose project,
    unless it is the home directory, is missing at the moment of the removal. *)
Definition sweep_step (seen : Os Bytes) (w w' : W) : Prop :=
  exists key state_dir project_dir reason, sweep_candidate fs seen key = Some (state_dir, project_dir, reason) /\
  (reason = Departed -> probe_project_dir (view disk w) project_dir = DirAbsent) /\ w' = (remove_dir_all disk state_dir w).2.

Lemma sweep_loop seen candidates : (forall c, c ∈ candidates -> exists key, sweep_candidate fs seen key = Some c) ->
  forall swept w, rtc (sweep_step seen) w (io_foldl (remove_stamp disk false) swept candidates w).2.
Proof.
  induction candidates as [|[[state_dir project_dir] reason] candidates IH]; intros Hc swept w; [done|]. simpl.
  destruct (Hc (state_dir, project_dir, reason)) as [key Hkey]; [apply list_elem_of_here|].
  assert (forall swept w, rtc (sweep_step seen) w (io_foldl (remove_stamp disk false) swept candidates w).2) as Hgo.
  { apply IH. intros c Hin. apply Hc. by apply list_elem_of_further. }
  assert ((reason = Departed -> probe_project_dir (view disk w) project_dir = DirAbsent) ->
    rtc (sweep_step seen) w (remove_dir_all disk state_dir w).2) as Hstep.
  { intros Hp. apply rtc_once. by exists key, state_dir, project_dir, reason. }
  unfold io_bind, remove_stamp at 1, io_map_err, ask, io_bind. simpl.
  destruct reason; [destruct (probe_project_dir (view disk w) project_dir) eqn:Ep; [by apply Hgo| |by apply Hgo]|].
  all: specialize (Hstep ltac:(done)); destruct (remove_dir_all disk state_dir w) as [[u|e] w1]; simpl in *; [|done].
  all: etrans; [exact Hstep|apply Hgo].
Qed.

Lemma sweep_dry candidates : forall swept w, (io_foldl (remove_stamp disk true) swept candidates w).2 = w.
Proof.
  induction candidates as [|[[state_dir project_dir] reason] candidates IH]; intros swept w; [done|]. simpl.
  unfold io_bind, remove_stamp at 1, ask, io_bind. simpl.
  by destruct reason; [destruct (probe_project_dir (view disk w) project_dir)|]; apply IH.
Qed.

(** Consent is not lost by mistake: every directory the sweep removes holds a stamp
    it could read and understood, and records either the home directory itself or a
    project that was found missing twice, the second time just before the removal;
    a dry run removes nothing. *)
Theorem sweep_safe w : rtc (sweep_step (view disk w)) w (sweep_consent_stamps disk fs false w).2 /\
  (sweep_consent_stamps disk fs true w).2 = w.
Proof.
  unfold sweep_consent_stamps, ask, io_bind. split; [|apply sweep_dry]. apply sweep_loop. intros c.
  destruct (os_read_dir (view disk w) (project_state_root fs)) as [entries|e]; [|by rewrite elem_of_nil].
  rewrite list_elem_of_In, sort_by_In, <- list_elem_of_In, list_elem_of_omap. intros (key & _ & Hkey). eauto.
Qed.
End CleanSpec.
