(* ===== verification/SampleStore.v ===== *)
(** * A sample store

    A small disk: directories, files and links by path, with the operating system's
    view of it and its removals.  It holds a package an install link points at, the
    package it depends on with its layer, a manifest blob with the index that lists
    it, a shim a lock file pins, and garbage. *)

From stdpp Require Import base decidable list option numbers strings gmap sets relations.
From Stdlib Require Import Lia Ascii.
From S2P Require Import Prelude OMap Text Digest PackageRef Platform Registry Samples.
From S2P Require Import SampleRegistry Store Gc GcSpec Clean CleanSpec.
Local Open Scope ocx_scope.
Local Open Scope string_scope.

(** ** A disk *)

Inductive Node : Type := NDir | NFile (bytes : SampleBytes) | NLink (target : Path).
Definition SampleDisk : Type := list (Path * Node).

Definition node_at (d : SampleDisk) (p : Path) : option Node := snd <$> List.find (fun e => bool_decide (e.1 = p)) d.
Definition below (p q : Path) : bool := path_starts_with p q && negb (bool_decide (p = q)).
Definition dir_at (d : SampleDisk) (p : Path) : bool :=
  existsb (fun e => below p e.1 || match e.2 with NDir => bool_decide (e.1 = p) | _ => false end) d.
Definition present (d : SampleDisk) (p : Path) : bool := dir_at d p || match node_at d p with Some _ => true | None => false end.
Definition children (d : SampleDisk) (p : Path) : list string :=
  remove_dups (omap (fun e => if below p e.1 then e.1 !! length p else None) d).
Definition bytes_at (d : SampleDisk) (p : Path) : result OsError SampleBytes :=
  match node_at d p with Some (NFile b) => Ok b | Some _ => Err OtherError | None => Err NotFound end.

Definition sample_view (d : SampleDisk) : Os Bytes := {|
  os_exists := fun p => match node_at d p with Some (NLink target) => present d target | _ => present d p end;
  os_is_dir := dir_at d;
  os_is_file := fun p => match node_at d p with Some (NFile _) => true | _ => false end;
  os_is_link := fun p => match node_at d p with Some (NLink _) => true | _ => false end;
  os_try_exists := fun p => Ok (present d p);
  os_symlink_is_dir := fun p => if present d p then Ok (dir_at d p) else Err NotFound;
  os_same_dir := fun p q => Ok (bool_decide (p = q));
  os_read_dir := fun p =>
    if dir_at d p then Ok (mkListing (map (fun name => (name, dir_at d (join p name))) (children d p)) false) else Err NotFound;
  os_read_link := fun p => match node_at d p with Some (NLink target) => Ok target | _ => Err NotFound end;
  os_canonicalize := fun p => if present d p then Ok p else Err NotFound;
  os_read := bytes_at d;
  os_len := fun p => match bytes_at d p with Ok b => Ok (N.of_nat (sample_weight b)) | Err e => Err e end;
  os_read_upto := fun p _ => bytes_at d p;
|}.
#[export] Instance sample_os_laws d : OsLaws (sample_view d).
Proof. split. intros p q. simpl. destruct (present d p) eqn:E; [|done]. intros [= <-]. by rewrite E. Qed.

Definition drop_tree (p : Path) : io SampleDisk OsError unit := fun d =>
  if present d p then (Ok tt, List.filter (fun e => negb (path_starts_with p e.1)) d) else (Err NotFound, d).

(** A lock file is its tools; no other file of a project is read. *)
Definition sample_lock : Type := list LockedTool.
#[export] Instance sample_projects : ProjectFiles Bytes := {|
  ProjectLock := sample_lock;
  ProjectConfig := unit;
  lock_tools := fun lock => lock;
  lock_from_path := fun os p =>
    match os_read os p with Ok _ => Err tt | Err NotFound => Ok None | Err OtherError => Err tt end;
  read_lock_config := fun _ _ => Ok None;
  lock_bases := fun _ _ => [];
  stamp_from_slice := fun _ => None;
|}.
Definition sample_disk : Disk SampleDisk Bytes :=
  mkDisk SampleDisk Bytes sample_view drop_tree drop_tree drop_tree
    (fun _ => io_ret (mkPatchRoots [] [] [])) (io_ret []).

(** ** A store *)

Definition repeat_hex (c : ascii) : string := String.string_of_list_ascii (repeat c 64).
Definition digest_of (c : ascii) : Digest := DSha256 (repeat_hex c).
Definition home : Path := ["/"; "ocx"].
Definition sample_fs : FileStructure := with_root home.
Definition package_of (c : ascii) : PinnedPackageRef := mkPinned "ocx.sh" "cmake" None (digest_of c).
Definition at_package (c : ascii) (rest : list string) : Path := join_all (package_path sample_fs (package_of c)) rest.
Definition at_shim (c : ascii) (rest : list string) : Path := join_all (shim_path sample_fs (package_of c)) rest.
Definition at_layer (c : ascii) (rest : list string) : Path := join_all (layer_path sample_fs "ocx.sh" (digest_of c)) rest.
Definition at_blob (c : ascii) (rest : list string) : Path := join_all (blob_path sample_fs "ocx.sh" (digest_of c)) rest.

Definition store_index : ImageIndex := sample_index [sample_entry ("sha256:" +:+ repeat_hex "d") linux_amd64].
Definition store_disk : SampleDisk :=
  [ (join_all home ["symlinks"; "cmake"], NDir);
    (at_package "a" ["content"], NDir);
    (at_package "a" ["refs"; "symlinks"; "link"], NLink (join_all home ["symlinks"; "cmake"]));
    (at_package "a" ["refs"; "deps"; "dep"], NLink (at_package "b" ["content"]));
    (at_package "a" ["refs"; "blobs"; "manifest"], NLink (at_blob "d" ["data"]));
    (at_package "b" ["content"], NDir);
    (at_package "b" ["refs"; "layers"; "layer"], NLink (at_layer "c" ["content"]));
    (at_package "f" ["content"], NDir);
    (at_package "f" ["refs"; "symlinks"; ".tmp-link"], NLink (join_all home ["symlinks"; "cmake"]));
    (at_package "f" ["refs"; "blobs"; "manifest"], NLink (at_blob "0" ["data"]));
    (at_layer "c" ["content"], NDir);
    (at_blob "d" ["data"], NFile (TextBytes "{}"));
    (at_blob "e" ["data"], NFile (DocBytes (MIndex store_index)));
    (at_blob "0" ["data"], NFile (TextBytes "{}"));
    (at_shim "1" ["bin"], NDir);
    (at_shim "2" ["bin"], NDir) ].
Definition store_list : StoreListing :=
  mkStoreListing [at_package "a" []; at_package "b" []; at_package "f" []] [at_layer "c" []]
    [at_blob "0" []; at_blob "d" []; at_blob "e" []] [at_shim "1" []; at_shim "2" []].
Definition sample_project : ProjectRootDigests := mkProjectRoots ["/"; "work"; "ocx.lock"] [package_of "1"].
Definition no_patches : SitePatchRoots := mkPatchRoots [] [] [].

Lemma sample_listed : listed sample_disk sample_fs 14 store_disk store_list.
Proof. split; try (vm_compute; reflexivity). apply (bool_decide_unpack _). vm_compute. exact I. Qed.

(** ** The properties at work *)

Lemma gc_exact_witness :
  (match (collect_garbage sample_disk sample_fs 14 false [sample_project] no_patches store_disk).1 with
   | Ok objects => map co_path objects = [at_blob "0" []; at_package "f" []; at_shim "2" []]
   | Err _ => False
   end) /\
  exists targets : list Path, forall p, p ∈ targets <-> is_object (sample_view store_disk) store_list p /\
    ~ kept (sample_view store_disk) sample_fs store_list [sample_project] no_patches p.
Proof.
  split; [vm_compute; reflexivity|].
  destruct (gc_exact sample_disk sample_fs 14 store_disk store_list [sample_project] no_patches sample_listed) as (targets & _ & _ & Ht & _).
  by exists targets.
Defined.

Lemma dry_run_exact_witness :
  (match (collect_garbage sample_disk sample_fs 14 true [sample_project] no_patches store_disk).1 with
   | Ok report => map (fun o => (co_path o, co_held_by o)) report =
       [(at_blob "0" [], []); (at_package "f" [], []); (at_shim "2" [], []); (at_shim "1" [], [["/"; "work"; "ocx.lock"]])]
   | Err _ => False
   end) /\
  exists attribution, attributes (sample_view store_disk) sample_fs store_list [sample_project] attribution.
Proof.
  split; [vm_compute; reflexivity|].
  destruct (dry_run_exact sample_disk sample_fs 14 store_disk store_list [sample_project] no_patches sample_listed)
    as (targets & attribution & _ & _ & Ha & _).
  by exists attribution.
Defined.

Lemma purge_exact_witness :
  exists (targets : list Path) held, Forall2 (fun path b => b = true <-> kept (sample_view store_disk) sample_fs store_list [sample_project] no_patches
      (canonicalize_or_keep (sample_view store_disk) path)) [at_package "b" []; at_package "f" []] held /\
  (forall p, p ∈ targets -> ~ kept (sample_view store_disk) sample_fs store_list [sample_project] no_patches p) /\
  (purge_with_roots sample_disk sample_fs 14 [sample_project] no_patches [at_package "b" []; at_package "f" []] store_disk).1 =
    Ok (mkUnrooted [at_blob "0" []; at_package "f" []] [true; false]).
Proof.
  destruct (purge_exact sample_disk sample_fs 14 store_disk store_list [sample_project] no_patches sample_listed
    [at_package "b" []; at_package "f" []]) as (targets & held & _ & _ & Ht & Hh & _).
  exists targets, held. split; [exact Hh|]. split; [intros p Hp; apply (Ht p), Hp|]. vm_compute. reflexivity.
Defined.

(** The same store with a lock in the home directory that does not parse, a legacy
    ledger and a ledger entry that leads nowhere. *)
Definition home_lock : Path := join home "ocx.lock".
Definition doubt_disk : SampleDisk :=
  ([ (home_lock, NFile (TextBytes "version = "));
    (join home "projects.json", NFile (TextBytes "{}"));
    (join_all home ["projects"; "old"], NLink ["/"; "gone"]) ] ++ store_disk)%list.

Lemma drop_tree_keeps p q d : path_starts_with p q = false -> node_at (drop_tree p d).2 q = node_at d q.
Proof.
  intros Hq. unfold drop_tree. destruct (present d p); [|done]. cbn [snd]. unfold node_at. f_equal.
  induction d as [|[r node] d IH]; [done|]. cbn [List.filter List.find fst]. case_bool_decide as Er.
  - subst r. rewrite Hq. cbn [negb List.find fst]. by rewrite bool_decide_eq_true_2.
  - destruct (negb (path_starts_with p r)); [|exact IH]. cbn [List.find fst]. by rewrite bool_decide_eq_false_2.
Qed.

Lemma clean_fails_closed_witness :
  doubtful sample_fs HomeUnreadable (sample_view doubt_disk) /\
  (exists w1, rtc (housekeeping sample_disk sample_fs) doubt_disk w1 /\
     (clean sample_disk sample_fs 14 false false doubt_disk).2 = w1) /\
  (clean sample_disk sample_fs 14 false false doubt_disk).1 = Ok (mkClean [] [] []) /\
  (clean sample_disk sample_fs 14 false false doubt_disk).2 = (home_lock, NFile (TextBytes "version = ")) :: store_disk.
Proof.
  assert (forall w1, rtc (housekeeping sample_disk sample_fs) doubt_disk w1 -> doubtful sample_fs HomeUnreadable (sample_view w1)) as Hd.
  { intros w1 Hw. left. exists tt.
    assert (node_at w1 home_lock = Some (NFile (TextBytes "version = "))) as Hn.
    { assert (node_at doubt_disk home_lock = Some (NFile (TextBytes "version = "))) as H0 by (vm_compute; reflexivity).
      induction Hw as [|x y z Hxy _ IH]; [exact H0|]. apply IH. rewrite <- H0.
      destruct Hxy as [(file & Hf & ->)|(name & _ & ->)]; apply drop_tree_keeps.
      - apply elem_of_cons in Hf as [->|Hf]; [vm_compute; reflexivity|]. apply list_elem_of_singleton in Hf as ->. vm_compute. reflexivity.
      - unfold join. destruct (String.eqb name "" || String.eqb name "."); vm_compute; reflexivity. }
    change (lock_from_path (sample_view w1) home_lock = Err tt).
    unfold lock_from_path, sample_projects, os_read, sample_view, bytes_at. rewrite Hn. reflexivity. }
  split; [apply Hd; apply rtc_refl|].
  destruct (clean_fails_closed sample_disk sample_fs 14 HomeUnreadable doubt_disk false [] Hd) as (w1 & Hw1 & Hclean & _).
  split; [|split; vm_compute; reflexivity]. exists w1. split; [exact Hw1|].
  destruct Hclean as [[e ->]|Hc]; [reflexivity|]. rewrite Hc. reflexivity.
Defined.

(** The shims of the sample lie at most seven directories deep. *)
Lemma sample_shallow : shallow (sample_view store_disk) sample_fs 7.
Proof.
  unfold shallow. assert (forall d m, reaches (sample_view store_disk) (tier_classify (sample_view store_disk) TierShim) None (fs_shims sample_fs) d m ->
    length d = (length (fs_shims sample_fs) + m)%nat) as Hlen.
  { intros d m Hr. induction Hr as [|d m c Hr IH (_ & _ & listing & name & Hl & Hin & _ & ->)]; [simpl; lia|].
    cbn [sample_view os_read_dir] in Hl. destruct (dir_at store_disk d); [|done]. injection Hl as <-. cbn [dl_entries] in Hin.
    apply in_map_iff in Hin as (n & [= <- _] & Hn). unfold join. destruct (String.eqb n "" || String.eqb n ".") eqn:E.
    - exfalso. apply list_elem_of_In, elem_of_remove_dups, list_elem_of_omap in Hn as ([q node] & Hq & Hb). simpl in Hb.
      destruct (below d q); [|done]. apply list_elem_of_lookup_2 in Hb.
      assert (forallb (fun e => forallb (fun c => negb (String.eqb c "" || String.eqb c ".")) e.1) store_disk = true) as Hnames
        by (vm_compute; reflexivity).
      rewrite forallb_forall in Hnames. apply list_elem_of_In in Hq, Hb. specialize (Hnames _ Hq). rewrite forallb_forall in Hnames.
      specialize (Hnames _ Hb). simpl in Hnames. by rewrite E in Hnames.
    - rewrite length_app, IH. cbn [length]. lia. }
  intros d m c Hr (_ & _ & listing & name & Hl & Hin & _ & _). apply Hlen in Hr. cbn [sample_view os_read_dir] in Hl.
  destruct (dir_at store_disk d); [|done]. injection Hl as <-. cbn [dl_entries] in Hin. apply in_map_iff in Hin as (n & _ & Hn).
  apply list_elem_of_In, elem_of_remove_dups, list_elem_of_omap in Hn as ([q node] & Hq & Hb). simpl in Hb.
  destruct (below d q); [|done]. apply lookup_lt_Some in Hb.
  assert (forallb (fun e => (length e.1 <=? 10)%nat) store_disk = true) as Hdepth by (vm_compute; reflexivity).
  rewrite forallb_forall in Hdepth. apply list_elem_of_In in Hq. specialize (Hdepth _ Hq). apply Nat.leb_le in Hdepth. simpl in *. lia.
Qed.

Lemma store_listing_exact_witness : exists r, list_tier (sample_view store_disk) sample_fs 14 TierBlob = Some r /\
  r = Ok [at_blob "0" []; at_blob "d" []; at_blob "e" []].
Proof.
  destruct (store_listing_exact (sample_view store_disk) sample_fs 14 7 sample_shallow ltac:(vm_compute; lia) TierBlob) as (r & Hr & _).
  exists r. split; [exact Hr|]. vm_compute in Hr. injection Hr as <-. vm_compute. reflexivity.
Defined.
