(* ===== verification/Closure.v ===== *)
(** * Dependencies and their visibility

    [crates/ocx_package/src/metadata/visibility.rs], [metadata/dependency.rs],
    [metadata/slug.rs] and [resolved_package.rs]: the two axes along which a
    dependency's environment is seen, the declared dependencies, and the transitive
    closure an installed package records. *)

From stdpp Require Import base decidable list option numbers strings gmap relations sets.
From Stdlib Require Import Lia Ascii.
From S2P Require Import Prelude OMap Text Digest PackageRef Store.
Local Open Scope ocx_scope.
Local Open Scope string_scope.

(** ** Visibility *)

(** [struct Visibility] and its four values. *)
Record Visibility : Type := mkVisibility { vis_private : bool; vis_interface : bool }.
#[export] Instance Visibility_eq_dec : EqDecision Visibility.
Proof. solve_decision. Defined.
Definition SEALED : Visibility := mkVisibility false false.
Definition PRIVATE : Visibility := mkVisibility true false.
Definition PUBLIC : Visibility := mkVisibility true true.
Definition INTERFACE : Visibility := mkVisibility false true.

(** [has_interface], [has_private], [through_edge], [merge]. *)
Definition has_interface (v : Visibility) : bool := vis_interface v.
Definition has_private (v : Visibility) : bool := vis_private v.
Definition through_edge (edge child_eff : Visibility) : Visibility := if vis_interface child_eff then edge else SEALED.
Definition merge (v other : Visibility) : Visibility :=
  mkVisibility (vis_private v || vis_private other) (vis_interface v || vis_interface other).

(** [Serialize] and [Display] write the same word; [Deserialize]. *)
Definition visibility_text (v : Visibility) : string :=
  match vis_private v, vis_interface v with
  | false, false => "sealed"
  | true, false => "private"
  | true, true => "public"
  | false, true => "interface"
  end.
Definition visibility_parse (s : string) : option Visibility :=
  if String.eqb s "sealed" then Some SEALED
  else if String.eqb s "private" then Some PRIVATE
  else if String.eqb s "public" then Some PUBLIC
  else if String.eqb s "interface" then Some INTERFACE
  else None.

(** [deserialize_entry_visibility]: an entry visible nowhere is refused. *)
Definition entry_visibility_parse (s : string) : option Visibility :=
  v ← visibility_parse s; if bool_decide (v = SEALED) then None else Some v.
Definition default_entry_visibility : Visibility := PRIVATE.

(** ** Declared dependencies *)

Definition SLUG_MAX_LEN : nat := 64.
Definition slug_first (c : ascii) : bool := is_lower c || is_digit c.
Definition slug_rest (c : ascii) : bool := is_lower c || is_digit c || Ascii.eqb c "_" || Ascii.eqb c "-".
(** [SLUG_PATTERN]: [^[a-z0-9][a-z0-9_-]*$]. *)
Definition is_slug (s : string) : bool :=
  match s with EmptyString => false | String c rest => slug_first c && str_forall slug_rest rest end.

(** [struct Dependency], [enum DependencyError]; a [DependencyName] is its text. *)
Record Dependency : Type := mkDependency {
  dep_identifier : PinnedPackageRef;
  dep_visibility : Visibility;
  dep_name : option string;
}.
Inductive DependencyError : Type :=
| DuplicateIdentifier (identifier : PinnedPackageRef)
| InvalidName (name : string)
| DuplicateName (name : string)
| DuplicateRepository (repository : string)
| TooManyDependencies (count max : nat).

(** [TryFrom<String> for DependencyName]. *)
Definition dependency_name_try_from (value : string) : result DependencyError string :=
  if (SLUG_MAX_LEN <? String.length value)%nat || negb (is_slug value) then Err (InvalidName value) else Ok value.

(** [default_dependency_name]; one dash for every character outside the class, the
    continuation bytes of a multi-byte character belonging to its first byte. *)
Fixpoint sanitize (s : string) : string :=
  match s with
  | EmptyString => EmptyString
  | String c s' =>
      if is_continuation c then sanitize s'
      else let c := to_lower c in String (if slug_rest c then c else "-"%char) (sanitize s')
  end.
Definition default_dependency_name (basename : string) : string :=
  match dependency_name_try_from (String.substring 0 SLUG_MAX_LEN (sanitize basename)) with
  | Ok name => name
  | Err _ => "dep"
  end.

(** [Dependency::name], over the last segment of the repository. *)
Definition basename (repository : string) : string := List.last (split_char "/" repository) repository.
Definition dependency_name (d : Dependency) : string :=
  match dep_name d with Some n => n | None => default_dependency_name (basename (pp_repository (dep_identifier d))) end.

(** [Dependencies::new]: the two seen sets, one entry after the other. *)
Definition MAX_DEPENDENCIES : nat := 256.
Fixpoint check_entries (entries : list Dependency) (seen_ids : gset (string * string)) (seen_names : gset string) :
    result DependencyError unit :=
  match entries with
  | [] => Ok tt
  | dep :: rest =>
      let duplicate_name := match dep_name dep with Some name => bool_decide (name ∈ seen_names) | None => false end in
      if duplicate_name then Err (DuplicateName (default "" (dep_name dep)))
      else
        let seen_names := match dep_name dep with Some name => {[name]} ∪ seen_names | None => seen_names end in
        let key := (pp_registry (dep_identifier dep), pp_repository (dep_identifier dep)) in
        if bool_decide (key ∈ seen_ids) then Err (DuplicateIdentifier (dep_identifier dep))
        else check_entries rest ({[key]} ∪ seen_ids) seen_names
  end.
Definition dependencies_new (entries : list Dependency) : result DependencyError (list Dependency) :=
  if (MAX_DEPENDENCIES <? length entries)%nat then Err (TooManyDependencies (length entries) MAX_DEPENDENCIES)
  else let? _ := check_entries entries ∅ ∅ in Ok entries.

(** ** The closure of an installed package *)

#[export] Instance Digest_countable : Countable Digest.
Proof.
  refine (inj_countable' (fun d => match d with DSha256 h => (0%nat, h) | DSha384 h => (1%nat, h) | DSha512 h => (2%nat, h) end)
    (fun p => match p.1 with 0%nat => DSha256 p.2 | 1%nat => DSha384 p.2 | _ => DSha512 p.2 end) _).
  by intros [].
Defined.
#[export] Instance PinnedPackageRef_countable : Countable PinnedPackageRef.
Proof.
  refine (inj_countable' (fun p => (pp_registry p, pp_repository p, pp_tag p, pp_digest p))
    (fun t => match t with (r, n, g, d) => mkPinned r n g d end) _).
  by intros [].
Defined.

(** [struct ResolvedDependency], [struct ResolvedPackage]. *)
Record ResolvedDependency : Type := mkResolvedDependency { rd_identifier : PinnedPackageRef; rd_visibility : Visibility }.
Record ResolvedPackage : Type := mkResolved { rp_dependencies : list ResolvedDependency }.
Definition resolved_new : ResolvedPackage := mkResolved [].

(** [ResolvedPackage::with_dependencies]: one dependency enters, merging into the
    entry that is there; the direct dependency after its own. *)
Abbreviation Seen := (gmap PinnedPackageRef nat).
Definition absorb (acc : list ResolvedDependency * Seen) (item : PinnedPackageRef * Visibility) : list ResolvedDependency * Seen :=
  let '(dependencies, seen) := acc in
  let '(identifier, visibility) := item in
  let key := strip_advisory identifier in
  match seen !! key with
  | Some idx =>
      (alter (fun d => mkResolvedDependency (rd_identifier d) (merge (rd_visibility d) visibility)) idx dependencies, seen)
  | None => ((dependencies ++ [mkResolvedDependency identifier visibility])%list, <[key := length dependencies]> seen)
  end.
Definition absorb_dependency (acc : list ResolvedDependency * Seen) (dep : PinnedPackageRef * ResolvedPackage * Visibility) :
    list ResolvedDependency * Seen :=
  let '(dep_id, child, edge) := dep in
  let acc := fold_left (fun acc transitive =>
    absorb acc (rd_identifier transitive, through_edge edge (rd_visibility transitive))) (rp_dependencies child) acc in
  absorb acc (dep_id, edge).
Definition with_dependencies (self : ResolvedPackage) (deps : list (PinnedPackageRef * ResolvedPackage * Visibility)) : ResolvedPackage :=
  mkResolved (fold_left absorb_dependency deps (rp_dependencies self, ∅)).1.

(** ** Walking a dependency closure

    The metadata-only walk of [crates/ocx_package_manager/src/tasks/common.rs]: the
    concurrent gathering of the nodes, whose fetches finish in any order, and the fold
    that gives each its visibility from the root, a depth-first visit that keeps every
    closure it has built.  [None] stands for a failed [expect], or for fuel run out. *)

(** [CLOSURE_FETCH_CONCURRENCY], [struct ClosureEdge]. *)
Definition CLOSURE_FETCH_CONCURRENCY : nat := 8.
Record ClosureEdge : Type := mkEdge {
  ce_identifier : PinnedPackageRef;
  ce_visibility : Visibility;
  ce_name : string;
}.

(** A loop whose body may fail. *)
Fixpoint option_foldl {A B : Type} (f : B -> A -> option B) (acc : B) (l : list A) : option B :=
  match l with
  | [] => Some acc
  | a :: l' => acc' ← f acc a; option_foldl f acc' l'
  end.

Section Walk.
(** The metadata of a package: its dependencies, and the facts a node copies from it
    (binaries, entry points, environment, integrations). *)
Context {Meta Facts Error : Type} (metadata_dependencies : Meta -> list Dependency) (metadata_facts : Meta -> Facts).

(** [struct ClosureNode], [GatheredClosureNode] without its edges, which are the metadata's. *)
Record ClosureNode : Type := mkNode {
  cn_identifier : PinnedPackageRef;
  cn_config_digest : Digest;
  cn_effective_visibility : option Visibility;
  cn_facts : Facts;
  cn_dependencies : list ClosureEdge;
  cn_is_root : bool;
}.
Definition Gathered : Type := PinnedPackageRef * Digest * Meta * list ClosureEdge.

(** [closure_edges_from_metadata]. *)
Definition closure_edges_from_metadata (metadata : Meta) : list ClosureEdge :=
  map (fun dep => mkEdge (dep_identifier dep) (dep_visibility dep) (dependency_name dep)) (metadata_dependencies metadata).

(** [fetch_closure_node], a read of the index: the resolved identity, the digest of the
    configuration and the metadata. *)
Context (fetch : PinnedPackageRef -> result Error (PinnedPackageRef * Digest * Meta)).

(** ** Gathering *)

Record Gather : Type := mkGather {
  ga_visited : gset PinnedPackageRef;
  ga_next_slot : nat;
  ga_pending : list (nat * ClosureEdge);
  ga_tasks : list (nat * ClosureEdge);
  ga_slots : list (option Gathered);
  ga_resolved_identity : gmap PinnedPackageRef PinnedPackageRef;
  ga_resolved_seen : gset PinnedPackageRef;
}.

(** The discovery of an edge: a slot and a place in the queue, once per identity. *)
Definition discover (g : Gather) (edge : ClosureEdge) : Gather :=
  let key := strip_advisory (ce_identifier edge) in
  if bool_decide (key ∈ ga_visited g) then g
  else mkGather ({[key]} ∪ ga_visited g) (S (ga_next_slot g)) (ga_pending g ++ [(ga_next_slot g, edge)])%list (ga_tasks g) (ga_slots g)
         (ga_resolved_identity g) (ga_resolved_seen g).

(** [admit]: queued edges are spawned while fewer than the bound are running. *)
Fixpoint fill (tasks pending : list (nat * ClosureEdge)) : list (nat * ClosureEdge) * list (nat * ClosureEdge) :=
  match pending with
  | [] => (tasks, [])
  | next :: rest => if (length tasks <? CLOSURE_FETCH_CONCURRENCY)%nat then fill (tasks ++ [next])%list rest else (tasks, pending)
  end.
Definition admit_tasks (g : Gather) : Gather :=
  let '(tasks, pending) := fill (ga_tasks g) (ga_pending g) in
  mkGather (ga_visited g) (ga_next_slot g) pending tasks (ga_slots g) (ga_resolved_identity g) (ga_resolved_seen g).

(** [slots.resize_with], then the slot is filled. *)
Definition set_slot (slots : list (option Gathered)) (slot : nat) (node : Gathered) : list (option Gathered) :=
  <[slot := Some node]> (slots ++ replicate (S slot - length slots) None)%list.

(** One finished fetch, the task at [position]. *)
Definition join_task (g : Gather) (position : nat) : option (result Error Gather) :=
  task ← ga_tasks g !! position;
  Some (
    match fetch (ce_identifier task.2) with
    | Err e => Err e
    | Ok (resolved_pinned, config_digest, metadata) =>
        let edges := closure_edges_from_metadata metadata in
        let resolved_key := strip_advisory resolved_pinned in
        let g := mkGather (ga_visited g) (ga_next_slot g) (ga_pending g) (list_delete position (ga_tasks g)) (ga_slots g)
                   (<[strip_advisory (ce_identifier task.2) := resolved_key]> (ga_resolved_identity g)) (ga_resolved_seen g) in
        let g := fold_left discover edges g in
        let g :=
          if bool_decide (resolved_key ∈ ga_resolved_seen g) then g
          else mkGather (ga_visited g) (ga_next_slot g) (ga_pending g) (ga_tasks g)
                 (set_slot (ga_slots g) task.1 (resolved_pinned, config_digest, metadata, edges))
                 (ga_resolved_identity g) ({[resolved_key]} ∪ ga_resolved_seen g) in
        Ok (admit_tasks g)
    end).

(** [gather_closure_nodes]: [schedule] says which of the running fetches ends next. *)
Fixpoint join_all_tasks (schedule : nat -> nat) (fuel : nat) (g : Gather) : option (result Error Gather) :=
  match ga_tasks g with
  | [] => Some (Ok g)
  | _ :: _ =>
      match fuel with
      | O => None
      | S fuel' =>
          joined ← join_task g (schedule fuel' `mod` length (ga_tasks g))%nat;
          match joined with
          | Err e => Some (Err e)
          | Ok g' => join_all_tasks schedule fuel' g'
          end
      end
  end.
Definition gather_closure_nodes (schedule : nat -> nat) (fuel : nat) (frontier : list ClosureEdge) :
    option (result Error (list Gathered * gmap PinnedPackageRef PinnedPackageRef)) :=
  let g := admit_tasks (fold_left discover frontier (mkGather ∅ 0 [] [] [] ∅ ∅)) in
  done ← join_all_tasks schedule fuel g;
  Some (match done with Ok g => Ok (omap id (ga_slots g), ga_resolved_identity g) | Err e => Err e end).

(** ** The fold *)

(** [resolved_edge_identity], [visit_closure_node]. *)
Definition resolved_edge_identity (resolved_identity : gmap PinnedPackageRef PinnedPackageRef) (edge : ClosureEdge) :
    option PinnedPackageRef :=
  resolved_identity !! strip_advisory (ce_identifier edge).
Definition Visited : Type := gmap PinnedPackageRef ResolvedPackage * list PinnedPackageRef.
Fixpoint visit_closure_node (fuel : nat) (by_identity : gmap PinnedPackageRef Gathered)
    (resolved_identity : gmap PinnedPackageRef PinnedPackageRef) (key : PinnedPackageRef) (acc : Visited) : option Visited :=
  match fuel with
  | O => None
  | S fuel' =>
      match acc.1 !! key with
      | Some _ => Some acc
      | None =>
          node ← by_identity !! key;
          visited ← option_foldl (fun st edge =>
              child_key ← resolved_edge_identity resolved_identity edge;
              acc' ← visit_closure_node fuel' by_identity resolved_identity child_key st.1;
              Some (acc', (st.2 ++ [(child_key, default resolved_new (acc'.1 !! child_key), ce_visibility edge)])%list))
            (acc, []) node.2;
          Some (<[key := with_dependencies resolved_new visited.2]> visited.1.1, (visited.1.2 ++ [key])%list)
      end
  end.

(** [fold_effective_visibility]: every node after what it depends on, the root last. *)
Definition node_of (visibility : option Visibility) (is_root : bool) (identifier : PinnedPackageRef) (config_digest : Digest)
    (metadata : Meta) (edges : list ClosureEdge) : ClosureNode :=
  mkNode identifier config_digest visibility (metadata_facts metadata) edges is_root.
Definition by_identity_of (gathered : list Gathered) : gmap PinnedPackageRef Gathered :=
  fold_left (fun m (entry : Gathered) => <[strip_advisory entry.1.1.1 := entry]> m) gathered ∅.
Definition effective_of (closure : ResolvedPackage) : gmap PinnedPackageRef Visibility :=
  fold_left (fun m dep => <[strip_advisory (rd_identifier dep) := rd_visibility dep]> m) (rp_dependencies closure) ∅.
Definition fold_effective_visibility (fuel : nat) (root_pinned : PinnedPackageRef) (root_metadata : Meta) (root_config_digest : Digest)
    (gathered : list Gathered) (resolved_identity : gmap PinnedPackageRef PinnedPackageRef) : option (list ClosureNode) :=
  let by_identity := by_identity_of gathered in
  let root_edges := closure_edges_from_metadata root_metadata in
  visited ← option_foldl (fun acc edge =>
      resolved_key ← resolved_edge_identity resolved_identity edge;
      visit_closure_node fuel by_identity resolved_identity resolved_key acc) (∅, []) root_edges;
  root_children ← mapM (fun edge =>
      resolved_key ← resolved_edge_identity resolved_identity edge;
      Some (resolved_key, default resolved_new (visited.1 !! resolved_key), ce_visibility edge)) root_edges;
  let effective := effective_of (with_dependencies resolved_new root_children) in
  nodes ← mapM (fun key =>
      '(identifier, config_digest, metadata, edges) ← by_identity !! key;
      visibility ← effective !! key;
      Some (node_of (Some visibility) false identifier config_digest metadata edges)) visited.2;
  Some (nodes ++ [node_of None true root_pinned root_config_digest root_metadata root_edges])%list.

(** [walk_closure_nodes]. *)
Definition walk_closure_nodes (schedule : nat -> nat) (gather_fuel visit_fuel : nat) (root_pinned : PinnedPackageRef)
    (root_metadata : Meta) (root_config_digest : Digest) : option (result Error (list ClosureNode)) :=
  let frontier := closure_edges_from_metadata root_metadata in
  gathered ← gather_closure_nodes schedule gather_fuel frontier;
  match gathered with
  | Err e => Some (Err e)
  | Ok (nodes, resolved_identity) =>
      Ok <$> fold_effective_visibility visit_fuel root_pinned root_metadata root_config_digest nodes resolved_identity
  end.
End Walk.
