(* ===== verification/ClosureSpec.v ===== *)
(** * What a closure records

    The closure of a package lists each package it depends on once, after everything
    that one depends on; and a dependency is visible to the package's own runtime, or
    to its consumers, exactly when some path of the dependency graph carries it there. *)

From stdpp Require Import base decidable list option numbers strings gmap relations.
From Stdlib Require Import Lia Ascii.
From S2P Require Import Prelude OMap Text Digest PackageRef Store Closure.
Local Open Scope ocx_scope.
Local Open Scope string_scope.

Definition key_of (d : ResolvedDependency) : PinnedPackageRef := strip_advisory (rd_identifier d).
Definition keys_of (deps : list ResolvedDependency) : list PinnedPackageRef := map key_of deps.
Definition item_keys (items : list (PinnedPackageRef * Visibility)) : list PinnedPackageRef := map (fun it => strip_advisory it.1) items.

(** Some item of a key is visible along an axis. *)
Definition shows (axis : Visibility -> bool) (items : list (PinnedPackageRef * Visibility)) (k : PinnedPackageRef) : Prop :=
  exists it, it ∈ items /\ strip_advisory it.1 = k /\ axis it.2 = true.

(** What the accumulator knows of the items it absorbed: each key once and at its
    recorded index, behind the keys that came before it, with the merged visibility. *)
Record absorbed (items : list (PinnedPackageRef * Visibility)) (deps : list ResolvedDependency) (seen : Seen) : Prop := {
  absorbed_nodup : NoDup (keys_of deps);
  absorbed_index : forall k i, seen !! k = Some i <-> keys_of deps !! i = Some k;
  absorbed_keys : forall k, k ∈ keys_of deps <-> k ∈ item_keys items;
  absorbed_private : forall d, d ∈ deps -> vis_private (rd_visibility d) = true <-> shows vis_private items (key_of d);
  absorbed_interface : forall d, d ∈ deps -> vis_interface (rd_visibility d) = true <-> shows vis_interface items (key_of d);
  absorbed_order : forall i k, keys_of deps !! i = Some k -> exists pre it post, items = (pre ++ it :: post)%list /\
    strip_advisory it.1 = k /\ forall k', k' ∈ item_keys pre -> exists j, (j < i)%nat /\ keys_of deps !! j = Some k';
}.

Lemma absorbed_nil : absorbed [] [] ∅.
Proof.
  split; [constructor|..].
  - intros k i. rewrite lookup_empty. by destruct i.
  - done.
  - intros d Hd. by apply elem_of_nil in Hd.
  - intros d Hd. by apply elem_of_nil in Hd.
  - by intros [] k.
Qed.

Lemma shows_snoc axis items it k :
  shows axis (items ++ [it])%list k <-> shows axis items k \/ (strip_advisory it.1 = k /\ axis it.2 = true).
Proof.
  unfold shows. split.
  - intros (it' & [Hin|Hin]%elem_of_app & Hk & Ha); [left; eauto|]. apply list_elem_of_singleton in Hin as ->. auto.
  - intros [(it' & Hin & Hk & Ha)|[Hk Ha]]; [exists it'|exists it]; rewrite elem_of_app, list_elem_of_singleton; auto.
Qed.
Lemma item_keys_snoc items it : item_keys (items ++ [it]) = (item_keys items ++ [strip_advisory it.1])%list.
Proof. unfold item_keys. by rewrite map_app. Qed.
Lemma keys_alter f i deps : (forall d, rd_identifier (f d) = rd_identifier d) -> keys_of (alter f i deps) = keys_of deps.
Proof.
  intros Hf. unfold keys_of. revert i. induction deps as [|d deps IH]; intros [|i]; try done; simpl; f_equal; [|apply IH].
  unfold key_of. by rewrite Hf.
Qed.

Lemma shows_absent axis items k : k ∉ item_keys items -> ~ shows axis items k.
Proof. intros Hk (it & Hin & <- & _). apply Hk, list_elem_of_fmap. eauto. Qed.

(** A key not seen before is appended. *)
Lemma absorb_new items deps seen it : absorbed items deps seen -> strip_advisory it.1 ∉ item_keys items ->
  absorbed (items ++ [it]) (deps ++ [mkResolvedDependency it.1 it.2]) (<[strip_advisory it.1 := length deps]> seen).
Proof.
  intros [Hn Hi Hk Hp Hf Ho] Hnew. set (k0 := strip_advisory it.1) in *.
  assert (keys_of (deps ++ [mkResolvedDependency it.1 it.2]) = keys_of deps ++ [k0])%list as Hkeys by (unfold keys_of; by rewrite map_app).
  assert (length (keys_of deps) = length deps) as Hlen by apply length_map.
  assert (k0 ∉ keys_of deps) as Hout by by rewrite Hk.
  assert (forall d, d ∈ deps -> key_of d <> k0) as Hne.
  { intros d Hd E. apply Hout. rewrite <- E. by apply list_elem_of_fmap_2. }
  split.
  - rewrite Hkeys. apply NoDup_app. split_and!; [done| |apply NoDup_singleton]. by intros k Hin ->%list_elem_of_singleton.
  - intros k i. rewrite Hkeys. destruct (decide (k = k0)) as [->|Hkk].
    + rewrite lookup_insert_eq. split.
      * intros [= <-]. by rewrite list_lookup_middle.
      * intros [Hl|[Hge Hl]]%lookup_app_Some; [exfalso; apply Hout; by eapply list_elem_of_lookup_2|].
        f_equal. apply lookup_lt_Some in Hl. simpl in Hl. lia.
    + rewrite lookup_insert_ne, Hi by done. split; [intros Hl; by apply lookup_app_l_Some|].
      intros [Hl|[_ Hl]]%lookup_app_Some; [done|]. apply list_lookup_singleton_Some in Hl as [_ ->]. done.
  - intros k. rewrite Hkeys, item_keys_snoc, !elem_of_app, Hk. done.
  - intros d [Hd| ->%list_elem_of_singleton]%elem_of_app; rewrite shows_snoc.
    + rewrite (Hp d Hd). split; [auto|]. intros [?|[E _]]; [done|]. by destruct (Hne d Hd).
    + pose proof (shows_absent vis_private _ _ Hnew). unfold key_of. simpl. fold k0. naive_solver.
  - intros d [Hd| ->%list_elem_of_singleton]%elem_of_app; rewrite shows_snoc.
    + rewrite (Hf d Hd). split; [auto|]. intros [?|[E _]]; [done|]. by destruct (Hne d Hd).
    + pose proof (shows_absent vis_interface _ _ Hnew). unfold key_of. simpl. fold k0. naive_solver.
  - intros i k. rewrite Hkeys. intros [Hl|[Hge Hl]]%lookup_app_Some.
    + destruct (Ho i k Hl) as (pre & x & post & -> & Hx & Hpre). exists pre, x, (post ++ [it])%list.
      split_and!; [by rewrite <- app_assoc|done|]. intros k' (j & Hj & Hjk)%Hpre. exists j. split; [done|]. by apply lookup_app_l_Some.
    + apply list_lookup_singleton_Some in Hl as [Hi0 <-]. exists items, it, []. split_and!; [done|done|].
      intros k' Hk'. apply Hk, list_elem_of_lookup in Hk' as [j Hj]. exists j. pose proof (lookup_lt_Some _ _ _ Hj).
      split; [lia|by apply lookup_app_l_Some].
Qed.

(** A key seen before merges its visibility into its entry. *)
Definition merge_into (v : Visibility) (d : ResolvedDependency) : ResolvedDependency :=
  mkResolvedDependency (rd_identifier d) (merge (rd_visibility d) v).

Lemma merged_axis (axis : Visibility -> bool) items deps seen it idx :
  absorbed items deps seen -> seen !! strip_advisory it.1 = Some idx ->
  (forall v w, axis (merge v w) = axis v || axis w) ->
  (forall d, d ∈ deps -> axis (rd_visibility d) = true <-> shows axis items (key_of d)) ->
  forall d, d ∈ alter (merge_into it.2) idx deps -> axis (rd_visibility d) = true <-> shows axis (items ++ [it])%list (key_of d).
Proof.
  intros Ha Hs Hm Hx d Hd. apply list_elem_of_lookup in Hd as [j Hj]. rewrite shows_snoc.
  rewrite (absorbed_index _ _ _ Ha) in Hs. destruct (decide (j = idx)) as [->|Hne].
  - rewrite list_lookup_alter_eq in Hj. destruct (deps !! idx) as [d0|] eqn:E0; [|done]. injection Hj as <-.
    assert (key_of d0 = strip_advisory it.1) as Hkey.
    { unfold keys_of in Hs. rewrite list_lookup_fmap, E0 in Hs. by apply (inj Some) in Hs. }
    change (key_of (merge_into it.2 d0)) with (key_of d0). simpl. rewrite Hm, orb_true_iff, (Hx d0), Hkey by by eapply list_elem_of_lookup_2.
    naive_solver.
  - rewrite list_lookup_alter_ne in Hj by done. rewrite (Hx d) by by eapply list_elem_of_lookup_2.
    split; [auto|]. intros [?|[E _]]; [done|]. exfalso. apply Hne.
    assert (keys_of deps !! j = Some (strip_advisory it.1)) as Hj'.
    { unfold keys_of. rewrite list_lookup_fmap, Hj. simpl. by rewrite <- E. }
    by eapply NoDup_lookup; [apply (absorbed_nodup _ _ _ Ha)|..].
Qed.

Lemma absorb_old items deps seen it idx : absorbed items deps seen -> seen !! strip_advisory it.1 = Some idx ->
  absorbed (items ++ [it]) (alter (merge_into it.2) idx deps) seen.
Proof.
  intros Ha Hs. pose proof (keys_alter (merge_into it.2) idx deps (fun _ => eq_refl)) as Hkeys.
  pose proof Ha as [Hn Hi Hk Hp Hf Ho]. split; rewrite ?Hkeys; try done.
  - intros k. rewrite Hk, item_keys_snoc, elem_of_app, list_elem_of_singleton. split; [auto|]. intros [?| ->]; [done|].
    apply Hk. apply Hi in Hs. by eapply list_elem_of_lookup_2.
  - by apply (merged_axis vis_private items deps seen).
  - by apply (merged_axis vis_interface items deps seen).
  - intros i k Hl. rewrite ?Hkeys in *. destruct (Ho i k Hl) as (pre & x & post & -> & Hx & Hpre). exists pre, x, (post ++ [it])%list.
    split_and!; [by rewrite <- app_assoc|done|done].
Qed.

Lemma absorb_step items deps seen it : absorbed items deps seen ->
  absorbed (items ++ [it]) (absorb (deps, seen) it).1 (absorb (deps, seen) it).2.
Proof.
  intros Ha. destruct it as [identifier v]. unfold absorb. destruct (seen !! strip_advisory identifier) as [idx|] eqn:E; simpl.
  - by apply (absorb_old items deps seen (identifier, v)).
  - apply (absorb_new items deps seen (identifier, v)); [done|]. rewrite <- (absorbed_keys _ _ _ Ha). simpl.
    intros [i Hi]%list_elem_of_lookup. apply (absorbed_index _ _ _ Ha) in Hi. congruence.
Qed.

Lemma absorb_all new : forall items deps seen, absorbed items deps seen ->
  absorbed (items ++ new) (fold_left absorb new (deps, seen)).1 (fold_left absorb new (deps, seen)).2.
Proof.
  induction new as [|it new IH]; intros items deps seen Ha; cbn [fold_left]; [by rewrite app_nil_r|].
  pose proof (absorb_step items deps seen it Ha) as Hs. destruct (absorb (deps, seen) it) as [deps' seen']. simpl in Hs.
  pose proof (IH _ _ _ Hs) as Hgo. rewrite <- app_assoc in Hgo. exact Hgo.
Qed.

(** What a direct dependency brings: its closure through the edge, then itself. *)
Definition contributions (dep : PinnedPackageRef * ResolvedPackage * Visibility) : list (PinnedPackageRef * Visibility) :=
  let '(dep_id, child, edge) := dep in
  (map (fun t => (rd_identifier t, through_edge edge (rd_visibility t))) (rp_dependencies child) ++ [(dep_id, edge)])%list.

Lemma with_dependencies_items deps : with_dependencies resolved_new deps =
  mkResolved (fold_left absorb (concat (map contributions deps)) ([], ∅)).1.
Proof.
  unfold with_dependencies. f_equal. f_equal. simpl. generalize (([], ∅) : list ResolvedDependency * Seen).
  induction deps as [|[[dep_id child] edge] deps IH]; intros acc; [done|]. simpl. rewrite IH, fold_left_app, fold_left_app. simpl.
  f_equal. f_equal. generalize acc. induction (rp_dependencies child) as [|t ts IHt]; intros acc'; [done|]. simpl. apply IHt.
Qed.

(** ** The graph of packages *)

Lemma tc_first {A : Type} (R : relation A) x z : tc R x z <-> exists y, R x y /\ rtc R y z.
Proof.
  split; [destruct 1 as [x z|x y z]; [by exists z|exists y; split; [done|by apply tc_rtc]]|].
  intros (y & Hxy & Hr). apply rtc_tc in Hr as [<-|?]; [by apply tc_once|by eapply tc_l].
Qed.

Section Graph.
(** What each package declares, by the pinned reference without its advisory tag. *)
Context (declared : PinnedPackageRef -> list (PinnedPackageRef * Visibility)).

(** The closures as an installation builds them, dependencies first.  [None] when the
    fuel runs out. *)
Fixpoint closure_of (fuel : nat) (k : PinnedPackageRef) : option ResolvedPackage :=
  match fuel with
  | O => None
  | S fuel' =>
      deps ← mapM (fun d => child ← closure_of fuel' (strip_advisory d.1); Some (d.1, child, d.2)) (declared k);
      Some (with_dependencies resolved_new deps)
  end.

(** The edges, and those a consumer sees through. *)
Definition depends (a b : PinnedPackageRef) : Prop := exists d v, (d, v) ∈ declared a /\ b = strip_advisory d.
Definition exports (a b : PinnedPackageRef) : Prop :=
  exists d v, (d, v) ∈ declared a /\ b = strip_advisory d /\ vis_interface v = true.

(** A closure records the packages a root depends on, in order, with their visibility. *)
Record records (root : PinnedPackageRef) (rp : ResolvedPackage) : Prop := {
  records_once : NoDup (keys_of (rp_dependencies rp));
  records_closure : forall k, k ∈ keys_of (rp_dependencies rp) <-> tc depends root k;
  records_order : forall i k b, keys_of (rp_dependencies rp) !! i = Some k -> depends k b ->
    exists j, (j < i)%nat /\ keys_of (rp_dependencies rp) !! j = Some b;
  records_private : forall d, d ∈ rp_dependencies rp -> vis_private (rd_visibility d) = true <->
    exists first v, (first, v) ∈ declared root /\ vis_private v = true /\ rtc exports (strip_advisory first) (key_of d);
  records_interface : forall d, d ∈ rp_dependencies rp -> vis_interface (rd_visibility d) = true <-> tc exports root (key_of d);
}.

(** The items of a root: the closures of its dependencies are as recorded. *)
Definition items_of (children : list (PinnedPackageRef * ResolvedPackage * Visibility)) : list (PinnedPackageRef * Visibility) :=
  concat (map contributions children).

Lemma items_In children it : it ∈ items_of children <-> exists dep_id child edge, (dep_id, child, edge) ∈ children /\
  (it = (dep_id, edge) \/ exists t, t ∈ rp_dependencies child /\ it = (rd_identifier t, through_edge edge (rd_visibility t))).
Proof.
  unfold items_of. rewrite list_elem_of_In, in_concat. split.
  - intros (x & Hx & Hin). apply in_map_iff in Hx as ([[dep_id child] edge] & <- & Hc). exists dep_id, child, edge.
    rewrite list_elem_of_In. split; [done|]. simpl in Hin. apply in_app_iff in Hin as [Hin|[<-|[]]]; [right|by left].
    apply in_map_iff in Hin as (t & <- & Ht). exists t. by rewrite list_elem_of_In.
  - intros (dep_id & child & edge & Hc & Hit). apply list_elem_of_In in Hc. exists (contributions (dep_id, child, edge)).
    split; [by apply in_map|]. simpl. apply in_app_iff. destruct Hit as [->|(t & Ht & ->)]; [by right; left|left].
    apply in_map_iff. exists t. split; [done|]. by apply list_elem_of_In.
Qed.

(** Keys in an order that puts after each only what it depends on. *)
Fixpoint ordered (before : list PinnedPackageRef) (keys : list PinnedPackageRef) : Prop :=
  match keys with
  | [] => True
  | k :: rest => (forall b, depends k b -> b ∈ before) /\ ordered (before ++ [k]) rest
  end.

Lemma ordered_mono before before' keys : (forall k, k ∈ before -> k ∈ before') -> ordered before keys -> ordered before' keys.
Proof.
  revert before before'. induction keys as [|k keys IH]; intros before before' Hsub; [done|]. intros [Hk Hr]. split; [by eauto|].
  eapply IH; [|exact Hr]. intros x. rewrite !elem_of_app. naive_solver.
Qed.
Lemma ordered_app before l1 l2 : ordered before (l1 ++ l2) <-> ordered before l1 /\ ordered (before ++ l1) l2.
Proof.
  revert before. induction l1 as [|k l1 IH]; intros before; simpl; [rewrite app_nil_r; naive_solver|].
  rewrite IH, <- app_assoc. simpl. naive_solver.
Qed.
Lemma ordered_split before l1 k l2 b : ordered before (l1 ++ k :: l2) -> depends k b -> b ∈ (before ++ l1)%list.
Proof. rewrite ordered_app. intros [_ [Hk _]]. apply Hk. Qed.
Lemma ordered_index keys :
  (forall i k b, keys !! i = Some k -> depends k b -> exists j, (j < i)%nat /\ keys !! j = Some b) -> ordered [] keys.
Proof.
  induction keys as [|k keys IH] using rev_ind; intros Hi; [done|]. apply ordered_app. split.
  - apply IH. intros i k' b Hk Hb. destruct (Hi i k' b) as (j & Hj & Hjb); [by apply lookup_app_l_Some|done|].
    exists j. split; [done|]. apply lookup_lt_Some in Hk. rewrite lookup_app_l in Hjb by lia. done.
  - split; [|done]. intros b Hb. destruct (Hi (length keys) k b) as (j & Hj & Hjb); [by apply list_lookup_middle|done|].
    rewrite lookup_app_l in Hjb by done. by eapply list_elem_of_lookup_2.
Qed.

Section Root.
Context (root : PinnedPackageRef) (children : list (PinnedPackageRef * ResolvedPackage * Visibility)).
(** The children are the declared dependencies, each with its recorded closure. *)
Hypothesis (Hchildren : forall d v, (d, v) ∈ declared root <-> exists child, (d, child, v) ∈ children).
Hypothesis (Hrecords : forall d child v, (d, child, v) ∈ children -> records (strip_advisory d) child).

Lemma item_keys_depends k : k ∈ item_keys (items_of children) <-> tc depends root k.
Proof.
  unfold item_keys. rewrite list_elem_of_fmap. split.
  - intros (it & -> & (d & child & v & Hc & Hit)%items_In).
    assert (depends root (strip_advisory d)) as Hd by (exists d, v; split; [apply Hchildren; eauto|done]).
    destruct Hit as [->|(t & Ht & ->)]; [by apply tc_once|]. simpl. eapply tc_l; [exact Hd|].
    apply (records_closure _ _ (Hrecords _ _ _ Hc)). by apply list_elem_of_fmap_2 with (f := key_of).
  - intros (y & (d & v & Hd & ->) & Hr)%tc_first. apply Hchildren in Hd as [child Hc]. apply rtc_tc in Hr as [<-|Hr].
    + exists (d, v). split; [done|]. apply items_In. exists d, child, v. auto.
    + apply (records_closure _ _ (Hrecords _ _ _ Hc)), list_elem_of_fmap in Hr as (t & -> & Ht).
      exists (rd_identifier t, through_edge v (rd_visibility t)). split; [done|]. apply items_In. exists d, child, v. eauto.
Qed.

(** Every item comes after the keys of what it depends on. *)
Lemma items_ordered : ordered [] (item_keys (items_of children)).
Proof.
  clear Hchildren. unfold items_of. generalize ([] : list PinnedPackageRef).
  induction children as [|[[d child] v] rest IH]; intros acc; [done|].
  assert (records (strip_advisory d) child) as Hc by (apply (Hrecords d child v), list_elem_of_here).
  unfold item_keys. cbn [map concat contributions]. rewrite !map_app, <- app_assoc. apply ordered_app. split.
  - rewrite map_map. apply (ordered_mono []); [by intros ? ?%elem_of_nil|]. apply ordered_index. exact (records_order _ _ Hc).
  - cbn [map app ordered fst]. rewrite map_map. split.
    + intros b Hb. apply elem_of_app. right. apply (records_closure _ _ Hc). by apply tc_once.
    + apply IH. intros d' c' v' Hin. apply (Hrecords d' c' v'). by apply list_elem_of_further.
Qed.

(** What a consumer of a dependency sees enters through the edge unchanged. *)
Lemma child_item d child v k : (d, child, v) ∈ children -> rtc exports (strip_advisory d) k ->
  exists it, it ∈ items_of children /\ strip_advisory it.1 = k /\ it.2 = v.
Proof.
  intros Hc Hr. apply rtc_tc in Hr as [<-|Hr].
  - exists (d, v). split_and!; [|done|done]. apply items_In. exists d, child, v. auto.
  - assert (k ∈ keys_of (rp_dependencies child)) as Hin.
    { apply (records_closure _ _ (Hrecords _ _ _ Hc)). clear -Hr.
      induction Hr as [x y (d' & v' & ? & ? & _)|x y z (d' & v' & ? & ? & _) _ IH]; [apply tc_once; by exists d', v'|].
      eapply tc_l; [|exact IH]. by exists d', v'. }
    apply list_elem_of_fmap in Hin as (t & -> & Ht). exists (rd_identifier t, through_edge v (rd_visibility t)).
    split_and!; [|done|]; [apply items_In; exists d, child, v; eauto|]. simpl. unfold through_edge.
    by rewrite (proj2 (records_interface _ _ (Hrecords _ _ _ Hc) t Ht)).
Qed.

Lemma shows_interface k : shows vis_interface (items_of children) k <-> tc exports root k.
Proof.
  unfold shows. rewrite tc_first. split.
  - intros (it & (d & child & v & Hc & Hit)%items_In & <- & Hv). exists (strip_advisory d).
    destruct Hit as [->|(t & Ht & ->)]; simpl in *.
    + split; [|done]. exists d, v. split_and!; [apply Hchildren; eauto|done|done].
    + unfold through_edge in Hv. destruct (vis_interface (rd_visibility t)) eqn:Et; [|done]. split.
      * exists d, v. split_and!; [apply Hchildren; eauto|done|done].
      * apply tc_rtc. by apply (records_interface _ _ (Hrecords _ _ _ Hc) t Ht).
  - intros (y & (d & v & Hd & -> & Hv) & Hr). apply Hchildren in Hd as [child Hc]. destruct (child_item d child v k Hc Hr) as (it & ? & ? & <-). eauto.
Qed.

Lemma shows_private k : shows vis_private (items_of children) k <->
  exists first v, (first, v) ∈ declared root /\ vis_private v = true /\ rtc exports (strip_advisory first) k.
Proof.
  unfold shows. split.
  - intros (it & (d & child & v & Hc & Hit)%items_In & <- & Hv). exists d, v. split; [apply Hchildren; eauto|].
    destruct Hit as [->|(t & Ht & ->)]; simpl in *; [done|].
    unfold through_edge in Hv. destruct (vis_interface (rd_visibility t)) eqn:Et; [|done]. split; [done|].
    apply tc_rtc. by apply (records_interface _ _ (Hrecords _ _ _ Hc) t Ht).
  - intros (d & v & Hd & Hv & Hr). apply Hchildren in Hd as [child Hc]. destruct (child_item d child v k Hc Hr) as (it & ? & ? & <-). eauto.
Qed.

Lemma root_records : records root (with_dependencies resolved_new children).
Proof.
  rewrite with_dependencies_items. pose proof (absorb_all (items_of children) [] [] ∅ absorbed_nil) as Ha. unfold items_of in Ha.
  destruct (fold_left absorb _ _) as [deps seen]. fold (items_of children) in Ha. simpl in Ha. split; simpl.
  - apply (absorbed_nodup _ _ _ Ha).
  - intros k. rewrite (absorbed_keys _ _ _ Ha). apply item_keys_depends.
  - intros i k b Hk Hb. destruct (absorbed_order _ _ _ Ha i k Hk) as (pre & it & post & E & <- & Hpre). apply Hpre.
    pose proof items_ordered as Ho. rewrite E in Ho. unfold item_keys in Ho. rewrite map_app in Ho. cbn [map] in Ho.
    by apply (ordered_split [] _ _ _ _ Ho).
  - intros d Hd. rewrite (absorbed_private _ _ _ Ha d Hd). apply shows_private.
  - intros d Hd. rewrite (absorbed_interface _ _ _ Ha d Hd). apply shows_interface.
Qed.
End Root.

Lemma closure_of_records fuel : forall k rp, closure_of fuel k = Some rp -> records k rp.
Proof.
  induction fuel as [|fuel IH]; intros k rp; [done|]. simpl. intros (children & Hc & [= <-])%bind_Some.
  apply mapM_Some_1 in Hc.
  assert (forall d v, (d, v) ∈ declared k -> exists child, (d, child, v) ∈ children) as H1.
  { intros d v [i Hi]%list_elem_of_lookup. destruct (Forall2_lookup_l _ _ _ _ _ Hc Hi) as (c & Hci & (child & _ & [= <-])%bind_Some).
    exists child. by eapply list_elem_of_lookup_2. }
  assert (forall d child v, (d, child, v) ∈ children -> (d, v) ∈ declared k /\ records (strip_advisory d) child) as H2.
  { intros d child v [i Hi]%list_elem_of_lookup.
    destruct (Forall2_lookup_r _ _ _ _ _ Hc Hi) as ([d' v'] & Hd & (child' & Hchild & [= -> -> ->])%bind_Some). simpl in *.
    split; [by eapply list_elem_of_lookup_2|by apply IH]. }
  apply root_records; [|by apply H2]. intros d v. split; [apply H1|]. intros [child Hin]. by apply (H2 d child v).
Qed.

Lemma closure_of_total (rank : PinnedPackageRef -> nat) : (forall a b, depends a b -> (rank b < rank a)%nat) ->
  forall fuel k, (rank k < fuel)%nat -> is_Some (closure_of fuel k).
Proof.
  intros Hrank. induction fuel as [|fuel IH]; intros k Hk; [lia|]. simpl.
  destruct (mapM_is_Some_2 (fun d => child ← closure_of fuel (strip_advisory d.1); Some (d.1, child, d.2)) (declared k)) as [children ->].
  - apply Forall_forall. intros [d v] Hd. destruct (IH (strip_advisory d)) as [child Hchild].
    + assert (rank (strip_advisory d) < rank k)%nat; [|lia]. apply Hrank. by exists d, v.
    + simpl. rewrite Hchild. simpl. eauto.
  - simpl. eauto.
Qed.
End Graph.

(** C12: over any acyclic graph of packages the closures an installation builds exist and
    are right: each package the root depends on is listed once, whatever advisory tags
    name it, after everything it depends on itself; consumers of the root see it exactly
    when a path of interface edges leads to it, and the root's own runtime exactly when a
    private edge and then such a path do. *)
Theorem closure_exact declared (rank : PinnedPackageRef -> nat) fuel root :
  (forall a b, depends declared a b -> (rank b < rank a)%nat) -> (rank root < fuel)%nat ->
  exists rp, closure_of declared fuel root = Some rp /\ records declared root rp.
Proof.
  intros Hrank Hf. destruct (closure_of_total declared rank Hrank fuel root Hf) as [rp Hrp].
  exists rp. split; [done|]. by eapply closure_of_records.
Qed.

(** A diamond: an application uses a tool privately and a library publicly, and both
    use a third package, the tool for its consumers, the library for itself alone. *)
Definition diamond_package (c : ascii) (tag : option string) : PinnedPackageRef :=
  mkPinned "ocx.sh" (String c "") tag (DSha256 (String.string_of_list_ascii (repeat c 64))).
Definition diamond (k : PinnedPackageRef) : list (PinnedPackageRef * Visibility) :=
  if String.eqb (pp_repository k) "a" then [(diamond_package "b" (Some "1"), PRIVATE); (diamond_package "c" None, PUBLIC)]
  else if String.eqb (pp_repository k) "b" then [(diamond_package "d" (Some "2"), INTERFACE)]
  else if String.eqb (pp_repository k) "c" then [(diamond_package "d" (Some "3"), PRIVATE)]
  else [].
Definition diamond_rank (k : PinnedPackageRef) : nat :=
  if String.eqb (pp_repository k) "a" then 2 else if String.eqb (pp_repository k) "b" then 1 else if String.eqb (pp_repository k) "c" then 1 else 0.

Lemma closure_exact_witness : exists rp, closure_of diamond 3 (diamond_package "a" None) = Some rp /\
  map (fun d => (rd_identifier d, rd_visibility d)) (rp_dependencies rp) =
    [(diamond_package "d" (Some "2"), PRIVATE); (diamond_package "b" (Some "1"), PRIVATE); (diamond_package "c" None, PUBLIC)] /\
  records diamond (diamond_package "a" None) rp.
Proof.
  destruct (closure_exact diamond diamond_rank 3 (diamond_package "a" None)) as (rp & Hrp & Hr).
  - intros a b (d & v & Hd & ->). unfold diamond in Hd. unfold diamond_rank.
    destruct (String.eqb (pp_repository a) "a"); [apply list_elem_of_In in Hd as [[= <- <-]|[[= <- <-]|[]]]; vm_compute; lia|].
    destruct (String.eqb (pp_repository a) "b"); [apply list_elem_of_In in Hd as [[= <- <-]|[]]; vm_compute; lia|].
    destruct (String.eqb (pp_repository a) "c"); [apply list_elem_of_In in Hd as [[= <- <-]|[]]; vm_compute; lia|].
    by apply elem_of_nil in Hd.
  - vm_compute. lia.
  - exists rp. split; [done|]. split; [|done]. vm_compute in Hrp. injection Hrp as <-. vm_compute. reflexivity.
Defined.

(** ** Texts and declarations *)

Lemma visibility_roundtrip v : visibility_parse (visibility_text v) = Some v.
Proof. by destruct v as [[] []]. Qed.

Definition repository_key (d : Dependency) : string * string := (pp_registry (dep_identifier d), pp_repository (dep_identifier d)).

Lemma check_entries_Ok entries : forall ids names, check_entries entries ids names = Ok tt <->
  NoDup (map repository_key entries) /\ NoDup (omap dep_name entries) /\
  (forall k, k ∈ map repository_key entries -> k ∉ ids) /\ (forall n, n ∈ omap dep_name entries -> n ∉ names).
Proof.
  induction entries as [|d entries IH]; intros ids names; simpl.
  { split; [|done]. intros _. split_and!; try constructor; intros ? Hin; by apply elem_of_nil in Hin. }
  fold (repository_key d). destruct (dep_name d) as [name|] eqn:En; simpl.
  - case_bool_decide as Hn; [split; [done|]; intros (_ & _ & _ & Hnames); exfalso; by apply (Hnames name), Hn; apply list_elem_of_here|].
    case_bool_decide as Hk; [split; [done|]; intros (_ & _ & Hids & _); exfalso; by apply (Hids (repository_key d)), Hk; apply list_elem_of_here|].
    rewrite IH, !NoDup_cons. setoid_rewrite elem_of_cons. setoid_rewrite not_elem_of_union. setoid_rewrite not_elem_of_singleton. naive_solver.
  - case_bool_decide as Hk; [split; [done|]; intros (_ & _ & Hids & _); exfalso; by apply (Hids (repository_key d)), Hk; apply list_elem_of_here|].
    rewrite IH, !NoDup_cons. setoid_rewrite elem_of_cons. setoid_rewrite not_elem_of_union. setoid_rewrite not_elem_of_singleton. naive_solver.
Qed.

(** A declaration is accepted exactly when it is within the bound and repeats neither a
    repository nor an explicit name; default names are not looked at. *)
Lemma dependencies_new_exact entries accepted : dependencies_new entries = Ok accepted <->
  accepted = entries /\ (length entries <= MAX_DEPENDENCIES)%nat /\ NoDup (map repository_key entries) /\ NoDup (omap dep_name entries).
Proof.
  unfold dependencies_new. destruct (MAX_DEPENDENCIES <? length entries)%nat eqn:E; [apply Nat.ltb_lt in E|apply Nat.ltb_ge in E].
  { split; [done|]. intros (_ & ? & _). lia. }
  pose proof (check_entries_Ok entries ∅ ∅) as Hc. destruct (check_entries entries ∅ ∅) as [[]|e]; simpl.
  - destruct (proj1 Hc eq_refl) as (? & ? & _). naive_solver.
  - split; [done|]. intros (_ & _ & Hk & Hn). exfalso. assert (Err (A := unit) e = Ok tt); [|done]. apply Hc.
    split_and!; [done|done|intros ? _; apply not_elem_of_empty|intros ? _; apply not_elem_of_empty].
Qed.
