(* ===== verification/ClosureWalkSpec.v ===== *)
(** * The gathering of a closure

    Whatever order the fetches finish in, the gathering ends, with one node for every
    package reached, and with the resolved identity of every edge it met. *)

From stdpp Require Import base decidable list option numbers strings gmap sets relations.
From Stdlib Require Import Lia Ascii.
From S2P Require Import Prelude OMap Text Digest PackageRef Store Closure ClosureSpec.
Local Open Scope ocx_scope.
Local Open Scope string_scope.

(** ** Slots *)

Lemma omap_id_replicate {A : Type} n : omap id (replicate n (None : option A)) = [].
Proof. by induction n. Qed.

Lemma insert_slot {A : Type} (slots : list (option A)) i x : slots !! i = Some None ->
  Permutation (omap id (<[i := Some x]> slots)) (x :: omap id slots).
Proof.
  revert i. induction slots as [|[y|] slots IH]; intros [|i]; simpl; try done.
  - intros Hi. rewrite (IH i Hi). apply Permutation_swap.
  - intros Hi. by apply IH.
Qed.

Lemma set_slot_perm {Meta : Type} (slots : list (option (@Gathered Meta))) i x : slots !! i = None \/ slots !! i = Some None ->
  Permutation (omap id (set_slot slots i x)) (x :: omap id slots).
Proof.
  intros Hi. unfold set_slot. rewrite insert_slot.
  - by rewrite omap_app, omap_id_replicate, app_nil_r.
  - destruct Hi as [Hi|Hi]; [|by apply lookup_app_l_Some]. apply lookup_ge_None in Hi.
    rewrite lookup_app_r by done. apply lookup_replicate. split; [done|lia].
Qed.

Lemma set_slot_other {Meta : Type} (slots : list (option (@Gathered Meta))) i j x : i <> j ->
  slots !! j = None \/ slots !! j = Some None -> set_slot slots i x !! j = None \/ set_slot slots i x !! j = Some None.
Proof.
  intros Hne Hj. unfold set_slot. rewrite list_lookup_insert_ne by done.
  destruct Hj as [Hj|Hj]; [|right; by apply lookup_app_l_Some]. apply lookup_ge_None in Hj. rewrite lookup_app_r by done.
  destruct (decide (j - length slots < S i - length slots)%nat); [right; by apply lookup_replicate|left].
  apply lookup_replicate_None. lia.
Qed.

Section Gather.
Context {Meta Error : Type} (metadata_dependencies : Meta -> list Dependency)
  (fetch : PinnedPackageRef -> result Error (PinnedPackageRef * Digest * Meta)).
Abbreviation edges_of := (closure_edges_from_metadata metadata_dependencies).
Definition edge_key (e : ClosureEdge) : PinnedPackageRef := strip_advisory (ce_identifier e).
Definition task_keys (l : list (nat * ClosureEdge)) : list PinnedPackageRef := map (fun t => edge_key t.2) l.

(** An identity's metadata declares an edge to another. *)
Definition mentions (k k' : PinnedPackageRef) : Prop :=
  exists d r c m e, strip_advisory d = k /\ fetch d = Ok (r, c, m) /\ e ∈ edges_of m /\ k' = edge_key e.
Definition met (frontier : list ClosureEdge) (k : PinnedPackageRef) : Prop :=
  exists e, e ∈ frontier /\ rtc mentions (edge_key e) k.

Section Invariant.
Context (frontier : list ClosureEdge).

(** The queue between two joins, [finished] being the identities fetched so far. *)
Record queued (g : @Gather Meta) (finished : list PinnedPackageRef) : Prop := {
  queued_once : NoDup (finished ++ task_keys (ga_tasks g ++ ga_pending g));
  queued_visited : forall k, k ∈ ga_visited g <-> k ∈ (finished ++ task_keys (ga_tasks g ++ ga_pending g))%list;
  queued_met : forall k, k ∈ ga_visited g -> met frontier k;
  queued_slots : NoDup (map fst (ga_tasks g ++ ga_pending g));
  queued_bound : forall s, s ∈ map fst (ga_tasks g ++ ga_pending g) -> (s < ga_next_slot g)%nat /\
    (ga_slots g !! s = None \/ ga_slots g !! s = Some None);
  queued_length : (length (ga_slots g) <= ga_next_slot g)%nat;
}.

(** What was fetched: an identity for each, and one node for each resolved identity. *)
Definition node_key (n : @Gathered Meta) : PinnedPackageRef := strip_advisory n.1.1.1.
Record fetched (g : @Gather Meta) (finished : list PinnedPackageRef) : Prop := {
  fetched_identity : forall k, is_Some (ga_resolved_identity g !! k) <-> k ∈ finished;
  fetched_resolved : forall k r, ga_resolved_identity g !! k = Some r -> r ∈ ga_resolved_seen g /\
    exists d r0 c m, strip_advisory d = k /\ fetch d = Ok (r0, c, m) /\ strip_advisory r0 = r /\
      forall e, e ∈ edges_of m -> edge_key e ∈ ga_visited g;
  fetched_nodes : NoDup (map node_key (omap id (ga_slots g)));
  fetched_seen : forall r, r ∈ ga_resolved_seen g <-> r ∈ map node_key (omap id (ga_slots g));
  fetched_node : forall r c m es, (r, c, m, es) ∈ omap id (ga_slots g) -> es = edges_of m /\
    exists d, fetch d = Ok (r, c, m) /\ strip_advisory d ∈ finished;
}.

(** The discovery of an edge changes the queue only. *)
Definition discovered (g g' : @Gather Meta) (ks : list PinnedPackageRef) : Prop :=
  (forall k, k ∈ ga_visited g' <-> k ∈ ga_visited g \/ k ∈ ks) /\
  ga_tasks g' = ga_tasks g /\ ga_slots g' = ga_slots g /\
  ga_resolved_seen g' = ga_resolved_seen g /\ ga_resolved_identity g' = ga_resolved_identity g /\ (ga_next_slot g <= ga_next_slot g')%nat /\
  (forall s, s ∈ map fst (ga_tasks g' ++ ga_pending g') -> s ∈ map fst (ga_tasks g ++ ga_pending g) \/ (ga_next_slot g <= s)%nat).

Lemma discover_queued g finished e : queued g finished -> met frontier (edge_key e) ->
  queued (discover g e) finished /\ discovered g (discover g e) [edge_key e].
Proof.
  intros Hg Hm. unfold discover. fold (edge_key e). case_bool_decide as Hv.
  { split; [done|]. unfold discovered. split; [intros k; rewrite list_elem_of_singleton; naive_solver|].
    split_and!; try done; try lia. auto. }
  assert (forall k, k ∈ {[edge_key e]} ∪ ga_visited g <-> k ∈ ga_visited g \/ k = edge_key e) as Hvis
    by (intros k; rewrite elem_of_union, elem_of_singleton; tauto).
  assert (task_keys (ga_tasks g ++ ga_pending g ++ [(ga_next_slot g, e)]) = task_keys (ga_tasks g ++ ga_pending g) ++ [edge_key e])%list as Ek.
  { unfold task_keys. by rewrite !map_app, app_assoc. }
  destruct Hg as [H1 H2 H3 H4 H5 H6]. split; [split|]; simpl; try done.
  - rewrite Ek, app_assoc. apply NoDup_app. split_and!; [done| |apply NoDup_singleton].
    intros k Hk ->%list_elem_of_singleton. by apply Hv, H2.
  - intros k. rewrite Hvis, Ek, app_assoc, elem_of_app, list_elem_of_singleton, <- H2. done.
  - intros k [Hk| ->]%Hvis; [by apply H3|done].
  - rewrite app_assoc, map_app. apply NoDup_app. split_and!; [done| |apply NoDup_singleton].
    intros s Hs ->%list_elem_of_singleton. apply H5 in Hs as [? _]. simpl in *. lia.
  - intros s. rewrite app_assoc, map_app, elem_of_app. intros [Hs|Hs].
    + destruct (H5 s Hs) as [? ?]. split; [lia|done].
    + apply list_elem_of_singleton in Hs as ->. simpl. split; [lia|]. left. by apply lookup_ge_None.
  - lia.
  - unfold discovered. simpl. split_and!; try done; [|lia|].
    + intros k. by rewrite Hvis, list_elem_of_singleton.
    + intros s. rewrite app_assoc, map_app, elem_of_app. intros [?| ->%list_elem_of_singleton]; auto.
Qed.

Lemma discover_all es : forall g finished, queued g finished -> (forall e, e ∈ es -> met frontier (edge_key e)) ->
  queued (fold_left discover es g) finished /\ discovered g (fold_left discover es g) (map edge_key es).
Proof.
  induction es as [|e es IH]; intros g finished Hg Hm; simpl.
  { split; [done|]. unfold discovered. split; [intros k; rewrite elem_of_nil; tauto|].
    split_and!; try done; try lia. auto. }
  destruct (discover_queued g finished e Hg) as (Hg' & Hv & Ht & Hsl & Hs & Hr & Hn & Hf); [apply Hm, list_elem_of_here|].
  destruct (IH (discover g e) finished Hg') as (Hg'' & Hv' & Ht' & Hsl' & Hs' & Hr' & Hn' & Hf').
  { intros e' He'. apply Hm. by apply list_elem_of_further. }
  split; [done|]. unfold discovered. split_and!; [|congruence|congruence|congruence|congruence|lia|].
  - intros k. rewrite Hv', Hv, list_elem_of_singleton, elem_of_cons. tauto.
  - intros s [Hin|?]%Hf'; [apply Hf in Hin as [?|?]; auto|right; lia].
Qed.

(** Spawning moves the head of the queue to the running tasks. *)
Lemma fill_app tasks pending tasks' pending' : fill tasks pending = (tasks', pending') -> (tasks' ++ pending' = tasks ++ pending)%list /\
  (tasks' = [] -> pending' = []).
Proof.
  revert tasks. induction pending as [|next rest IH]; intros tasks; simpl; [by intros [= <- <-]|].
  destruct (length tasks <? CLOSURE_FETCH_CONCURRENCY)%nat eqn:E.
  - intros H'. destruct (IH _ H') as [-> ?]. by rewrite <- app_assoc.
  - intros [= <- <-]. split; [done|]. intros ->. done.
Qed.
Lemma admit_queued g finished : queued g finished -> queued (admit_tasks g) finished /\
  (ga_tasks (admit_tasks g) = [] -> ga_pending (admit_tasks g) = []).
Proof.
  intros Hg. unfold admit_tasks. destruct (fill (ga_tasks g) (ga_pending g)) as [tasks pending] eqn:E.
  apply fill_app in E as [Ha Hb]. split; [|done]. destruct Hg. split; simpl; rewrite ?Ha; done.
Qed.
Lemma admit_fetched g finished : fetched g finished -> fetched (admit_tasks g) finished.
Proof. unfold admit_tasks. destruct (fill (ga_tasks g) (ga_pending g)) as [tasks pending]. by intros []. Qed.

(** A finished task leaves the queue. *)
Lemma delete_queued g finished position task identity : queued g finished -> ga_tasks g !! position = Some task ->
  queued (mkGather (ga_visited g) (ga_next_slot g) (ga_pending g) (list_delete position (ga_tasks g)) (ga_slots g) identity (ga_resolved_seen g))
    (edge_key task.2 :: finished) /\
  task.1 ∉ map fst (list_delete position (ga_tasks g) ++ ga_pending g).
Proof.
  intros [H1 H2 H3 H4 H5 H6] Hp. pose proof (delete_Permutation _ _ _ Hp) as Hperm.
  change (delete position (ga_tasks g)) with (list_delete position (ga_tasks g)) in Hperm.
  revert Hperm. generalize (list_delete position (ga_tasks g)). intros rest Hperm.
  assert (Permutation (finished ++ task_keys (ga_tasks g ++ ga_pending g))
    ((edge_key task.2 :: finished) ++ task_keys (rest ++ ga_pending g))) as Hkeys.
  { unfold task_keys. rewrite Hperm. simpl. by rewrite <- Permutation_middle. }
  assert (Permutation (map fst (ga_tasks g ++ ga_pending g)) (task.1 :: map fst (rest ++ ga_pending g))) as Hfst.
  { by rewrite Hperm. }
  assert (task.1 ∉ map fst (rest ++ ga_pending g)) as Hnot.
  { rewrite Hfst in H4. by apply NoDup_cons in H4 as [? _]. }
  split; [|done]. split; simpl; try done.
  - by rewrite Hkeys in H1.
  - intros k. rewrite H2, Hkeys. done.
  - rewrite Hfst in H4. by apply NoDup_cons in H4 as [_ ?].
  - intros s Hs. apply H5. rewrite Hfst. by apply list_elem_of_further.
Qed.

(** The node of a resolved identity not seen before goes to its task's slot. *)
Definition file_node (slot : nat) (r : PinnedPackageRef) (c : Digest) (m : Meta) (g : @Gather Meta) : Gather :=
  if bool_decide (strip_advisory r ∈ ga_resolved_seen g) then g
  else mkGather (ga_visited g) (ga_next_slot g) (ga_pending g) (ga_tasks g) (set_slot (ga_slots g) slot (r, c, m, edges_of m))
         (ga_resolved_identity g) ({[strip_advisory r]} ∪ ga_resolved_seen g).

Lemma file_queued slot r c m g finished : queued g finished -> slot ∉ map fst (ga_tasks g ++ ga_pending g) -> (slot < ga_next_slot g)%nat ->
  queued (file_node slot r c m g) finished.
Proof.
  intros [H1 H2 H3 H4 H5 H6] Hnot Hlt. unfold file_node. case_bool_decide; [done|]. split; simpl; try done.
  - intros s Hs. destruct (H5 s Hs) as [? ?]. split; [done|]. apply set_slot_other; [by intros ->|done].
  - unfold set_slot. rewrite length_insert, length_app, length_replicate. lia.
Qed.

Lemma file_fetched slot d r c m g finished key : fetch d = Ok (r, c, m) -> strip_advisory d = key ->
  (forall e, e ∈ edges_of m -> edge_key e ∈ ga_visited g) ->
  (ga_slots g !! slot = None \/ ga_slots g !! slot = Some None) -> fetched g finished ->
  fetched (file_node slot r c m (mkGather (ga_visited g) (ga_next_slot g) (ga_pending g) (ga_tasks g) (ga_slots g)
    (<[key := strip_advisory r]> (ga_resolved_identity g)) (ga_resolved_seen g))) (key :: finished).
Proof.
  intros Hf Hd He Hslot [H7 H8 H9 H10 H11].
  assert (forall k, is_Some (<[key := strip_advisory r]> (ga_resolved_identity g) !! k) <-> k ∈ key :: finished) as Hid.
  { intros k. rewrite elem_of_cons, <- H7. destruct (decide (k = key)) as [->|Hne]; [rewrite lookup_insert_eq; naive_solver|].
    rewrite lookup_insert_ne by done. naive_solver. }
  assert (forall seen : gset PinnedPackageRef, (forall x, x ∈ ga_resolved_seen g -> x ∈ seen) -> strip_advisory r ∈ seen ->
    forall k r', <[key := strip_advisory r]> (ga_resolved_identity g) !! k = Some r' -> r' ∈ seen /\
    exists d r0 c m, strip_advisory d = k /\ fetch d = Ok (r0, c, m) /\ strip_advisory r0 = r' /\
      forall e, e ∈ edges_of m -> edge_key e ∈ ga_visited g) as Hres.
  { intros seen Hsub Hr k r'. destruct (decide (k = key)) as [->|Hne].
    - rewrite lookup_insert_eq. intros [= <-]. split; [done|]. by exists d, r, c, m.
    - rewrite lookup_insert_ne by done. intros Hk. destruct (H8 k r' Hk) as [? ?]. auto. }
  unfold file_node. simpl. case_bool_decide as Hs; split; simpl; try done; try by apply Hres.
  - intros r' c' m' es Hin. destruct (H11 _ _ _ _ Hin) as (? & d' & ? & ?). split; [done|]. exists d'. split; [done|]. by apply list_elem_of_further.
  - apply Hres; [intros x ?; apply elem_of_union; auto|]. apply elem_of_union. left. by apply elem_of_singleton.
  - rewrite set_slot_perm by done. simpl. apply NoDup_cons. split; [|done]. by rewrite <- H10.
  - intros r'. rewrite set_slot_perm by done. simpl. rewrite elem_of_cons, elem_of_union, elem_of_singleton, H10. done.
  - intros r' c' m' es. rewrite set_slot_perm by done. intros [[= -> -> -> ->]|Hin]%elem_of_cons.
    + split; [done|]. exists d. split; [done|]. rewrite Hd. apply list_elem_of_here.
    + destruct (H11 _ _ _ _ Hin) as (? & d' & ? & ?). split; [done|]. exists d'. split; [done|]. by apply list_elem_of_further.
Qed.

Lemma join_step g finished position task r c m : queued g finished -> fetched g finished ->
  ga_tasks g !! position = Some task -> fetch (ce_identifier task.2) = Ok (r, c, m) ->
  exists g', join_task metadata_dependencies fetch g position = Some (Ok g') /\
  queued g' (edge_key task.2 :: finished) /\ fetched g' (edge_key task.2 :: finished) /\ (ga_tasks g' = [] -> ga_pending g' = []) /\
  (forall k, k ∈ ga_visited g -> k ∈ ga_visited g').
Proof.
  intros Hq Hf Hp Hfetch. unfold join_task. rewrite Hp. simpl. rewrite Hfetch.
  set (identity := <[strip_advisory (ce_identifier task.2) := strip_advisory r]> (ga_resolved_identity g)).
  destruct (delete_queued g finished position task identity Hq Hp) as [Hq0 Hnot].
  set (g0 := mkGather _ _ _ _ _ identity _) in Hq0 |- *.
  assert (edge_key task.2 ∈ ga_visited g) as Hkey.
  { apply (queued_visited _ _ Hq). apply elem_of_app. right. unfold task_keys. apply list_elem_of_fmap. exists task. split; [done|].
    apply elem_of_app. left. by eapply list_elem_of_lookup_2. }
  assert (task.1 ∈ map fst (ga_tasks g ++ ga_pending g)) as Hslot.
  { apply list_elem_of_fmap_2, elem_of_app. left. by eapply list_elem_of_lookup_2. }
  destruct (queued_bound _ _ Hq _ Hslot) as [Hlt Hempty].
  destruct (discover_all (edges_of m) g0 _ Hq0) as (Hq1 & Hv & Ht & Hsl & Hse & Hid & Hn & Hnew).
  { intros e He. destruct (queued_met _ _ Hq _ Hkey) as (e0 & He0 & Hr). exists e0. split; [done|]. eapply rtc_r; [exact Hr|].
    by exists (ce_identifier task.2), r, c, m, e. }
  set (g1 := fold_left discover (edges_of m) g0) in *. fold (file_node task.1 r c m g1). eexists. split; [reflexivity|].
  assert (queued (file_node task.1 r c m g1) (edge_key task.2 :: finished)) as Hq2.
  { apply file_queued; [done| |simpl in Hn; lia]. intros Hin. apply Hnew in Hin as [Hin|Hge]; [done|simpl in Hge; lia]. }
  destruct (admit_queued _ _ Hq2) as [Hq3 Hempty3]. split_and!; [done| |done|].
  - apply admit_fetched.
    assert (fetched (mkGather (ga_visited g1) (ga_next_slot g1) (ga_pending g1) (ga_tasks g1) (ga_slots g1) (ga_resolved_identity g)
      (ga_resolved_seen g1)) finished) as Hf1.
    { rewrite Hsl, Hse. destruct Hf as [H7 H8 H9 H10 H11]. split; simpl; try done. intros k r' Hk.
      destruct (H8 k r' Hk) as (? & d & r0 & c0 & m0 & ? & ? & ? & He). split; [done|]. exists d, r0, c0, m0. split_and!; try done.
      intros e Hin. apply Hv. left. by apply He. }
    assert (g1 = mkGather (ga_visited g1) (ga_next_slot g1) (ga_pending g1) (ga_tasks g1) (ga_slots g1)
      (<[edge_key task.2 := strip_advisory r]> (ga_resolved_identity g)) (ga_resolved_seen g1)) as ->.
    { change (<[edge_key task.2 := strip_advisory r]> (ga_resolved_identity g)) with (ga_resolved_identity g0). rewrite <- Hid. by destruct g1. }
    apply (file_fetched task.1 (ce_identifier task.2) r c m _ finished _ Hfetch eq_refl) in Hf1; [exact Hf1| |simpl; by rewrite Hsl].
    intros e He. simpl. apply Hv. right. by apply list_elem_of_fmap_2.
  - intros k Hk. unfold admit_tasks, file_node. case_bool_decide; destruct (fill _ _); simpl; apply Hv; by left.
Qed.

(** The joins end, an error ending them at once. *)
Context (universe : list PinnedPackageRef) (Huniverse : forall k, met frontier k -> k ∈ universe).

Lemma finished_bound g finished : queued g finished -> (length finished <= length universe)%nat /\
  (ga_tasks g <> [] -> (length finished < length universe)%nat).
Proof.
  intros Hq. pose proof (queued_once _ _ Hq) as Hd.
  assert (length (finished ++ task_keys (ga_tasks g ++ ga_pending g)) <= length universe)%nat as Hlen.
  { apply submseteq_length, NoDup_submseteq; [done|]. intros k Hk. apply Huniverse, (queued_met _ _ Hq). by apply (queued_visited _ _ Hq). }
  unfold task_keys in Hlen. rewrite length_app, length_map, length_app in Hlen. split; [lia|].
  destruct (ga_tasks g); [done|]. simpl in Hlen. lia.
Qed.

Lemma joins_end schedule fuel : forall g finished, queued g finished -> fetched g finished -> (ga_tasks g = [] -> ga_pending g = []) ->
  (length universe <= fuel + length finished)%nat ->
  (exists e d, join_all_tasks metadata_dependencies fetch schedule fuel g = Some (Err e) /\ fetch d = Err e /\ met frontier (strip_advisory d)) \/
  exists g' finished', join_all_tasks metadata_dependencies fetch schedule fuel g = Some (Ok g') /\
  queued g' finished' /\ fetched g' finished' /\ ga_tasks g' = [] /\ ga_pending g' = [] /\ (forall k, k ∈ ga_visited g -> k ∈ ga_visited g').
Proof.
  induction fuel as [|fuel IH]; intros g finished Hq Hf Hp Hfuel; simpl.
  all: destruct (ga_tasks g) as [|t ts] eqn:Et; [right; exists g, finished; by auto 10|].
  { destruct (finished_bound g finished Hq) as [_ Hlt]. rewrite Et in Hlt. specialize (Hlt ltac:(done)). lia. }
  rewrite <- Et. assert (length (ga_tasks g) <> 0)%nat as Hne by by rewrite Et.
  destruct (lookup_lt_is_Some_2 (ga_tasks g) (schedule fuel `mod` length (ga_tasks g))%nat) as [task Htask]; [by apply Nat.mod_upper_bound|].
  destruct (fetch (ce_identifier task.2)) as [[[r c] m]|e] eqn:Efetch.
  - destruct (join_step _ _ _ _ _ _ _ Hq Hf Htask Efetch) as (g' & -> & Hq' & Hf' & Hp' & Hsub). simpl.
    destruct (IH g' _ Hq' Hf' Hp') as [?|(g'' & finished'' & ? & ? & ? & ? & ? & ?)]; [simpl; lia|by left|].
    right. exists g'', finished''. by auto 10.
  - left. exists e, (ce_identifier task.2). unfold join_task. rewrite Htask. simpl. rewrite Efetch. split_and!; [done|done|].
    apply (queued_met _ _ Hq), (queued_visited _ _ Hq), elem_of_app. right. unfold task_keys. apply list_elem_of_fmap. exists task.
    split; [done|]. apply elem_of_app. left. by eapply list_elem_of_lookup_2.
Qed.
End Invariant.

(** What an index of content-addressed manifests promises: an advisory tag decides
    nothing, not even whether a fetch succeeds, one resolved identity has one metadata, and is resolved already. *)
Class ContentAddressed : Prop := {
  fetch_ok_same : forall d1 d2, strip_advisory d1 = strip_advisory d2 -> is_ok (fetch d1) = is_ok (fetch d2);
  fetch_same : forall d1 d2 r1 c1 m1 r2 c2 m2, fetch d1 = Ok (r1, c1, m1) -> fetch d2 = Ok (r2, c2, m2) ->
    strip_advisory d1 = strip_advisory d2 -> strip_advisory r1 = strip_advisory r2;
  fetch_content : forall d1 d2 r1 c1 m1 r2 c2 m2, fetch d1 = Ok (r1, c1, m1) -> fetch d2 = Ok (r2, c2, m2) ->
    strip_advisory r1 = strip_advisory r2 -> c1 = c2 /\ m1 = m2;
  fetch_resolved : forall d r c m, fetch d = Ok (r, c, m) ->
    exists r', fetch (strip_advisory r) = Ok (r', c, m) /\ strip_advisory r' = strip_advisory r;
}.
Context `{!ContentAddressed}.

(** What a gathering that succeeds returns. *)
Record gathered_exact (frontier : list ClosureEdge) (nodes : list (@Gathered Meta)) (identity : gmap PinnedPackageRef PinnedPackageRef) :
    Prop := {
  exact_identity : forall k, is_Some (identity !! k) <-> met frontier k;
  exact_resolved : forall k r, identity !! k = Some r -> r ∈ map node_key nodes /\
    exists d r0 c m, strip_advisory d = k /\ fetch d = Ok (r0, c, m) /\ strip_advisory r0 = r;
  exact_once : NoDup (map node_key nodes);
  exact_node : forall r c m es, (r, c, m, es) ∈ nodes -> es = edges_of m /\
    exists d, fetch d = Ok (r, c, m) /\ met frontier (strip_advisory d);
}.

Lemma start_queued frontier : let g := admit_tasks (fold_left discover frontier (mkGather ∅ 0 [] [] [] ∅ ∅)) in
  queued frontier g [] /\ fetched g [] /\ (ga_tasks g = [] -> ga_pending g = []) /\ forall e, e ∈ frontier -> edge_key e ∈ ga_visited g.
Proof.
  assert (queued frontier (mkGather ∅ 0 [] [] [] ∅ ∅ : @Gather Meta) []) as Hq.
  { split; simpl; [constructor| | |constructor| |done].
    - intros k. rewrite elem_of_nil. split; [apply not_elem_of_empty|done].
    - intros k Hk. by apply not_elem_of_empty in Hk.
    - intros s Hs. by apply elem_of_nil in Hs. }
  assert (fetched (mkGather ∅ 0 [] [] [] ∅ ∅ : @Gather Meta) []) as Hf.
  { split; simpl; try done; [|constructor| |].
    - intros k. rewrite lookup_empty, elem_of_nil. split; [by intros []|done].
    - intros r. rewrite elem_of_nil. split; [apply not_elem_of_empty|done].
    - intros ? ? ? ? Hin. by apply elem_of_nil in Hin. }
  destruct (discover_all frontier frontier _ _ Hq) as (Hq1 & Hv & Ht & Hsl & Hse & Hid & _).
  { intros e He. by exists e. }
  set (g1 := fold_left discover frontier _) in *. destruct (admit_queued _ _ _ Hq1) as [Hq2 Hp]. split_and!; [done| |done|].
  - apply admit_fetched. destruct Hf. split; rewrite ?Hid, ?Hsl, ?Hse; done.
  - intros e He. unfold admit_tasks. destruct (fill _ _). simpl. apply Hv. right. by apply list_elem_of_fmap_2.
Qed.

Lemma gather_ends schedule fuel frontier universe : (forall k, met frontier k -> k ∈ universe) -> (length universe <= fuel)%nat ->
  (exists e d, gather_closure_nodes metadata_dependencies fetch schedule fuel frontier = Some (Err e) /\ fetch d = Err e /\
     met frontier (strip_advisory d)) \/
  exists nodes identity, gather_closure_nodes metadata_dependencies fetch schedule fuel frontier = Some (Ok (nodes, identity)) /\
    gathered_exact frontier nodes identity.
Proof.
  intros Hu Hfuel. destruct (start_queued frontier) as (Hq & Hf & Hp & Hfr). unfold gather_closure_nodes.
  destruct (joins_end frontier universe Hu schedule fuel _ [] Hq Hf Hp) as [(e & d & -> & ? & ?)|(g & finished & -> & Hq' & Hf' & Et & Ep & Hsub)];
    [simpl; lia|left; simpl; eauto|right]. simpl. eexists _, _. split; [reflexivity|].
  assert (forall k, k ∈ ga_visited g <-> k ∈ finished) as Hvis.
  { intros k. rewrite (queued_visited _ _ _ Hq'), Et, Ep. simpl. by rewrite app_nil_r. }
  assert (forall k, k ∈ finished <-> met frontier k) as Hmet.
  { intros k. split; [intros Hk; apply (queued_met _ _ _ Hq'); by apply Hvis|]. intros (e & He & Hr).
    assert (edge_key e ∈ finished) as Hstart by (apply Hvis, Hsub; by apply Hfr). clear He. revert Hstart.
    induction Hr as [|k k' k'' (d & r & c & m & e' & <- & Hd & He' & ->) _ IH]; [done|]. intros Hk. apply IH.
    apply (fetched_identity _ _ Hf') in Hk as [r1 Hr1]. destruct (fetched_resolved _ _ Hf' _ _ Hr1) as (_ & d0 & r0 & c0 & m0 & Hs & Hd0 & _ & Hes).
    pose proof (fetch_same _ _ _ _ _ _ _ _ Hd0 Hd Hs) as Hrr. destruct (fetch_content _ _ _ _ _ _ _ _ Hd0 Hd Hrr) as [_ ->].
    by apply Hvis, Hes. }
  split.
  - intros k. by rewrite (fetched_identity _ _ Hf'), Hmet.
  - intros k r Hk. destruct (fetched_resolved _ _ Hf' _ _ Hk) as (Hs & d & r0 & c & m & ? & ? & ? & _).
    split; [by apply (fetched_seen _ _ Hf')|]. by exists d, r0, c, m.
  - apply (fetched_nodes _ _ Hf').
  - intros r c m es Hin. destruct (fetched_node _ _ Hf' _ _ _ _ Hin) as (? & d & ? & ?). split; [done|]. exists d. split; [done|]. by apply Hmet.
Qed.
End Gather.

(** ** The nodes of a closure

    The visit that keeps every closure it has built computes the closures of the
    graph, and the walk lists exactly the packages the root depends on, each after
    what it depends on, with the visibility the paths of the graph give it. *)

Section Walk.
Context {Meta Facts Error : Type} (metadata_dependencies : Meta -> list Dependency) (metadata_facts : Meta -> Facts)
  (fetch : PinnedPackageRef -> result Error (PinnedPackageRef * Digest * Meta)) `{!ContentAddressed fetch}.
Abbreviation edges_of := (closure_edges_from_metadata metadata_dependencies).

(** The graph of resolved identities. *)
Definition resolved_of (d : PinnedPackageRef) : PinnedPackageRef :=
  match fetch d with Ok (r, _, _) => strip_advisory r | Err _ => strip_advisory d end.
Definition edge_target (e : ClosureEdge) : PinnedPackageRef * Visibility := (resolved_of (ce_identifier e), ce_visibility e).
Definition graph (k : PinnedPackageRef) : list (PinnedPackageRef * Visibility) :=
  match fetch k with Ok (_, _, m) => map edge_target (edges_of m) | Err _ => [] end.

Lemma resolved_of_strip d : strip_advisory (resolved_of d) = resolved_of d.
Proof. unfold resolved_of. by destruct (fetch d) as [[[r c] m]|e]. Qed.

Lemma graph_resolved d r c m : fetch d = Ok (r, c, m) -> graph (strip_advisory r) = map edge_target (edges_of m).
Proof. intros Hd. destruct (fetch_resolved fetch _ _ _ _ Hd) as (r' & Hr & _). unfold graph. by rewrite Hr. Qed.

Lemma graph_depends k d c m b : fetch d = Ok (k, c, m) -> depends graph (strip_advisory k) b <-> exists e, e ∈ edges_of m /\ b = resolved_of (ce_identifier e).
Proof.
  intros Hd. unfold depends. rewrite (graph_resolved _ _ _ _ Hd). split.
  - intros (x & v & Hin & ->). apply list_elem_of_fmap in Hin as (e & [= -> ->] & He). exists e. by rewrite resolved_of_strip.
  - intros (e & He & ->). exists (resolved_of (ce_identifier e)), (ce_visibility e). rewrite resolved_of_strip. split; [|done].
    apply list_elem_of_fmap. by exists e.
Qed.

Section Fold.
Context (frontier : list ClosureEdge) (nodes : list (@Gathered Meta)) (identity : gmap PinnedPackageRef PinnedPackageRef).
Hypothesis (Hexact : gathered_exact metadata_dependencies fetch frontier nodes identity).
Hypothesis (Hok : forall d, met metadata_dependencies fetch frontier (strip_advisory d) -> is_ok (fetch d) = true).
Context (rank : PinnedPackageRef -> nat) (Hrank : forall a b, depends graph a b -> (rank b < rank a)%nat).

Definition known (k : PinnedPackageRef) : Prop := k ∈ map node_key nodes.

(** An edge met by the gathering resolves to the identity its fetch gives. *)
Lemma edge_identity e : met metadata_dependencies fetch frontier (edge_key e) ->
  resolved_edge_identity identity e = Some (resolved_of (ce_identifier e)) /\ known (resolved_of (ce_identifier e)).
Proof.
  intros Hm. unfold resolved_edge_identity. fold (edge_key e).
  destruct (proj2 (exact_identity _ _ _ _ _ Hexact (edge_key e)) Hm) as [r Hr]. rewrite Hr.
  destruct (exact_resolved _ _ _ _ _ Hexact _ _ Hr) as (Hin & d & r0 & c & m & Hd & Hf & <-).
  specialize (Hok (ce_identifier e) Hm). unfold resolved_of. destruct (fetch (ce_identifier e)) as [[[r1 c1] m1]|] eqn:E; [|done].
  by rewrite <- (fetch_same fetch _ _ _ _ _ _ _ _ Hf E Hd).
Qed.

(** A known node: its metadata, and its edges, all met. *)
Lemma known_node k : known k -> exists r c m, by_identity_of nodes !! k = Some (r, c, m, edges_of m) /\ strip_advisory r = k /\
  (exists d, fetch d = Ok (r, c, m)) /\ forall e, e ∈ edges_of m -> met metadata_dependencies fetch frontier (edge_key e).
Proof.
  intros Hk. assert (by_identity_of nodes = list_to_map (map (fun n => (node_key n, n)) nodes)) as Hmap.
  { unfold by_identity_of. pose proof (exact_once _ _ _ _ _ Hexact) as Hd. clear -Hd. revert Hd.
    induction nodes as [|n ns IH] using rev_ind; intros Hd; [done|]. rewrite fold_left_app. simpl. rewrite map_app, list_to_map_app. simpl.
    rewrite map_app in Hd. apply NoDup_app in Hd as (Hd & Hdisj & _). rewrite (IH Hd). fold (node_key n).
    apply map_eq. intros i. destruct (decide (i = node_key n)) as [->|Hne].
    - rewrite lookup_insert_eq. symmetry. apply lookup_union_Some_raw. right. split; [|by rewrite lookup_insert_eq].
      apply not_elem_of_list_to_map_1. rewrite <- list_fmap_compose. intros Hin. apply (Hdisj (node_key n)); [exact Hin|apply list_elem_of_here].
    - rewrite lookup_insert_ne by done. rewrite lookup_union_l; [done|]. by rewrite lookup_insert_ne, lookup_empty. }
  apply list_elem_of_fmap in Hk as ([[[r c] m] es] & -> & Hin). destruct (exact_node _ _ _ _ _ Hexact _ _ _ _ Hin) as (-> & d & Hd & Hm).
  exists r, c, m. split_and!; [|done|eauto|].
  - rewrite Hmap. apply elem_of_list_to_map_1.
    + rewrite <- list_fmap_compose. apply (exact_once _ _ _ _ _ Hexact).
    + apply list_elem_of_fmap. by exists (r, c, m, edges_of m).
  - intros e He. destruct Hm as (e0 & He0 & Hr). exists e0. split; [done|]. eapply rtc_r; [exact Hr|]. by exists d, r, c, m, e.
Qed.

(** ** The visit *)

(** What the visit has built: the closures of the keys in its order. *)
Record visited_ok (acc : Visited) : Prop := {
  visited_records : forall k rp, acc.1 !! k = Some rp -> records graph k rp;
  visited_dom : forall k, is_Some (acc.1 !! k) <-> k ∈ acc.2;
  visited_once : NoDup acc.2;
  visited_order : ordered graph [] acc.2;
  visited_known : forall k, k ∈ acc.2 -> known k;
}.
(** It only grows, by what the visited keys lead to. *)
Definition grows (acc acc' : Visited) (keys : list PinnedPackageRef) : Prop :=
  (forall k rp, acc.1 !! k = Some rp -> acc'.1 !! k = Some rp) /\
  (forall k, k ∈ acc'.2 -> k ∈ acc.2 \/ exists start, start ∈ keys /\ rtc (depends graph) start k).

Lemma grows_refl acc keys : grows acc acc keys.
Proof. split; auto. Qed.
Lemma grows_trans acc acc' acc'' keys keys' : grows acc acc' keys -> grows acc' acc'' keys' -> grows acc acc'' (keys ++ keys').
Proof.
  intros [H1 H2] [H3 H4]. split; [auto|]. intros k [Hk|(s & Hs & Hr)]%H4; [apply H2 in Hk as [?|(s & Hs & Hr)]; [by left|]|].
  all: right; exists s; rewrite elem_of_app; auto.
Qed.
Lemma grows_some acc acc' keys k : grows acc acc' keys -> is_Some (acc.1 !! k) -> is_Some (acc'.1 !! k).
Proof. intros [H1 _] [rp Hrp]. exists rp. auto. Qed.

Lemma rank_rtc a b : rtc (depends graph) a b -> (rank b <= rank a)%nat.
Proof. induction 1 as [|a b c Hab _ IH]; [done|]. specialize (Hrank _ _ Hab). lia. Qed.

(** A visit of one key by a given fuel. *)
Definition visits (fuel : nat) : Prop := forall key acc, visited_ok acc -> known key -> (rank key < fuel)%nat ->
  exists acc', visit_closure_node fuel (by_identity_of nodes) identity key acc = Some acc' /\ visited_ok acc' /\
  is_Some (acc'.1 !! key) /\ grows acc acc' [key].

(** The loop over the edges of a node. *)
Definition visit_edge (fuel : nat) (st : Visited * list (PinnedPackageRef * ResolvedPackage * Visibility)) (edge : ClosureEdge) :=
  child_key ← resolved_edge_identity identity edge;
  acc' ← visit_closure_node fuel (by_identity_of nodes) identity child_key st.1;
  Some (acc', (st.2 ++ [(child_key, default resolved_new (acc'.1 !! child_key), ce_visibility edge)])%list).

Lemma visit_edges fuel : visits fuel -> forall es st, visited_ok st.1 ->
  (forall e, e ∈ es -> met metadata_dependencies fetch frontier (edge_key e) /\ (rank (resolved_of (ce_identifier e)) < fuel)%nat) ->
  exists acc' new, option_foldl (visit_edge fuel) st es = Some (acc', st.2 ++ new)%list /\ visited_ok acc' /\
  grows st.1 acc' (map (fun e => resolved_of (ce_identifier e)) es) /\
  Forall2 (fun e ch => ch.1.1 = resolved_of (ce_identifier e) /\ ch.2 = ce_visibility e /\ acc'.1 !! ch.1.1 = Some ch.1.2) es new.
Proof.
  intros Hvisit. induction es as [|e es IH]; intros st Hst He; cbn [option_foldl].
  { exists st.1, []. rewrite app_nil_r. split_and!; [by destruct st|done|apply grows_refl|constructor]. }
  destruct (He e (list_elem_of_here _ _)) as [Hm Hlt]. destruct (edge_identity e Hm) as [Eid Hknown].
  destruct (Hvisit _ _ Hst Hknown Hlt) as (acc1 & Ev & Hok1 & [rp Hrp] & Hg1).
  assert (visit_edge fuel st e = Some (acc1, (st.2 ++ [(resolved_of (ce_identifier e), rp, ce_visibility e)])%list)) as ->.
  { unfold visit_edge. rewrite Eid. simpl. rewrite Ev. simpl. by rewrite Hrp. }
  simpl. destruct (IH (acc1, (st.2 ++ [(resolved_of (ce_identifier e), rp, ce_visibility e)])%list)) as (acc' & new & Hf & Hok' & Hg' & HF).
  { done. }
  { intros e' He'. apply He. by apply list_elem_of_further. }
  exists acc', ((resolved_of (ce_identifier e), rp, ce_visibility e) :: new). rewrite Hf. simpl. rewrite <- app_assoc. split_and!; [done|done| |].
  - by apply (grows_trans _ acc1 _ [_]).
  - constructor; [|done]. split_and!; [done|done|]. by apply Hg'.
Qed.

(** A visited node's closure is with the children it was built from. *)
Lemma visited_children k es new (acc : Visited) : visited_ok acc -> graph k = map edge_target es ->
  Forall2 (fun e ch => ch.1.1 = resolved_of (ce_identifier e) /\ ch.2 = ce_visibility e /\ acc.1 !! ch.1.1 = Some ch.1.2) es new ->
  records graph k (with_dependencies resolved_new new).
Proof.
  intros Hacc Hk HF. apply root_records.
  - intros d v. rewrite Hk. split.
    + intros (e & [= -> ->] & [i Hi]%list_elem_of_lookup)%list_elem_of_fmap.
      destruct (Forall2_lookup_l _ _ _ _ _ HF Hi) as ([[d rp] v] & Hch & Hd & Hv & _). simpl in *. subst. exists rp. by eapply list_elem_of_lookup_2.
    + intros (rp & [i Hi]%list_elem_of_lookup). destruct (Forall2_lookup_r _ _ _ _ _ HF Hi) as (e & He & Hd & Hv & _). simpl in *. subst.
      apply list_elem_of_fmap. exists e. split; [done|]. by eapply list_elem_of_lookup_2.
  - intros d rp v [i Hi]%list_elem_of_lookup. destruct (Forall2_lookup_r _ _ _ _ _ HF Hi) as (e & He & Hd & _ & Hrp). simpl in *. subst.
    rewrite resolved_of_strip. by apply (visited_records _ Hacc).
Qed.

Lemma visit_ok fuel : visits fuel.
Proof.
  induction fuel as [|fuel IH]; intros key acc Hacc Hknown Hlt; [lia|]. cbn [visit_closure_node].
  destruct (acc.1 !! key) as [rp|] eqn:Ekey; [exists acc; split_and!; [done|done|by eexists|apply grows_refl]|].
  destruct (known_node key Hknown) as (r & c & m & -> & Hr & (d & Hd) & Hes). simpl.
  assert (forall e, e ∈ edges_of m -> depends graph key (resolved_of (ce_identifier e))) as Hdep.
  { intros e He. rewrite <- Hr. apply (graph_depends _ _ _ _ _ Hd). eauto. }
  destruct (visit_edges fuel IH (edges_of m) (acc, []) Hacc) as (acc' & new & Hf & Hok' & Hg & HF).
  { intros e He. split; [by apply Hes|]. specialize (Hrank _ _ (Hdep e He)). lia. }
  unfold visit_edge in Hf. rewrite Hf. simpl. eexists. split; [reflexivity|].
  assert (key ∉ acc'.2) as Hnew.
  { intros Hin. apply Hg in Hin as [Hin|(s & Hs & Hrtc)]; simpl in *.
    - apply (visited_dom _ Hacc) in Hin as [? ?]. congruence.
    - apply list_elem_of_fmap in Hs as (e & -> & He). apply rank_rtc in Hrtc. specialize (Hrank _ _ (Hdep e He)). lia. }
  assert (acc'.1 !! key = None) as Hnone.
  { destruct (acc'.1 !! key) eqn:E; [|done]. exfalso. apply Hnew, (visited_dom _ Hok'). eauto. }
  assert (graph key = map edge_target (edges_of m)) as Hgraph by (rewrite <- Hr; by eapply graph_resolved).
  split_and!.
  - split; simpl.
    + intros k rp. destruct (decide (k = key)) as [->|Hne]; [|rewrite lookup_insert_ne by done; apply (visited_records _ Hok')].
      rewrite lookup_insert_eq. intros [= <-]. by apply (visited_children key (edges_of m) new acc').
    + intros k. rewrite elem_of_app, list_elem_of_singleton, <- (visited_dom _ Hok'). destruct (decide (k = key)) as [->|Hne].
      * rewrite lookup_insert_eq. naive_solver.
      * rewrite lookup_insert_ne by done. naive_solver.
    + apply NoDup_app. split_and!; [apply (visited_once _ Hok')| |apply NoDup_singleton]. by intros k Hk ->%list_elem_of_singleton.
    + apply ordered_app. split; [apply (visited_order _ Hok')|]. split; [|done]. intros b Hb. simpl.
      rewrite <- Hr in Hb. apply (graph_depends _ _ _ _ _ Hd) in Hb as (e & [i Hi]%list_elem_of_lookup & ->).
      destruct (Forall2_lookup_l _ _ _ _ _ HF Hi) as (ch & _ & <- & _ & Hch). apply (visited_dom _ Hok'). eauto.
    + intros k [Hk| ->%list_elem_of_singleton]%elem_of_app; [by apply (visited_known _ Hok')|done].
  - simpl. rewrite lookup_insert_eq. eauto.
  - split; simpl.
    + intros k rp Hk. rewrite lookup_insert_ne by (intros ->; congruence). by apply Hg.
    + intros k [Hk| ->%list_elem_of_singleton]%elem_of_app; [|right; exists key; split; [apply list_elem_of_here|done]].
      apply Hg in Hk as [?|(s & Hs & Hrtc)]; [by left|right]. exists key. split; [apply list_elem_of_here|].
      apply list_elem_of_fmap in Hs as (e & -> & He). eapply rtc_l; [by apply Hdep|done].
Qed.

(** ** The fold *)

Lemma visit_frontier fuel es : (forall e, e ∈ es -> met metadata_dependencies fetch frontier (edge_key e) /\
    (rank (resolved_of (ce_identifier e)) < fuel)%nat) -> forall acc, visited_ok acc ->
  exists acc', option_foldl (fun acc edge =>
      resolved_key ← resolved_edge_identity identity edge;
      visit_closure_node fuel (by_identity_of nodes) identity resolved_key acc) acc es = Some acc' /\ visited_ok acc' /\
  grows acc acc' (map (fun e => resolved_of (ce_identifier e)) es) /\
  forall e, e ∈ es -> is_Some (acc'.1 !! resolved_of (ce_identifier e)).
Proof.
  induction es as [|e es IH]; intros He acc Hacc; cbn [option_foldl].
  { exists acc. split_and!; [done|done|apply grows_refl|]. intros e Hin. by apply elem_of_nil in Hin. }
  destruct (He e (list_elem_of_here _ _)) as [Hm Hlt]. destruct (edge_identity e Hm) as [-> Hknown]. simpl.
  destruct (visit_ok fuel _ _ Hacc Hknown Hlt) as (acc1 & -> & Hok1 & Hsome & Hg1). simpl.
  destruct (IH (fun e' Hin => He e' (list_elem_of_further _ _ _ Hin)) acc1 Hok1) as (acc' & Hf & Hok' & Hg' & Hall).
  exists acc'. split_and!; [done|done|by apply (grows_trans _ acc1 _ [_])|].
  intros e' [->|Hin]%elem_of_cons; [by eapply grows_some|by apply Hall].
Qed.

(** The order of a finished visit is closed under dependencies. *)
Lemma visited_closed acc a b : visited_ok acc -> a ∈ acc.2 -> rtc (depends graph) a b -> b ∈ acc.2.
Proof.
  intros Hacc Ha Hr. induction Hr as [|a c b Hac _ IH]; [done|]. apply IH.
  apply list_elem_of_split in Ha as (l1 & l2 & E). pose proof (visited_order _ Hacc) as Ho. rewrite E in Ho.
  apply (ordered_split _ _ _ _ _ _ Ho) in Hac. rewrite E. apply elem_of_app. by left.
Qed.

(** The direct dependencies with their closures, and the nodes of visited keys. *)
Lemma frontier_children (acc : Visited) es :
  (forall e, e ∈ es -> met metadata_dependencies fetch frontier (edge_key e) /\ is_Some (acc.1 !! resolved_of (ce_identifier e))) ->
  exists new, mapM (fun edge => resolved_key ← resolved_edge_identity identity edge;
      Some (resolved_key, default resolved_new (acc.1 !! resolved_key), ce_visibility edge)) es = Some new /\
  Forall2 (fun e ch => ch.1.1 = resolved_of (ce_identifier e) /\ ch.2 = ce_visibility e /\ acc.1 !! ch.1.1 = Some ch.1.2) es new.
Proof.
  induction es as [|e es IH]; intros He; [by exists []|]. destruct (He e (list_elem_of_here _ _)) as [Hm [rp Hrp]].
  destruct (edge_identity e Hm) as [Eid _]. destruct IH as (new & Hnew & HF); [intros e' Hin; apply He; by apply list_elem_of_further|].
  exists ((resolved_of (ce_identifier e), rp, ce_visibility e) :: new). split; [|by constructor].
  apply mapM_Some_2. apply mapM_Some_1 in Hnew. constructor; [|done]. rewrite Eid. simpl. by rewrite Hrp.
Qed.

Lemma visited_nodes (effective : gmap PinnedPackageRef Visibility) keys : (forall k, k ∈ keys -> known k /\ is_Some (effective !! k)) ->
  exists ns, mapM (fun key =>
      '(identifier, config_digest, metadata, edges) ← by_identity_of nodes !! key;
      visibility ← effective !! key;
      Some (node_of metadata_facts (Some visibility) false identifier config_digest metadata edges)) keys = Some ns /\
  Forall2 (fun k n => exists d r c m v, fetch d = Ok (r, c, m) /\ strip_advisory r = k /\ effective !! k = Some v /\
    n = mkNode r c (Some v) (metadata_facts m) (edges_of m) false) keys ns.
Proof.
  induction keys as [|k keys IH]; intros Hk; [by exists []|]. destruct (Hk k (list_elem_of_here _ _)) as [Hknown [v Hv]].
  destruct (known_node k Hknown) as (r & c & m & Hby & Hr & (d & Hd) & _).
  destruct IH as (ns & Hns & HF); [intros k' Hin; apply Hk; by apply list_elem_of_further|].
  exists (mkNode r c (Some v) (metadata_facts m) (edges_of m) false :: ns). split; [|constructor; [by exists d, r, c, m, v|done]].
  apply mapM_Some_2. apply mapM_Some_1 in Hns. constructor; [|done]. rewrite Hby. simpl. by rewrite Hv.
Qed.
End Fold.

Lemma effective_lookup rp d : NoDup (keys_of (rp_dependencies rp)) -> d ∈ rp_dependencies rp ->
  effective_of rp !! key_of d = Some (rd_visibility d).
Proof.
  destruct rp as [deps]. unfold effective_of. simpl. induction deps as [|d' deps IH] using rev_ind; intros Hd Hin; [by apply elem_of_nil in Hin|].
  unfold keys_of in Hd. rewrite map_app in Hd. apply NoDup_app in Hd as (Hd & Hdisj & _). rewrite fold_left_app. simpl. fold (key_of d').
  apply elem_of_app in Hin as [Hin| ->%list_elem_of_singleton]; [|by rewrite lookup_insert_eq].
  rewrite lookup_insert_ne; [by apply IH|]. intros E. apply (Hdisj (key_of d)); [by apply list_elem_of_fmap_2|]. rewrite <- E. apply list_elem_of_here.
Qed.

(** The nodes below a root: the packages it depends on, each once, in order, as the
    index has them, and as visible as the paths from the root make them. *)
Definition node_keys (ns : list (@ClosureNode Facts)) : list PinnedPackageRef := map (fun n => strip_advisory (cn_identifier n)) ns.
Record closure_nodes (root : PinnedPackageRef) (ns : list (@ClosureNode Facts)) : Prop := {
  nodes_once : NoDup (node_keys ns);
  nodes_closure : forall k, k ∈ node_keys ns <-> tc (depends graph) root k;
  nodes_order : ordered graph [] (node_keys ns);
  nodes_each : forall n, n ∈ ns -> exists d r c m v, fetch d = Ok (r, c, m) /\ n = mkNode r c (Some v) (metadata_facts m) (edges_of m) false /\
    (vis_interface v = true <-> tc (exports graph) root (strip_advisory r)) /\
    (vis_private v = true <-> exists first w, (first, w) ∈ graph root /\ vis_private w = true /\
       rtc (exports graph) (strip_advisory first) (strip_advisory r));
}.

Lemma fold_exact frontier nodes identity rank fuel root root' config m :
  gathered_exact metadata_dependencies fetch frontier nodes identity -> frontier = edges_of m ->
  (forall a b, depends graph a b -> (rank b < rank a)%nat) -> fetch root = Ok (root', config, m) -> (rank (strip_advisory root') <= fuel)%nat ->
  exists ns, fold_effective_visibility metadata_dependencies metadata_facts fuel root m config nodes identity =
    Some (ns ++ [node_of metadata_facts None true root config m (edges_of m)])%list /\ closure_nodes (strip_advisory root') ns.
Proof.
  intros Hexact -> Hrank Hroot Hfuel.
  assert (forall d, met metadata_dependencies fetch (edges_of m) (strip_advisory d) -> is_ok (fetch d) = true) as Hok.
  { intros d Hd. apply (exact_identity _ _ _ _ _ Hexact) in Hd as [r Hr]. destruct (exact_resolved _ _ _ _ _ Hexact _ _ Hr) as (_ & d0 & r0 & c0 & m0 & Hs & Hd0 & _).
    rewrite <- (fetch_ok_same fetch _ _ Hs). by rewrite Hd0. }
  assert (forall e, e ∈ edges_of m -> depends graph (strip_advisory root') (resolved_of (ce_identifier e))) as Hdep.
  { intros e He. apply (graph_depends _ _ _ _ _ Hroot). eauto. }
  destruct (visit_frontier (edges_of m) nodes identity Hexact Hok rank Hrank fuel (edges_of m)) with (acc := (∅, []) : Visited)
    as (acc & Hvisit & Hacc & Hgrow & Hall).
  { intros e He. split; [by exists e|]. specialize (Hrank _ _ (Hdep e He)). lia. }
  { split; simpl; [done| |constructor|done|].
    - intros k. rewrite lookup_empty, elem_of_nil. split; [by intros []|done].
    - intros k Hk. by apply elem_of_nil in Hk. }
  assert (forall k, k ∈ acc.2 <-> tc (depends graph) (strip_advisory root') k) as Hkeys.
  { intros k. rewrite tc_first. split.
    - intros Hk. apply Hgrow in Hk as [Hk|(s & (e & -> & He)%list_elem_of_fmap & Hr)]; [by apply elem_of_nil in Hk|]. eauto.
    - intros (s & Hs & Hr). apply (graph_depends _ _ _ _ _ Hroot) in Hs as (e & He & ->).
      eapply visited_closed; [exact Hacc| |exact Hr]. apply (visited_dom _ _ Hacc). by apply Hall. }
  destruct (frontier_children (edges_of m) nodes identity Hexact Hok acc (edges_of m)) as (new & Hnew & HF).
  { intros e He. split; [by exists e|by apply Hall]. }
  pose proof (visited_children nodes (strip_advisory root') (edges_of m) new acc Hacc (graph_resolved _ _ _ _ Hroot) HF) as Hrec.
  set (rp := with_dependencies resolved_new new) in *.
  assert (forall k, k ∈ acc.2 -> exists d, d ∈ rp_dependencies rp /\ key_of d = k /\ effective_of rp !! k = Some (rd_visibility d)) as Heff.
  { intros k Hk%Hkeys. apply (records_closure _ _ _ Hrec), list_elem_of_fmap in Hk as (d & -> & Hd). exists d. split_and!; [done|done|].
    apply effective_lookup; [apply (records_once _ _ _ Hrec)|done]. }
  destruct (visited_nodes (edges_of m) nodes identity Hexact (effective_of rp) acc.2) as (ns & Hns & HN).
  { intros k Hk. split; [by apply (visited_known _ _ Hacc)|]. destruct (Heff k Hk) as (d & _ & _ & ->). eauto. }
  exists ns. unfold fold_effective_visibility. rewrite Hvisit. simpl. rewrite Hnew. simpl. fold rp. rewrite Hns. split; [done|].
  assert (node_keys ns = acc.2) as Enk.
  { clear -HN. induction HN as [|k n ks ns (d & r & c & m0 & v & _ & <- & _ & ->) _ IH]; [done|]. simpl. by f_equal. }
  split; rewrite ?Enk; [apply (visited_once _ _ Hacc)|done|apply (visited_order _ _ Hacc)|].
  intros n [i Hi]%list_elem_of_lookup. destruct (Forall2_lookup_r _ _ _ _ _ HN Hi) as (k & Hki & d & r & c & m0 & v & Hd & Hr & Hv & ->).
  destruct (Heff k (list_elem_of_lookup_2 _ _ _ Hki)) as (dep & Hdep' & Hkey & Hv'). rewrite Hv in Hv'. injection Hv' as ->.
  exists d, r, c, m0, (rd_visibility dep). split_and!; [done|done| |]; rewrite Hr, <- Hkey.
  - apply (records_interface _ _ _ Hrec). done.
  - apply (records_private _ _ _ Hrec). done.
Qed.

(** C13: the closure walk is right whatever order its concurrent fetches finish in: it
    ends, and either reports the error of a fetch that failed, or returns the packages
    the root depends on, each once and after what it depends on, then the root; each as
    the index has it, visible to consumers and to the root's runtime exactly as the
    paths of the graph say. *)
Theorem walk_closure_exact schedule gather_fuel visit_fuel root root' config m universe (rank : PinnedPackageRef -> nat) :
  fetch root = Ok (root', config, m) -> (forall a b, depends graph a b -> (rank b < rank a)%nat) ->
  (forall k, met metadata_dependencies fetch (edges_of m) k -> k ∈ universe) ->
  (length universe <= gather_fuel)%nat -> (rank (strip_advisory root') <= visit_fuel)%nat ->
  exists r, walk_closure_nodes metadata_dependencies metadata_facts fetch schedule gather_fuel visit_fuel root m config = Some r /\
  match r with
  | Err e => exists d, fetch d = Err e /\ met metadata_dependencies fetch (edges_of m) (strip_advisory d)
  | Ok ns => exists below, ns = (below ++ [mkNode root config None (metadata_facts m) (edges_of m) true])%list /\
      closure_nodes (strip_advisory root') below
  end.
Proof.
  intros Hroot Hrank Hu Hgf Hvf. unfold walk_closure_nodes.
  destruct (gather_ends metadata_dependencies fetch schedule gather_fuel (edges_of m) universe Hu Hgf)
    as [(e & d & -> & He & Hd)|(nodes & identity & -> & Hexact)]; simpl; [exists (Err e); by eauto|].
  destruct (fold_exact _ _ _ rank visit_fuel root root' config m Hexact eq_refl Hrank Hroot Hvf) as (ns & -> & Hns). simpl. eexists. split; [reflexivity|]. by exists ns.
Qed.
End Walk.

(** ** A walk *)

(** The diamond again, the tool's dependency being pinned to an index ([i]) that the
    platform resolves to the third package. *)
Definition walk_deps (repository : string) : list Dependency :=
  if String.eqb repository "a" then [mkDependency (diamond_package "b" (Some "1")) PRIVATE None; mkDependency (diamond_package "c" None) PUBLIC None]
  else if String.eqb repository "b" then [mkDependency (diamond_package "i" (Some "2")) INTERFACE None]
  else if String.eqb repository "c" then [mkDependency (diamond_package "d" (Some "3")) PRIVATE None]
  else [].
Definition walk_fetch (d : PinnedPackageRef) : result unit (PinnedPackageRef * Digest * list Dependency) :=
  if String.eqb (pp_repository d) "i" then Ok (diamond_package "d" (pp_tag d), DSha256 "d", [])
  else if bool_decide (strip_advisory d ∈ [diamond_package "a" None; diamond_package "b" None; diamond_package "c" None; diamond_package "d" None])
  then Ok (d, DSha256 (pp_repository d), walk_deps (pp_repository d)) else Err tt.

Lemma strip_parts d1 d2 : strip_advisory d1 = strip_advisory d2 ->
  pp_registry d1 = pp_registry d2 /\ pp_repository d1 = pp_repository d2 /\ pp_digest d1 = pp_digest d2.
Proof. destruct d1, d2. by intros [= -> -> ->]. Qed.

Lemma walk_fetch_Ok d r c m : walk_fetch d = Ok (r, c, m) ->
  strip_advisory r ∈ [diamond_package "a" None; diamond_package "b" None; diamond_package "c" None; diamond_package "d" None] /\
  c = DSha256 (pp_repository r) /\ m = walk_deps (pp_repository r) /\
  strip_advisory r = (if String.eqb (pp_repository d) "i" then diamond_package "d" None else strip_advisory d).
Proof.
  unfold walk_fetch. destruct (String.eqb (pp_repository d) "i").
  { intros [= <- <- <-]. split_and!; [apply list_elem_of_In; do 3 right; by left|reflexivity..]. }
  case_bool_decide as Hin; [|done]. by intros [= <- <- <-].
Qed.
#[export] Instance walk_content : ContentAddressed walk_fetch.
Proof.
  split.
  - intros d1 d2 Hs. unfold walk_fetch. rewrite Hs. destruct (strip_parts _ _ Hs) as (_ & -> & _).
    destruct (String.eqb _ "i"); [done|]. by case_bool_decide.
  - intros d1 d2 r1 c1 m1 r2 c2 m2 H1%walk_fetch_Ok H2%walk_fetch_Ok Hs. destruct H1 as (_ & _ & _ & ->), H2 as (_ & _ & _ & ->).
    rewrite Hs. by destruct (strip_parts _ _ Hs) as (_ & -> & _).
  - intros d1 d2 r1 c1 m1 r2 c2 m2 H1%walk_fetch_Ok H2%walk_fetch_Ok (_ & Hs & _)%strip_parts.
    destruct H1 as (_ & -> & -> & _), H2 as (_ & -> & -> & _). by rewrite Hs.
  - intros d r c m (Hin & -> & -> & _)%walk_fetch_Ok. exists (strip_advisory r). unfold walk_fetch.
    change (pp_repository (strip_advisory r)) with (pp_repository r). change (strip_advisory (strip_advisory r)) with (strip_advisory r).
    assert (String.eqb (pp_repository r) "i" = false) as ->.
    { change (pp_repository r) with (pp_repository (strip_advisory r)).
      apply list_elem_of_In in Hin as [<-|[<-|[<-|[<-|[]]]]]; done. }
    by rewrite bool_decide_eq_true_2.
Qed.

Definition walk_rank (k : PinnedPackageRef) : nat :=
  if String.eqb (pp_repository k) "a" then 2 else if String.eqb (pp_repository k) "b" then 1 else if String.eqb (pp_repository k) "c" then 1 else 0.
Definition walk_universe : list PinnedPackageRef := map (fun c => diamond_package c None) ["b"%char; "c"%char; "d"%char; "i"%char].

Lemma walk_rank_decreases a b : depends (graph id walk_fetch) a b -> (walk_rank b < walk_rank a)%nat.
Proof.
  intros (d & v & Hin & ->). unfold graph in Hin. destruct (walk_fetch a) as [[[r c] m]|] eqn:E; [|by apply elem_of_nil in Hin].
  unfold walk_fetch in E. destruct (String.eqb (pp_repository a) "i"); [injection E as <- <- <-; by apply elem_of_nil in Hin|].
  case_bool_decide; [|done]. injection E as <- <- <-. unfold closure_edges_from_metadata, walk_deps in Hin. unfold walk_rank at 2.
  destruct (String.eqb (pp_repository a) "a"); [apply list_elem_of_In in Hin as [[= <- <-]|[[= <- <-]|[]]]; vm_compute; lia|].
  destruct (String.eqb (pp_repository a) "b"); [apply list_elem_of_In in Hin as [[= <- <-]|[]]; vm_compute; lia|].
  destruct (String.eqb (pp_repository a) "c"); [apply list_elem_of_In in Hin as [[= <- <-]|[]]; vm_compute; lia|].
  by apply elem_of_nil in Hin.
Qed.

Lemma walk_meets k : met id walk_fetch (closure_edges_from_metadata id (walk_deps "a")) k -> k ∈ walk_universe.
Proof.
  assert (forall repository e, e ∈ closure_edges_from_metadata id (walk_deps repository) -> edge_key e ∈ walk_universe) as Hstep.
  { intros repository e. unfold closure_edges_from_metadata, walk_deps. repeat case_match; intros Hin%list_elem_of_In; simpl in Hin;
      repeat destruct Hin as [<-|Hin]; try done; apply (bool_decide_unpack _); vm_compute; exact I. }
  intros (e & He & Hr). apply Hstep in He. induction Hr as [|k k' k'' (d & r & c & m & e' & _ & Hd & He' & ->) _ IH]; [done|].
  apply IH. apply walk_fetch_Ok in Hd as (_ & _ & -> & _). by apply Hstep in He'.
Qed.

Lemma walk_closure_exact_witness : exists ns,
  walk_closure_nodes id (fun _ => tt) walk_fetch (fun n => n) 4 2 (diamond_package "a" None) (walk_deps "a") (DSha256 "a") = Some (Ok ns) /\
  map (fun n => (cn_identifier n, cn_effective_visibility n)) ns =
    [(diamond_package "d" (Some "2"), Some PRIVATE); (diamond_package "b" (Some "1"), Some PRIVATE); (diamond_package "c" None, Some PUBLIC);
     (diamond_package "a" None, None)] /\
  exists below, closure_nodes id (fun _ => tt) walk_fetch (diamond_package "a" None) below.
Proof.
  destruct (walk_closure_exact id (fun _ => tt) walk_fetch (fun n => n) 4 2 (diamond_package "a" None) (diamond_package "a" None) (DSha256 "a")
    (walk_deps "a") walk_universe walk_rank) as (r & Hr & Hcase);
    [vm_compute; reflexivity|exact walk_rank_decreases|exact walk_meets|vm_compute; lia|vm_compute; lia|].
  vm_compute in Hr. injection Hr as <-. eexists. split; [vm_compute; reflexivity|]. split; [vm_compute; reflexivity|].
  destruct Hcase as (below & _ & Hbelow). by exists below.
Defined.
