(* ===== verification/TextSearch.v ===== *)
(** * Substrings: searching, slicing and replacing

    The [str] operations the template scanner and the list values use: slices by byte
    index, [find] and [rfind] of a character, [contains], and [replace], which rewrites
    the leftmost occurrence and goes on behind it. *)

From stdpp Require Import base decidable list option numbers strings.
From Stdlib Require Import Lia Ascii.
From S2P Require Import Prelude Text.
Local Open Scope ocx_scope.
Local Open Scope string_scope.

(** [&input[at..end]]. *)
Definition slice (input : string) (from upto : nat) : string := String.substring from (upto - from) input.

(** [str::find] and [str::rfind] of a character: a byte index. *)
Definition find_char (c : ascii) (s : string) : option nat := String.length ∘ fst <$> split_once c s.
Definition rfind_char (c : ascii) (s : string) : option nat := String.length ∘ fst <$> rsplit_once c s.

(** [str::contains]. *)
Fixpoint contains (pat s : string) : bool :=
  starts_with pat s || match s with EmptyString => false | String _ s' => contains pat s' end.

(** [str::ends_with]. *)
Definition str_ends_with (suf s : string) : bool := bool_decide (is_Some (strip_suffix suf s)).

(** [str::replace] for a non-empty pattern; [skip] bytes belong to an occurrence that is
    already rewritten. *)
Fixpoint replace_from (pat rep s : string) (skip : nat) : string :=
  match s with
  | EmptyString => EmptyString
  | String c s' =>
      match skip with
      | S k => replace_from pat rep s' k
      | O =>
          if starts_with pat s then rep +:+ replace_from pat rep s' (pred (String.length pat))
          else String c (replace_from pat rep s' 0)
      end
  end.
Definition str_replace (pat rep s : string) : string := replace_from pat rep s 0.

(** ** Slices *)

Lemma substring_app a b c : String.substring (String.length a) (String.length b) (a +:+ b +:+ c) = b.
Proof.
  induction a as [|x a IH]; simpl.
  - induction b as [|y b IHb]; simpl; [by destruct c|]. by rewrite IHb.
  - done.
Qed.

Lemma slice_app a b c from upto :
  from = String.length a -> upto = (String.length a + String.length b)%nat -> slice (a +:+ b +:+ c) from upto = b.
Proof. intros -> ->. unfold slice. rewrite Nat.add_comm, Nat.add_sub. apply substring_app. Qed.

Lemma slice_tail a b from upto :
  from = String.length a -> upto = (String.length a + String.length b)%nat -> slice (a +:+ b) from upto = b.
Proof. intros H1 H2. pose proof (slice_app a b "" from upto H1 H2) as H. by rewrite str_app_nil_r in H. Qed.

(** ** Prefixes *)

Lemma starts_with_true pre s : starts_with pre s = true <-> exists r, s = pre +:+ r.
Proof.
  unfold starts_with. rewrite bool_decide_eq_true. split.
  - intros [r Hr]. exists r. by apply strip_prefix_Some.
  - intros [r Hr]. exists r. by apply strip_prefix_Some.
Qed.

Lemma starts_with_app pre s : starts_with pre (pre +:+ s) = true.
Proof. apply starts_with_true. by exists s. Qed.

Lemma str_app_inj a b c : a +:+ b = a +:+ c -> b = c.
Proof. induction a as [|x a IH]; simpl; [done|]. intros [= H]. by apply IH. Qed.

Lemma str_app_inj_len a b c d : String.length a = String.length c -> a +:+ b = c +:+ d -> a = c /\ b = d.
Proof.
  revert c. induction a as [|x a IH]; intros [|y c]; simpl; try done.
  intros [= Hl] [= -> He]. destruct (IH c Hl He) as [-> ->]. done.
Qed.

(** The shorter of two prefixes of a string is a prefix of the longer. *)
Lemma prefix_le a b c d : a +:+ b = c +:+ d -> (String.length a <= String.length c)%nat -> exists e, c = a +:+ e.
Proof.
  revert c. induction a as [|x a IH]; intros c He Hl; [by exists c|].
  destruct c as [|y c]; simpl in *; [lia|]. injection He as -> He. destruct (IH c He) as [e ->]; [lia|]. by exists e.
Qed.

(** ** Replacing *)

Lemma replace_skip pat rep a s : replace_from pat rep (a +:+ s) (String.length a) = str_replace pat rep s.
Proof. induction a as [|x a IH]; simpl; [done|]. apply IH. Qed.

Lemma replace_here pat rep s : pat <> "" -> str_replace pat rep (pat +:+ s) = rep +:+ str_replace pat rep s.
Proof.
  intros Hp. destruct pat as [|c pat]; [done|]. unfold str_replace. pose proof (starts_with_app (String c pat) s) as H.
  cbn [String.append] in H |- *. cbn [replace_from]. rewrite H. f_equal. apply replace_skip.
Qed.

Lemma replace_step pat rep c s : starts_with pat (String c s) = false -> str_replace pat rep (String c s) = String c (str_replace pat rep s).
Proof. intros H. unfold str_replace. cbn [replace_from]. by rewrite H. Qed.

Lemma contains_true pat s : contains pat s = true <-> exists a b, s = a +:+ pat +:+ b.
Proof.
  induction s as [|c s IH]; simpl; rewrite orb_true_iff, starts_with_true.
  - split.
    + intros [[r Hr]|]; [|done]. by exists "", r.
    + intros (a & b & He). left. destruct a; [|done]. by exists b.
  - rewrite IH. split.
    + intros [[r Hr]|(a & b & ->)]; [by exists "", r|]. by exists (String c a), b.
    + intros (a & b & He). destruct a as [|d a]; [left; by exists b|]. injection He as -> ->. right. by exists a, b.
Qed.

(** ** Paths as texts

    The few operations of [std::path::Path] on a Unix host that the setup and the
    configuration use, over UTF-8 texts. *)

(** [Path::join] of a relative part. *)
Definition path_join (base part : string) : string :=
  if String.eqb base "" then part else if str_ends_with "/" base then base +:+ part else base +:+ "/" +:+ part.
Definition has_root (path : string) : bool := starts_with "/" path.

(** The components of a path but [.] and empty ones: [dir != "/"] compares components. *)
Definition path_names (dir : string) : list string :=
  List.filter (fun s => negb (String.eqb s "") && negb (String.eqb s ".")) (split_char "/" dir).

(** [Path::join] of any part, [Path] equality of rooted paths, [Path::parent] and
    [Path::ancestors], up to the spelling of the separators. *)
Definition path_push (base part : string) : string := if has_root part then part else path_join base part.
Definition path_eq (a b : string) : bool := Bool.eqb (has_root a) (has_root b) && bool_decide (path_names a = path_names b).
Definition path_of_names (rooted : bool) (names : list string) : string := (if rooted then "/" else "") +:+ str_join "/" names.
Definition path_text_parent (path : string) : option string :=
  match path_names path with [] => None | names => Some (path_of_names (has_root path) (removelast names)) end.
(** The directories above one with the given names, nearest first. *)
Definition path_ancestors (path : string) : list string :=
  let names := path_names path in
  path :: map (fun k => path_of_names (has_root path) (firstn k names)) (rev (seq 0 (List.length names))).

(** [str::split_once] with a text. *)
Fixpoint split_once_text (pat s : string) : option (string * string) :=
  match strip_prefix pat s with
  | Some rest => Some ("", rest)
  | None =>
      match s with
      | EmptyString => None
      | String c s' => match split_once_text pat s' with Some (a, b) => Some (String c a, b) | None => None end
      end
  end.

Lemma split_once_text_Some pat s a b : split_once_text pat s = Some (a, b) -> s = a +:+ pat +:+ b.
Proof.
  revert a b; induction s as [|c s IH]; intros a b; simpl.
  - destruct (strip_prefix pat "") as [r|] eqn:E; [|done]. intros [= <- <-]. by apply strip_prefix_Some in E.
  - destruct (strip_prefix pat (String c s)) as [r|] eqn:E; [intros [= <- <-]; by apply strip_prefix_Some in E|].
    destruct (split_once_text pat s) as [[x y]|]; [|done]. intros [= <- <-]. by rewrite (IH x y).
Qed.

Lemma split_once_text_None pat s : split_once_text pat s = None <-> contains pat s = false.
Proof.
  induction s as [|c s IH]; simpl.
  - destruct (strip_prefix pat "") eqn:E; unfold starts_with; rewrite E; done.
  - unfold starts_with. destruct (strip_prefix pat (String c s)) eqn:E; simpl; [done|].
    rewrite <- IH. by destruct (split_once_text pat s) as [[? ?]|].
Qed.
