(* ===== verification/Metadata.v ===== *)
(** * Package metadata

    [crates/ocx_package/src/metadata.rs], [metadata/bundle.rs], [metadata/env/*.rs],
    [metadata/entrypoint.rs], [install_info.rs] and the key predicates of
    [crates/ocx_env/src/lib.rs]: what a package declares about its environment, and what
    an installed package carries of it. *)

From stdpp Require Import base decidable list option numbers strings gmap.
From Stdlib Require Import Lia Ascii.
From S2P Require Import Prelude OMap Text TextSearch Digest PackageRef Store Closure.
Local Open Scope ocx_scope.
Local Open Scope string_scope.
#[local] Set Warnings "-register-all".

(** ** Variable names *)

(** [is_valid_env_key]. *)
Definition is_alpha (c : ascii) : bool := is_lower c || is_upper c.
Definition is_valid_env_key (key : string) : bool :=
  match key with
  | EmptyString => false
  | String first bytes =>
      (is_alpha first || Ascii.eqb first "_") && str_forall (fun byte => is_alnum byte || Ascii.eqb byte "_") bytes
  end.

(** [to_ascii_uppercase] and [is_reserved_ocx_key]. *)
Definition to_upper (c : ascii) : ascii := if is_lower c then ascii_of_N (N_of_ascii c - 32) else c.
Fixpoint uppercase (s : string) : string :=
  match s with
  | EmptyString => EmptyString
  | String c s' => String (to_upper c) (uppercase s')
  end.
Definition is_reserved_ocx_key (key : string) : bool :=
  let upper := uppercase key in starts_with "OCX_" upper || starts_with "__OCX_" upper.

(** ** Modifiers *)

(** [enum Modifier], with the structs of its variants, and [enum ModifierKind]. *)
Inductive Modifier : Type :=
| MPath (required : bool) (value : string)
| MConstant (value : string)
| MList (separator : option string) (value : string)
| MUnknown (type_name : string).
Inductive ModifierKind : Type := KPath | KConstant | KList.
#[export] Instance ModifierKind_eq_dec : EqDecision ModifierKind.
Proof. solve_decision. Defined.

(** [TryFrom<&Modifier> for ModifierKind]; [Display] and [FromStr]. *)
Definition modifier_kind (modifier : Modifier) : option ModifierKind :=
  match modifier with
  | MPath _ _ => Some KPath
  | MConstant _ => Some KConstant
  | MList _ _ => Some KList
  | MUnknown _ => None
  end.
Definition kind_text (kind : ModifierKind) : string :=
  match kind with KPath => "path" | KConstant => "constant" | KList => "list" end.
Definition kind_from_str (text : string) : result string ModifierKind :=
  if String.eqb text "path" then Ok KPath
  else if String.eqb text "constant" then Ok KConstant
  else if String.eqb text "list" then Ok KList
  else Err text.

(** [struct Var] and [Var::value]; [struct Entry]. *)
Record Var : Type := mkVar { var_key : string; var_modifier : Modifier; var_visibility : Visibility }.
Definition var_value (var : Var) : option string :=
  match var_modifier var with
  | MPath _ value => Some value
  | MConstant value => Some value
  | MList _ value => Some value
  | MUnknown _ => None
  end.
Record Entry : Type := mkEntry {
  en_key : string;
  en_value : string;
  en_kind : ModifierKind;
  en_separator : option string;
}.
#[export] Instance Entry_eq_dec : EqDecision Entry.
Proof. solve_decision. Defined.

(** [list::DEFAULT_SEPARATOR], [separator_is_valid], [is_separator_edged]. *)
Definition DEFAULT_SEPARATOR : string := " ".
Definition newline : ascii := "010"%char.
Definition carriage_return : ascii := "013"%char.
Definition separator_is_valid (separator : string) : bool :=
  negb (String.eqb separator "") &&
  negb (str_mem "=" separator || str_mem newline separator || str_mem carriage_return separator).
Definition is_separator_edged (value separator : string) : bool := starts_with separator value || str_ends_with separator value.

(** ** The document *)

(** [serde_json::Value]; a number is its text. *)
Inductive Json : Type :=
| JNull
| JBool (b : bool)
| JNumber (text : string)
| JString (text : string)
| JArray (items : list Json)
| JObject (members : list (string * Json)).

(** [struct Entrypoint]; [Entrypoints] is a sorted map. *)
Record Entrypoint : Type := mkEntrypoint { ep_command : option string; ep_args : list string }.
Definition Entrypoints : Type := list (string * Entrypoint).
Definition entrypoint_names (e : Entrypoints) : list string := om_keys e.
Definition dispatch_command (e : Entrypoints) (name : string) : string :=
  match om_get name e with
  | Some entry => default name (ep_command entry)
  | None => name
  end.

(** [Entrypoints::IMPLICIT_VISIBILITY], [Binaries::IMPLICIT_VISIBILITY]. *)
Definition ENTRYPOINTS_VISIBILITY : Visibility := INTERFACE.
Definition BINARIES_VISIBILITY : Visibility := PUBLIC.

(** [enum Metadata] has the one variant [Bundle]. *)
Record Metadata : Type := mkMetadata {
  md_env : list Var;
  md_dependencies : list Dependency;
  md_entrypoints : Entrypoints;
  md_binaries : option (list string);
  md_integrations : list (string * Json);
}.

(** ** Installed packages *)

(** [struct InstallInfo] and [struct DeferredComposition], which is the shim directory and
    the closure; of the fields, those a composition reads. *)
Inductive InstallInfo : Type := mkInstallInfo {
  ii_identifier : PinnedPackageRef;
  ii_metadata : Metadata;
  ii_resolved : ResolvedPackage;
  ii_dir : Path;
  ii_deferred : option (Path * list InstallInfo);
}.

(** [DeferredComposition::member]. *)
Definition deferred_member (closure : list InstallInfo) (identifier : PinnedPackageRef) : option InstallInfo :=
  List.find (fun member => bool_decide (strip_advisory (ii_identifier member) = strip_advisory identifier)) closure.

(** [PackageDir::content], [PackageDir::entrypoints], [ShimDir::bin]; a path as the text
    of its components. *)
Definition content_dir (package : Path) : Path := join package "content".
Definition entrypoints_dir (package : Path) : Path := join package "entrypoints".
Definition shim_bin_dir (shim : Path) : Path := join shim "bin".
Definition path_text (p : Path) : string :=
  match p with
  | root :: rest => if String.eqb root "/" then "/" +:+ str_join "/" rest else str_join "/" p
  | [] => ""
  end.

(** [enum DependencyContext], [install_path], [identifier]. *)
Inductive DependencyContext : Type :=
| Full (info : InstallInfo)
| PathOnly (id : PinnedPackageRef) (path : string).
Definition context_install_path (context : DependencyContext) : string :=
  match context with
  | Full info => path_text (content_dir (ii_dir info))
  | PathOnly _ path => path
  end.
Definition context_identifier (context : DependencyContext) : PinnedPackageRef :=
  match context with
  | Full info => ii_identifier info
  | PathOnly id _ => id
  end.

Lemma kind_text_roundtrip kind : kind_from_str (kind_text kind) = Ok kind.
Proof. by destruct kind. Qed.
