(* ===== verification/RootMerge.v ===== *)
(** * Merging a fetched root document into the local copy

    [merge_root] and [published_pins] of [crates/ocx_index/src/local_index.rs].  The merge walks
    the documents as JSON values, so that a field a newer writer added survives.  An object is
    [serde_json]'s insertion-ordered map: [jm_insert] replaces in place or appends, [jm_remove]
    is its [swap_remove], and two objects are equal whatever the order of their members.  The
    JSON library is the class [RootCodec]. *)

From stdpp Require Import base decidable list option numbers strings.
From Stdlib Require Import Lia.
From S2P Require Import Prelude OMap Text Digest Registry Metadata.
Local Open Scope ocx_scope.
Local Open Scope string_scope.

(** ** Values *)

Definition Members : Type := list (string * Json).

(** [Map::get], [Map::insert], [entry().or_insert], [Map::swap_remove]. *)
Fixpoint jm_get (key : string) (m : Members) : option Json :=
  match m with
  | [] => None
  | (k, v) :: rest => if String.eqb k key then Some v else jm_get key rest
  end.
Fixpoint jm_insert (key : string) (value : Json) (m : Members) : Members :=
  match m with
  | [] => [(key, value)]
  | (k, v) :: rest => if String.eqb k key then (k, value) :: rest else (k, v) :: jm_insert key value rest
  end.
Definition jm_or_insert (key : string) (value : Json) (m : Members) : Members :=
  match jm_get key m with Some _ => m | None => jm_insert key value m end.
Fixpoint jm_remove (key : string) (m : Members) : Members :=
  match m with
  | [] => []
  | (k, v) :: rest =>
      if String.eqb k key then match last rest with Some moved => moved :: removelast rest | None => [] end
      else (k, v) :: jm_remove key rest
  end.
Definition jm_keys (m : Members) : list string := map fst m.

(** [Value::get], [Value::as_object]. *)
Definition value_get (key : string) (v : Json) : option Json := match v with JObject m => jm_get key m | _ => None end.
Definition value_object (v : Json) : option Members := match v with JObject m => Some m | _ => None end.

(** [PartialEq for Value]. *)
Fixpoint json_eqb (a b : Json) : bool :=
  match a, b with
  | JNull, JNull => true
  | JBool x, JBool y => Bool.eqb x y
  | JNumber x, JNumber y | JString x, JString y => String.eqb x y
  | JArray xs, JArray ys =>
      (fix each xs ys := match xs, ys with
                         | [], [] => true
                         | x :: xs', y :: ys' => json_eqb x y && each xs' ys'
                         | _, _ => false
                         end) xs ys
  | JObject xs, JObject ys =>
      Nat.eqb (length xs) (length ys) &&
      forallb (fun member => match member with (k, v) =>
                 match jm_get k ys with Some w => json_eqb v w | None => false end end) xs
  | _, _ => false
  end.
Definition member_is (found : option Json) (value : Json) : bool :=
  match found with Some v => json_eqb v value | None => false end.

(** What the library guarantees of a value it parsed: no object repeats a key. *)
Fixpoint json_wf (v : Json) : bool :=
  match v with
  | JArray items => forallb json_wf items
  | JObject members => bool_decide (NoDup (map fst members)) && forallb (fun member => json_wf member.2) members
  | _ => true
  end.

Class RootCodec (Bytes : Type) : Type := {
  value_from_slice : Bytes -> option Json;
  root_from_slice : Bytes -> option IndexRoot;
  serialize_root : Json -> Bytes;
}.

(** ** The merge *)

(** [enum RootScope]. *)
Inductive RootScope : Type := ScopeTags (named : list string) | ScopePackage | ScopeRouting.

(** [RootTag::is_ephemeral_marker], and the closure [is_ephemeral] of [merge_root]. *)
Definition is_ephemeral_marker (value : Json) : bool := match value with JBool true => true | _ => false end.
Definition is_ephemeral (entry : Json) : bool :=
  match value_get "ephemeral" entry with Some value => is_ephemeral_marker value | None => false end.

(** The entries the scope takes of the fetched root; [None] is an early return. *)
Definition fetched_row (fetched_root : Json) (tag : string) : option Json := value_get "tags" fetched_root ≫= value_get tag.
Definition adopted_entries (committed usable : bool) (fetched_root : Json) (scope : RootScope) : option Members :=
  match scope with
  | ScopeTags named =>
      let entries := omap (fun tag => pair tag <$> fetched_row fetched_root tag) named in
      match entries with
      | [] => if usable then Some [] else None
      | _ :: _ => Some entries
      end
  | ScopePackage => Some (default [] (value_get "tags" fetched_root ≫= value_object))
  | ScopeRouting => if committed then None else Some []
  end.

(** The document the merge starts from when the committed one is not usable. *)
Definition emptied_base (fetched_root : Json) : Json :=
  match fetched_root with
  | JObject object => JObject (jm_insert "tags" (JObject []) object)
  | other => other
  end.

(** The package-level fields, under [RootScope::Package] alone. *)
Definition overwrite_field (state : Members * bool) (field : string * Json) : Members * bool :=
  let '(object, changed) := state in
  let '(key, value) := field in
  if negb (String.eqb key "tags") && negb (member_is (jm_get key object) value) then (jm_insert key value object, true)
  else (object, changed).
Definition overwrite_fields (scope : RootScope) (fetched_root : Json) (object : Members) : Members * bool :=
  match scope with
  | ScopePackage => fold_left overwrite_field (default [] (value_object fetched_root)) (object, false)
  | _ => (object, false)
  end.

(** One adopted row: a durable local row never takes the ephemeral marker. *)
Definition settle_entry (committed : option Json) (entry : Json) : Json :=
  if is_ephemeral entry && match committed with Some row => negb (is_ephemeral row) | None => false end then
    match entry with
    | JObject fields => JObject (jm_remove "ephemeral" fields)
    | other => other
    end
  else entry.
Definition adopt_entry (state : Members * bool) (adopted : string * Json) : Members * bool :=
  let '(tags, changed) := state in
  let '(tag, entry) := adopted in
  let entry := settle_entry (jm_get tag tags) entry in
  if member_is (jm_get tag tags) entry then (tags, changed) else (jm_insert tag entry tags, true).

Definition in_scope (scope : RootScope) (tag : string) : bool :=
  match scope with
  | ScopePackage => true
  | ScopeTags named => existsb (String.eqb tag) named
  | ScopeRouting => false
  end.
Definition row_dropped (scope : RootScope) (fetched_root : Json) (row : string * Json) : bool :=
  in_scope scope row.1 && is_ephemeral row.2 &&
  match value_get "tags" fetched_root ≫= value_object with
  | Some listed => negb (existsb (String.eqb row.1) (jm_keys listed))
  | None => false
  end.

Section Merge.
Context {Bytes : Type} `{!RootCodec Bytes}.

Definition root_usable (committed : option Bytes) : bool :=
  match committed with Some bytes => bool_decide (is_Some (root_from_slice bytes)) | None => false end.

Definition merge_root (committed : option Bytes) (fetched : Bytes) (scope : RootScope) : option Bytes :=
  fetched_root ← value_from_slice fetched;
  let usable := root_usable committed in
  adopted ← adopted_entries (bool_decide (is_Some committed)) usable fetched_root scope;
  let root := default (emptied_base fetched_root) (if usable then committed ≫= value_from_slice else None) in
  match root with
  | JObject object =>
      let '(object, changed) := overwrite_fields scope fetched_root object in
      let object := jm_or_insert "tags" (JObject []) object in
      match jm_get "tags" object with
      | Some (JObject tags) =>
          let '(tags, changed) := fold_left adopt_entry adopted (tags, changed) in
          let dropped := existsb (row_dropped scope fetched_root) tags in
          let tags := List.filter (fun row => negb (row_dropped scope fetched_root row)) tags in
          if changed || dropped || negb usable then Some (serialize_root (JObject (jm_insert "tags" (JObject tags) object)))
          else None
      | _ => Some fetched
      end
  | _ => Some fetched
  end.

(** [published_pins]. *)
Definition published_pins (bytes : option Bytes) : list Digest :=
  match bytes ≫= root_from_slice with
  | Some root => map (fun row => rt_content row.2) (ir_tags root)
  | None => []
  end.
End Merge.
