(* ===== verification/RootMergeSpec.v ===== *)
(** * What a merged root document holds

    [merged_row] and [merged_field] say, tag by tag and field by field, what a merge leaves; the
    theorems show that [merge_root] writes exactly that, writes nothing when it is already
    there, and settles: merging the same fetched root again changes nothing. *)

From stdpp Require Import base decidable list option numbers strings.
From Stdlib Require Import Lia.
From S2P Require Import Prelude OMap Text Digest Registry Metadata RootMerge.
Local Open Scope ocx_scope.
Local Open Scope string_scope.

(** ** Members *)

Lemma jm_get_insert k v m k' : jm_get k' (jm_insert k v m) = if String.eqb k k' then Some v else jm_get k' m.
Proof.
  induction m as [|[k1 v1] m IH]; simpl; [done|].
  destruct (String.eqb_spec k1 k) as [->|Hne]; simpl; [by destruct (String.eqb k k')|].
  rewrite IH. destruct (String.eqb_spec k1 k') as [->|]; [|done]. by destruct (String.eqb_spec k k') as [->|].
Qed.
Lemma jm_keys_insert k v m : jm_keys (jm_insert k v m) = if existsb (String.eqb k) (jm_keys m) then jm_keys m else (jm_keys m ++ [k])%list.
Proof.
  induction m as [|[k1 v1] m IH]; simpl; [done|]. rewrite (String.eqb_sym k k1).
  destruct (String.eqb_spec k1 k) as [->|]; simpl; [done|]. rewrite IH. by destruct (existsb _ (jm_keys m)).
Qed.
Lemma keys_mem k (l : list string) : existsb (String.eqb k) l = true <-> k ∈ l.
Proof.
  rewrite existsb_exists, list_elem_of_In. split; [|eauto using String.eqb_refl].
  by intros (x & Hx & ->%String.eqb_eq).
Qed.
Lemma jm_insert_nodup k v m : NoDup (jm_keys m) -> NoDup (jm_keys (jm_insert k v m)).
Proof.
  intros Hm. rewrite jm_keys_insert. destruct (existsb (String.eqb k) (jm_keys m)) eqn:E; [done|].
  apply NoDup_app. split; [done|]. split; [|apply NoDup_singleton].
  intros x Hx ->%list_elem_of_singleton. apply keys_mem in Hx. congruence.
Qed.
Lemma jm_get_keys k m : is_Some (jm_get k m) <-> k ∈ jm_keys m.
Proof.
  induction m as [|[k1 v1] m IH]; simpl; [split; [by intros [? ?]|by intros ?%list_elem_of_In]|].
  rewrite elem_of_cons. destruct (String.eqb_spec k1 k) as [->|]; [naive_solver|]. rewrite IH. naive_solver.
Qed.
Lemma jm_get_In k v m : jm_get k m = Some v -> (k, v) ∈ m.
Proof.
  induction m as [|[k1 v1] m IH]; simpl; [done|]. rewrite elem_of_cons.
  destruct (String.eqb_spec k1 k) as [->|]; naive_solver.
Qed.
Lemma jm_In_get k v m : NoDup (jm_keys m) -> (k, v) ∈ m -> jm_get k m = Some v.
Proof.
  induction m as [|[k1 v1] m IH]; simpl; [by intros _ ?%list_elem_of_In|]. intros [Hn Hd]%NoDup_cons.
  rewrite elem_of_cons. intros [[= -> ->]|Hin]; [by rewrite String.eqb_refl|].
  destruct (String.eqb_spec k1 k) as [->|]; [|auto]. destruct Hn. apply jm_get_keys. rewrite IH by done. eauto.
Qed.
Lemma jm_get_filter p k m : NoDup (jm_keys m) ->
  jm_get k (List.filter p m) = match jm_get k m with Some v => if p (k, v) then Some v else None | None => None end.
Proof.
  induction m as [|[k1 v1] m IH]; simpl; [done|]. intros [Hn Hd]%NoDup_cons.
  destruct (String.eqb_spec k1 k) as [->|Hne].
  - destruct (p (k, v1)) eqn:E; simpl; [by rewrite String.eqb_refl|].
    rewrite IH by done. destruct (jm_get k m) eqn:G; [|done]. destruct Hn. apply jm_get_keys. eauto.
  - destruct (p (k1, v1)); simpl; [|by apply IH]. destruct (String.eqb_spec k1 k); [done|]. by apply IH.
Qed.
Lemma jm_filter_nodup p m : NoDup (jm_keys m) -> NoDup (jm_keys (List.filter p m)).
Proof.
  induction m as [|[k1 v1] m IH]; simpl; [done|]. intros [Hn Hd]%NoDup_cons. destruct (p _); simpl; [|auto].
  apply NoDup_cons. split; [|auto]. intros Hin. apply Hn. apply list_elem_of_fmap in Hin as ([k v] & -> & Hin).
  apply list_elem_of_In, filter_In in Hin as [Hin _]. apply list_elem_of_fmap. exists (k, v). by rewrite list_elem_of_In.
Qed.

(** [swap_remove] takes one member out of the map. *)
Lemma jm_remove_perm k m : NoDup (jm_keys m) -> Permutation (jm_remove k m) (List.filter (fun row => negb (String.eqb row.1 k)) m).
Proof.
  induction m as [|[k1 v1] m IH]; simpl; [done|]. intros [Hn Hd]%NoDup_cons.
  destruct (String.eqb_spec k1 k) as [->|]; simpl.
  - replace (List.filter (fun row => negb (String.eqb row.1 k)) m) with m.
    + destruct m as [|x m] using rev_ind; [done|]. rewrite last_snoc, removelast_last. apply Permutation_cons_append.
    + symmetry. clear IH. induction m as [|[k2 v2] m IH2]; simpl; [done|].
      assert (k2 <> k) as Hne. { intros ->. destruct Hn. simpl. apply elem_of_cons. by left. }
      destruct (String.eqb_spec k2 k); [done|]. simpl. f_equal. apply IH2.
      * intros Hin. apply Hn. simpl. apply elem_of_cons. by right.
      * by apply NoDup_cons in Hd as [_ ?].
  - apply Permutation_skip. auto.
Qed.
Lemma jm_remove_nodup k m : NoDup (jm_keys m) -> NoDup (jm_keys (jm_remove k m)).
Proof.
  intros Hm. eapply NoDup_Permutation_proper; [apply fmap_Permutation, (jm_remove_perm k m Hm)|]. by apply jm_filter_nodup.
Qed.
Lemma jm_get_removed k m : NoDup (jm_keys m) -> jm_get k (jm_remove k m) = None.
Proof.
  intros Hm. destruct (jm_get k (jm_remove k m)) as [v|] eqn:E; [|done]. apply jm_get_In in E.
  rewrite (jm_remove_perm k m Hm), list_elem_of_In, filter_In in E. destruct E as [_ E]. simpl in E. by rewrite String.eqb_refl in E.
Qed.

(** ** Values *)

Lemma json_ind_nested (P : Json -> Prop)
  (Hn : P JNull) (Hb : forall b, P (JBool b)) (Hm : forall t, P (JNumber t)) (Hs : forall t, P (JString t))
  (Ha : forall l, (forall x, In x l -> P x) -> P (JArray l))
  (Ho : forall m, (forall k v, In (k, v) m -> P v) -> P (JObject m)) : forall v, P v.
Proof.
  fix IH 1. intros [|b|t|t|l|m]; [exact Hn|apply Hb|apply Hm|apply Hs| |].
  - apply Ha. induction l as [|y l IHl]; [by intros x []|]. intros x [<-|Hx]; [apply IH|by apply IHl].
  - apply Ho. induction m as [|[k1 v1] m IHm]; [by intros k v []|]. intros k v [[= <- <-]|Hx]; [apply IH|by eapply IHm].
Qed.
Lemma json_wf_object m : json_wf (JObject m) = true <-> NoDup (jm_keys m) /\ forall k v, (k, v) ∈ m -> json_wf v = true.
Proof.
  simpl. rewrite andb_true_iff, bool_decide_eq_true, forallb_forall. split; intros [H1 H2]; (split; [done|]).
  - intros k v Hin%list_elem_of_In. by apply (H2 (k, v)).
  - intros [k v] Hin%list_elem_of_In. by apply (H2 k v).
Qed.
Lemma json_eqb_refl v : json_wf v = true -> json_eqb v v = true.
Proof.
  induction v as [|b|t|t|l IH|m IH] using json_ind_nested; intros W.
  - done.
  - simpl. by destruct b.
  - apply String.eqb_refl.
  - apply String.eqb_refl.
  - simpl in *. rewrite forallb_forall in W. induction l as [|x l IHl]; [done|].
    rewrite IH, IHl; simpl; auto. { intros y Hy. apply IH. by right. } { intros y Hy. apply W. by right. }
    apply W. by left.
  - apply json_wf_object in W as [Hd W]. cbn [json_eqb]. rewrite Nat.eqb_refl. simpl. apply forallb_forall.
    intros [k v] Hin. rewrite (jm_In_get k v) by (done || by apply list_elem_of_In).
    apply (IH k v Hin), (W k). by apply list_elem_of_In.
Qed.

Lemma json_wf_member k v m : json_wf (JObject m) = true -> jm_get k m = Some v -> json_wf v = true.
Proof. intros [_ W]%json_wf_object H%jm_get_In. by eapply W. Qed.
Lemma json_wf_insert k v m : json_wf (JObject m) = true -> json_wf v = true -> json_wf (JObject (jm_insert k v m)) = true.
Proof.
  rewrite !json_wf_object. intros [Hd W] Wv. split; [by apply jm_insert_nodup|]. intros k' v' Hin.
  apply jm_In_get in Hin; [|by apply jm_insert_nodup]. rewrite jm_get_insert in Hin.
  destruct (String.eqb k k'); [by simplify_eq|]. eapply W. by apply jm_get_In.
Qed.
Lemma json_wf_filter p m : json_wf (JObject m) = true -> json_wf (JObject (List.filter p m)) = true.
Proof.
  rewrite !json_wf_object. intros [Hd W]. split; [by apply jm_filter_nodup|].
  intros k v Hin. rewrite list_elem_of_In, filter_In in Hin. eapply W, list_elem_of_In, Hin.
Qed.
Lemma json_wf_remove k m : json_wf (JObject m) = true -> json_wf (JObject (jm_remove k m)) = true.
Proof.
  rewrite !json_wf_object. intros [Hd W]. split; [by apply jm_remove_nodup|]. intros k' v Hin.
  rewrite (jm_remove_perm k m Hd), list_elem_of_In, filter_In in Hin. eapply W, list_elem_of_In, Hin.
Qed.

(** ** The row of a tag *)

(** What adopting [entry] over the committed row leaves. *)
Definition adopted_row (committed : option Json) (entry : Json) : option Json :=
  if member_is committed (settle_entry committed entry) then committed else Some (settle_entry committed entry).

(** The row of [tag] after a merge, out of the row before it. *)
Definition merged_row (scope : RootScope) (fetched_root : Json) (committed : option Json) (tag : string) : option Json :=
  if in_scope scope tag then
    match fetched_row fetched_root tag with
    | Some entry => adopted_row committed entry
    | None =>
        match committed with
        | Some row => if row_dropped scope fetched_root (tag, row) then None else Some row
        | None => None
        end
    end
  else committed.

(** A package-level field after a merge, out of the field before it. *)
Definition merged_field (scope : RootScope) (fetched_root : Json) (committed : option Json) (key : string) : option Json :=
  match scope, value_get key fetched_root with
  | ScopePackage, Some value => if member_is committed value then committed else Some value
  | _, _ => committed
  end.

Lemma settle_entry_wf committed entry : json_wf entry = true -> json_wf (settle_entry committed entry) = true.
Proof. unfold settle_entry. intros W. destruct (_ && _); [|done]. destruct entry; try done. by apply json_wf_remove. Qed.
Lemma ephemeral_removed fields : json_wf (JObject fields) = true -> is_ephemeral (JObject (jm_remove "ephemeral" fields)) = false.
Proof. intros [Hd _]%json_wf_object. unfold is_ephemeral. simpl. by rewrite jm_get_removed. Qed.
Lemma ephemeral_object entry : is_ephemeral entry = true -> exists fields, entry = JObject fields.
Proof. destruct entry as [| | | | |fields]; try done. eauto. Qed.

(** Adopting a row twice is adopting it once. *)
Lemma settle_entry_settled committed entry : json_wf entry = true ->
  settle_entry (Some (settle_entry committed entry)) entry = settle_entry committed entry.
Proof.
  intros W. destruct (is_ephemeral entry) eqn:E.
  2: { assert (forall c, settle_entry c entry = entry) as Hs by (intros c; unfold settle_entry; by rewrite E). by rewrite !Hs. }
  destruct (ephemeral_object _ E) as [fields ->]. destruct committed as [row|]; [|unfold settle_entry; by rewrite E; simpl; rewrite E].
  destruct (is_ephemeral row) eqn:Er; unfold settle_entry; rewrite E, Er; simpl; [by rewrite E|]. by rewrite ephemeral_removed.
Qed.
Lemma adopted_row_settled committed entry : json_wf entry = true ->
  exists row, adopted_row committed entry = Some row /\ member_is (Some row) (settle_entry (Some row) entry) = true.
Proof.
  intros W. unfold adopted_row. destruct (member_is committed (settle_entry committed entry)) eqn:E.
  - destruct committed as [row|]; [|done]. eauto.
  - eexists. split; [done|]. rewrite settle_entry_settled by done. simpl. by apply json_eqb_refl, settle_entry_wf.
Qed.
Lemma adopted_row_idem committed entry : json_wf entry = true ->
  adopted_row (adopted_row committed entry) entry = adopted_row committed entry.
Proof.
  intros W. destruct (adopted_row_settled committed entry W) as (row & -> & Hr). unfold adopted_row. by rewrite Hr.
Qed.
Lemma adopted_row_durable row entry : json_wf entry = true -> is_ephemeral row = false ->
  exists row', adopted_row (Some row) entry = Some row' /\ is_ephemeral row' = false.
Proof.
  intros W Hr. unfold adopted_row. destruct (member_is _ _); [eauto|]. eexists. split; [done|].
  unfold settle_entry. rewrite Hr. simpl. rewrite andb_true_r. destruct (is_ephemeral entry) eqn:E; [|done].
  destruct (ephemeral_object _ E) as [fields ->]. by apply ephemeral_removed.
Qed.

(** ** The loops *)

Lemma adopt_entry_get tags changed t e t' :
  jm_get t' (adopt_entry (tags, changed) (t, e)).1 = if String.eqb t t' then adopted_row (jm_get t tags) e else jm_get t' tags.
Proof.
  unfold adopt_entry, adopted_row. destruct (member_is _ _) eqn:E; simpl.
  - by destruct (String.eqb_spec t t') as [->|].
  - rewrite jm_get_insert. by destruct (String.eqb t t').
Qed.
Lemma adopt_fold_get (F : string -> option Json) (HF : forall t e, F t = Some e -> json_wf e = true) adopted tags changed t :
  (forall t e, (t, e) ∈ adopted -> F t = Some e) ->
  jm_get t (fold_left adopt_entry adopted (tags, changed)).1 =
  match F t with
  | Some e => if existsb (String.eqb t) (jm_keys adopted) then adopted_row (jm_get t tags) e else jm_get t tags
  | None => jm_get t tags
  end.
Proof.
  revert tags changed. induction adopted as [|[t1 e1] adopted IH]; intros tags changed Ha; [by destruct (F t)|].
  cbn [fold_left jm_keys map existsb fst].
  assert (F t1 = Some e1) as H1 by (apply Ha, elem_of_cons; by left).
  pose proof (adopt_entry_get tags changed t1 e1 t) as Hg.
  destruct (adopt_entry (tags, changed) (t1, e1)) as [tags1 changed1]. simpl in Hg.
  rewrite IH by (intros t2 e2 Hin; apply Ha, elem_of_cons; by right). rewrite Hg, (String.eqb_sym t t1).
  destruct (String.eqb_spec t1 t) as [->|]; simpl; [|done]. rewrite H1.
  destruct (existsb _ _); [|done]. by apply adopted_row_idem, (HF t).
Qed.
(** A loop that reports no change made none. *)
Lemma adopt_fold_changed adopted tags changed :
  (fold_left adopt_entry adopted (tags, changed)).2 = false -> changed = false /\ (fold_left adopt_entry adopted (tags, changed)).1 = tags.
Proof.
  revert tags changed. induction adopted as [|[t1 e1] adopted IH]; intros tags changed; simpl; [done|].
  destruct (member_is _ _); [by apply IH|]. by intros [? _]%IH.
Qed.
Lemma adopt_fold_same adopted tags changed :
  (forall t e, (t, e) ∈ adopted -> member_is (jm_get t tags) (settle_entry (jm_get t tags) e) = true) ->
  fold_left adopt_entry adopted (tags, changed) = (tags, changed).
Proof.
  induction adopted as [|[t1 e1] adopted IH]; intros Ha; simpl; [done|].
  rewrite (Ha t1 e1) by (apply elem_of_cons; by left). apply IH. intros t e Hin. apply Ha, elem_of_cons. by right.
Qed.
Lemma adopt_fold_wf adopted tags changed : json_wf (JObject tags) = true -> (forall t e, (t, e) ∈ adopted -> json_wf e = true) ->
  json_wf (JObject (fold_left adopt_entry adopted (tags, changed)).1) = true.
Proof.
  revert tags changed. induction adopted as [|[t1 e1] adopted IH]; intros tags changed W Ha; [done|]. cbn [fold_left adopt_entry].
  assert (forall t e, (t, e) ∈ adopted -> json_wf e = true) as Ha' by (intros t e Hin; eapply Ha, elem_of_cons; by right).
  assert (json_wf e1 = true) as W1 by (eapply Ha, elem_of_cons; by left).
  destruct (member_is _ _); apply IH; [done|done| |done]. by apply json_wf_insert, settle_entry_wf.
Qed.

Lemma overwrite_fold_get fields object changed k : NoDup (jm_keys fields) ->
  jm_get k (fold_left overwrite_field fields (object, changed)).1 =
  match jm_get k fields with
  | Some v => if String.eqb k "tags" || member_is (jm_get k object) v then jm_get k object else Some v
  | None => jm_get k object
  end.
Proof.
  revert object changed. induction fields as [|[k1 v1] fields IH]; intros object changed; [done|].
  intros [Hn Hd]%NoDup_cons. cbn [fold_left overwrite_field].
  assert (forall o c, jm_get k (fold_left overwrite_field fields (o, c)).1 =
            if String.eqb k1 k then jm_get k o else match jm_get k fields with
              | Some v => if String.eqb k "tags" || member_is (jm_get k o) v then jm_get k o else Some v
              | None => jm_get k o end) as IH'.
  { intros o c. rewrite IH by done. destruct (String.eqb_spec k1 k) as [->|]; [|done].
    destruct (jm_get k fields) eqn:G; [|done]. destruct Hn. apply jm_get_keys. eauto. }
  simpl. destruct (negb (String.eqb k1 "tags") && negb (member_is (jm_get k1 object) v1)) eqn:E; rewrite IH'.
  - rewrite jm_get_insert. apply andb_true_iff in E as [E1%negb_true_iff E2%negb_true_iff].
    destruct (String.eqb_spec k1 k) as [->|]; [|done]. by rewrite E1, E2.
  - destruct (String.eqb_spec k1 k) as [->|]; [|done].
    apply andb_false_iff in E as [->%negb_false_iff| ->%negb_false_iff]; [done|by rewrite orb_true_r].
Qed.
Lemma overwrite_fold_changed fields object changed :
  (fold_left overwrite_field fields (object, changed)).2 = false ->
  changed = false /\ (fold_left overwrite_field fields (object, changed)).1 = object.
Proof.
  revert object changed. induction fields as [|[k1 v1] fields IH]; intros object changed; simpl; [done|].
  destruct (_ && _); [by intros [? _]%IH|by apply IH].
Qed.
Lemma overwrite_fold_same fields object changed :
  (forall k v, (k, v) ∈ fields -> k = "tags" \/ member_is (jm_get k object) v = true) ->
  fold_left overwrite_field fields (object, changed) = (object, changed).
Proof.
  induction fields as [|[k1 v1] fields IH]; intros Ha; simpl; [done|].
  assert (forall k v, (k, v) ∈ fields -> k = "tags" \/ member_is (jm_get k object) v = true) as Ha'.
  { intros k v Hin. apply Ha, elem_of_cons. by right. }
  destruct (Ha k1 v1) as [->| ->]; [apply elem_of_cons; by left| |]; simpl; [by apply IH|]. rewrite andb_false_r. by apply IH.
Qed.
Lemma overwrite_fold_wf fields object changed : json_wf (JObject object) = true -> (forall k v, (k, v) ∈ fields -> json_wf v = true) ->
  json_wf (JObject (fold_left overwrite_field fields (object, changed)).1) = true.
Proof.
  revert object changed. induction fields as [|[k1 v1] fields IH]; intros object changed W Ha; [done|]. cbn [fold_left overwrite_field].
  assert (forall k v, (k, v) ∈ fields -> json_wf v = true) as Ha' by (intros k v Hin; eapply Ha, elem_of_cons; by right).
  destruct (_ && _); apply IH; [|done|done|done]. apply json_wf_insert; [done|]. eapply Ha, elem_of_cons. by left.
Qed.

(** ** Documents *)

(** A document of the shape the format prescribes: an object whose [tags], if any, are one. *)
Definition root_shaped (v : Json) : bool :=
  match v with
  | JObject m => json_wf v && match jm_get "tags" m with None | Some (JObject _) => true | _ => false end
  | _ => false
  end.
Definition rows (m : Members) : Members := match jm_get "tags" m with Some (JObject tags) => tags | _ => [] end.

Lemma root_shaped_inv v : root_shaped v = true -> exists m, v = JObject m /\ json_wf (JObject m) = true /\
  (jm_get "tags" m = None /\ rows m = [] \/ jm_get "tags" m = Some (JObject (rows m))).
Proof.
  destruct v as [| | | | |m]; try done. cbn [root_shaped]. intros [W Ht]%andb_true_iff. exists m. split; [done|]. split; [done|].
  unfold rows. destruct (jm_get "tags" m) as [[]|]; naive_solver.
Qed.
Lemma rows_wf m : json_wf (JObject m) = true -> json_wf (JObject (rows m)) = true.
Proof. intros W. unfold rows. destruct (jm_get "tags" m) as [[]|] eqn:E; try done. by eapply json_wf_member. Qed.
Lemma fetched_row_rows m t : fetched_row (JObject m) t = jm_get t (rows m).
Proof. unfold fetched_row, rows. simpl. by destruct (jm_get "tags" m) as [[]|]. Qed.

Lemma adopted_entries_spec c u m scope adopted : json_wf (JObject m) = true ->
  adopted_entries c u (JObject m) scope = Some adopted ->
  (forall t e, (t, e) ∈ adopted -> jm_get t (rows m) = Some e) /\
  (forall t e, jm_get t (rows m) = Some e -> existsb (String.eqb t) (jm_keys adopted) = in_scope scope t).
Proof.
  intros W. pose proof (rows_wf m W) as [Hd _]%json_wf_object. destruct scope as [named| |]; cbn [adopted_entries].
  - intros H. assert (adopted = omap (fun tag => pair tag <$> fetched_row (JObject m) tag) named) as ->.
    { destruct (omap _ named); [by destruct u; simplify_eq|by simplify_eq]. }
    split.
    + intros t e (x & Hx & Hs)%list_elem_of_omap. rewrite fetched_row_rows in Hs. by destruct (jm_get x (rows m)) eqn:G; simplify_eq/=.
    + intros t e Hr. apply eq_iff_eq_true. simpl. rewrite !keys_mem. unfold jm_keys. rewrite list_elem_of_fmap. split.
      * intros ([t' e'] & -> & (x & Hx & Hs)%list_elem_of_omap). by destruct (fetched_row _ x); simplify_eq/=.
      * intros Hin. exists (t, e). split; [done|]. apply list_elem_of_omap. exists t. split; [done|].
        by rewrite fetched_row_rows, Hr.
  - intros [= <-]. replace (default [] (value_get "tags" (JObject m) ≫= value_object)) with (rows m)
      by (unfold rows; simpl; by destruct (jm_get "tags" m) as [[]|]).
    split; [by intros t e; apply jm_In_get|]. intros t e Hr. simpl. apply keys_mem, jm_get_keys. eauto.
  - destruct c; [done|]. intros [= <-]. split; [by intros t e ?%list_elem_of_In|done].
Qed.

Lemma row_dropped_listed scope m t row : jm_get t (rows m) <> None -> row_dropped scope (JObject m) (t, row) = false.
Proof.
  intros Hr. unfold row_dropped. simpl. unfold rows in Hr. destruct (jm_get "tags" m) as [[| | | | |tags]|]; simpl; try apply andb_false_r.
  replace (existsb _ _) with true; [by rewrite andb_false_r|]. symmetry. apply keys_mem, jm_get_keys, not_eq_None_Some, Hr.
Qed.
Lemma row_dropped_scope scope v t row : in_scope scope t = false -> row_dropped scope v (t, row) = false.
Proof. unfold row_dropped. simpl. by intros ->. Qed.

(** The rows the loop and the final retain leave. *)
Lemma merged_rows c u m scope adopted tags changed :
  json_wf (JObject m) = true -> NoDup (jm_keys tags) -> json_wf (JObject tags) = true ->
  adopted_entries c u (JObject m) scope = Some adopted ->
  forall t, jm_get t (List.filter (fun row => negb (row_dropped scope (JObject m) row)) (fold_left adopt_entry adopted (tags, changed)).1) =
    merged_row scope (JObject m) (jm_get t tags) t.
Proof.
  intros W Hd Wt Ha t. destruct (adopted_entries_spec _ _ _ _ _ W Ha) as [A1 A2].
  assert (forall t e, jm_get t (rows m) = Some e -> json_wf e = true) as HF by (intros ? ?; eapply json_wf_member, rows_wf, W).
  rewrite jm_get_filter.
  2: { apply json_wf_object, adopt_fold_wf; [done|]. intros t1 e1 H1. by apply (HF t1), A1. }
  rewrite (adopt_fold_get (fun t => jm_get t (rows m))) by done.
  unfold merged_row. rewrite fetched_row_rows. destruct (jm_get t (rows m)) as [e|] eqn:Er.
  - rewrite (A2 t e Er). destruct (in_scope scope t) eqn:Es.
    + destruct (adopted_row_settled (jm_get t tags) e (HF t e Er)) as (row & -> & _). by rewrite row_dropped_listed by by rewrite Er.
    + destruct (jm_get t tags); [|done]. by rewrite row_dropped_scope.
  - destruct (jm_get t tags) as [row|] eqn:Et; [|by destruct (in_scope scope t)].
    destruct (in_scope scope t) eqn:Es; [by destruct (row_dropped _ _ _)|]. by rewrite row_dropped_scope.
Qed.

Lemma overwrite_fields_get scope fm object k : json_wf (JObject fm) = true ->
  jm_get k (overwrite_fields scope (JObject fm) object).1 =
  if String.eqb k "tags" then jm_get k object else merged_field scope (JObject fm) (jm_get k object) k.
Proof.
  intros [Hd _]%json_wf_object. unfold merged_field. destruct scope; simpl; try by destruct (String.eqb k "tags").
  rewrite overwrite_fold_get by done. by destruct (jm_get k fm), (String.eqb k "tags").
Qed.
Lemma overwrite_fields_wf scope fm object : json_wf (JObject fm) = true -> json_wf (JObject object) = true ->
  json_wf (JObject (overwrite_fields scope (JObject fm) object).1) = true.
Proof. intros [_ Wv]%json_wf_object W. destruct scope; simpl; try done. by apply overwrite_fold_wf. Qed.
Lemma overwrite_fields_changed scope fm object :
  (overwrite_fields scope (JObject fm) object).2 = false -> (overwrite_fields scope (JObject fm) object).1 = object.
Proof. destruct scope; simpl; try done. by intros [_ ?]%overwrite_fold_changed. Qed.

Section Shape.
Context {Bytes : Type} `{!RootCodec Bytes}.
Implicit Types (committed : option Bytes) (f b : Bytes).

(** The members of the local copy that count, and that they have the shape of a root. *)
Definition local_members committed : Members :=
  if root_usable committed then match committed ≫= value_from_slice with Some (JObject m) => m | _ => [] end else [].
Definition committed_shaped committed : Prop :=
  root_usable committed = true -> exists v, committed ≫= value_from_slice = Some v /\ root_shaped v = true.

(** What the merge writes: [m], with the rows [tags]. *)
Definition written_as scope committed (fm m tags : Members) : Prop :=
  json_wf (JObject m) = true /\ jm_get "tags" m = Some (JObject tags) /\ existsb (row_dropped scope (JObject fm)) tags = false /\
  (forall t, jm_get t tags = merged_row scope (JObject fm) (jm_get t (rows (local_members committed))) t) /\
  forall k, k <> "tags" ->
    jm_get k m = if root_usable committed then merged_field scope (JObject fm) (jm_get k (local_members committed)) k else jm_get k fm.

(** The merge of an object the loops start from. *)
Lemma merge_object scope (usable : bool) c adopted fm object : json_wf (JObject fm) = true -> json_wf (JObject object) = true ->
  (jm_get "tags" object = None /\ rows object = [] \/ jm_get "tags" object = Some (JObject (rows object))) ->
  adopted_entries c usable (JObject fm) scope = Some adopted ->
  let '(object1, changed1) := overwrite_fields scope (JObject fm) object in
  let object2 := jm_or_insert "tags" (JObject []) object1 in
  let '(tags, changed) := fold_left adopt_entry adopted (rows object, changed1) in
  let kept := List.filter (fun row => negb (row_dropped scope (JObject fm) row)) tags in
  let m := jm_insert "tags" (JObject kept) object2 in
  jm_get "tags" object2 = Some (JObject (rows object)) /\ json_wf (JObject m) = true /\ jm_get "tags" m = Some (JObject kept) /\
  (forall t, jm_get t kept = merged_row scope (JObject fm) (jm_get t (rows object)) t) /\
  (forall k, k <> "tags" -> jm_get k m = merged_field scope (JObject fm) (jm_get k object) k) /\
  (changed || existsb (row_dropped scope (JObject fm)) tags = false ->
    (forall t, jm_get t kept = jm_get t (rows object)) /\ (forall k, k <> "tags" -> jm_get k m = jm_get k object)).
Proof.
  intros Wf Wo Ht Ha. pose proof (overwrite_fields_get scope fm object) as Hg. pose proof (overwrite_fields_wf scope fm object Wf Wo) as Wo1.
  pose proof (overwrite_fields_changed scope fm object) as Hc.
  destruct (overwrite_fields scope (JObject fm) object) as [object1 changed1]. cbn [fst snd] in *.
  pose proof (rows_wf object Wo) as Wr. pose proof (proj1 (proj1 (json_wf_object _) Wr)) as Hd.
  pose proof (merged_rows _ _ _ _ _ (rows object) changed1 Wf Hd Wr Ha) as Hrows.
  pose proof (adopt_fold_changed adopted (rows object) changed1) as Hchg.
  assert (json_wf (JObject (fold_left adopt_entry adopted (rows object, changed1)).1) = true) as Wt.
  { apply adopt_fold_wf; [done|]. intros t e Hin. apply (proj1 (adopted_entries_spec _ _ _ _ _ Wf Ha)) in Hin.
    by apply (json_wf_member t e (rows fm)), Hin; apply rows_wf. }
  destruct (fold_left adopt_entry adopted (rows object, changed1)) as [tags changed]. cbn [fst snd] in *.
  assert (jm_get "tags" object1 = jm_get "tags" object) as H1 by by rewrite Hg.
  set (object2 := jm_or_insert "tags" (JObject []) object1).
  assert (jm_get "tags" object2 = Some (JObject (rows object)) /\ (forall k, k <> "tags" -> jm_get k object2 = jm_get k object1) /\
          json_wf (JObject object2) = true) as (H2 & H2k & W2).
  { unfold object2, jm_or_insert. destruct Ht as [[Ht ->]|Ht]; rewrite Ht in H1; rewrite H1; [|done]. rewrite jm_get_insert. simpl.
    split; [done|]. split; [|by apply json_wf_insert]. intros k Hk. rewrite jm_get_insert. by destruct (String.eqb_spec "tags" k) as [<-|]. }
  assert (forall k v, k <> "tags" -> jm_get k (jm_insert "tags" v object2) = jm_get k object1) as Hk.
  { intros k v Hk. rewrite jm_get_insert. destruct (String.eqb_spec "tags" k) as [<-|]; [done|auto]. }
  assert (forall k, k <> "tags" -> jm_get k object1 = merged_field scope (JObject fm) (jm_get k object) k) as Hf1.
  { intros k Hne. rewrite Hg by done. by destruct (String.eqb_spec k "tags"). }
  split; [done|]. split; [apply json_wf_insert; [done|by apply json_wf_filter]|]. split; [by rewrite jm_get_insert|].
  split; [done|]. split; [intros k Hne; by rewrite Hk, Hf1|]. intros [-> Hdrop]%orb_false_iff. destruct (Hchg eq_refl) as [-> Et].
  assert (object1 = object) as -> by by apply Hc. split; [|intros k Hne; by rewrite Hk].
  intros t. rewrite jm_get_filter by by apply json_wf_object. rewrite <- Et. destruct (jm_get t tags) as [row|] eqn:G; [|done].
  replace (row_dropped scope (JObject fm) (t, row)) with false; [done|]. symmetry. apply jm_get_In, list_elem_of_In in G.
  destruct (row_dropped _ _ (t, row)) eqn:Ed; [|done]. exfalso. rewrite <- Bool.not_true_iff_false, existsb_exists in Hdrop. eauto.
Qed.

Lemma merged_field_own scope fm k : json_wf (JObject fm) = true -> merged_field scope (JObject fm) (jm_get k fm) k = jm_get k fm.
Proof.
  intros W. unfold merged_field. simpl. destruct scope; [done| |done]. destruct (jm_get k fm) as [v|] eqn:E; [|done].
  simpl. by rewrite json_eqb_refl by by eapply json_wf_member.
Qed.

(** The object the loops start from, and what it holds. *)
Lemma merge_start committed fm : root_shaped (JObject fm) = true -> committed_shaped committed ->
  exists object, default (emptied_base (JObject fm)) (if root_usable committed then committed ≫= value_from_slice else None) = JObject object /\
    json_wf (JObject object) = true /\
    (jm_get "tags" object = None /\ rows object = [] \/ jm_get "tags" object = Some (JObject (rows object))) /\
    rows object = rows (local_members committed) /\
    forall k, k <> "tags" -> jm_get k object = if root_usable committed then jm_get k (local_members committed) else jm_get k fm.
Proof.
  intros Sf Sc. unfold local_members. destruct (root_usable committed) eqn:Eu.
  - destruct (Sc Eu) as (v & Ev & (m & -> & W & Ht)%root_shaped_inv). exists m. by rewrite Ev.
  - apply root_shaped_inv in Sf as (m & [= <-] & W & _). exists (jm_insert "tags" (JObject []) fm).
    assert (rows (jm_insert "tags" (JObject []) fm) = []) as Hr by (unfold rows; by rewrite jm_get_insert).
    rewrite Hr, jm_get_insert. simpl. split; [done|]. split; [by apply json_wf_insert|]. split; [by right|]. split; [done|].
    intros k Hk. rewrite jm_get_insert. by destruct (String.eqb_spec "tags" k) as [<-|].
Qed.

Lemma merge_root_cases committed f scope fm : value_from_slice f = Some (JObject fm) -> root_shaped (JObject fm) = true ->
  committed_shaped committed ->
  match merge_root committed f scope with
  | Some b => exists m tags, b = serialize_root (JObject m) /\ written_as scope committed fm m tags
  | None => root_usable committed = true ->
      (forall t, merged_row scope (JObject fm) (jm_get t (rows (local_members committed))) t = jm_get t (rows (local_members committed))) /\
      forall k, k <> "tags" -> merged_field scope (JObject fm) (jm_get k (local_members committed)) k = jm_get k (local_members committed)
  end.
Proof.
  intros Hf Sf Sc. pose proof (root_shaped_inv _ Sf) as (fm' & [= <-] & Wf & _). unfold merge_root. rewrite Hf. cbn [mbind option_bind].
  destruct (adopted_entries _ _ _ _) as [adopted|] eqn:Ea; cbn [mbind option_bind].
  2: { intros Hu. rewrite Hu in Ea. destruct scope as [named| |]; simpl in Ea; [|done|].
       - by destruct (omap _ named).
       - split; [done|]. done. }
  destruct (merge_start committed fm Sf Sc) as (object & -> & Wo & Ht & Hrows & Hk).
  pose proof (merge_object scope (root_usable committed) (bool_decide (is_Some committed)) adopted fm object Wf Wo Ht Ea) as Hm.
  destruct (overwrite_fields scope (JObject fm) object) as [object1 changed1]. cbn beta iota zeta in Hm |- *. rewrite Hrows in Hm.
  destruct (fold_left adopt_entry adopted (rows (local_members committed), changed1)) as [tags changed] eqn:Et.
  destruct Hm as (-> & Wm & Htm & Hr & Hfield & Hsame). cbn beta iota zeta. unfold Members in *. rewrite Et.
  destruct (changed || existsb (row_dropped scope (JObject fm)) tags || negb (root_usable committed)) eqn:Ec.
  - eexists _, _. split; [done|]. split; [done|]. split; [done|]. split; [|split; [done|]].
    + apply Bool.not_true_iff_false. rewrite existsb_exists. intros (row & [_ Hrow]%filter_In & Hd). by rewrite Hd in Hrow.
    + intros k Hne. rewrite Hfield, Hk by done. destruct (root_usable committed); [done|]. by apply merged_field_own.
  - apply orb_false_iff in Ec as [Ec Hu%negb_false_iff]. destruct (Hsame Ec) as [Hs1 Hs2]. rewrite Hu in Hk. intros _. split.
    + intros t. by rewrite <- Hr, Hs1.
    + intros k Hne. by rewrite <- (Hk k), <- Hfield, Hs2 by done.
Qed.

(** A merge over what a merge wrote finds nothing to do. *)
Lemma merge_root_again committed f scope fm b m tags : value_from_slice f = Some (JObject fm) -> root_shaped (JObject fm) = true ->
  written_as scope committed fm m tags -> value_from_slice b = Some (JObject m) -> root_usable (Some b) = true ->
  merge_root (Some b) f scope = None.
Proof.
  intros Hf (fm' & [= <-] & Wf & _)%root_shaped_inv (Wm & Ht & Hd & Hr & Hk) Hb Hu.
  assert (forall k v, jm_get k fm = Some v -> json_wf v = true) as Wv by (intros k v; by apply json_wf_member).
  assert (forall t e, jm_get t (rows fm) = Some e -> json_wf e = true) as We by (intros t e; by apply json_wf_member, rows_wf).
  unfold merge_root. rewrite Hf, Hu. cbn [mbind option_bind]. rewrite bool_decide_true by eauto.
  destruct (adopted_entries true true (JObject fm) scope) as [adopted|] eqn:Ea; cbn [mbind option_bind]; [|done].
  destruct (adopted_entries_spec _ _ _ _ _ Wf Ea) as [A1 A2]. simpl. rewrite Hb. simpl.
  assert (overwrite_fields scope (JObject fm) m = (m, false)) as ->.
  { destruct scope; [done| |done]. simpl. apply overwrite_fold_same. intros k v Hin.
    destruct (decide (k = "tags")) as [|Hne]; [by left|right].
    assert (jm_get k fm = Some v) as Hg by (apply jm_In_get; [by apply json_wf_object|done]).
    rewrite Hk by done. destruct (root_usable committed); [|rewrite Hg; simpl; by apply json_eqb_refl, (Wv k)].
    unfold merged_field. simpl. rewrite Hg. destruct (member_is (jm_get k (local_members committed)) v) eqn:E; [done|]. simpl. by apply json_eqb_refl, (Wv k). }
  unfold jm_or_insert. rewrite Ht. simpl. rewrite Ht, adopt_fold_same.
  - by rewrite Hd.
  - intros t e Hin. pose proof (A1 t e Hin) as Hg. rewrite Hr. unfold merged_row. rewrite fetched_row_rows, Hg.
    rewrite <- (A2 t e Hg). replace (existsb _ _) with true.
    + destruct (adopted_row_settled (jm_get t (rows (local_members committed))) e (We t e Hg)) as (row & -> & Hs). exact Hs.
    + symmetry. apply keys_mem, list_elem_of_fmap. by exists (t, e).
Qed.
End Shape.

(** What the theorems need of the JSON library: it reads back what it wrote. *)
Class RootCodecLaws (Bytes : Type) `{!RootCodec Bytes} : Prop :=
  value_roundtrip : forall v, json_wf v = true -> value_from_slice (serialize_root v) = Some v.

(** ** Properties *)

(** C18: merging a fetched root document into the local copy does exactly what its scope allows.  When [merge_root] writes, the
    document it writes has, for every tag, the row [merged_row] gives (inside the scope the fetched row, stripped of its ephemeral
    marker over a durable row, outside it the committed one), and for every other field the value [merged_field] gives; when it
    writes nothing over a usable copy, those are what the copy already holds.  In particular a durable pin is never deleted and
    never becomes ephemeral, whatever the fetched root says. *)
Theorem merge_root_exact {Bytes : Type} `{!RootCodec Bytes} (committed : option Bytes) (f : Bytes) (scope : RootScope) (fm : Members)
    (Hf : value_from_slice f = Some (JObject fm)) (Sf : root_shaped (JObject fm) = true) (Sc : committed_shaped committed) :
  let old t := jm_get t (rows (local_members committed)) in
  (forall b, merge_root committed f scope = Some b -> exists m, b = serialize_root (JObject m) /\
     (forall t, jm_get t (rows m) = merged_row scope (JObject fm) (old t) t) /\
     (forall k, k <> "tags" -> jm_get k m =
        if root_usable committed then merged_field scope (JObject fm) (jm_get k (local_members committed)) k else jm_get k fm)) /\
  (merge_root committed f scope = None -> root_usable committed = true -> forall t, merged_row scope (JObject fm) (old t) t = old t) /\
  (forall t row, old t = Some row -> is_ephemeral row = false ->
     exists row', merged_row scope (JObject fm) (old t) t = Some row' /\ is_ephemeral row' = false).
Proof.
  pose proof (merge_root_cases committed f scope fm Hf Sf Sc) as Hm. intros old. split; [|split].
  - intros b Hb. rewrite Hb in Hm. destruct Hm as (m & tags & -> & _ & Ht & _ & Hr & Hk). exists m. split; [done|].
    split; [|done]. intros t. unfold rows at 1. by rewrite Ht.
  - intros Hn Hu. rewrite Hn in Hm. by apply Hm.
  - intros t row Ht Hr. unfold merged_row. rewrite Ht. destruct (in_scope scope t); [|eauto]. rewrite fetched_row_rows.
    destruct (jm_get t (rows fm)) as [e|] eqn:E.
    + apply adopted_row_durable; [|done]. apply root_shaped_inv in Sf as (m & [= <-] & W & _).
      by apply (json_wf_member t e (rows fm)), E; apply rows_wf.
    + exists row. unfold row_dropped. simpl. by rewrite Hr, andb_false_r.
Qed.

(** An update settles.  Once a fetched root was merged and the result written (as a document that parses as a root), merging
    the same fetched root in the same scope again writes nothing: an update that brings nothing new leaves the tree alone. *)
Theorem merge_root_settles {Bytes : Type} `{!RootCodec Bytes} `{!RootCodecLaws Bytes} (committed : option Bytes) (f b : Bytes)
    (scope : RootScope) (fm : Members) (Hf : value_from_slice f = Some (JObject fm)) (Sf : root_shaped (JObject fm) = true)
    (Sc : committed_shaped committed) (Hb : merge_root committed f scope = Some b) (Hu : is_Some (root_from_slice b)) :
  merge_root (Some b) f scope = None.
Proof.
  pose proof (merge_root_cases committed f scope fm Hf Sf Sc) as Hm. rewrite Hb in Hm. destruct Hm as (m & tags & -> & Hw).
  eapply merge_root_again; [done|done|exact Hw| |].
  - apply value_roundtrip, Hw.
  - simpl. by apply bool_decide_eq_true.
Qed.
