(* ===== verification/Template.v ===== *)
(** * Interpolation templates

    [crates/ocx_package/src/metadata/template.rs] with [template/scanner.rs],
    [template/render.rs], [template/gate.rs], [template/scope.rs] and
    [template/error.rs]: the scanner that splits a value into literals and [${...}]
    tokens, the gate on token classes, the scope [${self.env.KEY}] reads and the resolver
    that substitutes. *)

From stdpp Require Import base decidable list option numbers strings gmap.
From Stdlib Require Import Lia Ascii.
From S2P Require Import Prelude OMap Text TextSearch Digest PackageRef Store Closure Metadata.
Local Open Scope ocx_scope.
Local Open Scope string_scope.

(** ** Rendering *)

(** [enum RenderModifier], [enum Host], [render]. *)
Inductive RenderModifier : Type := Native | Posix.
Inductive Host : Type := Windows | Unix.
#[export] Instance RenderModifier_eq_dec : EqDecision RenderModifier.
Proof. solve_decision. Defined.
Definition render (value : string) (modifier : RenderModifier) (host : Host) : string :=
  match modifier with
  | Native => value
  | Posix =>
      match host with
      | Windows => replace_char "\" "/" value
      | Unix => value
      end
  end.

(** ** Tokens and errors *)

(** [enum TokenShape], [struct Token], [enum Segment]. *)
Inductive TokenShape : Type :=
| InstallPath
| SelfEnv (key : string)
| Dep (name : string).
#[export] Instance TokenShape_eq_dec : EqDecision TokenShape.
Proof. solve_decision. Defined.
Record Token : Type := mkToken { tk_shape : TokenShape; tk_modifier : option RenderModifier; tk_source : string }.
Inductive Segment : Type :=
| Literal (text : string) (at_ : nat)
| STok (token : Token).

(** [enum UnknownTokenHint], [enum TemplateError]. *)
Inductive UnknownTokenHint : Type :=
| SuggestedRoot (root : string)
| Escape
| SupportedBodies.
Inductive TemplateError : Type :=
| UnknownDependencyRef (ref_name : string) (declared : list string)
| AmbiguousDependencyRef (ref_name : string) (first second : PinnedPackageRef)
| DependencyNotInstalled (ref_name : string) (dep_identifier : PinnedPackageRef)
| UnknownToken (token : string) (hint : UnknownTokenHint)
| UnknownField (namespace field : string) (supported : list string)
| UnknownModifier (modifier : string) (supported : list string)
| ModifierNotApplicable (modifier token : string)
| UndefinedSelfEnvRef (key : string) (declared_before : list string)
| AmbiguousSelfEnvRef (key : string)
| DisallowedToken (token : string)
| ResolvedValueTooLarge (limit : nat).

(** What the messages take from elsewhere: [str::escape_debug], whose tables are
    Unicode's, and [strsim::osa_distance]. *)
Class Diagnostics : Type := {
  escape_debug : string -> string;
  osa_distance : string -> string -> nat;
}.

(** [TokenShape::takes_modifier]. *)
Definition takes_modifier (shape : TokenShape) : bool :=
  match shape with
  | InstallPath | Dep _ => true
  | SelfEnv _ => false
  end.

Definition ESCAPED_OPEN : string := "$${".
Definition OPEN : string := "${".
Definition CLOSE : ascii := "}".
Definition MODIFIER_SEPARATOR : ascii := ":".
Definition INSTALL_PATH : string := "installPath".
Definition RECOGNISED_BODIES : list string := [INSTALL_PATH; "self.installPath"; "self.env.KEY"; "deps.NAME.installPath"].
Definition MODIFIERS : list (string * RenderModifier) := [("native", Native); ("posix", Posix)].
Definition MAX_ECHOED_BYTES : nat := 120.
Definition TRUNCATION_MARKER : string := "…".

(** [escape]. *)
Definition escape_template (input : string) : string := str_replace OPEN ESCAPED_OPEN input.

(** [is_body_segment], [root_run]. *)
Definition body_byte (byte : ascii) : bool := is_alnum byte || Ascii.eqb byte "_" || Ascii.eqb byte "-".
Definition is_body_segment (segment : string) : bool := negb (String.eqb segment "") && str_forall body_byte segment.
Definition root_run (body : string) : string := (span body_byte body).1.

Section Scanner.
Context `{Diagnostics}.

(** [for_message]: at most [MAX_ECHOED_BYTES], cut back to a character boundary. *)
Definition is_char_boundary (text : string) (end_ : nat) : bool :=
  match String.get end_ text with Some c => negb (is_continuation c) | None => true end.
Fixpoint boundary_below (text : string) (end_ : nat) : nat :=
  if is_char_boundary text end_ then end_ else match end_ with S k => boundary_below text k | O => O end.
Definition for_message (text : string) : string :=
  let end_ := boundary_below text (Nat.min MAX_ECHOED_BYTES (String.length text)) in
  let escaped := escape_debug (slice text 0 end_) in
  if Nat.eqb end_ (String.length text) then escaped else escaped +:+ TRUNCATION_MARKER.

(** [recognised_roots], [unknown_token_hint]: the nearest root within the threshold, the
    first of equals. *)
Definition recognised_roots : list string := map root_run RECOGNISED_BODIES.
Fixpoint min_by_distance (best : option (nat * string)) (l : list (nat * string)) : option (nat * string) :=
  match l with
  | [] => best
  | candidate :: rest =>
      let best := match best with
                  | Some b => if (candidate.1 <? b.1)%nat then Some candidate else Some b
                  | None => Some candidate
                  end in
      min_by_distance best rest
  end.
Definition unknown_token_hint (body : string) : UnknownTokenHint :=
  let root := root_run body in
  if existsb (String.eqb root) recognised_roots then SupportedBodies
  else
    let near := List.filter (fun c => (c.1 <=? Nat.max (String.length c.2) 3 / 3)%nat)
                  (map (fun recognised => (osa_distance root recognised, recognised)) recognised_roots) in
    match min_by_distance None near with
    | Some (_, recognised) => SuggestedRoot recognised
    | None => Escape
    end.

(** [unknown_token], [unknown_field], [modifier_not_applicable]. *)
Definition unknown_token (source rejected : string) : TemplateError :=
  UnknownToken (for_message source) (unknown_token_hint rejected).
Definition unknown_field (namespace field : string) (supported : list string) : TemplateError :=
  UnknownField namespace field supported.
Definition modifier_not_applicable (source suffix : string) : TemplateError :=
  ModifierNotApplicable (for_message suffix) (for_message source).

(** [parse_modifier]. *)
Definition parse_modifier (suffix : string) : result TemplateError RenderModifier :=
  match List.find (fun m => String.eqb m.1 suffix) MODIFIERS with
  | Some (_, modifier) => Ok modifier
  | None => Err (UnknownModifier (for_message suffix) (map fst MODIFIERS))
  end.

(** [parse_shape]: the dotted path against the four bodies. *)
Definition parse_shape (source base : string) : result TemplateError TokenShape :=
  let path := split_char "." base in
  if negb (forallb is_body_segment path) then Err (unknown_token source base)
  else
    match path with
    | [a] => if String.eqb a INSTALL_PATH then Ok InstallPath else Err (unknown_token source base)
    | [a; b] =>
        if String.eqb a "self" then
          if String.eqb b INSTALL_PATH then Ok InstallPath else Err (unknown_field "self" b [INSTALL_PATH; "env.KEY"])
        else Err (unknown_token source base)
    | [a; b; c] =>
        if String.eqb a "self" && String.eqb b "env" then
          if is_valid_env_key c then Ok (SelfEnv c) else Err (unknown_token source base)
        else if String.eqb a "deps" then
          match dependency_name_try_from b with
          | Ok dependency =>
              if String.eqb c INSTALL_PATH then Ok (Dep dependency) else Err (unknown_field ("deps." +:+ b) c [INSTALL_PATH])
          | Err _ => Err (unknown_token source base)
          end
        else Err (unknown_token source base)
    | _ => Err (unknown_token source base)
    end.

(** [parse_token]: the base, then whether a modifier applies, then the modifier. *)
Definition parse_token (source body : string) : result TemplateError Token :=
  let '(base, suffix) := match split_once MODIFIER_SEPARATOR body with
                         | Some (base, suffix) => (base, Some suffix)
                         | None => (body, None)
                         end in
  let? shape := parse_shape source base in
  let? modifier := match suffix with
                   | Some suffix =>
                       if negb (takes_modifier shape) then Err (modifier_not_applicable source suffix)
                       else let? m := parse_modifier suffix in Ok (Some m)
                   | None => Ok None
                   end in
  Ok (mkToken shape modifier source).

(** [push_literal]. *)
Definition push_literal (segments : list Segment) (input : string) (from upto : nat) : list Segment :=
  if (from <? upto)%nat then (segments ++ [Literal (slice input from upto) from])%list else segments.

(** The condition under which a token starts at [index]: the offset of its first [}]. *)
Definition token_offset (last_close : option nat) (index : nat) (rest : string) : option nat :=
  if starts_with OPEN rest && match last_close with Some at_ => (index + String.length OPEN <=? at_)%nat | None => false end
  then find_char CLOSE (slice rest (String.length OPEN) (String.length rest))
  else None.

(** [scan]: [rest] is the input from [index] on; [skip] bytes of it belong to a piece that
    is already taken, so that the loop descends on [rest].  The step is one byte where the
    code's is one character: a token starts with an ASCII byte, which no byte of a longer
    character is. *)
Fixpoint scan_loop (input : string) (last_close : option nat) (rest : string) (index skip literal_start : nat)
    (segments : list Segment) : result TemplateError (list Segment) :=
  match rest with
  | EmptyString => Ok (push_literal segments input literal_start (String.length input))
  | String _ rest' =>
      match skip with
      | S skip' => scan_loop input last_close rest' (S index) skip' literal_start segments
      | O =>
          if starts_with ESCAPED_OPEN rest then
            let segments := push_literal segments input literal_start index in
            let segments := push_literal segments input (index + 1) (index + String.length ESCAPED_OPEN) in
            let next := (index + String.length ESCAPED_OPEN)%nat in
            scan_loop input last_close rest' (S index) (next - S index) next segments
          else
            match token_offset last_close index rest with
            | Some offset =>
                let body_start := (index + String.length OPEN)%nat in
                let body_end := (body_start + offset)%nat in
                let source := slice input index (body_end + 1) in
                let? token := parse_token source (slice input body_start body_end) in
                let segments := push_literal segments input literal_start index in
                let segments := (segments ++ [STok token])%list in
                let next := (body_end + 1)%nat in
                scan_loop input last_close rest' (S index) (next - S index) next segments
            | None => scan_loop input last_close rest' (S index) 0 literal_start segments
            end
      end
  end.
Definition scan_template (input : string) : result TemplateError (list Segment) :=
  scan_loop input (rfind_char CLOSE input) input 0 0 0 [].
End Scanner.

(** ** The gate *)

(** [enum Usage], [struct AllowedTokens], [From<Usage>], [INTEGRATION_TOKENS]. *)
Inductive Usage : Type := Environment | EntryPointArgs.
Record AllowedTokens : Type := mkAllowed { al_deps : bool; al_self_env : bool }.
Definition allowed_of (usage : Usage) : AllowedTokens :=
  match usage with
  | Environment => mkAllowed true true
  | EntryPointArgs => mkAllowed false false
  end.
Definition INTEGRATION_TOKENS : AllowedTokens := mkAllowed true false.

(** [first_disallowed_token]. *)
Definition token_permitted (allowed : AllowedTokens) (shape : TokenShape) : bool :=
  match shape with
  | InstallPath => true
  | Dep _ => al_deps allowed
  | SelfEnv _ => al_self_env allowed
  end.
Fixpoint first_disallowed_token (segments : list Segment) (allowed : AllowedTokens) : option string :=
  match segments with
  | [] => None
  | Literal _ _ :: rest => first_disallowed_token rest allowed
  | STok token :: rest =>
      if token_permitted allowed (tk_shape token) then first_disallowed_token rest allowed else Some (tk_source token)
  end.

(** ** The scope *)

(** [trait DeclaredVar], for [Entry] and for a bare key. *)
Class DeclaredVar (T : Type) : Type := declared_key : T -> string.
#[export] Instance entry_declared : DeclaredVar Entry := en_key.
#[export] Instance key_declared : DeclaredVar string := fun key => key.
Definition MAX_LISTED_DECLARED_KEYS : nat := 16.

(** [struct SelfEnvScope]; the map holds the index of a key's first declaration and the
    number of its declarations. *)
Record SelfEnvScope (T : Type) : Type := mkScope { sc_declared : list T; sc_by_key : gmap string (nat * nat) }.
Arguments mkScope {T}.
Arguments sc_declared {T}.
Arguments sc_by_key {T}.

Section Scope.
Context `{Diagnostics} {T : Type} `{DeclaredVar T}.

Definition scope_new : SelfEnvScope T := mkScope [] ∅.
Definition scope_push (scope : SelfEnvScope T) (declared : T) : SelfEnvScope T :=
  let key := declared_key declared in
  let next := length (sc_declared scope) in
  mkScope (sc_declared scope ++ [declared])%list
    (match sc_by_key scope !! key with
     | Some (first, count) => <[key := (first, S count)]> (sc_by_key scope)
     | None => <[key := (next, 1%nat)]> (sc_by_key scope)
     end).
Definition scope_from_iter (declared : list T) : SelfEnvScope T := fold_left scope_push declared scope_new.

(** [declared_keys_for_message]. *)
Definition declared_keys_for_message (scope : SelfEnvScope T) : list string :=
  let listed := map (fun declared => for_message (declared_key declared)) (take MAX_LISTED_DECLARED_KEYS (sc_declared scope)) in
  if (MAX_LISTED_DECLARED_KEYS <? length (sc_declared scope))%nat then (listed ++ [TRUNCATION_MARKER])%list else listed.

(** [lookup]; the outer [None] is the panic of an index out of range. *)
Definition scope_lookup (scope : SelfEnvScope T) (key : string) : option (result TemplateError T) :=
  match sc_by_key scope !! key with
  | None => Some (Err (UndefinedSelfEnvRef key (declared_keys_for_message scope)))
  | Some (first, count) =>
      if (1 <? count)%nat then Some (Err (AmbiguousSelfEnvRef key))
      else declared ← sc_declared scope !! first; Some (Ok declared)
  end.
End Scope.

(** ** The resolver *)

Definition MAX_RESOLVED_VALUE_BYTES : nat := 64 * 1024.

(** The machine a value is resolved on: the build's host, [dunce::simplified] and
    [Path::exists]. *)
Class Machine : Type := {
  host_current : Host;
  simplified : string -> string;
  path_exists : string -> bool;
}.

(** [struct TemplateResolver] and its builders. *)
Record TemplateResolver : Type := mkResolver {
  tr_install_path : string;
  tr_dep_contexts : gmap string DependencyContext;
  tr_allowed : AllowedTokens;
  tr_self_env : SelfEnvScope Entry;
}.
Definition resolver_new (install_path : string) (dep_contexts : gmap string DependencyContext) : TemplateResolver :=
  mkResolver install_path dep_contexts (allowed_of Environment) scope_new.
Definition with_usage (r : TemplateResolver) (allowed : AllowedTokens) : TemplateResolver :=
  mkResolver (tr_install_path r) (tr_dep_contexts r) allowed (tr_self_env r).
Definition with_self_env (r : TemplateResolver) (self_env : SelfEnvScope Entry) : TemplateResolver :=
  mkResolver (tr_install_path r) (tr_dep_contexts r) (tr_allowed r) self_env.

(** [declared_names]. *)
Definition declared_names {V : Type} (dep_contexts : gmap string V) : list string :=
  ord_sort (map fst (map_to_list dep_contexts)).

Section Resolver.
Context `{Diagnostics} `{Machine}.

(** [content_directory_string]; a path is its text. *)
Definition content_directory_string (path : string) : string := simplified path.

(** [lookup_self_env], [substitute]. *)
Definition lookup_self_env (scope : SelfEnvScope Entry) (key : string) : option (result TemplateError string) :=
  found ← scope_lookup scope key;
  Some (match found with Ok entry => Ok (en_value entry) | Err e => Err e end).
Definition substitute (token : Token) (install_path : string) (dep_contexts : gmap string DependencyContext)
    (self_env : SelfEnvScope Entry) (check_exists : bool) : option (result TemplateError string) :=
  match tk_shape token with
  | InstallPath => Some (Ok (content_directory_string install_path))
  | Dep name =>
      match dep_contexts !! name with
      | None => Some (Err (UnknownDependencyRef name (declared_names dep_contexts)))
      | Some context =>
          let content_directory := context_install_path context in
          if check_exists && negb (path_exists content_directory)
          then Some (Err (DependencyNotInstalled name (context_identifier context)))
          else Some (Ok (content_directory_string content_directory))
      end
  | SelfEnv key => lookup_self_env self_env key
  end.

(** [resolve_inner]: segment by segment, the size checked after each. *)
Fixpoint resolve_segments (r : TemplateResolver) (check_exists : bool) (segments : list Segment) (resolved : string) :
    option (result TemplateError string) :=
  match segments with
  | [] => Some (Ok resolved)
  | segment :: rest =>
      piece ← match segment with
              | Literal text _ => Some (Ok text)
              | STok token =>
                  value ← substitute token (tr_install_path r) (tr_dep_contexts r) (tr_self_env r) check_exists;
                  Some (let? v := value in Ok (render v (default Native (tk_modifier token)) host_current))
              end;
      match piece with
      | Err e => Some (Err e)
      | Ok text =>
          let resolved := resolved +:+ text in
          if (MAX_RESOLVED_VALUE_BYTES <? String.length resolved)%nat
          then Some (Err (ResolvedValueTooLarge MAX_RESOLVED_VALUE_BYTES))
          else resolve_segments r check_exists rest resolved
      end
  end.
Definition resolve_inner (r : TemplateResolver) (template : string) (check_exists : bool) : option (result TemplateError string) :=
  match scan_template template with
  | Err e => Some (Err e)
  | Ok segments =>
      match first_disallowed_token segments (tr_allowed r) with
      | Some token => Some (Err (DisallowedToken token))
      | None => resolve_segments r check_exists segments ""
      end
  end.
Definition resolve (r : TemplateResolver) (template : string) : option (result TemplateError string) :=
  resolve_inner r template true.
Definition resolve_without_existence_checks (r : TemplateResolver) (template : string) : option (result TemplateError string) :=
  resolve_inner r template false.
End Resolver.
