(* ===== verification/TemplateSpec.v ===== *)
(** * What scanning and resolving a template give

    The scanner takes a printed template back to its pieces and loses no byte of any
    input but the one of an escape; a template written down resolves exactly when its
    tokens stand for values, to the text with the tokens replaced, within its bound; the scope answers exactly for a key declared once. *)

From stdpp Require Import base decidable list option numbers strings gmap.
From Stdlib Require Import Lia Ascii.
From S2P Require Import Prelude OMap Text TextSearch Digest PackageRef Store Closure Metadata Template.
Local Open Scope ocx_scope.
Local Open Scope string_scope.

(** ** Where tokens start *)

Lemma find_char_Some c s n : find_char c s = Some n <-> exists a b, s = a +:+ String c b /\ str_mem c a = false /\ n = String.length a.
Proof.
  unfold find_char. split.
  - destruct (split_once c s) as [[a b]|] eqn:E; simpl; [|done]. intros [= <-]. apply split_once_Some in E as [-> Ha]. by exists a, b.
  - intros (a & b & -> & Ha & ->). by rewrite split_once_app.
Qed.

Lemma rfind_char_ge c a b : exists at_, rfind_char c (a +:+ String c b) = Some at_ /\ (String.length a <= at_)%nat.
Proof.
  unfold rfind_char. destruct (rsplit_once c (a +:+ String c b)) as [[p q]|] eqn:E; simpl.
  - eexists. split; [done|]. apply rsplit_once_Some in E as [E Hq]. simpl.
    destruct (le_lt_dec (String.length a) (String.length p)) as [Hle|Hlt]; [done|].
    destruct (prefix_le p (String c q) a (String c b) (eq_sym E)) as [e He]; [lia|]. subst a.
    rewrite str_app_assoc in E. apply str_app_inj in E. destruct e as [|d e]; [rewrite str_app_nil_r in Hlt; lia|].
    injection E as -> E. rewrite <- E, str_mem_app in Hq. simpl in Hq. rewrite Ascii.eqb_refl in Hq.
    by rewrite orb_true_r in Hq.
  - apply rsplit_once_None in E. rewrite str_mem_app in E. simpl in E. rewrite Ascii.eqb_refl in E. by rewrite orb_true_r in E.
Qed.

Lemma token_offset_Some pre rest body tail :
  rest = OPEN +:+ body +:+ String CLOSE tail -> str_mem CLOSE body = false ->
  token_offset (rfind_char CLOSE (pre +:+ rest)) (String.length pre) rest = Some (String.length body).
Proof.
  intros -> Hb. unfold token_offset. rewrite starts_with_app.
  destruct (rfind_char_ge CLOSE (pre +:+ OPEN +:+ body) tail) as (at_ & Hat & Hle).
  rewrite !str_app_assoc in Hat. rewrite Hat. rewrite !str_length_app in Hle.
  replace (String.length pre + String.length OPEN <=? at_)%nat with true by (symmetry; apply Nat.leb_le; lia).
  simpl andb. cbv iota. rewrite (slice_tail OPEN (body +:+ String CLOSE tail)); [|done|by rewrite str_length_app].
  apply find_char_Some. by exists body, tail.
Qed.

Lemma token_offset_inv lc index rest offset :
  token_offset lc index rest = Some offset ->
  exists body tail, rest = OPEN +:+ body +:+ String CLOSE tail /\ str_mem CLOSE body = false /\ offset = String.length body.
Proof.
  unfold token_offset. destruct (starts_with OPEN rest) eqn:Hs; [|done]. destruct (match lc with Some _ => _ | None => _ end); [|done].
  simpl andb. cbv iota. apply starts_with_true in Hs as [r ->].
  rewrite (slice_tail OPEN r); [|done|by rewrite str_length_app]. rewrite find_char_Some. naive_solver.
Qed.

(** ** One step of the scanner *)

(** The literal of a run that starts at [at_]. *)
Definition lits (at_ : nat) (text : string) : list Segment :=
  if String.eqb text "" then [] else [Literal text at_].

Lemma push_lits segs done_ lit rest from upto :
  from = String.length done_ -> upto = (String.length done_ + String.length lit)%nat ->
  push_literal segs (done_ +:+ lit +:+ rest) from upto = (segs ++ lits from lit)%list.
Proof.
  intros -> ->. unfold push_literal, lits. rewrite slice_app by done. destruct (String.eqb_spec lit "") as [->|Hne]; simpl.
  - rewrite Nat.add_0_r, Nat.ltb_irrefl. by rewrite app_nil_r.
  - destruct lit as [|c lit]; [done|]. replace (_ <? _)%nat with true; [done|]. symmetry. apply Nat.ltb_lt. simpl. lia.
Qed.

Lemma push_nonempty segs input from upto : (from < upto)%nat ->
  push_literal segs input from upto = (segs ++ [Literal (slice input from upto) from])%list.
Proof. intros Hlt. unfold push_literal. by apply Nat.ltb_lt in Hlt as ->. Qed.

Section Steps.
Context `{Diagnostics}.

Lemma scan_skip input l a rest index ls segs :
  scan_loop input l (a +:+ rest) index (String.length a) ls segs = scan_loop input l rest (index + String.length a) 0 ls segs.
Proof.
  revert index. induction a as [|c a IH]; intros index; simpl; [by rewrite Nat.add_0_r|].
  rewrite IH. by replace (index + S (String.length a))%nat with (S index + String.length a)%nat by lia.
Qed.

Lemma scan_end l done_ lit segs :
  scan_loop (done_ +:+ lit) l "" (String.length done_ + String.length lit) 0 (String.length done_) segs =
  Ok (segs ++ lits (String.length done_) lit)%list.
Proof.
  simpl. f_equal. pose proof (push_lits segs done_ lit "" _ _ eq_refl eq_refl) as P.
  rewrite str_app_nil_r in P. by rewrite <- P, str_length_app.
Qed.

Lemma scan_escape l done_ lit rest segs :
  let index := (String.length done_ + String.length lit)%nat in
  let input := done_ +:+ lit +:+ ESCAPED_OPEN +:+ rest in
  scan_loop input l (ESCAPED_OPEN +:+ rest) index 0 (String.length done_) segs =
  scan_loop input l rest (index + 3) 0 (index + 3) ((segs ++ lits (String.length done_) lit) ++ [Literal OPEN (index + 1)])%list.
Proof.
  intros index input. pose proof (starts_with_app ESCAPED_OPEN rest) as Hs.
  change (ESCAPED_OPEN +:+ rest) with (String "$" ("${" +:+ rest)) in Hs |- *.
  cbn [scan_loop]. rewrite Hs. unfold input at 2. rewrite (push_lits segs done_ lit) by done.
  rewrite push_nonempty by (simpl; lia).
  assert (slice input (index + 1) (index + String.length ESCAPED_OPEN) = OPEN) as ->.
  { unfold input. change (ESCAPED_OPEN +:+ rest) with ("$" +:+ OPEN +:+ rest).
    rewrite <- (str_app_assoc done_ lit), <- (str_app_assoc (done_ +:+ lit) "$").
    apply slice_app; rewrite !str_length_app; simpl; lia. }
  replace (index + String.length ESCAPED_OPEN - S index)%nat with (String.length "${") by (simpl; lia).
  rewrite scan_skip. simpl String.length. by replace (S index + 2)%nat with (index + 3)%nat by lia.
Qed.

Lemma scan_token done_ lit body rest segs :
  str_mem CLOSE body = false ->
  let source := OPEN +:+ body +:+ String CLOSE "" in
  let index := (String.length done_ + String.length lit)%nat in
  let next := (index + String.length source)%nat in
  let input := done_ +:+ lit +:+ source +:+ rest in
  scan_loop input (rfind_char CLOSE input) (source +:+ rest) index 0 (String.length done_) segs =
  let? token := parse_token source body in
  scan_loop input (rfind_char CLOSE input) rest next 0 next ((segs ++ lits (String.length done_) lit) ++ [STok token])%list.
Proof.
  intros Hb source index next input.
  assert (source +:+ rest = OPEN +:+ body +:+ String CLOSE rest) as Esrc by (unfold source; by rewrite !str_app_assoc).
  assert (input = done_ +:+ lit +:+ OPEN +:+ body +:+ String CLOSE rest) as Ein by (unfold input; by rewrite Esrc).
  rewrite Esrc. change (OPEN +:+ body +:+ String CLOSE rest) with (String "$" (String "{" (body +:+ String CLOSE rest))).
  cbn [scan_loop]. change (starts_with ESCAPED_OPEN _) with false. cbv iota.
  replace (token_offset _ _ _) with (Some (String.length body)).
  2: { symmetry. rewrite Ein, <- (str_app_assoc done_ lit). unfold index. rewrite <- str_length_app.
       by apply (token_offset_Some _ _ body rest). }
  cbv zeta iota.
  assert (slice input index (index + String.length OPEN + String.length body + 1) = source) as ->.
  { unfold input. rewrite <- (str_app_assoc done_ lit).
    apply slice_app; unfold source, index; rewrite !str_length_app; simpl; lia. }
  assert (slice input (index + String.length OPEN) (index + String.length OPEN + String.length body) = body) as ->.
  { rewrite Ein, <- (str_app_assoc done_ lit), <- (str_app_assoc (done_ +:+ lit) OPEN).
    apply slice_app; unfold index; rewrite !str_length_app; simpl; lia. }
  destruct (parse_token source body) as [token|e]; cbn [result_bind]; [|done].
  replace (push_literal segs input (String.length done_) index) with (segs ++ lits (String.length done_) lit)%list
    by (unfold input; by rewrite push_lits).
  replace (index + String.length OPEN + String.length body + 1)%nat with next by (unfold next, source; rewrite !str_length_app; simpl; lia).
  pose proof (scan_skip input (rfind_char CLOSE input) (String "{" (body +:+ String CLOSE "")) rest (S index) next
    ((segs ++ lits (String.length done_) lit) ++ [STok token])%list) as Hskip.
  cbn [String.append String.length] in Hskip. rewrite str_app_assoc, str_length_app in Hskip.
  cbn [String.append String.length] in Hskip.
  replace (S index + S (String.length body + 1))%nat with next in Hskip by
    (unfold next, source; rewrite !str_length_app; simpl; lia).
  replace (next - S index)%nat with (S (String.length body + 1))%nat by
    (unfold next, source; rewrite !str_length_app; cbn [String.length]; simpl (String.length OPEN); lia).
  exact Hskip.
Qed.

Lemma scan_plain input c rest index ls segs :
  starts_with ESCAPED_OPEN (String c rest) = false -> token_offset (rfind_char CLOSE input) index (String c rest) = None ->
  scan_loop input (rfind_char CLOSE input) (String c rest) index 0 ls segs =
  scan_loop input (rfind_char CLOSE input) rest (index + 1) 0 ls segs.
Proof. intros H1 H2. cbn [scan_loop]. rewrite H1, H2. by rewrite Nat.add_1_r. Qed.
End Steps.

Section States.
Context `{Diagnostics}.

(** The state of the loop: the bytes before the pending literal, that literal, the rest. *)
Definition scan_at (done_ lit rest : string) (segs : list Segment) : result TemplateError (list Segment) :=
  let input := done_ +:+ lit +:+ rest in
  scan_loop input (rfind_char CLOSE input) rest (String.length done_ + String.length lit) 0 (String.length done_) segs.

Lemma scan_at_end done_ lit segs : scan_at done_ lit "" segs = Ok (segs ++ lits (String.length done_) lit)%list.
Proof. unfold scan_at. by rewrite str_app_nil_r, scan_end. Qed.

Lemma scan_at_escape done_ lit rest segs :
  scan_at done_ lit (ESCAPED_OPEN +:+ rest) segs =
  scan_at (done_ +:+ lit +:+ ESCAPED_OPEN) "" rest
    ((segs ++ lits (String.length done_) lit) ++ [Literal OPEN (String.length done_ + String.length lit + 1)])%list.
Proof.
  unfold scan_at. rewrite scan_escape. cbn [String.append]. rewrite !str_app_assoc, !str_length_app, Nat.add_0_r.
  by replace (String.length done_ + String.length lit + 3)%nat with
    (String.length done_ + (String.length lit + String.length ESCAPED_OPEN))%nat by (simpl; lia).
Qed.

Lemma scan_at_token done_ lit body rest segs : str_mem CLOSE body = false ->
  let source := OPEN +:+ body +:+ String CLOSE "" in
  scan_at done_ lit (source +:+ rest) segs =
  let? token := parse_token source body in
  scan_at (done_ +:+ lit +:+ source) "" rest ((segs ++ lits (String.length done_) lit) ++ [STok token])%list.
Proof.
  intros Hb source. unfold scan_at. rewrite (scan_token done_ lit body rest segs Hb). fold source.
  destruct (parse_token source body); [|done]. cbn [result_bind String.append].
  rewrite !str_app_assoc, Nat.add_0_r, !str_length_app, <- !Nat.add_assoc. done.
Qed.

Lemma scan_at_plain done_ lit c rest segs :
  starts_with ESCAPED_OPEN (String c rest) = false ->
  token_offset (rfind_char CLOSE (done_ +:+ lit +:+ String c rest)) (String.length done_ + String.length lit) (String c rest) = None ->
  scan_at done_ lit (String c rest) segs = scan_at done_ (lit +:+ String c "") rest segs.
Proof.
  intros H1 H2. unfold scan_at. rewrite scan_plain by done. rewrite !str_app_assoc. cbn [String.append]. rewrite str_length_app. by rewrite <- Nat.add_assoc.
Qed.
End States.

(** ** No byte is lost *)

(** What is left of the input from [cursor] on, given its segments: a literal that starts
    one byte behind the cursor is what an escape produced. *)
Fixpoint reassemble (cursor : nat) (segs : list Segment) : string :=
  match segs with
  | [] => ""
  | Literal text at_ :: rest =>
      (if Nat.eqb at_ (cursor + 1) then "$" else "") +:+ text +:+ reassemble (at_ + String.length text) rest
  | STok token :: rest => tk_source token +:+ reassemble (cursor + String.length (tk_source token)) rest
  end.

Lemma reassemble_lits cursor text segs :
  reassemble cursor (lits cursor text ++ segs)%list = text +:+ reassemble (cursor + String.length text) segs.
Proof.
  unfold lits. destruct (String.eqb_spec text "") as [->|Hne]; simpl; [by rewrite Nat.add_0_r|].
  by replace (Nat.eqb cursor (cursor + 1)) with false by (symmetry; apply Nat.eqb_neq; lia).
Qed.

Lemma parse_token_source `{Diagnostics} source body token : parse_token source body = Ok token -> tk_source token = source.
Proof.
  unfold parse_token. destruct (match split_once MODIFIER_SEPARATOR body with Some _ => _ | None => _ end) as [base suffix].
  destruct (parse_shape source base) as [shape|]; simpl; [|done]. destruct suffix as [suffix|]; simpl; [|by intros [= <-]].
  destruct (negb (takes_modifier shape)); simpl; [done|]. destruct (parse_modifier suffix); simpl; [by intros [= <-]|done].
Qed.

Section Reassembly.
Context `{Diagnostics}.

Lemma scan_at_reassembles n : forall rest done_ lit segs out, (String.length rest <= n)%nat ->
  scan_at done_ lit rest segs = Ok out ->
  exists new, out = (segs ++ new)%list /\ reassemble (String.length done_) new = lit +:+ rest.
Proof.
  induction n as [|n IH]; intros rest done_ lit segs out Hn Hout; (destruct rest as [|c rest];
    [rewrite scan_at_end in Hout; injection Hout as <-; eexists; split; [done|]; by rewrite <- (app_nil_r (lits _ _)), reassemble_lits|]);
    simpl in Hn; [lia|].
  destruct (starts_with ESCAPED_OPEN (String c rest)) eqn:Hesc.
  { apply starts_with_true in Hesc as [r Hr]. rewrite Hr in *. injection Hr as _ ->. rewrite scan_at_escape in Hout.
    apply IH in Hout as (new & -> & Hnew); [|simpl in Hn; lia].
    eexists. rewrite <- !app_assoc. split; [done|]. rewrite reassemble_lits. cbn [reassemble app]. rewrite Nat.eqb_refl.
    rewrite !str_length_app in Hnew. rewrite <- !Nat.add_assoc. change (1 + String.length OPEN)%nat with (String.length ESCAPED_OPEN).
    by rewrite Hnew. }
  destruct (token_offset (rfind_char CLOSE (done_ +:+ lit +:+ String c rest)) (String.length done_ + String.length lit) (String c rest))
    as [offset|] eqn:Htok.
  { apply token_offset_inv in Htok as (body & tail & Hr & Hb & _). rewrite Hr in *. injection Hr as _ ->.
    assert (OPEN +:+ body +:+ String CLOSE tail = (OPEN +:+ body +:+ String CLOSE "") +:+ tail) as Es by (by rewrite !str_app_assoc).
    rewrite Es in Hout |- *. rewrite scan_at_token in Hout by done.
    destruct (parse_token _ body) as [token|] eqn:Hp; [|done]. cbn [result_bind] in Hout. apply parse_token_source in Hp.
    apply IH in Hout as (new & -> & Hnew); [|simpl in Hn; rewrite str_length_app in Hn; simpl in Hn; lia].
    eexists. rewrite <- !app_assoc. split; [done|]. rewrite reassemble_lits. cbn [reassemble app]. rewrite Hp.
    rewrite !(str_length_app done_), !(str_length_app lit) in Hnew. rewrite <- !Nat.add_assoc. by rewrite Hnew. }
  rewrite scan_at_plain in Hout by done. apply IH in Hout as (new & -> & Hnew); [|lia]. exists new. split; [done|].
  rewrite Hnew. by rewrite str_app_assoc.
Qed.

(** The segments of a scanned input, each literal and each token as it is written, make
    the input again. *)
Theorem scan_reassembles input segs : scan_template input = Ok segs -> reassemble 0 segs = input.
Proof. intros E. by apply (scan_at_reassembles (String.length input) input "" "") in E as (new & -> & ?). Qed.
End Reassembly.

(** ** Printing a template and scanning it *)

(** A template as its author means it: literal text, and tokens with the text behind each. *)
Definition TokenKey : Type := TokenShape * option RenderModifier.
Definition TemplateText : Type := string * list (TokenKey * string).

Definition shape_text (shape : TokenShape) : string :=
  match shape with
  | InstallPath => "installPath"
  | SelfEnv key => "self.env." +:+ key
  | Dep name => "deps." +:+ name +:+ ".installPath"
  end.
Definition modifier_text (modifier : option RenderModifier) : string :=
  match modifier with None => "" | Some Native => ":native" | Some Posix => ":posix" end.
Definition token_body (key : TokenKey) : string := shape_text key.1 +:+ modifier_text key.2.
Definition token_text (key : TokenKey) : string := OPEN +:+ token_body key +:+ String CLOSE "".

(** The tokens that can be written, and the literals that can stand before a token: a [$]
    at the end would make the token's opening an escape. *)
Definition valid_token (key : TokenKey) : bool :=
  match key with
  | (InstallPath, _) => true
  | (SelfEnv key, modifier) => is_valid_env_key key && bool_decide (modifier = None)
  | (Dep name, _) => is_ok (dependency_name_try_from name)
  end.
Fixpoint valid_tail (text : string) (tail : list (TokenKey * string)) : bool :=
  match tail with
  | [] => true
  | (key, next) :: rest => negb (str_ends_with "$" text) && valid_token key && valid_tail next rest
  end.
Definition valid_template (t : TemplateText) : bool := valid_tail t.1 t.2.

Fixpoint print_tail (tail : list (TokenKey * string)) : string :=
  match tail with
  | [] => ""
  | (key, text) :: rest => token_text key +:+ escape_template text +:+ print_tail rest
  end.
Definition print_template (t : TemplateText) : string := escape_template t.1 +:+ print_tail t.2.

(** What a list of segments says: neighbouring literals are one text. *)
Fixpoint collapse (segs : list Segment) : TemplateText :=
  match segs with
  | [] => ("", [])
  | Literal text _ :: rest => let '(head, tail) := collapse rest in (text +:+ head, tail)
  | STok token :: rest => let '(head, tail) := collapse rest in ("", ((tk_shape token, tk_modifier token), head) :: tail)
  end.

(** *** A written token is read back *)

Lemma env_key_class key c : is_valid_env_key key = true -> is_alnum c = false -> c <> "_"%char -> str_mem c key = false.
Proof.
  destruct key as [|d key]; [done|]. cbn [is_valid_env_key str_mem]. rewrite andb_true_iff. intros [Hd Hk] Hc Hu.
  apply orb_false_iff. split.
  - destruct (Ascii.eqb_spec c d) as [->|]; [|done]. apply orb_true_iff in Hd as [Hd|Hd%Ascii.eqb_eq]; [|done].
    unfold is_alnum, is_alpha in *. destruct (is_digit d), (is_lower d), (is_upper d); done.
  - eapply str_mem_forall; [exact Hk|]. cbn beta. rewrite Hc. by apply Ascii.eqb_neq.
Qed.

Lemma env_key_segment key : is_valid_env_key key = true -> is_body_segment key = true.
Proof.
  unfold is_body_segment. destruct key as [|d key]; [done|]. cbn [is_valid_env_key str_forall String.eqb].
  rewrite andb_true_iff. intros [Hd Hk]. simpl negb. apply andb_true_iff. split; [done|]. apply andb_true_iff. split.
  - unfold body_byte, is_alnum, is_alpha in *. destruct (is_digit d), (is_lower d), (is_upper d), (Ascii.eqb d "_"); done.
  - eapply str_forall_impl; [|exact Hk]. intros c Hc. unfold body_byte. by rewrite Hc.
Qed.

Lemma slug_rest_body c : slug_rest c = true -> body_byte c = true.
Proof.
  unfold slug_rest, body_byte, is_alnum. destruct (is_digit c), (is_lower c), (is_upper c), (Ascii.eqb c "_"), (Ascii.eqb c "-"); done.
Qed.

Lemma name_ok name n : dependency_name_try_from name = Ok n -> n = name /\ is_body_segment name = true.
Proof.
  unfold dependency_name_try_from. destruct (_ || _) eqn:E; [done|]. intros [= <-]. split; [done|].
  apply orb_false_iff in E as [_ E%negb_false_iff]. destruct name as [|c name]; [done|]. cbn [is_slug] in E.
  apply andb_true_iff in E as [Hc Hn]. unfold is_body_segment. simpl. apply andb_true_iff. split.
  - apply slug_rest_body. unfold slug_first, slug_rest in *. destruct (is_lower c), (is_digit c); done.
  - eapply str_forall_impl; [|exact Hn]. apply slug_rest_body.
Qed.

Lemma segment_class s c : is_body_segment s = true -> body_byte c = false -> str_mem c s = false.
Proof. unfold is_body_segment. rewrite andb_true_iff. intros [_ Hs] Hc. by eapply str_mem_forall. Qed.

Lemma parse_shape_print `{Diagnostics} source key : valid_token key = true -> parse_shape source (shape_text key.1) = Ok key.1.
Proof.
  destruct key as [[|k|n] m]; cbn [valid_token fst shape_text]; intros Hv.
  - done.
  - apply andb_true_iff in Hv as [Hk _]. unfold parse_shape.
    assert (split_char "." ("self.env." +:+ k) = ["self"; "env"; k]) as ->.
    { change ("self.env." +:+ k) with ("self" +:+ String "." ("env" +:+ String "." k)). rewrite !split_char_app by done.
      rewrite split_char_single; [done|]. by apply env_key_class. }
    cbn [forallb]. by rewrite (env_key_segment k Hk), Hk.
  - destruct (dependency_name_try_from n) as [n'|] eqn:En; [|done]. destruct (name_ok n n' En) as [-> Hn]. unfold parse_shape.
    assert (split_char "." ("deps." +:+ n +:+ ".installPath") = ["deps"; n; "installPath"]) as ->.
    { change ("deps." +:+ n +:+ ".installPath") with ("deps" +:+ String "." (n +:+ String "." "installPath")).
      rewrite !split_char_app by (try done; by apply segment_class). done. }
    cbn [forallb]. by rewrite Hn, En.
Qed.

Lemma shape_no_colon key c : valid_token key = true -> body_byte c = false -> c <> "."%char -> str_mem c (shape_text key.1) = false.
Proof.
  intros Hv Hc Hd. apply (str_mem_forall c (fun x => body_byte x || Ascii.eqb x ".")).
  2: { rewrite Hc. by apply Ascii.eqb_neq. }
  assert (forall s, is_body_segment s = true -> str_forall (fun x => body_byte x || Ascii.eqb x ".") s = true) as Hseg.
  { intros s Hs%andb_true_iff. destruct Hs as [_ Hs]. eapply str_forall_impl; [|exact Hs]. intros x Hx. by rewrite Hx. }
  destruct key as [[|k|n] m]; cbn [valid_token fst shape_text] in *; rewrite ?str_forall_app.
  - done.
  - apply andb_true_iff in Hv as [Hk _]. by rewrite (Hseg k (env_key_segment k Hk)).
  - destruct (dependency_name_try_from n) as [n'|] eqn:En; [|done]. by rewrite (Hseg n (proj2 (name_ok n n' En))).
Qed.

Lemma parse_token_print `{Diagnostics} source key : valid_token key = true ->
  parse_token source (token_body key) = Ok (mkToken key.1 key.2 source).
Proof.
  intros Hv. unfold parse_token, token_body, MODIFIER_SEPARATOR. pose proof (shape_no_colon key ":" Hv eq_refl ltac:(done)) as Hc.
  pose proof (parse_shape_print source key Hv) as Hs. destruct key as [shape [[]|]]; cbn [fst snd modifier_text] in *.
  - change ":native" with (String ":" "native"). rewrite split_once_app by done. rewrite Hs. cbn [result_bind].
    destruct shape as [|k|n]; cbn in Hv |- *; [done| |done]. by rewrite andb_false_r in Hv.
  - change ":posix" with (String ":" "posix"). rewrite split_once_app by done. rewrite Hs. cbn [result_bind].
    destruct shape as [|k|n]; cbn in Hv |- *; [done| |done]. by rewrite andb_false_r in Hv.
  - rewrite str_app_nil_r, (proj2 (split_once_None ":" _) Hc), Hs. done.
Qed.

Lemma token_body_open key : valid_token key = true -> str_mem CLOSE (token_body key) = false.
Proof.
  intros Hv. unfold token_body. rewrite str_mem_app, (shape_no_colon key CLOSE Hv) by done. by destruct key as [shape [[]|]].
Qed.

(** *** Escaped text is read as literals *)

Lemma escape_open t : escape_template (OPEN +:+ t) = ESCAPED_OPEN +:+ escape_template t.
Proof. by apply replace_here. Qed.

Lemma escape_plain c t : starts_with OPEN (String c t) = false -> escape_template (String c t) = String c (escape_template t).
Proof. apply replace_step. Qed.

Lemma starts_open c s : starts_with OPEN (String c s) = Ascii.eqb "$" c && starts_with "{" s.
Proof.
  unfold starts_with, OPEN. cbn [strip_prefix]. destruct (Ascii.eqb "$" c); [done|]. by rewrite bool_decide_eq_false_2 by (by intros [? ?]).
Qed.

Lemma starts_escaped c s : starts_with ESCAPED_OPEN (String c s) = Ascii.eqb "$" c && starts_with OPEN s.
Proof.
  unfold starts_with, ESCAPED_OPEN, OPEN. cbn [strip_prefix]. destruct (Ascii.eqb "$" c); [done|].
  by rewrite bool_decide_eq_false_2 by (by intros [? ?]).
Qed.

Lemma starts_brace c s : starts_with "{" (String c s) = Ascii.eqb "{" c.
Proof.
  unfold starts_with. cbn [strip_prefix]. destruct (Ascii.eqb "{" c).
  - by apply bool_decide_eq_true_2.
  - by rewrite bool_decide_eq_false_2 by (by intros [? ?]).
Qed.

Lemma escape_brace t rest : t <> "" -> starts_with "{" (escape_template t +:+ rest) = starts_with "{" t.
Proof.
  destruct t as [|c t]; [done|]. intros _. destruct (starts_with OPEN (String c t)) eqn:E.
  - apply starts_with_true in E as [r Hr]. by rewrite Hr, escape_open.
  - rewrite escape_plain by done. cbn [String.append]. by rewrite !starts_brace.
Qed.

(** What may stand behind the text [t]: nothing, or after a text without [$] at its end
    something that starts with [$]. *)
Definition boundary (t rest : string) : Prop := rest = "" \/ (str_ends_with "$" t = false /\ exists r, rest = String "$" r).

Lemma ends_dollar_tail c t : t <> "" -> str_ends_with "$" (String c t) = str_ends_with "$" t.
Proof.
  intros Ht. unfold str_ends_with. cbn [strip_suffix]. destruct (String.eqb_spec (String c t) "$") as [[= -> ->]|_]; [done|].
  apply bool_decide_ext. rewrite fmap_is_Some. done.
Qed.

Lemma boundary_tail c t rest : boundary (String c t) rest -> boundary t rest.
Proof.
  intros [->|[He Hr]]; [by left|]. right. split; [|done]. destruct t as [|d t]; [done|]. by rewrite ends_dollar_tail in He.
Qed.

Lemma boundary_skip a t rest : boundary (a +:+ t) rest -> boundary t rest.
Proof. induction a as [|c a IH]; [done|]. intros Hb%boundary_tail. by apply IH. Qed.

(** A [$] that starts no opening in the text starts none in its escaped form. *)
Lemma escape_no_open t rest : boundary (String "$" t) rest -> starts_with OPEN (String "$" t) = false ->
  starts_with "{" (escape_template t +:+ rest) = false /\ starts_with OPEN (escape_template t +:+ rest) = false.
Proof.
  rewrite starts_open. intros Hb Ho. simpl in Ho. destruct t as [|d t].
  { destruct Hb as [->|[Hb _]]; [done|]. done. }
  rewrite escape_brace by done. split; [done|]. destruct (starts_with OPEN (String d t)) eqn:E.
  - apply starts_with_true in E as [r Hr]. by rewrite Hr, escape_open.
  - rewrite escape_plain by done. cbn [String.append]. rewrite starts_open in E |- *. destruct (Ascii.eqb_spec "$" d) as [<-|]; [|done].
    simpl in E |- *. destruct t as [|e t]; [|by rewrite escape_brace].
    apply boundary_tail in Hb. by destruct Hb as [->|[Hb _]].
Qed.

Definition put_text (text : string) (t : TemplateText) : TemplateText := (text +:+ t.1, t.2).

Lemma collapse_literal text at_ segs : collapse (Literal text at_ :: segs) = put_text text (collapse segs).
Proof. cbn [collapse]. by destruct (collapse segs). Qed.

Lemma collapse_lits at_ text segs : collapse (lits at_ text ++ segs)%list = put_text text (collapse segs).
Proof.
  unfold lits. destruct (String.eqb_spec text "") as [->|Hne]; [|apply collapse_literal]. simpl. by destruct (collapse segs).
Qed.

Lemma put_text_app a b t : put_text a (put_text b t) = put_text (a +:+ b) t.
Proof. unfold put_text. simpl. by rewrite str_app_assoc. Qed.

Section RoundTrip.
Context `{Diagnostics}.

Lemma scan_text n : forall t rest done_ lit segs, (String.length t <= n)%nat -> boundary t rest ->
  exists done' lit' new,
    (forall tail, collapse (new ++ lits (String.length done') lit' ++ tail)%list = put_text (lit +:+ t) (collapse tail)) /\
    scan_at done_ lit (escape_template t +:+ rest) segs = scan_at done' lit' rest (segs ++ new)%list.
Proof.
  induction n as [|n IH]; intros t rest done_ lit segs Hn Hb; (destruct t as [|c t];
    [exists done_, lit, []; rewrite app_nil_r; split; [intros tail; simpl; by rewrite collapse_lits, str_app_nil_r|done]|]);
    simpl in Hn; [lia|].
  destruct (starts_with OPEN (String c t)) eqn:Ho.
  - apply starts_with_true in Ho as [r Hr]. rewrite Hr in *. apply boundary_skip in Hb. injection Hr as -> ->.
    rewrite escape_open, str_app_assoc, scan_at_escape.
    destruct (IH r rest (done_ +:+ lit +:+ ESCAPED_OPEN) ""
      ((segs ++ lits (String.length done_) lit) ++ [Literal OPEN (String.length done_ + String.length lit + 1)])%list)
      as (done' & lit' & new & Hc & ->); [simpl in Hn; lia|done|].
    exists done', lit', (lits (String.length done_) lit ++ Literal OPEN (String.length done_ + String.length lit + 1) :: new)%list.
    split; [|by rewrite <- !app_assoc]. intros tail. rewrite <- app_assoc. cbn [app].
    rewrite collapse_lits, collapse_literal, Hc, !put_text_app. by rewrite str_app_assoc.
  - rewrite escape_plain by done. cbn [String.append].
    assert (starts_with ESCAPED_OPEN (String c (escape_template t +:+ rest)) = false /\
            starts_with OPEN (String c (escape_template t +:+ rest)) = false) as [H1 H2].
    { rewrite starts_escaped, starts_open. destruct (Ascii.eqb_spec "$" c) as [<-|]; [|done].
      by destruct (escape_no_open t rest Hb Ho) as [-> ->]. }
    rewrite scan_at_plain; [|done|unfold token_offset; by rewrite H2].
    destruct (IH t rest done_ (lit +:+ String c "") segs) as (done' & lit' & new & Hc & ->); [lia|by eapply boundary_tail|].
    exists done', lit', new. split; [|done]. intros tail. rewrite Hc. by rewrite str_app_assoc.
Qed.

Lemma boundary_print text tail : valid_tail text tail = true -> boundary text (print_tail tail).
Proof.
  destruct tail as [|[key next] tail]; [by left|]. cbn [valid_tail]. rewrite !andb_true_iff. intros [[Ht%negb_true_iff _] _].
  right. split; [done|]. eexists. reflexivity.
Qed.

Lemma scan_tail tail : forall text done_ lit segs, valid_tail text tail = true ->
  exists new, scan_at done_ lit (print_tail tail) segs = Ok (segs ++ lits (String.length done_) lit ++ new)%list /\
              collapse new = ("", tail).
Proof.
  induction tail as [|[key next] tail IH]; intros text done_ lit segs Hv.
  { exists []. cbn [print_tail]. rewrite scan_at_end. by rewrite app_nil_r. }
  cbn [valid_tail] in Hv. apply andb_true_iff in Hv as [Hv Ht]. apply andb_true_iff in Hv as [_ Hk]. cbn [print_tail].
  unfold token_text. rewrite scan_at_token by (by apply token_body_open). rewrite parse_token_print by done. cbn [result_bind].
  set (source := OPEN +:+ token_body key +:+ String CLOSE "").
  pose proof (boundary_print next tail Ht) as Hb.
  destruct (scan_text (String.length next) next (print_tail tail) (done_ +:+ lit +:+ source) ""
    ((segs ++ lits (String.length done_) lit) ++ [STok (mkToken key.1 key.2 source)])%list) as (done' & lit' & new & Hc & ->); [done|done|].
  destruct (IH next done' lit' (((segs ++ lits (String.length done_) lit) ++ [STok (mkToken key.1 key.2 source)]) ++ new)%list Ht)
    as (new' & -> & Hc').
  eexists. rewrite <- !app_assoc. split; [done|]. cbn [app collapse tk_shape tk_modifier]. rewrite Hc, Hc'. simpl.
  rewrite str_app_nil_r. by destruct key.
Qed.

(** A template that is printed with its literal text escaped is scanned to its own pieces. *)
Theorem template_roundtrip t : valid_template t = true ->
  exists segs, scan_template (print_template t) = Ok segs /\ collapse segs = t.
Proof.
  destruct t as [text tail]. unfold valid_template, print_template, scan_template. cbn [fst snd]. intros Hv.
  pose proof (boundary_print text tail Hv) as Hb.
  destruct (scan_text (String.length text) text (print_tail tail) "" "" [] ltac:(done) Hb) as (done' & lit' & new & Hc & Hs).
  destruct (scan_tail tail text done' lit' new Hv) as (new' & Hs' & Hc').
  exists (new ++ lits (String.length done') lit' ++ new')%list. split; [|rewrite Hc, Hc'; unfold put_text; simpl; by rewrite str_app_nil_r].
  unfold scan_at in Hs at 1. simpl in Hs. rewrite Hs. exact Hs'.
Qed.
End RoundTrip.

(** ** The scope *)

Section ScopeLookup.
Context `{Diagnostics} {T : Type} `{DeclaredVar T}.

Definition declarations (key : string) (declared : list T) : list T :=
  List.filter (fun d => String.eqb (declared_key d) key) declared.

Definition scope_ok (scope : SelfEnvScope T) : Prop := forall key,
  match sc_by_key scope !! key with
  | None => declarations key (sc_declared scope) = []
  | Some (first, count) =>
      count = length (declarations key (sc_declared scope)) /\
      exists d, sc_declared scope !! first = Some d /\ head (declarations key (sc_declared scope)) = Some d
  end.

Lemma scope_new_ok : scope_ok scope_new.
Proof. intros key. cbn. by rewrite lookup_empty. Qed.

Lemma scope_push_ok scope d : scope_ok scope -> scope_ok (scope_push scope d).
Proof.
  intros Hok key. unfold scope_push. specialize (Hok key). cbn [sc_by_key sc_declared].
  unfold declarations in *. rewrite List.filter_app. cbn [List.filter].
  destruct (String.eqb_spec (declared_key d) key) as [<-|Hne].
  - destruct (sc_by_key scope !! declared_key d) as [[first count]|]; rewrite lookup_insert_eq.
    + destruct Hok as [-> (e & He & Hh)]. rewrite length_app. simpl. split; [lia|]. exists e. split; [by apply lookup_app_l_Some|].
      by destruct (List.filter _ _).
    + rewrite Hok. split; [done|]. exists d. split; [|done]. by apply list_lookup_middle.
  - rewrite app_nil_r.
    assert ((match sc_by_key scope !! declared_key d with
             | Some (first, count) => <[declared_key d:=(first, S count)]> (sc_by_key scope)
             | None => <[declared_key d:=(length (sc_declared scope), 1%nat)]> (sc_by_key scope)
             end) !! key = sc_by_key scope !! key) as ->.
    { by destruct (sc_by_key scope !! declared_key d) as [[first count]|]; rewrite lookup_insert_ne. }
    destruct (sc_by_key scope !! key) as [[first count]|]; [|done]. destruct Hok as [-> (e & He & Hh)]. split; [done|].
    exists e. split; [by apply lookup_app_l_Some|done].
Qed.

Lemma scope_from_iter_ok declared : scope_ok (scope_from_iter declared) /\ sc_declared (scope_from_iter declared) = declared.
Proof.
  unfold scope_from_iter. induction declared as [|d declared IH] using rev_ind; [split; [apply scope_new_ok|done]|].
  rewrite fold_left_app. cbn [fold_left]. destruct IH as [IH1 IH2]. split; [by apply scope_push_ok|]. cbn [scope_push sc_declared]. by rewrite IH2.
Qed.

Lemma scope_lookup_ok scope key : scope_ok scope ->
  scope_lookup scope key = Some (match declarations key (sc_declared scope) with
                                 | [] => Err (UndefinedSelfEnvRef key (declared_keys_for_message scope))
                                 | [d] => Ok d
                                 | _ :: _ :: _ => Err (AmbiguousSelfEnvRef key)
                                 end).
Proof.
  intros Hok. specialize (Hok key). unfold scope_lookup. destruct (sc_by_key scope !! key) as [[first count]|].
  - destruct Hok as [-> (d & Hd & Hh)]. destruct (declarations key (sc_declared scope)) as [|x [|y l]]; [done| |done].
    simpl in *. rewrite Hd. simpl. by simplify_eq.
  - by rewrite Hok.
Qed.
End ScopeLookup.

(** ** The resolver *)

Section Resolving.
Context `{Diagnostics} `{Machine}.

(** The value of one segment. *)
Definition segment_value (r : TemplateResolver) (check_exists : bool) (segment : Segment) : option (result TemplateError string) :=
  match segment with
  | Literal text _ => Some (Ok text)
  | STok token =>
      value ← substitute token (tr_install_path r) (tr_dep_contexts r) (tr_self_env r) check_exists;
      Some (let? v := value in Ok (render v (default Native (tk_modifier token)) host_current))
  end.

Fixpoint str_concat (l : list string) : string := match l with [] => "" | s :: l' => s +:+ str_concat l' end.

Lemma resolve_segments_cons r chk segment rest acc :
  resolve_segments r chk (segment :: rest) acc =
  (piece ← segment_value r chk segment;
   match piece with
   | Err e => Some (Err e)
   | Ok text =>
       if (MAX_RESOLVED_VALUE_BYTES <? String.length (acc +:+ text))%nat
       then Some (Err (ResolvedValueTooLarge MAX_RESOLVED_VALUE_BYTES))
       else resolve_segments r chk rest (acc +:+ text)
   end).
Proof. done. Qed.

Lemma resolve_segments_Ok r chk segs : forall acc v, (String.length acc <= MAX_RESOLVED_VALUE_BYTES)%nat ->
  resolve_segments r chk segs acc = Some (Ok v) <->
  exists vals, Forall2 (fun s w => segment_value r chk s = Some (Ok w)) segs vals /\ v = acc +:+ str_concat vals /\
               (String.length v <= MAX_RESOLVED_VALUE_BYTES)%nat.
Proof.
  induction segs as [|s segs IH]; intros acc v Hacc.
  { cbn [resolve_segments]. split.
    - intros [= <-]. exists []. simpl. by rewrite str_app_nil_r.
    - intros (vals & Hv & -> & _). apply Forall2_nil_inv_l in Hv as ->. simpl. by rewrite str_app_nil_r. }
  rewrite resolve_segments_cons. split.
  - destruct (segment_value r chk s) as [[text|e]|] eqn:Es; simpl; [|done..].
    destruct (Nat.ltb_spec MAX_RESOLVED_VALUE_BYTES (String.length (acc +:+ text))) as [Hlt|Hle]; [done|].
    rewrite IH by done. intros (vals & Hv & -> & Hb). exists (text :: vals). split; [by constructor|]. split; [|done].
    simpl. by rewrite str_app_assoc.
  - intros (vals & Hv & -> & Hb). apply Forall2_cons_inv_l in Hv as (text & vals' & Es & Hv & ->). rewrite Es. simpl. simpl in Hb.
    rewrite <- str_app_assoc in Hb |- *.
    destruct (Nat.ltb_spec MAX_RESOLVED_VALUE_BYTES (String.length (acc +:+ text))) as [Hlt|Hle].
    { rewrite str_length_app in Hb. lia. }
    apply IH; [done|]. by exists vals'.
Qed.

Lemma resolve_segments_large r chk segs vals : forall acc, (String.length acc <= MAX_RESOLVED_VALUE_BYTES)%nat ->
  Forall2 (fun s w => segment_value r chk s = Some (Ok w)) segs vals ->
  (MAX_RESOLVED_VALUE_BYTES < String.length (acc +:+ str_concat vals))%nat ->
  resolve_segments r chk segs acc = Some (Err (ResolvedValueTooLarge MAX_RESOLVED_VALUE_BYTES)).
Proof.
  revert vals. induction segs as [|s segs IH]; intros vals acc Hacc Hv Hlt.
  { apply Forall2_nil_inv_l in Hv as ->. cbn [str_concat] in Hlt. rewrite str_app_nil_r in Hlt. lia. }
  apply Forall2_cons_inv_l in Hv as (text & vals' & Es & Hv & ->). rewrite resolve_segments_cons, Es. simpl.
  destruct (Nat.ltb_spec MAX_RESOLVED_VALUE_BYTES (String.length (acc +:+ text))) as [_|Hle]; [done|].
  apply (IH vals'); [done|done|]. cbn [str_concat] in Hlt. by rewrite str_app_assoc.
Qed.

(** *** What a template means *)

(** [v] is [s] with its separators as the modifier asks: [:posix] on Windows turns every
    backslash into a slash, and nothing else is changed. *)
Definition spelled (modifier : option RenderModifier) (s v : string) : Prop := forall i,
  String.get i v =
  (fun c => match modifier, host_current with
            | Some Posix, Windows => if Ascii.eqb c "\" then "/"%char else c
            | _, _ => c
            end) <$> String.get i s.

(** The value a token stands for, given the variables declared before it. *)
Inductive TokenValue (r : TemplateResolver) (declared : list Entry) (chk : bool) : TokenKey -> string -> Prop :=
| tv_install modifier v : spelled modifier (simplified (tr_install_path r)) v -> TokenValue r declared chk (InstallPath, modifier) v
| tv_dep name modifier context v : tr_dep_contexts r !! name = Some context ->
    (chk = true -> path_exists (context_install_path context) = true) ->
    spelled modifier (simplified (context_install_path context)) v -> TokenValue r declared chk (Dep name, modifier) v
| tv_self before entry after : declared = (before ++ entry :: after)%list ->
    (forall other, In other (before ++ after)%list -> en_key other <> en_key entry) ->
    TokenValue r declared chk (SelfEnv (en_key entry), None) (en_value entry).

(** The tokens a use of templates refuses. *)
Definition allows (allowed : AllowedTokens) (keys : list TokenKey) : Prop := forall key, In key keys ->
  match key.1 with InstallPath => True | Dep _ => al_deps allowed = true | SelfEnv _ => al_self_env allowed = true end.

(** A template with its tokens replaced. *)
Fixpoint fill_tail (tail : list (TokenKey * string)) (vals : list string) : string :=
  match tail, vals with
  | (_, text) :: tail, v :: vals => v +:+ text +:+ fill_tail tail vals
  | _, _ => ""
  end.
Definition fill (t : TemplateText) (vals : list string) : string := t.1 +:+ fill_tail t.2 vals.
Definition token_keys (t : TemplateText) : list TokenKey := map fst t.2.

Lemma get_ext : forall a b, (forall i, String.get i a = String.get i b) -> a = b.
Proof.
  induction a as [|c a IH]; intros [|d b] Hg; [done|by specialize (Hg 0%nat)..|].
  pose proof (Hg 0%nat) as [= ->]. f_equal. apply IH. intros i. exact (Hg (S i)).
Qed.

Lemma render_get s modifier i : String.get i (render s (default Native modifier) host_current) =
  (fun c => match modifier, host_current with
            | Some Posix, Windows => if Ascii.eqb c "\" then "/"%char else c
            | _, _ => c
            end) <$> String.get i s.
Proof.
  assert (String.get i s = (fun c => c) <$> String.get i s) as Hid by (by destruct (String.get i s)).
  destruct modifier as [[]|]; cbn [default render]; [done| |done]. destruct host_current; [|done]. clear Hid.
  revert i. induction s as [|c s IH]; intros [|i]; cbn; done || apply IH.
Qed.

Lemma spelled_render modifier s v : spelled modifier s v <-> v = render s (default Native modifier) host_current.
Proof.
  split; [|intros ->; intros i; apply render_get]. intros Hs. apply get_ext. intros i. rewrite Hs. symmetry. apply render_get.
Qed.

(** *** The code's values are these *)

Definition key_value (r : TemplateResolver) (chk : bool) (key : TokenKey) : option (result TemplateError string) :=
  segment_value r chk (STok (mkToken key.1 key.2 "")).

Lemma declared_once key (declared : list Entry) entry :
  declarations key declared = [entry] <->
  exists before after, declared = (before ++ entry :: after)%list /\ en_key entry = key /\
    forall other, In other (before ++ after)%list -> en_key other <> key.
Proof.
  unfold declarations, declared_key, entry_declared. split.
  - induction declared as [|d declared IH]; [done|]. cbn [List.filter]. destruct (String.eqb_spec (en_key d) key) as [Hk|Hk].
    + intros [= -> Hn]. exists [], declared. split_and!; [done|done|]. intros other Ho Eo.
      assert (In other []) as []. rewrite <- Hn. apply filter_In. split; [done|]. by apply String.eqb_eq.
    + intros (before & after & -> & He & Hall)%IH. exists (d :: before), after. split_and!; [done|done|].
      intros other [<-|Ho]; [done|]. by apply Hall.
  - intros (before & after & -> & He & Hall). rewrite List.filter_app. cbn [List.filter].
    assert (forall l, (forall x, In x l -> In x (before ++ after)%list) -> List.filter (fun d => String.eqb (en_key d) key) l = []) as Hnil.
    { intros l Hl. induction l as [|x l IHl]; [done|]. cbn [List.filter].
      destruct (String.eqb_spec (en_key x) key) as [Hx|_]; [|by apply IHl; intros; apply Hl; right]. by destruct (Hall x (Hl x (or_introl eq_refl))). }
    rewrite !Hnil by (intros; apply in_app_iff; auto). by rewrite (proj2 (String.eqb_eq _ _) He).
Qed.

Lemma key_value_exact r declared chk key v : tr_self_env r = scope_from_iter declared -> valid_token key = true ->
  key_value r chk key = Some (Ok v) <-> TokenValue r declared chk key v.
Proof.
  intros Hscope Hvalid. destruct key as [shape modifier]. unfold key_value, segment_value, substitute. cbn [tk_shape tk_modifier fst snd].
  destruct shape as [|key|name].
  - cbn [mbind option_bind result_bind]. unfold content_directory_string. split.
    + intros [= <-]. constructor. by apply spelled_render.
    + intros Hv. inversion Hv as [m x Hs| |]; subst. by apply spelled_render in Hs as ->.
  - cbn [valid_token] in Hvalid. apply andb_true_iff in Hvalid as [_ ->%bool_decide_eq_true]. unfold lookup_self_env.
    destruct (scope_from_iter_ok declared) as [Hok Hd]. rewrite Hscope, (scope_lookup_ok _ key Hok), Hd. cbn [mbind option_bind]. split.
    + destruct (declarations key declared) as [|entry [|]] eqn:E; try done. cbn [result_bind]. intros [= <-].
      apply declared_once in E as (before & after & -> & <- & Hall). by apply (tv_self _ _ _ before entry after).
    + intros Hv. inversion Hv as [| |before entry after E Hall]; subst.
      rewrite (proj2 (declared_once (en_key entry) _ entry)); [done|]. by exists before, after.
  - split.
    + destruct (tr_dep_contexts r !! name) as [context|] eqn:Ec; cbn [mbind option_bind result_bind]; [|done].
      destruct (chk && negb (path_exists (context_install_path context))) eqn:Ee; cbn [mbind option_bind result_bind]; [done|].
      intros [= <-]. apply (tv_dep _ _ _ name modifier context); [done| |by apply spelled_render].
      intros ->. by apply negb_false_iff.
    + intros Hv. inversion Hv as [|n m context x Hc He Hs|]; subst. rewrite Hc. apply spelled_render in Hs as ->.
      destruct chk; cbn [andb]; [rewrite He by done|]; done.
Qed.

(** *** Segments and pieces *)

Lemma segment_token r chk token : segment_value r chk (STok token) = key_value r chk (tk_shape token, tk_modifier token).
Proof. done. Qed.

Lemma allowed_pieces segs allowed : first_disallowed_token segs allowed = None <-> allows allowed (token_keys (collapse segs)).
Proof.
  unfold allows, token_keys. induction segs as [|[text at_|token] segs IH]; cbn [first_disallowed_token collapse]; [done| |].
  - rewrite IH. by destruct (collapse segs).
  - destruct (collapse segs) as [head tail]. cbn [snd map fst In]. cbn [snd] in IH.
    destruct (tk_shape token) eqn:Es; cbn [token_permitted]; [rewrite IH|destruct (al_self_env allowed); [rewrite IH|]|destruct (al_deps allowed); [rewrite IH|]].
    all: split; [intros Hall key0|intros Hall]; naive_solver.
Qed.

Lemma pieces_of_segments r chk segs vals : Forall2 (fun s w => segment_value r chk s = Some (Ok w)) segs vals ->
  exists values, Forall2 (fun key w => key_value r chk key = Some (Ok w)) (token_keys (collapse segs)) values /\
    str_concat vals = fill (collapse segs) values.
Proof.
  induction 1 as [|[text at_|token] w segs vals Hs _ (values & Hv & Hc)]; [by exists []| |]; cbn [collapse str_concat]; rewrite Hc.
  - injection Hs as <-. exists values. destruct (collapse segs) as [head tail]. split; [done|]. unfold fill. simpl. by rewrite str_app_assoc.
  - rewrite segment_token in Hs. exists (w :: values). destruct (collapse segs) as [head tail]. split; [by constructor|done].
Qed.

Lemma segments_of_pieces r chk segs : forall values,
  Forall2 (fun key w => key_value r chk key = Some (Ok w)) (token_keys (collapse segs)) values ->
  exists vals, Forall2 (fun s w => segment_value r chk s = Some (Ok w)) segs vals /\ str_concat vals = fill (collapse segs) values.
Proof.
  induction segs as [|[text at_|token] segs IH]; intros values Hv.
  - apply Forall2_nil_inv_l in Hv as ->. by exists [].
  - destruct (IH values) as (vals & Hvals & Hc); [cbn [collapse] in Hv; by destruct (collapse segs)|]. exists (text :: vals).
    split; [by constructor|]. cbn [str_concat collapse]. rewrite Hc. destruct (collapse segs). unfold fill. simpl. by rewrite str_app_assoc.
  - cbn [collapse] in Hv |- *. destruct (collapse segs) as [head tail] eqn:Ec. cbn [token_keys map snd fst] in Hv.
    apply Forall2_cons_inv_l in Hv as (w & values' & Hw & Hv & ->). destruct (IH values' Hv) as (vals & Hvals & Hc). exists (w :: vals).
    split; [by constructor|]. cbn [str_concat]. rewrite Hc. done.
Qed.

Lemma valid_keys t : valid_template t = true -> forall key, In key (token_keys t) -> valid_token key = true.
Proof.
  destruct t as [text tail]. unfold valid_template, token_keys. cbn [fst snd]. revert text.
  induction tail as [|[key next] tail IH]; intros text; [done|]. cbn [valid_tail map fst In]. rewrite !andb_true_iff.
  intros [[_ Hk] Ht] key' [<-|Hin]; [done|]. by eapply IH.
Qed.

Lemma key_values_exact r declared chk keys values : tr_self_env r = scope_from_iter declared ->
  (forall key, In key keys -> valid_token key = true) ->
  Forall2 (fun key w => key_value r chk key = Some (Ok w)) keys values <-> Forall2 (TokenValue r declared chk) keys values.
Proof.
  intros Hscope. revert values. induction keys as [|key keys IH]; intros values Hk.
  { split; intros Hv; apply Forall2_nil_inv_l in Hv as ->; constructor. }
  split; intros (w & values' & Hw & Hv & ->)%Forall2_cons_inv_l; constructor.
  1,3: apply (key_value_exact r declared chk key w Hscope); [apply Hk; by left|done].
  all: apply IH; [intros; apply Hk; by right|done].
Qed.

(** C38: What a template resolves to.  Take a template as its author means it, literal text
    and tokens, written with the text escaped, and the variables the package declared before
    it.  It resolves to a value exactly if its use allows its tokens and every token stands
    for a value: the install path, the path of a known dependency (which exists, when that is
    checked), or the value of the one variable declared under the key, spelled as the modifier
    asks; the value is the template with each token replaced, and has at most
    [MAX_RESOLVED_VALUE_BYTES] bytes.  A longer one is refused as too large, and a token its
    use does not allow is refused whatever the others stand for. *)
Theorem resolve_printed_exact r declared chk t (Hvalid : valid_template t = true) (Hscope : tr_self_env r = scope_from_iter declared) :
  (forall v, resolve_inner r (print_template t) chk = Some (Ok v) <->
     allows (tr_allowed r) (token_keys t) /\
     exists values, Forall2 (TokenValue r declared chk) (token_keys t) values /\ v = fill t values /\
       (String.length v <= MAX_RESOLVED_VALUE_BYTES)%nat) /\
  (forall values, allows (tr_allowed r) (token_keys t) -> Forall2 (TokenValue r declared chk) (token_keys t) values ->
     (MAX_RESOLVED_VALUE_BYTES < String.length (fill t values))%nat ->
     resolve_inner r (print_template t) chk = Some (Err (ResolvedValueTooLarge MAX_RESOLVED_VALUE_BYTES))) /\
  (~ allows (tr_allowed r) (token_keys t) -> exists token, resolve_inner r (print_template t) chk = Some (Err (DisallowedToken token))).
Proof.
  destruct (template_roundtrip t Hvalid) as (segs & Hs & <-). pose proof (valid_keys _ Hvalid) as Hk. unfold resolve_inner. rewrite Hs.
  pose proof (allowed_pieces segs (tr_allowed r)) as Hal. destruct (first_disallowed_token segs (tr_allowed r)) as [token|] eqn:Hd.
  { assert (~ allows (tr_allowed r) (token_keys (collapse segs))) as Hno by (by intros ?%Hal). split_and!; [|by intros|eauto].
    intros v. split; [done|]. by intros [? _]. }
  assert (allows (tr_allowed r) (token_keys (collapse segs))) as Hyes by (by apply Hal). split_and!; [| |done].
  - intros v. rewrite resolve_segments_Ok by (simpl; lia). split.
    + intros (vals & Hv & -> & Hb). split; [done|]. destruct (pieces_of_segments r chk segs vals Hv) as (values & Hvs & Hc).
      exists values. cbn [String.append] in *. rewrite Hc in *. split; [|done]. by apply key_values_exact.
    + intros [_ (values & Hv & -> & Hb)]. apply (key_values_exact r declared chk _ _ Hscope Hk) in Hv.
      destruct (segments_of_pieces r chk segs values Hv) as (vals & Hvs & Hc). exists vals. by rewrite Hc.
  - intros values _ Hv Hlt. apply (key_values_exact r declared chk _ _ Hscope Hk) in Hv.
    destruct (segments_of_pieces r chk segs values Hv) as (vals & Hvs & Hc).
    apply (resolve_segments_large r chk segs vals); [simpl; lia|done|]. cbn [String.append]. by rewrite Hc.
Qed.
End Resolving.
