(* ===== verification/EnvVars.v ===== *)
(** * Environment values

    The folds of [crates/ocx_util/src/path.rs] and [list.rs], the environment of
    [crates/ocx_config/src/env.rs], and what [crates/ocx_package/src/metadata/env/] does
    with a package's variables: resolving one ([resolver.rs]), settling list separators
    and applying the entries ([apply.rs]), forwarding them to a child, and the conflict
    tracker ([conflict.rs]).  Paths and [PATH] values are those of a Unix host. *)

From stdpp Require Import base decidable list option numbers strings gmap.
From Stdlib Require Import Lia Ascii.
From S2P Require Import Prelude OMap Text TextSearch Digest PackageRef Store Closure Metadata Template.
Local Open Scope ocx_scope.
Local Open Scope string_scope.

(** ** Lists in a value *)

(** [append_unique]: occurrences are rewritten until none is left.  The outer [None] is
    fuel run out; every pass shortens the text. *)
Fixpoint remove_occurrences (fuel : nat) (occurrence separator wrapped : string) : option string :=
  if contains occurrence wrapped then
    match fuel with
    | O => None
    | S fuel' => remove_occurrences fuel' occurrence separator (str_replace occurrence separator wrapped)
    end
  else Some wrapped.
Definition append_unique (existing value separator : string) : option string :=
  if String.eqb value "" then Some existing
  else
    let wrapped := separator +:+ existing +:+ separator in
    let occurrence := separator +:+ value +:+ separator in
    wrapped ← remove_occurrences (String.length wrapped) occurrence separator wrapped;
    let survivors := default "" (inner ← strip_prefix separator wrapped; strip_suffix separator inner) in
    Some (if String.eqb survivors "" then value else survivors +:+ separator +:+ value).

(** ** Search paths *)

(** [PATH_SEPARATOR], [split_paths], [retained], [remove_segment], [move_to_front]. *)
Definition PATH_SEPARATOR : ascii := ":".
Definition split_paths (s : string) : list string := split_char PATH_SEPARATOR s.
Definition join_segments (segments : list string) : string := str_join (String PATH_SEPARATOR "") segments.
Definition retained_segments (existing value : string) : list string :=
  List.filter (fun segment => negb (String.eqb segment "") && negb (String.eqb segment value)) (split_paths existing).
Definition retained (existing value : string) : string := join_segments (retained_segments existing value).
Definition strip_one_quote_pair (value : string) : string :=
  let quote := String "034" "" in
  default value (inner ← strip_prefix quote value; strip_suffix quote inner).
Definition remove_segment (existing value : string) : string := retained existing (strip_one_quote_pair value).
Definition move_to_front (existing value : string) : string :=
  let survivors := retained existing value in
  if String.eqb value "" then survivors
  else value +:+ (if String.eqb survivors "" then "" else String PATH_SEPARATOR survivors).

(** ** The environment *)

(** [struct Env] and its operations; a name is its own key on Unix. *)
Record Env : Type := mkEnv { env_vars : gmap string string; env_package_path : string }.
Definition env_clean : Env := mkEnv ∅ "".
Definition env_get (env : Env) (key : string) : option string := env_vars env !! key.
Definition env_set (env : Env) (key value : string) : Env := mkEnv (<[key := value]> (env_vars env)) (env_package_path env).
Definition add_path (env : Env) (key value : string) : Env :=
  let new_value := match env_vars env !! key with
                   | Some existing => move_to_front existing value
                   | None => value
                   end in
  mkEnv (<[key := new_value]> (env_vars env)) (env_package_path env).
Definition add_list (env : Env) (key value separator : string) : option Env :=
  if String.eqb value "" then Some env
  else
    folded ← append_unique (default "" (env_vars env !! key)) value separator;
    Some (mkEnv (<[key := folded]> (env_vars env)) (env_package_path env)).
Definition env_remove (env : Env) (key : string) : Env := mkEnv (delete key (env_vars env)) (env_package_path env).
Definition note_package_path (env : Env) (dir : string) : Env :=
  mkEnv (env_vars env) (move_to_front (env_package_path env) dir).

(** [apply_entries]. *)
Definition apply_entry (env : Env) (entry : Entry) : option Env :=
  match en_kind entry with
  | KPath =>
      let env := add_path env (en_key entry) (en_value entry) in
      Some (if String.eqb (en_key entry) "PATH" then note_package_path env (en_value entry) else env)
  | KConstant => Some (env_set env (en_key entry) (en_value entry))
  | KList => add_list env (en_key entry) (en_value entry) (default DEFAULT_SEPARATOR (en_separator entry))
  end.
Fixpoint apply_entries (env : Env) (entries : list Entry) : option Env :=
  match entries with
  | [] => Some env
  | entry :: rest => env' ← apply_entry env entry; apply_entries env' rest
  end.

(** ** Separators *)

(** [enum ListSeparatorError], [reconcile_list_separators]: what each key establishes,
    what it hands down, and the edges. *)
Inductive ListSeparatorError : Type :=
| SeparatorConflict (key first second : string)
| EdgedValue (key separator value : string).
Fixpoint establish (entries : list Entry) (established : gmap string string) : result ListSeparatorError (gmap string string) :=
  match entries with
  | [] => Ok established
  | entry :: rest =>
      if negb (bool_decide (en_kind entry = KList)) then establish rest established
      else
        match en_separator entry with
        | None => establish rest established
        | Some separator =>
            match established !! en_key entry with
            | Some first =>
                if negb (String.eqb first separator) then Err (SeparatorConflict (en_key entry) first separator)
                else establish rest established
            | None => establish rest (<[en_key entry := separator]> established)
            end
        end
  end.
Definition inherit (established : gmap string string) (entry : Entry) : Entry :=
  if negb (bool_decide (en_kind entry = KList)) || bool_decide (is_Some (en_separator entry)) then entry
  else
    match established !! en_key entry with
    | Some separator => mkEntry (en_key entry) (en_value entry) (en_kind entry) (Some separator)
    | None => entry
    end.
Fixpoint check_edges (entries : list Entry) : result ListSeparatorError unit :=
  match entries with
  | [] => Ok tt
  | entry :: rest =>
      if negb (bool_decide (en_kind entry = KList)) then check_edges rest
      else
        let separator := default DEFAULT_SEPARATOR (en_separator entry) in
        if is_separator_edged (en_value entry) separator then Err (EdgedValue (en_key entry) separator (en_value entry))
        else check_edges rest
  end.
Definition reconcile_list_separators (entries : list Entry) : result ListSeparatorError (list Entry) :=
  let? established := establish entries ∅ in
  let entries := map (inherit established) entries in
  let? _ := check_edges entries in
  Ok entries.

(** ** Conflicts *)

(** [struct Conflict], [ConstantTracker::track]. *)
Record EnvConflict : Type := mkConflict {
  cf_key : string;
  cf_previous_package : string;
  cf_previous_value : string;
  cf_current_package : string;
  cf_current_value : string;
}.
Definition track (seen : gmap string (string * string)) (package key value : string) :
    option EnvConflict * gmap string (string * string) :=
  match seen !! key with
  | Some (prev_pkg, prev_val) =>
      if negb (String.eqb prev_pkg package) && negb (String.eqb prev_val value)
      then (Some (mkConflict key prev_pkg prev_val package value), seen)
      else (None, seen)
  | None => (None, <[key := (package, value)]> seen)
  end.

(** ** Resolving a variable *)

(** [enum Error] of the package crate, the variants of metadata. *)
Inductive MetadataError : Type :=
| RequiredPathMissing (path : string)
| EnvVarInterpolation (var_key : string) (source : TemplateError)
| UnknownEnvModifier (key type_name : string)
| MissingListSeparator (key : string)
| ReservedEnvKey (key : string)
| InvalidListSeparator (key separator : string)
| SeparatorEdgedListValue (key separator value : string)
| EntrypointArgInterpolation (entrypoint arg : string) (source : TemplateError)
| IntegrationNamespaceInvalid (namespace reason : string)
| IntegrationTooLarge (namespace : string) (size max : nat)
| IntegrationsTooLarge (size max : nat)
| IntegrationInterpolation (namespace : string) (source : TemplateError)
| SerializationFailure.

(** [Path::is_relative], [Path::join] on texts. *)
Definition is_relative (path : string) : bool := negb (starts_with "/" path).
Definition join_text (base path : string) : string :=
  if is_relative path then
    if String.eqb base "" || str_ends_with "/" base then base +:+ path else base +:+ "/" +:+ path
  else path.

(** [enum ContentState], [struct EnvResolver], [resolve_inner] and its two callers. *)
Inductive ContentState : Type := Materialized | Deferred.
#[export] Instance ContentState_eq_dec : EqDecision ContentState.
Proof. solve_decision. Defined.
Record EnvResolver : Type := mkEnvResolver {
  er_install_path : string;
  er_dep_contexts : gmap string DependencyContext;
  er_content_state : ContentState;
}.

Section Resolve.
Context `{Diagnostics} `{Machine}.

(** The part of a path variable, and that of a list variable; [Err] ends the resolution. *)
Definition path_value (self : EnvResolver) (modifier : Modifier) (emit_assertions : bool) (value : string) : result MetadataError string :=
  match modifier with
  | MPath required _ =>
      let path := if is_relative value then join_text (er_install_path self) value else value in
      let path := simplified path in
      if emit_assertions && bool_decide (er_content_state self = Materialized) && required && negb (path_exists path)
      then Err (RequiredPathMissing path)
      else Ok path
  | _ => Ok value
  end.
Definition list_separator (var : Var) (emit_assertions : bool) (value : string) : result MetadataError (option string) :=
  match var_modifier var with
  | MList separator _ =>
      let effective := default DEFAULT_SEPARATOR separator in
      if emit_assertions && is_separator_edged value effective then Err (SeparatorEdgedListValue (var_key var) effective value)
      else Ok separator
  | _ => Ok None
  end.
Definition resolve_var_inner (self : EnvResolver) (var : Var) (self_env : SelfEnvScope Entry) (emit_assertions : bool) :
    option (result MetadataError (option Entry)) :=
  match var_value var with
  | None => Some (Ok None)
  | Some template =>
      let resolver := with_self_env (resolver_new (er_install_path self) (er_dep_contexts self)) self_env in
      resolved ← if emit_assertions then resolve resolver template else resolve_without_existence_checks resolver template;
      kind ← modifier_kind (var_modifier var);
      Some (
        let? value := result_map_err (EnvVarInterpolation (var_key var)) resolved in
        let? value := path_value self (var_modifier var) emit_assertions value in
        let? separator := list_separator var emit_assertions value in
        Ok (Some (mkEntry (var_key var) value kind separator)))
  end.
Definition resolve_var (self : EnvResolver) (var : Var) (self_env : SelfEnvScope Entry) := resolve_var_inner self var self_env true.
Definition resolve_without_emit_assertions (self : EnvResolver) (var : Var) (self_env : SelfEnvScope Entry) :=
  resolve_var_inner self var self_env false.
End Resolve.

(** ** Forwarding to a child *)

(** [enum ForwardedEnvError], [encode_forwarded_env], [forwarded_env]; [serde_json]'s text
    form is the class [JsonText]. *)
Inductive ForwardedEnvError : Type :=
| MalformedJson
| MissingEntries
| InvalidEntry (index : nat)
| UnknownKind (key found : string)
| InvalidKey (key : string)
| ReservedKey (key : string)
| MissingSeparator (key : string)
| InvalidSeparator (key separator : string)
| SeparatorEdgedValue (key separator value : string).

(** [to_string] may refuse a value; [from_str] reads an object's members. *)
Class JsonText : Type := {
  json_to_string : Json -> option string;
  json_object_from_str : string -> option (list (string * Json));
}.

Definition json_get (members : list (string * Json)) (name : string) : option Json :=
  snd <$> List.find (fun m => String.eqb m.1 name) members.
Definition as_str (j : Json) : option string := match j with JString text => Some text | _ => None end.
Definition as_array (j : Json) : option (list Json) := match j with JArray items => Some items | _ => None end.
Definition as_object (j : Json) : option (list (string * Json)) := match j with JObject members => Some members | _ => None end.

Definition encode_entry (entry : Entry) : Json :=
  JObject (("key", JString (en_key entry)) ::
           (if bool_decide (en_kind entry = KList)
            then [("separator", JString (default DEFAULT_SEPARATOR (en_separator entry)))] else []) ++
           [("type", JString (kind_text (en_kind entry))); ("value", JString (en_value entry))])%list.
Definition encode_forwarded_env `{JsonText} (entries : list Entry) : option string :=
  match entries with
  | [] => None
  | _ :: _ => json_to_string (JObject [("entries", JArray (map encode_entry entries))])
  end.

(** One element of the array. *)
Definition decode_separator (key value : string) (kind : ModifierKind) (object : list (string * Json)) :
    result ForwardedEnvError (option string) :=
  if bool_decide (kind = KList) then
    match separator ← json_get object "separator"; as_str separator with
    | None => Err (MissingSeparator key)
    | Some separator =>
        if negb (separator_is_valid separator) then Err (InvalidSeparator key separator)
        else if is_separator_edged value separator then Err (SeparatorEdgedValue key separator value)
        else Ok (Some separator)
    end
  else Ok None.
Definition decode_entry (index : nat) (element : Json) : result ForwardedEnvError Entry :=
  match as_object element with
  | None => Err (InvalidEntry index)
  | Some object =>
      match json_get object "key" ≫= as_str, json_get object "value" ≫= as_str, json_get object "type" ≫= as_str with
      | Some key, Some value, Some kind =>
          if negb (is_valid_env_key key) then Err (InvalidKey key)
          else if is_reserved_ocx_key key then Err (ReservedKey key)
          else
            let? kind := result_map_err (UnknownKind key) (kind_from_str kind) in
            let? separator := decode_separator key value kind object in
            Ok (mkEntry key value kind separator)
      | _, _, _ => Err (InvalidEntry index)
      end
  end.
Fixpoint decode_entries (index : nat) (array : list Json) : result ForwardedEnvError (list Entry) :=
  match array with
  | [] => Ok []
  | element :: rest =>
      let? entry := decode_entry index element in
      let? entries := decode_entries (S index) rest in
      Ok (entry :: entries)
  end.
Definition forwarded_env `{JsonText} (raw : option string) : result ForwardedEnvError (list Entry) :=
  match raw with
  | None => Ok []
  | Some raw =>
      match json_object_from_str raw with
      | None => Err MalformedJson
      | Some envelope =>
          match json_get envelope "entries" ≫= as_array with
          | None => Err MissingEntries
          | Some array => decode_entries 0 array
          end
      end
  end.
