(* ===== verification/EnvVarsSpec.v ===== *)
(** * What applying an environment does

    A list value without its separator is moved to the back of the list, whatever copies
    the list had; a search-path value to the front.  Applying the entries of a composed
    environment again changes nothing, and an entry forwarded to a child arrives as it
    was sent. *)

From stdpp Require Import base decidable list option numbers strings gmap.
From Stdlib Require Import Lia Ascii.
From S2P Require Import Prelude OMap Text TextSearch Digest PackageRef Store Closure Metadata Template EnvVars.
Local Open Scope ocx_scope.
Local Open Scope string_scope.

(** ** Moving a value to an end of a list *)

Definition without (v : string) (l : list string) : list string := List.filter (fun e => negb (String.eqb e v)) l.
Definition move_back (l : list string) (v : string) : list string := (without v l ++ [v])%list.
Definition move_front (l : list string) (v : string) : list string := v :: without v l.

Lemma without_app v a b : without v (a ++ b)%list = (without v a ++ without v b)%list.
Proof. apply List.filter_app. Qed.

Lemma without_In x v l : In x (without v l) <-> In x l /\ x <> v.
Proof. unfold without. rewrite filter_In, negb_true_iff, String.eqb_neq. done. Qed.

Lemma without_id v l : ~ In v l -> without v l = l.
Proof.
  unfold without. induction l as [|e l IH]; simpl; [done|]. intros Hn. destruct (String.eqb_spec e v) as [->|]; simpl; [naive_solver|].
  rewrite IH; [done|naive_solver].
Qed.

Lemma without_idem v l : without v (without v l) = without v l.
Proof. apply without_id. rewrite without_In. naive_solver. Qed.

Lemma without_comm v w l : without v (without w l) = without w (without v l).
Proof.
  unfold without. induction l as [|e l IH]; simpl; [done|].
  destruct (String.eqb e w) eqn:E1, (String.eqb e v) eqn:E2; simpl; rewrite ?E1, ?E2; simpl; congruence.
Qed.

(** The list without any of [vs], and what [vs] alone leave. *)
Definition without_all (vs l : list string) : list string := fold_left (fun l v => without v l) vs l.

Lemma without_all_app vs a b : without_all vs (a ++ b)%list = (without_all vs a ++ without_all vs b)%list.
Proof. revert a b. induction vs as [|v vs IH]; intros a b; simpl; [done|]. by rewrite without_app, IH. Qed.

Lemma without_all_In x vs l : In x (without_all vs l) <-> In x l /\ ~ In x vs.
Proof. revert l. induction vs as [|v vs IH]; intros l; simpl; [naive_solver|]. rewrite IH, without_In. naive_solver. Qed.

Lemma without_all_nil vs l : (forall x, In x l -> In x vs) -> without_all vs l = [].
Proof.
  intros Hsub. destruct (without_all vs l) as [|x r] eqn:E; [done|]. exfalso.
  assert (In x (without_all vs l)) as Hx by (rewrite E; by left). apply without_all_In in Hx. naive_solver.
Qed.

Lemma without_all_comm vs v l : without v (without_all vs l) = without_all vs (without v l).
Proof. revert l. induction vs as [|w vs IH]; intros l; simpl; [done|]. rewrite IH. by rewrite without_comm. Qed.

Lemma without_all_idem vs l : without_all vs (without_all vs l) = without_all vs l.
Proof.
  revert l. induction vs as [|v vs IH]; intros l; simpl; [done|]. rewrite without_all_comm, without_idem. apply IH.
Qed.

(** Folding [vs] into a list: the rest of the list, then what they leave by themselves. *)
Lemma fold_move_back vs l : fold_left move_back vs l = (without_all vs l ++ fold_left move_back vs [])%list.
Proof.
  induction vs as [|v vs IH] using rev_ind; [by rewrite app_nil_r|].
  rewrite !fold_left_app. cbn [fold_left]. rewrite IH. unfold move_back at 1 3. rewrite without_app, <- app_assoc. f_equal.
  unfold without_all. by rewrite fold_left_app.
Qed.

Lemma fold_move_back_In vs x : In x (fold_left move_back vs []) -> In x vs.
Proof.
  induction vs as [|v vs IH] using rev_ind; [done|]. rewrite fold_left_app. cbn [fold_left]. unfold move_back.
  rewrite !in_app_iff, without_In. naive_solver.
Qed.

Lemma fold_move_back_idem vs l : fold_left move_back vs (fold_left move_back vs l) = fold_left move_back vs l.
Proof.
  rewrite (fold_move_back vs (fold_left _ _ _)), (fold_move_back vs l), without_all_app, without_all_idem.
  rewrite (without_all_nil vs (fold_left _ _ _)), app_nil_r by (apply fold_move_back_In). done.
Qed.

Lemma without_rev v l : without v (rev l) = rev (without v l).
Proof.
  induction l as [|e l IH]; simpl; [done|]. rewrite without_app, IH. unfold without. simpl.
  destruct (negb (String.eqb e v)); simpl; [done|]. by rewrite app_nil_r.
Qed.

Lemma fold_move_front vs l : fold_left move_front vs l = rev (fold_left move_back vs (rev l)).
Proof.
  revert l. induction vs as [|v vs IH]; intros l; cbn [fold_left]; [by rewrite rev_involutive|].
  rewrite IH. do 2 f_equal. unfold move_front, move_back. simpl. by rewrite without_rev.
Qed.

Lemma fold_move_front_idem vs l : fold_left move_front vs (fold_left move_front vs l) = fold_left move_front vs l.
Proof. by rewrite !fold_move_front, rev_involutive, fold_move_back_idem. Qed.

(** ** List values *)

Section OneByte.
Variables (c : ascii) (v : string).
Hypotheses (Hv : v <> "") (Hfree : str_mem c v = false).
Let sep : string := String c "".
Let occ : string := sep +:+ v +:+ sep.

(** A list between separators. *)
Fixpoint wrap (l : list string) : string := match l with [] => sep | e :: l' => String c (e +:+ wrap l') end.
Definition free (l : list string) : Prop := forall e, In e l -> str_mem c e = false.

Lemma wrap_head l : exists r, wrap l = String c r.
Proof. destruct l; simpl; by eexists. Qed.

Lemma wrap_join l : l <> [] -> wrap l = sep +:+ str_join sep l +:+ sep.
Proof.
  induction l as [|e l IH]; [done|]. intros _. cbn [wrap str_join]. destruct l as [|f l].
  - simpl. done.
  - rewrite IH by done. unfold sep at 3. cbn [String.append]. by rewrite !str_app_assoc.
Qed.

Lemma wrap_length l : (length l <= String.length (wrap l))%nat.
Proof. induction l as [|e l IH]; simpl; [lia|]. rewrite str_length_app. lia. Qed.

(** Two elements in front of a separator are equal. *)
Lemma element_is e a b : str_mem c e = false -> v +:+ String c a = e +:+ String c b -> e = v.
Proof.
  intros He E. pose proof (split_once_app c v a Hfree) as H1. rewrite E, split_once_app in H1 by done. by injection H1.
Qed.

Lemma starts_occ e l : str_mem c e = false -> starts_with occ (String c (e +:+ wrap l)) = String.eqb e v.
Proof.
  intros He. destruct (wrap_head l) as [r ->]. apply eq_true_iff_eq. rewrite starts_with_true, String.eqb_eq. split.
  - intros [t Ht]. unfold occ, sep in Ht. cbn [String.append] in Ht. rewrite str_app_assoc in Ht. injection Ht as Ht.
    symmetry in Ht. by apply element_is in Ht.
  - intros ->. exists r. unfold occ, sep. cbn [String.append]. by rewrite str_app_assoc.
Qed.

Lemma not_starts_occ s : head_not (Ascii.eqb c) s = true -> starts_with occ s = false.
Proof.
  intros Hs. destruct (starts_with occ s) eqn:E; [|done]. apply starts_with_true in E as [t ->]. simpl in Hs. by rewrite Ascii.eqb_refl in Hs.
Qed.

Lemma starts_occ_sep : starts_with occ sep = false.
Proof.
  destruct (starts_with occ sep) eqn:E; [|done]. apply starts_with_true in E as [t Ht]. unfold occ, sep in Ht.
  cbn [String.append] in Ht. injection Ht as Ht. by destruct v.
Qed.

(** An element has no separator, so no occurrence starts inside it. *)
Lemma replace_element e s : str_mem c e = false -> str_replace occ sep (e +:+ s) = e +:+ str_replace occ sep s.
Proof.
  induction e as [|d e IH]; [done|]. cbn [str_mem]. rewrite orb_false_iff. intros [Hd He]. cbn [String.append].
  rewrite replace_step, IH; [done|done|]. apply not_starts_occ. simpl. by rewrite Hd.
Qed.

Lemma contains_element e s : str_mem c e = false -> contains occ (e +:+ s) = contains occ s.
Proof.
  induction e as [|d e IH]; [done|]. cbn [str_mem]. rewrite orb_false_iff. intros [Hd He]. cbn [String.append contains].
  rewrite not_starts_occ, IH by (simpl; by rewrite ?Hd). done.
Qed.

Lemma contains_wrap l : free l -> contains occ (wrap l) = existsb (fun e => String.eqb e v) l.
Proof.
  induction l as [|e l IH]; intros Hl.
  - cbn [wrap existsb]. unfold sep at 1. cbn [contains]. fold sep. rewrite starts_occ_sep. by destruct v.
  - cbn [wrap existsb contains]. rewrite starts_occ by (apply Hl; by left). rewrite contains_element by (apply Hl; by left).
    rewrite IH; [done|]. intros x Hx. apply Hl. by right.
Qed.

(** One pass: a removed element takes the separator its neighbour would need. *)
Fixpoint pass (l : list string) : list string :=
  match l with
  | [] => []
  | e :: l' => if String.eqb e v then match l' with [] => [] | e1 :: l'' => e1 :: pass l'' end else e :: pass l'
  end.

Lemma replace_wrap n : forall l, (length l <= n)%nat -> free l -> str_replace occ sep (wrap l) = wrap (pass l).
Proof.
  induction n as [|n IH]; intros l Hn Hl; (destruct l as [|e l];
    [cbn [wrap pass]; unfold sep at 2; rewrite replace_step by apply starts_occ_sep; done|]); simpl in Hn; [lia|].
  assert (str_mem c e = false) as He by (apply Hl; by left).
  assert (free l) as Hl' by (intros x Hx; apply Hl; by right).
  cbn [wrap pass]. destruct (String.eqb_spec e v) as [->|Hne].
  - assert (String c (v +:+ wrap l) = occ +:+ match l with [] => "" | e1 :: l'' => e1 +:+ wrap l'' end) as ->.
    { unfold occ, sep. cbn [String.append]. rewrite str_app_assoc. destruct l; simpl; [done|]. done. }
    rewrite replace_here by done. destruct l as [|e1 l]; [done|]. cbn [wrap]. unfold sep at 2. cbn [String.append]. f_equal.
    rewrite replace_element by (apply Hl'; by left). f_equal. apply IH; [simpl in Hn; lia|]. intros x Hx. apply Hl'. by right.
  - rewrite replace_step by (rewrite starts_occ by done; by apply String.eqb_neq). rewrite replace_element by done.
    rewrite IH; [done|lia|done].
Qed.

Lemma pass_spec n : forall l, (length l <= n)%nat ->
  without v (pass l) = without v l /\ (length (pass l) <= length l)%nat /\ (forall x, In x (pass l) -> In x l) /\
  (existsb (fun e => String.eqb e v) l = true -> (length (pass l) < length l)%nat).
Proof.
  induction n as [|n IH]; intros l Hn; (destruct l as [|e l]; [naive_solver|]); simpl in Hn; [lia|].
  cbn [pass existsb]. destruct (String.eqb_spec e v) as [->|Hne].
  - destruct l as [|e1 l]; [unfold without; simpl; rewrite String.eqb_refl; simpl; naive_solver lia|].
    destruct (IH l) as (H1 & H2 & H3 & _); [simpl in Hn; lia|]. unfold without in *. simpl. rewrite String.eqb_refl. simpl. rewrite H1.
    split; [done|]. split; [lia|]. split; [|lia]. naive_solver.
  - destruct (IH l) as (H1 & H2 & H3 & H4); [lia|]. unfold without in *. simpl. rewrite H1. split; [done|].
    split; [lia|]. split; [naive_solver|]. simpl. intros Hx%H4. lia.
Qed.

Lemma remove_all fuel : forall l, (length l <= fuel)%nat -> free l ->
  remove_occurrences fuel occ sep (wrap l) = Some (wrap (without v l)).
Proof.
  induction fuel as [|fuel IH]; intros l Hn Hl; cbn [remove_occurrences]; rewrite contains_wrap by done.
  { destruct l; [done|simpl in Hn; lia]. }
  destruct (pass_spec (length l) l ltac:(done)) as (H1 & _ & H3 & H4). destruct (existsb _ l) eqn:E.
  - rewrite (replace_wrap (length l)) by done. rewrite IH; [by rewrite H1|specialize (H4 eq_refl); lia|].
    intros x Hx. by apply Hl, H3.
  - rewrite without_id; [done|]. intros Hin. apply not_true_iff_false in E. apply E, existsb_exists. exists v. by rewrite String.eqb_refl.
Qed.
End OneByte.

Lemma strip_suffix_app suf s : strip_suffix suf (s +:+ suf) = Some s.
Proof.
  induction s as [|d s IH]; [destruct suf; simpl; by rewrite ?Ascii.eqb_refl, ?String.eqb_refl|]. cbn [String.append strip_suffix].
  destruct (String.eqb_spec (String d (s +:+ suf)) suf) as [E|_]; [|by rewrite IH].
  exfalso. apply (f_equal String.length) in E. cbn [String.length] in E. rewrite str_length_app in E. lia.
Qed.

(** What appending does to the elements: the value is taken out, then stands at the end;
    a list that is empty, or a single empty element, leaves the value alone. *)
Definition append_reference (c : ascii) (existing value : string) : string :=
  let kept := str_join (String c "") (without value (split_char c existing)) in
  if String.eqb kept "" then value else kept +:+ String c value.

Lemma append_unique_elements c existing value :
  value <> "" -> str_mem c value = false ->
  append_unique existing value (String c "") = Some (append_reference c existing value).
Proof.
  intros Hv Hfree. unfold append_unique, append_reference. apply String.eqb_neq in Hv as Hv'. rewrite Hv'.
  pose proof (split_char_ne c existing) as Hne. pose proof (wrap_join c (split_char c existing) Hne) as Hw.
  rewrite join_split_char in Hw. rewrite <- Hw.
  rewrite remove_all; [|done|done|apply wrap_length|by intros e He; eapply split_char_pieces].
  cbn [mbind option_bind]. f_equal. destruct (without value (split_char c existing)) as [|k kept] eqn:E.
  - simpl. by rewrite Ascii.eqb_refl.
  - rewrite wrap_join by done. cbn [String.append strip_prefix]. rewrite Ascii.eqb_refl.
    cbn [mbind option_bind]. by rewrite strip_suffix_app.
Qed.

(** Every pass of the loop shortens the text, so its fuel is enough for any separator. *)
Lemma replace_from_length pat rep s : pat <> "" -> (String.length rep <= String.length pat)%nat -> forall k,
  (String.length (replace_from pat rep s k) <= String.length s - Nat.min k (String.length s))%nat.
Proof.
  intros Hne Hrep. induction s as [|c s IH]; intros k; [simpl; lia|]. cbn [replace_from]. destruct k as [|k].
  - destruct (starts_with pat (String c s)) eqn:E.
    + apply starts_with_true in E as [r Er]. apply (f_equal String.length) in Er. rewrite str_length_app in *. simpl in *.
      destruct pat as [|p pat]; [done|]. specialize (IH (String.length pat)). simpl in *. lia.
    + specialize (IH 0%nat). simpl in *. lia.
  - specialize (IH k). simpl in *. lia.
Qed.

Lemma replace_shorter pat rep s : (String.length rep < String.length pat)%nat -> contains pat s = true ->
  (String.length (str_replace pat rep s) < String.length s)%nat.
Proof.
  intros Hrep. assert (pat <> "") as Hne by (intros ->; simpl in Hrep; lia). unfold str_replace.
  induction s as [|c s IH]; cbn [contains replace_from].
  - rewrite orb_false_r. intros [r Er]%starts_with_true. by destruct pat.
  - destruct (starts_with pat (String c s)) eqn:E; cbn [orb].
    + intros _. apply starts_with_true in E as [r Er]. apply (f_equal String.length) in Er. rewrite str_length_app in *. simpl in *.
      pose proof (replace_from_length pat rep s Hne ltac:(lia) (pred (String.length pat))). lia.
    + intros Hc. specialize (IH Hc). simpl. lia.
Qed.

Lemma remove_occurrences_total occurrence separator fuel : (String.length separator < String.length occurrence)%nat ->
  forall wrapped, (String.length wrapped <= fuel)%nat -> is_Some (remove_occurrences fuel occurrence separator wrapped).
Proof.
  intros Hlen. induction fuel as [|fuel IH]; intros wrapped Hf; cbn [remove_occurrences];
    destruct (contains occurrence wrapped) eqn:E; try by eexists.
  - apply (replace_shorter _ separator) in E; [lia|done].
  - apply IH. apply (replace_shorter _ separator) in E; [lia|done].
Qed.

Lemma append_unique_total existing value separator : is_Some (append_unique existing value separator).
Proof.
  unfold append_unique. destruct (String.eqb_spec value "") as [|Hv]; [by eexists|].
  destruct (remove_occurrences_total (separator +:+ value +:+ separator) separator (String.length (separator +:+ existing +:+ separator)))
    with (wrapped := separator +:+ existing +:+ separator) as [w ->]; [|done|by eexists].
  rewrite !str_length_app. destruct value; [done|]. simpl. lia.
Qed.

Lemma apply_entries_total es : forall env, is_Some (apply_entries env es).
Proof.
  induction es as [|e es IH]; intros env; [by eexists|]. cbn [apply_entries].
  assert (is_Some (apply_entry env e)) as [env' ->]; [|by apply IH]. unfold apply_entry, add_list.
  destruct (en_kind e); [by eexists..|]. destruct (String.eqb _ _); [by eexists|].
  destruct (append_unique_total (default "" (env_vars env !! en_key e)) (en_value e) (default DEFAULT_SEPARATOR (en_separator e))) as [w ->].
  by eexists.
Qed.

(** The replacement loop of [append_unique] ends for every text, value and separator;
    for a separator of one byte and a value without it, it is: drop every equal element,
    append the value. *)
Theorem append_unique_reference existing value :
  (forall separator, is_Some (append_unique existing value separator)) /\
  (forall c, value <> "" -> str_mem c value = false ->
     append_unique existing value (String c "") = Some (append_reference c existing value)).
Proof. split; [apply append_unique_total|]. intros c. apply append_unique_elements. Qed.

(** ** Applying entries twice *)

(** How a variable is used: every entry of one key has one kind, a path value is one
    directory, and a list value has no separator of its own. *)
Inductive Discipline : Type := PathKey | ConstantKey | ListKey (c : ascii).
Definition follows (d : Discipline) (e : Entry) : bool :=
  match d with
  | PathKey => bool_decide (en_kind e = KPath) && negb (str_mem PATH_SEPARATOR (en_value e))
  | ConstantKey => bool_decide (en_kind e = KConstant)
  | ListKey c =>
      bool_decide (en_kind e = KList) && String.eqb (default DEFAULT_SEPARATOR (en_separator e)) (String c "") &&
      negb (str_mem c (en_value e))
  end.
(** The value a list variable has at the start: no element of it is empty. *)
Definition clean_list (c : ascii) (o : option string) : Prop := default "" o = "" \/ ~ In "" (split_char c (default "" o)).

(** What one entry makes of its variable. *)
Definition value_after (d : Discipline) (o : option string) (v : string) : option string :=
  match d with
  | PathKey => Some (match o with Some s => move_to_front s v | None => v end)
  | ConstantKey => Some v
  | ListKey c => if String.eqb v "" then o else Some (append_reference c (default "" o) v)
  end.

(** *** Search paths as lists of directories *)

Definition directories (o : option string) : list string :=
  match o with Some s => without "" (split_paths s) | None => [] end.
Definition put_front (l : list string) (v : string) : list string := if String.eqb v "" then l else move_front l v.
Definition whole (c : ascii) (l : list string) : Prop := forall e, In e l -> e <> "" /\ str_mem c e = false.

Lemma retained_without s v : retained_segments s v = without v (without "" (split_paths s)).
Proof.
  unfold retained_segments, without. induction (split_paths s) as [|e l IH]; simpl; [done|].
  destruct (String.eqb e ""); simpl; [done|]. destruct (String.eqb e v); simpl; [done|]. by f_equal.
Qed.

Lemma directories_whole o : whole PATH_SEPARATOR (directories o).
Proof.
  destruct o as [s|]; [|done]. intros e [He Hne]%without_In. split; [done|]. by eapply split_char_pieces.
Qed.

Lemma join_nil c l : whole c l -> str_join (String c "") l = "" -> l = [].
Proof.
  destruct l as [|e [|f l]]; [done| |]; intros Hw; simpl; [intros ->|].
  - by destruct (Hw "" ltac:(by left)).
  - destruct e as [|d e]; [|done]. by destruct (Hw "" ltac:(by left)).
Qed.

Lemma split_join c l : whole c l -> l <> [] -> split_char c (str_join (String c "") l) = l.
Proof. intros Hw Hne. apply split_char_join; [done|]. intros s Hs. by apply Hw. Qed.

Lemma without_empty c l : whole c l -> without "" l = l.
Proof. intros Hw. apply without_id. intros H. by destruct (Hw "" H). Qed.

Lemma directories_join l : whole PATH_SEPARATOR l -> directories (Some (join_segments l)) = l.
Proof.
  intros Hw. unfold directories, join_segments, split_paths. destruct l as [|e l]; [done|].
  rewrite split_join by done. by eapply without_empty.
Qed.

Lemma put_front_whole v l : str_mem PATH_SEPARATOR v = false -> whole PATH_SEPARATOR l -> whole PATH_SEPARATOR (put_front l v).
Proof.
  intros Hv Hw. unfold put_front. destruct (String.eqb_spec v "") as [->|Hne]; [done|].
  intros e [<-|[He _]%without_In]; [done|by apply Hw].
Qed.

Lemma path_step o v : str_mem PATH_SEPARATOR v = false ->
  value_after PathKey o v = Some (join_segments (put_front (directories o) v)).
Proof.
  intros Hv. cbn [value_after]. f_equal. unfold put_front. destruct o as [s|]; cbn [directories].
  - unfold move_to_front, retained. rewrite retained_without. destruct (String.eqb_spec v "") as [->|Hne]; [by rewrite without_idem|].
    unfold move_front, join_segments. set (l := without v (without "" (split_paths s))).
    assert (whole PATH_SEPARATOR l) as Hl.
    { intros e [He _]%without_In. by apply (directories_whole (Some s)). }
    destruct (String.eqb_spec (str_join (String PATH_SEPARATOR "") l) "") as [E|E].
    + apply join_nil in E as ->; [|done]. simpl. by rewrite str_app_nil_r.
    + destruct l as [|e l']; [done|]. done.
  - by destruct (String.eqb_spec v "") as [->|].
Qed.

Lemma fold_paths vs o : vs <> [] -> Forall (fun v => str_mem PATH_SEPARATOR v = false) vs ->
  whole PATH_SEPARATOR (fold_left put_front vs (directories o)) /\
  fold_left (value_after PathKey) vs o = Some (join_segments (fold_left put_front vs (directories o))).
Proof.
  induction vs as [|v vs IH] using rev_ind; [done|]. intros _ [Hvs Hv]%Forall_app. rewrite Forall_singleton in Hv.
  rewrite !fold_left_app. cbn [fold_left]. destruct vs as [|w vs].
  { cbn [fold_left]. split; [|by apply path_step]. apply put_front_whole; [done|]. apply directories_whole. }
  destruct IH as [Hw ->]; [done|done|]. split; [by apply put_front_whole|]. rewrite path_step by done. by rewrite directories_join.
Qed.

Lemma fold_put_front vs l : fold_left put_front vs l = fold_left move_front (without "" vs) l.
Proof.
  revert l. induction vs as [|v vs IH]; intros l; [done|]. cbn [fold_left]. rewrite IH. unfold put_front, without. cbn [List.filter].
  by destruct (String.eqb v "").
Qed.

Lemma path_idem vs o : Forall (fun v => str_mem PATH_SEPARATOR v = false) vs ->
  fold_left (value_after PathKey) vs (fold_left (value_after PathKey) vs o) = fold_left (value_after PathKey) vs o.
Proof.
  intros Hvs. destruct (decide (vs = [])) as [->|Hne]; [done|]. destruct (fold_paths vs o Hne Hvs) as [Hw ->].
  rewrite (proj2 (fold_paths vs _ Hne Hvs)), directories_join by done. by rewrite !fold_put_front, fold_move_front_idem.
Qed.

(** *** Lists as their elements *)

Definition elements (c : ascii) (o : option string) : list string :=
  if String.eqb (default "" o) "" then [] else split_char c (default "" o).

Lemma elements_whole c o : clean_list c o -> whole c (elements c o).
Proof.
  intros Ho. unfold elements. destruct (String.eqb_spec (default "" o) "") as [_|Hne]; [done|].
  destruct Ho as [|Ho]; [done|]. intros e He. split; [congruence|]. by eapply split_char_pieces.
Qed.

Lemma elements_join c l : whole c l -> elements c (Some (str_join (String c "") l)) = l.
Proof.
  intros Hw. unfold elements. change (default "" (Some (str_join (String c "") l))) with (str_join (String c "") l). destruct (String.eqb_spec (str_join (String c "") l) "") as [E|E].
  - by apply join_nil in E as ->.
  - apply split_join; [done|]. by intros ->.
Qed.

Lemma join_snoc c l v : l <> [] -> str_join (String c "") (l ++ [v])%list = str_join (String c "") l +:+ String c v.
Proof.
  induction l as [|e l IH]; [done|]. intros _. destruct l as [|f l]; [done|]. cbn [app].
  change (str_join (String c "") (e :: f :: l ++ [v])) with (e +:+ String c "" +:+ str_join (String c "") ((f :: l) ++ [v])).
  rewrite IH by done. cbn [str_join]. by rewrite !str_app_assoc.
Qed.

Lemma append_elements c o v : v <> "" -> clean_list c o ->
  append_reference c (default "" o) v = str_join (String c "") (move_back (elements c o) v).
Proof.
  intros Hv Ho. unfold append_reference, move_back.
  assert (whole c (without v (elements c o))) as Hw by (intros e [He _]%without_In; by apply (elements_whole c o)).
  unfold elements in *. destruct (String.eqb_spec (default "" o) "") as [->|Hne].
  { cbn [split_char]. unfold without. cbn [List.filter]. by destruct (negb (String.eqb "" v)). }
  destruct (String.eqb_spec (str_join (String c "") (without v (split_char c (default "" o)))) "") as [E|E].
  - by apply join_nil in E as ->.
  - rewrite join_snoc; [done|]. intros En. by rewrite En in E.
Qed.

Lemma move_back_whole c v l : v <> "" -> str_mem c v = false -> whole c l -> whole c (move_back l v).
Proof. intros Hv Hc Hw e [[He _]%without_In|[<-|[]]]%in_app_or; [by apply Hw|done]. Qed.

Lemma clean_join c l : whole c l -> clean_list c (Some (str_join (String c "") l)).
Proof.
  intros Hw. unfold clean_list. change (default "" (Some (str_join (String c "") l))) with (str_join (String c "") l). destruct l as [|e l]; [by left|]. right. rewrite split_join by done.
  intros Hin. by destruct (Hw "" Hin).
Qed.

Lemma fold_lists c vs o : Forall (fun v => v <> "" /\ str_mem c v = false) vs -> vs <> [] -> clean_list c o ->
  whole c (fold_left move_back vs (elements c o)) /\
  fold_left (value_after (ListKey c)) vs o = Some (str_join (String c "") (fold_left move_back vs (elements c o))).
Proof.
  induction vs as [|v vs IH] using rev_ind; [done|]. intros [Hvs Hv]%Forall_app _ Ho. rewrite Forall_singleton in Hv. destruct Hv as [Hv Hc].
  rewrite !fold_left_app. cbn [fold_left value_after]. rewrite (proj2 (String.eqb_neq v "") Hv). destruct vs as [|w vs].
  { cbn [fold_left]. split; [apply move_back_whole; [done..|by apply elements_whole]|]. f_equal. by apply append_elements. }
  destruct IH as [Hw ->]; [done|done|done|]. split; [by apply move_back_whole|].
  rewrite append_elements by (done || by apply clean_join). by rewrite elements_join.
Qed.

Lemma fold_list_nonempty c vs o : fold_left (value_after (ListKey c)) vs o = fold_left (value_after (ListKey c)) (without "" vs) o.
Proof.
  revert o. induction vs as [|v vs IH]; intros o; [done|]. unfold without in *. cbn [fold_left List.filter]. rewrite IH.
  cbn [value_after]. destruct (String.eqb_spec v "") as [->|Hne]; [done|]. cbn [negb fold_left value_after].
  by rewrite (proj2 (String.eqb_neq v "") Hne).
Qed.

Lemma list_idem c vs o : Forall (fun v => str_mem c v = false) vs -> clean_list c o ->
  fold_left (value_after (ListKey c)) vs (fold_left (value_after (ListKey c)) vs o) = fold_left (value_after (ListKey c)) vs o.
Proof.
  intros Hvs Ho. rewrite !(fold_list_nonempty c vs). set (ws := without "" vs).
  assert (Forall (fun v => v <> "" /\ str_mem c v = false) ws) as Hws.
  { apply Forall_forall. intros v Hin. apply list_elem_of_In, without_In in Hin as [Hin Hne]. split; [done|].
    rewrite Forall_forall in Hvs. by apply Hvs, list_elem_of_In. }
  destruct (decide (ws = [])) as [->|Hne]; [done|]. destruct (fold_lists c ws o Hws Hne Ho) as [Hw ->].
  rewrite (proj2 (fold_lists c ws _ Hws Hne (clean_join c _ Hw))), elements_join by done. by rewrite fold_move_back_idem.
Qed.

(** *** The whole environment *)

Lemma constant_idem vs o :
  fold_left (value_after ConstantKey) vs (fold_left (value_after ConstantKey) vs o) = fold_left (value_after ConstantKey) vs o.
Proof. destruct vs as [|v vs _] using rev_ind; [done|]. by rewrite !fold_left_app. Qed.

#[export] Instance Discipline_eq_dec : EqDecision Discipline.
Proof. solve_decision. Defined.

Section Apply.
Variable disc : string -> Discipline.

Definition disciplined (e : Entry) : Prop := follows (disc (en_key e)) e = true.

(** One entry, as a function of its variable's value. *)
Definition apply_pure (env : Env) (e : Entry) : Env :=
  mkEnv (match value_after (disc (en_key e)) (env_vars env !! en_key e) (en_value e) with
         | Some s => <[en_key e := s]> (env_vars env)
         | None => env_vars env
         end)
        (if bool_decide (disc (en_key e) = PathKey) && String.eqb (en_key e) "PATH"
         then move_to_front (env_package_path env) (en_value e) else env_package_path env).

Lemma apply_entry_pure env e : disciplined e -> apply_entry env e = Some (apply_pure env e).
Proof.
  unfold disciplined, apply_pure, apply_entry. destruct (disc (en_key e)) as [| |c]; cbn [follows value_after].
  - rewrite andb_true_iff, bool_decide_eq_true. intros [-> _]. unfold add_path, note_package_path.
    rewrite bool_decide_eq_true_2 by done. by destruct (String.eqb (en_key e) "PATH").
  - rewrite bool_decide_eq_true. intros ->. done.
  - rewrite !andb_true_iff, bool_decide_eq_true, String.eqb_eq, negb_true_iff. intros [[-> ->] Hc]. unfold add_list.
    rewrite bool_decide_eq_false_2 by done. cbn [andb]. destruct (String.eqb_spec (en_value e) "") as [_|Hne].
    + destruct env as [vars pp]. cbn [env_vars env_package_path]. destruct (vars !! en_key e) as [s|] eqn:E; [|done].
      by rewrite insert_id.
    + by rewrite append_unique_elements.
Qed.

Lemma apply_entries_pure es : forall env, Forall disciplined es -> apply_entries env es = Some (fold_left apply_pure es env).
Proof.
  induction es as [|e es IH]; intros env; [done|]. intros [He Hes]%Forall_cons. cbn [apply_entries fold_left].
  rewrite apply_entry_pure by done. cbn [mbind option_bind]. by apply IH.
Qed.

(** The values the entries give one variable. *)
Definition values_of (key : string) (es : list Entry) : list string :=
  map en_value (List.filter (fun e => String.eqb (en_key e) key) es).

Lemma values_of_cons key e es :
  values_of key (e :: es) = if String.eqb (en_key e) key then en_value e :: values_of key es else values_of key es.
Proof. unfold values_of. cbn [List.filter]. by destruct (String.eqb (en_key e) key). Qed.

Lemma apply_pure_lookup env e key :
  env_vars (apply_pure env e) !! key =
  if String.eqb (en_key e) key then value_after (disc key) (env_vars env !! key) (en_value e) else env_vars env !! key.
Proof.
  cbn [apply_pure env_vars]. destruct (String.eqb_spec (en_key e) key) as [<-|Hne].
  - destruct (value_after _ _ _) as [s|] eqn:E; [by rewrite lookup_insert_eq|]. revert E.
    destruct (disc (en_key e)); cbn [value_after]; [done..|]. by destruct (String.eqb (en_value e) "").
  - destruct (value_after _ _ _) as [s|]; [by rewrite lookup_insert_ne|done].
Qed.

Lemma fold_apply_lookup es key : forall env,
  env_vars (fold_left apply_pure es env) !! key = fold_left (value_after (disc key)) (values_of key es) (env_vars env !! key).
Proof.
  induction es as [|e es IH]; intros env; [done|]. cbn [fold_left]. rewrite IH, values_of_cons, apply_pure_lookup.
  by destruct (String.eqb (en_key e) key).
Qed.

Lemma fold_apply_package_path es : forall env,
  Some (env_package_path (fold_left apply_pure es env)) =
  if bool_decide (disc "PATH" = PathKey)
  then fold_left (value_after PathKey) (values_of "PATH" es) (Some (env_package_path env)) else Some (env_package_path env).
Proof.
  induction es as [|e es IH]; intros env; [by destruct (bool_decide _)|]. cbn [fold_left]. rewrite IH, values_of_cons.
  cbn [apply_pure env_package_path]. destruct (String.eqb_spec (en_key e) "PATH") as [->|Hne].
  - by destruct (bool_decide (disc "PATH" = PathKey)).
  - by rewrite andb_false_r.
Qed.

Lemma values_free key es d : disc key = d -> Forall disciplined es ->
  Forall (fun v => match d with
                   | PathKey => str_mem PATH_SEPARATOR v = false
                   | ConstantKey => True
                   | ListKey c => str_mem c v = false
                   end) (values_of key es).
Proof.
  intros Hd. induction 1 as [|e es He Hes IH]; [constructor|]. rewrite values_of_cons.
  destruct (String.eqb_spec (en_key e) key) as [<-|]; [|done]. constructor; [|done]. unfold disciplined in He. rewrite Hd in He.
  destruct d; [| done |]; cbn [follows] in He; rewrite !andb_true_iff, negb_true_iff in He; tauto.
Qed.

(** A disciplined list of entries can be applied to every environment whose list
    variables have no empty element, and applying it again changes nothing: neither a
    variable nor the record of the packages' search path. *)
Theorem apply_entries_idempotent env es :
  Forall disciplined es -> (forall key c, disc key = ListKey c -> clean_list c (env_vars env !! key)) ->
  exists env', apply_entries env es = Some env' /\ apply_entries env' es = Some env'.
Proof.
  intros Hes Henv. exists (fold_left apply_pure es env). split; [by apply apply_entries_pure|]. rewrite apply_entries_pure by done. f_equal.
  assert (forall a b, env_vars a = env_vars b -> env_package_path a = env_package_path b -> a = b) as Heq.
  { intros [] [] ? ?. simpl in *. by subst. }
  apply Heq.
  - apply map_eq. intros key. rewrite !fold_apply_lookup. pose proof (values_free key es (disc key) eq_refl Hes) as Hfree.
    specialize (Henv key). destruct (disc key) as [| |c]; [by apply path_idem|apply constant_idem|]. apply list_idem; [done|by apply Henv].
  - apply (inj Some). rewrite !fold_apply_package_path. destruct (decide (disc "PATH" = PathKey)) as [Hp|Hp];
      [rewrite !bool_decide_eq_true_2 by done|by rewrite !bool_decide_eq_false_2 by done].
    apply path_idem. by apply (values_free "PATH" es PathKey).
Qed.
End Apply.

(** ** Separators *)

Definition entry_separator (e : Entry) : string := default DEFAULT_SEPARATOR (en_separator e).

Lemma establish_spec es : forall established m, establish es established = Ok m ->
  (forall key sep, established !! key = Some sep -> m !! key = Some sep) /\
  (forall e sep, In e es -> en_kind e = KList -> en_separator e = Some sep -> m !! en_key e = Some sep).
Proof.
  induction es as [|e es IH]; intros established m; cbn [establish]; [intros [= <-]; naive_solver|].
  destruct (bool_decide (en_kind e = KList)) eqn:Ek; cbn [negb].
  2: { apply bool_decide_eq_false in Ek. intros H%IH. destruct H as [H1 H2]. split; [done|]. intros e' sep [<-|Hin]; [done|by apply H2]. }
  destruct (en_separator e) as [sep|] eqn:Es.
  2: { intros H%IH. destruct H as [H1 H2]. split; [done|]. intros e' sep [<-|Hin]; [congruence|by apply H2]. }
  destruct (established !! en_key e) as [first|] eqn:Em.
  - destruct (String.eqb_spec first sep) as [->|]; [|done]. intros H%IH. destruct H as [H1 H2]. split; [done|].
    intros e' sep' [<-|Hin]; [|by apply H2]. rewrite Es. intros _ [= <-]. by apply H1.
  - intros H%IH. destruct H as [H1 H2]. split.
    + intros key sep' Hk. apply H1. rewrite lookup_insert_ne; [done|]. intros <-. congruence.
    + intros e' sep' [<-|Hin]; [|by apply H2]. rewrite Es. intros _ [= <-]. apply H1. by rewrite lookup_insert_eq.
Qed.

Lemma check_edges_Ok es : check_edges es = Ok tt -> forall e, In e es -> en_kind e = KList ->
  is_separator_edged (en_value e) (entry_separator e) = false.
Proof.
  induction es as [|e es IH]; cbn [check_edges]; [done|]. destruct (bool_decide (en_kind e = KList)) eqn:Ek; cbn [negb].
  - fold (entry_separator e). destruct (is_separator_edged _ _) eqn:Eg; [done|]. intros H e' [<-|Hin]; [done|by apply IH].
  - apply bool_decide_eq_false in Ek. intros H e' [<-|Hin]; [done|by apply IH].
Qed.

Lemma inherit_separator es m e : establish es ∅ = Ok m -> In e es -> en_kind e = KList ->
  entry_separator (inherit m e) = default DEFAULT_SEPARATOR (m !! en_key e).
Proof.
  intros Hm He Hk. unfold inherit, entry_separator. rewrite bool_decide_eq_true_2 by done. cbn [negb orb].
  destruct (en_separator e) as [sep|] eqn:Es.
  - rewrite bool_decide_eq_true_2 by done. rewrite Es. by rewrite (proj2 (establish_spec es ∅ m Hm) e sep He Hk Es).
  - rewrite bool_decide_eq_false_2 by (by intros [? ?]). destruct (m !! en_key e) as [sep|]; [done|]. by rewrite Es.
Qed.

Lemma inherit_fields m e : en_key (inherit m e) = en_key e /\ en_value (inherit m e) = en_value e /\ en_kind (inherit m e) = en_kind e.
Proof. unfold inherit. destruct (_ || _); [done|]. by destruct (m !! en_key e). Qed.

(** Settled entries agree: those of one list variable fold with one separator, none of
    their values is edged by it, and nothing but a separator was changed. *)
Theorem reconcile_agrees es es' : reconcile_list_separators es = Ok es' ->
  map en_key es' = map en_key es /\ map en_value es' = map en_value es /\ map en_kind es' = map en_kind es /\
  (forall e, In e es' -> en_kind e = KList -> is_separator_edged (en_value e) (entry_separator e) = false) /\
  (forall e1 e2, In e1 es' -> In e2 es' -> en_kind e1 = KList -> en_kind e2 = KList -> en_key e1 = en_key e2 ->
     entry_separator e1 = entry_separator e2).
Proof.
  unfold reconcile_list_separators. destruct (establish es ∅) as [m|] eqn:Hm; [|done]. cbn [result_bind].
  destruct (check_edges _) as [[]|] eqn:Hc; [|done]. cbn [result_bind]. intros [= <-]. rewrite !map_map.
  do 3 (split; [apply map_ext; intros e; apply inherit_fields|]). split; [by apply check_edges_Ok|].
  intros e1 e2 (d1 & <- & H1)%in_map_iff (d2 & <- & H2)%in_map_iff.
  destruct (inherit_fields m d1) as (-> & _ & ->), (inherit_fields m d2) as (-> & _ & ->). intros K1 K2 E.
  rewrite (inherit_separator es m d1), (inherit_separator es m d2) by done. by rewrite E.
Qed.

(** ** Forwarding *)

(** What a child accepts, and an entry as it arrives: with its separator written out. *)
Definition forwardable (e : Entry) : bool :=
  is_valid_env_key (en_key e) && negb (is_reserved_ocx_key (en_key e)) &&
  (negb (bool_decide (en_kind e = KList)) ||
   (separator_is_valid (entry_separator e) && negb (is_separator_edged (en_value e) (entry_separator e)))).
Definition arrived (e : Entry) : Entry :=
  mkEntry (en_key e) (en_value e) (en_kind e) (if bool_decide (en_kind e = KList) then Some (entry_separator e) else None).

Lemma decode_encode index e : forwardable e = true -> decode_entry index (encode_entry e) = Ok (arrived e).
Proof.
  destruct e as [key value kind sep]. unfold forwardable, encode_entry, decode_entry, arrived, entry_separator.
  cbn [en_key en_value en_kind en_separator as_object]. rewrite !andb_true_iff, negb_true_iff. intros [[Hk Hr] Hs].
  destruct kind; simpl; rewrite Hk, Hr; [done..|]. simpl in Hs |- *.
  apply andb_true_iff in Hs as [Hv He%negb_true_iff]. unfold decode_separator. simpl. by rewrite Hv, He.
Qed.

Lemma decode_encode_all es : forall index, Forall (fun e => forwardable e = true) es ->
  decode_entries index (map encode_entry es) = Ok (map arrived es).
Proof.
  induction es as [|e es IH]; intros index; [done|]. intros [He Hes]%Forall_cons. cbn [map decode_entries].
  rewrite decode_encode by done. cbn [result_bind]. by rewrite IH.
Qed.

(** An accepted payload has only entries the gates pass: a valid key outside the reserved
    namespaces, and for a list a usable separator that does not edge the value. *)
Lemma decode_entry_gate index j e : decode_entry index j = Ok e -> forwardable e = true.
Proof.
  unfold decode_entry. destruct (as_object j) as [object|]; [|done].
  destruct (json_get object "key" ≫= as_str) as [key|]; [|done]. destruct (json_get object "value" ≫= as_str) as [value|]; [|done].
  destruct (json_get object "type" ≫= as_str) as [kind|]; [|done].
  destruct (is_valid_env_key key) eqn:Hk; [|done]. cbn [negb]. destruct (is_reserved_ocx_key key) eqn:Hr; [done|].
  destruct (kind_from_str kind) as [k|]; [|done]. cbn [result_map_err result_bind]. unfold decode_separator, forwardable.
  destruct (bool_decide (k = KList)) eqn:Ek; cbn [result_bind].
  - destruct (json_get object "separator" ≫= as_str) as [sep|]; [|done]. cbn [mbind option_bind].
    destruct (separator_is_valid sep) eqn:Hs; [|done]. cbn [negb]. destruct (is_separator_edged value sep) eqn:He; [done|]. cbn [result_bind].
    intros [= <-]. unfold entry_separator. simpl. by rewrite Hk, Hr, Ek, Hs, He.
  - intros [= <-]. simpl. by rewrite Hk, Hr, Ek.
Qed.

Lemma decode_entries_gate array : forall index es, decode_entries index array = Ok es -> Forall (fun e => forwardable e = true) es.
Proof.
  induction array as [|j array IH]; intros index es; cbn [decode_entries]; [intros [= <-]; constructor|].
  destruct (decode_entry index j) as [e|] eqn:E; [|done]. cbn [result_bind].
  destruct (decode_entries (S index) array) as [es'|] eqn:Es; [|done]. cbn [result_bind]. intros [= <-].
  constructor; [by eapply decode_entry_gate|by eapply IH].
Qed.

Section Forward.
Context `{JsonText}.
(** [serde_json] reads back the object it wrote. *)
Hypothesis json_roundtrip : forall members raw, json_to_string (JObject members) = Some raw -> json_object_from_str raw = Some members.

(** The payload a parent writes for entries a child accepts is read back by the child:
    the same entries in the same order, with their separators written out. *)
Theorem forwarded_roundtrip es raw : Forall (fun e => forwardable e = true) es ->
  encode_forwarded_env es = Some raw -> forwarded_env (Some raw) = Ok (map arrived es).
Proof.
  intros Hes. unfold encode_forwarded_env, forwarded_env. destruct es as [|e es]; [done|].
  intros Hraw%json_roundtrip. rewrite Hraw. cbn [json_get List.find fst fmap option_fmap]. simpl. by apply (decode_encode_all (e :: es)).
Qed.
End Forward.

(** Whatever payload a child is handed, no entry it accepts sets a reserved name. *)
Theorem forwarded_gate `{JsonText} raw es : forwarded_env raw = Ok es -> Forall (fun e => forwardable e = true) es.
Proof.
  unfold forwarded_env. destruct raw as [raw|]; [|intros [= <-]; constructor]. destruct (json_object_from_str raw) as [env|]; [|done].
  destruct (json_get env "entries" ≫= as_array) as [array|]; [|done]. apply decode_entries_gate.
Qed.
