(* ===== verification/PublishGate.v ===== *)
(** * The metadata gates

    [crates/ocx_package/src/metadata/validation.rs] and the token walk of
    [metadata/integrations.rs]: what every reader of a package checks, and what is
    checked before one is published. *)

From stdpp Require Import base decidable list option numbers strings gmap.
From Stdlib Require Import Lia Ascii.
From S2P Require Import Prelude OMap Text TextSearch Digest PackageRef Store Closure Metadata Template EnvVars.
Local Open Scope ocx_scope.
Local Open Scope string_scope.

(** ** Results that may panic *)

(** [None] is a panic, or fuel run out. *)
Definition outcome (E A : Type) : Type := option (result E A).
Definition outcome_bind {E A B : Type} (m : outcome E A) (k : A -> outcome E B) : outcome E B :=
  match m with
  | Some (Ok a) => k a
  | Some (Err e) => Some (Err e)
  | None => None
  end.
Notation "'let^' x := m 'in' k" := (outcome_bind m (fun x => k)) (at level 10, x name, m at level 100, k at level 200) : ocx_scope.
Definition outcome_map_err {E F A : Type} (f : E -> F) (m : outcome E A) : outcome F A := result_map_err f <$> m.

(** [for x in xs { body?; }]. *)
Fixpoint for_each {E A : Type} (body : A -> result E unit) (l : list A) : result E unit :=
  match l with
  | [] => Ok tt
  | a :: l' => let? _ := body a in for_each body l'
  end.

(** ** Dependency names *)

(** [build_name_and_collision_maps]. *)
Abbreviation NameMap := (gmap string Dependency).
Definition add_name (maps : NameMap * NameMap) (dep : Dependency) : NameMap * NameMap :=
  let '(name_map, collision_map) := maps in
  let name := dependency_name dep in
  (<[name := dep]> name_map,
   match name_map !! name with
   | Some prev => <[name := prev]> collision_map
   | None => collision_map
   end).
Definition build_name_and_collision_maps (deps : list Dependency) : NameMap * NameMap := fold_left add_name deps (∅, ∅).

(** [check_token_reference]. *)
Definition check_token_reference (token : Token) (name_map collision_map : NameMap) : result TemplateError unit :=
  match tk_shape token with
  | Dep name =>
      match name_map !! name, collision_map !! name with
      | Some first, Some second => Err (AmbiguousDependencyRef name (dep_identifier first) (dep_identifier second))
      | Some _, None => Ok tt
      | None, _ => Err (UnknownDependencyRef name (ord_sort (map (dependency_name ∘ snd) (map_to_list name_map))))
      end
  | _ => Ok tt
  end.

(** ** What every reader checks *)

(** [validate_env_modifier_types], [validate_env_list_entries]. *)
Definition validate_env_modifier_types (metadata : Metadata) : result MetadataError unit :=
  for_each (fun var => match var_modifier var with
                       | MUnknown type_name => Err (UnknownEnvModifier (var_key var) type_name)
                       | _ => Ok tt
                       end) (md_env metadata).
Definition validate_env_list_entries (metadata : Metadata) : result MetadataError unit :=
  for_each (fun var => match var_modifier var with
                       | MList None _ => Err (MissingListSeparator (var_key var))
                       | MList (Some separator) value =>
                           if negb (separator_is_valid separator) then Err (InvalidListSeparator (var_key var) separator)
                           else if is_separator_edged value separator then Err (SeparatorEdgedListValue (var_key var) separator value)
                           else Ok tt
                       | _ => Ok tt
                       end) (md_env metadata).

(** What the container check takes from elsewhere: [serde_json]'s length of a value and of
    a key, and three character classes of Unicode. *)
Class PayloadText : Type := {
  payload_len : Json -> option nat;
  key_len : string -> option nat;
  any_control : string -> bool;
  any_invisible : string -> bool;
  any_whitespace : string -> bool;
}.
Definition MAX_INTEGRATION_NAMESPACE_BYTES : nat := 8 * 1024.
Definition MAX_INTEGRATIONS_BYTES : nat := 32 * 1024.
Definition MAX_NAMESPACE_BYTES : nat := 128.

Section Container.
Context `{PayloadText}.

(** [validate_namespace]. *)
Definition validate_namespace (namespace : string) : result MetadataError unit :=
  let refuse reason := Err (IntegrationNamespaceInvalid namespace reason) in
  if String.eqb namespace "" then refuse "empty"
  else if (MAX_NAMESPACE_BYTES <? String.length namespace)%nat then refuse "longer than 128 bytes"
  else if any_control namespace then refuse "contains a control character"
  else if any_invisible namespace then refuse "contains an invisible character"
  else if any_whitespace namespace then refuse "contains whitespace"
  else Ok tt.

(** [serialized_len], [validate_integrations]. *)
Definition serialized_len (len : option nat) : result MetadataError nat :=
  match len with Some n => Ok n | None => Err SerializationFailure end.
Fixpoint integrations_total (position total : nat) (integrations : list (string * Json)) : result MetadataError nat :=
  match integrations with
  | [] => Ok total
  | (namespace, payload) :: rest =>
      let? _ := validate_namespace namespace in
      let? size := serialized_len (payload_len payload) in
      if (MAX_INTEGRATION_NAMESPACE_BYTES <? size)%nat
      then Err (IntegrationTooLarge namespace size MAX_INTEGRATION_NAMESPACE_BYTES)
      else
        let? key := serialized_len (key_len namespace) in
        let comma := if (0 <? position)%nat then 1%nat else 0%nat in
        integrations_total (S position) (total + (key + 1 + size + comma)) rest
  end.
Definition validate_integrations (metadata : Metadata) : result MetadataError unit :=
  match md_integrations metadata with
  | [] => Ok tt
  | integrations =>
      let? total := integrations_total 0 2 integrations in
      if (MAX_INTEGRATIONS_BYTES <? total)%nat then Err (IntegrationsTooLarge total MAX_INTEGRATIONS_BYTES) else Ok tt
  end.

(** [TryFrom<Metadata> for ValidMetadata]. *)
Definition valid_metadata (metadata : Metadata) : result MetadataError Metadata :=
  let? _ := validate_env_modifier_types metadata in
  let? _ := validate_env_list_entries metadata in
  let? _ := validate_integrations metadata in
  Ok metadata.
End Container.

(** ** What a publisher's metadata must pass *)

(** [validate_env_reserved_keys]. *)
Definition validate_env_reserved_keys (metadata : Metadata) : result MetadataError unit :=
  for_each (fun var => if is_reserved_ocx_key (var_key var) then Err (ReservedEnvKey (var_key var)) else Ok tt) (md_env metadata).

Section Tokens.
Context `{Diagnostics}.

(** [validate_env_tokens]: the tokens of one value, and the variables in order. *)
Fixpoint check_segments (maps : NameMap * NameMap) (declared_before : SelfEnvScope string) (segments : list Segment) :
    outcome TemplateError unit :=
  match segments with
  | [] => Some (Ok tt)
  | Literal _ _ :: rest => check_segments maps declared_before rest
  | STok token :: rest =>
      let^ _ := Some (check_token_reference token maps.1 maps.2) in
      let^ _ := match tk_shape token with
                | SelfEnv key => let^ _ := scope_lookup declared_before key in Some (Ok tt)
                | _ => Some (Ok tt)
                end in
      check_segments maps declared_before rest
  end.
Fixpoint check_vars (maps : NameMap * NameMap) (declared_before : SelfEnvScope string) (env : list Var) : outcome MetadataError unit :=
  match env with
  | [] => Some (Ok tt)
  | var :: rest =>
      match var_value var with
      | None => check_vars maps declared_before rest
      | Some value =>
          let^ _ := outcome_map_err (EnvVarInterpolation (var_key var))
                      (let^ segments := Some (scan_template value) in check_segments maps declared_before segments) in
          check_vars maps (scope_push declared_before (var_key var)) rest
      end
  end.
Definition validate_env_tokens (metadata : Metadata) : outcome MetadataError unit :=
  check_vars (build_name_and_collision_maps (md_dependencies metadata)) scope_new (md_env metadata).

(** [validate_entrypoint_args]. *)
Definition check_arg (name arg : string) : result MetadataError unit :=
  result_map_err (EntrypointArgInterpolation name arg)
    (let? segments := scan_template arg in
     match first_disallowed_token segments (allowed_of EntryPointArgs) with
     | Some token => Err (DisallowedToken token)
     | None => Ok tt
     end).
Definition validate_entrypoint_args (metadata : Metadata) : result MetadataError unit :=
  for_each (fun '(name, entry) => for_each (check_arg name) (ep_args entry)) (md_entrypoints metadata).

(** [string_leaves]; [validate_integration_tokens]. *)
Fixpoint string_leaves (payload : Json) : list string :=
  match payload with
  | JString text => [text]
  | JArray items => flat_map string_leaves items
  | JObject members => flat_map (fun m => string_leaves m.2) members
  | _ => []
  end.
Fixpoint check_references (maps : NameMap * NameMap) (segments : list Segment) : result TemplateError unit :=
  match segments with
  | [] => Ok tt
  | Literal _ _ :: rest => check_references maps rest
  | STok token :: rest => let? _ := check_token_reference token maps.1 maps.2 in check_references maps rest
  end.
Definition check_leaf (maps : NameMap * NameMap) (namespace leaf : string) : result MetadataError unit :=
  result_map_err (IntegrationInterpolation namespace)
    (let? segments := scan_template leaf in
     match first_disallowed_token segments INTEGRATION_TOKENS with
     | Some token => Err (DisallowedToken token)
     | None => check_references maps segments
     end).
Definition validate_integration_tokens (metadata : Metadata) : result MetadataError unit :=
  let maps := build_name_and_collision_maps (md_dependencies metadata) in
  for_each (fun '(namespace, payload) => for_each (check_leaf maps namespace) (string_leaves payload)) (md_integrations metadata).

(** [validate_for_publish]. *)
Definition validate_for_publish `{PayloadText} (metadata : Metadata) : outcome MetadataError Metadata :=
  let^ valid := Some (valid_metadata metadata) in
  let^ _ := Some (validate_env_reserved_keys valid) in
  let^ _ := validate_env_tokens valid in
  let^ _ := Some (validate_entrypoint_args valid) in
  let^ _ := Some (validate_integration_tokens valid) in
  Some (Ok valid).

(** ** Resolving the integrations *)

(** [interpolate]: every string leaf, in place; keys and scalars pass through. *)
Context `{Machine}.
Fixpoint interpolate (resolver : TemplateResolver) (payload : Json) : outcome TemplateError Json :=
  match payload with
  | JString text => let^ resolved := resolve resolver text in Some (Ok (JString resolved))
  | JArray items =>
      let^ items := (fix go (l : list Json) : outcome TemplateError (list Json) :=
                       match l with
                       | [] => Some (Ok [])
                       | item :: l' => let^ j := interpolate resolver item in let^ js := go l' in Some (Ok (j :: js))
                       end) items in
      Some (Ok (JArray items))
  | JObject members =>
      let^ members := (fix go (l : list (string * Json)) : outcome TemplateError (list (string * Json)) :=
                         match l with
                         | [] => Some (Ok [])
                         | (key, member) :: l' =>
                             let^ j := interpolate resolver member in let^ js := go l' in Some (Ok ((key, j) :: js))
                         end) members in
      Some (Ok (JObject members))
  | scalar => Some (Ok scalar)
  end.

(** [Integrations::resolve]. *)
Fixpoint integrations_resolve (resolver : TemplateResolver) (integrations : list (string * Json)) :
    outcome MetadataError (list (string * Json)) :=
  match integrations with
  | [] => Some (Ok [])
  | (namespace, payload) :: rest =>
      let^ resolved := outcome_map_err (IntegrationInterpolation namespace) (interpolate resolver payload) in
      let^ entries := integrations_resolve resolver rest in
      Some (Ok ((namespace, resolved) :: entries))
  end.
End Tokens.
