(* ===== verification/Compose.v ===== *)
(** * Composing an environment

    [crates/ocx_package_manager/src/composer.rs]: which packages of a closure and which of
    their carriers reach a surface, and the environment entries of the packages in order,
    each package once.  The loads of a root's dependencies run concurrently and are put
    back in order; [schedule] says which of them ends next. *)

From stdpp Require Import base decidable list option numbers strings gmap.
From Stdlib Require Import Lia Ascii.
From S2P Require Import Prelude OMap Text TextSearch Digest PackageRef Store Closure Metadata Template EnvVars PublishGate.
Local Open Scope ocx_scope.
Local Open Scope string_scope.

(** ** The surface algebra *)

(** [surface_axes], [target_axes], [on_axes], [dep_admitted], [carrier_crosses_on],
    [carrier_crosses], [integrations_cross], [crosses_anew]. *)
Definition surface_axes (self_view : bool) : Visibility := if self_view then PRIVATE else INTERFACE.
Definition target_axes (is_root self_view : bool) : Visibility := if is_root then surface_axes self_view else INTERFACE.
Definition on_axes (visibility axes : Visibility) : bool :=
  (has_private visibility && has_private axes) || (has_interface visibility && has_interface axes).
Definition dep_admitted (effective : Visibility) (self_view : bool) : bool := on_axes effective (surface_axes self_view).
Definition carrier_crosses_on (carrier : Visibility) (is_root : bool) (axes : Visibility) : bool :=
  if is_root then on_axes carrier axes else has_interface carrier.
Definition carrier_crosses (carrier : Visibility) (is_root self_view : bool) : bool :=
  carrier_crosses_on carrier is_root (surface_axes self_view).
Definition integrations_cross (self_view : bool) : bool := negb self_view.
Definition crosses_anew (carrier axes done_ : Visibility) : bool := on_axes carrier axes && negb (on_axes carrier done_).

(** ** Digest conflicts *)

(** [RepositoryKey] and [RepositoryDigests]. *)
Abbreviation RepositoryKey := (string * string)%type.
#[export] Instance repository_ord : TotalOrd RepositoryKey := ord_of_lawful (pair_cmp String.compare String.compare) (lawful_pair _ _ lawful_string lawful_string).
Definition repository_of (id : PinnedPackageRef) : RepositoryKey := (pp_registry id, pp_repository id).
Abbreviation RepositoryDigests := (list (RepositoryKey * list PinnedPackageRef)).

(** [record_repo_identifier], [conflicts_with]. *)
Definition record_repo_identifier (by_repository : RepositoryDigests) (id : PinnedPackageRef) : RepositoryDigests :=
  let repository := repository_of id in
  let seen := default [] (om_get repository by_repository) in
  if existsb (fun existing => bool_decide (pp_digest existing = pp_digest id)) seen
  then om_insert repository seen by_repository
  else om_insert repository (seen ++ [id])%list by_repository.
Definition touch (known : RepositoryDigests) (touched : RepositoryDigests) (candidate : PinnedPackageRef) : RepositoryDigests :=
  let repository := repository_of candidate in
  record_repo_identifier (om_or_insert repository (default [] (om_get repository known)) touched) candidate.
Definition conflicts_with (known : RepositoryDigests) (candidates : list PinnedPackageRef) : list (RepositoryKey * list PinnedPackageRef) :=
  List.filter (fun row => (2 <=? length row.2)%nat) (fold_left (touch known) candidates []).

(** [admitted_dependencies], [surface_closure]. *)
Definition admitted_dependencies (root : InstallInfo) (axes : Visibility) : list PinnedPackageRef :=
  map rd_identifier (List.filter (fun dep => on_axes (rd_visibility dep) axes) (rp_dependencies (ii_resolved root))).
Definition surface_closure (roots : list InstallInfo) (axes : Visibility) : list PinnedPackageRef :=
  flat_map (fun root => ii_identifier root :: admitted_dependencies root axes) roots.

(** ** Errors and reads *)

(** The errors a composition ends in; [LoadErr] is that of reading a package's files. *)
Inductive ComposeError (LoadErr : Type) : Type :=
| LoadFailed (e : LoadErr)
| PackageFailed (e : MetadataError)
| ClosureMiss (identifier : PinnedPackageRef)
| EntrypointCollision (name : string) (owners : list PinnedPackageRef)
| DigestConflict (repository : RepositoryKey) (identifiers : list PinnedPackageRef).
Arguments LoadFailed {LoadErr}.
Arguments PackageFailed {LoadErr}.
Arguments ClosureMiss {LoadErr}.
Arguments EntrypointCollision {LoadErr}.
Arguments DigestConflict {LoadErr}.

(** Reading [metadata.json] and [resolve.json] beside a content directory. *)
Class ObjectFiles (LoadErr : Type) : Type := {
  read_metadata : Path -> result LoadErr Metadata;
  read_resolved : Path -> result LoadErr ResolvedPackage;
}.

(** [enum PathLane], [ComposePaths] with [install_path_for]; the trusted links are a map
    from a package directory to its link. *)
Inductive PathLane : Type := Following | DigestLane.
Abbreviation ComposePaths := (gmap Path Path).
Definition digest_only : ComposePaths := ∅.
Definition install_path_for (paths : ComposePaths) (package : Path) (lane : PathLane) : Path :=
  match lane with
  | DigestLane => package
  | Following => default package (paths !! package)
  end.

(** [type Emitted], [enum RootRole], [struct ComposeOutput]. *)
Abbreviation Emitted := (gmap PinnedPackageRef Visibility).
Inductive RootRole : Type := RolePackage (paths : ComposePaths) | RoleGraft (emitted : Emitted).
Record ComposeOutput : Type := mkOutput {
  co_entries : list Entry;
  co_admitted : list PinnedPackageRef;
  co_admitted_binaries : list (PinnedPackageRef * string);
  co_admitted_entrypoints : list (PinnedPackageRef * string);
  co_admitted_integrations : list (PinnedPackageRef * (string * Json));
}.

(** [synth_entrypoints_path_for], [synth_shim_path_for], [emit_shim_slot]. *)
Definition synth_entrypoints_path_for (pkg : Path) : Entry := mkEntry "PATH" (path_text (entrypoints_dir pkg)) KPath None.
Definition synth_shim_path_for (shim : Path) : Entry := mkEntry "PATH" (path_text (shim_bin_dir shim)) KPath None.
Definition emit_shim_slot (root : InstallInfo) (axes : Visibility) : list Entry :=
  if negb (carrier_crosses_on ENTRYPOINTS_VISIBILITY true axes) then []
  else match ii_deferred root with Some (shim, _) => [synth_shim_path_for shim] | None => [] end.

(** [build_dep_context_map]; a later dependency of the same name replaces an earlier. *)
Definition resolved_ids (resolved : ResolvedPackage) : gmap RepositoryKey PinnedPackageRef :=
  fold_left (fun m d => <[repository_of (rd_identifier d) := rd_identifier d]> m) (rp_dependencies resolved) ∅.
Definition build_dep_context_map (metadata : Metadata) (resolved : ResolvedPackage) (store : FileStructure) (paths : ComposePaths) :
    gmap string DependencyContext :=
  let resolved_id_map := resolved_ids resolved in
  fold_left (fun m d =>
      let install_id := default (dep_identifier d) (resolved_id_map !! repository_of (dep_identifier d)) in
      let install_path := content_dir (install_path_for paths (package_path store install_id) DigestLane) in
      <[dependency_name d := PathOnly install_id (path_text install_path)]> m)
    (md_dependencies metadata) ∅.

Section Emit.
Context `{Diagnostics} `{Machine}.

(** [emit_package_vars]: every variable is resolved, the crossing ones are pushed. *)
Fixpoint emit_vars (resolver : EnvResolver) (crosses : Visibility -> bool) (env : list Var) (declared_before : SelfEnvScope Entry)
    (entries : list Entry) : outcome MetadataError (list Entry) :=
  match env with
  | [] => Some (Ok entries)
  | var :: rest =>
      let crossing := crosses (var_visibility var) in
      let^ resolved := if crossing then resolve_var resolver var declared_before
                       else resolve_without_emit_assertions resolver var declared_before in
      match resolved with
      | None => emit_vars resolver crosses rest declared_before entries
      | Some entry =>
          emit_vars resolver crosses rest (scope_push declared_before entry) (if crossing then entries ++ [entry] else entries)%list
      end
  end.
Definition emit_package_vars (metadata : Metadata) (content : Path) (dep_contexts : gmap string DependencyContext)
    (crosses : Visibility -> bool) (content_state : ContentState) (entries : list Entry) : outcome MetadataError (list Entry) :=
  emit_vars (mkEnvResolver (path_text content) dep_contexts content_state) crosses (md_env metadata) scope_new entries.

(** [emit_dep_path_block], [emit_root_path_block]. *)
Definition entrypoints_slot (metadata : Metadata) (pkg : Path) (is_root : bool) (axes : Visibility) : list Entry :=
  if carrier_crosses_on ENTRYPOINTS_VISIBILITY is_root axes && match md_entrypoints metadata with [] => false | _ :: _ => true end
  then [synth_entrypoints_path_for pkg] else [].
Definition emit_dep_path_block (metadata : Metadata) (pkg content : Path) (dep_contexts : gmap string DependencyContext)
    (axes done_ : Visibility) (content_state : ContentState) (entries : list Entry) : outcome MetadataError (list Entry) :=
  let^ entries := emit_package_vars metadata content dep_contexts
                    (fun visibility => carrier_crosses_on visibility false axes && negb (on_axes visibility done_)) content_state entries in
  Some (Ok (entries ++ entrypoints_slot metadata pkg false axes)%list).
Definition emit_root_path_block (metadata : Metadata) (pkg content : Path) (dep_contexts : gmap string DependencyContext)
    (axes : Visibility) (content_state : ContentState) (entries : list Entry) : outcome MetadataError (list Entry) :=
  let^ entries := emit_package_vars metadata content dep_contexts (fun visibility => carrier_crosses_on visibility true axes)
                    content_state entries in
  Some (Ok (entries ++ entrypoints_slot metadata pkg true axes)%list).
End Emit.

(** ** Loading *)

Section Compose.
Context `{Diagnostics} `{Machine} `{PayloadText} {LoadErr : Type} `{ObjectFiles LoadErr}.
Variable store : FileStructure.
Local Abbreviation Error := (ComposeError LoadErr).

(** [load_object_data]: both files are read, the metadata is validated. *)
Definition load_object_data (content : Path) : result Error (Metadata * ResolvedPackage) :=
  let? metadata := result_map_err LoadFailed (read_metadata content) in
  let? metadata := result_map_err PackageFailed (valid_metadata metadata) in
  let? resolved := result_map_err LoadFailed (read_resolved content) in
  Ok (metadata, resolved).

(** [tc_entry_object_data]. *)
Definition tc_entry_object_data (root : InstallInfo) (dep_id : PinnedPackageRef) : result Error (Metadata * ResolvedPackage) :=
  match ii_deferred root with
  | None => load_object_data (content_dir (package_path store dep_id))
  | Some (_, closure) =>
      match deferred_member closure dep_id with
      | None => Err (ClosureMiss dep_id)
      | Some member => Ok (ii_metadata member, ii_resolved member)
      end
  end.

(** The join set: a finished load fills its slot, a failed one ends the composition. *)
Local Abbreviation Loaded := (Metadata * ResolvedPackage * PinnedPackageRef)%type.
Fixpoint join_loads (schedule : nat -> nat) (fuel : nat) (root : InstallInfo) (tasks : list (nat * PinnedPackageRef))
    (loaded : list (option Loaded)) : outcome Error (list (option Loaded)) :=
  match tasks with
  | [] => Some (Ok loaded)
  | _ :: _ =>
      match fuel with
      | O => None
      | S fuel' =>
          let position := (schedule fuel' `mod` length tasks)%nat in
          match tasks !! position with
          | None => None
          | Some task =>
              let^ data := Some (tc_entry_object_data root task.2) in
              join_loads schedule fuel' root (delete position tasks) (<[task.1 := Some (data.1, data.2, task.2)]> loaded)
          end
      end
  end.

(** ** Entry points across roots *)

(** [check_entrypoints]: the owners of each name, in the order of the walk. *)
Definition own (owners : list (string * list PinnedPackageRef)) (id : PinnedPackageRef) (names : list string) :
    list (string * list PinnedPackageRef) :=
  fold_left (fun m name => om_insert name (default [] (om_get name m) ++ [id])%list m) names owners.
Local Abbreviation Owners := (list (string * list PinnedPackageRef) * gset PinnedPackageRef)%type.
Fixpoint own_dependencies (root : InstallInfo) (deps : list ResolvedDependency) (acc : Owners) : result Error Owners :=
  match deps with
  | [] => Ok acc
  | tc_entry :: rest =>
      if negb (has_interface (rd_visibility tc_entry)) then own_dependencies root rest acc
      else
        let key := strip_advisory (rd_identifier tc_entry) in
        if bool_decide (key ∈ acc.2) then own_dependencies root rest acc
        else
          let? data := tc_entry_object_data root (rd_identifier tc_entry) in
          own_dependencies root rest (own acc.1 (rd_identifier tc_entry) (entrypoint_names (md_entrypoints data.1)), {[key]} ∪ acc.2)
  end.
Fixpoint own_roots (roots : list InstallInfo) (acc : Owners) : result Error Owners :=
  match roots with
  | [] => Ok acc
  | root :: rest =>
      let key := strip_advisory (ii_identifier root) in
      let acc := if bool_decide (key ∈ acc.2) then acc
                 else (own acc.1 (ii_identifier root) (entrypoint_names (md_entrypoints (ii_metadata root))), {[key]} ∪ acc.2) in
      let? acc := own_dependencies root (rp_dependencies (ii_resolved root)) acc in
      own_roots rest acc
  end.
Definition check_entrypoints (roots : list InstallInfo) : result Error unit :=
  let? acc := own_roots roots ([], ∅) in
  match List.find (fun row => (1 <? length row.2)%nat) acc.1 with
  | Some (name, owners) => Err (EntrypointCollision name owners)
  | None => Ok tt
  end.

(** [check_repo_digest_conflicts], by [RepositoryDigests::refuse]. *)
Definition check_repo_digest_conflicts (roots : list InstallInfo) (axes : Visibility) : result Error unit :=
  match conflicts_with [] (surface_closure roots axes) with
  | (repository, identifiers) :: _ => Err (DigestConflict repository identifiers)
  | [] => Ok tt
  end.

(** ** The composition *)

(** Step 1 for a root: the visible dependencies not emitted before, each with the axes it
    was emitted on. *)
Local Abbreviation VisibleEntry := (PinnedPackageRef * Visibility)%type.
Fixpoint visible_entries (root_keys : gset PinnedPackageRef) (axes : Visibility) (deps : list ResolvedDependency) (seen : Emitted)
    (admitted : list PinnedPackageRef) : list VisibleEntry * Emitted * list PinnedPackageRef :=
  match deps with
  | [] => ([], seen, admitted)
  | tc_entry :: rest =>
      let key := strip_advisory (rd_identifier tc_entry) in
      if bool_decide (key ∈ root_keys) then visible_entries root_keys axes rest seen admitted
      else if negb (on_axes (rd_visibility tc_entry) axes) then visible_entries root_keys axes rest seen admitted
      else
        let done_ := default SEALED (seen !! key) in
        if has_interface done_ then visible_entries root_keys axes rest seen admitted
        else
          let seen := <[key := merge done_ INTERFACE]> seen in
          let admitted := if bool_decide (done_ = SEALED) then (admitted ++ [rd_identifier tc_entry])%list else admitted in
          let '(visible, seen, admitted) := visible_entries root_keys axes rest seen admitted in
          ((rd_identifier tc_entry, done_) :: visible, seen, admitted)
  end.

(** Step 3: a loaded dependency emits. *)
Definition emit_dependency (paths : ComposePaths) (axes : Visibility) (collect_integrations : bool) (content_state : ContentState)
    (out : ComposeOutput) (item : Loaded * Visibility) : outcome Error ComposeOutput :=
  let '(meta, dep_resolved, dep_id, done_) := item in
  let dep_pkg := install_path_for paths (package_path store dep_id) DigestLane in
  let dep_content := content_dir dep_pkg in
  let binaries := if carrier_crosses_on BINARIES_VISIBILITY false axes && negb (on_axes BINARIES_VISIBILITY done_)
                  then map (pair dep_id) (default [] (md_binaries meta)) else [] in
  let entrypoints := if carrier_crosses_on ENTRYPOINTS_VISIBILITY false axes
                     then map (pair dep_id) (entrypoint_names (md_entrypoints meta)) else [] in
  let contexts := build_dep_context_map meta dep_resolved store paths in
  let^ integrations := if collect_integrations
                       then outcome_map_err PackageFailed
                              (integrations_resolve (with_usage (resolver_new (path_text dep_content) contexts) INTEGRATION_TOKENS) (md_integrations meta))
                       else Some (Ok []) in
  let^ entries := outcome_map_err PackageFailed
                    (emit_dep_path_block meta dep_pkg dep_content contexts axes done_ content_state (co_entries out)) in
  Some (Ok (mkOutput entries (co_admitted out) (co_admitted_binaries out ++ binaries) (co_admitted_entrypoints out ++ entrypoints)
              (co_admitted_integrations out ++ map (pair dep_id) integrations)))%list.
Fixpoint emit_dependencies (paths : ComposePaths) (axes : Visibility) (collect_integrations : bool) (content_state : ContentState)
    (items : list (Loaded * Visibility)) (out : ComposeOutput) : outcome Error ComposeOutput :=
  match items with
  | [] => Some (Ok out)
  | item :: rest =>
      let^ out := emit_dependency paths axes collect_integrations content_state out item in
      emit_dependencies paths axes collect_integrations content_state rest out
  end.

(** The root itself, after its dependencies. *)
Definition emit_root (paths : ComposePaths) (axes : Visibility) (collect_integrations graft : bool) (content_state : ContentState)
    (root : InstallInfo) (seen : Emitted) (out : ComposeOutput) : outcome Error (ComposeOutput * Emitted) :=
  let root_key := strip_advisory (ii_identifier root) in
  let done_ := default SEALED (seen !! root_key) in
  if negb graft && negb (bool_decide (done_ = SEALED)) then Some (Ok (out, seen))
  else
    let seen := <[root_key := merge done_ axes]> seen in
    let admitted := if bool_decide (done_ = SEALED) then (co_admitted out ++ [ii_identifier root])%list else co_admitted out in
    let meta := ii_metadata root in
    let binaries := if crosses_anew BINARIES_VISIBILITY axes done_ then map (pair (ii_identifier root)) (default [] (md_binaries meta)) else [] in
    let entrypoints := if negb graft && carrier_crosses_on ENTRYPOINTS_VISIBILITY true axes
                       then map (pair (ii_identifier root)) (entrypoint_names (md_entrypoints meta)) else [] in
    let contexts := build_dep_context_map meta (ii_resolved root) store paths in
    let root_pkg := install_path_for paths (ii_dir root) Following in
    let root_content := content_dir root_pkg in
    let^ integrations := if collect_integrations && negb (has_interface done_)
                         then outcome_map_err PackageFailed
                                (integrations_resolve (with_usage (resolver_new (path_text root_content) contexts) INTEGRATION_TOKENS) (md_integrations meta))
                         else Some (Ok []) in
    let^ entries := outcome_map_err PackageFailed
                      (if graft
                       then emit_package_vars meta root_content contexts (fun visibility => crosses_anew visibility axes done_) content_state (co_entries out)
                       else emit_root_path_block meta root_pkg root_content contexts axes content_state (co_entries out ++ emit_shim_slot root axes)%list) in
    Some (Ok (mkOutput entries admitted (co_admitted_binaries out ++ binaries) (co_admitted_entrypoints out ++ entrypoints)
                (co_admitted_integrations out ++ map (pair (ii_identifier root)) integrations), seen))%list.

(** One turn of the loop over the roots. *)
Definition compose_root (schedule : nat -> nat) (root_keys : gset PinnedPackageRef) (paths : ComposePaths) (axes : Visibility)
    (collect_integrations graft : bool) (root : InstallInfo) (acc : ComposeOutput * Emitted) : outcome Error (ComposeOutput * Emitted) :=
  let '(out, seen) := acc in
  let content_state := match ii_deferred root with Some _ => Deferred | None => Materialized end in
  let '(visible, seen, admitted) := visible_entries root_keys axes (rp_dependencies (ii_resolved root)) seen (co_admitted out) in
  let out := mkOutput (co_entries out) admitted (co_admitted_binaries out) (co_admitted_entrypoints out) (co_admitted_integrations out) in
  let tasks := imap (fun idx v => (idx, v.1)) visible in
  let^ loaded := join_loads schedule (length tasks) root tasks (replicate (length visible) None) in
  let^ out := emit_dependencies paths axes collect_integrations content_state (zip (omap id loaded) (map snd visible)) out in
  emit_root paths axes collect_integrations graft content_state root seen out.
Fixpoint compose_each_root (schedule : nat -> nat) (root_keys : gset PinnedPackageRef) (paths : ComposePaths) (axes : Visibility)
    (collect_integrations graft : bool) (roots : list InstallInfo) (acc : ComposeOutput * Emitted) : outcome Error (ComposeOutput * Emitted) :=
  match roots with
  | [] => Some (Ok acc)
  | root :: rest =>
      let^ acc := compose_root schedule root_keys paths axes collect_integrations graft root acc in
      compose_each_root schedule root_keys paths axes collect_integrations graft rest acc
  end.

(** [compose_gated], [compose], [compose_companion]; the second component is what was
    emitted, which a companion hands back on success only. *)
Definition compose_gated (schedule : nat -> nat) (roots : list InstallInfo) (axes : Visibility) (collect_integrations : bool) (role : RootRole) :
    outcome Error (ComposeOutput * Emitted) :=
  let^ _ := if (1 <? length roots)%nat then Some (check_entrypoints roots) else Some (Ok tt) in
  let^ _ := Some (check_repo_digest_conflicts roots axes) in
  let '(paths, seen, graft) := match role with
                               | RolePackage paths => (paths, ∅, false)
                               | RoleGraft emitted => (digest_only, emitted, true)
                               end in
  let root_keys := list_to_set (map (fun r => strip_advisory (ii_identifier r)) roots) in
  compose_each_root schedule root_keys paths axes collect_integrations graft roots (mkOutput [] [] [] [] [], seen).
Definition compose (schedule : nat -> nat) (roots : list InstallInfo) (self_view : bool) (paths : ComposePaths) : outcome Error ComposeOutput :=
  let^ done_ := compose_gated schedule roots (surface_axes self_view) (integrations_cross self_view) (RolePackage paths) in
  Some (Ok done_.1).
Definition compose_companion (schedule : nat -> nat) (companion : InstallInfo) (axes : Visibility) (collect_integrations : bool) (emitted : Emitted) :
    outcome Error ComposeOutput * Emitted :=
  match compose_gated schedule [companion] axes collect_integrations (RoleGraft emitted) with
  | Some (Ok (out, attempt)) => (Some (Ok out), attempt)
  | Some (Err e) => (Some (Err e), emitted)
  | None => (None, emitted)
  end.
End Compose.
