(* ===== verification/GateSpec.v ===== *)
(** * A published package resolves

    What the publish gate promises the composer: the tokens of a package that passed it
    have their values when the package is composed, whatever the surface and the state of
    the store. *)

From stdpp Require Import base decidable list option numbers strings gmap.
From Stdlib Require Import Lia Ascii.
From S2P Require Import Prelude OMap Text TextSearch Digest PackageRef Store Closure Metadata Template EnvVars.
From S2P Require Import PublishGate Compose TemplateSpec.
Local Open Scope ocx_scope.
Local Open Scope string_scope.

(** ** The dependency names *)

Lemma name_map_domain deps name : is_Some ((build_name_and_collision_maps deps).1 !! name) <-> In name (map dependency_name deps).
Proof.
  unfold build_name_and_collision_maps. induction deps as [|d deps IH] using rev_ind; [split; [intros [? E]; discriminate E|done]|].
  rewrite fold_left_app, map_app, in_app_iff. cbn [fold_left map In]. destruct (fold_left add_name deps (∅, ∅)) as [names collisions].
  cbn [add_name fst] in *. destruct (decide (dependency_name d = name)) as [<-|Hne].
  - rewrite lookup_insert_eq. naive_solver.
  - rewrite lookup_insert_ne by done. naive_solver.
Qed.

Lemma context_map_domain md resolved store paths name :
  is_Some (build_dep_context_map md resolved store paths !! name) <-> In name (map dependency_name (md_dependencies md)).
Proof.
  unfold build_dep_context_map. generalize (md_dependencies md) as deps. intros deps.
  induction deps as [|d deps IH] using rev_ind; [split; [intros [? E]; discriminate E|done]|].
  rewrite fold_left_app, map_app, in_app_iff. cbn [fold_left map In]. destruct (decide (dependency_name d = name)) as [<-|Hne].
  - rewrite lookup_insert_eq. naive_solver.
  - rewrite lookup_insert_ne by done. rewrite IH. naive_solver.
Qed.

(** ** One value *)

(** What composing may still refuse: a dependency that is not on disk, a value past its
    bound, a required path that is missing, a list value its own separator edges. *)
Definition late_template (e : TemplateError) : bool :=
  match e with DependencyNotInstalled _ _ | ResolvedValueTooLarge _ => true | _ => false end.
Definition late_failure (e : MetadataError) : bool :=
  match e with
  | EnvVarInterpolation _ source => late_template source
  | RequiredPathMissing _ | SeparatorEdgedListValue _ _ _ => true
  | _ => false
  end.

Section Gate.
Context `{Diagnostics} `{Machine}.

(** The scope of the gate has the keys of the scope the values are resolved in. *)
Definition same_scope (gate : SelfEnvScope string) (scope : SelfEnvScope Entry) : Prop :=
  scope_ok gate /\ scope_ok scope /\ sc_declared gate = map en_key (sc_declared scope).

Lemma same_scope_new : same_scope scope_new scope_new.
Proof. split; [apply scope_new_ok|]. split; [apply scope_new_ok|done]. Qed.

Lemma same_scope_push gate scope key entry : en_key entry = key -> same_scope gate scope ->
  same_scope (scope_push gate key) (scope_push scope entry).
Proof.
  intros <- (H1 & H2 & H3). split; [by apply scope_push_ok|]. split; [by apply scope_push_ok|].
  cbn [scope_push sc_declared]. by rewrite H3, map_app.
Qed.

Lemma declarations_keys key (entries : list Entry) : declarations key (map en_key entries) = map en_key (declarations key entries).
Proof.
  unfold declarations. induction entries as [|e entries IH]; [done|]. cbn [map List.filter].
  change (declared_key (en_key e)) with (en_key e). change (declared_key e) with (en_key e). destruct (String.eqb (en_key e) key); by rewrite IH.
Qed.

Lemma gate_lookup gate scope key k : same_scope gate scope -> scope_lookup gate key = Some (Ok k) ->
  exists entry, scope_lookup scope key = Some (Ok entry).
Proof.
  intros (H1 & H2 & H3). rewrite !scope_lookup_ok by done. rewrite H3, declarations_keys.
  destruct (declarations key (sc_declared scope)) as [|e [|f l]]; [done|by exists e|done].
Qed.

(** The value of a token that the gate let pass. *)
Definition soft {E A : Type} (p : E -> bool) (o : option (result E A)) : Prop :=
  match o with Some (Ok _) => True | Some (Err e) => p e = true | None => False end.

Definition environment_resolver (install_path : string) (contexts : gmap string DependencyContext) (scope : SelfEnvScope Entry) :=
  with_self_env (resolver_new install_path contexts) scope.

Lemma segments_soft md resolved store paths install_path gate scope chk segs : forall acc,
  same_scope gate scope ->
  check_segments (build_name_and_collision_maps (md_dependencies md)) gate segs = Some (Ok tt) ->
  soft late_template (resolve_segments (environment_resolver install_path (build_dep_context_map md resolved store paths) scope) chk segs acc).
Proof.
  induction segs as [|[text at_|token] segs IH]; intros acc Hs Hc; [done| |]; rewrite resolve_segments_cons; cbn [check_segments] in Hc.
  { cbn [segment_value mbind option_bind]. destruct (_ <? _)%nat; [done|]. by apply IH. }
  destruct (check_token_reference token _ _) as [[]|] eqn:Hr; [|done]. cbn [outcome_bind] in Hc.
  assert (forall v, soft late_template (piece ← Some (Ok v);
    match piece with
    | Err e => Some (Err e)
    | Ok text => if (MAX_RESOLVED_VALUE_BYTES <? String.length (acc +:+ text))%nat
                 then Some (Err (ResolvedValueTooLarge MAX_RESOLVED_VALUE_BYTES))
                 else resolve_segments (environment_resolver install_path (build_dep_context_map md resolved store paths) scope) chk segs (acc +:+ text)
    end) \/ check_segments (build_name_and_collision_maps (md_dependencies md)) gate segs <> Some (Ok tt)) as Hnext.
  { intros v. destruct (check_segments _ gate segs) as [[[]|]|] eqn:E; [|by right..]. left. cbn [mbind option_bind].
    destruct (_ <? _)%nat; [done|]. by apply IH. }
  unfold segment_value, substitute, check_token_reference in *. destruct (tk_shape token) as [|key|name].
  - cbn [mbind option_bind outcome_bind result_bind] in Hc |- *. by destruct (Hnext (render (content_directory_string install_path)
      (default Native (tk_modifier token)) host_current)).
  - destruct (scope_lookup gate key) as [[k|]|] eqn:El; [|done..]. cbn [outcome_bind] in Hc.
    destruct (gate_lookup gate scope key k Hs El) as [entry He]. unfold lookup_self_env. cbn [tr_self_env with_self_env environment_resolver].
    rewrite He. cbn [mbind option_bind result_bind]. by destruct (Hnext (render (en_value entry) (default Native (tk_modifier token)) host_current)).
  - cbn [outcome_bind] in Hc. cbn [tr_dep_contexts with_self_env environment_resolver resolver_new].
    assert (is_Some (build_dep_context_map md resolved store paths !! name)) as [context Hcx].
    { apply context_map_domain, name_map_domain. revert Hr. by destruct ((build_name_and_collision_maps _).1 !! name). }
    rewrite Hcx. destruct (chk && _); [done|]. cbn [mbind option_bind result_bind].
    by destruct (Hnext (render (content_directory_string (context_install_path context)) (default Native (tk_modifier token)) host_current)).
Qed.

Lemma environment_permits segs : first_disallowed_token segs (allowed_of Environment) = None.
Proof. induction segs as [|[text at_|token] segs IH]; [done|done|]. cbn. by destruct (tk_shape token). Qed.

Lemma value_soft md resolved store paths install_path gate scope chk value :
  same_scope gate scope ->
  (let^ segments := Some (scan_template value) in
   check_segments (build_name_and_collision_maps (md_dependencies md)) gate segments) = Some (Ok tt) ->
  soft late_template (resolve_inner (environment_resolver install_path (build_dep_context_map md resolved store paths) scope) value chk).
Proof.
  intros Hs. unfold resolve_inner. destruct (scan_template value) as [segs|]; [|done]. cbn [outcome_bind]. intros Hc.
  cbn [tr_allowed environment_resolver with_self_env resolver_new]. rewrite environment_permits. by eapply segments_soft.
Qed.

(** ** The variables of a package *)

Lemma resolve_var_soft self var scope emit value :
  var_value var = Some value ->
  soft late_template (resolve_inner (environment_resolver (er_install_path self) (er_dep_contexts self) scope) value emit) ->
  match resolve_var_inner self var scope emit with
  | Some (Ok (Some entry)) => en_key entry = var_key var
  | Some (Ok None) => False
  | Some (Err e) => late_failure e = true
  | None => False
  end.
Proof.
  intros Hv Hsoft. unfold resolve_var_inner. rewrite Hv. fold (environment_resolver (er_install_path self) (er_dep_contexts self) scope).
  assert ((if emit then resolve (environment_resolver (er_install_path self) (er_dep_contexts self) scope) value
           else resolve_without_existence_checks (environment_resolver (er_install_path self) (er_dep_contexts self) scope) value) =
          resolve_inner (environment_resolver (er_install_path self) (er_dep_contexts self) scope) value emit) as -> by (by destruct emit).
  destruct (resolve_inner _ value emit) as [[v|e]|]; [| |done]; cbn [mbind option_bind soft] in *.
  2: { unfold var_value in Hv. destruct (var_modifier var); simpl; try done. }
  assert (exists kind, modifier_kind (var_modifier var) = Some kind) as [kind ->].
  { unfold var_value in Hv. destruct (var_modifier var); [by eexists..|done]. }
  cbn [mbind option_bind result_map_err result_bind]. destruct (path_value self (var_modifier var) emit v) as [w|e] eqn:Ep; cbn [result_bind].
  - destruct (list_separator var emit w) as [sep|e] eqn:El; cbn [result_bind]; [done|]. unfold list_separator in El.
    destruct (var_modifier var); [done..| |done]. destruct (_ && _); [|done]. by injection El as <-.
  - unfold path_value in Ep. destruct (var_modifier var); [|done..]. destruct (_ && _); [|done]. by injection Ep as <-.
Qed.

Lemma emit_vars_cons self crosses var rest scope entries :
  emit_vars self crosses (var :: rest) scope entries =
  let^ resolved := resolve_var_inner self var scope (crosses (var_visibility var)) in
  match resolved with
  | None => emit_vars self crosses rest scope entries
  | Some entry => emit_vars self crosses rest (scope_push scope entry) (if crosses (var_visibility var) then entries ++ [entry] else entries)%list
  end.
Proof. cbn [emit_vars]. by destruct (crosses (var_visibility var)). Qed.

Lemma vars_soft md resolved store paths content cs crosses env : forall gate scope entries,
  same_scope gate scope ->
  check_vars (build_name_and_collision_maps (md_dependencies md)) gate env = Some (Ok tt) ->
  soft late_failure (emit_vars (mkEnvResolver content (build_dep_context_map md resolved store paths) cs) crosses env scope entries).
Proof.
  induction env as [|var env IH]; intros gate scope entries Hs Hc; [done|]. cbn [check_vars] in Hc.
  rewrite emit_vars_cons. destruct (var_value var) as [value|] eqn:Hv.
  2: { unfold resolve_var_inner. rewrite Hv. cbn [outcome_bind]. by eapply IH. }
  destruct (let^ segments := Some (scan_template value) in _) as [[[]|]|] eqn:Hseg; [|done..].
  cbn [outcome_map_err fmap option_fmap option_map result_map_err outcome_bind] in Hc.
  pose proof (resolve_var_soft (mkEnvResolver content (build_dep_context_map md resolved store paths) cs) var scope
    (crosses (var_visibility var)) value Hv (value_soft md resolved store paths content gate scope _ value Hs Hseg)) as Hr.
  destruct (resolve_var_inner _ var scope _) as [[[entry|]|e]|]; [|done|done|done]. cbn [outcome_bind].
  eapply IH; [|exact Hc]. by apply same_scope_push.
Qed.

(** C14: A package whose tokens passed the publish gate composes on every surface, with every
    closure it was resolved to: its variables get their values, or the composition is
    refused for what the gate cannot see, never for a token. *)
Theorem publish_gate_sound md resolved store paths content crosses cs entries :
  validate_env_tokens md = Some (Ok tt) ->
  match emit_package_vars md content (build_dep_context_map md resolved store paths) crosses cs entries with
  | Some (Ok _) => True
  | Some (Err e) => late_failure e = true
  | None => False
  end.
Proof. intros Hv. eapply (vars_soft _ _ _ _ _ _ _ _ scope_new); [apply same_scope_new|exact Hv]. Qed.
End Gate.
