(* ===== verification/ComposeSpec.v ===== *)
(** * What a composition contains

    The packages a composition admits and their order of arrival, the variables it may
    show, its refusal of one repository at two digests, and its independence of the order
    in which the loads end. *)

From stdpp Require Import base decidable list option numbers strings gmap.
From Stdlib Require Import Lia Ascii.
From S2P Require Import Prelude OMap Text TextSearch Digest PackageRef Store Closure Metadata Template EnvVars.
From S2P Require Import PublishGate Compose TemplateSpec GateSpec.
Local Open Scope ocx_scope.
Local Open Scope string_scope.

(** ** One repository, one digest *)

(** What the map holds of the candidates it has seen. *)
Record digests_of (candidates : list PinnedPackageRef) (m : RepositoryDigests) : Prop := {
  do_wf : om_wf m;
  do_rows : forall r ids, om_get r m = Some ids ->
    (forall id, In id ids -> In id candidates /\ repository_of id = r) /\ List.NoDup (map pp_digest ids);
  do_seen : forall id, In id candidates -> exists ids, om_get (repository_of id) m = Some ids /\ In (pp_digest id) (map pp_digest ids);
}.

Definition with_digest (seen : list PinnedPackageRef) (id : PinnedPackageRef) : list PinnedPackageRef :=
  if existsb (fun existing => bool_decide (pp_digest existing = pp_digest id)) seen then seen else (seen ++ [id])%list.

Lemma touch_get m id r :
  om_get r (touch [] m id) =
  if ord_eqb r (repository_of id) then Some (with_digest (default [] (om_get (repository_of id) m)) id) else om_get r m.
Proof.
  unfold touch, record_repo_identifier, with_digest.
  assert (default [] (om_get (repository_of id) (om_or_insert (repository_of id) (default [] (om_get (repository_of id) [])) m)) =
          default [] (om_get (repository_of id) m)) as ->.
  { unfold om_or_insert. destruct (om_get (repository_of id) m) as [ids|] eqn:E; [by rewrite E|]. by rewrite om_get_insert_eq. }
  assert (forall v, om_get r (om_insert (repository_of id) v (om_or_insert (repository_of id) (default [] (om_get (repository_of id) [])) m)) =
          if ord_eqb r (repository_of id) then Some v else om_get r m) as Hget.
  { intros v. rewrite om_get_insert. destruct (ord_eqb r (repository_of id)) eqn:E; [done|]. unfold om_or_insert.
    destruct (om_get (repository_of id) m); [done|]. by rewrite om_get_insert, E. }
  destruct (existsb _ _); apply Hget.
Qed.

Lemma touch_wf m id : om_wf m -> om_wf (touch [] m id).
Proof. intros Hm. unfold touch, record_repo_identifier. destruct (existsb _ _); by apply om_insert_wf, om_or_insert_wf. Qed.

Lemma with_digest_spec seen id : List.NoDup (map pp_digest seen) ->
  List.NoDup (map pp_digest (with_digest seen id)) /\ In (pp_digest id) (map pp_digest (with_digest seen id)) /\
  (forall x, In x (with_digest seen id) -> In x seen \/ x = id) /\ (forall d, In d (map pp_digest seen) -> In d (map pp_digest (with_digest seen id))).
Proof.
  intros Hnd. unfold with_digest. destruct (existsb _ seen) eqn:E.
  - apply existsb_exists in E as (x & Hx & Ex%bool_decide_eq_true). split; [done|]. split; [|naive_solver]. rewrite <- Ex. by apply in_map.
  - rewrite map_app. split.
    + apply NoDup_ListNoDup, NoDup_app. split; [by apply NoDup_ListNoDup|]. split; [|apply NoDup_singleton].
      intros d Hd ->%list_elem_of_singleton. apply list_elem_of_In, in_map_iff in Hd as (x & Ex & Hx). apply not_true_iff_false in E.
      apply E, existsb_exists. exists x. split; [done|]. by apply bool_decide_eq_true.
    + split; [apply in_app_iff; right; by left|]. split; [|intros d Hd; apply in_app_iff; by left].
      intros x [Hx|[<-|[]]]%in_app_or; [by left|by right].
Qed.

Lemma touch_digests candidates m id : digests_of candidates m -> digests_of (candidates ++ [id])%list (touch [] m id).
Proof.
  intros [Hwf Hrows Hseen]. set (old := default [] (om_get (repository_of id) m)).
  assert (List.NoDup (map pp_digest old) /\ forall x, In x old -> In x candidates /\ repository_of x = repository_of id) as [Hnd Hold].
  { unfold old. destruct (om_get (repository_of id) m) as [ids|] eqn:E; [|split; [constructor|done]]. destruct (Hrows _ _ E). split; [done|]. auto. }
  destruct (with_digest_spec old id Hnd) as (W1 & W2 & W3 & W4). split; [by apply touch_wf| |].
  - intros r ids. rewrite touch_get. destruct (ord_eqb r (repository_of id)) eqn:E.
    + to_prop. intros [= <-]. split; [|done]. intros x [Hx| ->]%W3.
      * destruct (Hold x Hx). split; [apply in_app_iff; by left|done].
      * split; [apply in_app_iff; right; by left|done].
    + intros H%Hrows. destruct H as [H1 H2]. split; [|done]. intros x Hx. destruct (H1 x Hx). split; [apply in_app_iff; by left|done].
  - intros x Hx. rewrite touch_get. destruct (ord_eqb (repository_of x) (repository_of id)) eqn:E.
    + eexists. split; [done|]. apply in_app_or in Hx as [Hx|[<-|[]]]; [|done]. apply W4. apply ord_eqb_eq in E.
      destruct (Hseen x Hx) as (ids & Hids & Hin). unfold old. by rewrite <- E, Hids.
    + apply in_app_or in Hx as [Hx|[<-|[]]]; [by apply Hseen|]. by rewrite ord_eqb_refl in E.
Qed.

Lemma fold_digests candidates : digests_of candidates (fold_left (touch []) candidates []).
Proof.
  induction candidates as [|id candidates IH] using rev_ind; [split; [constructor|done|done]|].
  rewrite fold_left_app. by apply touch_digests.
Qed.

(** A composition is refused for a digest conflict exactly if two packages of its surface
    closure are of one repository and of different digests. *)
Theorem digest_conflicts_exact {LoadErr : Type} roots axes :
  check_repo_digest_conflicts (LoadErr := LoadErr) roots axes = Ok tt <->
  forall a b, In a (surface_closure roots axes) -> In b (surface_closure roots axes) ->
    repository_of a = repository_of b -> pp_digest a = pp_digest b.
Proof.
  unfold check_repo_digest_conflicts, conflicts_with. set (m := fold_left (touch []) (surface_closure roots axes) []).
  destruct (fold_digests (surface_closure roots axes)) as [Hwf Hrows Hseen]. fold m in Hwf, Hrows, Hseen.
  destruct (List.filter _ m) as [|[r ids] rows] eqn:E.
  - split; [|done]. intros _ a b Ha Hb Hr. destruct (Hseen a Ha) as (ids & Hids & Hda). destruct (Hseen b Hb) as (ids' & Hids' & Hdb).
    rewrite <- Hr, Hids in Hids'. injection Hids' as <-.
    assert (~ In (repository_of a, ids) (List.filter (fun row => (2 <=? length row.2)%nat) m)) as Hno by (rewrite E; by intros []).
    rewrite filter_In in Hno. apply (om_get_In _ _ _ Hwf) in Hids. simpl in Hno.
    destruct ids as [|x [|y ids]]; [done| |by destruct Hno]. destruct Hda as [<-|[]], Hdb as [<-|[]]. done.
  - split; [done|]. intros Hall. exfalso.
    assert (In (r, ids) (List.filter (fun row => (2 <=? length row.2)%nat) m)) as Hin by (rewrite E; by left).
    apply filter_In in Hin as [Hin Hlen]. apply (om_get_In _ _ _ Hwf) in Hin. destruct (Hrows r ids Hin) as [Hids Hnd]. simpl in Hlen.
    destruct ids as [|x [|y ids]]; [done|done|]. destruct (Hids x) as [Hx Rx]; [by left|]. destruct (Hids y) as [Hy Ry]; [right; by left|].
    inversion Hnd as [|? ? Hn _]. apply Hn. left. symmetry. apply Hall; [done|done|congruence].
Qed.

(** ** The variables of a package *)

Section Emission.
Context `{Diagnostics} `{Machine}.

Lemma resolve_var_key self var scope emit entry : resolve_var_inner self var scope emit = Some (Ok (Some entry)) ->
  en_key entry = var_key var /\ is_Some (var_value var).
Proof.
  unfold resolve_var_inner. destruct (var_value var) as [value|]; [|done]. destruct (if emit then _ else _) as [r|]; [|done]. cbn [mbind option_bind].
  destruct (modifier_kind (var_modifier var)) as [kind|]; [|done]. cbn [mbind option_bind]. destruct (result_map_err _ r) as [v|]; [|done].
  cbn [result_bind]. destruct (path_value self _ emit v) as [w|]; [|done]. cbn [result_bind].
  destruct (list_separator var emit w); [|done]. cbn [result_bind]. by intros [= <-].
Qed.

Lemma resolve_var_none self var scope emit : resolve_var_inner self var scope emit = Some (Ok None) -> var_value var = None.
Proof.
  unfold resolve_var_inner. destruct (var_value var) as [value|]; [|done]. destruct (if emit then _ else _) as [r|]; [|done]. cbn [mbind option_bind].
  destruct (modifier_kind (var_modifier var)) as [kind|]; [|done]. cbn [mbind option_bind]. destruct (result_map_err _ r) as [v|]; [|done].
  cbn [result_bind]. destruct (path_value self _ emit v) as [w|]; [|done]. cbn [result_bind]. by destruct (list_separator var emit w).
Qed.

(** The variables that reach a surface. *)
Definition crossing_vars (crosses : Visibility -> bool) (env : list Var) : list Var :=
  List.filter (fun var => crosses (var_visibility var) && bool_decide (is_Some (var_value var))) env.

Lemma emit_vars_keys self crosses env : forall scope entries entries',
  emit_vars self crosses env scope entries = Some (Ok entries') ->
  exists new, entries' = (entries ++ new)%list /\ map en_key new = map var_key (crossing_vars crosses env).
Proof.
  induction env as [|var env IH]; intros scope entries entries'.
  { cbn [emit_vars]. intros [= <-]. exists []. by rewrite app_nil_r. }
  rewrite emit_vars_cons. unfold crossing_vars in *. cbn [List.filter].
  destruct (resolve_var_inner self var scope _) as [[[entry|]|]|] eqn:E; [| |done|done]; cbn [outcome_bind]; intros Hr.
  - apply resolve_var_key in E as [Hk Hv]. rewrite (bool_decide_eq_true_2 _ Hv), andb_true_r. apply IH in Hr as (new & -> & Hnew).
    destruct (crosses (var_visibility var)); [|by exists new]. exists (entry :: new). rewrite <- app_assoc. split; [done|].
    cbn [map]. by rewrite Hk, Hnew.
  - apply resolve_var_none in E. rewrite E, andb_false_r. by apply IH in Hr.
Qed.

(** A package's block is the entries of its crossing variables, in the order they are
    declared. *)
Lemma emit_package_keys md content contexts crosses cs entries entries' :
  emit_package_vars md content contexts crosses cs entries = Some (Ok entries') ->
  exists new, entries' = (entries ++ new)%list /\ map en_key new = map var_key (crossing_vars crosses (md_env md)).
Proof. apply emit_vars_keys. Qed.
End Emission.

(** ** The loads *)

Section Loads.
Context `{Diagnostics} `{Machine} `{PayloadText} {LoadErr : Type} `{ObjectFiles LoadErr}.
Variable store : FileStructure.

(** The loads one after the other. *)
Fixpoint load_all (root : InstallInfo) (ids : list PinnedPackageRef) : result (ComposeError LoadErr) (list (Metadata * ResolvedPackage * PinnedPackageRef)) :=
  match ids with
  | [] => Ok []
  | id :: rest =>
      let? data := tc_entry_object_data store root id in
      let? loaded := load_all root rest in
      Ok ((data.1, data.2, id) :: loaded)
  end.

(** What the join set leaves: the slots of its tasks filled, or the error of one of them. *)
Lemma join_loads_spec schedule root fuel : forall tasks loaded,
  (length tasks <= fuel)%nat -> List.NoDup (map fst tasks) ->
  match join_loads store schedule fuel root tasks loaded with
  | Some (Ok out) =>
      length out = length loaded /\ (forall i, ~ In i (map fst tasks) -> out !! i = loaded !! i) /\
      (forall i id, In (i, id) tasks -> (i < length loaded)%nat ->
         exists data, tc_entry_object_data store root id = Ok data /\ out !! i = Some (Some (data.1, data.2, id)))
  | Some (Err e) => exists task, In task tasks /\ tc_entry_object_data store root task.2 = Err e
  | None => False
  end.
Proof.
  induction fuel as [|fuel IH]; intros tasks loaded Hn Hnd; (destruct tasks as [|t tasks]; [cbn [join_loads]; naive_solver|]); [simpl in Hn; lia|].
  cbn [join_loads]. set (all := t :: tasks) in *. set (position := (schedule fuel `mod` length all)%nat).
  assert (position < length all)%nat as Hpos by (apply Nat.mod_upper_bound; unfold all; simpl; lia).
  destruct (lookup_lt_is_Some_2 all position Hpos) as [task Htask]. rewrite Htask. cbn [outcome_bind].
  pose proof (list_elem_of_lookup_2 _ _ _ Htask) as Hel. apply list_elem_of_In in Hel.
  destruct (tc_entry_object_data store root task.2) as [data|e] eqn:Ed; cbn [outcome_bind]; [|by exists task].
  pose proof (delete_Permutation all position task Htask) as Hperm.
  assert (List.NoDup (map fst (task :: delete position all))) as Hnd'.
  { eapply Permutation_NoDup; [|exact Hnd]. by apply Permutation_map. }
  cbn [map] in Hnd'. inversion Hnd' as [|? ? Hnot Hnd'']. subst.
  specialize (IH (delete position all) (<[task.1:=Some (data.1, data.2, task.2)]> loaded)).
  destruct (join_loads _ _ _ _ _ _) as [[out|e]|].
  - destruct IH as (L1 & L2 & L3); [rewrite length_delete by done; simpl in *; lia|done|]. rewrite length_insert in L1. split; [done|]. split.
    + intros i Hi. rewrite L2.
      * apply list_lookup_insert_ne. intros <-. apply Hi. by apply in_map.
      * intros Hin. apply Hi. rewrite in_map_iff in Hin |- *. destruct Hin as (x & Ex & Hx). exists x. split; [done|].
        eapply Permutation_in; [by symmetry|]. by right.
    + intros i id Hin Hi. apply (Permutation_in _ Hperm) in Hin as [E|Hin].
      * subst task. exists data. split; [done|]. cbn [fst snd] in *. rewrite L2 by done. by apply list_lookup_insert_eq.
      * apply L3; [done|]. by rewrite length_insert.
  - destruct IH as (x & Hx & Ex); [rewrite length_delete by done; simpl in *; lia|done|]. exists x. split; [|done].
    eapply Permutation_in; [by symmetry|]. by right.
  - by apply IH; [rewrite length_delete by done; simpl in *; lia|].
Qed.

Lemma load_all_Ok root ids ls : load_all root ids = Ok ls <->
  Forall2 (fun id l => exists data, tc_entry_object_data store root id = Ok data /\ l = (data.1, data.2, id)) ids ls.
Proof.
  revert ls. induction ids as [|id ids IH]; intros ls; cbn [load_all].
  - split; [intros [= <-]; constructor|]. by intros ->%Forall2_nil_inv_l.
  - destruct (tc_entry_object_data store root id) as [data|e] eqn:Ed; cbn [result_bind].
    + destruct (load_all root ids) as [rest|e]; cbn [result_bind].
      * split.
        -- intros [= <-]. constructor; [by exists data|]. by apply IH.
        -- intros (l & ls' & (d & Hd & ->) & Hrest%IH & ->)%Forall2_cons_inv_l. injection Hrest as ->. rewrite Ed in Hd. by injection Hd as ->.
      * split; [done|]. intros (l & ls' & _ & Hrest%IH & ->)%Forall2_cons_inv_l. done.
    + split; [done|]. intros (l & ls' & (d & Hd & ->) & _ & ->)%Forall2_cons_inv_l. by rewrite Ed in Hd.
Qed.

Lemma imap_fst {A B : Type} (f : A -> B) (l : list A) : forall n, map fst (imap (fun i a => ((n + i)%nat, f a)) l) = seq n (length l).
Proof.
  induction l as [|a l IH]; intros n; [done|]. cbn [imap map fst length seq]. rewrite Nat.add_0_r. f_equal.
  rewrite <- (IH (S n)). f_equal. apply imap_ext. intros i x _. cbn. f_equal. lia.
Qed.

(** The slots, in order, are what loading one after the other gives. *)
Lemma join_visible schedule root (visible : list (PinnedPackageRef * Visibility)) :
  let tasks := imap (fun idx v => (idx, v.1)) visible in
  match join_loads store schedule (length tasks) root tasks (replicate (length visible) None) with
  | Some (Ok out) => exists ls, load_all root (map fst visible) = Ok ls /\ out = map Some ls
  | Some (Err e) => exists id, In id (map fst visible) /\ tc_entry_object_data store root id = Err e
  | None => False
  end.
Proof.
  intros tasks.
  assert (map fst tasks = seq 0 (length visible)) as Hseq by (apply (imap_fst fst visible 0)).
  pose proof (join_loads_spec schedule root (length tasks) tasks (replicate (length visible) None) ltac:(done)) as Hspec.
  rewrite Hseq in Hspec. specialize (Hspec (seq_NoDup _ _)). destruct (join_loads _ _ _ _ _ _) as [[out|e]|]; [| |done].
  - destruct Hspec as (L1 & _ & L3). rewrite length_replicate in L1, L3.
    assert (Forall2 (fun id o => exists data, tc_entry_object_data store root id = Ok data /\ o = Some (data.1, data.2, id)) (map fst visible) out) as Hall.
    { apply Forall2_same_length_lookup_2; [by rewrite length_map|]. intros i id o Hid Ho.
      change (map fst visible) with (fst <$> visible) in Hid. rewrite list_lookup_fmap in Hid.
      destruct (visible !! i) as [v|] eqn:Ev; [|done]. injection Hid as <-.
      destruct (L3 i v.1) as (data & Hd & Hout).
      - apply list_elem_of_In, list_elem_of_lookup_2 with i. unfold tasks. by rewrite list_lookup_imap, Ev.
      - by eapply lookup_lt_Some.
      - exists data. split; [done|]. congruence. }
    clear -Hall. revert out Hall. induction (map fst visible) as [|id ids IH]; intros out Hall.
    + apply Forall2_nil_inv_l in Hall as ->. by exists [].
    + apply Forall2_cons_inv_l in Hall as (o & out' & (data & Hd & ->) & Hall & ->). destruct (IH out' Hall) as (ls & Hls & ->).
      exists ((data.1, data.2, id) :: ls). cbn [load_all]. by rewrite Hd, Hls.
  - destruct Hspec as (task & Hin & Herr). exists task.2. split; [|done]. apply list_elem_of_In, list_elem_of_lookup in Hin as [i Hi].
    unfold tasks in Hi. rewrite list_lookup_imap in Hi. destruct (visible !! i) as [v|] eqn:Ev; [|done]. injection Hi as <-. cbn [snd] in Herr |- *.
    apply (in_map fst). by eapply list_elem_of_In, list_elem_of_lookup_2.
Qed.

Lemma join_visible_Ok schedule root (visible : list (PinnedPackageRef * Visibility)) ls : load_all root (map fst visible) = Ok ls ->
  let tasks := imap (fun idx v => (idx, v.1)) visible in
  join_loads store schedule (length tasks) root tasks (replicate (length visible) None) = Some (Ok (map Some ls)).
Proof.
  intros Hls tasks. pose proof (join_visible schedule root visible) as Hj. cbv zeta in Hj. fold tasks in Hj.
  destruct (join_loads _ _ _ _ _ _) as [[out|e]|]; [| |done].
  - destruct Hj as (ls' & Hls' & ->). congruence.
  - exfalso. destruct Hj as (id & Hin & Herr). apply load_all_Ok in Hls. apply list_elem_of_In in Hin.
    destruct (list_elem_of_lookup_1 _ _ Hin) as [i Hi]. destruct (Forall2_lookup_l _ _ _ _ _ Hls Hi) as (l & _ & data & Hd & _). by rewrite Herr in Hd.
Qed.

(** ** Independence of the schedule *)

Lemma compose_root_schedule s1 s2 keys paths axes collect graft root acc out :
  compose_root store s1 keys paths axes collect graft root acc = Some (Ok out) ->
  compose_root store s2 keys paths axes collect graft root acc = Some (Ok out).
Proof.
  unfold compose_root. destruct acc as [o seen]. destruct (visible_entries _ _ _ _ _) as [[visible seen'] admitted]. cbv zeta.
  pose proof (join_visible s1 root visible) as Hj. cbv zeta in Hj. destruct (join_loads store s1 _ _ _ _) as [[l|]|]; [|done..].
  destruct Hj as (ls & Hls & ->). by rewrite (join_visible_Ok s2 root visible ls Hls).
Qed.

Lemma compose_roots_schedule s1 s2 keys paths axes collect graft roots : forall acc out,
  compose_each_root store s1 keys paths axes collect graft roots acc = Some (Ok out) ->
  compose_each_root store s2 keys paths axes collect graft roots acc = Some (Ok out).
Proof.
  induction roots as [|root roots IH]; intros acc out; [done|]. cbn [compose_each_root].
  destruct (compose_root store s1 _ _ _ _ _ root acc) as [[acc'|]|] eqn:E; [|done..].
  rewrite (compose_root_schedule s1 s2 _ _ _ _ _ _ _ _ E). cbn [outcome_bind]. apply IH.
Qed.

(** The order in which the concurrent loads end has no influence: a composition that
    succeeds under one schedule gives the same output under every other. *)
Theorem compose_schedule_free s1 s2 roots self_view paths out :
  compose store s1 roots self_view paths = Some (Ok out) -> compose store s2 roots self_view paths = Some (Ok out).
Proof.
  unfold compose, compose_gated. destruct (if (1 <? length roots)%nat then _ else _) as [[[]|]|]; [|done..]. cbn [outcome_bind].
  destruct (check_repo_digest_conflicts _ _) as [[]|]; [|done]. cbn [outcome_bind].
  destruct (compose_each_root store s1 _ _ _ _ _ _ _) as [[done_|]|] eqn:E; [|done..].
  by rewrite (compose_roots_schedule s1 s2 _ _ _ _ _ _ _ _ E).
Qed.

(** ** The packages *)

(** What was emitted is what was admitted, each package once; a dependency on its
    interface. *)
Record tracked (keys : gset PinnedPackageRef) (seen : Emitted) (admitted : list PinnedPackageRef) : Prop := {
  tr_axes : forall key v, seen !! key = Some v -> v <> SEALED /\ (key ∉ keys -> has_interface v = true);
  tr_dom : forall key, is_Some (seen !! key) <-> In key (map strip_advisory admitted);
  tr_once : List.NoDup (map strip_advisory admitted);
}.

Lemma tracked_add keys seen admitted id v : tracked keys seen admitted -> seen !! strip_advisory id = None ->
  v <> SEALED -> (strip_advisory id ∉ keys -> has_interface v = true) ->
  tracked keys (<[strip_advisory id := v]> seen) (admitted ++ [id])%list.
Proof.
  intros [Ha Hd Ho] Hnone Hv Hi. split.
  - intros key w. destruct (decide (strip_advisory id = key)) as [<-|Hne].
    + rewrite lookup_insert_eq. by intros [= <-].
    + rewrite lookup_insert_ne by done. apply Ha.
  - intros key. rewrite map_app, in_app_iff, <- Hd. cbn [map In]. destruct (decide (strip_advisory id = key)) as [<-|Hne].
    + rewrite lookup_insert_eq. naive_solver.
    + rewrite lookup_insert_ne by done. naive_solver.
  - rewrite map_app. apply NoDup_ListNoDup, NoDup_app. split; [by apply NoDup_ListNoDup|]. split; [|apply NoDup_singleton].
    intros key Hin ->%list_elem_of_singleton. apply list_elem_of_In, Hd in Hin. rewrite Hnone in Hin. by destruct Hin.
Qed.

(** The dependencies of a list that a surface shows. *)
Definition shows_dependency (keys : gset PinnedPackageRef) (axes : Visibility) (deps : list ResolvedDependency) (key : PinnedPackageRef) : Prop :=
  exists dep, In dep deps /\ on_axes (rd_visibility dep) axes = true /\ key = strip_advisory (rd_identifier dep) /\ key ∉ keys.

Lemma visible_spec keys axes deps : forall seen admitted visible seen' admitted',
  tracked keys seen admitted -> visible_entries keys axes deps seen admitted = (visible, seen', admitted') ->
  tracked keys seen' admitted' /\ admitted' = (admitted ++ map fst visible)%list /\
  (forall v, In v visible -> v.2 = SEALED /\ exists dep, In dep deps /\ rd_identifier dep = v.1 /\ on_axes (rd_visibility dep) axes = true) /\
  (forall key, In key (map strip_advisory admitted') <-> In key (map strip_advisory admitted) \/ shows_dependency keys axes deps key).
Proof.
  induction deps as [|dep deps IH]; intros seen admitted visible seen' admitted' Ht; cbn [visible_entries].
  { intros [= <- <- <-]. rewrite app_nil_r. split; [done|]. split; [done|]. split; [done|]. unfold shows_dependency. naive_solver. }
  set (key := strip_advisory (rd_identifier dep)).
  assert (forall v s a, visible_entries keys axes deps seen admitted = (v, s, a) ->
    (on_axes (rd_visibility dep) axes = true -> key ∉ keys -> In key (map strip_advisory admitted)) ->
    tracked keys s a /\ a = (admitted ++ map fst v)%list /\
    (forall x, In x v -> x.2 = SEALED /\ exists d, In d (dep :: deps) /\ rd_identifier d = x.1 /\ on_axes (rd_visibility d) axes = true) /\
    (forall k, In k (map strip_advisory a) <-> In k (map strip_advisory admitted) \/ shows_dependency keys axes (dep :: deps) k)) as Hskip.
  { intros v s a Hv Hin. destruct (IH _ _ _ _ _ Ht Hv) as (I1 & I2 & I3 & I4). split; [done|]. split; [done|]. split.
    - intros x Hx. destruct (I3 x Hx) as (? & d & ? & ?). split; [done|]. exists d. split; [by right|done].
    - intros k. rewrite I4. unfold shows_dependency. split; [naive_solver|]. intros [?|(d & [<-|Hd] & Ho & -> & Hk)]; [by left|left; by apply Hin|right; by exists d]. }
  destruct (bool_decide (key ∈ keys)) eqn:Ek; [apply bool_decide_eq_true in Ek; intros Hv; by apply Hskip|]. apply bool_decide_eq_false in Ek.
  destruct (on_axes (rd_visibility dep) axes) eqn:Eo; cbn [negb]; [|intros Hv; by apply Hskip].
  destruct (seen !! key) as [w|] eqn:Es; cbn [default].
  { destruct (tr_axes _ _ _ Ht key w Es) as [_ Hi]. cbn. rewrite (Hi Ek). intros Hv. apply Hskip; [done|]. intros _ _. apply (tr_dom _ _ _ Ht). by rewrite Es. }
  match goal with |- (if ?b then _ else _) = _ -> _ => change b with false end. cbv iota. change (from_option id SEALED None) with SEALED.
  rewrite bool_decide_eq_true_2 by done.
  destruct (visible_entries keys axes deps (<[key := merge SEALED INTERFACE]> seen) (admitted ++ [rd_identifier dep])%list) as [[v s] a] eqn:Hv. intros [= <- <- <-].
  assert (tracked keys (<[key := merge SEALED INTERFACE]> seen) (admitted ++ [rd_identifier dep])%list) as Ht' by (by apply tracked_add).
  destruct (IH _ _ _ _ _ Ht' Hv) as (I1 & -> & I3 & I4). split; [done|]. split; [by rewrite <- app_assoc|]. split.
  - intros x [<-|Hx]; [split; [done|]; exists dep; split; [by left|done]|]. destruct (I3 x Hx) as (? & d & ? & ?).
    split; [done|]. exists d. split; [by right|done].
  - intros k. rewrite I4, map_app, in_app_iff. unfold shows_dependency. cbn [map In]. split.
    + intros [[?|[<-|[]]]|(d & ? & ?)]; [by left| |].
      * right. exists dep. split; [by left|done].
      * right. exists d. split; [by right|done].
    + intros [?|(d & [<-|?] & ? & -> & ?)]; [naive_solver| |].
      * left. right. by left.
      * right. by exists d.
Qed.

(** ** Where an entry comes from *)

(** An entry for a variable of the metadata that crosses. *)
Definition shown_by (md : Metadata) (crosses : Visibility -> bool) (e : Entry) : Prop :=
  exists var, In var (md_env md) /\ crosses (var_visibility var) = true /\ en_key e = var_key var.

(** The entries a surface may have: a root's variables on the surface's axes, its launcher
    and shim directories; of a dependency that is on those axes, the variables of its
    interface and its launcher directory. *)
Inductive origin (paths : ComposePaths) (axes : Visibility) (roots : list InstallInfo) (e : Entry) : Prop :=
| FromRoot root : In root roots -> shown_by (ii_metadata root) (fun v => on_axes v axes) e -> origin paths axes roots e
| FromLaunchers root : In root roots -> has_interface axes = true ->
    e = synth_entrypoints_path_for (install_path_for paths (ii_dir root) Following) -> origin paths axes roots e
| FromShims root shim closure : In root roots -> has_interface axes = true ->
    ii_deferred root = Some (shim, closure) -> e = synth_shim_path_for shim -> origin paths axes roots e
| FromDependency root dep data : In root roots -> In dep (rp_dependencies (ii_resolved root)) ->
    on_axes (rd_visibility dep) axes = true -> tc_entry_object_data store root (rd_identifier dep) = Ok data ->
    (shown_by data.1 has_interface e \/ e = synth_entrypoints_path_for (package_path store (rd_identifier dep))) ->
    origin paths axes roots e.

Lemma emitted_shown md content contexts crosses cs entries entries' :
  emit_package_vars md content contexts crosses cs entries = Some (Ok entries') ->
  exists new, entries' = (entries ++ new)%list /\ forall e, In e new -> shown_by md crosses e.
Proof.
  intros (new & -> & Hk)%emit_package_keys. exists new. split; [done|]. intros e He.
  assert (In (en_key e) (map en_key new)) as Hin by (by apply in_map). rewrite Hk in Hin.
  apply in_map_iff in Hin as (var & Ek & Hv). unfold crossing_vars in Hv. apply filter_In in Hv as [Hv Hc].
  apply andb_true_iff in Hc as [Hc _]. by exists var.
Qed.

Lemma slot_In md pkg is_root axes e : In e (entrypoints_slot md pkg is_root axes) ->
  e = synth_entrypoints_path_for pkg /\ carrier_crosses_on ENTRYPOINTS_VISIBILITY is_root axes = true.
Proof. unfold entrypoints_slot. destruct (carrier_crosses_on _ _ _); [|done]. destruct (md_entrypoints md); [done|]. intros [<-|[]]. done. Qed.

Lemma emit_dependency_spec paths axes collect cs out meta res id done_ out' :
  emit_dependency (LoadErr := LoadErr) store paths axes collect cs out (meta, res, id, done_) = Some (Ok out') ->
  co_admitted out' = co_admitted out /\
  exists new, co_entries out' = (co_entries out ++ new)%list /\
    forall e, In e new -> shown_by meta has_interface e \/ e = synth_entrypoints_path_for (package_path store id).
Proof.
  unfold emit_dependency, emit_dep_path_block. destruct (if collect then _ else _) as [[ints|]|]; [|done..]. cbn [outcome_bind].
  destruct (emit_package_vars _ _ _ _ _ _) as [[entries|]|] eqn:E; [|done..]. cbn [outcome_bind outcome_map_err fmap option_fmap option_map result_map_err].
  intros [= <-]. split; [done|]. apply emitted_shown in E as (new & -> & Hnew). cbn [co_entries].
  eexists. rewrite <- app_assoc. split; [done|]. intros e [He|He]%in_app_or.
  - left. destruct (Hnew e He) as (var & Hv & Hc & Hk). exists var. split; [done|]. split; [|done]. by apply andb_true_iff in Hc as [Hc _].
  - right. by apply slot_In in He as [-> _].
Qed.

Lemma emit_dependencies_spec paths axes collect cs roots root items : forall out out',
  In root roots ->
  (forall item, In item items -> exists dep, In dep (rp_dependencies (ii_resolved root)) /\ rd_identifier dep = item.1.2 /\
     on_axes (rd_visibility dep) axes = true /\ tc_entry_object_data store root item.1.2 = Ok item.1.1) ->
  (forall e, In e (co_entries out) -> origin paths axes roots e) ->
  emit_dependencies (LoadErr := LoadErr) store paths axes collect cs items out = Some (Ok out') ->
  co_admitted out' = co_admitted out /\ forall e, In e (co_entries out') -> origin paths axes roots e.
Proof.
  induction items as [|[[[meta res] id] done_] items IH]; intros out out' Hroot Hitems Hout; cbn [emit_dependencies]; [by intros [= <-]|].
  destruct (emit_dependency _ _ _ _ _ _ _) as [[mid|]|] eqn:E; [|done..]. cbn [outcome_bind]. intros Hrest.
  apply emit_dependency_spec in E as (Ha & new & Hn & Hnew). destruct (Hitems _ ltac:(by left)) as (dep & D1 & D2 & D3 & D4). cbn [fst snd] in D2, D4. subst id.
  apply IH in Hrest as [-> He]; [by rewrite Ha|done|intros item Hi; apply Hitems; by right|].
  intros e. rewrite Hn, in_app_iff. intros [He|He]; [by apply Hout|]. eapply FromDependency; [done|done|done|exact D4|]. by apply Hnew.
Qed.

Lemma emit_root_spec paths axes collect cs roots root keys seen out out' seen' :
  In root roots -> strip_advisory (ii_identifier root) ∈ keys -> axes <> SEALED ->
  tracked keys seen (co_admitted out) -> (forall e, In e (co_entries out) -> origin paths axes roots e) ->
  emit_root (LoadErr := LoadErr) store paths axes collect false cs root seen out = Some (Ok (out', seen')) ->
  tracked keys seen' (co_admitted out') /\ (forall e, In e (co_entries out') -> origin paths axes roots e) /\
  (forall key, In key (map strip_advisory (co_admitted out')) <->
     In key (map strip_advisory (co_admitted out)) \/ key = strip_advisory (ii_identifier root)).
Proof.
  intros Hroot Hkey Haxes Ht Hout. unfold emit_root. cbn [negb andb]. set (key := strip_advisory (ii_identifier root)) in *.
  destruct (seen !! key) as [w|] eqn:Es.
  { destruct (tr_axes _ _ _ Ht key w Es) as [Hw _]. change (default SEALED (Some w)) with w. rewrite bool_decide_eq_false_2 by done. cbn [negb].
    intros [= <- <-]. split; [done|]. split; [done|]. intros k. split; [by left|]. intros [Hk| ->]; [done|]. apply (tr_dom _ _ _ Ht). by rewrite Es. }
  change (default SEALED None) with SEALED. rewrite bool_decide_eq_true_2 by done. cbn [negb]. cbv zeta.
  destruct (if collect && _ then _ else _) as [[ints|]|]; [|done..]. cbn [outcome_bind]. unfold emit_root_path_block.
  destruct (emit_package_vars _ _ _ _ _ _) as [[entries|]|] eqn:E; [|done..].
  cbn [outcome_bind outcome_map_err fmap option_fmap option_map result_map_err]. intros [= <- <-]. cbn [co_admitted co_entries].
  assert (merge SEALED axes = axes) as Hm by (by destruct axes as [[] []]). rewrite Hm. split; [by apply tracked_add|]. split.
  - apply emitted_shown in E as (new & -> & Hnew). intros e. rewrite !in_app_iff. intros [[[He|He]|He]|He]; [by apply Hout| | |].
    + unfold emit_shim_slot in He. destruct (carrier_crosses_on ENTRYPOINTS_VISIBILITY true axes) eqn:Ec; [|done]. cbn [negb] in He.
      destruct (ii_deferred root) as [[shim closure]|] eqn:Ed; [|done]. destruct He as [<-|[]].
      eapply FromShims; [done| |exact Ed|done]. by destruct axes as [[] []].
    + eapply FromRoot; [done|]. by apply Hnew.
    + apply slot_In in He as [-> Hc]. eapply FromLaunchers; [done| |done]. by destruct axes as [[] []].
  - intros k. rewrite map_app, in_app_iff. cbn [map In]. fold key. naive_solver.
Qed.

(** ** The whole composition *)

Lemma omap_Some {A : Type} (l : list A) : omap id (map Some l) = l.
Proof. induction l as [|a l IH]; [done|]. cbn. by rewrite IH. Qed.

(** What a stage of the composition has kept: the record of the packages, and that every
    entry has an origin. *)
Record composed (keys : gset PinnedPackageRef) (paths : ComposePaths) (axes : Visibility) (roots : list InstallInfo)
    (acc : ComposeOutput * Emitted) : Prop := {
  cp_tracked : tracked keys acc.2 (co_admitted acc.1);
  cp_origin : forall e, In e (co_entries acc.1) -> origin paths axes roots e;
}.

Lemma compose_root_spec schedule keys paths axes collect roots root acc acc' :
  In root roots -> strip_advisory (ii_identifier root) ∈ keys -> axes <> SEALED -> composed keys paths axes roots acc ->
  compose_root store schedule keys paths axes collect false root acc = Some (Ok acc') ->
  composed keys paths axes roots acc' /\
  forall key, In key (map strip_advisory (co_admitted acc'.1)) <->
    In key (map strip_advisory (co_admitted acc.1)) \/ shows_dependency keys axes (rp_dependencies (ii_resolved root)) key \/
    key = strip_advisory (ii_identifier root).
Proof.
  destruct acc as [out seen], acc' as [out' seen']. intros Hroot Hkey Haxes [Ht Ho]. cbn [fst snd] in *. unfold compose_root.
  destruct (visible_entries _ _ _ _ _) as [[visible seen1] admitted] eqn:Ev. cbv zeta.
  destruct (visible_spec _ _ _ _ _ _ _ _ Ht Ev) as (V1 & _ & V3 & V4).
  pose proof (join_visible schedule root visible) as Hj. cbv zeta in Hj. destruct (join_loads store schedule _ _ _ _) as [[l|]|]; [|done..].
  destruct Hj as (ls & Hls & ->). cbn [outcome_bind]. rewrite omap_Some. apply load_all_Ok in Hls.
  destruct (emit_dependencies _ _ _ _ _ _ _) as [[mid|]|] eqn:Ed; [|done..]. cbn [outcome_bind]. intros Hr.
  apply (emit_dependencies_spec paths axes collect _ roots root) in Ed as [Ha Hm]; [|done| |done].
  2: { intros [l d] Hin. apply list_elem_of_In, elem_of_zip_l in Hin. cbn [fst].
       destruct (list_elem_of_lookup_1 _ _ Hin) as [i Hi]. destruct (Forall2_lookup_r _ _ _ _ _ Hls Hi) as (id & Hid & data & Hd & ->). cbn [fst snd].
       apply list_elem_of_lookup_2, list_elem_of_In, in_map_iff in Hid as ([id' v] & <- & Hv). destruct (V3 _ Hv) as (_ & dep & D1 & D2 & D3).
       exists dep. cbn [fst] in *. split; [done|]. split; [done|]. split; [done|]. by destruct data. }
  cbn [co_admitted] in Ha.
  apply (emit_root_spec paths axes collect _ roots root keys) in Hr as (R1 & R2 & R3); [|done|done|done|by rewrite Ha|done].
  split; [by split|]. intros key. rewrite R3, Ha, V4. tauto.
Qed.

Lemma compose_roots_spec schedule keys paths axes collect roots todo : forall acc acc',
  (forall root, In root todo -> In root roots /\ strip_advisory (ii_identifier root) ∈ keys) -> axes <> SEALED ->
  composed keys paths axes roots acc -> compose_each_root store schedule keys paths axes collect false todo acc = Some (Ok acc') ->
  composed keys paths axes roots acc' /\
  forall key, In key (map strip_advisory (co_admitted acc'.1)) <->
    In key (map strip_advisory (co_admitted acc.1)) \/
    exists root, In root todo /\ (shows_dependency keys axes (rp_dependencies (ii_resolved root)) key \/ key = strip_advisory (ii_identifier root)).
Proof.
  induction todo as [|root todo IH]; intros acc acc' Htodo Haxes Hc; cbn [compose_each_root].
  { intros [= <-]. split; [done|]. naive_solver. }
  destruct (compose_root store schedule _ _ _ _ _ root acc) as [[mid|]|] eqn:E; [|done..]. cbn [outcome_bind]. intros Hrest.
  destruct (Htodo root ltac:(by left)) as [Hin Hkey].
  destruct (compose_root_spec _ _ _ _ _ roots _ _ _ Hin Hkey Haxes Hc E) as [Hm Hkeys].
  apply IH in Hrest as [Hc' Hkeys']; [|intros r Hr; apply Htodo; by right|done|done]. split; [done|].
  intros key. rewrite Hkeys', Hkeys. split.
  - intros [[?|?]|(r & ? & ?)]; [by left|right; exists root; split; [by left|done]|right; exists r; split; [by right|done]].
  - intros [?|(r & [<-|?] & ?)]; [by left; left|left; by right|right; by exists r].
Qed.

Lemma surface_axes_open self_view : surface_axes self_view <> SEALED.
Proof. by destruct self_view. Qed.

Lemma compose_Ok schedule roots self_view paths out : compose store schedule roots self_view paths = Some (Ok out) ->
  let axes := surface_axes self_view in
  let keys := list_to_set (map (fun r => strip_advisory (ii_identifier r)) roots) in
  exists seen, composed keys paths axes roots (out, seen) /\
    forall key, In key (map strip_advisory (co_admitted out)) <->
      exists root, In root roots /\ (shows_dependency keys axes (rp_dependencies (ii_resolved root)) key \/ key = strip_advisory (ii_identifier root)).
Proof.
  unfold compose, compose_gated. destruct (if (1 <? length roots)%nat then _ else _) as [[[]|]|]; [|done..]. cbn [outcome_bind].
  destruct (check_repo_digest_conflicts _ _) as [[]|]; [|done]. cbn [outcome_bind].
  destruct (compose_each_root store schedule _ _ _ _ _ _ _) as [[[out' seen]|]|] eqn:E; [|done..]. cbn [outcome_bind fst]. intros [= <-]. cbv zeta.
  apply (compose_roots_spec _ _ _ _ _ roots) in E as [Hc Hk].
  - exists seen. split; [done|]. intros key. cbn [fst] in Hk. rewrite Hk. cbn [co_admitted map]. naive_solver.
  - intros root Hr. split; [done|]. apply elem_of_list_to_set, list_elem_of_In. by apply (in_map (fun r => strip_advisory (ii_identifier r))).
  - apply surface_axes_open.
  - split; [|done]. cbn [fst snd co_admitted map]. split; [intros key v E'; by rewrite lookup_empty in E'| |constructor].
    intros key. rewrite lookup_empty. split; [by intros [? ?]|done].
Qed.

(** C16: A composition admits each package once: exactly its roots and the packages of their
    closures that are on the surface's axis. *)
Theorem compose_admits_exactly schedule roots self_view paths out :
  compose store schedule roots self_view paths = Some (Ok out) ->
  List.NoDup (map strip_advisory (co_admitted out)) /\
  forall key, In key (map strip_advisory (co_admitted out)) <->
    exists root, In root roots /\
      (key = strip_advisory (ii_identifier root) \/
       exists dep, In dep (rp_dependencies (ii_resolved root)) /\ on_axes (rd_visibility dep) (surface_axes self_view) = true /\
         key = strip_advisory (rd_identifier dep)).
Proof.
  intros (seen & [Ht _] & Hk)%compose_Ok. split; [apply (tr_once _ _ _ Ht)|]. intros key. rewrite Hk. unfold shows_dependency. split; [naive_solver|].
  intros (root & Hr & [->|(dep & D1 & D2 & ->)]); [naive_solver|].
  set (keys := list_to_set (map (fun r => strip_advisory (ii_identifier r)) roots) : gset PinnedPackageRef).
  destruct (decide (strip_advisory (rd_identifier dep) ∈ keys)) as [Hin|Hout]; [|naive_solver].
  apply elem_of_list_to_set, list_elem_of_In, in_map_iff in Hin as (root' & Er & Hr'). exists root'. split; [done|]. by right.
Qed.

(** C15: No variable of a package reaches a surface it is not visible on: each entry of a
    composition is a root's variable on the surface's axis, an interface variable of a
    dependency on that axis, or one of the launcher directories. *)
Theorem compose_no_leak schedule roots self_view paths out :
  compose store schedule roots self_view paths = Some (Ok out) ->
  forall e, In e (co_entries out) -> origin paths (surface_axes self_view) roots e.
Proof. intros (seen & [_ Ho] & _)%compose_Ok. exact Ho. Qed.
End Loads.
