(* ===== verification/SampleEnv.v ===== *)
(** * A sample environment

    A tool with a private and a public variable that read one another, and the library it
    depends on; the surfaces they compose to, and the theorems on templates, environments
    and compositions at these inputs. *)

From stdpp Require Import base decidable list option numbers strings gmap.
From Stdlib Require Import Lia Ascii.
From S2P Require Import Prelude OMap Text TextSearch Digest PackageRef Store Closure Metadata Template EnvVars.
From S2P Require Import PublishGate Compose TemplateSpec EnvVarsSpec GateSpec ComposeSpec.
Local Open Scope ocx_scope.
Local Open Scope string_scope.

(** ** A machine *)

#[export] Instance sample_diagnostics : Diagnostics := {|
  escape_debug := fun s => s;
  osa_distance := fun a b => if String.eqb a b then 0%nat else String.length b;
|}.
#[export] Instance sample_machine : Machine := {|
  host_current := Unix;
  simplified := fun p => p;
  path_exists := fun p => starts_with "/ocx/packages" p;
|}.
#[export] Instance sample_payload : PayloadText := {|
  payload_len := fun _ => Some 2%nat;
  key_len := fun s => Some (String.length s + 2)%nat;
  any_control := fun _ => false;
  any_invisible := fun _ => false;
  any_whitespace := str_mem " ";
|}.

(** ** Two packages *)

Definition sample_lib_id : PinnedPackageRef := mkPinned "ocx.sh" "lib" (Some "2") (DSha256 "22").
Definition sample_app_id : PinnedPackageRef := mkPinned "ocx.sh" "app" (Some "1") (DSha256 "11").
Definition sample_lib : Metadata := mkMetadata
  [mkVar "LIB_HOME" (MConstant "${installPath}") PUBLIC; mkVar "LIB_SECRET" (MConstant "$${token}") PRIVATE]
  [] [] None [].
Definition sample_app : Metadata := mkMetadata
  [mkVar "APP_BASE" (MConstant "${installPath}/share") PRIVATE;
   mkVar "APP_DATA" (MConstant "${self.env.APP_BASE}/data") PUBLIC;
   mkVar "PATH" (MPath true "${installPath:posix}/bin") PUBLIC;
   mkVar "APP_OPTS" (MList (Some ",") "lib=${deps.lib.installPath}") INTERFACE]
  [mkDependency sample_lib_id PUBLIC None] [("app", mkEntrypoint None [])] (Some ["app"]) [("dev.editor", JObject [("root", JString "${installPath}")])].

Definition sample_home : FileStructure := with_root ["/"; "ocx"].
#[export] Instance sample_objects : ObjectFiles unit := {|
  read_metadata := fun p => if bool_decide (p = content_dir (package_path sample_home sample_lib_id)) then Ok sample_lib else Err tt;
  read_resolved := fun p => Ok resolved_new;
|}.
Definition sample_root : InstallInfo :=
  mkInstallInfo sample_app_id sample_app (mkResolved [mkResolvedDependency sample_lib_id PUBLIC])
    (package_path sample_home sample_app_id) None.
Definition first_task : nat -> nat := fun _ => 0%nat.
Definition last_task : nat -> nat := fun n => n.

(** The consumer's view: the library's public variable, then the tool's, its launchers
    last; neither private variable. *)
Definition sample_output : ComposeOutput :=
  match compose sample_home first_task [sample_root] false digest_only with
  | Some (Ok out) => out
  | _ => mkOutput [] [] [] [] []
  end.
Example sample_output_keys : map (fun e => (en_key e, en_value e)) (co_entries sample_output) =
  [("LIB_HOME", "/ocx/packages/ocx.sh/sha256/22/content");
   ("APP_DATA", "/ocx/packages/ocx.sh/sha256/11/content/share/data");
   ("PATH", "/ocx/packages/ocx.sh/sha256/11/content/bin");
   ("APP_OPTS", "lib=/ocx/packages/ocx.sh/sha256/22/content");
   ("PATH", "/ocx/packages/ocx.sh/sha256/11/entrypoints")].
Proof. vm_compute. reflexivity. Qed.

(** ** The theorems at these inputs *)

Definition sample_tokens : TemplateText :=
  ("$x=${y}:", [((InstallPath, Some Posix), "/bin:"); ((Dep "lib", None), "${"); ((SelfEnv "HOME_1", None), "")]).
Lemma template_roundtrip_witness : valid_template sample_tokens = true /\
  print_template sample_tokens = "$x=$${y}:${installPath:posix}/bin:${deps.lib.installPath}$${${self.env.HOME_1}" /\
  exists segs, scan_template (print_template sample_tokens) = Ok segs /\ collapse segs = sample_tokens.
Proof.
  split; [vm_compute; reflexivity|]. split; [vm_compute; reflexivity|]. apply (template_roundtrip sample_tokens). vm_compute. reflexivity.
Defined.

(** A Windows host: [:posix] turns the separators of the install path. *)
Definition windows : Machine := {| host_current := Windows; simplified := fun p => p; path_exists := fun _ => true |}.
Definition windows_template : TemplateText := ("-I${", [((InstallPath, Some Posix), ";"); ((SelfEnv "BASE", None), "")]).
Definition windows_entry : Entry := Metadata.mkEntry "BASE" "C:\base" KConstant None.
Definition windows_resolver : TemplateResolver :=
  with_self_env (resolver_new "C:\ocx\app" ∅) (scope_from_iter [windows_entry]).

Lemma resolve_printed_exact_witness :
  print_template windows_template = "-I$${${installPath:posix};${self.env.BASE}" /\
  @resolve_inner _ windows windows_resolver (print_template windows_template) false = Some (Ok "-I${C:/ocx/app;C:\base").
Proof.
  split; [vm_compute; reflexivity|].
  apply (proj1 (@resolve_printed_exact _ windows windows_resolver [windows_entry] false windows_template eq_refl eq_refl)). split.
  - intros key [<-|[<-|[]]]; reflexivity.
  - exists ["C:/ocx/app"; "C:\base"]. split; [|split; [vm_compute; reflexivity|apply Nat.leb_le; vm_compute; reflexivity]].
    constructor; [|constructor; [|constructor]].
    + constructor. intros i. do 11 (destruct i as [|i]; [reflexivity|]). reflexivity.
    + apply (tv_self _ _ _ [] windows_entry []); [reflexivity|]. intros other [].
Defined.

Lemma scan_reassembles_witness : exists segs, scan_template "a$${b}${installPath}${" = Ok segs /\ length segs = 5%nat /\
  reassemble 0 segs = "a$${b}${installPath}${".
Proof.
  eexists. split; [vm_compute; reflexivity|]. split; [reflexivity|]. apply (scan_reassembles "a$${b}${installPath}${"). vm_compute. reflexivity.
Defined.

Lemma append_unique_reference_witness : append_unique "a,a,b,a" "a" "," = Some "b,a" /\
  append_unique "a,a,b,a" "a" (String "," "") = Some (append_reference "," "a,a,b,a" "a").
Proof. split; [vm_compute; reflexivity|]. apply (proj2 (append_unique_reference "a,a,b,a" "a")); [discriminate|reflexivity]. Defined.

(** A value that holds its separator is cut out of its neighbours when it is appended a
    second time. *)
Example append_unique_overlap :
  append_unique "x a b" "a b a" " " = Some "x a b a b a" /\ append_unique "x a b a b a" "a b a" " " = Some "x b a a b a".
Proof. split; vm_compute; reflexivity. Qed.

Definition sample_discipline (key : string) : Discipline :=
  if String.eqb key "PATH" then PathKey else if String.eqb key "APP_OPTS" then ListKey "," else ConstantKey.
Definition sample_ambient : Env := mkEnv (<["PATH" := "/usr/bin::/bin"]> (<["APP_OPTS" := "lib=/old"]> ∅)) "".
Lemma apply_entries_idempotent_witness :
  exists env', apply_entries sample_ambient (co_entries sample_output) = Some env' /\
    env_get env' "PATH" = Some "/ocx/packages/ocx.sh/sha256/11/entrypoints:/ocx/packages/ocx.sh/sha256/11/content/bin:/usr/bin:/bin" /\
    apply_entries env' (co_entries sample_output) = Some env'.
Proof.
  destruct (apply_entries_idempotent sample_discipline sample_ambient (co_entries sample_output)) as (env' & H1 & H2).
  - apply List.Forall_forall. intros e He. vm_compute in He. repeat destruct He as [<-|He]; try (vm_compute; reflexivity). destruct He.
  - intros key c. unfold sample_discipline. destruct (String.eqb_spec key "PATH") as [|_]; [discriminate|].
    destruct (String.eqb_spec key "APP_OPTS") as [->|_]; [|discriminate]. intros [= <-]. right. vm_compute. intros [H|[]]. discriminate H.
  - exists env'. split; [exact H1|]. split; [|exact H2]. vm_compute in H1. injection H1 as <-. vm_compute. reflexivity.
Defined.

Definition sample_lists : list Entry := [mkEntry "OPTS" "a" KList None; mkEntry "OPTS" "b" KList (Some ","); mkEntry "HOME" "/h" KConstant None].
Lemma reconcile_agrees_witness : exists es', reconcile_list_separators sample_lists = Ok es' /\
  map entry_separator es' = [","; ","; " "] /\ map en_key es' = ["OPTS"; "OPTS"; "HOME"].
Proof.
  eexists. split; [vm_compute; reflexivity|]. split; [reflexivity|].
  apply (reconcile_agrees sample_lists). vm_compute. reflexivity.
Defined.

(** A codec that knows one document. *)
Definition sample_forwarded : list Entry := [mkEntry "OPTS" "a" KList None; mkEntry "HOME" "/h" KConstant None].
Definition sample_members : list (string * Json) := [("entries", JArray (map encode_entry sample_forwarded))].
Definition document_json : JsonText := {|
  json_to_string := fun j => match j with JObject [(name, JArray [a; b])] =>
      match as_object a, as_object b with
      | Some [(k1, JString v1); (k2, JString v2); (k3, JString v3); (k4, JString v4)], Some [(l1, JString w1); (l2, JString w2); (l3, JString w3)] =>
          if bool_decide ([name; k1; v1; k2; v2; k3; v3; k4; v4; l1; w1; l2; w2; l3; w3] =
                          ["entries"; "key"; "OPTS"; "separator"; " "; "type"; "list"; "value"; "a";
                           "key"; "HOME"; "type"; "constant"; "value"; "/h"]) then Some "doc" else None
      | _, _ => None
      end
    | _ => None end;
  json_object_from_str := fun s => if String.eqb s "doc" then Some sample_members else None;
|}.

Lemma document_roundtrip members raw :
  json_to_string (JsonText := document_json) (JObject members) = Some raw -> json_object_from_str (JsonText := document_json) raw = Some members.
Proof.
  cbn. destruct members as [|[name [| | | |[|a [|b [|? ?]]]|]] [|? ?]]; try discriminate.
  destruct a as [| | | | |ma], b as [| | | | |mb]; cbn; repeat (case_match; try discriminate);
    intros [= <-]; try discriminate.
  match goal with H : bool_decide _ = true |- _ => apply bool_decide_eq_true in H; simplify_eq end. reflexivity.
Qed.

Lemma forwarded_roundtrip_witness :
  forwarded_env (H := document_json) (Some "doc") = Ok [mkEntry "OPTS" "a" KList (Some " "); mkEntry "HOME" "/h" KConstant None].
Proof.
  apply (forwarded_roundtrip (H := document_json) document_roundtrip sample_forwarded "doc").
  - apply List.Forall_forall. intros e [<-|[<-|[]]]; vm_compute; reflexivity.
  - vm_compute. reflexivity.
Defined.

Lemma forwarded_gate_witness : exists es, forwarded_env (H := document_json) (Some "doc") = Ok es /\ es <> [] /\
  Forall (fun e => forwardable e = true) es.
Proof.
  eexists. split; [vm_compute; reflexivity|]. split; [discriminate|]. apply (forwarded_gate (H := document_json) (Some "doc")). vm_compute. reflexivity.
Defined.

Lemma publish_gate_sound_witness : validate_for_publish sample_app = Some (Ok sample_app) /\
  match emit_package_vars sample_app ["/"; "away"] (build_dep_context_map sample_app resolved_new (with_root ["/"; "gone"]) digest_only)
          (fun _ => true) Materialized [] with
  | Some (Ok _) => True
  | Some (Err e) => late_failure e = true
  | None => False
  end.
Proof.
  split; [vm_compute; reflexivity|].
  apply (publish_gate_sound sample_app resolved_new (with_root ["/"; "gone"]) digest_only ["/"; "away"] (fun _ => true) Materialized []).
  vm_compute. reflexivity.
Defined.

Lemma compose_schedule_free_witness :
  compose sample_home first_task [sample_root] false digest_only = Some (Ok sample_output) /\
  compose sample_home last_task [sample_root] false digest_only = Some (Ok sample_output).
Proof.
  split; [vm_compute; reflexivity|].
  refine (compose_schedule_free sample_home first_task last_task [sample_root] false digest_only sample_output _). vm_compute. reflexivity.
Defined.

Lemma compose_admits_exactly_witness : co_admitted sample_output = [sample_lib_id; sample_app_id] /\
  List.NoDup (map strip_advisory (co_admitted sample_output)).
Proof.
  split; [vm_compute; reflexivity|].
  refine (proj1 (compose_admits_exactly sample_home first_task [sample_root] false digest_only sample_output _)). vm_compute. reflexivity.
Defined.

Lemma compose_no_leak_witness : exists e, In e (co_entries sample_output) /\ en_key e = "LIB_HOME" /\
  origin sample_home digest_only INTERFACE [sample_root] e.
Proof.
  exists (mkEntry "LIB_HOME" "/ocx/packages/ocx.sh/sha256/22/content" KConstant None).
  assert (In (mkEntry "LIB_HOME" "/ocx/packages/ocx.sh/sha256/22/content" KConstant None) (co_entries sample_output)) as Hin
    by (vm_compute; left; reflexivity).
  split; [exact Hin|]. split; [reflexivity|].
  refine (compose_no_leak sample_home first_task [sample_root] false digest_only sample_output _ _ Hin). vm_compute. reflexivity.
Defined.
