(* ===== verification/Reconcile.v ===== *)
(** * The prompt's reconciler

    [crates/ocx_shell/src/shell/reconcile.rs] with [reconcile/ledger.rs] and
    [reconcile/plan.rs], the producers of a prompt in
    [crates/ocx_package_manager/src/activation.rs] and the statements it emits
    ([crates/ocx_cli/src/command/self_group/activate.rs]): before every prompt the shell's
    variables are brought from what the last prompt recorded to what the current directory
    wants.  Names and paths are those of a Unix host; the texts of the shells' statements
    are not modelled, their contracts are in [ReconcileSpec.v]. *)

From stdpp Require Import base decidable list option numbers strings gmap.
From Stdlib Require Import Lia Ascii.
From S2P Require Import Prelude OMap Text TextSearch Digest PackageRef Store Closure Metadata Template EnvVars.
Local Open Scope ocx_scope.
Local Open Scope string_scope.

(** ** Equality of elements and keys *)

(** [unquote], [element_eq], [element_norm], [key_eq], [key_norm], [is_never_constant],
    [effective_separator]. *)
Definition NEVER_CONSTANT : list string := ["PATH"; "PATHEXT"].
Definition unquote (value : string) : string :=
  let quote := String "034" "" in
  default value (inner ← strip_prefix quote value; strip_suffix quote inner).
Definition element_eq (left_ right_ : string) (kind : ModifierKind) : bool :=
  match kind with
  | KList => String.eqb left_ right_
  | KPath | KConstant => String.eqb (unquote left_) (unquote right_)
  end.
Definition element_norm (value : string) (kind : ModifierKind) : string :=
  match kind with KList => value | KPath | KConstant => unquote value end.
Definition key_eq (left_ right_ : string) : bool := String.eqb left_ right_.
Definition key_norm (key : string) : string := key.
Definition is_never_constant (key : string) : bool := existsb (key_eq key) NEVER_CONSTANT.
Definition effective_separator (entry : Entry) : string := default DEFAULT_SEPARATOR (en_separator entry).

(** ** The ledger *)

(** [LedgerEntry], [ScopeId], [HookVerdict], [Prior], [ProjectScope], [Scopes], [Ledger]. *)
Record LedgerEntry : Type := mkRecorded { le_key : string; le_value : string; le_kind : ModifierKind; le_separator : option string }.
Definition recorded_entry (entry : Entry) : LedgerEntry :=
  mkRecorded (en_key entry) (en_value entry) (en_kind entry)
    (match en_kind entry with KList => Some (effective_separator entry) | KPath | KConstant => None end).
Inductive ScopeId : Type := Global | Project.
Inductive HookVerdict : Type := VActivate | VInert | VNoProject.
Inductive Prior : Type := Unset | Value (value : string).
#[export] Instance ScopeId_eq_dec : EqDecision ScopeId.
Proof. solve_decision. Defined.
#[export] Instance LedgerEntry_eq_dec : EqDecision LedgerEntry.
Proof. solve_decision. Defined.
Abbreviation Applied := (list LedgerEntry).
Abbreviation Priors := (gmap string Prior).
Record ProjectScope : Type := mkProjectScope { ps_key : string; ps_dir : string; ps_applied : Applied; ps_priors : Priors }.
Record Scopes : Type := mkScopes { sc_global : option Applied; sc_global_priors : Priors; sc_project : option ProjectScope }.
Record Ledger : Type := mkLedger {
  lg_v : nat;
  lg_fp : string;
  lg_verdict : option HookVerdict;
  lg_tiers : list string;
  lg_ws : string;
  lg_messages_fp : string;
  lg_over_cap : list ScopeId;
  lg_scopes : Scopes;
}.
Definition LEDGER_VERSION : nat := 1.
Definition MAX_CARRIER_BYTES : nat := 16 * 1024.
Definition MAX_RECORDED_TIERS : nat := 8.
Definition ENCODER_TAG : string := "1".
Definition CARRIER_KEY : string := "__OCX_ENV_STATE".
Definition no_scopes : Scopes := mkScopes None ∅ None.
Definition ledger_empty : Ledger := mkLedger LEDGER_VERSION "" None [] "" "" [] no_scopes.

(** [discard_forged_path_constants]. *)
Definition forged (entry : LedgerEntry) : bool := bool_decide (le_kind entry = KConstant) && is_never_constant (le_key entry).
Definition retain_applied (applied : Applied) : Applied := List.filter (fun entry => negb (forged entry)) applied.
Definition retain_priors (priors : Priors) : Priors := filter (fun kp => is_never_constant kp.1 = false) priors.
Definition discard_forged_path_constants (ledger : Ledger) : Ledger :=
  let scopes := lg_scopes ledger in
  mkLedger (lg_v ledger) (lg_fp ledger) (lg_verdict ledger) (lg_tiers ledger) (lg_ws ledger) (lg_messages_fp ledger) (lg_over_cap ledger)
    (mkScopes (retain_applied <$> sc_global scopes) (retain_priors (sc_global_priors scopes))
       ((fun project => mkProjectScope (ps_key project) (ps_dir project) (retain_applied (ps_applied project))
                          (retain_priors (ps_priors project))) <$> sc_project scopes)).

(** [dropped_scopes]. *)
Definition dropped_scopes (ledger : Ledger) : list ScopeId :=
  ((if bool_decide (is_Some (sc_global (lg_scopes ledger))) || bool_decide (Global ∈ lg_over_cap ledger) then [Global] else []) ++
   (if bool_decide (is_Some (sc_project (lg_scopes ledger))) || bool_decide (Project ∈ lg_over_cap ledger) then [Project] else []))%list.

(** [serde_json] on a ledger, base64url without padding and the digest of messages are
    libraries. *)
Class CarrierText : Type := {
  ledger_to_vec : Ledger -> option string;
  ledger_from_slice : string -> option Ledger;
  base64_encode : string -> string;
  base64_decode : string -> option string;
  messages_digest : list string -> string;
}.

Section Carrier.
Context `{CarrierText}.

(** [envelope], [Ledger::encode], [Ledger::decode]. *)
Definition envelope (ledger : Ledger) : option string :=
  json ← ledger_to_vec ledger; Some (ENCODER_TAG +:+ "." +:+ base64_encode json).
Definition marker_of (ledger : Ledger) : Ledger :=
  mkLedger (lg_v ledger) (lg_fp ledger) (lg_verdict ledger) (lg_tiers ledger) (lg_ws ledger) (lg_messages_fp ledger)
    (dropped_scopes ledger) no_scopes.
Definition ledger_encode (ledger : Ledger) : option string :=
  full ← envelope ledger;
  if (String.length full <=? MAX_CARRIER_BYTES)%nat then Some full
  else
    encoded ← envelope (marker_of ledger);
    if (String.length encoded <=? MAX_CARRIER_BYTES)%nat then Some encoded else None.
Definition ledger_decode (raw : string) : option Ledger :=
  if (MAX_CARRIER_BYTES <? String.length raw)%nat then None
  else
    match split_once "." raw with
    | None => None
    | Some (tag, payload) =>
        if negb (String.eqb tag ENCODER_TAG) then None
        else
          bytes ← base64_decode payload;
          ledger ← ledger_from_slice bytes;
          if negb (lg_v ledger =? LEDGER_VERSION)%nat then None
          else
            let ledger := mkLedger (lg_v ledger) (lg_fp ledger) (lg_verdict ledger) (firstn MAX_RECORDED_TIERS (lg_tiers ledger))
                            (lg_ws ledger) (lg_messages_fp ledger) (lg_over_cap ledger) (lg_scopes ledger) in
            Some (discard_forged_path_constants ledger)
    end.
End Carrier.

(** [applied_in_emission_order], [global_owns], [prior]. *)
Definition global_applied (ledger : Ledger) : Applied := default [] (sc_global (lg_scopes ledger)).
Definition project_applied (ledger : Ledger) : Applied := default [] (ps_applied <$> sc_project (lg_scopes ledger)).
Definition applied_in_emission_order (ledger : Ledger) : list LedgerEntry := (global_applied ledger ++ project_applied ledger)%list.
Definition global_owns (ledger : Ledger) (key : string) (prior : Prior) : bool :=
  match prior with
  | Unset => false
  | Value value =>
      existsb (fun entry => bool_decide (le_kind entry = KConstant) && key_eq (le_key entry) key &&
                            element_eq (le_value entry) value KConstant) (global_applied ledger)
  end.
Definition ledger_prior (ledger : Ledger) (key : string) : option Prior :=
  let global := sc_global_priors (lg_scopes ledger) !! key in
  match project ← sc_project (lg_scopes ledger); ps_priors project !! key with
  | None => global
  | Some project => if global_owns ledger key project then Some (default project global) else Some project
  end.

(** ** The plan *)

(** [Plan]; a removal is its key, its element and the separator that names its kind. *)
Definition PLAN_VERSION : nat := 1.
Definition Removal : Type := (string * string * option string)%type.
Record Plan : Type := mkPlan { pl_v : nat; pl_sets : list Entry; pl_removes : list Removal; pl_restores : list (string * option string) }.

(** [shell::is_emittable], [admits], [emittable]. *)
Definition is_emittable (entry : Entry) : result string unit :=
  let element := negb (bool_decide (en_kind entry = KConstant)) in
  if negb (is_valid_env_key (en_key entry)) then Err "not a valid environment-variable name"
  else if bool_decide (en_kind entry = KPath) && str_mem PATH_SEPARATOR (en_value entry)
  then Err "a path value may not embed the platform path separator"
  else if element && String.eqb (en_value entry) "" then Err "an empty element cannot be emitted or removed"
  else if element && (str_mem newline (en_value entry) || str_mem carriage_return (en_value entry))
  then Err "an element may not contain a line break"
  else Ok tt.
Definition admits (entry : Entry) : result string unit :=
  if bool_decide (en_kind entry = KConstant) && is_never_constant (en_key entry)
  then Err "PATH and PATHEXT are never constant-kind" else is_emittable entry.
Definition emittable (desired : list Entry) : list Entry := List.filter (fun entry => is_ok (admits entry)) desired.

(** [declared_index], [recorded_index], [contributed_elements]. *)
#[export] Instance text_ord : TotalOrd string := ord_of_lawful String.compare lawful_string.
Definition declared_index (entries : list Entry) : list (string * Entry) :=
  fold_left (fun m entry => om_insert (key_norm (en_key entry)) entry m) entries [].
Definition recorded_index (ledger : Ledger) : list (string * LedgerEntry) :=
  fold_left (fun m entry => om_insert (key_norm (le_key entry)) entry m) (applied_in_emission_order ledger) [].
Definition contributed_elements (entries : list Entry) : gset (string * string) :=
  list_to_set (map (fun entry => (key_norm (en_key entry), element_norm (en_value entry) (en_kind entry)))
                 (List.filter (fun entry => negb (bool_decide (en_kind entry = KConstant))) entries)).

(** [path_segment_eq], [path_segments_eq], [value_settled]; two paths are equal by their
    components, [.] and repeated separators left out. *)
Definition path_components (path : string) : list string :=
  let parts := List.filter (fun part => negb (String.eqb part "")) (split_char "/" path) in
  let normal := List.filter (fun part => negb (String.eqb part ".")) in
  if starts_with "/" path then "/" :: normal parts
  else match parts with [] => [] | first :: rest => first :: normal rest end.
Definition path_segment_eq (left_ right_ : string) : bool :=
  bool_decide (path_components left_ = path_components right_) || element_eq left_ right_ KPath.
Fixpoint segments_eq (left_ right_ : list string) : bool :=
  match left_, right_ with
  | [], [] => true
  | l :: left_, r :: right_ => path_segment_eq l r && segments_eq left_ right_
  | _, _ => false
  end.
Definition path_segments_eq (left_ right_ : string) : bool := segments_eq (split_paths left_) (split_paths right_).
Definition value_settled (folded live : option string) (kind : ModifierKind) : bool :=
  match folded, live with
  | None, None => true
  | None, Some _ | Some _, None => false
  | Some folded, Some live =>
      match kind with KPath => path_segments_eq folded live | KList | KConstant => String.eqb folded live end
  end.

(** [settled_keys]: the candidates with their kinds, the constants, the fold tried on a
    copy. *)
Definition Candidates : Type := (list (string * (string * ModifierKind)) * gset string)%type.
Definition note_entry (acc : Candidates) (entry : Entry) : Candidates :=
  let '(candidates, constants) := acc in
  let norm := key_norm (en_key entry) in
  match en_kind entry with
  | KConstant => (candidates, {[norm]} ∪ constants)
  | KPath | KList =>
      let candidates := om_or_insert norm (en_key entry, en_kind entry) candidates in
      (match om_get norm candidates, en_kind entry with
       | Some (key, _), KList => om_insert norm (key, KList) candidates
       | _, _ => candidates
       end, constants)
  end.
Definition probe_of (candidates : list (string * (string * ModifierKind))) (current : Env) : Env :=
  fold_left (fun probe key => match env_get current key with Some value => env_set probe key value | None => probe end)
    (map fst (om_values candidates)) env_clean.
Definition settled_keys (entries : list Entry) (current : Env) : option (gset string) :=
  let '(candidates, constants) := fold_left note_entry entries ([], ∅) in
  match candidates with
  | [] => Some ∅
  | _ =>
      probe ← apply_entries (probe_of candidates current) entries;
      Some (list_to_set (map fst (List.filter (fun candidate =>
        let '(norm, (key, kind)) := candidate in
        negb (bool_decide (norm ∈ constants)) && value_settled (env_get probe key) (env_get current key) kind) candidates)))
  end.

(** [apply_set]. *)
Definition already_recorded (recorded : list (string * LedgerEntry)) (entry : Entry) : bool :=
  match om_get (key_norm (en_key entry)) recorded with
  | Some previous => bool_decide (le_kind previous = KConstant) && element_eq (le_value previous) (en_value entry) KConstant
  | None => false
  end.
Definition apply_set (entries : list Entry) (recorded : list (string * LedgerEntry)) (current : Env) : option (list Entry) :=
  settled ← settled_keys entries current;
  Some (List.filter (fun entry =>
    match en_kind entry with
    | KConstant => negb (already_recorded recorded entry)
    | KPath | KList => negb (bool_decide (key_norm (en_key entry) ∈ settled))
    end) entries).

(** [retire_recorded_element], [retire_recorded_constant]. *)
Definition retire_recorded_element (entry : LedgerEntry) (declared : list (string * Entry)) (contributed : gset (string * string)) :
    option Removal :=
  let current := om_get (key_norm (le_key entry)) declared in
  let kind := default (le_kind entry) (en_kind <$> current) in
  if bool_decide ((key_norm (le_key entry), element_norm (le_value entry) kind) ∈ contributed) then None
  else
    match current with
    | Some current =>
        match en_kind current with
        | KConstant => None
        | KPath => Some (le_key entry, le_value entry, None)
        | KList => Some (le_key entry, le_value entry, Some (effective_separator current))
        end
    | None =>
        match le_kind entry with
        | KPath => Some (le_key entry, le_value entry, None)
        | _ => Some (le_key entry, le_value entry, Some (default DEFAULT_SEPARATOR (le_separator entry)))
        end
    end.
Definition retire_recorded_constant (entry : LedgerEntry) (declared : list (string * Entry)) (current : Env) (ledger : Ledger) :
    option (string * option string) :=
  if is_never_constant (le_key entry) || bool_decide (is_Some (om_get (key_norm (le_key entry)) declared)) then None
  else
    observed ← env_get current (le_key entry);
    if negb (element_eq observed (le_value entry) KConstant) then None
    else
      prior ← ledger_prior ledger (le_key entry);
      match prior with
      | Unset => Some (le_key entry, None)
      | Value value => Some (le_key entry, Some value)
      end.

(** [owned_spellings], [is_owned], [repair_owned_segments]; [canonicalize] is the file
    system's. *)
Class RealPath : Type := canonicalize_path : string -> option string.
Definition add_spelling `{RealPath} (spellings : list string) (prefix : string) : list string :=
  let spellings := (spellings ++ [prefix])%list in
  match canonicalize_path prefix with
  | Some resolved =>
      if existsb (fun spelling => bool_decide (path_components spelling = path_components resolved)) spellings then spellings
      else (spellings ++ [resolved])%list
  | None => spellings
  end.
Definition owned_spellings `{RealPath} (owned_prefixes : list string) : list string := fold_left add_spelling owned_prefixes [].
Definition is_owned (segment : string) (owned : list string) : bool :=
  existsb (fun prefix => bool_decide (path_components prefix `prefix_of` path_components segment)) owned.
Definition path_keys (declared : list (string * Entry)) (recorded : list (string * LedgerEntry)) : list string :=
  os_of_list
    (map (fun entry => en_key entry) (List.filter (fun entry => bool_decide (en_kind entry = KPath)) (om_values declared)) ++
     map (fun entry => le_key entry)
       (List.filter (fun entry => bool_decide (le_kind entry = KPath) && negb (bool_decide (is_Some (om_get (key_norm (le_key entry)) declared))))
          (om_values recorded)))%list.
Definition repair_key (owned : list string) (contributed : gset (string * string)) (current : Env) (key : string) : list Removal :=
  match env_get current key with
  | None => []
  | Some value =>
      map (fun segment => (key, segment, None))
        (List.filter (fun segment =>
           negb (String.eqb segment "" || negb (is_owned segment owned)) &&
           negb (bool_decide ((key_norm key, element_norm segment KPath) ∈ contributed))) (split_paths value))
  end.
Definition repair_owned_segments `{RealPath} (declared : list (string * Entry)) (recorded : list (string * LedgerEntry))
    (contributed : gset (string * string)) (current : Env) (owned_prefixes : list string) : list Removal :=
  flat_map (repair_key (owned_spellings owned_prefixes) contributed current) (path_keys declared recorded).

(** [removal_kind], [push_removal], [plan]. *)
Definition removal_kind (separator : option string) : ModifierKind := match separator with None => KPath | Some _ => KList end.
Definition removal_identity (removal : Removal) : Removal :=
  let '(key, element, separator) := removal in (key_norm key, element_norm element (removal_kind separator), separator).
Definition push_removal (acc : list Removal * gset Removal) (removal : Removal) : list Removal * gset Removal :=
  let '(removes, seen) := acc in
  let identity := removal_identity removal in
  if bool_decide (identity ∈ seen) then (removes, seen) else ((removes ++ [removal])%list, {[identity]} ∪ seen).
Definition retire (declared : list (string * Entry)) (contributed : gset (string * string)) (current : Env) (ledger : Ledger)
    (acc : (list Removal * gset Removal) * list (string * option string)) (entry : LedgerEntry) :
    (list Removal * gset Removal) * list (string * option string) :=
  let '(removes, restores) := acc in
  match le_kind entry with
  | KPath | KList =>
      match retire_recorded_element entry declared contributed with
      | Some removal => (push_removal removes removal, restores)
      | None => (removes, restores)
      end
  | KConstant =>
      match retire_recorded_constant entry declared current ledger with
      | Some restore => (removes, (restores ++ [restore])%list)
      | None => (removes, restores)
      end
  end.
Definition plan `{RealPath} (desired : list Entry) (current : Env) (ledger : Ledger) (owned_prefixes : list string) : option Plan :=
  let entries := emittable desired in
  let declared := declared_index entries in
  let contributed := contributed_elements entries in
  let recorded := recorded_index ledger in
  sets ← apply_set entries recorded current;
  let '(removes, restores) := fold_left (retire declared contributed current ledger) (applied_in_emission_order ledger) (([], ∅), []) in
  let '(removes, _) := fold_left push_removal (repair_owned_segments declared recorded contributed current owned_prefixes) removes in
  Some (mkPlan PLAN_VERSION sets removes restores).

(** [capture_priors]. *)
Definition carried_prior (entry : LedgerEntry) (observed : option string) (previous : option (Applied * Priors)) : option Prior :=
  '(previous_applied, previous_priors) ← previous;
  recorded ← List.find (fun candidate => key_eq (le_key candidate) (le_key entry) && bool_decide (le_kind candidate = KConstant)) previous_applied;
  current_value ← observed;
  if element_eq (le_value recorded) current_value KConstant then previous_priors !! le_key entry else None.
Definition capture_prior (current : Env) (previous : option (Applied * Priors)) (priors : Priors) (entry : LedgerEntry) : Priors :=
  if negb (bool_decide (le_kind entry = KConstant)) then priors
  else
    let observed := env_get current (le_key entry) in
    let prior := default (match observed with Some value => Value value | None => Unset end) (carried_prior entry observed previous) in
    <[le_key entry := prior]> priors.
Definition capture_priors (applied : Applied) (current : Env) (previous : option (Applied * Priors)) : Priors :=
  fold_left (capture_prior current previous) applied ∅.

(** [revert_reconciled]: the plan for nothing, removals before restores. *)
Definition remove_element (env : Env) (removal : Removal) : option Env :=
  let '(key, element, separator) := removal in
  if String.eqb element "" then Some env
  else
    match env_get env key with
    | None => Some env
    | Some existing =>
        match separator with
        | None => Some (env_set env key (remove_segment existing element))
        | Some separator =>
            if String.eqb separator "" then Some env
            else
              appended ← append_unique existing element separator;
              Some (env_set env key (default "" (strip_suffix (separator +:+ element) appended)))
        end
    end.
Fixpoint remove_elements (env : Env) (removes : list Removal) : option Env :=
  match removes with
  | [] => Some env
  | removal :: rest => env' ← remove_element env removal; remove_elements env' rest
  end.
Definition restore (env : Env) (item : string * option string) : Env :=
  match item.2 with Some value => env_set env item.1 value | None => env_remove env item.1 end.
Definition revert_reconciled `{CarrierText} `{RealPath} (env : Env) : option Env :=
  match raw ← env_get env CARRIER_KEY; ledger_decode raw with
  | None => Some env
  | Some ledger =>
      let env := env_remove env CARRIER_KEY in
      plan ← plan [] env ledger [];
      env ← remove_elements env (pl_removes plan);
      Some (fold_left restore (pl_restores plan) env)
  end.

(** ** A prompt *)

(** [SessionPath], [ProjectIdentity], [Outcome]. *)
Record SessionPath : Type := mkSession { sp_install_bin : string; sp_global_bin : string; sp_project_bin : option string }.
Definition session_entries (session : SessionPath) : list Entry :=
  map (fun directory => mkEntry "PATH" directory KPath None)
    (sp_install_bin session :: sp_global_bin session :: match sp_project_bin session with Some directory => [directory] | None => [] end).
Record ProjectIdentity : Type := mkIdentity { pi_config_path : string; pi_dir : string; pi_key : string }.
Record Outcome : Type := mkOutcome {
  oc_session : SessionPath;
  oc_global : list Entry;
  oc_project : list Entry;
  oc_owned_home : option string;
  oc_slot : option ProjectIdentity;
  oc_resolved : bool;
  oc_inert : bool;
  oc_messages : list string;
}.

(** [desired_entries], [plan_for], [is_stat_only], [messages_fingerprint], [announcing],
    [next_ledger]. *)
Definition desired_entries (outcome : Outcome) : list Entry :=
  (oc_global outcome ++ session_entries (oc_session outcome) ++ oc_project outcome)%list.
Definition plan_for `{RealPath} (previous : Ledger) (outcome : Outcome) (owned : list string) (current : Env) : option Plan :=
  plan (desired_entries outcome) current previous owned.
Definition is_stat_only (ledger : Ledger) (fingerprint : string) : bool :=
  String.eqb (lg_fp ledger) fingerprint && match lg_verdict ledger with Some (VInert | VNoProject) => true | _ => false end.
Definition messages_fingerprint `{CarrierText} (messages : list string) : string :=
  match messages with [] => "" | _ => messages_digest messages end.
Definition announcing `{CarrierText} (previous : Ledger) (messages : list string) : Ledger :=
  mkLedger (lg_v previous) (lg_fp previous) (lg_verdict previous) (lg_tiers previous) (lg_ws previous)
    (messages_fingerprint messages) (lg_over_cap previous) (lg_scopes previous).
Definition next_project (previous : Ledger) (outcome : Outcome) (desired_global : list Entry) (current : Env) (slot : ProjectIdentity) :
    option ProjectScope :=
  let applied := map recorded_entry (emittable (oc_project outcome)) in
  after_global ← (if existsb (fun entry => bool_decide (le_kind entry = KConstant)) applied
                  then apply_entries current desired_global else Some current);
  Some (mkProjectScope (pi_key slot) (pi_dir slot) applied
          (capture_priors applied after_global ((fun scope => (ps_applied scope, ps_priors scope)) <$> sc_project (lg_scopes previous)))).
Definition next_ledger `{CarrierText} (previous : Ledger) (fingerprint : string) (outcome : Outcome) (current : Env) : option Ledger :=
  let desired_global := emittable (oc_global outcome) in
  let global := map recorded_entry desired_global in
  let global_priors := capture_priors global current
    ((fun applied => (applied, sc_global_priors (lg_scopes previous))) <$> sc_global (lg_scopes previous)) in
  project ← match oc_slot outcome with
            | None => Some None
            | Some slot => Some <$> next_project previous outcome desired_global current slot
            end;
  Some (mkLedger (lg_v previous) fingerprint
          (if oc_inert outcome then Some VInert else if oc_resolved outcome then None else Some VNoProject)
          (lg_tiers previous) (lg_ws previous) (messages_fingerprint (oc_messages outcome)) []
          (mkScopes (Some global) global_priors project)).

(** [plan_lines], [set_line]: the statements of a prompt, sets, then restores, then
    removals; a statement for an invalid name is left out. *)
Inductive Statement : Type :=
| ExportPath (key value : string)
| ExportConstant (key value : string)
| ExportList (key value separator : string)
| UnsetVar (key : string)
| RemoveListElement (key element : string) (separator : option string).
Definition statement_key (s : Statement) : string :=
  match s with
  | ExportPath key _ | ExportConstant key _ | ExportList key _ _ | UnsetVar key | RemoveListElement key _ _ => key
  end.
Definition named (s : Statement) : option Statement := if is_valid_env_key (statement_key s) then Some s else None.
Definition set_line (entry : Entry) : option Statement :=
  named (match en_kind entry with
         | KPath => ExportPath (en_key entry) (en_value entry)
         | KConstant => ExportConstant (en_key entry) (en_value entry)
         | KList => ExportList (en_key entry) (en_value entry) (default DEFAULT_SEPARATOR (en_separator entry))
         end).
Definition plan_lines (plan : Plan) : list Statement :=
  (omap set_line (pl_sets plan) ++
   omap (fun item => named (match item.2 with Some value => ExportConstant item.1 value | None => UnsetVar item.1 end)) (pl_restores plan) ++
   omap (fun removal => let '(key, element, separator) := removal in named (RemoveListElement key element separator)) (pl_removes plan))%list.
