(* ===== verification/ReconcileSpec.v ===== *)
(** * What the reconciler promises

    The contracts of the shells' statements, a session of prompts and of the user's own
    assignments, and the theorems on them: a session gives the user's variables back, a
    plan touches only what is desired or recorded, and the carrier is read back. *)

From stdpp Require Import base decidable list option numbers strings gmap.
From Stdlib Require Import Lia Ascii.
From S2P Require Import Prelude OMap Text TextSearch Digest PackageRef Store Closure Metadata Template EnvVars.
From S2P Require Import EnvVarsSpec Reconcile.
Local Open Scope ocx_scope.
Local Open Scope string_scope.

(** ** Running a prompt *)

(** What each statement does to the shell's variables, as the documentation of
    [Shell::export_path], [export_constant], [export_list], [unset] and
    [remove_list_element] has it: the same as the in-process folds. *)
Definition run_statement (env : Env) (s : Statement) : option Env :=
  match s with
  | ExportPath key value => Some (if String.eqb value "" then env else add_path env key value)
  | ExportConstant key value => Some (env_set env key value)
  | ExportList key value separator => add_list env key value separator
  | UnsetVar key => Some (env_remove env key)
  | RemoveListElement key element separator => remove_element env (key, element, separator)
  end.
Fixpoint run_statements (env : Env) (l : list Statement) : option Env :=
  match l with
  | [] => Some env
  | s :: l => env' ← run_statement env s; run_statements env' l
  end.

(** A prompt: the plan is made, the next ledger recorded and the statements run. *)
Definition prompt `{CarrierText} `{RealPath} (fingerprint : string) (outcome : Outcome) (owned : list string) (st : Env * Ledger) :
    option (Env * Ledger) :=
  plan ← plan_for st.2 outcome owned st.1;
  next ← next_ledger st.2 fingerprint outcome st.1;
  env ← run_statements st.1 (plan_lines plan);
  Some (env, next).

(** Prompts always end. *)
Lemma remove_element_total env removal : is_Some (remove_element env removal).
Proof.
  destruct removal as [[key element] separator]. unfold remove_element. destruct (String.eqb element ""); [by eexists|].
  destruct (env_get env key) as [existing|]; [|by eexists]. destruct separator as [separator|]; [|by eexists].
  destruct (String.eqb separator ""); [by eexists|].
  destruct (append_unique_total existing element separator) as [w ->]. by eexists.
Qed.

Lemma run_statements_total l : forall env, is_Some (run_statements env l).
Proof.
  induction l as [|s l IH]; intros env; [by eexists|]. cbn [run_statements].
  assert (is_Some (run_statement env s)) as [env' ->]; [|apply IH]. destruct s; cbn [run_statement]; try by eexists.
  - destruct (apply_entries_total [mkEntry key value KList (Some separator)] env) as [env' E]. cbn in E.
    destruct (add_list env key value separator) as [w|]; [by eexists|done].
  - apply remove_element_total.
Qed.

Lemma settled_keys_total entries current : is_Some (settled_keys entries current).
Proof.
  unfold settled_keys. destruct (fold_left note_entry entries ([], ∅)) as [[|c candidates] constants]; [by eexists|].
  destruct (apply_entries_total entries (probe_of (c :: candidates) current)) as [probe ->]. by eexists.
Qed.

Lemma plan_total `{RealPath} desired current ledger owned : is_Some (plan desired current ledger owned).
Proof.
  unfold plan, apply_set. destruct (settled_keys_total (emittable desired) current) as [settled ->]. cbn [mbind option_bind].
  destruct (fold_left (retire _ _ _ _) _ _) as [removes restores]. destruct (fold_left push_removal _ removes). by eexists.
Qed.

Lemma next_ledger_total `{CarrierText} previous fp outcome current : is_Some (next_ledger previous fp outcome current).
Proof.
  unfold next_ledger. destruct (oc_slot outcome) as [slot|]; [|by eexists]. unfold next_project.
  destruct (existsb _ _); [|by eexists]. destruct (apply_entries_total (emittable (oc_global outcome)) current) as [env ->]. by eexists.
Qed.

Lemma prompt_total `{CarrierText} `{RealPath} fp outcome owned st : is_Some (prompt fp outcome owned st).
Proof.
  unfold prompt, plan_for. destruct (plan_total (desired_entries outcome) st.1 st.2 owned) as [p ->].
  destruct (next_ledger_total st.2 fp outcome st.1) as [next ->]. cbn [mbind option_bind].
  destruct (run_statements_total (plan_lines p) st.1) as [env ->]. by eexists.
Qed.

(** ** One variable in the statements of a plan *)

Definition on_key {A : Type} (f : A -> string) (key : string) (l : list A) : list A := List.filter (fun x => String.eqb (f x) key) l.

Lemma on_key_In {A : Type} (f : A -> string) key l x : In x (on_key f key l) <-> In x l /\ f x = key.
Proof. unfold on_key. by rewrite filter_In, String.eqb_eq. Qed.

Lemma on_key_nil {A : Type} (f : A -> string) key l : on_key f key l = [] <-> forall x, In x l -> f x <> key.
Proof.
  split; [intros E x Hx Hf; assert (In x (on_key f key l)) as Hin by (by apply on_key_In); by rewrite E in Hin|].
  intros Hl. destruct (on_key f key l) as [|x l'] eqn:E; [done|].
  assert (In x (on_key f key l)) as [Hin Hf]%on_key_In by (rewrite E; by left). by destruct (Hl x).
Qed.

Lemma on_key_app {A : Type} (f : A -> string) key a b : on_key f key (a ++ b)%list = (on_key f key a ++ on_key f key b)%list.
Proof. apply List.filter_app. Qed.

Lemma on_key_filter {A : Type} (f : A -> string) key p l : on_key f key (List.filter p l) = List.filter p (on_key f key l).
Proof.
  unfold on_key. induction l as [|x l IH]; [done|]. cbn [List.filter].
  destruct (p x) eqn:Ep, (String.eqb (f x) key) eqn:Ek; cbn [List.filter]; rewrite ?Ep, ?Ek; by rewrite ?IH.
Qed.

Lemma on_key_map {A B : Type} (g : A -> B) (f : B -> string) key l : on_key f key (map g l) = map g (on_key (fun x => f (g x)) key l).
Proof.
  unfold on_key. induction l as [|x l IH]; [done|]. cbn [map List.filter]. destruct (String.eqb (f (g x)) key); cbn [map]; by rewrite IH.
Qed.

Lemma run_statements_app a b : forall env, run_statements env (a ++ b)%list = env' ← run_statements env a; run_statements env' b.
Proof.
  induction a as [|s a IH]; intros env; [done|]. cbn [app run_statements]. destruct (run_statement env s) as [env'|]; [|done].
  cbn [mbind option_bind]. by rewrite IH.
Qed.

Lemma run_statement_other env env' s key : run_statement env s = Some env' -> statement_key s <> key ->
  env_vars env' !! key = env_vars env !! key.
Proof.
  intros E Hne. destruct s as [k v|k v|k v separator|k|k e separator]; cbn [run_statement statement_key] in *.
  - injection E as <-. destruct (String.eqb v ""); [done|]. cbn. by rewrite lookup_insert_ne.
  - injection E as <-. cbn. by rewrite lookup_insert_ne.
  - unfold add_list in E. destruct (String.eqb v ""); [by injection E as <-|]. destruct (append_unique _ _ _); [|done].
    injection E as <-. cbn. by rewrite lookup_insert_ne.
  - injection E as <-. cbn. by rewrite lookup_delete_ne.
  - unfold remove_element in E. destruct (String.eqb e ""); [by injection E as <-|]. destruct (env_get env k); [|by injection E as <-].
    destruct separator as [separator|]; [|injection E as <-; cbn; by rewrite lookup_insert_ne].
    destruct (String.eqb separator ""); [by injection E as <-|]. destruct (append_unique _ _ _); [|done].
    injection E as <-. cbn. by rewrite lookup_insert_ne.
Qed.

Lemma run_statements_other l key : forall env env', run_statements env l = Some env' -> (forall s, In s l -> statement_key s <> key) ->
  env_vars env' !! key = env_vars env !! key.
Proof.
  induction l as [|s l IH]; intros env env' E Hl; cbn [run_statements] in E; [by injection E as <-|].
  destruct (run_statement env s) as [env1|] eqn:E1; [|done]. rewrite (IH env1 env' E) by (intros s' Hs; apply Hl; by right).
  eapply run_statement_other; [done|]. apply Hl. by left.
Qed.

(** A list with one statement for a variable gives it what that statement does. *)
Lemma run_statements_one l key : forall env env' s, on_key statement_key key l = [s] -> run_statements env l = Some env' ->
  exists env1 env2, env_vars env1 !! key = env_vars env !! key /\ run_statement env1 s = Some env2 /\
    env_vars env' !! key = env_vars env2 !! key.
Proof.
  induction l as [|s0 l IH]; intros env env' s Hl E; [done|]. cbn [run_statements] in E.
  destruct (run_statement env s0) as [env1|] eqn:E1; [|done]. unfold on_key in Hl. cbn [List.filter] in Hl.
  destruct (String.eqb_spec (statement_key s0) key) as [Hk|Hk].
  - injection Hl as -> Hnil. exists env, env1. do 2 (split; [done|]). eapply run_statements_other; [done|]. by apply on_key_nil.
  - destruct (IH env1 env' s Hl E) as (e1 & e2 & H1 & H2 & H3). exists e1, e2. split; [|done]. rewrite H1.
    by eapply run_statement_other.
Qed.

(** ** The indexes *)

Lemma index_get {A : Type} (f : A -> string) key l :
  om_get key (fold_left (fun m x => om_insert (f x) x m) l []) = last (on_key f key l).
Proof.
  induction l as [|x l IH] using rev_ind; [done|]. rewrite fold_left_app, on_key_app. cbn [fold_left]. unfold on_key at 2.
  cbn [List.filter]. destruct (String.eqb_spec (f x) key) as [<-|Hne].
  - by rewrite om_get_insert_eq, last_snoc.
  - by rewrite om_get_insert_ne, app_nil_r by done.
Qed.

Lemma om_insert_In {A : Type} k (v : A) m x : In x (om_insert k v m) -> x = (k, v) \/ In x m.
Proof.
  induction m as [|[k' v'] m IH]; cbn [om_insert]; [naive_solver|].
  destruct (ord_cmp k k'); cbn [In]; naive_solver.
Qed.

Lemma index_In {A : Type} (f : A -> string) l x : In x (om_values (fold_left (fun m x => om_insert (f x) x m) l [])) -> In x l.
Proof.
  induction l as [|y l IH] using rev_ind; [done|]. rewrite fold_left_app. cbn [fold_left]. unfold om_values.
  intros [[k v] [<- Hin]]%in_map_iff. apply in_app_iff. apply om_insert_In in Hin as [[= -> ->]|Hin]; [right; by left|left].
  apply IH. by apply in_map_iff; exists (k, v).
Qed.

(** ** The parts of a plan *)

Definition restore_of (declared : list (string * Entry)) (current : Env) (ledger : Ledger) (entry : LedgerEntry) : option (string * option string) :=
  match le_kind entry with KConstant => retire_recorded_constant entry declared current ledger | _ => None end.

Lemma retire_restores declared contributed current ledger l : forall acc,
  (fold_left (retire declared contributed current ledger) l acc).2 = (acc.2 ++ omap (restore_of declared current ledger) l)%list.
Proof.
  induction l as [|entry l IH]; intros [removes restores]; [by rewrite app_nil_r|]. cbn [fold_left omap list_omap]. rewrite IH.
  unfold retire, restore_of. destruct (le_kind entry).
  - by destruct (retire_recorded_element _ _ _).
  - destruct (retire_recorded_constant _ _ _ _); [|done]. cbn [snd]. by rewrite <- app_assoc.
  - by destruct (retire_recorded_element _ _ _).
Qed.

Lemma push_removal_In acc r x : In x (push_removal acc r).1 -> In x acc.1 \/ x = r.
Proof.
  destruct acc as [removes seen]. unfold push_removal. destruct (bool_decide _); [by left|]. cbn [fst]. rewrite in_app_iff. naive_solver.
Qed.

Lemma push_removals_In l x : forall acc, In x (fold_left push_removal l acc).1 -> In x acc.1 \/ In x l.
Proof.
  induction l as [|r l IH]; intros acc; [by left|]. cbn [fold_left]. intros [Hin|Hin]%IH; [|right; by right].
  apply push_removal_In in Hin as [Hin| ->]; [by left|right; by left].
Qed.

Lemma retire_removes_In declared contributed current ledger l x : forall acc,
  In x (fold_left (retire declared contributed current ledger) l acc).1.1 -> In x acc.1.1 \/
  exists entry, In entry l /\ le_kind entry <> KConstant /\ retire_recorded_element entry declared contributed = Some x.
Proof.
  induction l as [|entry l IH]; intros [removes restores]; [by left|]. cbn [fold_left]. intros [Hin|(e & He & Hx)]%IH.
  2: { right. exists e. split; [by right|done]. }
  unfold retire in Hin. destruct (le_kind entry) eqn:Ek; cbn [fst] in *.
  2: { destruct (retire_recorded_constant _ _ _ _); by left. }
  all: destruct (retire_recorded_element _ _ _) as [r|] eqn:Er; [|by left];
    apply push_removal_In in Hin as [Hin| ->]; [by left|right; exists entry; split; [by left|by rewrite Ek]].
Qed.

Lemma plan_parts `{RealPath} desired current ledger owned p : plan desired current ledger owned = Some p ->
  apply_set (emittable desired) (recorded_index ledger) current = Some (pl_sets p) /\
  pl_restores p = omap (restore_of (declared_index (emittable desired)) current ledger) (applied_in_emission_order ledger) /\
  forall r, In r (pl_removes p) ->
    (exists entry, In entry (applied_in_emission_order ledger) /\ le_kind entry <> KConstant /\
       retire_recorded_element entry (declared_index (emittable desired)) (contributed_elements (emittable desired)) = Some r) \/
    In r (repair_owned_segments (declared_index (emittable desired)) (recorded_index ledger) (contributed_elements (emittable desired)) current owned).
Proof.
  unfold plan. destruct (apply_set _ _ _) as [sets|] eqn:Es; [|done]. cbn [mbind option_bind].
  destruct (fold_left (retire _ _ _ _) _ _) as [removes restores] eqn:Er. destruct (fold_left push_removal _ removes) as [all seen] eqn:Ep.
  intros [= <-]. cbn [pl_sets pl_restores pl_removes]. split; [done|].
  pose proof (retire_restores (declared_index (emittable desired)) (contributed_elements (emittable desired)) current ledger
    (applied_in_emission_order ledger) (([], ∅), [])) as Hr. rewrite Er in Hr. split; [exact Hr|].
  intros r Hin. pose proof (push_removals_In _ r removes ltac:(by rewrite Ep)) as [Hr'|Hr']; [|by right]. left.
  pose proof (retire_removes_In (declared_index (emittable desired)) (contributed_elements (emittable desired)) current ledger
    (applied_in_emission_order ledger) r (([], ∅), [])) as Hx. rewrite Er in Hx. destruct (Hx Hr') as [[]|Hx']. done.
Qed.

Lemma retire_element_key entry declared contributed r : retire_recorded_element entry declared contributed = Some r -> r.1.1 = le_key entry.
Proof.
  unfold retire_recorded_element. destruct (bool_decide _); [done|]. destruct (om_get _ _) as [e|]; [destruct (en_kind e)|destruct (le_kind entry)];
    naive_solver.
Qed.

Lemma repair_In `{RealPath} declared recorded contributed current owned r : In r (repair_owned_segments declared recorded contributed current owned) ->
  exists value, env_get current r.1.1 = Some value /\ In r.1.2 (split_paths value) /\ r.2 = None /\
    is_owned r.1.2 (owned_spellings owned) = true /\ ((r.1.1, unquote r.1.2) ∉ contributed) /\
    ((exists e, In e (om_values declared) /\ en_kind e = KPath /\ en_key e = r.1.1) \/
     (exists e, In e (om_values recorded) /\ le_kind e = KPath /\ le_key e = r.1.1)).
Proof.
  intros (key & Hkey & Hr)%in_flat_map. unfold repair_key in Hr. destruct (env_get current key) as [value|] eqn:Ev; [|done].
  apply in_map_iff in Hr as (segment & <- & Hs). apply filter_In in Hs as [Hs Hp]. cbn [fst snd]. exists value.
  rewrite andb_true_iff, !negb_true_iff, orb_false_iff, negb_false_iff, bool_decide_eq_false in Hp. destruct Hp as [[_ Ho] Hc].
  do 5 (split; [done|]). unfold path_keys in Hkey. rewrite os_of_list_In, in_app_iff, !in_map_iff in Hkey.
  destruct Hkey as [(e & Hk & He)|(e & Hk & He)]; apply filter_In in He as [He Hkind]; [left|right]; exists e.
  - by apply bool_decide_eq_true in Hkind.
  - apply andb_true_iff in Hkind as [Hkind _]. by apply bool_decide_eq_true in Hkind.
Qed.

Lemma declared_get entries key : om_get key (declared_index entries) = last (on_key en_key key entries).
Proof. apply (index_get en_key). Qed.
Lemma recorded_get ledger key : om_get key (recorded_index ledger) = last (on_key le_key key (applied_in_emission_order ledger)).
Proof. apply (index_get le_key). Qed.

Lemma contributed_In entries d : In d entries -> en_kind d <> KConstant ->
  (en_key d, element_norm (en_value d) (en_kind d)) ∈ contributed_elements entries.
Proof.
  intros Hd Hk. apply elem_of_list_to_set, list_elem_of_In, in_map_iff. exists d. split; [done|]. apply filter_In. split; [done|].
  by rewrite bool_decide_eq_false_2.
Qed.

Lemma element_eq_norm a b kind : element_eq a b kind = true <-> element_norm a kind = element_norm b kind.
Proof. destruct kind; apply String.eqb_eq. Qed.

(** An element that is still wanted is not in a removal of its kind. *)
Lemma unwanted entries key element separator kind d : kind = removal_kind separator ->
  ((key, element_norm element kind) ∉ contributed_elements entries) ->
  In d entries -> en_key d = key -> en_kind d = kind -> element_eq (en_value d) element kind = false.
Proof.
  intros -> Hc Hd <- Hk. destruct (element_eq _ _ _) eqn:E; [|done]. exfalso. apply Hc. apply element_eq_norm in E. rewrite <- E, <- Hk.
  apply contributed_In; [done|]. rewrite Hk. by destruct separator.
Qed.

Lemma retire_element_spec entry entries key element separator :
  retire_recorded_element entry (declared_index entries) (contributed_elements entries) = Some (key, element, separator) ->
  key = le_key entry /\ element = le_value entry /\
  forall d, In d entries -> en_key d = key -> en_kind d = removal_kind separator -> element_eq (en_value d) element (en_kind d) = false.
Proof.
  unfold retire_recorded_element. destruct (bool_decide _) eqn:Ec; [done|]. apply bool_decide_eq_false in Ec.
  change (key_norm (le_key entry)) with (le_key entry) in *. destruct (om_get (le_key entry) (declared_index entries)) as [c|] eqn:Eg.
  - cbn [fmap option_fmap option_map default] in Ec. destruct (en_kind c) eqn:Ek; [|done|]; intros [= <- <- <-]; (split; [done|split; [done|]]);
      intros d Hd Hkey Hkind; rewrite Hkind; by eapply unwanted.
  - intros E. assert (key = le_key entry /\ element = le_value entry) as [-> ->] by (destruct (le_kind entry); by injection E).
    split; [done|split; [done|]]. intros d Hd Hkey _. exfalso. rewrite declared_get in Eg. apply last_None in Eg.
    rewrite on_key_nil in Eg. by apply (Eg d).
Qed.

Section PlanSafe.
Context `{RealPath}.

(** C36: A plan touches only what is desired or recorded.  It sets desired entries the gate
    admits; it restores a variable only if the ledger records a constant for it that
    nothing desired declares, the live value is still the recorded one and the ledger has
    its prior, never [PATH]; it removes an element only if the ledger records it or it is
    a live segment under an owned prefix, and never one that is still desired. *)
Theorem plan_touches_own desired current ledger owned p : plan desired current ledger owned = Some p ->
  (forall e, In e (pl_sets p) -> In e desired /\ admits e = Ok tt) /\
  (forall key value, In (key, value) (pl_restores p) ->
     is_never_constant key = false /\ (forall d, In d (emittable desired) -> en_key d <> key) /\
     exists e live, In e (applied_in_emission_order ledger) /\ le_kind e = KConstant /\ le_key e = key /\
       env_get current key = Some live /\ element_eq live (le_value e) KConstant = true /\
       ledger_prior ledger key = Some (match value with Some v => Value v | None => Unset end)) /\
  (forall key element separator, In (key, element, separator) (pl_removes p) ->
     (forall d, In d (emittable desired) -> en_key d = key -> en_kind d = removal_kind separator ->
        element_eq (en_value d) element (en_kind d) = false) /\
     ((exists e, In e (applied_in_emission_order ledger) /\ le_kind e <> KConstant /\ le_key e = key /\ le_value e = element) \/
      (exists live, env_get current key = Some live /\ In element (split_paths live) /\ is_owned element (owned_spellings owned) = true))).
Proof.
  intros (Hs & Hr & Hm)%plan_parts. split; [|split].
  - intros e He. unfold apply_set in Hs. destruct (settled_keys _ _); [|done]. injection Hs as Hs. rewrite <- Hs in He.
    apply filter_In in He as [He _]. apply filter_In in He as [He Ha]. split; [done|]. by destruct (admits e) as [[]|].
  - intros key value Hin. rewrite Hr in Hin. apply list_elem_of_In, list_elem_of_omap in Hin as (e & He & Hx). apply list_elem_of_In in He.
    unfold restore_of in Hx. destruct (le_kind e) eqn:Ek; [done| |done]. unfold retire_recorded_constant in Hx.
    change (key_norm (le_key e)) with (le_key e) in Hx. destruct (is_never_constant (le_key e)) eqn:En; [done|].
    destruct (bool_decide _) eqn:Ed; [done|]. cbn [orb] in Hx. apply bool_decide_eq_false in Ed. rewrite declared_get in Ed.
    destruct (env_get current (le_key e)) as [live|] eqn:El; [|done]. cbn [mbind option_bind] in Hx.
    destruct (element_eq live (le_value e) KConstant) eqn:Eq; [|done]. cbn [negb] in Hx.
    destruct (ledger_prior ledger (le_key e)) as [prior|] eqn:Ep; [|done]. cbn [mbind option_bind] in Hx.
    assert (le_key e = key /\ prior = match value with Some v => Value v | None => Unset end) as [<- ->] by (destruct prior; naive_solver).
    split; [done|]. split; [|by exists e, live]. apply on_key_nil. destruct (last _) as [d|] eqn:Elast; [by destruct Ed|]. by apply last_None.
  - intros key element separator [(e & He & Hk & Hx)|Hx]%Hm.
    + apply retire_element_spec in Hx as (-> & -> & Hd). split; [done|]. left. by exists e.
    + apply repair_In in Hx as (live & Hl & Hseg & Hsep & Ho & Hc & _). cbn [fst snd] in *. subst separator. split; [|right; by exists live].
      intros d Hd Hkey Hkind. rewrite Hkind. by eapply (unwanted _ key element None).
Qed.
End PlanSafe.

(** ** What is emitted *)

Lemma emittable_app a b : emittable (a ++ b)%list = (emittable a ++ emittable b)%list.
Proof. apply List.filter_app. Qed.

Lemma emittable_In e l : In e (emittable l) <-> In e l /\ admits e = Ok tt.
Proof. unfold emittable. rewrite filter_In. destruct (admits e) as [[]|]; naive_solver. Qed.

Lemma admits_constant e : admits e = Ok tt -> en_kind e = KConstant -> is_never_constant (en_key e) = false /\ is_valid_env_key (en_key e) = true.
Proof.
  unfold admits, is_emittable. intros Ha Hk. rewrite Hk in Ha. destruct (is_never_constant (en_key e)); [done|].
  by destruct (is_valid_env_key (en_key e)).
Qed.

Definition as_prior (value : option string) : Prior := match value with Some v => Value v | None => Unset end.

Lemma capture_lookup applied current previous key :
  capture_priors applied current previous !! key =
  (fun e => default (as_prior (env_vars current !! key)) (carried_prior e (env_vars current !! key) previous)) <$>
    last (List.filter (fun e => bool_decide (le_kind e = KConstant)) (on_key le_key key applied)).
Proof.
  unfold capture_priors. induction applied as [|e l IH] using rev_ind; [apply lookup_empty|].
  rewrite fold_left_app, on_key_app, List.filter_app. cbn [fold_left]. unfold capture_prior at 1. unfold on_key at 2. cbn [List.filter].
  destruct (bool_decide (le_kind e = KConstant)) eqn:Ek; cbn [negb].
  - destruct (String.eqb_spec (le_key e) key) as [<-|Hne].
    + cbn [List.filter]. by rewrite Ek, last_snoc, lookup_insert_eq.
    + rewrite lookup_insert_ne, IH by done. cbn [List.filter]. by rewrite app_nil_r.
  - rewrite IH. destruct (String.eqb (le_key e) key); cbn [List.filter]; rewrite ?Ek; by rewrite app_nil_r.
Qed.

(** ** Sessions *)

Section Session.
Context `{CarrierText} `{RealPath}.
(** The constant variables, and the scope each of them is declared in. *)
Variable is_constant : string -> bool.
Variable owner : string -> ScopeId.
Hypothesis path_not_constant : is_constant "PATH" = false.

Definition entries_of (scope : ScopeId) (outcome : Outcome) : list Entry :=
  match scope with Global => oc_global outcome | Project => oc_project outcome end.
Definition applied_of (scope : ScopeId) (ledger : Ledger) : Applied :=
  match scope with Global => global_applied ledger | Project => project_applied ledger end.
Definition priors_of (scope : ScopeId) (ledger : Ledger) : Priors :=
  match scope with Global => sc_global_priors (lg_scopes ledger) | Project => default ∅ (ps_priors <$> sc_project (lg_scopes ledger)) end.

(** Each variable is used as a constant or never, each constant declared once, in the
    scope that owns it, and a project tier comes with its slot. *)
Definition well_behaved (outcome : Outcome) : Prop :=
  (forall scope e, In e (entries_of scope outcome) -> bool_decide (en_kind e = KConstant) = is_constant (en_key e)) /\
  (forall key, is_constant key = true -> forall scope,
     (length (on_key en_key key (entries_of scope outcome)) <= if decide (scope = owner key) then 1 else 0)%nat) /\
  (oc_slot outcome = None -> oc_project outcome = []).

(** A session of one shell: prompts, and assignments of the user's own, none of a value the
    ledger records as ocx's.  [mine] is what the user would have without ocx. *)
Definition assign (key : string) (value : option string) (m : gmap string string) : gmap string string :=
  match value with Some v => <[key := v]> m | None => delete key m end.
Definition assign_env (key : string) (value : option string) (env : Env) : Env :=
  mkEnv (assign key value (env_vars env)) (env_package_path env).
Inductive session : gmap string string -> Env * Ledger -> Prop :=
| session_start env : session (env_vars env) (env, ledger_empty)
| session_prompt mine st fp outcome owned st' :
    session mine st -> well_behaved outcome -> prompt fp outcome owned st = Some st' -> session mine st'
| session_assign mine env ledger key value :
    session mine (env, ledger) ->
    (forall e v, In e (applied_in_emission_order ledger) -> le_key e = key -> value = Some v -> element_eq (le_value e) v KConstant = false) ->
    session (assign key value mine) (assign_env key value env, ledger).

(** What holds of one constant variable between prompts: the ledger has it in its own scope
    only; without a record the shell has the user's value, with one it has the recorded
    value and the user's value is the prior, or it has the user's own. *)
Definition one_scope (ledger : Ledger) (key : string) : Prop :=
  (forall scope, scope <> owner key -> on_key le_key key (applied_of scope ledger) = [] /\ priors_of scope ledger !! key = None) /\
  match on_key le_key key (applied_of (owner key) ledger) with
  | [] => priors_of (owner key) ledger !! key = None
  | [e] => le_kind e = KConstant /\ is_never_constant key = false /\ is_valid_env_key key = true
  | _ => False
  end.
Definition held (mine : gmap string string) (st : Env * Ledger) (key : string) : Prop :=
  match on_key le_key key (applied_of (owner key) st.2) with
  | [] => env_vars st.1 !! key = mine !! key
  | e :: _ =>
      (exists live, env_vars st.1 !! key = Some live /\ element_eq (le_value e) live KConstant = true /\
         priors_of (owner key) st.2 !! key = Some (as_prior (mine !! key))) \/
      (env_vars st.1 !! key = mine !! key /\
         forall live, env_vars st.1 !! key = Some live -> element_eq (le_value e) live KConstant = false)
  end.
Definition ledger_kinds (ledger : Ledger) : Prop :=
  forall e, In e (applied_in_emission_order ledger) -> bool_decide (le_kind e = KConstant) = is_constant (le_key e).

(** *** The ledger of a prompt *)

Lemma next_scopes previous fp outcome current next : well_behaved outcome -> next_ledger previous fp outcome current = Some next ->
  forall scope, applied_of scope next = map recorded_entry (emittable (entries_of scope outcome)).
Proof.
  intros (_ & _ & Hslot) E. unfold next_ledger in E. destruct (oc_slot outcome) as [slot|] eqn:Es.
  - unfold next_project in E. destruct (if existsb _ _ then _ else _) as [after|]; [|done]. cbn [mbind option_bind fmap option_fmap option_map] in E.
    injection E as <-. by intros [].
  - injection E as <-. intros []; [done|]. cbn. by rewrite Hslot.
Qed.

Lemma apply_entries_other es key : forall env env', apply_entries env es = Some env' -> on_key en_key key es = [] ->
  env_vars env' !! key = env_vars env !! key.
Proof.
  intros env env'. rewrite on_key_nil. revert env env'. induction es as [|e es IH]; intros env env' E Hes; cbn [apply_entries] in E; [by injection E as <-|].
  destruct (apply_entry env e) as [env1|] eqn:E1; [|done]. cbn [mbind option_bind] in E.
  rewrite (IH env1 env' E) by (intros x Hx; apply Hes; by right). assert (en_key e <> key) as Hne by (apply Hes; by left).
  unfold apply_entry in E1. destruct (en_kind e).
  - injection E1 as <-. destruct (String.eqb (en_key e) "PATH"); cbn; by rewrite lookup_insert_ne.
  - injection E1 as <-. cbn. by rewrite lookup_insert_ne.
  - by apply (run_statement_other env env1 (ExportList (en_key e) (en_value e) (default DEFAULT_SEPARATOR (en_separator e)))).
Qed.

Definition previous_of (scope : ScopeId) (ledger : Ledger) : option (Applied * Priors) :=
  match scope with
  | Global => (fun applied => (applied, sc_global_priors (lg_scopes ledger))) <$> sc_global (lg_scopes ledger)
  | Project => (fun s => (ps_applied s, ps_priors s)) <$> sc_project (lg_scopes ledger)
  end.

Lemma captured es current previous key :
  (forall e, In e es -> en_key e = key -> en_kind e = KConstant) -> (length (on_key en_key key es) <= 1)%nat ->
  capture_priors (map recorded_entry es) current previous !! key =
  match on_key en_key key es with
  | [] => None
  | e :: _ => Some (default (as_prior (env_vars current !! key)) (carried_prior (recorded_entry e) (env_vars current !! key) previous))
  end.
Proof.
  intros Hk Hlen. rewrite capture_lookup, on_key_map. change (fun x : Entry => le_key (recorded_entry x)) with en_key.
  assert (forall e, In e (on_key en_key key es) -> en_kind e = KConstant) as Hc by (intros e [He Ek]%on_key_In; by apply Hk).
  destruct (on_key en_key key es) as [|e [|? ?]]; [done| |simpl in Hlen; lia]. cbn [map List.filter].
  change (le_kind (recorded_entry e)) with (en_kind e). by rewrite bool_decide_eq_true_2 by (apply Hc; by left).
Qed.

Lemma emittable_once outcome key scope : well_behaved outcome -> is_constant key = true ->
  (length (on_key en_key key (emittable (entries_of scope outcome))) <= if decide (scope = owner key) then 1 else 0)%nat.
Proof.
  intros (_ & Hone & _) Hkey. specialize (Hone key Hkey scope). unfold emittable. rewrite on_key_filter.
  etransitivity; [apply List.filter_length_le|done].
Qed.

Lemma emittable_kind outcome key scope e : well_behaved outcome -> is_constant key = true -> In e (emittable (entries_of scope outcome)) ->
  en_key e = key -> en_kind e = KConstant.
Proof.
  intros (Hkind & _) Hkey [He _]%emittable_In <-. apply Hkind in He. rewrite Hkey in He. by apply bool_decide_eq_true in He.
Qed.

Lemma next_priors previous fp outcome current next key scope : well_behaved outcome -> is_constant key = true ->
  next_ledger previous fp outcome current = Some next ->
  priors_of scope next !! key =
  match on_key en_key key (emittable (entries_of scope outcome)) with
  | [] => None
  | e :: _ => Some (default (as_prior (env_vars current !! key)) (carried_prior (recorded_entry e) (env_vars current !! key) (previous_of scope previous)))
  end.
Proof.
  intros Hw Hkey E. pose proof (emittable_once outcome key scope Hw Hkey) as Hone.
  assert (length (on_key en_key key (emittable (entries_of scope outcome))) <= 1)%nat as Hlen by (destruct (decide _); lia).
  unfold next_ledger in E. destruct scope.
  - destruct (match oc_slot outcome with None => _ | Some _ => _ end) as [project|]; [|done]. injection E as <-. cbn [priors_of lg_scopes sc_global_priors].
    apply captured; [|done]. intros e. by apply (emittable_kind outcome key Global).
  - destruct (oc_slot outcome) as [slot|] eqn:Es.
    2: { injection E as <-. cbn. destruct Hw as (_ & _ & Hslot). rewrite Hslot by done. by rewrite lookup_empty. }
    unfold next_project in E. destruct (if existsb _ _ then _ else _) as [after|] eqn:Ea; [|done].
    cbn [mbind option_bind fmap option_fmap option_map] in E. injection E as <-.
    transitivity (capture_priors (map recorded_entry (emittable (oc_project outcome))) after (previous_of Project previous) !! key); [done|].
    rewrite captured; [|intros e; by apply (emittable_kind outcome key Project)|done]. cbn [entries_of] in *.
    destruct (on_key en_key key (emittable (oc_project outcome))) as [|e l]; [done|].
    assert (env_vars after !! key = env_vars current !! key) as ->; [|done].
    destruct (existsb _ _); [|by injection Ea as <-]. eapply apply_entries_other; [done|].
    pose proof (emittable_once outcome key Global Hw Hkey) as Hg. destruct (decide (Project = owner key)) as [Ho|]; [|simpl in Hone; lia].
    destruct (decide (Global = owner key)) as [Ho'|]; [congruence|]. cbn [entries_of] in Hg. by destruct (on_key _ _ _); [|simpl in Hg; lia].
Qed.

Lemma find_head {A : Type} (p : A -> bool) l : List.find p l = head (List.filter p l).
Proof. induction l as [|x l IH]; [done|]. cbn [List.find List.filter]. by destruct (p x). Qed.

Lemma carried_one ledger key e observed : one_scope ledger key -> le_key e = key ->
  carried_prior e observed (previous_of (owner key) ledger) =
  match on_key le_key key (applied_of (owner key) ledger), observed with
  | r :: _, Some live => if element_eq (le_value r) live KConstant then priors_of (owner key) ledger !! key else None
  | _, _ => None
  end.
Proof.
  intros [_ Hone] Hk.
  assert (carried_prior e observed (previous_of (owner key) ledger) =
    (recorded ← List.find (fun c => key_eq (le_key c) (le_key e) && bool_decide (le_kind c = KConstant)) (applied_of (owner key) ledger);
     live ← observed;
     if element_eq (le_value recorded) live KConstant then priors_of (owner key) ledger !! le_key e else None)) as ->.
  { unfold previous_of, applied_of, priors_of, global_applied, project_applied, carried_prior. destruct (owner key).
    - by destruct (sc_global (lg_scopes ledger)).
    - by destruct (sc_project (lg_scopes ledger)). }
  rewrite find_head, Hk.
  assert (List.filter (fun c => key_eq (le_key c) key && bool_decide (le_kind c = KConstant)) (applied_of (owner key) ledger) =
          List.filter (fun c => bool_decide (le_kind c = KConstant)) (on_key le_key key (applied_of (owner key) ledger))) as ->.
  { clear Hone. unfold on_key, key_eq. induction (applied_of (owner key) ledger) as [|c l IH]; [done|]. cbn [List.filter]. rewrite IH.
    by destruct (String.eqb (le_key c) key). }
  destruct (on_key le_key key (applied_of (owner key) ledger)) as [|r [|? ?]]; [done| |done]. cbn [List.filter].
  destruct Hone as (-> & _). rewrite bool_decide_eq_true_2 by done. cbn [head mbind option_bind]. by destruct observed.
Qed.

(** *** The statements of a prompt for a constant variable *)

Lemma on_key_omap {A B : Type} (g : A -> option B) (f : B -> string) (h : A -> string) key l :
  (forall x y, g x = Some y -> f y = h x) -> on_key f key (omap g l) = omap g (on_key h key l).
Proof.
  intros Hg. unfold on_key. induction l as [|x l IH]; [done|]. cbn [omap list_omap List.filter]. destruct (g x) as [y|] eqn:E.
  - cbn [List.filter]. rewrite (Hg x y E). destruct (String.eqb (h x) key); [|done]. cbn [omap list_omap]. rewrite E. by f_equal.
  - destruct (String.eqb (h x) key); [|done]. cbn [omap list_omap]. by rewrite E.
Qed.

Lemma omap_nil_all {A B : Type} (g : A -> option B) l : (forall x, In x l -> g x = None) -> omap g l = [].
Proof.
  induction l as [|x l IH]; [done|]. intros Hl. cbn [omap list_omap]. rewrite Hl by (by left). apply IH. intros y Hy. apply Hl. by right.
Qed.

Lemma element_eq_sym a b kind : element_eq a b kind = element_eq b a kind.
Proof. apply eq_true_iff_eq. rewrite !element_eq_norm. naive_solver. Qed.

Lemma element_eq_trans a b c kind : element_eq a b kind = true -> element_eq b c kind = element_eq a c kind.
Proof. rewrite element_eq_norm. intros E. apply eq_true_iff_eq. rewrite !element_eq_norm. by rewrite E. Qed.

Lemma element_eq_refl a kind : element_eq a a kind = true.
Proof. by apply element_eq_norm. Qed.

Lemma desired_key outcome key : well_behaved outcome -> is_constant key = true ->
  on_key en_key key (emittable (desired_entries outcome)) = on_key en_key key (emittable (entries_of (owner key) outcome)).
Proof.
  intros Hw Hkey. unfold desired_entries. rewrite !emittable_app, !on_key_app.
  assert (on_key en_key key (emittable (session_entries (oc_session outcome))) = []) as ->.
  { apply on_key_nil. intros e [He _]%emittable_In. unfold session_entries in He. apply in_map_iff in He as (d & <- & _).
    cbn [en_key]. intros <-. by rewrite path_not_constant in Hkey. }
  pose proof (emittable_once outcome key Global Hw Hkey) as Hg. pose proof (emittable_once outcome key Project Hw Hkey) as Hp.
  cbn [entries_of] in *. destruct (owner key); cbn [entries_of app]; rewrite ?decide_True in * by done; rewrite ?decide_False in * by done.
  - destruct (on_key en_key key (emittable (oc_project outcome))); [by rewrite app_nil_r|simpl in Hp; lia].
  - destruct (on_key en_key key (emittable (oc_global outcome))); [done|simpl in Hg; lia].
Qed.

Lemma recorded_key ledger key : one_scope ledger key ->
  on_key le_key key (applied_in_emission_order ledger) = on_key le_key key (applied_of (owner key) ledger).
Proof.
  intros [Hother _]. unfold applied_in_emission_order. rewrite on_key_app. destruct (owner key) eqn:Eo.
  - destruct (Hother Project) as [E _]; [done|]. cbn [applied_of] in *. by rewrite E, app_nil_r.
  - destruct (Hother Global) as [E _]; [done|]. cbn [applied_of] in *. by rewrite E.
Qed.

Lemma prior_owner ledger key : one_scope ledger key -> ledger_prior ledger key = priors_of (owner key) ledger !! key.
Proof.
  intros [Hother Hone]. unfold ledger_prior. destruct (owner key) eqn:Eo.
  - destruct (Hother Project) as [_ E]; [done|]. cbn [priors_of] in *. destruct (sc_project (lg_scopes ledger)) as [project|]; [|done].
    cbn in *. by rewrite E.
  - destruct (Hother Global) as [Ha Eg]; [done|]. cbn [priors_of applied_of] in *. rewrite Eg.
    destruct (sc_project (lg_scopes ledger)) as [project|]; [|done]. cbn [mbind option_bind fmap option_fmap option_map default] in *.
    unfold id. destruct (ps_priors project !! key); [by destruct (global_owns _ _ _)|done].
Qed.

(** The statements for one constant variable: what is set and what is restored. *)
Lemma plan_lines_key ledger outcome owned env p key : well_behaved outcome -> one_scope ledger key -> ledger_kinds ledger ->
  is_constant key = true -> plan_for ledger outcome owned env = Some p ->
  on_key statement_key key (plan_lines p) =
  (omap set_line (List.filter (fun e => negb (already_recorded (recorded_index ledger) e))
                    (on_key en_key key (emittable (entries_of (owner key) outcome)))) ++
   omap (fun item => named (match item.2 with Some value => ExportConstant item.1 value | None => UnsetVar item.1 end))
     (omap (restore_of (declared_index (emittable (desired_entries outcome))) env ledger)
        (on_key le_key key (applied_of (owner key) ledger))))%list.
Proof.
  intros Hw Hone Hkinds Hkey (Hs & Hr & Hm)%plan_parts. unfold plan_lines. rewrite !on_key_app.
  assert (forall s s', named s = Some s' -> s' = s) as Hnamed by (unfold named; intros s s'; destruct (is_valid_env_key _); naive_solver).
  rewrite (on_key_omap set_line statement_key en_key), (on_key_omap _ statement_key fst).
  2: { intros [k [v|]] s E; apply Hnamed in E as ->; done. }
  2: { unfold set_line. intros e s E. apply Hnamed in E as ->. by destruct (en_kind e). }
  rewrite Hr, (on_key_omap _ fst le_key).
  2: { intros e [k v]. unfold restore_of, retire_recorded_constant. destruct (le_kind e); [done| |done]. destruct (_ || _); [done|].
       destruct (env_get env (le_key e)) as [o|]; [|done]. cbn [mbind option_bind]. destruct (negb _); [done|].
       destruct (ledger_prior _ _) as [[|]|]; cbn; naive_solver. }
  rewrite recorded_key by done. f_equal; [f_equal|].
  - unfold apply_set in Hs. destruct (settled_keys _ _) as [settled|]; [|done]. injection Hs as <-. rewrite on_key_filter, desired_key by done.
    apply List.filter_ext_in. intros e [He Hk]%on_key_In. by rewrite (emittable_kind outcome key (owner key) e Hw Hkey He Hk).
  - rewrite <- (app_nil_r (omap _ (omap _ _))) at 2. f_equal. apply on_key_nil. intros s Hin.
    apply list_elem_of_In, list_elem_of_omap in Hin as ([[k element] separator] & Hx & Es). apply list_elem_of_In in Hx.
    apply Hnamed in Es as ->. cbn [statement_key]. intros ->.
    assert (forall e, In e (applied_in_emission_order ledger) -> le_key e = key -> le_kind e = KConstant) as Hrec.
    { intros e He <-. apply Hkinds in He. rewrite Hkey in He. by apply bool_decide_eq_true in He. }
    apply Hm in Hx as [(e & He & Hk & Hx)|Hx].
    + apply retire_element_key in Hx. cbn in Hx. by rewrite Hrec in Hk.
    + apply repair_In in Hx as (_ & _ & _ & _ & _ & _ & [(e & He & Hk & Ek)|(e & He & Hk & Ek)]); cbn [fst] in Ek.
      * apply (index_In en_key) in He. assert (In e (on_key en_key key (emittable (desired_entries outcome)))) as Hin by (by apply on_key_In).
        rewrite desired_key in Hin by done. apply on_key_In in Hin as [Hin _]. by rewrite (emittable_kind outcome key (owner key) e Hw Hkey Hin Ek) in Hk.
      * apply (index_In le_key) in He. by rewrite Hrec in Hk.
Qed.

(** *** The invariant *)

Definition in_step (mine : gmap string string) (st : Env * Ledger) : Prop :=
  ledger_kinds st.2 /\ forall key, is_constant key = true -> one_scope st.2 key /\ held mine st key.

Lemma next_kinds previous fp outcome current next : well_behaved outcome -> next_ledger previous fp outcome current = Some next -> ledger_kinds next.
Proof.
  intros Hw E e He. pose proof (next_scopes previous fp outcome current next Hw E) as Hn. destruct Hw as (Hkind & _).
  unfold applied_in_emission_order in He. apply in_app_iff in He.
  assert (exists scope, In e (applied_of scope next)) as [scope Hin] by (destruct He; [by exists Global|by exists Project]).
  rewrite Hn in Hin. apply in_map_iff in Hin as (d & <- & [Hd _]%emittable_In). by apply (Hkind scope).
Qed.

Lemma next_one_scope previous fp outcome current next key : well_behaved outcome -> is_constant key = true ->
  next_ledger previous fp outcome current = Some next -> one_scope next key.
Proof.
  intros Hw Hkey E. pose proof (next_scopes previous fp outcome current next Hw E) as Hn.
  pose proof (fun scope => next_priors previous fp outcome current next key scope Hw Hkey E) as Hp.
  pose proof (fun scope => emittable_once outcome key scope Hw Hkey) as Hone. split.
  - intros scope Hs. specialize (Hone scope). rewrite decide_False in Hone by done. rewrite Hn, on_key_map, Hp.
    change (fun x : Entry => le_key (recorded_entry x)) with en_key.
    by destruct (on_key en_key key (emittable (entries_of scope outcome))); [|simpl in Hone; lia].
  - specialize (Hone (owner key)). rewrite decide_True in Hone by done. rewrite Hn, on_key_map, Hp.
    change (fun x : Entry => le_key (recorded_entry x)) with en_key.
    destruct (on_key en_key key (emittable (entries_of (owner key) outcome))) as [|e [|? ?]] eqn:Ek; [done| |simpl in Hone; lia]. cbn [map].
    assert (In e (on_key en_key key (emittable (entries_of (owner key) outcome)))) as [He Hek]%on_key_In by (rewrite Ek; by left).
    pose proof (emittable_kind outcome key (owner key) e Hw Hkey He Hek) as Hc. split; [done|]. rewrite <- Hek.
    apply emittable_In in He as [_ He]. by apply admits_constant.
Qed.

(** Nothing declares the variable: it has the user's value again. *)
Lemma released mine st fp outcome owned st' key : well_behaved outcome -> ledger_kinds st.2 -> is_constant key = true ->
  one_scope st.2 key -> held mine st key -> prompt fp outcome owned st = Some st' ->
  on_key en_key key (emittable (entries_of (owner key) outcome)) = [] -> env_vars st'.1 !! key = mine !! key.
Proof.
  intros Hw Hk Hkey Hone Hheld E Hnone. destruct st as [env ledger]. unfold prompt in E. cbn [fst snd] in *.
  destruct (plan_for ledger outcome owned env) as [p|] eqn:Ep; [|done]. cbn [mbind option_bind] in E.
  destruct (next_ledger ledger fp outcome env) as [next|] eqn:En; [|done]. cbn [mbind option_bind] in E.
  destruct (run_statements env (plan_lines p)) as [env'|] eqn:Er; [|done]. injection E as <-. cbn [fst].
  pose proof (plan_lines_key ledger outcome owned env p key Hw Hone Hk Hkey Ep) as Hl. rewrite Hnone in Hl. cbn [List.filter omap list_omap app] in Hl.
  unfold held in Hheld. cbn [fst snd] in Hheld. pose proof (prior_owner ledger key Hone) as Hprior.
  destruct (on_key le_key key (applied_of (owner key) ledger)) as [|r [|? ?]] eqn:Erec;
    [|pose proof Hone as [_ Hr]; rewrite Erec in Hr..].
  - rewrite <- Hheld. eapply run_statements_other; [done|]. by apply on_key_nil.
  - destruct Hr as (Hrk & Hnever & Hvalid).
    assert (le_key r = key) as Hrkey. { assert (In r (on_key le_key key (applied_of (owner key) ledger))) as [_ ?]%on_key_In; [rewrite Erec; by left|done]. }
    cbn [omap list_omap] in Hl. unfold restore_of in Hl. rewrite Hrk in Hl. unfold retire_recorded_constant in Hl.
    change (key_norm (le_key r)) with (le_key r) in Hl. rewrite Hrkey, Hnever, declared_get, desired_key, Hnone in Hl by done. cbn [orb] in Hl.
    rewrite (bool_decide_eq_false_2 (is_Some (last _))) in Hl by (by intros [? ?]). change (env_get env key) with (env_vars env !! key) in Hl.
    destruct Hheld as [(live & Hlive & Heq & Hp)|[Hmine Hne]].
    + rewrite Hlive in Hl. cbn [mbind option_bind] in Hl. rewrite element_eq_sym, Heq, Hprior, Hp in Hl. cbn [negb mbind option_bind] in Hl.
      assert (run_statements env (plan_lines p) = Some env') as Er' by done. unfold named in Hl.
      destruct (mine !! key) as [v|] eqn:Em; cbn [as_prior omap list_omap snd fst statement_key] in Hl; rewrite Hvalid in Hl;
        destruct (run_statements_one _ key env env' _ Hl Er') as (e1 & e2 & _ & Hx & ->); cbn [run_statement] in Hx; injection Hx as <-; cbn.
      * by rewrite lookup_insert_eq.
      * by rewrite lookup_delete_eq.
    + rewrite <- Hmine. eapply run_statements_other; [done|]. apply on_key_nil. rewrite Hl.
      destruct (env_vars env !! key) as [live|] eqn:El; [|done]. cbn [mbind option_bind]. rewrite element_eq_sym, Hne by done. done.
  - done.
Qed.

(** A declared variable has its value and the user's is the prior, or it has the user's
    own. *)
Lemma declared_held mine st fp outcome owned st' key e : well_behaved outcome -> ledger_kinds st.2 -> is_constant key = true ->
  one_scope st.2 key -> held mine st key -> prompt fp outcome owned st = Some st' ->
  on_key en_key key (emittable (entries_of (owner key) outcome)) = [e] -> held mine st' key.
Proof.
  intros Hw Hk Hkey Hone Hheld E Hdecl. destruct st as [env ledger]. unfold prompt in E. cbn [fst snd] in *.
  destruct (plan_for ledger outcome owned env) as [p|] eqn:Ep; [|done]. cbn [mbind option_bind] in E.
  destruct (next_ledger ledger fp outcome env) as [next|] eqn:En; [|done]. cbn [mbind option_bind] in E.
  destruct (run_statements env (plan_lines p)) as [env'|] eqn:Er; [|done]. injection E as <-.
  pose proof (plan_lines_key ledger outcome owned env p key Hw Hone Hk Hkey Ep) as Hl. rewrite Hdecl in Hl.
  assert (In e (on_key en_key key (emittable (entries_of (owner key) outcome)))) as [He Hek]%on_key_In by (rewrite Hdecl; by left).
  pose proof (emittable_kind outcome key (owner key) e Hw Hkey He Hek) as Hc.
  apply emittable_In in He as [_ He]. destruct (admits_constant e He Hc) as [Hnever Hvalid].
  assert (omap (restore_of (declared_index (emittable (desired_entries outcome))) env ledger) (on_key le_key key (applied_of (owner key) ledger)) = [])
    as Hnorestore.
  { apply omap_nil_all. intros r [_ Hrk]%on_key_In. unfold restore_of, retire_recorded_constant. destruct (le_kind r); [done| |done].
    change (key_norm (le_key r)) with (le_key r). rewrite declared_get, Hrk, desired_key, Hdecl by done.
    rewrite (bool_decide_eq_true_2 (is_Some _)) by (by eexists). by rewrite orb_true_r. }
  rewrite Hnorestore, app_nil_r in Hl. unfold held. cbn [fst snd].
  rewrite (next_scopes ledger fp outcome env next Hw En), on_key_map. change (fun x : Entry => le_key (recorded_entry x)) with en_key.
  rewrite Hdecl. cbn [map]. change (le_value (recorded_entry e)) with (en_value e).
  rewrite (next_priors ledger fp outcome env next key (owner key) Hw Hkey En), Hdecl, (carried_one ledger key) by done.
  assert (already_recorded (recorded_index ledger) e =
    match on_key le_key key (applied_of (owner key) ledger) with r :: _ => element_eq (le_value r) (en_value e) KConstant | [] => false end) as Hal.
  { unfold already_recorded. change (key_norm (en_key e)) with (en_key e). rewrite recorded_get, Hek, recorded_key by done.
    destruct Hone as [_ Hr]. destruct (on_key le_key key (applied_of (owner key) ledger)) as [|r [|? ?]]; [done| |done].
    cbn [last]. destruct Hr as (Hr & _). by rewrite bool_decide_eq_true_2. }
  cbn [List.filter] in Hl. rewrite Hal in Hl. unfold held in Hheld. cbn [fst snd] in Hheld.
  assert (negb (match on_key le_key key (applied_of (owner key) ledger) with r :: _ => element_eq (le_value r) (en_value e) KConstant | [] => false end) = true ->
          env_vars env' !! key = Some (en_value e)) as Hset.
  { intros Hn. rewrite Hn in Hl. cbn [omap list_omap] in Hl. unfold set_line, named in Hl. rewrite Hc in Hl. cbn [statement_key] in Hl. rewrite Hvalid in Hl.
    destruct (run_statements_one _ key env env' _ Hl Er) as (e1 & e2 & _ & Hx & ->). cbn [run_statement] in Hx. injection Hx as <-.
    cbn. by rewrite Hek, lookup_insert_eq. }
  destruct (on_key le_key key (applied_of (owner key) ledger)) as [|r l] eqn:Erec.
  - left. exists (en_value e). split; [by apply Hset|]. split; [apply element_eq_refl|]. cbn. by rewrite Hheld.
  - destruct (element_eq (le_value r) (en_value e) KConstant) eqn:Eq.
    + cbn [negb omap list_omap] in Hl. assert (env_vars env' !! key = env_vars env !! key) as -> by (eapply run_statements_other; [done|by apply on_key_nil]).
      destruct Hheld as [(live & -> & Heq & Hp)|[Hmine Hne]].
      * left. exists live. split; [done|]. split; [by rewrite <- Heq; symmetry; apply element_eq_trans; rewrite element_eq_sym|]. by rewrite Heq, Hp.
      * right. split; [done|]. intros live Hlive. rewrite <- (Hne live Hlive). by apply element_eq_trans.
    + left. exists (en_value e). split; [by apply Hset|]. split; [apply element_eq_refl|].
      destruct Hheld as [(live & -> & Heq & Hp)|[Hmine Hne]]; [by rewrite Heq, Hp|].
      destruct (env_vars env !! key) as [live|] eqn:El; [rewrite (Hne live) by done|]; cbn; by rewrite <- Hmine.
Qed.

Lemma prompt_in_step mine st fp outcome owned st' : well_behaved outcome -> prompt fp outcome owned st = Some st' -> in_step mine st -> in_step mine st'.
Proof.
  intros Hw E [Hk Hst]. assert (exists next, next_ledger st.2 fp outcome st.1 = Some next /\ st'.2 = next) as (next & En & Hnext).
  { unfold prompt in E. destruct (plan_for _ _ _ _); [|done]. cbn [mbind option_bind] in E. destruct (next_ledger _ _ _ _) as [next|]; [|done].
    cbn [mbind option_bind] in E. destruct (run_statements _ _); [|done]. injection E as <-. by exists next. }
  split; [rewrite Hnext; by eapply next_kinds|]. intros key Hkey. destruct (Hst key Hkey) as [Hone Hheld].
  split; [rewrite Hnext; by eapply next_one_scope|]. pose proof (emittable_once outcome key (owner key) Hw Hkey) as Hlen. rewrite decide_True in Hlen by done.
  destruct (on_key en_key key (emittable (entries_of (owner key) outcome))) as [|e [|? ?]] eqn:Ed; [| |simpl in Hlen; lia].
  - unfold held. rewrite Hnext, (next_scopes st.2 fp outcome st.1 next Hw En), on_key_map.
    change (fun x : Entry => le_key (recorded_entry x)) with en_key. rewrite Ed. by eapply released.
  - by eapply declared_held.
Qed.

Lemma session_in_step mine st : session mine st -> in_step mine st.
Proof.
  induction 1 as [env|mine st fp outcome owned st' _ IH Hw E|mine env ledger key value _ [Hk IH] Hown].
  - split; [by intros e He|]. intros key _. split; [split; [by intros []|]; by destruct (owner key)|]. unfold held. by destruct (owner key).
  - by eapply prompt_in_step.
  - split; [done|]. intros key' Hkey'. destruct (IH key' Hkey') as [Hone Hheld]. split; [done|]. unfold held in *. cbn [fst snd env_vars assign_env] in *.
    assert (forall m : gmap string string, assign key value m !! key' = if String.eqb key key' then value else m !! key') as Hassign.
    { intros m. destruct (String.eqb_spec key key') as [<-|Hne]; destruct value; cbn;
        by rewrite ?lookup_insert_eq, ?lookup_delete_eq, ?lookup_insert_ne, ?lookup_delete_ne by done. }
    rewrite !Hassign. destruct (String.eqb_spec key key') as [<-|Hne]; [|done].
    destruct (on_key le_key key (applied_of (owner key) ledger)) as [|r l] eqn:Er; [done|]. right. split; [done|].
    intros live ->. assert (In r (on_key le_key key (applied_in_emission_order ledger))) as [Hr Hrk]%on_key_In by (rewrite recorded_key, Er by done; by left).
    by eapply Hown.
Qed.

End Session.

(** ** The carrier *)

(** What a reader accepts: the version it knows, few tiers, and no claim on [PATH]. *)
Definition acceptable (ledger : Ledger) : Prop :=
  lg_v ledger = LEDGER_VERSION /\ (length (lg_tiers ledger) <= MAX_RECORDED_TIERS)%nat /\
  (forall e, In e (applied_in_emission_order ledger) -> forged e = false) /\
  (forall key, is_never_constant key = true -> ledger_prior ledger key = None).

Lemma retain_applied_id l : (forall e, In e l -> forged e = false) -> retain_applied l = l.
Proof.
  unfold retain_applied. induction l as [|e l IH]; [done|]. intros Hl. cbn [List.filter]. rewrite Hl by (by left). cbn [negb]. f_equal. apply IH.
  intros x Hx. apply Hl. by right.
Qed.

Lemma retain_applied_In e l : In e (retain_applied l) -> forged e = false.
Proof. intros [_ He]%filter_In. by apply negb_true_iff in He. Qed.

Lemma retain_priors_lookup priors key : is_never_constant key = true -> retain_priors priors !! key = None.
Proof. intros Hn. apply map_lookup_filter_None. right. intros p _ Hp. cbn [fst] in Hp. congruence. Qed.

Lemma recorded_not_forged es e : In e (map recorded_entry (emittable es)) -> forged e = false.
Proof.
  intros (d & <- & [_ Hd]%emittable_In)%in_map_iff. unfold forged. destruct (bool_decide _) eqn:Ek; [|done].
  apply bool_decide_eq_true in Ek. by destruct (admits_constant d Hd Ek).
Qed.

Lemma retain_captured es current previous : retain_priors (capture_priors (map recorded_entry (emittable es)) current previous) =
  capture_priors (map recorded_entry (emittable es)) current previous.
Proof.
  apply map_filter_id. intros key p Hp. cbn [fst]. rewrite capture_lookup in Hp.
  destruct (last _) as [e|] eqn:Hl; [|done]. apply last_Some_elem_of, list_elem_of_In, filter_In in Hl as [Hin Hk].
  apply on_key_In in Hin as [Hin <-]. apply recorded_not_forged in Hin. unfold forged in Hin. by rewrite Hk in Hin.
Qed.

Section CarrierLaws.
Context `{CarrierText}.
(** Base64 and [serde_json] read back what they wrote. *)
Hypothesis base64_roundtrip : forall bytes, base64_decode (base64_encode bytes) = Some bytes.
Hypothesis ledger_roundtrip : forall ledger bytes, ledger_to_vec ledger = Some bytes -> ledger_from_slice bytes = Some ledger.

Lemma decode_envelope ledger raw : envelope ledger = Some raw -> (String.length raw <= MAX_CARRIER_BYTES)%nat ->
  lg_v ledger = LEDGER_VERSION -> (length (lg_tiers ledger) <= MAX_RECORDED_TIERS)%nat ->
  ledger_decode raw = Some (discard_forged_path_constants ledger).
Proof.
  unfold envelope, ledger_decode. destruct (ledger_to_vec ledger) as [json|] eqn:Ej; [|done]. cbn [mbind option_bind]. intros E Hlen Hv Ht.
  apply Nat.ltb_ge in Hlen as ->. assert (raw = ENCODER_TAG +:+ String "." (base64_encode json)) as -> by (injection E as <-; reflexivity).
  rewrite split_once_app by done. rewrite String.eqb_refl, base64_roundtrip. cbn [negb mbind option_bind].
  rewrite (ledger_roundtrip ledger json Ej). cbn [mbind option_bind]. rewrite Hv, Nat.eqb_refl. cbn [negb].
  rewrite firstn_all2 by done. destruct ledger. cbn in *. by subst.
Qed.

(** The ledger a prompt records is read back by the next one: the value fits the cap,
    and decodes to that ledger, or, only if the whole does not fit, to the marker that
    names the scopes it dropped. *)
Theorem carrier_roundtrip previous fp outcome current ledger raw :
  lg_v previous = LEDGER_VERSION -> (length (lg_tiers previous) <= MAX_RECORDED_TIERS)%nat ->
  next_ledger previous fp outcome current = Some ledger -> ledger_encode ledger = Some raw ->
  (String.length raw <= MAX_CARRIER_BYTES)%nat /\
  (ledger_decode raw = Some ledger \/
   (ledger_decode raw = Some (marker_of ledger) /\
    exists full, envelope ledger = Some full /\ (MAX_CARRIER_BYTES < String.length full)%nat)).
Proof.
  intros Hv Ht En Ee. assert (discard_forged_path_constants ledger = ledger /\ lg_v ledger = lg_v previous /\ lg_tiers ledger = lg_tiers previous)
    as (Hd & Hv' & Ht').
  { unfold next_ledger in En. destruct (oc_slot outcome) as [slot|].
    - unfold next_project in En. destruct (if existsb _ _ then _ else _) as [after|]; [|done]. injection En as <-. split; [|done].
      unfold discard_forged_path_constants. cbn [lg_scopes sc_global sc_global_priors sc_project fmap option_fmap option_map ps_applied ps_priors ps_key ps_dir].
      rewrite !retain_captured, !retain_applied_id by (intros e; apply recorded_not_forged). done.
    - injection En as <-. split; [|done]. unfold discard_forged_path_constants.
      cbn [lg_scopes sc_global sc_global_priors sc_project fmap option_fmap option_map].
      rewrite retain_captured, retain_applied_id by (intros e; apply recorded_not_forged). done. }
  unfold ledger_encode in Ee. destruct (envelope ledger) as [full|] eqn:Ef; [|done]. cbn [mbind option_bind] in Ee.
  destruct (Nat.leb_spec (String.length full) MAX_CARRIER_BYTES) as [Hle|Hgt].
  - injection Ee as <-. split; [done|]. left. rewrite (decode_envelope ledger) by (done || congruence). by rewrite Hd.
  - destruct (envelope (marker_of ledger)) as [enc|] eqn:Em; [|done]. cbn [mbind option_bind] in Ee.
    destruct (Nat.leb_spec (String.length enc) MAX_CARRIER_BYTES) as [Hle|]; [|done]. injection Ee as <-. split; [done|]. right.
    split; [|by exists full]. rewrite (decode_envelope (marker_of ledger)) by (done || (cbn; congruence)). done.
Qed.
End CarrierLaws.

(** A carrier from anywhere that decodes is acceptable. *)
Lemma decode_gate `{CarrierText} raw ledger : ledger_decode raw = Some ledger ->
  (String.length raw <= MAX_CARRIER_BYTES)%nat /\ acceptable ledger.
Proof.
  unfold ledger_decode. destruct (Nat.ltb_spec MAX_CARRIER_BYTES (String.length raw)) as [|Hlen]; [done|].
  destruct (split_once "." raw) as [[tag payload]|]; [|done]. destruct (negb _); [done|]. destruct (base64_decode payload) as [bytes|]; [|done].
  cbn [mbind option_bind]. destruct (ledger_from_slice bytes) as [l|]; [|done]. cbn [mbind option_bind].
  destruct (Nat.eqb_spec (lg_v l) LEDGER_VERSION) as [Hv|]; [|done]. cbn [negb]. intros [= <-]. split; [done|]. split; [done|]. split.
  - cbn [lg_tiers discard_forged_path_constants]. rewrite length_firstn. lia.
  - unfold applied_in_emission_order, global_applied, project_applied, ledger_prior. cbn [lg_scopes sc_global sc_project sc_global_priors discard_forged_path_constants].
    split.
    + intros e [He|He]%in_app_iff.
      * destruct (sc_global (lg_scopes l)); [exact (retain_applied_In _ _ He)|done].
      * destruct (sc_project (lg_scopes l)); [exact (retain_applied_In _ _ He)|done].
    + intros key Hn. rewrite retain_priors_lookup by done. destruct (sc_project (lg_scopes l)) as [project|]; [|done].
      cbn [fmap option_fmap option_map mbind option_bind ps_priors]. by rewrite retain_priors_lookup by done.
Qed.
