(* ===== verification/RcBlock.v ===== *)
(** * The block in a shell profile

    [crates/ocx_setup/src/rc_block.rs], the fenced block ocx keeps in a user's profile: its
    reader, its states and the edits, and the decision of one profile in
    [crates/ocx_setup/src/lib.rs].  Texts are UTF-8 bytes; white space is Unicode's. *)

From stdpp Require Import base decidable list option numbers strings.
From Stdlib Require Import Lia Ascii.
From S2P Require Import Prelude Text TextSearch.
Local Open Scope string_scope.

(** ** White space and lines *)

Definition bytes (l : list N) : string := fold_right (fun n s => String (ascii_of_N n) s) "" l.

(** The characters of [char::is_whitespace], the same as [\s] of the regular expressions. *)
Definition WHITE_SPACE : list string :=
  (map (fun n : N => bytes [n]%N) [9; 10; 11; 12; 13; 32]%N ++
   map (fun n : N => bytes [194%N; n]) [133; 160]%N ++
   [bytes [225; 154; 128]%N] ++
   map (fun n : N => bytes [226%N; 128%N; n]) [128; 129; 130; 131; 132; 133; 134; 135; 136; 137; 138; 168; 169; 175]%N ++
   [bytes [226; 129; 159]%N; bytes [227; 128; 128]%N])%list.
Fixpoint first_some {A B : Type} (f : A -> option B) (l : list A) : option B :=
  match l with
  | [] => None
  | x :: l' => match f x with Some y => Some y | None => first_some f l' end
  end.
Definition strip_white (s : string) : option string := first_some (fun w => strip_prefix w s) WHITE_SPACE.
Definition strip_white_end (s : string) : option string := first_some (fun w => strip_suffix w s) WHITE_SPACE.
Fixpoint repeat_strip (strip : string -> option string) (fuel : nat) (s : string) : string :=
  match fuel with
  | O => s
  | S fuel' => match strip s with Some rest => repeat_strip strip fuel' rest | None => s end
  end.
Definition trim_start (s : string) : string := repeat_strip strip_white (String.length s) s.
Definition trim_end (s : string) : string := repeat_strip strip_white_end (String.length s) s.
Definition trim (s : string) : string := trim_end (trim_start s).

(** [str::lines]: the pieces between line feeds, each without a carriage return before its
    line feed, and no piece after the last line feed. *)
Definition LF : ascii := "010".
Definition CR : ascii := "013".
Definition lf : string := String LF "".
Definition crlf_text : string := String CR lf.
Fixpoint end_lines (pieces : list string) : list string :=
  match pieces with
  | [] => []
  | [last_] => if String.eqb last_ "" then [] else [last_]
  | piece :: rest => default piece (strip_suffix (String CR "") piece) :: end_lines rest
  end.
Definition lines (s : string) : list string := end_lines (split_char LF s).

(** ** Data *)

Definition CURRENT_VERSION : N := 1.
Definition OCX_LABEL : string := "ocx".
Definition MANAGED_LABEL : string := "ocx managed".
Definition CLOSER : string := "# <<< ocx <<<".
Record ParsedBlock : Type := mkBlock {
  pb_version : N;
  pb_marker : option string;
  pb_body : string;
  pb_opener_line : nat;
  pb_closer_line : nat;
}.
Inductive BlockState : Type := Fresh | Current | FormatUpgraded | Dirty.
#[export] Instance BlockState_eq_dec : EqDecision BlockState.
Proof. solve_decision. Defined.

(** The hash function, and the decimal digits of other scripts that [\d] accepts: the text
    after one of them. *)
Class ProfileText : Type := {
  sha256_bytes : string -> list N;
  strip_other_digit : string -> option string;
}.

Section Profile.
Context `{ProfileText}.

(** [unix_lines]: [replace("\r\n", "\n").replace('\r', "\n")]. *)
Definition unix_lines (s : string) : string := replace_char CR LF (str_replace crlf_text lf s).

(** [normalize], [canonical_hash]. *)
Definition normalize_body (body : string) : string :=
  let unix := unix_lines body in default unix (strip_suffix lf unix).
Definition hex_digit (n : N) : ascii := ascii_of_N (if (n <? 10)%N then 48 + n else 87 + n).
Definition hex_encode (l : list N) : string :=
  fold_right (fun n s => String (hex_digit (n / 16)) (String (hex_digit (n mod 16)) s)) "" l.
Definition canonical_hash (body : string) : string := hex_encode (firstn 4 (sha256_bytes (normalize_body body))).

(** [closer_text], [RcBlock::render]. *)
Definition closer_text (label : string) : string := "# <<< " +:+ label +:+ " <<<".
Definition opener_text (label body : string) : string :=
  "# >>> " +:+ label +:+ " v" +:+ u32_to_string CURRENT_VERSION +:+ " " +:+ canonical_hash body +:+ " >>>".
Definition render_block (body label : string) : string :=
  opener_text label body +:+ lf +:+ body +:+ lf +:+ closer_text label +:+ lf.

(** [opener_regex]: [^\s*# >>> label v(\d+)(?: ([0-9a-f]{8}))? >>>\s*$]. *)
Fixpoint span_digits (fuel : nat) (s : string) : string * string :=
  match fuel with
  | O => ("", s)
  | S fuel' =>
      match s with
      | EmptyString => ("", "")
      | String c s' =>
          if is_digit c then let '(a, b) := span_digits fuel' s' in (String c a, b)
          else match strip_other_digit s with
               | Some rest =>
                   let '(a, b) := span_digits fuel' rest in
                   (String.substring 0 (String.length s - String.length rest) s +:+ a, b)
               | None => ("", s)
               end
      end
  end.
Definition is_lower_hex (c : ascii) : bool := is_digit c || in_range "a" "f" c.
Definition opener_end (s : string) : bool :=
  match strip_prefix " >>>" s with Some rest => String.eqb (trim_start rest) "" | None => false end.
Definition opener_captures (label line : string) : option (string * option string) :=
  rest ← strip_prefix ("# >>> " +:+ label +:+ " v") (trim_start line);
  let '(digits, rest) := span_digits (String.length rest) rest in
  if String.eqb digits "" then None
  else
    let with_marker :=
      after ← strip_prefix " " rest;
      let marker := String.substring 0 8 after in
      if (String.length marker =? 8)%nat && str_forall is_lower_hex marker && opener_end (String.substring 8 (String.length after - 8) after)
      then Some (digits, Some marker) else None in
    match with_marker with
    | Some captures => Some captures
    | None => if opener_end rest then Some (digits, None) else None
    end.

(** [dominant_is_crlf]. *)
Fixpoint count_from (pat s : string) (skip : nat) : nat :=
  match s with
  | EmptyString => 0
  | String _ s' =>
      match skip with
      | S k => count_from pat s' k
      | O => if starts_with pat s then S (count_from pat s' (pred (String.length pat))) else count_from pat s' 0
      end
  end.
Definition dominant_is_crlf (content : string) : bool :=
  let crlf := count_from crlf_text content 0 in
  if (crlf =? 0)%nat then false
  else
    let total_lf := count_from lf content 0 in
    let bare_lf := (total_lf - crlf)%nat in
    (bare_lf <? crlf)%nat.

(** [find_all_blocks]: from each opener to the next closer; an opener without one is no
    block. *)
Fixpoint scan_closer (closer : string) (scan : nat) (lines : list string) : option nat :=
  match lines with
  | [] => None
  | line :: rest => if String.eqb (trim line) closer then Some scan else scan_closer closer (S scan) rest
  end.
Fixpoint scan_blocks (label : string) (index skip : nat) (lines : list string) : list ParsedBlock :=
  match lines with
  | [] => []
  | line :: rest =>
      match skip with
      | S skip' => scan_blocks label (S index) skip' rest
      | O =>
          match opener_captures label line with
          | None => scan_blocks label (S index) 0 rest
          | Some (digits, marker) =>
              match scan_closer (closer_text label) (S index) rest with
              | None => scan_blocks label (S index) 0 rest
              | Some closer_line =>
                  mkBlock (default CURRENT_VERSION (u32_parse digits)) marker
                    (str_join lf (firstn (closer_line - S index) rest)) index closer_line
                  :: scan_blocks label (S index) (closer_line - index) rest
              end
          end
      end
  end.
Definition find_all_blocks (content label : string) : list ParsedBlock := scan_blocks label 0 0 (lines (unix_lines content)).
Definition find_block (content label : string) : option ParsedBlock := head (find_all_blocks content label).

(** [classify_block]. *)
Definition classify_block (content body label : string) : BlockState :=
  match find_block content label with
  | None => Fresh
  | Some block =>
      let actual := canonical_hash (pb_body block) in
      let canonical := canonical_hash body in
      let current := (pb_version block =? CURRENT_VERSION)%N && String.eqb actual canonical in
      match pb_marker block with
      | Some marker => if negb (String.eqb marker actual) then Dirty else if current then Current else FormatUpgraded
      | None => if current then Current else FormatUpgraded
      end
  end.

(** [apply_line_ending], [append_block], [rewrite_blocks], [apply]. *)
Definition apply_line_ending (normalized : string) (crlf : bool) : string :=
  if crlf then str_replace lf crlf_text normalized else normalized.
Definition append_block (content body label : string) : string :=
  let crlf := dominant_is_crlf content in
  let block := render_block body label in
  let normalized := unix_lines content in
  apply_line_ending
    (if String.eqb normalized "" then block
     else (if str_ends_with lf normalized then normalized else normalized +:+ lf) +:+ lf +:+ block) crlf.
Definition block_at (blocks : list ParsedBlock) (index : nat) : option ParsedBlock :=
  List.find (fun block => (pb_opener_line block =? index)%nat) blocks.
Fixpoint splice (blocks : list ParsedBlock) (replacement : nat -> list string) (index skip : nat) (lines : list string) : list string :=
  match lines with
  | [] => []
  | line :: rest =>
      match skip with
      | S skip' => splice blocks replacement (S index) skip' rest
      | O =>
          match block_at blocks index with
          | Some block => (replacement index ++ splice blocks replacement (S index) (pb_closer_line block - index) rest)%list
          | None => line :: splice blocks replacement (S index) 0 rest
          end
      end
  end.
Fixpoint trim_end_lf (fuel : nat) (s : string) : string :=
  match fuel with
  | O => s
  | S fuel' => match strip_suffix lf s with Some rest => trim_end_lf fuel' rest | None => s end
  end.
Definition rewrite_blocks (content body : string) (blocks : list ParsedBlock) (label : string) : string :=
  let crlf := dominant_is_crlf content in
  let normalized := unix_lines content in
  let trailing_newline := str_ends_with lf normalized in
  let block_text := render_block body label in
  let block_lines := lines (trim_end_lf (String.length block_text) block_text) in
  let first_opener := pb_opener_line <$> head blocks in
  let output := splice blocks (fun index => if bool_decide (Some index = first_opener) then block_lines else []) 0 0 (lines normalized) in
  let joined := str_join lf output in
  apply_line_ending (if trailing_newline then joined +:+ lf else joined) crlf.
Definition apply_block (content body : string) (force : bool) (label : string) : option string :=
  let state := classify_block content body label in
  let blocks := find_all_blocks content label in
  match state with
  | Current => None
  | Dirty => if negb force then None else Some (rewrite_blocks content body blocks label)
  | Fresh => Some (append_block content body label)
  | FormatUpgraded => Some (rewrite_blocks content body blocks label)
  end.

(** [is_legacy_init_line], [is_legacy_env_line], [strip_block], [remove_block],
    [has_legacy_artifacts]. *)
Definition is_legacy_init_line (line : string) : bool :=
  match strip_prefix ". " (trim_start line) with Some rest => contains ".ocx/init." rest | None => false end.
Definition is_legacy_env_line (line : string) : bool :=
  match strip_prefix ". " (trim_start line) with
  | Some rest => let rest := trim_end rest in str_ends_with ".ocx/env" rest || str_ends_with (".ocx/env" +:+ String "034" "") rest
  | None => false
  end.
Fixpoint strip_lines (index skip : nat) (lines : list string) : list string :=
  match lines with
  | [] => []
  | line :: rest =>
      match skip with
      | S skip' => strip_lines (S index) skip' rest
      | O =>
          match (if bool_decide (is_Some (opener_captures OCX_LABEL line)) then scan_closer CLOSER (S index) rest else None) with
          | Some closer => strip_lines (S index) (closer - index) rest
          | None =>
              match (if String.eqb (trim line) "# BEGIN ocx" then scan_closer "# END ocx" (S index) rest else None) with
              | Some end_ => strip_lines (S index) (end_ - index) rest
              | None =>
                  if is_legacy_init_line line || is_legacy_env_line line then strip_lines (S index) 0 rest
                  else line :: strip_lines (S index) 0 rest
              end
          end
      end
  end.
Definition rejoin (output : list string) (trailing_newline : bool) : string :=
  let joined := str_join lf output in
  if trailing_newline && negb (String.eqb joined "") then joined +:+ lf else joined.
Definition strip_block (content : string) : string :=
  let crlf := dominant_is_crlf content in
  let normalized := unix_lines content in
  apply_line_ending (rejoin (strip_lines 0 0 (lines normalized)) (str_ends_with lf normalized)) crlf.
Definition remove_block (content label : string) : string :=
  match find_all_blocks content label with
  | [] => content
  | blocks =>
      let crlf := dominant_is_crlf content in
      let normalized := unix_lines content in
      apply_line_ending (rejoin (splice blocks (fun _ => []) 0 0 (lines normalized)) (str_ends_with lf normalized)) crlf
  end.
Definition is_legacy_line (line : string) : bool :=
  String.eqb (trim line) "# BEGIN ocx" || is_legacy_init_line line || is_legacy_env_line line.
Definition has_legacy_artifacts (content : string) : bool := existsb is_legacy_line (lines (unix_lines content)).

(** ** A profile *)

(** [ProfileOutcome] and the decision of [apply_fence]: the outcome, and the content to
    write. *)
Inductive ProfileOutcome : Type := Completed | NoOp | Migrated | SkippedDirty.
Definition apply_fence (content body : string) (force heal_only : bool) : ProfileOutcome * option string :=
  let state := classify_block content body OCX_LABEL in
  if bool_decide (state = Dirty) && negb force then (SkippedDirty, None)
  else
    let has_legacy := has_legacy_artifacts content in
    if heal_only && bool_decide (state = Fresh) && negb has_legacy then (NoOp, None)
    else if has_legacy then
      match apply_block (strip_block content) body force OCX_LABEL with
      | Some new_content => (Migrated, Some new_content)
      | None => (NoOp, None)
      end
    else
      match apply_block content body force OCX_LABEL with
      | Some new_content => (Completed, Some new_content)
      | None => (NoOp, None)
      end.
End Profile.
