(* ===== verification/RcBlockSpec.v ===== *)
(** * The profile block is exact and settles

    A profile reads as a sequence of the user's lines and fences; an edit puts one canonical
    fence in the place of the first one, keeps every line of the user, and leaves a profile
    the next run does not touch. *)

From stdpp Require Import base decidable list option numbers strings.
From Stdlib Require Import Lia Ascii.
From S2P Require Import Prelude Text TextSearch RcBlock.
Local Open Scope string_scope.

(** What the hash and the digits of other scripts promise. *)
Class ProfileTextLaws `{ProfileText} : Prop := {
  sha256_length s : length (sha256_bytes s) = 32%nat;
  sha256_range s : Forall (fun n => (n < 256)%N) (sha256_bytes s);
  other_digit_space s : strip_other_digit (String " " s) = None;
}.

Definition no_line_end (s : string) : bool := negb (str_mem LF s) && negb (str_mem CR s).

(** ** Line ends *)

Lemma unix_lines_no_cr s : str_mem CR (unix_lines s) = false.
Proof. by apply replace_char_mem. Qed.

Lemma str_mem_cons c d s : str_mem c (String d s) = (Ascii.eqb c d || str_mem c s)%bool.
Proof. reflexivity. Qed.

Lemma starts_with_cons c d pat s : starts_with (String c pat) (String d s) = (Ascii.eqb c d && starts_with pat s)%bool.
Proof. unfold starts_with; simpl; destruct (Ascii.eqb c d); [done|]. by rewrite bool_decide_eq_false_2 by apply is_Some_None. Qed.

Lemma crlf_back s : str_mem CR s = false -> str_replace crlf_text lf (str_replace lf crlf_text s) = s.
Proof.
  induction s as [|c s IH]; [done|]. rewrite str_mem_cons, orb_false_iff; intros [E Hs].
  destruct (Ascii.eqb LF c) eqn:El.
  - apply Ascii.eqb_eq in El as <-. change (String LF s) with (lf +:+ s).
    by rewrite replace_here, replace_here, IH.
  - rewrite (replace_step lf) by (unfold lf; rewrite starts_with_cons; by rewrite El).
    rewrite replace_step by (unfold crlf_text; rewrite starts_with_cons; by rewrite E).
    by rewrite IH.
Qed.

Lemma unix_lines_id s : str_mem CR s = false -> unix_lines s = s.
Proof.
  intros Hs. unfold unix_lines. assert (str_replace crlf_text lf s = s) as ->; [|by apply replace_char_id].
  induction s as [|c s IH]; [done|]. rewrite str_mem_cons, orb_false_iff in Hs; destruct Hs as [E Hs].
  rewrite replace_step by (unfold crlf_text; rewrite starts_with_cons; by rewrite E). by rewrite IH.
Qed.

(** Writing a text with either line end and reading it back is the identity. *)
Lemma unix_line_ending s crlf : str_mem CR s = false -> unix_lines (apply_line_ending s crlf) = s.
Proof.
  destruct crlf; simpl; [|apply unix_lines_id]. intros Hs. unfold unix_lines.
  rewrite crlf_back by done. by apply replace_char_id.
Qed.

(** ** The lines of a profile *)

(** Between line feeds, the text after the last one included. *)
Definition profile_lines (content : string) : list string := split_char LF (unix_lines content).

Lemma strip_suffix_None_mem c s : str_mem c s = false -> strip_suffix (String c "") s = None.
Proof.
  intros Hs. destruct (strip_suffix (String c "") s) as [r|] eqn:E; [|done].
  apply strip_suffix_Some in E as ->. rewrite str_mem_app, orb_false_iff, str_mem_cons, Ascii.eqb_refl in Hs. by destruct Hs.
Qed.

Lemma strip_suffix_of_app suf s : strip_suffix suf (s +:+ suf) = Some s.
Proof.
  induction s as [|c s IH].
  - change ("" +:+ suf) with suf. destruct suf; unfold strip_suffix; by rewrite ?String.eqb_refl.
  - change (String c s +:+ suf) with (String c (s +:+ suf)). cbn [strip_suffix].
    destruct (String.eqb_spec (String c (s +:+ suf)) suf) as [E|E]; [|by rewrite IH].
    exfalso. apply (f_equal String.length) in E. simpl in E. rewrite str_length_app in E. lia.
Qed.

(** Without its last blank piece. *)
Definition drop_blank (l : list string) : list string :=
  match last l with Some "" => removelast l | _ => l end.

Lemma end_lines_drop l : (forall s, In s l -> str_mem CR s = false) -> end_lines l = drop_blank l.
Proof.
  induction l as [|a [|b l] IH]; intros Hl; [done|simpl; unfold drop_blank; simpl; by destruct a|].
  cbn [end_lines]. rewrite strip_suffix_None_mem by (apply Hl; by left). cbn [default].
  change (match l with [] => _ | _ => _ end) with (end_lines (b :: l)) .
  rewrite IH by (intros; apply Hl; by right).
  unfold drop_blank. change (last (a :: b :: l)) with (last (b :: l)).
  destruct (last (b :: l)) as [[|? ?]|]; done.
Qed.

Lemma profile_lines_no_cr content s : In s (profile_lines content) -> str_mem CR s = false.
Proof.
  intros Hin. destruct (str_mem CR s) eqn:E; [|done].
  pose proof (str_mem_split _ _ _ _ Hin E) as Hc. by rewrite unix_lines_no_cr in Hc.
Qed.

Lemma lines_profile content : lines (unix_lines content) = drop_blank (profile_lines content).
Proof. apply end_lines_drop, profile_lines_no_cr. Qed.

(** ** The parts of a profile *)

Section Parts.
Context `{ProfileText} (label : string).

Definition opens (line : string) : bool := bool_decide (is_Some (opener_captures label line)).
Definition closes (line : string) : bool := String.eqb (trim line) (closer_text label).

Inductive Part : Type :=
| UserLine (line : string)
| Fence (opener : string) (body : list string) (closer : string).

Definition part_lines (part : Part) : list string :=
  match part with UserLine line => [line] | Fence opener body closer => opener :: (body ++ [closer])%list end.
Definition is_fence (part : Part) : bool := match part with UserLine _ => false | Fence _ _ _ => true end.

(** A fence runs from an opener to the next closer; a line of the user is no opener, or one
    without a closer behind it. *)
Inductive Parted : list string -> list Part -> Prop :=
| parted_nil : Parted [] []
| parted_line line rest parts :
    opens line = false \/ Forall (fun l => closes l = false) rest ->
    Parted rest parts -> Parted (line :: rest) (UserLine line :: parts)
| parted_fence opener body closer rest parts :
    opens opener = true -> Forall (fun l => closes l = false) body -> closes closer = true ->
    Parted rest parts -> Parted (opener :: body ++ closer :: rest)%list (Fence opener body closer :: parts).

Lemma parted_lines l parts : Parted l parts -> l = (parts ≫= part_lines).
Proof. induction 1 as [|line rest parts _ _ ->|o b c rest parts _ _ _ _ ->]; simpl; [done|done|]. by rewrite <- app_assoc. Qed.

Lemma first_closer l : Forall (fun s => closes s = false) l \/
  exists body closer rest, l = (body ++ closer :: rest)%list /\ Forall (fun s => closes s = false) body /\ closes closer = true.
Proof.
  induction l as [|s l [IH|(b & c & r & -> & Hb & Hc)]]; [by left|..]; (destruct (closes s) eqn:E; [right; by eexists [], s, _|]).
  - left. by constructor.
  - right. exists (s :: b), c, r. auto.
Qed.

(** Every profile has its parts, *)
Lemma parted_total l : exists parts, Parted l parts.
Proof.
  induction l as [l IH] using (induction_ltof1 _ length); unfold ltof in IH.
  destruct l as [|s l]; [exists []; constructor|].
  assert (Hline : opens s = false \/ Forall (fun x => closes x = false) l -> exists parts, Parted (s :: l) parts).
  { intros Hs. destruct (IH l) as [parts Hp]; [simpl; lia|]. exists (UserLine s :: parts). by constructor. }
  destruct (opens s) eqn:Eo; [|by auto].
  destruct (first_closer l) as [Hl|(b & c & r & -> & Hb & Hc)]; [by auto|].
  destruct (IH r) as [parts Hp]; [simpl; rewrite length_app; simpl; lia|].
  exists (Fence s b c :: parts). by constructor.
Qed.

Lemma first_closer_unique b c l b' c' l' :
  (b ++ c :: l = b' ++ c' :: l')%list ->
  Forall (fun s => closes s = false) b -> closes c = true -> Forall (fun s => closes s = false) b' -> closes c' = true ->
  b = b' /\ c = c' /\ l = l'.
Proof.
  revert b'; induction b as [|x b IH]; intros [|y b'] Eq Hb Hc Hb' Hc'; simpl in Eq; injection Eq as -> Eq; subst; [done|..].
  - inversion Hb'; congruence.
  - inversion Hb; congruence.
  - inversion Hb; inversion Hb'; subst. by destruct (IH b') as (-> & -> & ->).
Qed.

(** and one reading only. *)
Lemma parted_det l p q : Parted l p -> Parted l q -> p = q.
Proof.
  intros Hp; revert q; induction Hp as [|s l p Hs Hp IH|o b c l p Ho Hb Hc Hp IH]; intros q Hq;
    inversion Hq as [|s' l' p' Hs' Hp'|o' b' c' l' p' Ho' Hb' Hc' Hp']; subst; try done.
  - f_equal. by apply IH.
  - destruct Hs as [Hs|Hs]; [congruence|]. rewrite Forall_app, Forall_cons in Hs. destruct Hs as (_ & Hs & _). congruence.
  - destruct Hs' as [Hs'|Hs']; [congruence|]. rewrite Forall_app, Forall_cons in Hs'. destruct Hs' as (_ & Hs' & _). congruence.
  - edestruct (first_closer_unique b' c' l' b c l) as (-> & -> & ->); [done..|]. f_equal. by apply IH.
Qed.

(** ** The scanner reads the parts *)

Definition block_of (index : nat) (opener : string) (body : list string) : ParsedBlock :=
  let captures := default ("", None) (opener_captures label opener) in
  mkBlock (default CURRENT_VERSION (u32_parse (fst captures))) (snd captures) (str_join lf body) index (S (index + length body)).
Fixpoint blocks_of (index : nat) (parts : list Part) : list ParsedBlock :=
  match parts with
  | [] => []
  | UserLine _ :: rest => blocks_of (S index) rest
  | Fence opener body _ :: rest => block_of index opener body :: blocks_of (index + (2 + length body)) rest
  end.

Lemma scan_closer_none scan l : Forall (fun s => closes s = false) l -> scan_closer (closer_text label) scan l = None.
Proof. intros Hl; revert scan; induction Hl as [|s l Hs _ IH]; intros scan; simpl; [done|]. unfold closes in Hs. by rewrite Hs. Qed.

Lemma scan_closer_first scan body closer rest :
  Forall (fun s => closes s = false) body -> closes closer = true ->
  scan_closer (closer_text label) scan (body ++ closer :: rest) = Some (scan + length body)%nat.
Proof.
  intros Hb Hc; revert scan; induction Hb as [|s l Hs _ IH]; intros scan; simpl.
  - unfold closes in Hc. rewrite Hc. f_equal; lia.
  - unfold closes in Hs. rewrite Hs, IH. f_equal; lia.
Qed.

Lemma scan_blocks_skip index skip l : (skip <= length l)%nat ->
  scan_blocks label index skip l = scan_blocks label (index + skip) 0 (drop skip l).
Proof.
  revert index skip; induction l as [|s l IH]; intros index [|skip] Hl; simpl in Hl |- *; rewrite ?Nat.add_0_r; try done; try lia.
  rewrite IH by lia. f_equal; lia.
Qed.

Lemma parted_blocks l parts index : Parted l parts -> scan_blocks label index 0 l = blocks_of index parts.
Proof.
  intros Hp; revert index; induction Hp as [|s l p Hs Hp IH|o b c l p Ho Hb Hc Hp IH]; intros index; [done|..]; cbn [scan_blocks blocks_of].
  - rewrite IH. destruct (opener_captures label s) as [[digits marker]|] eqn:E; [|done].
    destruct Hs as [Hs|Hs]; [|by rewrite scan_closer_none].
    unfold opens in Hs. rewrite E, bool_decide_eq_true_2 in Hs by eauto. done.
  - unfold opens in Ho. apply bool_decide_eq_true in Ho as [[digits marker] E]. rewrite E.
    rewrite scan_closer_first by done. unfold block_of at 1. rewrite E. simpl. f_equal.
    + f_equal. f_equal. replace (index + length b - index)%nat with (length b) by lia. by rewrite take_app_length.
    + rewrite scan_blocks_skip by (rewrite length_app; simpl; lia). rewrite <- IH. f_equal; [lia|].
      replace (S (index + length b) - index)%nat with (length (b ++ [c])) by (rewrite length_app; simpl; lia).
      change (c :: l)%list with ([c] ++ l)%list. by rewrite app_assoc, drop_app_length.
Qed.

(** ** An edit by parts *)

Definition user_parts (parts : list Part) : list Part := List.filter (fun part => negb (is_fence part)) parts.
Fixpoint settle (fence : Part) (parts : list Part) : list Part :=
  match parts with
  | [] => []
  | UserLine line :: rest => UserLine line :: settle fence rest
  | Fence _ _ _ :: rest => fence :: user_parts rest
  end.

Lemma splice_skip blocks repl index skip l : (skip <= length l)%nat ->
  splice blocks repl index skip l = splice blocks repl (index + skip) 0 (drop skip l).
Proof.
  revert index skip; induction l as [|s l IH]; intros index [|skip] Hl; simpl in Hl |- *; rewrite ?Nat.add_0_r; try done; try lia.
  rewrite IH by lia. f_equal; lia.
Qed.

Lemma blocks_of_after index parts : Forall (fun b => index <= pb_opener_line b)%nat (blocks_of index parts).
Proof.
  revert index; induction parts as [|[s|o b c] parts IH]; intros index; simpl; [done|..].
  - eapply Forall_impl; [apply IH|]. simpl; lia.
  - constructor; [simpl; lia|]. eapply Forall_impl; [apply IH|]. simpl; lia.
Qed.

Lemma block_at_app pre rest index : Forall (fun b => pb_opener_line b < index)%nat pre ->
  block_at (pre ++ rest) index = block_at rest index.
Proof.
  induction 1 as [|b pre Hb _ IH]; [done|]. unfold block_at in *; simpl.
  destruct (Nat.eqb_spec (pb_opener_line b) index); [lia|done].
Qed.

Lemma block_at_later blocks index : Forall (fun b => S index <= pb_opener_line b)%nat blocks -> block_at blocks index = None.
Proof.
  induction 1 as [|b pre Hb _ IH]; [done|]. unfold block_at in *; simpl.
  destruct (Nat.eqb_spec (pb_opener_line b) index); [lia|done].
Qed.

(** What [splice] writes, part by part. *)
Fixpoint spliced (repl : nat -> list string) (index : nat) (parts : list Part) : list string :=
  match parts with
  | [] => []
  | UserLine line :: rest => line :: spliced repl (S index) rest
  | Fence _ body _ :: rest => (repl index ++ spliced repl (index + (2 + length body)) rest)%list
  end.

Lemma parted_splice l parts pre repl index : Parted l parts -> Forall (fun b => pb_opener_line b < index)%nat pre ->
  splice (pre ++ blocks_of index parts) repl index 0 l = spliced repl index parts.
Proof.
  intros Hp; revert pre index; induction Hp as [|s l p Hs Hp IH|o b c l p Ho Hb Hc Hp IH]; intros pre index Hpre; [done|..]; cbn [splice blocks_of spliced].
  - rewrite block_at_app, block_at_later by (done || apply blocks_of_after). f_equal. apply IH.
    eapply Forall_impl; [done|]. simpl; lia.
  - rewrite block_at_app by done. unfold block_at; simpl. rewrite Nat.eqb_refl. f_equal.
    simpl pb_closer_line. rewrite splice_skip by (rewrite length_app; simpl; lia).
    change (block_of index o b :: blocks_of (index + S (S (length b))) p)%list with ([block_of index o b] ++ blocks_of (index + (2 + length b)) p)%list.
    rewrite app_assoc.
    replace (S index + (S (index + length b) - index))%nat with (index + (2 + length b))%nat by lia.
    replace (S (index + length b) - index)%nat with (length (b ++ [c])) by (rewrite length_app; simpl; lia).
    change (c :: l)%list with ([c] ++ l)%list. rewrite (app_assoc b), drop_app_length. apply IH.
    apply Forall_app; split; [eapply Forall_impl; [done|]; simpl; lia|]. repeat constructor. simpl; lia.
Qed.

Lemma spliced_none repl index parts : (forall i, index <= i -> repl i = [])%nat ->
  spliced repl index parts = (user_parts parts ≫= part_lines).
Proof.
  revert index; induction parts as [|[s|o b c] parts IH]; intros index Hr; simpl; [done|..].
  - f_equal. apply IH. intros; apply Hr; lia.
  - rewrite Hr by lia. simpl. apply IH. intros; apply Hr; lia.
Qed.

Lemma spliced_first new fence index parts : part_lines fence = new ->
  spliced (fun i => if bool_decide (Some i = (pb_opener_line <$> head (blocks_of index parts))) then new else []) index parts
  = (settle fence parts ≫= part_lines).
Proof.
  intros Hn; revert index; induction parts as [|[s|o b c] parts IH]; intros index; cbn [spliced settle blocks_of]; [done|..].
  - simpl. f_equal. apply IH.
  - simpl head. simpl fmap. rewrite bool_decide_eq_true_2 by done. simpl. rewrite Hn. f_equal. apply spliced_none.
    intros i Hi. rewrite bool_decide_eq_false_2; [done|]. intros [=]; lia.
Qed.

(** ** The parts of what was written *)

Lemma user_parts_incl parts s : In s (user_parts parts ≫= part_lines) -> In s (parts ≫= part_lines).
Proof.
  induction parts as [|[t|o b c] parts IH]; simpl; [done|..]; intros Hs.
  - destruct Hs as [->|Hs]; auto.
  - right. apply in_app_iff. auto.
Qed.

Lemma parted_user l parts : Parted l parts -> Parted (user_parts parts ≫= part_lines) (user_parts parts).
Proof.
  induction 1 as [|s l p Hs Hp IH|o b c l p Ho Hb Hc Hp IH]; simpl; [constructor| |done].
  constructor; [|done]. destruct Hs as [Hs|Hs]; [by left|right].
  apply List.Forall_forall. intros x Hx. apply user_parts_incl in Hx. rewrite <- (parted_lines _ _ Hp) in Hx.
  by apply (proj1 (List.Forall_forall _ _) Hs).
Qed.

Lemma fence_closer l parts : Parted l parts -> existsb is_fence parts = true -> exists s, In s l /\ closes s = true.
Proof.
  induction 1 as [|s l p Hs Hp IH|o b c l p Ho Hb Hc Hp IH]; simpl; [done|..]; intros Hf.
  - destruct (IH Hf) as (x & Hx & Ex). eauto.
  - exists c; split; [|done]. right. apply in_app_iff. right. by left.
Qed.

Definition sound_fence (part : Part) : Prop :=
  match part with
  | UserLine _ => False
  | Fence opener body closer => opens opener = true /\ Forall (fun l => closes l = false) body /\ closes closer = true
  end.

Lemma parted_cons_fence fence l parts : sound_fence fence -> Parted l parts -> Parted (part_lines fence ++ l) (fence :: parts).
Proof. destruct fence as [|o b c]; [done|]. intros (Ho & Hb & Hc) Hp. simpl. rewrite <- app_assoc. by constructor. Qed.

Lemma parted_settle l parts fence : Parted l parts -> existsb is_fence parts = true -> sound_fence fence ->
  Parted (settle fence parts ≫= part_lines) (settle fence parts).
Proof.
  intros Hp Hf Hn; induction Hp as [|s l p Hs Hp IH|o b c l p Ho Hb Hc Hp IH]; simpl in Hf |- *; [done|..].
  - constructor; [|by apply IH]. left. destruct Hs as [Hs|Hs]; [done|].
    destruct (fence_closer _ _ Hp Hf) as (x & Hx & Ex). pose proof (proj1 (List.Forall_forall _ _) Hs x Hx). simpl in *. congruence.
  - apply parted_cons_fence; [done|]. by eapply parted_user.
Qed.

Lemma parted_plain l : Forall (fun s => opens s = false) l -> Parted l (map UserLine l).
Proof. induction 1; simpl; constructor; auto. Qed.

Lemma parted_app_plain l l' parts : Forall (fun s => opens s = false) l -> Parted l' parts -> Parted (l ++ l') (map UserLine l ++ parts).
Proof. induction 1; simpl; [done|]. constructor; auto. Qed.

Lemma blocks_of_nil index parts : blocks_of index parts = [] <-> existsb is_fence parts = false.
Proof. revert index; induction parts as [|[s|o b c] parts IH]; intros index; simpl; [done|apply IH|done]. Qed.
End Parts.

(** ** The text written *)

Definition line_text (s : string) : Prop := str_mem LF s = false /\ str_mem CR s = false.

Lemma profile_lines_text content : Forall line_text (profile_lines content).
Proof.
  apply List.Forall_forall. intros s Hs. split; [by eapply split_char_pieces|by eapply profile_lines_no_cr].
Qed.

Lemma join_no_cr l : Forall line_text l -> str_mem CR (str_join lf l) = false.
Proof.
  induction 1 as [|s l [_ Hs] _ IH]; [done|]. destruct l as [|t l]; [done|].
  change (str_join lf (s :: t :: l)) with (s +:+ lf +:+ str_join lf (t :: l)). by rewrite !str_mem_app, Hs, IH.
Qed.

Lemma written_lines l crlf : Forall line_text l -> l <> [] -> profile_lines (apply_line_ending (str_join lf l) crlf) = l.
Proof.
  intros Hl Hne. unfold profile_lines. rewrite unix_line_ending by by apply join_no_cr.
  apply split_char_join; [done|]. intros s Hs. by apply (proj1 (List.Forall_forall _ _) Hl).
Qed.

(** The text of [l] with the line end [content] uses most. *)
Definition written (content : string) (l : list string) : string := apply_line_ending (str_join lf l) (dominant_is_crlf content).

Lemma join_blank l : l <> [] -> str_join lf (l ++ [""]) = str_join lf l +:+ lf.
Proof.
  induction l as [|s [|t l] IH]; intros Hl; [done|done|].
  change (str_join lf ((s :: t :: l) ++ [""])) with (s +:+ lf +:+ str_join lf ((t :: l) ++ [""])).
  rewrite IH by done. change (str_join lf (s :: t :: l)) with (s +:+ lf +:+ str_join lf (t :: l)). by rewrite !str_app_assoc.
Qed.

Lemma split_lf_end r : split_char LF (r +:+ lf) = (split_char LF r ++ [""])%list.
Proof.
  rewrite <- (join_split_char LF r) at 1. fold lf. rewrite <- join_blank by apply split_char_ne.
  apply split_char_join; [by destruct (split_char LF r)|].
  intros s [Hs|[<-|[]]]%in_app_iff; [by eapply split_char_pieces|done].
Qed.

Lemma profile_text content : str_join lf (profile_lines content) = unix_lines content.
Proof. apply join_split_char. Qed.

(** The lines the code works on are the lines of the profile, the one after a last line feed
    left out. *)
Lemma lines_cases content :
  (str_ends_with lf (unix_lines content) = true /\ exists l, l <> [] /\ profile_lines content = (l ++ [""])%list /\ lines (unix_lines content) = l) \/
  (str_ends_with lf (unix_lines content) = false /\ lines (unix_lines content) = profile_lines content /\ unix_lines content <> "") \/
  (unix_lines content = "" /\ profile_lines content = [""] /\ lines (unix_lines content) = []).
Proof.
  rewrite lines_profile. pose proof (profile_text content) as Ht.
  destruct (exists_last (l := profile_lines content)) as (l & x & E); [apply split_char_ne|].
  rewrite E in Ht |- *. unfold drop_blank. rewrite last_snoc, removelast_last. unfold str_ends_with.
  destruct x as [|c x].
  - destruct l as [|y l]; [right; right; split_and!; [by rewrite <- Ht|done|done]|left]. split; [|exists (y :: l); by split_and!].
    apply bool_decide_eq_true. rewrite <- Ht, join_blank, strip_suffix_of_app by done. eauto.
  - right; left. split; [|split; [done|]].
    + apply bool_decide_eq_false. intros [r Hr]. apply strip_suffix_Some in Hr.
      unfold profile_lines in E. rewrite Hr, split_lf_end in E. by apply app_inj_tail in E as [_ ?].
    + intros E0. unfold profile_lines in E. rewrite E0 in E. destruct l as [|? [|? ?]]; done.
Qed.

Section Edits.
Context `{ProfileText} (label : string).

Lemma opens_blank : opens label "" = false.
Proof. done. Qed.
Lemma closes_blank : closes label "" = false.
Proof. done. Qed.

Lemma parted_snoc_blank l parts : Parted label l parts -> Parted label (l ++ [""]) (parts ++ [UserLine ""]).
Proof.
  induction 1 as [|s l p Hs Hp IH|o b c l p Ho Hb Hc Hp IH]; simpl; [apply (parted_plain _ [""]); by repeat constructor|..].
  - constructor; [|done]. destruct Hs as [Hs|Hs]; [by left|right]. apply Forall_app; split; [done|]. by repeat constructor.
  - rewrite <- app_assoc. by constructor.
Qed.

Lemma settle_app fence parts : existsb is_fence parts = true ->
  settle fence (parts ++ [UserLine ""]) = (settle fence parts ++ [UserLine ""])%list.
Proof.
  induction parts as [|[s|o b c] parts IH]; simpl; [done|..]; intros Hf; [by rewrite IH|].
  unfold user_parts. by rewrite List.filter_app.
Qed.

Lemma blocks_of_snoc index parts : blocks_of label index (parts ++ [UserLine ""]) = blocks_of label index parts.
Proof. revert index; induction parts as [|[s|o b c] parts IH]; intros index; simpl; by rewrite ?IH. Qed.
Lemma user_parts_snoc parts : user_parts (parts ++ [UserLine ""]) = (user_parts parts ++ [UserLine ""])%list.
Proof. unfold user_parts. by rewrite List.filter_app. Qed.

(** The blocks found are the fences among the parts. *)
Lemma found_blocks content parts : Parted label (profile_lines content) parts -> find_all_blocks content label = blocks_of label 0 parts.
Proof.
  intros Hp. unfold find_all_blocks. destruct (lines_cases content) as [(_ & l & Hl & El & ->)|[(_ & -> & _)|(_ & El & ->)]].
  - destruct (parted_total label l) as [q Hq]. rewrite El in Hp.
    by rewrite (parted_det _ _ _ _ Hp (parted_snoc_blank _ _ Hq)), (parted_blocks _ _ _ _ Hq), blocks_of_snoc.
  - by apply parted_blocks.
  - rewrite El in Hp. by rewrite <- (parted_blocks _ _ _ 0 Hp).
Qed.

(** ** The fence this binary writes *)

Fixpoint last_char (s : string) : option ascii :=
  match s with
  | EmptyString => None
  | String c "" => Some c
  | String _ s' => last_char s'
  end.

Lemma last_char_app a b : b <> "" -> last_char (a +:+ b) = last_char b.
Proof.
  intros Hb; induction a as [|c a IH]; [done|]. change (String c a +:+ b) with (String c (a +:+ b)).
  simpl. rewrite IH. destruct (a +:+ b) eqn:E; [|done]. destruct a, b; done.
Qed.

Lemma strip_white_end_none s c : last_char s = Some c -> c = "<"%char \/ c = ">"%char -> strip_white_end s = None.
Proof.
  intros Hs Hc. unfold strip_white_end.
  assert (Hall : Forall (fun w => w <> "" /\ last_char w <> Some c) WHITE_SPACE).
  { assert (forallb (fun w => negb (String.eqb w "") && bool_decide (last_char w <> Some c)) WHITE_SPACE = true) as Hw by (destruct Hc as [-> | ->]; vm_compute; done).
    apply List.Forall_forall. intros w Hin. rewrite forallb_forall in Hw. apply Hw in Hin.
    apply andb_true_iff in Hin as [Hw1 Hw2]. split; [|by apply bool_decide_eq_true in Hw2].
    intros ->. done. }
  induction Hall as [|w ws [Hw0 Hw] _ IH]; [done|]. simpl.
  destruct (strip_suffix w s) as [r|] eqn:E; [|done]. apply strip_suffix_Some in E as ->. by rewrite last_char_app in Hs.
Qed.

Lemma trim_hash s c : last_char (String "#" s) = Some c -> c = "<"%char \/ c = ">"%char -> trim (String "#" s) = String "#" s.
Proof.
  intros Hs Hc. unfold trim, trim_start. cbn [repeat_strip String.length].
  assert (strip_white (String "#" s) = None) as -> by done.
  unfold trim_end. cbn [repeat_strip String.length]. by rewrite (strip_white_end_none _ c).
Qed.

Lemma closes_closer : closes label (closer_text label) = true.
Proof.
  unfold closes. apply String.eqb_eq. unfold closer_text. apply (trim_hash _ "<"); [|by left].
  change (last_char ("# <<< " +:+ (label +:+ " <<<")) = Some "<"%char).
  rewrite last_char_app, last_char_app; [done|done|by destruct label].
Qed.

Lemma hex_digit_lower n : (n < 16)%N -> is_lower_hex (hex_digit n) = true.
Proof.
  intros Hn. assert (forallb (fun n => is_lower_hex (hex_digit (N.of_nat n))) (seq 0 16) = true) as Hc by (vm_compute; done).
  rewrite forallb_forall in Hc. specialize (Hc (N.to_nat n)). rewrite N2Nat.id in Hc. apply Hc, in_seq. lia.
Qed.

Lemma hex_encode_hex l : Forall (fun n => (n < 256)%N) l ->
  String.length (hex_encode l) = (2 * length l)%nat /\ str_forall is_lower_hex (hex_encode l) = true.
Proof.
  induction 1 as [|n l Hn _ [IHl IHf]]; [done|]. cbn [hex_encode fold_right]. fold (hex_encode l). simpl.
  rewrite IHl, IHf, !hex_digit_lower; [split; [lia|done]|apply N.mod_lt; done|apply N.Div0.div_lt_upper_bound; lia].
Qed.

Context `{!ProfileTextLaws}.

Lemma marker_text body : String.length (canonical_hash body) = 8%nat /\ str_forall is_lower_hex (canonical_hash body) = true.
Proof.
  unfold canonical_hash. destruct (hex_encode_hex (firstn 4 (sha256_bytes (normalize_body body)))) as [Hl Hf].
  - apply Forall_take, sha256_range.
  - rewrite Hl, length_take, sha256_length. done.
Qed.

Lemma substring_split a b : String.substring 0 (String.length a) (a +:+ b) = a /\
  String.substring (String.length a) (String.length (a +:+ b) - String.length a) (a +:+ b) = b.
Proof.
  split; [apply (substring_app "" a b)|].
  pose proof (substring_app a b "") as Hs. rewrite str_app_nil_r in Hs. rewrite str_length_app.
  by replace (String.length a + String.length b - String.length a)%nat with (String.length b) by lia.
Qed.

(** The opener written is read back with its version and marker. *)
Lemma opener_read body : opener_captures label (opener_text label body) = Some ("1", Some (canonical_hash body)).
Proof.
  unfold opener_captures, opener_text. unfold trim_start.
  change ("# >>> " +:+ label +:+ " v" +:+ u32_to_string CURRENT_VERSION +:+ " " +:+ canonical_hash body +:+ " >>>")
    with (String "#" (" >>> " +:+ label +:+ " v" +:+ "1" +:+ " " +:+ canonical_hash body +:+ " >>>")).
  cbn [repeat_strip String.length]. assert (Hw : forall s, strip_white (String "#" s) = None) by done. rewrite Hw.
  assert (forall r, strip_prefix ("# >>> " +:+ label +:+ " v") (String "#" (" >>> " +:+ label +:+ " v" +:+ r)) = Some r) as Hp.
  { intros r. apply strip_prefix_Some. by rewrite !str_app_assoc. }
  rewrite Hp. cbn [mbind option_bind]. destruct (marker_text body) as [Hl Hf].
  change ("1" +:+ " " +:+ canonical_hash body +:+ " >>>") with (String "1" (String " " (canonical_hash body +:+ " >>>"))).
  cbn [span_digits String.length]. change (is_digit "1") with true. change (is_digit " ") with false. cbv iota.
  rewrite other_digit_space. cbn [String.eqb mbind option_bind strip_prefix]. change (Ascii.eqb " " " ") with true. cbv iota.
  destruct (substring_split (canonical_hash body) " >>>") as [E1 E2]. rewrite Hl in E1, E2. cbn [mbind option_bind]. rewrite E1, E2, Hl, Hf. done.
Qed.

Definition our_fence (body : string) : Part := Fence (opener_text label body) (split_char LF body) (closer_text label).

(** A body no line of which closes the fence, with Unix line ends. *)
Definition body_ok (body : string) : Prop :=
  str_mem CR body = false /\ Forall (fun l => closes label l = false) (split_char LF body).

Lemma our_fence_sound body : body_ok body -> sound_fence label (our_fence body).
Proof.
  intros [_ Hb]. split_and!; [|done|apply closes_closer]. unfold opens. rewrite opener_read. by apply bool_decide_eq_true.
Qed.

Lemma join_app a b : a <> [] -> b <> [] -> str_join lf (a ++ b) = str_join lf a +:+ lf +:+ str_join lf b.
Proof.
  intros Ha Hb; induction a as [|s [|t a] IH]; [done|by destruct b|].
  change (str_join lf ((s :: t :: a) ++ b)) with (s +:+ lf +:+ str_join lf ((t :: a) ++ b)).
  rewrite IH by done. change (str_join lf (s :: t :: a)) with (s +:+ lf +:+ str_join lf (t :: a)). by rewrite !str_app_assoc.
Qed.

Lemma our_fence_join body : str_join lf (part_lines (our_fence body)) = opener_text label body +:+ lf +:+ body +:+ lf +:+ closer_text label.
Proof.
  pose proof (split_char_ne LF body) as Hne. cbn [part_lines our_fence].
  change (opener_text label body :: split_char LF body ++ [closer_text label])%list with ([opener_text label body] ++ (split_char LF body ++ [closer_text label]))%list.
  rewrite join_app, join_app by (done || by destruct (split_char LF body)).
  unfold lf at 3. by rewrite join_split_char.
Qed.

Lemma our_fence_last body : last_char (str_join lf (part_lines (our_fence body))) = Some "<"%char.
Proof.
  rewrite our_fence_join, <- !str_app_assoc. unfold closer_text. rewrite <- !str_app_assoc. by rewrite last_char_app.
Qed.

Context (Hlabel : line_text label).

Lemma line_text_app a b : line_text a -> line_text b -> line_text (a +:+ b).
Proof. intros [Ha Ha'] [Hb Hb']. split; by rewrite str_mem_app, ?Ha, ?Ha', ?Hb, ?Hb'. Qed.

Lemma our_fence_text body : body_ok body -> Forall line_text (part_lines (our_fence body)).
Proof.
  intros [Hcr _]. cbn [part_lines our_fence]. constructor; [|apply Forall_app; split].
  - destruct (marker_text body) as [_ Hm]. unfold opener_text. repeat apply line_text_app; try done.
    split; eapply str_mem_forall; done.
  - apply List.Forall_forall. intros s Hs. split; [by eapply split_char_pieces|].
    destruct (str_mem CR s) eqn:E; [|done]. pose proof (str_mem_split _ _ _ _ Hs E). congruence.
  - repeat constructor; by apply line_text_app, line_text_app.
Qed.

Lemma trim_end_lf_once s c : last_char s = Some c -> c <> LF -> trim_end_lf (String.length (s +:+ lf)) (s +:+ lf) = s.
Proof.
  intros Hl Hc. assert (exists n, String.length (s +:+ lf) = S (S n)) as [n ->].
  { rewrite str_length_app. destruct s as [|d s]; [done|]. exists (String.length s). simpl. lia. }
  cbn [trim_end_lf]. rewrite strip_suffix_of_app. destruct (strip_suffix lf s) as [r|] eqn:E; [|done].
  apply strip_suffix_Some in E as ->. rewrite last_char_app in Hl by done. by injection Hl as <-.
Qed.

Lemma our_block_lines body : body_ok body ->
  lines (trim_end_lf (String.length (render_block body label)) (render_block body label)) = part_lines (our_fence body).
Proof.
  intros Hb. pose proof (our_fence_text _ Hb) as Ht. pose proof (our_fence_last body) as Hl.
  assert (render_block body label = str_join lf (part_lines (our_fence body)) +:+ lf) as ->.
  { rewrite our_fence_join. unfold render_block. by rewrite !str_app_assoc. }
  rewrite (trim_end_lf_once _ "<") by done.
  unfold lines. unfold lf. rewrite split_char_join; [|done|intros s Hs; by apply (proj1 (List.Forall_forall _ _) Ht)].
  rewrite end_lines_drop by (intros s Hs; by apply (proj1 (List.Forall_forall _ _) Ht)).
  cbn [part_lines our_fence]. unfold drop_blank. by rewrite app_comm_cons, last_snoc.
Qed.

Lemma settle_text fence parts : Forall line_text (parts ≫= part_lines) -> Forall line_text (part_lines fence) ->
  Forall line_text (settle fence parts ≫= part_lines).
Proof.
  intros Hp Hf. apply List.Forall_forall. intros s. revert Hp; induction parts as [|[t|o b c] parts IH]; simpl; [done|..]; intros Hp.
  - inversion Hp; subst. intros [<-|Hs]; auto.
  - intros [Hs|Hs]%in_app_iff; [by apply (proj1 (List.Forall_forall _ _) Hf)|].
    apply user_parts_incl in Hs. apply (proj1 (List.Forall_forall _ _) Hp). right. apply in_app_iff. auto.
Qed.

Lemma settle_nonempty fence parts : existsb is_fence parts = true -> part_lines fence <> [] -> (settle fence parts ≫= part_lines) <> [].
Proof. destruct parts as [|[t|o b c] parts]; simpl; [done|done|]. intros _ Hf E. by apply app_nil in E as [? _]. Qed.

(** A rewritten profile: one fence in the place of the first, and every line of the user. *)
Lemma rewritten_lines content body parts : body_ok body -> Parted label (profile_lines content) parts -> existsb is_fence parts = true ->
  rewrite_blocks content body (find_all_blocks content label) label = written content (settle (our_fence body) parts ≫= part_lines).
Proof.
  intros Hb Hp Hf. unfold rewrite_blocks. rewrite our_block_lines, (found_blocks _ _ Hp) by done.
  unfold written. assert (Hsp : forall l q, Parted label l q -> blocks_of label 0 q = blocks_of label 0 parts ->
    splice (blocks_of label 0 parts) (fun index => if bool_decide (Some index = (pb_opener_line <$> head (blocks_of label 0 parts))) then part_lines (our_fence body) else []) 0 0 l
    = (settle (our_fence body) q ≫= part_lines)).
  { intros l q Hq Eq. rewrite <- Eq. rewrite (parted_splice label l q [] _ 0 Hq) by done. by apply spliced_first. }
  destruct (lines_cases content) as [(-> & l & Hl & El & ->)|[(-> & -> & _)|(_ & El & _)]].
  - destruct (parted_total label l) as [q Hq]. rewrite El in Hp.
    pose proof (parted_det _ _ _ _ Hp (parted_snoc_blank _ _ Hq)) as ->.
    assert (Hfq : existsb is_fence q = true) by (rewrite existsb_app in Hf; by destruct (existsb is_fence q)).
    rewrite (Hsp l q Hq) by by rewrite blocks_of_snoc.
    rewrite settle_app, bind_app by done. simpl. by rewrite <- join_blank by by apply settle_nonempty.
  - by rewrite (Hsp _ _ Hp eq_refl).
  - rewrite El in Hp. inversion Hp as [|s l q _ Hq|]; subst; [inversion Hq; by subst|done].
Qed.

(** The lines before an appended fence: the profile's, with a blank one at their end. *)
Definition lead (l : list string) : list string :=
  if bool_decide (l = [""]) then [] else if bool_decide (last l = Some "") then l else (l ++ [""])%list.

Lemma render_join body : render_block body label = str_join lf (part_lines (our_fence body) ++ [""]).
Proof. rewrite join_blank, our_fence_join by done. unfold render_block. by rewrite !str_app_assoc. Qed.

Lemma lead_text l : Forall line_text l -> Forall line_text (lead l).
Proof.
  intros Hl. unfold lead. repeat case_bool_decide; [done|done|]. apply Forall_app; split; [done|by repeat constructor].
Qed.

Lemma appended_lines content body :
  append_block content body label = written content (lead (profile_lines content) ++ part_lines (our_fence body) ++ [""]).
Proof.
  unfold append_block, written. rewrite render_join. f_equal.
  destruct (String.eqb_spec (unix_lines content) "") as [E|E].
  { unfold profile_lines. by rewrite E. }
  destruct (lines_cases content) as [(-> & l & Hl & El & _)|[(-> & El & _)|(? & _)]]; [| |done].
  - rewrite <- profile_text, El. unfold lead. rewrite last_snoc, bool_decide_eq_false_2, bool_decide_eq_true_2 by (done || by destruct l as [|? [|? ?]]).
    rewrite (join_app (l ++ [""])) by by destruct l. done.
  - rewrite lines_profile in El. rewrite <- profile_text. unfold lead.
    pose proof (split_char_ne LF (unix_lines content)) as Hne. change (profile_lines content <> []) in Hne.
    rewrite !bool_decide_eq_false_2.
    + rewrite (join_app (profile_lines content ++ [""])), (join_blank (profile_lines content)) by (done || by destruct (profile_lines content)). done.
    + intros El'. unfold drop_blank in El. rewrite El' in El. apply (f_equal length) in El. destruct (exists_last Hne) as (l & x & Ex). rewrite Ex, removelast_last, length_app in El. simpl in El. lia.
    + intros El'. apply E. by rewrite <- profile_text, El'.
Qed.

Lemma one_fence_blocks index parts fo fb fc : List.filter is_fence parts = [Fence fo fb fc] ->
  exists i, blocks_of label index parts = [block_of label i fo fb].
Proof.
  revert index; induction parts as [|[s|o b c] parts IH]; intros index; simpl; [done|..]; intros E; [by apply IH|].
  injection E as <- <- <- E. exists index. f_equal. apply blocks_of_nil.
  destruct (existsb is_fence parts) eqn:Ef; [|done]. apply existsb_exists in Ef as (x & Hx & Ex).
  assert (Hin : In x (List.filter is_fence parts)) by by apply filter_In. by rewrite E in Hin.
Qed.

Lemma settled_classify new body parts : Parted label (profile_lines new) parts -> List.filter is_fence parts = [our_fence body] ->
  classify_block new body label = Current.
Proof.
  intros Hp Hf. unfold classify_block, find_block. rewrite (found_blocks _ _ Hp).
  destruct (one_fence_blocks 0 _ _ _ _ Hf) as [i ->]. simpl. unfold block_of. rewrite opener_read. simpl.
  unfold lf. rewrite join_split_char, String.eqb_refl. done.
Qed.

Lemma user_parts_fence parts : List.filter is_fence (user_parts parts) = [].
Proof. induction parts as [|[s|o b c] parts IH]; done. Qed.

Lemma settle_one_fence fence parts : is_fence fence = true -> existsb is_fence parts = true -> List.filter is_fence (settle fence parts) = [fence].
Proof.
  intros Hf; induction parts as [|[s|o b c] parts IH]; simpl; [done|done|]. by rewrite Hf, user_parts_fence.
Qed.

Lemma plain_fences l : List.filter is_fence (map UserLine l) = [].
Proof. induction l as [|s l IH]; done. Qed.
Lemma lead_opens l : Forall (fun s => opens label s = false) l -> Forall (fun s => opens label s = false) (lead l).
Proof. intros Hl. unfold lead. repeat case_bool_decide; [done|done|]. apply Forall_app; split; [done|by repeat constructor]. Qed.

(** ** One run *)

(** The parts of the profile after an edit. *)
Definition settled (content body : string) (parts : list Part) : list Part :=
  if existsb is_fence parts then settle (our_fence body) parts
  else (map UserLine (lead (profile_lines content)) ++ [our_fence body; UserLine ""])%list.

Lemma plain_lines l : (map UserLine l ≫= part_lines) = l.
Proof. induction l as [|s l IH]; simpl; [done|]. f_equal; exact IH. Qed.

Lemma settled_parted content body parts : body_ok body -> Parted label (profile_lines content) parts ->
  (existsb is_fence parts = false -> Forall (fun s => opens label s = false) (profile_lines content)) ->
  Parted label (settled content body parts ≫= part_lines) (settled content body parts) /\
  Forall line_text (settled content body parts ≫= part_lines) /\ (settled content body parts ≫= part_lines) <> [] /\
  List.filter is_fence (settled content body parts) = [our_fence body].
Proof.
  intros Hb Hp Hfresh. pose proof (our_fence_sound _ Hb) as Hs. pose proof (our_fence_text _ Hb) as Ht.
  pose proof (profile_lines_text content) as Htext. unfold settled. destruct (existsb is_fence parts) eqn:Ef.
  - split_and!; [by eapply parted_settle|apply settle_text; [by rewrite <- (parted_lines _ _ _ Hp)|done]|by apply settle_nonempty|by apply settle_one_fence].
  - rewrite bind_app, plain_lines. simpl. split_and!.
    + apply parted_app_plain; [by apply lead_opens, Hfresh|]. apply (parted_cons_fence label (our_fence body)); [done|].
      apply (parted_plain label [""]). by repeat constructor.
    + apply Forall_app; split; [by apply lead_text|]. apply (Forall_app _ (part_lines (our_fence body)) [""]); split; [done|by repeat constructor].
    + by destruct (lead (profile_lines content)).
    + by rewrite List.filter_app, plain_fences.
Qed.

Lemma apply_block_written content body force new parts : body_ok body -> Parted label (profile_lines content) parts ->
  apply_block content body force label = Some new -> new = written content (settled content body parts ≫= part_lines).
Proof.
  intros Hb Hp Ha. unfold settled. destruct (existsb is_fence parts) eqn:Ef.
  - rewrite <- rewritten_lines by done. unfold apply_block in Ha.
    destruct (classify_block content body label) eqn:Ec; try congruence; [|destruct force; simpl in Ha; congruence].
    unfold classify_block, find_block in Ec. rewrite (found_blocks _ _ Hp) in Ec.
    destruct (blocks_of label 0 parts) as [|b bs] eqn:E; [apply blocks_of_nil in E; congruence|].
    simpl in Ec. repeat case_match; done.
  - rewrite bind_app, plain_lines. unfold apply_block, classify_block, find_block in Ha. rewrite (found_blocks _ _ Hp) in Ha.
    apply (blocks_of_nil label 0) in Ef. rewrite Ef in Ha. simpl in Ha. injection Ha as <-. apply appended_lines.
Qed.

Lemma user_settled content body parts : Parted label (profile_lines content) parts ->
  user_parts (settled content body parts)
  = if existsb is_fence parts then user_parts parts else map UserLine (lead (profile_lines content) ++ [""]).
Proof.
  intros _. unfold settled. destruct (existsb is_fence parts) eqn:Ef.
  - clear - Ef. induction parts as [|[s|o b c] parts IH]; [done|..].
    + change (UserLine s :: user_parts (settle (our_fence body) parts) = UserLine s :: user_parts parts)%list. by rewrite IH.
    + change (user_parts (user_parts parts) = user_parts parts). clear. induction parts as [|[s|o b c] parts IH]; [done| |done].
      change (UserLine s :: user_parts (user_parts parts) = UserLine s :: user_parts parts)%list. by rewrite IH.
  - unfold user_parts. rewrite List.filter_app, map_app. f_equal. induction (lead (profile_lines content)) as [|s l IH]; simpl; by rewrite ?IH.
Qed.

(** one run of the block state machine.  When [apply] writes a profile, the profile it
    writes reads as the old one with the canonical fence in the place of the first fence (at
    its end after a blank line when there was none) and without the other fences, every line
    of the user kept and in order, with the line end the old one used most; the next run finds
    it [Current] and writes nothing, forced or not.  The body has Unix line ends and no line
    that closes the fence, and a profile without a block has no opener line. *)
Theorem apply_settles content body force new :
  body_ok body ->
  (find_block content label = None -> Forall (fun s => opens label s = false) (profile_lines content)) ->
  apply_block content body force label = Some new ->
  exists parts, Parted label (profile_lines content) parts /\
    new = written content (settled content body parts ≫= part_lines) /\
    Parted label (profile_lines new) (settled content body parts) /\
    List.filter is_fence (settled content body parts) = [our_fence body] /\
    user_parts (settled content body parts)
      = (if existsb is_fence parts then user_parts parts else map UserLine (lead (profile_lines content) ++ [""])) /\
    classify_block new body label = Current /\
    forall force', apply_block new body force' label = None.
Proof.
  intros Hb Hfresh Ha. destruct (parted_total label (profile_lines content)) as [parts Hp]. exists parts.
  pose proof (apply_block_written _ _ _ _ _ Hb Hp Ha) as Hn.
  destruct (settled_parted content body parts Hb Hp) as (Hp' & Ht & Hne & Hone).
  { intros Ef. apply Hfresh. unfold find_block. rewrite (found_blocks _ _ Hp). apply (blocks_of_nil label 0) in Ef. by rewrite Ef. }
  assert (Hl : profile_lines new = (settled content body parts ≫= part_lines)) by (rewrite Hn; by apply written_lines).
  assert (Hc : classify_block new body label = Current) by (eapply settled_classify; [rewrite Hl|]; done).
  split_and!; [done|done|by rewrite Hl|done|by apply user_settled|done|].
  intros force'. unfold apply_block. by rewrite Hc.
Qed.

(** ** Removal *)

Lemma rejoin_cases content out trailing : Forall line_text out ->
  (profile_lines (apply_line_ending (rejoin out trailing) (dominant_is_crlf content)) = (if trailing then out ++ [""] else out)%list \/
   (rejoin out trailing = "" /\ Forall (eq "") out)).
Proof.
  intros Ht. unfold rejoin. destruct (String.eqb_spec (str_join lf out) "") as [E|E].
  - right. split; [by destruct trailing|]. destruct out as [|x [|y out]]; [done|simpl in E; subst; by repeat constructor|].
    exfalso. change (str_join lf (x :: y :: out)) with (x +:+ lf +:+ str_join lf (y :: out)) in E. by destruct x.
  - left. assert (out <> []) by by destruct out. destruct trailing; simpl.
    + rewrite <- join_blank by done. apply written_lines; [|by destruct out]. apply Forall_app; split; [done|by repeat constructor].
    + by apply written_lines.
Qed.

Lemma user_parts_plain parts : Forall line_text (parts ≫= part_lines) -> Forall line_text (user_parts parts ≫= part_lines).
Proof.
  intros Hp. apply List.Forall_forall. intros s Hs. apply user_parts_incl in Hs. by apply (proj1 (List.Forall_forall _ _) Hp).
Qed.

Lemma user_only_blocks text parts : Parted label (profile_lines text) (user_parts parts) -> find_all_blocks text label = [].
Proof.
  intros Hp. rewrite (found_blocks _ _ Hp). apply blocks_of_nil. clear.
  induction parts as [|[s|o b c] parts IH]; done.
Qed.

Lemma removed_lines content parts : Parted label (profile_lines content) parts -> existsb is_fence parts = true ->
  exists out, splice (blocks_of label 0 parts) (fun _ => []) 0 0 (lines (unix_lines content)) = out /\ Forall line_text out /\
    (if str_ends_with lf (unix_lines content) then out ++ [""] else out)%list = (user_parts parts ≫= part_lines).
Proof.
  intros Hp Hfence. pose proof (profile_lines_text content) as Htext. rewrite (parted_lines _ _ _ Hp) in Htext.
  eexists; split; [reflexivity|]. destruct (lines_cases content) as [(-> & l & Hl & El & ->)|[(-> & -> & _)|(_ & El & _)]].
  - destruct (parted_total label l) as [q Hq]. rewrite El in Hp. pose proof (parted_det _ _ _ _ Hp (parted_snoc_blank _ _ Hq)) as ->.
    rewrite blocks_of_snoc, user_parts_snoc, (parted_splice label l q [] _ 0 Hq), spliced_none, bind_app by done.
    split; [|done]. rewrite bind_app in Htext. apply Forall_app in Htext as [Htext _]. by apply user_parts_plain.
  - rewrite (parted_splice label _ parts [] _ 0 Hp), spliced_none by done. split; [by apply user_parts_plain|done].
  - rewrite El in Hp. inversion Hp as [|s l q _ Hq|]; subst; [inversion Hq; by subst|done].
Qed.

(** Removing the block.  [remove_block] leaves no block of the label in the profile, gives
    the content back byte for byte when it had none, and otherwise keeps exactly the lines of
    the user in their order (a profile whose user lines are all blank becomes empty). *)
Theorem remove_block_exact content : exists parts, Parted label (profile_lines content) parts /\
  find_all_blocks (remove_block content label) label = [] /\
  (existsb is_fence parts = false -> remove_block content label = content) /\
  (profile_lines (remove_block content label) = (user_parts parts ≫= part_lines) \/
   (remove_block content label = "" /\ Forall (eq "") (user_parts parts ≫= part_lines))).
Proof.
  destruct (parted_total label (profile_lines content)) as [parts Hp]. exists parts. split; [done|].
  pose proof (profile_lines_text content) as Htext. rewrite (parted_lines _ _ _ Hp) in Htext.
  pose proof (user_parts_plain _ Htext) as Hu. pose proof (parted_user _ _ _ Hp) as Hpu.
  unfold remove_block. rewrite (found_blocks _ _ Hp). destruct (blocks_of label 0 parts) as [|b bs] eqn:Eb.
  { pose proof (proj1 (blocks_of_nil label 0 parts) Eb) as Ef. split_and!; [by rewrite (found_blocks _ _ Hp), Eb|done|left].
    rewrite (parted_lines _ _ _ Hp). f_equal. clear -Ef. induction parts as [|[s|o b c] parts IH]; simpl in *; [done|by rewrite <- IH|done]. }
  rewrite <- Eb. assert (Hfence : existsb is_fence parts = true).
  { destruct (existsb is_fence parts) eqn:E; [done|]. apply (blocks_of_nil label 0) in E. congruence. }
  destruct (removed_lines _ _ Hp Hfence) as (out & -> & Hout & Eout).
  destruct (rejoin_cases content out (str_ends_with lf (unix_lines content)) Hout) as [Hr|[Hr Hblank]].
  - rewrite Eout in Hr. split_and!; [apply (user_only_blocks _ parts); by rewrite Hr|congruence|by left].
  - rewrite Hr. assert (apply_line_ending "" (dominant_is_crlf content) = "") as -> by by destruct (dominant_is_crlf content).
    split_and!; [done|congruence|right; split; [done|]]. rewrite <- Eout.
    destruct (str_ends_with lf (unix_lines content)); [|done]. apply Forall_app; split; [done|by repeat constructor].
Qed.
End Edits.

(** ** A run over one profile *)

Section Runs.
Context `{ProfileText} `{!ProfileTextLaws}.

Lemma ocx_label_text : line_text OCX_LABEL.
Proof. done. Qed.

Lemma has_legacy_lines content : has_legacy_artifacts content = existsb is_legacy_line (profile_lines content).
Proof.
  unfold has_legacy_artifacts. destruct (lines_cases content) as [(_ & l & _ & -> & ->)|[(_ & -> & _)|(_ & -> & ->)]]; [|done|done].
  rewrite existsb_app. change (existsb is_legacy_line [""]) with false. by rewrite orb_false_r.
Qed.

Lemma existsb_false_Forall {A} (f : A -> bool) l : existsb f l = false <-> Forall (fun x => f x = false) l.
Proof.
  induction l as [|x l IH]; simpl; [done|]. rewrite orb_false_iff, Forall_cons. by rewrite IH.
Qed.

(** One line of [strip_block]: left out, with what it opens, or kept. *)
Lemma scan_closer_None closer scan l : scan_closer closer scan l = None -> Forall (fun s => String.eqb (trim s) closer = false) l.
Proof.
  revert scan; induction l as [|x l IH]; intros scan; simpl; [done|]. destruct (String.eqb (trim x) closer) eqn:E; [done|].
  intros Hn. constructor; [done|]. by eapply IH.
Qed.

Lemma strip_lines_step index x l :
  (exists skip, strip_lines index 0 (x :: l) = strip_lines (S index) skip l) \/
  (strip_lines index 0 (x :: l) = x :: strip_lines (S index) 0 l /\
   (opens OCX_LABEL x = false \/ Forall (fun s => closes OCX_LABEL s = false) l) /\
   is_legacy_init_line x || is_legacy_env_line x = false).
Proof.
  simpl. destruct (if bool_decide (is_Some (opener_captures OCX_LABEL x)) then _ else _) as [k|] eqn:Eo; [eauto|].
  destruct (if String.eqb (trim x) "# BEGIN ocx" then _ else _) as [k|] eqn:Eb; [eauto|].
  destruct (is_legacy_init_line x || is_legacy_env_line x) eqn:El; [eauto|]. right. split_and!; [done| |done].
  unfold opens. case_bool_decide; [|by left]. right. by apply scan_closer_None in Eo.
Qed.

Lemma strip_lines_incl index skip l s : In s (strip_lines index skip l) -> In s l.
Proof.
  revert index skip; induction l as [|x l IH]; intros index [|skip]; [done|done| |simpl; eauto].
  destruct (strip_lines_step index x l) as [[k ->]|(-> & _)]; [right; by eapply IH|].
  intros [->|Hs]; [by left|right; by eapply IH].
Qed.

Lemma strip_lines_legacy index skip l :
  Forall (fun s => is_legacy_init_line s || is_legacy_env_line s = false) (strip_lines index skip l).
Proof.
  revert index skip; induction l as [|x l IH]; intros index [|skip]; [done|done| |apply IH].
  destruct (strip_lines_step index x l) as [[k ->]|(-> & _ & Hx)]; [apply IH|]. by constructor.
Qed.

(** What is kept has no complete fence. *)
Lemma strip_lines_parted index skip l : Parted OCX_LABEL (strip_lines index skip l) (map UserLine (strip_lines index skip l)).
Proof.
  revert index skip; induction l as [|x l IH]; intros index [|skip]; [constructor|constructor| |apply IH].
  destruct (strip_lines_step index x l) as [[k ->]|(-> & Hx & _)]; [apply IH|]. constructor; [|apply IH].
  destruct Hx as [Hx|Hx]; [by left|right]. apply List.Forall_forall. intros s Hs. apply strip_lines_incl in Hs.
  by apply (proj1 (List.Forall_forall _ _) Hx).
Qed.

(** Without a fence or an older line every line is kept. *)
Lemma strip_lines_id index l : Parted OCX_LABEL l (map UserLine l) -> Forall (fun s => is_legacy_line s = false) l ->
  strip_lines index 0 l = l.
Proof.
  revert index; induction l as [|x l IH]; intros index Hp Hl; [done|].
  inversion Hp as [|? ? ? Hx Hp'|]; subst. inversion Hl as [|? ? Hlx Hl']; subst.
  unfold is_legacy_line in Hlx. rewrite !orb_false_iff in Hlx. destruct Hlx as [[Hb Hi] He]. simpl.
  rewrite Hb, Hi, He, IH by done. simpl. case_bool_decide as Ho; [|done].
  destruct Hx as [Hx|Hx]; [by apply bool_decide_eq_false in Hx|]. unfold CLOSER.
  change "# <<< ocx <<<" with (closer_text OCX_LABEL). by rewrite scan_closer_none.
Qed.

Lemma strip_text content : let out := strip_lines 0 0 (lines (unix_lines content)) in
  (profile_lines (strip_block content) = (if str_ends_with lf (unix_lines content) then out ++ [""] else out)%list) \/
  (profile_lines (strip_block content) = [""] /\ Forall (eq "") out).
Proof.
  intros out. assert (Hout : Forall line_text out).
  { apply List.Forall_forall. intros s Hs. apply strip_lines_incl in Hs.
    apply (proj1 (List.Forall_forall _ _) (profile_lines_text content)).
    destruct (lines_cases content) as [(_ & l & _ & -> & El)|[(_ & <- & _)|(_ & _ & El)]]; [rewrite El in Hs; apply in_app_iff; auto|done|by rewrite El in Hs]. }
  unfold strip_block. fold out.
  destruct (rejoin_cases content out (str_ends_with lf (unix_lines content)) Hout) as [Hr|[-> Hb]]; [by left|right].
  split; [|done]. by destruct (dominant_is_crlf content).
Qed.

(** Migrating leaves no block: the profile is then [Fresh]. *)
Lemma strip_fresh content : find_all_blocks (strip_block content) OCX_LABEL = [].
Proof.
  destruct (strip_text content) as [E|[E _]].
  - set (out := strip_lines 0 0 (lines (unix_lines content))) in *.
    assert (Hp : Parted OCX_LABEL (profile_lines (strip_block content)) (map UserLine (profile_lines (strip_block content)))).
    { rewrite E. pose proof (strip_lines_parted 0 0 (lines (unix_lines content))) as Hp. fold out in Hp.
      destruct (str_ends_with lf (unix_lines content)); [|done]. rewrite map_app. by apply parted_snoc_blank. }
    rewrite (found_blocks _ _ _ Hp). apply blocks_of_nil. apply existsb_false_Forall. clear. induction (profile_lines _); by constructor.
  - unfold find_all_blocks. rewrite lines_profile, E. done.
Qed.

(** The lines of a profile that no later run can take for the start of something: after
    [strip_block], no opener and no [# BEGIN ocx]. *)
Definition tidy (content : string) : Prop :=
  Forall (fun s => opens OCX_LABEL s = false /\ String.eqb (trim s) "# BEGIN ocx" = false) (profile_lines (strip_block content)).
Definition quiet_body (body : string) : Prop := Forall (fun s => is_legacy_line s = false) (split_char LF body).

Lemma lead_incl l s : In s (lead l) -> s = "" \/ In s l.
Proof. unfold lead. repeat case_bool_decide; [done|by right|]. intros [Hs|[<-|[]]]%in_app_iff; auto. Qed.

Lemma settled_incl content body parts s : Parted OCX_LABEL (profile_lines content) parts ->
  In s (settled OCX_LABEL content body parts ≫= part_lines) ->
  s = "" \/ In s (profile_lines content) \/ In s (part_lines (our_fence OCX_LABEL body)).
Proof.
  intros Hp. unfold settled. destruct (existsb is_fence parts).
  - rewrite (parted_lines _ _ _ Hp). clear Hp. induction parts as [|[t|o b c] parts IH]; [done|..].
    + change (In s (t :: (settle (our_fence OCX_LABEL body) parts ≫= part_lines)) -> s = "" \/ In s (t :: (parts ≫= part_lines)) \/ In s (part_lines (our_fence OCX_LABEL body))).
      intros [->|Hs]; [right; left; by left|]. destruct (IH Hs) as [?|[?|?]]; [auto|right; left; by right|auto].
    + change (In s (part_lines (our_fence OCX_LABEL body) ++ (user_parts parts ≫= part_lines)) ->
        s = "" \/ In s (part_lines (Fence o b c) ++ (parts ≫= part_lines)) \/ In s (part_lines (our_fence OCX_LABEL body))).
      intros [Hs|Hs]%in_app_iff; [auto|]. right; left. apply in_app_iff. right. by apply user_parts_incl.
  - rewrite bind_app, plain_lines. intros [Hs|Hs]%in_app_iff; [apply lead_incl in Hs as [?|?]; auto|].
    change (In s (part_lines (our_fence OCX_LABEL body) ++ [""])) in Hs. apply in_app_iff in Hs as [Hs|[<-|[]]]; auto.
Qed.

Lemma hash_not_legacy s : String.eqb (trim (String "#" s)) "# BEGIN ocx" = false -> is_legacy_line (String "#" s) = false.
Proof.
  intros Hs. unfold is_legacy_line, is_legacy_init_line, is_legacy_env_line. rewrite Hs.
  assert (trim_start (String "#" s) = String "#" s) as -> by done. done.
Qed.

Lemma our_fence_quiet body : quiet_body body -> Forall (fun s => is_legacy_line s = false) (part_lines (our_fence OCX_LABEL body)).
Proof.
  intros Hb. cbn [part_lines our_fence]. constructor; [|apply Forall_app; split; [done|by repeat constructor]].
  apply hash_not_legacy. rewrite (trim_hash _ ">"); [done| |by right].
  change (last_char ("# >>> ocx v1 " +:+ (canonical_hash body +:+ " >>>")) = Some ">"%char).
  rewrite last_char_app, last_char_app; [done|done|by destruct (canonical_hash body)].
Qed.

(** A profile with no older lines settles in one edit. *)
Lemma edit_settles content body force new : body_ok OCX_LABEL body -> quiet_body body ->
  has_legacy_artifacts content = false ->
  (find_block content OCX_LABEL = None -> Forall (fun s => opens OCX_LABEL s = false) (profile_lines content)) ->
  apply_block content body force OCX_LABEL = Some new ->
  forall force' heal_only, apply_fence new body force' heal_only = (NoOp, None).
Proof.
  intros Hb Hq Hleg Hopen Ha force' heal_only. destruct (parted_total OCX_LABEL (profile_lines content)) as [parts Hp].
  pose proof (apply_block_written OCX_LABEL ocx_label_text _ _ _ _ _ Hb Hp Ha) as Hn.
  destruct (settled_parted OCX_LABEL ocx_label_text content body parts Hb Hp) as (Hp' & Ht & Hne & Hone).
  { intros Ef. apply Hopen. unfold find_block. rewrite (found_blocks _ _ _ Hp). apply (blocks_of_nil OCX_LABEL 0) in Ef. by rewrite Ef. }
  assert (Hl : profile_lines new = (settled OCX_LABEL content body parts ≫= part_lines)) by (rewrite Hn; by apply written_lines).
  assert (Hc : classify_block new body OCX_LABEL = Current) by (apply (settled_classify OCX_LABEL new body (settled OCX_LABEL content body parts)); [by rewrite Hl|done]).
  assert (Hl' : has_legacy_artifacts new = false).
  { rewrite has_legacy_lines, existsb_false_Forall in Hleg |- *. rewrite Hl. apply List.Forall_forall. intros s Hs.
    apply (settled_incl _ _ _ _ Hp) in Hs as [->|[Hs|Hs]]; [done|by apply (proj1 (List.Forall_forall _ _) Hleg)|].
    by apply (proj1 (List.Forall_forall _ _) (our_fence_quiet _ Hq)). }
  unfold apply_fence, apply_block. rewrite Hc, Hl'. simpl. by rewrite andb_false_r.
Qed.

Lemma tidy_opens content : tidy content -> has_legacy_artifacts content = false -> find_block content OCX_LABEL = None ->
  Forall (fun s => opens OCX_LABEL s = false) (profile_lines content).
Proof.
  intros Ht Hleg Hf. destruct (parted_total OCX_LABEL (profile_lines content)) as [parts Hp].
  assert (Hplain : parts = map UserLine (profile_lines content)).
  { unfold find_block in Hf. rewrite (found_blocks _ _ _ Hp) in Hf. destruct (blocks_of OCX_LABEL 0 parts) eqn:E; [|done].
    apply blocks_of_nil in E. rewrite (parted_lines _ _ _ Hp). clear -E.
    induction parts as [|[t|o b c] parts IH]; simpl in *; [done| |done]. f_equal. by apply IH. }
  subst parts.
  assert (Hid : forall l, Parted OCX_LABEL l (map UserLine l) -> incl l (profile_lines content) -> strip_lines 0 0 l = l).
  { intros l Hpl Hi. apply strip_lines_id; [done|]. rewrite has_legacy_lines, existsb_false_Forall in Hleg.
    apply List.Forall_forall. intros s Hs. by apply (proj1 (List.Forall_forall _ _) Hleg), Hi. }
  assert (Hblank : forall l, Forall (eq "") l -> Forall (fun s => opens OCX_LABEL s = false) l).
  { intros l Hl. eapply Forall_impl; [done|]. by intros ? <-. }
  assert (Ht' : Forall (fun s => opens OCX_LABEL s = false) (profile_lines (strip_block content))).
  { eapply Forall_impl; [exact Ht|]. by intros ? [? _]. }
  pose proof (strip_text content) as Hstrip. cbv zeta in Hstrip.
  destruct (lines_cases content) as [(Ee & l & _ & El & Elines)|[(Ee & Elines & _)|(_ & El & _)]]; [| |rewrite El; by repeat constructor].
  - rewrite Ee, Elines, (Hid l) in Hstrip.
    + rewrite El. destruct Hstrip as [<-|[_ Hb]]; [done|]. apply Forall_app; split; [by apply Hblank|by repeat constructor].
    + destruct (parted_total OCX_LABEL l) as [q Hq]. rewrite El in Hp.
      pose proof (parted_det _ _ _ _ Hp (parted_snoc_blank _ _ _ Hq)) as Eq. rewrite map_app in Eq.
      apply app_inj_tail in Eq as [-> _]. done.
    + rewrite El. intros s Hs. apply in_app_iff. auto.
  - rewrite Ee, Elines, Hid in Hstrip by (done || apply incl_refl). destruct Hstrip as [<-|[_ Hb]]; [done|]. by apply Hblank.
Qed.

(** Setting a profile up settles.  Whatever [apply_fence] writes into a profile, whether
    it adds the fence, upgrades it, or migrates an older format, the next run over what was
    written is a [NoOp], forced or not, healing or not; a run that finds an older format always
    writes.  The profile is tidy (once stripped, no line of it opens a fence or an older
    block), and the body is no older format and does not close the fence. *)
Lemma apply_fence_settles content body force heal_only outcome new :
  body_ok OCX_LABEL body -> quiet_body body -> tidy content ->
  apply_fence content body force heal_only = (outcome, new) ->
  match new with
  | Some new => (outcome = Completed \/ outcome = Migrated) /\ forall force' heal_only', apply_fence new body force' heal_only' = (NoOp, None)
  | None => outcome = SkippedDirty \/ (outcome = NoOp /\ has_legacy_artifacts content = false)
  end.
Proof.
  intros Hb Hq Ht. unfold apply_fence.
  destruct (bool_decide (classify_block content body OCX_LABEL = Dirty) && negb force); [intros [= <- <-]; by left|].
  destruct (has_legacy_artifacts content) eqn:Hleg; rewrite ?andb_false_r.
  - assert (Hfresh : apply_block (strip_block content) body force OCX_LABEL = Some (append_block (strip_block content) body OCX_LABEL)).
    { unfold apply_block, classify_block, find_block. by rewrite strip_fresh. }
    rewrite Hfresh. intros [= <- <-]. split; [by right|]. eapply edit_settles; [done|done| |intros _|exact Hfresh].
    + rewrite has_legacy_lines, existsb_false_Forall. apply List.Forall_forall. intros s Hs.
      pose proof (proj1 (List.Forall_forall _ _) Ht s Hs) as [_ Hbegin]. unfold is_legacy_line. rewrite Hbegin. simpl.
      destruct (strip_text content) as [E|[E _]]; rewrite E in Hs; [|by destruct Hs as [<-|[]]].
      pose proof (strip_lines_legacy 0 0 (lines (unix_lines content))) as Hl. rewrite List.Forall_forall in Hl.
      destruct (str_ends_with lf (unix_lines content)); [|by apply Hl].
      apply in_app_iff in Hs as [Hs|[<-|[]]]; [by apply Hl|done].
    + eapply Forall_impl; [exact Ht|]. by intros ? [? _].
  - destruct (heal_only && _ && _); [intros [= <- <-]; by right|].
    destruct (apply_block content body force OCX_LABEL) as [w|] eqn:Ea; intros [= <- <-]; [|by right].
    split; [by left|]. eapply edit_settles; [done|done|done|by apply tidy_opens|exact Ea].
Qed.
End Runs.
