(* ===== verification/SetupRun.v ===== *)
(** * Setting a shell up

    [crates/ocx_setup/src/lib.rs] (the profile phase and the session PATH of [run]),
    [profiles.rs] (which files a run targets) and [session_path.rs], [session_path/linux.rs]
    (the [environment.d] store of a Linux host).  Paths are UTF-8 texts. *)

From stdpp Require Import base decidable list option numbers strings gmap.
From Stdlib Require Import Ascii.
From S2P Require Import Prelude Text TextSearch RcBlock.
Local Open Scope string_scope.

(** ** The disk *)

(** A file: its text, [None] when it cannot be read as UTF-8, and whether the group or others
    may write it.  [dk_writable] says which paths a write reaches. *)
Record FileNode : Type := mkNode { fn_text : option string; fn_shared : bool }.
Record ProfileDisk : Type := mkProfileDisk { dk_files : gmap string FileNode; dk_writable : string -> bool }.
Inductive SetupError : Type := IoError (path : string).

(** [read_to_string_or_empty], [write_profile] (an atomic replace by a private file). *)
Definition read_to_string_or_empty (disk : ProfileDisk) (path : string) : result SetupError string :=
  match dk_files disk !! path with
  | None => Ok ""
  | Some node => match fn_text node with Some content => Ok content | None => Err (IoError path) end
  end.
Definition write_bytes_atomic (disk : ProfileDisk) (path content : string) : option ProfileDisk :=
  if dk_writable disk path then Some (mkProfileDisk (<[path := mkNode (Some content) false]> (dk_files disk)) (dk_writable disk)) else None.
Definition write_profile (disk : ProfileDisk) (path content : string) : result SetupError ProfileDisk :=
  match write_bytes_atomic disk path content with Some disk => Ok disk | None => Err (IoError path) end.

(** ** Targets *)

Inductive DedicatedShell : Type := Fish | Nushell.
Inductive ProfileKind : Type := PosixFence | ElvishFence | DedicatedFile (shell : DedicatedShell) | PowerShellFence.
Record ProfileTarget : Type := mkTarget { pt_path : string; pt_kind : ProfileKind }.
Record HomeEnv : Type := mkHomeEnv {
  he_home : string;
  he_zdotdir : option string;
  he_xdg_config_home : option string;
  he_xdg_data_home : option string;
  he_ocx_home : string;
  he_shell : option string;
}.

Definition config_home (env : HomeEnv) : string := default (path_join (he_home env) ".config") (he_xdg_config_home env).
Definition data_home (env : HomeEnv) : string := default (path_join (he_home env) ".local/share") (he_xdg_data_home env).

Definition is_safe_zdotdir (dir : string) : bool :=
  starts_with "/" dir && negb (bool_decide (path_names dir = [])) && negb (existsb (String.eqb "..") (path_names dir)).
Definition zsh_dir (env : HomeEnv) : string :=
  match he_zdotdir env with
  | Some dir => if is_safe_zdotdir dir then dir else he_home env
  | None => he_home env
  end.
Fixpoint last_piece (s : string) : string :=
  match s with
  | EmptyString => EmptyString
  | String c s' => if str_mem "/" s || str_mem "\" s then last_piece s' else s
  end.
Definition shell_name (env : HomeEnv) : string :=
  lowercase (match he_shell env with
             | Some shell => if String.eqb (last_piece shell) "" then "sh" else last_piece shell
             | None => "sh"
             end).
Definition detect_targets (env : HomeEnv) (is_file : string -> bool) : list ProfileTarget :=
  let name := shell_name env in
  if String.eqb name "fish" then [mkTarget (path_join (path_join (path_join (config_home env) "fish") "conf.d") "ocx.fish") (DedicatedFile Fish)]
  else if String.eqb name "nu" then
    [mkTarget (path_join (path_join (path_join (path_join (data_home env) "nushell") "vendor") "autoload") "ocx.nu") (DedicatedFile Nushell)]
  else if String.eqb name "elvish" then [mkTarget (path_join (path_join (config_home env) "elvish") "rc.elv") ElvishFence]
  else
    let home name := mkTarget (path_join (he_home env) name) PosixFence in
    let zsh name := mkTarget (path_join (zsh_dir env) name) PosixFence in
    ([home ".profile"] ++ (if is_file (path_join (he_home env) ".bash_profile") then [home ".bash_profile"] else []) ++
     [home ".bashrc"; zsh ".zprofile"; zsh ".zshrc"])%list.
Definition compose_targets (env : HomeEnv) (is_file : string -> bool) (overrides : option (list string)) (powershell : option string) : list ProfileTarget :=
  match overrides with
  | Some overrides => map (fun path => mkTarget path PosixFence) overrides
  | None =>
      (detect_targets env is_file ++ match powershell with Some profile => [mkTarget profile PowerShellFence] | None => [] end)%list
  end.

(** ** Profiles *)

Definition quote : string := String "034" "".
Definition POSIX_BODY : string :=
  str_join lf ["if [ -f " +:+ quote +:+ "${OCX_HOME:-$HOME/.ocx}/env.sh" +:+ quote +:+ " ]; then";
               "    . " +:+ quote +:+ "${OCX_HOME:-$HOME/.ocx}/env.sh" +:+ quote;
               "fi"].
Definition ELVISH_BODY : string :=
  str_join lf ["var _ocx_home = (if (has-env OCX_HOME) { put $E:OCX_HOME } else { put $E:HOME/.ocx })";
               "if ?(test -f $_ocx_home/env.elv) {";
               "    eval (slurp < $_ocx_home/env.elv)";
               "}"].
Definition POWERSHELL_BODY : string :=
  str_join lf ["$_ocxHome = if ($env:OCX_HOME) { $env:OCX_HOME } elseif ($env:USERPROFILE) { Join-Path $env:USERPROFILE '.ocx' } else { Join-Path $HOME '.ocx' }";
               "$_ocxEnv = Join-Path $_ocxHome 'env.ps1'";
               "if (Test-Path $_ocxEnv) { . $_ocxEnv }"].

Definition Written_ : Type := (ProfileDisk * ProfileOutcome)%type.

Section Profiles.
Context `{ProfileText}.
(** [fish_conf_body], [nu_autoload_body]: the texts of the two dedicated files. *)
Variable dedicated_body : DedicatedShell -> string.

(** [apply_fence] with its read and its write. *)
Definition apply_fence_file (disk : ProfileDisk) (path body : string) (force heal_only dry_run : bool) : result SetupError Written_ :=
  match read_to_string_or_empty disk path with
  | Err error => Err error
  | Ok content =>
      match apply_fence content body force heal_only with
      | (outcome, None) => Ok (disk, outcome)
      | (outcome, Some new_content) =>
          if dry_run then Ok (disk, outcome)
          else match write_profile disk path new_content with Ok disk => Ok (disk, outcome) | Err error => Err error end
      end
  end.
Definition rewrite_dedicated (disk : ProfileDisk) (path body : string) (heal_only dry_run : bool) : result SetupError Written_ :=
  if heal_only && bool_decide (dk_files disk !! path = None) then Ok (disk, NoOp)
  else match read_to_string_or_empty disk path with
       | Err error => Err error
       | Ok content =>
           if String.eqb content body then Ok (disk, NoOp)
           else if dry_run then Ok (disk, Completed)
           else match write_profile disk path body with Ok disk => Ok (disk, Completed) | Err error => Err error end
       end.
Definition apply_target (disk : ProfileDisk) (target : ProfileTarget) (force heal_only dry_run : bool) : result SetupError Written_ :=
  match pt_kind target with
  | PosixFence => apply_fence_file disk (pt_path target) POSIX_BODY force heal_only dry_run
  | ElvishFence => apply_fence_file disk (pt_path target) ELVISH_BODY force heal_only dry_run
  | PowerShellFence => apply_fence_file disk (pt_path target) POWERSHELL_BODY force heal_only dry_run
  | DedicatedFile shell => rewrite_dedicated disk (pt_path target) (dedicated_body shell) heal_only dry_run
  end.

(** [apply_profile_phase]: the targets in order; the first error ends the phase, what was
    written before it stays. *)
Fixpoint apply_profile_phase (disk : ProfileDisk) (targets : list ProfileTarget) (force handoff dry_run : bool) : ProfileDisk * result SetupError (list (string * ProfileOutcome)) :=
  match targets with
  | [] => (disk, Ok [])
  | target :: rest =>
      match apply_target disk target force handoff dry_run with
      | Err error => (disk, Err error)
      | Ok (disk, outcome) =>
          let '(disk, outcomes) := apply_profile_phase disk rest force handoff dry_run in
          (disk, match outcomes with Ok outcomes => Ok ((pt_path target, outcome) :: outcomes) | Err error => Err error end)
      end
  end.
End Profiles.

Definition profiles_changed (profiles : list (string * ProfileOutcome)) : bool :=
  existsb (fun p => match snd p with Completed | Migrated => true | _ => false end) profiles.
Definition profiles_dirty (profiles : list (string * ProfileOutcome)) : bool :=
  existsb (fun p => match snd p with SkippedDirty => true | _ => false end) profiles.

(** ** The session PATH of a Linux host *)

Inductive SessionPathOutcome : Type := Written | Unchanged | Removed | SkippedOptOut | SkippedUnsupported | Failed.
Inductive SessionPathError : Type :=
| Unencodable (path : string) (character : ascii) (reason : string)
| NotAbsolute (path : string).

Definition CONF_RELATIVE_PATH : string := "environment.d/ocx.conf".
Definition REFUSED : list (ascii * string) :=
  [("010"%char, "and a value that spans two lines declares a second, unrelated variable");
   ("013"%char, "which ends a line for some readers of this format and not others");
   ("\"%char, "which this format consumes as an escape, dropping it and taking the next character literally");
   ("$"%char, "which the session manager expands to something else at read time");
   (":"%char, "which is the PATH delimiter and would split the entry in two");
   ("000"%char, "which a text configuration file cannot carry")].
Definition REFUSED_LEADING : list (ascii * string) :=
  [(" "%char, "which this format strips when it leads a value");
   ("009"%char, "which this format strips when it leads a value");
   ("034"%char, "which opens a quoted string when it leads a value and swallows the line ending");
   ("'"%char, "which opens a quoted string when it leads a value and swallows the line ending")].
Definition conf_path (env : HomeEnv) : string :=
  path_join (default (path_join (he_home env) ".config") (he_xdg_config_home env)) CONF_RELATIVE_PATH.

(** [linux::encode]. *)
Definition linux_encode (directory : string) : result SessionPathError string :=
  let offender :=
    match List.find (fun c => str_mem (fst c) directory) REFUSED with
    | Some c => Some c
    | None => match directory with
              | EmptyString => None
              | String leading _ => List.find (fun c => Ascii.eqb (fst c) leading) REFUSED_LEADING
              end
    end in
  match offender with
  | Some (character, reason) => Err (Unencodable directory character reason)
  | None => Ok directory
  end.
Fixpoint encode_all (directories : list string) : result SessionPathError (list string) :=
  match directories with
  | [] => Ok []
  | directory :: rest =>
      match linux_encode directory with
      | Err error => Err error
      | Ok spelled => match encode_all rest with Ok spelled_rest => Ok (spelled :: spelled_rest) | Err error => Err error end
      end
  end.
Definition PREPEND_PREFIX : string := "PATH=".
Definition INHERITED : string := "$PATH".
Definition prepend_line (segments : list string) : string := PREPEND_PREFIX +:+ str_join ":" (segments ++ [INHERITED]) +:+ lf.
Definition render_conf (directories : list string) : result SessionPathError string :=
  match encode_all directories with Ok segments => Ok (prepend_line segments) | Err error => Err error end.
Definition subtract (content : string) (removed : list string) : option (list string) :=
  match strip_prefix PREPEND_PREFIX content with
  | None => None
  | Some rest =>
      let value := trim_end_lf (String.length rest) rest in
      let carried := List.filter (fun segment => negb (String.eqb segment "") && negb (String.eqb segment INHERITED)) (split_char ":" value) in
      let survivors := List.filter (fun segment => negb (existsb (String.eqb segment) removed)) carried in
      if (length survivors =? length carried)%nat then None else Some survivors
  end.

(** [conf_is_current], [register], [deregister]: a failed write is an outcome. *)
Definition conf_is_current (disk : ProfileDisk) (path content : string) : bool :=
  match dk_files disk !! path with
  | Some node => negb (fn_shared node) && bool_decide (fn_text node = Some content)
  | None => false
  end.
Definition linux_register (disk : ProfileDisk) (env : HomeEnv) (directories : list string) (dry_run : bool) : ProfileDisk * result SessionPathError (string * SessionPathOutcome) :=
  match render_conf directories with
  | Err error => (disk, Err error)
  | Ok content =>
      let path := conf_path env in
      if conf_is_current disk path content then (disk, Ok (path, Unchanged))
      else if dry_run then (disk, Ok (path, Written))
      else match write_bytes_atomic disk path content with
           | Some disk => (disk, Ok (path, Written))
           | None => (disk, Ok (path, Failed))
           end
  end.
Definition remove_file (disk : ProfileDisk) (path : string) : option ProfileDisk :=
  if dk_writable disk path then Some (mkProfileDisk (delete path (dk_files disk)) (dk_writable disk)) else None.
Definition linux_deregister (disk : ProfileDisk) (env : HomeEnv) (directories : list string) (dry_run : bool) : ProfileDisk * result SessionPathError (string * SessionPathOutcome) :=
  match encode_all directories with
  | Err error => (disk, Err error)
  | Ok removed =>
      let path := conf_path env in
      match (node ← dk_files disk !! path; fn_text node) with
      | None => (disk, Ok (path, Unchanged))
      | Some content =>
          match subtract content removed with
          | None => (disk, Ok (path, Unchanged))
          | Some survivors =>
              if dry_run then (disk, Ok (path, Removed))
              else match (if bool_decide (survivors = []) then remove_file disk path
                          else write_bytes_atomic disk path (prepend_line survivors)) with
                   | Some disk => (disk, Ok (path, Removed))
                   | None => (disk, Ok (path, Failed))
                   end
          end
      end
  end.

(** [refuse_relative], [refuse_unencodable], [register_in], [deregister_in]. *)
Definition refuse_relative (directories : list string) : result SessionPathError unit :=
  match List.find (fun directory => negb (starts_with "/" directory)) directories with
  | Some directory => Err (NotAbsolute directory)
  | None => Ok tt
  end.
Definition refuse_unencodable (directories : list string) : result SessionPathError unit :=
  match refuse_relative directories with
  | Err error => Err error
  | Ok _ => match encode_all directories with Ok _ => Ok tt | Err error => Err error end
  end.
Definition register_in (disk : ProfileDisk) (env : HomeEnv) (directories : list string) (dry_run : bool) : ProfileDisk * result SessionPathError (string * SessionPathOutcome) :=
  match refuse_relative directories with Err error => (disk, Err error) | Ok _ => linux_register disk env directories dry_run end.
Definition deregister_in (disk : ProfileDisk) (env : HomeEnv) (directories : list string) (dry_run : bool) : ProfileDisk * result SessionPathError (string * SessionPathOutcome) :=
  match refuse_relative directories with Err error => (disk, Err error) | Ok _ => linux_deregister disk env directories dry_run end.

(** Phase 3.5 of [run]: the retired directory out, then the two directories in. *)
Definition session_path_phase (disk : ProfileDisk) (env : HomeEnv) (retired directories : list string) (no_modify_path dry_run : bool) : ProfileDisk * result SessionPathError (string * SessionPathOutcome) :=
  if no_modify_path then (disk, Ok (conf_path env, SkippedOptOut))
  else match deregister_in disk env retired dry_run with
       | (disk, Err error) => (disk, Err error)
       | (disk, Ok _) => register_in disk env directories dry_run
       end.
