(* ===== verification/SetupSpec.v ===== *)
(** * A setup run settles

    A second run over the profiles and over the session PATH finds nothing to do, a dry run
    predicts the real one, and unregistering gives the host back what registering took. *)

From stdpp Require Import base decidable list option numbers strings gmap.
From Stdlib Require Import Lia Ascii.
From S2P Require Import Prelude Text TextSearch RcBlock RcBlockSpec SetupRun Digest PackageRef.
Local Open Scope string_scope.

(** ** Profiles *)

Section Phase.
Context `{ProfileText} `{!ProfileTextLaws} (dedicated_body : DedicatedShell -> string).

Lemma bodies_ok body : body = POSIX_BODY \/ body = ELVISH_BODY \/ body = POWERSHELL_BODY -> body_ok OCX_LABEL body /\ quiet_body body.
Proof.
  assert (Hc : forall b, forallb (fun l => negb (closes OCX_LABEL l)) (split_char LF b) = true ->
    forallb (fun l => negb (is_legacy_line l)) (split_char LF b) = true -> str_mem CR b = false -> body_ok OCX_LABEL b /\ quiet_body b).
  { intros b H1 H2 H3. split; [split; [done|]|]; apply List.Forall_forall; intros l Hl; apply negb_true_iff.
    - by rewrite forallb_forall in H1; apply H1.
    - by rewrite forallb_forall in H2; apply H2. }
  intros [-> | [-> | ->]]; apply Hc; vm_compute; reflexivity.
Qed.

(** The readable profiles a fence goes into are tidy. *)
Definition tidy_target (disk : ProfileDisk) (target : ProfileTarget) : Prop :=
  match pt_kind target with
  | DedicatedFile _ => True
  | _ => forall content, read_to_string_or_empty disk (pt_path target) = Ok content -> tidy content
  end.

Definition same_file (path : string) (d d' : ProfileDisk) : Prop := dk_files d !! path = dk_files d' !! path.

Lemma write_profile_ok d path content d' : write_profile d path content = Ok d' ->
  dk_files d' = <[path := mkNode (Some content) false]> (dk_files d) /\ dk_writable d' = dk_writable d.
Proof. unfold write_profile, write_bytes_atomic. by destruct (dk_writable d path); intros [= <-]. Qed.

Lemma read_after d path content d' : write_profile d path content = Ok d' -> read_to_string_or_empty d' path = Ok content.
Proof. intros [E _]%write_profile_ok. unfold read_to_string_or_empty. by rewrite E, lookup_insert_eq. Qed.

Lemma read_same path d d' : same_file path d d' -> read_to_string_or_empty d path = read_to_string_or_empty d' path.
Proof. unfold same_file, read_to_string_or_empty. by intros ->. Qed.

(** What a run over one target leaves, and what the next one makes of it. *)
Definition quiet_after (o o' : ProfileOutcome) : Prop := o' = NoOp \/ (o' = SkippedDirty /\ o = SkippedDirty).

Lemma fence_file_settles d path body force heal d' o :
  body_ok OCX_LABEL body -> quiet_body body ->
  (forall content, read_to_string_or_empty d path = Ok content -> tidy content) ->
  apply_fence_file d path body force heal false = Ok (d', o) ->
  forall df dry, same_file path d' df -> exists o', apply_fence_file df path body force heal dry = Ok (df, o') /\ quiet_after o o'.
Proof.
  intros Hb Hq Ht Hrun df dry Hsame. unfold apply_fence_file in Hrun |- *. rewrite <- (read_same _ _ _ Hsame).
  destruct (read_to_string_or_empty d path) as [content|] eqn:Er; [|done].
  specialize (Ht _ eq_refl). destruct (apply_fence content body force heal) as [o1 [new|]] eqn:Ea;
    pose proof (apply_fence_settles _ _ _ _ _ _ Hb Hq Ht Ea) as Hs; simpl in Hs.
  - destruct (write_profile d path new) as [d1|] eqn:Ew; [|done]. injection Hrun as -> <-.
    rewrite (read_after _ _ _ _ Ew). destruct Hs as [_ ->]. exists NoOp. split; [done|by left].
  - injection Hrun as <- <-. rewrite Er, Ea. exists o1. split; [done|]. destruct Hs as [->|[-> _]]; [by right|by left].
Qed.

Lemma dedicated_settles d path body heal d' o :
  rewrite_dedicated d path body heal false = Ok (d', o) ->
  forall df dry, same_file path d' df -> rewrite_dedicated df path body heal dry = Ok (df, NoOp).
Proof.
  unfold rewrite_dedicated. intros Hrun df dry Hsame. rewrite <- (read_same _ _ _ Hsame). rewrite <- Hsame.
  destruct (heal && bool_decide (dk_files d !! path = None)) eqn:Eh.
  { injection Hrun as <- <-. by rewrite Eh. }
  destruct (read_to_string_or_empty d path) as [content|] eqn:Er; [|done].
  destruct (String.eqb content body) eqn:Ec.
  { injection Hrun as <- <-. by rewrite Eh, Er, Ec. }
  destruct (write_profile d path body) as [d1|] eqn:Ew; [|done]. injection Hrun as -> <-.
  rewrite (read_after _ _ _ _ Ew), String.eqb_refl. by case_match.
Qed.

Lemma target_settles d t force heal d' o : tidy_target d t ->
  apply_target dedicated_body d t force heal false = Ok (d', o) ->
  forall df dry, same_file (pt_path t) d' df -> exists o', apply_target dedicated_body df t force heal dry = Ok (df, o') /\ quiet_after o o'.
Proof.
  unfold tidy_target, apply_target. intros Ht Hrun df dry Hsame.
  assert (Hf : forall body, body = POSIX_BODY \/ body = ELVISH_BODY \/ body = POWERSHELL_BODY ->
    (forall content, read_to_string_or_empty d (pt_path t) = Ok content -> tidy content) ->
    apply_fence_file d (pt_path t) body force heal false = Ok (d', o) ->
    exists o', apply_fence_file df (pt_path t) body force heal dry = Ok (df, o') /\ quiet_after o o').
  { intros body [Hb Hq]%bodies_ok Ht' Hr. by eapply fence_file_settles. }
  destruct (pt_kind t); [apply Hf; auto..| |apply Hf; auto].
  exists NoOp. split; [by eapply dedicated_settles|by left].
Qed.

Lemma target_frame d t force heal dry d' o : apply_target dedicated_body d t force heal dry = Ok (d', o) ->
  forall path, path <> pt_path t -> same_file path d d'.
Proof.
  assert (Hw : forall content d1, write_profile d (pt_path t) content = Ok d1 -> forall path, path <> pt_path t -> same_file path d d1).
  { intros content d1 [E _]%write_profile_ok path Hp. unfold same_file. by rewrite E, lookup_insert_ne by done. }
  unfold apply_target, apply_fence_file, rewrite_dedicated. intros Hrun path Hp.
  repeat case_match; simplify_eq; eauto; done.
Qed.

Lemma phase_frame d ts force heal dry df os : apply_profile_phase dedicated_body d ts force heal dry = (df, Ok os) ->
  forall path, ~ In path (map pt_path ts) -> same_file path d df.
Proof.
  revert d os; induction ts as [|t ts IH]; intros d os; simpl; [by intros [= <- _]|].
  destruct (apply_target dedicated_body d t force heal dry) as [[d1 o]|] eqn:Et; [|done].
  destruct (apply_profile_phase dedicated_body d1 ts force heal dry) as [d2 [os2|]] eqn:Ep; intros [= -> <-] path Hp.
  unfold same_file. rewrite (target_frame _ _ _ _ _ _ _ Et path) by naive_solver. eapply IH; [exact Ep|naive_solver].
Qed.

Lemma phase_targets d ts force heal df os : NoDup (map pt_path ts) -> Forall (tidy_target d) ts ->
  apply_profile_phase dedicated_body d ts force heal false = (df, Ok os) ->
  Forall2 (fun t p => fst p = pt_path t /\ forall dry, exists o', apply_target dedicated_body df t force heal dry = Ok (df, o') /\ quiet_after (snd p) o') ts os.
Proof.
  revert d os; induction ts as [|t ts IH]; intros d os Hnd Ht; simpl; [by intros [= _ <-]|].
  inversion Hnd as [|? ? Hni Hnd']; subst. inversion Ht as [|? ? Ht1 Ht']; subst.
  destruct (apply_target dedicated_body d t force heal false) as [[d1 o]|] eqn:Et; [|done].
  destruct (apply_profile_phase dedicated_body d1 ts force heal false) as [d2 [os2|]] eqn:Ep; intros [= -> <-].
  constructor.
  - split; [done|]. intros dry. eapply target_settles; [exact Ht1|exact Et|]. eapply phase_frame; [exact Ep|]. by rewrite <- list_elem_of_In.
  - eapply IH; [done| |exact Ep]. apply List.Forall_forall. intros t' Hin. pose proof (proj1 (List.Forall_forall _ _) Ht' t' Hin) as Htt.
    assert (Hne : pt_path t' <> pt_path t). { intros E. apply Hni. rewrite <- E. apply list_elem_of_In, in_map, Hin. }
    unfold tidy_target in *. destruct (pt_kind t'); try done; intros content; rewrite <- (read_same _ _ _ (target_frame _ _ _ _ _ _ _ Et _ Hne)); apply Htt.
Qed.

Lemma quiet_phase d ts force heal dry os :
  Forall2 (fun t p => fst p = pt_path t /\ forall dry, exists o', apply_target dedicated_body d t force heal dry = Ok (d, o') /\ quiet_after (snd p) o') ts os ->
  exists os', apply_profile_phase dedicated_body d ts force heal dry = (d, Ok os') /\
    Forall2 (fun p p' => fst p' = fst p /\ quiet_after (snd p) (snd p')) os os'.
Proof.
  induction 1 as [|t p ts os [Hp Ht] _ (os' & Erun & Hos)]; [by exists []|].
  destruct (Ht dry) as (o' & Et & Hq). exists ((pt_path t, o') :: os'). simpl. rewrite Et, Erun. split; [done|]. by constructor.
Qed.

(** Setting the profiles up settles.  After a profile phase that returned, with distinct
    targets and tidy profiles (once stripped, no line opens a fence or an older block), another
    run with the same options, dry or not, returns, writes nothing, and reports each target
    as a [NoOp], or as the skipped dirty block it already was. *)
Theorem setup_phase_settles d ts force heal df os :
  NoDup (map pt_path ts) -> Forall (tidy_target d) ts ->
  apply_profile_phase dedicated_body d ts force heal false = (df, Ok os) ->
  forall dry, exists os', apply_profile_phase dedicated_body df ts force heal dry = (df, Ok os') /\
    Forall2 (fun p p' => fst p' = fst p /\ quiet_after (snd p) (snd p')) os os' /\ profiles_changed os' = false.
Proof.
  intros Hnd Ht Hrun dry. destruct (quiet_phase df ts force heal dry os) as (os' & Erun & Hos).
  { by eapply phase_targets. }
  exists os'. split_and!; [done|done|]. clear -Hos. unfold profiles_changed. induction Hos as [|p p' os os' [_ Hq] _ IH]; [done|].
  simpl. rewrite IH. by destruct Hq as [->|[-> _]].
Qed.

(** A dry run leaves the disk alone and reports what the real run would. *)
Lemma target_dry d t force heal d' o : apply_target dedicated_body d t force heal false = Ok (d', o) ->
  apply_target dedicated_body d t force heal true = Ok (d, o).
Proof.
  unfold apply_target, apply_fence_file, rewrite_dedicated. intros Hrun. repeat case_match; simplify_eq; done.
Qed.

(** A run of one target looks at one file. *)
Lemma target_local d d1 t force heal o : same_file (pt_path t) d d1 ->
  apply_target dedicated_body d1 t force heal true = Ok (d1, o) -> apply_target dedicated_body d t force heal true = Ok (d, o).
Proof.
  unfold apply_target, apply_fence_file, rewrite_dedicated. intros Hsame. rewrite (read_same _ _ _ Hsame), Hsame.
  intros Hrun. repeat case_match; simplify_eq; done.
Qed.

(** A dry run tells the truth.  Whenever the profile phase over distinct targets returns,
    a dry run from the same disk returns the very same outcomes and leaves the disk as it
    is. *)
Theorem setup_phase_dry d ts force heal df os : NoDup (map pt_path ts) ->
  apply_profile_phase dedicated_body d ts force heal false = (df, Ok os) ->
  apply_profile_phase dedicated_body d ts force heal true = (d, Ok os).
Proof.
  intros Hnd. enough (Hg : forall d0, Forall (fun t => same_file (pt_path t) d0 d) ts ->
    apply_profile_phase dedicated_body d ts force heal false = (df, Ok os) -> apply_profile_phase dedicated_body d0 ts force heal true = (d0, Ok os)).
  { intros Hrun. apply Hg; [|done]. by apply List.Forall_forall. }
  revert d os Hnd; induction ts as [|t ts IH]; intros d os Hnd d0 Hsame; simpl; [by intros [= _ <-]|].
  inversion Hnd as [|? ? Hni Hnd']; subst. inversion Hsame as [|? ? Hs1 Hs']; subst.
  destruct (apply_target dedicated_body d t force heal false) as [[d1 o]|] eqn:Et; [|done].
  rewrite (target_local d0 d t force heal o) by (done || by eapply target_dry).
  destruct (apply_profile_phase dedicated_body d1 ts force heal false) as [d2 [os2|]] eqn:Ep; intros [= -> <-].
  rewrite (IH d1 os2); [done|done| |done]. apply List.Forall_forall. intros t' Hin. unfold same_file.
  rewrite (proj1 (List.Forall_forall _ _) Hs' t' Hin). apply (target_frame _ _ _ _ _ _ _ Et).
  intros E. apply Hni. rewrite <- E. apply list_elem_of_In, in_map, Hin.
Qed.
End Phase.

(** ** The session PATH *)

Definition spells (directory : string) : Prop :=
  directory <> "" /\ str_mem ":" directory = false /\ str_mem LF directory = false /\ str_mem "$" directory = false.

Lemma encode_spells directory spelled : starts_with "/" directory = true -> linux_encode directory = Ok spelled -> spelled = directory /\ spells directory.
Proof.
  unfold linux_encode. intros Ha. destruct (List.find (fun c => str_mem (fst c) directory) REFUSED) as [[c r]|] eqn:E; [done|].
  assert (Hn : forall c r, In (c, r) REFUSED -> str_mem c directory = false) by (intros c r Hin; by apply (find_none _ _ E (c, r))).
  destruct (match directory with EmptyString => _ | _ => _ end) as [[? ?]|]; [done|]. intros [= <-]. split; [done|].
  split_and!; [by intros -> |eapply Hn; do 4 right; by left|eapply Hn; by left|eapply Hn; do 3 right; by left].
Qed.

Lemma encode_all_spells ds l : refuse_relative ds = Ok tt -> encode_all ds = Ok l -> l = ds /\ Forall spells ds.
Proof.
  unfold refuse_relative. destruct (List.find _ ds) eqn:E; [done|]. intros _. pose proof (find_none _ _ E) as Hn. clear E.
  revert l; induction ds as [|d ds IH]; intros l; simpl; [by intros [= <-]|].
  destruct (linux_encode d) as [s|] eqn:Ed; [|done]. destruct (encode_all ds) as [ss|]; [|done]. intros [= <-].
  destruct (encode_spells d s) as [-> Hs]; [|done|].
  { specialize (Hn d (or_introl eq_refl)). by apply negb_false_iff in Hn. }
  destruct (IH (fun x Hx => Hn x (or_intror Hx)) ss eq_refl) as [-> Hss]. by split; [|constructor].
Qed.

Lemma join_colon_last ds : last_char (str_join ":" (ds ++ [INHERITED])) = Some "H"%char.
Proof.
  induction ds as [|d ds IH]; [done|]. destruct (ds ++ [INHERITED])%list as [|x l] eqn:E; [by destruct ds|].
  change (str_join ":" ((d :: ds) ++ [INHERITED])) with (str_join ":" (d :: (ds ++ [INHERITED]))). rewrite E.
  change (str_join ":" (d :: x :: l)) with (d +:+ (":" +:+ str_join ":" (x :: l))). rewrite <- E in *.
  rewrite last_char_app by done. rewrite last_char_app; [done|]. intros E0. by rewrite E0 in IH.
Qed.

Lemma not_inherited d : spells d -> negb (String.eqb d "") && negb (String.eqb d INHERITED) = true.
Proof.
  intros (Hne & _ & _ & Hd). apply andb_true_iff; split; apply negb_true_iff, String.eqb_neq; [done|]. intros ->. done.
Qed.

(** Subtracting from a line this writer wrote is exact. *)
Lemma subtract_written ds removed : Forall spells ds ->
  subtract (prepend_line ds) removed
  = let survivors := List.filter (fun segment => negb (existsb (String.eqb segment) removed)) ds in
    if (length survivors =? length ds)%nat then None else Some survivors.
Proof.
  intros Hds. unfold subtract, prepend_line.
  assert (Hp : forall r, strip_prefix PREPEND_PREFIX (PREPEND_PREFIX +:+ r) = Some r) by (intros r; by apply strip_prefix_Some).
  rewrite Hp, (trim_end_lf_once _ "H") by (apply join_colon_last || done).
  assert (split_char ":" (str_join ":" (ds ++ [INHERITED])) = (ds ++ [INHERITED])%list) as ->.
  { apply (split_char_join ":"); [by destruct ds|]. intros s [Hs|[<-|[]]]%in_app_iff; [|done].
    by destruct (proj1 (List.Forall_forall _ _) Hds s Hs) as (_ & ? & _). }
  rewrite List.filter_app. simpl. rewrite app_nil_r.
  assert (List.filter (fun segment => negb (String.eqb segment "") && negb (String.eqb segment INHERITED)) ds = ds) as ->; [|done].
  clear -Hds. induction Hds as [|d ds Hd _ IH]; [done|]. cbn [List.filter]. by rewrite (not_inherited d Hd), IH.
Qed.

Lemma filter_all {A} (f : A -> bool) l : (forall x, In x l -> f x = true) -> List.filter f l = l.
Proof. induction l as [|x l IH]; intros Hf; simpl; [done|]. rewrite Hf by by left. rewrite IH; [done|]. intros; apply Hf. by right. Qed.

Lemma current_file d path content : conf_is_current d path content = true <-> dk_files d !! path = Some (mkNode (Some content) false).
Proof.
  unfold conf_is_current. destruct (dk_files d !! path) as [[t sh]|]; [|done]. simpl. rewrite andb_true_iff, bool_decide_eq_true.
  split; [by intros [? ->]; destruct sh|by intros [= -> ->]].
Qed.

Lemma registered_file d env ds dry d1 o : refuse_relative ds = Ok tt -> register_in d env ds dry = (d1, Ok (conf_path env, o)) ->
  Forall spells ds /\ (o = Unchanged \/ (dry = false /\ o = Written) -> dk_files d1 !! conf_path env = Some (mkNode (Some (prepend_line ds)) false)).
Proof.
  intros Hr. unfold register_in, linux_register, render_conf. rewrite Hr.
  destruct (encode_all ds) as [l|] eqn:E; [|done]. destruct (encode_all_spells _ _ Hr E) as [-> Hs].
  destruct (conf_is_current d (conf_path env) (prepend_line ds)) eqn:Ec.
  { intros [= <- _]. split; [done|]. intros _. by apply current_file. }
  destruct dry; [intros [= _ <-]; naive_solver|]. unfold write_bytes_atomic.
  destruct (dk_writable d (conf_path env)); intros [= <- <-]; (split; [done|]); [intros _; apply lookup_insert_eq|naive_solver].
Qed.

Lemma session_phase_unfold d env retired ds dry d1 r : session_path_phase d env retired ds false dry = (d1, Ok r) ->
  exists d0 r0, deregister_in d env retired dry = (d0, Ok r0) /\ register_in d0 env ds dry = (d1, Ok r).
Proof. unfold session_path_phase. destruct (deregister_in d env retired dry) as [d0 [r0|]]; [|done]. eauto. Qed.

(** The session PATH settles and is given back.  When the phase of a run (the retired
    directories out, the registered ones in) reports [Written] or [Unchanged], the store holds
    exactly the line of the registered directories, private; the next run reports
    [Unchanged] and writes nothing; and unregistering the directories then deletes the store
    and touches no other file, where the store may be written. *)
Theorem session_path_settles d env retired ds d1 o :
  refuse_relative retired = Ok tt -> refuse_relative ds = Ok tt -> ds <> [] ->
  (forall r, In r retired -> ~ In r ds) ->
  session_path_phase d env retired ds false false = (d1, Ok (conf_path env, o)) -> o = Written \/ o = Unchanged ->
  dk_files d1 !! conf_path env = Some (mkNode (Some (prepend_line ds)) false) /\
  (forall dry, session_path_phase d1 env retired ds false dry = (d1, Ok (conf_path env, Unchanged))) /\
  (dk_writable d1 (conf_path env) = true ->
   deregister_in d1 env ds false = (mkProfileDisk (delete (conf_path env) (dk_files d1)) (dk_writable d1), Ok (conf_path env, Removed))).
Proof.
  intros Hr Hd Hne Hdis Hrun Ho. apply session_phase_unfold in Hrun as (d0 & r0 & Hdereg & Hreg).
  destruct (registered_file _ _ _ _ _ _ Hd Hreg) as [Hs Hfile]. specialize (Hfile ltac:(naive_solver)).
  assert (Hel : encode_all ds = Ok ds).
  { unfold register_in, linux_register, render_conf in Hreg. rewrite Hd in Hreg. destruct (encode_all ds) as [l|] eqn:E; [|done].
    by destruct (encode_all_spells _ _ Hd E) as [-> _]. }
  assert (Her : encode_all retired = Ok retired).
  { unfold deregister_in, linux_deregister in Hdereg. rewrite Hr in Hdereg. destruct (encode_all retired) as [l|] eqn:E; [|done].
    by destruct (encode_all_spells _ _ Hr E) as [-> _]. }
  assert (Hcur : conf_is_current d1 (conf_path env) (prepend_line ds) = true) by by apply current_file.
  split_and!; [done|intros dry|intros Hw].
  - unfold session_path_phase, deregister_in, linux_deregister. rewrite Hr, Her, Hfile. simpl. rewrite subtract_written by done. cbv zeta.
    rewrite filter_all, Nat.eqb_refl.
    + unfold register_in, linux_register, render_conf. by rewrite Hd, Hel, Hcur.
    + intros x Hx. apply negb_true_iff, not_true_is_false. intros (y & Hy & ->%String.eqb_eq)%existsb_exists. by apply (Hdis y).
  - unfold deregister_in, linux_deregister. rewrite Hd, Hel, Hfile. simpl. rewrite subtract_written by done. cbv zeta.
    assert (List.filter (fun segment => negb (existsb (String.eqb segment) ds)) ds = []) as ->.
    { destruct (List.filter _ ds) as [|x l] eqn:E; [done|]. assert (Hin : In x (x :: l)) by by left. rewrite <- E in Hin.
      apply filter_In in Hin as [Hin Hx]. apply negb_true_iff in Hx. rewrite <- not_true_iff_false in Hx. exfalso. apply Hx.
      apply existsb_exists. exists x. by rewrite String.eqb_refl. }
    destruct ds as [|x ds]; [done|]. simpl. unfold remove_file. by rewrite Hw.
Qed.

(** ** The version argument of a setup

    [crates/ocx_setup/src/version_spec.rs]: the suffix that pins the bootstrap to a tag, a
    digest, or both. *)

Inductive VersionSpec : Type :=
| SpecTag (tag : string)
| SpecDigest (digest : Digest)
| SpecTagAndDigest (tag : string) (digest : Digest).

(** The reasons of [InvalidVersionSpec]. *)
Inductive SpecError : Type :=
| SpecEmpty | SpecManyAt | SpecLeadingAt | SpecUppercaseDigest | SpecInvalidDigest
| SpecTagTooLong (length : nat) | SpecTagStart (tag : string) | SpecTagCharacter (tag : string) (character : ascii).

Definition spec_apply (spec : VersionSpec) (base : PackageRef) : PackageRef :=
  match spec with
  | SpecTag tag => clone_with_tag base tag
  | SpecDigest digest => clone_with_digest base digest
  | SpecTagAndDigest tag digest => clone_with_digest (clone_with_tag base tag) digest
  end.
Definition is_pinned_digest (spec : VersionSpec) : bool :=
  match spec with SpecDigest _ | SpecTagAndDigest _ _ => true | SpecTag _ => false end.
Definition spec_tag (spec : VersionSpec) : option string :=
  match spec with SpecTag tag | SpecTagAndDigest tag _ => Some tag | SpecDigest _ => None end.
Definition spec_digest (spec : VersionSpec) : option Digest :=
  match spec with SpecDigest digest | SpecTagAndDigest _ digest => Some digest | SpecTag _ => None end.

(** [parse_digest]. *)
Definition spec_parse_digest (digest_str : string) : result SpecError Digest :=
  if negb (str_forall (fun c => negb (is_upper c)) digest_str) then Err SpecUppercaseDigest
  else match digest_try_from digest_str with Ok digest => Ok digest | Err _ => Err SpecInvalidDigest end.

(** [validate_tag]. *)
Definition tag_start (c : ascii) : bool := is_alnum c || Ascii.eqb c "_".
Definition tag_rest (c : ascii) : bool := is_alnum c || Ascii.eqb c "_" || Ascii.eqb c "." || Ascii.eqb c "-".
Fixpoint first_not (p : ascii -> bool) (s : string) : option ascii :=
  match s with
  | EmptyString => None
  | String c s' => if p c then first_not p s' else Some c
  end.
Definition spec_validate_tag (tag : string) : result SpecError string :=
  let normalized := replace_char "+" "_" tag in
  if (128 <? String.length normalized)%nat then Err (SpecTagTooLong (String.length normalized))
  else match normalized with
       | String first rest =>
           if tag_start first then
             match first_not tag_rest rest with
             | Some c => Err (SpecTagCharacter tag c)
             | None => Ok normalized
             end
           else Err (SpecTagStart tag)
       | EmptyString => Err (SpecTagStart tag)
       end.

(** [FromStr for VersionSpec], [Display]. *)
Definition spec_from_str (s : string) : result SpecError VersionSpec :=
  if String.eqb s "" then Err SpecEmpty
  else match split_once "@" s with
       | Some (tag_part, digest_part) =>
           if str_mem "@" digest_part then Err SpecManyAt
           else if String.eqb tag_part "" then Err SpecLeadingAt
           else match spec_validate_tag tag_part with
                | Err error => Err error
                | Ok tag => match spec_parse_digest digest_part with Err error => Err error | Ok digest => Ok (SpecTagAndDigest tag digest) end
                end
       | None =>
           if str_mem ":" s then match spec_parse_digest s with Err error => Err error | Ok digest => Ok (SpecDigest digest) end
           else match spec_validate_tag s with Err error => Err error | Ok tag => Ok (SpecTag tag) end
       end.
Definition spec_display (spec : VersionSpec) : string :=
  match spec with
  | SpecTag tag => tag
  | SpecDigest digest => digest_display digest
  | SpecTagAndDigest tag digest => tag +:+ "@" +:+ digest_display digest
  end.

(** ** Lemmas *)

Definition tag_ok (tag : string) : bool :=
  (String.length tag <=? 128)%nat && match tag with String c rest => tag_start c && str_forall tag_rest rest | EmptyString => false end.
Definition spec_ok (spec : VersionSpec) : bool :=
  match spec with
  | SpecTag tag => tag_ok tag
  | SpecDigest digest => digest_wf digest
  | SpecTagAndDigest tag digest => tag_ok tag && digest_wf digest
  end.

Lemma first_not_None p s : first_not p s = None <-> str_forall p s = true.
Proof. induction s as [|c s IH]; simpl; [done|]. destruct (p c); simpl; [done|]. by split. Qed.

Lemma tag_start_rest c : tag_start c = true -> tag_rest c = true.
Proof. unfold tag_start, tag_rest. by intros [-> | ->]%orb_true_iff; rewrite ?orb_true_r. Qed.

Lemma tag_ok_chars tag : tag_ok tag = true -> str_forall tag_rest tag = true.
Proof.
  unfold tag_ok. destruct tag as [|c rest]; rewrite !andb_true_iff; [by intros [_ ?]|]. intros (_ & Hc & Hr).
  simpl. by rewrite (tag_start_rest _ Hc), Hr.
Qed.

Lemma tag_ok_free tag c : tag_ok tag = true -> tag_rest c = false -> str_mem c tag = false.
Proof. intros Ht. by apply str_mem_forall, tag_ok_chars. Qed.

Lemma validate_tag_ok tag t : spec_validate_tag tag = Ok t -> t = replace_char "+" "_" tag /\ tag_ok t = true.
Proof.
  unfold spec_validate_tag, tag_ok. destruct (Nat.ltb_spec 128 (String.length (replace_char "+" "_" tag))) as [Hl|Hl]; [done|].
  destruct (replace_char "+" "_" tag) as [|c rest]; [done|]. destruct (tag_start c) eqn:Ec; [|done].
  destruct (first_not tag_rest rest) eqn:Er; [done|]. intros [= <-]. split; [done|].
  apply first_not_None in Er. rewrite Ec, Er. apply andb_true_iff. split; [by apply Nat.leb_le|done].
Qed.

Lemma validate_tag_id tag : tag_ok tag = true -> spec_validate_tag tag = Ok tag.
Proof.
  intros Ht. unfold spec_validate_tag. rewrite replace_char_id by by apply tag_ok_free.
  unfold tag_ok in Ht. apply andb_true_iff in Ht as [Hl Ht]. apply Nat.leb_le in Hl.
  destruct (Nat.ltb_spec 128 (String.length tag)); [lia|]. destruct tag as [|c rest]; [done|].
  apply andb_true_iff in Ht as [-> Hr]. apply first_not_None in Hr. by rewrite Hr.
Qed.

Lemma digest_text d : digest_wf d = true -> spec_parse_digest (digest_display d) = Ok d /\
  str_mem "@" (digest_display d) = false /\ str_mem ":" (digest_display d) = true /\ str_mem "+" (digest_display d) = false.
Proof.
  intros Hd. unfold spec_parse_digest. rewrite digest_parse_display by done.
  pose proof Hd as Hw. unfold digest_wf in Hw. rewrite !andb_true_iff, String.eqb_eq in Hw. destruct Hw as [[_ Hx] Hlow].
  assert (Hhex : forall c, is_hexdigit c = false -> str_mem c (digest_hex d) = false) by (intros c; by apply str_mem_forall).
  assert (Hup : str_forall (fun c => negb (is_upper c)) (digest_hex d) = true).
  { rewrite <- Hlow. clear. induction (digest_hex d) as [|c s IH]; [done|]. simpl. rewrite IH, andb_true_r.
    destruct c as [[] [] [] [] [] [] [] []]; reflexivity. }
  unfold digest_display, digest_parts. rewrite !str_forall_app, !str_mem_app, !Hhex, Hup by done.
  by destruct d.
Qed.

Lemma parse_digest_ok s d : spec_parse_digest s = Ok d -> s = digest_display d /\ digest_wf d = true.
Proof.
  unfold spec_parse_digest. destruct (str_forall (fun c => negb (is_upper c)) s) eqn:Eu; simpl; [|done].
  destruct (digest_try_from s) as [d'|] eqn:E; [|done]. intros [= ->]. split; [|by eapply digest_try_from_wf].
  apply digest_try_from_inv in E as (a & hex & -> & _ & _ & ->). unfold digest_display, digest_parts.
  destruct (digest_of_hex a (lowercase hex)) as [-> ->]. do 2 f_equal.
  rewrite !str_forall_app, !andb_true_iff in Eu. destruct Eu as (_ & _ & Eu). clear -Eu.
  induction hex as [|c hex IH]; [done|]. simpl in *. apply andb_true_iff in Eu as [Ec Eu]. rewrite <- IH by done. f_equal.
  unfold to_lower. apply negb_true_iff in Ec. revert Ec. unfold is_upper. by destruct c as [[] [] [] [] [] [] [] []].
Qed.

(** ** Properties *)

Lemma replace_char_app c d a b : replace_char c d (a +:+ b) = replace_char c d a +:+ replace_char c d b.
Proof. induction a as [|e a IH]; [done|]. change (String e a +:+ b) with (String e (a +:+ b)). simpl. by rewrite IH. Qed.

(** A version argument round trips.  A well-formed spec prints as a text that parses back
    to it; a text that parses gives a well-formed spec that prints as the text with [+] folded
    to [_]; and applied to a base reference it puts exactly its tag and its digest there,
    whatever the base carried (a digest-only spec keeps the tag of the base). *)
Theorem version_spec_roundtrip (spec : VersionSpec) (base : PackageRef) :
  (spec_ok spec = true -> spec_from_str (spec_display spec) = Ok spec) /\
  (forall s, spec_from_str s = Ok spec -> spec_ok spec = true /\ spec_display spec = replace_char "+" "_" s /\
     pr_digest (spec_apply spec base) = spec_digest spec /\
     pr_tag (spec_apply spec base) = match spec_tag spec with Some tag => Some tag | None => pr_tag base end).
Proof.
  assert (Hnorm : forall t, tag_ok t = true -> normalize_tag t = t).
  { intros t Ht. unfold normalize_tag. apply replace_char_id. by apply tag_ok_free. }
  split.
  - unfold spec_from_str. destruct spec as [t|d|t d]; simpl; intros Hok.
    + assert (String.eqb t "" = false) as -> by by destruct t.
      rewrite (proj2 (split_once_None _ _)), (tag_ok_free t ":"), validate_tag_id by (done || by apply tag_ok_free). done.
    + destruct (digest_text d Hok) as (Hp & Hat & Hc & _). assert (String.eqb (digest_display d) "" = false) as -> by by destruct d.
      rewrite (proj2 (split_once_None _ _)), Hc, Hp by done. done.
    + apply andb_true_iff in Hok as [Ht Hd]. destruct (digest_text d Hd) as (Hp & Hat & _ & _).
      assert (Hne : String.eqb t "" = false) by by destruct t.
      assert (String.eqb (t +:+ String "@" (digest_display d)) "" = false) as -> by by destruct t.
      rewrite split_once_app by by apply tag_ok_free. by rewrite Hat, Hne, validate_tag_id, Hp.
  - intros s. unfold spec_from_str. destruct (String.eqb s ""); [done|]. destruct (split_once "@" s) as [[a b]|] eqn:Es.
    + apply split_once_Some in Es as [-> _]. destruct (str_mem "@" b); [done|]. destruct (String.eqb a ""); [done|].
      destruct (spec_validate_tag a) as [t|] eqn:Et; [|done]. destruct (spec_parse_digest b) as [d|] eqn:Ed; [|done]. intros [= <-].
      apply validate_tag_ok in Et as [-> Ht]. apply parse_digest_ok in Ed as [-> Hd]. destruct (digest_text d Hd) as (_ & _ & _ & Hplus).
      split_and!; [simpl; by rewrite Ht, Hd| |done|simpl; by rewrite Hnorm]. simpl.
      change (String "@" (digest_display d)) with ("@" +:+ digest_display d). rewrite !replace_char_app, (replace_char_id "+" "_" (digest_display d)) by done. done.
    + destruct (str_mem ":" s).
      * destruct (spec_parse_digest s) as [d|] eqn:Ed; [|done]. intros [= <-]. apply parse_digest_ok in Ed as [-> Hd].
        destruct (digest_text d Hd) as (_ & _ & _ & Hplus). split_and!; [done| |done|done]. simpl. by rewrite replace_char_id.
      * destruct (spec_validate_tag s) as [t|] eqn:Et; [|done]. intros [= <-]. apply validate_tag_ok in Et as [-> Ht].
        split_and!; [done|done|done|simpl; by rewrite Hnorm].
Qed.
