(* ===== verification/SampleShell.v ===== *)
(** * A sample session

    A user with [JAVA_HOME] and [PATH] of their own who enters a project and leaves it
    again; the theorems on the reconciler at this session, and sessions that show what
    happens to a constant declared twice and to a reverted environment. *)

From stdpp Require Import base decidable list option numbers strings gmap.
From Stdlib Require Import Lia Ascii.
From S2P Require Import Prelude OMap Text TextSearch Digest PackageRef Store Closure Metadata Template EnvVars EnvVarsSpec.
From S2P Require Import Reconcile ReconcileSpec RcBlock RcBlockSpec SetupRun SetupSpec.
Local Open Scope string_scope.

(** ** The user, the project and the texts *)

Definition constant_entry (key value : string) : Entry := mkEntry key value KConstant None.
Definition path_entry (key value : string) : Entry := mkEntry key value KPath None.
Definition sample_user : Env := env_set (env_set env_clean "JAVA_HOME" "/usr/lib/jvm") "PATH" "/usr/bin:/bin".
Definition sample_session_path : SessionPath := mkSession "/ocx/bin" "/ocx/toolchain/bin" None.
Definition sample_slot : ProjectIdentity := mkIdentity "/work/ocx.toml" "/work" "a1b2".
Definition sample_outcome_of (global project : list Entry) (slot : option ProjectIdentity) : Outcome :=
  mkOutcome sample_session_path global project None slot (bool_decide (is_Some slot)) false [].
Definition sample_inside : Outcome :=
  sample_outcome_of [path_entry "PATH" "/ocx/packages/g/bin"]
    [constant_entry "JAVA_HOME" "/ocx/packages/jdk"; path_entry "PATH" "/ocx/packages/jdk/bin"] (Some sample_slot).
Definition sample_outside : Outcome := sample_outcome_of [path_entry "PATH" "/ocx/packages/g/bin"] [] None.

Definition sample_recorded : Ledger :=
  mkLedger 1 "fp-1" None [] "" "" []
    (mkScopes (Some [mkRecorded "PATH" "/ocx/packages/g/bin" KPath None]) ∅
       (Some (mkProjectScope "a1b2" "/work"
                [mkRecorded "JAVA_HOME" "/ocx/packages/jdk" KConstant None; mkRecorded "PATH" "/ocx/packages/jdk/bin" KPath None]
                (<["JAVA_HOME" := Value "/usr/lib/jvm"]> ∅)))).
#[export] Instance HookVerdict_eq_dec : EqDecision HookVerdict.
Proof. solve_decision. Defined.
#[export] Instance Prior_eq_dec : EqDecision Prior.
Proof. solve_decision. Defined.
#[export] Instance ProjectScope_eq_dec : EqDecision ProjectScope.
Proof. solve_decision. Defined.
#[export] Instance Scopes_eq_dec : EqDecision Scopes.
Proof. solve_decision. Defined.
#[export] Instance Ledger_eq_dec : EqDecision Ledger.
Proof. solve_decision. Defined.
#[export] Instance sample_carrier : CarrierText := {|
  ledger_to_vec := fun ledger => if decide (ledger = sample_recorded) then Some "recorded" else None;
  ledger_from_slice := fun bytes => if String.eqb bytes "recorded" then Some sample_recorded else None;
  base64_encode := fun bytes => bytes;
  base64_decode := Some;
  messages_digest := fun _ => "messages";
|}.
#[export] Instance sample_realpath : RealPath := fun _ => None.
Definition sample_entered : Env * Ledger := default (sample_user, ledger_empty) (prompt "fp-1" sample_inside ["/ocx"] (sample_user, ledger_empty)).

(** ** The theorems at this session *)

Definition sample_constant (key : string) : bool := String.eqb key "JAVA_HOME".
Definition sample_owner (_ : string) : ScopeId := Project.

Lemma sample_behaves outcome : outcome = sample_inside \/ outcome = sample_outside -> well_behaved sample_constant sample_owner outcome.
Proof.
  intros Ho. split; [|split].
  - intros scope e He. destruct Ho as [-> | ->], scope; cbn in He; repeat destruct He as [<-|He]; try reflexivity; destruct He.
  - intros key Hkey scope. apply String.eqb_eq in Hkey as ->. destruct Ho as [-> | ->], scope; vm_compute; lia.
  - by destruct Ho as [-> | ->].
Qed.


Definition sample_leaving : Plan := default (mkPlan 0 [] [] []) (plan_for sample_recorded sample_outside ["/ocx"] sample_entered.1).
Lemma plan_touches_own_witness :
  pl_restores sample_leaving = [("JAVA_HOME", Some "/usr/lib/jvm")] /\
  pl_removes sample_leaving = [("PATH", "/ocx/packages/jdk/bin", None)] /\
  ledger_prior sample_recorded "JAVA_HOME" = Some (Value "/usr/lib/jvm").
Proof.
  split; [vm_compute; reflexivity|]. split; [vm_compute; reflexivity|].
  destruct (plan_touches_own (desired_entries sample_outside) sample_entered.1 sample_recorded ["/ocx"] sample_leaving) as (_ & Hr & _);
    [vm_compute; reflexivity|].
  destruct (Hr "JAVA_HOME" (Some "/usr/lib/jvm")) as (_ & _ & e & live & _ & _ & _ & _ & _ & Hp); [vm_compute; by left|exact Hp].
Defined.

Lemma sample_base64 bytes : base64_decode (base64_encode bytes) = Some bytes.
Proof. reflexivity. Qed.
Lemma sample_json ledger bytes : ledger_to_vec ledger = Some bytes -> ledger_from_slice bytes = Some ledger.
Proof.
  change (ledger_to_vec ledger) with (if decide (ledger = sample_recorded) then Some "recorded" else None). destruct (decide _) as [->|]; [|done].
  by intros [= <-].
Qed.
Lemma carrier_roundtrip_witness :
  ledger_encode sample_recorded = Some "1.recorded" /\
  (ledger_decode "1.recorded" = Some sample_recorded \/ ledger_decode "1.recorded" = Some (marker_of sample_recorded)).
Proof.
  split; [vm_compute; reflexivity|].
  destruct (carrier_roundtrip (H := sample_carrier) sample_base64 sample_json ledger_empty "fp-1" sample_inside sample_user sample_recorded "1.recorded")
    as (_ & [Hd|[Hd _]]); [reflexivity|vm_compute; lia|vm_compute; reflexivity|vm_compute; reflexivity|by left|by right].
Defined.

(** ** What the sessions of the theorem leave out *)

Definition java_home (st : option (Env * Ledger)) : option string := st ≫= fun st => env_vars st.1 !! "JAVA_HOME".
Definition from_user (outcomes : list Outcome) : option (Env * Ledger) :=
  fold_left (fun st outcome => st ≫= prompt "fp" outcome ["/ocx"]) outcomes (Some (sample_user, ledger_empty)).

(** A constant both scopes declare: the second prompt in the project sets the global value
    over the project's, and when both are gone the project's value stays. *)
Definition sample_shadowing : Outcome :=
  sample_outcome_of [constant_entry "JAVA_HOME" "/global/jdk"] [constant_entry "JAVA_HOME" "/project/jdk"] (Some sample_slot).
Definition sample_nothing : Outcome := sample_outcome_of [] [] None.
Example shadowed_constant_flips :
  java_home (from_user [sample_shadowing]) = Some "/project/jdk" /\
  java_home (from_user [sample_shadowing; sample_shadowing]) = Some "/global/jdk" /\
  java_home (from_user [sample_shadowing; sample_shadowing; sample_nothing]) = Some "/project/jdk".
Proof. repeat split; vm_compute; reflexivity. Qed.

(** A constant one scope declares twice: the second prompt sets the first value, and
    leaving keeps the second. *)
Definition sample_twice : Outcome :=
  sample_outcome_of [] [constant_entry "JAVA_HOME" "/a/jdk"; constant_entry "JAVA_HOME" "/b/jdk"] (Some sample_slot).
Example repeated_constant_flips :
  java_home (from_user [sample_twice]) = Some "/b/jdk" /\
  java_home (from_user [sample_twice; sample_twice]) = Some "/a/jdk" /\
  java_home (from_user [sample_twice; sample_twice; sample_nothing]) = Some "/b/jdk".
Proof. repeat split; vm_compute; reflexivity. Qed.

(** A global path variable a project turns into a constant: the in-process revert removes
    before it restores, and the retired element is back. *)
Definition sample_mixed : Ledger :=
  mkLedger 1 "fp" None [] "" "" []
    (mkScopes (Some [mkRecorded "TOOLS" "/global/bin" KPath None]) ∅
       (Some (mkProjectScope "a1b2" "/work" [mkRecorded "TOOLS" "/project/tools" KConstant None] (<["TOOLS" := Value "/global/bin:/usr/bin"]> ∅)))).
Definition mixed_carrier : CarrierText := {|
  ledger_to_vec := fun _ => None; ledger_from_slice := fun _ => Some sample_mixed;
  base64_encode := fun bytes => bytes; base64_decode := Some; messages_digest := fun _ => "" |}.
Example revert_reintroduces :
  (revert_reconciled (H := mixed_carrier) (env_set (env_set env_clean CARRIER_KEY "1.mixed") "TOOLS" "/project/tools") ≫= fun env => env_get env "TOOLS")
  = Some "/global/bin:/usr/bin".
Proof. vm_compute. reflexivity. Qed.

(** ** Concrete profiles

    Witnesses of the theorems on the profile block, with a stand-in hash of 32 bytes, and the
    runs that show what an unfinished opener does. *)

#[export] Instance sample_text : ProfileText := {|
  sha256_bytes s := N.modulo (N.of_nat (String.length s)) 256 :: repeat 7%N 31;
  strip_other_digit _ := None;
|}.
#[export] Instance sample_text_laws : ProfileTextLaws.
Proof.
  split; [done| |done]. intros s. constructor; [apply N.mod_lt; done|]. by repeat constructor.
Qed.

Definition text (l : list string) : string := str_join lf (l ++ [""]).
Definition sample_body : string := ". env.sh".
Definition sample_profile : string :=
  text ["export A=1"; "# >>> ocx v1 >>>"; "old"; "# <<< ocx <<<"; "alias l=ls"; "# >>> ocx v2 >>>"; "older"; "# <<< ocx <<<"].
Definition sample_settled : string :=
  text ["export A=1"; "# >>> ocx v1 08070707 >>>"; ". env.sh"; "# <<< ocx <<<"; "alias l=ls"].
Definition sample_older : string := text ["export A=1"; "# BEGIN ocx"; "eval"; "# END ocx"; ". $HOME/.ocx/init.bash"].

Lemma apply_settles_witness :
  apply_block sample_profile sample_body false OCX_LABEL = Some sample_settled /\
  apply_block sample_settled sample_body true OCX_LABEL = None.
Proof.
  split; [vm_compute; reflexivity|].
  destruct (apply_settles OCX_LABEL ltac:(split; reflexivity) sample_profile sample_body false sample_settled) as (parts & _ & _ & _ & _ & _ & _ & H).
  - split; [reflexivity|]. by repeat constructor.
  - intros Hf. exfalso. revert Hf. vm_compute. discriminate.
  - vm_compute. reflexivity.
  - exact (H true).
Defined.

(** A disk with an older profile, one that a block was appended to, and an outdated file of the
    fish shell. *)
Definition sample_dedicated (shell : DedicatedShell) : string := match shell with Fish => "source env.fish" | Nushell => "source env.nu" end.
Definition sample_targets : list ProfileTarget :=
  [mkTarget "/h/.profile" PosixFence; mkTarget "/h/.bashrc" PosixFence; mkTarget "/h/ocx.fish" (DedicatedFile Fish)].
Definition sample_disk : ProfileDisk :=
  mkProfileDisk {[ "/h/.profile" := mkNode (Some sample_older) true; "/h/ocx.fish" := mkNode (Some "old") false ]} (fun _ => true).
Definition sample_run : ProfileDisk * result SetupError (list (string * ProfileOutcome)) :=
  apply_profile_phase sample_dedicated sample_disk sample_targets false false false.
Definition sample_outcomes : list (string * ProfileOutcome) :=
  [("/h/.profile", Migrated); ("/h/.bashrc", Completed); ("/h/ocx.fish", Completed)].

Lemma sample_tidy : Forall (tidy_target sample_disk) sample_targets.
Proof.
  repeat constructor; intros content E; unfold tidy.
  - assert (content = sample_older) as -> by (injection E as <-; reflexivity).
    assert (profile_lines (strip_block sample_older) = ["export A=1"; ""]) as -> by (vm_compute; reflexivity). by repeat constructor.
  - assert (content = "") as -> by (injection E as <-; reflexivity). by repeat constructor.
Qed.

Lemma sample_distinct : NoDup (map pt_path sample_targets).
Proof. by apply (bool_decide_unpack _); vm_compute. Qed.

Lemma setup_phase_settles_witness :
  sample_run = (fst sample_run, Ok sample_outcomes) /\
  exists os', apply_profile_phase sample_dedicated (fst sample_run) sample_targets false false false = (fst sample_run, Ok os') /\
    Forall2 (fun p p' => fst p' = fst p /\ quiet_after (snd p) (snd p')) sample_outcomes os' /\ profiles_changed os' = false.
Proof.
  assert (Hrun : sample_run = (fst sample_run, Ok sample_outcomes)) by (vm_compute; reflexivity).
  split; [exact Hrun|].
  exact (setup_phase_settles sample_dedicated sample_disk sample_targets false false (fst sample_run) sample_outcomes
    sample_distinct sample_tidy Hrun false).
Defined.

Lemma setup_phase_dry_witness :
  apply_profile_phase sample_dedicated sample_disk sample_targets false false true = (sample_disk, Ok sample_outcomes).
Proof.
  refine (setup_phase_dry sample_dedicated sample_disk sample_targets false false (fst sample_run) sample_outcomes sample_distinct _).
  vm_compute. reflexivity.
Defined.

Definition sample_home : HomeEnv := mkHomeEnv "/h" None None None "/h/.ocx" (Some "/bin/bash").
Definition sample_directories : list string := ["/h/.ocx/toolchain/active/bin"; "/h/.ocx/bin"].
Definition sample_session_disk : ProfileDisk :=
  mkProfileDisk {[ "/h/.config/environment.d/ocx.conf" := mkNode (Some (prepend_line ["/h/.ocx/toolchain/bin"; "/opt/x"])) true ]} (fun _ => true).
Definition sample_session : ProfileDisk * result SessionPathError (string * SessionPathOutcome) :=
  session_path_phase sample_session_disk sample_home ["/h/.ocx/toolchain/bin"] sample_directories false false.

Lemma session_path_settles_witness :
  dk_files (fst sample_session) !! conf_path sample_home = Some (mkNode (Some (prepend_line sample_directories)) false) /\
  session_path_phase (fst sample_session) sample_home ["/h/.ocx/toolchain/bin"] sample_directories false false
  = (fst sample_session, Ok (conf_path sample_home, Unchanged)).
Proof.
  assert (Hrun : sample_session = (fst sample_session, Ok (conf_path sample_home, Written))) by (vm_compute; reflexivity).
  pose proof (session_path_settles sample_session_disk sample_home ["/h/.ocx/toolchain/bin"] sample_directories (fst sample_session) Written
    eq_refl eq_refl ltac:(discriminate) ltac:(intros r [<-|[]] [?|[?|[]]]; discriminate) Hrun ltac:(left; reflexivity)) as (H1 & H2 & _).
  split; [exact H1|exact (H2 false)].
Defined.

Lemma version_spec_roundtrip_witness : spec_from_str (spec_display (SpecTag "1.2.3_b1")) = Ok (SpecTag "1.2.3_b1").
Proof. refine (proj1 (version_spec_roundtrip (SpecTag "1.2.3_b1") (new_registry "ocx/cli" "ocx.sh")) _). reflexivity. Defined.

Example remove_keeps_the_lines : remove_block sample_profile OCX_LABEL = text ["export A=1"; "alias l=ls"].
Proof. vm_compute. reflexivity. Qed.

(** An opener with no closer is no block, so the first run appends its own; its closer then
    closes the opener of the user, and the second run takes every line between for the block
    and deletes it. *)
Definition unfinished : string := text ["# >>> ocx v1 >>>"; "export A=1"].
Example unfinished_first_run :
  apply_fence unfinished sample_body false false
  = (Completed, Some (text ["# >>> ocx v1 >>>"; "export A=1"; ""; "# >>> ocx v1 08070707 >>>"; ". env.sh"; "# <<< ocx <<<"])).
Proof. vm_compute. reflexivity. Qed.
Example unfinished_second_run :
  apply_fence (text ["# >>> ocx v1 >>>"; "export A=1"; ""; "# >>> ocx v1 08070707 >>>"; ". env.sh"; "# <<< ocx <<<"]) sample_body false false
  = (Completed, Some (text ["# >>> ocx v1 08070707 >>>"; ". env.sh"; "# <<< ocx <<<"])).
Proof. vm_compute. reflexivity. Qed.

(** A [# BEGIN ocx] with no end is reported as an older format and never stripped: every run
    migrates again and adds one blank line. *)
Example unfinished_begin_grows :
  apply_fence (text ["# BEGIN ocx"; ""; "# >>> ocx v1 08070707 >>>"; ". env.sh"; "# <<< ocx <<<"]) sample_body false false
  = (Migrated, Some (text ["# BEGIN ocx"; ""; ""; "# >>> ocx v1 08070707 >>>"; ". env.sh"; "# <<< ocx <<<"])).
Proof. vm_compute. reflexivity. Qed.
