(* ===== verification/Trust.v ===== *)
(** * Trust policies

    [crates/ocx_trust/src/lib.rs] (who may sign a package), [crates/ocx_trust/src/key_ref.rs]
    (the reference grammar of a key) and the matching of a signature against the compiled
    policies in [crates/ocx_sign/src/verify/identity.rs]. *)

From stdpp Require Import base decidable list option numbers strings.
From Stdlib Require Import Ascii.
From S2P Require Import Prelude Text TextSearch.
Local Open Scope string_scope.

(** ** Key references *)

Definition MAX_KEY_PEM_BYTES : nat := 64 * 1024.
Inductive Scheme : Type := SFile | SEnv | AwsKms | GcpKms | AzureKms | HashiVault | Kubernetes.
#[export] Instance Scheme_eq_dec : EqDecision Scheme.
Proof. solve_decision. Defined.
Definition SPELLINGS : list string := ["file"; "env"; "awskms"; "gcpkms"; "azurekms"; "hashivault"; "k8s"].
Definition scheme_as_str (scheme : Scheme) : string :=
  match scheme with
  | SFile => "file" | SEnv => "env" | AwsKms => "awskms" | GcpKms => "gcpkms" | AzureKms => "azurekms"
  | HashiVault => "hashivault" | Kubernetes => "k8s"
  end.
Definition is_implemented (scheme : Scheme) : bool := match scheme with SFile | SEnv => true | _ => false end.
Definition scheme_parse (token : string) : option Scheme :=
  if String.eqb token "file" then Some SFile
  else if String.eqb token "env" then Some SEnv
  else if String.eqb token "awskms" then Some AwsKms
  else if String.eqb token "gcpkms" then Some GcpKms
  else if String.eqb token "azurekms" then Some AzureKms
  else if String.eqb token "hashivault" then Some HashiVault
  else if String.eqb token "k8s" then Some Kubernetes
  else None.
Record KeyRef : Type := mkKeyRef { kr_scheme : Scheme; kr_rest : string }.
Inductive KeyRefError : Type :=
| UnsupportedBackend (scheme : Scheme) | UnknownScheme (scheme : string) | KeyRefEmpty | FileColonPrefix (path : string).
Definition key_ref_of (scheme : Scheme) (rest : string) : result KeyRefError KeyRef :=
  if String.eqb rest "" then Err KeyRefEmpty else Ok (mkKeyRef scheme rest).
Definition key_ref_parse (value : string) : result KeyRefError KeyRef :=
  match split_once_text "://" value with
  | Some (token, rest) =>
      match scheme_parse token with
      | None => Err (UnknownScheme token)
      | Some scheme => if negb (is_implemented scheme) then Err (UnsupportedBackend scheme) else key_ref_of scheme rest
      end
  | None =>
      match strip_prefix "file:" value with
      | Some path => if String.eqb path "" then Err KeyRefEmpty else Err (FileColonPrefix path)
      | None => key_ref_of SFile value
      end
  end.
Definition as_path (key : KeyRef) : option string := if bool_decide (kr_scheme key = SFile) then Some (kr_rest key) else None.
Definition as_env_var (key : KeyRef) : option string := if bool_decide (kr_scheme key = SEnv) then Some (kr_rest key) else None.
Definition key_ref_display (key : KeyRef) : string :=
  if bool_decide (kr_scheme key = SFile) then kr_rest key else scheme_as_str (kr_scheme key) +:+ "://" +:+ kr_rest key.

(** [FileReference]: the path of a value, and the path anchored at a directory. *)
Definition file_reference_path (value : string) : string :=
  let prefix := String.substring 0 7 value in
  if String.eqb (lowercase prefix) "file://" then String.substring 7 (String.length value - 7) value else value.
Definition anchored_at (path dir : string) : string := if has_root path then path else path_join dir path.

(** ** Data *)

Inductive ScopeSpec : Type := Prefix (pattern : string) | ScopeSet (include exclude : list string).
Record KeylessMatcher : Type := mkKeyless { km_identity : option string; km_identity_regexp : option string; km_oidc_issuer : option string }.
Record KeyMatcher : Type := mkKeyMatcher { ky_key : option string; ky_key_pem : option string }.
Inductive SignerSpec : Type := Keyless (matcher : KeylessMatcher) | Key (matcher : KeyMatcher) | UnknownSigner.
Record TrustPolicy : Type := mkPolicy {
  tp_scope : option ScopeSpec;
  tp_builder : option string;
  tp_signers : list SignerSpec;
  tp_system_locked : bool;
}.
Record SigstoreTrust : Type := mkSigstore {
  sg_trusted_root : option string;
  sg_trusted_root_json : option string;
  sg_fulcio_url : option string;
  sg_rekor_url : option string;
  sg_rekor_upload : option bool;
  sg_system_locked : bool;
}.
Record TrustConfig : Type := mkTrustConfig { tc_policy : list TrustPolicy; tc_sigstore : option SigstoreTrust }.
Inductive KeyFault : Type := FaultPath | FaultFileBytes | FaultConfigText.
Inductive TrustPolicyError : Type :=
| IssuerUnset (scope : string)
| IdentityConflict (scope : string)
| IdentityUnset (scope : string)
| InvalidRegex (scope : string)
| NoSigners (scope : string)
| NoUsableSigner (scope : string)
| KeyConflict (scope : string)
| KeyUnset (scope : string)
| KeyReferenceInvalid (scope : string) (source : KeyRefError)
| KeyUnreadable (scope path : string)
| KeyMalformed (scope reason : string) (fault : KeyFault)
| DocumentInvalid.

(** ** Merging and locking *)

Definition with_policy_lock (policy : TrustPolicy) : TrustPolicy := mkPolicy (tp_scope policy) (tp_builder policy) (tp_signers policy) true.
Definition lock_sigstore (s : SigstoreTrust) : SigstoreTrust :=
  mkSigstore (sg_trusted_root s) (sg_trusted_root_json s) (sg_fulcio_url s) (sg_rekor_url s) (sg_rekor_upload s) true.
Definition trust_lock_as_system (trust : TrustConfig) : TrustConfig :=
  mkTrustConfig (map with_policy_lock (tc_policy trust)) (lock_sigstore <$> tc_sigstore trust).

(** The value of the higher tier when it sets one. *)
Definition or_lower {A : Type} (higher lower : option A) : option A := match higher with Some a => Some a | None => lower end.
Definition sigstore_merge (self other : SigstoreTrust) : SigstoreTrust :=
  if sg_system_locked self then self
  else
    let roots := bool_decide (is_Some (sg_trusted_root other)) || bool_decide (is_Some (sg_trusted_root_json other)) in
    mkSigstore
      (if roots then sg_trusted_root other else sg_trusted_root self)
      (if roots then sg_trusted_root_json other else sg_trusted_root_json self)
      (or_lower (sg_fulcio_url other) (sg_fulcio_url self))
      (or_lower (sg_rekor_url other) (sg_rekor_url self))
      (or_lower (sg_rekor_upload other) (sg_rekor_upload self))
      (sg_system_locked other).
Definition trust_merge (self other : TrustConfig) : TrustConfig :=
  mkTrustConfig (tc_policy self ++ tc_policy other)
    (match tc_sigstore other with
     | None => tc_sigstore self
     | Some other_sigstore =>
         match tc_sigstore self with Some sigstore => Some (sigstore_merge sigstore other_sigstore) | None => Some other_sigstore end
     end).
Definition anchor_relative_root (sigstore : SigstoreTrust) (config_dir : string) : SigstoreTrust :=
  match sg_trusted_root sigstore with
  | None => sigstore
  | Some written =>
      mkSigstore (Some (anchored_at (file_reference_path written) config_dir)) (sg_trusted_root_json sigstore)
        (sg_fulcio_url sigstore) (sg_rekor_url sigstore) (sg_rekor_upload sigstore) (sg_system_locked sigstore)
  end.
Definition anchor_key (config_dir : string) (signer : SignerSpec) : SignerSpec :=
  match signer with
  | Key matcher =>
      match ky_key matcher with
      | None => signer
      | Some reference =>
          match key_ref_parse reference with
          | Err _ => signer
          | Ok parsed =>
              match as_path parsed with
              | None => signer
              | Some path => Key (mkKeyMatcher (Some (anchored_at path config_dir)) (ky_key_pem matcher))
              end
          end
      end
  | _ => signer
  end.
Definition anchor_relative_keys (policy : TrustPolicy) (config_dir : string) : TrustPolicy :=
  mkPolicy (tp_scope policy) (tp_builder policy) (map (anchor_key config_dir) (tp_signers policy)) (tp_system_locked policy).

(** [policies_from_ocx_toml], of the [trust] section a lenient parse of the document gives. *)
Definition policies_from_ocx_toml (parsed : option (option TrustConfig)) (config_dir : string) : result TrustPolicyError (list TrustPolicy) :=
  match parsed with
  | None => Err DocumentInvalid
  | Some trust => Ok (map (fun policy => anchor_relative_keys policy config_dir) (default [] (tc_policy <$> trust)))
  end.

(** ** Scopes *)

(** [ScopeSpec::deserialize] of a table: the last value of each key, unknown keys dropped. *)
Definition scope_from_table (table : list (string * list string)) : option ScopeSpec :=
  let value key := last (map snd (List.filter (fun entry => String.eqb (fst entry) key) table)) in
  match value "include", value "exclude" with
  | None, None => None
  | include, exclude => Some (ScopeSet (default [] include) (default [] exclude))
  end.
Definition pattern_literal_prefix (pattern : string) : string :=
  match split_once "*" pattern with Some (prefix, _) => prefix | None => pattern end.
Definition pattern_matches (pattern target : string) : bool :=
  if String.eqb pattern "" then true
  else match split_once "*" pattern with
       | Some (prefix, _) => starts_with prefix target
       | None => String.eqb target pattern || starts_with (pattern +:+ "/") target
       end.
Definition scope_matches (scope : ScopeSpec) (target : string) : bool :=
  match scope with
  | Prefix pattern => pattern_matches pattern target
  | ScopeSet include exclude =>
      let covered := bool_decide (include = []) || existsb (fun pattern => pattern_matches pattern target) include in
      covered && negb (existsb (fun pattern => pattern_matches pattern target) exclude)
  end.
Definition max_or_zero (l : list nat) : nat := fold_right Nat.max 0%nat l.
Definition scope_specificity_for (scope : ScopeSpec) (target : string) : nat :=
  match scope with
  | Prefix pattern => String.length (pattern_literal_prefix pattern)
  | ScopeSet include _ =>
      max_or_zero (map (fun pattern => String.length (pattern_literal_prefix pattern))
                     (List.filter (fun pattern => pattern_matches pattern target) include))
  end.
Definition scope_display (scope : ScopeSpec) : string :=
  match scope with
  | Prefix pattern => pattern
  | ScopeSet include exclude => "include=[" +:+ str_join ", " include +:+ "] exclude=[" +:+ str_join ", " exclude +:+ "]"
  end.
Definition scope_label (policy : TrustPolicy) : string := default "" (scope_display <$> tp_scope policy).
Definition matches_scope (policy : TrustPolicy) (target : string) : bool :=
  match tp_scope policy with None => true | Some scope => scope_matches scope target end.
Definition policy_specificity_for (policy : TrustPolicy) (target : string) : nat :=
  match tp_scope policy with None => 0%nat | Some scope => scope_specificity_for scope target end.

(** ** Resolution *)

(** [Iterator::max]. *)
Definition maximum (l : list nat) : option nat := match l with [] => None | x :: l' => Some (fold_right Nat.max x l') end.
Definition trust_resolve (policies : list TrustPolicy) (target : string) : list TrustPolicy :=
  let matching := List.filter (fun policy => matches_scope policy target) policies in
  let level_of l := maximum (map (fun policy => policy_specificity_for policy target) l) in
  match level_of (List.filter tp_system_locked matching) with
  | Some level =>
      List.filter (fun policy => tp_system_locked policy && (policy_specificity_for policy target =? level)%nat) matching
  | None =>
      match level_of matching with
      | None => []
      | Some level => List.filter (fun policy => (policy_specificity_for policy target =? level)%nat) matching
      end
  end.

(** ** Compilation *)

(** The regular expressions, the verification keys, the environment and the bounded reads of
    the process. *)
Inductive BoundedReadError : Type := ReadIo | ReadTooLarge (cap : nat) | NotRegular (reason : string).
Class TrustLib : Type := {
  Regex : Type;
  regex_new : string -> option Regex;
  regex_is_match : Regex -> string -> bool;
  VerificationKey : Type;
  key_try_from_pem : string -> option VerificationKey;
  key_verify : VerificationKey -> string -> string -> bool;
  env_secret : string -> option string;
  read_bounded : string -> nat -> result BoundedReadError string;
}.

Section Compile.
Context `{TrustLib}.

Inductive IdentityRule : Type := ExactIdentity (expected : string) | RegexIdentity (regex : Regex).
Definition compile_regex (pattern : string) : option IdentityRule :=
  RegexIdentity <$> regex_new ("\A(?:" +:+ pattern +:+ ")\z").
Definition identity_matches (rule : IdentityRule) (san : string) : bool :=
  match rule with ExactIdentity expected => String.eqb san expected | RegexIdentity regex => regex_is_match regex san end.
Record CompiledKeyless : Type := mkCompiledKeyless { ck_identity : IdentityRule; ck_issuer : string }.
Inductive PolicyBackend : Type := BackendKeyless (keyless : CompiledKeyless) | BackendKey (key : VerificationKey).
Record CompiledPolicy : Type := mkCompiled { cp_builder : option string; cp_backends : list PolicyBackend }.

Definition compile_keyless_matcher (keyless : KeylessMatcher) (scope : string) : result TrustPolicyError CompiledKeyless :=
  let identity :=
    match km_identity keyless, km_identity_regexp keyless with
    | Some _, Some _ => Err (IdentityConflict scope)
    | None, None => Err (IdentityUnset scope)
    | Some exact, None => Ok (ExactIdentity exact)
    | None, Some pattern => match compile_regex pattern with Some rule => Ok rule | None => Err (InvalidRegex scope) end
    end in
  match identity with
  | Err error => Err error
  | Ok identity =>
      match km_oidc_issuer keyless with
      | None => Err (IssuerUnset scope)
      | Some issuer => Ok (mkCompiledKeyless identity issuer)
      end
  end.
Definition validate_signer (scope : string) (signer : SignerSpec) : result TrustPolicyError unit :=
  match signer with
  | Keyless keyless => match compile_keyless_matcher keyless scope with Ok _ => Ok tt | Err error => Err error end
  | UnknownSigner => Ok tt
  | Key key =>
      match ky_key key, ky_key_pem key with
      | Some _, Some _ => Err (KeyConflict scope)
      | None, None => Err (KeyUnset scope)
      | _, _ => Ok tt
      end
  end.
Fixpoint validate_each (scope : string) (signers : list SignerSpec) : result TrustPolicyError unit :=
  match signers with
  | [] => Ok tt
  | signer :: rest => match validate_signer scope signer with Ok _ => validate_each scope rest | Err error => Err error end
  end.
Definition validate_signers (signers : list SignerSpec) (scope : string) : result TrustPolicyError unit :=
  match signers with [] => Err (NoSigners scope) | _ => validate_each scope signers end.

Definition parse_verification_key (pem scope : string) (fault : KeyFault) : result TrustPolicyError VerificationKey :=
  match key_try_from_pem pem with
  | Some key => Ok key
  | None => Err (KeyMalformed scope "not a PEM-encoded SPKI public key" fault)
  end.
Definition read_key_file (path scope : string) : result TrustPolicyError string :=
  match read_bounded path MAX_KEY_PEM_BYTES with
  | Ok pem => Ok pem
  | Err ReadIo => Err (KeyUnreadable scope path)
  | Err (ReadTooLarge cap) =>
      Err (KeyMalformed scope ("larger than " +:+ u32_to_string (N.of_nat cap) +:+ " bytes, which no public key is") FaultFileBytes)
  | Err (NotRegular reason) => Err (KeyMalformed scope reason FaultPath)
  end.
Inductive KeyEnvError : Type := EnvUnset (name : string) | EnvTooLarge (name : string) (cap : nat).
Definition read_key_env (name : string) : result KeyEnvError string :=
  match env_secret name with
  | Some value =>
      if String.eqb value "" then Err (EnvUnset name)
      else if (MAX_KEY_PEM_BYTES <? String.length value)%nat then Err (EnvTooLarge name MAX_KEY_PEM_BYTES)
      else Ok value
  | None => Err (EnvUnset name)
  end.
(** The reasons but for the rendered text of the environment's error. *)
Definition compile_key_reference (key : KeyRef) (scope : string) : result TrustPolicyError VerificationKey :=
  match as_path key with
  | Some path =>
      match read_key_file path scope with
      | Err error => Err error
      | Ok pem => parse_verification_key pem scope FaultFileBytes
      end
  | None =>
      match as_env_var key with
      | Some variable =>
          match read_key_env variable with
          | Err (EnvUnset _) => Err (KeyMalformed scope "absent" FaultPath)
          | Err (EnvTooLarge _ _) => Err (KeyMalformed scope "unusable" FaultFileBytes)
          | Ok pem => parse_verification_key pem scope FaultFileBytes
          end
      | None => Err (KeyReferenceInvalid scope (UnsupportedBackend (kr_scheme key)))
      end
  end.
Definition compile_key_matcher (matcher : KeyMatcher) (scope : string) : result TrustPolicyError VerificationKey :=
  match ky_key_pem matcher with
  | Some pem => parse_verification_key pem scope FaultConfigText
  | None =>
      match ky_key matcher with
      | None => Err (KeyUnset scope)
      | Some reference =>
          match key_ref_parse reference with
          | Err source => Err (KeyReferenceInvalid scope source)
          | Ok parsed => compile_key_reference parsed scope
          end
      end
  end.
Definition compile_signer (scope : string) (signer : SignerSpec) : option (result TrustPolicyError PolicyBackend) :=
  match signer with
  | Keyless keyless => Some (match compile_keyless_matcher keyless scope with Ok k => Ok (BackendKeyless k) | Err e => Err e end)
  | Key key => Some (match compile_key_matcher key scope with Ok k => Ok (BackendKey k) | Err e => Err e end)
  | UnknownSigner => None
  end.
Fixpoint collect_ok {E A : Type} (l : list (result E A)) : result E (list A) :=
  match l with
  | [] => Ok []
  | Err error :: _ => Err error
  | Ok a :: rest => match collect_ok rest with Ok as_ => Ok (a :: as_) | Err error => Err error end
  end.
Definition policy_compile (policy : TrustPolicy) : result TrustPolicyError CompiledPolicy :=
  let scope := scope_label policy in
  match validate_signers (tp_signers policy) scope with
  | Err error => Err error
  | Ok _ =>
      match collect_ok (omap (compile_signer scope) (tp_signers policy)) with
      | Err error => Err error
      | Ok [] => Err (NoUsableSigner scope)
      | Ok backends => Ok (mkCompiled (tp_builder policy) backends)
      end
  end.
Definition exact_policy (identity issuer : string) : CompiledPolicy :=
  mkCompiled None [BackendKeyless (mkCompiledKeyless (ExactIdentity identity) issuer)].
Definition compile_key_signer (key : KeyRef) : result TrustPolicyError CompiledPolicy :=
  match compile_key_reference key "--key" with Ok k => Ok (mkCompiled None [BackendKey k]) | Err error => Err error end.
Definition resolve_tiered (operator project : list TrustPolicy) (target : string) : result TrustPolicyError (list CompiledPolicy) :=
  let operator_match := trust_resolve operator target in
  let chosen := match operator_match with [] => trust_resolve project target | _ => operator_match end in
  collect_ok (map policy_compile chosen).
Definition names_unsupported_backend (error : TrustPolicyError) : bool :=
  match error with KeyReferenceInvalid _ (UnsupportedBackend _) => true | _ => false end.

(** ** Matching a signature *)

Inductive VerifyErrorKind : Type := CertChainInvalid | IdentityMismatch | IssuerMismatch | SignatureInvalid.

(** [matching_policies], of a certificate that parsed to its subject and its issuer. *)
Definition keyless_identity_ok (san : option string) (backend : PolicyBackend) : bool :=
  match backend, san with BackendKeyless keyless, Some san => identity_matches (ck_identity keyless) san | _, _ => false end.
Definition keyless_ok (san issuer : option string) (backend : PolicyBackend) : bool :=
  match backend with
  | BackendKeyless keyless => keyless_identity_ok san backend && bool_decide (issuer = Some (ck_issuer keyless))
  | BackendKey _ => false
  end.
Definition matching_policies (certificate : option (option string * option string)) (policies : list CompiledPolicy) :
    result VerifyErrorKind (list CompiledPolicy) :=
  match certificate with
  | None => Err CertChainInvalid
  | Some (san, issuer) =>
      let matched := List.filter (fun policy => existsb (keyless_ok san issuer) (cp_backends policy)) policies in
      let any_identity_matched := existsb (fun policy => existsb (keyless_identity_ok san) (cp_backends policy)) policies in
      match matched with
      | [] => Err (if any_identity_matched then IssuerMismatch else IdentityMismatch)
      | _ => Ok matched
      end
  end.
Definition key_ok (message signature : string) (backend : PolicyBackend) : bool :=
  match backend with BackendKey key => key_verify key signature message | BackendKeyless _ => false end.
Definition is_key_backend (backend : PolicyBackend) : bool := match backend with BackendKey _ => true | BackendKeyless _ => false end.
Definition matching_key_policies (message signature : string) (policies : list CompiledPolicy) : result VerifyErrorKind (list CompiledPolicy) :=
  let matched := List.filter (fun policy => existsb (key_ok message signature) (cp_backends policy)) policies in
  let any_key_tried := existsb (fun policy => existsb is_key_backend (cp_backends policy)) policies in
  match matched with
  | [] => Err (if any_key_tried then SignatureInvalid else IdentityMismatch)
  | _ => Ok matched
  end.
End Compile.
