(* ===== verification/TrustSpec.v ===== *)
(** * Trust: what the policies decide

    The declarative reading of a set of policies ([Governs], [Trusts]) and the proofs that the
    resolution, the compilation and the matching of a signature implement it. *)

From stdpp Require Import base decidable list option numbers strings.
From Stdlib Require Import Ascii Lia.
From S2P Require Import Prelude Text TextSearch Trust.
Local Open Scope string_scope.

(** ** Lists *)

Lemma maximum_None l : maximum l = None <-> l = [].
Proof. by destruct l. Qed.
Lemma fold_max_le x l y : In y (x :: l) -> (y <= fold_right Nat.max x l)%nat.
Proof. induction l as [|z l IH]; simpl; [intros [->|[]]; lia|]. intros [->|[->|Hy]]; [specialize (IH (or_introl eq_refl))| |specialize (IH (or_intror Hy))]; lia. Qed.
Lemma fold_max_In x l : In (fold_right Nat.max x l) (x :: l).
Proof.
  induction l as [|z l IH]; simpl; [by left|].
  destruct (Nat.max_dec z (fold_right Nat.max x l)) as [->| ->]; [by right; left|]. destruct IH as [IH|IH]; [by left|by right; right].
Qed.
Lemma maximum_Some l m : maximum l = Some m -> In m l /\ (forall y, In y l -> (y <= m)%nat).
Proof. destruct l as [|x l]; [done|]. intros [= <-]. split; [apply fold_max_In|intros y; apply fold_max_le]. Qed.
Lemma sublist_filter {A : Type} (f : A -> bool) (l : list A) : List.filter f l `sublist_of` l.
Proof. induction l as [|x l IH]; simpl; [done|]. destruct (f x); by constructor. Qed.
Lemma filter_filter {A : Type} (f g : A -> bool) (l : list A) : List.filter f (List.filter g l) = List.filter (fun x => g x && f x) l.
Proof. induction l as [|x l IH]; simpl; [done|]. destruct (g x); simpl; [by destruct (f x); rewrite IH|done]. Qed.
Lemma filter_exists {A : Type} (f : A -> bool) (l : list A) : List.filter f l <> [] <-> exists x, In x l /\ f x = true.
Proof.
  split.
  - destruct (List.filter f l) as [|x r] eqn:E; [done|]. intros _. exists x. apply filter_In. rewrite E. by left.
  - intros (x & Hx & Hf) E. assert (Hin : In x (List.filter f l)) by (by apply filter_In). by rewrite E in Hin.
Qed.

Lemma collect_ok_Ok {E A : Type} (l : list (result E A)) (r : list A) : collect_ok l = Ok r <-> l = map Ok r.
Proof.
  revert r; induction l as [|[a|e] l IH]; intros r; simpl.
  - split; [by intros [= <-]|]. by destruct r.
  - split.
    + destruct (collect_ok l) as [r'|] eqn:Hl; [|done]. intros [= <-]. simpl. f_equal. by apply IH.
    + destruct r as [|b r]; [done|]. simpl. intros [= -> Hr]. apply IH in Hr. by rewrite Hr.
  - split; [done|]. by destruct r.
Qed.
Lemma collect_ok_total {E A : Type} (l : list (result E A)) : is_ok (collect_ok l) = true <-> (forall x, In x l -> is_ok x = true).
Proof.
  induction l as [|[a|e] l IH]; simpl; [done| |].
  - destruct (collect_ok l); simpl in *.
    + split; [|done]. intros _ x [<-|Hx]; [done|]. by apply IH.
    + split; [done|]. intros Hall. apply IH. intros x Hx. apply Hall. by right.
  - split; [done|]. intros Hall. by apply (Hall (Err e)); left.
Qed.

(** ** Resolution *)

(** The policy is of the highest rank among those that cover the target: a locked policy
    outranks every other one, then the longer literal scope wins. *)
Definition Governs (policies : list TrustPolicy) (target : string) (p : TrustPolicy) : Prop :=
  In p policies /\ matches_scope p target = true /\
  forall q, In q policies -> matches_scope q target = true ->
    (tp_system_locked q = true -> tp_system_locked p = true) /\
    (tp_system_locked q = tp_system_locked p -> (policy_specificity_for q target <= policy_specificity_for p target)%nat).

Definition spec_of (target : string) (p : TrustPolicy) : nat := policy_specificity_for p target.

Lemma level_filter (f : TrustPolicy -> bool) (l : list TrustPolicy) target level p :
  maximum (map (spec_of target) (List.filter f l)) = Some level ->
  In p (List.filter (fun q => f q && (spec_of target q =? level)%nat) l) <->
  In p l /\ f p = true /\ (forall q, In q l -> f q = true -> (spec_of target q <= spec_of target p)%nat).
Proof.
  intros Hmax. apply maximum_Some in Hmax as [Hin Hle]. rewrite filter_In, andb_true_iff, Nat.eqb_eq.
  apply in_map_iff in Hin as (w & Hw & Hwin). apply filter_In in Hwin as [Hwl Hwf]. split.
  - intros (Hp & Hf & Hs). split_and!; [done..|]. intros q Hq Hqf. rewrite Hs. apply Hle, in_map_iff. exists q. by rewrite filter_In.
  - intros (Hp & Hf & Hs). split_and!; [done..|]. specialize (Hs w Hwl Hwf).
    assert (spec_of target p <= level)%nat; [|lia]. apply Hle, in_map_iff. exists p. by rewrite filter_In.
Qed.

Lemma resolve_In ps target p : In p (trust_resolve ps target) <-> Governs ps target p.
Proof.
  unfold trust_resolve, Governs. fold (spec_of target).
  set (matching := List.filter (fun q => matches_scope q target) ps).
  assert (Hm : forall q, In q matching <-> In q ps /\ matches_scope q target = true) by (intros q; apply filter_In).
  destruct (maximum (map _ (List.filter tp_system_locked matching))) as [level|] eqn:Hmax.
  - pose proof (level_filter tp_system_locked matching target level p Hmax) as Hl. unfold spec_of in Hl. rewrite Hl, Hm.
    apply maximum_Some in Hmax as [Hin _]. apply in_map_iff in Hin as (w & _ & Hw). apply filter_In in Hw as [Hwm Hwl]. apply Hm in Hwm as [Hw1 Hw2].
    split.
    + intros ([Hp Hpm] & Hf & Hs). split_and!; [done..|]. intros q Hq Hqm. split; [done|]. rewrite Hf. intros Hql. apply Hs; [by apply Hm|done].
    + intros (Hp & Hpm & Hs). assert (Hf : tp_system_locked p = true) by (by apply (Hs w Hw1 Hw2)). split_and!; [done..|].
      intros q Hq Hql. apply Hm in Hq as [Hq Hqm]. apply (Hs q Hq Hqm). by rewrite Hf, Hql.
  - apply maximum_None in Hmax. apply map_eq_nil in Hmax.
    assert (Hno : forall q, In q matching -> tp_system_locked q = false).
    { intros q Hq. destruct (tp_system_locked q) eqn:E; [|done]. assert (In q (List.filter tp_system_locked matching)) as Hb by (by apply filter_In). by rewrite Hmax in Hb. }
    assert (Heq : forall l : list TrustPolicy, List.filter (fun _ => true) l = l) by (intros l; induction l as [|x l IH]; simpl; [done|by rewrite IH]).
    destruct (maximum (map _ matching)) as [level|] eqn:Hmax'.
    + rewrite <- (Heq matching) in Hmax'. pose proof (level_filter (fun _ => true) matching target level p Hmax') as Hl. simpl in Hl. unfold spec_of in Hl. rewrite Hl, Hm.
      split.
      * intros ([Hp Hpm] & _ & Hs). split_and!; [done..|]. intros q Hq Hqm. rewrite (Hno q), (Hno p) by (by apply Hm). split; [done|]. intros _. apply Hs; [by apply Hm|done].
      * intros (Hp & Hpm & Hs). split_and!; [done..|]. intros q Hq _. assert (Hq' := Hq). apply Hm in Hq as [Hq Hqm]. apply (Hs q Hq Hqm).
        rewrite (Hno q Hq'), (Hno p); [done|by apply Hm].
    + apply maximum_None, map_eq_nil in Hmax'. split; [done|]. intros (Hp & Hpm & _).
      assert (In p matching) as Hb by (by apply Hm). by rewrite Hmax' in Hb.
Qed.

Lemma resolve_sublist ps target : trust_resolve ps target `sublist_of` ps.
Proof.
  unfold trust_resolve. destruct (maximum _); [|destruct (maximum _)]; rewrite ?filter_filter; try apply sublist_filter. apply sublist_nil_l.
Qed.

Lemma resolve_empty ps target : trust_resolve ps target = [] <-> (forall q, In q ps -> matches_scope q target = false).
Proof.
  unfold trust_resolve. set (matching := List.filter (fun q => matches_scope q target) ps).
  assert (Hm : matching = [] <-> (forall q, In q ps -> matches_scope q target = false)).
  { split; [|apply filter_nil_all]. intros Hn q Hq. apply not_true_is_false. intros Hq'.
    assert (In q matching) as Hb by (by apply filter_In). by rewrite Hn in Hb. }
  rewrite <- Hm. split; [|intros ->; done].
  intros Hr. assert (Hcase : matching = [] \/ matching <> []) by (destruct matching; by auto). destruct Hcase as [|Hne]; [done|exfalso]. clear Hm.
  enough (exists p, In p (trust_resolve ps target)) as [p Hp] by (unfold trust_resolve in Hp; fold matching in Hp; by rewrite Hr in Hp).
  enough (exists f level, maximum (map (spec_of target) (List.filter f matching)) = Some level /\
            trust_resolve ps target = List.filter (fun q => f q && (spec_of target q =? level)%nat) matching) as (f & level & Hmax & ->).
  { apply maximum_Some in Hmax as [Hin _]. apply in_map_iff in Hin as (p & Hp & Hin). apply filter_In in Hin as [Hin Hf].
    exists p. apply filter_In. by rewrite Hf, Hp, Nat.eqb_refl. }
  unfold trust_resolve. fold matching (spec_of target).
  destruct (maximum (map _ (List.filter tp_system_locked matching))) as [level|] eqn:E1; [by exists tp_system_locked, level|].
  destruct (maximum (map _ matching)) as [level|] eqn:E2; [|by apply maximum_None, map_eq_nil in E2].
  exists (fun _ => true), level. split; [|done]. rewrite <- E2. do 2 f_equal. clear. by induction matching as [|x m IH]; [|simpl; rewrite IH].
Qed.

(** The resolution of a target implements the declarative rank: it returns, in the order of
    the declarations, exactly the policies that cover the target and that no other covering
    policy outranks, a system-locked policy outranking every other one and, among equals, the
    longer literal scope winning; it is empty only when no policy covers the target. *)
Theorem trust_resolve_governs (policies : list TrustPolicy) (target : string) :
  (forall p, In p (trust_resolve policies target) <-> Governs policies target p) /\
  trust_resolve policies target `sublist_of` policies /\
  (trust_resolve policies target = [] <-> forall q, In q policies -> matches_scope q target = false).
Proof. split_and!; [apply resolve_In|apply resolve_sublist|apply resolve_empty]. Qed.

(** ** Locks *)

Lemma fold_merge_policy tiers base : tc_policy (fold_left trust_merge tiers base) = (tc_policy base ++ concat (map tc_policy tiers))%list.
Proof. revert base; induction tiers as [|tier tiers IH]; intros base; simpl; [by rewrite app_nil_r|]. by rewrite IH, app_assoc. Qed.
Lemma fold_merge_sigstore tiers base s :
  sg_system_locked s = true -> tc_sigstore base = Some s -> tc_sigstore (fold_left trust_merge tiers base) = Some s.
Proof.
  intros Hl. revert base; induction tiers as [|tier tiers IH]; intros base Hb; [done|]. simpl. apply IH. simpl. rewrite Hb.
  destruct (tc_sigstore tier) as [o|]; [|done]. unfold sigstore_merge. by rewrite Hl.
Qed.

Lemma resolve_locked_app locked lower target :
  (forall p, In p locked -> tp_system_locked p = true) -> (forall p, In p lower -> tp_system_locked p = false) ->
  existsb (fun p => matches_scope p target) locked = true ->
  trust_resolve (locked ++ lower)%list target = trust_resolve locked target.
Proof.
  intros Hl Hu Hex. apply existsb_exists in Hex as (w & Hw & Hwm). unfold trust_resolve.
  rewrite !List.filter_app.
  assert (Hnil : forall g, List.filter (fun p => tp_system_locked p && g p) (List.filter (fun q => matches_scope q target) lower) = []).
  { intros g. apply filter_nil_all. intros x Hx. apply filter_In in Hx as [Hx _]. by rewrite (Hu x Hx). }
  assert (Hnil' : List.filter tp_system_locked (List.filter (fun q => matches_scope q target) lower) = []).
  { apply filter_nil_all. intros x Hx. apply filter_In in Hx as [Hx _]. by apply Hu. }
  rewrite Hnil', app_nil_r. destruct (maximum _) as [level|] eqn:Hmax; [by rewrite List.filter_app, Hnil, app_nil_r|exfalso].
  apply maximum_None, map_eq_nil in Hmax.
  assert (In w (List.filter tp_system_locked (List.filter (fun q => matches_scope q target) locked))) as Hb; [|by rewrite Hmax in Hb].
  apply filter_In. split; [by apply filter_In|by apply Hl].
Qed.

Lemma locked_all sys p : In p (tc_policy (trust_lock_as_system sys)) -> tp_system_locked p = true.
Proof. simpl. intros Hp. by apply in_map_iff in Hp as (q & <- & _). Qed.
Lemma locked_covers sys target :
  existsb (fun p => matches_scope p target) (tc_policy (trust_lock_as_system sys)) = existsb (fun p => matches_scope p target) (tc_policy sys).
Proof. simpl. induction (tc_policy sys) as [|p l IH]; simpl; [done|]. by rewrite IH. Qed.

Section Decide.
Context `{TrustLib}.

(** A pin of the system configuration governs alone. However many lower tiers are merged
    over it, and whatever the project declares, the policies that decide a target the system
    tier covers are those of the system tier, and its Sigstore roots and endpoints stand. *)
Theorem system_pin_governs_alone (sys : TrustConfig) (tiers : list TrustConfig) (project : list TrustPolicy) (target : string) :
  (forall tier p, In tier tiers -> In p (tc_policy tier) -> tp_system_locked p = false) ->
  let merged := fold_left trust_merge tiers (trust_lock_as_system sys) in
  (existsb (fun p => matches_scope p target) (tc_policy sys) = true ->
   resolve_tiered (tc_policy merged) project target = resolve_tiered (tc_policy (trust_lock_as_system sys)) [] target) /\
  (forall s, tc_sigstore sys = Some s -> tc_sigstore merged = Some (lock_sigstore s)).
Proof.
  intros Hu merged. split.
  - intros Hex. unfold resolve_tiered, merged. rewrite fold_merge_policy, resolve_locked_app.
    + destruct (trust_resolve (tc_policy (trust_lock_as_system sys)) target) eqn:E; [|done].
      rewrite <- locked_covers, existsb_exists in Hex. destruct Hex as (p & Hp & Hm).
      apply resolve_empty with (q := p) in E; [congruence|done].
    + apply locked_all.
    + intros p Hp. apply in_concat in Hp as (l & Hl & Hp). apply in_map_iff in Hl as (tier & <- & Ht). by apply (Hu tier).
    + by rewrite locked_covers.
  - intros s Hs. apply fold_merge_sigstore; [done|]. simpl. by rewrite Hs.
Qed.

(** ** Compilation *)

(** The policies that decide a target over both tiers. *)
Definition Trusts (operator project : list TrustPolicy) (target : string) (p : TrustPolicy) : Prop :=
  Governs operator target p \/ ((forall q, In q operator -> matches_scope q target = false) /\ Governs project target p).

Lemma tiers_chosen_In operator project target p :
  In p (match trust_resolve operator target with [] => trust_resolve project target | _ => trust_resolve operator target end) <-> Trusts operator project target p.
Proof.
  unfold Trusts. rewrite <- !resolve_In, <- resolve_empty. destruct (trust_resolve operator target); simpl; [tauto|].
  split; [tauto|]. by intros [?|[? _]].
Qed.

Definition WfSigner (scope : string) (signer : SignerSpec) : Prop :=
  match signer with
  | Keyless k => is_ok (compile_keyless_matcher k scope) = true
  | Key k => ~ (is_Some (ky_key k) /\ is_Some (ky_key_pem k)) /\ is_ok (compile_key_matcher k scope) = true
  | UnknownSigner => True
  end.

Lemma keyless_wf k scope : is_ok (compile_keyless_matcher k scope) = true <->
  is_Some (km_oidc_issuer k) /\
  ((is_Some (km_identity k) /\ km_identity_regexp k = None) \/
   (km_identity k = None /\ exists pattern, km_identity_regexp k = Some pattern /\ is_Some (compile_regex pattern))).
Proof.
  unfold compile_keyless_matcher. destruct k as [[i|] [r|] [o|]]; simpl; try destruct (compile_regex r) eqn:E; simpl;
    (split; [intros Hok|intros ([? ?] & [[[? ?] ?]|(? & ? & ? & [? ?])])]); simplify_eq; try done; eauto 10.
Qed.

Lemma validate_each_ok scope signers : validate_each scope signers = Ok tt <-> forall s, In s signers -> validate_signer scope s = Ok tt.
Proof.
  induction signers as [|s l IH]; simpl; [done|]. destruct (validate_signer scope s) as [[]|] eqn:E.
  - rewrite IH. split; [intros Hl x [<-|Hx]; [done|by apply Hl]|]. intros Hl x Hx. apply Hl. by right.
  - split; [done|]. intros Hl. specialize (Hl s (or_introl eq_refl)). congruence.
Qed.
Lemma validate_wf scope s : validate_signer scope s = Ok tt /\ (forall r, compile_signer scope s = Some r -> is_ok r = true) <-> WfSigner scope s.
Proof.
  destruct s as [k|k|]; simpl.
  - destruct (compile_keyless_matcher k scope); simpl; (split; [by intros [? _]|]); [|done]. intros _. split; [done|]. by intros ? [= <-].
  - destruct (compile_key_matcher k scope) as [v|e] eqn:E; simpl; [|split; [intros [_ Hr]; by specialize (Hr _ eq_refl)|by intros []]].
    destruct k as [[a|] [b|]]; simpl in *; [|..|done].
    + split; [by intros [? _]|]. intros [Hn _]. exfalso. apply Hn. by eauto.
    + split; [|split; [done|by intros ? [= <-]]]. intros _. split; [|done]. by intros [_ [? ?]].
    + split; [|split; [done|by intros ? [= <-]]]. intros _. split; [|done]. by intros [[? ?] _].
  - split; [done|]. intros _. by split.
Qed.

Lemma backends_In scope signers backends b :
  collect_ok (omap (compile_signer scope) signers) = Ok backends ->
  In b backends <-> exists s, In s signers /\ compile_signer scope s = Some (Ok b).
Proof.
  intros Hc. apply collect_ok_Ok in Hc. rewrite <- list_elem_of_In.
  transitivity (Ok b ∈ omap (compile_signer scope) signers).
  - rewrite Hc, !list_elem_of_In, in_map_iff. split; [intros Hb; by exists b|]. by intros (? & [= ->] & ?).
  - rewrite list_elem_of_omap. by setoid_rewrite list_elem_of_In.
Qed.

(** The known signers of a policy. *)
Definition known_signer (signer : SignerSpec) : bool := match signer with UnknownSigner => false | _ => true end.
Lemma compile_signer_known scope s : is_Some (compile_signer scope s) <-> known_signer s = true.
Proof. destruct s; simpl; split; try done; intros _; by eexists. Qed.

Lemma policy_compile_Ok p c : policy_compile p = Ok c ->
  cp_builder c = tp_builder p /\ cp_backends c <> [] /\ collect_ok (omap (compile_signer (scope_label p)) (tp_signers p)) = Ok (cp_backends c).
Proof.
  unfold policy_compile. destruct (validate_signers _ _); [|done]. destruct (collect_ok _) as [[|b l]|]; [done| |done]. by intros [= <-].
Qed.

(** A policy compiles exactly when every signer it declares that this build knows is well
    formed (an issuer and one way to name the identity, or one usable key) and it declares at
    least one such signer; a compiled policy keeps the builder and has a backend. One malformed
    signer therefore fails the policy as a whole and is never dropped. *)
Theorem policy_compile_exact (p : TrustPolicy) :
  (is_ok (policy_compile p) = true <->
   (forall s, In s (tp_signers p) -> WfSigner (scope_label p) s) /\ existsb known_signer (tp_signers p) = true) /\
  (forall c, policy_compile p = Ok c -> cp_builder c = tp_builder p /\ cp_backends c <> [] /\
     forall b, In b (cp_backends c) <-> exists s, In s (tp_signers p) /\ compile_signer (scope_label p) s = Some (Ok b)).
Proof.
  split; [|intros c Hc; apply policy_compile_Ok in Hc as (? & ? & Hb); split_and!; [done..|]; intros b; by apply backends_In].
  unfold policy_compile, validate_signers. destruct (tp_signers p) as [|s0 l0] eqn:El; [by split; [|intros [_ ?]]|]. rewrite <- El. clear s0 l0 El.
  set (signers := tp_signers p). set (scope := scope_label p).
  setoid_rewrite <- validate_wf. rewrite existsb_exists.
  destruct (validate_each scope signers) as [[]|e] eqn:Ev.
  2:{ split; [done|]. intros [Hw _]. enough (validate_each scope signers = Ok tt) by congruence. apply validate_each_ok. intros s Hs. by apply Hw. }
  rewrite validate_each_ok in Ev.
  destruct (collect_ok _) as [backends|e] eqn:Ec.
  2:{ split; [done|]. intros [Hw _]. enough (is_ok (collect_ok (omap (compile_signer scope) signers)) = true) by (by rewrite Ec in *).
      apply collect_ok_total. intros r Hr. apply list_elem_of_In, list_elem_of_omap in Hr as (s & Hs & Hr). apply list_elem_of_In in Hs. by apply (Hw s). }
  assert (Hok : forall s r, In s signers -> compile_signer scope s = Some r -> is_ok r = true).
  { intros s r Hs Hr. apply collect_ok_Ok in Ec. assert (Hin : r ∈ omap (compile_signer scope) signers) by (apply list_elem_of_omap; exists s; by rewrite list_elem_of_In).
    rewrite Ec in Hin. apply list_elem_of_In, in_map_iff in Hin as (? & <- & _). done. }
  pose proof (backends_In scope signers backends) as Hb.
  destruct backends as [|b backends]; simpl.
  - split; [done|]. intros (_ & s & Hs & Hk). apply compile_signer_known with (scope := scope) in Hk as [r Hr].
    specialize (Hok s r Hs Hr). destruct r as [b|]; [|done]. exfalso. apply (Hb b Ec). by exists s.
  - split; [|done]. intros _. split; [by eauto|]. destruct (Hb b Ec) as [(s & Hs & Hr) _]; [by left|]. exists s. split; [done|].
    apply compile_signer_known with (scope := scope). by eexists.
Qed.

(** ** Acceptance *)

Lemma tiered_In operator project target compiled c :
  resolve_tiered operator project target = Ok compiled ->
  In c compiled <-> exists p, Trusts operator project target p /\ policy_compile p = Ok c.
Proof.
  unfold resolve_tiered. intros Hc. apply collect_ok_Ok in Hc.
  transitivity (In (Ok c) (map policy_compile (match trust_resolve operator target with [] => trust_resolve project target | _ => trust_resolve operator target end))).
  - rewrite Hc, in_map_iff. split; [intros; by exists c|]. by intros (? & [= ->] & ?).
  - rewrite in_map_iff. setoid_rewrite tiers_chosen_In. split; intros (p & ? & ?); by exists p.
Qed.

Lemma tiered_backend operator project target compiled (f : PolicyBackend -> bool) :
  resolve_tiered operator project target = Ok compiled ->
  List.filter (fun policy => existsb f (cp_backends policy)) compiled <> [] <->
  exists p s b, Trusts operator project target p /\ In s (tp_signers p) /\ compile_signer (scope_label p) s = Some (Ok b) /\ f b = true.
Proof.
  intros Hc. rewrite filter_exists. setoid_rewrite (tiered_In _ _ _ _ _ Hc). setoid_rewrite existsb_exists. split.
  - intros (c & (p & Ht & Hp) & b & Hb & Hf). apply policy_compile_Ok in Hp as (_ & _ & Hp). apply (backends_In _ _ _ _ Hp) in Hb as (s & Hs & Hb).
    by exists p, s, b.
  - intros (p & s & b & Ht & Hs & Hb & Hf).
    assert (exists c, policy_compile p = Ok c) as [c Hp].
    { unfold resolve_tiered in Hc. apply collect_ok_Ok in Hc. apply tiers_chosen_In in Ht. apply (in_map policy_compile) in Ht. rewrite Hc in Ht.
      apply in_map_iff in Ht as (c & Hc' & _). by exists c. }
    exists c. split; [by exists p|]. exists b. split; [|done]. apply policy_compile_Ok in Hp as (_ & _ & Hp). apply (backends_In _ _ _ _ Hp). by exists s.
Qed.

(** A keyless signer names the subject and the issuer of a certificate. *)
Definition NamesCertificate (signer : SignerSpec) (san issuer : string) : Prop :=
  exists k, signer = Keyless k /\ km_oidc_issuer k = Some issuer /\
    ((km_identity k = Some san /\ km_identity_regexp k = None) \/
     (km_identity k = None /\ exists pattern regex, km_identity_regexp k = Some pattern /\
        regex_new ("\A(?:" +:+ pattern +:+ ")\z") = Some regex /\ regex_is_match regex san = true)).

Lemma keyless_signer scope s san issuer :
  (exists b, compile_signer scope s = Some (Ok b) /\ keyless_ok san issuer b = true) <->
  exists san' issuer', san = Some san' /\ issuer = Some issuer' /\ NamesCertificate s san' issuer'.
Proof.
  unfold NamesCertificate. split.
  - intros (b & Hb & Hok). destruct s as [k|k|]; simpl in Hb; [|destruct (compile_key_matcher k scope); by simplify_eq|done].
    unfold compile_keyless_matcher, compile_regex in Hb. destruct k as [[i|] [r|] [o|]]; simpl in Hb; try destruct (regex_new _) as [re|] eqn:Hre;
      simplify_eq/=; destruct san as [san|]; try done; apply andb_true_iff in Hok as [Hid Hiss]; apply bool_decide_eq_true in Hiss as ->; exists san, o; split_and!; try done; eexists; split_and!; try done.
    + left. by apply String.eqb_eq in Hid as ->.
    + right. split; [done|]. by exists r, re.
  - intros (san' & issuer' & -> & -> & k & -> & Hi & Hid). simpl. unfold compile_keyless_matcher, compile_regex. rewrite Hi.
    destruct Hid as [[-> ->]|(-> & pattern & regex & -> & Hre & Hm)]; [|rewrite Hre]; simpl; eexists; (split; [done|]); simpl; rewrite ?String.eqb_refl, ?Hm; by rewrite bool_decide_true.
Qed.

(** C35: Whose signatures verify. When the policies of a target resolve, a certificate is
    accepted exactly when it carries a subject and an issuer and some signer of a deciding policy
    names both, the subject in full or by an anchored regular expression; in particular a
    policy outside the deciding set admits nobody, and a target without policies no one. *)
Theorem certificate_accepted_exact (operator project : list TrustPolicy) (target : string) (compiled : list CompiledPolicy) (san issuer : option string) :
  resolve_tiered operator project target = Ok compiled ->
  (is_ok (matching_policies (Some (san, issuer)) compiled) = true <->
   exists p s san' issuer', Trusts operator project target p /\ In s (tp_signers p) /\
     san = Some san' /\ issuer = Some issuer' /\ NamesCertificate s san' issuer').
Proof.
  intros Hc. transitivity (List.filter (fun policy => existsb (keyless_ok san issuer) (cp_backends policy)) compiled <> []).
  - unfold matching_policies. by destruct (List.filter _ compiled).
  - rewrite (tiered_backend _ _ _ _ _ Hc). split.
    + intros (p & s & b & Ht & Hs & Hb & Hf). destruct (keyless_signer (scope_label p) s san issuer) as [(san' & issuer' & ?) _]; [by exists b|].
      exists p, s, san', issuer'. tauto.
    + intros (p & s & san' & issuer' & Ht & Hs & Hrest). destruct (keyless_signer (scope_label p) s san issuer) as [_ (b & ?)]; [by exists san', issuer'|].
      exists p, s, b. tauto.
Qed.

(** The same for key signatures: a signature over a message is accepted exactly when the
    key of some signer of a deciding policy verifies it. *)
Theorem key_signature_accepted_exact (operator project : list TrustPolicy) (target : string) (compiled : list CompiledPolicy) (message signature : string) :
  resolve_tiered operator project target = Ok compiled ->
  (is_ok (matching_key_policies message signature compiled) = true <->
   exists p matcher key, Trusts operator project target p /\ In (Key matcher) (tp_signers p) /\
     compile_key_matcher matcher (scope_label p) = Ok key /\ key_verify key signature message = true).
Proof.
  intros Hc. transitivity (List.filter (fun policy => existsb (key_ok message signature) (cp_backends policy)) compiled <> []).
  - unfold matching_key_policies. by destruct (List.filter _ compiled).
  - rewrite (tiered_backend _ _ _ _ _ Hc). split.
    + intros (p & s & b & Ht & Hs & Hb & Hf). destruct b as [|key]; [done|].
      destruct s as [k|matcher|]; simpl in Hb; [by destruct (compile_keyless_matcher _ _)| |done].
      destruct (compile_key_matcher matcher _) as [key'|] eqn:Hk; simplify_eq. by exists p, matcher, key.
    + intros (p & matcher & key & Ht & Hs & Hk & Hv). exists p, (Key matcher), (BackendKey key). split_and!; [done..| |done]. simpl. by rewrite Hk.
Qed.

Lemma tiered_total operator project target :
  is_ok (resolve_tiered operator project target) = true <-> (forall p, Trusts operator project target p -> is_ok (policy_compile p) = true).
Proof.
  unfold resolve_tiered. rewrite collect_ok_total. setoid_rewrite <- tiers_chosen_In. setoid_rewrite in_map_iff. split; [by eauto|]. by intros Hall r (p & <- & Hp); auto.
Qed.
End Decide.

(** ** Anchoring *)

Lemma rooted_anchor path dir : has_root dir = true -> has_root (anchored_at path dir) = true.
Proof.
  unfold anchored_at, has_root. intros Hd. destruct (starts_with "/" path) eqn:E; [done|]. unfold path_join.
  destruct (String.eqb_spec dir "") as [->|]; [done|]. apply starts_with_true in Hd as [r ->]. by destruct (str_ends_with _ _).
Qed.
Lemma rooted_key_ref value key path : has_root value = true -> key_ref_parse value = Ok key -> as_path key = Some path -> path = value.
Proof.
  intros Hr. apply starts_with_true in Hr as [r ->]. unfold key_ref_parse.
  destruct (split_once_text "://" _) as [[token rest]|] eqn:E.
  - simpl in E. destruct (split_once_text "://" r) as [[a b]|]; [|done]. simplify_eq. done.
  - simpl. intros [= <-] [= <-]. done.
Qed.

(** Which file a key reference names is settled once: anchoring the keys of a policy at
    an absolute directory leaves nothing for a second anchoring at any directory, so a policy
    merged through several tiers keeps the directory of the file that declared it. *)
Theorem anchor_settles (policy : TrustPolicy) (dir dir' : string) : has_root dir = true ->
  anchor_relative_keys (anchor_relative_keys policy dir) dir' = anchor_relative_keys policy dir.
Proof.
  intros Hd. unfold anchor_relative_keys. simpl. f_equal. rewrite map_map. apply map_ext. intros s.
  destruct s as [k|[[reference|] pem]|]; try done. simpl.
  destruct (key_ref_parse reference) as [parsed|] eqn:Hp; [|simpl; by rewrite Hp].
  destruct (as_path parsed) as [path|] eqn:Ha; [|simpl; by rewrite Hp, Ha].
  simpl. pose proof (rooted_anchor path dir Hd) as Hroot. destruct (key_ref_parse (anchored_at path dir)) as [again|] eqn:Hp'; [|done].
  destruct (as_path again) as [path'|] eqn:Ha'; [|done]. rewrite (rooted_key_ref _ _ _ Hroot Hp' Ha'). unfold anchored_at at 1. by rewrite Hroot.
Qed.
