(* ===== verification/Config.v ===== *)
(** * The configuration document

    [crates/ocx_config/src]: the sections of [config.toml] ([lib.rs], [registry.rs],
    [mirror.rs], [patch.rs], [managed.rs], [update.rs], [shell.rs], [records.rs],
    [refresh.rs]), the merge of a higher tier over a lower one, the system locks, and the
    resolution of the mirrors, the plain-HTTP hosts, the patch tier and the managed target. *)

From stdpp Require Import base decidable list option numbers strings gmap.
From Stdlib Require Import Ascii.
From S2P Require Import Prelude OMap Text TextSearch Digest PackageRef Client Trust.
Local Open Scope ocx_scope.
Local Open Scope string_scope.

Inductive ConfigTier : Type := TierSystem | TierUser | TierHome | TierManaged | TierExplicit.

(** ** Refresh vocabulary *)

Definition DEFAULT_INTERVAL : string := "1d".
Inductive RefreshPolicy : Type := RApply | RNotify | RManual.
Definition refresh_as_str (policy : RefreshPolicy) : string :=
  match policy with RApply => "apply" | RNotify => "notify" | RManual => "manual" end.
Definition refresh_parse (value : string) : option RefreshPolicy :=
  List.find (fun policy => String.eqb (refresh_as_str policy) value) [RApply; RNotify; RManual].

Definition u64_max : N := 18446744073709551615.
Definition saturating_mul (a b : N) : N := N.min (a * b) u64_max.
Definition is_ascii_alphabetic (c : ascii) : bool := is_lower c || is_upper c.
Definition is_nonempty (s : string) : bool := negb (String.eqb s "").

(** The digits and the alphabetic suffix of an interval. *)
Definition interval_split (value : string) : string * option ascii :=
  let front := String.substring 0 (String.length value - 1) value in
  match String.get (String.length value - 1) value with
  | Some last => if is_ascii_alphabetic last then (front, Some last) else (value, None)
  | None => (value, None)
  end.
Definition interval_multiplier (suffix : option ascii) : option N :=
  match suffix with
  | None => Some 1%N
  | Some c =>
      if Ascii.eqb c "s" then Some 1%N else if Ascii.eqb c "m" then Some 60%N
      else if Ascii.eqb c "h" then Some 3600%N else if Ascii.eqb c "d" then Some 86400%N else None
  end.
(** Seconds; [None] is [IntervalError]. *)
Definition parse_interval (value : string) : option N :=
  if String.eqb value "" then None
  else
    let '(digits, suffix) := interval_split value in
    if String.eqb digits "" || negb (str_forall is_digit digits) then None
    else
      let count := digits_value 0 digits in
      if (u64_max <? count)%N then None else saturating_mul count <$> interval_multiplier suffix.

(** ** Sections *)

Record RegistryDefaults : Type := mkRegistryDefaults { rd_default : option string; rd_system_locked : bool }.
Definition registry_defaults_merge (self other : RegistryDefaults) : RegistryDefaults :=
  if rd_system_locked self then self else mkRegistryDefaults (or_lower (rd_default other) (rd_default self)) (rd_system_locked self).
Definition registry_defaults_lock (self : RegistryDefaults) : RegistryDefaults := mkRegistryDefaults (rd_default self) true.

Record RegistryConfig : Type := mkRegistryConfig {
  rc_index : option string;
  rc_trusted_hosts : option (list string);
  rc_insecure : option bool;
  rc_system_locked : bool;
  rc_index_is_compiled_default : bool;
}.
Definition registry_config_default : RegistryConfig := mkRegistryConfig None None None false false.
Definition registry_config_lock (self : RegistryConfig) : RegistryConfig :=
  mkRegistryConfig (rc_index self) (rc_trusted_hosts self) (rc_insecure self) true (rc_index_is_compiled_default self).
Definition registry_config_merge (self other : RegistryConfig) : RegistryConfig :=
  if rc_system_locked self then self
  else
    mkRegistryConfig (or_lower (rc_index other) (rc_index self))
      (or_lower (rc_trusted_hosts other) (rc_trusted_hosts self))
      (or_lower (rc_insecure other) (rc_insecure self))
      (rc_system_locked other)
      (if bool_decide (is_Some (rc_index other)) then rc_index_is_compiled_default other else rc_index_is_compiled_default self).

Record MirrorConfig : Type := mkMirrorConfig {
  mc_registry : option string;
  mc_index : option string;
  mc_registry_system_locked : bool;
  mc_index_system_locked : bool;
}.
Definition mirror_config_default : MirrorConfig := mkMirrorConfig None None false false.
Definition mirror_config_lock (self : MirrorConfig) : MirrorConfig :=
  mkMirrorConfig (mc_registry self) (mc_index self)
    (bool_decide (is_Some (mc_registry self)) || mc_registry_system_locked self)
    (bool_decide (is_Some (mc_index self)) || mc_index_system_locked self).
Definition mirror_config_merge (self other : MirrorConfig) : MirrorConfig :=
  mkMirrorConfig
    (if mc_registry_system_locked self then mc_registry self else or_lower (mc_registry other) (mc_registry self))
    (if mc_index_system_locked self then mc_index self else or_lower (mc_index other) (mc_index self))
    (if mc_registry_system_locked self then true else mc_registry_system_locked other)
    (if mc_index_system_locked self then true else mc_index_system_locked other).

Record PatchConfig : Type := mkPatchConfig {
  pc_registry : option string;
  pc_path : option string;
  pc_required : option bool;
  pc_system_locked : bool;
}.
Definition DEFAULT_PATH_TEMPLATE : string := "{registry}/{repository}".
Definition DEFAULT_REQUIRED : bool := true.
Definition patch_config_lock (self : PatchConfig) : PatchConfig :=
  mkPatchConfig (pc_registry self) (pc_path self) (pc_required self) (default DEFAULT_REQUIRED (pc_required self) || pc_system_locked self).
Definition patch_config_merge (self other : PatchConfig) : PatchConfig :=
  if pc_system_locked self then self
  else
    mkPatchConfig (or_lower (pc_registry other) (pc_registry self)) (or_lower (pc_path other) (pc_path self))
      (or_lower (pc_required other) (pc_required self)) (pc_system_locked self).

Record ManagedConfig : Type := mkManagedConfig {
  mg_source : option string;
  mg_required : option bool;
  mg_refresh : option RefreshPolicy;
  mg_interval : option string;
  mg_system_locked : bool;
}.
Definition managed_config_default : ManagedConfig := mkManagedConfig None None None None false.
Definition managed_config_lock (self : ManagedConfig) : ManagedConfig :=
  mkManagedConfig (mg_source self) (mg_required self) (mg_refresh self) (mg_interval self)
    (default DEFAULT_REQUIRED (mg_required self) || mg_system_locked self).
Definition managed_config_merge (self other : ManagedConfig) : ManagedConfig :=
  if mg_system_locked self then self
  else
    mkManagedConfig (or_lower (mg_source other) (mg_source self)) (or_lower (mg_required other) (mg_required self))
      (or_lower (mg_refresh other) (mg_refresh self)) (or_lower (mg_interval other) (mg_interval self)) (mg_system_locked self).

(** A value this release understands, or the rejected text and the file it came from. *)
Record Rejected : Type := mkRejected { rj_value : string; rj_origin : option string }.
Definition Setting (A : Type) : Type := result Rejected A.
Record UpdateConfig : Type := mkUpdateConfig {
  up_self : option (Setting RefreshPolicy);
  up_toolchain : option (Setting RefreshPolicy);
  up_interval : option (Setting N);
  up_section : option Rejected;
}.
Definition rejected_at (path : string) (rejected : Rejected) : Rejected := mkRejected (rj_value rejected) (Some path).
Definition setting_at {A : Type} (path : string) (setting : Setting A) : Setting A := result_map_err (rejected_at path) setting.
Definition set_origin (path : string) (self : UpdateConfig) : UpdateConfig :=
  mkUpdateConfig (setting_at path <$> up_self self) (setting_at path <$> up_toolchain self)
    (setting_at path <$> up_interval self) (rejected_at path <$> up_section self).
Definition update_config_merge (self other : UpdateConfig) : UpdateConfig :=
  mkUpdateConfig (or_lower (up_self other) (up_self self)) (or_lower (up_toolchain other) (up_toolchain self))
    (or_lower (up_interval other) (up_interval self)) (or_lower (up_section other) (up_section self)).

Record RecordsOptions : Type := mkRecordsOptions {
  ro_dir : option string;
  ro_name : option string;
  ro_required : option bool;
  ro_system_locked : bool;
}.
Definition records_merge (self other : RecordsOptions) : RecordsOptions :=
  if ro_system_locked self then self
  else
    mkRecordsOptions (or_lower (ro_dir other) (ro_dir self)) (or_lower (ro_name other) (ro_name self))
      (or_lower (ro_required other) (ro_required self)) (ro_system_locked self).
Definition records_lock (self : RecordsOptions) : RecordsOptions := mkRecordsOptions (ro_dir self) (ro_name self) (ro_required self) true.

(** ** Activation consent *)

Definition consent_include (spec : ScopeSpec) : list string := match spec with Prefix pattern => [pattern] | ScopeSet include _ => include end.
Definition consent_exclude (spec : ScopeSpec) : list string := match spec with Prefix _ => [] | ScopeSet _ exclude => exclude end.
Definition extend_unique (target additions : list string) : list string :=
  fold_left (fun target addition => if existsb (String.eqb addition) target then target else target ++ [addition])%list additions target.
Definition accumulate (self other : ScopeSpec) : ScopeSpec :=
  ScopeSet (extend_unique (consent_include self) (consent_include other)) (extend_unique (consent_exclude self) (consent_exclude other)).
Record ShellConsent : Type := mkShellConsent { sc_paths : list string; sc_namespaces : option ScopeSpec }.
Definition shell_consent_default : ShellConsent := mkShellConsent [] None.
Definition shell_consent_merge (self other : ShellConsent) : ShellConsent :=
  mkShellConsent (extend_unique (sc_paths self) (sc_paths other))
    (match sc_namespaces other with
     | None => sc_namespaces self
     | Some other_namespaces =>
         Some (match sc_namespaces self with Some namespaces => accumulate namespaces other_namespaces | None => other_namespaces end)
     end).

Inductive ConsentPatternError : Type :=
| CpEmpty | CpUppercase (pattern : string) | CpDigestSeparator (pattern : string) | CpWildcard (pattern : string)
| CpEmptyComponent (pattern : string) | CpTooManyComponents (pattern : string) | CpWholeRegistry (pattern : string)
| CpOrganisation (pattern : string) (source : IdentifierError).
Fixpoint count_char (c : ascii) (s : string) : nat :=
  match s with EmptyString => 0 | String d s' => (if Ascii.eqb c d then 1 else 0) + count_char c s' end.
Definition validate_consent_pattern (pattern : string) : result ConsentPatternError unit :=
  if String.eqb pattern "" then Err CpEmpty
  else if negb (str_forall (fun c => negb (is_upper c)) pattern) then Err (CpUppercase pattern)
  else if str_mem "@" pattern then Err (CpDigestSeparator pattern)
  else
    let trailing_wildcard := str_ends_with "/*" pattern in
    if (1 <? count_char "*" pattern)%nat || (str_mem "*" pattern && negb trailing_wildcard) then Err (CpWildcard pattern)
    else
      let body := if trailing_wildcard then String.substring 0 (String.length pattern - 2) pattern else pattern in
      let components := split_char "/" body in
      if existsb (String.eqb "") components then Err (CpEmptyComponent pattern)
      else match components with
           | [_] => Err (CpWholeRegistry pattern)
           | [_; org] => result_map_err (CpOrganisation pattern) (validate_repository org)
           | _ => Err (CpTooManyComponents pattern)
           end.
Definition normalize_consent_pattern (pattern : string) : result ConsentPatternError string :=
  let? _ := validate_consent_pattern pattern in Ok (default pattern (strip_suffix "/*" pattern)).
Definition normalize_all (patterns : list string) : result ConsentPatternError (list string) :=
  collect_ok (map normalize_consent_pattern patterns).
(** What the visitor of [ConsentScopeSpec] makes of a text or a table, by the keys it holds. *)
Inductive ConsentShape : Type := ConsentText (value : string) | ConsentTable (entries : list (string * list string)).
Inductive ConsentError : Type := CeUnknownKey (key : string) | CeNoInclude | CeEmptyInclude | CePattern (source : ConsentPatternError).
Definition consent_from_shape (shape : ConsentShape) : result ConsentError ScopeSpec :=
  match shape with
  | ConsentText value => let? pattern := result_map_err CePattern (normalize_consent_pattern value) in Ok (Prefix pattern)
  | ConsentTable entries =>
      let value key := last (map snd (List.filter (fun entry => String.eqb (fst entry) key) entries)) in
      match List.find (fun entry => negb (String.eqb (fst entry) "include" || String.eqb (fst entry) "exclude")) entries with
      | Some (key, _) => Err (CeUnknownKey key)
      | None =>
          match value "include", value "exclude" with
          | None, None => Err CeNoInclude
          | include, exclude =>
              let? include := result_map_err CePattern (normalize_all (default [] include)) in
              if bool_decide (include = []) then Err CeEmptyInclude
              else
                let? exclude := result_map_err CePattern (normalize_all (default [] exclude)) in
                Ok (ScopeSet include exclude)
          end
      end
  end.

Record ShellConfig : Type := mkShellConfig {
  sh_hook : option bool;
  sh_completions : option bool;
  sh_modify_path : option bool;
  sh_profiles : option (list string);
  sh_consent : option ShellConsent;
  sh_hook_tier : option ConfigTier;
  sh_completions_tier : option ConfigTier;
  sh_modify_path_tier : option ConfigTier;
  sh_profiles_tier : option ConfigTier;
  sh_consent_strip_reason : option string;
}.
Definition shell_config_default : ShellConfig := mkShellConfig None None None None None None None None None None.
(** The tier travels with the value. *)
Definition tier_of {A : Type} (value : option A) (tier lower : option ConfigTier) : option ConfigTier :=
  match value with Some _ => tier | None => lower end.
Definition shell_config_merge (self other : ShellConfig) : ShellConfig :=
  mkShellConfig
    (or_lower (sh_hook other) (sh_hook self))
    (or_lower (sh_completions other) (sh_completions self))
    (or_lower (sh_modify_path other) (sh_modify_path self))
    (or_lower (sh_profiles other) (sh_profiles self))
    (match sh_consent other with
     | Some other_consent => Some (shell_consent_merge (default shell_consent_default (sh_consent self)) other_consent)
     | None => sh_consent self
     end)
    (tier_of (sh_hook other) (sh_hook_tier other) (sh_hook_tier self))
    (tier_of (sh_completions other) (sh_completions_tier other) (sh_completions_tier self))
    (tier_of (sh_modify_path other) (sh_modify_path_tier other) (sh_modify_path_tier self))
    (tier_of (sh_profiles other) (sh_profiles_tier other) (sh_profiles_tier self))
    (or_lower (sh_consent_strip_reason other) (sh_consent_strip_reason self)).

(** ** The document *)

Record Config : Type := mkConfig {
  cf_registry : option RegistryDefaults;
  cf_registries : option (gmap string RegistryConfig);
  cf_mirrors : option (gmap string MirrorConfig);
  cf_patches : option PatchConfig;
  cf_managed : option ManagedConfig;
  cf_update : option UpdateConfig;
  cf_trust : option TrustConfig;
  cf_shell : option ShellConfig;
  cf_records : option RecordsOptions;
  cf_toolchain_dir : option string;
  cf_extra_ca_certs : option string;
  cf_extra_ca_certs_pem : option string;
  cf_extra_ca_certs_system_locked : bool;
}.
Definition config_default : Config := mkConfig None None None None None None None None None None None None false.

(** A section of the higher tier merged into the lower one's, or taken whole. *)
Definition merge_section {A : Type} (merge : A -> A -> A) (self other : option A) : option A :=
  match other with
  | Some other => Some (match self with Some self => merge self other | None => other end)
  | None => self
  end.
(** [map.entry(key).or_default().merge(entry)] of every entry. *)
Definition merge_table {A : Type} (merge : A -> A -> A) (dflt : A) (self other : option (gmap string A)) : option (gmap string A) :=
  match other with
  | Some other => Some (map_fold (fun key entry table => <[key := merge (default dflt (table !! key)) entry]> table) (default ∅ self) other)
  | None => self
  end.
Definition sets_extra_ca_certs (config : Config) : bool :=
  bool_decide (is_Some (cf_extra_ca_certs config)) || bool_decide (is_Some (cf_extra_ca_certs_pem config)).
Definition config_merge (self other : Config) : Config :=
  let take_pair := negb (cf_extra_ca_certs_system_locked self) && sets_extra_ca_certs other in
  mkConfig
    (merge_section registry_defaults_merge (cf_registry self) (cf_registry other))
    (merge_table registry_config_merge registry_config_default (cf_registries self) (cf_registries other))
    (merge_table mirror_config_merge mirror_config_default (cf_mirrors self) (cf_mirrors other))
    (merge_section patch_config_merge (cf_patches self) (cf_patches other))
    (merge_section managed_config_merge (cf_managed self) (cf_managed other))
    (merge_section update_config_merge (cf_update self) (cf_update other))
    (merge_section trust_merge (cf_trust self) (cf_trust other))
    (merge_section shell_config_merge (cf_shell self) (cf_shell other))
    (merge_section records_merge (cf_records self) (cf_records other))
    (match cf_toolchain_dir other with Some dir => if String.eqb dir "" then cf_toolchain_dir self else Some dir | None => cf_toolchain_dir self end)
    (if take_pair then cf_extra_ca_certs other else cf_extra_ca_certs self)
    (if take_pair then cf_extra_ca_certs_pem other else cf_extra_ca_certs_pem self)
    (if take_pair then cf_extra_ca_certs_system_locked other else cf_extra_ca_certs_system_locked self).
Definition trust_policies (config : Config) : list TrustPolicy := default [] (tc_policy <$> cf_trust config).
Definition resolved_default_registry (config : Config) : option string := cf_registry config ≫= rd_default.

(** ** Mirrors *)

Inductive MirrorConfigError : Type :=
| MissingUrl | CredentialsInUrl | MissingHost (url : string)
| InvalidEntry (upstream : string) (source : MirrorConfigError)
| EmptyEntry (upstream : string)
| InvalidShape (upstream found : string)
| NonStringRoleValue (upstream role found : string)
| PlainHttpMirrorNotAllowed (upstream mirror_host : string)
| MalformedEnvJson.

(** A raw mirror value as [MirrorValueShape] shows it: a text, the two role fields of a table
    (absent, a text, or the type of anything else), or another type. *)
Inductive MirrorValue : Type :=
| MirrorStr (url : string) | MirrorTable (registry index : option (result string string)) | MirrorOther (type_name : string).
Definition mirror_field (upstream role : string) (field : option (result string string)) : result MirrorConfigError (option string) :=
  match field with
  | None => Ok None
  | Some (Ok url) => Ok (Some url)
  | Some (Err found) => Err (NonStringRoleValue upstream role found)
  end.
Definition parse_mirror_value (upstream : string) (value : MirrorValue) : result MirrorConfigError (option MirrorConfig) :=
  match value with
  | MirrorStr url => Ok (Some (mkMirrorConfig (Some url) (Some url) false false))
  | MirrorOther found => Err (InvalidShape upstream found)
  | MirrorTable registry index =>
      let? registry := mirror_field upstream "registry" registry in
      let? index := mirror_field upstream "index" index in
      match registry, index with
      | None, None => Ok None
      | _, _ => Ok (Some (mkMirrorConfig registry index false false))
      end
  end.
Definition parse_url (url : string) : result MirrorConfigError ParsedMirror :=
  if String.eqb url "" then Err MissingUrl
  else
    let '(protocol, rest) :=
      match split_once_text "://" url with Some (scheme, rest) => (lowercase scheme, rest) | None => ("https", url) end in
    let '(host, raw_prefix) := match split_once "/" rest with Some (host, prefix) => (host, prefix) | None => (rest, "") end in
    if str_mem "@" host then Err CredentialsInUrl
    else if String.eqb host "" then Err (MissingHost url)
    else Ok (mkMirror protocol host (default raw_prefix (strip_suffix "/" raw_prefix))).
Definition allows_plain_http (hosts : list string) (host : string) : bool := existsb (fun allowed => String.eqb allowed host) hosts.
Definition resolve_mirror_role (upstream url : string) (insecure_hosts : list string) : result MirrorConfigError ParsedMirror :=
  let? parsed := result_map_err (InvalidEntry upstream) (parse_url url) in
  if String.eqb (mi_protocol parsed) "http" && negb (allows_plain_http insecure_hosts (mi_host parsed))
  then Err (PlainHttpMirrorNotAllowed upstream (mi_host parsed))
  else Ok parsed.
Record ResolvedMirrors : Type := mkResolvedMirrors {
  rm_registry : MirrorMap;
  rm_index : MirrorMap;
  rm_merged : list (string * MirrorConfig);
}.
(** The optional role of an entry, added to the map of its role. *)
Definition resolve_role (upstream : string) (url : option string) (insecure_hosts : list string) (map : MirrorMap) : result MirrorConfigError MirrorMap :=
  match url with
  | None => Ok map
  | Some url => let? parsed := resolve_mirror_role upstream url insecure_hosts in Ok (om_insert upstream parsed map)
  end.
Fixpoint resolve_entries (insecure_hosts : list string) (entries : list (string * MirrorConfig)) (registry index : MirrorMap) :
    result MirrorConfigError (MirrorMap * MirrorMap) :=
  match entries with
  | [] => Ok (registry, index)
  | (host, entry) :: rest =>
      if negb (bool_decide (is_Some (mc_registry entry))) && negb (bool_decide (is_Some (mc_index entry))) then Err (EmptyEntry host)
      else
        let? registry := resolve_role host (mc_registry entry) insecure_hosts registry in
        let? index := resolve_role host (mc_index entry) insecure_hosts index in
        resolve_entries insecure_hosts rest registry index
  end.
Definition merged_mirrors (config : Config) (env_entries : list (string * MirrorConfig)) : list (string * MirrorConfig) :=
  let declared := map_to_list (default ∅ (cf_mirrors config)) in
  fold_left (fun merged '(host, entry) => om_insert host entry merged) (declared ++ env_entries)%list [].
Definition resolve_mirror_map (config : Config) (env_entries : list (string * MirrorConfig)) (insecure_hosts : list string) :
    result MirrorConfigError ResolvedMirrors :=
  let merged := merged_mirrors config env_entries in
  let? maps := resolve_entries insecure_hosts merged [] [] in
  Ok (mkResolvedMirrors (fst maps) (snd maps) merged).

(** ** Plain HTTP *)

Definition u16_parse (s : string) : option N := n ← u32_parse s; if (n <=? 65535)%N then Some n else None.
Definition normalize_registry_name (name : string) : string :=
  match rsplit_once ":" name with
  | Some (host, port) =>
      match u16_parse port with
      | Some port => lowercase host +:+ ":" +:+ u32_to_string port
      | None => lowercase name
      end
  | None => lowercase name
  end.
Definition same_registry_name (left right : string) : bool := String.eqb (normalize_registry_name left) (normalize_registry_name right).
Definition config_registries (config : Config) : list (string * RegistryConfig) := map_to_list (default ∅ (cf_registries config)).
Definition system_locked_shut (config : Config) (host : string) : bool :=
  existsb (fun '(name, entry) => rc_system_locked entry && bool_decide (rc_insecure entry = Some false) && same_registry_name name host)
    (config_registries config).
Definition insecure_hosts (config : Config) (env : list string) : list string :=
  let hosts :=
    map fst (List.filter (fun '(name, registry) => default false (rc_insecure registry) && negb (system_locked_shut config name)) (config_registries config)) in
  fold_left (fun hosts host =>
    if system_locked_shut config host || existsb (String.eqb host) hosts then hosts else hosts ++ [host])%list env hosts.

(** ** The patch tier *)

Record ResolvedPatchConfig : Type := mkResolvedPatch {
  rp_registry : string;
  rp_path_template : string;
  rp_required : bool;
  rp_system_required : bool;
  rp_no_patches : list string;
}.
(** [Err tt] is [EmptyRegistry]. *)
Definition resolve_patch_config (config : Config) : result unit (option ResolvedPatchConfig) :=
  match cf_patches config with
  | None => Ok None
  | Some patch_config =>
      match pc_registry patch_config with
      | None => Ok None
      | Some registry =>
          if String.eqb registry "" then Err tt
          else Ok (Some (mkResolvedPatch registry (default DEFAULT_PATH_TEMPLATE (pc_path patch_config))
                           (default DEFAULT_REQUIRED (pc_required patch_config)) (pc_system_locked patch_config) []))
      end
  end.

(** ** The managed tier *)

Record ResolvedManagedConfig : Type := mkResolvedManaged {
  rg_source : OciIdentifier;
  rg_required : bool;
  rg_refresh : RefreshPolicy;
  rg_interval : N;
  rg_system_required : bool;
}.
Record ManagedConfigSnapshot : Type := mkSnapshot {
  sn_source : string;
  sn_tag : option string;
  sn_digest : Digest;
  sn_fetched_at : string;
  sn_config : string;
}.
Definition parse_target (input default_registry : string) : result IdentifierError OciIdentifier := parse_with_default_registry input default_registry.
Definition snapshot_matches_source (snapshot : ManagedConfigSnapshot) (source : OciIdentifier) : bool :=
  match parse_target (sn_source snapshot) DEFAULT_REGISTRY with
  | Err _ => false
  | Ok snapshot_source =>
      bool_decide (without_specifiers snapshot_source = without_specifiers source) &&
      match pr_digest source with None => true | Some pin => bool_decide (sn_digest snapshot = pin) end
  end.
Definition sources_canonically_eq (left right : string) : bool :=
  match parse_with_default_registry left DEFAULT_REGISTRY, parse_with_default_registry right DEFAULT_REGISTRY with
  | Ok left_id, Ok right_id => bool_decide (left_id = right_id)
  | _, _ => false
  end.
Inductive ManagedConfigError : Type :=
| EmptySource | InvalidSource (value : string) (source : IdentifierError) | InvalidInterval (value : string)
| SnapshotRequired (effective_source : OciIdentifier) | SnapshotUnusable (effective_source : OciIdentifier)
| SystemLockedOverride (locked : string).
(** The source the override, the seed and the lock leave. *)
Definition effective_source (managed : ManagedConfig) (env_override : option string) : option string :=
  match env_override with
  | Some value =>
      if String.eqb value "" then mg_source managed
      else if mg_system_locked managed && negb (match mg_source managed with Some seed => sources_canonically_eq value seed | None => false end)
      then mg_source managed
      else Some value
  | None => mg_source managed
  end.
Definition resolve_target (config : Config) (env_override : option string) : result ManagedConfigError (option ResolvedManagedConfig) :=
  let managed := default managed_config_default (cf_managed config) in
  match effective_source managed env_override with
  | None => Ok None
  | Some source =>
      if String.eqb source "" then Err EmptySource
      else
        let? identifier := result_map_err (InvalidSource source) (parse_target source DEFAULT_REGISTRY) in
        let text := default DEFAULT_INTERVAL (mg_interval managed) in
        match parse_interval text with
        | None => Err (InvalidInterval text)
        | Some interval =>
            Ok (Some (mkResolvedManaged identifier (default DEFAULT_REQUIRED (mg_required managed)) (default RNotify (mg_refresh managed))
                        interval (mg_system_locked managed)))
        end
  end.
Inductive ManagedSnapshotState : Type := Unmatched | PayloadUnusable | Applied.
Definition enforce_required_snapshot (resolved : ResolvedManagedConfig) (state : ManagedSnapshotState) :
    result ManagedConfigError ResolvedManagedConfig :=
  if negb (rg_required resolved) then Ok resolved
  else match state with
       | Applied => Ok resolved
       | Unmatched => Err (SnapshotRequired (rg_source resolved))
       | PayloadUnusable => Err (SnapshotUnusable (rg_source resolved))
       end.
Definition check_locked_managed_override (config : Config) (value : string) : result ManagedConfigError unit :=
  let? target := resolve_target config None in
  match target with
  | None => Ok tt
  | Some locked =>
      if negb (rg_system_required locked) then Ok tt
      else if is_nonempty value && sources_canonically_eq value (ref_display (rg_source locked)) then Ok tt
      else Err (SystemLockedOverride (ref_display (rg_source locked)))
  end.
