(* ===== verification/ConfigLoad.v ===== *)
(** * Loading the configuration

    [crates/ocx_config/src/loader.rs]: which files are read, how each is guarded and merged,
    the fold of the managed snapshot, and the search for the project file.  The TOML library,
    the file system and the environment are the parameters of [ConfigHost]. *)

From stdpp Require Import base decidable list option numbers strings gmap.
From Stdlib Require Import Ascii.
From S2P Require Import Prelude Text Digest PackageRef TextSearch Trust Config.
Local Open Scope ocx_scope.
Local Open Scope string_scope.

Definition MAX_CONFIG_SIZE : N := 64 * 1024.
Definition PROJECT_FILE_NAME : string := "ocx.toml".
Definition DEFAULT_INDEX_BASE_URL : string := "https://index.ocx.sh".

(** ** The host *)

#[warnings="-register-all"]
Inductive TomlValue : Type :=
| TomlString (s : string) | TomlArray (items : list TomlValue) | TomlTable (entries : list (string * TomlValue)) | TomlOther.
Definition toml_get (key : string) (table : list (string * TomlValue)) : option TomlValue :=
  snd <$> List.find (fun entry => String.eqb (fst entry) key) table.
Definition toml_remove (key : string) (table : list (string * TomlValue)) : list (string * TomlValue) :=
  List.filter (fun entry => negb (String.eqb (fst entry) key)) table.
Definition as_table (value : TomlValue) : option (list (string * TomlValue)) := match value with TomlTable t => Some t | _ => None end.
Definition as_array (value : TomlValue) : option (list TomlValue) := match value with TomlArray l => Some l | _ => None end.
Definition is_toml_str (value : TomlValue) : bool := match value with TomlString _ => true | _ => false end.

Inductive IoKind : Type := IoNotFound | IoOther.
Inductive FileType : Type := FtFile | FtDir | FtSymlink | FtOther.
Definition is_file (t : FileType) : bool := match t with FtFile => true | _ => false end.
(** An open file: its metadata, and the text of at most so many of its bytes. *)
Record Opened : Type := mkOpened { op_metadata : option (FileType * N); op_read : N -> option string }.
Class ConfigHost : Type := {
  toml_config : string -> result string Config;
  toml_table : string -> option (list (string * TomlValue));
  toml_try_into : list (string * TomlValue) -> option Config;
  toml_to_string : list (string * TomlValue) -> option string;
  symlink_metadata : string -> result IoKind FileType;
  metadata : string -> result IoKind FileType;
  open_file : string -> result IoKind Opened;
  system_path : string;
  user_path : option string;
  default_ocx_root : option string;
  env_no_config : bool;
  env_config : option string;
  env_managed_config : option string;
  env_no_project : bool;
  env_project : option string;
  env_ceiling_path : option string;
  read_managed_config_snapshot : option ManagedConfigSnapshot;
}.

Inductive ConfigSource : Type := SourceConfig | SourceProject.
(** The variants of a configuration's load; [Toolchain] is raised elsewhere. *)
Inductive ConfigError : Type :=
| ErrParse (path : string) | ErrFileNotFound (path : string) (tier : ConfigSource) | ErrIo (path : string) (tier : ConfigSource)
| ErrSystemConfig (path : string) | ErrFileTooLarge (path : string) (size : N) | ErrAmbiguousExtraCaCerts (path : string).

(** ** Locks and guards *)

Definition apply_system_locks (parsed : Config) : Config :=
  mkConfig (registry_defaults_lock <$> cf_registry parsed) ((fun entries : gmap string RegistryConfig => registry_config_lock <$> entries) <$> cf_registries parsed)
    ((fun entries : gmap string MirrorConfig => mirror_config_lock <$> entries) <$> cf_mirrors parsed) (patch_config_lock <$> cf_patches parsed) (managed_config_lock <$> cf_managed parsed)
    (cf_update parsed) (trust_lock_as_system <$> cf_trust parsed) (cf_shell parsed) (records_lock <$> cf_records parsed)
    (cf_toolchain_dir parsed) (cf_extra_ca_certs parsed) (cf_extra_ca_certs_pem parsed) (sets_extra_ca_certs parsed).

Definition keep_if {A : Type} (p : A -> bool) (value : option A) : option A := value ≫= fun a => if p a then Some a else None.
Definition retain_entries {A : Type} (p : A -> bool) (table : option (gmap string A)) : option (gmap string A) :=
  keep_if (fun entries => negb (bool_decide (entries = ∅))) ((fun entries => filter (fun entry => p (snd entry) = true) entries) <$> table).
Definition retain_trust (trust : TrustConfig) : TrustConfig :=
  mkTrustConfig (List.filter tp_system_locked (tc_policy trust)) (keep_if sg_system_locked (tc_sigstore trust)).
Definition retain_system_locked_sections (config : Config) : Config :=
  let locked := cf_extra_ca_certs_system_locked config in
  mkConfig (keep_if rd_system_locked (cf_registry config)) (retain_entries rc_system_locked (cf_registries config))
    (retain_entries (fun mirror => mc_registry_system_locked mirror || mc_index_system_locked mirror) (cf_mirrors config))
    (keep_if pc_system_locked (cf_patches config)) None None
    (keep_if (fun declared => negb (bool_decide (tc_policy declared = [])) || bool_decide (is_Some (tc_sigstore declared)))
       (retain_trust <$> cf_trust config))
    None (keep_if ro_system_locked (cf_records config)) None
    (if locked then cf_extra_ca_certs config else None) (if locked then cf_extra_ca_certs_pem config else None) locked.

Definition stamp_tier {A : Type} (value : option A) (tier : ConfigTier) (before : option ConfigTier) : option ConfigTier :=
  match value with Some _ => Some tier | None => before end.
Definition stamp_shell (tier : ConfigTier) (shell : ShellConfig) : ShellConfig :=
  mkShellConfig (sh_hook shell) (sh_completions shell) (sh_modify_path shell) (sh_profiles shell) (sh_consent shell)
    (stamp_tier (sh_hook shell) tier (sh_hook_tier shell)) (stamp_tier (sh_completions shell) tier (sh_completions_tier shell))
    (sh_modify_path_tier shell) (sh_profiles_tier shell) (sh_consent_strip_reason shell).
(** A document with another [shell], [trust] or [update] section. *)
Definition with_shell (shell : option ShellConfig) (c : Config) : Config :=
  mkConfig (cf_registry c) (cf_registries c) (cf_mirrors c) (cf_patches c) (cf_managed c) (cf_update c) (cf_trust c) shell (cf_records c)
    (cf_toolchain_dir c) (cf_extra_ca_certs c) (cf_extra_ca_certs_pem c) (cf_extra_ca_certs_system_locked c).
Definition with_update (update : option UpdateConfig) (c : Config) : Config :=
  mkConfig (cf_registry c) (cf_registries c) (cf_mirrors c) (cf_patches c) (cf_managed c) update (cf_trust c) (cf_shell c) (cf_records c)
    (cf_toolchain_dir c) (cf_extra_ca_certs c) (cf_extra_ca_certs_pem c) (cf_extra_ca_certs_system_locked c).
Definition with_managed (managed : option ManagedConfig) (c : Config) : Config :=
  mkConfig (cf_registry c) (cf_registries c) (cf_mirrors c) (cf_patches c) managed (cf_update c) (cf_trust c) (cf_shell c) (cf_records c)
    (cf_toolchain_dir c) (cf_extra_ca_certs c) (cf_extra_ca_certs_pem c) (cf_extra_ca_certs_system_locked c).
Definition with_records (records : option RecordsOptions) (c : Config) : Config :=
  mkConfig (cf_registry c) (cf_registries c) (cf_mirrors c) (cf_patches c) (cf_managed c) (cf_update c) (cf_trust c) (cf_shell c) records
    (cf_toolchain_dir c) (cf_extra_ca_certs c) (cf_extra_ca_certs_pem c) (cf_extra_ca_certs_system_locked c).
Definition with_trust (trust : option TrustConfig) (extra_ca_certs : option string) (c : Config) : Config :=
  mkConfig (cf_registry c) (cf_registries c) (cf_mirrors c) (cf_patches c) (cf_managed c) (cf_update c) trust (cf_shell c) (cf_records c)
    (cf_toolchain_dir c) extra_ca_certs (cf_extra_ca_certs_pem c) (cf_extra_ca_certs_system_locked c).
Definition stamp_shell_tier (parsed : Config) (tier : ConfigTier) : Config := with_shell (stamp_shell tier <$> cf_shell parsed) parsed.

Definition strip_key_path (signer : SignerSpec) : SignerSpec :=
  match signer with
  | Key matcher =>
      match ky_key matcher with
      | None => signer
      | Some _ => match ky_key_pem matcher with None => UnknownSigner | Some pem => Key (mkKeyMatcher None (Some pem)) end
      end
  | _ => signer
  end.
Definition strip_sigstore (pinned : bool) (s : SigstoreTrust) : SigstoreTrust :=
  mkSigstore None (if pinned then sg_trusted_root_json s else None) (if pinned then sg_fulcio_url s else None)
    (if pinned then sg_rekor_url s else None) (sg_rekor_upload s) (sg_system_locked s).
Definition source_pinned (source : OciIdentifier) : bool := bool_decide (is_Some (pr_digest source)).
Definition guard_managed_sigstore_trust (parsed : Config) (source : OciIdentifier) : Config :=
  let strip_policy policy := mkPolicy (tp_scope policy) (tp_builder policy) (map strip_key_path (tp_signers policy)) (tp_system_locked policy) in
  with_trust ((fun trust => mkTrustConfig (map strip_policy (tc_policy trust)) (strip_sigstore (source_pinned source) <$> tc_sigstore trust)) <$> cf_trust parsed)
    None parsed.

(** The reason's text is rendered from the source and from whether carve-outs were kept. *)
Definition strip_reason (source : OciIdentifier) (carve_outs : list string) : string :=
  "managed-config payload for '" +:+ ref_display source +:+ "' carries [shell.consent] but the [managed] source is not digest-pinned; the grant was ignored"
  +:+ (match carve_outs with
       | [] => ""
       | _ => "; its namespaces exclude list (" +:+ str_join ", " carve_outs +:+ ") was kept, since a withdrawal can only ever narrow"
       end)
  +:+ " (pin the source to a digest so an activation grant cannot be added by whoever can move the tag)".
Definition with_consent (consent : option ShellConsent) (reason : option string) (shell : ShellConfig) : ShellConfig :=
  mkShellConfig (sh_hook shell) (sh_completions shell) (sh_modify_path shell) (sh_profiles shell) consent (sh_hook_tier shell)
    (sh_completions_tier shell) (sh_modify_path_tier shell) (sh_profiles_tier shell) reason.
Definition guard_managed_shell_consent (parsed : Config) (source : OciIdentifier) : Config :=
  if source_pinned source then parsed
  else
    match cf_shell parsed with
    | None => parsed
    | Some shell =>
        match sh_consent shell with
        | None => parsed
        | Some consent =>
            let carve_outs := default [] (consent_exclude <$> sc_namespaces consent) in
            let kept := match carve_outs with [] => None | _ => Some (mkShellConsent [] (Some (ScopeSet carve_outs carve_outs))) end in
            with_shell (Some (with_consent kept (Some (strip_reason source carve_outs)) shell)) parsed
        end
    end.
Definition fold_project_tier (accumulator contribution : Config) : Config :=
  config_merge accumulator (with_shell None (with_records None (with_update None contribution))).

Definition system_lock_drops_extra_ca (accumulator contribution : Config) : bool :=
  cf_extra_ca_certs_system_locked accumulator && sets_extra_ca_certs contribution.
Definition guard_extra_ca_certs_ambiguity (parsed : Config) (path : string) : result ConfigError unit :=
  if bool_decide (is_Some (cf_extra_ca_certs parsed)) && bool_decide (is_Some (cf_extra_ca_certs_pem parsed))
  then Err (ErrAmbiguousExtraCaCerts path) else Ok tt.
Definition anchor_relative_paths (parsed : Config) (config_path : string) : Config :=
  match path_text_parent config_path with
  | None => parsed
  | Some dir =>
      let anchor_dir records :=
        mkRecordsOptions ((fun sink => anchored_at sink dir) <$> ro_dir records) (ro_name records) (ro_required records) (ro_system_locked records) in
      let anchor_trust trust :=
        mkTrustConfig (map (fun policy => anchor_relative_keys policy dir) (tc_policy trust))
          ((fun sigstore => anchor_relative_root sigstore dir) <$> tc_sigstore trust) in
      with_records (anchor_dir <$> cf_records parsed)
        (with_trust (anchor_trust <$> cf_trust parsed) ((fun path => anchored_at (file_reference_path path) dir) <$> cf_extra_ca_certs parsed) parsed)
  end.

Definition builtin_defaults : Config :=
  mkConfig None (Some {[ OCX_SH_REGISTRY := mkRegistryConfig (Some DEFAULT_INDEX_BASE_URL) None None false true ]})
    None None None None None None None None None None false.

(** ** Refused consent tables *)

Definition raw_consent (table : list (string * TomlValue)) : option (list (string * TomlValue)) :=
  shell ← toml_get "shell" table ≫= as_table; toml_get "consent" shell ≫= as_table.
Definition consent_table_withdraws (table : list (string * TomlValue)) : bool :=
  match consent ← raw_consent table; namespaces ← toml_get "namespaces" consent ≫= as_table; toml_get "exclude" namespaces with
  | None => false
  | Some exclude => match as_array exclude with None => true | Some patterns => negb (bool_decide (List.length patterns = 0%nat)) end
  end.
Definition is_string_list (value : TomlValue) : bool := match as_array value with Some items => forallb is_toml_str items | None => false end.
Definition none_or (p : TomlValue -> bool) (value : option TomlValue) : bool := match value with None => true | Some v => p v end.
Definition consent_table_shape_is_readable (table : list (string * TomlValue)) : bool :=
  match raw_consent table with
  | None => false
  | Some consent =>
      if negb (none_or is_string_list (toml_get "paths" consent)) then false
      else match toml_get "namespaces" consent with
           | None => true
           | Some (TomlString _) => true
           | Some (TomlTable spec) => forallb (fun key => none_or is_string_list (toml_get key spec)) ["include"; "exclude"]
           | Some _ => false
           end
  end.
(** [shell.remove("consent")] of a table whose [shell] is one. *)
Definition remove_consent (table : list (string * TomlValue)) : option (list (string * TomlValue)) :=
  match toml_get "shell" table with
  | Some (TomlTable shell) =>
      match toml_get "consent" shell with
      | Some _ => Some (map (fun entry => if String.eqb (fst entry) "shell" then (fst entry, TomlTable (toml_remove "consent" shell)) else entry) table)
      | None => None
      end
  | _ => None
  end.

Section Loader.
Context `{ConfigHost}.

Definition refused_reason (origin refusal : string) : string :=
  "[shell.consent] in " +:+ origin +:+ " was refused and dropped; every other section of that file still applies (" +:+ refusal
  +:+ ") — a consent grant fails closed, so nothing activates through it until the table is fixed".
Definition parse_config_stripping_refused_consent (text origin : string) : result string Config :=
  match toml_config text with
  | Ok parsed => Ok parsed
  | Err refusal =>
      match toml_table text with
      | None => Err refusal
      | Some table =>
          if consent_table_withdraws table then Err refusal
          else if negb (consent_table_shape_is_readable table) then Err refusal
          else match remove_consent table with
               | None => Err refusal
               | Some stripped =>
                   match toml_try_into stripped with
                   | None => Err refusal
                   | Some parsed =>
                       let shell := default shell_config_default (cf_shell parsed) in
                       Ok (with_shell (Some (with_consent (sh_consent shell) (Some (refused_reason origin refusal)) shell)) parsed)
                   end
               end
      end
  end.
Definition strip_managed_update (payload : string) : string :=
  match toml_table payload with
  | None => payload
  | Some table => match toml_get "update" table with None => payload | Some _ => default payload (toml_to_string (toml_remove "update" table)) end
  end.

(** ** Files *)

Definition home_path : option string := (fun d => path_join d "config.toml") <$> default_ocx_root.
Definition tier_for_path (path : string) : ConfigTier :=
  let is_path candidate := match candidate with Some c => path_eq path c | None => false end in
  if path_eq path system_path then TierSystem
  else if is_path user_path then TierUser
  else if is_path home_path then TierHome
  else TierExplicit.
Definition tier_candidates : list string := system_path :: (option_list user_path ++ option_list home_path)%list.
Fixpoint existing_candidates (candidates : list string) : result ConfigError (list string) :=
  match candidates with
  | [] => Ok []
  | path :: rest =>
      let is_system := path_eq path system_path in
      match symlink_metadata path with
      | Ok FtSymlink => if is_system then Err (ErrSystemConfig path) else existing_candidates rest
      | Ok _ => let? kept := existing_candidates rest in Ok (path :: kept)
      | Err IoNotFound => existing_candidates rest
      | Err IoOther => if is_system then Err (ErrSystemConfig path) else existing_candidates rest
      end
  end.
Definition discover_paths : result ConfigError (list string) := existing_candidates tier_candidates.

(** The text of a configuration file. *)
Definition read_config (path : string) : result ConfigError string :=
  let not_regular := match metadata path with Ok file_type => negb (is_file file_type) | Err _ => false end in
  if not_regular then Err (ErrIo path SourceConfig)
  else match open_file path with
       | Err IoNotFound => Err (ErrFileNotFound path SourceConfig)
       | Err IoOther => Err (ErrIo path SourceConfig)
       | Ok file =>
           match op_metadata file with
           | None => Err (ErrIo path SourceConfig)
           | Some (file_type, len) =>
               if negb (is_file file_type) then Err (ErrIo path SourceConfig)
               else if (MAX_CONFIG_SIZE <? len)%N then Err (ErrFileTooLarge path len)
               else match op_read file (MAX_CONFIG_SIZE + 1) with
                    | None => Err (ErrIo path SourceConfig)
                    | Some contents =>
                        if (MAX_CONFIG_SIZE <? N.of_nat (String.length contents))%N
                        then Err (ErrFileTooLarge path (N.of_nat (String.length contents)))
                        else Ok contents
                    end
           end
       end.
(** One file as it is merged: parsed, locked when it is the system's, anchored, stamped. *)
Definition load_one (path : string) : result ConfigError Config :=
  let? contents := read_config path in
  let? parsed := result_map_err (fun _ => ErrParse path) (parse_config_stripping_refused_consent contents path) in
  let parsed := with_update (set_origin path <$> cf_update parsed) parsed in
  let parsed := if path_eq path system_path then apply_system_locks parsed else parsed in
  let parsed := anchor_relative_paths parsed path in
  let? _ := guard_extra_ca_certs_ambiguity parsed path in
  Ok (stamp_shell_tier parsed (tier_for_path path)).
Fixpoint load_and_merge_recording (paths : list string) (config : Config) (extra_ca_certs_tier : option ConfigTier) :
    result ConfigError (Config * option ConfigTier) :=
  match paths with
  | [] => Ok (config, extra_ca_certs_tier)
  | path :: rest =>
      let? parsed := load_one path in
      let tier :=
        if sets_extra_ca_certs parsed && negb (system_lock_drops_extra_ca config parsed) then Some (tier_for_path path) else extra_ca_certs_tier in
      load_and_merge_recording rest (config_merge config parsed) tier
  end.

(** ** The managed fold *)

Definition managed_snapshot : option ManagedConfigSnapshot :=
  if env_no_config then None else match default_ocx_root with None => None | Some _ => read_managed_config_snapshot end.
(** The payload as it is merged. *)
Definition managed_contribution (source : OciIdentifier) (payload : string) : result string Config :=
  let? parsed := parse_config_stripping_refused_consent (strip_managed_update payload) (ref_display source) in
  let parsed := with_update None (with_managed None parsed) in
  Ok (stamp_shell_tier (guard_managed_shell_consent (guard_managed_sigstore_trust parsed source) source) TierManaged).
Record ManagedFold : Type := mkManagedFold {
  mf_config : Config;
  mf_snapshot : option ManagedConfigSnapshot;
  mf_resolved : option ResolvedManagedConfig;
  mf_state : ManagedSnapshotState;
  mf_extra_ca_certs_tier : option ConfigTier;
}.
Definition fold_managed_tier (accumulator local_only : Config) : ManagedFold :=
  let env_override := if env_no_config then None else env_managed_config in
  match resolve_target local_only env_override with
  | Err _ | Ok None => mkManagedFold accumulator None None Unmatched None
  | Ok (Some resolved) =>
      match managed_snapshot with
      | None => mkManagedFold accumulator None (Some resolved) Unmatched None
      | Some snapshot =>
          if negb (snapshot_matches_source snapshot (rg_source resolved)) then mkManagedFold accumulator (Some snapshot) (Some resolved) Unmatched None
          else match managed_contribution (rg_source resolved) (sn_config snapshot) with
               | Err _ => mkManagedFold accumulator (Some snapshot) (Some resolved) PayloadUnusable None
               | Ok parsed =>
                   let tier := if sets_extra_ca_certs parsed && negb (system_lock_drops_extra_ca accumulator parsed) then Some TierManaged else None in
                   mkManagedFold (config_merge accumulator parsed) (Some snapshot) (Some resolved) Applied tier
               end
      end
  end.
(** [ManagedSnapshotState::classify]. *)
Definition classify_snapshot (snapshot : option ManagedConfigSnapshot) (source : OciIdentifier) : ManagedSnapshotState :=
  match keep_if (fun snap => snapshot_matches_source snap source) snapshot with
  | None => Unmatched
  | Some snapshot => if is_ok (toml_config (sn_config snapshot)) then Applied else PayloadUnusable
  end.

(** ** The project file *)

Definition explicit_project (flag : option string) : option string :=
  match flag with
  | Some path => Some path
  | None => if env_no_project then None else keep_if is_nonempty env_project
  end.
Definition resolve_explicit_project_path (path : string) : result ConfigError (option string) :=
  match metadata path with
  | Ok FtFile => Ok (Some path)
  | Ok FtDir =>
      let candidate := path_join path PROJECT_FILE_NAME in
      match metadata candidate with
      | Ok FtFile => Ok (Some candidate)
      | Err IoNotFound => Ok None
      | Ok _ => Err (ErrIo candidate SourceProject)
      | Err IoOther => Err (ErrIo candidate SourceProject)
      end
  | Ok _ => Err (ErrIo path SourceProject)
  | Err IoNotFound => Err (ErrFileNotFound path SourceProject)
  | Err IoOther => Err (ErrIo path SourceProject)
  end.
Definition has_git_dir (dir : string) : bool :=
  match symlink_metadata (path_join dir ".git") with Ok _ => true | Err IoNotFound => false | Err IoOther => true end.
Definition normalize_step (rooted : bool) (kept : list string) (name : string) : list string :=
  if String.eqb name ".." then
    match kept with
    | [] => if rooted then [] else [name]
    | last :: rest => if String.eqb last ".." then name :: kept else rest
    end
  else name :: kept.
Definition lexical_normalize (path : string) : string :=
  let path := replace_char "\" "/" path in
  path_of_names (has_root path) (rev (fold_left (normalize_step (has_root path)) (path_names path) [])).
Definition is_dir (target : option string) (current : string) : bool := match target with Some d => path_eq current d | None => false end.
(** The walk over [current] and the directories above it. *)
Fixpoint walk_project_levels (ocx_home ceiling : option string) (levels : list string) : option string :=
  match levels with
  | [] => None
  | current :: above =>
      let candidate := path_join current PROJECT_FILE_NAME in
      let found := match symlink_metadata candidate with Ok FtFile => negb (is_dir ocx_home current) | _ => false end in
      if found then Some candidate
      else if has_git_dir current then None
      else if is_dir ceiling current then None
      else walk_project_levels ocx_home ceiling above
  end.
Definition walk_for_project_file (start : string) (ceiling : option string) : option string :=
  let ocx_home := (fun root => lexical_normalize (path_push start root)) <$> default_ocx_root in
  walk_project_levels ocx_home ceiling (path_ancestors start).
Definition project_path (cwd explicit : option string) : result ConfigError (option string) :=
  match explicit_project explicit with
  | Some path => resolve_explicit_project_path path
  | None =>
      if env_no_project then Ok None
      else match cwd with
           | None => Ok None
           | Some start =>
               let ceiling := (fun value => lexical_normalize (path_push start value)) <$> keep_if is_nonempty env_ceiling_path in
               Ok (walk_for_project_file start ceiling)
           end
  end.

(** ** All tiers *)

Record LoadedConfig : Type := mkLoadedConfig {
  lc_merged : Config;
  lc_local_only : Config;
  lc_base : Config;
  lc_overlay : Config;
  lc_managed : ManagedFold;
  lc_config_tier_paths : list string;
  lc_extra_ca_certs_tier : option ConfigTier;
  lc_extra_ca_certs_tier_local : option ConfigTier;
}.
Definition load_with_local_view (explicit_path explicit_project_path cwd : option string) : result ConfigError LoadedConfig :=
  let env_config_file := keep_if is_nonempty env_config in
  let? _ := project_path cwd explicit_project_path in
  let? discovered := if env_no_config then existing_candidates [system_path] else discover_paths in
  let explicit_paths := (option_list env_config_file ++ option_list explicit_path)%list in
  let? found := load_and_merge_recording discovered config_default None in
  let '(discovered_config, discovered_tier) := found in
  let discovered_config := if env_no_config then retain_system_locked_sections discovered_config else discovered_config in
  let base := config_merge builtin_defaults discovered_config in
  let? explicit := load_and_merge_recording explicit_paths config_default None in
  let '(overlay, overlay_tier) := explicit in
  let overlay_tier := if system_lock_drops_extra_ca base overlay then None else overlay_tier in
  let local_only := config_merge base overlay in
  let fold := fold_managed_tier base local_only in
  Ok (mkLoadedConfig (config_merge (mf_config fold) overlay) local_only base overlay fold
        ((if env_no_config then [system_path] else tier_candidates) ++ explicit_paths)%list
        (or_lower overlay_tier (or_lower (mf_extra_ca_certs_tier fold) discovered_tier)) (or_lower overlay_tier discovered_tier)).
End Loader.
