(* ===== verification/ConfigSpec.v ===== *)
(** * Configuration: what the tiers may change

    The locks of the system file hold through every load, the managed payload is bounded, and
    consent accumulates: the theorems on the merge of [Config.v] and the loader of
    [ConfigLoad.v]. *)

From stdpp Require Import base decidable list option numbers strings gmap.
From Stdlib Require Import Ascii Lia.
From S2P Require Import Prelude Text TextSearch Digest PackageRef Trust Config ConfigLoad.
Local Open Scope ocx_scope.
Local Open Scope string_scope.

(** ** Tables *)

Lemma or_lower_None {A : Type} (x : option A) : or_lower x None = x.
Proof. by destruct x. Qed.
Lemma or_lower_assoc {A : Type} (x y z : option A) : or_lower (or_lower x y) z = or_lower x (or_lower y z).
Proof. by destruct x. Qed.
#[export] Hint Rewrite @or_lower_None : ocx.

Section Tables.
Context {A : Type} (f : A -> A -> A) (d : A).

(** The entry of a key, in a table that may be absent. *)
Definition entry_of (table : option (gmap string A)) (key : string) : option A := table ≫= fun t => t !! key.

Lemma fold_table (self other : gmap string A) key :
  map_fold (fun k entry table => <[k := f (default d (table !! k)) entry]> table) self other !! key =
  match other !! key with Some entry => Some (f (default d (self !! key)) entry) | None => self !! key end.
Proof.
  apply (map_fold_weak_ind (fun table other => table !! key = match other !! key with Some entry => Some (f (default d (self !! key)) entry) | None => self !! key end)).
  - by rewrite lookup_empty.
  - intros k x m table Hm IH. destruct (decide (k = key)) as [->|Hne].
    + rewrite !lookup_insert_eq. rewrite Hm in IH. by rewrite IH.
    + by rewrite !lookup_insert_ne.
Qed.
Lemma entry_merge_table self other key :
  entry_of (merge_table f d self other) key =
  match entry_of other key with Some entry => Some (f (default d (entry_of self key)) entry) | None => entry_of self key end.
Proof.
  destruct other as [other|]; [|done]. unfold entry_of at 1 2. simpl. rewrite fold_table. by destruct self; simpl; rewrite ?lookup_empty.
Qed.
Lemma entry_retain (p : A -> bool) (table : option (gmap string A)) key e :
  entry_of table key = Some e -> p e = true -> entry_of (retain_entries p table) key = Some e.
Proof.
  destruct table as [t|]; [|done]. simpl. intros He Hp. unfold retain_entries. simpl.
  assert (Hl : filter (fun entry : string * A => p (snd entry) = true) t !! key = Some e) by (by apply map_lookup_filter_Some).
  unfold keep_if. simpl. rewrite bool_decide_false; [done|]. intros Hem. by rewrite Hem, lookup_empty in Hl.
Qed.
End Tables.

(** ** What the system file enforces *)

Definition extra_ca_pair (c : Config) : option string * option string := (cf_extra_ca_certs c, cf_extra_ca_certs_pem c).
Definition sigstore_of (c : Config) : option SigstoreTrust := cf_trust c ≫= tc_sigstore.

(** Every lockable declaration of [sys] stands in [c], with nothing added to a locked entry;
    [fallback] is the index a registry has when the system file declares none, and the
    [managed] section only counts when [keep_managed]. *)
Record Enforces (fallback : string -> option string) (keep_managed : bool) (sys c : Config) : Prop := {
  en_registry : forall r, cf_registry sys = Some r -> cf_registry c = Some (registry_defaults_lock r);
  en_registries : forall k e, entry_of (cf_registries sys) k = Some e -> exists e', entry_of (cf_registries c) k = Some e' /\
    rc_system_locked e' = true /\ rc_index e' = or_lower (rc_index e) (fallback k) /\
    rc_trusted_hosts e' = rc_trusted_hosts e /\ rc_insecure e' = rc_insecure e;
  en_mirror_registry : forall k e url, entry_of (cf_mirrors sys) k = Some e -> mc_registry e = Some url -> exists e',
    entry_of (cf_mirrors c) k = Some e' /\ mc_registry e' = Some url /\ mc_registry_system_locked e' = true;
  en_mirror_index : forall k e url, entry_of (cf_mirrors sys) k = Some e -> mc_index e = Some url -> exists e',
    entry_of (cf_mirrors c) k = Some e' /\ mc_index e' = Some url /\ mc_index_system_locked e' = true;
  en_patches : forall p, cf_patches sys = Some p -> default DEFAULT_REQUIRED (pc_required p) = true -> cf_patches c = Some (patch_config_lock p);
  en_managed : keep_managed = true -> forall m, cf_managed sys = Some m -> default DEFAULT_REQUIRED (mg_required m) = true ->
    cf_managed c = Some (managed_config_lock m);
  en_policies : exists rest, trust_policies c = (map with_policy_lock (trust_policies sys) ++ rest)%list;
  en_sigstore : forall s, sigstore_of sys = Some s -> sigstore_of c = Some (lock_sigstore s);
  en_records : forall r, cf_records sys = Some r -> cf_records c = Some (records_lock r);
  en_extra_ca : sets_extra_ca_certs sys = true -> extra_ca_pair c = extra_ca_pair sys /\ cf_extra_ca_certs_system_locked c = true;
}.

Lemma patch_locked p : default DEFAULT_REQUIRED (pc_required p) = true -> pc_system_locked (patch_config_lock p) = true.
Proof. simpl. by intros ->. Qed.
Lemma managed_locked m : default DEFAULT_REQUIRED (mg_required m) = true -> mg_system_locked (managed_config_lock m) = true.
Proof. simpl. by intros ->. Qed.

Lemma merge_policies c other : trust_policies (config_merge c other) = (trust_policies c ++ trust_policies other)%list.
Proof. unfold trust_policies. simpl. destruct (cf_trust c), (cf_trust other); simpl; by rewrite ?app_nil_r. Qed.
Lemma merge_sigstore c other :
  sigstore_of (config_merge c other) =
  match sigstore_of other with
  | None => sigstore_of c
  | Some o => Some (match sigstore_of c with Some s => sigstore_merge s o | None => o end)
  end.
Proof. unfold sigstore_of. simpl. destruct (cf_trust c) as [t|], (cf_trust other) as [o|]; simpl; try done; repeat case_match; congruence. Qed.

(** A higher tier changes nothing of what is enforced. *)
Lemma enforces_merge fallback keep sys c other : Enforces fallback keep sys c -> Enforces fallback keep sys (config_merge c other).
Proof.
  intros [Hr Hrs Hmr Hmi Hp Hg Ht Hs Hrec Hca]. split.
  - intros r Hsys. simpl. rewrite (Hr r Hsys). by destruct (cf_registry other).
  - intros k e Hsys. destruct (Hrs k e Hsys) as (e' & He' & Hl & Hrest). exists e'. split; [|done].
    simpl. rewrite entry_merge_table, He'. destruct (entry_of (cf_registries other) k); [|done]. simpl. unfold registry_config_merge. by rewrite Hl.
  - intros k e url Hsys Hu. destruct (Hmr k e url Hsys Hu) as (e' & He' & Hreg & Hl). simpl. rewrite entry_merge_table, He'.
    destruct (entry_of (cf_mirrors other) k) as [o|]; [|by exists e']. eexists; split; [done|]. simpl. by rewrite Hl.
  - intros k e url Hsys Hu. destruct (Hmi k e url Hsys Hu) as (e' & He' & Hidx & Hl). simpl. rewrite entry_merge_table, He'.
    destruct (entry_of (cf_mirrors other) k) as [o|]; [|by exists e']. eexists; split; [done|]. simpl. by rewrite Hl.
  - intros p Hsys Hreq. simpl. rewrite (Hp p Hsys Hreq). destruct (cf_patches other); [|done]. simpl. unfold patch_config_merge. by rewrite patch_locked.
  - intros Hk m Hsys Hreq. simpl. rewrite (Hg Hk m Hsys Hreq). destruct (cf_managed other); [|done]. simpl. unfold managed_config_merge. by rewrite managed_locked.
  - destruct Ht as [rest Ht]. exists (rest ++ trust_policies other)%list. by rewrite merge_policies, Ht, app_assoc.
  - intros s Hsys. rewrite merge_sigstore, (Hs s Hsys). by destruct (sigstore_of other).
  - intros r Hsys. simpl. rewrite (Hrec r Hsys). by destruct (cf_records other).
  - intros Hset. destruct (Hca Hset) as [Hpair Hl]. unfold extra_ca_pair in *. simpl. by rewrite Hl.
Qed.

(** A tier below that declares nothing but registry indexes. *)
Definition OnlyIndexes (c : Config) : Prop :=
  cf_registry c = None /\ cf_mirrors c = None /\ cf_patches c = None /\ cf_managed c = None /\ cf_trust c = None /\ cf_records c = None /\
  cf_extra_ca_certs_system_locked c = false /\
  forall k e, entry_of (cf_registries c) k = Some e -> rc_system_locked e = false /\ rc_trusted_hosts e = None /\ rc_insecure e = None.
Definition index_of (c : Config) (k : string) : option string := entry_of (cf_registries c) k ≫= rc_index.

Lemma enforces_onto fallback keep sys c below : OnlyIndexes below -> Enforces fallback keep sys c ->
  Enforces (fun k => or_lower (fallback k) (index_of below k)) keep sys (config_merge below c).
Proof.
  intros (Br & Bm & Bp & Bg & Bt & Brec & Bca & Brs) [Hr Hrs Hmr Hmi Hp Hg Ht Hs Hrec Hca]. split.
  - intros r Hsys. simpl. by rewrite Br, (Hr r Hsys).
  - intros k e Hsys. destruct (Hrs k e Hsys) as (e' & He' & Hl & Hi & Hth & Hin). simpl. rewrite entry_merge_table, He'. eexists; split; [done|].
    unfold index_of. destruct (entry_of (cf_registries below) k) as [b|] eqn:Eb.
    + destruct (Brs k b Eb) as (Bl & Bth & Bin). unfold registry_config_merge. simpl. rewrite Bl, Bth, Bin. simpl.
      by rewrite !or_lower_None, Hi, or_lower_assoc.
    + unfold registry_config_merge. simpl. by rewrite !or_lower_None, Hi.
  - intros k e url Hsys Hu. destruct (Hmr k e url Hsys Hu) as (e' & He' & Hreg & Hl). simpl. rewrite entry_merge_table, He', Bm.
    eexists; split; [done|]. simpl. by rewrite Hreg.
  - intros k e url Hsys Hu. destruct (Hmi k e url Hsys Hu) as (e' & He' & Hidx & Hl). simpl. rewrite entry_merge_table, He', Bm.
    eexists; split; [done|]. simpl. by rewrite Hidx.
  - intros p Hsys Hreq. simpl. by rewrite Bp, (Hp p Hsys Hreq).
  - intros Hk m Hsys Hreq. simpl. by rewrite Bg, (Hg Hk m Hsys Hreq).
  - destruct Ht as [rest Ht]. exists rest. rewrite merge_policies, Ht. unfold trust_policies at 1. by rewrite Bt.
  - intros s Hsys. rewrite merge_sigstore, (Hs s Hsys). unfold sigstore_of. by rewrite Bt.
  - intros r Hsys. simpl. by rewrite Brec, (Hrec r Hsys).
  - intros Hset. destruct (Hca Hset) as [Hpair Hl]. unfold extra_ca_pair in *. simpl. rewrite Bca.
    assert (Hc : sets_extra_ca_certs c = true) by (unfold sets_extra_ca_certs in *; congruence || (injection Hpair as -> ->; done)). by rewrite Hc.
Qed.

Lemma retain_policies c : trust_policies (retain_system_locked_sections c) = List.filter tp_system_locked (trust_policies c).
Proof.
  unfold trust_policies. simpl. destruct (cf_trust c) as [t|]; [|done]. simpl. unfold keep_if at 1, retain_trust. simpl.
  destruct (_ || _) eqn:E; [done|]. apply orb_false_iff in E as [E _]. apply negb_false_iff, bool_decide_eq_true in E. by rewrite E.
Qed.
Lemma retain_sigstore c : sigstore_of (retain_system_locked_sections c) = keep_if sg_system_locked (sigstore_of c).
Proof.
  unfold sigstore_of. simpl. destruct (cf_trust c) as [t|]; [|done]. simpl. unfold retain_trust. simpl.
  destruct (keep_if sg_system_locked (tc_sigstore t)) as [s|]; unfold keep_if; simpl; [by rewrite orb_true_r|]. by destruct (_ || _).
Qed.
(** The filter of [OCX_NO_CONFIG] keeps what is enforced, but for the managed section. *)
Lemma enforces_retain fallback keep sys c : Enforces fallback keep sys c -> Enforces fallback false sys (retain_system_locked_sections c).
Proof.
  intros [Hr Hrs Hmr Hmi Hp Hg Ht Hs Hrec Hca]. split.
  - intros r Hsys. simpl. by rewrite (Hr r Hsys).
  - intros k e Hsys. destruct (Hrs k e Hsys) as (e' & He' & Hl & Hrest). exists e'. split; [|done]. by apply entry_retain.
  - intros k e url Hsys Hu. destruct (Hmr k e url Hsys Hu) as (e' & He' & Hreg & Hl). exists e'. split; [|done]. apply entry_retain; [done|]. by rewrite Hl.
  - intros k e url Hsys Hu. destruct (Hmi k e url Hsys Hu) as (e' & He' & Hidx & Hl). exists e'. split; [|done]. apply entry_retain; [done|]. by rewrite Hl, orb_true_r.
  - intros p Hsys Hreq. simpl. rewrite (Hp p Hsys Hreq). unfold keep_if. simpl. by rewrite Hreq.
  - done.
  - destruct Ht as [rest Ht]. exists (List.filter tp_system_locked rest). rewrite retain_policies, Ht, List.filter_app. f_equal.
    clear. induction (trust_policies sys) as [|p l IH]; [done|]. simpl. by rewrite IH.
  - intros s Hsys. by rewrite retain_sigstore, (Hs s Hsys).
  - intros r Hsys. simpl. by rewrite (Hrec r Hsys).
  - intros Hset. destruct (Hca Hset) as [Hpair Hl]. unfold extra_ca_pair in *. simpl. by rewrite Hl.
Qed.

(** ** The load *)

Section Load.
Context `{ConfigHost}.

Lemma anchor_sets c path : sets_extra_ca_certs (anchor_relative_paths c path) = sets_extra_ca_certs c.
Proof. unfold anchor_relative_paths. destruct (path_text_parent path); [|done]. unfold sets_extra_ca_certs. simpl. by destruct (cf_extra_ca_certs c). Qed.

Lemma anchor_policy_lock policy dir : anchor_relative_keys (with_policy_lock policy) dir = with_policy_lock (anchor_relative_keys policy dir).
Proof. done. Qed.
Lemma anchor_root_lock s dir : anchor_relative_root (lock_sigstore s) dir = lock_sigstore (anchor_relative_root s dir).
Proof. unfold anchor_relative_root. simpl. by destruct (sg_trusted_root s). Qed.

(** The system file as it enters the merge enforces itself. *)
Lemma enforces_self parsed path tier :
  let sys := anchor_relative_paths parsed path in
  Enforces (fun _ => None) true sys
    (stamp_shell_tier (anchor_relative_paths (apply_system_locks (with_update (set_origin path <$> cf_update parsed) parsed)) path) tier).
Proof.
  intros sys. unfold sys, anchor_relative_paths. destruct (path_text_parent path) as [dir|]; (split; simpl).
  all: try (intros r ->; done).
  all: try (intros k e He; destruct (cf_registries parsed) as [t|]; [|done]; simpl in *; rewrite lookup_fmap, He; eexists; split; [done|]; by rewrite or_lower_None).
  all: try (intros k e url He Hu; destruct (cf_mirrors parsed) as [t|]; [|done]; simpl in *; rewrite lookup_fmap, He; eexists; split; [done|]; simpl; by rewrite Hu).
  all: try (intros p -> _; done).
  all: try (intros _ m -> _; done).
  - exists []. rewrite app_nil_r. unfold trust_policies. simpl. destruct (cf_trust parsed) as [t|]; [|done]. simpl. by rewrite !map_map.
  - intros s. unfold sigstore_of. simpl. destruct (cf_trust parsed) as [t|]; [|done]. simpl. destruct (tc_sigstore t); [|done]. simpl.
    intros [= <-]. by rewrite anchor_root_lock.
  - intros r. destruct (cf_records parsed); [|done]. by intros [= <-].
  - unfold sets_extra_ca_certs, extra_ca_pair. simpl. destruct (cf_extra_ca_certs parsed); done.
  - exists []. rewrite app_nil_r. unfold trust_policies. simpl. by destruct (cf_trust parsed).
  - intros s. unfold sigstore_of. simpl. destruct (cf_trust parsed) as [t|]; [|done]. simpl. by intros ->.
  - by intros Hset.
Qed.

Lemma path_eq_refl path : path_eq path path = true.
Proof. unfold path_eq. by rewrite eqb_reflx, bool_decide_true. Qed.

Lemma load_one_system c : load_one system_path = Ok c -> exists text parsed,
  read_config system_path = Ok text /\ parse_config_stripping_refused_consent text system_path = Ok parsed /\
  Enforces (fun _ => None) true (anchor_relative_paths parsed system_path) c.
Proof.
  unfold load_one. destruct (read_config system_path) as [text|]; [|done]. simpl.
  destruct (parse_config_stripping_refused_consent text system_path) as [parsed|] eqn:Hparse; [|done]. simpl. rewrite path_eq_refl.
  destruct (guard_extra_ca_certs_ambiguity _ _) as [[]|]; [|done]. cbn [result_bind]. intros [= <-]. exists text, parsed. split_and!; [done..|]. apply enforces_self.
Qed.
Lemma load_rest_enforces fallback keep sys paths c tier c' tier' :
  load_and_merge_recording paths c tier = Ok (c', tier') -> Enforces fallback keep sys c -> Enforces fallback keep sys c'.
Proof.
  revert c tier. induction paths as [|path paths IH]; intros c tier; simpl; [by intros [= -> _]|].
  destruct (load_one path) as [parsed|]; [|done]. simpl. intros Hl He. apply (IH _ _ Hl). by apply enforces_merge.
Qed.
Lemma config_default_blank : OnlyIndexes config_default.
Proof. by split_and!. Qed.
Lemma builtin_blank : OnlyIndexes builtin_defaults.
Proof.
  split_and!; try done. intros k e He. cbn in He. by apply lookup_singleton_Some in He as [<- <-].
Qed.
(** The index a registry falls back to when the system file declares none. *)
Definition compiled_index (k : string) : option string := index_of builtin_defaults k.

Lemma enforces_ext fallback fallback' keep sys c : (forall k, fallback k = fallback' k) -> Enforces fallback keep sys c -> Enforces fallback' keep sys c.
Proof. intros Hf [? Hrs ? ? ? ? ? ? ? ?]. split; try done. intros k e He. rewrite <- Hf. by apply Hrs. Qed.
Lemma enforces_drop_managed fallback keep sys c : Enforces fallback true sys c -> Enforces fallback keep sys c.
Proof. intros [? ? ? ? ? Hg ? ? ? ?]. split; try done. intros _. by apply Hg. Qed.

Lemma candidates_system rest kept : existing_candidates (system_path :: rest) = Ok kept ->
  symlink_metadata system_path = Err IoNotFound \/ exists rest', kept = system_path :: rest'.
Proof.
  simpl. rewrite path_eq_refl. destruct (symlink_metadata system_path) as [[]|[]]; try done; try by left.
  all: destruct (existing_candidates rest) as [rest'|]; [|done]; intros [= <-]; right; by exists rest'.
Qed.

Lemma base_enforces paths c tier :
  load_and_merge_recording (system_path :: paths) config_default None = Ok (c, tier) -> exists text parsed,
  read_config system_path = Ok text /\ parse_config_stripping_refused_consent text system_path = Ok parsed /\
  let sys := anchor_relative_paths parsed system_path in
  Enforces (fun _ => None) true sys c /\
  Enforces compiled_index true sys (config_merge builtin_defaults c) /\
  Enforces compiled_index false sys (config_merge builtin_defaults (retain_system_locked_sections c)).
Proof.
  simpl. destruct (load_one system_path) as [p|] eqn:Hp; [|done]. simpl. intros Hl. destruct (load_one_system p Hp) as (text & parsed & Hr & Hparse & He).
  exists text, parsed. split_and!; [done..| | |].
  all: assert (Hc : Enforces (fun _ => None) true (anchor_relative_paths parsed system_path) c)
    by (apply (load_rest_enforces _ _ _ _ _ _ _ _ Hl); apply (enforces_onto _ _ _ _ config_default config_default_blank) in He;
        by apply (enforces_ext _ (fun _ => None)) in He).
  - done.
  - apply (enforces_onto _ _ _ _ builtin_defaults builtin_blank) in Hc. by apply (enforces_ext _ compiled_index) in Hc.
  - apply enforces_retain, (enforces_onto _ _ _ _ builtin_defaults builtin_blank) in Hc. by apply (enforces_ext _ compiled_index) in Hc.
Qed.

Lemma fold_managed_cases acc local : mf_config (fold_managed_tier acc local) = acc \/
  exists source payload p, managed_contribution source payload = Ok p /\ mf_config (fold_managed_tier acc local) = config_merge acc p /\
    mf_state (fold_managed_tier acc local) = Applied /\ (rg_source <$> mf_resolved (fold_managed_tier acc local)) = Some source.
Proof.
  unfold fold_managed_tier. destruct (resolve_target _ _) as [[resolved|]|]; try by left. destruct managed_snapshot as [snapshot|]; [|by left].
  destruct (negb _); [by left|]. destruct (managed_contribution _ _) as [p|] eqn:E; [|by left]. right. by exists (rg_source resolved), (sn_config snapshot), p.
Qed.

(** C34: The system file's locks hold through a whole load. Whenever the configuration loads,
    the system file is absent or it was read and parsed, and every registry, registry entry,
    mirror role, required patch tier, required managed tier (unless [OCX_NO_CONFIG] is set),
    trust policy, Sigstore table, record sink and extra-CA pair it declares stands unchanged in
    the merged configuration and in the local view, whatever the user, home, managed and explicit
    tiers say; a system file that exists but cannot be consulted is never skipped. *)
Theorem system_locks_hold (explicit_path explicit_project_path cwd : option string) (lc : LoadedConfig) :
  load_with_local_view explicit_path explicit_project_path cwd = Ok lc ->
  symlink_metadata system_path = Err IoNotFound \/
  exists text parsed, read_config system_path = Ok text /\ parse_config_stripping_refused_consent text system_path = Ok parsed /\
    let sys := anchor_relative_paths parsed system_path in
    Enforces compiled_index (negb env_no_config) sys (lc_merged lc) /\ Enforces compiled_index (negb env_no_config) sys (lc_local_only lc).
Proof.
  unfold load_with_local_view. destruct (project_path cwd explicit_project_path); [|done]. cbn [result_bind].
  destruct (if env_no_config then _ else _) as [discovered|] eqn:Hd; [|done]. cbn [result_bind].
  destruct (load_and_merge_recording discovered config_default None) as [[c tier]|] eqn:Hc; [|done]. cbn [result_bind].
  destruct (load_and_merge_recording (option_list _ ++ _) config_default None) as [[overlay otier]|]; [|done]. cbn [result_bind]. intros Hlc. injection Hlc as Hlc. subst lc. cbn [lc_merged lc_local_only].
  assert (Hsys : symlink_metadata system_path = Err IoNotFound \/ exists rest', discovered = system_path :: rest').
  { destruct env_no_config; [by apply candidates_system in Hd|]. unfold discover_paths, tier_candidates in Hd. by apply candidates_system in Hd. }
  destruct Hsys as [Hno|[rest' ->]]; [by left|right]. destruct (base_enforces _ _ _ Hc) as (text & parsed & Hr & Hp & He0 & He1 & He2).
  exists text, parsed. split_and!; [done..| |].
  all: set (base := config_merge builtin_defaults _).
  all: assert (Hb : Enforces compiled_index (negb env_no_config) (anchor_relative_paths parsed system_path) base) by (unfold base; by destruct env_no_config).
  - apply enforces_merge. destruct (fold_managed_cases base (config_merge base overlay)) as [->|(? & ? & p & _ & -> & _)]; [done|by apply enforces_merge].
  - by apply enforces_merge.
Qed.

(** ** The managed payload *)

Definition consent_of (c : Config) : option ShellConsent := cf_shell c ≫= sh_consent.
(** The namespaces and the directories a configuration activates. *)
Definition Consents (c : Config) (source : string) : Prop :=
  exists spec, (consent_of c ≫= sc_namespaces) = Some spec /\ scope_matches spec source = true.
Definition consent_paths (c : Config) : list string := default [] (sc_paths <$> consent_of c).

Lemma extend_unique_In target additions x : In x (extend_unique target additions) <-> In x target \/ In x additions.
Proof.
  unfold extend_unique. revert target. induction additions as [|a l IH]; intros target; simpl; [tauto|]. rewrite IH.
  destruct (existsb (String.eqb a) target) eqn:E.
  - apply existsb_exists in E as (y & Hy & ->%String.eqb_eq). split; [tauto|]. intros [?|[->|?]]; tauto.
  - rewrite in_app_iff. simpl. tauto.
Qed.
Definition covers (patterns : list string) (source : string) : bool := existsb (fun pattern => pattern_matches pattern source) patterns.
Lemma covers_extend target additions source : covers (extend_unique target additions) source = covers target source || covers additions source.
Proof.
  apply eq_true_iff_eq. unfold covers. rewrite orb_true_iff, !existsb_exists. setoid_rewrite extend_unique_In. split.
  - intros (x & [?|?] & ?); [left|right]; by exists x.
  - intros [(x & ? & ?)|(x & ? & ?)]; exists x; auto.
Qed.
Lemma scope_matches_spec spec source : scope_matches spec source =
  (bool_decide (consent_include spec = []) || covers (consent_include spec) source) && negb (covers (consent_exclude spec) source).
Proof. destruct spec; simpl; [|done]. by rewrite orb_false_r, andb_true_r. Qed.
Lemma extend_unique_nil target additions : extend_unique target additions = [] <-> target = [] /\ additions = [].
Proof.
  split; [|by intros [-> ->]]. intros Hn. split.
  - destruct target as [|x l]; [done|]. assert (Hx : In x (extend_unique (x :: l) additions)) by (apply extend_unique_In; by left; left). by rewrite Hn in Hx.
  - destruct additions as [|x l]; [done|]. assert (Hx : In x (extend_unique target (x :: l))) by (apply extend_unique_In; by right; left). by rewrite Hn in Hx.
Qed.

(** A specification that carves out what it includes grants nothing, alone or accumulated. *)
Lemma carve_grants_nothing carve source : carve <> [] -> scope_matches (ScopeSet carve carve) source = false.
Proof. intros Hne. rewrite scope_matches_spec. simpl. rewrite bool_decide_false by done. by destruct (covers carve source). Qed.
Lemma carve_narrows spec carve source : carve <> [] -> scope_matches (accumulate spec (ScopeSet carve carve)) source = true -> scope_matches spec source = true.
Proof.
  intros Hne. rewrite !scope_matches_spec. simpl. rewrite !covers_extend.
  rewrite (bool_decide_false (extend_unique _ _ = [])) by (intros Hn; apply extend_unique_nil in Hn as [_ ?]; done).
  destruct (covers (consent_include spec) source), (covers (consent_exclude spec) source), (covers carve source); simpl; try done; intros; by rewrite orb_true_r.
Qed.

Lemma managed_parts source payload p : managed_contribution source payload = Ok p -> exists parsed,
  p = stamp_shell_tier (guard_managed_shell_consent (guard_managed_sigstore_trust (with_update None (with_managed None parsed)) source) source) TierManaged.
Proof. unfold managed_contribution. destruct (parse_config_stripping_refused_consent _ _) as [parsed|]; [|done]. intros [= <-]. by exists parsed. Qed.

Lemma guard_consent_other c source :
  let c' := guard_managed_shell_consent c source in
  cf_managed c' = cf_managed c /\ cf_update c' = cf_update c /\ cf_trust c' = cf_trust c /\ extra_ca_pair c' = extra_ca_pair c.
Proof. unfold guard_managed_shell_consent. destruct (source_pinned source), (cf_shell c) as [sh|]; try done. by destruct (sh_consent sh). Qed.

(** What an unpinned payload says of consent: nothing, or a carve-out. *)
Lemma unpinned_consent source payload p : managed_contribution source payload = Ok p -> source_pinned source = false ->
  consent_of p = None \/ exists carve, carve <> [] /\ consent_of p = Some (mkShellConsent [] (Some (ScopeSet carve carve))).
Proof.
  intros Hp Hu. destruct (managed_parts _ _ _ Hp) as [parsed ->]. unfold consent_of. simpl. unfold guard_managed_shell_consent. rewrite Hu. simpl.
  destruct (cf_shell parsed) as [sh|] eqn:Es; simpl; [|left; by rewrite Es]. destruct (sh_consent sh) as [consent|] eqn:E; simpl; [|left; rewrite Es; simpl; by rewrite E].
  destruct (default [] _) as [|x l]; [by left|right]. by exists (x :: l).
Qed.
Definition namespaces_of (c : Config) : option ScopeSpec := consent_of c ≫= sc_namespaces.
Lemma merge_namespaces c other : namespaces_of (config_merge c other) =
  match namespaces_of other with
  | Some o => Some (match namespaces_of c with Some n => accumulate n o | None => o end)
  | None => namespaces_of c
  end.
Proof.
  unfold namespaces_of, consent_of. simpl. destruct (cf_shell c) as [s|], (cf_shell other) as [o|]; simpl; try done.
  - destruct (sh_consent o) as [oc|]; [|done]. simpl. destruct (sc_namespaces oc); [|by destruct (sh_consent s)]. by destruct (sh_consent s).
  - destruct (sh_consent o) as [oc|]; [|done]. simpl. by destruct (sc_namespaces oc).
Qed.
Lemma merge_consent_paths c other path : In path (consent_paths (config_merge c other)) <-> In path (consent_paths c) \/ In path (consent_paths other).
Proof.
  unfold consent_paths, consent_of. simpl. destruct (cf_shell c) as [s|], (cf_shell other) as [o|]; simpl; try tauto.
  destruct (sh_consent o) as [oc|]; simpl; [|tauto]. rewrite extend_unique_In. by destruct (sh_consent s).
Qed.

(** The Sigstore values an unpinned payload may not set. *)
Definition sigstore_roots (c : Config) : list (option string) :=
  map (fun f => sigstore_of c ≫= f) [sg_trusted_root; sg_trusted_root_json; sg_fulcio_url; sg_rekor_url].
Definition names_key_file (signer : SignerSpec) : bool := match signer with Key matcher => bool_decide (is_Some (ky_key matcher)) | _ => false end.

Lemma managed_trust source payload p : managed_contribution source payload = Ok p ->
  (forall policy signer, In policy (trust_policies p) -> In signer (tp_signers policy) -> names_key_file signer = false) /\
  cf_managed p = None /\ cf_update p = None /\ cf_extra_ca_certs p = None /\
  (forall s, sigstore_of p = Some s -> sg_trusted_root s = None /\
     (source_pinned source = false -> sg_trusted_root_json s = None /\ sg_fulcio_url s = None /\ sg_rekor_url s = None)).
Proof.
  intros Hp. destruct (managed_parts _ _ _ Hp) as [parsed ->].
  set (guarded := guard_managed_sigstore_trust _ source). destruct (guard_consent_other guarded source) as (Hm & Hup & Ht & Hca).
  unfold trust_policies, sigstore_of. simpl. rewrite Hm, Hup, Ht. injection Hca as -> _. unfold guarded. simpl. split_and!; try done.
  - intros policy signer. destruct (cf_trust parsed) as [t|]; [|done]. simpl. intros Hin Hs. apply in_map_iff in Hin as (q & <- & _). simpl in Hs.
    apply in_map_iff in Hs as (s & <- & _). destruct s as [k|[[k|] [pem|]]|]; done.
  - intros s. destruct (cf_trust parsed) as [t|]; [|done]. simpl. destruct (tc_sigstore t) as [s0|]; [|done]. intros [= <-]. simpl. split; [done|]. by intros ->.
Qed.

Lemma merge_sigstore_roots c p : (forall s, sigstore_of p = Some s -> sg_trusted_root s = None /\ sg_trusted_root_json s = None /\ sg_fulcio_url s = None /\ sg_rekor_url s = None) ->
  sigstore_roots (config_merge c p) = sigstore_roots c.
Proof.
  intros Hp. unfold sigstore_roots. rewrite merge_sigstore. destruct (sigstore_of p) as [o|] eqn:Eo; [|done]. destruct (Hp o eq_refl) as (H1 & H2 & H3 & H4).
  simpl. destruct (sigstore_of c) as [s|]; simpl; [|by rewrite H1, H2, H3, H4]. unfold sigstore_merge. rewrite H1, H2, H3, H4. by destruct (sg_system_locked s).
Qed.
Lemma unpinned_narrows c p : (consent_of p = None \/ exists carve, carve <> [] /\ consent_of p = Some (mkShellConsent [] (Some (ScopeSet carve carve)))) ->
  (forall source, Consents (config_merge c p) source -> Consents c source) /\ (forall path, In path (consent_paths (config_merge c p)) -> In path (consent_paths c)).
Proof.
  intros Hp. split.
  - intros source (spec & Hspec & Hm). fold (namespaces_of (config_merge c p)) in Hspec. rewrite merge_namespaces in Hspec.
    unfold Consents. fold (namespaces_of c). destruct Hp as [Hp|(carve & Hne & Hp)].
    + replace (namespaces_of p) with (@None ScopeSpec) in Hspec by (unfold namespaces_of; by rewrite Hp). by exists spec.
    + replace (namespaces_of p) with (Some (ScopeSet carve carve)) in Hspec by (unfold namespaces_of; by rewrite Hp). destruct (namespaces_of c) as [n|]; simplify_eq.
      * exists n. split; [done|]. by apply carve_narrows in Hm.
      * by rewrite carve_grants_nothing in Hm.
  - intros path. rewrite merge_consent_paths. intros [?|Hin]; [done|]. unfold consent_paths in Hin. by destruct Hp as [Hp|(? & _ & Hp)]; rewrite Hp in Hin.
Qed.

(** A managed payload can do only what it is entitled to. The fold leaves the accumulated
    configuration alone unless it reports the snapshot as applied; it never changes the managed
    or the update section, adds no policy that names a key file and sets no extra-CA path; and
    when the source is not pinned to a digest, the payload cannot set a Sigstore root or endpoint
    and cannot activate a namespace or a directory that was not activated before. *)
Theorem managed_payload_bounded (acc local : Config) :
  let fold := fold_managed_tier acc local in
  (mf_state fold <> Applied -> mf_config fold = acc) /\
  cf_managed (mf_config fold) = cf_managed acc /\ cf_update (mf_config fold) = cf_update acc /\
  (cf_extra_ca_certs (mf_config fold) = cf_extra_ca_certs acc \/ cf_extra_ca_certs (mf_config fold) = None) /\
  (exists added, trust_policies (mf_config fold) = (trust_policies acc ++ added)%list /\
     forall policy signer, In policy added -> In signer (tp_signers policy) -> names_key_file signer = false) /\
  (forall source, (rg_source <$> mf_resolved fold) = Some source -> source_pinned source = false ->
     sigstore_roots (mf_config fold) = sigstore_roots acc /\
     (forall namespace, Consents (mf_config fold) namespace -> Consents acc namespace) /\
     (forall path, In path (consent_paths (mf_config fold)) -> In path (consent_paths acc))).
Proof.
  intros fold. unfold fold. destruct (fold_managed_cases acc local) as [->|(source & payload & p & Hp & -> & Hstate & Hsource)].
  - split_and!; try done; [by left|exists []; split; [by rewrite app_nil_r|done]].
  - destruct (managed_trust _ _ _ Hp) as (Hkeys & Hm & Hup & Hca & Hsig). rewrite Hsource, Hstate. simpl. rewrite Hm, Hup, Hca. split_and!; try done.
    + destruct (_ && _); [by right|by left].
    + exists (trust_policies p). split; [apply merge_policies|done].
    + intros ? [= <-] Hu. split; [|apply unpinned_narrows, (unpinned_consent _ _ _ Hp Hu)]. apply merge_sigstore_roots. intros s Hs. destruct (Hsig s Hs) as [? Hrest]. split; [done|by apply Hrest].
Qed.
End Load.

(** ** Consent over the tiers *)

Definition excludes_of (tier : ShellConsent) : list string := default [] (consent_exclude <$> sc_namespaces tier).
Definition includes_of (tier : ShellConsent) : list string := default [] (consent_include <$> sc_namespaces tier).
(** What parsing guarantees: no table without an [include]. *)
Definition consent_wf (tier : ShellConsent) : Prop := forall spec, sc_namespaces tier = Some spec -> consent_include spec <> [].
Definition grants (tier : ShellConsent) (source : string) : bool := match sc_namespaces tier with Some spec => scope_matches spec source | None => false end.

Lemma grants_exact tier source : consent_wf tier -> grants tier source = covers (includes_of tier) source && negb (covers (excludes_of tier) source).
Proof.
  intros Hwf. unfold grants, includes_of, excludes_of. destruct (sc_namespaces tier) as [spec|] eqn:E; [|done]. simpl. rewrite scope_matches_spec.
  by rewrite bool_decide_false by (by apply Hwf).
Qed.
Lemma merge_wf self other : consent_wf self -> consent_wf other -> consent_wf (shell_consent_merge self other).
Proof.
  intros Hs Ho spec. simpl. destruct (sc_namespaces other) as [o|] eqn:Eo; [|by apply Hs]. intros [= <-]. destruct (sc_namespaces self) as [n|] eqn:En; [|by apply Ho].
  simpl. intros Hn. apply extend_unique_nil in Hn as [Hn _]. by apply (Hs n).
Qed.
Lemma covers_merge_include self other source : covers (includes_of (shell_consent_merge self other)) source = covers (includes_of self) source || covers (includes_of other) source.
Proof. unfold includes_of. simpl. destruct (sc_namespaces other), (sc_namespaces self); simpl; rewrite ?covers_extend, ?orb_false_r; done. Qed.
Lemma covers_merge_exclude self other source : covers (excludes_of (shell_consent_merge self other)) source = covers (excludes_of self) source || covers (excludes_of other) source.
Proof. unfold excludes_of. simpl. destruct (sc_namespaces other), (sc_namespaces self); simpl; rewrite ?covers_extend, ?orb_false_r; done. Qed.

Lemma fold_consent tiers acc source : consent_wf acc -> Forall consent_wf tiers ->
  let merged := fold_left shell_consent_merge tiers acc in
  consent_wf merged /\
  covers (includes_of merged) source = covers (includes_of acc) source || existsb (fun tier => covers (includes_of tier) source) tiers /\
  covers (excludes_of merged) source = covers (excludes_of acc) source || existsb (fun tier => covers (excludes_of tier) source) tiers /\
  forall path, In path (sc_paths merged) <-> In path (sc_paths acc) \/ exists tier, In tier tiers /\ In path (sc_paths tier).
Proof.
  revert acc. induction tiers as [|tier tiers IH]; intros acc Hacc Hall; simpl.
  - rewrite !orb_false_r. split_and!; try done. intros path. split; [by left|]. by intros [?|(? & [] & _)].
  - apply Forall_cons in Hall as [Ht Hall]. destruct (IH (shell_consent_merge acc tier) (merge_wf _ _ Hacc Ht) Hall) as (Hw & Hi & He & Hp).
    split_and!; [done| | |].
    + by rewrite Hi, covers_merge_include, orb_assoc.
    + by rewrite He, covers_merge_exclude, orb_assoc.
    + intros path. rewrite Hp. simpl. rewrite extend_unique_In. split; [|naive_solver].
      intros [[?|?]|(t & ? & ?)]; [by left| |]; right; [exists tier|exists t]; auto.
Qed.

(** Consent over the tiers: the merged table activates a namespace exactly when some tier
    includes it and no tier, higher or lower, excludes it, and a directory exactly when some tier
    lists it; so an exclusion can never be undone by another tier and the order of the tiers
    does not matter. *)
Theorem consent_tiers_exact (tiers : list ShellConsent) (source path : string) :
  Forall consent_wf tiers ->
  let merged := fold_left shell_consent_merge tiers shell_consent_default in
  (grants merged source = true <->
   (exists tier, In tier tiers /\ covers (includes_of tier) source = true) /\
   (forall tier, In tier tiers -> covers (excludes_of tier) source = false)) /\
  (In path (sc_paths merged) <-> exists tier, In tier tiers /\ In path (sc_paths tier)).
Proof.
  intros Hall merged. assert (H0 : consent_wf shell_consent_default) by done. destruct (fold_consent tiers _ source H0 Hall) as (Hw & Hi & He & Hp). split.
  - unfold merged. rewrite grants_exact by done. rewrite Hi, He. change (covers (includes_of _) source) with false at 1. change (covers (excludes_of _) source) with false at 1. cbn [orb]. rewrite andb_true_iff, negb_true_iff, existsb_exists. split.
    + intros [(t & ? & ?) Hno]. split; [by exists t|]. intros tier Ht. exact (existsb_false_In (fun tier => covers (excludes_of tier) source) tiers tier Hno Ht).
    + intros [(t & ? & ?) Hno]. split; [by exists t|]. apply not_true_is_false. intros E. apply existsb_exists in E as (x & Hx & Hc). by rewrite (Hno x Hx) in Hc.
  - unfold merged. rewrite Hp. split; [by intros [[]|?]|by right].
Qed.
