(* ===== verification/ConfigRules.v ===== *)
(** * Configuration: the rules of the single sections

    A consent pattern names one organisation, plain HTTP is allowed exactly where declared and
    never against a system refusal, a locked managed source cannot be redirected, the project
    file found is the nearest one, and a mirrored host is never reached directly. *)

From stdpp Require Import base decidable list option numbers strings gmap.
From Stdlib Require Import Ascii Lia.
From S2P Require Import Prelude OMap Text TextSearch PackageRef Client Trust Config ConfigLoad ConfigSpec.
Local Open Scope ocx_scope.
Local Open Scope string_scope.

(** ** Consent patterns *)

Lemma count_char_app c a b : count_char c (a +:+ b) = (count_char c a + count_char c b)%nat.
Proof. induction a as [|d a IH]; simpl; [done|]. rewrite IH. lia. Qed.
Lemma count_char_zero c s : count_char c s = 0%nat -> str_mem c s = false.
Proof. induction s as [|d s IH]; simpl; [done|]. destruct (Ascii.eqb c d) eqn:E; [done|]. intros Hs. rewrite IH by done. rewrite orb_false_r. by rewrite ?Ascii.eqb_sym, ?E. Qed.
Lemma substring_prefix a b : String.substring 0 (String.length a) (a +:+ b) = a.
Proof. induction a as [|c a IH]; simpl; [by destruct b|]. by rewrite IH. Qed.

(** What a pattern that validates is made of. *)
Lemma consent_pattern_shape pattern body : normalize_consent_pattern pattern = Ok body ->
  exists host org, body = host +:+ "/" +:+ org /\ str_mem "/" host = false /\ str_mem "/" org = false /\ str_mem "*" body = false /\
    (pattern = body \/ pattern = body +:+ "/*").
Proof.
  unfold normalize_consent_pattern, validate_consent_pattern.
  destruct (String.eqb pattern ""); [done|]. destruct (negb (str_forall _ pattern)); [done|]. destruct (str_mem "@" pattern); [done|].
  destruct (_ || _) eqn:Hw; [done|]. apply orb_false_iff in Hw as [Hcount Hstar]. apply Nat.ltb_ge in Hcount.
  destruct (existsb _ _); [done|].
  set (trimmed := if str_ends_with "/*" pattern then _ else pattern).
  assert (Hbody : default pattern (strip_suffix "/*" pattern) = trimmed /\ str_mem "*" trimmed = false /\ (pattern = trimmed \/ pattern = trimmed +:+ "/*")).
  { unfold trimmed, str_ends_with in *. destruct (strip_suffix "/*" pattern) as [b|] eqn:Es; simpl in *.
    - apply strip_suffix_Some in Es. rewrite Es in Hcount |- *. rewrite count_char_app in Hcount. simpl in Hcount.
      rewrite str_length_app. simpl. replace (String.length b + 2 - 2)%nat with (String.length b) by lia. rewrite substring_prefix.
      split_and!; [done| |by right]. apply count_char_zero. lia.
    - rewrite andb_true_r in Hstar. split_and!; [done..|by left]. }
  destruct Hbody as (-> & Hnostar & Hp).
  destruct (split_char "/" trimmed) as [|host [|org [|x l]]] eqn:Esplit; try done.
  destruct (validate_repository org); [|done]. simpl. intros [= <-]. exists host, org.
  split_and!; try done.
  - rewrite <- (join_split_char "/" trimmed), Esplit. done.
  - apply (split_char_pieces "/" trimmed). rewrite Esplit. by left.
  - apply (split_char_pieces "/" trimmed). rewrite Esplit. by right; left.
Qed.

(** A consent pattern that validates grants exactly one organisation of one registry: a
    two-component source is covered only when its registry and its organisation are the
    pattern's, in either spelling (with or without the trailing [/*]), so no look-alike
    organisation is ever admitted. *)
Theorem consent_pattern_one_organisation (pattern body host org : string) :
  normalize_consent_pattern pattern = Ok body -> str_mem "/" host = false -> str_mem "/" org = false ->
  (pattern_matches body (host +:+ "/" +:+ org) = true <-> body = host +:+ "/" +:+ org) /\
  (pattern = body \/ pattern = body +:+ "/*").
Proof.
  intros Hn Hh Ho. destruct (consent_pattern_shape _ _ Hn) as (h & o & -> & Hmh & Hmo & Hns & Hp). split; [|done].
  unfold pattern_matches. destruct (String.eqb_spec (h +:+ "/" +:+ o) "") as [E|_]; [by destruct h|].
  apply split_once_None in Hns. rewrite Hns. rewrite orb_true_iff, String.eqb_eq. split; [|intros <-; by left].
  intros [<-|Hs]; [done|]. exfalso. apply starts_with_true in Hs as [r Hr].
  rewrite !str_app_assoc in Hr. simpl in Hr.
  assert (Hs : split_once "/" (host +:+ String "/" org) = split_once "/" (h +:+ String "/" (o +:+ String "/" r))) by (by f_equal).
  rewrite !split_once_app in Hs by done. injection Hs as _ ->. rewrite str_mem_app in Ho. simpl in Ho. by rewrite orb_true_r in Ho.
Qed.

(** ** Plain HTTP *)

Lemma registries_In c name entry : In (name, entry) (config_registries c) <-> default ∅ (cf_registries c) !! name = Some entry.
Proof. unfold config_registries. rewrite <- list_elem_of_In. apply elem_of_map_to_list. Qed.

Lemma insecure_fold c env hosts h :
  In h (fold_left (fun hosts host => if system_locked_shut c host || existsb (String.eqb host) hosts then hosts else hosts ++ [host])%list env hosts) <->
  In h hosts \/ (In h env /\ system_locked_shut c h = false).
Proof.
  revert hosts. induction env as [|e env IH]; intros hosts; simpl; [tauto|]. rewrite IH. destruct (system_locked_shut c e) eqn:Es; simpl.
  - split; [tauto|]. intros [?|[[->|?] ?]]; [tauto|congruence|tauto].
  - destruct (existsb (String.eqb e) hosts) eqn:Ee.
    + apply existsb_exists in Ee as (x & Hx & ->%String.eqb_eq). split; [tauto|]. intros [?|[[->|?] ?]]; tauto.
    + rewrite in_app_iff. simpl. split; [intros [[?|[->|[]]]|?]; tauto|]. intros [?|[[->|?] ?]]; tauto.
Qed.
Lemma insecure_nodup c env hosts : List.NoDup hosts ->
  List.NoDup (fold_left (fun hosts host => if system_locked_shut c host || existsb (String.eqb host) hosts then hosts else hosts ++ [host])%list env hosts).
Proof.
  revert hosts. induction env as [|e env IH]; intros hosts Hnd; simpl; [done|]. apply IH. destruct (_ || _) eqn:E; [done|].
  apply orb_false_iff in E as [_ E]. apply List.NoDup_app; [done|repeat constructor; by intros []|].
  intros x Hx [<-|[]]. pose proof (existsb_false_In (String.eqb e) hosts e E Hx) as Hq. by rewrite String.eqb_refl in Hq.
Qed.
Lemma filter_names_nodup {A : Type} (p : string * A -> bool) (l : list (string * A)) : List.NoDup (map fst l) -> List.NoDup (map fst (List.filter p l)).
Proof.
  induction l as [|[k v] l IH]; simpl; [done|]. intros Hnd. inversion Hnd as [|? ? Hn Hl]; subst. destruct (p (k, v)); [|by apply IH]. simpl. constructor; [|by apply IH].
  intros Hin. apply Hn. apply in_map_iff in Hin as (x & Hx & Hin). apply filter_In in Hin as [Hin _]. apply in_map_iff. by exists x.
Qed.

(** Plain HTTP is allowed exactly where it is declared: a host is in the list exactly when
    its registry entry says [insecure = true] or the environment names it, and no system-locked
    entry that says [insecure = false] denotes the same host, whatever the case of the name and
    the spelling of the port; no host is listed twice. *)
Theorem insecure_hosts_exact (config : Config) (env : list string) (host : string) :
  (In host (insecure_hosts config env) <->
   ((exists entry, default ∅ (cf_registries config) !! host = Some entry /\ rc_insecure entry = Some true) \/ In host env) /\
   (forall name entry, default ∅ (cf_registries config) !! name = Some entry -> rc_system_locked entry = true -> rc_insecure entry = Some false ->
      normalize_registry_name name <> normalize_registry_name host)) /\
  List.NoDup (insecure_hosts config env).
Proof.
  assert (Hshut : system_locked_shut config host = false <->
    (forall name entry, default ∅ (cf_registries config) !! name = Some entry -> rc_system_locked entry = true -> rc_insecure entry = Some false ->
      normalize_registry_name name <> normalize_registry_name host)).
  { unfold system_locked_shut. split.
    - intros Hf name entry He Hl Hi Hn. apply registries_In in He. pose proof (existsb_false_In _ _ _ Hf He) as Hc. simpl in Hc.
      rewrite Hl, bool_decide_true in Hc by done. unfold same_registry_name in Hc. by rewrite Hn, String.eqb_refl in Hc.
    - intros Hall. apply not_true_is_false. intros Ht. apply existsb_exists in Ht as ((name & entry) & Hin & Ht).
      apply andb_true_iff in Ht as [[Hl Hi%bool_decide_eq_true]%andb_true_iff Hs%String.eqb_eq]. apply registries_In in Hin. by apply (Hall name entry). }
  split.
  - rewrite <- Hshut. unfold insecure_hosts. rewrite insecure_fold, in_map_iff. split.
    + intros [([name entry] & <- & Hin)|[? ?]]; [|tauto]. apply filter_In in Hin as [Hin Hp]. apply andb_true_iff in Hp as [Hi Hs%negb_true_iff]. simpl.
      split; [left|done]. exists entry. split; [by apply registries_In|]. by destruct (rc_insecure entry) as [[]|].
    + intros [[(entry & He & Hi)|He] Hs]; [left|by right]. exists (host, entry). split; [done|]. apply filter_In. split; [by apply registries_In|]. by rewrite Hi, Hs.
  - apply insecure_nodup, filter_names_nodup. unfold config_registries. apply NoDup_ListNoDup, NoDup_fst_map_to_list.
Qed.

(** ** The managed source *)

(** Two resolutions of a managed target agree, up to the text an error quotes. *)
Definition same_target (a b : result ManagedConfigError (option ResolvedManagedConfig)) : Prop :=
  match a, b with Ok a, Ok b => a = b | Err _, Err _ => True | _, _ => False end.
Lemma same_target_refl a : same_target a a.
Proof. by destruct a. Qed.

(** The environment cannot redirect a locked managed tier: whatever [OCX_MANAGED_CONFIG]
    holds, a locked seed resolves to the same location, posture and lock as without it (or to the
    same error), and an override that names the seed in another spelling is the same location. *)
Theorem locked_source_stands (config : Config) (managed : ManagedConfig) (seed : string) (env_override : option string) :
  cf_managed config = Some managed -> mg_system_locked managed = true -> mg_source managed = Some seed -> seed <> "" ->
  same_target (resolve_target config env_override) (resolve_target config None).
Proof.
  intros Hc Hl Hs Hne. unfold resolve_target. rewrite Hc. simpl. unfold effective_source. rewrite Hl, Hs.
  assert (Hsame : forall value, sources_canonically_eq value seed = true ->
    value <> "" /\ parse_target value DEFAULT_REGISTRY = parse_target seed DEFAULT_REGISTRY).
  { intros value Heq. unfold sources_canonically_eq in Heq. unfold parse_target. destruct (parse_with_default_registry value DEFAULT_REGISTRY) as [a|] eqn:Ea; [|done].
    destruct (parse_with_default_registry seed DEFAULT_REGISTRY) as [b|]; [|done]. apply bool_decide_eq_true in Heq as ->. split; [|done]. by intros ->. }
  apply String.eqb_neq in Hne.
  destruct env_override as [value|]; [|apply same_target_refl]. destruct (String.eqb value "") eqn:Ev; [apply same_target_refl|]. simpl.
  destruct (sources_canonically_eq value seed) eqn:Eq; simpl; [|apply same_target_refl]. destruct (Hsame value Eq) as [_ Hp]. rewrite Ev, Hne, Hp.
  destruct (parse_target seed DEFAULT_REGISTRY); simpl; [|done]. by destruct (parse_interval _).
Qed.

(** ** The project file *)

Section Walk.
Context `{ConfigHost}.
Variables (ocx_home ceiling : option string).

(** A level holds a project file the walk accepts, or ends the walk. *)
Definition project_here (level : string) : bool :=
  match symlink_metadata (path_join level PROJECT_FILE_NAME) with Ok FtFile => negb (is_dir ocx_home level) | _ => false end.
Definition walk_stops (level : string) : bool := has_git_dir level || is_dir ceiling level.

Lemma walk_project_levels_exact levels found :
  walk_project_levels ocx_home ceiling levels = Some found <->
  exists below level above, levels = (below ++ level :: above)%list /\ found = path_join level PROJECT_FILE_NAME /\ project_here level = true /\
    forall l, In l below -> project_here l = false /\ walk_stops l = false.
Proof.
  induction levels as [|current levels IH]; simpl.
  - split; [done|]. by intros ([|] & ? & ? & ? & _).
  - fold (project_here current). destruct (project_here current) eqn:Hhere.
    + split.
      * intros [= <-]. by exists [], current, levels.
      * intros ([|b below] & level & above & [= -> ->] & -> & Hl & Hb); [done|]. destruct (Hb b) as [? _]; [by left|]. congruence.
    + transitivity (walk_stops current = false /\ walk_project_levels ocx_home ceiling levels = Some found).
      { unfold walk_stops. destruct (has_git_dir current); simpl; [by split; [|intros []]|]. by destruct (is_dir ceiling current); split; try done; intros []. }
      rewrite IH. split.
      * intros (Hs & below & level & above & -> & -> & Hl & Hb). exists (current :: below), level, above. split_and!; try done.
        intros l [<-|Hin]; [done|by apply Hb].
      * intros ([|b below] & level & above & [= -> ->] & -> & Hl & Hb); [congruence|]. split; [apply (Hb b); by left|].
        exists below, level, above. split_and!; try done. intros l Hin. apply Hb. by right.
Qed.
End Walk.

(** The project file found is the nearest one: the walk returns a path exactly when it is the
    [ocx.toml] of the start directory or of one above it, a regular file that is not the global
    manifest, and no directory strictly below it on the way holds one, is a repository boundary
    or is the ceiling; it always ends. *)
Theorem project_walk_nearest `{ConfigHost} (start found : string) (ceiling : option string) :
  let ocx_home := (fun root => lexical_normalize (path_push start root)) <$> default_ocx_root in
  walk_for_project_file start ceiling = Some found <->
  exists below level above, path_ancestors start = (below ++ level :: above)%list /\ found = path_join level PROJECT_FILE_NAME /\
    project_here ocx_home level = true /\ forall l, In l below -> project_here ocx_home l = false /\ walk_stops ceiling l = false.
Proof. intros ocx_home. apply walk_project_levels_exact. Qed.

(** ** Mirrors *)

(** The endpoint of a role, when it is usable. *)
Definition role_endpoint (insecure : list string) (host : string) (url : option string) : option ParsedMirror :=
  match url with
  | None => None
  | Some url => match resolve_mirror_role host url insecure with Ok parsed => Some parsed | Err _ => None end
  end.
Lemma resolve_role_get insecure host url map map' k : resolve_role host url insecure map = Ok map' ->
  om_get k map' = (if String.eqb k host then or_lower (role_endpoint insecure host url) (om_get k map) else om_get k map) /\
  (is_Some url -> is_Some (role_endpoint insecure host url)).
Proof.
  destruct url as [url|]; simpl; [|intros [= <-]; split; [by destruct (String.eqb k host)|by intros []]].
  destruct (resolve_mirror_role host url insecure) as [parsed|]; [|done]. simpl. intros [= <-]. rewrite om_get_insert. split; [|done].
  destruct (String.eqb_spec k host) as [->|Hne]; [by rewrite ord_eqb_refl|]. by rewrite (proj2 (ord_eqb_neq k host) Hne).
Qed.

Lemma resolve_entries_get insecure entries : forall registry index registry' index',
  resolve_entries insecure entries registry index = Ok (registry', index') -> om_wf entries ->
  (forall k, In k (om_keys entries) -> om_get k registry = None /\ om_get k index = None) ->
  forall k, match om_get k entries with
            | Some entry =>
                om_get k registry' = role_endpoint insecure k (mc_registry entry) /\ om_get k index' = role_endpoint insecure k (mc_index entry) /\
                (is_Some (mc_registry entry) -> is_Some (om_get k registry')) /\ (is_Some (mc_index entry) -> is_Some (om_get k index')) /\
                (is_Some (mc_registry entry) \/ is_Some (mc_index entry))
            | None => om_get k registry' = om_get k registry /\ om_get k index' = om_get k index
            end.
Proof.
  induction entries as [|[host entry] entries IH]; intros registry index registry' index'; simpl; [by intros [= <- <-]|].
  destruct (negb _ && negb _) eqn:Hempty; [done|]. destruct (resolve_role host (mc_registry entry) insecure registry) as [reg|] eqn:Hreg; [|done]. simpl.
  destruct (resolve_role host (mc_index entry) insecure index) as [idx|] eqn:Hidx; [|done]. simpl. intros Hrest Hwf Hfresh k.
  assert (Hwf' : om_wf entries) by (unfold om_wf, os_wf in *; simpl in Hwf; by inversion Hwf).
  assert (Hhost : ~ In host (om_keys entries)) by (apply os_wf_NoDup in Hwf; by inversion Hwf).
  specialize (IH reg idx registry' index' Hrest Hwf').
  assert (Hget : forall k, k <> host -> om_get k reg = om_get k registry /\ om_get k idx = om_get k index).
  { intros k' Hne. apply String.eqb_neq in Hne. destruct (resolve_role_get _ _ _ _ _ k' Hreg) as [-> _], (resolve_role_get _ _ _ _ _ k' Hidx) as [-> _]. by rewrite Hne. }
  assert (Hfresh' : forall k, In k (om_keys entries) -> om_get k reg = None /\ om_get k idx = None).
  { intros k' Hin. destruct (Hget k') as [-> ->]; [by intros ->|]. apply Hfresh. by right. }
  specialize (IH Hfresh' k). destruct (ord_eqb k host) eqn:Ek.
  - apply ord_eqb_eq in Ek as ->. rewrite (proj2 (om_get_None host entries) Hhost) in IH. destruct IH as [-> ->].
    destruct (resolve_role_get _ _ _ _ _ host Hreg) as [-> Hr], (resolve_role_get _ _ _ _ _ host Hidx) as [-> Hi]. rewrite String.eqb_refl.
    destruct (Hfresh host (or_introl eq_refl)) as [-> ->]. rewrite !or_lower_None. split_and!; try done.
    apply andb_false_iff in Hempty as [E|E]; apply negb_false_iff, bool_decide_eq_true in E; auto.
  - apply ord_eqb_neq in Ek. destruct (Hget k Ek) as [Hgr Hgi]. destruct (om_get k entries); [done|]. by rewrite <- Hgr, <- Hgi.
Qed.

Lemma fold_insert_get (l : list (string * MirrorConfig)) : forall acc host,
  om_get host (fold_left (fun merged '(h, e) => om_insert h e merged) l acc) =
  or_lower (last (map snd (List.filter (fun entry => String.eqb (fst entry) host) l))) (om_get host acc).
Proof.
  induction l as [|[h e] l IH]; intros acc host; simpl; [done|]. rewrite IH, om_get_insert. destruct (String.eqb_spec h host) as [->|Hne]; simpl.
  - rewrite ord_eqb_refl. destruct (map snd (List.filter _ l)) as [|x r]; [done|]. rewrite (last_cons e (x :: r)). destruct (last (x :: r)) as [y|] eqn:E; [done|by apply last_None in E].
  - by rewrite (proj2 (ord_eqb_neq host h)) by done.
Qed.

Lemma merged_wf config env : om_wf (merged_mirrors config env).
Proof.
  unfold merged_mirrors. generalize (map_to_list (default ∅ (cf_mirrors config)) ++ env)%list as l. intros l.
  assert (Hw : om_wf (@nil (string * MirrorConfig))) by constructor. revert Hw. generalize (@nil (string * MirrorConfig)) as acc.
  induction l as [|[h e] l IH]; intros acc Hw; simpl; [done|]. by apply IH, om_insert_wf.
Qed.
(** The entry of the environment for a host, the last one when it holds several. *)
Definition env_entry (env : list (string * MirrorConfig)) (host : string) : option MirrorConfig :=
  last (map snd (List.filter (fun entry => String.eqb (fst entry) host) env)).
Lemma merged_get config env host : om_get host (merged_mirrors config env) = or_lower (env_entry env host) (entry_of (cf_mirrors config) host).
Proof.
  unfold merged_mirrors. rewrite fold_left_app, !fold_insert_get. unfold env_entry. f_equal. simpl. rewrite or_lower_None.
  set (table := default ∅ (cf_mirrors config)). assert (Ht : entry_of (cf_mirrors config) host = table !! host) by (unfold table; destruct (cf_mirrors config); simpl; [done|by rewrite lookup_empty]).
  rewrite Ht. destruct (last _) as [e|] eqn:El.
  - symmetry. apply elem_of_map_to_list. apply last_Some in El as [l' El]. apply list_elem_of_In.
    assert (Hin : In e (map snd (List.filter (fun entry => String.eqb (fst entry) host) (map_to_list table)))) by (rewrite El; apply in_app_iff; right; by left).
    apply in_map_iff in Hin as ([h e'] & <- & Hin). apply filter_In in Hin as [Hin Hh%String.eqb_eq]. simpl in *. by subst.
  - destruct (table !! host) as [e|] eqn:Eh; [|done]. apply elem_of_map_to_list, list_elem_of_In in Eh. apply last_None, map_eq_nil in El.
    assert (Hin : In (host, e) (List.filter (fun entry => String.eqb (fst entry) host) (map_to_list table))) by (apply filter_In; split; [done|by apply String.eqb_eq]).
    by rewrite El in Hin.
Qed.

(** A mirrored host is never reached directly. When the mirrors resolve, every host that
    [OCX_MIRRORS] or the configuration mirrors has an endpoint for exactly the roles its entry
    declares (and it declares one), each parsed from the declared text, over plain HTTP only
    when the endpoint's host is allowed it; the environment's entry for a host replaces the
    configured one whole, and an unmirrored host has no endpoint. *)
Theorem mirror_resolution_exact (config : Config) (env : list (string * MirrorConfig)) (insecure : list string) (r : ResolvedMirrors) (host : string) :
  resolve_mirror_map config env insecure = Ok r ->
  match or_lower (env_entry env host) (entry_of (cf_mirrors config) host) with
  | None => om_get host (rm_registry r) = None /\ om_get host (rm_index r) = None
  | Some entry =>
      (is_Some (mc_registry entry) \/ is_Some (mc_index entry)) /\
      (forall url, mc_registry entry = Some url -> exists m, om_get host (rm_registry r) = Some m /\ parse_url url = Ok m /\ (mi_protocol m = "http" -> In (mi_host m) insecure)) /\
      (forall url, mc_index entry = Some url -> exists m, om_get host (rm_index r) = Some m /\ parse_url url = Ok m /\ (mi_protocol m = "http" -> In (mi_host m) insecure)) /\
      (mc_registry entry = None -> om_get host (rm_registry r) = None) /\ (mc_index entry = None -> om_get host (rm_index r) = None)
  end.
Proof.
  unfold resolve_mirror_map. destruct (resolve_entries insecure _ [] []) as [[registry index]|] eqn:He; [|done]. simpl. intros [= <-]. simpl.
  pose proof (resolve_entries_get _ _ _ _ _ _ He (merged_wf config env) (fun _ _ => conj eq_refl eq_refl) host) as Hk. rewrite merged_get in Hk.
  destruct (or_lower _ _) as [entry|]; [|done]. destruct Hk as (Hr & Hi & Hsr & Hsi & Hone).
  assert (Hrole : forall url m, role_endpoint insecure host (Some url) = Some m -> parse_url url = Ok m /\ (mi_protocol m = "http" -> In (mi_host m) insecure)).
  { intros url m. simpl. unfold resolve_mirror_role. destruct (parse_url url) as [p|]; simpl; [|done]. destruct (_ && _) eqn:E; [done|]. intros [= <-]. split; [done|].
    intros Hh. rewrite Hh, String.eqb_refl in E. simpl in E. apply negb_false_iff, existsb_exists in E as (x & Hx & ->%String.eqb_eq). done. }
  split_and!; [done| | |by intros Hn; rewrite Hr, Hn|by intros Hn; rewrite Hi, Hn].
  - intros url Hu. destruct Hsr as [m Hm]; [by rewrite Hu|]. exists m. split; [done|]. rewrite Hr, Hu in Hm. by apply Hrole.
  - intros url Hu. destruct Hsi as [m Hm]; [by rewrite Hu|]. exists m. split; [done|]. rewrite Hi, Hu in Hm. by apply Hrole.
Qed.
