(* ===== verification/SampleConfig.v ===== *)
(** * Sample configuration

    A small host with a system, a user and a managed configuration, and the theorems on trust
    and configuration applied to it. *)

From stdpp Require Import base decidable list option numbers strings gmap.
From S2P Require Import Prelude OMap Text Digest PackageRef Client TextSearch Trust TrustSpec Config ConfigLoad ConfigSpec.
From S2P Require Import ConfigRules.
Local Open Scope string_scope.

(** ** Trust *)

(** Regular expressions that match any text, and keys that verify their own text. *)
Definition demo_trust : TrustLib := {|
  Regex := unit;
  regex_new := fun _ => Some tt;
  regex_is_match := fun _ _ => true;
  VerificationKey := string;
  key_try_from_pem := Some;
  key_verify := fun key signature message => String.eqb signature (key +:+ message);
  env_secret := fun _ => None;
  read_bounded := fun _ _ => Err ReadIo;
|}.
Definition ci_signer : SignerSpec := Keyless (mkKeyless (Some "ci@acme.example") None (Some "https://issuer.example")).
Definition any_signer : SignerSpec := Keyless (mkKeyless None (Some ".*") (Some "https://issuer.example")).
Definition acme_policy : TrustPolicy := mkPolicy (Some (Prefix "ocx.sh/acme")) None [ci_signer] false.
Definition open_policy : TrustPolicy := mkPolicy (Some (Prefix "ocx.sh/acme/tool")) None [any_signer] false.
Definition system_trust : TrustConfig := mkTrustConfig [acme_policy] None.

(** A narrower policy of the user tier is resolved without the lock, and refused with it. *)
Example narrower_without_lock : trust_resolve [acme_policy; open_policy] "ocx.sh/acme/tool" = [open_policy].
Proof. reflexivity. Qed.
Example narrower_with_lock : trust_resolve [with_policy_lock acme_policy; open_policy] "ocx.sh/acme/tool" = [with_policy_lock acme_policy].
Proof. reflexivity. Qed.

Lemma system_pin_governs_alone_witness :
  existsb (fun p => matches_scope p "ocx.sh/acme/tool") (tc_policy system_trust) = true /\
  @resolve_tiered demo_trust (tc_policy (fold_left trust_merge [mkTrustConfig [open_policy] None] (trust_lock_as_system system_trust))) [open_policy] "ocx.sh/acme/tool" =
  @resolve_tiered demo_trust (tc_policy (trust_lock_as_system system_trust)) [] "ocx.sh/acme/tool".
Proof.
  split; [reflexivity|].
  apply (@system_pin_governs_alone demo_trust system_trust [mkTrustConfig [open_policy] None] [open_policy] "ocx.sh/acme/tool"); [|reflexivity].
  intros tier p [<-|[]] [<-|[]]. reflexivity.
Defined.

Definition acme_compiled : list (@CompiledPolicy demo_trust) :=
  [@mkCompiled demo_trust None [@BackendKeyless demo_trust (@mkCompiledKeyless demo_trust (@ExactIdentity demo_trust "ci@acme.example") "https://issuer.example")]].
Lemma certificate_accepted_exact_witness :
  @resolve_tiered demo_trust [acme_policy] [open_policy] "ocx.sh/acme/tool" = Ok acme_compiled /\
  (is_ok (@matching_policies demo_trust (Some (Some "eve@evil.example", Some "https://issuer.example")) acme_compiled) = true <->
   exists p s san' issuer', Trusts [acme_policy] [open_policy] "ocx.sh/acme/tool" p /\ In s (tp_signers p) /\
     Some "eve@evil.example" = Some san' /\ Some "https://issuer.example" = Some issuer' /\ @NamesCertificate demo_trust s san' issuer').
Proof. split; [reflexivity|]. apply (@certificate_accepted_exact demo_trust). reflexivity. Defined.
(** The certificate of another subject is refused, the pinned one accepted. *)
Example refuses_eve : is_ok (@matching_policies demo_trust (Some (Some "eve@evil.example", Some "https://issuer.example")) acme_compiled) = false.
Proof. reflexivity. Qed.
Example accepts_ci : is_ok (@matching_policies demo_trust (Some (Some "ci@acme.example", Some "https://issuer.example")) acme_compiled) = true.
Proof. reflexivity. Qed.
Definition acme_key_policy : TrustPolicy := mkPolicy None None [Key (mkKeyMatcher None (Some "k"))] false.
Lemma key_signature_accepted_exact_witness :
  is_ok (@resolve_tiered demo_trust [] [acme_key_policy] "ocx.sh/acme/tool") = true /\
  (is_ok (@matching_key_policies demo_trust "m" "km" [@mkCompiled demo_trust None [@BackendKey demo_trust "k"]]) = true <->
   exists p matcher key, Trusts [] [acme_key_policy] "ocx.sh/acme/tool" p /\ In (Key matcher) (tp_signers p) /\
     @compile_key_matcher demo_trust matcher (scope_label p) = Ok key /\ @key_verify demo_trust key "km" "m" = true).
Proof. split; [reflexivity|]. apply (@key_signature_accepted_exact demo_trust). reflexivity. Defined.
Lemma anchor_settles_witness : has_root "/etc/ocx" = true /\
  anchor_relative_keys (anchor_relative_keys (mkPolicy None None [Key (mkKeyMatcher (Some "keys/ci.pub") None)] false) "/etc/ocx") "/home/u" =
  anchor_relative_keys (mkPolicy None None [Key (mkKeyMatcher (Some "keys/ci.pub") None)] false) "/etc/ocx".
Proof. split; [reflexivity|]. apply anchor_settles. reflexivity. Defined.

(** ** Configuration *)

Definition system_doc : Config :=
  mkConfig (Some (mkRegistryDefaults (Some "corp.example") false))
    (Some {[ "ocx.sh" := mkRegistryConfig None None (Some false) false false ]})
    (Some {[ "ghcr.io" := mkMirrorConfig (Some "https://mirror.corp") None false false ]})
    None None None (Some system_trust) None (Some (mkRecordsOptions (Some "records") None None false)) None None (Some "PEM") false.
Definition user_doc : Config :=
  mkConfig (Some (mkRegistryDefaults (Some "evil.example") false))
    (Some {[ "ocx.sh" := mkRegistryConfig (Some "https://evil.example") None (Some true) false false ]})
    (Some {[ "ghcr.io" := mkMirrorConfig (Some "https://evil.example") (Some "https://index.corp") false false ]})
    None None None (Some (mkTrustConfig [open_policy] None)) None (Some (mkRecordsOptions (Some "/tmp") None None false)) None (Some "evil.pem") None false.
Definition demo_file (text : string) : Opened := mkOpened (Some (FtFile, N.of_nat (String.length text))) (fun _ => Some text).
Definition demo_host (no_config : bool) : ConfigHost := {|
  toml_config := fun text => if String.eqb text "system" then Ok system_doc else if String.eqb text "user" then Ok user_doc else Err "not TOML";
  toml_table := fun _ => None;
  toml_try_into := fun _ => None;
  toml_to_string := fun _ => None;
  symlink_metadata := fun path =>
    if String.eqb path "/etc/ocx/config.toml" || String.eqb path "/home/u/.config/ocx/config.toml" || String.eqb path "/w/p/ocx.toml" then Ok FtFile else Err IoNotFound;
  metadata := fun path => Ok FtFile;
  open_file := fun path => Ok (demo_file (if String.eqb path "/etc/ocx/config.toml" then "system" else "user"));
  system_path := "/etc/ocx/config.toml";
  user_path := Some "/home/u/.config/ocx/config.toml";
  default_ocx_root := Some "/home/u/.ocx";
  env_no_config := no_config;
  env_config := None;
  env_managed_config := None;
  env_no_project := false;
  env_project := None;
  env_ceiling_path := None;
  read_managed_config_snapshot := None;
|}.
Definition demo_loaded (no_config : bool) : option LoadedConfig :=
  match @load_with_local_view (demo_host no_config) None None (Some "/w/p/src") with Ok lc => Some lc | Err _ => None end.
(** The user tier adds an index mirror and a policy, and changes nothing of the system file. *)
Example demo_load :
  match demo_loaded false with
  | Some lc => (rd_default <$> cf_registry (lc_merged lc)) = Some (Some "corp.example") /\ cf_extra_ca_certs_pem (lc_merged lc) = Some "PEM" /\
      (ro_dir <$> cf_records (lc_merged lc)) = Some (Some "/etc/ocx/records") /\
      (mc_index <$> entry_of (cf_mirrors (lc_merged lc)) "ghcr.io") = Some (Some "https://index.corp")
  | None => False
  end.
Proof. vm_compute. done. Qed.
Definition demo_merged : LoadedConfig :=
  default (mkLoadedConfig config_default config_default config_default config_default (mkManagedFold config_default None None Unmatched None) [] None None) (demo_loaded false).
Lemma system_locks_hold_witness :
  @load_with_local_view (demo_host false) None None (Some "/w/p/src") = Ok demo_merged /\
  (@symlink_metadata (demo_host false) (@system_path (demo_host false)) = Err IoNotFound \/
   exists text parsed, @read_config (demo_host false) (@system_path (demo_host false)) = Ok text /\
     @parse_config_stripping_refused_consent (demo_host false) text (@system_path (demo_host false)) = Ok parsed /\
     let sys := anchor_relative_paths parsed (@system_path (demo_host false)) in
     Enforces compiled_index (negb (@env_no_config (demo_host false))) sys (lc_merged demo_merged) /\
     Enforces compiled_index (negb (@env_no_config (demo_host false))) sys (lc_local_only demo_merged)).
Proof. split; [vm_compute; reflexivity|]. apply (@system_locks_hold (demo_host false) None None (Some "/w/p/src")). vm_compute. reflexivity. Defined.

Definition grant (include exclude : list string) : ShellConsent := mkShellConsent ["/w/p"] (Some (ScopeSet include exclude)).
Lemma consent_tiers_exact_witness :
  Forall consent_wf [grant ["ocx.sh/acme"; "ocx.sh/other"] []; grant ["ocx.sh/corp"] ["ocx.sh/other"]] /\
  (grants (fold_left shell_consent_merge [grant ["ocx.sh/acme"; "ocx.sh/other"] []; grant ["ocx.sh/corp"] ["ocx.sh/other"]] shell_consent_default) "ocx.sh/other" = true <->
   (exists tier, In tier [grant ["ocx.sh/acme"; "ocx.sh/other"] []; grant ["ocx.sh/corp"] ["ocx.sh/other"]] /\ covers (includes_of tier) "ocx.sh/other" = true) /\
   (forall tier, In tier [grant ["ocx.sh/acme"; "ocx.sh/other"] []; grant ["ocx.sh/corp"] ["ocx.sh/other"]] -> covers (excludes_of tier) "ocx.sh/other" = false)).
Proof.
  assert (Hwf : Forall consent_wf [grant ["ocx.sh/acme"; "ocx.sh/other"] []; grant ["ocx.sh/corp"] ["ocx.sh/other"]]) by (repeat constructor; intros spec [= <-]; done).
  split; [exact Hwf|]. apply (consent_tiers_exact _ "ocx.sh/other" "/w/p" Hwf).
Defined.
Lemma consent_pattern_one_organisation_witness :
  normalize_consent_pattern "ocx.sh/acme/*" = Ok "ocx.sh/acme" /\
  (pattern_matches "ocx.sh/acme" ("ocx.sh" +:+ "/" +:+ "acme-evil") = true <-> "ocx.sh/acme" = "ocx.sh" +:+ "/" +:+ "acme-evil").
Proof. split; [reflexivity|]. apply (consent_pattern_one_organisation "ocx.sh/acme/*" "ocx.sh/acme" "ocx.sh" "acme-evil"); reflexivity. Defined.

Definition mirror_doc : Config :=
  mkConfig None None (Some {[ "ghcr.io" := mkMirrorConfig (Some "http://mirror.corp:5000/proxy/") (Some "https://index.corp") true false ]})
    None None None None None None None None None false.
Definition env_mirror : MirrorConfig := mkMirrorConfig (Some "https://other.corp") None false false.
Definition demo_mirrors (env : list (string * MirrorConfig)) : ResolvedMirrors :=
  match resolve_mirror_map mirror_doc env ["mirror.corp:5000"] with Ok r => r | Err _ => mkResolvedMirrors [] [] [] end.
Lemma mirror_resolution_exact_witness :
  resolve_mirror_map mirror_doc [] ["mirror.corp:5000"] = Ok (demo_mirrors []) /\
  exists m, om_get "ghcr.io" (rm_registry (demo_mirrors [])) = Some m /\ parse_url "http://mirror.corp:5000/proxy/" = Ok m /\
    (mi_protocol m = "http" -> In (mi_host m) ["mirror.corp:5000"]).
Proof.
  assert (Hr : resolve_mirror_map mirror_doc [] ["mirror.corp:5000"] = Ok (demo_mirrors [])) by (vm_compute; reflexivity).
  split; [exact Hr|]. pose proof (mirror_resolution_exact mirror_doc [] ["mirror.corp:5000"] _ "ghcr.io" Hr) as Hm.
  destruct Hm as (_ & Hreg & _). apply Hreg. reflexivity.
Defined.
(** An entry of the environment replaces the host's entry whole: the index mirror is gone, and so
    is the locked registry endpoint. *)
Example env_mirror_replaces : om_get "ghcr.io" (rm_index (demo_mirrors [("ghcr.io", env_mirror)])) = None /\
  (mi_host <$> om_get "ghcr.io" (rm_registry (demo_mirrors [("ghcr.io", env_mirror)]))) = Some "other.corp".
Proof. vm_compute. done. Qed.

Definition locked_managed : ManagedConfig := mkManagedConfig (Some "corp.example/ocx-config:user") None None None true.
Definition managed_doc : Config := mkConfig None None None None (Some locked_managed) None None None None None None None false.
Lemma locked_source_stands_witness : cf_managed managed_doc = Some locked_managed /\
  same_target (resolve_target managed_doc (Some "evil.example/x:1")) (resolve_target managed_doc None).
Proof. split; [reflexivity|]. by apply (locked_source_stands managed_doc locked_managed "corp.example/ocx-config:user"). Defined.

Example demo_walk : @walk_for_project_file (demo_host false) "/w/p/src" None = Some "/w/p/ocx.toml".
Proof. vm_compute. done. Qed.

(** A payload whose consent table is refused: the loader strips the table and applies the rest,
    while [classify] calls the same snapshot unusable. *)
Definition refused_table : list (string * TomlValue) :=
  [("shell", TomlTable [("consent", TomlTable [("namespaces", TomlString "ocx.sh")])])].
Definition refusing_host : ConfigHost := {|
  toml_config := fun _ => Err "grants a whole registry";
  toml_table := fun _ => Some refused_table;
  toml_try_into := fun _ => Some config_default;
  toml_to_string := fun _ => None;
  symlink_metadata := fun _ => Err IoNotFound;
  metadata := fun _ => Err IoNotFound;
  open_file := fun _ => Err IoNotFound;
  system_path := "/etc/ocx/config.toml";
  user_path := None;
  default_ocx_root := Some "/home/u/.ocx";
  env_no_config := false;
  env_config := None;
  env_managed_config := None;
  env_no_project := false;
  env_project := None;
  env_ceiling_path := None;
  read_managed_config_snapshot :=
    Some (mkSnapshot "corp.example/ocx-config:user" None (DSha256 "00") "2026-01-01T00:00:00Z" "payload");
|}.
Example classify_disagrees :
  match @managed_snapshot refusing_host with
  | Some snapshot =>
      mf_state (@fold_managed_tier refusing_host config_default managed_doc) = Applied /\
      @classify_snapshot refusing_host (Some snapshot) (mkPackageRef "corp.example" "ocx-config" (Some "user") None) = PayloadUnusable
  | None => False
  end.
Proof. vm_compute. done. Qed.
(** The tiers of [modify_path] and [profiles] are never stamped. *)
Example setup_tiers_unstamped :
  (fun shell => (sh_hook_tier shell, sh_modify_path_tier shell)) <$>
    cf_shell (stamp_shell_tier (with_shell (Some (mkShellConfig (Some true) None (Some false) None None None None None None None)) config_default) TierManaged)
  = Some (Some TierManaged, None).
Proof. vm_compute. done. Qed.
(** [file://] is the one spelling of a path that holds [://]; anchoring drops the spelling, and
    the rewritten reference no longer parses. *)
Example anchored_key_lost :
  is_ok (key_ref_parse "file:///keys/a://b.pub") = true /\
  anchor_key "/etc/ocx" (Key (mkKeyMatcher (Some "file:///keys/a://b.pub") None)) = Key (mkKeyMatcher (Some "/keys/a://b.pub") None) /\
  key_ref_parse "/keys/a://b.pub" = Err (UnknownScheme "/keys/a").
Proof. vm_compute. done. Qed.
