(* ===== verification/Ssrf.v ===== *)
(** * The guard on remote-controlled registry hosts

    [crates/ocx_oci/src/ssrf.rs]: before a pointer out of an index is dialled, its host must not
    lead to a private, loopback, link-local or metadata address.  An IPv4 address is a 32-bit
    and an IPv6 address a 128-bit number.  The resolver, the URL and address parsers and the
    proxy matcher are the class [NetLib]. *)

From stdpp Require Import base decidable list option numbers strings.
From Stdlib Require Import Lia NArith Ascii ZArith Zify.
From S2P Require Import Prelude Text Digest PackageRef Config.
Local Open Scope ocx_scope.
Local Open Scope string_scope.

(** ** Addresses *)

Inductive IpAddr : Type := V4 (ip : N) | V6 (ip : N).

(** [Ipv4Addr::octets], [Ipv6Addr::segments], most significant first. *)
Definition octet (position : N) (ip : N) : N := N.land (N.shiftr ip (8 * (3 - position))) 255.
Definition segment (position : N) (ip : N) : N := N.land (N.shiftr ip (16 * (7 - position))) 65535.

(** [is_shared_cgnat], [is_benchmarking], [is_reserved]. *)
Definition is_shared_cgnat (ip : N) : bool := ((octet 0 ip =? 100) && (N.land (octet 1 ip) 0xc0 =? 0x40))%N.
Definition is_benchmarking (ip : N) : bool := ((octet 0 ip =? 198) && (N.land (octet 1 ip) 0xfe =? 18))%N.
Definition is_reserved_v4 (ip : N) : bool := (240 <=? octet 0 ip)%N.

(** The predicates of [std::net::Ipv4Addr] the code calls. *)
Definition v4_is_loopback (ip : N) : bool := (octet 0 ip =? 127)%N.
Definition v4_is_private (ip : N) : bool :=
  ((octet 0 ip =? 10) || ((octet 0 ip =? 172) && (16 <=? octet 1 ip) && (octet 1 ip <=? 31)) ||
   ((octet 0 ip =? 192) && (octet 1 ip =? 168)))%N.
Definition v4_is_link_local (ip : N) : bool := ((octet 0 ip =? 169) && (octet 1 ip =? 254))%N.
Definition v4_is_documentation (ip : N) : bool :=
  (((octet 0 ip =? 192) && (octet 1 ip =? 0) && (octet 2 ip =? 2)) ||
   ((octet 0 ip =? 198) && (octet 1 ip =? 51) && (octet 2 ip =? 100)) ||
   ((octet 0 ip =? 203) && (octet 1 ip =? 0) && (octet 2 ip =? 113)))%N.
Definition v4_is_multicast (ip : N) : bool := ((224 <=? octet 0 ip) && (octet 0 ip <=? 239))%N.

Definition is_forbidden_v4 (ip : N) : bool :=
  v4_is_loopback ip || v4_is_private ip || v4_is_link_local ip || (ip =? 0)%N || is_shared_cgnat ip || (ip =? 0xffffffff)%N ||
  v4_is_multicast ip || v4_is_documentation ip || is_benchmarking ip || is_reserved_v4 ip.

(** [Ipv6Addr::to_ipv4_mapped], [embeds_forbidden_v4], [is_documentation_v6]. *)
Definition to_ipv4_mapped (ip : N) : option N := if (N.shiftr ip 32 =? 0xffff)%N then Some (N.land ip 0xffffffff) else None.
Definition embeds_forbidden_v4 (ip : N) : bool :=
  let prefix := map (fun position => segment position ip) [0; 1; 2; 3; 4; 5]%N in
  if negb (bool_decide (prefix = [0; 0; 0; 0; 0; 0]%N)) && negb (bool_decide (prefix = [0x64; 0xff9b; 0; 0; 0; 0]%N)) then false
  else is_forbidden_v4 (N.lor (N.shiftl (segment 6 ip) 16) (segment 7 ip)).
Definition is_documentation_v6 (ip : N) : bool := ((segment 0 ip =? 0x2001) && (segment 1 ip =? 0x0db8))%N.

Definition is_forbidden_v6 (ip : N) : bool :=
  match to_ipv4_mapped ip with
  | Some v4 => is_forbidden_v4 v4
  | None =>
      let first := segment 0 ip in
      (ip =? 1)%N || (ip =? 0)%N || (N.land first 0xff00 =? 0xff00)%N || is_documentation_v6 ip ||
      (N.land first 0xfe00 =? 0xfc00)%N || (N.land first 0xffc0 =? 0xfe80)%N || embeds_forbidden_v4 ip
  end.
Definition is_forbidden_ip (ip : IpAddr) : bool := match ip with V4 v4 => is_forbidden_v4 v4 | V6 v6 => is_forbidden_v6 v6 end.

(** ** Trusted hosts *)

(** [cidr_contains]: the shift is checked, so a prefix of nothing gives the empty mask. *)
Definition cidr_mask (width prefix : N) : N :=
  (if width - prefix <? width then N.land (N.shiftl (N.ones width) (width - prefix)) (N.ones width) else 0)%N.
Definition cidr_contains (network : IpAddr) (prefix : N) (ip : IpAddr) : bool :=
  match network, ip with
  | V4 network, V4 ip => (N.land network (cidr_mask 32 prefix) =? N.land ip (cidr_mask 32 prefix))%N
  | V6 network, V6 ip => (N.land network (cidr_mask 128 prefix) =? N.land ip (cidr_mask 128 prefix))%N
  | _, _ => false
  end.

(** [enum SsrfError]; [enum DialScheme] and [for_registry]; [enum Route], [enum DialRoute]. *)
Inductive SsrfError : Type := ForbiddenTarget (host : string) (ip : IpAddr) | Resolution (host : string).
Inductive DialScheme : Type := DialHttp | DialHttps.
Definition dial_scheme_for_registry (insecure_hosts : list string) (registry : string) : DialScheme :=
  if allows_plain_http insecure_hosts registry then DialHttp else DialHttps.
Inductive UrlHost : Type := HostIpv4 (ip : N) | HostIpv6 (ip : N) | HostDomain (name : string).
Inductive Route : Type := RouteDirect | RouteProxied.
Inductive DialRoute : Type := DialDirect (addresses : list IpAddr) | DialProxied.

Class NetLib (W : Type) : Type := {
  ip_parse : string -> option IpAddr;
  Url : Type;
  url_parse : string -> option Url;
  url_host : Url -> option UrlHost;
  (** [ProxyRules::route_for]: whether the matcher intercepts the destination. *)
  route_for : Url -> Route;
  lookup_host : string -> N -> W -> option (list IpAddr) * W;
}.

(** [u8::from_str], [u16::from_str]: digits, with an optional plus sign. *)
Definition uint_parse (limit : N) (text : string) : option N :=
  let digits := match text with String "+" rest => rest | _ => text end in
  if String.eqb digits "" || negb (str_forall is_digit digits) then None
  else let value := digits_value 0 digits in if (value <=? limit)%N then Some value else None.

(** [split_host_port]. *)
Definition split_host_port (registry : string) : string * N :=
  match rsplit_once ":" registry with
  | Some (host, port) => match uint_parse 65535 port with Some port => (host, port) | None => (registry, 443%N) end
  | None => (registry, 443%N)
  end.

(** [is_loopback_name]. *)
Definition is_loopback_name (name : string) : bool :=
  let name := lowercase (default name (strip_suffix "." name)) in
  String.eqb name "localhost" || bool_decide (is_Some (strip_suffix ".localhost" name)).

Section Guard.
Context {W : Type} `{!NetLib W}.

(** [parse_cidr], [host_is_trusted]. *)
Definition parse_cidr (entry : string) : option (IpAddr * N) :=
  '(addr, prefix) ← split_once "/" entry;
  network ← ip_parse addr;
  prefix ← uint_parse 255 prefix;
  let max := match network with V4 _ => 32%N | V6 _ => 128%N end in
  if (prefix <=? max)%N then Some (network, prefix) else None.
Definition host_is_trusted (host : string) (trusted : list string) : bool :=
  let host_ip := ip_parse host in
  existsb (fun entry =>
    if String.eqb entry host then true
    else match host_ip, parse_cidr entry with
         | Some ip, Some (network, prefix) => cidr_contains network prefix ip
         | _, _ => false
         end) trusted.

(** [resolve_and_validate]. *)
Definition resolve_and_validate (host : string) (port : N) (trusted : list string) : io W SsrfError (list IpAddr) :=
  let! looked_up := (fun w => let '(answer, w') := lookup_host host port w in (Ok answer, w')) in
  match looked_up with
  | None => io_fail (Resolution host)
  | Some addresses =>
      if host_is_trusted host trusted then io_ret addresses
      else match List.find is_forbidden_ip addresses with
           | Some ip => io_fail (ForbiddenTarget host ip)
           | None => io_ret addresses
           end
  end.

(** [normalised_destination], [guard_destination]. *)
Definition normalised_destination (scheme : DialScheme) (host : string) (port : N) : option Url :=
  let scheme := match scheme with DialHttp => "http" | DialHttps => "https" end in
  let authority := match ip_parse host with Some (V6 _) => "[" +:+ host +:+ "]" | _ => host end in
  url_parse (scheme +:+ "://" +:+ authority +:+ ":" +:+ u32_to_string port +:+ "/").
Definition dialled_literal (destination : option Url) : option IpAddr :=
  match destination ≫= url_host with
  | Some (HostIpv4 address) => Some (V4 address)
  | Some (HostIpv6 address) => Some (V6 address)
  | Some (HostDomain name) => if is_loopback_name name then Some (V4 0x7f000001) else None
  | None => None
  end.
Definition guard_destination (scheme : DialScheme) (host : string) (port : N) (trusted : list string) : io W SsrfError DialRoute :=
  let destination := normalised_destination scheme host port in
  match default RouteDirect (route_for <$> destination) with
  | RouteDirect => let! addresses := resolve_and_validate host port trusted in io_ret (DialDirect addresses)
  | RouteProxied =>
      if host_is_trusted host trusted then io_ret DialProxied
      else match dialled_literal destination with
           | Some ip => if is_forbidden_ip ip then io_fail (ForbiddenTarget host ip) else io_ret DialProxied
           | None => io_ret DialProxied
           end
  end.

(** [struct DialPolicy] without its proxy rules, and [guard_physical_dial]. *)
Record DialPolicy : Type := mkDialPolicy { dp_insecure_hosts : list string; dp_trusted_hosts : list string }.
Definition guard_physical_dial (policy : DialPolicy) (logical : PackageRef) (physical : OciIdentifier) : io W (string * SsrfError) unit :=
  if String.eqb (pr_registry physical) (pr_registry logical) then io_ret tt
  else
    let '(host, port) := split_host_port (pr_registry physical) in
    let! _ := io_map_err (pair (pr_registry logical))
                (guard_destination (dial_scheme_for_registry (dp_insecure_hosts policy) (pr_registry physical)) host port (dp_trusted_hosts policy)) in
    io_ret tt.
End Guard.

Example forbidden_metadata : is_forbidden_ip (V4 0xA9FEA9FE) = true. (* 169.254.169.254 *)
Proof. reflexivity. Qed.
Example allowed_public : is_forbidden_ip (V4 0x08080808) = false. (* 8.8.8.8 *)
Proof. reflexivity. Qed.
Example forbidden_mapped : is_forbidden_ip (V6 0xFFFF7F000001) = true. (* ::ffff:127.0.0.1 *)
Proof. reflexivity. Qed.

(** ** Which hosts the guard lets through

    The bit tests of [is_forbidden_ip] are exactly a table of address blocks, the checked masks
    of [cidr_contains] exactly the blocks of CIDR notation, and what [guard_destination] admits
    for an untrusted host is dialled at no forbidden address. *)

(** ** Masks *)

(** An address block in CIDR notation: the addresses that agree on the first [prefix] bits. *)
Definition in_block (width : N) (block : N * N) (ip : N) : bool :=
  (ip / 2 ^ (width - block.2) =? block.1 / 2 ^ (width - block.2))%N.

Lemma land_cidr_mask (width prefix x : N) : (prefix <= width)%N -> (x < 2 ^ width)%N ->
  N.land x (cidr_mask width prefix) = (x / 2 ^ (width - prefix) * 2 ^ (width - prefix))%N.
Proof.
  intros Hp Hx. unfold cidr_mask. destruct (N.ltb_spec (width - prefix) width) as [Hk|Hk].
  2: { assert (width - prefix = width)%N as -> by lia. rewrite N.div_small by done. by rewrite N.land_0_r. }
  rewrite <- N.shiftr_div_pow2, <- N.shiftl_mul_pow2. apply N.bits_inj. intros m. rewrite !N.land_spec.
  destruct (N.lt_ge_cases m (width - prefix)) as [Hm|Hm].
  - by rewrite !N.shiftl_spec_low, andb_false_l, andb_false_r by done.
  - rewrite !N.shiftl_spec_high', N.shiftr_spec', N.sub_add by done. destruct (N.lt_ge_cases m width) as [Hw|Hw].
    + by rewrite !N.ones_spec_low, !andb_true_r by lia.
    + assert (N.testbit x m = false) as ->; [|done]. rewrite <- (N.mod_small x (2 ^ width)) by done. by apply N.mod_pow2_bits_high.
Qed.

Lemma mask_block (width prefix network ip : N) : (prefix <= width)%N -> (network < 2 ^ width)%N -> (ip < 2 ^ width)%N ->
  (N.land network (cidr_mask width prefix) =? N.land ip (cidr_mask width prefix))%N = in_block width (network, prefix) ip.
Proof.
  intros Hp Hn Hi. rewrite !land_cidr_mask by done. unfold in_block. simpl.
  assert (2 ^ (width - prefix) <> 0)%N by by apply N.pow_nonzero.
  apply eq_iff_eq_true. rewrite !N.eqb_eq. split; [|by intros ->]. intros E%N.mul_cancel_r; done.
Qed.

(** ** IPv4 *)

Definition forbidden_v4_blocks : list (N * N) :=
  [ (0x00000000, 32)  (* unspecified *); (0x0A000000, 8); (0xAC100000, 12); (0xC0A80000, 16)  (* private *);
    (0x64400000, 10)  (* shared address space *); (0x7F000000, 8)  (* loopback *); (0xA9FE0000, 16)  (* link-local *);
    (0xC0000200, 24); (0xC6336400, 24); (0xCB007100, 24)  (* documentation *); (0xC6120000, 15)  (* benchmarking *);
    (0xE0000000, 4)  (* multicast *); (0xF0000000, 4)  (* reserved and broadcast *) ]%N.

Lemma octet_div k ip : octet k ip = ((ip / 2 ^ (8 * (3 - k))) mod 256)%N.
Proof. unfold octet. rewrite N.shiftr_div_pow2. change 255%N with (N.ones 8). by rewrite N.land_ones. Qed.
Lemma land_byte (x mask prefix : N) : (x < 256)%N -> (prefix <= 8)%N -> mask = cidr_mask 8 prefix ->
  N.land x mask = (x / 2 ^ (8 - prefix) * 2 ^ (8 - prefix))%N.
Proof. intros Hx Hp ->. by apply land_cidr_mask. Qed.

(** A block on octet boundaries, and one inside an octet, as inequalities. *)
Ltac Zify.zify_post_hook ::= Z.to_euclidean_division_equations.

Lemma in_block_range width network prefix ip :
  in_block width (network, prefix) ip = true <->
  (network / 2 ^ (width - prefix) * 2 ^ (width - prefix) <= ip < (network / 2 ^ (width - prefix) + 1) * 2 ^ (width - prefix))%N.
Proof.
  unfold in_block. simpl. rewrite N.eqb_eq. set (q := (2 ^ (width - prefix))%N).
  assert (q <> 0)%N as Hq by by apply N.pow_nonzero. set (a := (network / q)%N). split.
  - intros E. pose proof (N.div_mod ip q Hq). pose proof (N.mod_lt ip q Hq). rewrite E in *. nia.
  - intros [H1 H2]. apply N.le_antisymm.
    + apply N.lt_succ_r, N.Div0.div_lt_upper_bound. lia.
    + apply N.div_le_lower_bound; [done|]. lia.
Qed.

Definition block4 (network prefix ip : N) : bool := in_block 32 (network, prefix) ip.
Definition octets_bound : N := 4294967296.

(** Two boolean tests of an address, compared as inequalities on its number. *)
Ltac compute_powers :=
  repeat match goal with
         | |- context [(2 ^ ?e)%N] => let v := eval vm_compute in (2 ^ e)%N in change (2 ^ e)%N with v
         end;
  repeat match goal with
         | |- context [(Npos ?a / Npos ?b)%N] => let v := eval vm_compute in (Npos a / Npos b)%N in change (Npos a / Npos b)%N with v
         end.
Ltac block_lia := apply eq_iff_eq_true; unfold block4, octets_bound in *;
  rewrite ?andb_true_iff, ?N.eqb_eq, ?N.leb_le, ?in_block_range, ?octet_div; cbn [fst snd]; compute_powers; lia.

Section V4.
Context (ip : N) (Hip : (ip < octets_bound)%N).

Lemma octet_lt k : (octet k ip < 256)%N.
Proof. rewrite octet_div. by apply N.mod_lt. Qed.
Lemma loopback_block : v4_is_loopback ip = block4 0x7F000000 8 ip.
Proof. unfold v4_is_loopback. block_lia. Qed.
Lemma private_block : v4_is_private ip = block4 0x0A000000 8 ip || block4 0xAC100000 12 ip || block4 0xC0A80000 16 ip.
Proof. unfold v4_is_private. f_equal; [f_equal|]; block_lia. Qed.
Lemma link_local_block : v4_is_link_local ip = block4 0xA9FE0000 16 ip.
Proof. unfold v4_is_link_local. block_lia. Qed.
Lemma unspecified_block : (ip =? 0)%N = block4 0 32 ip.
Proof. block_lia. Qed.
Lemma multicast_block : v4_is_multicast ip = block4 0xE0000000 4 ip.
Proof. unfold v4_is_multicast. block_lia. Qed.
Lemma documentation_block : v4_is_documentation ip = block4 0xC0000200 24 ip || block4 0xC6336400 24 ip || block4 0xCB007100 24 ip.
Proof. unfold v4_is_documentation. f_equal; [f_equal|]; block_lia. Qed.
Lemma reserved_block : is_reserved_v4 ip = block4 0xF0000000 4 ip.
Proof. unfold is_reserved_v4. block_lia. Qed.
Lemma broadcast_reserved : (ip =? 0xffffffff)%N = true -> is_reserved_v4 ip = true.
Proof. intros ->%N.eqb_eq. done. Qed.
Lemma cgnat_block : is_shared_cgnat ip = block4 0x64400000 10 ip.
Proof. unfold is_shared_cgnat. rewrite (land_byte _ _ 2 (octet_lt 1)) by done. block_lia. Qed.
Lemma benchmarking_block : is_benchmarking ip = block4 0xC6120000 15 ip.
Proof. unfold is_benchmarking. rewrite (land_byte _ _ 7 (octet_lt 1)) by done. block_lia. Qed.

Lemma forbidden_v4_blocks_exact : is_forbidden_v4 ip = existsb (fun block => in_block 32 block ip) forbidden_v4_blocks.
Proof.
  pose proof broadcast_reserved as Hb. unfold is_forbidden_v4. rewrite reserved_block in *.
  rewrite loopback_block, private_block, link_local_block, unspecified_block, multicast_block, documentation_block, cgnat_block,
    benchmarking_block.
  apply eq_iff_eq_true. unfold forbidden_v4_blocks, block4 in *. cbn [existsb]. rewrite orb_false_r, !orb_true_iff. tauto.
Qed.
End V4.

(** ** IPv6 *)

Definition forbidden_v6_blocks : list (N * N) :=
  [ (1, 128)  (* loopback *); (0, 128)  (* unspecified *); (0xFF000000000000000000000000000000, 8)  (* multicast *);
    (0x20010DB8000000000000000000000000, 32)  (* documentation *); (0xFC000000000000000000000000000000, 7)  (* unique-local *);
    (0xFE800000000000000000000000000000, 10)  (* link-local *) ]%N.
(** The first 96 bits of [::a.b.c.d], [::ffff:a.b.c.d] and [64:ff9b::a.b.c.d]. *)
Definition embedding_prefixes : list N := [0; 0xFFFF; 0x64FF9B0000000000000000]%N.
Definition addresses_bound : N := 340282366920938463463374607431768211456.

Lemma segment_div k ip : segment k ip = ((ip / 2 ^ (16 * (7 - k))) mod 65536)%N.
Proof. unfold segment. rewrite N.shiftr_div_pow2. change 65535%N with (N.ones 16). by rewrite N.land_ones. Qed.
Lemma land_word (x mask prefix : N) : (x < 65536)%N -> (prefix <= 16)%N -> mask = cidr_mask 16 prefix ->
  N.land x mask = (x / 2 ^ (16 - prefix) * 2 ^ (16 - prefix))%N.
Proof. intros Hx Hp ->. by apply land_cidr_mask. Qed.
Lemma low_words ip : N.lor (N.shiftl (segment 6 ip) 16) (segment 7 ip) = (ip mod 2 ^ 32)%N.
Proof.
  rewrite <- N.land_ones. apply N.bits_inj. intros m. unfold segment. change 65535%N with (N.ones 16).
  rewrite N.lor_spec, !N.land_spec. change (16 * (7 - 7))%N with 0%N. change (16 * (7 - 6))%N with 16%N. rewrite N.shiftr_0_r.
  destruct (N.lt_ge_cases m 16) as [Hm|Hm].
  - rewrite N.shiftl_spec_low, !N.ones_spec_low, andb_true_r by lia. done.
  - rewrite N.shiftl_spec_high', N.land_spec, N.shiftr_spec', N.sub_add by done.
    rewrite (N.ones_spec_high 16 m), andb_false_r, orb_false_r by done. destruct (N.lt_ge_cases m 32) as [Hw|Hw].
    + by rewrite !N.ones_spec_low by lia.
    + by rewrite !N.ones_spec_high by lia.
Qed.

Section V6.
Context (ip : N) (Hip : (ip < addresses_bound)%N).
Let block6 network prefix := in_block 128 (network, prefix) ip.
Ltac block6_lia := apply eq_iff_eq_true; unfold block6, addresses_bound in *;
  rewrite ?andb_true_iff, ?N.eqb_eq, ?in_block_range, ?segment_div; cbn [fst snd]; compute_powers; lia.

Lemma segment_lt k : (segment k ip < 65536)%N.
Proof. rewrite segment_div. by apply N.mod_lt. Qed.
Lemma v6_loopback_block : (ip =? 1)%N = block6 1 128.
Proof. block6_lia. Qed.
Lemma v6_unspecified_block : (ip =? 0)%N = block6 0 128.
Proof. block6_lia. Qed.
Lemma v6_multicast_block : (N.land (segment 0 ip) 0xff00 =? 0xff00)%N = block6 0xFF000000000000000000000000000000 8.
Proof. rewrite (land_word _ _ 8 (segment_lt 0)) by done. block6_lia. Qed.
Lemma v6_documentation_block : is_documentation_v6 ip = block6 0x20010DB8000000000000000000000000 32.
Proof. unfold is_documentation_v6. block6_lia. Qed.
Lemma v6_unique_local_block : (N.land (segment 0 ip) 0xfe00 =? 0xfc00)%N = block6 0xFC000000000000000000000000000000 7.
Proof. rewrite (land_word _ _ 7 (segment_lt 0)) by done. block6_lia. Qed.
Lemma v6_link_local_block : (N.land (segment 0 ip) 0xffc0 =? 0xfe80)%N = block6 0xFE800000000000000000000000000000 10.
Proof. rewrite (land_word _ _ 10 (segment_lt 0)) by done. block6_lia. Qed.

(** The six leading segments spell the 96 leading bits. *)
Lemma prefix_segments a b :
  (map (fun position => segment position ip) [0; 1; 2; 3; 4; 5] = [a; b; 0; 0; 0; 0])%N /\ (a < 65536 /\ b < 65536)%N <->
  (ip / 2 ^ 32 = a * 2 ^ 80 + b * 2 ^ 64 /\ a < 65536 /\ b < 65536)%N.
Proof.
  unfold addresses_bound in *. cbn [map]. rewrite !segment_div. compute_powers.
  change (16 * (7 - 0))%N with 112%N. compute_powers. set (h := (ip / 4294967296)%N).
  assert (Hdiv : forall c, (0 < c)%N -> (ip / (4294967296 * c) = h / c)%N) by (intros c Hc; unfold h; by rewrite N.Div0.div_div).
  assert (h < 79228162514264337593543950336)%N as Hh by (unfold h; lia).
  assert (ip / 5192296858534827628530496329220096 = h / 1208925819614629174706176)%N as -> by exact (Hdiv 1208925819614629174706176%N eq_refl).
  assert (ip / 79228162514264337593543950336 = h / 18446744073709551616)%N as -> by exact (Hdiv 18446744073709551616%N eq_refl).
  assert (ip / 1208925819614629174706176 = h / 281474976710656)%N as -> by exact (Hdiv 281474976710656%N eq_refl).
  assert (ip / 18446744073709551616 = h / 4294967296)%N as -> by exact (Hdiv 4294967296%N eq_refl).
  assert (ip / 281474976710656 = h / 65536)%N as -> by exact (Hdiv 65536%N eq_refl).
  clearbody h. clear Hdiv. split.
  - intros [[= H0 H1 H2 H3 H4 H5] Hab]. lia.
  - intros (-> & Ha & Hb). split; [|done]. repeat f_equal; lia.
Qed.

Lemma embeds_exact : embeds_forbidden_v4 ip =
  ((ip / 2 ^ 32 =? 0) || (ip / 2 ^ 32 =? 0x64FF9B0000000000000000))%N && is_forbidden_v4 (ip mod 2 ^ 32).
Proof.
  unfold embeds_forbidden_v4. rewrite low_words.
  assert (forall a b, (a < 65536)%N -> (b < 65536)%N ->
    bool_decide (map (fun position => segment position ip) [0; 1; 2; 3; 4; 5]%N = [a; b; 0; 0; 0; 0]%N) =
    (ip / 2 ^ 32 =? a * 2 ^ 80 + b * 2 ^ 64)%N) as Hp.
  { intros a b Ha Hb. apply eq_iff_eq_true. rewrite bool_decide_eq_true, N.eqb_eq. pose proof (prefix_segments a b). tauto. }
  rewrite (Hp 0%N 0%N), (Hp 0x64%N 0xff9b%N) by done. change (0 * 2 ^ 80 + 0 * 2 ^ 64)%N with 0%N.
  change (0x64 * 2 ^ 80 + 0xff9b * 2 ^ 64)%N with 0x64FF9B0000000000000000%N.
  by destruct (ip / 2 ^ 32 =? 0)%N, (ip / 2 ^ 32 =? 0x64FF9B0000000000000000)%N.
Qed.

(** A mapped address lies in none of the blocks. *)
Lemma mapped_outside : (ip / 2 ^ 32 = 0xFFFF)%N -> existsb (fun block => in_block 128 block ip) forbidden_v6_blocks = false.
Proof.
  intros E. assert (281470681743360 <= ip < 281474976710656)%N as Hr by (change (2 ^ 32)%N with 4294967296%N in E; lia). clear E.
  apply Bool.not_true_iff_false. unfold forbidden_v6_blocks. cbn [existsb]. rewrite orb_false_r, !orb_true_iff, !in_block_range.
  compute_powers. lia.
Qed.

Lemma forbidden_v6_blocks_exact : is_forbidden_v6 ip =
  existsb (fun block => in_block 128 block ip) forbidden_v6_blocks ||
  existsb (N.eqb (ip / 2 ^ 32)) embedding_prefixes && is_forbidden_v4 (ip mod 2 ^ 32).
Proof.
  unfold is_forbidden_v6, to_ipv4_mapped. rewrite N.shiftr_div_pow2. change 0xffffffff%N with (N.ones 32).
  destruct (N.eqb_spec (ip / 2 ^ 32) 0xFFFF) as [E|E].
  - rewrite mapped_outside, N.land_ones by done. unfold embedding_prefixes. rewrite E. done.
  - rewrite v6_loopback_block, v6_unspecified_block, v6_multicast_block, v6_documentation_block, v6_unique_local_block,
      v6_link_local_block, embeds_exact. unfold forbidden_v6_blocks, embedding_prefixes. cbn [existsb].
    apply N.eqb_neq in E. rewrite E, !orb_false_r. simpl orb at 8. by rewrite !orb_assoc.
Qed.
End V6.

(** ** The guard *)

Section GuardSpec.
Context {W : Type} `{!NetLib W}.

(** The addresses an admitted destination leads to, as far as this process knows them. *)
Definition known_targets (scheme : DialScheme) (host : string) (port : N) (route : DialRoute) : list IpAddr :=
  match route with
  | DialDirect addresses => addresses
  | DialProxied => option_list (dialled_literal (normalised_destination scheme host port))
  end.

Lemma guard_targets scheme host port trusted w route w' : guard_destination scheme host port trusted w = (Ok route, w') ->
  host_is_trusted host trusted = false -> forall ip, In ip (known_targets scheme host port route) -> is_forbidden_ip ip = false.
Proof.
  unfold guard_destination, known_targets, resolve_and_validate, io_bind, io_ret, io_fail. intros H Ht ip.
  destruct (default RouteDirect _).
  - destruct (lookup_host host port w) as [[addresses|] w1]; [|done]. rewrite Ht in H.
    destruct (List.find is_forbidden_ip addresses) eqn:Ef; [done|]. simplify_eq/=. by apply (find_none _ _ Ef).
  - rewrite Ht in H. destruct (dialled_literal _) as [literal|]; [|by simplify_eq/=].
    destruct (is_forbidden_ip literal) eqn:El; [done|]. simplify_eq/=. by intros [<-|[]].
Qed.
End GuardSpec.

(** The address classes the guard refuses. *)
Definition refused_target (ip : IpAddr) : Prop :=
  match ip with
  | V4 v4 => exists block, In block forbidden_v4_blocks /\ in_block 32 block v4 = true
  | V6 v6 => (exists block, In block forbidden_v6_blocks /\ in_block 128 block v6 = true) \/
             (In (v6 / 2 ^ 32)%N embedding_prefixes /\
              exists block, In block forbidden_v4_blocks /\ in_block 32 block (v6 mod 2 ^ 32) = true)
  end.
Definition address_wf (ip : IpAddr) : Prop := match ip with V4 v4 => (v4 < octets_bound)%N | V6 v6 => (v6 < addresses_bound)%N end.

Lemma is_forbidden_refused ip : address_wf ip -> is_forbidden_ip ip = true <-> refused_target ip.
Proof.
  destruct ip as [v4|v6]; simpl; intros Hw.
  - by rewrite forbidden_v4_blocks_exact, existsb_exists.
  - rewrite forbidden_v6_blocks_exact, orb_true_iff, andb_true_iff, !existsb_exists by done.
    rewrite forbidden_v4_blocks_exact, existsb_exists by (by apply N.mod_lt). apply or_iff_compat_l, and_iff_compat_r.
    split; [by intros (x & Hx & ->%N.eqb_eq)|]. intros Hin. eexists. split; [exact Hin|apply N.eqb_refl].
Qed.

(** C24: a remote-controlled host cannot lead ocx into the local network.  When the guard admits a destination whose host is not
    trusted, no address this process would dial (the resolved ones on a direct route, the literal one through a proxy) lies in a
    refused block: unspecified, private, shared, loopback, link-local (the metadata address among them), documentation,
    benchmarking, multicast or reserved, nor is it the IPv4-mapped, the IPv4-compatible or the [64:ff9b::/96] NAT64 form of such
    an IPv4 address.  Other embeddings ([2002::/16], [64:ff9b:1::/48]) are not unwrapped and not covered. *)
Theorem guard_admits_no_local_target {W : Type} `{!NetLib W} (scheme : DialScheme) (host : string) (port : N) (trusted : list string)
    (w w' : W) (route : DialRoute) (Hg : guard_destination scheme host port trusted w = (Ok route, w'))
    (Ht : host_is_trusted host trusted = false) (ip : IpAddr) (Hip : In ip (known_targets scheme host port route)) (Hw : address_wf ip) :
  ~ refused_target ip.
Proof.
  rewrite <- is_forbidden_refused by done. apply not_true_iff_false. by eapply guard_targets.
Qed.
