(* ===== verification/IndexStore.v ===== *)
(** * The index collection on disk

    [crates/ocx_index/src/store.rs], with [error.rs], the sweep of [regenerate.rs] and the
    containment check of [crates/ocx_util/src/fs/path.rs]: where the documents of a source live
    under the index home, the verified objects, the root documents, the catalog transaction and
    the self-heal of a catalog entry.

    The file system is the class [IndexDisk]: the calls of the operating system the code makes,
    as operations on a world.  A lock is a call that may fail and is released when its holder
    returns; JSON texts and hashes are the classes [Codec], [RootCodec] and [IndexCodec]. *)

From stdpp Require Import base decidable list option numbers strings gmap.
From Stdlib Require Import Ascii.
From S2P Require Import Prelude OMap Text Digest PackageRef Platform Registry RootMerge.
From S2P Require Import TextSearch ConfigLoad Store Ssrf.
Local Open Scope ocx_scope.
Local Open Scope string_scope.

(** ** Containment *)

(** [has_windows_prefix], [has_leading_separator], [join_under_root] under the sentinel root. *)
Definition is_path_sep (c : ascii) : bool := Ascii.eqb c "\" || Ascii.eqb c "/".
Definition has_windows_prefix (path : string) : bool :=
  match path with
  | String a (String b _) => ((is_upper a || is_lower a) && Ascii.eqb b ":") || (is_path_sep a && is_path_sep b)
  | _ => false
  end.
Definition has_leading_separator (path : string) : bool :=
  match path with String a _ => is_path_sep a | EmptyString => false end.
Definition lexical_names (rooted : bool) (names : list string) : list string := rev (fold_left (normalize_step rooted) names []).
Inductive PathEscapeError : Type := PathAbsolute | PathWindowsPrefix | PathEscapes | PathTooLong | PathControlCharacter.
Definition index_home_sentinel : string := "ocx-index-home".
Definition join_under_root (untrusted_relative : string) : result PathEscapeError (list string) :=
  if has_windows_prefix untrusted_relative then Err PathWindowsPrefix
  else if has_leading_separator untrusted_relative then Err PathAbsolute
  else
    let normalized := lexical_names false (path_names (replace_char "\" "/" untrusted_relative)) in
    match normalized with
    | [] => Ok [index_home_sentinel]
    | _ :: _ =>
        if existsb (String.eqb "..") normalized then Err PathEscapes
        else if negb (path_starts_with [index_home_sentinel] (lexical_names true (index_home_sentinel :: normalized))) then Err PathEscapes
        else Ok (index_home_sentinel :: normalized)
    end.

(** ** Errors *)

Inductive FsKind : Type := FsNotFound | FsTimedOut | FsOther.
Record FsError : Type := mkFsError { fe_kind : FsKind; fe_raw_os_error : bool }.

(** [enum PolicyBlock]. *)
Inductive PolicyBlock : Type := UnpinnedTag | UnrecordedLocation.
(** [enum Error] of the index, with the store's own refusals, which it wraps, as variants beside
    it.  Rendered messages and the errors of libraries are left out. *)
#[warnings="-register-all"]
Inductive IndexError : Type :=
| SerializationFailure
| OciClientFailed (source : ClientError)
| IxDigestInvalid (source : DigestError)
| StoreDigestMismatch (claimed computed : Digest)
| MalformedRootDocument (index_source repository : string)
| RepositoryEscapesIndexHome (repository : string) (source : PathEscapeError)
| FileFailed (path : Path) (cause : FsError)
| IxPinnedIdentifier
| PathInvalid (path : Path)
| RemoteManifestNotFound (identifier : string)
| NoIndexableTag (identifier : string)
| SourceWalkFailed (cause : IndexError)
| SourceFetchFailed (cause : IndexError)
| SingleflightFailed (leader : option IndexError)
| PolicyResolutionBlocked (identifier policy : string) (block : PolicyBlock)
| UnsupportedIndexFormat (version : N)
| DispatchObjectDigestMismatch (claimed computed : Digest)
| WalkedDigestMismatch (requested answered : Digest)
| YankedRefused (identifier : string)
| NotInIndex (identifier namespace base_url : string)
| MalformedPhysicalRef (value : string)
| SsrfRefused (namespace : string) (source : SsrfError)
| RootRepositoryMismatch (repository expected found : string)
| IxInvalidImageIndex (source : InvalidImageIndex)
| MalformedIndexDocument (url : string)
| IndexHttpFailed (url : string) (status : option N)
| NestedImageIndex (digest : Digest)
| PlainHttpIndexNotAllowed (namespace host : string)
| InvalidIndexUrl (namespace url origin : string)
| MalformedCatalogKey (index_source key reason : string)
| CatalogDocumentAbsent (index_source url : string).

(** [error::coalesced_cause]. *)
Definition coalesced_cause (error : IndexError) : IndexError :=
  match error with
  | SourceFetchFailed cause => cause
  | SingleflightFailed (Some leader) => leader
  | other => other
  end.

(** [struct DerivedTag], [struct DerivedRoot] of [local_index.rs]. *)
Record DerivedTag : Type := mkDerivedTag { dt_content : Digest; dt_observed : string }.
Record DerivedRoot : Type := mkDerivedRoot { dr_repository : string; dr_tags : list (string * DerivedTag) }.

Section IndexStore.
Context `{U : OciSpec} `{!Codec} `{!RootCodec Bytes}.

Class IndexCodec : Type := {
  bytes_eqb : Bytes -> Bytes -> bool;
  image_index_from_slice : Bytes -> option ImageIndex;
  derived_from_slice : Bytes -> option DerivedRoot;
  derived_to_vec_pretty : DerivedRoot -> option Bytes;
  catalog_from_slice : Bytes -> option CatalogDocument;
  serialize_catalog : CatalogDocument -> Bytes;
  config_from_slice : Bytes -> option IndexFormatConfig;
  serialize_config : IndexFormatConfig -> Bytes;
}.

(** A named temporary file: its directory and what was written to it. *)
Record TempFile : Type := mkTempFile { tf_parent : Path; tf_bytes : Bytes }.
Class IndexDisk (W : Type) : Type := {
  fs_read : Path -> io W FsError Bytes;
  fs_len : Path -> W -> option N;
  fs_exists : Path -> W -> bool;
  fs_create_dir_all : Path -> io W FsError unit;
  fs_write_temp : TempFile -> io W FsError unit;
  fs_persist : TempFile -> Path -> io W FsError unit;
  fs_remove_file : Path -> io W FsError unit;
  fs_lock : Path -> string -> Path -> string -> io W FsError unit;
  fs_now : W -> string;
}.
Context {W : Type} `{!IndexDisk W} `{!IndexCodec}.

(** [struct IndexStore]. *)
Record IndexStore : Type := mkIndexStore { st_root : Path; st_locks_root : Path }.
Implicit Types (store : IndexStore) (source repository : string).

Definition file_error {A : Type} (path : Path) (m : io W FsError A) : io W IndexError A := io_map_err (FileFailed path) m.

Definition ensure_repository_contained repository : result IndexError unit :=
  let? _ := result_map_err (RepositoryEscapesIndexHome repository) (join_under_root repository) in Ok tt.
Definition ensure_source_contained source : result IndexError unit :=
  let? _ := result_map_err (RepositoryEscapesIndexHome source) (join_under_root (slugify source)) in Ok tt.

(** ** Paths *)

(** [Path::with_added_extension]. *)
Definition with_added_extension (extension : string) (path : Path) : Path :=
  match last path with
  | Some name => if String.eqb name ".." then path else (removelast path ++ [name +:+ "." +:+ extension])%list
  | None => path
  end.
Definition wire_source_dir store source : Path := join (st_root store) (slugify source).
Definition source_config_path store source : Path := join (wire_source_dir store source) "config.json".
Definition source_catalog_path store source : Path := join (join (wire_source_dir store source) "c") "index.json".
Definition root_document_path store source repository : Path :=
  with_added_extension "json" (join_all (join (wire_source_dir store source) "p") (repository_path repository)).
Definition dispatch_object_path store source repository (digest : Digest) : Path :=
  join (join (join (join_all (join (wire_source_dir store source) "p") (repository_path repository)) "o")
         (algorithm_prefix (digest_algorithm digest))) (digest_hex digest +:+ ".json").

(** ** Verified objects *)

(** [tokio::fs::read] with an absent file as [None]. *)
Definition read_optional (target : Path) : io W IndexError (option Bytes) :=
  let! read := io_try (fs_read target) in
  match read with
  | Ok bytes => io_ret (Some bytes)
  | Err e => match fe_kind e with FsNotFound => io_ret None | _ => io_fail (FileFailed target e) end
  end.
(** [std::fs::create_dir_all] of the parent, and the parent itself. *)
Definition create_parent (target : Path) : io W IndexError Path :=
  match path_parent target with
  | None => io_fail (FileFailed target (mkFsError FsOther false))
  | Some parent => let! _ := file_error parent (fs_create_dir_all parent) in io_ret parent
  end.

Definition write_verified_object (target : Path) (claimed_digest : Digest) (bytes : Bytes) : io W IndexError unit :=
  let computed := hash (digest_algorithm claimed_digest) bytes in
  if negb (bool_decide (computed = claimed_digest)) then io_fail (StoreDigestMismatch claimed_digest computed)
  else
    let! existing := io_try (fs_read target) in
    if match existing with Ok held => bool_decide (hash (digest_algorithm claimed_digest) held = computed) | Err _ => false end
    then io_ret tt
    else
      let! parent := create_parent target in
      let tmp := mkTempFile parent bytes in
      let! _ := file_error target (fs_write_temp tmp) in
      let! persisted := io_try (fs_persist tmp target) in
      match persisted with
      | Ok _ => io_ret tt
      | Err err =>
          let! current := io_try (fs_read target) in
          match current with
          | Ok held => if bool_decide (hash (digest_algorithm claimed_digest) held = claimed_digest) then io_ret tt else io_fail (FileFailed target err)
          | Err _ => io_fail (FileFailed target err)
          end
      end.

Definition read_verified_object (target : Path) (digest : Digest) : io W IndexError (option Bytes) :=
  let! read := read_optional target in
  match read with
  | None => io_ret None
  | Some bytes =>
      let computed := hash (digest_algorithm digest) bytes in
      if negb (bool_decide (computed = digest)) then io_fail (StoreDigestMismatch digest computed) else io_ret (Some bytes)
  end.

Definition write_dispatch_object store source repository (claimed_digest : Digest) (bytes : Bytes) : io W IndexError unit :=
  let! _ := io_of (ensure_source_contained source) in
  let! _ := io_of (ensure_repository_contained repository) in
  write_verified_object (dispatch_object_path store source repository claimed_digest) claimed_digest bytes.
Definition read_dispatch_object store source repository (digest : Digest) : io W IndexError (option Bytes) :=
  let! _ := io_of (ensure_source_contained source) in
  let! _ := io_of (ensure_repository_contained repository) in
  read_verified_object (dispatch_object_path store source repository digest) digest.

(** ** Documents *)

Definition lock_source store (scope source discriminator : string) : io W IndexError unit :=
  let! _ := io_of (ensure_source_contained source) in
  let source_dir := wire_source_dir store source in
  let! _ := file_error source_dir (fs_create_dir_all source_dir) in
  file_error (st_locks_root store) (fs_lock (st_locks_root store) scope source_dir discriminator).

Definition write_bytes_atomic (target : Path) (bytes : Bytes) : io W IndexError unit :=
  let! parent := create_parent target in
  let tmp := mkTempFile parent bytes in
  let! _ := file_error target (fs_write_temp tmp) in
  file_error target (fs_persist tmp target).

Definition read_root_document_bytes store source repository : io W IndexError (option Bytes) :=
  let! _ := io_of (ensure_source_contained source) in
  let! _ := io_of (ensure_repository_contained repository) in
  read_optional (root_document_path store source repository).
Definition write_root_document store source repository (bytes : Bytes) : io W IndexError unit :=
  let! _ := io_of (ensure_source_contained source) in
  let! _ := io_of (ensure_repository_contained repository) in
  write_bytes_atomic (root_document_path store source repository) bytes.

(** [gate_format_version], with the error of the index. *)
Definition gate {A : Type} (r : result N A) : io W IndexError A := io_of (result_map_err UnsupportedIndexFormat r).

Definition read_source_catalog store source : io W IndexError (option CatalogIndex) :=
  let! _ := io_of (ensure_source_contained source) in
  let! read := read_optional (source_catalog_path store source) in
  match read with
  | None => io_ret None
  | Some bytes =>
      match catalog_from_slice bytes with
      | None => io_fail SerializationFailure
      | Some document => let! packages := gate (into_packages document) in io_ret (Some packages)
      end
  end.
(** The [url] of the error is the path's text; its components stand for it. *)
Definition read_source_config store source : io W IndexError (option IndexFormatConfig) :=
  let! _ := io_of (ensure_source_contained source) in
  let target := source_config_path store source in
  let! read := read_optional target in
  match read with
  | None => io_ret None
  | Some bytes =>
      match config_from_slice bytes with
      | None => io_fail (MalformedIndexDocument (str_join "/" target))
      | Some config => io_ret (Some config)
      end
  end.
Definition ensure_source_config store source : io W IndexError unit :=
  let! _ := lock_source store "index-catalog" source "c/index.json" in
  let target := source_config_path store source in
  let! present := (fun w => (Ok (fs_exists target w), w)) in
  if present then io_ret tt else write_bytes_atomic target (serialize_config (mkFormatConfig SUPPORTED_FORMAT_VERSION None)).

(** ** Roots and the catalog *)

Definition root_catalog_entry (bytes : Bytes) : string := digest_display (hash Sha256 bytes).

(** [enum CatalogEntryStatus], [struct RootReadResult]. *)
Inductive CatalogEntryStatus : Type := NoCatalog | Consistent (entry : string) | Recovered (entry : string).
Record RootReadResult : Type := mkRootRead { rr_bytes : Bytes; rr_root : IndexRoot; rr_catalog_status : CatalogEntryStatus }.

Definition read_root_inner store source repository (repository_check : IndexRoot -> result IndexError unit) :
    io W IndexError (option (Bytes * IndexRoot)) :=
  let! _ := io_of (ensure_source_contained source) in
  let! _ := io_of (ensure_repository_contained repository) in
  let! read := read_optional (root_document_path store source repository) in
  match read with
  | None => io_ret None
  | Some bytes =>
      match root_from_slice bytes with
      | None => io_fail (MalformedRootDocument source repository)
      | Some root => let! _ := io_of (repository_check root) in io_ret (Some (bytes, root))
      end
  end.

(** [struct CatalogTransaction]: the map as read under the lock, and the one to publish. *)
Record CatalogTransaction : Type := mkTransaction { tx_source : string; tx_original : CatalogIndex; tx_catalog : CatalogIndex }.
Definition tx_insert (repository entry : string) (tx : CatalogTransaction) : CatalogTransaction :=
  mkTransaction (tx_source tx) (tx_original tx) (om_insert repository entry (tx_catalog tx)).

Definition begin_catalog_transaction store source : io W IndexError CatalogTransaction :=
  let! _ := lock_source store "index-catalog" source "c/index.json" in
  let! read := read_source_catalog store source in
  let catalog := default [] read in
  io_ret (mkTransaction source catalog catalog).
Definition write_root store (tx : CatalogTransaction) repository (bytes : Bytes) (repository_check : IndexRoot -> result IndexError unit) :
    io W IndexError CatalogTransaction :=
  let! _ := io_of (ensure_repository_contained repository) in
  match root_from_slice bytes with
  | None => io_fail (MalformedRootDocument (tx_source tx) repository)
  | Some root =>
      let! _ := io_of (repository_check root) in
      let! _ := write_bytes_atomic (root_document_path store (tx_source tx) repository) bytes in
      io_ret (tx_insert repository (root_catalog_entry bytes) tx)
  end.
Definition commit store (tx : CatalogTransaction) : io W IndexError unit :=
  let catalog_path := source_catalog_path store (tx_source tx) in
  let! _ := io_try (fs_remove_file (with_added_extension "etag" catalog_path)) in
  if bool_decide (tx_catalog tx = tx_original tx) then io_ret tt
  else write_bytes_atomic catalog_path (serialize_catalog (catalog_document_new (tx_catalog tx))).

Definition persist_recovered_catalog_entry store source repository (repository_check : IndexRoot -> result IndexError unit)
    (prelock_bytes : Bytes) (prelock_root : IndexRoot) : io W IndexError (Bytes * IndexRoot * string) :=
  let! transaction := begin_catalog_transaction store source in
  let! fresh := read_root_inner store source repository repository_check in
  let '(bytes, root) := default (prelock_bytes, prelock_root) fresh in
  let recovered_entry := root_catalog_entry bytes in
  let! _ := commit store (tx_insert repository recovered_entry transaction) in
  io_ret (bytes, root, recovered_entry).

Definition read_root store source repository (repository_check : IndexRoot -> result IndexError unit) : io W IndexError (option RootReadResult) :=
  let! inner := read_root_inner store source repository repository_check in
  match inner with
  | None => io_ret None
  | Some (bytes, root) =>
      let derived_entry := root_catalog_entry bytes in
      let! catalog := read_source_catalog store source in
      if bool_decide (catalog ≫= om_get repository = Some derived_entry)
      then io_ret (Some (mkRootRead bytes root (Consistent derived_entry)))
      else
        let! healed := io_try (persist_recovered_catalog_entry store source repository repository_check bytes root) in
        match healed with
        | Ok (bytes, root, recovered_entry) => io_ret (Some (mkRootRead bytes root (Recovered recovered_entry)))
        | Err _ => io_ret (Some (mkRootRead bytes root (Recovered derived_entry)))
        end
  end.
Definition read_root_uncatalogued store source repository (repository_check : IndexRoot -> result IndexError unit) :
    io W IndexError (option RootReadResult) :=
  let! inner := read_root_inner store source repository repository_check in
  io_ret ((fun '(bytes, root) => mkRootRead bytes root NoCatalog) <$> inner).

(** ** The sweep *)

(** [sweep_orphan_objects] of [regenerate.rs]. *)
Definition sweep_step store source repository (removed : list string) (digest : Digest) : io W IndexError (list string) :=
  let! unlinked := io_try (fs_remove_file (dispatch_object_path store source repository digest)) in
  match unlinked with
  | Ok _ => io_ret (removed ++ ["p/" +:+ repository +:+ "/o/" +:+ algorithm_prefix (digest_algorithm digest) +:+ "/" +:+ digest_hex digest +:+ ".json"])%list
  | Err _ => io_ret removed
  end.
Definition sweep_orphan_objects store source repository (previously_pinned now_pinned : list Digest) : io W IndexError (list string) :=
  let! _ := io_of (ensure_source_contained source) in
  let! _ := io_of (ensure_repository_contained repository) in
  let! removed := io_foldl (sweep_step store source repository) [] (List.filter (fun digest => negb (bool_decide (digest ∈ now_pinned))) previously_pinned) in
  io_ret (ord_sort removed).
End IndexStore.
