(* ===== verification/LocalIndex.v ===== *)
(** * The local index

    [crates/ocx_index/src/local_index.rs], the local copy of every index: the resolution of a
    reference against it, the commits of root documents, and the refresh of a package from a
    source.  A source ([crates/ocx_index/src/index_impl.rs], [trait IndexImpl]) is the record
    [Source] of its operations; the calls through [Index] ([lib.rs]) are the [index_] functions.
    A refresh runs its tags concurrently: [schedule] says which of those in flight ends next. *)

From stdpp Require Import base decidable list option numbers strings gmap.
From Stdlib Require Import Ascii.
From S2P Require Import Prelude OMap Text Digest Tag PackageRef Platform Registry RootMerge Store IndexStore.
Local Open Scope ocx_scope.
Local Open Scope string_scope.

(** ** Data *)

(** [enum Jurisdiction], [enum ChainMode] and its label, [enum IndexOperation], [enum SourceKind]. *)
Inductive Jurisdiction : Type := Authoritative | FallThrough | Outside.
Inductive ChainMode : Type := ModeDefault | ModeRemote | ModeOffline | ModeFrozen.
Inductive IndexOperation : Type := Query | Resolve.
Inductive SourceKind : Type := Published | Derived.
#[export] Instance ChainMode_eq_dec : EqDecision ChainMode.
Proof. solve_decision. Defined.
#[export] Instance IndexOperation_eq_dec : EqDecision IndexOperation.
Proof. solve_decision. Defined.
Definition policy_label (mode : ChainMode) : string :=
  match mode with ModeDefault => "default" | ModeRemote => "remote" | ModeOffline => "offline" | ModeFrozen => "frozen" end.

Section LocalIndex.
Context `{U : OciSpec} `{!Codec} `{!RootCodec Bytes} `{!IndexCodec} {W : Type} `{!IndexDisk W}.

(** [trait IndexImpl], as a chain or a refresh calls it. *)
Record Source : Type := mkSource {
  src_list_repositories : string -> io W IndexError (list string);
  src_list_tags : PackageRef -> io W IndexError (option (list string));
  src_fetch_manifest : PackageRef -> IndexOperation -> io W IndexError (option (Digest * Manifest));
  src_fetch_manifest_digest : PackageRef -> IndexOperation -> io W IndexError (option Digest);
  src_fetch_blob : PinnedPackageRef -> io W IndexError (option Bytes);
  src_fetch_manifest_raw_bytes : PackageRef -> io W IndexError (option (Bytes * Digest * Manifest));
  src_fetch_root_document : PackageRef -> io W IndexError (option (Bytes * IndexRoot));
  src_revalidate_root_document : PackageRef -> io W IndexError (option (Bytes * IndexRoot));
  src_physical_reference : PackageRef -> io W IndexError (option OciIdentifier);
  src_jurisdiction : PackageRef -> Jurisdiction;
  src_serves_registry : string -> bool;
  src_trusted_hosts : list string;
  src_index_base_url : option string;
  src_source_kind : SourceKind;
}.

(** [Index::list_tags], [Index::physical_reference]. *)
Definition index_list_tags (source : Source) (identifier : PackageRef) : io W IndexError (option (list string)) :=
  let! listed := src_list_tags source identifier in
  io_ret ((fun tags => ord_sort (List.filter (fun tag => negb (is_reserved_tag tag)) tags)) <$> listed).
Definition index_physical_reference (source : Source) (identifier : PackageRef) : io W IndexError (option OciIdentifier) :=
  let! physical := src_physical_reference source identifier in
  io_ret ((fun location => at_version_of location identifier) <$> physical).

(** The sources this process has gated, [gated_sources]. *)
Class IndexProcess : Type := {
  gated_contains : string -> W -> bool;
  gated_insert : string -> W -> W;
}.
Context `{!IndexProcess}.

(** [struct LocalIndex]. *)
Record LocalIndex : Type := mkLocalIndex {
  li_index_store : IndexStore;
  li_allow_yanked : bool;
  li_trusted_hosts : gmap string (list string);
  li_insecure_hosts : list string;
  li_index_namespaces : gset string;
}.
Implicit Types (local : LocalIndex) (identifier : PackageRef).
Definition is_index_namespace local (registry : string) : bool := bool_decide (registry ∈ li_index_namespaces local).
Definition local_trusted_hosts_for local (registry : string) : list string := default [] (li_trusted_hosts local !! registry).

(** [enum DispatchResolution], [struct RootPins]. *)
Inductive DispatchResolution : Type := Dispatch (content : Digest) (index : ImageIndex) | AbsentDispatch (content : Digest).
Record RootPins : Type := mkRootPins { rp_previous : list Digest; rp_current : list Digest }.

(** ** Reads *)

(** [parse_repository_pointer] of [lib.rs], and the check every root read makes with it. *)
Definition parse_pointer (value : string) : result IndexError OciIdentifier :=
  result_map_err (fun _ => MalformedPhysicalRef value) (parse_repository_pointer value).
Definition repository_check (root : IndexRoot) : result IndexError unit :=
  let? _ := parse_pointer (ir_repository root) in Ok tt.

(** [check_format_version]. *)
Definition check_format_version local (source : string) : io W IndexError unit :=
  let! gated := (fun w => (Ok (gated_contains source w), w)) in
  if gated then io_ret tt
  else
    let! read := read_source_config (li_index_store local) source in
    let config := default assumed_v1 read in
    let! _ := gate (gate_format_version (fc_format_version config)) in
    fun w => (Ok tt, gated_insert source w).

Definition read_root_by_kind local (source repository : string) (kind : SourceKind) : io W IndexError (option RootReadResult) :=
  let! _ := check_format_version local source in
  match kind with
  | Published => read_root (li_index_store local) source repository repository_check
  | Derived => read_root_uncatalogued (li_index_store local) source repository repository_check
  end.

(** [surface_root_status] of [ocx_index.rs]; its warnings are left out. *)
Definition surface_root_status identifier (root : IndexRoot) (tag : RootTag) (allow_yanked : bool) : result IndexError unit :=
  let yanked := bool_decide (is_Some (rt_yanked tag)) || bool_decide (ir_status root = Some "yanked") in
  if yanked && negb allow_yanked then Err (YankedRefused (ref_display identifier)) else Ok tt.

Definition decode_index_manifest (bytes : Bytes) : result IndexError (option ImageIndex) :=
  match image_index_from_slice bytes with
  | None => Ok None
  | Some index => let? _ := result_map_err IxInvalidImageIndex (validate_image_index index) in Ok (Some index)
  end.

(** The digest a reference names in the local copy. *)
Definition resolve_content local identifier (kind : SourceKind) : io W IndexError (option Digest) :=
  match pr_digest identifier with
  | Some digest => io_ret (Some digest)
  | None =>
      let! result := read_root_by_kind local (pr_registry identifier) (pr_repository identifier) kind in
      match result with
      | None => io_ret None
      | Some read =>
          match om_get (tag_or_latest identifier) (ir_tags (rr_root read)) with
          | None => io_ret None
          | Some tag_entry =>
              let! _ := io_of (surface_root_status identifier (rr_root read) tag_entry (li_allow_yanked local)) in
              io_ret (Some (rt_content tag_entry))
          end
      end
  end.
Definition resolve_dispatch local identifier (kind : SourceKind) : io W IndexError (option DispatchResolution) :=
  let! named := resolve_content local identifier kind in
  match named with
  | None => io_ret None
  | Some content =>
      let! object := read_dispatch_object (li_index_store local) (pr_registry identifier) (pr_repository identifier) content in
      match object with
      | None => io_ret (Some (AbsentDispatch content))
      | Some bytes =>
          let! decoded := io_of (decode_index_manifest bytes) in
          io_ret (Some match decoded with Some index => Dispatch content index | None => AbsentDispatch content end)
      end
  end.

Definition list_local_tags local identifier (kind : SourceKind) : io W IndexError (option (list string)) :=
  let! result := read_root_by_kind local (pr_registry identifier) (pr_repository identifier) kind in
  io_ret ((fun read => om_keys (ir_tags (rr_root read))) <$> result).

(** [LocalIndex::physical_reference]. *)
Definition local_physical_reference local identifier (kind : SourceKind) : io W IndexError (option OciIdentifier) :=
  let! result := read_root_by_kind local (pr_registry identifier) (pr_repository identifier) kind in
  match result with
  | None => io_ret None
  | Some read =>
      let! physical := io_of (parse_pointer (ir_repository (rr_root read))) in
      io_ret (Some (at_version_of physical identifier))
  end.

(** ** Writes *)

Definition stage_dispatch_bytes local identifier (digest : Digest) (bytes : Bytes) : io W IndexError unit :=
  write_dispatch_object (li_index_store local) (pr_registry identifier) (pr_repository identifier) digest bytes.
Definition fetch_dispatch_only (source : Source) identifier : io W IndexError (option (Bytes * Digest * Manifest)) :=
  src_fetch_manifest_raw_bytes source identifier.
Definition persist_dispatch local (source : Source) identifier : io W IndexError (option (Bytes * Digest * Manifest)) :=
  let! fetched := src_fetch_manifest_raw_bytes source identifier in
  match fetched with
  | None => io_ret None
  | Some (bytes, digest, manifest) =>
      let! _ := match manifest with MIndex _ => stage_dispatch_bytes local identifier digest bytes | MImage _ => io_ret tt end in
      io_ret (Some (bytes, digest, manifest))
  end.

(** [records_root_tag]. *)
Definition records_root_tag (tag : string) (manifest : Manifest) : bool :=
  match manifest with MIndex _ => negb (is_reserved_tag tag) | MImage _ => false end.

(** [commit_root_tags]: one locked read-modify-write of an OCX-authored root. *)
Definition expected_repository (source repository : string) : string := "oci://" +:+ source +:+ "/" +:+ repository.
Definition derived_pins (doc : DerivedRoot) : list Digest := map (fun row => dt_content row.2) (dr_tags doc).
Definition read_derived_root local (source repository : string) : io W IndexError DerivedRoot :=
  let fresh := mkDerivedRoot (expected_repository source repository) [] in
  let! read := read_root_document_bytes (li_index_store local) source repository in
  match read with
  | None => io_ret fresh
  | Some bytes =>
      match derived_from_slice bytes with
      | None => io_ret fresh
      | Some doc =>
          if negb (String.eqb (dr_repository doc) (expected_repository source repository))
          then io_fail (RootRepositoryMismatch repository (expected_repository source repository) (dr_repository doc))
          else io_ret doc
      end
  end.
Definition upsert_tags (observed : string) (doc : DerivedRoot) (entries : list (string * Digest)) : DerivedRoot :=
  mkDerivedRoot (dr_repository doc)
    (fold_left (fun tags '(tag, content) => om_insert tag (mkDerivedTag content observed) tags) entries (dr_tags doc)).
Definition commit_root_tags local identifier (entries : list (string * Digest)) : io W IndexError RootPins :=
  match entries with
  | [] => io_ret (mkRootPins [] [])
  | _ :: _ =>
      let source := pr_registry identifier in
      let repository := pr_repository identifier in
      let! _ := lock_source (li_index_store local) "index-root" source repository in
      let! doc := read_derived_root local source repository in
      let! observed := (fun w => (Ok (fs_now w), w)) in
      let updated := upsert_tags observed doc entries in
      match derived_to_vec_pretty updated with
      | None => io_fail SerializationFailure
      | Some bytes =>
          let! _ := write_root_document (li_index_store local) source repository bytes in
          io_ret (mkRootPins (derived_pins doc) (derived_pins updated))
      end
  end.
(** [commit_root_tag], of the tag the caller checked the reference to carry. *)
Definition commit_root_tag local identifier (tag : string) (content : Digest) : io W IndexError unit :=
  let! _ := commit_root_tags local identifier [(tag, content)] in io_ret tt.

(** [is_lock_timeout]. *)
Definition is_lock_timeout (error : IndexError) : bool :=
  match error with
  | FileFailed _ cause => match fe_kind cause with FsTimedOut => negb (fe_raw_os_error cause) | _ => false end
  | _ => false
  end.

(** [commit_published_root]. *)
Definition commit_published_root local identifier (fetched_bytes : Bytes) (scope : RootScope) : io W IndexError RootPins :=
  let store := li_index_store local in
  let source := pr_registry identifier in
  let repository := pr_repository identifier in
  let! transaction := begin_catalog_transaction store source in
  let! committed := read_root_document_bytes store source repository in
  let previous := published_pins committed in
  let! written :=
    match merge_root committed fetched_bytes scope with
    | Some bytes => let! transaction := write_root store transaction repository bytes repository_check in
                    io_ret (transaction, published_pins (Some bytes))
    | None => io_ret (transaction, previous)
    end in
  let! _ := commit store written.1 in
  let pins := mkRootPins previous written.2 in
  let! configured := io_try (ensure_source_config store source) in
  match configured with
  | Err error => if is_lock_timeout error then io_ret pins else io_fail error
  | Ok _ => io_ret pins
  end.
(** [sweep_dispatch_orphans]: a failure is logged, never returned. *)
Definition sweep_dispatch_orphans local identifier (pins : RootPins) : io W IndexError unit :=
  let! _ := io_try (sweep_orphan_objects (li_index_store local) (pr_registry identifier) (pr_repository identifier)
                      (rp_previous pins) (rp_current pins) : io W IndexError (list string)) in io_ret tt.
Definition commit_and_sweep_published_root local identifier (fetched_bytes : Bytes) (scope : RootScope) : io W IndexError unit :=
  let! pins := commit_published_root local identifier fetched_bytes scope in
  sweep_dispatch_orphans local identifier pins.

(** ** Refresh *)

(** [buffer_unordered(..).collect()]: the outcomes in the order the tasks end. *)
Fixpoint collect_unordered {A B : Type} (schedule : nat -> nat) (fuel : nat) (run : A -> io W IndexError B) (tasks : list A) :
    io W IndexError (list B) :=
  match fuel, tasks with
  | S fuel', _ :: _ =>
      let position := (schedule fuel' `mod` length tasks)%nat in
      match tasks !! position with
      | Some task =>
          let! outcome := run task in
          let! rest := collect_unordered schedule fuel' run (delete position tasks) in
          io_ret (outcome :: rest)
      | None => io_ret []
      end
  | _, _ => io_ret []
  end.

(** The failure of the lowest position, whatever the order the outcomes came in. *)
Definition lower_failure (failure : option (nat * IndexError)) (position : nat) (error : IndexError) : option (nat * IndexError) :=
  match failure with
  | None => Some (position, error)
  | Some (lowest, _) => if (position <? lowest)%nat then Some (position, error) else failure
  end.

(** One representative tag per content digest. *)
Fixpoint representatives (seen : list Digest) (tags : list (string * RootTag)) : list (string * Digest) :=
  match tags with
  | [] => []
  | (tag, entry) :: rest =>
      if bool_decide (rt_content entry ∈ seen) then representatives seen rest
      else (tag, rt_content entry) :: representatives (rt_content entry :: seen) rest
  end.
Definition tag_in_scope (named : option string) (tag : string) : bool :=
  match named with None => true | Some only => String.eqb tag only end.

Definition refresh_published_task local identifier (source : Source) (task : nat * (string * Digest)) :
    io W IndexError (nat * Digest * result IndexError unit) :=
  let '(position, (tag, content)) := task in
  let! held := io_try (read_dispatch_object (li_index_store local) (pr_registry identifier) (pr_repository identifier) content) in
  match held with
  | Ok (Some _) => io_ret (position, content, Ok tt)
  | Ok None | Err _ =>
      let! outcome := io_try (persist_dispatch local source (clone_with_tag identifier tag)) in
      io_ret (position, content, match outcome with Ok _ => Ok tt | Err e => Err e end)
  end.
(** The digests no object was written for, and the reported failure. *)
Definition published_outcome (state : list Digest * option (nat * IndexError)) (outcome : nat * Digest * result IndexError unit) :
    list Digest * option (nat * IndexError) :=
  let '(unpersisted, failure) := state in
  let '(position, content, result) := outcome in
  match result with
  | Ok _ => state
  | Err error => (content :: unpersisted, lower_failure failure position error)
  end.

Definition refresh_published (schedule : nat -> nat) local identifier (source : Source) (bytes : Bytes) (root : IndexRoot) :
    io W IndexError unit :=
  let named := pr_tag identifier in
  let scoped := List.filter (fun row => tag_in_scope named row.1) (ir_tags root) in
  let tasks := imap pair (representatives [] scoped) in
  let! outcomes := collect_unordered schedule (length tasks) (refresh_published_task local identifier source) tasks in
  let '(unpersisted, failure) := fold_left published_outcome outcomes ([], None) in
  match failure with
  | None =>
      let scope := match named with Some tag => ScopeTags [tag] | None => ScopePackage end in
      commit_and_sweep_published_root local identifier bytes scope
  | Some (_, error) =>
      let adopted := map fst (List.filter (fun row => negb (bool_decide (rt_content row.2 ∈ unpersisted))) scoped) in
      match adopted with
      | [] => io_fail error
      | _ :: _ => let! _ := commit_and_sweep_published_root local identifier bytes (ScopeTags adopted) in io_fail error
      end
  end.

Definition refresh_derived_task local identifier (source : Source) (task : nat * string) :
    io W IndexError (nat * result IndexError (option (string * Digest))) :=
  let '(position, tag) := task in
  let! outcome := io_try (persist_dispatch local source (clone_with_tag identifier tag)) in
  io_ret (position,
    match outcome with
    | Ok (Some (_, content, manifest)) => Ok (if records_root_tag tag manifest then Some (tag, content) else None)
    | Ok None => Ok None
    | Err error => Err error
    end).
Definition derived_outcome (state : list (string * Digest) * option (nat * IndexError))
    (outcome : nat * result IndexError (option (string * Digest))) : list (string * Digest) * option (nat * IndexError) :=
  let '(fetched, failure) := state in
  let '(position, result) := outcome in
  match result with
  | Ok (Some entry) => ((fetched ++ [entry])%list, failure)
  | Ok None => state
  | Err error => (fetched, lower_failure failure position error)
  end.

Definition refresh_derived (schedule : nat -> nat) local identifier (source : Source) : io W IndexError unit :=
  let! tags := match pr_tag identifier with
               | Some tag => io_ret [tag]
               | None => let! listed := index_list_tags source identifier in io_ret (default [] listed)
               end in
  match tags with
  | [] => io_fail (RemoteManifestNotFound (ref_display identifier))
  | _ :: _ =>
      let tasks := imap pair (List.filter (fun tag => negb (is_reserved_tag tag)) tags) in
      let! outcomes := collect_unordered schedule (length tasks) (refresh_derived_task local identifier source) tasks in
      let '(fetched, failure) := fold_left derived_outcome outcomes ([], None) in
      match failure with
      | Some (_, error) =>
          match fetched with
          | [] => io_fail error
          | _ :: _ =>
              let! pins := commit_root_tags local identifier fetched in
              let! _ := sweep_dispatch_orphans local identifier pins in
              io_fail error
          end
      | None =>
          match fetched with
          | [] => io_fail (NoIndexableTag (ref_display identifier))
          | _ :: _ =>
              let! pins := commit_root_tags local identifier fetched in
              sweep_dispatch_orphans local identifier pins
          end
      end
  end.

Definition refresh_tags (schedule : nat -> nat) local identifier (source : Source) : io W IndexError unit :=
  let! served := src_revalidate_root_document source identifier in
  match served with
  | Some (bytes, root) => refresh_published schedule local identifier source bytes root
  | None => refresh_derived schedule local identifier source
  end.
End LocalIndex.
