(* ===== verification/IndexChain.v ===== *)
(** * The index chain

    [crates/ocx_index/src/chained_index.rs], the local index with the sources behind it: which
    of them a lookup asks, what stops it, and what it writes; with the blob store it recovers
    content from ([crates/ocx_store/src/file_structure/blob_store.rs]) and the routing of [Index]
    ([crates/ocx_index/src/lib.rs]).  The group that coalesces concurrent walks is the class
    [ChainProcess]: a call is told to lead, or is handed another call's answer. *)

From stdpp Require Import base decidable list option numbers strings gmap.
From Stdlib Require Import Ascii.
From S2P Require Import Prelude OMap Text Digest Tag PackageRef Platform Registry RootMerge Store IndexStore.
From S2P Require Import Ssrf LocalIndex.
Local Open Scope ocx_scope.
Local Open Scope string_scope.

(** [enum LocalWritePolicy]. *)
Inductive LocalWritePolicy : Type := PolicyFull | PolicyNoTag | PolicyReadOnly.
#[export] Instance LocalWritePolicy_eq_dec : EqDecision LocalWritePolicy.
Proof. solve_decision. Defined.

(** ** Classes of errors *)

Definition is_corrupt_index_object (err : IndexError) : bool :=
  match err with StoreDigestMismatch _ _ | IxInvalidImageIndex _ => true | _ => false end.
Definition is_local_read_refusal (err : IndexError) : bool :=
  match err with
  | YankedRefused _ | UnsupportedIndexFormat _ | MalformedIndexDocument _ => true
  | FileFailed path _ => bool_decide (last path = Some "config.json")
  | _ => false
  end.
Definition is_source_outage (err : IndexError) : bool :=
  match coalesced_cause err with IndexHttpFailed _ _ => true | _ => false end.

Section IndexChain.
Context `{U : OciSpec} `{!Codec} `{!RootCodec Bytes} `{!IndexCodec} {W : Type} `{!IndexDisk W} `{!IndexProcess (W := W)} `{!NetLib W}.

Local Notation Source := (Source (W := W)).
Definition Head : Type := option (Digest * Manifest).
Class ChainProcess : Type := {
  (** [Ok None]: lead; [Ok (Some head)]: another call resolved it. *)
  try_acquire : nat -> string -> io W (option IndexError) (option Head);
  flight_complete : nat -> string -> Head -> W -> W;
  flight_fail : nat -> string -> IndexError -> W -> W;
}.
Context `{!ChainProcess} `{!TotalOrd NativePlatform}.

Definition is_plain_dns_name (host : string) : bool :=
  negb (starts_with "[" host) && bool_decide (ip_parse host = None).
Definition digest_matches (bytes : Bytes) (digest : Digest) : bool := bool_decide (hash (digest_algorithm digest) bytes = digest).
Definition verify_walked_digest (identifier : PackageRef) (head : Head) : result IndexError Head :=
  match pr_digest identifier, head with
  | Some requested, Some (answered, _) => if negb (bool_decide (answered = requested)) then Err (WalkedDigestMismatch requested answered) else Ok head
  | _, _ => Ok head
  end.

(** ** The blob store *)

Definition blob_data (fs : FileStructure) (registry : string) (digest : Digest) : Path := join (blob_path fs registry digest) "data".
Definition read_blob (fs : FileStructure) (registry : string) (digest : Digest) : io W IndexError (option Bytes) :=
  read_optional (blob_data fs registry digest).
Definition persist_bytes (target : Path) (bytes : Bytes) : io W IndexError unit :=
  let! parent := create_parent target in
  let tmp := mkTempFile parent bytes in
  let! _ := file_error target (fs_write_temp tmp) in
  let! persisted := io_try (fs_persist tmp target) in
  match persisted with
  | Ok _ => io_ret tt
  | Err err =>
      let! current := io_try (fs_read target) in
      match current with
      | Ok held => if bytes_eqb held bytes then io_ret tt else io_fail (FileFailed target err)
      | Err _ => io_fail (FileFailed target err)
      end
  end.
Definition write_blob (fs : FileStructure) (registry : string) (digest : Digest) (bytes : Bytes) : io W IndexError unit :=
  let target := blob_data fs registry digest in
  let! present := (fun w => (Ok (match fs_len target w with Some len => (0 <? len)%N | None => false end), w)) in
  if present then io_ret tt else persist_bytes target bytes.
Definition replace_blob (fs : FileStructure) (registry : string) (digest : Digest) (bytes : Bytes) : io W IndexError unit :=
  persist_bytes (blob_data fs registry digest) bytes.
Definition remove_blob (fs : FileStructure) (registry : string) (digest : Digest) : io W IndexError unit :=
  let target := blob_data fs registry digest in
  let! removed := io_try (fs_remove_file target) in
  match removed with
  | Ok _ => io_ret tt
  | Err e => match fe_kind e with FsNotFound => io_ret tt | _ => io_fail (FileFailed target e) end
  end.

(** ** The chain *)

(** [struct ChainedIndex]; [ci_group] names its group of coalesced walks. *)
Record ChainedIndex : Type := mkChain {
  ci_local_index : LocalIndex;
  ci_sources : list Source;
  ci_mode : ChainMode;
  ci_group : nat;
  ci_write_policy : LocalWritePolicy;
  ci_content_store : option FileStructure;
}.
Implicit Types (chain : ChainedIndex) (identifier : PackageRef).
Definition chain_new (local_index : LocalIndex) (sources : list Source) (mode : ChainMode) (group : nat) : ChainedIndex :=
  mkChain local_index sources mode group PolicyFull None.
Definition chain_new_lock_scoped (local_index : LocalIndex) (sources : list Source) (mode : ChainMode) (group : nat) : ChainedIndex :=
  mkChain local_index sources mode group PolicyNoTag None.
Definition with_content_store chain (store : FileStructure) : ChainedIndex :=
  mkChain (ci_local_index chain) (ci_sources chain) (ci_mode chain) (ci_group chain) (ci_write_policy chain) (Some store).
Definition chain_read_only chain (fresh : nat) : ChainedIndex :=
  mkChain (ci_local_index chain) (ci_sources chain) (ci_mode chain) fresh PolicyReadOnly (ci_content_store chain).
Definition chain_remote_view chain (fresh : nat) : ChainedIndex :=
  mkChain (ci_local_index chain) (ci_sources chain) ModeRemote fresh PolicyReadOnly (ci_content_store chain).

Definition kind_for_registry chain (registry : string) : SourceKind :=
  match List.find (fun source => src_serves_registry source registry) (ci_sources chain) with
  | Some source => src_source_kind source
  | None => Derived
  end.
Definition kind_for chain identifier : SourceKind := kind_for_registry chain (pr_registry identifier).

Definition candidate (identifier : PackageRef) (source : Source) : option (Source * bool) :=
  match src_jurisdiction source identifier with
  | Authoritative => Some (source, true)
  | FallThrough => Some (source, false)
  | Outside => None
  end.
Definition candidate_sources chain identifier : list (Source * bool) := omap (candidate identifier) (ci_sources chain).

(** [ChainedIndex::trusted_hosts_for], [serves_registry], [jurisdiction], [authoritative_index_base_url]. *)
Definition chain_trusted_hosts_for chain (registry : string) : list string :=
  match local_trusted_hosts_for (ci_local_index chain) registry with
  | [] => match List.find (fun source => src_serves_registry source registry) (ci_sources chain) with
          | Some source => src_trusted_hosts source
          | None => []
          end
  | configured => configured
  end.
Definition chain_serves_registry chain (registry : string) : bool :=
  existsb (fun source => src_serves_registry source registry) (ci_sources chain).
Fixpoint sources_jurisdiction identifier (found : Jurisdiction) (sources : list Source) : Jurisdiction :=
  match sources with
  | [] => found
  | source :: rest =>
      match src_jurisdiction source identifier with
      | Authoritative => Authoritative
      | FallThrough => sources_jurisdiction identifier FallThrough rest
      | Outside => sources_jurisdiction identifier found rest
      end
  end.
Definition chain_jurisdiction chain identifier : Jurisdiction := sources_jurisdiction identifier Outside (ci_sources chain).
(** The default of the trait, which every source keeps, and its search through the chain. *)
Definition source_authoritative_url identifier (source : Source) : option string :=
  match src_jurisdiction source identifier with Authoritative => src_index_base_url source | _ => None end.
Definition authoritative_index_base_url chain identifier : option string := head (omap (source_authoritative_url identifier) (ci_sources chain)).

(** ** The local answer of a location *)

Definition guard_local_physical chain (logical : PackageRef) (physical : OciIdentifier) : io W IndexError unit :=
  if String.eqb (pr_registry physical) (pr_registry logical) then io_ret tt
  else
    let '(host, port) := split_host_port (pr_registry physical) in
    let scheme := dial_scheme_for_registry (li_insecure_hosts (ci_local_index chain)) (pr_registry physical) in
    let! guarded := io_try (guard_destination scheme host port (chain_trusted_hosts_for chain (pr_registry logical))) in
    match guarded with
    | Ok _ => io_ret tt
    | Err (ForbiddenTarget _ _ as source) => io_fail (SsrfRefused (pr_registry logical) source)
    | Err source => if negb (is_plain_dns_name host) then io_fail (SsrfRefused (pr_registry logical) source) else io_ret tt
    end.
Definition local_physical_answer chain identifier : io W IndexError (option OciIdentifier) :=
  let! read := io_try (local_physical_reference (ci_local_index chain) identifier (kind_for chain identifier)) in
  match read with
  | Ok (Some physical) => let! _ := guard_local_physical chain identifier physical in io_ret (Some physical)
  | Ok None => io_ret None
  | Err _ => io_ret None
  end.

(** ** The walk *)

Definition ensure_locally_resolvable chain identifier : io W IndexError unit :=
  let! resolution := resolve_dispatch (ci_local_index chain) identifier (kind_for chain identifier) in
  match resolution with
  | Some _ => io_ret tt
  | None => io_fail (PolicyResolutionBlocked (ref_display identifier) (policy_label (ci_mode chain)) UnpinnedTag)
  end.

Definition recover_absent_dispatch chain identifier (content : Digest) : io W IndexError Head :=
  match ci_content_store chain with
  | None => io_ret None
  | Some content_store =>
      let! read := read_blob content_store (pr_registry identifier) content in
      match read with
      | None => io_ret None
      | Some bytes =>
          if negb (digest_matches bytes content) then
            let! _ := io_try (remove_blob content_store (pr_registry identifier) content : io W IndexError unit) in io_ret None
          else match manifest_from_slice bytes with
               | None => io_ret None
               | Some manifest =>
                   let! _ := match manifest with
                             | MIndex _ => if negb (bool_decide (ci_write_policy chain = PolicyReadOnly))
                                           then io_try (stage_dispatch_bytes (ci_local_index chain) identifier content bytes)
                                           else io_ret (Ok tt)
                             | MImage _ => io_ret (Ok tt)
                             end in
                   io_ret (Some (content, manifest))
               end
      end
  end.

Definition drop_ephemeral_row_the_root_lacks chain (source : Source) identifier : io W IndexError unit :=
  match pr_tag identifier with
  | None => io_ret tt
  | Some tag =>
      let! read := io_try (src_revalidate_root_document source identifier) in
      match read with
      | Ok (Some (root_bytes, root)) =>
          if bool_decide (om_get tag (ir_tags root) = None) then
            let! _ := io_try (commit_and_sweep_published_root (ci_local_index chain) identifier root_bytes (ScopeTags [tag]) : io W IndexError unit) in
            io_ret tt
          else io_ret tt
      | Ok None => io_ret tt
      | Err _ => io_ret tt
      end
  end.

(** The write a walk that found a tag makes into the local root. *)
Definition grow_root_from chain (source : Source) identifier (digest : Digest) (manifest : Manifest) : io W IndexError unit :=
  match pr_tag identifier with
  | None => io_ret tt
  | Some tag =>
      match src_source_kind source with
      | Published =>
          let! document := src_fetch_root_document source identifier in
          match document with
          | Some (root_bytes, _) =>
              let! _ := commit_published_root (ci_local_index chain) identifier root_bytes (ScopeTags [tag]) in io_ret tt
          | None => io_ret tt
          end
      | Derived => if records_root_tag tag manifest then commit_root_tag (ci_local_index chain) identifier tag digest else io_ret tt
      end
  end.
Definition cache_leaf_manifest chain identifier (bytes : Bytes) (digest : Digest) (manifest : Manifest) : io W IndexError unit :=
  match ci_content_store chain, manifest with
  | Some store, MImage _ =>
      let! _ := io_try (write_blob store (pr_registry identifier) digest bytes : io W IndexError unit) in io_ret tt
  | _, _ => io_ret tt
  end.

Definition walk_grows_root chain identifier (grow_root : bool) : bool :=
  grow_root && bool_decide (ci_write_policy chain = PolicyFull) && bool_decide (is_Some (pr_tag identifier)) &&
  bool_decide (pr_digest identifier = None).
Fixpoint walk_sources chain identifier (grows_root : bool) (candidates : list (Source * bool)) (last_error : option IndexError) :
    io W IndexError Head :=
  match candidates with
  | [] => match last_error with Some e => io_fail e | None => io_ret None end
  | (source, authoritative) :: rest =>
      let! fetched := io_try (if bool_decide (ci_write_policy chain = PolicyReadOnly) then fetch_dispatch_only source identifier
                              else persist_dispatch (ci_local_index chain) source identifier) in
      match fetched with
      | Ok (Some (bytes, digest, manifest)) =>
          let! _ := cache_leaf_manifest chain identifier bytes digest manifest in
          let! _ := if grows_root then grow_root_from chain source identifier digest manifest else io_ret tt in
          io_ret (Some (digest, manifest))
      | Ok None =>
          if authoritative then
            match src_index_base_url source with
            | Some base_url =>
                let! _ := match src_source_kind source with
                          | Published => if grows_root then drop_ephemeral_row_the_root_lacks chain source identifier else io_ret tt
                          | Derived => io_ret tt
                          end in
                io_fail (NotInIndex (ref_display identifier) (pr_registry identifier) base_url)
            | None => io_ret None
            end
          else walk_sources chain identifier grows_root rest last_error
      | Err e => if authoritative then io_fail e else walk_sources chain identifier grows_root rest (Some e)
      end
  end.
Definition fetch_and_persist_chain chain identifier (grow_root : bool) : io W IndexError Head :=
  walk_sources chain identifier (walk_grows_root chain identifier grow_root) (candidate_sources chain identifier) None.

Definition mode_number (mode : ChainMode) : string :=
  match mode with ModeDefault => "0" | ModeRemote => "1" | ModeOffline => "2" | ModeFrozen => "3" end.
Definition walk_online chain identifier (grow_root : bool) : io W IndexError Head :=
  let walked := match pr_digest identifier with Some _ => identifier | None => clone_with_tag identifier (tag_or_latest identifier) end in
  let key := mode_number (ci_mode chain) +:+ "|" +:+ pr_registry walked +:+ "|" +:+ ref_display walked in
  let! acquisition := io_map_err SingleflightFailed (try_acquire (ci_group chain) key) in
  match acquisition with
  | Some head => io_of (verify_walked_digest walked head)
  | None =>
      let! outcome := io_try (fetch_and_persist_chain chain walked grow_root) in
      match outcome with
      | Ok head =>
          let! _ := (fun w => (Ok tt, flight_complete (ci_group chain) key head w)) in
          io_of (verify_walked_digest walked head)
      | Err e =>
          let! _ := (fun w => (Ok tt, flight_fail (ci_group chain) key (SourceWalkFailed e) w)) in
          io_fail (SourceWalkFailed e)
      end
  end.
Definition walk_chain chain identifier (grow_root : bool) : io W IndexError Head :=
  match ci_mode chain with
  | ModeOffline =>
      let! _ := if bool_decide (pr_digest identifier = None) then ensure_locally_resolvable chain identifier else io_ret tt in
      io_ret None
  | ModeFrozen =>
      let! _ := if bool_decide (pr_digest identifier = None) then ensure_locally_resolvable chain identifier else io_ret tt in
      walk_online chain identifier grow_root
  | ModeDefault | ModeRemote => walk_online chain identifier grow_root
  end.

(** ** Lookups *)

(** A loop over the candidates that returns the first answer; [stops] says whether an
    authoritative source's error ends it. *)
Fixpoint ask_sources {A : Type} (stops : bool) (ask : Source -> io W IndexError (option A)) (candidates : list (Source * bool))
    (last_error : option IndexError) : io W IndexError (option A) :=
  match candidates with
  | [] => match last_error with Some e => io_fail e | None => io_ret None end
  | (source, authoritative) :: rest =>
      let! answer := io_try (ask source) in
      match answer with
      | Ok (Some a) => io_ret (Some a)
      | Ok None => if authoritative then io_ret None else ask_sources stops ask rest last_error
      | Err e => if stops && authoritative then io_fail e else ask_sources stops ask rest (Some e)
      end
  end.
Definition query_sources_manifest chain identifier : io W IndexError Head :=
  ask_sources false (fun source => src_fetch_manifest source identifier Query) (candidate_sources chain identifier) None.
Definition query_sources_manifest_digest chain identifier : io W IndexError (option Digest) :=
  ask_sources false (fun source => src_fetch_manifest_digest source identifier Query) (candidate_sources chain identifier) None.

(** [ChainedIndex::list_tags]. *)
Definition chain_list_tags chain identifier : io W IndexError (option (list string)) :=
  match ci_mode chain with
  | ModeRemote => ask_sources true (fun source => index_list_tags source identifier) (candidate_sources chain identifier) None
  | _ => list_local_tags (ci_local_index chain) identifier (kind_for chain identifier)
  end.

(** The local read of a lookup: its resolution, and whether the object it names is corrupt. *)
Definition local_first chain identifier : bool :=
  bool_decide (is_Some (pr_digest identifier)) || negb (bool_decide (ci_mode chain = ModeRemote)).
Definition heals_corrupt chain (op : IndexOperation) : bool :=
  bool_decide (op = Resolve) && negb (bool_decide (ci_mode chain = ModeOffline)).
Definition read_local chain identifier (op : IndexOperation) : io W IndexError (option DispatchResolution * bool) :=
  if local_first chain identifier then
    let! read := io_try (resolve_dispatch (ci_local_index chain) identifier (kind_for chain identifier)) in
    match read with
    | Ok resolution => io_ret (resolution, false)
    | Err e =>
        if is_local_read_refusal e then io_fail e
        else let corrupt := is_corrupt_index_object e in
             if corrupt && negb (heals_corrupt chain op) then io_fail e else io_ret (None, corrupt)
    end
  else io_ret (None, false).
Definition is_remote_query chain identifier (op : IndexOperation) : bool :=
  bool_decide (ci_mode chain = ModeRemote) && bool_decide (op = Query) && bool_decide (pr_digest identifier = None).

(** [ChainedIndex::fetch_manifest]. *)
Definition chain_fetch_manifest chain identifier (op : IndexOperation) : io W IndexError Head :=
  let! read := read_local chain identifier op in
  let '(local, corrupt_known) := read in
  match local with
  | Some (Dispatch content index) => io_ret (Some (content, MIndex index))
  | _ =>
      let! recovered := match local with
                        | Some (AbsentDispatch content) => recover_absent_dispatch chain identifier content
                        | _ => io_ret None
                        end in
      match recovered with
      | Some head => io_ret (Some head)
      | None =>
          if is_remote_query chain identifier op then query_sources_manifest chain identifier
          else match op with
               | Query => io_ret None
               | Resolve =>
                   match local with
                   | Some (AbsentDispatch content) =>
                       let pinned := match pr_digest identifier with None => clone_with_digest identifier content | Some _ => identifier end in
                       walk_chain chain pinned false
                   | _ => walk_chain chain identifier (negb corrupt_known)
                   end
               end
      end
  end.

(** [ChainedIndex::fetch_manifest_digest]. *)
Definition chain_fetch_manifest_digest chain identifier (op : IndexOperation) : io W IndexError (option Digest) :=
  let! read := read_local chain identifier op in
  let '(local, corrupt_known) := read in
  let! confirmed := match local with
                    | Some (Dispatch content _) => io_ret (Some content)
                    | Some (AbsentDispatch content) =>
                        match pr_digest identifier with
                        | None => io_ret (Some content)
                        | Some _ => let! recovered := recover_absent_dispatch chain identifier content in io_ret (fst <$> recovered)
                        end
                    | None => io_ret None
                    end in
  match confirmed with
  | Some digest => io_ret (Some digest)
  | None =>
      if is_remote_query chain identifier op then query_sources_manifest_digest chain identifier
      else match op with
           | Query => io_ret None
           | Resolve => let! head := walk_chain chain identifier (negb corrupt_known) in io_ret (fst <$> head)
           end
  end.

Definition as_identifier (pinned : PinnedPackageRef) : PackageRef :=
  mkPackageRef (pp_registry pinned) (pp_repository pinned) (pp_tag pinned) (Some (pp_digest pinned)).

(** [ChainedIndex::fetch_blob]: the cached copy, then the sources in turn, verified on every path. *)
Definition digest_mismatch (digest : Digest) (bytes : Bytes) : IndexError :=
  StoreDigestMismatch digest (hash (digest_algorithm digest) bytes).
Definition cached_blob chain (blob_ref : PinnedPackageRef) : io W IndexError (option Bytes * bool) :=
  match ci_content_store chain with
  | None => io_ret (None, false)
  | Some content_store =>
      let! read := read_blob content_store (pp_registry blob_ref) (pp_digest blob_ref) in
      match read with
      | None => io_ret (None, false)
      | Some bytes =>
          if digest_matches bytes (pp_digest blob_ref) then io_ret (Some bytes, false)
          else if bool_decide (ci_mode chain = ModeOffline) then io_fail (digest_mismatch (pp_digest blob_ref) bytes)
          else io_ret (None, true)
      end
  end.
Definition write_through chain (blob_ref : PinnedPackageRef) (heal_corrupt : bool) (bytes : Bytes) : io W IndexError unit :=
  match ci_content_store chain with
  | None => io_ret tt
  | Some content_store =>
      let! _ := io_try ((if heal_corrupt then replace_blob content_store (pp_registry blob_ref) (pp_digest blob_ref) bytes
                         else write_blob content_store (pp_registry blob_ref) (pp_digest blob_ref) bytes) : io W IndexError unit) in
      io_ret tt
  end.
Fixpoint blob_from_sources chain (blob_ref : PinnedPackageRef) (heal_corrupt : bool) (candidates : list (Source * bool))
    (last_error : option IndexError) : io W IndexError (option Bytes) :=
  match candidates with
  | [] => match last_error with Some e => io_fail e | None => io_ret None end
  | (source, authoritative) :: rest =>
      let! answer := io_try (src_fetch_blob source blob_ref) in
      match answer with
      | Ok (Some bytes) =>
          if negb (digest_matches bytes (pp_digest blob_ref)) then io_fail (digest_mismatch (pp_digest blob_ref) bytes)
          else let! _ := write_through chain blob_ref heal_corrupt bytes in io_ret (Some bytes)
      | Ok None => if authoritative then io_ret None else blob_from_sources chain blob_ref heal_corrupt rest last_error
      | Err e => blob_from_sources chain blob_ref heal_corrupt rest (Some e)
      end
  end.
Definition chain_fetch_blob chain (blob_ref : PinnedPackageRef) : io W IndexError (option Bytes) :=
  let! cached := cached_blob chain blob_ref in
  let '(found, heal_corrupt) := cached in
  match found with
  | Some bytes => io_ret (Some bytes)
  | None =>
      if bool_decide (ci_mode chain = ModeOffline) then io_ret None
      else blob_from_sources chain blob_ref heal_corrupt (candidate_sources chain (as_identifier blob_ref)) None
  end.

(** [ChainedIndex::fetch_manifest_raw_bytes]. *)
Definition chain_fetch_manifest_raw_bytes chain identifier : io W IndexError (option (Bytes * Digest * Manifest)) :=
  if bool_decide (ci_mode chain = ModeOffline) then io_ret None
  else ask_sources false (fun source => src_fetch_manifest_raw_bytes source identifier) (candidate_sources chain identifier) None.

(** [ChainedIndex::physical_reference]: an outage is held, a refusal propagates. *)
Fixpoint source_location chain identifier (candidates : list (Source * bool)) (last_error : option IndexError) :
    io W IndexError (option OciIdentifier * option IndexError) :=
  match candidates with
  | [] => io_ret (None, last_error)
  | (source, _) :: rest =>
      let! answer := io_try (index_physical_reference source identifier) in
      match answer with
      | Ok (Some physical) => io_ret (Some physical, None)
      | Ok None => source_location chain identifier rest last_error
      | Err e => if negb (is_source_outage e) then io_fail e else source_location chain identifier rest (Some e)
      end
  end.
Definition chain_physical_reference chain identifier : io W IndexError (option OciIdentifier) :=
  let source_first := bool_decide (ci_mode chain = ModeRemote) in
  let! early := if negb source_first then local_physical_answer chain identifier else io_ret None in
  match early with
  | Some physical => io_ret (Some physical)
  | None =>
      let! asked := source_location chain identifier (candidate_sources chain identifier) None in
      let '(answer, last_error) := asked in
      match answer with
      | Some physical => io_ret (Some physical)
      | None =>
          let! late := if source_first then local_physical_answer chain identifier else io_ret None in
          match late, last_error with
          | Some physical, _ => io_ret (Some physical)
          | None, Some e => io_fail e
          | None, None => io_ret None
          end
      end
  end.

(** [ChainedIndex::record_routing_pointer]. *)
Fixpoint record_from chain identifier (candidates : list (Source * bool)) : io W IndexError unit :=
  match candidates with
  | [] => io_ret tt
  | (source, _) :: rest =>
      match src_source_kind source with
      | Derived => record_from chain identifier rest
      | Published =>
          let! document := io_try (src_fetch_root_document source identifier) in
          match document with
          | Ok (Some (bytes, _)) =>
              let! _ := io_try (commit_published_root (ci_local_index chain) identifier bytes ScopeRouting : io W IndexError RootPins) in io_ret tt
          | Ok None => record_from chain identifier rest
          | Err _ => io_ret tt
          end
      end
  end.
Definition record_routing_pointer chain identifier : io W IndexError unit :=
  if negb (bool_decide (ci_write_policy chain = PolicyFull)) || bool_decide (ci_mode chain = ModeFrozen) then io_ret tt
  else
    let! answered := io_try (local_physical_answer chain identifier) in
    match answered with
    | Ok (Some _) => io_ret tt
    | _ => record_from chain identifier (candidate_sources chain identifier)
    end.

(** ** Routing *)

(** [refuse_unrouted], [Index::unrouted], [Index::physical_reference]. *)
Definition refuse_unrouted chain identifier : option IndexError :=
  if is_index_namespace (ci_local_index chain) (pr_registry identifier) && negb (chain_serves_registry chain (pr_registry identifier))
  then Some (PolicyResolutionBlocked (ref_display (without_tag (without_digest identifier))) (policy_label (ci_mode chain)) UnrecordedLocation)
  else None.
Definition unrouted chain identifier : result IndexError OciIdentifier :=
  match authoritative_index_base_url chain identifier with
  | Some base_url => Err (NotInIndex (ref_display identifier) (pr_registry identifier) base_url)
  | None => match refuse_unrouted chain identifier with Some refusal => Err refusal | None => Ok identifier end
  end.
Definition physical_at_version chain identifier : io W IndexError (option OciIdentifier) :=
  let! physical := chain_physical_reference chain identifier in
  io_ret ((fun location => at_version_of location identifier) <$> physical).

(** [Index::route], [route_local], [route_to_materialize], [guard_physical_dial], [route_for_dial]. *)
Definition route chain identifier : io W IndexError OciIdentifier :=
  let! physical := physical_at_version chain identifier in
  match physical with Some location => io_ret location | None => io_of (unrouted chain identifier) end.
Definition route_local chain identifier : io W IndexError (option OciIdentifier) :=
  let! physical := local_physical_answer chain identifier in
  io_ret ((fun location => at_version_of location identifier) <$> physical).
Definition route_to_materialize chain identifier : io W IndexError OciIdentifier :=
  let! physical := physical_at_version chain identifier in
  match physical with
  | Some location => let! _ := record_routing_pointer chain identifier in io_ret location
  | None => io_of (unrouted chain identifier)
  end.
Definition index_guard_physical_dial chain (logical : PackageRef) (physical : OciIdentifier) : io W IndexError unit :=
  if String.eqb (pr_registry physical) (pr_registry logical) then io_ret tt
  else io_map_err (fun refused => SsrfRefused refused.1 refused.2)
         (guard_physical_dial (mkDialPolicy (li_insecure_hosts (ci_local_index chain)) (chain_trusted_hosts_for chain (pr_registry logical)))
            logical physical).
Definition route_for_dial chain identifier : io W IndexError OciIdentifier :=
  let! physical := physical_at_version chain identifier in
  match physical with
  | None => io_of (unrouted chain identifier)
  | Some routed => let! _ := index_guard_physical_dial chain identifier routed in io_ret routed
  end.

(** [enum ResolvedVersion], [Index::resolve_version]; [fresh] is the group of the read-only view. *)
Inductive ResolvedVersion : Type := VersionRegistry | VersionIndexed (digest : Digest) (manifest : Manifest) | VersionAbsent.
Definition resolve_version chain (fresh : nat) identifier (routed : OciIdentifier) : io W IndexError ResolvedVersion :=
  let index_served := negb (is_located_at identifier routed) || bool_decide (is_Some (authoritative_index_base_url chain identifier)) in
  if bool_decide (is_Some (pr_digest identifier)) || negb index_served then io_ret VersionRegistry
  else
    let! head := chain_fetch_manifest (chain_read_only chain fresh) identifier Resolve in
    io_ret match head with Some (digest, manifest) => VersionIndexed digest manifest | None => VersionAbsent end.
End IndexChain.
