(* ===== verification/ChainSpec.v ===== *)
(** * What the chain promises of its answers

    Safety of the lookups of [IndexChain.v], for any sources and any disk: a digest the caller or
    the local index names never changes on the way, an offline chain and a local query depend on
    no source, and nothing below an authoritative source is heard by a resolve.  That a source is
    not asked is stated as independence: replacing its operations changes neither the answer nor
    the world. *)

From stdpp Require Import base decidable list option numbers strings gmap.
From S2P Require Import Prelude OMap Text Digest Tag PackageRef Platform Registry RootMerge Store IndexStore.
From S2P Require Import Ssrf LocalIndex IndexChain.
Local Open Scope ocx_scope.
Local Open Scope string_scope.

Section ChainSpec.
Context `{U : OciSpec} `{!Codec} `{!RootCodec Bytes} `{!IndexCodec} {W : Type} `{!IndexDisk W} `{!IndexProcess (W := W)} `{!NetLib W}.
Context `{!ChainProcess (W := W)}.
Implicit Types (chain : ChainedIndex (W := W)) (identifier : PackageRef) (w : W).

Lemma io_bind_ok {E A B} (m : io W E A) (k : A -> io W E B) w b w' : io_bind m k w = (Ok b, w') ->
  exists a w1, m w = (Ok a, w1) /\ k a w1 = (Ok b, w').
Proof. unfold io_bind. destruct (m w) as [[a|e] w1]; [eauto|done]. Qed.
Lemma io_try_ok {E F A} (m : io W E A) w (r : result E A) w' : io_try (F := F) m w = (Ok r, w') -> m w = (r, w').
Proof. unfold io_try. destruct (m w) as [r0 w0]. by intros [= -> ->]. Qed.

(** ** Digests *)

Definition resolution_content (resolution : DispatchResolution) : Digest :=
  match resolution with Dispatch content _ | AbsentDispatch content => content end.

Lemma verify_walked_pinned identifier d head head' : pr_digest identifier = Some d ->
  verify_walked_digest identifier head = Ok head' -> forall d' m, head' = Some (d', m) -> d' = d.
Proof.
  unfold verify_walked_digest. intros ->. destruct head as [[answered m]|]; [|by intros [= <-]].
  destruct (bool_decide (answered = d)) eqn:E; simpl; [|done]. apply bool_decide_eq_true in E as ->. intros [= <-]. by intros d' m' [= -> ->].
Qed.
Lemma walk_online_pinned chain identifier d grow w d' m w' : pr_digest identifier = Some d ->
  walk_online chain identifier grow w = (Ok (Some (d', m)), w') -> d' = d.
Proof.
  intros Hd. unfold walk_online. rewrite Hd. intros (acq & w1 & _ & Hx)%io_bind_ok. destruct acq as [head|].
  - unfold io_of in Hx. injection Hx as Hx _. by eapply verify_walked_pinned.
  - apply io_bind_ok in Hx as (outcome & w2 & _ & Hx). destruct outcome as [head|e].
    + apply io_bind_ok in Hx as (u & w3 & _ & Hx). injection Hx as Hx _. by eapply verify_walked_pinned.
    + apply io_bind_ok in Hx as (u & w3 & _ & Hx). done.
Qed.
Lemma walk_chain_pinned chain identifier d grow w d' m w' : pr_digest identifier = Some d ->
  walk_chain chain identifier grow w = (Ok (Some (d', m)), w') -> d' = d.
Proof.
  intros Hd. unfold walk_chain. destruct (ci_mode chain).
  - by apply walk_online_pinned.
  - by apply walk_online_pinned.
  - intros (u & w1 & _ & Hx)%io_bind_ok. done.
  - intros (u & w1 & _ & Hx)%io_bind_ok. by eapply walk_online_pinned.
Qed.
Lemma recover_content chain identifier c w d m w' : recover_absent_dispatch chain identifier c w = (Ok (Some (d, m)), w') -> d = c.
Proof.
  unfold recover_absent_dispatch. destruct (ci_content_store chain) as [store|]; [|done].
  intros (read & w1 & _ & Hx)%io_bind_ok. destruct read as [bytes|]; [|done]. destruct (negb _).
  - apply io_bind_ok in Hx as (? & ? & _ & Hx). done.
  - destruct (manifest_from_slice bytes); [|done]. apply io_bind_ok in Hx as (? & ? & _ & Hx). by injection Hx as <- _ _.
Qed.

(** The local copy names [c] for a reference without a digest, and the chain reads it first. *)
Definition locally_names chain identifier w (c : Digest) : Prop :=
  pr_digest identifier = None /\ ci_mode chain <> ModeRemote /\
  exists resolution w1, resolve_dispatch (ci_local_index chain) identifier (kind_for chain identifier) w = (Ok (Some resolution), w1) /\
    resolution_content resolution = c.
(** The digest a lookup must answer with: the caller's pin, or else what the local copy names. *)
Definition named_digest chain identifier w (c : Digest) : Prop := pr_digest identifier = Some c \/ locally_names chain identifier w c.

Lemma resolve_dispatch_pinned local identifier kind d w resolution w1 : pr_digest identifier = Some d ->
  resolve_dispatch (W := W) local identifier kind w = (Ok (Some resolution), w1) -> resolution_content resolution = d.
Proof.
  intros Hd. unfold resolve_dispatch, resolve_content. rewrite Hd. unfold io_bind at 1, io_ret at 1. cbn beta iota.
  intros (object & w2 & _ & Hx)%io_bind_ok. destruct object as [bytes|].
  - apply io_bind_ok in Hx as (decoded & w3 & _ & Hx). destruct decoded; by injection Hx as <- _.
  - by injection Hx as <- _.
Qed.

Lemma named_local_first chain identifier w c : named_digest chain identifier w c -> local_first chain identifier = true.
Proof.
  unfold local_first. intros [Hd|(_ & Hm & _)].
  - by rewrite Hd.
  - apply orb_true_iff. right. by rewrite bool_decide_eq_false_2.
Qed.
(** What the local read finds is the named digest, and without a pin it finds something. *)
Lemma read_local_named chain identifier op w c local corrupt w1 : named_digest chain identifier w c ->
  read_local chain identifier op w = (Ok (local, corrupt), w1) ->
  match local with Some resolution => resolution_content resolution = c | None => pr_digest identifier = Some c end.
Proof.
  intros Hn. unfold read_local. rewrite (named_local_first _ _ _ _ Hn). intros (read & w2 & Hr%io_try_ok & Hx)%io_bind_ok.
  destruct Hn as [Hd|(Hd & Hm & resolution & w3 & Hl & Hc)].
  - destruct read as [[resolution|]|e]; [|by injection Hx as <- _ _|].
    + injection Hx as <- _ _. by eapply resolve_dispatch_pinned.
    + destruct (is_local_read_refusal e); [done|]. cbn zeta in Hx. destruct (_ && _); [done|]. by injection Hx as <- _ _.
  - rewrite Hl in Hr. simplify_eq. by injection Hx as <- _ _.
Qed.
Lemma named_no_remote_query chain identifier op w c : named_digest chain identifier w c -> is_remote_query chain identifier op = false.
Proof.
  unfold is_remote_query. intros [Hd|(_ & Hm & _)].
  - by rewrite Hd, andb_false_r.
  - by rewrite bool_decide_eq_false_2.
Qed.

Lemma fetch_manifest_named chain identifier op w c d m w' : named_digest chain identifier w c ->
  chain_fetch_manifest chain identifier op w = (Ok (Some (d, m)), w') -> d = c.
Proof.
  intros Hn. unfold chain_fetch_manifest. intros ([local corrupt] & w2 & Hr & Hx)%io_bind_ok.
  pose proof (read_local_named _ _ _ _ _ _ _ _ Hn Hr) as Hc. pose proof (named_no_remote_query chain identifier op w c Hn) as Hq.
  destruct local as [[content index|content]|]; simpl in *; [by injection Hx as <- _ _| |].
  - apply io_bind_ok in Hx as (recovered & w3 & Hrec & Hx). destruct recovered as [[d1 m1]|].
    { injection Hx as <- _ _. subst c. by eapply recover_content. }
    rewrite Hq in Hx. destruct op; [done|]. eapply walk_chain_pinned; [|exact Hx].
    destruct (pr_digest identifier) as [d0|] eqn:Ed; [|simpl; by subst]. destruct Hn as [Hn|(Hn & _)]; congruence.
  - unfold io_bind at 1, io_ret at 1 in Hx. rewrite Hq in Hx. destruct op; [done|]. by eapply walk_chain_pinned.
Qed.
Lemma fetch_digest_named chain identifier op w c d w' : named_digest chain identifier w c ->
  chain_fetch_manifest_digest chain identifier op w = (Ok (Some d), w') -> d = c.
Proof.
  intros Hn. unfold chain_fetch_manifest_digest. intros ([local corrupt] & w2 & Hr & Hx)%io_bind_ok.
  pose proof (read_local_named _ _ _ _ _ _ _ _ Hn Hr) as Hc. pose proof (named_no_remote_query chain identifier op w c Hn) as Hq.
  apply io_bind_ok in Hx as (confirmed & w3 & Hconf & Hx).
  assert (Hwalk : pr_digest identifier = Some c -> forall w0, (if is_remote_query chain identifier op then query_sources_manifest_digest chain identifier
      else match op with Query => io_ret None | Resolve => let! head := walk_chain chain identifier (negb corrupt) in io_ret (fst <$> head) end) w0
      = (Ok (Some d), w') -> d = c).
  { rewrite Hq. intros Hd w0 Hy. destruct op; [done|]. apply io_bind_ok in Hy as (head & w5 & Hw & Hy).
    injection Hy as Hy _. destruct head as [[d1 m1]|]; [|done]. injection Hy as <-. by eapply walk_chain_pinned. }
  destruct local as [[content index|content]|]; simpl in *.
  - injection Hconf as <- <-. by injection Hx as <- _.
  - destruct (pr_digest identifier) as [d0|] eqn:Ed.
    + assert (d0 = c) as -> by (destruct Hn as [Hn|(Hn & _)]; congruence).
      apply io_bind_ok in Hconf as (recovered & w4 & Hrec & Hconf). injection Hconf as <- <-. destruct recovered as [[d1 m1]|]; simpl in Hx.
      * injection Hx as <- _. subst c. by eapply recover_content.
      * by eapply Hwalk.
    + injection Hconf as <- <-. injection Hx as <- _. done.
  - injection Hconf as <- <-. by eapply Hwalk.
Qed.

(** ** Which sources are heard *)

Definition with_sources chain (sources : list (Source (W := W))) : ChainedIndex :=
  mkChain (ci_local_index chain) sources (ci_mode chain) (ci_group chain) (ci_write_policy chain) (ci_content_store chain).

(** Two chains that differ in their sources alone answer alike when they walk alike. *)
Section Alike.
Context (chain : ChainedIndex (W := W)) (sources : list (Source (W := W))) (identifier : PackageRef).
Let other := with_sources chain sources.
Context (Hkind : kind_for other identifier = kind_for chain identifier).
Context (Hwalk : forall walked grow w, pr_registry walked = pr_registry identifier -> pr_repository walked = pr_repository identifier ->
  walk_chain other walked grow w = walk_chain chain walked grow w).

Lemma read_local_alike op : read_local other identifier op = read_local chain identifier op.
Proof. unfold read_local. by rewrite Hkind. Qed.
Lemma fetch_manifest_alike op w : is_remote_query chain identifier op = false ->
  chain_fetch_manifest other identifier op w = chain_fetch_manifest chain identifier op w.
Proof.
  intros Hq. unfold chain_fetch_manifest. rewrite read_local_alike. unfold io_bind.
  destruct (read_local chain identifier op w) as [[[local corrupt]|e] w1]; [|done].
  assert (is_remote_query other identifier op = false) as -> by exact Hq. rewrite Hq.
  destruct local as [[content index|content]|]; [done| |].
  - change (recover_absent_dispatch other identifier content w1) with (recover_absent_dispatch chain identifier content w1).
    destruct (recover_absent_dispatch chain identifier content w1) as [[[head|]|e] w2]; [done| |done].
    destruct op; [done|]. by apply Hwalk; destruct (pr_digest identifier).
  - simpl. destruct op; [done|]. by apply Hwalk.
Qed.
Lemma fetch_digest_alike op w : is_remote_query chain identifier op = false ->
  chain_fetch_manifest_digest other identifier op w = chain_fetch_manifest_digest chain identifier op w.
Proof.
  intros Hq. unfold chain_fetch_manifest_digest. rewrite read_local_alike. unfold io_bind.
  destruct (read_local chain identifier op w) as [[[local corrupt]|e] w1]; [|done].
  assert (is_remote_query other identifier op = false) as -> by exact Hq. rewrite Hq.
  assert (Hrest : forall w0, (match op with Query => io_ret None | Resolve => fun w2 => match walk_chain other identifier (negb corrupt) w2 with
       (Ok head, w3) => io_ret (fst <$> head) w3 | (Err e, w3) => (Err e, w3) end end) w0 =
     (match op with Query => io_ret None | Resolve => fun w2 => match walk_chain chain identifier (negb corrupt) w2 with
       (Ok head, w3) => io_ret (fst <$> head) w3 | (Err e, w3) => (Err e, w3) end end : io W IndexError (option Digest)) w0).
  { intros w0. destruct op; [done|]. by rewrite Hwalk. }
  destruct local as [[content index|content]|]; [done| |by apply Hrest].
  destruct (pr_digest identifier); [|done].
  change (recover_absent_dispatch other identifier content w1) with (recover_absent_dispatch chain identifier content w1).
  destruct (recover_absent_dispatch chain identifier content w1) as [[[head|]|e] w2]; [done|by apply Hrest|done].
Qed.
End Alike.

(** Two sources of one identity: they stand for the same names, and may answer differently. *)
Definition same_identity (s s' : Source (W := W)) : Prop :=
  (forall identifier, src_jurisdiction s identifier = src_jurisdiction s' identifier) /\
  (forall registry, src_serves_registry s registry = src_serves_registry s' registry) /\ src_source_kind s = src_source_kind s'.
Lemma kind_for_identity chain sources identifier : Forall2 same_identity (ci_sources chain) sources ->
  kind_for (with_sources chain sources) identifier = kind_for chain identifier.
Proof.
  intros Hs. unfold kind_for, kind_for_registry. simpl. induction Hs as [|s s' l l' (_ & Hr & Hk) Hs IH]; simpl; [done|].
  rewrite <- Hr. by destruct (src_serves_registry s _).
Qed.
Lemma offline_walk_alike chain sources identifier grow w : ci_mode chain = ModeOffline ->
  kind_for (with_sources chain sources) identifier = kind_for chain identifier ->
  walk_chain (with_sources chain sources) identifier grow w = walk_chain chain identifier grow w.
Proof. intros Hm Hk. unfold walk_chain, ensure_locally_resolvable. simpl. by rewrite Hm, Hk. Qed.
Lemma kind_for_registry_only chain identifier identifier' : pr_registry identifier' = pr_registry identifier ->
  kind_for chain identifier' = kind_for chain identifier.
Proof. unfold kind_for. by intros ->. Qed.

Lemma query_alike chain sources identifier w (f := with_sources chain sources) : ci_mode chain <> ModeRemote ->
  kind_for f identifier = kind_for chain identifier ->
  chain_fetch_manifest f identifier Query w = chain_fetch_manifest chain identifier Query w /\
  chain_fetch_manifest_digest f identifier Query w = chain_fetch_manifest_digest chain identifier Query w.
Proof.
  intros Hm Hk. assert (is_remote_query chain identifier Query = false) as Hq by (unfold is_remote_query; by rewrite bool_decide_eq_false_2).
  unfold chain_fetch_manifest, chain_fetch_manifest_digest.
  assert (read_local f identifier Query = read_local chain identifier Query) as -> by by apply read_local_alike.
  assert (is_remote_query f identifier Query = false) as -> by exact Hq. by rewrite Hq.
Qed.

(** ** Authoritative sources *)

(** [s] owns a registry: it serves it, and its answer for a name in it is final. *)
Definition owns_registry (s : Source (W := W)) (registry : string) : Prop :=
  src_serves_registry s registry = true /\
  forall identifier, pr_registry identifier = registry -> src_jurisdiction s identifier = Authoritative.

Lemma walk_sources_stop chain sources identifier grows above (s : Source (W := W)) below below' last_error w :
  walk_sources (with_sources chain sources) identifier grows (above ++ (s, true) :: below') last_error w =
  walk_sources chain identifier grows (above ++ (s, true) :: below) last_error w.
Proof.
  revert last_error w. induction above as [|[s1 a1] above IH]; intros last_error w; cbn [app walk_sources];
    unfold io_bind, io_try; cbn [ci_write_policy ci_local_index with_sources].
  - destruct ((if bool_decide (ci_write_policy chain = PolicyReadOnly) then fetch_dispatch_only s identifier
               else persist_dispatch (ci_local_index chain) s identifier) w) as [[[[[? ?] ?]|]|?] ?]; reflexivity.
  - destruct ((if bool_decide (ci_write_policy chain = PolicyReadOnly) then fetch_dispatch_only s1 identifier
               else persist_dispatch (ci_local_index chain) s1 identifier) w) as [[[[[? ?] ?]|]|?] ?];
      [reflexivity| |]; (destruct a1; [reflexivity|apply IH]).
Qed.
Lemma ask_sources_stop {A} (ask : Source (W := W) -> io W IndexError (option A)) above s below below' last_error w :
  ask_sources true ask (above ++ (s, true) :: below') last_error w = ask_sources true ask (above ++ (s, true) :: below) last_error w.
Proof.
  revert last_error w. induction above as [|[s1 a1] above IH]; intros last_error w; cbn [app ask_sources]; unfold io_bind, io_try.
  - by destruct (ask s w) as [[[?|]|?] ?].
  - destruct (ask s1 w) as [[[?|]|?] ?]; [reflexivity| |]; (destruct a1; [reflexivity|apply IH]).
Qed.

Lemma candidates_split chain identifier above s below : owns_registry s (pr_registry identifier) -> ci_sources chain = (above ++ s :: below)%list ->
  candidate_sources chain identifier = (omap (candidate identifier) above ++ (s, true) :: omap (candidate identifier) below)%list.
Proof.
  intros [_ Hj] Hs. unfold candidate_sources. rewrite Hs, omap_app. simpl. unfold candidate at 2. by rewrite Hj.
Qed.
Lemma kind_for_owned chain identifier above s below below' : owns_registry s (pr_registry identifier) -> ci_sources chain = (above ++ s :: below)%list ->
  kind_for (with_sources chain (above ++ s :: below')) identifier = kind_for chain identifier.
Proof.
  intros [Hr _] Hs. unfold kind_for, kind_for_registry. rewrite Hs. simpl. clear Hs.
  induction above as [|s1 above IH]; simpl; [by rewrite Hr|]. by destruct (src_serves_registry s1 _).
Qed.
Lemma walk_owned chain above s below below' identifier grow w : owns_registry s (pr_registry identifier) ->
  ci_sources chain = (above ++ s :: below)%list ->
  walk_chain (with_sources chain (above ++ s :: below')) identifier grow w = walk_chain chain identifier grow w.
Proof.
  intros Ho Hs. set (other := with_sources chain (above ++ s :: below')).
  assert (kind_for other identifier = kind_for chain identifier) as Hk by by apply kind_for_owned with below.
  assert (forall walked grow w, pr_registry walked = pr_registry identifier ->
    fetch_and_persist_chain other walked grow w = fetch_and_persist_chain chain walked grow w) as Hf.
  { intros walked grow0 w0 Hr. unfold fetch_and_persist_chain. rewrite <- Hr in Ho.
    rewrite (candidates_split chain walked above s below), (candidates_split other walked above s below') by done. apply walk_sources_stop. }
  assert (forall w, walk_online other identifier grow w = walk_online chain identifier grow w) as Ho'.
  { intros w0. unfold walk_online, io_bind, io_try. simpl.
    destruct (io_map_err _ _ w0) as [[[head|]|e] w1]; [done| |done]. rewrite Hf; [done|]. by destruct (pr_digest identifier). }
  unfold walk_chain, ensure_locally_resolvable. simpl. fold other. rewrite Hk.
  destruct (ci_mode chain); [apply Ho'|apply Ho'|done|]. unfold io_bind. by destruct (_ w) as [[?|?] ?].
Qed.
End ChainSpec.

(** ** Properties *)

(** C19: a pin never moves.  Whatever the sources answer, and in every mode, a lookup of a reference with a digest answers with
    that digest or not at all; and outside [--remote] a lookup of a tag which the local index resolves (its row and the object the
    row pins read as they should, or the object is absent) answers with the digest the row pins or not at all.  A corrupt object is
    excluded: there the walk goes by the tag.  Both for the manifest and for its digest alone. *)
Theorem named_digest_never_moves `{U : OciSpec} `{!Codec} `{!RootCodec Bytes} `{!IndexCodec} {W : Type} `{!IndexDisk W}
    `{!IndexProcess (W := W)} `{!NetLib W} `{!ChainProcess (W := W)} (chain : ChainedIndex (W := W)) (identifier : PackageRef)
    (op : IndexOperation) (w : W) (c : Digest) (Hn : named_digest chain identifier w c) :
  (forall d m w', chain_fetch_manifest chain identifier op w = (Ok (Some (d, m)), w') -> d = c) /\
  (forall d w', chain_fetch_manifest_digest chain identifier op w = (Ok (Some d), w') -> d = c).
Proof.
  split.
  - intros d m w'. by apply fetch_manifest_named.
  - intros d w'. by apply fetch_digest_named.
Qed.

(** C21: an offline chain contacts no source, and neither does a query outside [--remote].  Replacing what the sources do (not which
    names they stand for) changes neither the answer of a lookup nor the world it leaves: the sources' operations are not run. *)
Theorem offline_asks_no_source `{U : OciSpec} `{!Codec} `{!RootCodec Bytes} `{!IndexCodec} {W : Type} `{!IndexDisk W}
    `{!IndexProcess (W := W)} `{!NetLib W} `{!ChainProcess (W := W)} (chain : ChainedIndex (W := W)) (sources : list (Source (W := W)))
    (identifier : PackageRef) (w : W) (Hs : Forall2 same_identity (ci_sources chain) sources) :
  let other := with_sources chain sources in
  (ci_mode chain = ModeOffline -> forall op blob_ref,
     chain_fetch_manifest other identifier op w = chain_fetch_manifest chain identifier op w /\
     chain_fetch_manifest_digest other identifier op w = chain_fetch_manifest_digest chain identifier op w /\
     chain_list_tags other identifier w = chain_list_tags chain identifier w /\
     chain_fetch_blob other blob_ref w = chain_fetch_blob chain blob_ref w /\
     chain_fetch_manifest_raw_bytes other identifier w = chain_fetch_manifest_raw_bytes chain identifier w) /\
  (ci_mode chain <> ModeRemote ->
     chain_fetch_manifest other identifier Query w = chain_fetch_manifest chain identifier Query w /\
     chain_fetch_manifest_digest other identifier Query w = chain_fetch_manifest_digest chain identifier Query w /\
     chain_list_tags other identifier w = chain_list_tags chain identifier w).
Proof.
  assert (forall i, kind_for (with_sources chain sources) i = kind_for chain i) as Hk by (intros i; by apply kind_for_identity).
  intros other. assert (ci_mode chain <> ModeRemote -> chain_list_tags other identifier w = chain_list_tags chain identifier w) as Hl.
  { intros Hm. unfold chain_list_tags, other. simpl. rewrite Hk. by destruct (ci_mode chain). }
  split.
  - intros Hm op blob_ref. assert (is_remote_query chain identifier op = false) as Hq by (unfold is_remote_query; by rewrite Hm).
    split; [apply fetch_manifest_alike; auto using offline_walk_alike|].
    split; [apply fetch_digest_alike; auto using offline_walk_alike|]. split; [apply Hl; by rewrite Hm|].
    unfold chain_fetch_blob, chain_fetch_manifest_raw_bytes, other. simpl. by rewrite Hm.
  - intros Hm. destruct (query_alike chain sources identifier w Hm (Hk identifier)). auto.
Qed.

(** C22: an authoritative source has the last word.  When a source owns the registry of a reference, a resolve of it, and a live
    listing of its tags, do not depend on any source after it: what the owner lacks or refuses is not served by a registry that
    answers to the same name. *)
Theorem owner_has_last_word `{U : OciSpec} `{!Codec} `{!RootCodec Bytes} `{!IndexCodec} {W : Type} `{!IndexDisk W}
    `{!IndexProcess (W := W)} `{!NetLib W} `{!ChainProcess (W := W)} (chain : ChainedIndex (W := W))
    (above below below' : list (Source (W := W))) (s : Source (W := W)) (identifier : PackageRef) (w : W)
    (Ho : owns_registry s (pr_registry identifier)) (Hs : ci_sources chain = (above ++ s :: below)%list) :
  let other := with_sources chain (above ++ s :: below') in
  chain_fetch_manifest other identifier Resolve w = chain_fetch_manifest chain identifier Resolve w /\
  chain_fetch_manifest_digest other identifier Resolve w = chain_fetch_manifest_digest chain identifier Resolve w /\
  chain_list_tags other identifier w = chain_list_tags chain identifier w.
Proof.
  intros other. assert (kind_for other identifier = kind_for chain identifier) as Hk by by apply kind_for_owned with below.
  assert (is_remote_query chain identifier Resolve = false) as Hq by (unfold is_remote_query; by rewrite andb_false_r).
  assert (forall walked grow w, pr_registry walked = pr_registry identifier -> pr_repository walked = pr_repository identifier ->
    walk_chain other walked grow w = walk_chain chain walked grow w) as Hw.
  { intros walked grow w0 Hr _. apply walk_owned with below; [by rewrite Hr|done]. }
  split; [by apply fetch_manifest_alike|]. split; [by apply fetch_digest_alike|].
  unfold chain_list_tags. fold other. rewrite Hk. simpl. destruct (ci_mode chain); try done.
  rewrite (candidates_split chain identifier above s below), (candidates_split other identifier above s below') by done. apply ask_sources_stop.
Qed.
