(* ===== verification/IndexSelect.v ===== *)
(** * Selection through the index

    [Index::fetch_candidates] and [Index::select] of [crates/ocx_index/src/lib.rs]: the packages a
    reference stands for, one per platform, and the one of them a platform takes; over the chain
    of [IndexChain.v] and the matcher of [Platform.v]. *)

From stdpp Require Import base decidable list option numbers strings gmap.
From Stdlib Require Import Lia.
From S2P Require Import Prelude OMap Text Digest Tag PackageRef Platform Registry RootMerge Store IndexStore.
From S2P Require Import Ssrf LocalIndex IndexChain ChainSpec.
Local Open Scope ocx_scope.
Local Open Scope string_scope.

(** [enum SelectResult]. *)
Inductive SelectResult : Type :=
| SelFound (id : PackageRef)
| SelAmbiguous (ids : list PackageRef)
| SelNotFound
| SelFeatureMismatch (host_features : list string) (available : list Platform).

(** [host_os_features]. *)
Definition host_os_features (platform : Platform) : option (list string) :=
  match platform with
  | Specific _ _ _ ((_ :: _) as os_features) => Some os_features
  | _ => None
  end.
(** [Vec::dedup]. *)
Fixpoint vec_dedup {A : Type} `{!EqDecision A} (l : list A) : list A :=
  match l with
  | [] => []
  | x :: rest =>
      match vec_dedup rest with
      | [] => [x]
      | y :: kept => if decide (x = y) then y :: kept else x :: y :: kept
      end
  end.
(** [candidates_sharing_host_os_arch]. *)
Definition shares_host (platform candidate : Platform) : bool :=
  match platform, candidate with
  | Specific host_os host_arch _ _, Specific os arch _ _ => bool_decide (os = host_os) && bool_decide (arch = host_arch)
  | _, _ => false
  end.
Definition candidates_sharing_host_os_arch (platform : Platform) (candidates : list (PackageRef * Platform)) : list Platform :=
  vec_dedup (sort_by (fun a b => String.compare (platform_display a) (platform_display b))
    (List.filter (shares_host platform) (map snd candidates))).

Section Select.
Context `{U : OciSpec} `{!Codec} `{!RootCodec Bytes} `{!IndexCodec} {W : Type} `{!IndexDisk W} `{!IndexProcess (W := W)} `{!NetLib W}.
Context `{!ChainProcess (W := W)} (text : NativePlatform -> string).
Implicit Types (chain : ChainedIndex (W := W)) (identifier : PackageRef) (w : W).

(** The candidates of an image index; a descriptor that names no platform is skipped, a malformed digest fails. *)
Fixpoint index_candidates identifier (entries : list ImageIndexEntry) : result IndexError (list (PackageRef * Platform)) :=
  match entries with
  | [] => Ok []
  | entry :: rest =>
      match candidate_from_descriptor text entry with
      | None => index_candidates identifier rest
      | Some platform =>
          let? digest := result_map_err IxDigestInvalid (digest_try_from (en_digest entry)) in
          let? candidates := index_candidates identifier rest in
          Ok ((clone_with_digest identifier digest, platform) :: candidates)
      end
  end.
Definition fetch_candidates chain identifier (op : IndexOperation) : io W IndexError (option (list (PackageRef * Platform))) :=
  let! head := chain_fetch_manifest chain identifier op in
  match head with
  | None => io_ret None
  | Some (digest, MImage _) => io_ret (Some [(clone_with_digest identifier digest, PlatAny)])
  | Some (_, MIndex index) => let! candidates := io_of (index_candidates identifier (ix_manifests index)) in io_ret (Some candidates)
  end.
Definition selection_result (platform : Platform) (candidates : list (PackageRef * Platform)) : SelectResult :=
  match select_best platform candidates with
  | Found id => SelFound id
  | Ambiguous ids => SelAmbiguous ids
  | SelectNone =>
      match host_os_features platform with
      | Some host_features =>
          match candidates_sharing_host_os_arch platform candidates with
          | [] => SelNotFound
          | available => SelFeatureMismatch host_features available
          end
      | None => SelNotFound
      end
  end.
Definition index_select chain identifier (platform : Platform) (op : IndexOperation) : io W IndexError SelectResult :=
  let! candidates := fetch_candidates chain identifier op in
  match candidates with
  | None => io_ret SelNotFound
  | Some candidates => io_ret (selection_result platform candidates)
  end.

(** ** What a selection is *)

(** The package [r] that the manifest [m], of digest [c], offers for the platform [p]. *)
Definition offered identifier (c : Digest) (m : Manifest) (r : PackageRef) (p : Platform) : Prop :=
  match m with
  | MImage _ => r = clone_with_digest identifier c /\ p = PlatAny
  | MIndex index => exists entry d, In entry (ix_manifests index) /\ candidate_from_descriptor text entry = Some p /\
      digest_try_from (en_digest entry) = Ok d /\ r = clone_with_digest identifier d
  end.
(** It fits, and nothing on offer that fits ranks above it. *)
Definition best_offer identifier (c : Digest) (m : Manifest) (platform : Platform) (r : PackageRef) : Prop :=
  exists p, offered identifier c m r p /\ is_compatible platform p = true /\
    forall r' p', offered identifier c m r' p' -> is_compatible platform p' = true ->
      score_cmp (compatibility_score p') (compatibility_score p) <> Gt.

Lemma vec_dedup_In {A} `{!EqDecision A} (x : A) l : In x (vec_dedup l) <-> In x l.
Proof.
  induction l as [|y l IH]; simpl; [done|]. destruct (vec_dedup l) as [|z kept]; simpl in *; [tauto|].
  destruct (decide (y = z)) as [->|]; simpl in *; tauto.
Qed.
Lemma index_candidates_In identifier entries candidates r p : index_candidates identifier entries = Ok candidates ->
  In (r, p) candidates <-> exists entry d, In entry entries /\ candidate_from_descriptor text entry = Some p /\
    digest_try_from (en_digest entry) = Ok d /\ r = clone_with_digest identifier d.
Proof.
  revert candidates. induction entries as [|entry entries IH]; intros candidates; simpl; [intros [= <-]; naive_solver|].
  destruct (candidate_from_descriptor text entry) as [platform|] eqn:Ec.
  - destruct (digest_try_from (en_digest entry)) as [d|] eqn:Ed; simpl; [|done].
    destruct (index_candidates identifier entries) as [rest|]; simpl; [|done]. intros [= <-]. specialize (IH rest eq_refl). simpl. rewrite IH.
    split.
    + intros [[= <- <-]|(entry' & d' & ?)]; [by exists entry, d; auto|]. exists entry', d'. naive_solver.
    + intros (entry' & d' & [<-|Hin] & Hp & Hd & ->); [left; congruence|]. right. eauto 6.
  - intros Hc. rewrite (IH _ Hc). split; [naive_solver|]. intros (entry' & d' & [<-|Hin] & Hp & ?); [congruence|]. eauto 6.
Qed.

(** The candidates of an answer are what it offers. *)
Lemma fetch_candidates_ok chain identifier op w found w' : fetch_candidates chain identifier op w = (Ok found, w') ->
  exists head, chain_fetch_manifest chain identifier op w = (Ok head, w') /\
    match head, found with
    | None, None => True
    | Some (c, m), Some candidates => forall r p, In (r, p) candidates <-> offered identifier c m r p
    | _, _ => False
    end.
Proof.
  intros (head & w1 & Hf & Hx)%io_bind_ok. destruct head as [[c [image|index]]|].
  - injection Hx as <- <-. exists (Some (c, MImage image)). split; [done|]. intros r p. simpl. naive_solver.
  - apply io_bind_ok in Hx as (candidates & w2 & Hc & Hx). injection Hc as Hc <-. injection Hx as <- <-.
    exists (Some (c, MIndex index)). split; [done|]. intros r p. by apply index_candidates_In.
  - injection Hx as <- <-. by exists None.
Qed.

Section Result.
Context (identifier : PackageRef) (c : Digest) (m : Manifest) (platform : Platform) (candidates : list (PackageRef * Platform)).
Context (Hc : forall r p, In (r, p) candidates <-> offered identifier c m r p).

Lemma best_offer_top r : In r (map fst (List.filter (top_offer platform candidates) candidates)) <-> best_offer identifier c m platform r.
Proof.
  rewrite in_map_iff. unfold best_offer. split.
  - intros ([r0 p] & <- & [Hin Ht]%filter_In). unfold top_offer in Ht. simpl in *. apply andb_true_iff in Ht as [Hp Ht].
    exists p. split; [by apply Hc|]. split; [done|]. intros r' p' Ho Hp' Hgt. rewrite forallb_forall in Ht. specialize (Ht (r', p')).
    simpl in Ht. rewrite Hp', Hgt in Ht. discriminate Ht. by apply Hc.
  - intros (p & Ho & Hp & Hb). exists (r, p). split; [done|]. rewrite filter_In. split; [by apply Hc|]. unfold top_offer. simpl. rewrite Hp. simpl.
    apply forallb_forall. intros [r' p'] Hin. simpl. destruct (is_compatible platform p') eqn:Ep; simpl; [|done].
    specialize (Hb r' p' (proj1 (Hc r' p') Hin) Ep). by destruct (score_cmp _ _).
Qed.
Lemma select_none_incompatible : select_best platform candidates = SelectNone -> forall r p, offered identifier c m r p -> is_compatible platform p = false.
Proof.
  unfold select_best. intros Hs r p Ho%Hc.
  assert (select_inv platform candidates (foldl (select_step platform) (None, []) candidates)) as Hi by by apply (select_fold_inv platform candidates []).
  destruct (foldl (select_step platform) (None, []) candidates) as [[best|] items]; unfold select_inv in Hi; simpl in *.
  - destruct Hi as (-> & (x & Hx & Hxc & Hxs) & _). exfalso.
    match type of Hs with context [map fst ?l] => assert (In x.1 (map fst l)) as Hin end.
    { apply in_map. rewrite filter_In. split; [done|]. by rewrite Hxc, Hxs, score_refl. }
    destruct (map fst _) as [|? [|]]; by simpl in *.
  - destruct Hi as [_ Hi]. by apply (Hi (r, p)).
Qed.
Lemma available_In p : In p (candidates_sharing_host_os_arch platform candidates) <->
  shares_host platform p = true /\ exists r, offered identifier c m r p.
Proof.
  unfold candidates_sharing_host_os_arch. rewrite vec_dedup_In, sort_by_In, filter_In, in_map_iff. split.
  - intros [([r p0] & <- & Hin) Hs]. split; [done|]. exists r. by apply Hc.
  - intros [Hs [r Ho]]. split; [|done]. exists (r, p). split; [done|]. by apply Hc.
Qed.

(** What a selection among the offers of one manifest reports. *)
Definition selection_right (result : SelectResult) : Prop :=
  match result with
  | SelFound id => forall r, r = id <-> best_offer identifier c m platform r
  | SelAmbiguous ids => (2 <= length ids)%nat /\ forall r, In r ids <-> best_offer identifier c m platform r
  | SelNotFound => forall r p, offered identifier c m r p ->
      is_compatible platform p = false /\ (host_os_features platform <> None -> shares_host platform p = false)
  | SelFeatureMismatch host_features available =>
      (forall r p, offered identifier c m r p -> is_compatible platform p = false) /\ host_os_features platform = Some host_features /\
      available <> [] /\ forall p, In p available <-> shares_host platform p = true /\ exists r, offered identifier c m r p
  end.
Lemma selection_result_right : selection_right (selection_result platform candidates).
Proof.
  unfold selection_result. pose proof select_none_incompatible as Hn. pose proof best_offer_top as Ht. pose proof available_In as Ha.
  assert (select_best platform candidates = match map fst (List.filter (top_offer platform candidates) candidates) with
    [] => SelectNone | [item] => Found item | items => Ambiguous items end) as Hs by (unfold select_best; by rewrite select_items).
  rewrite Hs in *. destruct (map fst (List.filter (top_offer platform candidates) candidates)) as [|item [|item2 items]]; simpl in *.
  - specialize (Hn eq_refl). destruct (host_os_features platform) as [features|] eqn:Ef.
    + destruct (candidates_sharing_host_os_arch platform candidates) as [|p0 available].
      * intros r p Ho. split; [by eapply Hn|]. intros _. destruct (shares_host platform p) eqn:E; [|done]. exfalso. apply (Ha p). eauto.
      * done.
    + intros r p Ho. split; [by eapply Hn|]. done.
  - intros r. rewrite <- Ht. naive_solver.
  - split; [lia|]. intros r. by rewrite <- Ht.
Qed.
End Result.

(** C20: the package a platform gets is the one its pin offers.  When a lookup has a named digest (the caller's pin, or the pin of the
    local index), a selection that returns answered from the manifest of that very digest: the package found is the one offer of it
    that fits the platform and that no fitting offer outranks, several such are reported as ambiguous, all of them, and a refusal
    means that nothing it offers fits, a feature mismatch listing exactly the offers for the host's system and architecture. *)
Theorem selection_follows_the_pin chain identifier platform op w c result w' : named_digest chain identifier w c ->
  index_select chain identifier platform op w = (Ok result, w') ->
  (chain_fetch_manifest chain identifier op w = (Ok None, w') /\ result = SelNotFound) \/
  exists m, chain_fetch_manifest chain identifier op w = (Ok (Some (c, m)), w') /\ selection_right identifier c m platform result.
Proof.
  intros Hn (found & w1 & Hf & Hx)%io_bind_ok. apply fetch_candidates_ok in Hf as (head & Hh & Hc).
  destruct head as [[d m]|], found as [candidates|]; try done.
  - injection Hx as <- <-. right. exists m. assert (d = c) as -> by by eapply fetch_manifest_named. split; [done|]. by apply selection_result_right.
  - injection Hx as <- <-. by left.
Qed.
End Select.
