(* ===== verification/IndexDiskSpec.v ===== *)
(** * What the index writes

    [IndexDiskLaws] is the interface of a file system that does what its documentation says; over
    it, [only] says which files an operation can change, and the lemmas walk through the
    operations of [IndexStore.v], [LocalIndex.v] and [IndexChain.v].  The theorems: a read leaves
    every root document alone, and an update loses no object its roots still pin. *)

From stdpp Require Import base decidable list option numbers strings gmap.
From Stdlib Require Import Lia.
From S2P Require Import Prelude OMap Text Digest Tag PackageRef Platform Registry RootMerge Store IndexStore.
From S2P Require Import Ssrf LocalIndex IndexChain.
Local Open Scope ocx_scope.
Local Open Scope string_scope.

(** ** The file system *)

Class IndexDiskLaws `{U : OciSpec} `{!Codec} (W : Type) `{!IndexDisk W} : Type := {
  files : W -> gmap Path Bytes;
  fs_read_keeps : forall p w, files (fs_read p w).2 = files w;
  fs_read_ok : forall p w b w', fs_read p w = (Ok b, w') -> files w !! p = Some b;
  fs_read_absent : forall p w e w', fs_read p w = (Err e, w') -> fe_kind e = FsNotFound -> files w !! p = None;
  fs_create_dir_keeps : forall p w, files (fs_create_dir_all p w).2 = files w;
  fs_write_temp_keeps : forall t w, files (fs_write_temp t w).2 = files w;
  fs_lock_keeps : forall r s d x w, files (fs_lock r s d x w).2 = files w;
  fs_persist_ok : forall t p w u w', fs_persist t p w = (Ok u, w') -> files w' = <[p := tf_bytes t]> (files w);
  fs_persist_err : forall t p w e w', fs_persist t p w = (Err e, w') -> files w' = files w;
  fs_remove_ok : forall p w u w', fs_remove_file p w = (Ok u, w') -> files w' = delete p (files w);
  fs_remove_err : forall p w e w', fs_remove_file p w = (Err e, w') -> files w' = files w;
}.

(** ** Paths *)

Lemma str_app_cancel_r a b c : a +:+ c = b +:+ c -> a = b.
Proof.
  revert b. induction a as [|x a IH]; intros [|y b] E; [done| | |].
  - apply (f_equal String.length) in E. rewrite str_length_app in E. simpl in E. rewrite str_length_app in E. lia.
  - apply (f_equal String.length) in E. rewrite str_length_app in E. simpl in E. rewrite ?str_length_app in E. lia.
  - injection E as -> E. f_equal. by apply IH.
Qed.
Lemma join_plain p c : c <> "" -> c <> "." -> join p c = (p ++ [c])%list.
Proof. intros H1 H2. unfold join. by destruct (String.eqb_spec c ""), (String.eqb_spec c "."). Qed.
Lemma join_all_prefix p l : exists rest, join_all p l = (p ++ rest)%list.
Proof.
  unfold join_all. revert p. induction l as [|c l IH]; intros p; simpl; [exists []; by rewrite app_nil_r|].
  destruct (IH (join p c)) as [rest ->]. unfold join. destruct (_ || _); [by exists rest|]. exists (c :: rest). by rewrite <- app_assoc.
Qed.
Lemma with_added_extension_length ext p : length (with_added_extension ext p) = length p.
Proof.
  unfold with_added_extension. destruct (last p) as [name|] eqn:E; [|done]. destruct (String.eqb name ".."); [done|].
  apply last_Some in E as [l ->]. by rewrite removelast_last, !length_app.
Qed.

Section Paths.
Context (store : IndexStore) (source repository : string).
Let base := wire_source_dir store source.
Let package := join_all (join base "p") (repository_path repository).

Lemma object_path_eq d : dispatch_object_path store source repository d =
  (package ++ ["o"; algorithm_prefix (digest_algorithm d); digest_hex d +:+ ".json"])%list.
Proof.
  unfold dispatch_object_path. fold base package. rewrite !join_plain; [by rewrite <- !app_assoc|..]; try done.
  all: first [by destruct (digest_algorithm d)|intros E; apply (f_equal String.length) in E; rewrite str_length_app in E; simpl in E; lia].
Qed.
Lemma object_path_inj d d' : dispatch_object_path store source repository d = dispatch_object_path store source repository d' -> d = d'.
Proof.
  rewrite !object_path_eq. intros [= Ha Hh]%app_inv_head. apply str_app_cancel_r in Hh.
  destruct d, d'; simpl in *; by simplify_eq.
Qed.
Lemma package_dir_eq : exists rest, package = (base ++ "p" :: rest)%list.
Proof.
  unfold package. destruct (join_all_prefix (join base "p") (repository_path repository)) as [rest ->].
  exists rest. rewrite join_plain by done. by rewrite <- app_assoc.
Qed.
Lemma root_not_object d : root_document_path store source repository <> dispatch_object_path store source repository d.
Proof.
  rewrite object_path_eq. unfold root_document_path. fold base package. intros E%(f_equal length).
  rewrite with_added_extension_length, length_app in E. simpl in E. lia.
Qed.
(** What the catalog transaction of a source touches. *)
Definition catalog_file (p : Path) : Prop :=
  p = source_catalog_path store source \/ p = with_added_extension "etag" (source_catalog_path store source).
Lemma catalog_path_eq : source_catalog_path store source = (base ++ ["c"; "index.json"])%list.
Proof. unfold source_catalog_path. fold base. rewrite !join_plain by done. by rewrite <- app_assoc. Qed.
Lemma config_path_eq : source_config_path store source = (base ++ ["config.json"])%list.
Proof. unfold source_config_path. fold base. by rewrite join_plain. Qed.
Lemma etag_path_eq : with_added_extension "etag" (source_catalog_path store source) = (base ++ ["c"; "index.json.etag"])%list.
Proof.
  rewrite catalog_path_eq. unfold with_added_extension. replace (base ++ ["c"; "index.json"])%list with ((base ++ ["c"]) ++ ["index.json"])%list
    by by rewrite <- app_assoc. rewrite last_snoc, removelast_last. simpl. by rewrite <- app_assoc.
Qed.
Lemma catalog_not_object d p : catalog_file p -> p <> dispatch_object_path store source repository d.
Proof.
  rewrite object_path_eq. destruct package_dir_eq as [rest ->]. unfold catalog_file. rewrite etag_path_eq, catalog_path_eq, <- app_assoc.
  by intros [->| ->] E%app_inv_head.
Qed.
Lemma config_not_object d : source_config_path store source <> dispatch_object_path store source repository d.
Proof. rewrite object_path_eq, config_path_eq. destruct package_dir_eq as [rest ->]. rewrite <- app_assoc. by intros E%app_inv_head. Qed.
Lemma root_path_eq : exists rest name, root_document_path store source repository = (base ++ name :: rest)%list /\ (name = "p" \/ name = "p.json").
Proof.
  unfold root_document_path. fold base package. destruct package_dir_eq as [rest ->]. unfold with_added_extension.
  destruct rest as [|x rest] using rev_ind.
  - rewrite last_snoc, removelast_last. simpl. eauto.
  - clear IHrest. replace (base ++ "p" :: rest ++ [x])%list with ((base ++ "p" :: rest) ++ [x])%list by by rewrite <- app_assoc.
    rewrite last_snoc, removelast_last. destruct (String.eqb x "..").
    + exists (rest ++ [x])%list, "p". rewrite <- app_assoc. auto.
    + exists (rest ++ [x +:+ ".json"])%list, "p". rewrite <- app_assoc. auto.
Qed.
Lemma catalog_not_root p : catalog_file p -> p <> root_document_path store source repository.
Proof.
  destruct root_path_eq as (rest & name & -> & Hn). unfold catalog_file. rewrite etag_path_eq, catalog_path_eq.
  intros [->| ->] E%app_inv_head; destruct Hn; congruence.
Qed.
Lemma config_not_root : source_config_path store source <> root_document_path store source repository.
Proof. destruct root_path_eq as (rest & name & -> & Hn). rewrite config_path_eq. intros E%app_inv_head. destruct Hn; congruence. Qed.
End Paths.

(** ** Footprints *)

Section Footprints.
Context `{U : OciSpec} `{!Codec} `{!RootCodec Bytes} `{!IndexCodec} {W : Type} `{!IndexDisk W} `{!IndexDiskLaws W} `{!IndexProcess (W := W)}.
Context (gated_keeps : forall s w, files (gated_insert s w) = files w).
Implicit Types (w : W) (Q : Path -> Prop).

(** [m] changes no file outside [Q]. *)
Definition only {E A : Type} Q (m : io W E A) : Prop := forall w p, ~ Q p -> files (m w).2 !! p = files w !! p.

Lemma only_mono {E A} Q Q' (m : io W E A) : (forall p, Q p -> Q' p) -> only Q m -> only Q' m.
Proof. intros HQ Hm w p Hp. apply Hm. auto. Qed.
Lemma only_keeps {E A} Q (m : io W E A) : (forall w, files (m w).2 = files w) -> only Q m.
Proof. intros Hm w p _. by rewrite Hm. Qed.
Lemma only_ret {E A} Q (a : A) : only (E := E) Q (io_ret a).
Proof. by apply only_keeps. Qed.
Lemma only_fail {E A} Q (e : E) : only (A := A) Q (io_fail e).
Proof. by apply only_keeps. Qed.
Lemma only_of {E A} Q (r : result E A) : only Q (io_of r).
Proof. by apply only_keeps. Qed.
Lemma only_bind {E A B} Q (m : io W E A) (k : A -> io W E B) : only Q m -> (forall a, only Q (k a)) -> only Q (io_bind m k).
Proof.
  intros Hm Hk w p Hp. unfold io_bind. specialize (Hm w p Hp). destruct (m w) as [[a|e] w1]; simpl in *; [|done].
  by rewrite (Hk a w1 p Hp).
Qed.
Lemma only_try {E F A} Q (m : io W E A) : only Q m -> only (E := F) Q (io_try m).
Proof. intros Hm w p Hp. unfold io_try. specialize (Hm w p Hp). by destruct (m w). Qed.
Lemma only_map_err {E F A} Q (f : E -> F) (m : io W E A) : only Q m -> only Q (io_map_err f m).
Proof. intros Hm w p Hp. unfold io_map_err. specialize (Hm w p Hp). by destruct (m w). Qed.
Lemma only_foldl {E A B} Q (f : B -> A -> io W E B) acc l : (forall acc a, In a l -> only Q (f acc a)) -> only Q (io_foldl f acc l).
Proof.
  revert acc. induction l as [|a l IH]; intros acc Hf; simpl; [apply only_ret|].
  apply only_bind; [apply Hf; by left|]. intros acc'. apply IH. intros acc1 a1 Ha. apply Hf. by right.
Qed.
Lemma only_persist Q tmp target : Q target -> only Q (fs_persist tmp target).
Proof.
  intros HQ w p Hp. destruct (fs_persist tmp target w) as [[u|e] w1] eqn:E.
  - apply fs_persist_ok in E. simpl. rewrite E, lookup_insert_ne; [done|]. by intros ->.
  - apply fs_persist_err in E. simpl. by rewrite E.
Qed.
Lemma only_remove Q target : Q target -> only Q (fs_remove_file target).
Proof.
  intros HQ w p Hp. destruct (fs_remove_file target w) as [[u|e] w1] eqn:E.
  - apply fs_remove_ok in E. simpl. rewrite E, lookup_delete_ne; [done|]. by intros ->.
  - apply fs_remove_err in E. simpl. by rewrite E.
Qed.

(** One step of a footprint: a bind, a call of the disk, a case of the code. *)
Ltac only_step :=
  match goal with
  | |- only _ (io_bind _ _) => apply only_bind; [|intros ?]
  | |- only _ (io_ret _) => apply only_ret
  | |- only _ (io_fail _) => apply only_fail
  | |- only _ (io_of _) => apply only_of
  | |- only _ (gate _) => apply only_of
  | |- only _ (io_try _) => apply only_try
  | |- only _ (io_map_err _ _) => apply only_map_err
  | |- only _ (file_error _ _) => apply only_map_err
  | |- only _ (fs_read _) => apply only_keeps, fs_read_keeps
  | |- only _ (fs_create_dir_all _) => apply only_keeps, fs_create_dir_keeps
  | |- only _ (fs_write_temp _) => apply only_keeps, fs_write_temp_keeps
  | |- only _ (fs_lock _ _ _ _) => apply only_keeps; intros; apply fs_lock_keeps
  | |- only _ (fs_persist _ _) => apply only_persist
  | |- only _ (fs_remove_file _) => apply only_remove
  | |- only _ (fun _ => (_, gated_insert _ _)) => apply only_keeps; intros; apply gated_keeps
  | |- only _ (fun _ => (_, _)) => by apply only_keeps
  | |- only _ (match ?x with _ => _ end) => destruct x
  | |- only _ (let '(_, _) := ?x in _) => destruct x
  end.
Ltac only_solve := repeat only_step; eauto.

Definition nothing (p : Path) : Prop := False.
Lemma only_nothing {E A} Q (m : io W E A) : only nothing m -> only Q m.
Proof. by apply only_mono. Qed.

Lemma read_optional_only Q target : only Q (read_optional target).
Proof. unfold read_optional. only_solve. Qed.
Lemma create_parent_only Q target : only Q (create_parent target).
Proof. unfold create_parent. only_solve. Qed.
Lemma write_bytes_atomic_only Q target bytes : Q target -> only Q (write_bytes_atomic target bytes).
Proof. intros HQ. unfold write_bytes_atomic. apply only_bind; [apply create_parent_only|]. intros parent. only_solve. Qed.
Lemma write_verified_object_only Q target d bytes : Q target -> only Q (write_verified_object target d bytes).
Proof.
  intros HQ. unfold write_verified_object. destruct (negb _); [apply only_fail|]. apply only_bind; [only_solve|].
  intros existing. destruct (match existing with Ok _ => _ | Err _ => _ end); [apply only_ret|].
  apply only_bind; [apply create_parent_only|]. intros parent. only_solve.
Qed.
Lemma write_dispatch_object_only Q store source repository d bytes : Q (dispatch_object_path store source repository d) ->
  only Q (write_dispatch_object store source repository d bytes).
Proof. intros HQ. unfold write_dispatch_object. repeat only_step. by apply write_verified_object_only. Qed.
Lemma read_dispatch_object_only Q store source repository d : only Q (read_dispatch_object store source repository d).
Proof. unfold read_dispatch_object, read_verified_object. repeat first [apply read_optional_only|only_step]. Qed.
Lemma lock_source_only Q store scope source x : only Q (lock_source store scope source x).
Proof. unfold lock_source. only_solve. Qed.
Lemma read_root_document_bytes_only Q store source repository : only Q (read_root_document_bytes store source repository).
Proof. unfold read_root_document_bytes. repeat first [apply read_optional_only|only_step]. Qed.
Lemma read_source_catalog_only Q store source : only Q (read_source_catalog store source).
Proof. unfold read_source_catalog. repeat first [apply read_optional_only|only_step]. Qed.
Lemma read_source_config_only Q store source : only Q (read_source_config store source).
Proof. unfold read_source_config. repeat first [apply read_optional_only|only_step]. Qed.
Lemma ensure_source_config_only Q store source : Q (source_config_path store source) -> only Q (ensure_source_config store source).
Proof.
  intros HQ. unfold ensure_source_config. apply only_bind; [apply lock_source_only|]. intros []. apply only_bind; [by apply only_keeps|].
  intros [|]; [apply only_ret|]. by apply write_bytes_atomic_only.
Qed.
Lemma read_root_inner_only Q store source repository check : only Q (read_root_inner store source repository check).
Proof. unfold read_root_inner. repeat first [apply read_optional_only|only_step]. Qed.
Lemma begin_catalog_transaction_only Q store source : only Q (begin_catalog_transaction store source).
Proof. unfold begin_catalog_transaction. repeat first [apply lock_source_only|apply read_source_catalog_only|only_step]. Qed.
Lemma commit_only Q store tx : (forall p, catalog_file store (tx_source tx) p -> Q p) -> only Q (commit store tx).
Proof.
  intros HQ. unfold commit. apply only_bind; [only_solve; apply HQ; by right|]. intros r. destruct (bool_decide _); [apply only_ret|].
  apply write_bytes_atomic_only, HQ. by left.
Qed.

(** A transaction is of the source it was begun for. *)
Lemma begin_source store source w tx w' : begin_catalog_transaction store source w = (Ok tx, w') -> tx_source tx = source.
Proof.
  unfold begin_catalog_transaction, io_bind. destruct (lock_source _ _ _ _ w) as [[?|?] w1]; [|done].
  destruct (read_source_catalog store source w1) as [[?|?] w2]; [|done]. unfold io_ret. by intros [= <- _].
Qed.
Lemma only_begin {B} Q store source (k : CatalogTransaction -> io W IndexError B) :
  (forall tx, tx_source tx = source -> only Q (k tx)) -> only Q (io_bind (begin_catalog_transaction store source) k).
Proof.
  intros Hk w p Hp. pose proof (begin_catalog_transaction_only Q store source w p Hp) as Hb. unfold io_bind.
  destruct (begin_catalog_transaction store source w) as [[tx|e] w1] eqn:E; simpl in *; [|done].
  apply begin_source in E. by rewrite (Hk tx E w1 p Hp).
Qed.
Lemma read_root_only Q store source repository check : (forall p, catalog_file store source p -> Q p) -> only Q (read_root store source repository check).
Proof.
  intros HQ. unfold read_root. apply only_bind; [apply read_root_inner_only|]. intros [[bytes root]|]; [|apply only_ret].
  apply only_bind; [apply read_source_catalog_only|]. intros catalog. destruct (bool_decide _); [apply only_ret|].
  apply only_bind.
  - apply only_try. unfold persist_recovered_catalog_entry. apply only_begin. intros tx Htx.
    apply only_bind; [apply read_root_inner_only|]. intros fresh. destruct (default _ fresh) as [b r].
    apply only_bind; [|intros; apply only_ret]. apply commit_only. simpl. by rewrite Htx.
  - intros [[[b r] e]|e]; apply only_ret.
Qed.
Lemma read_root_by_kind_only Q local source repository kind : (forall p, catalog_file (li_index_store local) source p -> Q p) ->
  only Q (read_root_by_kind local source repository kind).
Proof.
  intros HQ. unfold read_root_by_kind. apply only_bind.
  - unfold check_format_version. repeat first [apply read_source_config_only|only_step].
  - intros []. destruct kind; [by apply read_root_only|].
    unfold read_root_uncatalogued. apply only_bind; [apply read_root_inner_only|]. intros; apply only_ret.
Qed.
Lemma resolve_dispatch_only Q local identifier kind : (forall p, catalog_file (li_index_store local) (pr_registry identifier) p -> Q p) ->
  only Q (resolve_dispatch local identifier kind).
Proof.
  intros HQ. unfold resolve_dispatch, resolve_content.
  repeat first [apply read_root_by_kind_only; exact HQ|apply read_dispatch_object_only|only_step].
Qed.

(** ** Reads through the chain *)

Context `{!NetLib W} `{!ChainProcess (W := W)}.
Implicit Types (chain : ChainedIndex (W := W)) (identifier : PackageRef).

(** A source writes nothing to this machine's files. *)
Definition source_quiet (s : Source (W := W)) : Prop :=
  (forall i op, only nothing (src_fetch_manifest s i op)) /\ (forall i op, only nothing (src_fetch_manifest_digest s i op)) /\
  (forall i, only nothing (src_fetch_manifest_raw_bytes s i)) /\ (forall i, only nothing (src_fetch_root_document s i)) /\
  (forall i, only nothing (src_revalidate_root_document s i)) /\ (forall i, only nothing (src_list_tags s i)).
(** The group of coalesced walks keeps its answers in memory. *)
Definition group_quiet : Prop :=
  (forall g key, only nothing (try_acquire g key)) /\ (forall g key head w, files (flight_complete g key head w) = files w) /\
  (forall g key e w, files (flight_fail g key e w) = files w).
Context (Hgroup : group_quiet).

(** The files a lookup that may not write can still change: the catalog of the source, which a read repairs; the machine's blob
    cache; and, unless the view is read-only, the object recovered out of that cache. *)
Definition read_may_write chain identifier (p : Path) : Prop :=
  catalog_file (li_index_store (ci_local_index chain)) (pr_registry identifier) p \/
  (exists fs d, ci_content_store chain = Some fs /\ p = blob_data fs (pr_registry identifier) d) \/
  (ci_write_policy chain <> PolicyReadOnly /\
   exists d, p = dispatch_object_path (li_index_store (ci_local_index chain)) (pr_registry identifier) (pr_repository identifier) d).

Lemma persist_bytes_only Q target bytes : Q target -> only Q (persist_bytes (W := W) target bytes).
Proof. intros HQ. unfold persist_bytes. apply only_bind; [apply create_parent_only|]. intros parent. only_solve. Qed.
Lemma recover_only chain identifier content : only (read_may_write chain identifier) (recover_absent_dispatch chain identifier content).
Proof.
  unfold recover_absent_dispatch. destruct (ci_content_store chain) as [fs|] eqn:Ef; [|apply only_ret].
  apply only_bind; [apply read_optional_only|]. intros [bytes|]; [|apply only_ret]. destruct (negb _).
  - unfold remove_blob. only_solve. right; left. eauto.
  - destruct (manifest_from_slice bytes) as [manifest|]; [|apply only_ret]. apply only_bind; [|intros; apply only_ret].
    destruct manifest; [apply only_ret|]. destruct (bool_decide (ci_write_policy chain = PolicyReadOnly)) eqn:Ep; simpl; [apply only_ret|].
    apply bool_decide_eq_false in Ep. apply only_try, write_dispatch_object_only. right; right. eauto.
Qed.
Lemma read_local_only chain identifier op : only (read_may_write chain identifier) (read_local chain identifier op).
Proof.
  unfold read_local. destruct (local_first chain identifier); [|apply only_ret].
  apply only_bind; [apply only_try, resolve_dispatch_only; intros p Hp; by left|]. intros [r|e]; only_solve.
Qed.
Lemma ask_sources_only {A} Q stops (ask : Source (W := W) -> io W IndexError (option A)) candidates last_error :
  Forall (fun c => only Q (ask c.1)) candidates -> only Q (ask_sources stops ask candidates last_error).
Proof.
  intros Hc. revert last_error. induction Hc as [|[s a] l Hs Hc IH]; intros last_error; simpl; [only_solve|].
  apply only_bind; [by apply only_try|]. intros [[x|]|e]; only_solve.
Qed.
Lemma candidates_Forall chain identifier (P : Source (W := W) -> Prop) : Forall P (ci_sources chain) ->
  Forall (fun c => P c.1) (candidate_sources chain identifier).
Proof.
  intros Hs. unfold candidate_sources. apply Forall_forall. intros [s a] (x & Hx & Hc)%list_elem_of_omap.
  rewrite Forall_forall in Hs. unfold candidate in Hc. destruct (src_jurisdiction x identifier); simplify_eq; simpl; auto.
Qed.
Lemma may_write_registry chain identifier identifier' : pr_registry identifier' = pr_registry identifier ->
  pr_repository identifier' = pr_repository identifier -> read_may_write chain identifier' = read_may_write chain identifier.
Proof. unfold read_may_write. by intros -> ->. Qed.

(** A read-only walk writes at most the blob cache. *)
Lemma walk_sources_only chain identifier candidates last_error : ci_write_policy chain = PolicyReadOnly ->
  Forall (fun c => source_quiet c.1) candidates -> only (read_may_write chain identifier) (walk_sources chain identifier false candidates last_error).
Proof.
  intros Hp Hc. revert last_error. induction Hc as [|[s a] l Hs Hc IH]; intros last_error; simpl; [only_solve|].
  rewrite Hp. simpl. apply only_bind; [apply only_try, only_nothing, Hs|]. intros [[[[bytes d] m]|]|e].
  - apply only_bind; [|intros; only_solve]. unfold cache_leaf_manifest. destruct (ci_content_store chain) as [fs|] eqn:Ef; [|apply only_ret].
    destruct m; [|apply only_ret]. apply only_bind; [|intros; apply only_ret]. apply only_try. unfold write_blob.
    apply only_bind; [by apply only_keeps|]. intros [|]; [apply only_ret|]. apply persist_bytes_only. right; left. eauto.
  - destruct a; [|apply IH]. destruct (src_index_base_url s); [|apply only_ret]. apply only_bind; [|intros; apply only_fail].
    destruct (src_source_kind s); apply only_ret.
  - destruct a; [apply only_fail|apply IH].
Qed.
Lemma read_only_grows chain identifier grow : ci_write_policy chain = PolicyReadOnly -> walk_grows_root chain identifier grow = false.
Proof. unfold walk_grows_root. intros ->. by rewrite !andb_false_r. Qed.
Lemma walk_online_only chain identifier grow : ci_write_policy chain = PolicyReadOnly -> Forall source_quiet (ci_sources chain) ->
  only (read_may_write chain identifier) (walk_online chain identifier grow).
Proof.
  intros Hp Hs. destruct Hgroup as (Hg1 & Hg2 & Hg3). unfold walk_online.
  apply only_bind; [apply only_map_err, only_nothing, Hg1|]. intros [head|]; [apply only_of|]. apply only_bind.
  - apply only_try. unfold fetch_and_persist_chain. rewrite read_only_grows by done.
    set (walked := match pr_digest identifier with Some _ => identifier | None => _ end).
    rewrite <- (may_write_registry chain identifier walked) by (unfold walked; by destruct (pr_digest identifier)).
    apply walk_sources_only; [done|]. by apply candidates_Forall.
  - intros [head|e]; (apply only_bind; [apply only_keeps; intros; simpl; auto|intros; first [apply only_of|apply only_fail]]).
Qed.
Lemma walk_chain_only chain identifier grow : ci_write_policy chain = PolicyReadOnly -> Forall source_quiet (ci_sources chain) ->
  only (read_may_write chain identifier) (walk_chain chain identifier grow).
Proof.
  intros Hp Hs. assert (only (read_may_write chain identifier)
      (if bool_decide (pr_digest identifier = None) then ensure_locally_resolvable chain identifier else io_ret tt)) as He.
  { destruct (bool_decide _); [|apply only_ret]. unfold ensure_locally_resolvable.
    apply only_bind; [apply resolve_dispatch_only; intros p Hq; by left|]. intros [r|]; only_solve. }
  unfold walk_chain. destruct (ci_mode chain).
  - by apply walk_online_only.
  - by apply walk_online_only.
  - apply only_bind; [exact He|]. intros; apply only_ret.
  - apply only_bind; [exact He|]. intros; by apply walk_online_only.
Qed.

Lemma fetch_manifest_only chain identifier op : op = Query \/ ci_write_policy chain = PolicyReadOnly -> Forall source_quiet (ci_sources chain) ->
  only (read_may_write chain identifier) (chain_fetch_manifest chain identifier op).
Proof.
  intros Ho Hs. unfold chain_fetch_manifest. apply only_bind; [apply read_local_only|]. intros [local corrupt].
  assert (only (read_may_write chain identifier) (query_sources_manifest chain identifier)) as Hq.
  { apply ask_sources_only. eapply Forall_impl; [by apply candidates_Forall|]. intros c Hc. apply only_nothing, Hc. }
  destruct local as [[content index|content]|]; [apply only_ret| |].
  - apply only_bind; [apply recover_only|]. intros [head|]; [apply only_ret|]. destruct (is_remote_query _ _ _); [exact Hq|].
    destruct op; [apply only_ret|]. destruct Ho as [|Hp]; [done|].
    set (pinned := match pr_digest identifier with None => _ | Some _ => identifier end).
    rewrite <- (may_write_registry chain identifier pinned) by (unfold pinned; by destruct (pr_digest identifier)). by apply walk_chain_only.
  - apply only_bind; [apply only_ret|]. intros [head|]; [apply only_ret|]. destruct (is_remote_query _ _ _); [exact Hq|].
    destruct op; [apply only_ret|]. destruct Ho as [|Hp]; [done|]. by apply walk_chain_only.
Qed.
Lemma fetch_digest_only chain identifier op : op = Query \/ ci_write_policy chain = PolicyReadOnly -> Forall source_quiet (ci_sources chain) ->
  only (read_may_write chain identifier) (chain_fetch_manifest_digest chain identifier op).
Proof.
  intros Ho Hs. unfold chain_fetch_manifest_digest. apply only_bind; [apply read_local_only|]. intros [local corrupt].
  apply only_bind.
  - destruct local as [[content index|content]|]; [apply only_ret| |apply only_ret]. destruct (pr_digest identifier); [|apply only_ret].
    apply only_bind; [apply recover_only|]. intros; apply only_ret.
  - intros [d|]; [apply only_ret|]. destruct (is_remote_query _ _ _).
    + apply ask_sources_only. eapply Forall_impl; [by apply candidates_Forall|]. intros c Hc. apply only_nothing, Hc.
    + destruct op; [apply only_ret|]. destruct Ho as [|Hp]; [done|]. apply only_bind; [by apply walk_chain_only|]. intros; apply only_ret.
Qed.

(** C23: a lookup leaves the index as it found it.  A query, and any lookup of a read-only view, over sources that leave this machine's
    files alone, whatever it finds and however it ends, changes no file but: the catalog of the registry asked, which a read repairs
    after its roots; a blob of the machine's cache; and, unless the view is read-only, an object of the package, recovered from
    that cache. *)
Theorem lookups_keep_the_index chain identifier op w p : op = Query \/ ci_write_policy chain = PolicyReadOnly ->
  Forall source_quiet (ci_sources chain) -> ~ read_may_write chain identifier p ->
  files (chain_fetch_manifest chain identifier op w).2 !! p = files w !! p /\
  files (chain_fetch_manifest_digest chain identifier op w).2 !! p = files w !! p.
Proof. intros Ho Hs Hp. split; [by apply fetch_manifest_only|by apply fetch_digest_only]. Qed.
End Footprints.
