(* ===== verification/IndexUpdateSpec.v ===== *)
(** * What an update keeps

    An update of a package writes objects, then the root document that pins them, then removes
    the objects the old root pinned and the new one does not.  The theorem: over any outcome of
    it, failed or not, no object that a pin of the root on disk names is lost. *)

From stdpp Require Import base decidable list option numbers strings gmap.
From Stdlib Require Import Lia.
From S2P Require Import Prelude OMap Text Digest Tag PackageRef Platform Registry RootMerge Store IndexStore.
From S2P Require Import Ssrf LocalIndex IndexChain ChainSpec IndexDiskSpec.
Local Open Scope ocx_scope.
Local Open Scope string_scope.

(** What the JSON library does with a root OCX wrote itself: the pins read back are those written. *)
Class DerivedCodecLaws `{U : OciSpec} `{!Codec} `{!RootCodec Bytes} `{!IndexCodec} : Prop :=
  derived_pins_read : forall doc bytes, derived_to_vec_pretty doc = Some bytes -> forall d, d ∈ published_pins (Some bytes) -> d ∈ derived_pins doc.

Section Update.
Context `{U : OciSpec} `{!Codec} `{!RootCodec Bytes} `{!IndexCodec} {W : Type} `{!IndexDisk W} `{!IndexDiskLaws W} `{!IndexProcess (W := W)}.
Context (gated_keeps : forall s w, files (gated_insert s w) = files w).
Context (store : IndexStore) (source repository : string).
Implicit Types (w : W) (d : Digest).

(** An object of the package is in place, with the bytes its digest names; and the pins of the root on disk. *)
Definition object_ok (m : gmap Path Bytes) d : Prop :=
  exists bytes, m !! dispatch_object_path store source repository d = Some bytes /\ hash (digest_algorithm d) bytes = d.
Definition committed_pins (m : gmap Path Bytes) : list Digest := published_pins (m !! root_document_path store source repository).

Definition keeps_objects {E A : Type} (m : io W E A) : Prop := forall w d, object_ok (files w) d -> object_ok (files (m w).2) d.
Definition loses_no_pin {E A : Type} (m : io W E A) : Prop :=
  forall w d, object_ok (files w) d -> d ∈ committed_pins (files (m w).2) -> object_ok (files (m w).2) d.

Lemma only_keeps_objects {E A} Q (m : io W E A) : (forall d, ~ Q (dispatch_object_path store source repository d)) -> only Q m -> keeps_objects m.
Proof. intros HQ Hm w d (bytes & Hb & Hh). exists bytes. split; [|done]. by rewrite (Hm w _ (HQ d)). Qed.
Lemma quiet_keeps {E A} (m : io W E A) : only nothing m -> keeps_objects m.
Proof. apply only_keeps_objects. by intros d []. Qed.
Lemma keeps_bind {E A B} (m : io W E A) (k : A -> io W E B) : keeps_objects m -> (forall a, keeps_objects (k a)) -> keeps_objects (io_bind m k).
Proof. intros Hm Hk w d Hd. unfold io_bind. specialize (Hm w d Hd). destruct (m w) as [[a|e] w1]; [by apply Hk|done]. Qed.
Lemma keeps_try {E F A} (m : io W E A) : keeps_objects m -> keeps_objects (E := F) (io_try m).
Proof. intros Hm w d Hd. unfold io_try. specialize (Hm w d Hd). by destruct (m w). Qed.
Lemma keeps_ret {E A} (a : A) : keeps_objects (E := E) (io_ret a).
Proof. apply quiet_keeps, only_ret. Qed.
Lemma keeps_fail {E A} (e : E) : keeps_objects (A := A) (io_fail e).
Proof. apply quiet_keeps, only_fail. Qed.
Lemma keeps_loses {E A} (m : io W E A) : keeps_objects m -> loses_no_pin m.
Proof. intros Hm w d Hd _. by apply Hm. Qed.
Lemma loses_bind {E A B} (m : io W E A) (k : A -> io W E B) : keeps_objects m -> (forall a, loses_no_pin (k a)) -> loses_no_pin (io_bind m k).
Proof. intros Hm Hk w d Hd. unfold io_bind. specialize (Hm w d Hd). destruct (m w) as [[a|e] w1]; [by apply Hk|done]. Qed.
Lemma loses_then_fail {A B} (m : io W IndexError A) (e : IndexError) : loses_no_pin m -> loses_no_pin (let! _ := m in io_fail (A := B) e).
Proof. intros Hm w d. specialize (Hm w d). unfold io_bind. by destruct (m w) as [[a|e1] w1]. Qed.

(** ** Objects *)

Lemma persist_object_keeps parent bytes d : hash (digest_algorithm d) bytes = d ->
  keeps_objects (fs_persist (mkTempFile parent bytes) (dispatch_object_path store source repository d)).
Proof.
  intros Hh w d' (held & Hb & Hd'). destruct (fs_persist _ _ w) as [[u|e] w1] eqn:E.
  - apply fs_persist_ok in E. unfold object_ok. simpl. rewrite E. destruct (decide (d' = d)) as [->|Hne].
    + exists bytes. by rewrite lookup_insert_eq.
    + exists held. rewrite lookup_insert_ne; [done|]. by intros ?%object_path_inj.
  - apply fs_persist_err in E. simpl. rewrite E. by exists held.
Qed.
Lemma write_dispatch_object_keeps d bytes : keeps_objects (write_dispatch_object store source repository d bytes).
Proof.
  unfold write_dispatch_object, write_verified_object. apply keeps_bind; [apply quiet_keeps, only_of|]. intros [].
  apply keeps_bind; [apply quiet_keeps, only_of|]. intros []. destruct (bool_decide _) eqn:Eh; simpl; [|apply keeps_fail].
  apply bool_decide_eq_true in Eh. apply keeps_bind; [apply quiet_keeps, only_try, only_keeps, fs_read_keeps|]. intros existing.
  destruct (match existing with Ok _ => _ | Err _ => _ end); [apply keeps_ret|].
  apply keeps_bind; [apply quiet_keeps, create_parent_only|]. intros parent.
  apply keeps_bind; [apply quiet_keeps, only_map_err, only_keeps, fs_write_temp_keeps|]. intros u.
  apply keeps_bind; [by apply keeps_try, persist_object_keeps|]. intros [?|?]; [apply keeps_ret|].
  apply keeps_bind; [apply quiet_keeps, only_try, only_keeps, fs_read_keeps|]. intros [?|?]; [destruct (bool_decide _)|]; auto using keeps_ret, keeps_fail.
Qed.

(** ** Root documents *)

Lemma read_root_bytes_ok w committed w' : read_root_document_bytes store source repository w = (Ok committed, w') ->
  files w' = files w /\ committed = files w !! root_document_path store source repository.
Proof.
  intros Hx. assert (files w' = files w) as Hk.
  { apply map_eq. intros p. pose proof (read_root_document_bytes_only nothing store source repository w p) as Ho.
    rewrite Hx in Ho. apply Ho. by intros []. }
  split; [done|]. unfold read_root_document_bytes in Hx.
  apply io_bind_ok in Hx as (u1 & w1 & Hu1 & Hx). injection Hu1 as _ <-. apply io_bind_ok in Hx as (u2 & w2 & Hu2 & Hx). injection Hu2 as _ <-.
  unfold read_optional in Hx. apply io_bind_ok in Hx as (read & w3 & Hr%io_try_ok & Hx). destruct read as [bytes|e].
  - injection Hx as <- _. by apply fs_read_ok in Hr.
  - destruct (fe_kind e) eqn:Ee; try done. injection Hx as <- _. symmetry. by eapply fs_read_absent.
Qed.
Lemma write_bytes_atomic_ok target bytes w u w' : write_bytes_atomic target bytes w = (Ok u, w') -> files w' !! target = Some bytes.
Proof.
  unfold write_bytes_atomic. intros (parent & w1 & _ & Hx)%io_bind_ok. apply io_bind_ok in Hx as (u1 & w2 & _ & Hx).
  unfold file_error, io_map_err in Hx. destruct (fs_persist _ target w2) as [[u2|e] w3] eqn:E; [|done].
  simpl in Hx. injection Hx as _ <-. apply fs_persist_ok in E. by rewrite E, lookup_insert_eq.
Qed.
Lemma only_lookup {E A} Q (m : io W E A) w r w' p : only Q m -> m w = (r, w') -> ~ Q p -> files w' !! p = files w !! p.
Proof. intros Hm Hw Hp. specialize (Hm w p Hp). by rewrite Hw in Hm. Qed.

Let root := root_document_path store source repository.
Definition commit_may_write (p : Path) : Prop := p = root \/ catalog_file store source p \/ p = source_config_path store source.
Lemma commit_not_object d : ~ commit_may_write (dispatch_object_path store source repository d).
Proof.
  intros [E|[E|E]].
  - by eapply root_not_object.
  - by eapply catalog_not_object.
  - by eapply config_not_object.
Qed.

Lemma write_root_only tx bytes : tx_source tx = source -> only commit_may_write (write_root store tx repository bytes repository_check).
Proof.
  intros Htx. unfold write_root. apply only_bind; [apply only_of|]. intros []. destruct (root_from_slice bytes); [|apply only_fail].
  apply only_bind; [apply only_of|]. intros []. apply only_bind; [|intros; apply only_ret]. apply write_bytes_atomic_only. left. by rewrite Htx.
Qed.
Lemma write_root_ok tx bytes w tx' w' : tx_source tx = source -> write_root store tx repository bytes repository_check w = (Ok tx', w') ->
  files w' !! root = Some bytes /\ tx_source tx' = source.
Proof.
  intros Htx. unfold write_root. intros (u & w1 & _ & Hx)%io_bind_ok. destruct (root_from_slice bytes) as [r|]; [|done].
  apply io_bind_ok in Hx as (u2 & w2 & _ & Hx). apply io_bind_ok in Hx as (u3 & w3 & Hw & Hx). injection Hx as <- <-.
  rewrite Htx in Hw. by apply write_bytes_atomic_ok in Hw.
Qed.

(** ** Commit and sweep *)

(** Committing [m] keeps every object, and when it returns, the pins it reports hold those of the root now on disk. *)
Definition commits (m : io W IndexError RootPins) : Prop :=
  keeps_objects m /\ forall w pins w', m w = (Ok pins, w') -> forall d, d ∈ committed_pins (files w') -> d ∈ rp_current pins.

Lemma same_root_pins (m m' : gmap Path Bytes) : m' !! root = m !! root -> committed_pins m' = committed_pins m.
Proof. unfold committed_pins, root. by intros ->. Qed.

(** The sweep removes an object only when the new pins do not name it. *)
Lemma sweep_step_keeps removed digest w d : d <> digest -> object_ok (files w) d -> object_ok (files (sweep_step store source repository removed digest w).2) d.
Proof.
  intros Hne (bytes & Hb & Hh). exists bytes. split; [|done]. rewrite <- Hb.
  assert (only (fun p => p = dispatch_object_path store source repository digest) (sweep_step store source repository removed digest)) as Ho.
  { unfold sweep_step. apply only_bind; [apply only_try, only_remove; done|]. intros [?|?]; apply only_ret. }
  apply Ho. by intros ?%object_path_inj.
Qed.
Lemma sweep_fold_keeps digests removed w d : d ∉ digests -> object_ok (files w) d ->
  object_ok (files (io_foldl (sweep_step store source repository) removed digests w).2) d.
Proof.
  revert removed w. induction digests as [|x digests IH]; intros removed w Hd Hok; [done|]. apply not_elem_of_cons in Hd as [Hne Hd].
  simpl. unfold io_bind. pose proof (sweep_step_keeps removed x w d Hne Hok) as Hs.
  destruct (sweep_step store source repository removed x w) as [[r|e] w1]; [|done]. by apply IH.
Qed.
Lemma sweep_keeps previous current w d : d ∈ current -> object_ok (files w) d ->
  object_ok (files (sweep_orphan_objects store source repository previous current w).2) d.
Proof.
  intros Hd Hok. unfold sweep_orphan_objects, io_bind, io_of. destruct (ensure_source_contained source); [|done].
  destruct (ensure_repository_contained repository); [|done].
  set (doomed := List.filter _ previous). pose proof (sweep_fold_keeps doomed [] w d) as Hf.
  destruct (io_foldl _ _ doomed w) as [[r|e] w1]; apply Hf; try done; unfold doomed.
  all: rewrite list_elem_of_In, filter_In; intros [_ Hn]; by rewrite bool_decide_eq_true_2 in Hn.
Qed.
Lemma sweep_root previous current w : files (sweep_orphan_objects store source repository previous current w).2 !! root = files w !! root.
Proof.
  assert (only (fun p => p <> root) (sweep_orphan_objects store source repository previous current)) as Ho.
  { unfold sweep_orphan_objects. apply only_bind; [apply only_of|]. intros []. apply only_bind; [apply only_of|]. intros [].
    apply only_bind; [|intros; apply only_ret]. apply only_foldl. intros acc digest _. unfold sweep_step. apply only_bind.
    - apply only_try, only_remove. intros E. by eapply root_not_object.
    - intros [?|?]; apply only_ret. }
  apply Ho. tauto.
Qed.
Lemma commit_then_sweep (m : io W IndexError RootPins) : commits m ->
  loses_no_pin (let! pins := m in let! _ := io_try (sweep_orphan_objects store source repository (rp_previous pins) (rp_current pins)
                  : io W IndexError (list string)) in io_ret tt).
Proof.
  intros [Hk Hp] w d Hd. specialize (Hk w d Hd). specialize (Hp w). unfold io_bind, io_try.
  destruct (m w) as [[pins|e] w1]; [|done].
  pose proof (sweep_keeps (rp_previous pins) (rp_current pins) w1 d) as Hs. pose proof (sweep_root (rp_previous pins) (rp_current pins) w1) as Hr.
  destruct (sweep_orphan_objects _ _ _ _ _ w1) as [r w2]. simpl in *. intros Hc. apply Hs; [|done]. apply (Hp pins w1 eq_refl).
  by rewrite (same_root_pins (files w1) (files w2) Hr) in Hc.
Qed.
End Update.

(** ** The refresh of a package *)

Section Refresh.
Context `{U : OciSpec} `{!Codec} `{!RootCodec Bytes} `{!IndexCodec} {W : Type} `{!IndexDisk W} `{!IndexDiskLaws W} `{!IndexProcess (W := W)}.
Context (local : LocalIndex) (identifier : PackageRef).
Let store := li_index_store local.
Let registry := pr_registry identifier.
Let repository := pr_repository identifier.
Notation keeps := (keeps_objects store registry repository).
Notation loses := (loses_no_pin store registry repository).
Implicit Types (w : W) (source : Source (W := W)).


(** A footprint of a bind, with what the first part returned. *)
Lemma only_bind_ok {E A B} Q (m : io W E A) (k : A -> io W E B) : only Q m ->
  (forall w a w', m w = (Ok a, w') -> only Q (k a)) -> only Q (io_bind m k).
Proof.
  intros Hm Hk w p Hp. unfold io_bind. specialize (Hm w p Hp). destruct (m w) as [[a|e] w1] eqn:E0; [|done].
  by rewrite (Hk w a w1 E0 w1 p Hp).
Qed.

(** The root [commit_published_root] writes, or leaves, and the pins it reports for it. *)
Definition settle_root (tx : CatalogTransaction) (committed : option Bytes) (fetched_bytes : Bytes) (scope : RootScope) :
    io W IndexError (CatalogTransaction * list Digest) :=
  match merge_root committed fetched_bytes scope with
  | Some bytes => let! tx' := write_root store tx repository bytes repository_check in io_ret (tx', published_pins (Some bytes))
  | None => io_ret (tx, published_pins committed)
  end.
Lemma settle_root_only tx committed fetched scope : tx_source tx = registry ->
  only (commit_may_write store registry repository) (settle_root tx committed fetched scope).
Proof.
  intros Htx. unfold settle_root. destruct (merge_root committed fetched scope); [|apply only_ret].
  apply only_bind; [by apply write_root_only|]. intros; apply only_ret.
Qed.
Lemma settle_root_ok tx committed fetched scope w written w' : tx_source tx = registry ->
  settle_root tx committed fetched scope w = (Ok written, w') ->
  tx_source written.1 = registry /\
  (committed = files w !! root_document_path store registry repository -> committed_pins store registry repository (files w') = written.2).
Proof.
  intros Htx. unfold settle_root, committed_pins. destruct (merge_root committed fetched scope) as [bytes|].
  - intros (tx' & w1 & Hw & Hx)%io_bind_ok. injection Hx as <- <-. apply (write_root_ok store registry repository) in Hw as [Hw ?]; [|done].
    simpl. by rewrite Hw.
  - intros [= <- <-]. simpl. split; [done|]. by intros ->.
Qed.
Lemma finish_only tx pins : tx_source tx = registry ->
  only (fun p => catalog_file store registry p \/ p = source_config_path store registry)
    (let! _ := commit store tx in
     let! configured := io_try (ensure_source_config store registry) in
     match configured with
     | Err error => if is_lock_timeout error then io_ret pins else io_fail error
     | Ok _ => io_ret (pins : RootPins)
     end).
Proof.
  intros Htx. apply only_bind; [apply commit_only; rewrite Htx; auto|]. intros [].
  apply only_bind; [apply only_try, ensure_source_config_only; auto|]. intros [?|e]; [apply only_ret|].
  destruct (is_lock_timeout e); [apply only_ret|apply only_fail].
Qed.
Lemma commit_published_root_commits fetched_bytes scope : commits store registry repository (commit_published_root local identifier fetched_bytes scope).
Proof.
  unfold commit_published_root. fold store registry repository. split.
  - apply (only_keeps_objects _ _ _ (commit_may_write store registry repository)); [apply commit_not_object|].
    apply only_begin. intros tx Htx. apply only_bind; [apply read_root_document_bytes_only|]. intros committed.
    change (only (commit_may_write store registry repository) (let! written := settle_root tx committed fetched_bytes scope in
      let! _ := commit store written.1 in
      let pins := mkRootPins (published_pins committed) written.2 in
      let! configured := io_try (ensure_source_config store registry) in
      match configured with Err error => if is_lock_timeout error then io_ret pins else io_fail error | Ok _ => io_ret pins end)).
    apply only_bind_ok; [by apply settle_root_only|]. intros w written w1 [Hs _]%settle_root_ok; [|done].
    eapply only_mono; [|by apply finish_only]. intros p [?|?]; unfold commit_may_write; auto.
  - intros w pins w' (tx & w1 & Htx%begin_source & Hx)%io_bind_ok. apply io_bind_ok in Hx as (committed & w2 & [Hf Hc]%read_root_bytes_ok & Hx).
    apply io_bind_ok in Hx as (written & w3 & Hw & Hx). fold (settle_root tx committed fetched_bytes scope) in Hw.
    apply settle_root_ok in Hw as [Hs Hp]; [|done]. rewrite <- Hf in Hc. specialize (Hp Hc).
    assert (rp_current pins = written.2) as ->.
    { apply io_bind_ok in Hx as (u & w4 & _ & Hx). apply io_bind_ok in Hx as (configured & w5 & _ & Hx).
      destruct configured as [?|e]; [by injection Hx as <- _|]. by destruct (is_lock_timeout e); [injection Hx as <- _|]. }
    rewrite <- Hp. erewrite same_root_pins; [done|]. eapply only_lookup; [by eapply finish_only|exact Hx|].
    intros [E|E]; [by eapply catalog_not_root|by eapply config_not_root].
Qed.

(** [commit_root_tags]. *)
Lemma read_derived_root_quiet : only nothing (read_derived_root local registry repository).
Proof.
  unfold read_derived_root. apply only_bind; [apply read_root_document_bytes_only|]. intros [bytes|]; [|apply only_ret].
  destruct (derived_from_slice bytes); [|apply only_ret]. destruct (negb _); [apply only_fail|apply only_ret].
Qed.
Lemma commit_root_tags_commits `{!DerivedCodecLaws} entries : entries <> [] ->
  commits store registry repository (commit_root_tags local identifier entries).
Proof.
  intros Hne. destruct entries as [|entry entries]; [done|]. unfold commit_root_tags. fold store registry repository. split.
  - apply (only_keeps_objects _ _ _ (fun p => p = root_document_path store registry repository)).
    { intros d E. by eapply root_not_object. }
    apply only_bind; [apply lock_source_only|]. intros []. apply only_bind; [apply only_nothing, read_derived_root_quiet|]. intros doc.
    apply only_bind; [by apply only_keeps|]. intros observed. destruct (derived_to_vec_pretty _); [|apply only_fail].
    apply only_bind; [|intros; apply only_ret]. unfold write_root_document. apply only_bind; [apply only_of|]. intros [].
    apply only_bind; [apply only_of|]. intros []. by apply write_bytes_atomic_only.
  - intros w pins w' (u & w1 & _ & Hx)%io_bind_ok. apply io_bind_ok in Hx as (doc & w2 & _ & Hx).
    apply io_bind_ok in Hx as (observed & w3 & _ & Hx). destruct (derived_to_vec_pretty _) as [bytes|] eqn:Eb; [|done].
    apply io_bind_ok in Hx as (u2 & w4 & Hw & Hx). injection Hx as <- <-. simpl. intros d.
    apply io_bind_ok in Hw as (u3 & w5 & _ & Hw). apply io_bind_ok in Hw as (u4 & w6 & _ & Hw). apply write_bytes_atomic_ok in Hw.
    unfold committed_pins. rewrite Hw. by apply derived_pins_read.
Qed.

(** ** Objects first *)

Lemma persist_dispatch_keeps source tag : source_quiet source -> keeps (persist_dispatch local source (clone_with_tag identifier tag)).
Proof.
  intros (_ & _ & Hs & _). unfold persist_dispatch. apply keeps_bind; [by apply quiet_keeps|]. intros [[[bytes d] manifest]|]; [|apply keeps_ret].
  apply keeps_bind; [|intros; apply keeps_ret]. destruct manifest; [apply keeps_ret|]. apply write_dispatch_object_keeps.
Qed.
Lemma collect_unordered_keeps {A B} schedule fuel (run : A -> io W IndexError B) tasks :
  (forall task, keeps (run task)) -> keeps (collect_unordered schedule fuel run tasks).
Proof.
  intros Hr. revert tasks. induction fuel as [|fuel IH]; intros [|task tasks]; try apply keeps_ret. simpl.
  match goal with |- context [match ?x with Some _ => _ | None => _ end] => destruct x as [t|] end; [|apply keeps_ret].
  apply keeps_bind; [apply Hr|]. intros outcome. apply keeps_bind; [apply IH|]. intros; apply keeps_ret.
Qed.
Lemma published_task_keeps source task : source_quiet source -> keeps (refresh_published_task local identifier source task).
Proof.
  intros Hs. destruct task as [position [tag content]]. unfold refresh_published_task.
  assert (keeps (let! outcome := io_try (persist_dispatch local source (clone_with_tag identifier tag)) in
    io_ret (E := IndexError) (position, content, match outcome with Ok _ => Ok tt | Err e => Err e end))) as Hp.
  { apply keeps_bind; [by apply keeps_try, persist_dispatch_keeps|]. intros; apply keeps_ret. }
  apply keeps_bind; [apply quiet_keeps, only_try, read_dispatch_object_only|]. intros [[bytes|]|e]; [apply keeps_ret|exact Hp|exact Hp].
Qed.
Lemma derived_task_keeps source task : source_quiet source -> keeps (refresh_derived_task local identifier source task).
Proof.
  intros Hs. destruct task as [position tag]. unfold refresh_derived_task.
  apply keeps_bind; [by apply keeps_try, persist_dispatch_keeps|]. intros; apply keeps_ret.
Qed.

Lemma refresh_published_loses schedule source bytes root : source_quiet source -> loses (refresh_published schedule local identifier source bytes root).
Proof.
  intros Hs. unfold refresh_published. apply loses_bind; [apply collect_unordered_keeps; intros; by apply published_task_keeps|]. intros outcomes.
  assert (forall scope, loses (commit_and_sweep_published_root local identifier bytes scope)) as Hc.
  { intros scope. apply commit_then_sweep, commit_published_root_commits. }
  destruct (fold_left _ outcomes _) as [unpersisted [[position error]|]]; [|apply Hc].
  destruct (map fst _); [apply keeps_loses, keeps_fail|]. by apply loses_then_fail.
Qed.
Lemma refresh_derived_loses `{!DerivedCodecLaws} schedule source : source_quiet source -> loses (refresh_derived schedule local identifier source).
Proof.
  intros Hs. unfold refresh_derived. apply loses_bind.
  { destruct (pr_tag identifier); [apply keeps_ret|]. destruct Hs as (_ & _ & _ & _ & _ & Hl). unfold index_list_tags.
    apply keeps_bind; [|intros; apply keeps_ret]. apply keeps_bind; [by apply quiet_keeps|]. intros; apply keeps_ret. }
  intros [|tag tags]; [apply keeps_loses, keeps_fail|].
  apply loses_bind; [apply collect_unordered_keeps; intros; by apply derived_task_keeps|]. intros outcomes.
  assert (forall fetched, fetched <> [] -> loses (let! pins := commit_root_tags local identifier fetched in
    sweep_dispatch_orphans local identifier pins)) as Hc.
  { intros fetched Hf. by apply commit_then_sweep, commit_root_tags_commits. }
  destruct (fold_left _ outcomes _) as [[|entry fetched] [[position error]|]].
  - apply keeps_loses, keeps_fail.
  - apply keeps_loses, keeps_fail.
  - specialize (Hc (entry :: fetched)). intros w d Hd. specialize (Hc ltac:(done) w d Hd). unfold io_bind in *.
    destruct (commit_root_tags local identifier (entry :: fetched) w) as [[pins|e] w1]; [|exact Hc].
    by destruct (sweep_dispatch_orphans local identifier pins w1) as [[u|e] w2].
  - by apply Hc.
Qed.

(** C17: an update loses nothing it still promises.  Over any refresh of a package, from any source that leaves this machine's files
    alone, in any order its concurrent tags end in, and whether it returns, fails half way or fails at the commit: an object that was
    in place under its digest is in place afterwards whenever the root document then on disk pins it. *)
Theorem update_loses_no_pinned_object `{!DerivedCodecLaws} schedule source w d : source_quiet source ->
  object_ok store registry repository (files w) d ->
  let w' := (refresh_tags schedule local identifier source w).2 in
  d ∈ committed_pins store registry repository (files w') -> object_ok store registry repository (files w') d.
Proof.
  intros Hs Hd. revert w d Hd. change (loses (refresh_tags schedule local identifier source)). unfold refresh_tags.
  apply loses_bind; [apply quiet_keeps, Hs|]. intros [[bytes root]|]; [by apply refresh_published_loses|by apply refresh_derived_loses].
Qed.
End Refresh.
