(* ===== verification/SampleIndex.v ===== *)
(** * A sample index

    A machine with an in-memory disk, documents that are their own serialization, and sources
    behind a chain: the instance at which the properties of the index are shown to be about
    something, and the concrete runs where its code and its comments part. *)

From stdpp Require Import base decidable list option numbers strings gmap.
From Stdlib Require Import Lia.
From S2P Require Import Prelude OMap Text Digest Tag PackageRef Platform Registry RootMerge Store IndexStore.
From S2P Require Import Metadata Ssrf LocalIndex IndexChain ChainSpec IndexSelect IndexDiskSpec IndexUpdateSpec RootMergeSpec.
From S2P Require Import Samples SampleRegistry.
Local Open Scope ocx_scope.
Local Open Scope string_scope.

(** ** Documents *)

Inductive IndexBytes : Type :=
| IdxDoc (m : Manifest)
| IdxRoot (v : Json)
| IdxDerived (doc : DerivedRoot)
| IdxCatalog (document : CatalogDocument)
| IdxConfig (config : IndexFormatConfig)
| IdxText (s : string).
Definition index_weight (b : IndexBytes) : nat :=
  match b with
  | IdxDoc (MIndex i) => length (ix_manifests i)
  | IdxText s => String.length s
  | _ => 3
  end.
Definition index_hash (a : Algorithm) (b : IndexBytes) : Digest := sample_hash a (TextBytes (String.substring 0 (index_weight b) "...")).

#[export] Instance index_codec : Codec := {|
  Bytes := IndexBytes;
  bytes_len := fun b => N.of_nat (index_weight b);
  index_to_vec := fun i => Some (IdxDoc (MIndex i));
  image_to_vec := fun m => Some (IdxDoc (MImage m));
  manifest_from_slice := fun b => match b with IdxDoc m => Some m | _ => None end;
  hash := index_hash;
|}.

(** The typed view of a root document. *)
Definition row_of (row : string * Json) : option (string * RootTag) :=
  match value_get "content" row.2 with
  | Some (JString text) =>
      match digest_try_from text with
      | Ok content => Some (row.1, mkRootTag content None (is_ephemeral row.2))
      | Err _ => None
      end
  | _ => None
  end.
Definition root_of (b : IndexBytes) : option IndexRoot :=
  match b with
  | IdxRoot v =>
      match value_get "repository" v, value_get "tags" v with
      | Some (JString repository), Some (JObject tags) => Some (mkIndexRoot repository (omap row_of tags) None None None)
      | _, _ => None
      end
  | IdxDerived doc => Some (mkIndexRoot (dr_repository doc) (map (fun '(tag, row) => (tag, mkRootTag (dt_content row) None false)) (dr_tags doc)) None None None)
  | _ => None
  end.
#[export] Instance index_root_codec : RootCodec Bytes := {|
  value_from_slice := fun b => match b with IdxRoot v => Some v | _ => None end;
  root_from_slice := root_of;
  serialize_root := IdxRoot;
|}.
#[export] Instance index_root_laws : RootCodecLaws Bytes.
Proof. by intros v _. Qed.
#[export] Instance index_documents : IndexCodec := {|
  bytes_eqb := fun a b => match a, b with IdxText s, IdxText t => String.eqb s t | _, _ => false end;
  image_index_from_slice := fun b => match b with IdxDoc (MIndex i) => Some i | _ => None end;
  derived_from_slice := fun b => match b with IdxDerived doc => Some doc | _ => None end;
  derived_to_vec_pretty := fun doc => Some (IdxDerived doc);
  catalog_from_slice := fun b => match b with IdxCatalog document => Some document | _ => None end;
  serialize_catalog := IdxCatalog;
  config_from_slice := fun b => match b with IdxConfig config => Some config | _ => None end;
  serialize_config := IdxConfig;
|}.
#[export] Instance index_derived_laws : DerivedCodecLaws.
Proof.
  intros doc bytes [= <-] d. unfold published_pins, derived_pins. simpl. rewrite map_map.
  rewrite (map_ext _ (fun row => dt_content row.2)); [done|]. by intros [tag row].
Qed.

(** ** The machine *)

Definition Files : Type := gmap Path IndexBytes.
#[export] Instance index_disk : IndexDisk Files := {|
  fs_read := fun p w => (match w !! p with Some b => Ok b | None => Err (mkFsError FsNotFound true) end, w);
  fs_len := fun p w => (fun b => N.of_nat (index_weight b)) <$> w !! p;
  fs_exists := fun p w => bool_decide (is_Some (w !! p));
  fs_create_dir_all := fun _ w => (Ok tt, w);
  fs_write_temp := fun _ w => (Ok tt, w);
  fs_persist := fun t p w => (Ok tt, <[p := tf_bytes t]> w);
  fs_remove_file := fun p w => match w !! p with Some _ => (Ok tt, delete p w) | None => (Err (mkFsError FsNotFound true), w) end;
  fs_lock := fun _ _ _ _ w => (Ok tt, w);
  fs_now := fun _ => "2025-06-01T00:00:00Z";
|}.
#[export] Instance index_disk_laws : IndexDiskLaws Files.
Proof.
  refine {| files := fun w : Files => (w : gmap Path (Bytes (Codec := index_codec))) |}; try done.
  - intros p w b w'. simpl. destruct (w !! p) as [b0|] eqn:E0; [|done]. intros [= <- _]. exact E0.
  - intros p w e w'. simpl. destruct (w !! p) as [b0|] eqn:E0; [done|]. intros _ _. exact E0.
  - intros t p w u w'. simpl. by intros [= _ <-].
  - intros p w u w'. simpl. destruct (w !! p); [by intros [= _ <-]|done].
  - intros p w e w'. simpl. destruct (w !! p); [done|by intros [= _ <-]].
Defined.
#[export] Instance index_process : IndexProcess (W := Files) := {| gated_contains := fun _ _ => false; gated_insert := fun _ w => w |}.
#[export] Instance index_net : NetLib Files := {|
  ip_parse := fun _ => None;
  Url := string;
  url_parse := Some;
  url_host := fun _ => None;
  route_for := fun _ => RouteDirect;
  lookup_host := fun _ _ w => (Some [V4 0x08080808], w);
|}.
#[export] Instance index_flights : ChainProcess (W := Files) := {|
  try_acquire := fun _ _ w => (Ok None, w);
  flight_complete := fun _ _ _ w => w;
  flight_fail := fun _ _ _ w => w;
|}.
Lemma index_flights_quiet : group_quiet.
Proof. by split; [|split]. Qed.

(** ** A package *)

Definition store : IndexStore := mkIndexStore ["home"; "index"] ["home"; "locks"].
Definition local : LocalIndex := mkLocalIndex store false ∅ [] ∅.
Definition cmake : PackageRef := new_registry "cmake" "ocx.sh".
Definition cmake_at (tag : string) : PackageRef := mkPackageRef "ocx.sh" "cmake" (Some tag) None.
Definition manifest_n (n : nat) : Manifest :=
  MIndex (sample_index (take n [sample_entry (digest_display sample_digest) linux_amd64; sample_entry (digest_display sample_digest) darwin_arm64])).
Definition digest_n (n : nat) : Digest := index_hash Sha256 (IdxDoc (manifest_n n)).
Definition tag_row (n : nat) (ephemeral : bool) : Json :=
  JObject (("content", JString (digest_display (digest_n n))) :: if ephemeral then [("ephemeral", JBool true)] else []).
Definition root_json (tags : list (string * Json)) : Json := JObject [("repository", JString "oci://ghcr.io/kitware/cmake"); ("tags", JObject tags)].
Definition object_path (n : nat) : Path := dispatch_object_path store "ocx.sh" "cmake" (digest_n n).
Definition root_path : Path := root_document_path store "ocx.sh" "cmake".

(** The local copy: [1.0] and [1.1], with both objects. *)
Definition machine : Files :=
  <[root_path := IdxRoot (root_json [("1.0", tag_row 1 false); ("1.1", tag_row 2 true)])]>
    (<[object_path 1 := IdxDoc (manifest_n 1)]> (<[object_path 2 := IdxDoc (manifest_n 2)]> ∅)).

(** A source: its root document, and the manifests it serves by tag or digest. *)
Definition served (table : list (string * nat)) (identifier : PackageRef) : option (Bytes * Digest * Manifest) :=
  match List.find (fun row => match pr_digest identifier with
                              | Some d => bool_decide (digest_n row.2 = d)
                              | None => String.eqb row.1 (tag_or_latest identifier)
                              end) table with
  | Some (_, n) => Some (IdxDoc (manifest_n n), digest_n n, manifest_n n)
  | None => None
  end.
Definition sample_source (jurisdiction : Jurisdiction) (kind : SourceKind) (table : list (string * nat)) : Source (W := Files) :=
  let root := IdxRoot (root_json (map (fun row => (row.1, tag_row row.2 false)) table)) in
  let document := match kind with Published => (fun r => (root, r)) <$> root_of root | Derived => None end in
  mkSource
    (fun _ w => (Ok ["cmake"], w))
    (fun _ w => (Ok (Some (map fst table)), w))
    (fun i _ w => (Ok ((fun x => (x.1.2, x.2)) <$> served table i), w))
    (fun i _ w => (Ok ((fun x => x.1.2) <$> served table i), w))
    (fun _ w => (Ok None, w))
    (fun i w => (Ok (served table i), w))
    (fun _ w => (Ok document, w))
    (fun _ w => (Ok document, w))
    (fun _ w => (Ok None, w))
    (fun _ => jurisdiction) (fun registry => String.eqb registry "ocx.sh") [] (Some "https://index.ocx.sh") kind.
Definition broken_source (jurisdiction : Jurisdiction) : Source (W := Files) :=
  mkSource (fun _ w => (Err SerializationFailure, w)) (fun _ w => (Err SerializationFailure, w)) (fun _ _ w => (Err SerializationFailure, w))
    (fun _ _ w => (Err SerializationFailure, w)) (fun _ w => (Err SerializationFailure, w)) (fun _ w => (Err SerializationFailure, w))
    (fun _ w => (Err SerializationFailure, w)) (fun _ w => (Err SerializationFailure, w)) (fun _ w => (Err SerializationFailure, w))
    (fun _ => jurisdiction) (fun registry => String.eqb registry "ocx.sh") [] (Some "https://index.ocx.sh") Published.
Lemma sample_source_quiet jurisdiction kind table : source_quiet (sample_source jurisdiction kind table).
Proof. repeat split; intros; by apply only_keeps. Qed.

Definition moved : Source (W := Files) := sample_source Authoritative Published [("1.0", 2%nat)].
Definition chain_over (mode : ChainMode) (sources : list (Source (W := Files))) : ChainedIndex := chain_new local sources mode 0.

(** ** Lookups *)

(** The tag [1.0] was moved at its source; the local copy pins the old content, whose object is gone from the disk and served. *)
Definition swept : Files := delete (object_path 1) machine.
Definition both : Source (W := Files) := sample_source Authoritative Published [("1.0", 2%nat); ("0.9", 1%nat)].
Lemma swept_names : named_digest (chain_over ModeDefault [both]) (cmake_at "1.0") swept (digest_n 1).
Proof.
  right. split; [reflexivity|]. split; [discriminate|].
  set (read := resolve_dispatch local (cmake_at "1.0") Published swept).
  assert (read.1 = Ok (Some (AbsentDispatch (digest_n 1)))) as Hr by (vm_compute; reflexivity).
  exists (AbsentDispatch (digest_n 1)), read.2. split; [|reflexivity]. change (read = (Ok (Some (AbsentDispatch (digest_n 1))), read.2)).
  rewrite <- Hr. apply surjective_pairing.
Qed.
Lemma named_digest_never_moves_witness :
  (chain_fetch_manifest (chain_over ModeDefault [both]) (cmake_at "1.0") Resolve swept).1 = Ok (Some (digest_n 1, manifest_n 1)) /\
  (forall d m w', chain_fetch_manifest (chain_over ModeDefault [both]) (cmake_at "1.0") Resolve swept = (Ok (Some (d, m)), w') -> d = digest_n 1).
Proof.
  split; [vm_compute; reflexivity|].
  exact (proj1 (named_digest_never_moves _ _ Resolve _ _ swept_names)).
Defined.

Definition selected : SelectResult := SelFound (clone_with_digest (cmake_at "1.0") sample_digest).
Definition selecting := index_select (fun _ => "") (chain_over ModeDefault [both]) (cmake_at "1.0") linux_amd64 Resolve swept.
Lemma selection_follows_the_pin_witness :
  selecting.1 = Ok selected /\ selection_right (fun _ => "") (cmake_at "1.0") (digest_n 1) (manifest_n 1) linux_amd64 selected.
Proof.
  assert (selecting.1 = Ok selected) as Hr by (vm_compute; reflexivity). split; [exact Hr|].
  assert (selecting = (Ok selected, selecting.2)) as Hs by (rewrite <- Hr; apply surjective_pairing).
  destruct (selection_follows_the_pin (fun _ => "") (chain_over ModeDefault [both]) (cmake_at "1.0") linux_amd64 Resolve swept (digest_n 1)
    selected selecting.2 swept_names Hs) as [[_ Hx]|(m & Hm & Ho)].
  - discriminate Hx.
  - assert ((chain_fetch_manifest (chain_over ModeDefault [both]) (cmake_at "1.0") Resolve swept).1 = Ok (Some (digest_n 1, manifest_n 1))) as Hv
      by (vm_compute; reflexivity).
    rewrite Hm in Hv. simpl in Hv. injection Hv as ->. exact Ho.
Defined.

Lemma offline_asks_no_source_witness :
  (chain_fetch_manifest (chain_over ModeOffline [moved]) (cmake_at "1.0") Resolve machine).1 = Ok (Some (digest_n 1, manifest_n 1)) /\
  chain_fetch_manifest (chain_over ModeOffline [broken_source Authoritative]) (cmake_at "1.0") Resolve machine =
  chain_fetch_manifest (chain_over ModeOffline [moved]) (cmake_at "1.0") Resolve machine.
Proof.
  split; [vm_compute; reflexivity|].
  assert (Forall2 same_identity (ci_sources (chain_over ModeOffline [moved])) [broken_source Authoritative]) as Hs.
  { constructor; [|constructor]. split; [reflexivity|]. split; reflexivity. }
  exact (proj1 (proj1 (offline_asks_no_source _ _ (cmake_at "1.0") machine Hs) eq_refl Resolve (mkPinned "ocx.sh" "cmake" None (digest_n 1)))).
Defined.

Lemma owner_has_last_word_witness :
  (chain_fetch_manifest (chain_over ModeDefault [moved; sample_source FallThrough Derived [("2.0", 1%nat)]]) (cmake_at "2.0") Resolve machine).1 =
    Err (SourceWalkFailed (NotInIndex "ocx.sh/cmake:2.0" "ocx.sh" "https://index.ocx.sh")) /\
  chain_fetch_manifest (chain_over ModeDefault [moved]) (cmake_at "2.0") Resolve machine =
  chain_fetch_manifest (chain_over ModeDefault [moved; sample_source FallThrough Derived [("2.0", 1%nat)]]) (cmake_at "2.0") Resolve machine.
Proof.
  split; [vm_compute; reflexivity|].
  assert (owns_registry moved (pr_registry (cmake_at "2.0"))) as Ho by (split; reflexivity).
  exact (proj1 (owner_has_last_word (chain_over ModeDefault [moved; sample_source FallThrough Derived [("2.0", 1%nat)]]) []
    [sample_source FallThrough Derived [("2.0", 1%nat)]] [] moved (cmake_at "2.0") machine Ho eq_refl)).
Defined.

Lemma lookups_keep_the_index_witness :
  files (chain_fetch_manifest (chain_read_only (chain_over ModeDefault [both]) 1) (cmake_at "0.9") Resolve machine).2 !! root_path =
  files machine !! root_path.
Proof.
  refine (proj1 (lookups_keep_the_index (fun _ _ => eq_refl) index_flights_quiet (chain_read_only (chain_over ModeDefault [both]) 1) (cmake_at "0.9")
    Resolve machine root_path (or_intror eq_refl) _ _)).
  - constructor; [apply sample_source_quiet|constructor].
  - intros [Hc|[(fs & d & Hf & _)|[Hp _]]].
    + by eapply catalog_not_root.
    + discriminate Hf.
    + by apply Hp.
Defined.

(** ** An update *)

(** The update of the package moves [1.0] to the second object and drops the row [1.1]; the first object is swept, the second stays. *)
Lemma update_loses_no_pinned_object_witness :
  let after := (refresh_tags (fun _ => 0%nat) local cmake moved machine).2 in
  files after !! object_path 1 = None /\ object_ok store "ocx.sh" "cmake" (files after) (digest_n 2).
Proof.
  intros after. split; [vm_compute; reflexivity|].
  refine (update_loses_no_pinned_object local cmake (fun _ => 0%nat) moved machine (digest_n 2) _ _ _).
  - apply sample_source_quiet.
  - exists (IdxDoc (manifest_n 2)). split; vm_compute; reflexivity.
  - apply (bool_decide_unpack _). vm_compute. exact I.
Defined.

(** ** A merge *)

Definition fetched_tags : list (string * Json) := [("1.0", tag_row 2 true); ("1.2", tag_row 1 true)].
Definition fetched_members : Members := [("repository", JString "oci://ghcr.io/kitware/cmake"); ("tags", JObject fetched_tags)].
Definition committed_root : option Bytes := files machine !! root_path.
Lemma committed_root_shaped : committed_shaped committed_root.
Proof. intros _. eexists. split; vm_compute; reflexivity. Qed.
(** [1.0] moves but stays durable, the ephemeral [1.1] goes, [1.2] comes. *)
Definition merged : Json := root_json [("1.0", tag_row 2 false); ("1.2", tag_row 1 true)].

Lemma merge_root_exact_witness :
  merge_root committed_root (IdxRoot (JObject fetched_members)) ScopePackage = Some (IdxRoot merged) /\
  exists m, IdxRoot merged = serialize_root (JObject m) /\ jm_get "1.0" (rows m) = Some (tag_row 2 false).
Proof.
  assert (merge_root committed_root (IdxRoot (JObject fetched_members)) ScopePackage = Some (IdxRoot merged)) as Hm by (vm_compute; reflexivity).
  split; [exact Hm|].
  assert (value_from_slice (Bytes := Bytes) (IdxRoot (JObject fetched_members)) = Some (JObject fetched_members)) as Hf by reflexivity.
  assert (root_shaped (JObject fetched_members) = true) as Sf by reflexivity.
  destruct (proj1 (merge_root_exact committed_root _ ScopePackage fetched_members Hf Sf committed_root_shaped) _ Hm) as (m & Hb & Ht & _).
  exists m. split; [exact Hb|]. rewrite Ht. vm_compute. reflexivity.
Defined.

(** ** A dial *)

Lemma guard_admits_no_local_target_witness : ~ refused_target (V4 0x08080808).
Proof.
  refine (guard_admits_no_local_target DialHttps "cdn.example.org" 443 [] (∅ : Files) ∅ (DialDirect [V4 0x08080808]) _ _ (V4 0x08080808) _ _).
  - reflexivity.
  - reflexivity.
  - by left.
  - reflexivity.
Defined.

(** ** Where the code and its comments part *)

(** A live query goes on past an authoritative source that failed, to a source below it. *)
Example query_passes_failed_owner :
  (chain_fetch_manifest (chain_over ModeRemote [broken_source Authoritative; sample_source FallThrough Derived [("1.0", 2%nat)]])
     (cmake_at "1.0") Query machine).1 = Ok (Some (digest_n 2, manifest_n 2)).
Proof. vm_compute. reflexivity. Qed.

(** A corrupt object of a tag the local root pins is walked by tag: the answer is the tag's new content, not the pinned one. *)
Example corrupt_object_moves_the_tag :
  (chain_fetch_manifest (chain_over ModeDefault [both]) (cmake_at "1.0") Resolve (<[object_path 1 := IdxText ""]> machine)).1 =
    Ok (Some (digest_n 2, manifest_n 2)).
Proof. vm_compute. reflexivity. Qed.

(** A lookup of a read-only view writes the catalog. *)
Example read_only_view_writes :
  files machine !! source_catalog_path store "ocx.sh" = None /\
  is_Some (files (chain_fetch_manifest (chain_read_only (chain_over ModeDefault [moved]) 1) (cmake_at "1.0") Query machine).2
             !! source_catalog_path store "ocx.sh").
Proof. split; vm_compute; eauto. Qed.

(** A listed tag whose object is not served counts as persisted: the update succeeds and the root pins an object that is not there. *)
Definition hollow : Source (W := Files) :=
  let s := sample_source Authoritative Published [("1.0", 1%nat); ("1.2", 0%nat)] in
  mkSource (src_list_repositories s) (src_list_tags s) (src_fetch_manifest s) (src_fetch_manifest_digest s) (src_fetch_blob s)
    (fun _ w => (Ok None, w)) (src_fetch_root_document s) (src_revalidate_root_document s) (src_physical_reference s)
    (src_jurisdiction s) (src_serves_registry s) (src_trusted_hosts s) (src_index_base_url s) (src_source_kind s).
Example update_pins_absent_object :
  let '(result, after) := refresh_tags (fun _ => 0%nat) local cmake hollow machine in
  result = Ok tt /\ bool_decide (digest_n 0 ∈ committed_pins store "ocx.sh" "cmake" (files after)) = true /\ files after !! object_path 0 = None.
Proof. vm_compute. auto. Qed.

(** A 6to4 address that embeds loopback is not judged by the address it embeds. *)
Example six_to_four_admitted : is_forbidden_ip (V6 0x20027F00000100000000000000000000) = false.
Proof. vm_compute. reflexivity. Qed.
