(* ===== verification/ProjectConfig.v ===== *)
(** * The project file

    [crates/ocx_project/src/config.rs], [env.rs], [lazy.rs], [error.rs], [hash.rs] and the in-memory
    half of [mutate.rs]: what [ocx.toml] declares, how it is read, which bindings follow the
    default group, what [ocx add], [ocx remove] and [ocx upgrade] do to it, and the value its
    declaration hash is taken of.  The TOML and JSON libraries are the class [ProjectLib]. *)

From stdpp Require Import base decidable list option numbers strings gmap.
From Stdlib Require Import Lia Ascii.
From S2P Require Import Prelude OMap Text TextSearch Digest PackageRef Platform Registry Store Gc Clean.
From S2P Require Import Closure Metadata EnvVars Trust ConfigLoad RootMerge IndexStore.
Local Open Scope ocx_scope.
Local Open Scope string_scope.

(** [internal.rs]. *)
Definition DEFAULT_GROUP : string := "default".
Definition ALL_GROUP : string := "all".
Definition FILE_SIZE_LIMIT_BYTES : N := 64 * 1024.

(** ** Errors *)

#[export] Instance Repository_eq_dec : EqDecision Repository.
Proof. solve_decision. Defined.
(** [From<&PackageRef> for Repository]. *)
Definition repository_from (id : PackageRef) : Repository := mkRepository (pr_registry id) (pr_repository id).

(** [enum LockDrift]. *)
Inductive LockDrift : Type :=
| DriftDeclarationHash (previous_hash current_hash : string)
| DriftEntry (group name : string) (locked : Repository) (declared : option Repository).

(** What the index raised, as [From<ocx_index::error::Error>] flattens it. *)
Inductive FetchError : Type :=
| FetchClient (client : ClientError)
| FetchIndex (error : IndexError)
| FetchFile (path : Path) (cause : FsError).
Definition fetch_error (error : IndexError) : FetchError :=
  match error with
  | OciClientFailed client => FetchClient client
  | FileFailed path cause => FetchFile path cause
  | other => FetchIndex other
  end.

(** [enum ProjectErrorKind]; the errors of libraries and the rendered hints are left out. *)
Inductive ProjectErrorKind : Type :=
| Io (not_found : bool)
| TomlParse
| TomlSerialize
| ManifestEditParse
| ManifestEditDiverged
| LockRepositoryNotBare (value : string)
| DuplicatePlatformKey (key : string)
| NoncanonicalPlatformKey (key : string)
| UnsupportedLockVersion (found : N)
| LockDeclaredMismatch (group name : string) (lock_version : N)
| NoHostLeaf (name platform : string)
| AmbiguousHostLeaf (name platform : string) (candidates : list string)
| ReservedGroupName (name : string)
| InvalidToolchainNameCharset (scope name : string)
| GroupHoldsDirectBinding (group binding : string)
| UnknownGroupSection (group key : string)
| ShellSectionInProject
| EnvReservedKey (scope key : string)
| EnvInvalidKey (scope key : string)
| EnvUnknownModifier (scope key found : string)
| EnvInvalidValue (scope key : string)
| EnvUnknownValueField (scope key field : string)
| EnvSeparatorOnNonList (scope key : string) (kind : ModifierKind)
| EnvInvalidSeparator (scope key separator : string)
| EnvSeparatorEdgedValue (scope key separator value : string)
| EnvPathSeparatorInValue (scope key value : string)
| EmptyGroupFilter
| UnknownGroup (name : string)
| UnsupportedDeclarationHashVersion (version : N)
| FileTooLarge (size limit : N)
| Locked
| ToolValueMissingRegistry (name value : string)
| ToolValueInvalid (name value : string) (source : IdentifierError)
| ToolFromInvalid (group name : string) (only_default : bool)
| PackageKeyMissingRegistry (key : string)
| PackageKeyInvalid (key : string) (source : IdentifierError)
| TagNotFound (identifier : PackageRef)
| AuthFailure (identifier : PackageRef) (source : FetchError)
| RegistryUnreachable (identifier : PackageRef) (source : FetchError)
| ResolveTimeout (identifier : PackageRef)
| ToolNotInConfig (name : string)
| BindingAlreadyExists (group name : string) (existing requested : PackageRef)
| DuplicateToolAcrossSelectedGroups (name group_a group_b : string)
| LockMissing
| InvalidBindingName (name : string)
| BindingAmbiguous (name : string) (groups : list string)
| BindingNotFound (name : string)
| ConfigAlreadyExists (path : string)
| InvalidGroupName (name : string)
| LockOutOfSync (drift : LockDrift)
| PolicyBlocked (identifier : PackageRef) (policy : string) (block : PolicyBlock).

(** [struct ProjectError]; the crate's [enum Error] as far as these functions raise it. *)
Record ProjectError : Type := mkProjectError { pje_path : string; pje_kind : ProjectErrorKind }.
Inductive PError : Type :=
| ProjectFailed (error : ProjectError)
| UpdateSectionInProject (path : string).
Definition perr {A : Type} (path : string) (kind : ProjectErrorKind) : result PError A := Err (ProjectFailed (mkProjectError path kind)).

(** ** Data *)

(** [enum LazyMode], [LazyReport] of [lazy.rs], [ActivateMode] of [activate.rs]. *)
Inductive LazyMode : Type := LazyNever | LazyAlways.
Inductive LazyReport : Type := LazySilent | LazyProgress.
Inductive ActivateMode : Type := ActivateEnv | ActivateBin | ActivateNone.
#[export] Instance LazyMode_eq_dec : EqDecision LazyMode.
Proof. solve_decision. Defined.
#[export] Instance LazyReport_eq_dec : EqDecision LazyReport.
Proof. solve_decision. Defined.
#[export] Instance ActivateMode_eq_dec : EqDecision ActivateMode.
Proof. solve_decision. Defined.
Definition lazy_mode_from_str (s : string) : option LazyMode :=
  if String.eqb s "never" then Some LazyNever else if String.eqb s "always" then Some LazyAlways else None.
Definition activate_text (mode : ActivateMode) : string :=
  match mode with ActivateEnv => "env" | ActivateBin => "bin" | ActivateNone => "none" end.

(** [struct EnvValue], [struct ProjectEnv]. *)
Record EnvValue : Type := mkEnvValue { ev_kind : ModifierKind; ev_separator : option string; ev_value : string }.
#[export] Instance EnvValue_eq_dec : EqDecision EnvValue.
Proof. solve_decision. Defined.
Definition ProjectEnv : Type := list (string * EnvValue).

(** [struct Group], [struct PackageSettings], [struct ProjectConfig]; the hash cache is the hash. *)
Record Group : Type := mkGroup {
  gr_tools : list (string * PackageRef);
  gr_inherited : list string;
  gr_env : ProjectEnv;
  gr_lazy_mode : option LazyMode;
}.
Definition group_default : Group := mkGroup [] [] [] None.
Record PackageSettings : Type := mkPackageSettings {
  ps_no_patches : bool;
  ps_lazy_mode : option LazyMode;
  ps_lazy_report : option LazyReport;
}.
Record ProjectConfig : Type := mkProjectConfig {
  pc_tools : list (string * PackageRef);
  pc_env : ProjectEnv;
  pc_groups : list (string * Group);
  pc_packages : list (string * PackageSettings);
  pc_lazy_mode : option LazyMode;
  pc_lazy_report : option LazyReport;
  pc_activate : option ActivateMode;
  pc_pinned : option bool;
  pc_trust : option TrustConfig;
}.
#[export] Instance Group_eq_dec : EqDecision Group.
Proof. solve_decision. Defined.
#[export] Instance PackageSettings_eq_dec : EqDecision PackageSettings.
Proof. solve_decision. Defined.
#[export] Instance TrustConfig_eq_dec : EqDecision TrustConfig.
Proof.
  assert (EqDecision ScopeSpec) by solve_decision. assert (EqDecision KeylessMatcher) by solve_decision.
  assert (EqDecision KeyMatcher) by solve_decision. assert (EqDecision SignerSpec) by solve_decision.
  assert (EqDecision TrustPolicy) by solve_decision. assert (EqDecision SigstoreTrust) by solve_decision. solve_decision.
Defined.
#[export] Instance ProjectConfig_eq_dec : EqDecision ProjectConfig.
Proof. solve_decision. Defined.
Definition with_tools (config : ProjectConfig) (tools : list (string * PackageRef)) : ProjectConfig :=
  mkProjectConfig tools (pc_env config) (pc_groups config) (pc_packages config) (pc_lazy_mode config) (pc_lazy_report config)
    (pc_activate config) (pc_pinned config) (pc_trust config).
Definition with_groups (config : ProjectConfig) (groups : list (string * Group)) : ProjectConfig :=
  mkProjectConfig (pc_tools config) (pc_env config) groups (pc_packages config) (pc_lazy_mode config) (pc_lazy_report config)
    (pc_activate config) (pc_pinned config) (pc_trust config).

(** [struct RawProjectConfig]; the tables the code reads itself stay TOML. *)
Record RawProjectConfig : Type := mkRawProject {
  rw_tools : list (string * string);
  rw_env : list (string * TomlValue);
  rw_groups : list (string * list (string * TomlValue));
  rw_package : list (string * PackageSettings);
  rw_lazy_mode : option LazyMode;
  rw_lazy_report : option LazyReport;
  rw_activate : option ActivateMode;
  rw_pinned : option bool;
  rw_trust : option TrustConfig;
  rw_shell : bool;
  rw_update : bool;
}.

(** ** Names *)

(** [TOOLCHAIN_NAME_PATTERN], [is_reserved_toolchain_name], [validate_toolchain_name]. *)
Definition is_name_char (c : ascii) : bool := is_alnum c || Ascii.eqb c "." || Ascii.eqb c "_" || Ascii.eqb c "-".
Definition toolchain_name_matches (name : string) : bool :=
  match name with
  | EmptyString => false
  | String first rest => is_alnum first && str_forall is_name_char rest
  end.
Definition is_reserved_toolchain_name (name reserved : string) : bool := String.eqb (lowercase name) (lowercase reserved).
Definition validate_toolchain_name (scope name path : string) : result PError unit :=
  if (SLUG_MAX_LEN <? String.length name)%nat || negb (toolchain_name_matches name)
  then perr path (InvalidToolchainNameCharset scope name) else Ok tt.

(** ** Reading the environment tables *)

(** [value.as_str]. *)
Definition as_str (value : TomlValue) : option string := match value with TomlString s => Some s | _ => None end.
(** [parse_env_value]; the refusal of a shape does not name the shape. *)
Definition unknown_field (folds : bool) (name : string) : bool :=
  if String.eqb name "type" || String.eqb name "value" then false else if String.eqb name "separator" then negb folds else true.
Definition parse_env_value (scope key : string) (value : TomlValue) : result ProjectErrorKind EnvValue :=
  let invalid_value := EnvInvalidValue scope key in
  match value with
  | TomlString constant => Ok (mkEnvValue KConstant None constant)
  | TomlTable table =>
      match toml_get "type" table ≫= as_str with
      | None => Err invalid_value
      | Some declared_type =>
          let? kind := result_map_err (EnvUnknownModifier scope key) (kind_from_str declared_type) in
          match toml_get "value" table ≫= as_str with
          | None => Err invalid_value
          | Some literal =>
              let? declared_separator :=
                match toml_get "separator" table with
                | None => Ok None
                | Some raw => match as_str raw with Some s => Ok (Some s) | None => Err invalid_value end
                end in
              let folds := bool_decide (kind = KList) in
              if bool_decide (is_Some declared_separator) && negb folds then Err (EnvSeparatorOnNonList scope key kind)
              else match List.find (unknown_field folds) (map fst table) with
              | Some unknown => Err (EnvUnknownValueField scope key unknown)
              | None =>
                  if bool_decide (kind = KPath) && str_mem PATH_SEPARATOR literal then Err (EnvPathSeparatorInValue scope key literal)
                  else match declared_separator with
                  | Some separator =>
                      if negb (separator_is_valid separator) then Err (EnvInvalidSeparator scope key separator)
                      else if is_separator_edged literal separator then Err (EnvSeparatorEdgedValue scope key separator literal)
                      else Ok (mkEnvValue kind declared_separator literal)
                  | None => Ok (mkEnvValue kind declared_separator literal)
                  end
              end
          end
      end
  | _ => Err invalid_value
  end.
(** [ProjectEnv::from_table], [parse_project_env]. *)
Fixpoint env_from_table (scope : string) (raw : list (string * TomlValue)) (entries : ProjectEnv) : result ProjectErrorKind ProjectEnv :=
  match raw with
  | [] => Ok entries
  | (key, value) :: rest =>
      if is_reserved_ocx_key key then Err (EnvReservedKey scope key)
      else if negb (is_valid_env_key key) then Err (EnvInvalidKey scope key)
      else
        let? parsed := parse_env_value scope key value in
        env_from_table scope rest (om_insert key parsed entries)
  end.
Definition parse_project_env (scope : string) (raw : list (string * TomlValue)) (path : string) : result PError ProjectEnv :=
  match raw with
  | [] => Ok []
  | _ => result_map_err (fun kind => ProjectFailed (mkProjectError path kind)) (env_from_table scope raw [])
  end.
(** [ProjectEnv::to_entries]; the [join] of a path is the host's. *)
Definition to_entries (env : ProjectEnv) (project_root : string) : list Entry :=
  map (fun declared => mkEntry declared.1
    (match ev_kind declared.2 with
     | KConstant | KList => ev_value declared.2
     | KPath => path_push project_root (ev_value declared.2)
     end) (ev_kind declared.2) (ev_separator declared.2)) env.

(** ** Reading the bindings *)

(** [BTreeMap::extend]. *)
Definition om_extend {V : Type} (m : list (string * V)) (l : list (string * V)) : list (string * V) :=
  fold_left (fun m e => om_insert e.1 e.2 m) l m.

(** [parse_tool_value], [parse_tool_map]. *)
Definition parse_tool_value (value : string) : result IdentifierError PackageRef :=
  let? identifier := ref_parse value in
  Ok (if bool_decide (pr_tag identifier = None) && bool_decide (pr_digest identifier = None)
      then clone_with_tag identifier "latest" else identifier).
Definition tool_value_error (name value : string) (e : IdentifierError) : ProjectErrorKind :=
  match ie_kind e with
  | MissingRegistry => ToolValueMissingRegistry name value
  | _ => ToolValueInvalid name value e
  end.
Fixpoint parse_tool_map_into (scope : string) (raw : list (string * string)) (path : string) (out : list (string * PackageRef)) :
    result PError (list (string * PackageRef)) :=
  match raw with
  | [] => Ok out
  | (name, value) :: rest =>
      let? _ := validate_toolchain_name scope name path in
      match parse_tool_value value with
      | Ok id => parse_tool_map_into scope rest path (om_insert name id out)
      | Err e => perr path (tool_value_error name value e)
      end
  end.
Definition parse_tool_map (scope : string) (raw : list (string * string)) (path : string) : result PError (list (string * PackageRef)) :=
  parse_tool_map_into scope raw path [].

(** [enum RawGroupTool], untagged; a tools table of a group as [try_into] reads it. *)
Inductive RawGroupTool : Type := RawLiteral (text : string) | RawFrom (from : string).
Definition raw_group_tool (value : TomlValue) : option RawGroupTool :=
  match value with
  | TomlString text => Some (RawLiteral text)
  | TomlTable [(key, TomlString from)] => if String.eqb key "from" then Some (RawFrom from) else None
  | _ => None
  end.
Fixpoint raw_group_tools (entries : list (string * TomlValue)) : option (list (string * RawGroupTool)) :=
  match entries with
  | [] => Some []
  | (name, value) :: rest => tool ← raw_group_tool value; others ← raw_group_tools rest; Some ((name, tool) :: others)
  end.

(** [resolve_from]. *)
Definition resolve_from (group tool from : string) (default_tools : list (string * PackageRef)) (path : string) : result PError PackageRef :=
  if negb (String.eqb from DEFAULT_GROUP) then perr path (ToolFromInvalid group tool true)
  else match om_get tool default_tools with Some id => Ok id | None => perr path (ToolFromInvalid group tool false) end.

(** The tools of one group: the references first, then the literals over them. *)
Fixpoint split_group_tools (name : string) (raw_tools : list (string * RawGroupTool)) (default_tools : list (string * PackageRef)) (path : string)
    (literals : list (string * string)) (group : Group) : result PError (list (string * string) * Group) :=
  match raw_tools with
  | [] => Ok (literals, group)
  | (tool, RawLiteral text) :: rest => split_group_tools name rest default_tools path (om_insert tool text literals) group
  | (tool, RawFrom from) :: rest =>
      let? target := resolve_from name tool from default_tools path in
      let? _ := validate_toolchain_name ("group." +:+ name +:+ ".tools") tool path in
      split_group_tools name rest default_tools path literals
        (mkGroup (om_insert tool target (gr_tools group)) (os_insert tool (gr_inherited group)) (gr_env group) (gr_lazy_mode group))
  end.

(** One key of a group's table, and [parse_group]. *)
Definition parse_group_key (name key : string) (value : TomlValue) (default_tools : list (string * PackageRef)) (path : string) (group : Group) :
    result PError Group :=
  if is_toml_str value && negb (String.eqb key "lazy-mode" || String.eqb key "lazy-report") then perr path (GroupHoldsDirectBinding name key)
  else if String.eqb key "tools" then
    match as_table value ≫= raw_group_tools with
    | None => perr path TomlParse
    | Some raw_tools =>
        let? split := split_group_tools name (om_extend [] raw_tools) default_tools path [] group in
        let? parsed := parse_tool_map ("group." +:+ name +:+ ".tools") split.1 path in
        Ok (mkGroup (om_extend (gr_tools split.2) parsed) (gr_inherited split.2) (gr_env split.2) (gr_lazy_mode split.2))
    end
  else if String.eqb key "env" then
    match as_table value with
    | None => perr path TomlParse
    | Some raw_env =>
        let? env := parse_project_env ("group." +:+ name +:+ ".env") raw_env path in
        Ok (mkGroup (gr_tools group) (gr_inherited group) env (gr_lazy_mode group))
    end
  else if String.eqb key "lazy-mode" then
    match as_str value ≫= lazy_mode_from_str with
    | None => perr path TomlParse
    | Some mode => Ok (mkGroup (gr_tools group) (gr_inherited group) (gr_env group) (Some mode))
    end
  else perr path (UnknownGroupSection name key).
Fixpoint parse_group (name : string) (raw : list (string * TomlValue)) (default_tools : list (string * PackageRef)) (path : string) (group : Group) :
    result PError Group :=
  match raw with
  | [] => Ok group
  | (key, value) :: rest =>
      let? group := parse_group_key name key value default_tools path group in parse_group name rest default_tools path group
  end.
Fixpoint parse_groups (raw : list (string * list (string * TomlValue))) (default_tools : list (string * PackageRef)) (path : string)
    (groups : list (string * Group)) : result PError (list (string * Group)) :=
  match raw with
  | [] => Ok groups
  | (group_name, group_body) :: rest =>
      let? _ := validate_toolchain_name "group" group_name path in
      let? parsed := parse_group group_name group_body default_tools path group_default in
      parse_groups rest default_tools path (om_insert group_name parsed groups)
  end.
(** [validate_package_keys]. *)
Fixpoint validate_package_keys (raw : list (string * PackageSettings)) (path : string) : result PError unit :=
  match raw with
  | [] => Ok tt
  | (key, _) :: rest =>
      match ref_parse key with
      | Ok _ => validate_package_keys rest path
      | Err e => perr path (match ie_kind e with MissingRegistry => PackageKeyMissingRegistry key | _ => PackageKeyInvalid key e end)
      end
  end.

(** The TOML library's reading of the whole document, and the JCS form and hash of a JSON value. *)
Class ProjectLib : Type := {
  toml_project : string -> option RawProjectConfig;
  utf8_from : string -> bool;
  jcs_to_string : Json -> string;
  sha256_hex : string -> string;
}.

Section ProjectConfig.
Context `{!ProjectLib}.

(** [ProjectConfig::from_str_with_path], [from_toml_str], [from_toml_bytes_with_path]. *)
Definition from_raw (raw : RawProjectConfig) (path : string) : result PError ProjectConfig :=
  if rw_shell raw then perr path ShellSectionInProject
  else if rw_update raw then Err (UpdateSectionInProject path)
  else match List.find (fun key => is_reserved_toolchain_name key DEFAULT_GROUP) (map fst (rw_groups raw)) with
  | Some found => perr path (ReservedGroupName found)
  | None =>
      match List.find (fun key => is_reserved_toolchain_name key ALL_GROUP) (map fst (rw_groups raw)) with
      | Some found => perr path (ReservedGroupName found)
      | None =>
          let? tools := parse_tool_map "tools" (rw_tools raw) path in
          let? env := parse_project_env "env" (rw_env raw) path in
          let? groups := parse_groups (rw_groups raw) tools path [] in
          let? _ := validate_package_keys (rw_package raw) path in
          Ok (mkProjectConfig tools env groups (rw_package raw) (rw_lazy_mode raw) (rw_lazy_report raw) (rw_activate raw)
                (rw_pinned raw) (rw_trust raw))
      end
  end.
Definition config_from_str (s path : string) : result PError ProjectConfig :=
  match toml_project s with
  | None => perr path TomlParse
  | Some raw => from_raw raw path
  end.
Definition config_from_bytes (bytes path : string) : result PError ProjectConfig :=
  let size := N.of_nat (String.length bytes) in
  if (FILE_SIZE_LIMIT_BYTES <? size)%N then perr path (FileTooLarge size FILE_SIZE_LIMIT_BYTES)
  else if negb (utf8_from bytes) then perr path (Io false)
  else config_from_str bytes path.

(** ** The declaration hash *)

(** The value hashed: the pairs of each table, sorted; nothing but the bindings. *)
Definition hashed_pairs (tools : list (string * PackageRef)) : Json :=
  JArray (map (fun pair => JArray [JString pair.1; JString pair.2])
    (ord_sort (map (fun e => (e.1, ref_display e.2)) tools))).
Definition declaration_value (config : ProjectConfig) : Json :=
  JObject (fold_left (fun entries group => om_insert ("group." +:+ group.1) (hashed_pairs (gr_tools group.2)) entries)
    (pc_groups config) [(DEFAULT_GROUP, hashed_pairs (pc_tools config))]).
(** [declaration_hash]. *)
Definition DECLARATION_HASH_VERSION : N := 1.
Definition declaration_hash (config : ProjectConfig) : string := "sha256:" +:+ sha256_hex (jcs_to_string (declaration_value config)).
End ProjectConfig.

(** ** Settings of a package *)

(** [repository_key], [no_patches_repositories], [package_settings]. *)
Definition repository_key (identifier : PackageRef) : string := pr_registry identifier +:+ "/" +:+ pr_repository identifier.
Definition no_patches_repositories (config : ProjectConfig) : list string :=
  os_of_list (omap (fun e => match ref_parse e.1 with Ok id => Some (repository_key id) | Err _ => None end)
    (List.filter (fun e => ps_no_patches e.2) (pc_packages config))).
Definition package_settings (config : ProjectConfig) (identifier : PackageRef) : option PackageSettings :=
  let wanted := repository_key identifier in
  snd <$> List.find (fun e => match ref_parse e.1 with Ok parsed => String.eqb (repository_key parsed) wanted | Err _ => false end)
    (pc_packages config).
(** [LazyModeLadder::resolve] over [lazy_mode_ladder_for_tool]; the environment tier is an argument. *)
Definition lazy_mode_for_tool (config : ProjectConfig) (identifier : PackageRef) (group : option string) (cli environment : option LazyMode) : LazyMode :=
  let or_else (a b : option LazyMode) := match a with Some _ => a | None => b end in
  default LazyNever (or_else cli (or_else (package_settings config identifier ≫= ps_lazy_mode)
    (or_else (match group with Some name => om_get name (pc_groups config) ≫= gr_lazy_mode | None => None end)
      (or_else (pc_lazy_mode config) environment)))).

(** ** Bindings *)

(** [declared_identifier] of [resolve.rs], [is_follower]. *)
Definition declared_identifier (config : ProjectConfig) (group name : string) : option PackageRef :=
  if String.eqb group DEFAULT_GROUP then om_get name (pc_tools config)
  else om_get group (pc_groups config) ≫= (fun g => om_get name (gr_tools g)).
Definition is_follower (config : ProjectConfig) (group name : string) : bool :=
  match om_get group (pc_groups config) with Some body => os_mem name (gr_inherited body) | None => false end.

(** [binding_key]: the last segment of the repository. *)
Definition binding_key (identifier : PackageRef) : string := basename (pr_repository identifier).

(** [validate_tool_key], [validate_group_name]. *)
Definition validate_tool_key (key : string) (group : option string) (path : string) : result PError unit :=
  validate_toolchain_name (match group with None => "tools" | Some g => "group." +:+ g +:+ ".tools" end) key path.
Definition validate_group_name (name path : string) : result PError unit :=
  if is_reserved_toolchain_name name DEFAULT_GROUP || is_reserved_toolchain_name name ALL_GROUP then perr path (InvalidGroupName name)
  else match validate_toolchain_name "group" name path with
       | Err (ProjectFailed (mkProjectError _ (InvalidToolchainNameCharset _ _))) => perr path (InvalidGroupName name)
       | other => other
       end.

(** [sync_inherited]: a reference follows its source, and without one becomes a literal. *)
Definition sync_group (defaults : list (string * PackageRef)) (group : Group) : Group :=
  mkGroup (fold_left (fun tools name => match om_get name defaults with Some source => om_insert name source tools | None => tools end)
             (gr_inherited group) (gr_tools group))
          (List.filter (fun name => bool_decide (is_Some (om_get name defaults))) (gr_inherited group))
          (gr_env group) (gr_lazy_mode group).
Definition sync_inherited (config : ProjectConfig) : ProjectConfig :=
  with_groups config (map (fun e => (e.1, sync_group (pc_tools config) e.2)) (pc_groups config)).

(** [add_binding_in_memory]. *)
Definition put_tool (group : Group) (key : string) (identifier : PackageRef) : Group :=
  mkGroup (om_insert key identifier (gr_tools group)) (gr_inherited group) (gr_env group) (gr_lazy_mode group).
Definition add_binding_in_memory (config : ProjectConfig) (path : string) (identifier : PackageRef) (name group : option string) :
    result PError (string * ProjectConfig) :=
  let? _ := match group with Some group_name => validate_group_name group_name path | None => Ok tt end in
  let key := default (binding_key identifier) name in
  let? _ := validate_tool_key key group path in
  match group with
  | None =>
      match om_get key (pc_tools config) with
      | Some existing => perr path (BindingAlreadyExists DEFAULT_GROUP key existing identifier)
      | None => Ok (key, sync_inherited (with_tools config (om_insert key identifier (pc_tools config))))
      end
  | Some group_name =>
      match om_get group_name (pc_groups config) ≫= (fun g => om_get key (gr_tools g)) with
      | Some existing => perr path (BindingAlreadyExists group_name key existing identifier)
      | None =>
          let body := default group_default (om_get group_name (pc_groups config)) in
          Ok (key, sync_inherited (with_groups config (om_insert group_name (put_tool body key identifier) (pc_groups config))))
      end
  end.

(** [remove_binding_in_memory]; [os_remove] is [BTreeSet::remove]. *)
Definition os_remove (k : string) (s : list string) : list string := List.filter (fun x => negb (ord_eqb k x)) s.
Definition drop_tool (group : Group) (key : string) : Group :=
  mkGroup (om_remove key (gr_tools group)) (os_remove key (gr_inherited group)) (gr_env group) (gr_lazy_mode group).
Definition remove_from (config : ProjectConfig) (group key : string) : option ProjectConfig :=
  if String.eqb group DEFAULT_GROUP then
    match om_get key (pc_tools config) with
    | None => None
    | Some _ => Some (sync_inherited (with_tools config (om_remove key (pc_tools config))))
    end
  else
    match om_get group (pc_groups config) with
    | Some g =>
        match om_get key (gr_tools g) with
        | Some _ => Some (sync_inherited (with_groups config (om_insert group (drop_tool g key) (pc_groups config))))
        | None => None
        end
    | None => None
    end.
Definition holders (config : ProjectConfig) (key : string) : list string :=
  ord_sort ((if bool_decide (is_Some (om_get key (pc_tools config))) then [DEFAULT_GROUP] else []) ++
    map fst (List.filter (fun e => bool_decide (is_Some (om_get key (gr_tools e.2)))) (pc_groups config)))%list.
Definition remove_binding_in_memory (config : ProjectConfig) (path name : string) (group : option string) : result PError ProjectConfig :=
  match group with
  | Some group_name => match remove_from config group_name name with Some config' => Ok config' | None => perr path (BindingNotFound name) end
  | None =>
      match holders config name with
      | [] => perr path (BindingNotFound name)
      | [target] => match remove_from config target name with Some config' => Ok config' | None => perr path (BindingNotFound name) end
      | hits => perr path (BindingAmbiguous name hits)
      end
  end.

(** [retag_binding_in_memory]: a reference is retagged at its source. *)
Definition retag_binding_in_memory (config : ProjectConfig) (path name group tag : string) : result PError (PackageRef * ProjectConfig) :=
  if String.eqb group DEFAULT_GROUP || is_follower config group name then
    match om_get name (pc_tools config) with
    | None => perr path (BindingNotFound name)
    | Some binding =>
        let retagged := clone_with_tag binding tag in
        Ok (retagged, sync_inherited (with_tools config (om_insert name retagged (pc_tools config))))
    end
  else
    match om_get group (pc_groups config) with
    | None => perr path (BindingNotFound name)
    | Some body =>
        match om_get name (gr_tools body) with
        | None => perr path (BindingNotFound name)
        | Some binding =>
            let retagged := clone_with_tag binding tag in
            Ok (retagged, sync_inherited (with_groups config (om_insert group (put_tool body name retagged) (pc_groups config))))
        end
    end.

(** ** Well-formed configurations *)

(** A reference of a group stands for the entry of [tools] of its name. *)
Record group_wf (tools : list (string * PackageRef)) (group : Group) : Prop := {
  gw_tools : om_wf (gr_tools group);
  gw_inherited : os_wf (gr_inherited group);
  gw_synced : forall name, In name (gr_inherited group) -> exists id, om_get name tools = Some id /\ om_get name (gr_tools group) = Some id;
}.
Record config_wf (config : ProjectConfig) : Prop := {
  cw_tools : om_wf (pc_tools config);
  cw_groups : om_wf (pc_groups config);
  cw_named : forall group body, In (group, body) (pc_groups config) -> group <> DEFAULT_GROUP;
  cw_group : forall group body, In (group, body) (pc_groups config) -> group_wf (pc_tools config) body;
}.

Lemma om_wf_nil {V : Type} : om_wf ([] : list (string * V)).
Proof. constructor. Qed.
Lemma om_extend_wf {V : Type} (l : list (string * V)) : forall m, om_wf m -> om_wf (om_extend m l).
Proof. induction l as [|e l IH]; intros m Hm; simpl; [done|]. apply IH. by apply om_insert_wf. Qed.
Lemma om_get_extend_skip {V : Type} (l : list (string * V)) : forall m k, ~ In k (map fst l) -> om_get k (om_extend m l) = om_get k m.
Proof.
  induction l as [|e l IH]; intros m k Hk; simpl in *; [done|]. rewrite (IH (om_insert e.1 e.2 m)) by tauto. apply om_get_insert_ne. naive_solver.
Qed.
Lemma om_extend_keys {V : Type} (l : list (string * V)) : forall m k, In k (om_keys (om_extend m l)) <-> In k (om_keys m) \/ In k (map fst l).
Proof.
  induction l as [|e l IH]; intros m k; simpl; [tauto|]. rewrite (IH (om_insert e.1 e.2 m)), om_keys_insert, os_insert_In. naive_solver.
Qed.
Lemma result_bind_ok {E A B : Type} (r : result E A) (k : A -> result E B) b : result_bind r k = Ok b <-> exists a, r = Ok a /\ k a = Ok b.
Proof. destruct r; simpl; naive_solver. Qed.

Lemma is_follower_spec config group name : config_wf config -> is_follower config group name = true <->
  exists body, om_get group (pc_groups config) = Some body /\ In name (gr_inherited body).
Proof.
  intros Hwf. unfold is_follower. destruct (om_get group (pc_groups config)) as [body|]; [|naive_solver]. rewrite os_mem_In. naive_solver.
Qed.
Lemma named_group config group body : config_wf config -> om_get group (pc_groups config) = Some body -> group <> DEFAULT_GROUP.
Proof. intros Hwf Hb. apply om_get_In_1 in Hb. by eapply cw_named. Qed.
(** A follower's source is declared, with the follower's identifier. *)
Lemma follower_source config group name : config_wf config -> is_follower config group name = true ->
  group <> DEFAULT_GROUP /\ exists id, declared_identifier config group name = Some id /\ declared_identifier config DEFAULT_GROUP name = Some id.
Proof.
  intros Hwf (body & Hb & Hn)%is_follower_spec; [|done]. pose proof (named_group _ _ _ Hwf Hb) as Hg. split; [done|].
  destruct (gw_synced _ _ (cw_group _ Hwf _ _ (om_get_In_1 _ _ _ Hb)) name Hn) as (id & Ht & Hi). exists id.
  unfold declared_identifier. rewrite String.eqb_refl. by rewrite (proj2 (String.eqb_neq _ _) Hg), Hb.
Qed.
Lemma default_not_follower config name : config_wf config -> is_follower config DEFAULT_GROUP name = false.
Proof.
  intros Hwf. apply not_true_iff_false. intros H. by apply (follower_source _ _ _ Hwf) in H as [? _].
Qed.

(** *** Reading gives a well-formed configuration *)

Lemma parse_tool_map_wf scope raw path : forall out tools, om_wf out -> parse_tool_map_into scope raw path out = Ok tools -> om_wf tools.
Proof.
  induction raw as [|[name value] raw IH]; intros out tools Hout; simpl; [by intros [= <-]|].
  destruct (validate_toolchain_name scope name path); simpl; [|done]. destruct (parse_tool_value value); [|done]. apply IH. by apply om_insert_wf.
Qed.
Lemma parse_tool_map_keys scope raw path : forall out tools k, parse_tool_map_into scope raw path out = Ok tools ->
  In k (om_keys tools) -> In k (om_keys out) \/ In k (map fst raw).
Proof.
  induction raw as [|[name value] raw IH]; intros out tools k; simpl; [by intros [= <-]; left|].
  destruct (validate_toolchain_name scope name path); simpl; [|done]. destruct (parse_tool_value value) as [id|]; [|done].
  intros Hp Hk. destruct (IH _ _ _ Hp Hk) as [Hk'|?]; [|tauto]. rewrite om_keys_insert, os_insert_In in Hk'. naive_solver.
Qed.

(** What [split_group_tools] has filed, of the keys it has seen. *)
Record split_inv (tools : list (string * PackageRef)) (seen : list string) (literals : list (string * string)) (group : Group) : Prop := {
  si_group : group_wf tools group;
  si_apart : forall name, In name (gr_inherited group) -> ~ In name (om_keys literals);
  si_seen : forall name, In name (gr_inherited group) \/ In name (om_keys literals) -> In name seen;
}.
Lemma split_group_tools_inv name raw_tools tools path : forall seen literals group literals' group', List.NoDup (seen ++ map fst raw_tools)%list ->
  split_inv tools seen literals group ->
  split_group_tools name raw_tools tools path literals group = Ok (literals', group') ->
  split_inv tools (seen ++ map fst raw_tools)%list literals' group'.
Proof.
  induction raw_tools as [|[tool raw] raw_tools IH]; intros seen literals group literals' group' Hnd Hi; simpl.
  { intros [= <- <-]. by rewrite app_nil_r. }
  simpl in Hnd. assert (Hnew : ~ In tool seen).
  { intros H. apply NoDup_remove_2 in Hnd. apply Hnd, in_app_iff. by left. }
  assert (Hmove : (seen ++ tool :: map fst raw_tools)%list = ((seen ++ [tool]) ++ map fst raw_tools)%list) by by rewrite <- app_assoc.
  rewrite Hmove in Hnd |- *. destruct Hi as [Hg Ha Hs]. destruct raw as [text|from].
  - intros Hsplit. refine (IH _ _ _ _ _ Hnd _ Hsplit). split; [done| |].
    + intros n Hn Hk. rewrite om_keys_insert, os_insert_In in Hk. destruct Hk as [->|Hk]; [naive_solver|by apply (Ha n)].
    + intros n Hn. rewrite in_app_iff. rewrite om_keys_insert, os_insert_In in Hn. simpl. naive_solver.
  - unfold resolve_from. destruct (negb (String.eqb from DEFAULT_GROUP)); simpl; [done|].
    destruct (om_get tool tools) as [id|] eqn:Ei; simpl; [|done]. destruct (validate_toolchain_name _ tool path); simpl; [|done].
    intros Hsplit. refine (IH _ _ _ _ _ Hnd _ Hsplit). destruct Hg as [Ht Hin Hsync]. split; simpl.
    + split; simpl; [by apply om_insert_wf|by apply os_insert_wf|]. intros n [->|Hn]%os_insert_In; [exists id; by rewrite om_get_insert_eq|].
      destruct (Hsync n Hn) as (id' & ? & ?). exists id'. split; [done|]. rewrite om_get_insert_ne; [done|]. intros ->. naive_solver.
    + intros n [->|Hn]%os_insert_In; [|by apply Ha]. naive_solver.
    + intros n Hn. rewrite in_app_iff. rewrite os_insert_In in Hn. simpl. naive_solver.
Qed.

(** The invariant of [parse_group]: before the tools of the group are read it has none. *)
Lemma parse_group_key_wf name key value tools path group group' : group_wf tools group ->
  (key = "tools" -> gr_inherited group = []) -> parse_group_key name key value tools path group = Ok group' ->
  group_wf tools group' /\ (key <> "tools" -> gr_inherited group' = gr_inherited group).
Proof.
  intros Hg Hempty. unfold parse_group_key. destruct (is_toml_str value && _); [done|].
  destruct (String.eqb key "tools") eqn:Ek.
  { apply String.eqb_eq in Ek. destruct (as_table value ≫= raw_group_tools) as [raw_tools|]; [|done].
    destruct (split_group_tools _ _ _ _ _ _) as [[literals split]|] eqn:Es; simpl; [|done].
    destruct (parse_tool_map _ _ _) as [parsed|] eqn:Ep; simpl; [|done]. intros [= <-]. split; [|done].
    eapply (split_group_tools_inv _ _ _ _ []) in Es.
    - destruct Es as [[Ht Hi Hs] Ha _]. split; simpl; [by apply om_extend_wf|done|]. intros n Hn. destruct (Hs n Hn) as (id & ? & ?). exists id.
      split; [done|]. rewrite om_get_extend_skip; [done|]. intros Hk. fold (om_keys parsed) in Hk.
      destruct (parse_tool_map_keys _ _ _ _ _ _ Ep Hk) as [[]|Hk']. by apply (Ha n).
    - simpl. apply os_wf_NoDup. apply (om_extend_wf raw_tools []), om_wf_nil.
    - split; [done| |]; rewrite (Hempty Ek); simpl; naive_solver. }
  apply String.eqb_neq in Ek. destruct (String.eqb key "env").
  { destruct (as_table value) as [raw_env|]; [|done]. destruct (parse_project_env _ _ _) as [env|]; simpl; [|done]. intros [= <-].
    destruct Hg. by split; [split|]. }
  destruct (String.eqb key "lazy-mode"); [|done]. destruct (as_str value ≫= lazy_mode_from_str); [|done]. intros [= <-]. destruct Hg. by split; [split|].
Qed.
Lemma parse_group_wf name raw tools path : forall group group', group_wf tools group -> List.NoDup (map fst raw) ->
  (In "tools" (map fst raw) -> gr_inherited group = []) -> parse_group name raw tools path group = Ok group' -> group_wf tools group'.
Proof.
  induction raw as [|[key value] raw IH]; intros group group' Hg Hnd Hempty; simpl; [by intros [= <-]|].
  apply NoDup_cons_iff in Hnd as [Hk Hnd]. destruct (parse_group_key _ _ _ _ _ _) as [group1|] eqn:E; simpl; [|done].
  apply parse_group_key_wf in E as [Hg1 Hsame]; [|done|naive_solver]. apply IH; [done..|]. simpl in *.
  intros Ht. rewrite Hsame; [tauto|]. intros ->. by apply Hk.
Qed.
Lemma group_default_wf tools : group_wf tools group_default.
Proof. split; simpl; [apply om_wf_nil|constructor|done]. Qed.
Lemma In_om_insert {V : Type} (k : string) (v : V) m x : om_wf m -> In x (om_insert k v m) -> x = (k, v) \/ In x m.
Proof.
  intros Hm Hx. destruct x as [k' v']. apply om_get_In in Hx; [|by apply om_insert_wf]. rewrite om_get_insert in Hx.
  destruct (ord_eqb k' k) eqn:E; to_prop; [by left|]. right. by apply om_get_In_1.
Qed.
Lemma parse_groups_wf raw tools path : forall groups groups', (forall name body, In (name, body) raw -> List.NoDup (map fst body)) ->
  om_wf groups -> (forall name body, In (name, body) groups -> group_wf tools body) -> parse_groups raw tools path groups = Ok groups' ->
  om_wf groups' /\ (forall name body, In (name, body) groups' -> group_wf tools body) /\
  (forall name body, In (name, body) groups' -> In name (map fst raw) \/ In name (om_keys groups)).
Proof.
  induction raw as [|[name body] raw IH]; intros groups groups' Hraw Hwf Hg; simpl.
  { intros [= <-]. split_and!; [done..|]. intros n b Hin. right. by apply (in_map fst) in Hin. }
  destruct (validate_toolchain_name _ name path); simpl; [|done]. destruct (parse_group _ _ _ _ _) as [parsed|] eqn:Ep; simpl; [|done].
  assert (Hp : group_wf tools parsed).
  { eapply parse_group_wf, Ep; [apply group_default_wf|eapply Hraw; by left|done]. }
  intros Hrest. apply IH in Hrest as (? & ? & Hkeys); [|intros; eapply Hraw; by right|by apply om_insert_wf|].
  - split_and!; [done..|]. intros n b Hin. destruct (Hkeys n b Hin) as [?|Hk]; [tauto|]. rewrite om_keys_insert, os_insert_In in Hk. naive_solver.
  - intros n b [[= -> ->]|Hin]%In_om_insert; [done| |done]. by eapply Hg.
Qed.

(** The tables of a TOML document name a key once. *)
Definition unique_keys (raw : RawProjectConfig) : Prop := forall name body, In (name, body) (rw_groups raw) -> List.NoDup (map fst body).
Lemma from_raw_wf raw path config : unique_keys raw -> from_raw raw path = Ok config -> config_wf config.
Proof.
  intros Hraw. unfold from_raw. destruct (rw_shell raw); [done|]. destruct (rw_update raw); [done|].
  destruct (List.find _ _) eqn:Ed; [done|]. destruct (List.find (fun key => is_reserved_toolchain_name key ALL_GROUP) _); [done|].
  destruct (parse_tool_map _ _ _) as [tools|] eqn:Et; simpl; [|done]. destruct (parse_project_env _ _ _) as [env|]; simpl; [|done].
  destruct (parse_groups _ _ _ _) as [groups|] eqn:Eg; simpl; [|done]. destruct (validate_package_keys _ _); simpl; [|done]. intros [= <-].
  apply parse_groups_wf in Eg as (Hwf & Hg & Hk); [|done|apply om_wf_nil|done]. split; simpl; [|done| |done].
  - eapply parse_tool_map_wf, Et. apply om_wf_nil.
  - intros name body Hin ->. destruct (Hk _ _ Hin) as [Hr|[]]. eapply find_none in Ed; [|exact Hr]. by vm_compute in Ed.
Qed.

(** *** Edits keep it *)

Lemma om_map_keys {V U : Type} (f : V -> U) (m : list (string * V)) : om_keys (map (fun e => (e.1, f e.2)) m) = om_keys m.
Proof. unfold om_keys. by rewrite map_map. Qed.

(** [sync_inherited] asks of a configuration only that its maps are maps. *)
Record config_maps (config : ProjectConfig) : Prop := {
  cm_tools : om_wf (pc_tools config);
  cm_groups : om_wf (pc_groups config);
  cm_named : forall group body, In (group, body) (pc_groups config) -> group <> DEFAULT_GROUP;
  cm_group : forall group body, In (group, body) (pc_groups config) -> om_wf (gr_tools body) /\ os_wf (gr_inherited body);
}.
Lemma config_wf_maps config : config_wf config -> config_maps config.
Proof. intros [Ht Hg Hn Hb]. split; [done..|]. intros group body Hin. by destruct (Hb group body Hin). Qed.

Section Sync.
Context (defaults : list (string * PackageRef)).
Let put tools name := match om_get name defaults with Some source => om_insert name source tools | None => tools end.
Lemma sync_fold_wf names : forall tools, om_wf tools -> om_wf (fold_left put names tools).
Proof. induction names as [|n names IH]; intros tools Ht; simpl; [done|]. apply IH. unfold put. destruct (om_get n defaults); [by apply om_insert_wf|done]. Qed.
Lemma sync_fold_get names : forall tools n, om_get n (fold_left put names tools) =
  if os_mem n names then match om_get n defaults with Some source => Some source | None => om_get n tools end else om_get n tools.
Proof.
  induction names as [|m names IH]; intros tools n; simpl; [done|]. rewrite IH. unfold put. unfold os_mem in *. simpl.
  destruct (ord_eqb n m) eqn:E; simpl.
  - apply ord_eqb_eq in E as ->. destruct (om_get m defaults) as [source|]; [|by destruct (existsb _ names)]. rewrite om_get_insert_eq. by destruct (existsb _ names).
  - apply ord_eqb_neq in E. destruct (om_get m defaults) as [source|]; [|done]. by rewrite om_get_insert_ne.
Qed.
Lemma sync_group_wf group : om_wf (gr_tools group) -> os_wf (gr_inherited group) -> group_wf defaults (sync_group defaults group).
Proof.
  intros Ht Hi. split; simpl; [by apply sync_fold_wf|by apply os_filter_wf|]. intros n [Hin Hs]%filter_In. apply bool_decide_eq_true in Hs as [source Hs].
  exists source. split; [done|]. rewrite sync_fold_get, Hs. by rewrite (proj2 (os_mem_In _ _) Hin).
Qed.
End Sync.

Lemma sync_wf config : config_maps config -> config_wf (sync_inherited config).
Proof.
  intros [Ht Hg Hn Hb]. split; simpl; [done| | |].
  - unfold om_wf. by rewrite (om_map_keys (sync_group (pc_tools config))).
  - intros group body ([g b] & [= <- <-] & Hin)%in_map_iff. by eapply Hn.
  - intros group body ([g b] & [= <- <-] & Hin)%in_map_iff. destruct (Hb _ _ Hin). by apply sync_group_wf.
Qed.
Lemma sync_declared config group name : declared_identifier (sync_inherited config) group name =
  if String.eqb group DEFAULT_GROUP then om_get name (pc_tools config)
  else om_get group (pc_groups config) ≫= fun body =>
    if os_mem name (gr_inherited body) then match om_get name (pc_tools config) with Some source => Some source | None => om_get name (gr_tools body) end
    else om_get name (gr_tools body).
Proof.
  unfold declared_identifier. simpl. destruct (String.eqb group DEFAULT_GROUP); [done|]. rewrite om_get_map.
  destruct (om_get group (pc_groups config)); simpl; [|done]. apply sync_fold_get.
Qed.
Lemma sync_follower config group name : is_follower (sync_inherited config) group name =
  is_follower config group name && bool_decide (is_Some (om_get name (pc_tools config))).
Proof.
  unfold is_follower. simpl. rewrite om_get_map. destruct (om_get group (pc_groups config)) as [body|]; simpl; [|done].
  apply eq_iff_eq_true. rewrite andb_true_iff, !os_mem_In, filter_In. done.
Qed.

(** *** What an edit does *)

(** The three edits of a command, and the binding each is about. *)
Inductive ProjectEdit : Type :=
| EditAdd (identifier : PackageRef) (name group : option string)
| EditRemove (name : string) (group : option string)
| EditRetag (name group tag : string).
Definition apply_edit (config : ProjectConfig) (path : string) (edit : ProjectEdit) : result PError ProjectConfig :=
  match edit with
  | EditAdd identifier name group => let? added := add_binding_in_memory config path identifier name group in Ok added.2
  | EditRemove name group => remove_binding_in_memory config path name group
  | EditRetag name group tag => let? retagged := retag_binding_in_memory config path name group tag in Ok retagged.2
  end.
Definition edit_target (config : ProjectConfig) (edit : ProjectEdit) : string * string :=
  match edit with
  | EditAdd identifier name group => (default DEFAULT_GROUP group, default (binding_key identifier) name)
  | EditRemove name (Some group) => (group, name)
  | EditRemove name None => (hd DEFAULT_GROUP (holders config name), name)
  | EditRetag name group _ => (if is_follower config group name then DEFAULT_GROUP else group, name)
  end.
Definition edit_value (config : ProjectConfig) (edit : ProjectEdit) : option PackageRef :=
  match edit with
  | EditAdd identifier _ _ => Some identifier
  | EditRemove _ _ => None
  | EditRetag _ _ tag => let target := edit_target config edit in (fun id => clone_with_tag id tag) <$> declared_identifier config target.1 target.2
  end.
Definition is_retag (edit : ProjectEdit) : bool := match edit with EditRetag _ _ _ => true | _ => false end.
Definition is_removal (edit : ProjectEdit) : bool := match edit with EditRemove _ _ => true | _ => false end.
(** Whether the edit gives the binding its value: the target, and what follows a retagged one. *)
Definition edit_moves (config : ProjectConfig) (edit : ProjectEdit) (group name : string) : bool :=
  let target := edit_target config edit in
  String.eqb name target.2 &&
  (String.eqb group target.1 || is_retag edit && String.eqb target.1 DEFAULT_GROUP && is_follower config group name).
(** A reference ends when it or its source is removed. *)
Definition edit_frees (config : ProjectConfig) (edit : ProjectEdit) (group name : string) : bool :=
  let target := edit_target config edit in
  is_removal edit && String.eqb name target.2 && (String.eqb group target.1 || String.eqb target.1 DEFAULT_GROUP).
Record edited (config : ProjectConfig) (edit : ProjectEdit) (config' : ProjectConfig) : Prop := {
  ed_wf : config_wf config';
  ed_declared : forall group name, declared_identifier config' group name =
    if edit_moves config edit group name then edit_value config edit else declared_identifier config group name;
  ed_follower : forall group name, is_follower config' group name = is_follower config group name && negb (edit_frees config edit group name);
}.

Section Edit.
Context (config : ProjectConfig) (Hwf : config_wf config).
Lemma follower_tools group body name : om_get group (pc_groups config) = Some body -> In name (gr_inherited body) ->
  exists id, om_get name (pc_tools config) = Some id /\ om_get name (gr_tools body) = Some id.
Proof. intros Hb Hn. apply (gw_synced _ _ (cw_group _ Hwf _ _ (om_get_In_1 _ _ _ Hb)) name Hn). Qed.
Lemma group_body group body : om_get group (pc_groups config) = Some body -> om_wf (gr_tools body) /\ os_wf (gr_inherited body).
Proof. intros Hb. by destruct (cw_group _ Hwf _ _ (om_get_In_1 _ _ _ Hb)). Qed.
Lemma with_tools_maps tools : om_wf tools -> config_maps (with_tools config tools).
Proof. intros Ht. destruct (config_wf_maps _ Hwf). by split. Qed.
Lemma with_group_maps group body : group <> DEFAULT_GROUP -> om_wf (gr_tools body) -> os_wf (gr_inherited body) ->
  config_maps (with_groups config (om_insert group body (pc_groups config))).
Proof.
  intros Hg Ht Hi. destruct (config_wf_maps _ Hwf) as [Hct Hcg Hcn Hcb]. split; simpl; [done|by apply om_insert_wf| |];
    intros g b [[= -> ->]|Hin]%In_om_insert; by eauto.
Qed.

(** Writing an entry of [tools]: what follows it moves with it. *)
Lemma put_tools_declared key id group name : declared_identifier (sync_inherited (with_tools config (om_insert key id (pc_tools config)))) group name =
  if String.eqb name key && (String.eqb group DEFAULT_GROUP || is_follower config group name) then Some id else declared_identifier config group name.
Proof.
  rewrite sync_declared. simpl. unfold declared_identifier, is_follower. destruct (String.eqb group DEFAULT_GROUP) eqn:Eg; simpl.
  { rewrite om_get_insert. rewrite andb_true_r. destruct (String.eqb name key) eqn:E; [apply String.eqb_eq in E as ->|apply String.eqb_neq in E].
    - by rewrite (proj2 (ord_eqb_eq _ _) eq_refl).
    - by rewrite (proj2 (ord_eqb_neq _ _) E). }
  destruct (om_get group (pc_groups config)) as [body|] eqn:Eb; simpl; [|by rewrite andb_false_r].
  destruct (os_mem name (gr_inherited body)) eqn:Ei; [|by rewrite andb_false_r]. rewrite andb_true_r, om_get_insert.
  apply os_mem_In in Ei. destruct (follower_tools _ _ _ Eb Ei) as (id' & Ht & Hb).
  destruct (String.eqb name key) eqn:E; [apply String.eqb_eq in E as ->|apply String.eqb_neq in E].
  - by rewrite (proj2 (ord_eqb_eq _ _) eq_refl).
  - by rewrite (proj2 (ord_eqb_neq _ _) E), Ht, Hb.
Qed.
Lemma put_tools_follower key id group name : is_follower (sync_inherited (with_tools config (om_insert key id (pc_tools config)))) group name = is_follower config group name.
Proof.
  rewrite sync_follower. simpl. change (is_follower (with_tools _ _) group name) with (is_follower config group name).
  destruct (is_follower config group name) eqn:E; [|done]. apply (is_follower_spec _ _ _ Hwf) in E as (body & Hb & Hn).
  destruct (follower_tools _ _ _ Hb Hn) as (id' & Ht & _). rewrite om_get_insert. apply bool_decide_eq_true. destruct (ord_eqb name key); eauto.
Qed.
(** Writing one group. *)
Lemma put_group_declared group body group' name : group <> DEFAULT_GROUP ->
  (forall n, In n (gr_inherited body) -> exists id, om_get n (pc_tools config) = Some id /\ om_get n (gr_tools body) = Some id) ->
  declared_identifier (sync_inherited (with_groups config (om_insert group body (pc_groups config)))) group' name =
  if String.eqb group' group then om_get name (gr_tools body) else declared_identifier config group' name.
Proof.
  intros Hg Hsync. rewrite sync_declared. simpl. unfold declared_identifier. destruct (String.eqb group' group) eqn:E.
  - apply String.eqb_eq in E as ->. rewrite (proj2 (String.eqb_neq _ _) Hg), om_get_insert_eq. simpl.
    destruct (os_mem name (gr_inherited body)) eqn:Ei; [|done]. apply os_mem_In in Ei. destruct (Hsync _ Ei) as (id & -> & ->). done.
  - apply String.eqb_neq in E. rewrite om_get_insert_ne by done. destruct (String.eqb group' DEFAULT_GROUP); [done|].
    destruct (om_get group' (pc_groups config)) as [b|] eqn:Eb; simpl; [|done]. destruct (os_mem name (gr_inherited b)) eqn:Ei; [|done].
    apply os_mem_In in Ei. destruct (follower_tools _ _ _ Eb Ei) as (id & -> & ->). done.
Qed.
Lemma put_group_follower group body group' name :
  (forall n, In n (gr_inherited body) -> is_Some (om_get n (pc_tools config))) ->
  is_follower (sync_inherited (with_groups config (om_insert group body (pc_groups config)))) group' name =
  if String.eqb group' group then os_mem name (gr_inherited body) else is_follower config group' name.
Proof.
  intros Hsync. rewrite sync_follower. unfold is_follower. simpl. destruct (String.eqb group' group) eqn:E.
  - apply String.eqb_eq in E as ->. rewrite om_get_insert_eq. destruct (os_mem name (gr_inherited body)) eqn:Ei; [|done].
    apply os_mem_In, Hsync in Ei. by apply bool_decide_eq_true.
  - apply String.eqb_neq in E. rewrite om_get_insert_ne by done. destruct (om_get group' (pc_groups config)) as [b|] eqn:Eb; [|done].
    destruct (os_mem name (gr_inherited b)) eqn:Ei; [|done]. apply os_mem_In in Ei. destruct (follower_tools _ _ _ Eb Ei) as (id & Ht & _).
    apply bool_decide_eq_true. by rewrite Ht.
Qed.
(** Dropping an entry of [tools]: what followed it keeps its identifier. *)
Lemma drop_tools_declared key group name : declared_identifier (sync_inherited (with_tools config (om_remove key (pc_tools config)))) group name =
  if String.eqb name key && String.eqb group DEFAULT_GROUP then None else declared_identifier config group name.
Proof.
  rewrite sync_declared. simpl. unfold declared_identifier. rewrite om_get_remove. change (ord_eqb name key) with (ord_eqb name key).
  destruct (String.eqb name key) eqn:E; [apply String.eqb_eq in E as ->|apply String.eqb_neq in E].
  - rewrite (proj2 (ord_eqb_eq _ _) eq_refl). destruct (String.eqb group DEFAULT_GROUP); simpl; [done|].
    destruct (om_get group (pc_groups config)) as [b|]; simpl; [|done]. by destruct (os_mem key (gr_inherited b)).
  - rewrite (proj2 (ord_eqb_neq _ _) E). simpl. destruct (String.eqb group DEFAULT_GROUP); [done|].
    destruct (om_get group (pc_groups config)) as [b|] eqn:Eb; simpl; [|done]. destruct (os_mem name (gr_inherited b)) eqn:Ei; [|done].
    apply os_mem_In in Ei. by destruct (follower_tools _ _ _ Eb Ei) as (id & -> & ->).
Qed.
Lemma drop_tools_follower key group name : is_follower (sync_inherited (with_tools config (om_remove key (pc_tools config)))) group name =
  is_follower config group name && negb (String.eqb name key).
Proof.
  rewrite sync_follower. simpl. change (is_follower (with_tools _ _) group name) with (is_follower config group name).
  destruct (is_follower config group name) eqn:Ef; [|done]. simpl. rewrite om_get_remove.
  destruct (String.eqb name key) eqn:E; [apply String.eqb_eq in E as ->|apply String.eqb_neq in E].
  - rewrite (proj2 (ord_eqb_eq _ _) eq_refl). apply bool_decide_eq_false. by intros [? ?].
  - rewrite (proj2 (ord_eqb_neq _ _) E). apply bool_decide_eq_true. apply (is_follower_spec _ _ _ Hwf) in Ef as (body & Hb & Hn).
    destruct (follower_tools _ _ _ Hb Hn) as (id & -> & _). eauto.
Qed.
Lemma follower_declared group name : is_follower config group name = true -> is_Some (om_get name (pc_tools config)).
Proof. intros (body & Hb & Hn)%is_follower_spec; [|done]. destruct (follower_tools _ _ _ Hb Hn) as (id & -> & _). eauto. Qed.

Lemma validate_group_name_named group path : validate_group_name group path = Ok tt -> group <> DEFAULT_GROUP.
Proof. intros H ->. by vm_compute in H. Qed.
Lemma ord_eqb_string (a b : string) : ord_eqb a b = String.eqb a b.
Proof. apply eq_iff_eq_true. rewrite ord_eqb_eq. by rewrite String.eqb_eq. Qed.
Lemma os_mem_remove k k' s : os_mem k (os_remove k' s) = os_mem k s && negb (String.eqb k k').
Proof.
  apply eq_iff_eq_true. unfold os_remove. rewrite andb_true_iff, !os_mem_In, filter_In, ord_eqb_string. by rewrite (String.eqb_sym k k').
Qed.

Lemma add_edited path id name group key config' : add_binding_in_memory config path id name group = Ok (key, config') ->
  edited config (EditAdd id name group) config'.
Proof.
  unfold add_binding_in_memory. destruct group as [group|]; simpl.
  - destruct (validate_group_name group path) as [[]|] eqn:Eg; simpl; [|done]. apply validate_group_name_named in Eg.
    destruct (validate_tool_key _ _ _); simpl; [|done]. set (k := default (binding_key id) name).
    destruct (om_get group (pc_groups config) ≫= _) eqn:Ek; [done|]. intros [= <- <-].
    set (body := default group_default (om_get group (pc_groups config))).
    assert (Hbody : om_wf (gr_tools body) /\ os_wf (gr_inherited body) /\ om_get k (gr_tools body) = None /\ declared_identifier config group = (fun n => om_get n (gr_tools body))
      /\ is_follower config group = (fun n => os_mem n (gr_inherited body)) /\
      forall n, In n (gr_inherited body) -> exists i, om_get n (pc_tools config) = Some i /\ om_get n (gr_tools body) = Some i).
    { unfold body, declared_identifier, is_follower. rewrite (proj2 (String.eqb_neq _ _) Eg).
      destruct (om_get group (pc_groups config)) as [b|] eqn:Eb; simpl in *; [|split_and!; by try constructor].
      destruct (group_body _ _ Eb). split_and!; try done. by intros n Hn; eapply follower_tools. }
    destruct Hbody as (Ht & Hi & Hnone & Hdecl & Hfoll & Hsync).
    assert (Hsync' : forall n, In n (gr_inherited (put_tool body k id)) -> exists i, om_get n (pc_tools config) = Some i /\ om_get n (gr_tools (put_tool body k id)) = Some i).
    { intros n Hn. destruct (Hsync n Hn) as (i & ? & Hb). exists i. split; [done|]. simpl. rewrite om_get_insert_ne; [done|congruence]. }
    split.
    + apply sync_wf, with_group_maps; simpl; [done|by apply om_insert_wf|done].
    + intros g n. rewrite put_group_declared by done. unfold edit_moves. simpl. fold k. rewrite orb_false_r.
      destruct (String.eqb g group) eqn:E; [|by rewrite andb_false_r]. apply String.eqb_eq in E as ->. rewrite andb_true_r, om_get_insert, ord_eqb_string, Hdecl. done.
    + intros g n. rewrite put_group_follower by (intros m Hm; destruct (Hsync' m Hm) as (? & -> & _); eauto). rewrite andb_true_r.
      destruct (String.eqb g group) eqn:E; [|done]. apply String.eqb_eq in E as ->. by rewrite Hfoll.
  - destruct (validate_tool_key _ _ _); simpl; [|done]. set (k := default (binding_key id) name). destruct (om_get k (pc_tools config)) eqn:Ek; [done|].
    intros [= <- <-]. split.
    + apply sync_wf, with_tools_maps, om_insert_wf. apply Hwf.
    + intros g n. rewrite put_tools_declared. unfold edit_moves. simpl. fold k. rewrite orb_false_r. destruct (String.eqb n k) eqn:E; simpl; [|done].
      apply String.eqb_eq in E as ->. destruct (String.eqb g DEFAULT_GROUP); simpl; [done|]. destruct (is_follower config g k) eqn:Ef; [|done].
      apply follower_declared in Ef as [? ?]. congruence.
    + intros g n. by rewrite put_tools_follower, andb_true_r.
Qed.
Lemma remove_edited edit target key config' : edit_target config edit = (target, key) -> is_removal edit = true -> is_retag edit = false ->
  edit_value config edit = None -> remove_from config target key = Some config' -> edited config edit config'.
Proof.
  intros Htarget Hr Hrt Hv. unfold remove_from. destruct (String.eqb target DEFAULT_GROUP) eqn:Ed.
  - apply String.eqb_eq in Ed as ->. destruct (om_get key (pc_tools config)) eqn:Ek; [|done]. intros [= <-]. split.
    + apply sync_wf, with_tools_maps, om_remove_wf. apply Hwf.
    + intros g n. rewrite drop_tools_declared. unfold edit_moves. rewrite Htarget, Hrt, Hv. simpl. by rewrite orb_false_r.
    + intros g n. rewrite drop_tools_follower. unfold edit_frees. rewrite Htarget, Hr. simpl. by rewrite orb_true_r, andb_true_r.
  - apply String.eqb_neq in Ed as Ed'. destruct (om_get target (pc_groups config)) as [b|] eqn:Eb; [|done]. destruct (om_get key (gr_tools b)) eqn:Ek; [|done].
    intros [= <-]. destruct (group_body _ _ Eb) as [Ht Hi].
    assert (Hsync : forall n, In n (gr_inherited (drop_tool b key)) -> exists i, om_get n (pc_tools config) = Some i /\ om_get n (gr_tools (drop_tool b key)) = Some i).
    { simpl. intros n Hn. apply os_mem_In in Hn. rewrite os_mem_remove in Hn. apply andb_true_iff in Hn as [Hn Hne%negb_true_iff].
      apply os_mem_In in Hn. destruct (follower_tools _ _ _ Eb Hn) as (i & ? & ?). exists i. split; [done|].
      by rewrite om_get_remove, ord_eqb_string, Hne. }
    split.
    + apply sync_wf, with_group_maps; simpl; [done|by apply om_remove_wf|by apply os_filter_wf].
    + intros g n. rewrite put_group_declared by done. unfold edit_moves. rewrite Htarget, Hrt, Hv. simpl. rewrite orb_false_r.
      destruct (String.eqb g target) eqn:E; [|by rewrite andb_false_r]. apply String.eqb_eq in E as ->. rewrite andb_true_r, om_get_remove, ord_eqb_string.
      unfold declared_identifier. by rewrite Ed, Eb.
    + intros g n. rewrite put_group_follower by (intros m Hm; destruct (Hsync m Hm) as (? & -> & _); eauto). unfold edit_frees. rewrite Htarget, Hr. simpl. rewrite Ed, orb_false_r.
      destruct (String.eqb g target) eqn:E; [|by rewrite andb_false_r, andb_true_r]. apply String.eqb_eq in E as ->. rewrite andb_true_r, os_mem_remove.
      unfold is_follower. by rewrite Eb.
Qed.
Lemma retag_edited path name group tag id config' : retag_binding_in_memory config path name group tag = Ok (id, config') ->
  edited config (EditRetag name group tag) config'.
Proof.
  unfold retag_binding_in_memory. set (edit := EditRetag name group tag).
  assert (Hfree : forall g n, edit_frees config edit g n = false) by done.
  destruct (String.eqb group DEFAULT_GROUP || is_follower config group name) eqn:Es.
  - assert (Htarget : edit_target config edit = (DEFAULT_GROUP, name)).
    { simpl. destruct (is_follower config group name); [done|]. rewrite orb_false_r in Es. by apply String.eqb_eq in Es as ->. }
    destruct (om_get name (pc_tools config)) as [binding|] eqn:Eb; [|done]. intros [= <- <-]. split.
    + apply sync_wf, with_tools_maps, om_insert_wf. apply Hwf.
    + intros g n. rewrite put_tools_declared. unfold edit_moves, edit_value. rewrite Htarget. simpl. unfold declared_identifier at 2. rewrite String.eqb_refl, Eb. done.
    + intros g n. by rewrite put_tools_follower, Hfree, andb_true_r.
  - apply orb_false_iff in Es as [Eg Ef]. assert (Htarget : edit_target config edit = (group, name)) by (simpl; by rewrite Ef).
    apply String.eqb_neq in Eg as Eg'. destruct (om_get group (pc_groups config)) as [b|] eqn:Eb; [|done]. destruct (om_get name (gr_tools b)) as [binding|] eqn:En; [|done].
    intros [= <- <-]. destruct (group_body _ _ Eb) as [Ht Hi].
    assert (Hsync : forall n, In n (gr_inherited (put_tool b name (clone_with_tag binding tag))) ->
      exists i, om_get n (pc_tools config) = Some i /\ om_get n (gr_tools (put_tool b name (clone_with_tag binding tag))) = Some i).
    { simpl. intros n Hn. destruct (follower_tools _ _ _ Eb Hn) as (i & ? & ?). exists i. split; [done|]. rewrite om_get_insert_ne; [done|].
      intros ->. revert Ef. unfold is_follower. rewrite Eb. by rewrite (proj2 (os_mem_In _ _) Hn). }
    split.
    + apply sync_wf, with_group_maps; simpl; [done|by apply om_insert_wf|done].
    + intros g n. rewrite put_group_declared by done. unfold edit_moves, edit_value. rewrite Htarget. simpl. rewrite Eg. simpl. rewrite orb_false_r.
      unfold declared_identifier at 2. rewrite Eg, Eb. simpl. rewrite En. simpl.
      destruct (String.eqb g group) eqn:E; [|by rewrite andb_false_r]. apply String.eqb_eq in E as ->. rewrite andb_true_r, om_get_insert, ord_eqb_string.
      unfold declared_identifier. by rewrite Eg, Eb.
    + intros g n. rewrite put_group_follower by (intros m Hm; destruct (Hsync m Hm) as (? & -> & _); eauto). rewrite Hfree, andb_true_r.
      destruct (String.eqb g group) eqn:E; [|done]. apply String.eqb_eq in E as ->. unfold is_follower. by rewrite Eb.
Qed.
Lemma apply_edited path edit config' : apply_edit config path edit = Ok config' -> edited config edit config'.
Proof.
  destruct edit as [id name group|name group|name group tag]; unfold apply_edit.
  - destruct (add_binding_in_memory _ _ _ _ _) as [[key c]|] eqn:E; simpl; [|done]. intros [= <-]. by eapply add_edited.
  - unfold remove_binding_in_memory. destruct group as [group|].
    + destruct (remove_from config group name) eqn:E; [|done]. intros [= <-]. by eapply remove_edited.
    + destruct (holders config name) as [|target [|? ?]] eqn:Eh; [done| |done]. destruct (remove_from config target name) eqn:E; [|done].
      intros [= <-]. eapply remove_edited; try done. simpl. by rewrite Eh.
  - destruct (retag_binding_in_memory _ _ _ _ _) as [[id c]|] eqn:E; simpl; [|done]. intros [= <-]. by eapply retag_edited.
Qed.
End Edit.

(** C31: The three in-memory edits of the project file ([add_binding_in_memory],
    [remove_binding_in_memory], [retag_binding_in_memory]) change exactly the binding they name:
    the target gets the new identifier (or none), a retagged entry of [tools] takes every
    [{ from = "default" }] binding of its name along, and every other declaration of every group
    stays as it was.  References stay references, except the removed one and those whose source
    was removed, which keep their identifier as a literal, and the result is again well-formed:
    every reference has a source and agrees with it. *)
Theorem project_edit_exact (config config' : ProjectConfig) (path : string) (edit : ProjectEdit)
    (Hwf : config_wf config) (Hedit : apply_edit config path edit = Ok config') : edited config edit config'.
Proof. by eapply apply_edited. Qed.
