(* ===== verification/ProjectLock.v ===== *)
(** * The lock file

    [crates/ocx_project/src/lock.rs] and [resolve.rs]: what [ocx.lock] records of every binding of
    [ocx.toml], how it is joined to the declarations, printed and read back, and how it is
    resolved: in full, for the bindings a command touches, or for what the project file changed,
    carrying every other pin over.

    The index is a record of the two reads that resolution makes, which [chain_index] fills with the chain
    of [IndexChain.v]; the clock and the timer are the class [ResolveClock], the TOML library
    [LockLib].  Tasks that run together end in the order [schedule] picks. *)

From stdpp Require Import base decidable list option numbers strings gmap.
From Stdlib Require Import Lia Ascii.
From S2P Require Import Prelude OMap Text Digest PackageRef Platform Registry RootMerge Store Clean IndexStore.
From S2P Require Import Ssrf LocalIndex IndexChain IndexSelect Trust ConfigLoad ProjectConfig.
Local Open Scope ocx_scope.
Local Open Scope string_scope.

(** ** Data *)

(** [enum LockVersion], [struct LockMetadata], [struct ProjectLock]. *)
Inductive LockVersion : Type := LockV3 | LockV4.
#[export] Instance LockVersion_eq_dec : EqDecision LockVersion.
Proof. solve_decision. Defined.
Definition lock_version_number (v : LockVersion) : N := match v with LockV3 => 3 | LockV4 => 4 end.
Definition SUPPORTED_LOCK_VERSIONS : list N := [lock_version_number LockV3; lock_version_number LockV4].
Record LockMetadata : Type := mkLockMetadata {
  lm_lock_version : LockVersion;
  lm_declaration_hash_version : N;
  lm_declaration_hash : string;
  lm_generated_by : string;
  lm_generated_at : string;
}.
Record ProjectLock : Type := mkProjectLock { pl_metadata : LockMetadata; pl_tools : list LockedTool }.

(** Entries are told apart by group and name. *)
Definition Key : Type := string * string.
Definition tool_key (tool : LockedTool) : Key := (lt_group tool, lt_name tool).
Definition find_tool (tools : list LockedTool) (key : Key) : option LockedTool :=
  List.find (fun tool => String.eqb (lt_group tool) key.1 && String.eqb (lt_name tool) key.2) tools.
Definition in_group (group : string) (tool : LockedTool) : LockedTool :=
  mkLockedTool (lt_name tool) group (lt_repository tool) (lt_declared tool) (lt_platforms tool).
Definition sort_tools (tools : list LockedTool) : list LockedTool := sort_by (fun a b => ord_cmp (tool_key a) (tool_key b)) tools.

(** ** The leaf of a host *)

(** [lookup_host_leaf], [LockedTool::host_leaf]. *)
Definition lookup_host_leaf (platforms : list (string * Digest)) (host : Platform) : Selection (Digest * string) :=
  select_best host (omap (fun e => match platform_from_str e.1 with Ok platform => Some ((e.2, e.1), platform) | Err _ => None end) platforms).
Definition host_leaf (tool : LockedTool) (platform : Platform) : result PError Digest :=
  match lookup_host_leaf (lt_platforms tool) platform with
  | Found leaf => Ok leaf.1
  | SelectNone => perr "" (NoHostLeaf (lt_name tool) (platform_display platform))
  | Ambiguous candidates => perr "" (AmbiguousHostLeaf (lt_name tool) (platform_display platform) (map snd candidates))
  end.

(** [validate_canonical_platform_keys]. *)
Fixpoint validate_canonical_platform_keys (keys : list string) : result ProjectErrorKind unit :=
  match keys with
  | [] => Ok tt
  | key :: rest =>
      match platform_from_str key with
      | Err _ => Err (NoncanonicalPlatformKey key)
      | Ok parsed => if negb (String.eqb (platform_display parsed) key) then Err (NoncanonicalPlatformKey key) else validate_canonical_platform_keys rest
      end
  end.

(** [locked_tool_content_equal], [tools_content_equal]. *)
Definition locked_tool_content_equal (left_ right_ : LockedTool) : bool :=
  bool_decide (lt_repository left_ = lt_repository right_) && bool_decide (lt_platforms left_ = lt_platforms right_).
Definition tools_content_equal (a b : list LockedTool) : bool :=
  (length a =? length b)%nat &&
  forallb (fun pair => String.eqb (lt_name pair.1) (lt_name pair.2) && String.eqb (lt_group pair.1) (lt_group pair.2) &&
                       locked_tool_content_equal pair.1 pair.2) (zip (sort_tools a) (sort_tools b)).

(** [merge_per_content], [first_per_content], [eager_per_content]. *)
Fixpoint merge_kept {T : Type} (merge : T -> T -> T) (kept : list (T * PinnedPackageRef)) (item : T) (identifier : PinnedPackageRef) :
    list (T * PinnedPackageRef) :=
  match kept with
  | [] => [(item, identifier)]
  | (kept_item, known) :: rest =>
      if eq_content known identifier then (merge kept_item item, known) :: rest else (kept_item, known) :: merge_kept merge rest item identifier
  end.
Definition merge_per_content {T : Type} (merge : T -> T -> T) (entries : list (T * PinnedPackageRef)) : list (T * PinnedPackageRef) :=
  fold_left (fun kept e => merge_kept merge kept e.1 e.2) entries [].
Definition first_per_content {T : Type} (entries : list (T * PinnedPackageRef)) : list (T * PinnedPackageRef) :=
  merge_per_content (fun kept _ => kept) entries.
Definition eager_per_content (entries : list (LazyMode * PinnedPackageRef)) : list (LazyMode * PinnedPackageRef) :=
  merge_per_content (fun kept mode => if bool_decide (mode = LazyNever) then mode else kept) entries.
(** [lazy_pull_set]. *)
Definition lazy_pull_set (config : ProjectConfig) (entries : list (string * PinnedPackageRef)) (cli environment : option LazyMode) :
    list (LazyMode * PinnedPackageRef) :=
  eager_per_content (map (fun e =>
    let identifier := mkPackageRef (pp_registry e.2) (pp_repository e.2) (pp_tag e.2) (Some (pp_digest e.2)) in
    (lazy_mode_for_tool config identifier (Some e.1) cli environment, e.2)) entries).

(** ** The lock and its declarations *)

(** [declaration_of]. *)
Definition declaration_of (config : ProjectConfig) (tool : LockedTool) : option PackageRef :=
  match declared_identifier config (lt_group tool) (lt_name tool) with
  | Some declared =>
      if String.eqb (pr_registry declared) (rp_registry (lt_repository tool)) && String.eqb (pr_repository declared) (rp_repository (lt_repository tool))
      then Some declared else None
  | None => None
  end.

(** [struct BoundTool], [enum Binding]. *)
Record BoundTool : Type := mkBoundTool { bt_locked : LockedTool; bt_declared : PackageRef }.
Inductive Binding : Type := Current (bound : list BoundTool) | Stale (drift : LockDrift).

Section Bind.
Context `{!ProjectLib}.

(** [ProjectLock::declarations], [bind], [bind_current], [is_current]. *)
Fixpoint bind_tools (config : ProjectConfig) (tools : list LockedTool) : result LockDrift (list (LockedTool * PackageRef)) :=
  match tools with
  | [] => Ok []
  | tool :: rest =>
      match declaration_of config tool with
      | Some declared => let? pairs := bind_tools config rest in Ok ((tool, declared) :: pairs)
      | None => Err (DriftEntry (lt_group tool) (lt_name tool) (lt_repository tool)
                  (repository_from <$> declared_identifier config (lt_group tool) (lt_name tool)))
      end
  end.
Definition declarations (lock : ProjectLock) (config : ProjectConfig) : result LockDrift (list (LockedTool * PackageRef)) :=
  let current_hash := declaration_hash config in
  if negb (String.eqb (lm_declaration_hash (pl_metadata lock)) current_hash)
  then Err (DriftDeclarationHash (lm_declaration_hash (pl_metadata lock)) current_hash)
  else bind_tools config (pl_tools lock).
Definition bind (lock : ProjectLock) (config : ProjectConfig) : Binding :=
  match declarations lock config with
  | Ok pairs => Current (map (fun p => mkBoundTool p.1 p.2) pairs)
  | Err drift => Stale drift
  end.
Definition bind_current (lock : ProjectLock) (config : ProjectConfig) : result PError (list BoundTool) :=
  match bind lock config with
  | Current bound => Ok bound
  | Stale drift => perr "" (LockOutOfSync drift)
  end.
Definition is_current (lock : ProjectLock) (config : ProjectConfig) : bool :=
  String.eqb (lm_declaration_hash (pl_metadata lock)) (declaration_hash config) &&
  forallb (fun tool => bool_decide (is_Some (declaration_of config tool))) (pl_tools lock).

(** [tagged_host_leaf], [lenient_host_identifiers], [changed_host_identifiers]. *)
Definition tagged_host_leaf (locked : LockedTool) (declared : PackageRef) (platform : Platform) : result PError PinnedPackageRef :=
  let? leaf := host_leaf locked platform in Ok (pin declared leaf).
Definition lenient_host_identifiers (lock : ProjectLock) (config : option ProjectConfig) (platform : Platform) :
    list (LockedTool * result PError PinnedPackageRef) :=
  match match config with Some config => match declarations lock config with Ok pairs => Some pairs | Err _ => None end | None => None end with
  | Some pairs => map (fun p => (p.1, tagged_host_leaf p.1 p.2 platform)) pairs
  | None => map (fun tool => (tool, let? leaf := host_leaf tool platform in Ok (pin_untagged (lt_repository tool) leaf))) (pl_tools lock)
  end.
Fixpoint collect_identifiers (entries : list (LockedTool * result PError PinnedPackageRef)) : result PError (list (string * PinnedPackageRef)) :=
  match entries with
  | [] => Ok []
  | (tool, identifier) :: rest =>
      let? identifier := identifier in
      let? others := collect_identifiers rest in
      Ok ((lt_group tool, identifier) :: others)
  end.
Definition already_pinned (previous : option ProjectLock) (tool : LockedTool) : bool :=
  match previous with
  | None => false
  | Some previous =>
      existsb (fun old => String.eqb (lt_group old) (lt_group tool) && String.eqb (lt_name old) (lt_name tool) && locked_tool_content_equal old tool)
        (pl_tools previous)
  end.
Definition changed_host_identifiers (lock : ProjectLock) (config : ProjectConfig) (previous : option ProjectLock) (platform : Platform) :
    result PError (list (string * PinnedPackageRef)) :=
  collect_identifiers (List.filter (fun e => negb (already_pinned previous e.1)) (lenient_host_identifiers lock (Some config) platform)).
End Bind.

(** ** The text of a lock *)

(** [struct RawProjectLock] as TOML holds it: the fields serde reads from strings are still strings. *)
Record TextTool : Type := mkTextTool {
  tt_name : string;
  tt_group : string;
  tt_repository : string;
  tt_declared : option string;
  tt_platforms : list (string * string);
}.
Record TextLock : Type := mkTextLock { tl_metadata : LockMetadata; tl_tools : list TextTool }.
(** [toml::from_str] at [LockVersionPeek] and at the document, [toml::to_string_pretty], and
    [bump_timestamp_one_second], which is the time library's. *)
Class LockLib : Type := {
  toml_lock_version : string -> option N;
  toml_lock : string -> option TextLock;
  toml_lock_text : TextLock -> option string;
  bump_timestamp_one_second : string -> option string;
}.

(** The [Deserialize] of a tool, with those of [PackageRef] and [Digest]. *)
Fixpoint platforms_from (entries : list (string * string)) (platforms : list (string * Digest)) : option (list (string * Digest)) :=
  match entries with
  | [] => Some platforms
  | (key, text) :: rest =>
      match digest_try_from text with
      | Ok digest => platforms_from rest (om_insert key digest platforms)
      | Err _ => None
      end
  end.
Definition raw_tool_from (tool : TextTool) : option (PackageRef * TextTool * list (string * Digest)) :=
  match ref_parse (tt_repository tool) with
  | Ok repository => (fun platforms => (repository, tool, platforms)) <$> platforms_from (tt_platforms tool) []
  | Err _ => None
  end.
(** [RawProjectLock::into_lock]. *)
Fixpoint into_tools (path : string) (raws : list (PackageRef * TextTool * list (string * Digest))) : result PError (list LockedTool) :=
  match raws with
  | [] => Ok []
  | (repository, tool, platforms) :: rest =>
      if bool_decide (is_Some (pr_tag repository)) || bool_decide (is_Some (pr_digest repository))
      then perr path (LockRepositoryNotBare (ref_display repository))
      else
        let? tools := into_tools path rest in
        Ok (mkLockedTool (tt_name tool) (tt_group tool) (repository_from repository) (tt_declared tool) platforms :: tools)
  end.

(** [ProjectLock::validate]. *)
Fixpoint validate_tools (version : LockVersion) (path : string) (tools : list LockedTool) : result PError unit :=
  match tools with
  | [] => Ok tt
  | tool :: rest =>
      let? _ := result_map_err (fun kind => ProjectFailed (mkProjectError path kind)) (validate_canonical_platform_keys (map fst (lt_platforms tool))) in
      if negb (Bool.eqb (bool_decide (is_Some (lt_declared tool))) (bool_decide (version = LockV4)))
      then perr path (LockDeclaredMismatch (lt_group tool) (lt_name tool) (lock_version_number version))
      else validate_tools version path rest
  end.
Definition validate_lock (lock : ProjectLock) (path : string) : result PError unit :=
  if negb (lm_declaration_hash_version (pl_metadata lock) =? DECLARATION_HASH_VERSION)%N
  then perr path (UnsupportedDeclarationHashVersion (lm_declaration_hash_version (pl_metadata lock)))
  else validate_tools (lm_lock_version (pl_metadata lock)) path (pl_tools lock).

Section Text.
Context `{!LockLib}.

(** [ProjectLock::from_str_with_path]. *)
Definition lock_from_str (s path : string) : result PError ProjectLock :=
  match toml_lock_version s with
  | None => perr path TomlParse
  | Some found =>
      if negb (existsb (N.eqb found) SUPPORTED_LOCK_VERSIONS) then perr path (UnsupportedLockVersion found)
      else match toml_lock s with
      | None => perr path TomlParse
      | Some text =>
          match mapM raw_tool_from (tl_tools text) with
          | None => perr path TomlParse
          | Some raws =>
              let? tools := into_tools path raws in
              let lock := mkProjectLock (tl_metadata text) tools in
              let? _ := validate_lock lock path in
              Ok lock
          end
      end
  end.

(** [ProjectLock::to_toml_string], with the [Serialize] of [Repository] and [Digest]. *)
Definition repository_display (r : Repository) : string := rp_registry r +:+ "/" +:+ rp_repository r.
Definition text_tool (tool : LockedTool) : TextTool :=
  mkTextTool (lt_name tool) (lt_group tool) (repository_display (lt_repository tool)) (lt_declared tool)
    (map (fun e => (e.1, digest_display e.2)) (lt_platforms tool)).
Definition to_toml_string (lock : ProjectLock) : result PError string :=
  let? _ := validate_lock lock "" in
  match toml_lock_text (mkTextLock (pl_metadata lock) (map text_tool (sort_tools (pl_tools lock)))) with
  | Some text => Ok text
  | None => perr "" TomlSerialize
  end.

(** The timestamp [ProjectLock::save] writes. *)
Definition with_generated_at (lock : ProjectLock) (generated_at : string) : ProjectLock :=
  let m := pl_metadata lock in
  mkProjectLock (mkLockMetadata (lm_lock_version m) (lm_declaration_hash_version m) (lm_declaration_hash m) (lm_generated_by m) generated_at) (pl_tools lock).
Definition stamp_for_save (lock : ProjectLock) (previous : option ProjectLock) : ProjectLock :=
  match previous with
  | None => lock
  | Some prev =>
      let prev_at := lm_generated_at (pl_metadata prev) in
      if tools_content_equal (pl_tools lock) (pl_tools prev) then with_generated_at lock prev_at
      else if negb (ord_ltb prev_at (lm_generated_at (pl_metadata lock)))
           then with_generated_at lock (default (lm_generated_at (pl_metadata lock)) (bump_timestamp_one_second prev_at))
      else lock
  end.
End Text.

(** ** Resolution *)

(** [Duration], in nanoseconds; [saturating_mul]. *)
Definition DURATION_MAX : N := 18446744073709551615 * 1000000000 + 999999999.
Definition saturating_double (d : N) : N := N.min (d * 2) DURATION_MAX.
(** [struct ResolveLockOptions] and its default. *)
Record ResolveLockOptions : Type := mkResolveOptions { ro_per_tool_timeout : N; ro_retry_attempts : nat; ro_initial_backoff : N }.
Definition default_options : ResolveLockOptions := mkResolveOptions 30000000000 2 1000000000.

(** [enum ClientFailure], [classify]. *)
Inductive ClientFailure : Type := FailTransient | FailAuth | FailNotFound | FailOther.
Fixpoint classify (client : ClientError) : ClientFailure :=
  match client with
  | Mirrored _ _ _ source => classify source
  | RegistryError | RegistryTransient | IoFailed _ | ShortBlobRead _ _ => FailTransient
  | Authentication => FailAuth
  | ManifestNotFound _ | BlobNotFound _ | RepositoryNotFound _ => FailNotFound
  | _ => FailOther
  end.
(** The first client error below [Error::source], which passes over the transparent wrappers. *)
Fixpoint client_in_chain (error : IndexError) : option ClientError :=
  match error with
  | OciClientFailed (Mirrored _ _ _ source) => Some source
  | SourceWalkFailed cause | SourceFetchFailed cause => client_in_chain cause
  | SingleflightFailed (Some leader) => client_in_chain leader
  | _ => None
  end.
Definition classify_chain (error : IndexError) : ClientFailure :=
  match client_in_chain error with Some client => classify client | None => FailOther end.
(** [classify_index_error], [classify_client_error], [policy_block_label]. *)
Fixpoint classify_index_error (error : IndexError) : ClientFailure :=
  match error with
  | OciClientFailed client => classify client
  | SourceWalkFailed cause => classify_index_error cause
  | other => classify_chain other
  end.
Definition classify_client_error (err : FetchError) : ClientFailure :=
  match err with
  | FetchClient client => classify client
  | FetchIndex (SourceWalkFailed cause) => classify_index_error cause
  | FetchIndex error => classify_chain error
  | FetchFile _ _ => FailOther
  end.
Definition policy_block_label (err : FetchError) : option (string * PolicyBlock) :=
  match err with
  | FetchIndex (PolicyResolutionBlocked _ policy block) => Some (policy, block)
  | _ => None
  end.

(** [guard_unique_key], [build_platforms_map]. *)
Definition guard_unique_key (map : list (string * Digest)) (key : string) (digest : Digest) : result PError (list (string * Digest)) :=
  match om_get key map with
  | Some _ => perr "" (DuplicatePlatformKey key)
  | None => Ok (om_insert key digest map)
  end.
Fixpoint insert_candidates (candidates : list (PackageRef * Platform)) (map : list (string * Digest)) : result PError (list (string * Digest)) :=
  match candidates with
  | [] => Ok map
  | (candidate, platform) :: rest =>
      match pr_digest candidate with
      | Some digest => let? map := guard_unique_key map (platform_display platform) digest in insert_candidates rest map
      | None => insert_candidates rest map
      end
  end.
Definition build_platforms_map (candidates : list (PackageRef * Platform)) : result PError (list (string * Digest)) :=
  let? map := insert_candidates candidates [] in
  let? _ := result_map_err (fun kind => ProjectFailed (mkProjectError "" kind)) (validate_canonical_platform_keys (om_keys map)) in
  Ok map.

(** ** What is to be resolved *)

(** [normalize_groups]. *)
Fixpoint normalize_into (config : ProjectConfig) (groups out : list string) : result PError (list string) :=
  match groups with
  | [] => Ok out
  | raw :: rest =>
      if String.eqb raw "" then perr "" EmptyGroupFilter
      else if negb (String.eqb raw DEFAULT_GROUP) && negb (bool_decide (is_Some (om_get raw (pc_groups config)))) then perr "" (UnknownGroup raw)
      else normalize_into config rest (if existsb (String.eqb raw) out then out else (out ++ [raw])%list)
  end.
Definition normalize_groups (groups : list string) (config : ProjectConfig) : result PError (option (list string)) :=
  match groups with
  | [] => Ok None
  | _ => let? out := normalize_into config groups [] in Ok (Some out)
  end.

(** A binding to resolve, and [collect_work]. *)
Definition Work : Type := string * string * PackageRef.
Definition work_key (work : Work) : Key := work.1.
Definition selects (selected : option (list string)) (group : string) : bool :=
  match selected with None => true | Some s => existsb (fun g => String.eqb g group) s end.
Definition group_work (group : string) (tools : list (string * PackageRef)) : list Work := map (fun e => (group, e.1, e.2)) tools.
Definition collect_work (config : ProjectConfig) (selected : option (list string)) : list Work :=
  ((if selects selected DEFAULT_GROUP then group_work DEFAULT_GROUP (pc_tools config) else []) ++
   concat (map (fun e => if selects selected e.1 then group_work e.1 (gr_tools e.2) else []) (pc_groups config)))%list.

Definition key_mem (key : Key) (keys : list Key) : bool := existsb (ord_eqb key) keys.
(** The recorded spelling is not the declared one. *)
Definition spelling_moved (tool : option LockedTool) (identifier : PackageRef) : bool :=
  match tool ≫= lt_declared with
  | Some declared => negb (String.eqb declared (ref_display identifier))
  | None => false
  end.
(** [expand_touched]. *)
Definition shared_names (config : ProjectConfig) (keys : list Key) : list string :=
  map snd (List.filter (fun key => String.eqb key.1 DEFAULT_GROUP || is_follower config key.1 key.2) keys).
Definition family (config : ProjectConfig) (name : string) : list Key :=
  ((if bool_decide (is_Some (om_get name (pc_tools config))) then [(DEFAULT_GROUP, name)] else []) ++
   map (fun e => (e.1, name)) (List.filter (fun e => os_mem name (gr_inherited e.2)) (pc_groups config)))%list.
Definition expand_touched (config : ProjectConfig) (previous : option ProjectLock) (touched : list Key) : list Key :=
  let moved :=
    match previous with
    | Some previous => map work_key (List.filter (fun work => spelling_moved (find_tool (pl_tools previous) (work_key work)) work.2) (collect_work config None))
    | None => []
    end in
  let set := os_extend (os_of_list touched) moved in
  os_extend set (concat (map (family config) (shared_names config set))).

Section Resolve.
Context `{!ProjectLib} {W : Type}.

(** The two reads of [Index] a resolution makes. *)
Record Index : Type := mkIndex {
  ix_fetch_manifest_digest : PackageRef -> io W IndexError (option Digest);
  ix_fetch_candidates : PackageRef -> io W IndexError (option (list (PackageRef * Platform)));
}.
(** [tokio::time::timeout], [sleep], [chrono::Utc::now] as text, and the version this build writes. *)
Class ResolveClock : Type := {
  with_timeout : forall A, N -> io W PError A -> io W PError (option A);
  clock_sleep : N -> W -> W;
  utc_now : W -> string;
  generated_by : string;
}.
Context `{!ResolveClock}.
Implicit Types (index : Index) (config : ProjectConfig) (options : ResolveLockOptions) (w : W).

(** [retry_fetch]: [retries] is what is left of the budget. *)
Definition unreachable (identifier : PackageRef) (err : FetchError) : PError :=
  ProjectFailed (mkProjectError "" (RegistryUnreachable identifier err)).
Fixpoint retry_fetch_loop index (identifier : PackageRef) (retries : nat) (backoff : N) : io W PError Digest := fun w =>
  let '(answer, w) := ix_fetch_manifest_digest index identifier w in
  match answer with
  | Ok (Some digest) => (Ok digest, w)
  | Ok None => (perr "" (TagNotFound identifier), w)
  | Err error =>
      let err := fetch_error error in
      match policy_block_label err with
      | Some (policy, block) => (perr "" (PolicyBlocked identifier policy block), w)
      | None =>
          match classify_client_error err, retries with
          | FailTransient, S retries => retry_fetch_loop index identifier retries (saturating_double backoff) (clock_sleep backoff w)
          | FailTransient, O => (Err (unreachable identifier err), w)
          | FailAuth, _ => (perr "" (AuthFailure identifier err), w)
          | FailNotFound, _ => (perr "" (TagNotFound identifier), w)
          | FailOther, _ => (Err (unreachable identifier err), w)
          end
      end
  end.
Definition retry_fetch index (identifier : PackageRef) options : io W PError Digest :=
  retry_fetch_loop index identifier (ro_retry_attempts options) (ro_initial_backoff options).

(** [candidate_fetch_error], [fan_out_candidates], [resolve_to_platforms], [resolve_one]. *)
Definition candidate_fetch_error (identifier : PackageRef) (error : IndexError) : PError :=
  let err := fetch_error error in
  match policy_block_label err with
  | Some (policy, block) => ProjectFailed (mkProjectError "" (PolicyBlocked identifier policy block))
  | None => unreachable identifier err
  end.
Definition fan_out_candidates index (identifier : PackageRef) : io W PError (list (string * Digest)) :=
  let! candidates := io_map_err (candidate_fetch_error identifier) (ix_fetch_candidates index identifier) in
  match candidates with
  | Some ((_ :: _) as children) => io_of (build_platforms_map children)
  | _ => io_of (perr "" (TagNotFound identifier))
  end.
Definition resolve_to_platforms index (identifier : PackageRef) options : io W PError (list (string * Digest)) :=
  let! _ := retry_fetch index identifier options in fan_out_candidates index identifier.
Definition resolve_one index options (work : Work) : io W PError LockedTool :=
  let '(group, name, identifier) := work in
  let! platforms := with_timeout _ (ro_per_tool_timeout options) (resolve_to_platforms index identifier options) in
  match platforms with
  | Some platforms => io_ret (mkLockedTool name group (repository_from identifier) None platforms)
  | None => io_of (perr "" (ResolveTimeout identifier))
  end.

(** [resolve_work]: the tasks joined as they end, then the followers of what was resolved. *)
Fixpoint join_tools (schedule : nat -> nat) (fuel : nat) index options (tasks : list Work) (resolved : list LockedTool) : io W PError (list LockedTool) :=
  match fuel with
  | O => io_ret resolved
  | S fuel' =>
      match tasks !! (schedule fuel' `mod` length tasks)%nat with
      | None => io_ret resolved
      | Some task =>
          let! tool := resolve_one index options task in
          join_tools schedule fuel' index options (delete (schedule fuel' `mod` length tasks)%nat tasks) (resolved ++ [tool])
      end
  end.
Definition add_follower (resolved : list LockedTool) (follower : Work) : list LockedTool :=
  match find_tool resolved (DEFAULT_GROUP, follower.1.2) with
  | Some source => (resolved ++ [in_group follower.1.1 source])%list
  | None => resolved
  end.
Definition follows_work config (work : list Work) (item : Work) : bool :=
  is_follower config item.1.1 item.1.2 &&
  existsb (fun source => String.eqb source.1.1 DEFAULT_GROUP && String.eqb source.1.2 item.1.2) work.
Definition resolve_work (schedule : nat -> nat) index options config (work : list Work) : io W PError (list LockedTool) :=
  let followers := List.filter (follows_work config work) work in
  let tasks := List.filter (fun item => negb (follows_work config work item)) work in
  let! resolved := join_tools schedule (length tasks) index options tasks [] in
  io_ret (fold_left add_follower followers resolved).

(** [build_lock]; the clock is read. *)
Definition stamp_declared config (tool : LockedTool) : LockedTool :=
  mkLockedTool (lt_name tool) (lt_group tool) (lt_repository tool) (ref_display <$> declared_identifier config (lt_group tool) (lt_name tool)) (lt_platforms tool).
Definition build_lock (tools : list LockedTool) config : io W PError ProjectLock := fun w =>
  (Ok (mkProjectLock (mkLockMetadata LockV4 DECLARATION_HASH_VERSION (declaration_hash config) generated_by (utc_now w)) (map (stamp_declared config) tools)), w).

(** [resolve_lock]. *)
Definition resolve_lock (schedule : nat -> nat) config index (groups : list string) options : io W PError ProjectLock :=
  let! selected := io_of (normalize_groups groups config) in
  let! resolved := resolve_work schedule index options config (collect_work config selected) in
  build_lock (sort_tools resolved) config.

(** [merge_carry_forward]. *)
Definition merge_carry_forward (previous resolved : list LockedTool) config : list LockedTool :=
  let new_keys := map tool_key resolved in
  sort_tools (List.filter (fun tool => bool_decide (is_Some (declared_identifier config (lt_group tool) (lt_name tool))))
    (List.filter (fun tool => negb (key_mem (tool_key tool) new_keys)) previous) ++ resolved)%list.

(** [validate_predecessor_coherence]. *)
Definition stale_hash (previous : ProjectLock) config : PError :=
  ProjectFailed (mkProjectError "" (LockOutOfSync (DriftDeclarationHash (lm_declaration_hash (pl_metadata previous)) (declaration_hash config)))).
Fixpoint collect_carried (touched : list Key) (tools : list LockedTool) (carried : list (Key * LockedTool)) : option (list (Key * LockedTool)) :=
  match tools with
  | [] => Some carried
  | tool :: rest =>
      let key := tool_key tool in
      if key_mem key touched then collect_carried touched rest carried
      else match om_get key carried with
           | Some _ => None
           | None => collect_carried touched rest (om_insert key tool carried)
           end
  end.
Fixpoint check_carried config (previous : ProjectLock) (touched : list Key) (carried : list (Key * LockedTool)) (work : list Work) : result PError unit :=
  match work with
  | [] => Ok tt
  | (group, name, declared) :: rest =>
      if key_mem (group, name) touched then check_carried config previous touched carried rest
      else match om_get (group, name) carried with
      | None => Err (stale_hash previous config)
      | Some tool =>
          if bool_decide (lt_repository tool = repository_from declared) then check_carried config previous touched carried rest
          else perr "" (LockOutOfSync (DriftEntry group name (lt_repository tool) (Some (repository_from declared))))
      end
  end.
Definition validate_predecessor_coherence config (previous : ProjectLock) (touched : list Key) : result PError unit :=
  match collect_carried touched (pl_tools previous) [] with
  | None => Err (stale_hash previous config)
  | Some carried => check_carried config previous touched carried (collect_work config None)
  end.

(** [resolve_lock_touched]. *)
Fixpoint touched_work config (touched seen : list Key) : result PError (list Work) :=
  match touched with
  | [] => Ok []
  | key :: rest =>
      if key_mem key seen then touched_work config rest seen
      else match declared_identifier config key.1 key.2 with
      | None => perr "" (ToolNotInConfig key.2)
      | Some identifier =>
          let? work := touched_work config rest (key :: seen) in
          Ok ((key, identifier) :: work)
      end
  end.
Definition resolve_lock_touched (schedule : nat -> nat) (candidate pre_mutation : ProjectConfig) (previous : ProjectLock) index (touched : list Key) options :
    io W PError ProjectLock :=
  if negb (String.eqb (lm_declaration_hash (pl_metadata previous)) (declaration_hash pre_mutation))
  then io_fail (stale_hash previous pre_mutation)
  else
    let touched := expand_touched candidate (Some previous) touched in
    let! _ := io_of (validate_predecessor_coherence candidate previous touched) in
    let! work := io_of (touched_work candidate touched []) in
    let! resolved := resolve_work schedule index options candidate work in
    build_lock (merge_carry_forward (pl_tools previous) resolved candidate) candidate.

(** [resolve_lock_reconcile]. *)
Definition v3_drifted config (previous : option ProjectLock) : bool :=
  match previous with
  | Some prev => bool_decide (lm_lock_version (pl_metadata prev) = LockV3) && negb (is_current prev config)
  | None => false
  end.
Definition carried_tools (previous : option ProjectLock) : list LockedTool := match previous with Some prev => pl_tools prev | None => [] end.
Definition binding_changed config (previous : option ProjectLock) (work : Work) : bool :=
  match find_tool (carried_tools previous) (work_key work) with
  | None => true
  | Some tool => v3_drifted config previous || negb (bool_decide (lt_repository tool = repository_from work.2)) || spelling_moved (Some tool) work.2
  end.
Definition reconcile_seed config (previous : option ProjectLock) (forced : list Key) : list Key :=
  map work_key (List.filter (fun work => key_mem (work_key work) forced || binding_changed config previous work) (collect_work config None)).
Definition adopts config (previous : option ProjectLock) (forced seed : list Key) (key : Key) : bool :=
  is_follower config key.1 key.2 && negb (key_mem key forced) && negb (key_mem (DEFAULT_GROUP, key.2) seed) &&
  bool_decide (is_Some (find_tool (carried_tools previous) (DEFAULT_GROUP, key.2))).
Definition resolve_lock_reconcile (schedule : nat -> nat) config (previous : option ProjectLock) index (forced : list Key) options :
    io W PError (ProjectLock * list Key) :=
  let seed := reconcile_seed config previous forced in
  let adopting := List.filter (adopts config previous forced seed) seed in
  let moving := expand_touched config previous (List.filter (fun key => negb (adopts config previous forced seed key)) seed) in
  let work := List.filter (fun work => key_mem (work_key work) moving) (collect_work config None) in
  let! resolved := resolve_work schedule index options config work in
  let adopted := omap (fun key => in_group key.1 <$> find_tool (carried_tools previous) (DEFAULT_GROUP, key.2)) adopting in
  let! lock := build_lock (merge_carry_forward (carried_tools previous) (resolved ++ adopted) config) config in
  io_ret (lock, (map work_key work ++ adopting)%list).
End Resolve.
Arguments Index : clear implicits.
Arguments ResolveClock : clear implicits.

(** The index of a command is the chain. *)
Section ChainIndex.
Context `{U : OciSpec} `{!Codec} `{!RootCodec Bytes} `{!IndexCodec} {W : Type} `{!IndexDisk W} `{!IndexProcess (W := W)} `{!NetLib W}.
Context `{!ChainProcess (W := W)} (text : NativePlatform -> string).
Definition chain_index (chain : ChainedIndex (W := W)) : Index W :=
  mkIndex (fun identifier => chain_fetch_manifest_digest chain identifier Resolve) (fun identifier => fetch_candidates text chain identifier Resolve).
End ChainIndex.
