(* ===== verification/LockSpec.v ===== *)
(** * What a lock promises

    A lock is faithful to a project file when it holds exactly one entry for every binding the
    file declares, from the declared repository and under the declared spelling, in order and
    fit to be written, and when a [{ from = "default" }] binding has the pin of its source.  The
    resolutions of [ProjectLock.v] keep it, whatever the index answers and in whatever order the
    tasks end, and move no pin they were not asked to move.  Then what a host takes from a lock
    is what it would take from the index, and a lock that is written is read back. *)

From stdpp Require Import base decidable list option numbers strings gmap.
From Stdlib Require Import Lia Ascii.
From S2P Require Import Prelude OMap Text Digest PackageRef Platform Registry Store Clean IndexStore.
From S2P Require Import RootMerge Ssrf LocalIndex IndexChain ChainSpec IndexSelect ConfigLoad ProjectConfig ProjectLock.
Local Open Scope ocx_scope.
Local Open Scope string_scope.

(** ** Keys *)

Definition declared_keys (config : ProjectConfig) : list Key := map work_key (collect_work config None).

Lemma key_mem_In key keys : key_mem key keys = true <-> In key keys.
Proof. apply (os_mem_In key keys). Qed.
Lemma key_mem_false key keys : key_mem key keys = false <-> ~ In key keys.
Proof. by rewrite <- key_mem_In, not_true_iff_false. Qed.
Lemma find_tool_Some tools key t : find_tool tools key = Some t -> In t tools /\ tool_key t = key.
Proof.
  intros [Hin Hk]%find_some. split; [done|]. apply andb_true_iff in Hk as [Hg%String.eqb_eq Hn%String.eqb_eq]. destruct key. unfold tool_key. simpl in *. congruence.
Qed.
Lemma find_tool_None tools key : find_tool tools key = None <-> ~ In key (map tool_key tools).
Proof.
  split.
  - intros Hf (t & <- & Hin)%in_map_iff. eapply find_none in Hf; [|exact Hin]. simpl in Hf. by rewrite !String.eqb_refl in Hf.
  - intros Hn. destruct (find_tool tools key) as [t|] eqn:E; [|done]. apply find_tool_Some in E as [Hin <-]. exfalso. apply Hn. by apply in_map.
Qed.
Lemma In_unique tools t t' : List.NoDup (map tool_key tools) -> In t tools -> In t' tools -> tool_key t = tool_key t' -> t = t'.
Proof.
  induction tools as [|x tools IH]; simpl; [done|]. intros [Hx Hnd]%NoDup_cons_iff [->|Hi] [->|Hi'] E; [done| | |by apply IH];
    exfalso; apply Hx; [rewrite E|rewrite <- E]; by apply in_map.
Qed.
Lemma find_tool_In tools t : List.NoDup (map tool_key tools) -> In t tools -> find_tool tools (tool_key t) = Some t.
Proof.
  intros Hnd Hin. destruct (find_tool tools (tool_key t)) as [t'|] eqn:E.
  - apply find_tool_Some in E as [Hin' E]. f_equal. by eapply In_unique.
  - apply find_tool_None in E. exfalso. apply E. by apply in_map.
Qed.

Lemma collect_work_In config group name id : config_wf config ->
  In (group, name, id) (collect_work config None) <-> declared_identifier config group name = Some id.
Proof.
  intros Hwf. unfold collect_work, declared_identifier. simpl. rewrite in_app_iff. unfold group_work. split.
  - intros [([n i] & [= <- -> ->] & Hin)%in_map_iff|Hin].
    + simpl. apply om_get_In; [apply Hwf|done].
    + apply in_concat in Hin as (l & ([g body] & <- & Hb)%in_map_iff & ([n i] & [= -> -> ->] & Hin)%in_map_iff). simpl in *.
      rewrite (proj2 (String.eqb_neq _ _) (cw_named _ Hwf _ _ Hb)). rewrite (proj2 (om_get_In _ _ _ (cw_groups _ Hwf)) Hb). simpl.
      apply om_get_In; [apply (cw_group _ Hwf _ _ Hb)|done].
  - destruct (String.eqb group DEFAULT_GROUP) eqn:E.
    + apply String.eqb_eq in E as ->. intros Hg. left. apply in_map_iff. exists (name, id). split; [done|]. by apply om_get_In_1.
    + destruct (om_get group (pc_groups config)) as [body|] eqn:Eb; simpl; [|done]. intros Hg. right. apply in_concat.
      exists (group_work group (gr_tools body)). split.
      * apply in_map_iff. exists (group, body). split; [done|]. by apply om_get_In_1.
      * apply in_map_iff. exists (name, id). split; [done|]. by apply om_get_In_1.
Qed.
Lemma declared_keys_In config key : config_wf config -> In key (declared_keys config) <-> is_Some (declared_identifier config key.1 key.2).
Proof.
  intros Hwf. unfold declared_keys. rewrite in_map_iff. destruct key as [group name]. simpl. split.
  - intros ([[g n] id] & [= <- <-] & Hin). apply collect_work_In in Hin; [eauto|done].
  - intros [id Hd]. exists (group, name, id). split; [done|]. by apply collect_work_In.
Qed.
Lemma NoDup_map_inj {A B : Type} (f : A -> B) l : (forall x y, f x = f y -> x = y) -> List.NoDup l -> List.NoDup (map f l).
Proof. intros Hf. induction 1 as [|x l Hx Hl IH]; simpl; constructor; [|done]. intros (y & E%Hf & Hy)%in_map_iff. by subst. Qed.
Lemma group_keys_NoDup group tools : om_wf tools -> List.NoDup (map work_key (group_work group tools)).
Proof.
  intros Ht. unfold group_work. rewrite map_map. simpl. apply os_wf_NoDup in Ht. unfold om_keys in Ht.
  apply (NoDup_map_inj (pair group)) in Ht; [|by intros ? ? [=]]. by rewrite map_map in Ht.
Qed.
Lemma NoDup_app_disjoint {A : Type} (l k : list A) : List.NoDup l -> List.NoDup k -> (forall x, In x l -> ~ In x k) -> List.NoDup (l ++ k)%list.
Proof.
  induction 1 as [|x l Hx Hl IH]; intros Hk Hd; simpl; [done|]. constructor.
  - rewrite in_app_iff. intros [?|?]; [done|]. eapply Hd; [by left|done].
  - apply IH; [done|]. intros y Hy. apply Hd. by right.
Qed.
Lemma declared_keys_NoDup config : config_wf config -> List.NoDup (declared_keys config).
Proof.
  intros Hwf. unfold declared_keys, collect_work. simpl. rewrite map_app. apply NoDup_app_disjoint.
  - apply group_keys_NoDup, Hwf.
  - rewrite concat_map, map_map. pose proof (cw_group _ Hwf) as Hb. pose proof (cw_groups _ Hwf) as Hg%os_wf_NoDup. clear Hwf.
    induction (pc_groups config) as [|[g body] groups IH]; simpl; [constructor|]. apply NoDup_cons_iff in Hg as [Hx Hg]. apply NoDup_app_disjoint.
    + apply group_keys_NoDup. destruct (Hb g body) as [Ht _ _]; [by left|done].
    + apply IH; [|done]. intros ? ? Hin. eapply Hb. by right.
    + intros key (w & <- & ([n i] & <- & _)%in_map_iff)%in_map_iff (l & ([g' b'] & <- & Hin)%in_map_iff & Hk)%in_concat.
      apply in_map_iff in Hk as (w' & E & ([n' i'] & <- & _)%in_map_iff). injection E as -> ->. apply Hx. by apply (in_map fst) in Hin.
  - intros key (w & <- & ([n i] & <- & _)%in_map_iff)%in_map_iff (w' & E & Hin)%in_map_iff.
    apply in_concat in Hin as (l & ([g' b'] & <- & Hb)%in_map_iff & ([n' i'] & <- & _)%in_map_iff). injection E as E _. by apply (cw_named _ Hwf _ _ Hb).
Qed.

(** ** A list of tools that covers the declarations *)

Lemma sort_tools_perm tools : Permutation (sort_tools tools) tools.
Proof. apply sort_by_perm. Qed.
Lemma sort_tools_keys tools : map tool_key (sort_tools tools) = ord_sort (map tool_key tools).
Proof.
  unfold sort_tools, ord_sort, sort_by. induction tools as [|t tools IH]; simpl; [done|]. rewrite <- IH. generalize (foldr (sort_insert (fun a b => ord_cmp (tool_key a) (tool_key b))) [] tools).
  intros l. induction l as [|x l IHl]; simpl; [done|]. by destruct (ord_cmp (tool_key t) (tool_key x)); simpl; rewrite ?IHl.
Qed.
Lemma sorted_NoDup_wf {K : Type} `{TotalOrd K} (l : list K) : le_sorted l -> List.NoDup l -> os_wf l.
Proof.
  induction 1 as [|x l Hs IH Hx]; intros Hnd; [constructor|]. apply NoDup_cons_iff in Hnd as [Hn Hnd]. constructor; [by apply IH|].
  apply List.Forall_forall. intros y Hy. rewrite List.Forall_forall in Hx. specialize (Hx y Hy). destruct (ord_cmp x y) eqn:E; [|done|].
  - apply ord_cmp_eq in E as ->. done.
  - exfalso. apply Hx. by rewrite ord_cmp_opp, E.
Qed.
Lemma ord_sort_set {K : Type} `{TotalOrd K} (l keys : list K) : List.NoDup l -> (forall k, In k l <-> In k keys) -> ord_sort l = os_of_list keys.
Proof.
  intros Hnd Hk. apply os_ext; [|apply os_of_list_wf|].
  - apply sorted_NoDup_wf; [apply ord_sort_sorted|]. eapply Permutation_NoDup; [symmetry; apply sort_by_perm|done].
  - intros k. rewrite os_of_list_In, <- Hk. unfold ord_sort. by rewrite sort_by_In.
Qed.

(** ** What is resolved *)

(** The content of an entry: where it is from and what it pins. *)
Definition same_pin (t s : LockedTool) : Prop := lt_repository t = lt_repository s /\ lt_platforms t = lt_platforms s.
Lemma same_pin_equal t s : locked_tool_content_equal t s = true <-> same_pin t s.
Proof. unfold locked_tool_content_equal. by rewrite andb_true_iff, !bool_decide_eq_true. Qed.
(** Its platforms are a map with canonical keys. *)
Definition platforms_ok (platforms : list (string * Digest)) : Prop :=
  om_wf platforms /\ validate_canonical_platform_keys (map fst platforms) = Ok tt.
(** An entry as the declaration asks for it. *)
Definition pins_declared (config : ProjectConfig) (t : LockedTool) : Prop :=
  (exists id, declared_identifier config (lt_group t) (lt_name t) = Some id /\ lt_repository t = repository_from id) /\ platforms_ok (lt_platforms t).

Section ResolveSpec.
Context `{!ProjectLib} {W : Type} `{!ResolveClock W}.

(** [tokio::time::timeout] gives the value of the future it ran. *)
Class TimerOk : Prop := {
  with_timeout_ok : forall A d (m : io W PError A) w a w', with_timeout A d m w = (Ok (Some a), w') -> m w = (Ok a, w');
}.
Context `{!TimerOk}.
Implicit Types (index : Index W) (config : ProjectConfig).

Definition resolves (item : Work) (t : LockedTool) : Prop :=
  tool_key t = work_key item /\ lt_repository t = repository_from item.2 /\ platforms_ok (lt_platforms t).

Lemma insert_candidates_wf candidates : forall map map', om_wf map -> insert_candidates candidates map = Ok map' -> om_wf map'.
Proof.
  induction candidates as [|[c p] candidates IH]; intros map map' Hm; simpl; [by intros [= <-]|]. destruct (pr_digest c) as [d|]; [|by apply IH].
  unfold guard_unique_key. destruct (om_get _ map); simpl; [done|]. apply IH. by apply om_insert_wf.
Qed.
Lemma build_platforms_map_ok candidates platforms : build_platforms_map candidates = Ok platforms -> platforms_ok platforms.
Proof.
  unfold build_platforms_map. destruct (insert_candidates candidates []) as [map|] eqn:E; simpl; [|done].
  destruct (validate_canonical_platform_keys (om_keys map)) as [[]|] eqn:Ev; simpl; [|done]. intros [= <-]. split; [|done].
  eapply insert_candidates_wf, E. constructor.
Qed.
Lemma resolve_one_ok index options item w t w' : resolve_one index options item w = (Ok t, w') -> resolves item t.
Proof.
  destruct item as [[group name] id]. intros ([platforms|] & w1 & Ht & Hx)%io_bind_ok; [|done]. injection Hx as <- <-. split; [done|split; [done|]]. simpl.
  apply with_timeout_ok in Ht. apply io_bind_ok in Ht as (d & w2 & _ & Hf). unfold fan_out_candidates in Hf.
  apply io_bind_ok in Hf as (candidates & w3 & _ & Hb). destruct candidates as [[|c cs]|]; [done| |done]. injection Hb as Hb _.
  by eapply build_platforms_map_ok.
Qed.
Lemma join_tools_ok schedule fuel index options : forall tasks resolved w out w', length tasks = fuel ->
  join_tools schedule fuel index options tasks resolved w = (Ok out, w') ->
  exists order done_, Permutation order tasks /\ Forall2 resolves order done_ /\ out = (resolved ++ done_)%list.
Proof.
  induction fuel as [|fuel IH]; intros tasks resolved w out w' Hlen; simpl.
  { intros [= <- <-]. apply nil_length_inv in Hlen as ->. exists [], []. split_and!; [done|constructor|by rewrite app_nil_r]. }
  assert (Hpos : (schedule fuel `mod` length tasks < length tasks)%nat) by (apply Nat.mod_upper_bound; lia).
  destruct (lookup_lt_is_Some_2 tasks _ Hpos) as [task Htask]. rewrite Htask. intros (t & w1 & Ht & Hx)%io_bind_ok.
  apply IH in Hx as (order & done_ & Hp & Hf & ->).
  - exists (task :: order), (t :: done_). split_and!; [|constructor; [by eapply resolve_one_ok|done]|by rewrite <- app_assoc].
    rewrite Hp. symmetry. by apply delete_Permutation.
  - rewrite length_delete; [lia|]. by eexists.
Qed.

(** The followers of what was resolved are copies of their sources. *)
Lemma find_tool_app tools more key t : find_tool tools key = Some t -> find_tool (tools ++ more)%list key = Some t.
Proof. unfold find_tool. intros Hf. induction tools as [|x tools IH]; simpl in *; [done|]. destruct (_ && _); [done|by apply IH]. Qed.
Definition source_of (tools : list LockedTool) (item : Work) : option LockedTool := find_tool tools (DEFAULT_GROUP, item.1.2).
Lemma add_followers_ok followers : forall tools, (forall f, In f followers -> is_Some (source_of tools f)) ->
  fold_left add_follower followers tools =
  (tools ++ omap (fun f => in_group f.1.1 <$> source_of tools f) followers)%list.
Proof.
  induction followers as [|f followers IH]; intros tools Hs; simpl; [by rewrite app_nil_r|].
  unfold add_follower at 2. fold (source_of tools f). destruct (Hs f) as [s Es]; [by left|]. rewrite Es. simpl. rewrite IH.
  - rewrite <- app_assoc. simpl. f_equal. f_equal. assert (Hrest : forall f', In f' followers -> is_Some (source_of tools f')) by (intros; apply Hs; by right).
    clear IH Hs. induction followers as [|f' followers IHf]; simpl; [done|]. destruct (Hrest f') as [s' Es']; [by left|].
    rewrite Es'. unfold source_of in *. rewrite (find_tool_app _ _ _ _ Es'). simpl. f_equal. apply IHf. intros; apply Hrest; by right.
  - intros f' Hf'. destruct (Hs f') as [s' Es']; [by right|]. exists s'. by apply find_tool_app.
Qed.

Lemma follower_keys tools followers : (forall f, In f followers -> is_Some (source_of tools f)) ->
  map tool_key (omap (fun f => in_group f.1.1 <$> source_of tools f) followers) = map work_key followers.
Proof.
  induction followers as [|f l IH]; intros Hl; simpl; [done|]. destruct (Hl f) as [s Es]; [by left|]. rewrite Es. simpl. f_equal.
  - apply find_tool_Some in Es as [_ Ek]. injection Ek as _ Ek. unfold tool_key, work_key. simpl. rewrite Ek. by destruct f as [[? ?] ?].
  - apply IH. intros; apply Hl; by right.
Qed.
Lemma Forall2_keys order done_ : Forall2 resolves order done_ -> map tool_key done_ = map work_key order.
Proof. induction 1 as [|item t order done_ [Hk _] _ IH]; simpl; [done|]. by rewrite Hk, IH. Qed.
Lemma Forall2_In_r {A B : Type} (P : A -> B -> Prop) l k y : Forall2 P l k -> In y k -> exists x, In x l /\ P x y.
Proof. induction 1 as [|x z l k Hp _ IH]; simpl; [done|]. intros [->|Hin]; [eauto|]. destruct (IH Hin) as (x' & ? & ?). eauto. Qed.

Record work_resolved config (work : list Work) (out : list LockedTool) : Prop := {
  wr_keys : Permutation (map tool_key out) (map work_key work);
  wr_pins : forall t, In t out -> pins_declared config t;
  wr_shared : forall t s, In t out -> In s out -> is_follower config (lt_group t) (lt_name t) = true ->
    tool_key s = (DEFAULT_GROUP, lt_name t) -> same_pin t s;
}.
Lemma filter_partition_perm {A : Type} (p : A -> bool) l : Permutation (List.filter (fun x => negb (p x)) l ++ List.filter p l)%list l.
Proof.
  induction l as [|x l IH]; simpl; [done|]. destruct (p x); simpl; [|by constructor]. rewrite <- Permutation_middle. by constructor.
Qed.
Lemma resolve_work_ok schedule index options config work w out w' : config_wf config -> List.NoDup (map work_key work) ->
  (forall group name id, In (group, name, id) work -> declared_identifier config group name = Some id) ->
  resolve_work schedule index options config work w = (Ok out, w') -> work_resolved config work out.
Proof.
  intros Hwf Hnd Hwork. unfold resolve_work. set (p := follows_work config work). intros (resolved & w1 & Hj & Hx)%io_bind_ok.
  injection Hx as <- <-. apply join_tools_ok in Hj as (order & done_ & Hp & Hf & ->); [|done]. simpl.
  assert (Hkeys : map tool_key done_ = map work_key order) by by apply Forall2_keys.
  assert (Hndt : List.NoDup (map tool_key done_)).
  { rewrite Hkeys, Hp. eapply Permutation_NoDup in Hnd; [|apply Permutation_map; symmetry; apply (filter_partition_perm p)].
    rewrite map_app in Hnd. by apply NoDup_app_remove_r in Hnd. }
  (* the source of a follower is one of the tasks *)
  assert (Hsource : forall f, In f (List.filter p work) -> exists s id, source_of done_ f = Some s /\ resolves (DEFAULT_GROUP, f.1.2, id) s /\
    declared_identifier config DEFAULT_GROUP f.1.2 = Some id).
  { intros f [Hin Hpf]%filter_In. apply andb_true_iff in Hpf as [Hfol He]. apply existsb_exists in He as ([[g n] id] & Hs & Hk). simpl in Hk.
    apply andb_true_iff in Hk as [Hg%String.eqb_eq Hn%String.eqb_eq]. subst g n. destruct (source_of done_ f) as [s|] eqn:Es.
    - pose proof Es as Es'. apply find_tool_Some in Es as [Hins Hks]. destruct (Forall2_In_r _ _ _ _ Hf Hins) as ([[g' n'] id'] & Hino & Hr).
      destruct Hr as (Hk & Hrest). rewrite Hks in Hk. injection Hk as <- <-. exists s, id'. split_and!; [done|by split|].
      apply Hwork. rewrite Hp in Hino. by apply filter_In in Hino as [? _].
    - apply find_tool_None in Es. exfalso. apply Es. rewrite Hkeys. apply in_map_iff. exists (DEFAULT_GROUP, f.1.2, id). split; [done|].
      rewrite Hp. apply filter_In. split; [done|]. unfold p, follows_work. simpl. by rewrite default_not_follower. }
  assert (Hdone : forall t, In t done_ -> pins_declared config t).
  { intros t Hin. destruct (Forall2_In_r _ _ _ _ Hf Hin) as ([[g n] id] & Hino & Hk & Hr & Hpl). split; [|done]. exists id. split; [|done].
    injection Hk as -> ->. apply Hwork. rewrite Hp in Hino. by apply filter_In in Hino as [? _]. }
  assert (Hcopy : forall t, In t (omap (fun f => in_group f.1.1 <$> source_of done_ f) (List.filter p work)) ->
    exists s, In s done_ /\ tool_key s = (DEFAULT_GROUP, lt_name t) /\ same_pin t s /\ pins_declared config t /\ lt_group t <> DEFAULT_GROUP).
  { intros t Hin. apply list_elem_of_In, list_elem_of_omap in Hin as (f & Hin%list_elem_of_In & Hmap). destruct (Hsource f Hin) as (s & id & Es & (Hk & Hr & Hpl) & Hd).
    rewrite Es in Hmap. injection Hmap as <-. apply find_tool_Some in Es as [Hins Hks]. apply filter_In in Hin as [_ Hpf].
    apply andb_true_iff in Hpf as [Hfol _]. destruct (follower_source _ _ _ Hwf Hfol) as (Hg & i & Hdf & Hds). exists s. simpl. injection Hk as Hkg Hkn.
    simpl in *. split_and!; [done|by rewrite Hks, Hkn|done| |done]. split; [|done]. simpl. exists id. rewrite Hkn. split; [congruence|done]. }
  rewrite add_followers_ok by (intros f Hin; destruct (Hsource f Hin) as (s & ? & Es & _); by exists s).
  split.
  - rewrite map_app, Hkeys, Hp. rewrite <- (filter_partition_perm p work) at 3. rewrite map_app. apply Permutation_app_head.
    rewrite follower_keys; [done|]. intros f Hin. destruct (Hsource f Hin) as (s & ? & Es & _). by exists s.
  - intros t [Hin|Hin]%in_app_iff; [by apply Hdone|]. by destruct (Hcopy t Hin) as (s & _ & _ & _ & ? & _).
  - intros t s Ht Hs Hfol Hks. apply in_app_iff in Hs as [Hs|Hs]; [|destruct (Hcopy s Hs) as (? & _ & _ & _ & _ & Hn); by injection Hks].
    apply in_app_iff in Ht as [Ht|Ht].
    + (* a follower whose source is in the work is no task *)
      exfalso. destruct (Forall2_In_r _ _ _ _ Hf Ht) as ([[g n] id] & Hino & Hk & _). injection Hk as Hg Hn. rewrite Hp in Hino.
      apply filter_In in Hino as [_ Hnp]. destruct (Forall2_In_r _ _ _ _ Hf Hs) as ([[g' n'] id'] & Hino' & Hk' & _). rewrite Hks in Hk'.
      injection Hk' as <- <-. rewrite Hp in Hino'. apply filter_In in Hino' as [Hin' _]. apply negb_true_iff in Hnp. revert Hnp. unfold p, follows_work. simpl.
      rewrite <- Hg, <- Hn, Hfol. simpl. apply not_false_iff_true, existsb_exists. exists (DEFAULT_GROUP, lt_name t, id'). split; [done|]. simpl.
      by rewrite !String.eqb_refl.
    + destruct (Hcopy t Ht) as (s' & Hs' & Hks' & Hpin & _). assert (s = s') as ->; [|done]. eapply In_unique; [exact Hndt|done..|congruence].
Qed.
End ResolveSpec.

(** ** Faithful locks *)

(** [{ from = "default" }] bindings share the pin of their source. *)
Definition shares_pins (config : ProjectConfig) (tools : list LockedTool) : Prop :=
  forall t s, In t tools -> In s tools -> is_follower config (lt_group t) (lt_name t) = true -> tool_key s = (DEFAULT_GROUP, lt_name t) -> same_pin t s.

Section Faithful.
Context `{!ProjectLib}.

Record exact_lock (config : ProjectConfig) (lock : ProjectLock) : Prop := {
  el_current : is_current lock config = true;
  el_keys : map tool_key (pl_tools lock) = os_of_list (declared_keys config);
  el_spelled : forall t, In t (pl_tools lock) -> lt_declared t = ref_display <$> declared_identifier config (lt_group t) (lt_name t);
  el_valid : validate_lock lock "" = Ok tt;
  el_platforms : forall t, In t (pl_tools lock) -> platforms_ok (lt_platforms t);
}.
Record faithful (config : ProjectConfig) (lock : ProjectLock) : Prop := {
  fa_exact : exact_lock config lock;
  fa_shared : shares_pins config (pl_tools lock);
}.

Lemma exact_NoDup config lock : exact_lock config lock -> List.NoDup (map tool_key (pl_tools lock)).
Proof. intros He. rewrite (el_keys _ _ He). apply os_wf_NoDup, os_of_list_wf. Qed.
Lemma exact_pins config lock t : exact_lock config lock -> In t (pl_tools lock) -> pins_declared config t.
Proof.
  intros He Hin. split; [|by eapply el_platforms]. pose proof (el_current _ _ He) as Hc. apply andb_true_iff in Hc as [_ Hc].
  rewrite forallb_forall in Hc. specialize (Hc t Hin). apply bool_decide_eq_true in Hc as [id Hd]. exists id. unfold declaration_of in Hd.
  destruct (declared_identifier _ _ _) as [declared|]; [|done]. destruct (_ && _) eqn:E; [|done]. injection Hd as ->. split; [done|].
  apply andb_true_iff in E as [E1%String.eqb_eq E2%String.eqb_eq]. unfold repository_from. rewrite E1, E2. by destruct (lt_repository t).
Qed.
Lemma exact_find config lock key : config_wf config -> exact_lock config lock -> is_Some (declared_identifier config key.1 key.2) <-> is_Some (find_tool (pl_tools lock) key).
Proof.
  intros Hwf He. assert (Hk : is_Some (declared_identifier config key.1 key.2) <-> In key (map tool_key (pl_tools lock))).
  { rewrite <- declared_keys_In by done. rewrite (el_keys _ _ He). by rewrite os_of_list_In. }
  rewrite Hk. pose proof (find_tool_None (pl_tools lock) key) as Hn. destruct (find_tool (pl_tools lock) key) as [t|] eqn:E.
  - apply find_tool_Some in E as [Hin <-]. split; [eauto|]. intros _. by apply in_map.
  - split; [|by intros [? ?]]. tauto.
Qed.

(** *** What is built of resolved and carried entries *)

Lemma pins_declaration_of config t : pins_declared config t -> exists id, declaration_of config t = Some id /\ declared_identifier config (lt_group t) (lt_name t) = Some id.
Proof.
  intros [(id & Hd & Hr) _]. exists id. split; [|done]. unfold declaration_of. rewrite Hd, Hr. simpl. by rewrite !String.eqb_refl.
Qed.
Lemma stamp_pins config t : pins_declared config t -> pins_declared config (stamp_declared config t).
Proof. done. Qed.
Lemma validate_tools_ok config tools : Forall (pins_declared config) tools -> validate_tools LockV4 "" (map (stamp_declared config) tools) = Ok tt.
Proof.
  induction 1 as [|t tools [(id & Hd & _) [_ Hp]] _ IH]; simpl; [done|]. rewrite Hp. simpl. rewrite Hd. simpl. done.
Qed.
Context {W : Type} `{!ResolveClock W}.
Lemma built_lock_exact config tools w lock w' : build_lock tools config w = (Ok lock, w') -> map tool_key tools = os_of_list (declared_keys config) ->
  (forall t, In t tools -> pins_declared config t) -> exact_lock config lock.
Proof.
  intros [= <- <-] Hk Hp. split; simpl.
  - unfold is_current. simpl. rewrite String.eqb_refl. simpl. apply forallb_forall. intros t (t0 & <- & Hin)%in_map_iff.
    destruct (pins_declaration_of config (stamp_declared config t0)) as (id & Hd & _); [by apply stamp_pins, Hp|]. by rewrite Hd.
  - rewrite map_map. simpl. exact Hk.
  - intros t (t0 & <- & Hin)%in_map_iff. done.
  - unfold validate_lock. simpl. apply validate_tools_ok. by apply Forall_forall; intros t Hin%list_elem_of_In; apply Hp.
  - intros t (t0 & <- & Hin)%in_map_iff. by destruct (Hp t0 Hin) as [_ ?].
Qed.
Lemma stamped_In config tools t : In t (map (stamp_declared config) tools) -> exists t0, In t0 tools /\ tool_key t0 = tool_key t /\ same_pin t t0.
Proof. intros (t0 & <- & Hin)%in_map_iff. by exists t0. Qed.
Lemma built_lock_shares config tools w lock w' : build_lock tools config w = (Ok lock, w') -> shares_pins config tools -> shares_pins config (pl_tools lock).
Proof.
  intros [= <- <-] Hs t s (t0 & Ht0 & Ekt & Ept)%stamped_In (s0 & Hs0 & Eks & Eps)%stamped_In Hf Hk. injection Ekt as Egt Ent.
  destruct (Hs t0 s0) as [Hr Hpl]; [done..|congruence|congruence|]. destruct Ept, Eps. split; congruence.
Qed.

(** *** The merge *)

Lemma merge_In previous resolved config t : In t (merge_carry_forward previous resolved config) <->
  In t resolved \/ In t previous /\ ~ In (tool_key t) (map tool_key resolved) /\ is_Some (declared_identifier config (lt_group t) (lt_name t)).
Proof.
  unfold merge_carry_forward, sort_tools. rewrite sort_by_In, in_app_iff, !filter_In, bool_decide_eq_true, negb_true_iff, key_mem_false. tauto.
Qed.
Lemma NoDup_filter_map {A B : Type} (f : A -> B) (p q : A -> bool) l : (forall x, p x = true -> q x = true) -> List.NoDup (map f (List.filter q l)) ->
  List.NoDup (map f (List.filter p l)).
Proof.
  intros Hpq. induction l as [|x l IH]; simpl; [done|]. destruct (p x) eqn:Ep; simpl.
  - rewrite (Hpq x Ep). simpl. intros [Hn Hnd]%NoDup_cons_iff. constructor; [|by apply IH]. intros (y & E & [Hy Hpy]%filter_In)%in_map_iff.
    apply Hn, in_map_iff. exists y. split; [done|]. apply filter_In. auto.
  - destruct (q x); simpl; [intros [_ ?]%NoDup_cons_iff|]; auto.
Qed.
Lemma merge_keys previous resolved config : config_wf config -> List.NoDup (map tool_key resolved) ->
  List.NoDup (map tool_key (List.filter (fun t => negb (key_mem (tool_key t) (map tool_key resolved))) previous)) ->
  (forall t, In t resolved -> pins_declared config t) ->
  (forall key, In key (declared_keys config) -> In key (map tool_key resolved) \/ In key (map tool_key previous)) ->
  map tool_key (merge_carry_forward previous resolved config) = os_of_list (declared_keys config).
Proof.
  intros Hwf Hr Hp Hpins Hcover. unfold merge_carry_forward. rewrite sort_tools_keys. apply ord_sort_set.
  - rewrite map_app. apply NoDup_app_disjoint; [|done|].
    + generalize dependent previous. intros previous Hp _. induction (List.filter _ previous) as [|t l IH]; simpl; [constructor|].
      simpl in Hp. apply NoDup_cons_iff in Hp as [Hn Hp]. destruct (bool_decide _); [|by apply IH]. simpl. constructor; [|by apply IH].
      intros (y & E & [Hy _]%filter_In)%in_map_iff. apply Hn. rewrite <- E. by apply in_map.
    + intros key (t & <- & [[_ Ht]%filter_In _]%filter_In)%in_map_iff. by apply negb_true_iff, key_mem_false in Ht.
  - intros key. rewrite in_map_iff. split.
    + intros (t & <- & [[[Hin _]%filter_In Hd]%filter_In|Hin]%in_app_iff).
      * apply bool_decide_eq_true in Hd. by apply declared_keys_In.
      * destruct (Hpins t Hin) as [(id & Hd & _) _]. apply declared_keys_In; [done|]. simpl. eauto.
    + intros Hk. destruct (key_mem key (map tool_key resolved)) eqn:Em.
      * apply key_mem_In, in_map_iff in Em as (t & <- & Hin). exists t. split; [done|]. apply in_app_iff. by right.
      * destruct (Hcover key Hk) as [Hin|Hin]; [by apply key_mem_false in Em|]. apply in_map_iff in Hin as (t & <- & Hin). exists t. split; [done|].
        apply in_app_iff. left. apply declared_keys_In in Hk; [|done]. rewrite !filter_In, Em, bool_decide_eq_true. done.
Qed.
End Faithful.

(** ** The bindings that move together *)

Section Touched.
Context (config : ProjectConfig) (Hwf : config_wf config).

Lemma family_In key name : In key (family config name) <->
  key = (DEFAULT_GROUP, name) /\ is_Some (declared_identifier config DEFAULT_GROUP name) \/ key.2 = name /\ is_follower config key.1 name = true.
Proof.
  unfold family. rewrite in_app_iff. unfold declared_identifier. rewrite String.eqb_refl.
  assert (Hl : In key (if bool_decide (is_Some (om_get name (pc_tools config))) then [(DEFAULT_GROUP, name)] else []) <->
    key = (DEFAULT_GROUP, name) /\ is_Some (om_get name (pc_tools config))).
  { destruct (bool_decide _) eqn:E; [apply bool_decide_eq_true in E|apply bool_decide_eq_false in E]; simpl; naive_solver. }
  rewrite Hl. apply or_iff_compat_l. rewrite in_map_iff. split.
  - intros ([g body] & <- & [Hin Hm]%filter_In). split; [done|]. unfold is_follower. simpl.
    by rewrite (proj2 (om_get_In _ _ _ (cw_groups _ Hwf)) Hin).
  - intros [<- Hf]. unfold is_follower in Hf. destruct (om_get key.1 (pc_groups config)) as [body|] eqn:Eb; [|done].
    exists (key.1, body). split; [by destruct key|]. apply filter_In. split; [by apply om_get_In_1|done].
Qed.
Definition moved_keys (previous : option ProjectLock) : list Key :=
  match previous with
  | Some previous => map work_key (List.filter (fun work => spelling_moved (find_tool (pl_tools previous) (work_key work)) work.2) (collect_work config None))
  | None => []
  end.
Definition shared_key (key : Key) : Prop := key.1 = DEFAULT_GROUP \/ is_follower config key.1 key.2 = true.
Lemma expand_touched_In previous touched key : In key (expand_touched config previous touched) <->
  (In key touched \/ In key (moved_keys previous)) \/
  exists key', (In key' touched \/ In key' (moved_keys previous)) /\ shared_key key' /\ In key (family config key'.2).
Proof.
  unfold expand_touched. fold (moved_keys previous). rewrite os_extend_In, os_extend_In, os_of_list_In. apply or_iff_compat_l.
  rewrite in_concat. unfold shared_names. split.
  - intros (l & (n & <- & (key' & <- & [Hin Hs]%filter_In)%in_map_iff)%in_map_iff & Hk). exists key'.
    rewrite os_extend_In, os_of_list_In in Hin. split_and!; [done| |done]. unfold shared_key. by rewrite orb_true_iff, String.eqb_eq in Hs.
  - intros (key' & Hin & Hs & Hk). exists (family config key'.2). split; [|done]. apply in_map_iff. exists key'.2. split; [done|].
    apply in_map_iff. exists key'. split; [done|]. apply filter_In. rewrite os_extend_In, os_of_list_In, orb_true_iff, String.eqb_eq. done.
Qed.
Lemma expand_touched_NoDup previous touched : List.NoDup (expand_touched config previous touched).
Proof. apply os_wf_NoDup. unfold expand_touched. apply os_extend_wf, os_extend_wf, os_of_list_wf. Qed.
(** A source and its followers are touched together. *)
Lemma expand_touched_closed previous touched key key' : shared_key key -> In key (expand_touched config previous touched) ->
  In key' (family config key.2) -> In key' (expand_touched config previous touched).
Proof.
  intros Hs Hin Hk. apply expand_touched_In. right. apply expand_touched_In in Hin as [Hin|(k & Hin & Hsk & Hkk)]; [by exists key|].
  exists k. split_and!; [done..|]. apply family_In in Hkk as [[-> _]|[<- _]]; done.
Qed.
Lemma expand_touched_family previous touched group name : is_follower config group name = true ->
  In (group, name) (expand_touched config previous touched) <-> In (DEFAULT_GROUP, name) (expand_touched config previous touched).
Proof.
  intros Hf. destruct (follower_source _ _ _ Hwf Hf) as (_ & id & _ & Hd). split; intros Hin.
  - eapply (expand_touched_closed _ _ (group, name)); [by right|done|]. apply family_In. left. split; [done|]. simpl. by rewrite Hd.
  - eapply (expand_touched_closed _ _ (DEFAULT_GROUP, name)); [by left|done|]. apply family_In. by right.
Qed.
(** What is not touched was recorded under the spelling of now, or under none. *)
Lemma untouched_spelling previous touched t id : List.NoDup (map tool_key (List.filter (fun t => negb (key_mem (tool_key t) (expand_touched config (Some previous) touched))) (pl_tools previous))) ->
  In t (pl_tools previous) -> ~ In (tool_key t) (expand_touched config (Some previous) touched) ->
  declared_identifier config (lt_group t) (lt_name t) = Some id -> lt_declared t = None \/ lt_declared t = Some (ref_display id).
Proof.
  intros Hnd Hin Hun Hd. destruct (lt_declared t) as [declared|] eqn:Edt; [|by left]. right. f_equal. destruct (String.eqb declared (ref_display id)) eqn:E; [by apply String.eqb_eq|].
  exfalso. apply Hun, expand_touched_In. left. right. apply in_map_iff. exists (tool_key t, id). split; [done|]. apply filter_In. split; [by apply collect_work_In|].
  assert (Hft : find_tool (pl_tools previous) (tool_key t) = Some t); [|change (work_key (tool_key t, id)) with (tool_key t); unfold spelling_moved; rewrite Hft; cbn; by rewrite Edt, E].
  clear Hd E Edt. revert Hnd Hun. generalize (expand_touched config (Some previous) touched). intros exp Hnd Hun.
  induction (pl_tools previous) as [|x tools IH]; simpl in *; [done|]. destruct Hin as [->|Hin]; [by rewrite !String.eqb_refl|].
  assert (Hm : negb (key_mem (tool_key t) exp) = true) by by apply negb_true_iff, key_mem_false.
  destruct (String.eqb (lt_group x) (lt_group t) && String.eqb (lt_name x) (lt_name t)) eqn:Ex.
  - apply andb_true_iff in Ex as [Eg%String.eqb_eq En%String.eqb_eq]. assert (Ek : tool_key x = tool_key t) by (unfold tool_key; congruence).
    rewrite Ek, Hm in Hnd. simpl in Hnd. apply NoDup_cons_iff in Hnd as [Hn _]. exfalso. apply Hn. rewrite Ek. apply in_map, filter_In. done.
  - apply IH; [done|]. destruct (negb _) in Hnd; [by apply NoDup_cons_iff in Hnd as [_ ?]|done].
Qed.

Lemma touched_work_ok : forall touched seen work, List.NoDup touched -> (forall key, In key touched -> ~ In key seen) ->
  touched_work config touched seen = Ok work ->
  map work_key work = touched /\ forall group name id, In (group, name, id) work -> declared_identifier config group name = Some id.
Proof.
  induction touched as [|key touched IH]; intros seen work Hnd Hseen; simpl; [by intros [= <-]|].
  apply NoDup_cons_iff in Hnd as [Hn Hnd]. rewrite (proj2 (key_mem_false key seen)) by (apply Hseen; by left).
  destruct (declared_identifier config key.1 key.2) as [id|] eqn:Ed; [|done]. destruct (touched_work config touched (key :: seen)) as [rest|] eqn:Er; simpl; [|done].
  intros [= <-]. apply IH in Er as [Hk Hr]; [|done|].
  - split; [simpl; by rewrite Hk|]. intros g n i [[= -> <-]|Hin]; [done|]. by apply Hr.
  - intros k Hin [<-|Hs]; [done|]. apply (Hseen k); [by right|done].
Qed.

(** *** The predecessor's coherence *)

Lemma collect_carried_ok touched : forall tools carried carried', om_wf carried -> collect_carried touched tools carried = Some carried' ->
  List.NoDup (map tool_key (List.filter (fun t => negb (key_mem (tool_key t) touched)) tools)) /\
  (forall key t, om_get key carried' = Some t -> om_get key carried = Some t \/ In t tools /\ tool_key t = key) /\
  (forall t, In t tools -> ~ In (tool_key t) touched -> om_get (tool_key t) carried = None) /\
  (forall key t, om_get key carried = Some t -> om_get key carried' = Some t).
Proof.
  induction tools as [|t tools IH]; intros carried carried' Hc; simpl.
  { intros [= <-]. split_and!; [constructor|by left|done|done]. }
  destruct (key_mem (tool_key t) touched) eqn:Em; simpl.
  { intros Hr. apply IH in Hr as (Hnd & Hget & Hnew & Hkeep); [|done]. split_and!; [done| | |done].
    - intros key t' Ht'. destruct (Hget key t' Ht') as [?|[? ?]]; auto.
    - intros t' [<-|Hin] Hun; [by apply key_mem_In in Em|by apply Hnew]. }
  destruct (om_get (tool_key t) carried) eqn:Eg; [done|]. intros Hr. apply IH in Hr as (Hnd & Hget & Hnew & Hkeep); [|by apply om_insert_wf].
  split_and!.
  - constructor; [|done]. intros (t' & Ek & [Hin Hu]%filter_In)%in_map_iff. apply negb_true_iff, key_mem_false in Hu.
    specialize (Hnew t' Hin Hu). by rewrite Ek, om_get_insert_eq in Hnew.
  - intros key t' Ht'. destruct (Hget key t' Ht') as [Hi|[? ?]]; [|auto]. rewrite om_get_insert in Hi. destruct (ord_eqb key (tool_key t)) eqn:E; [|auto].
    apply ord_eqb_eq in E. injection Hi as ->. auto.
  - intros t' [<-|Hin] Hun; [done|]. specialize (Hnew t' Hin Hun). rewrite om_get_insert in Hnew. by destruct (ord_eqb _ _).
  - intros key t' Ht'. apply Hkeep. rewrite om_get_insert. destruct (ord_eqb key (tool_key t)) eqn:E; [|done]. apply ord_eqb_eq in E. congruence.
Qed.
Lemma check_carried_ok `{!ProjectLib} previous touched carried : forall work, check_carried config previous touched carried work = Ok tt ->
  forall group name id, In (group, name, id) work -> ~ In (group, name) touched ->
  exists t, om_get (group, name) carried = Some t /\ lt_repository t = repository_from id.
Proof.
  induction work as [|[[g n] declared] work IH]; simpl; [done|]. destruct (key_mem (g, n) touched) eqn:Em.
  { intros Hc group name id [[= -> -> ->]|Hin] Hun; [by apply key_mem_In in Em|by apply IH]. }
  destruct (om_get (g, n) carried) as [t|] eqn:Eg; [|done]. destruct (bool_decide _) eqn:Eb; [|done]. apply bool_decide_eq_true in Eb.
  intros Hc group name id [[= -> -> ->]|Hin] Hun; [by exists t|by apply IH].
Qed.
Record coherent (previous : ProjectLock) (touched : list Key) : Prop := {
  co_once : List.NoDup (map tool_key (List.filter (fun t => negb (key_mem (tool_key t) touched)) (pl_tools previous)));
  co_pins : forall group name id, declared_identifier config group name = Some id -> ~ In (group, name) touched ->
    exists t, In t (pl_tools previous) /\ tool_key t = (group, name) /\ lt_repository t = repository_from id;
}.
Lemma coherence_ok `{!ProjectLib} previous touched : validate_predecessor_coherence config previous touched = Ok tt -> coherent previous touched.
Proof.
  unfold validate_predecessor_coherence. destruct (collect_carried touched (pl_tools previous) []) as [carried|] eqn:Ec; [|done].
  apply collect_carried_ok in Ec as (Hnd & Hget & _); [|constructor]. intros Hc. split; [done|]. intros group name id Hd Hun.
  eapply check_carried_ok in Hc as (t & Ht & Hr); [|by apply collect_work_In|done]. destruct (Hget _ _ Ht) as [?|[Hin Hk]]; [done|]. by exists t.
Qed.
End Touched.

(** ** The three resolutions *)

Section Locks.
Context `{!ProjectLib} {W : Type} `{!ResolveClock W} `{!TimerOk}.
Implicit Types (config candidate : ProjectConfig) (index : Index W) (w : W).

(** Any lock that was read has these. *)
Definition lock_platforms_ok (lock : ProjectLock) : Prop := forall t, In t (pl_tools lock) -> platforms_ok (lt_platforms t).

Lemma resolve_lock_faithful schedule config index options w lock w' : config_wf config ->
  resolve_lock schedule config index [] options w = (Ok lock, w') -> faithful config lock.
Proof.
  intros Hwf (selected & w1 & Hs & Hx)%io_bind_ok. injection Hs as <- <-. apply io_bind_ok in Hx as (resolved & w2 & Hr & Hb).
  apply resolve_work_ok in Hr as [Hk Hp Hsh]; [|done|by apply declared_keys_NoDup|by intros; apply collect_work_In].
  split.
  - eapply built_lock_exact; [exact Hb| |].
    + rewrite sort_tools_keys. apply ord_sort_set; [rewrite Hk; by apply declared_keys_NoDup|]. intros key. by rewrite Hk.
    + intros t Hin. apply Hp. by rewrite <- (sort_tools_perm resolved).
  - eapply built_lock_shares; [exact Hb|]. intros t s Ht Hs. apply Hsh; by rewrite <- (sort_tools_perm resolved).
Qed.

(** What a partial resolution is made of: resolved entries, and carried ones. *)
Record partial (previous : list LockedTool) config (resolved : list LockedTool) : Prop := {
  pa_resolved : List.NoDup (map tool_key resolved);
  pa_once : List.NoDup (map tool_key (List.filter (fun t => negb (key_mem (tool_key t) (map tool_key resolved))) previous));
  pa_pins : forall t, In t resolved -> pins_declared config t;
  pa_carried : forall t, In t previous -> ~ In (tool_key t) (map tool_key resolved) ->
    is_Some (declared_identifier config (lt_group t) (lt_name t)) -> pins_declared config t;
  pa_cover : forall key, In key (declared_keys config) -> In key (map tool_key resolved) \/ In key (map tool_key previous);
}.
Lemma partial_exact previous config resolved w lock w' : config_wf config -> partial previous config resolved ->
  build_lock (merge_carry_forward previous resolved config) config w = (Ok lock, w') -> exact_lock config lock.
Proof.
  intros Hwf [Hr Ho Hp Hc Hcov] Hb. eapply built_lock_exact; [exact Hb|by apply merge_keys|].
  intros t [Hin|(Hin & Hn & Hd)]%merge_In; [by apply Hp|by apply Hc].
Qed.
(** An entry of the new lock outside the resolved ones is the predecessor's. *)
Lemma partial_verbatim previous config resolved w lock w' t :
  build_lock (merge_carry_forward previous resolved config) config w = (Ok lock, w') -> In t (pl_tools lock) -> ~ In (tool_key t) (map tool_key resolved) ->
  exists t0, In t0 previous /\ tool_key t0 = tool_key t /\ same_pin t t0.
Proof.
  intros [= <- <-] (t0 & Ht0 & Ek & Es)%stamped_In Hn. apply merge_In in Ht0 as [Hin|(Hin & _)]; [|by exists t0].
  exfalso. apply Hn. rewrite <- Ek. by apply in_map.
Qed.
(** Pins are shared when source and follower come from one side, or when the follower copies what is carried. *)
Lemma partial_shares previous config resolved w lock w' : config_wf config -> partial previous config resolved ->
  build_lock (merge_carry_forward previous resolved config) config w = (Ok lock, w') ->
  (forall t s, In t resolved -> is_follower config (lt_group t) (lt_name t) = true -> tool_key s = (DEFAULT_GROUP, lt_name t) ->
    In s resolved \/ In s previous /\ ~ In (tool_key s) (map tool_key resolved) -> same_pin t s) ->
  (forall t, In t previous -> is_follower config (lt_group t) (lt_name t) = true -> ~ In (tool_key t) (map tool_key resolved) ->
    ~ In (DEFAULT_GROUP, lt_name t) (map tool_key resolved) /\ forall s, In s previous -> tool_key s = (DEFAULT_GROUP, lt_name t) -> same_pin t s) ->
  shares_pins config (pl_tools lock).
Proof.
  intros Hwf Hpa Hb Hres Hcar. eapply built_lock_shares; [exact Hb|]. intros t s Ht%merge_In Hs%merge_In Hf Hk.
  destruct Ht as [Ht|(Ht & Hnt & _)].
  - apply Hres; [done..|]. destruct Hs as [Hs|(Hs & Hns & _)]; [by left|by right].
  - destruct (Hcar t Ht Hf Hnt) as [Hn Hsame]. destruct Hs as [Hs|(Hs & _)]; [|by apply Hsame].
    exfalso. apply Hn. rewrite <- Hk. by apply in_map.
Qed.

(** *** Touched bindings *)

Section TouchedLock.
Context (schedule : nat -> nat) (candidate pre_mutation : ProjectConfig) (previous : ProjectLock) (index : Index W) (touched : list Key).
Context (options : ResolveLockOptions) (w : W) (lock : ProjectLock) (w' : W).
Context (Hwf : config_wf candidate) (Hread : lock_platforms_ok previous).
Context (Hrun : resolve_lock_touched schedule candidate pre_mutation previous index touched options w = (Ok lock, w')).
Let moving := expand_touched candidate (Some previous) touched.

Lemma touched_parts : lm_declaration_hash (pl_metadata previous) = declaration_hash pre_mutation /\ coherent candidate previous moving /\
  exists resolved w1, work_resolved candidate (map (fun key => (key, default (mkPackageRef "" "" None None) (declared_identifier candidate key.1 key.2))) moving) resolved /\
    build_lock (merge_carry_forward (pl_tools previous) resolved candidate) candidate w1 = (Ok lock, w').
Proof.
  revert Hrun. unfold resolve_lock_touched. destruct (String.eqb _ _) eqn:Eh; simpl; [|done]. apply String.eqb_eq in Eh. fold moving.
  intros (u & w1 & Hv & Hx)%io_bind_ok. injection Hv as Hv <-. destruct u. apply io_bind_ok in Hx as (work & w2 & Hw & Hx). injection Hw as Hw <-.
  apply io_bind_ok in Hx as (resolved & w3 & Hr & Hb). split; [done|]. split; [by eapply coherence_ok|]. exists resolved, w3. split; [|done].
  apply touched_work_ok in Hw as [Hk Hd]; [|by apply expand_touched_NoDup|naive_solver]. apply resolve_work_ok in Hr; [|done| |done].
  - destruct Hr as [Hkeys Hp Hs]. split; [|done..]. rewrite Hkeys, Hk, map_map. simpl. by rewrite map_id.
  - rewrite Hk. apply expand_touched_NoDup.
Qed.
Lemma touched_partial resolved : coherent candidate previous moving ->
  work_resolved candidate (map (fun key => (key, default (mkPackageRef "" "" None None) (declared_identifier candidate key.1 key.2))) moving) resolved ->
  partial (pl_tools previous) candidate resolved /\ forall key, In key (map tool_key resolved) <-> In key moving.
Proof.
  intros [Hco Hpins] [Hk Hp _]. rewrite map_map in Hk. simpl in Hk. rewrite map_id in Hk.
  assert (Hkeys : forall key, In key (map tool_key resolved) <-> In key moving) by (intros key; by rewrite Hk).
  split; [|done]. split; [rewrite Hk; apply expand_touched_NoDup| |done| |].
  - eapply NoDup_filter_map, Hco. intros t. by rewrite !negb_true_iff, !key_mem_false, Hkeys.
  - intros t Hin Hn [id Hd]. rewrite Hkeys in Hn. split; [|by apply Hread]. exists id. split; [done|].
    destruct (Hpins _ _ _ Hd Hn) as (t0 & Hin0 & Ek & Hr). assert (t = t0) as ->; [|done].
    eapply (In_unique _ t t0 Hco); [| |done]; apply filter_In; (split; [done|]); apply negb_true_iff, key_mem_false; [done|by rewrite Ek].
  - intros key Hin. rewrite Hkeys. destruct (key_mem key moving) eqn:Em; [left; by apply key_mem_In|right]. apply key_mem_false in Em.
    apply declared_keys_In in Hin as [id Hd]; [|done]. destruct key as [g n]. simpl in Hd.
    destruct (Hpins g n id Hd Em) as (t & Hin & <- & _). by apply in_map.
Qed.
Lemma touched_exact : exact_lock candidate lock.
Proof.
  destruct touched_parts as (_ & Hco & resolved & w1 & Hr & Hb). destruct (touched_partial _ Hco Hr) as [Hpa _]. by eapply partial_exact.
Qed.
Lemma touched_verbatim t : In t (pl_tools lock) -> ~ In (tool_key t) moving ->
  exists t0, In t0 (pl_tools previous) /\ tool_key t0 = tool_key t /\ same_pin t t0 /\ (lt_declared t0 = None \/ lt_declared t0 = lt_declared t).
Proof.
  intros Hin Hn. destruct touched_parts as (_ & Hco & resolved & w1 & Hr & Hb). destruct (touched_partial _ Hco Hr) as [Hpa Hkeys].
  destruct (partial_verbatim _ _ _ _ _ _ t Hb Hin) as (t0 & Hin0 & Ek & Hs); [by rewrite Hkeys|]. exists t0. split_and!; [done..|].
  injection Ek as Eg En. pose proof (el_spelled _ _ touched_exact t Hin) as Hsp.
  assert (Hdecl : is_Some (declared_identifier candidate (lt_group t) (lt_name t))).
  { apply (declared_keys_In _ (tool_key t) Hwf). pose proof (el_keys _ _ touched_exact) as Hk. apply (in_map tool_key) in Hin. rewrite Hk, os_of_list_In in Hin. done. }
  destruct Hdecl as [id Hd]. rewrite Hd in Hsp. simpl in Hsp. rewrite Hsp. eapply (untouched_spelling candidate Hwf previous touched); [apply Hco|done| |congruence].
  unfold tool_key. by rewrite Eg, En.
Qed.
Lemma touched_shares pre : shares_pins pre (pl_tools previous) ->
  (forall t, In t (pl_tools previous) -> is_follower candidate (lt_group t) (lt_name t) = true -> is_follower pre (lt_group t) (lt_name t) = true) ->
  shares_pins candidate (pl_tools lock).
Proof.
  intros Hshare Hsame. destruct touched_parts as (_ & Hco & resolved & w1 & Hr & Hb). destruct (touched_partial _ Hco Hr) as [Hpa Hkeys].
  eapply partial_shares; [done..| |].
  - intros t s Ht Hf Hk Hside. apply (in_map tool_key) in Ht as Hkt. apply Hkeys in Hkt. apply (expand_touched_family candidate Hwf _ _ _ _ Hf) in Hkt.
    destruct Hside as [Hs|[_ Hn]]; [by eapply wr_shared|]. exfalso. apply Hn. rewrite Hk. by apply Hkeys.
  - intros t Ht Hf Hn. rewrite Hkeys in Hn. split.
    { rewrite Hkeys. intros Hd. apply Hn. by apply (expand_touched_family candidate Hwf _ _ _ _ Hf). }
    intros s Hs Hk. apply Hshare; [done..|by apply Hsame|done].
Qed.
End TouchedLock.

(** *** Reconciliation *)

(** A predecessor to carry over: each binding once, and a reference recorded as its source is. *)
Record carriable config (tools : list LockedTool) : Prop := {
  ca_once : List.NoDup (map tool_key tools);
  ca_platforms : forall t, In t tools -> platforms_ok (lt_platforms t);
  ca_followers : forall t, In t tools -> is_follower config (lt_group t) (lt_name t) = true ->
    exists s, In s tools /\ tool_key s = (DEFAULT_GROUP, lt_name t) /\ lt_declared s = lt_declared t /\ same_pin t s;
}.
(** A reference is forced with its source. *)
Definition forces_sources config (forced : list Key) : Prop :=
  forall group name, In (group, name) forced -> is_follower config group name = true -> In (DEFAULT_GROUP, name) forced.

Lemma moved_In config previous key : config_wf config -> In key (moved_keys config previous) ->
  exists id t, declared_identifier config key.1 key.2 = Some id /\ find_tool (carried_tools previous) key = Some t /\ spelling_moved (Some t) id = true.
Proof.
  intros Hwf. destruct previous as [prev|]; simpl; [|done]. intros ([[g n] id] & <- & [Hin Hm]%filter_In)%in_map_iff. unfold work_key in *. simpl in *.
  apply collect_work_In in Hin; [|done]. destruct (find_tool (pl_tools prev) (g, n)) as [t|]; [|done]. by exists id, t.
Qed.

Section ReconcileLock.
Context (config : ProjectConfig) (previous : option ProjectLock) (forced : list Key).
Context (Hwf : config_wf config) (Hca : carriable config (carried_tools previous)) (Hforced : forces_sources config forced).
Let seed := reconcile_seed config previous forced.
Let adopting := List.filter (adopts config previous forced seed) seed.
Let moving := expand_touched config previous (List.filter (fun key => negb (adopts config previous forced seed key)) seed).
Let work := List.filter (fun work => key_mem (work_key work) moving) (collect_work config None).
Let adopted := omap (fun key => in_group key.1 <$> find_tool (carried_tools previous) (DEFAULT_GROUP, key.2)) adopting.

(** What a run was asked to resolve. *)
Definition asked (key : Key) : Prop :=
  exists id, declared_identifier config key.1 key.2 = Some id /\ (In key forced \/ binding_changed config previous (key, id) = true).
Lemma seed_In key : In key seed <-> asked key.
Proof.
  unfold seed, reconcile_seed, asked. rewrite in_map_iff. split.
  - intros ([k id] & <- & [Hin Hc]%filter_In). exists id. destruct k as [g n]. apply (collect_work_In config g n id Hwf) in Hin. split; [done|].
    by rewrite orb_true_iff, key_mem_In in Hc.
  - intros (id & Hd & Hc). exists (key, id). split; [done|]. apply filter_In. split; [destruct key; by apply collect_work_In|].
    by rewrite orb_true_iff, key_mem_In.
Qed.
Lemma moved_asked key : In key (moved_keys config previous) -> asked key.
Proof.
  intros (id & t & Hd & Hf & Hm)%moved_In; [|done]. exists id. split; [done|]. right. unfold binding_changed, work_key. cbn [fst snd]. rewrite Hf, Hm.
  by rewrite orb_true_r.
Qed.
Lemma unasked key id : declared_identifier config key.1 key.2 = Some id -> ~ In key seed ->
  exists t, find_tool (carried_tools previous) key = Some t /\ lt_repository t = repository_from id /\ spelling_moved (Some t) id = false.
Proof.
  intros Hd Hn. rewrite seed_In in Hn. destruct (binding_changed config previous (key, id)) eqn:Ec; [exfalso; apply Hn; exists id; auto|].
  unfold binding_changed in Ec. unfold work_key in Ec. simpl in Ec. destruct (find_tool _ key) as [t|]; [|done]. exists t.
  apply orb_false_iff in Ec as [[_ Er%negb_false_iff]%orb_false_iff Es]. by apply bool_decide_eq_true in Er.
Qed.
(** A reference whose source stays where it is does not move. *)
Lemma still_source name key : ~ In (DEFAULT_GROUP, name) seed -> shared_key config key -> key.2 = name ->
  is_Some (declared_identifier config DEFAULT_GROUP name) ->
  ~ (In key (List.filter (fun key => negb (adopts config previous forced seed key)) seed) \/ In key (moved_keys config previous)).
Proof.
  intros Hseed Hshared Hname [id Hid]. destruct (unasked (DEFAULT_GROUP, name) id Hid Hseed) as (s & Hfs & _ & Hsp). destruct key as [g n]. simpl in *. subst n.
  destruct Hshared as [Hg|Hfol]; simpl in *.
  - subst g. intros [[? _]%filter_In|Hm%moved_asked%seed_In]; done.
  - destruct (follower_source _ _ _ Hwf Hfol) as (_ & i & Hdf & Hds). assert (i = id) as -> by congruence. intros [[Hin Ha]%filter_In|Hm].
    + apply negb_true_iff in Ha. unfold adopts in Ha. cbn [fst snd] in Ha. rewrite Hfol, Hfs, (proj2 (key_mem_false _ _) Hseed) in Ha.
      rewrite bool_decide_eq_true_2 in Ha by eauto. cbn [negb] in Ha. rewrite !andb_true_r in Ha. apply negb_false_iff, key_mem_In in Ha.
      apply Hseed, seed_In. exists id. split; [done|]. left. by eapply Hforced.
    + destruct (moved_In _ _ _ Hwf Hm) as (id' & t & Hd' & Hft & Hsm). simpl in Hd'. assert (id' = id) as -> by congruence.
      apply find_tool_Some in Hft as [Hint Hkt]. injection Hkt as <- <-.
      destruct (ca_followers _ _ Hca t Hint Hfol) as (s' & Hins & Hks & Hd & _). assert (s' = s) as ->.
      { rewrite <- Hks in Hfs. rewrite (find_tool_In _ s' (ca_once _ _ Hca) Hins) in Hfs. congruence. }
      unfold spelling_moved in *. simpl in *. rewrite Hd in Hsp. congruence.
Qed.
Lemma moving_family group name : is_follower config group name = true -> In (group, name) moving <-> In (DEFAULT_GROUP, name) moving.
Proof. intros Hf. by apply expand_touched_family. Qed.
Lemma moving_source name : is_Some (declared_identifier config DEFAULT_GROUP name) -> In (DEFAULT_GROUP, name) moving <-> In (DEFAULT_GROUP, name) seed.
Proof.
  intros Hd. split.
  - intros Hm. destruct (key_mem (DEFAULT_GROUP, name) seed) eqn:Ek; [by apply key_mem_In|]. apply key_mem_false in Ek. exfalso.
    apply expand_touched_In in Hm as [Hm|(key & Hm & Hs & Hk)]; [|apply family_In in Hk; [|done]]; (eapply still_source; [exact Ek| | |exact Hd|exact Hm]); [by left|done|done|].
    destruct Hk as [[[= ->] _]|[E Hf]]; [done|]. by rewrite default_not_follower in Hf.
  - intros Hs. apply expand_touched_In. left. left. apply filter_In. split; [done|]. unfold adopts. simpl. by rewrite default_not_follower.
Qed.
Lemma adopting_In key : In key adopting -> is_follower config key.1 key.2 = true /\ ~ In (DEFAULT_GROUP, key.2) seed /\ ~ In key moving /\
  exists s, find_tool (carried_tools previous) (DEFAULT_GROUP, key.2) = Some s.
Proof.
  intros [Hin Ha]%filter_In. unfold adopts in Ha. rewrite !andb_true_iff, !negb_true_iff, bool_decide_eq_true in Ha.
  destruct Ha as [[[Hf _] Hn%key_mem_false] [s Hs]]. split_and!; [done..| |by exists s]. destruct key as [g n]. simpl in *.
  destruct (follower_source _ _ _ Hwf Hf) as (_ & i & _ & Hds). rewrite moving_family by done. by rewrite moving_source by eauto.
Qed.
Lemma seed_moves key : In key seed -> In key moving \/ In key adopting.
Proof.
  intros Hin. destruct (adopts config previous forced seed key) eqn:Ea; [right; by apply filter_In|left].
  apply expand_touched_In. left. left. apply filter_In. by rewrite Ea.
Qed.
Lemma adopted_In t : In t adopted -> exists s, In (tool_key t) adopting /\ In s (carried_tools previous) /\ tool_key s = (DEFAULT_GROUP, lt_name t) /\ same_pin t s.
Proof.
  intros Hin. apply list_elem_of_In, list_elem_of_omap in Hin as ([g n] & Hin%list_elem_of_In & Hmap). simpl in Hmap.
  destruct (find_tool _ _) as [s|] eqn:Es; [|done]. injection Hmap as <-. apply find_tool_Some in Es as [Hs Ek]. injection Ek as Eg En.
  exists s. unfold tool_key. simpl. rewrite En. split_and!; [done..|by rewrite Eg|done].
Qed.
Lemma adopted_keys : map tool_key adopted = adopting.
Proof.
  unfold adopted. assert (Hall : forall key, In key adopting -> exists s, find_tool (carried_tools previous) (DEFAULT_GROUP, key.2) = Some s)
    by (intros key Hin; by apply adopting_In in Hin as (_ & _ & _ & ?)). revert Hall. generalize adopting. intros l.
  induction l as [|key l IH]; intros Hl; simpl; [done|]. destruct (Hl key) as [s Es]; [by left|]. rewrite Es. simpl. f_equal.
  - apply find_tool_Some in Es as [_ Ek]. injection Ek as _ Ek. unfold tool_key. simpl. rewrite Ek. by destruct key.
  - apply IH. intros k Hin. apply Hl. by right.
Qed.
Lemma seed_NoDup : List.NoDup seed.
Proof. unfold seed, reconcile_seed. eapply (NoDup_filter_map work_key _ (fun _ => true)); [done|]. rewrite List.filter_true. by apply declared_keys_NoDup. Qed.
Lemma work_keys_NoDup : List.NoDup (map work_key work).
Proof. unfold work. eapply (NoDup_filter_map work_key _ (fun _ => true)); [done|]. rewrite List.filter_true. by apply declared_keys_NoDup. Qed.
Lemma work_In key : In key (map work_key work) <-> In key moving /\ is_Some (declared_identifier config key.1 key.2).
Proof.
  unfold work. rewrite in_map_iff. split.
  - intros ([k id] & <- & [Hin Hm]%filter_In). apply key_mem_In in Hm. split; [done|]. destruct k as [g n]. apply (collect_work_In config g n id Hwf) in Hin. eauto.
  - intros [Hm [id Hd]]. exists (key, id). split; [done|]. apply filter_In. split; [destruct key; by apply collect_work_In|by apply key_mem_In].
Qed.

(** The parts of the new lock. *)
Lemma adopted_pins t : In t adopted -> pins_declared config t.
Proof.
  intros (s & Ha & Hs & Hk & Hr & Hp)%adopted_In. apply adopting_In in Ha as (Hf & Hn & _ & _). simpl in Hf, Hn.
  destruct (follower_source _ _ _ Hwf Hf) as (_ & id & Hdf & Hds). split; [|rewrite Hp; by eapply ca_platforms]. exists id. split; [done|].
  destruct (unasked (DEFAULT_GROUP, lt_name t) id Hds Hn) as (s' & Hfs & Hrs & _). rewrite <- Hk, (find_tool_In _ s (ca_once _ _ Hca) Hs) in Hfs. congruence.
Qed.
Lemma reconcile_partial resolved : work_resolved config work resolved ->
  partial (carried_tools previous) config (resolved ++ adopted) /\
  forall key, In key (map tool_key (resolved ++ adopted)) <-> In key (map work_key work ++ adopting)%list.
Proof.
  intros [Hk Hp _].
  assert (Hkeys : forall key, In key (map tool_key (resolved ++ adopted)) <-> In key (map work_key work ++ adopting)%list).
  { intros key. rewrite map_app, adopted_keys, !in_app_iff. by rewrite Hk. }
  split; [|done]. split.
  - rewrite map_app, adopted_keys. apply NoDup_app_disjoint; [rewrite Hk; apply work_keys_NoDup|apply List.NoDup_filter, seed_NoDup|].
    intros key Hw. rewrite Hk in Hw. apply work_In in Hw as [Hm _]. by intros (_ & _ & ? & _)%adopting_In.
  - eapply (NoDup_filter_map tool_key _ (fun _ => true)); [done|]. rewrite List.filter_true. apply Hca.
  - intros t [Hin|Hin]%in_app_iff; [by apply Hp|by apply adopted_pins].
  - intros t Hin Hn [id Hd]. split; [|by eapply ca_platforms]. exists id. split; [done|]. rewrite Hkeys, in_app_iff, work_In in Hn.
    destruct (unasked (tool_key t) id Hd) as (t' & Hf & Hr & _).
    { intros [Hm|Ha]%seed_moves; apply Hn; [left; split; [done|]; simpl; by rewrite Hd|by right]. }
    rewrite (find_tool_In _ t (ca_once _ _ Hca) Hin) in Hf. congruence.
  - intros key Hin. apply declared_keys_In in Hin as [id Hd]; [|done]. destruct (key_mem key seed) eqn:Es.
    + left. apply Hkeys. apply key_mem_In, seed_moves in Es. rewrite in_app_iff, work_In. destruct Es; [left|by right]. split; [done|]. by rewrite Hd.
    + right. apply key_mem_false in Es. destruct (unasked key id Hd Es) as (t & [Hin <-]%find_tool_Some & _). by apply in_map.
Qed.
Lemma reconcile_shares resolved w1 lock w1' : work_resolved config work resolved ->
  build_lock (merge_carry_forward (carried_tools previous) (resolved ++ adopted) config) config w1 = (Ok lock, w1') -> shares_pins config (pl_tools lock).
Proof.
  intros Hw Hb. destruct (reconcile_partial _ Hw) as [Hpa Hkeys]. pose proof (wr_keys _ _ _ Hw) as Hk.
  assert (Hdefault : forall t s, is_follower config (lt_group t) (lt_name t) = true -> tool_key s = (DEFAULT_GROUP, lt_name t) -> ~ In s adopted).
  { intros t s _ Hks (? & (Hf & _)%adopting_In & _)%adopted_In. rewrite Hks in Hf. simpl in Hf. by rewrite default_not_follower in Hf. }
  eapply partial_shares; [done..| |].
  - intros t s [Ht|Ht]%in_app_iff Hf Hks Hside.
    + apply (in_map tool_key) in Ht as Hkt. rewrite Hk, work_In in Hkt. destruct Hkt as [Hm _]. apply (moving_family _ _ Hf) in Hm.
      destruct (follower_source _ _ _ Hwf Hf) as (_ & id & _ & Hds).
      destruct Hside as [[Hs|Hs]%in_app_iff|[_ Hn]]; [by eapply wr_shared|by eapply Hdefault in Hs|].
      exfalso. apply Hn. rewrite Hks, Hkeys, in_app_iff, work_In. left. split; [done|]. simpl. by rewrite Hds.
    + apply adopted_In in Ht as (s0 & Ha & Hs0 & Hks0 & Hpin). apply adopting_In in Ha as (_ & Hn & _). simpl in Hn.
      destruct (follower_source _ _ _ Hwf Hf) as (_ & id & _ & Hds).
      destruct Hside as [[Hs|Hs]%in_app_iff|[Hs _]]; [|by eapply Hdefault in Hs|].
      * exfalso. apply (in_map tool_key) in Hs. rewrite Hk, Hks, work_In in Hs. destruct Hs as [Hm _]. apply Hn, moving_source; [by rewrite Hds|done].
      * assert (s = s0) as ->; [|done]. eapply In_unique; [apply Hca|done..|congruence].
  - intros t Ht Hf Hn. rewrite Hkeys, in_app_iff, work_In in Hn. split.
    + rewrite Hkeys, in_app_iff, work_In. intros [[Hm _]|Ha].
      * apply Hn. left. apply (moving_family _ _ Hf) in Hm. split; [done|]. destruct (follower_source _ _ _ Hwf Hf) as (_ & id & Hdf & _). simpl. by rewrite Hdf.
      * apply adopting_In in Ha as (Hfd & _). simpl in Hfd. by rewrite default_not_follower in Hfd.
    + intros s Hs Hks. destruct (ca_followers _ _ Hca t Ht Hf) as (s' & Hs' & Hks' & _ & Hpin). assert (s = s') as ->; [|done].
      eapply In_unique; [apply Hca|done..|congruence].
Qed.
Lemma touched_asked key : In key (map work_key work ++ adopting)%list ->
  exists key', asked key' /\ (key' = key \/ shared_key config key' /\ In key (family config key'.2)).
Proof.
  intros [[Hm _]%work_In|[Hs _]%filter_In]%in_app_iff; [|apply seed_In in Hs; eauto].
  apply expand_touched_In in Hm as [Hm|(key' & Hm & Hsh & Hf)]; [exists key|exists key']; (split; [|tauto]);
    (destruct Hm as [[Hs _]%filter_In|Hm]; [by apply seed_In|by apply moved_asked]).
Qed.
Record reconciled (lock : ProjectLock) (touched : list Key) : Prop := {
  re_faithful : faithful config lock;
  re_verbatim : forall t, In t (pl_tools lock) -> ~ In (tool_key t) touched ->
    exists t0, In t0 (carried_tools previous) /\ tool_key t0 = tool_key t /\ same_pin t t0;
  re_asked : forall key, In key touched -> exists key', asked key' /\ (key' = key \/ shared_key config key' /\ In key (family config key'.2));
}.
Lemma reconcile_ok schedule index options w lock touched w' :
  resolve_lock_reconcile schedule config previous index forced options w = (Ok (lock, touched), w') -> reconciled lock touched.
Proof.
  unfold resolve_lock_reconcile. fold seed adopting moving work adopted. intros (resolved & w1 & Hr & Hx)%io_bind_ok.
  apply io_bind_ok in Hx as (l & w2 & Hb & Hx). injection Hx as -> <- <-.
  apply resolve_work_ok in Hr; [|done|apply work_keys_NoDup|by intros g n id [Hin _]%filter_In; apply collect_work_In].
  destruct (reconcile_partial _ Hr) as [Hpa Hkeys]. split; [split|..].
  - by eapply partial_exact.
  - by eapply reconcile_shares.
  - intros t Hin Hn. eapply partial_verbatim; [exact Hb|done|]. by rewrite Hkeys.
  - apply touched_asked.
Qed.
End ReconcileLock.
End Locks.

(** ** The life of a lock *)

Section History.
Context `{!ProjectLib} {W : Type} `{!ResolveClock W} `{!TimerOk}.

(** No binding the file declared before is now a reference that it was not. *)
Definition no_new_reference (before after : ProjectConfig) : Prop :=
  forall group name, is_follower after group name = true -> is_Some (declared_identifier before group name) -> is_follower before group name = true.
(** A first lock; an edit and the resolution of what it touched; a project file edited by hand and
    reconciled.  Every step may see another index, another order of the tasks, another world. *)
Inductive project_history : ProjectConfig -> ProjectLock -> Prop :=
| history_first schedule config (index : Index W) options w lock w' : config_wf config ->
    resolve_lock schedule config index [] options w = (Ok lock, w') -> project_history config lock
| history_edit schedule config previous path edit candidate (index : Index W) touched options w lock w' : project_history config previous ->
    apply_edit config path edit = Ok candidate ->
    resolve_lock_touched schedule candidate config previous index touched options w = (Ok lock, w') -> project_history candidate lock
| history_update schedule config previous (index : Index W) touched options w lock w' : project_history config previous ->
    resolve_lock_touched schedule config config previous index touched options w = (Ok lock, w') -> project_history config lock
| history_reconcile schedule before previous config (index : Index W) forced options w lock touched w' : project_history before previous ->
    config_wf config -> no_new_reference before config -> forces_sources config forced ->
    resolve_lock_reconcile schedule config (Some previous) index forced options w = (Ok (lock, touched), w') -> project_history config lock.

Lemma exact_declared config lock t : config_wf config -> exact_lock config lock -> In t (pl_tools lock) -> is_Some (declared_identifier config (lt_group t) (lt_name t)).
Proof.
  intros Hwf He Hin. apply (declared_keys_In _ (tool_key t) Hwf). apply (in_map tool_key) in Hin. by rewrite (el_keys _ _ He), os_of_list_In in Hin.
Qed.
Lemma faithful_carriable before config lock : config_wf before -> faithful before lock -> no_new_reference before config -> carriable config (pl_tools lock).
Proof.
  intros Hwf [He Hs] Hno. split; [by eapply exact_NoDup|apply He|]. intros t Hin Hf.
  assert (Hb : is_follower before (lt_group t) (lt_name t) = true) by (apply Hno; [done|by eapply exact_declared]).
  destruct (follower_source _ _ _ Hwf Hb) as (_ & id & Hdf & Hds).
  destruct (proj1 (exact_find _ _ (DEFAULT_GROUP, lt_name t) Hwf He)) as [s Hfs]; [simpl; by rewrite Hds|].
  apply find_tool_Some in Hfs as [Hins Hks]. exists s. split_and!; [done..| |by apply Hs]. injection Hks as Hg Hn.
  rewrite (el_spelled _ _ He s Hins), (el_spelled _ _ He t Hin). rewrite Hg, Hn. by rewrite Hds, Hdf.
Qed.
Lemma history_faithful config lock : project_history config lock -> config_wf config /\ faithful config lock.
Proof.
  induction 1 as [schedule config index options w lock w' Hwf Hr|schedule config previous path edit candidate index touched options w lock w' _ [Hwf [He Hs]] Hed Hr
    |schedule config previous index touched options w lock w' _ [Hwf [He Hs]] Hr
    |schedule before previous config index forced options w lock touched w' _ [Hwfb Hb] Hwf Hno Hfo Hr].
  - split; [done|]. by eapply resolve_lock_faithful.
  - destruct (apply_edited _ Hwf _ _ _ Hed) as [Hwf' Hd Hfo]. split; [done|]. split.
    + exact (touched_exact _ _ _ _ _ _ _ _ _ _ Hwf' (el_platforms _ _ He) Hr).
    + apply (touched_shares _ _ _ _ _ _ _ _ _ _ Hwf' (el_platforms _ _ He) Hr _ Hs). intros t _. rewrite Hfo. by intros [? _]%andb_true_iff.
  - split; [done|]. split; [exact (touched_exact _ _ _ _ _ _ _ _ _ _ Hwf (el_platforms _ _ He) Hr)|].
    by apply (touched_shares _ _ _ _ _ _ _ _ _ _ Hwf (el_platforms _ _ He) Hr _ Hs).
  - split; [done|]. assert (Hca : carriable config (carried_tools (Some previous))) by exact (faithful_carriable _ _ _ Hwfb Hb Hno).
    exact (re_faithful _ _ _ _ _ (reconcile_ok _ _ _ Hwf Hca Hfo _ _ _ _ _ _ _ Hr)).
Qed.
End History.

(** C25: Over any history of a project (a first [resolve_lock], then edits of the project file
    with [resolve_lock_touched], updates, and reconciliations after the file was edited by hand,
    where the edit turns no recorded binding into a [{ from = "default" }] reference and a forced
    reference is forced with its source),
    whatever the index answers and in whatever order the tasks of a resolution end, the lock is
    faithful to the project file it belongs to: it binds to it, holds exactly one entry for every
    declared binding, in the order of the file format, each from the declared repository and
    under the declared spelling, passes the validation of its own reader, and gives every
    [{ from = "default" }] binding the pin of its source. *)
Theorem locks_stay_faithful `{!ProjectLib} {W : Type} `{!ResolveClock W} `{!TimerOk} (config : ProjectConfig) (lock : ProjectLock)
    (Hhistory : project_history config lock) : faithful config lock.
Proof. by apply history_faithful in Hhistory as [_ ?]. Qed.

(** C26: [resolve_lock_touched] moves nothing it was not asked to move.  It succeeds only on a
    predecessor made for the project file before the mutation, and gives a lock that holds every
    binding of the candidate exactly once; every entry outside [expand_touched] is the
    predecessor's, repository and digests verbatim, and was recorded under the spelling it is
    declared with now; and the touched set is closed: a reference is in it exactly when its
    source is. *)
Theorem touched_keeps_other_pins `{!ProjectLib} {W : Type} `{!ResolveClock W} `{!TimerOk} (schedule : nat -> nat) (candidate pre_mutation : ProjectConfig)
    (previous lock : ProjectLock) (index : Index W) (touched : list Key) (options : ResolveLockOptions) (w w' : W)
    (Hwf : config_wf candidate) (Hread : lock_platforms_ok previous)
    (Hrun : resolve_lock_touched schedule candidate pre_mutation previous index touched options w = (Ok lock, w')) :
  let moving := expand_touched candidate (Some previous) touched in
  lm_declaration_hash (pl_metadata previous) = declaration_hash pre_mutation /\
  exact_lock candidate lock /\
  (forall t, In t (pl_tools lock) -> ~ In (tool_key t) moving ->
    exists t0, In t0 (pl_tools previous) /\ tool_key t0 = tool_key t /\ same_pin t t0 /\ (lt_declared t0 = None \/ lt_declared t0 = lt_declared t)) /\
  (forall group name, is_follower candidate group name = true -> In (group, name) moving <-> In (DEFAULT_GROUP, name) moving).
Proof.
  intros moving. split_and!.
  - by destruct (touched_parts _ _ _ _ _ _ _ _ _ _ Hwf Hrun) as [? _].
  - by eapply touched_exact.
  - intros t. by eapply touched_verbatim.
  - intros group name. by apply expand_touched_family.
Qed.


(** ** What a host takes from a lock *)

Section Leaf.
Context (host : Platform).

(** Selection looks at the platforms on offer only, not at their order or at what they stand for. *)
Definition offers_of {T : Type} (candidates : list (T * Platform)) : list T := map fst (List.filter (top_offer host candidates) candidates).
Lemma top_offer_In {T U : Type} (l : list (T * Platform)) (k : list (U * Platform)) c d : (forall p, In p (map snd l) <-> In p (map snd k)) -> c.2 = d.2 ->
  top_offer host l c = top_offer host k d.
Proof.
  intros Hp Hcd. unfold top_offer. rewrite Hcd. f_equal. apply eq_iff_eq_true. rewrite !forallb_forall.
  split; intros Hall [x p] Hx; apply (in_map snd) in Hx; simpl in Hx; apply Hp in Hx; apply in_map_iff in Hx as ([y q] & Hq & Hy); simpl in Hq; subst q;
    exact (Hall _ Hy).
Qed.
Lemma offers_of_map {T U : Type} (f : T * Platform -> U) (l : list (T * Platform)) :
  offers_of (map (fun c => (f c, c.2)) l) = map f (List.filter (top_offer host l) l).
Proof.
  unfold offers_of.
  assert (Hc : forall c, top_offer host (map (fun c => (f c, c.2)) l) (f c, c.2) = top_offer host l c).
  { intros c. apply top_offer_In; [|done]. intros p. by rewrite map_map. }
  revert Hc. generalize (top_offer host (map (fun c => (f c, c.2)) l)), (top_offer host l). intros p q Hc.
  induction l as [|c l IH]; simpl; [done|]. rewrite Hc. destruct (q c); simpl; by rewrite IH.
Qed.
Lemma filter_perm {A : Type} (p : A -> bool) l k : Permutation l k -> Permutation (List.filter p l) (List.filter p k).
Proof.
  induction 1 as [|x l k _ IH|x y l|l k m _ IH1 _ IH2]; simpl; [done| | |by rewrite IH1].
  - destruct (p x); [by constructor|done].
  - destruct (p x), (p y); try done. constructor.
Qed.
Lemma offers_of_perm {T : Type} (l k : list (T * Platform)) : Permutation l k -> Permutation (offers_of l) (offers_of k).
Proof.
  intros Hp. unfold offers_of. apply Permutation_map. rewrite (filter_perm _ _ _ Hp). erewrite (List.filter_ext _ (top_offer host k)); [done|].
  intros c. apply top_offer_In; [|done]. intros p. by rewrite Hp.
Qed.

Lemma canonical_keys_In keys key : validate_canonical_platform_keys keys = Ok tt -> In key keys -> exists p, platform_from_str key = Ok p /\ platform_display p = key.
Proof.
  induction keys as [|k keys IH]; simpl; [done|]. destruct (platform_from_str k) as [p|] eqn:Ep; [|done].
  destruct (String.eqb (platform_display p) k) eqn:Ed; simpl; [|done]. apply String.eqb_eq in Ed. intros Hv [<-|Hin]; [by exists p|by apply IH].
Qed.
Lemma om_insert_fresh {V : Type} (k : string) (v : V) m : om_get k m = None -> Permutation (om_insert k v m) ((k, v) :: m).
Proof.
  induction m as [|[k' v'] m IH]; simpl; [done|]. unfold ord_eqb. destruct (ord_cmp k k') eqn:E; simpl; [done|done|]. intros Hn.
  rewrite IH by done. constructor.
Qed.
Lemma insert_candidates_perm candidates : forall map map', (forall c p, In (c, p) candidates -> is_Some (pr_digest c)) -> insert_candidates candidates map = Ok map' ->
  Permutation map' (List.map (fun c => (platform_display c.2, default (DSha256 "") (pr_digest c.1))) candidates ++ map)%list.
Proof.
  induction candidates as [|[c p] candidates IH]; intros map map' Hd; simpl; [by intros [= <-]|].
  destruct (Hd c p) as [d Ed]; [by left|]. rewrite Ed. simpl. unfold guard_unique_key. destruct (om_get _ map) eqn:Eg; simpl; [done|].
  intros Hr. rewrite (IH _ _ (fun c p Hin => Hd c p (or_intror Hin)) Hr). rewrite om_insert_fresh by done. by rewrite <- Permutation_middle.
Qed.

Section Candidates.
Context (candidates : list (PackageRef * Platform)) (platforms : list (string * Digest)).
Context (Hdigest : forall c p, In (c, p) candidates -> is_Some (pr_digest c)) (Hnorm : forall c p, In (c, p) candidates -> plat_norm p = p).
Context (Hbuild : build_platforms_map candidates = Ok platforms).
Let digest_of (c : PackageRef * Platform) : Digest := default (DSha256 "") (pr_digest c.1).

Lemma candidate_parsed c p : In (c, p) candidates -> platform_from_str (platform_display p) = Ok p.
Proof.
  intros Hin. revert Hbuild. unfold build_platforms_map. destruct (insert_candidates candidates []) as [map|] eqn:Ei; simpl; [|done].
  destruct (validate_canonical_platform_keys (om_keys map)) as [[]|] eqn:Ev; simpl; [|done]. intros _.
  apply insert_candidates_perm in Ei; [|done]. rewrite app_nil_r in Ei.
  destruct (canonical_keys_In _ (platform_display p) Ev) as (q & Hq & Hd).
  { unfold om_keys. rewrite Ei, map_map. apply in_map_iff. by exists (c, p). }
  pose proof (platform_display_inj _ _ Hd) as Hn. rewrite (Hnorm c p Hin) in Hn.
  assert (plat_norm q = q) as Hq'.
  { apply platform_from_str_wf in Hq. destruct q as [|os arch v fs]; simpl in *; [done|]. rewrite !andb_true_iff, bool_decide_eq_true in Hq. destruct Hq as [[_ ->] _]. done. }
  rewrite Hq' in Hn. by subst p.
Qed.
Lemma lock_leaves : Permutation
  (omap (fun e => match platform_from_str e.1 with Ok platform => Some ((e.2, e.1), platform) | Err _ => None end) platforms)
  (map (fun c => ((digest_of c, platform_display c.2), c.2)) candidates).
Proof.
  assert (Hp : Permutation platforms (map (fun c => (platform_display c.2, digest_of c)) candidates)).
  { revert Hbuild. unfold build_platforms_map. destruct (insert_candidates candidates []) as [map|] eqn:Ei; simpl; [|done].
    destruct (validate_canonical_platform_keys (om_keys map)); simpl; [|done]. intros [= <-].
    apply insert_candidates_perm in Ei; [|done]. by rewrite app_nil_r in Ei. }
  rewrite Hp. clear Hp. pose proof candidate_parsed as Hparse. clear Hbuild Hdigest Hnorm.
  induction candidates as [|[c p] l IH]; simpl; [done|]. rewrite (Hparse c p) by by left. simpl. constructor. apply IH. intros c' p' Hin. eapply Hparse. by right.
Qed.
(** A lock built of the candidates answers every host as the candidates do. *)
Lemma leaf_agrees : match select_best host candidates, lookup_host_leaf platforms host with
  | Found id, Found leaf => pr_digest id = Some leaf.1
  | Ambiguous ids, Ambiguous leaves => Permutation (map pr_digest ids) (map (fun leaf => Some leaf.1) leaves)
  | SelectNone, SelectNone => True
  | _, _ => False
  end.
Proof.
  assert (Hitems : Permutation (map pr_digest (offers_of candidates)) (map (fun leaf => Some leaf.1)
    (offers_of (omap (fun e => match platform_from_str e.1 with Ok platform => Some ((e.2, e.1), platform) | Err _ => None end) platforms)))).
  { rewrite (offers_of_perm _ _ lock_leaves), offers_of_map. unfold offers_of. rewrite !map_map. simpl.
    erewrite map_ext_in; [done|]. intros [c p] [Hin _]%filter_In. simpl. unfold digest_of. simpl. by destruct (Hdigest c p Hin) as [d ->]. }
  unfold lookup_host_leaf, select_best. rewrite !select_items. fold (offers_of candidates).
  match goal with |- context [map fst (List.filter (top_offer host ?l) ?l)] => fold (offers_of l) end.
  revert Hitems. destruct (offers_of candidates) as [|a [|b l]], (offers_of _) as [|a' [|b' l']]; simpl; intros Hp; try done;
    try (apply Permutation_length in Hp; simpl in Hp; lia).
  by apply Permutation_length_1 in Hp.
Qed.
End Candidates.
End Leaf.

Section ChainLeaf.
Context `{U : OciSpec} `{!Codec} `{!RootCodec Bytes} `{!IndexCodec} {W : Type} `{!IndexDisk W} `{!IndexProcess (W := W)} `{!NetLib W}.
Context `{!ChainProcess (W := W)} (text : NativePlatform -> string).

Lemma descriptor_normal entry p : candidate_from_descriptor text entry = Some p -> plat_norm p = p.
Proof.
  unfold candidate_from_descriptor. destruct (en_platform entry) as [declared|]; simpl; [|done].
  destruct (platform_try_from text declared) as [q|] eqn:E; [|done]. intros [= ->]. revert E. unfold platform_try_from. repeat case_match; try done.
  all: unfold with_input, result_map_err, result_bind; repeat case_match; try done; intros [= <-]; simpl; by rewrite ?normalize_idem.
Qed.
Lemma offered_normal identifier c m r p : offered text identifier c m r p -> plat_norm p = p /\ is_Some (pr_digest r).
Proof.
  destruct m as [image|index]; simpl.
  - intros [-> ->]. split; [done|]. simpl. eauto.
  - intros (entry & d & _ & Hc & _ & ->). split; [by eapply descriptor_normal|]. simpl. eauto.
Qed.
End ChainLeaf.

(** C28: What a host takes from a lock is what it would take from the index.  When the candidates
    the index gives for a reference are written into a lock entry, then for every host platform
    the leaf the entry answers ([lookup_host_leaf]) is the digest [Index::select] finds among
    them; where the selection is ambiguous the lock is ambiguous among the same digests, and
    where it finds nothing the lock has no leaf.  The order of the map and the text of its keys
    change nothing. *)
Theorem lock_read_agrees `{U : OciSpec} `{!Codec} `{!RootCodec Bytes} `{!IndexCodec} {W : Type} `{!IndexDisk W} `{!IndexProcess (W := W)} `{!NetLib W}
    `{!ChainProcess (W := W)} (text : NativePlatform -> string) (chain : ChainedIndex (W := W)) (identifier : PackageRef) (w w' : W)
    (candidates : list (PackageRef * Platform)) (platforms : list (string * Digest)) (host : Platform)
    (Hfetch : ix_fetch_candidates (chain_index text chain) identifier w = (Ok (Some candidates), w'))
    (Hbuild : build_platforms_map candidates = Ok platforms) :
  match selection_result host candidates, lookup_host_leaf platforms host with
  | SelFound id, Found leaf => pr_digest id = Some leaf.1
  | SelAmbiguous ids, Ambiguous leaves => Permutation (map pr_digest ids) (map (fun leaf => Some leaf.1) leaves)
  | SelNotFound, SelectNone => True
  | SelFeatureMismatch _ _, SelectNone => True
  | _, _ => False
  end.
Proof.
  apply (fetch_candidates_ok text) in Hfetch as ([[c m]|] & _ & Hc); [|done].
  assert (Hn : forall r p, In (r, p) candidates -> plat_norm p = p /\ is_Some (pr_digest r)) by (intros r p Hin%Hc; by eapply offered_normal).
  pose proof (leaf_agrees host candidates platforms (fun r p Hin => proj2 (Hn r p Hin)) (fun r p Hin => proj1 (Hn r p Hin)) Hbuild) as Ha.
  unfold selection_result. destruct (select_best host candidates), (lookup_host_leaf platforms host); try done; by repeat case_match.
Qed.

(** ** The text of a lock *)

(** An entry that can be written: its repository and its digests read back. *)
Record tool_wf (t : LockedTool) : Prop := {
  tw_repository : ref_wf (mkPackageRef (rp_registry (lt_repository t)) (rp_repository (lt_repository t)) None None) = true;
  tw_platforms : om_wf (lt_platforms t);
  tw_digests : forall key digest, In (key, digest) (lt_platforms t) -> digest_wf digest = true;
}.

Section LockText.
Context `{!LockLib}.
(** The TOML library reads what it wrote; the header peek sees the version of the document. *)
Class LockLibOk : Prop := {
  lock_text_read : forall document s, toml_lock_text document = Some s -> toml_lock s = Some document;
  lock_text_version : forall document s, toml_lock_text document = Some s -> toml_lock_version s = Some (lock_version_number (lm_lock_version (tl_metadata document)));
}.
Context `{!LockLibOk}.

Lemma repository_display_ref r : repository_display r = ref_display (mkPackageRef (rp_registry r) (rp_repository r) None None).
Proof. unfold repository_display, ref_display. simpl. by rewrite !str_app_nil_r. Qed.
Lemma om_insert_last {V : Type} (k : string) (v : V) m : (forall k', In k' (om_keys m) -> k' <o k) -> om_insert k v m = (m ++ [(k, v)])%list.
Proof.
  induction m as [|[k' v'] m IH]; intros Hlt; simpl; [done|]. pose proof (Hlt k' (or_introl eq_refl)) as Hk.
  rewrite ord_cmp_opp, Hk. simpl. rewrite IH; [done|]. intros k'' Hin. apply Hlt. by right.
Qed.
Lemma platforms_from_text platforms : om_wf platforms -> (forall key digest, In (key, digest) platforms -> digest_wf digest = true) ->
  platforms_from (map (fun e => (e.1, digest_display e.2)) platforms) [] = Some platforms.
Proof.
  intros Hwf Hd. assert (Hgen : forall l acc, om_wf (acc ++ l)%list -> (forall key digest, In (key, digest) l -> digest_wf digest = true) ->
    platforms_from (map (fun e => (e.1, digest_display e.2)) l) acc = Some (acc ++ l)%list); [|by apply (Hgen platforms [])].
  clear Hwf Hd platforms. induction l as [|[key digest] l IH]; intros acc Hwf Hd; simpl; [by rewrite app_nil_r|].
  rewrite digest_parse_display by (eapply Hd; by left). rewrite om_insert_last.
  - rewrite IH; [by rewrite <- app_assoc|by rewrite <- app_assoc|]. intros k d Hin. eapply Hd. by right.
  - intros k Hin. unfold om_wf, om_keys in Hwf. rewrite map_app in Hwf. apply os_wf_app in Hwf as (_ & _ & Hlt). apply Hlt; [done|]. by left.
Qed.
Lemma raw_tool_text t : tool_wf t -> raw_tool_from (text_tool t) =
  Some (mkPackageRef (rp_registry (lt_repository t)) (rp_repository (lt_repository t)) None None, text_tool t, lt_platforms t).
Proof.
  intros [Hr Hp Hd]. unfold raw_tool_from. simpl. rewrite repository_display_ref. rewrite (proj1 (ref_parse_display _ Hr "")).
  by rewrite platforms_from_text.
Qed.
Lemma raw_tools_text tools : Forall tool_wf tools -> mapM raw_tool_from (map text_tool tools) =
  Some (map (fun t => (mkPackageRef (rp_registry (lt_repository t)) (rp_repository (lt_repository t)) None None, text_tool t, lt_platforms t)) tools).
Proof. induction 1 as [|t tools Ht _ IH]; simpl; [done|]. rewrite raw_tool_text by done. simpl. by rewrite IH. Qed.
Lemma into_tools_text path tools :
  into_tools path (map (fun t => (mkPackageRef (rp_registry (lt_repository t)) (rp_repository (lt_repository t)) None None, text_tool t, lt_platforms t)) tools) = Ok tools.
Proof. induction tools as [|[name group [registry repository] declared platforms] tools IH]; simpl; [done|]. by rewrite IH. Qed.

(** Validation does not look at the order of the entries, nor at the path of the file. *)
Lemma validate_tools_spec version path tools : validate_tools version path tools = Ok tt <->
  forall t, In t tools -> validate_canonical_platform_keys (map fst (lt_platforms t)) = Ok tt /\
    bool_decide (is_Some (lt_declared t)) = bool_decide (version = LockV4).
Proof.
  induction tools as [|t tools IH]; simpl; [done|]. destruct (validate_canonical_platform_keys _) as [[]|] eqn:Ev; simpl.
  - destruct (Bool.eqb _ _) eqn:Eb; simpl; [apply Bool.eqb_prop in Eb|apply Bool.eqb_false_iff in Eb].
    + rewrite IH. split; [|auto]. intros Hall t' [<-|Hin]; auto.
    + split; [done|]. intros Hall. by destruct (Hall t (or_introl eq_refl)) as [_ ?].
  - split; [done|]. intros Hall. destruct (Hall t (or_introl eq_refl)) as [E _]. by rewrite Ev in E.
Qed.
Lemma validate_lock_sorted lock path : validate_lock lock "" = Ok tt -> validate_lock (mkProjectLock (pl_metadata lock) (sort_tools (pl_tools lock))) path = Ok tt.
Proof.
  unfold validate_lock. simpl. destruct (negb _); [done|]. rewrite !validate_tools_spec. intros Hv t Hin. apply Hv. by rewrite <- (sort_tools_perm (pl_tools lock)).
Qed.

(** What is read is fit to be written again. *)
Lemma platforms_from_wf entries : forall acc platforms, om_wf acc -> (forall key digest, In (key, digest) acc -> digest_wf digest = true) ->
  platforms_from entries acc = Some platforms -> om_wf platforms /\ forall key digest, In (key, digest) platforms -> digest_wf digest = true.
Proof.
  induction entries as [|[key text] entries IH]; intros acc platforms Hwf Hd; simpl; [by intros [= <-]|].
  destruct (digest_try_from text) as [digest|] eqn:Et; [|done]. apply IH; [by apply om_insert_wf|].
  intros k d [[= -> ->]|Hin]%In_om_insert; [by eapply digest_try_from_wf|by eapply Hd|done].
Qed.
Lemma ref_parse_wf s r : ref_parse s = Ok r -> ref_wf r = true.
Proof.
  intros Hp. apply (parse_wf_lemma s DEFAULT_REGISTRY); [by vm_compute|]. revert Hp. unfold ref_parse, parse_with_default_registry.
  destruct (validate_segments s); simpl; [|done]. by destruct (has_explicit_registry s).
Qed.
Lemma read_tools_wf path texts : forall raws tools, mapM raw_tool_from texts = Some raws -> into_tools path raws = Ok tools -> Forall tool_wf tools.
Proof.
  induction texts as [|text texts IH]; intros raws tools; simpl; [by intros [= <-] [= <-]; constructor|].
  destruct (raw_tool_from text) as [[[r tt_] platforms]|] eqn:Er; simpl; [|done]. destruct (mapM raw_tool_from texts) as [rest|]; simpl; [|done]. intros [= <-]. simpl.
  destruct (_ || _) eqn:Eb; [done|]. destruct (into_tools path rest) as [tools'|] eqn:Ei; simpl; [|done]. intros [= <-]. constructor; [|by eapply IH].
  revert Er. unfold raw_tool_from. destruct (ref_parse (tt_repository text)) as [ref|] eqn:Ep; [|done].
  destruct (platforms_from (tt_platforms text) []) as [ps|] eqn:Eps; simpl; [|done]. intros [= <- <- <-].
  apply platforms_from_wf in Eps as [Hw Hd]; [|constructor|done]. apply orb_false_iff in Eb as [Et%bool_decide_eq_false Edg%bool_decide_eq_false].
  apply ref_parse_wf in Ep. split; simpl; [|done..]. destruct ref as [registry repository tag digest]. simpl in *.
  destruct tag; [exfalso; apply Et; eauto|]. destruct digest; [exfalso; apply Edg; eauto|done].
Qed.
Lemma lock_from_str_ok s path lock : lock_from_str s path = Ok lock -> Forall tool_wf (pl_tools lock) /\ validate_lock lock path = Ok tt.
Proof.
  unfold lock_from_str. destruct (toml_lock_version s); [|done]. destruct (negb _); [done|]. destruct (toml_lock s) as [text|]; [|done].
  destruct (mapM raw_tool_from (tl_tools text)) as [raws|] eqn:Er; [|done]. destruct (into_tools path raws) as [tools|] eqn:Ei; simpl; [|done].
  destruct (validate_lock _ _) as [[]|] eqn:Ev; simpl; [|done]. intros [= <-]. split; [by eapply read_tools_wf|done].
Qed.
Lemma read_lock_platforms s path lock : lock_from_str s path = Ok lock -> lock_platforms_ok lock.
Proof.
  intros [Hw Hv]%lock_from_str_ok t Hin. rewrite Forall_forall in Hw. specialize (Hw t (proj2 (list_elem_of_In _ _) Hin)). split; [apply Hw|].
  revert Hv. unfold validate_lock. destruct (negb _); [done|]. rewrite validate_tools_spec. intros Hv. by apply Hv.
Qed.
Lemma lock_text_ok lock s path : Forall tool_wf (pl_tools lock) -> to_toml_string lock = Ok s ->
  lock_from_str s path = Ok (mkProjectLock (pl_metadata lock) (sort_tools (pl_tools lock))).
Proof.
  intros Hw. unfold to_toml_string. destruct (validate_lock lock "") as [[]|] eqn:Ev; simpl; [|done].
  destruct (toml_lock_text _) as [text|] eqn:Et; [|done]. intros [= <-]. unfold lock_from_str. rewrite (lock_text_version _ _ Et). cbn [tl_metadata].
  assert (Hs : existsb (N.eqb (lock_version_number (lm_lock_version (pl_metadata lock)))) SUPPORTED_LOCK_VERSIONS = true) by by destruct (lm_lock_version _).
  rewrite Hs, (lock_text_read _ _ Et). cbn [negb tl_tools tl_metadata]. rewrite raw_tools_text, into_tools_text; cbn [result_bind]; [by rewrite validate_lock_sorted|].
  by rewrite (sort_tools_perm (pl_tools lock)).
Qed.
End LockText.

(** C29: A lock that can be written is read back.  Over a TOML library that reads what it wrote,
    the text [to_toml_string] gives for a lock of well-formed entries is accepted by
    [from_str_with_path] and gives the same metadata and the same entries, in the order of group
    and name; and whatever text it accepts gives a lock of well-formed entries that passes the
    validation of the writer, so reading, writing and reading again loses nothing. *)
Theorem lock_text_roundtrip `{!LockLib} `{!LockLibOk} (lock : ProjectLock) (s path : string)
    (Hwf : Forall tool_wf (pl_tools lock)) (Hprint : to_toml_string lock = Ok s) :
  lock_from_str s path = Ok (mkProjectLock (pl_metadata lock) (sort_tools (pl_tools lock))) /\
  forall text path' read, lock_from_str text path' = Ok read -> Forall tool_wf (pl_tools read) /\ validate_lock read path' = Ok tt.
Proof. split; [by apply lock_text_ok|]. intros text path' read. apply lock_from_str_ok. Qed.
