(* ===== verification/ToolSet.v ===== *)
(** * The tools of a run

    [crates/ocx_project/src/compose.rs] and [filter_by_names] of
    [crates/ocx_cli/src/app/project_context.rs]: which tools [ocx exec] composes from the groups
    it was given, the lock and the packages named on the command line, and in which version. *)

From stdpp Require Import base decidable list option numbers strings gmap.
From Stdlib Require Import Lia Ascii.
From S2P Require Import Prelude OMap Text TextSearch Digest PackageRef Platform Metadata Store Clean.
From S2P Require Import ConfigLoad ProjectConfig ProjectLock LockSpec.
Local Open Scope ocx_scope.
Local Open Scope string_scope.

(** ** The environment of the project *)

(** [project_env_entries]: the project's, then each selected group's at its last mention. *)
Fixpoint group_env_entries (config : ProjectConfig) (project_root : string) (groups : list string) : list Entry :=
  match groups with
  | [] => []
  | name :: rest =>
      if String.eqb name DEFAULT_GROUP || existsb (String.eqb name) rest then group_env_entries config project_root rest
      else match om_get name (pc_groups config) with
      | None => group_env_entries config project_root rest
      | Some group => (to_entries (gr_env group) project_root ++ group_env_entries config project_root rest)%list
      end
  end.
Definition project_env_entries (config : ProjectConfig) (config_path : string) (groups : list string) : list Entry :=
  let project_root := default "." (path_text_parent config_path) in
  (to_entries (pc_env config) project_root ++ group_env_entries config project_root groups)%list.

(** ** The selection *)

(** [enum Origin], [enum ToolSource], [struct SelectedTool], [ResolvedTool], [PositionalPackage]. *)
Inductive Origin : Type := OriginGroup (name : string) | OriginExplicit.
Inductive ToolSource : Type := SourceLocked (bound : BoundTool) | SourceExplicit (identifier : PackageRef).
Record SelectedTool : Type := mkSelectedTool { st_binding : string; st_origin : Origin; st_source : ToolSource }.
Record ResolvedTool : Type := mkResolvedTool { rt_binding : string; rt_identifier : PackageRef; rt_origin : Origin }.
Record PositionalPackage : Type := mkPositional { pos_binding : string; pos_identifier : PackageRef }.

(** [is_valid_binding], [parse_positional]. *)
Definition is_valid_binding (name : string) : bool :=
  negb (String.eqb name "") && str_forall (fun c => is_alnum c || Ascii.eqb c "_" || Ascii.eqb c "-" || Ascii.eqb c ".") name.
Definition parse_positional (input default_registry : string) : result PError PositionalPackage :=
  let '(explicit_binding, ident_str) :=
    match split_once "=" input with
    | Some (name, rest) => if is_valid_binding name then (Some name, rest) else (None, input)
    | None => (None, input)
    end in
  match parse_with_default_registry ident_str default_registry with
  | Err e => perr "" (tool_value_error (default ident_str explicit_binding) ident_str e)
  | Ok identifier => Ok (mkPositional (default (ref_name identifier) explicit_binding) identifier)
  end.
(** [expand_all_keyword]. *)
Definition expand_all_keyword (groups : list string) (config : ProjectConfig) : list string :=
  concat (map (fun entry => if String.eqb entry ALL_GROUP then DEFAULT_GROUP :: om_keys (pc_groups config) else [entry]) groups).

(** What the loop over the groups keeps: the selection, and where each binding was first put. *)
Record Selecting : Type := mkSelecting { sg_selected : list SelectedTool; sg_index : list (string * nat) }.
Definition from_lock (bound : BoundTool) : SelectedTool :=
  mkSelectedTool (lt_name (bt_locked bound)) (OriginGroup (lt_group (bt_locked bound))) (SourceLocked bound).
(** One locked entry; an entry of the group carries the group's name, so its origin is [raw]. *)
Definition select_entry (raw : string) (state : Selecting) (bound_tool : BoundTool) : Selecting :=
  let entry := bt_locked bound_tool in
  let push conflicting := mkSelecting (sg_selected state ++ [mkSelectedTool (lt_name entry) (OriginGroup raw) (SourceLocked bound_tool)])
    (if conflicting : bool then sg_index state else om_insert (lt_name entry) (length (sg_selected state)) (sg_index state)) in
  if negb (String.eqb (lt_group entry) raw) then state
  else match om_get (lt_name entry) (sg_index state) ≫= fun idx => sg_selected state !! idx with
  | Some (mkSelectedTool _ (OriginGroup g) (SourceLocked existing)) =>
      if String.eqb g raw then push false
      else if locked_tool_content_equal (bt_locked existing) entry then state else push true
  | _ => push false
  end.
Fixpoint select_groups (bound : list BoundTool) (groups seen_groups : list string) (state : Selecting) : Selecting :=
  match groups with
  | [] => state
  | raw :: rest =>
      if existsb (String.eqb raw) seen_groups then select_groups bound rest seen_groups state
      else select_groups bound rest (seen_groups ++ [raw]) (fold_left (select_entry raw) bound state)
  end.

(** One positional: [retain_mut], and the push when nothing was overridden. *)
Definition explicit (pos : PositionalPackage) : SelectedTool := mkSelectedTool (pos_binding pos) OriginExplicit (SourceExplicit (pos_identifier pos)).
Fixpoint override (pos : PositionalPackage) (overridden : bool) (selected : list SelectedTool) : list SelectedTool * bool :=
  match selected with
  | [] => ([], overridden)
  | tool :: rest =>
      if negb (String.eqb (st_binding tool) (pos_binding pos)) then let '(rest, overridden) := override pos overridden rest in (tool :: rest, overridden)
      else if overridden then override pos overridden rest
      else let '(rest, overridden) := override pos true rest in (explicit pos :: rest, overridden)
  end.
Definition select_positional (selected : list SelectedTool) (pos : PositionalPackage) : list SelectedTool :=
  let '(selected, overridden) := override pos false selected in
  if overridden : bool then selected else (selected ++ [explicit pos])%list.

(** The tools of a binding. *)
Definition named (binding : string) (selected : list SelectedTool) : list SelectedTool :=
  List.filter (fun tool => String.eqb (st_binding tool) binding) selected.

(** [check_duplicate_selection]. *)
Fixpoint check_positions (selected : list SelectedTool) (position : nat) (first_position_by_binding : list (string * nat)) (rest : list SelectedTool) :
    result PError unit :=
  match rest with
  | [] => Ok tt
  | tool :: rest =>
      let first := default position (om_get (st_binding tool) first_position_by_binding) in
      let first_position_by_binding := om_or_insert (st_binding tool) position first_position_by_binding in
      if (first =? position)%nat then check_positions selected (S position) first_position_by_binding rest
      else match st_origin <$> selected !! first, st_origin tool with
      | Some (OriginGroup group_a), OriginGroup group_b => perr "" (DuplicateToolAcrossSelectedGroups (st_binding tool) group_a group_b)
      | _, _ => check_positions selected (S position) first_position_by_binding rest
      end
  end.
Definition check_duplicate_selection (selected : list SelectedTool) : result PError unit := check_positions selected 0 [] selected.

(** [resolve_selected_tools]; a pinned reference is a reference with a digest. *)
Definition as_reference (pinned : PinnedPackageRef) : PackageRef :=
  mkPackageRef (pp_registry pinned) (pp_repository pinned) (pp_tag pinned) (Some (pp_digest pinned)).
Definition resolve_selected (platform : Platform) (tool : SelectedTool) : result PError ResolvedTool :=
  let? identifier := match st_source tool with
                     | SourceLocked bound => let? pinned := tagged_host_leaf (bt_locked bound) (bt_declared bound) platform in Ok (as_reference pinned)
                     | SourceExplicit identifier => Ok identifier
                     end in
  Ok (mkResolvedTool (st_binding tool) identifier (st_origin tool)).
Fixpoint resolve_selected_tools (selected : list SelectedTool) (platform : Platform) : result PError (list ResolvedTool) :=
  match selected with
  | [] => Ok []
  | tool :: rest =>
      let? resolved := resolve_selected platform tool in
      let? others := resolve_selected_tools rest platform in
      Ok (resolved :: others)
  end.

(** [select_tool_set], [compose_tool_set]. *)
Section Compose.
Context `{!ProjectLib}.
Definition select_tool_set (config : ProjectConfig) (lock : option ProjectLock) (groups : list string) (positionals : list PositionalPackage) :
    result PError (list SelectedTool) :=
  let? bound := match groups, lock with
                | [], _ => Ok []
                | _, None => perr "" LockMissing
                | _, Some lock => bind_current lock config
                end in
  Ok (fold_left select_positional positionals (sg_selected (select_groups bound groups [] (mkSelecting [] [])))).
Definition compose_tool_set (config : ProjectConfig) (lock : option ProjectLock) (groups : list string) (positionals : list PositionalPackage)
    (current_platform : Platform) : result PError (list ResolvedTool) :=
  let? selected := select_tool_set config lock groups positionals in
  let? _ := check_duplicate_selection selected in
  resolve_selected_tools selected current_platform.
End Compose.

(** [filter_by_names]; the positions of a binding are the tools they hold. *)
Inductive NameRefusal : Type :=
| BindingNotSelected (name : string) (groups : list string)
| BindingInSeveralGroups (name : string) (groups : list string).
Definition group_of (tool : SelectedTool) : option string := match st_origin tool with OriginGroup group => Some group | OriginExplicit => None end.
Fixpoint pick_names (selected : list SelectedTool) (groups names seen : list string) : result NameRefusal (list SelectedTool) :=
  match names with
  | [] => Ok []
  | name :: rest =>
      if existsb (String.eqb name) seen then pick_names selected groups rest seen
      else match named name selected with
      | [] => Err (BindingNotSelected name groups)
      | [single] => let? others := pick_names selected groups rest (name :: seen) in Ok (single :: others)
      | hits => Err (BindingInSeveralGroups name (omap group_of hits))
      end
  end.
Definition filter_by_names (selected : list SelectedTool) (groups names : list string) : result NameRefusal (list SelectedTool) :=
  match names with [] => Ok selected | _ => pick_names selected groups names [] end.

(** ** What the groups offer *)

Definition offer_key (bound : BoundTool) : Key := tool_key (bt_locked bound).
Definition offer_name (bound : BoundTool) : string := lt_name (bt_locked bound).
Definition same_content (a b : BoundTool) : bool := locked_tool_content_equal (bt_locked a) (bt_locked b).
Definition first_named (binding : string) (offers : list BoundTool) : option BoundTool := List.find (fun o => String.eqb (offer_name o) binding) offers.
(** The offers that stay: the first of a binding, and those that differ from it. *)
Definition keeps (seen : list BoundTool) (offer : BoundTool) : bool :=
  match first_named (offer_name offer) seen with Some first => negb (same_content first offer) | None => true end.
Fixpoint kept (seen offers : list BoundTool) : list BoundTool :=
  match offers with
  | [] => []
  | offer :: rest => if keeps seen offer then offer :: kept (seen ++ [offer]) rest else kept (seen ++ [offer]) rest
  end.
(** The groups in the order they were first named, and their entries. *)
Fixpoint new_groups (groups seen : list string) : list string :=
  match groups with
  | [] => []
  | raw :: rest => if existsb (String.eqb raw) seen then new_groups rest seen else raw :: new_groups rest (seen ++ [raw])
  end.
Definition in_selected (raw : string) (offer : BoundTool) : bool := String.eqb (lt_group (bt_locked offer)) raw.
Definition offers_of_groups (bound : list BoundTool) (groups : list string) : list BoundTool :=
  concat (map (fun raw => List.filter (in_selected raw) bound) groups).

Lemma kept_snoc seen offers offer : kept seen (offers ++ [offer]) = (kept seen offers ++ if keeps (seen ++ offers) offer then [offer] else [])%list.
Proof.
  revert seen. induction offers as [|o offers IH]; intros seen; simpl; [by rewrite app_nil_r; destruct (keeps seen offer)|].
  rewrite IH, <- app_assoc. simpl. by destruct (keeps seen o).
Qed.
Lemma first_named_snoc binding seen offer : first_named binding (seen ++ [offer]) =
  match first_named binding seen with Some first => Some first | None => if String.eqb (offer_name offer) binding then Some offer else None end.
Proof. unfold first_named. induction seen as [|o seen IH]; simpl; [done|]. by destruct (String.eqb (offer_name o) binding). Qed.
Lemma first_named_Some binding seen first : first_named binding seen = Some first -> In first seen /\ offer_name first = binding.
Proof. by intros [Hin E%String.eqb_eq]%find_some. Qed.

(** The loop over the groups gives the kept offers, and its index leads to the first of each binding. *)
Definition selecting_ok (offers : list BoundTool) (state : Selecting) : Prop :=
  sg_selected state = map from_lock (kept [] offers) /\
  forall binding, match first_named binding offers with
                  | Some first => exists i, om_get binding (sg_index state) = Some i /\ kept [] offers !! i = Some first
                  | None => om_get binding (sg_index state) = None
                  end.
Lemma select_entry_ok offers state offer : selecting_ok offers state -> ~ In (offer_key offer) (map offer_key offers) ->
  selecting_ok (offers ++ [offer]) (select_entry (lt_group (bt_locked offer)) state offer).
Proof.
  intros [Hsel Hidx] Hnew. unfold select_entry. rewrite String.eqb_refl. cbv zeta. cbn [negb]. pose proof (Hidx (offer_name offer)) as Hname.
  unfold selecting_ok. rewrite kept_snoc. simpl. unfold keeps. fold (offer_name offer). destruct (first_named (offer_name offer) offers) as [first|] eqn:Ef.
  - destruct Hname as (i & Hi & Hk). rewrite Hi. simpl. rewrite Hsel, list_lookup_fmap, Hk. simpl. pose proof (first_named_Some _ _ _ Ef) as [Hin Hn].
    assert (Hg : String.eqb (lt_group (bt_locked first)) (lt_group (bt_locked offer)) = false).
    { apply String.eqb_neq. intros Hg. apply Hnew. apply in_map_iff. exists first. split; [|done]. unfold offer_key, tool_key. unfold offer_name in Hn. congruence. }
    rewrite Hg. fold (same_content first offer). destruct (same_content first offer); simpl.
    + rewrite app_nil_r. split; [done|]. intros binding. rewrite first_named_snoc. specialize (Hidx binding). destruct (first_named binding offers) eqn:Eb; [done|].
      destruct (String.eqb (offer_name offer) binding) eqn:E; [|done]. apply String.eqb_eq in E as <-. congruence.
    + split; [by rewrite map_app|]. intros binding. rewrite first_named_snoc. specialize (Hidx binding). destruct (first_named binding offers) as [f|] eqn:Eb.
      * destruct Hidx as (j & Hj & Hl). exists j. split; [done|]. by apply lookup_app_l_Some.
      * destruct (String.eqb (offer_name offer) binding) eqn:E; [|done]. apply String.eqb_eq in E as <-. congruence.
  - rewrite Hname. simpl. split; [by rewrite Hsel, map_app|]. intros binding. rewrite first_named_snoc, om_get_insert, ord_eqb_string.
    specialize (Hidx binding). rewrite (String.eqb_sym binding). destruct (first_named binding offers) as [f|] eqn:Eb.
    + destruct (String.eqb (offer_name offer) binding) eqn:E; [apply String.eqb_eq in E as <-; congruence|]. destruct Hidx as (j & Hj & Hl). exists j. split; [done|].
      by apply lookup_app_l_Some.
    + destruct (String.eqb (offer_name offer) binding) eqn:E; [|done]. exists (length (sg_selected state)). split; [done|].
      rewrite Hsel, length_map, lookup_app_r by lia. by rewrite Nat.sub_diag.
Qed.
Lemma select_group_entries raw bound : forall state, fold_left (select_entry raw) bound state = fold_left (select_entry raw) (List.filter (in_selected raw) bound) state.
Proof.
  induction bound as [|o bound IH]; intros state; simpl; [done|]. unfold in_selected at 1. destruct (String.eqb (lt_group (bt_locked o)) raw) eqn:E; simpl; [apply IH|].
  rewrite <- IH. f_equal. unfold select_entry. by rewrite E.
Qed.
Lemma select_group_ok raw entries : forall offers state, Forall (fun o => lt_group (bt_locked o) = raw) entries ->
  List.NoDup (map offer_key (offers ++ entries)) -> selecting_ok offers state -> selecting_ok (offers ++ entries) (fold_left (select_entry raw) entries state).
Proof.
  induction entries as [|o entries IH]; intros offers state Hg Hnd Hok; simpl; [by rewrite app_nil_r|]. inversion Hg as [|? ? Ho Hg']; subst.
  rewrite cons_middle, app_assoc. apply IH; [done|by rewrite <- app_assoc|]. apply select_entry_ok; [done|].
  rewrite map_app in Hnd. simpl in Hnd. apply NoDup_remove_2 in Hnd. rewrite in_app_iff in Hnd. tauto.
Qed.
Lemma select_groups_ok bound groups : forall seen offers state, List.NoDup (map offer_key (offers ++ offers_of_groups bound (new_groups groups seen))) ->
  selecting_ok offers state -> selecting_ok (offers ++ offers_of_groups bound (new_groups groups seen)) (select_groups bound groups seen state).
Proof.
  induction groups as [|raw groups IH]; intros seen offers state Hnd Hok; simpl; [by rewrite app_nil_r|]. simpl in Hnd.
  destruct (existsb (String.eqb raw) seen); [by apply IH|]. unfold offers_of_groups in *. simpl in *. rewrite app_assoc in Hnd |- *.
  apply IH; [done|]. rewrite select_group_entries. apply select_group_ok; [| |done].
  - apply List.Forall_forall. intros o [_ E]%filter_In. by apply String.eqb_eq.
  - rewrite map_app in Hnd. by apply NoDup_app_remove_r in Hnd.
Qed.

(** Every group is met once, and every selected group is met. *)
Lemma existsb_eqb x l : existsb (String.eqb x) l = true <-> In x l.
Proof. rewrite existsb_exists. split; [by intros (y & Hin & ->%String.eqb_eq)|intros Hin; exists x; by rewrite String.eqb_refl]. Qed.
Lemma new_groups_In groups : forall seen raw, In raw (new_groups groups seen) <-> In raw groups /\ ~ In raw seen.
Proof.
  induction groups as [|g groups IH]; intros seen raw; simpl; [tauto|]. destruct (existsb (String.eqb g) seen) eqn:E.
  - apply existsb_eqb in E. rewrite IH. split; [tauto|]. intros [[->|Hin] Hn]; tauto.
  - assert (Hg : ~ In g seen) by (rewrite <- existsb_eqb; congruence). simpl. rewrite IH, in_app_iff. simpl. split; [intros [->|(? & ?)]; tauto|].
    intros [[->|Hin] Hn]; [by left|]. destruct (decide (g = raw)) as [->|]; [by left|]. right. tauto.
Qed.
Lemma new_groups_NoDup groups : forall seen, List.NoDup (new_groups groups seen).
Proof.
  induction groups as [|g groups IH]; intros seen; simpl; [constructor|]. destruct (existsb (String.eqb g) seen); [done|]. constructor; [|done].
  rewrite new_groups_In, in_app_iff. simpl. tauto.
Qed.
Lemma offers_of_groups_In bound groups offer : In offer (offers_of_groups bound groups) <-> In offer bound /\ In (lt_group (bt_locked offer)) groups.
Proof.
  unfold offers_of_groups. rewrite in_concat. split.
  - intros (l & (raw & <- & Hr)%in_map_iff & [Hin E%String.eqb_eq]%filter_In). by rewrite E.
  - intros [Hin Hg]. exists (List.filter (in_selected (lt_group (bt_locked offer))) bound). split; [by apply in_map_iff; eauto|].
    apply filter_In. split; [done|]. apply String.eqb_refl.
Qed.
Lemma NoDup_map_filter {A B : Type} (f : A -> B) (p : A -> bool) l : List.NoDup (map f l) -> List.NoDup (map f (List.filter p l)).
Proof.
  induction l as [|x l IH]; simpl; [done|]. intros [Hx Hnd]%NoDup_cons_iff. destruct (p x); simpl; [|by apply IH]. constructor; [|by apply IH].
  intros (y & E & [Hin _]%filter_In)%in_map_iff. apply Hx. rewrite <- E. by apply in_map.
Qed.
Lemma offers_of_groups_NoDup bound groups : List.NoDup groups -> List.NoDup (map offer_key bound) -> List.NoDup (map offer_key (offers_of_groups bound groups)).
Proof.
  intros Hg Hb. induction Hg as [|raw groups Hr Hg IH]; [constructor|]. unfold offers_of_groups. simpl. rewrite map_app. apply List.NoDup_app; [by apply NoDup_map_filter|done|].
  intros key (o & <- & [_ Eo%String.eqb_eq]%filter_In)%in_map_iff (o' & E & Hin)%in_map_iff. apply (offers_of_groups_In bound groups) in Hin as [_ Hin].
  apply Hr. rewrite <- Eo. unfold offer_key, tool_key in E. injection E as E1 _. by rewrite <- E1.
Qed.
Lemma select_groups_kept bound groups : List.NoDup (map offer_key bound) ->
  sg_selected (select_groups bound groups [] (mkSelecting [] [])) = map from_lock (kept [] (offers_of_groups bound (new_groups groups []))).
Proof.
  intros Hnd. refine (proj1 (select_groups_ok bound groups [] [] (mkSelecting [] []) _ _)); simpl; [|by split].
  apply offers_of_groups_NoDup; [apply new_groups_NoDup|done].
Qed.

(** ** One binding at a time *)

Lemma named_kept binding offers : forall seen,
  named binding (map from_lock (kept seen offers)) =
  map from_lock (kept (List.filter (fun o => String.eqb (offer_name o) binding) seen) (List.filter (fun o => String.eqb (offer_name o) binding) offers)).
Proof.
  induction offers as [|o offers IH]; intros seen; simpl; [done|]. pose proof (IH (seen ++ [o])%list) as Hx. rewrite List.filter_app in Hx. simpl in Hx.
  destruct (String.eqb (offer_name o) binding) eqn:E; simpl.
  - assert (Hk : keeps (List.filter (fun o => String.eqb (offer_name o) binding) seen) o = keeps seen o).
    { unfold keeps, first_named. apply String.eqb_eq in E as ->. assert (Hf : forall l, List.find (fun o => String.eqb (offer_name o) binding) (List.filter (fun o => String.eqb (offer_name o) binding) l) =
        List.find (fun o => String.eqb (offer_name o) binding) l); [|by rewrite Hf].
      intros l. induction l as [|x l IHl]; simpl; [done|]. destruct (String.eqb (offer_name x) binding) eqn:Ex; simpl; [by rewrite Ex|done]. }
    rewrite Hk. destruct (keeps seen o); simpl; [|done]. unfold offer_name in E. rewrite E. by f_equal.
  - rewrite app_nil_r in Hx. destruct (keeps seen o); simpl; [|done]. unfold offer_name in E. by rewrite E.
Qed.
Lemma kept_after first binding offers : Forall (fun o => offer_name o = binding) (first :: offers) -> forall seen,
  kept (first :: seen) offers = List.filter (fun o => negb (same_content first o)) offers.
Proof.
  intros Hall. inversion Hall as [|? ? Hf Ho]; subst. clear Hall. induction Ho as [|o offers Ho' _ IH]; intros seen; simpl; [done|].
  unfold keeps, first_named. simpl. rewrite Ho', String.eqb_refl. rewrite IH. by destruct (negb (same_content first o)).
Qed.
(** The tools of a binding after the loop over the groups. *)
Definition of_binding (offers : list BoundTool) (binding : string) : list BoundTool := List.filter (fun o => String.eqb (offer_name o) binding) offers.
Lemma named_offers binding offers : named binding (map from_lock (kept [] offers)) =
  match of_binding offers binding with
  | [] => []
  | first :: rest => from_lock first :: map from_lock (List.filter (fun o => negb (same_content first o)) rest)
  end.
Proof.
  rewrite named_kept. simpl. fold (of_binding offers binding). destruct (of_binding offers binding) as [|first rest] eqn:E; simpl; [done|]. unfold keeps. simpl. f_equal. f_equal.
  apply (kept_after first binding). rewrite <- E. apply List.Forall_forall. intros o [_ Eo]%filter_In. by apply String.eqb_eq.
Qed.

Lemma override_ok pos binding selected : forall overridden,
  named binding (override pos overridden selected).1 =
    (if String.eqb binding (pos_binding pos)
     then if overridden then [] else match named binding selected with [] => [] | _ => [explicit pos] end
     else named binding selected) /\
  (override pos overridden selected).2 = overridden || match named (pos_binding pos) selected with [] => false | _ => true end.
Proof.
  induction selected as [|tool selected IH]; intros overridden; simpl.
  - split; [by destruct (String.eqb binding _), overridden|by rewrite orb_false_r].
  - destruct (String.eqb (st_binding tool) (pos_binding pos)) eqn:E; simpl.
    + apply String.eqb_eq in E. destruct overridden; simpl.
      * destruct (IH true) as [H1 H2]. rewrite H1, H2. split; [|done]. rewrite E, (String.eqb_sym (pos_binding pos)). by destruct (String.eqb binding _).
      * destruct (IH true) as [H1 H2]. destruct (override pos true selected) as [rest o] eqn:Eo. simpl in *. rewrite H1, H2, E, (String.eqb_sym (pos_binding pos)). split; [|done].
        by destruct (String.eqb binding (pos_binding pos)).
    + destruct (IH overridden) as [H1 H2]. destruct (override pos overridden selected) as [rest o]. simpl in *. rewrite H1, H2. split; [|done].
      destruct (String.eqb (st_binding tool) binding) eqn:Eb; [|done]. apply String.eqb_eq in Eb as <-. by rewrite E.
Qed.
Lemma named_positional pos binding selected : named binding (select_positional selected pos) =
  if String.eqb binding (pos_binding pos) then [explicit pos] else named binding selected.
Proof.
  unfold select_positional. pose proof (override_ok pos binding selected false) as [H1 H2]. destruct (override pos false selected) as [s o] eqn:Eo. simpl in *.
  destruct (String.eqb binding (pos_binding pos)) eqn:E.
  - apply String.eqb_eq in E as ->. subst o. destruct (named (pos_binding pos) selected); simpl; [|done]. unfold named in *. rewrite List.filter_app, H1. simpl. by rewrite String.eqb_refl.
  - destruct o; [done|]. unfold named in *. rewrite List.filter_app, H1. simpl. rewrite (String.eqb_sym (pos_binding pos)), E. by rewrite app_nil_r.
Qed.
(** The positional that decides a binding is the last one. *)
Definition deciding (positionals : list PositionalPackage) (binding : string) : option PositionalPackage :=
  List.find (fun p => String.eqb (pos_binding p) binding) (rev positionals).
Lemma named_positionals positionals binding selected : named binding (fold_left select_positional positionals selected) =
  match deciding positionals binding with Some pos => [explicit pos] | None => named binding selected end.
Proof.
  unfold deciding. induction positionals as [|pos positionals IH] using rev_ind; simpl; [done|]. rewrite fold_left_app, rev_app_distr. simpl.
  rewrite named_positional, (String.eqb_sym binding). by destruct (String.eqb (pos_binding pos) binding).
Qed.

(** ** The check for duplicates *)

Definition is_group (tool : SelectedTool) : bool := match st_origin tool with OriginGroup _ => true | OriginExplicit => false end.
Definition duplicate_error (e : PError) : Prop := exists name group_a group_b, e = ProjectFailed (mkProjectError "" (DuplicateToolAcrossSelectedGroups name group_a group_b)).
(** A tool from a group after another of its binding from a group. *)
Definition no_clash (before : list SelectedTool) (tool : SelectedTool) : Prop :=
  match named (st_binding tool) before with first :: _ => is_group first && is_group tool = false | [] => True end.
Definition positions_ok (before : list SelectedTool) (selected : list SelectedTool) (positions : list (string * nat)) : Prop :=
  forall binding, match named binding before with
                  | first :: _ => exists i, om_get binding positions = Some i /\ i < length before /\ selected !! i = Some first
                  | [] => om_get binding positions = None
                  end.
Lemma named_snoc binding selected tool : named binding (selected ++ [tool]) = (named binding selected ++ if String.eqb (st_binding tool) binding then [tool] else [])%list.
Proof. unfold named. rewrite List.filter_app. simpl. by destruct (String.eqb _ _). Qed.
Lemma positions_snoc before tool after positions : positions_ok before (before ++ tool :: after) positions ->
  positions_ok (before ++ [tool]) (before ++ tool :: after) (om_or_insert (st_binding tool) (length before) positions).
Proof.
  intros Hp binding. specialize (Hp binding). rewrite named_snoc, length_app. simpl. unfold om_or_insert.
  destruct (String.eqb (st_binding tool) binding) eqn:E.
  - apply String.eqb_eq in E as <-. destruct (named (st_binding tool) before) as [|first rest]; simpl.
    + rewrite Hp. exists (length before). rewrite om_get_insert_eq. split_and!; [done|lia|]. rewrite lookup_app_r by lia. by rewrite Nat.sub_diag.
    + destruct Hp as (i & Hi & Hlt & Hl). rewrite Hi. exists i. split_and!; [done|lia|done].
  - rewrite app_nil_r. assert (Hg : forall m : list (string * nat), om_get binding (match om_get (st_binding tool) m with Some _ => m | None => om_insert (st_binding tool) (length before) m end) = om_get binding m).
    { intros m. destruct (om_get (st_binding tool) m); [done|]. rewrite om_get_insert, ord_eqb_string, String.eqb_sym. by rewrite E. }
    rewrite Hg. destruct (named binding before) as [|first rest]; [done|]. destruct Hp as (i & Hi & Hlt & Hl). exists i. split_and!; [done|lia|done].
Qed.
Lemma check_positions_ok after : forall before positions, positions_ok before (before ++ after) positions ->
  match check_positions (before ++ after) (length before) positions after with
  | Ok _ => forall l1 tool l2, after = (l1 ++ tool :: l2)%list -> no_clash (before ++ l1) tool
  | Err e => duplicate_error e /\ exists l1 tool l2, after = (l1 ++ tool :: l2)%list /\ ~ no_clash (before ++ l1) tool
  end.
Proof.
  induction after as [|tool after IH]; intros before positions Hp; simpl; [by intros [] ? ?|].
  pose proof (positions_snoc before tool after positions Hp) as Hnext. specialize (IH (before ++ [tool])%list _ ltac:(rewrite <- app_assoc; exact Hnext)).
  rewrite <- app_assoc, length_app, Nat.add_1_r in IH. simpl in IH.
  assert (Hgo : no_clash before tool -> match check_positions (before ++ tool :: after) (S (length before)) (om_or_insert (st_binding tool) (length before) positions) after with
    | Ok _ => forall l1 t l2, tool :: after = (l1 ++ t :: l2)%list -> no_clash (before ++ l1) t
    | Err e => duplicate_error e /\ exists l1 t l2, tool :: after = (l1 ++ t :: l2)%list /\ ~ no_clash (before ++ l1) t end).
  { intros Hc. destruct (check_positions _ _ _ _) as [[]|e].
    - intros [|x l1] t l2 [= <- E]; [by rewrite app_nil_r|]. rewrite cons_middle, app_assoc. by eapply IH.
    - destruct IH as (Hd & l1 & t & l2 & -> & Hn). split; [done|]. exists (tool :: l1), t, l2. split; [done|]. by rewrite cons_middle, app_assoc. }
  clear IH. specialize (Hp (st_binding tool)). destruct (named (st_binding tool) before) as [|first rest] eqn:En.
  - rewrite Hp. simpl. rewrite Nat.eqb_refl. apply Hgo. unfold no_clash. by rewrite En.
  - destruct Hp as (i & Hi & Hlt & Hl). rewrite Hi. simpl. rewrite (proj2 (Nat.eqb_neq _ _)) by lia. rewrite Hl. simpl.
    destruct (st_origin first) eqn:Ef, (st_origin tool) eqn:Et; try (apply Hgo; unfold no_clash, is_group; by rewrite En, Ef, Et).
    split; [unfold duplicate_error; eauto|]. exists [], tool, after. split; [done|]. rewrite app_nil_r. unfold no_clash, is_group. by rewrite En, Ef, Et.
Qed.

(** Where the second tool of a binding stands. *)
Lemma second_named binding selected first second rest : named binding selected = first :: second :: rest ->
  exists l1 l2, selected = (l1 ++ second :: l2)%list /\ named binding l1 = [first].
Proof.
  induction selected as [|t selected IH]; simpl; [done|]. destruct (String.eqb (st_binding t) binding) eqn:E.
  - intros [= -> En]. clear IH. revert En. induction selected as [|t selected IH]; simpl; [done|]. destruct (String.eqb (st_binding t) binding) eqn:Et.
    + intros [= -> _]. exists [first], selected. split; [done|]. simpl. by rewrite E.
    + intros En. destruct (IH En) as (l1 & l2 & Hl & Hn). destruct l1 as [|x l1]; [done|]. simpl in Hl. injection Hl as <- ->.
      exists (first :: t :: l1), l2. split; [done|]. simpl in *. rewrite E in *. by rewrite Et.
  - intros En. destruct (IH En) as (l1 & l2 & -> & Hn). exists (t :: l1), l2. split; [done|]. simpl. by rewrite E.
Qed.
(** A selection of which every binding is one tool from the command line, or tools from groups. *)
Definition uniform (selected : list SelectedTool) : Prop := forall binding, length (named binding selected) <= 1 \/ Forall (fun tool => is_group tool = true) (named binding selected).
Lemma check_duplicates_ok selected : uniform selected ->
  match check_duplicate_selection selected with
  | Ok _ => forall binding, length (named binding selected) <= 1
  | Err e => duplicate_error e /\ exists binding, ~ length (named binding selected) <= 1
  end.
Proof.
  intros Hu. unfold check_duplicate_selection. pose proof (check_positions_ok selected [] [] ltac:(by intros binding)) as Hc. simpl in Hc.
  destruct (check_positions selected 0 [] selected) as [[]|e].
  - intros binding. destruct (Hu binding) as [|Hg]; [done|]. destruct (named binding selected) as [|first [|second rest]] eqn:En; simpl; [lia..|]. exfalso.
    assert (Hin : In second (named binding selected)) by (rewrite En; simpl; tauto).
    destruct (second_named _ _ _ _ _ En) as (l1 & l2 & Hl & Hn). specialize (Hc _ _ _ Hl). unfold no_clash in Hc. apply filter_In in Hin as [_ Eb%String.eqb_eq]. rewrite Eb, Hn in Hc.
    inversion Hg as [|? ? H1 Hg2]; subst. inversion Hg2 as [|? ? H2 _]; subst. by rewrite H1, H2 in Hc.
  - destruct Hc as (Hd & l1 & tool & l2 & -> & Hn). split; [done|]. exists (st_binding tool). unfold no_clash in Hn.
    destruct (named (st_binding tool) l1) as [|first rest] eqn:En; [tauto|]. unfold named in *. rewrite List.filter_app, En. simpl. rewrite String.eqb_refl, length_app. simpl. lia.
Qed.

(** ** The tools of a run *)

Section Chosen.
Context `{!ProjectLib} (config : ProjectConfig) (lock : ProjectLock) (groups : list string) (positionals : list PositionalPackage) (platform : Platform).

(** A locked entry of a selected group, and whether the selected groups agree on what no positional decides. *)
Definition selected_entry (t : LockedTool) : Prop := In t (pl_tools lock) /\ In (lt_group t) groups.
Definition groups_agree : Prop :=
  forall t t', selected_entry t -> selected_entry t' -> lt_name t = lt_name t' -> deciding positionals (lt_name t) = None -> locked_tool_content_equal t t' = true.
(** The tool of a binding: the last positional's, or the host leaf of a locked entry under its declared tag. *)
Definition right_tool (tool : ResolvedTool) : Prop :=
  match deciding positionals (rt_binding tool) with
  | Some pos => rt_identifier tool = pos_identifier pos /\ rt_origin tool = OriginExplicit
  | None => exists t declared pinned, selected_entry t /\ lt_name t = rt_binding tool /\ declared_identifier config (lt_group t) (lt_name t) = Some declared /\
      tagged_host_leaf t declared platform = Ok pinned /\ rt_identifier tool = as_reference pinned /\ rt_origin tool = OriginGroup (lt_group t)
  end.
Record tool_set (tools : list ResolvedTool) : Prop := {
  ts_once : List.NoDup (map rt_binding tools);
  ts_bindings : forall binding, In binding (map rt_binding tools) <-> In binding (map pos_binding positionals) \/ exists t, selected_entry t /\ lt_name t = binding;
  ts_right : forall tool, In tool tools -> right_tool tool;
}.

Context (Hunique : List.NoDup (map tool_key (pl_tools lock))) (Hcurrent : is_current lock config = true).
Lemma bind_current_ok : exists bound, bind_current lock config = Ok bound /\ map bt_locked bound = pl_tools lock /\
  forall o, In o bound -> declared_identifier config (lt_group (bt_locked o)) (lt_name (bt_locked o)) = Some (bt_declared o).
Proof.
  unfold is_current in Hcurrent. apply andb_true_iff in Hcurrent as [Hh Hall]. unfold bind_current, bind, declarations. rewrite Hh. simpl. clear Hh Hunique.
  induction (pl_tools lock) as [|t tools IH]; simpl in *; [by exists []|]. apply andb_true_iff in Hall as [[declared Hd]%bool_decide_eq_true Hall].
  destruct (IH Hall) as (bound & Hb & Hm & Hdec). rewrite Hd. destruct (bind_tools config tools) as [pairs|]; simpl in *; [|done]. injection Hb as <-.
  exists (mkBoundTool t declared :: map (fun p => mkBoundTool p.1 p.2) pairs). split; [done|]. simpl. rewrite Hm. split; [done|].
  intros o [<-|Hin]; [|by apply Hdec]. simpl. unfold declaration_of in Hd. destruct (declared_identifier _ _ _); [|done]. by destruct (_ && _).
Qed.

(** What is selected: the kept offers of the groups under the positionals. *)
Definition chosen (bound : list BoundTool) : list SelectedTool :=
  fold_left select_positional positionals (map from_lock (kept [] (offers_of_groups bound (new_groups groups [])))).
Lemma select_tool_set_ok : exists bound, map bt_locked bound = pl_tools lock /\
  (forall o, In o bound -> declared_identifier config (lt_group (bt_locked o)) (lt_name (bt_locked o)) = Some (bt_declared o)) /\
  select_tool_set config (Some lock) groups positionals = Ok (chosen bound).
Proof.
  destruct bind_current_ok as (bound & Hb & Hm & Hd). exists bound. split_and!; [done..|]. unfold select_tool_set, chosen. destruct groups as [|g gs]; [done|].
  rewrite Hb. cbn [result_bind]. rewrite select_groups_kept; [done|]. unfold offer_key. rewrite <- (map_map bt_locked tool_key), Hm. done.
Qed.

Section Bound.
Context (bound : list BoundTool) (Hlocked : map bt_locked bound = pl_tools lock)
  (Hdeclared : forall o, In o bound -> declared_identifier config (lt_group (bt_locked o)) (lt_name (bt_locked o)) = Some (bt_declared o)).
Let offers := offers_of_groups bound (new_groups groups []).

Lemma offers_selected o : In o offers -> In o bound /\ selected_entry (bt_locked o).
Proof.
  intros [Hin Hg]%offers_of_groups_In. apply new_groups_In in Hg as [Hg _]. split; [done|]. split; [|done]. rewrite <- Hlocked. by apply in_map.
Qed.
Lemma selected_offer t : selected_entry t -> exists o, In o offers /\ bt_locked o = t.
Proof.
  intros [Hin Hg]. rewrite <- Hlocked in Hin. apply in_map_iff in Hin as (o & <- & Hin). exists o. split; [|done]. apply offers_of_groups_In. split; [done|].
  apply new_groups_In. auto.
Qed.
Lemma of_binding_In o binding : In o (of_binding offers binding) <-> In o offers /\ offer_name o = binding.
Proof. unfold of_binding. by rewrite filter_In, String.eqb_eq. Qed.
Lemma chosen_named binding : named binding (chosen bound) =
  match deciding positionals binding with
  | Some pos => [explicit pos]
  | None => match of_binding offers binding with
            | [] => []
            | first :: rest => from_lock first :: map from_lock (List.filter (fun o => negb (same_content first o)) rest)
            end
  end.
Proof. unfold chosen. by rewrite named_positionals, named_offers. Qed.
Lemma chosen_uniform : uniform (chosen bound).
Proof.
  intros binding. rewrite chosen_named. destruct (deciding positionals binding); [left; simpl; lia|]. right. destruct (of_binding offers binding) as [|first rest]; [constructor|].
  constructor; [done|]. apply List.Forall_forall. by intros tool (o & <- & _)%in_map_iff.
Qed.
Lemma same_content_eq a b : same_content a b = true <-> lt_repository (bt_locked a) = lt_repository (bt_locked b) /\ lt_platforms (bt_locked a) = lt_platforms (bt_locked b).
Proof. unfold same_content, locked_tool_content_equal. by rewrite andb_true_iff, !bool_decide_eq_true. Qed.
(** A binding is chosen once exactly when the groups that offer it agree. *)
Lemma chosen_once_agree : (forall binding, length (named binding (chosen bound)) <= 1) <-> groups_agree.
Proof.
  split.
  - intros Hone t t' Ht Ht' Hn Hd. destruct (selected_offer t Ht) as (o & Ho & <-), (selected_offer t' Ht') as (o' & Ho' & <-).
    specialize (Hone (offer_name o)). rewrite chosen_named in Hone. fold (offer_name o) in Hd. rewrite Hd in Hone.
    assert (Hin : In o (of_binding offers (offer_name o)) /\ In o' (of_binding offers (offer_name o))) by (rewrite !of_binding_In; done).
    destruct (of_binding offers (offer_name o)) as [|first rest]; [by destruct Hin|]. simpl in Hone. rewrite length_map in Hone.
    assert (Hall : forall x, In x (first :: rest) -> same_content first x = true).
    { intros x [<-|Hx]; [by apply same_content_eq|]. destruct (same_content first x) eqn:E; [done|]. exfalso.
      assert (Hf : In x (List.filter (fun o => negb (same_content first o)) rest)) by (apply filter_In; by rewrite E).
      destruct (List.filter _ rest); [done|simpl in Hone; lia]. }
    destruct Hin as [[H1 H2]%Hall%same_content_eq [H3 H4]%Hall%same_content_eq]. apply (same_content_eq o o'). split; congruence.
  - intros Ha binding. rewrite chosen_named. destruct (deciding positionals binding) eqn:Ed; [simpl; lia|]. destruct (of_binding offers binding) as [|first rest] eqn:Eo; simpl; [lia|].
    rewrite length_map. destruct (List.filter _ rest) as [|x l] eqn:Ef; simpl; [lia|]. exfalso. assert (Hx : In x (x :: l)) by by left. rewrite <- Ef in Hx.
    apply filter_In in Hx as [Hx E]. assert (Hin : In first (of_binding offers binding) /\ In x (of_binding offers binding)) by (rewrite Eo; split; [by left|by right]).
    rewrite !of_binding_In in Hin. destruct Hin as [[[_ H1]%offers_selected Hn1] [[_ H2]%offers_selected Hn2]]. unfold offer_name in *.
    assert (Hs : same_content first x = true) by (apply Ha; [done|done|congruence|congruence]). by rewrite Hs in E.
Qed.
(** A chosen tool is the deciding positional, or a locked entry under its declaration. *)
Lemma chosen_source tool : In tool (chosen bound) ->
  match deciding positionals (st_binding tool) with
  | Some pos => tool = explicit pos
  | None => exists o, In o offers /\ tool = from_lock o
  end.
Proof.
  intros Hin. assert (Hn : In tool (named (st_binding tool) (chosen bound))) by (apply filter_In; by rewrite String.eqb_refl). rewrite chosen_named in Hn.
  destruct (deciding positionals (st_binding tool)); [by destruct Hn as [<-|[]]|]. destruct (of_binding offers (st_binding tool)) as [|first rest] eqn:Eo; [done|].
  assert (Hall : forall o, In o (first :: rest) -> In o offers) by (intros o Ho; rewrite <- Eo in Ho; apply of_binding_In in Ho; tauto).
  destruct Hn as [<-|(o & <- & [Ho _]%filter_In)%in_map_iff]; [exists first|exists o]; (split; [apply Hall; simpl; tauto|done]).
Qed.
Lemma deciding_In binding : is_Some (deciding positionals binding) <-> In binding (map pos_binding positionals).
Proof.
  unfold deciding. split.
  - intros [pos [Hin E%String.eqb_eq]%find_some]. rewrite <- E. apply in_map. by apply in_rev.
  - intros (pos & <- & Hin)%in_map_iff. destruct (List.find _ _) eqn:E; [eauto|]. eapply find_none in E; [|apply in_rev; rewrite rev_involutive; exact Hin].
    simpl in E. by rewrite String.eqb_refl in E.
Qed.
Lemma chosen_bindings binding : In binding (map st_binding (chosen bound)) <->
  In binding (map pos_binding positionals) \/ exists t, selected_entry t /\ lt_name t = binding.
Proof.
  assert (Hn : In binding (map st_binding (chosen bound)) <-> named binding (chosen bound) <> []).
  { split.
    - intros (tool & <- & Hin)%in_map_iff Hno. assert (Hf : In tool (named (st_binding tool) (chosen bound))) by (apply filter_In; by rewrite String.eqb_refl). by rewrite Hno in Hf.
    - intros Hne. destruct (named binding (chosen bound)) as [|tool l] eqn:E; [done|]. assert (Hf : In tool (named binding (chosen bound))) by (rewrite E; by left).
      apply filter_In in Hf as [Hin <-%String.eqb_eq]. by apply in_map. }
  rewrite Hn, chosen_named, <- deciding_In. destruct (deciding positionals binding) as [pos|]; [split; [eauto|done]|]. split.
  - intros Hne. right. destruct (of_binding offers binding) as [|o rest] eqn:Eo; [done|]. assert (Hin : In o (of_binding offers binding)) by (rewrite Eo; by left).
    apply of_binding_In in Hin as [[_ Hs]%offers_selected Hname]. by exists (bt_locked o).
  - intros [[? [=]]|(t & Ht & <-)]. destruct (selected_offer t Ht) as (o & Ho & <-). assert (Hin : In o (of_binding offers (lt_name (bt_locked o)))) by (apply of_binding_In; split; [exact Ho|reflexivity]).
    by destruct (of_binding offers _).
Qed.
End Bound.
End Chosen.

Lemma resolve_selected_tools_ok platform selected :
  match resolve_selected_tools selected platform with
  | Ok tools => Forall2 (fun s tool => resolve_selected platform s = Ok tool) selected tools
  | Err e => exists s, In s selected /\ resolve_selected platform s = Err e
  end.
Proof.
  induction selected as [|s selected IH]; simpl; [constructor|]. destruct (resolve_selected platform s) as [tool|e] eqn:E; simpl; [|eauto].
  destruct (resolve_selected_tools selected platform) as [tools|e]; simpl; [by constructor|]. destruct IH as (s' & Hin & Hs). eauto.
Qed.
Lemma resolve_selected_Ok platform s tool : resolve_selected platform s = Ok tool -> rt_binding tool = st_binding s /\ rt_origin tool = st_origin s /\
  match st_source s with
  | SourceLocked o => exists pinned, tagged_host_leaf (bt_locked o) (bt_declared o) platform = Ok pinned /\ rt_identifier tool = as_reference pinned
  | SourceExplicit identifier => rt_identifier tool = identifier
  end.
Proof.
  unfold resolve_selected. destruct (st_source s) as [o|identifier]; simpl; [|by intros [= <-]]. destruct (tagged_host_leaf _ _ _) as [pinned|]; simpl; [|done].
  intros [= <-]. simpl. eauto.
Qed.
Lemma named_once_NoDup selected : (forall binding, length (named binding selected) <= 1) -> List.NoDup (map st_binding selected).
Proof.
  induction selected as [|s selected IH]; intros Hone; simpl; [constructor|]. constructor.
  - intros (s' & E & Hin)%in_map_iff. specialize (Hone (st_binding s)). unfold named in Hone. simpl in Hone. rewrite String.eqb_refl in Hone. simpl in Hone.
    assert (Hf : In s' (List.filter (fun tool => String.eqb (st_binding tool) (st_binding s)) selected)) by (apply filter_In; by rewrite E, String.eqb_refl).
    destruct (List.filter _ selected); [done|simpl in Hone; lia].
  - apply IH. intros binding. specialize (Hone binding). unfold named in *. simpl in Hone. destruct (String.eqb (st_binding s) binding); simpl in Hone; lia.
Qed.
Lemma Forall2_map_eq {A B C : Type} (P : A -> B -> Prop) (f : A -> C) (g : B -> C) l k : (forall a b, P a b -> f a = g b) -> Forall2 P l k -> map f l = map g k.
Proof. intros Hp. induction 1 as [|a b l k Hab _ IH]; simpl; [done|]. by rewrite (Hp a b Hab), IH. Qed.

Lemma tools_right `{!ProjectLib} config lock groups positionals platform bound tools : map bt_locked bound = pl_tools lock ->
  (forall o, In o bound -> declared_identifier config (lt_group (bt_locked o)) (lt_name (bt_locked o)) = Some (bt_declared o)) ->
  (forall binding, length (named binding (chosen groups positionals bound)) <= 1) ->
  Forall2 (fun s tool => resolve_selected platform s = Ok tool) (chosen groups positionals bound) tools -> tool_set config lock groups positionals platform tools.
Proof.
  intros Hlocked Hdeclared Hone Hr. assert (Hmap : map st_binding (chosen groups positionals bound) = map rt_binding tools).
  { eapply Forall2_map_eq; [|exact Hr]. by intros s tool (-> & _)%resolve_selected_Ok. }
  split.
  - rewrite <- Hmap. by apply named_once_NoDup.
  - intros binding. rewrite <- Hmap. by apply chosen_bindings.
  - intros tool Hin. apply list_elem_of_In, list_elem_of_lookup_1 in Hin as [i Hi]. destruct (Forall2_lookup_r _ _ _ _ _ Hr Hi) as (s & Hs & Hrs).
    apply list_elem_of_lookup_2, list_elem_of_In in Hs. apply (chosen_source groups positionals bound) in Hs. apply resolve_selected_Ok in Hrs as (Hb & Ho & Hid).
    unfold right_tool. rewrite Hb. destruct (deciding positionals (st_binding s)) as [pos|]; [subst s; done|].
    destruct Hs as (o & Hin & ->). destruct (offers_selected lock groups bound Hlocked o Hin) as [Hbound Hsel]. destruct Hid as (pinned & Hp & Hid).
    exists (bt_locked o), (bt_declared o), pinned. split_and!; auto.
Qed.
Lemma no_leaf_entry lock groups positionals platform bound e : map bt_locked bound = pl_tools lock ->
  (exists s, In s (chosen groups positionals bound) /\ resolve_selected platform s = Err e) ->
  exists t, selected_entry lock groups t /\ deciding positionals (lt_name t) = None /\ host_leaf t platform = Err e.
Proof.
  intros Hlocked (s & Hin & Hr). apply (chosen_source groups positionals bound) in Hin. destruct (deciding positionals (st_binding s)) as [pos|] eqn:Ed; [by subst s|].
  destruct Hin as (o & Hin & ->). exists (bt_locked o). split_and!; [apply (offers_selected lock groups bound Hlocked o Hin)|done|].
  revert Hr. unfold resolve_selected, tagged_host_leaf. simpl. destruct (host_leaf (bt_locked o) platform) as [leaf|e']; simpl; [done|]. by intros [= ->].
Qed.

(** C30: The tools [ocx exec] composes.  On a lock that binds to the project file and holds each
    binding once, [compose_tool_set] gives one tool for every binding that a positional names or a
    selected group holds, and for no other: the last positional of the binding, verbatim, if there
    is one, and otherwise the leaf for the platform of a locked entry of a selected group, under
    the tag the file declares for it.  It fails only where two selected groups lock a binding no
    positional decides at different content, which it always refuses, or where an entry to be used
    has no leaf for the platform. *)
Theorem tool_set_exact `{!ProjectLib} (config : ProjectConfig) (lock : ProjectLock) (groups : list string) (positionals : list PositionalPackage) (platform : Platform)
    (Hunique : List.NoDup (map tool_key (pl_tools lock))) (Hcurrent : is_current lock config = true) :
  match compose_tool_set config (Some lock) groups positionals platform with
  | Ok tools => groups_agree lock groups positionals /\ tool_set config lock groups positionals platform tools
  | Err e => (~ groups_agree lock groups positionals /\ duplicate_error e) \/
      (groups_agree lock groups positionals /\
       exists t, selected_entry lock groups t /\ deciding positionals (lt_name t) = None /\ host_leaf t platform = Err e)
  end.
Proof.
  destruct (select_tool_set_ok config lock groups positionals Hunique Hcurrent) as (bound & Hlocked & Hdeclared & Hs). unfold compose_tool_set. rewrite Hs. cbn [result_bind].
  pose proof (check_duplicates_ok _ (chosen_uniform groups positionals bound)) as Hc. pose proof (chosen_once_agree lock groups positionals bound Hlocked) as Ha.
  destruct (check_duplicate_selection _) as [[]|e]; cbn [result_bind].
  - pose proof (proj1 Ha Hc) as Hagree. pose proof (resolve_selected_tools_ok platform (chosen groups positionals bound)) as Hr.
    destruct (resolve_selected_tools _ platform) as [tools|e].
    + split; [done|]. by apply (tools_right config lock groups positionals platform bound).
    + right. split; [done|]. by apply (no_leaf_entry lock groups positionals platform bound).
  - left. destruct Hc as [Hd [binding Hb]]. split; [|done]. intros Hagree. by apply Hb, Ha.
Qed.

(** ** Runs of named tools *)

Lemma pick_names_ok selected groups names : forall seen out, pick_names selected groups names seen = Ok out ->
  List.NoDup (map st_binding out) /\ forall tool, In tool out -> ~ In (st_binding tool) seen /\ named (st_binding tool) selected = [tool].
Proof.
  induction names as [|name names IH]; intros seen out; simpl; [intros [= <-]; by split; [constructor|]|].
  destruct (existsb (String.eqb name) seen) eqn:E; [apply IH|]. destruct (named name selected) as [|single [|? ?]] eqn:En; [done| |done].
  destruct (pick_names selected groups names (name :: seen)) as [others|] eqn:Eo; simpl; [|done]. intros [= <-]. apply IH in Eo as [Hnd Hall].
  assert (Hn : st_binding single = name) by (assert (Hin : In single (named name selected)) by (rewrite En; by left); apply filter_In in Hin as [_ Hx]; by apply String.eqb_eq).
  split; simpl.
  - constructor; [|done]. intros (tool & Ht & Hin)%in_map_iff. apply Hall in Hin as [Hnot _]. apply Hnot. left. congruence.
  - intros tool [<-|Hin]; [|split; [intros Hs; by apply (proj1 (Hall tool Hin)); right|by apply Hall]]. rewrite Hn. split; [|done]. by rewrite <- existsb_eqb, E.
Qed.
(** A run that names its tools is never refused for a clash: the names decide before the check. *)
Lemma named_run_unclashed selected groups names out : names <> [] -> filter_by_names selected groups names = Ok out ->
  List.NoDup (map st_binding out) /\ check_duplicate_selection out = Ok tt.
Proof.
  intros Hne Hf. assert (Hp : pick_names selected groups names [] = Ok out) by by destruct names. apply pick_names_ok in Hp as [Hnd _]. split; [done|].
  assert (Hone : forall binding, length (named binding out) <= 1).
  { intros binding. clear -Hnd. induction out as [|tool out IH]; simpl in *; [lia|]. apply NoDup_cons_iff in Hnd as [Hx Hnd]. specialize (IH Hnd).
    destruct (String.eqb (st_binding tool) binding) eqn:E; [|done]. apply String.eqb_eq in E as <-. simpl.
    destruct (named (st_binding tool) out) as [|t l] eqn:En; simpl; [lia|]. exfalso. apply Hx. assert (Hin : In t (named (st_binding tool) out)) by (rewrite En; by left).
    apply filter_In in Hin as [Hin <-%String.eqb_eq]. by apply in_map. }
  pose proof (check_duplicates_ok out ltac:(intros binding; left; apply Hone)) as Hc. destruct (check_duplicate_selection out) as [[]|e]; [done|].
  destruct Hc as [_ [binding Hb]]. by destruct (Hb (Hone binding)).
Qed.
