(* ===== verification/ProjectMutation.v ===== *)
(** * Changing a project

    [crates/ocx_project/src/mutation.rs], [document.rs], [project_lock.rs], the file half of
    [mutate.rs] and [lock.rs], and [load_project_for_mutate] of
    [crates/ocx_cli/src/app/project_context.rs]: the guard over [ocx.toml] and [ocx.lock], the
    edit of the document that leaves every other line alone, and the commit that writes the lock
    first and puts the old one back when the manifest cannot be written.

    The file system is the class [ProjectDisk]; [toml_edit]'s parser and printer are the class
    [DocumentLib].  The seam for injected faults is not part of a release build and is left out. *)

From stdpp Require Import base decidable list option numbers strings gmap.
From Stdlib Require Import Lia Ascii.
From S2P Require Import Prelude OMap Text TextSearch Digest PackageRef Platform Store Clean ChainSpec.
From S2P Require Import ConfigLoad ProjectConfig ProjectLock LockSpec.
Local Open Scope ocx_scope.
Local Open Scope string_scope.

(** ** The document *)

(** [toml_edit::Item]; a decor is the comment and the blanks around a value. *)
#[warnings="-register-all"]
Inductive Item : Type :=
| ItemText (decor text : string)
| ItemInline (decor : string) (entries : list (string * Item))
| ItemValue (decor raw : string)
| ItemTable (implicit : bool) (entries : list (string * Item))
| ItemTables (raw : string).
Definition Entries : Type := list (string * Item).
Record Document : Type := mkDocument { doc_entries : Entries; doc_trailing : string }.
Class DocumentLib : Type := {
  document_parse : string -> option Document;
  document_display : Document -> string;
}.

(** [get], [remove] and [insert] of a table: an insertion keeps the place of a key it replaces. *)
Definition item_get (key : string) (table : Entries) : option Item := snd <$> List.find (fun e => String.eqb e.1 key) table.
Definition item_remove (key : string) (table : Entries) : Entries := List.filter (fun e => negb (String.eqb e.1 key)) table.
Fixpoint item_set (key : string) (item : Item) (table : Entries) : Entries :=
  match table with
  | [] => [(key, item)]
  | (k, i) :: rest => if String.eqb k key then (k, item) :: rest else (k, i) :: item_set key item rest
  end.
Definition item_str (item : Item) : option string := match item with ItemText _ text => Some text | _ => None end.
(** [as_table_like], and the same item with other entries. *)
Definition item_table (item : Item) : option (Entries * (Entries -> Item)) :=
  match item with
  | ItemTable implicit entries => Some (entries, ItemTable implicit)
  | ItemInline decor entries => Some (entries, ItemInline decor)
  | _ => None
  end.

(** [take_header]. *)
Definition ends_with_newline (s : string) : bool := str_ends_with (String Metadata.newline "") s.
Definition take_header (document : Document) : string * Document :=
  match doc_entries document with
  | [] =>
      let header := doc_trailing document in
      ((if negb (String.eqb header "") && negb (ends_with_newline header) then header +:+ String Metadata.newline "" else header),
       mkDocument [] "")
  | _ => ("", document)
  end.

(** [write_binding]: an existing value keeps its decor, anything else is replaced. *)
Definition write_binding (table : Entries) (key rendered : string) : Entries :=
  match item_get key table with
  | Some (ItemText decor _) | Some (ItemInline decor _) | Some (ItemValue decor _) => item_set key (ItemText decor rendered) table
  | _ => item_set key (ItemText "" rendered) table
  end.
(** [is_from_default]. *)
Definition is_from_default (item : Item) : bool :=
  match item_table item with
  | Some ([(key, value)], _) => String.eqb key "from" && bool_decide (item_str value = Some DEFAULT_GROUP)
  | _ => false
  end.
(** Whether the line of [key] already says the binding, and [sync_bindings]. *)
Definition says (table : Entries) (key : string) (identifier : PackageRef) : bool :=
  match item_get key table ≫= item_str with
  | Some declared => match parse_tool_value declared with Ok parsed => bool_decide (parsed = identifier) | Err _ => false end
  | None => false
  end.
Definition sync_binding (inherited : list string) (table : Entries) (binding : string * PackageRef) : Entries :=
  if os_mem binding.1 inherited && match item_get binding.1 table with Some item => is_from_default item | None => false end then table
  else if says table binding.1 binding.2 then table
  else write_binding table binding.1 (ref_display binding.2).
Definition sync_bindings (table : Entries) (bindings : list (string * PackageRef)) (inherited : list string) : Entries :=
  fold_left (sync_binding inherited) bindings (List.filter (fun e => bool_decide (is_Some (om_get e.1 bindings))) table).

(** [ensure_table], as an update of what it borrows. *)
Definition update_table (parent : Entries) (key : string) (implicit : bool) (update : Entries -> option Entries) : option Entries :=
  match item_get key parent with
  | None => entries ← update []; Some (item_set key (ItemTable implicit entries) parent)
  | Some item =>
      match item_table item with
      | Some (entries, rebuild) => entries ← update entries; Some (item_set key (rebuild entries) parent)
      | None => None
      end
  end.
(** [sync_section], [sync_activate], [apply]. *)
Definition sync_section (parent : Entries) (key : string) (bindings : list (string * PackageRef)) (inherited : list string) : option Entries :=
  match bindings, item_get key parent with
  | [], None => Some parent
  | _, _ => update_table parent key false (fun table => Some (sync_bindings table bindings inherited))
  end.
Definition sync_activate (root : Entries) (activate : option ActivateMode) : Entries :=
  match activate with
  | Some mode => write_binding root "activate" (activate_text mode)
  | None => item_remove "activate" root
  end.
Fixpoint sync_groups (groups : Entries) (declared : list (string * Group)) : option Entries :=
  match declared with
  | [] => Some groups
  | (name, group) :: rest =>
      groups ← update_table groups name true (fun table => sync_section table "tools" (gr_tools group) (gr_inherited group));
      sync_groups groups rest
  end.
Definition apply_document (root : Entries) (candidate : ProjectConfig) : option Entries :=
  let root := sync_activate root (pc_activate candidate) in
  root ← sync_section root "tools" (pc_tools candidate) [];
  match pc_groups candidate with
  | [] => Some root
  | declared =>
      update_table root "group" true (fun groups =>
        sync_groups (List.filter (fun e => bool_decide (is_Some (om_get e.1 declared))) groups) declared)
  end.

(** [render_preserving]: the edited text must read back as the candidate. *)
Definition render_preserving `{!ProjectLib} `{!DocumentLib} (original : string) (candidate : ProjectConfig) (path : string) : result PError string :=
  match document_parse original with
  | None => perr path ManifestEditParse
  | Some document =>
      let '(header, document) := take_header document in
      match apply_document (doc_entries document) candidate with
      | None => perr path ManifestEditDiverged
      | Some entries =>
          let rendered := header +:+ document_display (mkDocument entries (doc_trailing document)) in
          match config_from_str rendered "" with
          | Ok reparsed => if bool_decide (reparsed = candidate) then Ok rendered else perr path ManifestEditDiverged
          | Err _ => perr path ManifestEditDiverged
          end
      end
  end.

(** ** The files *)

(** An I/O error is whether it says the file is absent. *)
Inductive SnapshotError : Type := SnapshotIo (not_found : bool) | SnapshotTooLarge (cap : N) | SnapshotOther.
Class ProjectDisk (W : Type) : Type := {
  pd_open : string -> W -> result bool Opened;
  pd_read : string -> W -> result bool string;
  pd_read_bounded : string -> N -> W -> result SnapshotError string;
  pd_len : string -> W -> option N;
  pd_symlink_metadata : string -> W -> result bool (FileType * N);
  pd_create_dir_all : string -> io W bool unit;
  pd_temp_in : string -> io W bool string;
  pd_write_all : string -> string -> io W bool unit;
  pd_set_permissions : string -> N -> io W bool unit;
  pd_sync_data : string -> io W bool unit;
  pd_persist : string -> string -> io W bool unit;
  pd_drop_temp : string -> W -> W;
  pd_sync_dir : string -> io W bool unit;
  pd_remove_file : string -> io W bool unit;
  pd_lock : string -> io W (option bool) unit;
  pd_unlock : W -> W;
  register_project_dir_best_effort : string -> string -> W -> W;
}.

(** [struct ManifestSnapshot], [MutationGuard], [StagedMutation]. *)
Record ManifestSnapshot : Type := mkSnapshot { ms_config : ProjectConfig; ms_text : string }.
Record MutationGuard : Type := mkGuard {
  mg_config_path : string;
  mg_lock_path : string;
  mg_home : string;
  mg_manifest : ManifestSnapshot;
  mg_previous_lock : option ProjectLock;
  mg_previous_lock_bytes : option string;
}.
Record StagedMutation : Type := mkStaged { sm_candidate : ProjectConfig; sm_manifest_changed : bool }.
Definition stage (guard : MutationGuard) (mutate : ProjectConfig -> result PError ProjectConfig) : result PError StagedMutation :=
  let? candidate := mutate (ms_config (mg_manifest guard)) in Ok (mkStaged candidate true).
Definition lock_only (staged : StagedMutation) : StagedMutation := mkStaged (sm_candidate staged) false.

(** [str::replace] of a newline, and the test for CRLF. *)
Fixpoint to_crlf (s : string) : string :=
  match s with
  | EmptyString => EmptyString
  | String c rest => if Ascii.eqb c Metadata.newline then String Metadata.carriage_return (String c (to_crlf rest)) else String c (to_crlf rest)
  end.
Fixpoint has_crlf (s : string) : bool :=
  match s with
  | String c ((String d _) as rest) => Ascii.eqb c Metadata.carriage_return && Ascii.eqb d Metadata.newline || has_crlf rest
  | _ => false
  end.

Section Files.
Context `{!ProjectLib} `{!LockLib} `{!DocumentLib} {W : Type} `{!ProjectDisk W}.
Implicit Types (path : string) (w : W).

Definition io_error path (not_found : bool) : PError := ProjectFailed (mkProjectError path (Io not_found)).
Definition or_io {A : Type} path (m : io W bool A) : io W PError A := io_map_err (io_error path) m.
(** [path.parent()], an empty one being the current directory. *)
Definition parent_or_dot path : string := match path_text_parent path with Some parent => if String.eqb parent "" then "." else parent | None => "." end.

(** [carry_existing_mode], [fill] of the temporary file, [publish_by_rename]. *)
Definition carry_existing_mode path (tmp : string) : io W PError unit := fun w =>
  match pd_symlink_metadata path w with
  | Ok (FtFile, mode) => or_io tmp (pd_set_permissions tmp (N.land mode 511)) w
  | _ => (Ok tt, w)
  end.
Definition fill_and_persist path (tmp bytes : string) : io W PError unit :=
  let! _ := or_io tmp (pd_write_all tmp bytes) in
  let! _ := carry_existing_mode path tmp in
  let! _ := or_io tmp (pd_sync_data tmp) in
  or_io path (pd_persist tmp path).
Definition publish_by_rename path (bytes : string) : io W PError unit :=
  let parent := parent_or_dot path in
  let! _ := or_io parent (pd_create_dir_all parent) in
  let! tmp := or_io parent (pd_temp_in parent) in
  let! _ := fun w => match fill_and_persist path tmp bytes w with
                     | (Ok _, w) => (Ok tt, w)
                     | (Err e, w) => (Err e, pd_drop_temp tmp w)
                     end in
  or_io parent (pd_sync_dir parent).

(** [ProjectLock::load], [from_path]. *)
Definition lock_load path : io W PError ProjectLock := fun w =>
  match pd_open path w with
  | Err not_found => (Err (io_error path not_found), w)
  | Ok file =>
      match op_metadata file with
      | None => (Err (io_error path false), w)
      | Some (_, len) =>
          if (FILE_SIZE_LIMIT_BYTES <? len)%N then (perr path (FileTooLarge len FILE_SIZE_LIMIT_BYTES), w)
          else match op_read file (FILE_SIZE_LIMIT_BYTES + 1) with
          | None => (Err (io_error path false), w)
          | Some content =>
              let size := N.of_nat (String.length content) in
              if (FILE_SIZE_LIMIT_BYTES <? size)%N then (perr path (FileTooLarge size FILE_SIZE_LIMIT_BYTES), w)
              else (lock_from_str content path, w)
          end
      end
  end.
Definition lock_from_path path : io W PError (option ProjectLock) := fun w =>
  match lock_load path w with
  | (Ok lock, w) => (Ok (Some lock), w)
  | (Err (ProjectFailed (mkProjectError p (Io true))), w) => (Ok None, w)
  | (Err e, w) => (Err e, w)
  end.

(** [refuse_symlink_at], [acquire_project_lock_for_file]; the wait for the lock is the disk's. *)
Definition refuse_symlink_at path : io W PError unit := fun w =>
  match pd_symlink_metadata path w with
  | Ok (FtSymlink, _) => (Err (io_error path false), w)
  | Ok _ | Err true => (Ok tt, w)
  | Err false => (Err (io_error path false), w)
  end.
Definition acquire_project_lock_for_file path : io W PError unit :=
  let parent := parent_or_dot path in
  let! _ := or_io parent (pd_create_dir_all parent) in
  let! _ := io_map_err (fun e => match e with None => ProjectFailed (mkProjectError path Locked) | Some not_found => io_error path not_found end) (pd_lock path) in
  fun w => match refuse_symlink_at path w with
           | (Ok _, w) => (Ok tt, w)
           | (Err e, w) => (Err e, pd_unlock w)
           end.
(** [read_manifest_snapshot]: an absent file is an empty document. *)
Definition read_manifest_snapshot path : io W PError ManifestSnapshot := fun w =>
  let parse bytes := let? config := config_from_bytes bytes path in Ok (mkSnapshot config bytes) in
  match pd_read_bounded path FILE_SIZE_LIMIT_BYTES w with
  | Ok bytes => (parse bytes, w)
  | Err (SnapshotIo true) => (parse "", w)
  | Err (SnapshotTooLarge cap) => (perr path (FileTooLarge (default (cap + 1)%N (pd_len path w)) cap), w)
  | Err (SnapshotIo false) | Err SnapshotOther => (Err (io_error path false), w)
  end.
(** What [load_project_for_mutate] does once the paths are known and the lock is taken. *)
Definition open_guard (config_path lock_path home : string) : io W PError MutationGuard :=
  let! manifest := read_manifest_snapshot config_path in
  let! previous_lock := lock_from_path lock_path in
  let! previous_lock_bytes := fun w =>
    match previous_lock with
    | None => (Ok None, w)
    | Some _ => match pd_read lock_path w with
                | Ok bytes => (Ok (Some bytes), w)
                | Err true => (Ok None, w)
                | Err false => (Err (io_error lock_path false), w)
                end
    end in
  io_ret (mkGuard config_path lock_path home manifest previous_lock previous_lock_bytes).

(** [ProjectLock::save]. *)
Definition lock_bytes (serialized : string) path w : string :=
  match pd_read path w with
  | Ok existing => if has_crlf existing then to_crlf serialized else serialized
  | Err _ => serialized
  end.
Definition lock_save (lock : ProjectLock) path (previous : option ProjectLock) (home config_path : string) : io W PError unit :=
  let! serialized := io_of (to_toml_string (stamp_for_save lock previous)) in
  let! _ := fun w => publish_by_rename path (lock_bytes serialized path w) w in
  fun w => (Ok tt, register_project_dir_best_effort config_path home w).

(** [rollback_lock_after_failure]: whether the file is as it was is for the log only. *)
Definition rollback_lock_after_failure path (previous_lock_bytes : option string) w : bool * W :=
  match previous_lock_bytes with
  | Some bytes => match publish_by_rename path bytes w with (Ok _, w) => (true, w) | (Err _, w) => (false, w) end
  | None => match pd_remove_file path w with (Ok _, w) | (Err true, w) => (true, w) | (Err false, w) => (false, w) end
  end.

(** [MutationGuard::commit]. *)
Definition write_manifest (guard : MutationGuard) (staged : StagedMutation) : io W PError unit :=
  if sm_manifest_changed staged then
    let! serialized := io_of (render_preserving (ms_text (mg_manifest guard)) (sm_candidate staged) (mg_config_path guard)) in
    publish_by_rename (mg_config_path guard) serialized
  else io_ret tt.
Definition commit_files (guard : MutationGuard) (staged : StagedMutation) (new_lock : ProjectLock) : io W PError (string * string) :=
  let candidate_hash := declaration_hash (sm_candidate staged) in
  let locked_hash := lm_declaration_hash (pl_metadata new_lock) in
  if negb (String.eqb locked_hash candidate_hash)
  then io_fail (ProjectFailed (mkProjectError (mg_config_path guard) (LockOutOfSync (DriftDeclarationHash locked_hash candidate_hash))))
  else
    let! _ := lock_save new_lock (mg_lock_path guard) (mg_previous_lock guard) (mg_home guard) (mg_config_path guard) in
    fun w =>
      match write_manifest guard staged w with
      | (Err primary, w) => (Err primary, (rollback_lock_after_failure (mg_lock_path guard) (mg_previous_lock_bytes guard) w).2)
      | (Ok _, w) => (Ok (mg_config_path guard, mg_lock_path guard), register_project_dir_best_effort (mg_config_path guard) (mg_home guard) w)
      end.
(** The guard is consumed: its lock is released however the commit ends. *)
Definition commit (guard : MutationGuard) (staged : StagedMutation) (new_lock : ProjectLock) : io W PError (string * string) := fun w =>
  let '(r, w) := commit_files guard staged new_lock w in (r, pd_unlock w).
End Files.

(** ** Atomic renames *)

(** What the files hold, and which names are those of temporary files. *)
Class AtomicDisk (W : Type) `{!ProjectDisk W} : Type := {
  file_of : W -> string -> option string;
  is_temp : string -> bool;
  read_some : forall p w b, pd_read p w = Ok b -> file_of w p = Some b;
  read_none : forall p w, pd_read p w = Err true -> file_of w p = None;
  open_none : forall p w, pd_open p w = Err true -> file_of w p = None;
  create_dir_keeps : forall d w p, file_of (pd_create_dir_all d w).2 p = file_of w p;
  temp_keeps : forall d w p, is_temp p = false -> file_of (pd_temp_in d w).2 p = file_of w p;
  temp_named : forall d w t w', pd_temp_in d w = (Ok t, w') -> is_temp t = true;
  write_temp : forall t b w w', pd_write_all t b w = (Ok tt, w') -> file_of w' t = Some b;
  write_keeps : forall t b w p, p <> t -> file_of (pd_write_all t b w).2 p = file_of w p;
  permissions_keep : forall t m w p, file_of (pd_set_permissions t m w).2 p = file_of w p;
  sync_data_keeps : forall t w p, file_of (pd_sync_data t w).2 p = file_of w p;
  persist_renames : forall t p w w', pd_persist t p w = (Ok tt, w') -> file_of w' p = file_of w t;
  persist_fails : forall t p w e w' q, pd_persist t p w = (Err e, w') -> is_temp q = false -> file_of w' q = file_of w q;
  persist_keeps : forall t p w q, q <> p -> is_temp q = false -> file_of (pd_persist t p w).2 q = file_of w q;
  drop_keeps : forall t w p, is_temp p = false -> file_of (pd_drop_temp t w) p = file_of w p;
  sync_dir_keeps : forall d w p, file_of (pd_sync_dir d w).2 p = file_of w p;
  remove_done : forall p w, (pd_remove_file p w).1 <> Err false -> file_of (pd_remove_file p w).2 p = None;
  remove_fails : forall p w, (pd_remove_file p w).1 = Err false -> file_of (pd_remove_file p w).2 p = file_of w p;
  remove_keeps : forall p w q, q <> p -> file_of (pd_remove_file p w).2 q = file_of w q;
  register_keeps : forall c h w p, file_of (register_project_dir_best_effort c h w) p = file_of w p;
  unlock_keeps : forall w p, file_of (pd_unlock w) p = file_of w p;
}.
Section Atomic.
Context `{!ProjectLib} `{!LockLib} `{!DocumentLib} {W : Type} `{!ProjectDisk W} `{!AtomicDisk W}.
Implicit Types (path : string) (w : W).

Lemma fill_ok path tmp bytes w r w' : is_temp path = false -> is_temp tmp = true -> fill_and_persist path tmp bytes w = (r, w') ->
  (forall q, q <> path -> is_temp q = false -> file_of w' q = file_of w q) /\ file_of w' path = if is_ok r then Some bytes else file_of w path.
Proof.
  intros Hp Ht. assert (Hne : forall q, is_temp q = false -> q <> tmp) by (intros q Hq ->; congruence). unfold fill_and_persist, io_bind, or_io, io_map_err.
  pose proof (write_keeps tmp bytes w) as Hw. pose proof (write_temp tmp bytes w) as Hwt. destruct (pd_write_all tmp bytes w) as [[[]|e] w1]; simpl in *;
    [|intros [= <- <-]; split; intros; by rewrite Hw by auto].
  specialize (Hwt w1 eq_refl). assert (Hmode : forall q, file_of (carry_existing_mode path tmp w1).2 q = file_of w1 q).
  { intros q. unfold carry_existing_mode. repeat case_match; simpl; try done. unfold or_io, io_map_err. pose proof (permissions_keep tmp (N.land n 511) w1 q) as Hm. by destruct (pd_set_permissions _ _ _). }
  destruct (carry_existing_mode path tmp w1) as [[[]|e] w2]; simpl in *; [|intros [= <- <-]; split; intros; rewrite Hmode, Hw by auto; done].
  pose proof (sync_data_keeps tmp w2) as Hs. destruct (pd_sync_data tmp w2) as [[[]|e] w3]; simpl in *; [|intros [= <- <-]; split; intros; rewrite Hs, Hmode, Hw by auto; done].
  pose proof (persist_keeps tmp path w3) as Hk. pose proof (persist_renames tmp path w3) as Hr. pose proof (fun e => persist_fails tmp path w3 e) as Hf.
  destruct (pd_persist tmp path w3) as [[[]|e] w4]; simpl in *; intros [= <- <-]; simpl.
  - split; [intros q Hq Hqt; by rewrite Hk, Hs, Hmode, Hw by auto|]. by rewrite (Hr w4 eq_refl), Hs, Hmode.
  - split; [intros q Hq Hqt; by rewrite Hk, Hs, Hmode, Hw by auto|]. by rewrite (Hf e w4 path eq_refl Hp), Hs, Hmode, Hw by auto.
Qed.
(** The sync of the directory of [path] fails once [path] holds [bytes]. *)
Definition unsynced path (bytes : string) : Prop :=
  exists w e, (pd_sync_dir (parent_or_dot path) w).1 = Err e /\ file_of w path = Some bytes.
(** A publish writes the whole file or nothing of it; if it fails, it wrote the file only
    where the sync after the rename is what failed. *)
Definition publishes path (bytes : string) (r : result PError unit) w w' : Prop :=
  if is_ok r then file_of w' path = Some bytes
  else file_of w' path = file_of w path \/ file_of w' path = Some bytes /\ unsynced path bytes.
Lemma publish_ok path bytes w r w' : is_temp path = false -> publish_by_rename path bytes w = (r, w') ->
  (forall q, q <> path -> is_temp q = false -> file_of w' q = file_of w q) /\ publishes path bytes r w w'.
Proof.
  intros Hp. unfold publish_by_rename, publishes. set (parent := parent_or_dot path). unfold io_bind at 1. unfold or_io at 1, io_map_err at 1.
  pose proof (create_dir_keeps parent w) as Hc. destruct (pd_create_dir_all parent w) as [[[]|e] w1]; simpl in *; [|intros [= <- <-]; split; intros; [|left]; by rewrite Hc].
  unfold io_bind at 1. unfold or_io at 1, io_map_err at 1. pose proof (temp_keeps parent w1) as Ht. pose proof (temp_named parent w1) as Hn.
  destruct (pd_temp_in parent w1) as [[tmp|e] w2]; simpl in *; [|intros [= <- <-]; split; intros; [|left]; by rewrite Ht, Hc by auto].
  specialize (Hn tmp w2 eq_refl). unfold io_bind. destruct (fill_and_persist path tmp bytes w2) as [r3 w3] eqn:Ef. apply fill_ok in Ef as [Hq Hpath]; [|done..].
  destruct r3 as [[]|e]; simpl in Hpath.
  - unfold or_io, io_map_err. pose proof (sync_dir_keeps parent w3) as Hs. assert (Hfail : forall e, (pd_sync_dir parent w3).1 = Err e -> unsynced path bytes) by (intros e He; by exists w3, e).
    destruct (pd_sync_dir parent w3) as [[[]|e] w4]; simpl in *; intros [= <- <-]; simpl; (split; [intros q Hqp Hqt; by rewrite Hs, Hq, Ht, Hc by auto|]); rewrite Hs; eauto.
  - intros [= <- <-]. simpl in *. split; [intros q Hqp Hqt; by rewrite drop_keeps, Hq, Ht, Hc by auto|left; by rewrite drop_keeps, Hpath, Ht, Hc by auto].
Qed.

(** Reading the text of a lock raises no I/O error. *)
Definition not_io {A : Type} (r : result PError A) : Prop := forall p b, r <> Err (ProjectFailed (mkProjectError p (Io b))).
Lemma not_io_bind {A B : Type} (r : result PError A) (k : A -> result PError B) : not_io r -> (forall a, not_io (k a)) -> not_io (result_bind r k).
Proof. intros Hr Hk p b. destruct r as [a|e]; simpl; [apply Hk|]. intros [= ->]. by eapply Hr. Qed.
Lemma into_tools_not_io path raws : not_io (into_tools path raws).
Proof. induction raws as [|[[r t] ps] raws IH]; simpl; [done|]. case_match; [done|]. by apply not_io_bind. Qed.
Lemma canonical_keys_not_io keys path : not_io (result_map_err (fun kind => ProjectFailed (mkProjectError path kind)) (validate_canonical_platform_keys keys)).
Proof. induction keys as [|key keys IH]; simpl; [done|]. repeat (case_match; try done). Qed.
Lemma validate_lock_not_io lock path : not_io (validate_lock lock path).
Proof.
  unfold validate_lock. case_match; [done|]. induction (pl_tools lock) as [|t tools IH]; simpl; [done|]. apply not_io_bind; [apply canonical_keys_not_io|].
  intros _. by case_match.
Qed.
Lemma lock_from_str_not_io s path : not_io (lock_from_str s path).
Proof.
  unfold lock_from_str. repeat (case_match; try done). apply not_io_bind; [apply into_tools_not_io|]. intros tools. apply not_io_bind; [apply validate_lock_not_io|done].
Qed.

(** The guard keeps the bytes of the lock it was opened on. *)
Lemma lock_from_path_none path w w' : lock_from_path path w = (Ok None, w') -> w' = w /\ file_of w path = None.
Proof.
  unfold lock_from_path, lock_load. destruct (pd_open path w) as [file|[]] eqn:Eo; [|by intros [= <-]; split; [|eapply open_none]|done].
  destruct (op_metadata file) as [[ft len]|]; [|done]. destruct (_ <? len)%N; [done|]. destruct (op_read file _) as [content|]; [|done].
  destruct (_ <? _)%N; [done|]. pose proof (lock_from_str_not_io content path) as Hn. destruct (lock_from_str content path) as [lock|[[p []]|]]; try done.
  by destruct (Hn p not_found).
Qed.
Lemma lock_from_path_world path w r w' : lock_from_path path w = (r, w') -> w' = w.
Proof. unfold lock_from_path, lock_load. repeat case_match; intros; simplify_eq; done. Qed.
Lemma open_guard_ok config_path lock_path home w guard w' : open_guard config_path lock_path home w = (Ok guard, w') ->
  w' = w /\ mg_config_path guard = config_path /\ mg_lock_path guard = lock_path /\ mg_previous_lock_bytes guard = file_of w lock_path.
Proof.
  unfold open_guard. intros (manifest & w1 & Hm & Hx)%io_bind_ok. assert (w1 = w) as -> by (revert Hm; unfold read_manifest_snapshot; repeat case_match; by intros [=]).
  apply io_bind_ok in Hx as (previous & w2 & Hp & Hx). pose proof (lock_from_path_world _ _ _ _ Hp) as ->.
  apply io_bind_ok in Hx as (bytes & w3 & Hb & Hx). injection Hx as <- <-. simpl. destruct previous as [lock|].
  - destruct (pd_read lock_path w) as [b|[]] eqn:Er; simplify_eq; split_and!; try done; symmetry; [by apply read_some|by apply read_none].
  - injection Hb as <- <-. apply lock_from_path_none in Hp as [_ ->]. done.
Qed.

Lemma save_ok lock path previous home config_path w r w' : is_temp path = false -> lock_save lock path previous home config_path w = (r, w') ->
  (forall q, q <> path -> is_temp q = false -> file_of w' q = file_of w q) /\
  ((exists text, to_toml_string (stamp_for_save lock previous) = Ok text /\ publishes path (lock_bytes text path w) r w w') \/
   is_ok r = false /\ file_of w' path = file_of w path).
Proof.
  intros Hp. unfold lock_save, io_bind, io_of. destruct (to_toml_string _) as [text|e]; [|intros [= <- <-]; auto].
  destruct (publish_by_rename path (lock_bytes text path w) w) as [r1 w1] eqn:E. apply publish_ok in E as [Hq Hpath]; [|done].
  destruct r1 as [[]|e]; intros [= <- <-]; (split; [intros; rewrite ?register_keeps; by apply Hq|]); left; exists text; (split; [done|]); [|done].
  unfold publishes in *. simpl in *. by rewrite register_keeps.
Qed.
Lemma write_manifest_ok guard staged w r w' : is_temp (mg_config_path guard) = false -> write_manifest guard staged w = (r, w') ->
  (forall q, q <> mg_config_path guard -> is_temp q = false -> file_of w' q = file_of w q) /\
  if sm_manifest_changed staged
  then (exists text, config_from_str text "" = Ok (sm_candidate staged) /\ publishes (mg_config_path guard) text r w w') \/
       is_ok r = false /\ file_of w' (mg_config_path guard) = file_of w (mg_config_path guard)
  else file_of w' (mg_config_path guard) = file_of w (mg_config_path guard).
Proof.
  intros Hp. unfold write_manifest. destruct (sm_manifest_changed staged); [|by intros [= <- <-]]. unfold io_bind, io_of.
  destruct (render_preserving _ _ _) as [text|e] eqn:Er; [|intros [= <- <-]; auto]. intros [Hq Hpath]%publish_ok; [|done]. split; [done|]. left. exists text. split; [|done].
  revert Er. unfold render_preserving. destruct (document_parse _) as [document|]; [|done]. destruct (take_header document) as [header d].
  destruct (apply_document _ _) as [entries|]; [|done]. destruct (config_from_str _ "") as [reparsed|] eqn:Ec; [|done].
  destruct (bool_decide _) eqn:Eb; [|done]. apply bool_decide_eq_true in Eb as ->. by intros [= <-].
Qed.
(** The rollback leaves the file as the caller remembers it, or reports and leaves it as it was. *)
Lemma rollback_ok path bytes w : is_temp path = false ->
  (forall q, q <> path -> is_temp q = false -> file_of (rollback_lock_after_failure path bytes w).2 q = file_of w q) /\
  (file_of (rollback_lock_after_failure path bytes w).2 path = bytes \/
   (rollback_lock_after_failure path bytes w).1 = false /\ file_of (rollback_lock_after_failure path bytes w).2 path = file_of w path).
Proof.
  intros Hp. unfold rollback_lock_after_failure. destruct bytes as [bytes|].
  - destruct (publish_by_rename path bytes w) as [r w'] eqn:E. apply publish_ok in E as [Hq Hpath]; [|done]. unfold publishes in Hpath.
    destruct r as [[]|e]; simpl in *; (split; [done|]); [by left|]. destruct Hpath as [?|[? _]]; auto.
  - pose proof (remove_done path w) as Hd. pose proof (remove_fails path w) as Hf. pose proof (remove_keeps path w) as Hk.
    destruct (pd_remove_file path w) as [[[]|[]] w']; simpl in *; (split; [intros; auto|]); [left; by apply Hd..|auto].
Qed.

(** What a commit leaves of the two files. *)
Record committed (guard : MutationGuard) (staged : StagedMutation) (new_lock : ProjectLock) w w' : Prop := {
  cm_coherent : lm_declaration_hash (pl_metadata new_lock) = declaration_hash (sm_candidate staged);
  cm_lock : exists text, to_toml_string (stamp_for_save new_lock (mg_previous_lock guard)) = Ok text /\
    file_of w' (mg_lock_path guard) = Some (lock_bytes text (mg_lock_path guard) w);
  cm_manifest : if sm_manifest_changed staged
    then exists text, file_of w' (mg_config_path guard) = Some text /\ config_from_str text "" = Ok (sm_candidate staged)
    else file_of w' (mg_config_path guard) = file_of w (mg_config_path guard);
}.
(** The restoring of the lock failed, on a disk that held [bytes] under its name. *)
Definition unrestored (guard : MutationGuard) (bytes : string) : Prop :=
  exists w w', file_of w (mg_lock_path guard) = Some bytes /\
    rollback_lock_after_failure (mg_lock_path guard) (mg_previous_lock_bytes guard) w = (false, w').

(** What a failed commit leaves: each file whole, and as it was but for two causes. *)
Record abandoned (guard : MutationGuard) (staged : StagedMutation) (new_lock : ProjectLock) w w' : Prop := {
  ab_manifest : file_of w' (mg_config_path guard) = file_of w (mg_config_path guard) \/
    exists text, sm_manifest_changed staged = true /\ config_from_str text "" = Ok (sm_candidate staged) /\
      file_of w' (mg_config_path guard) = Some text /\ unsynced (mg_config_path guard) text;
  ab_lock : file_of w' (mg_lock_path guard) = file_of w (mg_lock_path guard) \/
    exists text, to_toml_string (stamp_for_save new_lock (mg_previous_lock guard)) = Ok text /\
      let bytes := lock_bytes text (mg_lock_path guard) w in
      file_of w' (mg_lock_path guard) = Some bytes /\ (unsynced (mg_lock_path guard) bytes \/ unrestored guard bytes);
}.

Section Commit.
Context (guard : MutationGuard) (staged : StagedMutation) (new_lock : ProjectLock) (w : W).
Hypotheses (Htc : is_temp (mg_config_path guard) = false) (Htl : is_temp (mg_lock_path guard) = false)
  (Hne : mg_config_path guard <> mg_lock_path guard) (Hbytes : mg_previous_lock_bytes guard = file_of w (mg_lock_path guard)).

(** The manifest, once the lock holds its new text. *)
Lemma commit_manifest text w1 r2 w2 :
  to_toml_string (stamp_for_save new_lock (mg_previous_lock guard)) = Ok text ->
  (forall q, q <> mg_lock_path guard -> is_temp q = false -> file_of w1 q = file_of w q) ->
  file_of w1 (mg_lock_path guard) = Some (lock_bytes text (mg_lock_path guard) w) ->
  write_manifest guard staged w1 = (r2, w2) ->
  match r2 with
  | Ok _ => lm_declaration_hash (pl_metadata new_lock) = declaration_hash (sm_candidate staged) -> committed guard staged new_lock w w2
  | Err _ => abandoned guard staged new_lock w (rollback_lock_after_failure (mg_lock_path guard) (mg_previous_lock_bytes guard) w2).2
  end.
Proof.
  intros Htext Hq Hl Hrun. apply write_manifest_ok in Hrun as [Hq2 Hm]; [|done]. rewrite (Hq (mg_config_path guard)) in Hm by auto.
  assert (Hl2 : file_of w2 (mg_lock_path guard) = Some (lock_bytes text (mg_lock_path guard) w)) by (by rewrite Hq2 by auto).
  destruct r2 as [[]|e]; unfold publishes in Hm; simpl in Hm.
  - intros Heq. split; [done|eauto|]. destruct (sm_manifest_changed staged); [|done]. destruct Hm as [(t & ? & ?)|[? _]]; [eauto|done].
  - destruct (rollback_ok (mg_lock_path guard) (mg_previous_lock_bytes guard) w2 Htl) as [Hrq Hrl]. split.
    + rewrite Hrq by auto. rewrite ?(Hq (mg_config_path guard)) in Hm by auto. destruct (sm_manifest_changed staged); [|by left].
      destruct Hm as [(t & Ht & [?|[? ?]])|[_ ?]]; [by left| |by left]. right. by exists t.
    + destruct Hrl as [->|[Hf ->]]; [by left|]. right. exists text. split; [done|]. cbv zeta. split; [done|]. right.
      eexists w2, _. split; [done|]. rewrite <- Hf. apply surjective_pairing.
Qed.

Lemma commit_ok r w' : commit guard staged new_lock w = (r, w') ->
  match r with Ok _ => committed guard staged new_lock w w' | Err _ => abandoned guard staged new_lock w w' end.
Proof.
  unfold commit. destruct (commit_files guard staged new_lock w) as [rc wc] eqn:Ec. intros [= <- <-].
  enough (match rc with Ok _ => committed guard staged new_lock w wc | Err _ => abandoned guard staged new_lock w wc end) as Hend.
  { destruct rc; destruct Hend; split; rewrite ?unlock_keeps; done. }
  revert Ec. unfold commit_files. destruct (String.eqb _ _) eqn:Eh; simpl; [|intros [= <- <-]; split; by left]. apply String.eqb_eq in Eh. unfold io_bind.
  destruct (lock_save _ _ _ _ _ w) as [r1 w1] eqn:Es. apply save_ok in Es as [Hq Hl]; [|done].
  destruct r1 as [[]|e].
  - destruct Hl as [(text & Htext & Hl)|[? _]]; [|done]. destruct (write_manifest guard staged w1) as [r2 w2] eqn:Em.
    pose proof (commit_manifest text w1 r2 w2 Htext Hq Hl Em) as Hm. destruct r2 as [[]|e]; intros [= <- <-]; [|done].
    destruct (Hm Eh) as [? ? ?]. split; rewrite ?register_keeps; done.
  - intros [= <- <-]. split; [left; by apply Hq|]. destruct Hl as [(text & Htext & [?|[? ?]])|[_ ?]]; [by left| |by left].
    right. exists text. auto.
Qed.
End Commit.
End Atomic.

(** C32: What a commit leaves of the two files of a project.  The guard was opened on them, and
    the lock has not been written since; the disk renames atomically.  If the commit succeeds,
    [ocx.lock] holds the text of the new lock, whose declaration hash is the candidate's, and
    [ocx.toml] holds a text that reads as exactly the candidate (or is untouched, for a lock-only
    commit).  If it fails, at whatever step, each file is whole and byte for byte as it was, but
    for two causes: a file whose directory could not be synced after its rename holds its new
    text, and so does the lock when the restoring of it failed. *)
Theorem commit_leaves_files_whole `{!ProjectLib} `{!LockLib} `{!DocumentLib} {W : Type} `{!ProjectDisk W} `{!AtomicDisk W}
    (config_path lock_path home : string) (guard : MutationGuard) (staged : StagedMutation) (new_lock : ProjectLock)
    (r : result PError (string * string)) (w0 w1 w w' : W)
    (Hconfig : is_temp config_path = false) (Hlock : is_temp lock_path = false) (Hne : config_path <> lock_path)
    (Hopen : open_guard config_path lock_path home w0 = (Ok guard, w1)) (Hsame : file_of w lock_path = file_of w1 lock_path)
    (Hcommit : commit guard staged new_lock w = (r, w')) :
  mg_config_path guard = config_path /\ mg_lock_path guard = lock_path /\ mg_previous_lock_bytes guard = file_of w lock_path /\
  match r with
  | Ok _ => committed guard staged new_lock w w'
  | Err _ => abandoned guard staged new_lock w w'
  end.
Proof.
  apply open_guard_ok in Hopen as (-> & <- & <- & Hbytes). rewrite <- Hsame in Hbytes. split_and!; [done..|]. by apply commit_ok in Hcommit.
Qed.

(** ** What an edit of the document touches *)

(** The line of a binding after the edit: the one that already says it, or its text in the old place and decor. *)
Definition item_decor (cell : option Item) : string :=
  match cell with Some (ItemText decor _) | Some (ItemInline decor _) | Some (ItemValue decor _) => decor | _ => "" end.
Definition cell_says (cell : option Item) (identifier : PackageRef) : bool :=
  match cell ≫= item_str with
  | Some declared => match parse_tool_value declared with Ok parsed => bool_decide (parsed = identifier) | Err _ => false end
  | None => false
  end.
Definition synced_cell (inherited : list string) (key : string) (identifier : PackageRef) (cell : option Item) : option Item :=
  if os_mem key inherited && match cell with Some item => is_from_default item | None => false end then cell
  else if cell_says cell identifier then cell
  else Some (ItemText (item_decor cell) (ref_display identifier)).

Lemma item_get_set key key' item table : item_get key (item_set key' item table) = if String.eqb key' key then Some item else item_get key table.
Proof.
  unfold item_get. induction table as [|[k i] table IH]; simpl.
  - by destruct (String.eqb key' key).
  - destruct (String.eqb k key') eqn:E; simpl.
    + apply String.eqb_eq in E as ->. by destruct (String.eqb key' key).
    + destruct (String.eqb k key) eqn:E'; [|done]. apply String.eqb_eq in E' as ->. by rewrite String.eqb_sym, E.
Qed.
Lemma item_get_filter (p : string -> bool) key table : item_get key (List.filter (fun e => p e.1) table) = if p key then item_get key table else None.
Proof.
  unfold item_get. induction table as [|[k i] table IH]; simpl; [by destruct (p key)|]. destruct (String.eqb k key) eqn:E.
  - apply String.eqb_eq in E as ->. destruct (p key); simpl; [by rewrite String.eqb_refl|done].
  - destruct (p k); simpl; [by rewrite E|done].
Qed.
Lemma item_get_write key key' rendered table : item_get key (write_binding table key' rendered) =
  if String.eqb key' key then Some (ItemText (item_decor (item_get key' table)) rendered) else item_get key table.
Proof. unfold write_binding, item_decor. repeat case_match; rewrite item_get_set; simplify_eq/=; by destruct (String.eqb key' key). Qed.
Lemma item_get_sync_binding inherited table key key' id : item_get key (sync_binding inherited table (key', id)) =
  if String.eqb key' key then synced_cell inherited key id (item_get key table) else item_get key table.
Proof.
  unfold sync_binding, synced_cell. simpl. destruct (String.eqb key' key) eqn:E.
  - apply String.eqb_eq in E as ->. destruct (os_mem key inherited && _); [done|]. unfold says. fold (cell_says (item_get key table) id).
    destruct (cell_says _ _); [done|]. by rewrite item_get_write, String.eqb_refl.
  - destruct (_ && _); [done|]. destruct (says _ _ _); [done|]. by rewrite item_get_write, E.
Qed.
Lemma item_get_sync_fold inherited bindings key : forall table, om_wf bindings -> item_get key (fold_left (sync_binding inherited) bindings table) =
  match om_get key bindings with Some id => synced_cell inherited key id (item_get key table) | None => item_get key table end.
Proof.
  induction bindings as [|[k id] bindings IH]; intros table Hwf; simpl; [done|]. inversion Hwf as [|? ? Hs Hall]; subst.
  rewrite IH by done. rewrite item_get_sync_binding, ord_eqb_string, (String.eqb_sym key k). destruct (String.eqb k key) eqn:E; [|done].
  apply String.eqb_eq in E as ->. destruct (om_get key bindings) eqn:Eg; [|done]. apply om_get_In_1, (in_map fst) in Eg. simpl in Eg.
  rewrite List.Forall_forall in Hall. specialize (Hall key Eg). simpl in Hall. by rewrite (proj2 (ord_cmp_eq key key) eq_refl) in Hall.
Qed.
Lemma item_get_sync_bindings table bindings inherited key : om_wf bindings ->
  item_get key (sync_bindings table bindings inherited) = om_get key bindings ≫= fun id => synced_cell inherited key id (item_get key table).
Proof.
  intros Hwf. unfold sync_bindings. rewrite item_get_sync_fold by done. pose proof (item_get_filter (fun k => bool_decide (is_Some (om_get k bindings))) key table) as Hf.
  cbv beta in Hf. destruct (om_get key bindings) eqn:Eg; by rewrite Hf.
Qed.

(** The entries under a key, empty when it is not there. *)
Definition entries_at (parent : Entries) (key : string) : Entries :=
  match item_get key parent ≫= item_table with Some (entries, _) => entries | None => [] end.
Lemma update_table_at parent key implicit update parent' : update_table parent key implicit update = Some parent' ->
  update (entries_at parent key) = Some (entries_at parent' key) /\ forall k, k <> key -> item_get k parent' = item_get k parent.
Proof.
  unfold update_table, entries_at. destruct (item_get key parent) as [item|] eqn:Ei; simpl.
  - destruct (item_table item) as [[entries rebuild]|] eqn:Et; [|done]. destruct (update entries) as [entries'|] eqn:Eu; simpl; [|done]. intros [= <-].
    rewrite item_get_set, String.eqb_refl. split.
    + destruct item; simplify_eq/=; done.
    + intros k Hk. rewrite item_get_set. by rewrite (proj2 (String.eqb_neq _ _)) by done.
  - destruct (update []) as [entries'|] eqn:Eu; simpl; [|done]. intros [= <-]. rewrite item_get_set, String.eqb_refl. split; [done|].
    intros k Hk. rewrite item_get_set. by rewrite (proj2 (String.eqb_neq _ _)) by done.
Qed.
Lemma sync_section_at parent key bindings inherited parent' : om_wf bindings -> sync_section parent key bindings inherited = Some parent' ->
  (forall k, item_get k (entries_at parent' key) = om_get k bindings ≫= fun id => synced_cell inherited k id (item_get k (entries_at parent key))) /\
  forall k, k <> key -> item_get k parent' = item_get k parent.
Proof.
  intros Hwf Hs. assert (Hupd : bindings = [] /\ item_get key parent = None /\ parent' = parent \/
    update_table parent key false (fun table => Some (sync_bindings table bindings inherited)) = Some parent').
  { revert Hs. unfold sync_section. destruct bindings as [|b bindings]; [|by right]. destruct (item_get key parent) eqn:E; [by right|]. intros [= <-]. by left. }
  destruct Hupd as [(-> & Hn & ->)|Hu].
  - split; [|done]. intros k. unfold entries_at. by rewrite Hn.
  - apply update_table_at in Hu as [[= <-] Hk]. split; [|done]. intros k. by apply item_get_sync_bindings.
Qed.
Lemma sync_groups_at declared : forall groups groups', om_wf declared -> (forall name group, In (name, group) declared -> om_wf (gr_tools group)) ->
  sync_groups groups declared = Some groups' ->
  (forall name group, In (name, group) declared -> forall k, item_get k (entries_at (entries_at groups' name) "tools") =
     om_get k (gr_tools group) ≫= fun id => synced_cell (gr_inherited group) k id (item_get k (entries_at (entries_at groups name) "tools"))) /\
  (forall name, ~ In name (om_keys declared) -> item_get name groups' = item_get name groups).
Proof.
  induction declared as [|[name group] declared IH]; intros groups groups' Hwf Hg; simpl; [by intros [= <-]|].
  destruct (update_table groups name true _) as [groups1|] eqn:Eu; simpl; [|done]. apply update_table_at in Eu as [Hsec Hother].
  apply sync_section_at in Hsec as [Hsec _]; [|eapply Hg; by left]. inversion Hwf as [|? ? Hs Hall]; subst. intros Hrest.
  apply IH in Hrest as [Hin Hout]; [|done|by intros; eapply Hg; right]. assert (Hnew : ~ In name (om_keys declared)).
  { intros Hi. rewrite List.Forall_forall in Hall. specialize (Hall name Hi). by rewrite (proj2 (ord_cmp_eq name name) eq_refl) in Hall. }
  split.
  - intros n g [[= <- <-]|Hin'] k.
    + unfold entries_at at 2. rewrite Hout by done. apply Hsec.
    + rewrite (Hin n g Hin' k). unfold entries_at at 2. rewrite Hother; [done|]. intros ->. apply Hnew. by apply (in_map fst) in Hin'.
  - intros n Hn. rewrite Hout by tauto. apply Hother. naive_solver.
Qed.
Lemma entries_at_filter (p : string -> bool) table key : p key = true -> entries_at (List.filter (fun e => p e.1) table) key = entries_at table key.
Proof. intros Hp. unfold entries_at. by rewrite item_get_filter, Hp. Qed.
Lemma sync_activate_other root activate key : key <> "activate" -> item_get key (sync_activate root activate) = item_get key root.
Proof.
  intros Hk. unfold sync_activate. destruct activate.
  - rewrite item_get_write. by rewrite (proj2 (String.eqb_neq _ _)) by done.
  - unfold item_remove. rewrite (item_get_filter (fun k => negb (String.eqb k "activate"))). by rewrite (proj2 (String.eqb_neq _ _)) by done.
Qed.
(** A line that was written says the binding. *)
Lemma synced_cell_says key id cell : ref_wf id = true -> is_Some (pr_tag id) \/ is_Some (pr_digest id) -> cell_says (synced_cell [] key id cell) id = true.
Proof.
  intros Hwf Hspec. unfold synced_cell. simpl. destruct (cell_says cell id) eqn:E; [done|]. unfold cell_says. simpl.
  unfold parse_tool_value. rewrite (proj1 (ref_parse_display _ Hwf "")). simpl.
  destruct (bool_decide (pr_tag id = None) && bool_decide (pr_digest id = None)) eqn:En; [|by apply bool_decide_eq_true].
  apply andb_true_iff in En as [Ht%bool_decide_eq_true Hd%bool_decide_eq_true]. rewrite Ht, Hd in Hspec. by destruct Hspec as [[? ?]|[? ?]].
Qed.

Section Edit.
Context (root root' : Entries) (candidate : ProjectConfig) (Hwf : config_wf candidate) (Happly : apply_document root candidate = Some root').
Lemma apply_parts : exists root1, sync_section (sync_activate root (pc_activate candidate)) "tools" (pc_tools candidate) [] = Some root1 /\
  (pc_groups candidate = [] /\ root' = root1 \/
   update_table root1 "group" true (fun groups =>
     sync_groups (List.filter (fun e => bool_decide (is_Some (om_get e.1 (pc_groups candidate)))) groups) (pc_groups candidate)) = Some root').
Proof.
  revert Happly. unfold apply_document. destruct (sync_section _ _ _ _) as [root1|] eqn:Es; simpl; [|done]. intros Hg. exists root1. split; [done|].
  destruct (pc_groups candidate); [injection Hg as <-; by left|by right].
Qed.
Lemma apply_tools key : item_get key (entries_at root' "tools") =
  om_get key (pc_tools candidate) ≫= fun id => synced_cell [] key id (item_get key (entries_at root "tools")).
Proof.
  destruct apply_parts as (root1 & [Hs Hk]%sync_section_at & Hg); [|apply Hwf].
  assert (Ht : entries_at root1 "tools" = entries_at root' "tools").
  { destruct Hg as [[_ ->]|[_ Hk']%update_table_at]; [done|]. unfold entries_at. by rewrite Hk'. }
  rewrite <- Ht, Hs. assert (Ha : entries_at (sync_activate root (pc_activate candidate)) "tools" = entries_at root "tools"); [|by rewrite Ha].
  unfold entries_at. by rewrite sync_activate_other.
Qed.
Lemma apply_groups name group key : In (name, group) (pc_groups candidate) ->
  item_get key (entries_at (entries_at (entries_at root' "group") name) "tools") =
  om_get key (gr_tools group) ≫= fun id => synced_cell (gr_inherited group) key id (item_get key (entries_at (entries_at (entries_at root "group") name) "tools")).
Proof.
  intros Hin. destruct apply_parts as (root1 & [Hs Hk]%sync_section_at & [[Hn _]|[Hu _]%update_table_at]); [by rewrite Hn in Hin| |apply Hwf].
  apply sync_groups_at in Hu as [Hg _]; [|apply Hwf|by intros n g Hing; apply (cw_group _ Hwf _ _ Hing)]. rewrite (Hg name group Hin key).
  pose proof (entries_at_filter (fun k => bool_decide (is_Some (om_get k (pc_groups candidate)))) (entries_at root1 "group") name) as Hf. cbv beta in Hf.
  rewrite Hf by (apply bool_decide_eq_true; rewrite (proj2 (om_get_In _ _ _ (cw_groups _ Hwf)) Hin); eauto).
  assert (Hgr : entries_at root1 "group" = entries_at root "group"); [|by rewrite Hgr]. unfold entries_at. rewrite Hk by done. by rewrite sync_activate_other.
Qed.
Lemma apply_other key : key <> "activate" -> key <> "tools" -> key <> "group" -> item_get key root' = item_get key root.
Proof.
  intros Ha Ht Hg. destruct apply_parts as (root1 & [_ Hk]%sync_section_at & Hgr); [|apply Hwf]. rewrite <- (sync_activate_other root (pc_activate candidate)) by done.
  rewrite <- Hk by done. destruct Hgr as [[_ ->]|[_ Hk']%update_table_at]; [done|]. by apply Hk'.
Qed.
End Edit.

(** C33: The edit of [ocx.toml] touches only the lines it has to.  After [apply], every key of
    the document other than [activate], [tools] and [group] holds the item it held; in [tools] and
    in the tools of every declared group exactly the candidate's bindings are left, and the line
    of a binding is the old one, comment and spacing included, wherever that line already says
    the identifier or is a [{ from = "default" }] of a reference, and otherwise the printed
    identifier in the old line's decor; a written line reads back as its binding. *)
Theorem document_edit_minimal (root root' : Entries) (candidate : ProjectConfig)
    (Hwf : config_wf candidate) (Happly : apply_document root candidate = Some root') :
  (forall key, key <> "activate" -> key <> "tools" -> key <> "group" -> item_get key root' = item_get key root) /\
  (forall key, item_get key (entries_at root' "tools") =
     om_get key (pc_tools candidate) ≫= fun id => synced_cell [] key id (item_get key (entries_at root "tools"))) /\
  (forall name group key, In (name, group) (pc_groups candidate) ->
     item_get key (entries_at (entries_at (entries_at root' "group") name) "tools") =
     om_get key (gr_tools group) ≫= fun id =>
       synced_cell (gr_inherited group) key id (item_get key (entries_at (entries_at (entries_at root "group") name) "tools"))) /\
  (forall key id, om_get key (pc_tools candidate) = Some id -> ref_wf id = true -> is_Some (pr_tag id) \/ is_Some (pr_digest id) ->
     cell_says (item_get key (entries_at root' "tools")) id = true).
Proof.
  split_and!.
  - intros key. by eapply apply_other.
  - intros key. by eapply apply_tools.
  - intros name group key. by eapply apply_groups.
  - intros key id Hid Hrw Hspec. rewrite (apply_tools root root' candidate Hwf Happly key), Hid. simpl. by apply synced_cell_says.
Qed.
