(* ===== verification/SampleProject.v ===== *)
(** * A sample project

    A project file with a default group and a group that follows it, an index that pins every
    tag, a clock that stands still and a disk of named files: the instance at which the
    properties of the lock and of its mutations are shown to be about something, and the runs
    where the code leaves a project it did not mean to leave. *)

From stdpp Require Import base decidable list option numbers strings gmap.
From Stdlib Require Import Lia Ascii.
From S2P Require Import Prelude OMap Text Digest PackageRef Platform Registry Store Clean IndexStore Metadata.
From S2P Require Import Ssrf LocalIndex IndexChain IndexSelect ConfigLoad ProjectConfig ProjectLock LockSpec ProjectMutation.
From S2P Require Import ToolSet Samples SampleRegistry SampleIndex.
Local Open Scope ocx_scope.
Local Open Scope string_scope.

(** ** The libraries *)

(** A JSON value as text, which is its own hash. *)
Fixpoint json_text (v : Json) : string :=
  match v with
  | JString s => s +:+ ";"
  | JArray items => "[" +:+ foldr (fun i acc => json_text i +:+ acc) "]" items
  | JObject members => "{" +:+ foldr (fun m acc => m.1 +:+ json_text m.2 +:+ acc) "}" members
  | _ => "?"
  end.
Definition tool (repository tag : string) : PackageRef := mkPackageRef "ocx.sh" repository (Some tag) None.
Definition raw_project (uv : string) : RawProjectConfig :=
  mkRawProject [("cmake", "ocx.sh/cmake:3"); ("uv", uv)] []
    [("lint", [("tools", TomlTable [("ruff", TomlString "ocx.sh/ruff:1"); ("uv", TomlTable [("from", TomlString "default")])])])]
    [] None None None None None false false.
#[export] Instance sample_project_lib : ProjectLib := {|
  toml_project := fun s =>
    if String.eqb s "uv 1" then Some (raw_project "ocx.sh/uv:1") else if String.eqb s "uv 2" then Some (raw_project "ocx.sh/uv:2") else None;
  utf8_from := fun _ => true;
  jcs_to_string := json_text;
  sha256_hex := fun s => s;
|}.
Definition uv1 : ProjectConfig :=
  mkProjectConfig [("cmake", tool "cmake" "3"); ("uv", tool "uv" "1")] []
    [("lint", mkGroup [("ruff", tool "ruff" "1"); ("uv", tool "uv" "1")] ["uv"] [] None)] [] None None None None None.
Example uv1_reads : config_from_str "uv 1" "ocx.toml" = Ok uv1.
Proof. vm_compute. reflexivity. Qed.
Lemma uv1_wf : config_wf uv1.
Proof.
  apply (from_raw_wf (raw_project "ocx.sh/uv:1") "ocx.toml"); [|vm_compute; reflexivity].
  intros name body [[= <- <-]|[]]. repeat constructor; simpl; intuition discriminate.
Qed.

(** ** Editing *)

Definition uv2 : ProjectConfig :=
  mkProjectConfig [("cmake", tool "cmake" "3"); ("uv", tool "uv" "2")] []
    [("lint", mkGroup [("ruff", tool "ruff" "1"); ("uv", tool "uv" "2")] ["uv"] [] None)] [] None None None None None.
Definition retag_uv : ProjectEdit := EditRetag "uv" "lint" "2".
Lemma project_edit_exact_witness : apply_edit uv1 "ocx.toml" retag_uv = Ok uv2 /\ edited uv1 retag_uv uv2.
Proof.
  split; [vm_compute; reflexivity|]. apply (project_edit_exact uv1 uv2 "ocx.toml" retag_uv); [exact uv1_wf|vm_compute; reflexivity].
Defined.
Lemma uv2_wf : config_wf uv2.
Proof. by destruct (apply_edited uv1 uv1_wf "ocx.toml" retag_uv uv2 ltac:(vm_compute; reflexivity)). Qed.
(** Removing the source leaves the reference a literal. *)
Example removed_source_keeps_follower : match apply_edit uv1 "ocx.toml" (EditRemove "uv" (Some "default")) with
  | Ok config => declared_identifier config "lint" "uv" = Some (tool "uv" "1") /\ is_follower config "lint" "uv" = false
  | Err _ => False
  end.
Proof. vm_compute. split; reflexivity. Qed.

(** ** Resolving *)

#[export] Instance sample_clock : ResolveClock unit := {|
  with_timeout := fun A _ m w => match m w with (Ok a, w) => (Ok (Some a), w) | (Err e, w) => (Err e, w) end;
  clock_sleep := fun _ w => w;
  utc_now := fun _ => "2026-01-01T00:00:00Z";
  generated_by := "ocx 0.1.0";
|}.
#[export] Instance sample_timer : TimerOk (W := unit).
Proof. constructor. intros A d m w a w'. unfold with_timeout, sample_clock. destruct (m w) as [[b|e] w1]; by intros [= <- <-]. Qed.
Definition leaf (c : ascii) : Digest := DSha256 (String.concat "" (repeat (String c "") 64)).
(** Every tag of the index stands for the leaf [c]. *)
Definition index_at (c : ascii) : Index unit :=
  mkIndex (fun _ w => (Ok (Some (leaf c)), w)) (fun id w => (Ok (Some [(clone_with_digest id (leaf c), linux_amd64)]), w)).
Definition in_order (n : nat) : nat := n.

Definition lock_of (r : result PError ProjectLock * unit) : ProjectLock := match r with (Ok lock, _) => lock | _ => mkProjectLock (mkLockMetadata LockV4 1 "" "" "") [] end.
Definition first_run := resolve_lock in_order uv1 (index_at "a") [] default_options tt.
Definition lock1 : ProjectLock := Eval vm_compute in lock_of first_run.
Definition retag_run := resolve_lock_touched in_order uv2 uv1 lock1 (index_at "b") [("lint", "uv")] default_options tt.
Definition lock2 : ProjectLock := Eval vm_compute in lock_of retag_run.
Example first_run_locks : first_run = (Ok lock1, tt).
Proof. vm_compute. reflexivity. Qed.
Example retag_run_locks : retag_run = (Ok lock2, tt).
Proof. vm_compute. reflexivity. Qed.
(** The retagged source and its follower moved, the others did not. *)
Example retag_pins : map (fun t => (tool_key t, map snd (lt_platforms t))) (pl_tools lock2) =
  [(("default", "cmake"), [leaf "a"]); (("default", "uv"), [leaf "b"]); (("lint", "ruff"), [leaf "a"]); (("lint", "uv"), [leaf "b"])].
Proof. vm_compute. reflexivity. Qed.

Lemma locks_stay_faithful_witness : is_current lock2 uv2 = true /\ faithful uv2 lock2.
Proof.
  split; [vm_compute; reflexivity|]. apply (locks_stay_faithful uv2 lock2).
  eapply (history_edit in_order uv1 lock1 "ocx.toml" retag_uv uv2 (index_at "b") [("lint", "uv")] default_options tt lock2 tt).
  - eapply (history_first in_order uv1 (index_at "a") default_options tt lock1 tt); [exact uv1_wf|exact first_run_locks].
  - vm_compute. reflexivity.
  - exact retag_run_locks.
Defined.
Lemma lock1_platforms : lock_platforms_ok lock1.
Proof. exact (el_platforms uv1 lock1 (fa_exact uv1 lock1 (resolve_lock_faithful in_order uv1 (index_at "a") default_options tt lock1 tt uv1_wf first_run_locks))). Qed.
Lemma touched_keeps_other_pins_witness : exact_lock uv2 lock2 /\ expand_touched uv2 (Some lock1) [("lint", "uv")] = [("default", "uv"); ("lint", "uv")].
Proof.
  split; [|vm_compute; reflexivity].
  exact (proj1 (proj2 (touched_keeps_other_pins in_order uv2 uv1 lock1 lock2 (index_at "b") [("lint", "uv")] default_options tt tt uv2_wf lock1_platforms retag_run_locks))).
Defined.

(** The project file edited by hand and reconciled: [cmake] moves to another tag. *)
Definition cmake4 : ProjectConfig := with_tools uv1 [("cmake", tool "cmake" "4"); ("uv", tool "uv" "1")].
Lemma cmake4_wf : config_wf cmake4.
Proof.
  destruct uv1_wf as [_ Hg Hn Hb]. split; [vm_compute; repeat constructor|exact Hg|exact Hn|].
  intros group body [[= <- <-]|[]]. destruct (Hb "lint" _ (or_introl eq_refl)) as [Ht Hi _]. split; [exact Ht|exact Hi|].
  intros name [<-|[]]. exists (tool "uv" "1"). split; vm_compute; reflexivity.
Qed.
Definition reconcile_run := resolve_lock_reconcile in_order cmake4 (Some lock1) (index_at "c") [] default_options tt.
Definition lock3 : ProjectLock := Eval vm_compute in match reconcile_run with (Ok (lock, _), _) => lock | _ => lock1 end.
Example reconcile_run_locks : reconcile_run = (Ok (lock3, [("default", "cmake")]), tt).
Proof. vm_compute. reflexivity. Qed.
Lemma lock1_carriable : carriable cmake4 (carried_tools (Some lock1)).
Proof.
  apply (faithful_carriable uv1); [exact uv1_wf| |].
  - eapply resolve_lock_faithful; [exact uv1_wf|exact first_run_locks].
  - intros group name Hf _. exact Hf.
Qed.

(** *** A literal that becomes a reference

    [lint] had its own [uv] at another tag, and now takes the default one.  The reconciliation of
    [ocx lock] files it as adopting the carried pin, but the changed spelling also puts it, and
    with it the source that did not change, among the bindings to resolve: the lock ends with two
    entries for one binding, at two digests, and the source has moved. *)
Definition own_uv : ProjectConfig :=
  mkProjectConfig [("uv", tool "uv" "1")] [] [("lint", mkGroup [("uv", tool "uv" "2")] [] [] None)] [] None None None None None.
Definition shared_uv : ProjectConfig :=
  mkProjectConfig [("uv", tool "uv" "1")] [] [("lint", mkGroup [("uv", tool "uv" "1")] ["uv"] [] None)] [] None None None None None.
Example redirected_reference_is_locked_twice :
  let previous := lock_of (resolve_lock in_order own_uv (index_at "a") [] default_options tt) in
  match resolve_lock_reconcile in_order shared_uv (Some previous) (index_at "b") [] default_options tt with
  | (Ok (lock, touched), _) =>
      map (fun t => (tool_key t, map snd (lt_platforms t))) (pl_tools lock) =
        [(("default", "uv"), [leaf "b"]); (("lint", "uv"), [leaf "b"]); (("lint", "uv"), [leaf "a"])] /\
      touched = [("default", "uv"); ("lint", "uv"); ("lint", "uv")] /\
      (resolve_lock_touched in_order shared_uv shared_uv lock (index_at "b") [] default_options tt).1 =
        Err (stale_hash lock shared_uv)
  | _ => False
  end.
Proof. vm_compute. split; [reflexivity|split; reflexivity]. Qed.

(** ** Reading a lock *)

(** The candidates of the sample index, written into an entry, and what a host takes from it. *)
Definition fetching := ix_fetch_candidates (chain_index (fun _ => "") (chain_over ModeDefault [both])) (cmake_at "1.0") swept.
Definition fetched : list (PackageRef * Platform) := [(clone_with_digest (cmake_at "1.0") sample_digest, linux_amd64)].
Lemma lock_read_agrees_witness : build_platforms_map fetched = Ok [("linux/amd64", sample_digest)] /\
  match selection_result linux_amd64 fetched, lookup_host_leaf [("linux/amd64", sample_digest)] linux_amd64 with
  | SelFound id, Found leaf => pr_digest id = Some leaf.1
  | _, _ => False
  end.
Proof.
  assert (fetching.1 = Ok (Some fetched)) as Hr by (vm_compute; reflexivity).
  assert (fetching = (Ok (Some fetched), fetching.2)) as Hs by (rewrite <- Hr; apply surjective_pairing).
  split; [vm_compute; reflexivity|].
  exact (lock_read_agrees (fun _ => "") (chain_over ModeDefault [both]) (cmake_at "1.0") swept fetching.2 fetched [("linux/amd64", sample_digest)] linux_amd64
    Hs ltac:(vm_compute; reflexivity)).
Defined.

(** ** The text of a lock *)

#[export] Instance TextTool_eq_dec : EqDecision TextTool.
Proof. solve_decision. Defined.
#[export] Instance LockMetadata_eq_dec : EqDecision LockMetadata.
Proof. solve_decision. Defined.
#[export] Instance TextLock_eq_dec : EqDecision TextLock.
Proof. solve_decision. Defined.
Definition document_of (lock : ProjectLock) : TextLock := Eval cbv in mkTextLock (pl_metadata lock) (map text_tool (sort_tools (pl_tools lock))).
(** The second lock was made in the second of the first one: it is stamped one later. *)
Definition document1 : TextLock := Eval vm_compute in document_of lock1.
Definition document2 : TextLock := Eval vm_compute in document_of (with_generated_at lock2 "2026-01-01T00:00:01Z").
#[export] Instance sample_lock_lib : LockLib := {|
  toml_lock_version := fun _ => Some 4%N;
  toml_lock := fun s => if String.eqb s "lock 1" then Some document1 else if String.eqb s "lock 2" then Some document2 else None;
  toml_lock_text := fun d => if decide (d = document1) then Some "lock 1" else if decide (d = document2) then Some "lock 2" else None;
  bump_timestamp_one_second := fun _ => Some "2026-01-01T00:00:01Z";
|}.
#[export] Instance sample_lock_lib_ok : LockLibOk.
Proof. split; intros document s; simpl; repeat case_decide; intros; simplify_eq; reflexivity. Qed.
Lemma lock1_tools_wf : Forall tool_wf (pl_tools lock1).
Proof.
  repeat constructor; try (vm_compute; reflexivity); intros key digest Hin; simpl in Hin;
    (destruct Hin as [Hin|[]]; injection Hin as <- <-; vm_compute; reflexivity).
Qed.
Lemma lock_text_roundtrip_witness : to_toml_string lock1 = Ok "lock 1" /\ lock_from_str "lock 1" "ocx.lock" = Ok lock1.
Proof.
  assert (to_toml_string lock1 = Ok "lock 1") as Hprint by (vm_compute; reflexivity). split; [exact Hprint|].
  exact (proj1 (lock_text_roundtrip lock1 "lock 1" "ocx.lock" lock1_tools_wf Hprint)).
Defined.

(** ** A commit *)

(** A disk of named files with one temporary name; [syncs] says whether directories can be synced. *)
Notation Names := (gmap string string).
Definition sample_project_disk (syncs : bool) : ProjectDisk Names := {|
  pd_open := fun p w => match w !! p with Some b => Ok (mkOpened (Some (FtFile, N.of_nat (String.length b))) (fun _ => Some b)) | None => Err true end;
  pd_read := fun p w => match w !! p with Some b => Ok b | None => Err true end;
  pd_read_bounded := fun p _ w => match w !! p with Some b => Ok b | None => Err (SnapshotIo true) end;
  pd_len := fun p w => (fun b => N.of_nat (String.length b)) <$> w !! p;
  pd_symlink_metadata := fun p w => match w !! p with Some _ => Ok (FtFile, 420%N) | None => Err true end;
  pd_create_dir_all := fun _ w => (Ok tt, w);
  pd_temp_in := fun _ w => (Ok "tmp", <["tmp" := ""]> w);
  pd_write_all := fun t b w => (Ok tt, <[t := b]> w);
  pd_set_permissions := fun _ _ w => (Ok tt, w);
  pd_sync_data := fun _ w => (Ok tt, w);
  pd_persist := fun t p w =>
    match (if String.eqb t "tmp" then w !! t else None) with Some b => (Ok tt, <[p := b]> (delete t w)) | None => (Err true, w) end;
  pd_drop_temp := fun t w => if String.eqb t "tmp" then delete t w else w;
  pd_sync_dir := fun _ w => (if syncs then Ok tt else Err false, w);
  pd_remove_file := fun p w => match w !! p with Some _ => (Ok tt, delete p w) | None => (Err true, w) end;
  pd_lock := fun _ w => (Ok tt, w);
  pd_unlock := fun w => w;
  register_project_dir_best_effort := fun _ _ w => w;
|}.
#[export] Instance sample_syncing_disk : ProjectDisk Names := sample_project_disk true.
Lemma temp_name p : String.eqb p "tmp" = false -> p <> "tmp".
Proof. by intros E%String.eqb_neq. Qed.
#[export] Instance sample_atomic : AtomicDisk Names.
Proof.
  refine {| file_of := fun w p => w !! p; is_temp := fun p => String.eqb p "tmp" |}; simpl; try done.
  - intros p w b. by destruct (w !! p); intros [= ->].
  - intros p w. by destruct (w !! p).
  - intros p w. by destruct (w !! p).
  - intros _ w p Hp%temp_name. by rewrite lookup_insert_ne.
  - intros _ w t w' [= <- _]. done.
  - intros t b w w' [= <-]. by rewrite lookup_insert_eq.
  - intros t b w p Hp. by rewrite lookup_insert_ne.
  - intros t p w w'. destruct (String.eqb t "tmp"); [|done]. destruct (w !! t); [|done]. intros [= <-]. by rewrite lookup_insert_eq.
  - intros t p w e w' q. destruct (String.eqb t "tmp"); [destruct (w !! t)|]; by intros [= _ <-].
  - intros t p w q Hq Ht%temp_name. destruct (String.eqb t "tmp") eqn:E; [|done]. apply String.eqb_eq in E as ->.
    destruct (w !! "tmp"); simpl; [|done]. by rewrite lookup_insert_ne, lookup_delete_ne.
  - intros t w p Ht%temp_name. destruct (String.eqb t "tmp") eqn:E; [|done]. apply String.eqb_eq in E as ->. by rewrite lookup_delete_ne.
  - intros p w. destruct (w !! p) eqn:E; simpl; [by rewrite lookup_delete_eq|done].
  - intros p w. by destruct (w !! p).
  - intros p w q Hq. destruct (w !! p); simpl; [by rewrite lookup_delete_ne|done].
Defined.

(** The document of [uv 1]: the [tools] of the default group carry a comment. *)
Definition document_uv1 : Document :=
  mkDocument [("tools", ItemTable false [("cmake", ItemText "# builds" "ocx.sh/cmake:3"); ("uv", ItemText "# python" "ocx.sh/uv:1")]);
              ("group", ItemTable true [("lint", ItemTable true [("tools", ItemTable false
                [("ruff", ItemText "" "ocx.sh/ruff:1"); ("uv", ItemInline "" [("from", ItemText "" "default")])])])])] "".
#[export] Instance sample_document_lib : DocumentLib := {|
  document_parse := fun s => if String.eqb s "uv 1" then Some document_uv1 else None;
  document_display := fun d =>
    match item_get "uv" (entries_at (doc_entries d) "tools") with
    | Some (ItemText _ text) => if String.eqb text "ocx.sh/uv:2" then "uv 2" else "uv 1"
    | _ => ""
    end;
|}.
Lemma document_edit_minimal_witness : exists root', apply_document (doc_entries document_uv1) uv2 = Some root' /\
  item_get "cmake" (entries_at root' "tools") = Some (ItemText "# builds" "ocx.sh/cmake:3") /\
  item_get "uv" (entries_at root' "tools") = Some (ItemText "# python" "ocx.sh/uv:2") /\
  item_get "uv" (entries_at (entries_at (entries_at root' "group") "lint") "tools") = Some (ItemInline "" [("from", ItemText "" "default")]).
Proof.
  destruct (apply_document (doc_entries document_uv1) uv2) as [root'|] eqn:E; [|vm_compute in E; discriminate E].
  exists root'. split; [reflexivity|]. destruct (document_edit_minimal (doc_entries document_uv1) root' uv2 uv2_wf E) as (_ & Ht & Hg & _).
  split; [rewrite Ht; vm_compute; reflexivity|]. split; [rewrite Ht; vm_compute; reflexivity|].
  rewrite (Hg "lint" (mkGroup [("ruff", tool "ruff" "1"); ("uv", tool "uv" "2")] ["uv"] [] None) "uv" (or_introl eq_refl)). vm_compute. reflexivity.
Defined.

(** [ocx upgrade]-like change of [uv]: open, stage, resolve, commit. *)
Definition before : Names := <["ocx.toml" := "uv 1"]> (<["ocx.lock" := "lock 1"]> ∅).
Definition opened_guard : MutationGuard := mkGuard "ocx.toml" "ocx.lock" "home" (mkSnapshot uv1 "uv 1") (Some lock1) (Some "lock 1").
Definition staged_uv2 : StagedMutation := mkStaged uv2 true.
Lemma guard_opens : open_guard "ocx.toml" "ocx.lock" "home" before = (Ok opened_guard, before).
Proof.
  assert ((open_guard "ocx.toml" "ocx.lock" "home" before).1 = Ok opened_guard) as Hr by (vm_compute; reflexivity).
  rewrite (surjective_pairing (open_guard _ _ _ before)), Hr. f_equal.
Qed.
Example uv2_staged : stage opened_guard (fun config => apply_edit config "ocx.toml" retag_uv) = Ok staged_uv2.
Proof. vm_compute. reflexivity. Qed.
Definition committing := commit opened_guard staged_uv2 lock2 before.
Lemma commit_leaves_files_whole_witness : committing.1 = Ok ("ocx.toml", "ocx.lock") /\ committed opened_guard staged_uv2 lock2 before committing.2.
Proof.
  assert (committing.1 = Ok ("ocx.toml", "ocx.lock")) as Hr by (vm_compute; reflexivity). split; [exact Hr|].
  assert (committing = (Ok ("ocx.toml", "ocx.lock"), committing.2)) as Hs by (rewrite <- Hr; apply surjective_pairing).
  exact (proj2 (proj2 (proj2 (commit_leaves_files_whole "ocx.toml" "ocx.lock" "home" opened_guard staged_uv2 lock2 _ before before before committing.2
    eq_refl eq_refl ltac:(discriminate) guard_opens eq_refl Hs)))).
Defined.
(** A manifest that cannot be edited: the lock that was already written is put back. *)
Example failed_commit_restores :
  let guard := mkGuard "ocx.toml" "ocx.lock" "home" (mkSnapshot uv1 "not toml") (Some lock1) (Some "lock 1") in
  let run := commit guard staged_uv2 lock2 before in
  is_ok run.1 = false /\ run.2 !! "ocx.lock" = Some "lock 1" /\ run.2 !! "ocx.toml" = Some "uv 1".
Proof. vm_compute. split_and!; reflexivity. Qed.
(** A directory that cannot be synced after the rename: the commit fails, with the new lock in
    place beside the old manifest. *)
Example unsynced_rename_splits_the_pair :
  let run := @commit _ _ _ Names (sample_project_disk false) opened_guard staged_uv2 lock2 before in
  is_ok run.1 = false /\ run.2 !! "ocx.lock" = Some "lock 2" /\ run.2 !! "ocx.toml" = Some "uv 1".
Proof. vm_compute. split_and!; reflexivity. Qed.

(** ** A run *)

(** [lint] and the default group share [uv]; a positional takes [ruff] from elsewhere. *)
Definition ruff_here : PositionalPackage := mkPositional "ruff" (tool "forks/ruff" "9").
Definition run_tools : list ResolvedTool :=
  [mkResolvedTool "ruff" (tool "forks/ruff" "9") OriginExplicit;
   mkResolvedTool "uv" (clone_with_digest (tool "uv" "1") (leaf "a")) (OriginGroup "lint");
   mkResolvedTool "cmake" (clone_with_digest (tool "cmake" "3") (leaf "a")) (OriginGroup "default")].
Lemma lock1_unique : List.NoDup (map tool_key (pl_tools lock1)).
Proof. repeat constructor; simpl; intuition discriminate. Qed.
Lemma tool_set_exact_witness : compose_tool_set uv1 (Some lock1) ["lint"; "default"; "lint"] [ruff_here] linux_amd64 = Ok run_tools /\
  tool_set uv1 lock1 ["lint"; "default"; "lint"] [ruff_here] linux_amd64 run_tools.
Proof.
  assert (compose_tool_set uv1 (Some lock1) ["lint"; "default"; "lint"] [ruff_here] linux_amd64 = Ok run_tools) as Hrun by (vm_compute; reflexivity).
  split; [exact Hrun|]. pose proof (tool_set_exact uv1 lock1 ["lint"; "default"; "lint"] [ruff_here] linux_amd64) as Hexact. rewrite Hrun in Hexact.
  apply Hexact; [exact lock1_unique|vm_compute; reflexivity].
Defined.
(** Two groups that lock one binding at different content: the run is refused, unless a positional decides it. *)
Definition own_lock : ProjectLock := lock_of (resolve_lock in_order own_uv (index_at "a") [] default_options tt).
Definition own_lock_split : ProjectLock :=
  mkProjectLock (pl_metadata own_lock) (map (fun t => if String.eqb (lt_group t) "lint" then mkLockedTool (lt_name t) (lt_group t) (lt_repository t) (lt_declared t) [("linux/amd64", leaf "b")] else t) (pl_tools own_lock)).
Example clashing_groups_refused :
  compose_tool_set own_uv (Some own_lock_split) ["default"; "lint"] [] linux_amd64 =
    perr "" (DuplicateToolAcrossSelectedGroups "uv" "default" "lint") /\
  is_ok (compose_tool_set own_uv (Some own_lock_split) ["default"; "lint"] [mkPositional "uv" (tool "uv" "3")] linux_amd64) = true.
Proof. vm_compute. split; reflexivity. Qed.
Example positional_texts :
  parse_positional "py=ghcr.io/acme/uv:1" "ocx.sh" = Ok (mkPositional "py" (mkPackageRef "ghcr.io" "acme/uv" (Some "1") None)) /\
  parse_positional "acme/uv" "ocx.sh" = Ok (mkPositional "uv" (mkPackageRef "ocx.sh" "acme/uv" None None)).
Proof. vm_compute. split; reflexivity. Qed.
